(* ===== verification/_CoqProject ===== *)
-Q . S2P
Prelude.v
Slices.v
Text.v
Float64.v
Reader.v
AsyncIo.v
ReadExt.v
StreamCopy.v
HttpLine.v
HttpChunkDecode.v
HttpChunkEncode.v
HttpBody.v
HttpToChunked.v
IcapPreview.v
Limit.v
LimitedStream.v
DatagramLimit.v
WeightedCycle.v
Selective.v
Leb128.v
Tlv.v
Domain.v
IpAddr.v
Host.v
Socks.v
SocksAuth.v
SocksUdp.v
ProxyProtocol.v
TlsExtension.v
Tls.v
TlsAccept.v
Ber.v
Ldap.v
LdapClient.v
QuicFrame.v
QuicHandshake.v
QuicPacket.v
SmtpText.v
SmtpDecode.v
SmtpEncode.v
Inspect.v
InspectSpec.v
Inspector.v
Inspection.v
Acl.v
AclInstances.v
AclSpec.v
AclPolicy.v
UdpRelay.v
Access.v
