(* ===== verification/Prelude.v ===== *)
(** * A verification of the protocol and stream code of vey

    vey is a family of proxy programs.  Everything they do starts with bytes
    that a peer controls: TLS records and client hellos, QUIC Initial packets,
    LDAP answers, SMTP message texts, HTTP bodies, SOCKS requests, PROXY headers.
    This development models the code that reads (and writes) these formats, the
    code that moves bytes from one stream to another, the rate limits on the way,
    the choice of the next hop, the inspection that finds out which protocol a
    connection speaks, and the rules that say who may reach what.  It proves that
    the code reads what it should, that it does so however the bytes are cut into
    reads, that what is sent on is what was received, that limits are kept, that
    nothing goes where the rules do not permit it, and that no input makes the
    code panic.

    ** The parts and their files

    - [Prelude] (this file): outcomes of Rust functions, machine integers, bytes
      and slices, weakest preconditions, and the lemmas and tactics on them.
    - [Slices], [Text]: binary search and the stable sort of slices; strings:
      UTF-8, characters and trimming.
    - [Float64]: the [f64] operations that the weights of nodes go through.
    - [Reader]: the transport under an [AsyncRead] as a list of events, and
      [lib/vey-io-ext/src/stream/ext/read_all_once.rs].
    - [AsyncIo]: polls and the loop of a task that polls until it is done,
      writers, and the traits [AsyncRead] and [AsyncBufRead] as classes with
      their laws.  The event list of [Reader] is one instance; the readers below
      are others, so that they can be put on top of each other.
    - [ReadExt]: reading a number of bytes or up to a delimiter, and writing all
      ([lib/vey-io-ext/src/stream/ext/]); programs that read one field after the
      other, and the rules to reason about them.
    - [StreamCopy]: [lib/vey-io-ext/src/stream/copy.rs], the copy from a reader
      to a writer through a buffer.
    - [HttpLine], [HttpChunkDecode], [HttpChunkEncode], [HttpBody],
      [HttpToChunked]: [lib/vey-http/src/parse/chunked_line.rs] and
      [lib/vey-http/src/body/]: size lines, the decoder and the encoder of
      chunked bodies, the reader that forwards a body as it is, and the transfer
      of any body as a chunked one, which puts [StreamCopy] on top of [HttpBody]
      or uses [HttpChunkEncode].
    - [IcapPreview]: [lib/vey-icap-client/src/reqmod/h1/preview.rs]: the first
      part of a body is read for an ICAP server, the rest is sent after its
      answer, over [HttpChunkDecode], [HttpBody] and [HttpToChunked].
    - [Limit]: [lib/vey-io-ext/src/limit/]: fixed windows, token buckets, the
      limiter of a connection and the counting limiter.
    - [LimitedStream]: [lib/vey-io-ext/src/stream/limited/]: readers and writers
      with a limit, and any number of them on shared buckets.
    - [DatagramLimit]: the limits of datagrams in packets and bytes, of the same
      directory as [Limit].
    - [WeightedCycle], [Selective]: [lib/vey-types/src/collection/]: the schedule
      of the smooth weighted round robin, and the vector of nodes with its picks
      (round robin, random, serial, jump hash, rendezvous, ketama).
    - [Leb128]: [lib/vey-codec/src/leb128.rs], [thrift/var_int.rs] of the same
      crate and [lib/vey-std-ext/src/core/zig_zag.rs].
    - [Tlv]: [lib/vey-codec/src/tlv.rs]; the trait [TlvParse] is a class.
    - [Domain]: [lib/vey-types/src/net/domain.rs].
    - [IpAddr], [Host]: the texts of IP addresses, and hosts and upstream
      addresses ([lib/vey-types/src/net/host.rs], [upstream.rs]).
    - [Socks], [SocksAuth], [SocksUdp]: [lib/vey-socks/src/]: requests and replies
      of versions 4a and 5, the login on both sides and the clients, and the
      header of UDP packets; over [ReadExt] and [Host].
    - [ProxyProtocol]: the encoders of [lib/vey-types/src/net/haproxy/] and the
      readers of [lib/vey-io-ext/src/haproxy/].
    - [TlsExtension]: [lib/vey-codec/src/tls/extension.rs], and the server name
      and ALPN extensions of [lib/vey-types/src/net/tls/].
    - [Tls]: records, handshake messages, the coalescer and the client hello
      ([lib/vey-codec/src/tls/]).
    - [TlsAccept]: the loops of [vey-proxy] that read a client hello from a
      connection and route it ([serve/sni_proxy/task/accept/tls.rs],
      [serve/tls_proxy/task/accept/task.rs], [inspect/tls/mod.rs]); it uses
      [Reader], [Tls], [TlsExtension] and [Domain].
    - [Ber], [Ldap]: [lib/vey-codec/src/ber/] and [lib/vey-codec/src/ldap/].
    - [LdapClient]: [vey-proxy/src/auth/group/ldap/], the bind request, the
      message receiver and the handling of answers, over [Reader] and [Ldap].
    - [QuicFrame], [QuicHandshake], [QuicPacket]: [lib/vey-codec/src/quic/]: the
      variable-length integers and frames, the coalescer of CRYPTO frames, and
      the Initial packets.  A packet hands its frames to a [FrameConsume]; the
      class [FrameConsumeLaws] states what the walk needs of a consumer, and the
      coalescer is an instance of it.
    - [SmtpText], [SmtpDecode], [SmtpEncode]: [lib/vey-smtp-proto/src/io/]: the
      search for the end of a message text, the decoder and the encoder.
    - [Inspect], [Inspector]: [lib/vey-dpi/src/protocol/]: the checks of the first
      data of a connection, one for each protocol, and the inspector that runs
      them; with the loops of [vey-proxy] that feed it
      ([inspect/stream/object.rs], [serve/sni_proxy/task/accept/task.rs]).
      [InspectSpec] says of each check what it needs and what it excludes
      (the judgement [inspects]), [Inspection] puts this together for whole
      connections, down to [TlsAccept].
    - [Acl]: [lib/vey-types/src/acl/], [acl_set/dst_host.rs] and
      [resolve/redirect.rs] of the same crate: rules for hosts, networks, domains,
      expressions, ports and user agents, and the redirection of names.
      [AclInstances] has simple instances of the data structures of other crates,
      [AclSpec] the lemmas on each rule, [AclPolicy] the theorems on rule sets.
    - [UdpRelay]: the sending side of the UDP relay of the direct escaper
      ([vey-proxy/src/escape/direct_fixed/udp_relay/send.rs]) with the lookups of
      [vey-proxy/src/resolve/handle.rs], over [Acl].
    - [Access]: the checks of users and servers ([vey-proxy/src/auth/user.rs],
      [serve/socks_proxy/task/common.rs], which [serve/http_proxy/task/common.rs]
      repeats) and the receiver of the packets of a SOCKS client
      ([serve/socks_proxy/task/udp_associate/recv.rs]), over [Acl] and [SocksUdp].

    ** How the code is translated

    A function that returns [Result] returns a [res]: [Ok], [Err], or [Panic]
    where Rust would panic (a slice out of range, an arithmetic overflow).  A
    method that takes [&mut self] and can fail returns its result beside the new
    state.  An [async] function or a poll takes the list of events that the
    transport will deliver (bytes, a wait, an error) and returns what is left of
    it; a poll returns [Pending] where the code does.  Integers are [Z] in the
    range of their type, with checked or wrapping operations as in the source;
    [usize] has 64 bits and a slice has at most [isize::MAX] bytes.  Names are
    those of the source, with the type in front of a method ([Record_parse] is
    [Record::parse]) and a short prefix in front of record fields.

    Token buckets are shared between threads and changed by atomic operations.
    In [Limit] the code that uses them is a program [prog] that asks a bucket one
    operation after the other.  [LimitedStream] runs many such programs against
    a common store, one operation at a time in any order.  [DatagramLimit] passes
    the store through the operations of one socket.

    [ReadExt] writes an [async] function as a [proc], from the state of the
    stream to a result and the new state, in the notation [let*].  [takes m e used
    a] says that [m] reads exactly [used] however it arrives, returns [a], and
    fails with [e] when the stream ends inside it; [sends m msg] is its
    counterpart for writers.

    Loops are fixpoints with fuel that return [Panic] when it runs out, or [None]
    in [Selective], where the loop of the jump hash has one round per slot.  The fuel
    is computed from the input inside the definition (the length of the data,
    the events and bytes of the transport, the room in a buffer), and the
    theorems that a function returns, or does not panic, show that it is enough.
    The fuel is a constant where the code bounds the rounds: six in the TLS check
    of [Inspect], which looks for six bytes, and four in the lookup of
    [UdpRelay], which is repeated once.
    The number of times a task polls ([await], [read_to_end], [read_limited]) is
    an argument, and the theorems say which number suffices.

    Code outside the repository is a parameter: the conversion of the [idna]
    crate in [Domain], HKDF and AES of OpenSSL in [QuicPacket], the spare
    capacity of a [BytesMut] in [TlsAccept], the hexadecimal parser of the [atoi]
    crate in the HTTP files (the class [Radix16], with its laws in [Radix16Laws]
    and an instance), the random number of [fastrand] in [Limit], and in [Selective]
    the hash functions, the random generator, the unstable sort and the
    logarithm (classes, with laws where a theorem needs them).  In [Acl] the order
    of a hash map ([HashOrder]), the table of networks ([IpNetworks]), the radix
    trie ([Tries]) and the expressions ([Regexes]) are classes with laws, in
    [UdpRelay] the resolver, whose state may change between any two calls, the
    cache of names and the sockets.  What a theorem
    needs of them is a hypothesis of the theorem, and its witness instantiates
    them.

    ** What the theorems show

    - What is sent on is what was received, to the end:
      [stream_copy_completes], [stream_copy_never_loses], [http_body_forwarded],
      [body_sent_as_chunked], [plain_preview_and_rest], [chunked_preview_and_rest],
      [chunked_encoder_transfers], [text_encoder_transfers].
    - The choice of a node: [round_robin_fair] for any mixture of picks,
      [fit_rr_cycle_largest_remainder], [weight_u32_rounds_up],
      [jump_hash_consistent], [rendezvous_picks_highest],
      [ketama_picks_next_point]; [selective_vec_well_formed] is the invariant of
      the vector.
    - SOCKS, PROXY headers and addresses are read as they were written:
      [socks5_client_connects] for a whole connection through a proxy,
      [socks5_login_received], [socks5_request_roundtrip],
      [socks4a_request_roundtrip], [socks_reply_roundtrip],
      [udp_header_roundtrip], [proxy_v2_roundtrip], [proxy_v1_roundtrip],
      [upstream_addr_roundtrip].
    - Nothing goes where it must not: [dst_host_policy], a set of rules decides as
      its abstract policy [decides] says; [udp_packets_checked], a packet of a
      SOCKS client passes the rules of its user and of the server;
      [relay_sends_permitted], the relay has sent to permitted addresses only, in
      every state it can reach; [user_agent_words] and [redirect_by_labels].
    - The protocol of a connection is found: [tls_hello_recognised],
      [http1_request_recognised] on every port and for every cutting of the
      stream; [exclusions_sound], what a check excludes cannot be;
      [inspection_terminates].
    - Limits: [shared_limit_respected] for all interleavings of connections on
      shared buckets, [limited_streams_correct], [limited_reader_completes],
      [count_limit_respected]; for datagrams [datagram_batch_paid_exactly] and
      [local_datagram_limit_respected].
    - Independence of the cutting of the stream: [LdapMessageReceiver_recv_refines],
      [recv_delivers_all_messages], [read_client_hello_delivers],
      [coalescer_reassembles], [quic_coalescer_any_order],
      [chunked_decoder_delivers], [text_reader_stops_at_dot],
      [text_decoder_unstuffs].
    - End to end: [sni_proxy_accepts_by_name] from the first byte of a connection
      to the host it is routed to; [initial_packet_roundtrip]
      against a sender written after RFC 9001 and RFC 9369; [smtp_text_roundtrip];
      [chunked_transfer_roundtrip]; the LDAP client's [bind_request_roundtrip],
      [handle_response_reports_code] and [unsolicited_notification_reconnects].
    - Agreement with a reference definition, or of two implementations:
      [BerLength_parse_x690], [var_int_parse_rfc9000], [Leb128_decode_equiv],
      [parse_tlv_spec], [extension_lookup_agrees_with_iterator],
      [alpn_accepts_exactly_name_lists], [chunked_readers_agree],
      [chunk_line_reads_size].
    - Safety, bounds and termination on arbitrary input:
      [initial_packet_never_panics], [quic_coalescer_safe],
      [read_client_hello_terminates], [chunked_decoder_never_panics],
      [stream_copy_poll_bounded], [socks_receivers_never_panic],
      [proxy_readers_never_panic], [host_parsers_never_panic], and the last parts of [record_framing],
      [client_hello_roundtrip], [LdapMessage_parse_framing].
    - Round trips and functional behaviour of the remaining operations.

    Theorems, and examples on one input, record where the code does not do what
    it means to: [pending_flush_is_forgotten] in [StreamCopy],
    [bare_line_feed_frames_differently] in [HttpBody],
    [transfer_end_is_not_flushed] in [HttpToChunked],
    [preview_loses_part_of_size_line] in [IcapPreview],
    [delayed_batch_keeps_bytes] in [DatagramLimit],
    [mapped_loopback_passes] in [Access],
    [ssh_and_stomp_exclude_each_other], [stomp_in_two_parts_unknown],
    [multiline_greeting_taken_for_ftp], [reset_keeps_pending_reads] and
    [ssh_with_key_exchange_unknown] in [Inspection],
    [poll_read_fills_and_pends] in [SmtpDecode],
    [flush_pending_reports_write_zero] in [SmtpEncode] and
    [retain_clone_guard_off_by_one] in [TlsExtension].

    ** What is not modelled

    Timeouts and idle checks, logging, statistics but for the counters of refused
    requests, task management and configuration; the formatting traits; the LDAP
    connection pool; wakers (a task may be polled again at any time); memory,
    assertions of debug builds, and the flow label and scope of IPv6 socket
    addresses.  Of the libraries, these parts have no model: HTTP heads, trailers
    as header fields, the file [body/preview.rs] of [vey-http] (it is not part of the crate's module
    tree), HTTP/2, the rest of the ICAP client, QUIC over a SOCKS association,
    URLs, the IMAP, FTP and SMTP commands, and the types of routes.  Of the parts
    above: in [Inspect] the names of protocols and their configuration; in [Acl]
    the rules for child domains and the parsing of configured rules; in [UdpRelay]
    the receiving side and the lookups for happy eyeballs; in [Access]
    authentication.  The other escapers and servers of [vey-proxy], the resolvers
    and the other programs are input and output around these libraries. *)

From Stdlib Require Import ZArith Lia Strings.Byte.
From stdpp Require Import base list.
From Stdlib Require Strings.String.
Export String.StringSyntax.

#[global] Open Scope Z_scope.

(** ** Outcomes

    A Rust function that returns [Result<A, E>] either returns [Ok], returns
    [Err], or panics (index or slice out of range, arithmetic overflow,
    [unreachable!]).  The third outcome is a value of the model, so that the
    absence of panics is a theorem. *)

Inductive res (E A : Type) : Type :=
| Ok (a : A)
| Err (e : E)
| Panic.
Arguments Ok {E A} a.
Arguments Err {E A} e.
Arguments Panic {E A}.

(** A computation that cannot return an error, only panic. *)
Abbreviation pure := (res Empty_set).

Definition bind {E A B} (m : res E A) (f : A -> res E B) : res E B :=
  match m with
  | Ok a => f a
  | Err e => Err e
  | Panic => Panic
  end.

(** The conversion that [?] applies to an error ([From::from], [map_err]). *)
Definition map_err {E E' A} (f : E -> E') (m : res E A) : res E' A :=
  match m with
  | Ok a => Ok a
  | Err e => Err (f e)
  | Panic => Panic
  end.

Declare Scope res_scope.
Delimit Scope res_scope with res.
#[global] Open Scope res_scope.

Notation "'let?' x := m 'in' k" := (bind m (fun x => k))
  (at level 10, x name, m at level 100, k at level 200) : res_scope.
Notation "'let?' ' p := m 'in' k" := (bind m (fun p => k))
  (at level 10, p strict pattern, m at level 100, k at level 200) : res_scope.

(** [wp m Q R]: the computation [m] does not panic; it satisfies [Q] when it
    returns and [R] when it fails. *)
Definition wp {E A} (m : res E A) (Q : A -> Prop) (R : E -> Prop) : Prop :=
  match m with
  | Ok a => Q a
  | Err e => R e
  | Panic => False
  end.

(** ** Bytes and machine integers

    A [u8] that is stored in a buffer is a [byte]; every integer a program
    computes with is a [Z] kept in the range of its Rust type. *)

Abbreviation bytes := (list byte).

#[global] Instance byte_eq_dec : EqDecision byte := Byte.byte_eq_dec.

Definition u8 (b : byte) : Z := Z.of_N (Byte.to_N b).

(** [b"..."] *)
Definition bs (s : String.string) : bytes := String.list_byte_of_string s.
Arguments bs s%_string_scope.

(** [x as u8]. *)
Definition to_u8 (z : Z) : byte :=
  match Byte.of_N (Z.to_N (z mod 256)) with
  | Some b => b
  | None => x00
  end.

Definition u16_max : Z := 2 ^ 16 - 1.
Definition u32_max : Z := 2 ^ 32 - 1.
Definition u64_max : Z := 2 ^ 64 - 1.
Definition usize_max : Z := u64_max.
(** Rust bounds every allocation, hence every slice, by [isize::MAX]. *)
Definition isize_max : Z := 2 ^ 63 - 1.

Definition len {A} (l : list A) : Z := Z.of_nat (length l).

(** Checked arithmetic on [usize] and [u64] (both are 64 bits wide). *)
Definition uadd {E} (a b : Z) : res E Z :=
  if a + b <=? u64_max then Ok (a + b) else Panic.

Definition usub {E} (a b : Z) : res E Z :=
  if b <=? a then Ok (a - b) else Panic.

(** [saturating_sub], [saturating_mul] and [saturating_add] of [usize] and
    [u64]. *)
Definition saturating_sub (a b : Z) : Z := Z.max 0 (a - b).
Definition saturating_mul (a b : Z) : Z := Z.min usize_max (a * b).
Definition saturating_add (a b : Z) : Z := Z.min usize_max (a + b).

(** Shifts: the shift amount must be smaller than the width, and the bits
    shifted out of the width are lost. *)
Definition shl {E} (w x n : Z) : res E Z :=
  if (0 <=? n) && (n <? w) then Ok (Z.shiftl x n mod 2 ^ w) else Panic.

Definition shr {E} (w x n : Z) : res E Z :=
  if (0 <=? n) && (n <? w) then Ok (Z.shiftr x n) else Panic.

(** [iN::cast_signed] and [iN::cast_unsigned] at width [w]. *)
Definition cast_unsigned (w x : Z) : Z := x mod 2 ^ w.

Definition cast_signed (w x : Z) : Z :=
  if x <? 2 ^ (w - 1) then x else x - 2 ^ w.

(** [uN::from_be_bytes] and [uN::to_be_bytes]. *)
Fixpoint from_be_acc (acc : Z) (l : bytes) : Z :=
  match l with
  | [] => acc
  | b :: l' => from_be_acc (acc * 256 + u8 b) l'
  end.

Definition from_be (l : bytes) : Z := from_be_acc 0 l.

Fixpoint to_be (n : nat) (z : Z) : bytes :=
  match n with
  | O => []
  | S n' => to_u8 (Z.shiftr z (8 * Z.of_nat n')) :: to_be n' z
  end.

(** ** Slices *)

(** [data[i]] *)
Definition index {E} (data : bytes) (i : Z) : res E byte :=
  if 0 <=? i then
    match data !! Z.to_nat i with
    | Some b => Ok b
    | None => Panic
    end
  else Panic.

(** [&data[a..b]] *)
Definition slice {E A} (data : list A) (a b : Z) : res E (list A) :=
  if (0 <=? a) && (a <=? b) && (b <=? len data)
  then Ok (take (Z.to_nat (b - a)) (drop (Z.to_nat a) data))
  else Panic.

(** [&data[a..]] *)
Definition slice_from {E A} (data : list A) (a : Z) : res E (list A) :=
  slice data a (len data).

(** [data[i] = b] *)
Definition set_index {E} (data : bytes) (i : Z) (b : byte) : res E bytes :=
  if (0 <=? i) && (i <? len data) then Ok (<[Z.to_nat i := b]> data) else Panic.

(** [data[a..b].copy_from_slice(src)] *)
Definition copy_from_slice {E} (data : bytes) (a b : Z) (src : bytes) : res E bytes :=
  if (0 <=? a) && (a <=? b) && (b <=? len data) && (len src =? b - a)
  then Ok (take (Z.to_nat a) data ++ src ++ drop (Z.to_nat b) data)
  else Panic.

(** [Vec::resize(n, 0)] *)
Definition vec_resize (data : bytes) (n : Z) : bytes :=
  if n <=? len data then take (Z.to_nat n) data
  else data ++ replicate (Z.to_nat (n - len data)) x00.

(** [left.starts_with(p)] *)
Definition starts_with (p left : bytes) : bool := bool_decide (take (length p) left = p).

(** [memchr::memchr(c, data)] *)
Fixpoint memchr (c : byte) (data : bytes) : option Z :=
  match data with
  | [] => None
  | b :: l => if bool_decide (b = c) then Some 0 else Z.succ <$> memchr c l
  end.

(** ** Lemmas *)

Section Bytes.

Lemma u8_range (b : byte) : 0 <= u8 b < 256.
Proof.
  unfold u8. pose proof (Byte.to_N_bounded b). lia.
Qed.

Lemma to_u8_u8 (b : byte) : to_u8 (u8 b) = b.
Proof.
  unfold to_u8. pose proof (u8_range b).
  rewrite Z.mod_small by lia. unfold u8.
  rewrite N2Z.id, Byte.of_to_N. reflexivity.
Qed.

Lemma u8_to_u8 (z : Z) : u8 (to_u8 z) = z mod 256.
Proof.
  unfold to_u8, u8. pose proof (Z.mod_pos_bound z 256 ltac:(lia)) as Hz.
  destruct (Byte.of_N (Z.to_N (z mod 256))) as [b|] eqn:E.
  - apply Byte.to_of_N in E. rewrite E. lia.
  - apply Byte.of_N_None_iff in E. lia.
Qed.

Lemma u8_to_u8_small (z : Z) : 0 <= z < 256 -> u8 (to_u8 z) = z.
Proof. intros. rewrite u8_to_u8, Z.mod_small; lia. Qed.

Lemma u8_inj (a b : byte) : u8 a = u8 b -> a = b.
Proof. intros H. rewrite <- (to_u8_u8 a), <- (to_u8_u8 b). by rewrite H. Qed.


(** A decidable property of all bytes is checked by running it 256 times. *)
Lemma u8_forall (P : Z -> bool) :
  forallb (fun n => P (Z.of_nat n)) (seq 0 256) = true ->
  forall z, 0 <= z < 256 -> P z = true.
Proof.
  rewrite forallb_forall. intros H z Hz.
  rewrite <- (Z2Nat.id z) by lia. apply H, in_seq. lia.
Qed.

(** The bit operations of the codecs, as arithmetic. *)
Lemma land_mask x n : 0 <= n -> Z.land x (2 ^ n - 1) = x mod 2 ^ n.
Proof.
  intros. rewrite <- Z.land_ones by lia. f_equal. rewrite Z.ones_equiv. lia.
Qed.

Lemma shiftr_div x n : 0 <= n -> Z.shiftr x n = x / 2 ^ n.
Proof. apply Z.shiftr_div_pow2. Qed.

Lemma shiftl_mul x n : 0 <= n -> Z.shiftl x n = x * 2 ^ n.
Proof. apply Z.shiftl_mul_pow2. Qed.

Lemma land_disjoint a b n : 0 <= n -> 0 <= a < 2 ^ n -> Z.land a (b * 2 ^ n) = 0.
Proof.
  intros Hn Ha. apply Z.bits_inj'. intros i Hi.
  rewrite Z.land_spec, Z.bits_0. destruct (Z.lt_ge_cases i n).
  - rewrite (Z.mul_pow2_bits_low b) by lia. apply andb_false_r.
  - rewrite <- (Z.mod_small a (2 ^ n)), Z.mod_pow2_bits_high by lia. done.
Qed.

Lemma lor_disjoint a b n : 0 <= n -> 0 <= a < 2 ^ n -> Z.lor a (b * 2 ^ n) = a + b * 2 ^ n.
Proof.
  intros. pose proof (Z.add_lor_land a (b * 2 ^ n)).
  rewrite (land_disjoint a b n) in *; lia.
Qed.

(** The two masks of variable length integers. *)
Lemma high_bit (z : Z) : 0 <= z < 256 -> (Z.land z 0x80 =? 0) = (z <? 128).
Proof.
  intros. apply Bool.eqb_prop.
  apply (u8_forall (fun z => Bool.eqb (Z.land z 0x80 =? 0) (z <? 128))); [|done].
  vm_compute. reflexivity.
Qed.

Lemma low_bits (z : Z) : Z.land z 0x7f = z mod 128.
Proof. apply (land_mask z 7). lia. Qed.

Lemma from_be_acc_app acc l l' :
  from_be_acc acc (l ++ l') = from_be_acc (from_be_acc acc l) l'.
Proof. revert acc. induction l; cbn; auto. Qed.

Lemma from_be_acc_eq acc l :
  from_be_acc acc l = acc * 256 ^ len l + from_be l.
Proof.
  unfold from_be. revert acc. induction l as [|b l IH]; intros acc; cbn [from_be_acc].
  - change (len []) with 0. rewrite Z.pow_0_r. lia.
  - rewrite IH, (IH (0 * 256 + u8 b)). unfold len. cbn [length].
    rewrite Nat2Z.inj_succ, Z.pow_succ_r by lia. ring.
Qed.

Lemma from_be_cons b l : from_be (b :: l) = u8 b * 256 ^ len l + from_be l.
Proof. unfold from_be at 1. cbn. rewrite from_be_acc_eq. ring. Qed.

Lemma from_be_range l : 0 <= from_be l < 256 ^ len l.
Proof.
  induction l as [|b l IH].
  - split; reflexivity || done.
  - rewrite from_be_cons. unfold len in *. cbn [length].
    rewrite Nat2Z.inj_succ, Z.pow_succ_r by lia. pose proof (u8_range b). nia.
Qed.

Lemma from_be_app l l' : from_be (l ++ l') = from_be l * 256 ^ len l' + from_be l'.
Proof. unfold from_be at 1. by rewrite from_be_acc_app, from_be_acc_eq. Qed.

Lemma from_be_zeros n : from_be (replicate n x00) = 0.
Proof. induction n as [|n IH]; [done|]. cbn [replicate]. by rewrite from_be_cons, IH. Qed.

Lemma from_be_ones n : from_be (replicate n xff) = 256 ^ Z.of_nat n - 1.
Proof.
  induction n as [|n IH]; [done|]. cbn [replicate]. rewrite from_be_cons, IH.
  unfold len. rewrite length_replicate, Nat2Z.inj_succ, Z.pow_succ_r by lia.
  change (u8 xff) with 255. lia.
Qed.

Lemma from_be_to_be n z : from_be (to_be n z) = z mod 256 ^ Z.of_nat n.
Proof.
  induction n as [|n IH]; [cbn; by rewrite Z.mod_1_r|].
  cbn [to_be]. rewrite from_be_cons, IH, u8_to_u8.
  assert (len (to_be n z) = Z.of_nat n) as ->.
  { clear. unfold len. f_equal. induction n; cbn; congruence. }
  rewrite Z.shiftr_div_pow2 by lia.
  replace (2 ^ (8 * Z.of_nat n)) with (256 ^ Z.of_nat n)
    by (rewrite Z.pow_mul_r by lia; reflexivity).
  rewrite Nat2Z.inj_succ, Z.pow_succ_r, (Z.mul_comm 256) by lia.
  rewrite Z.rem_mul_r by (try apply Z.pow_nonzero; lia).
  ring.
Qed.

Lemma length_to_be n z : length (to_be n z) = n.
Proof. induction n; cbn; congruence. Qed.

Lemma from_be_inj l l' : length l = length l' -> from_be l = from_be l' -> l = l'.
Proof.
  revert l'. induction l as [|b l IH]; intros [|b' l'] Hlen Heq; try done.
  injection Hlen as Hlen. rewrite !from_be_cons in Heq.
  assert (len l = len l') as Hl by (unfold len; lia). rewrite Hl in Heq.
  pose proof (from_be_range l) as Hr. pose proof (from_be_range l') as Hr'. rewrite Hl in Hr.
  destruct (Z.div_mod_unique (256 ^ len l') (u8 b) (u8 b') (from_be l) (from_be l')) as [H1 H2];
    [lia..|].
  f_equal; [by apply u8_inj|by apply IH].
Qed.

Lemma to_be_from_be l : to_be (length l) (from_be l) = l.
Proof.
  apply from_be_inj; [apply length_to_be|]. rewrite from_be_to_be.
  apply Z.mod_small, from_be_range.
Qed.

End Bytes.

Section Length.
Context {A : Type}.
Implicit Types l k : list A.

Lemma len_nonneg l : 0 <= len l.
Proof. unfold len. lia. Qed.

Lemma len_nil : len (@nil A) = 0.
Proof. reflexivity. Qed.

Lemma len_cons (a : A) l : len (a :: l) = 1 + len l.
Proof. unfold len. cbn. lia. Qed.

Lemma len_app l k : len (l ++ k) = len l + len k.
Proof. unfold len. rewrite length_app. lia. Qed.

Lemma len_take n l : len (take n l) = Z.min (Z.of_nat n) (len l).
Proof. unfold len. rewrite length_take. lia. Qed.

Lemma len_drop n l : len (drop n l) = Z.max 0 (len l - Z.of_nat n).
Proof. unfold len. rewrite length_drop. lia. Qed.

Lemma len_replicate n (a : A) : len (replicate n a) = Z.of_nat n.
Proof. unfold len. by rewrite length_replicate. Qed.

Lemma len_insert n (a : A) l : len (<[n := a]> l) = len l.
Proof. unfold len. by rewrite length_insert. Qed.

Lemma len_to_be n v : len (to_be n v) = Z.of_nat n.
Proof. unfold len. by rewrite length_to_be. Qed.

Lemma len_0 l : len l = 0 -> l = [].
Proof. destruct l; [done|]. rewrite len_cons. pose proof (len_nonneg l). lia. Qed.

Lemma take_len_app l k : take (Z.to_nat (len l)) (l ++ k) = l.
Proof. unfold len. rewrite Nat2Z.id. apply take_app_length. Qed.

Lemma drop_len_app l k : drop (Z.to_nat (len l)) (l ++ k) = k.
Proof. unfold len. rewrite Nat2Z.id. apply drop_app_length. Qed.

Lemma drop_take_app l (n m : nat) : (n <= m)%nat -> drop n (take m l) ++ drop m l = drop n l.
Proof.
  intros. rewrite skipn_firstn_comm. replace m with (n + (m - n))%nat at 2 by lia.
  by rewrite <- drop_drop, take_drop.
Qed.

End Length.

Create Rewrite HintDb len.
#[export] Hint Rewrite @len_nil @len_cons @len_app @len_take @len_drop @len_replicate @len_insert : len.
#[export] Hint Resolve len_nonneg u8_range : core.

Ltac len_simpl := autorewrite with len in *.

(** Arithmetic with the fact that lengths are not negative. *)
Ltac len_lia :=
  autorewrite with len in *;
  repeat match goal with
  | |- context [len ?l] =>
      lazymatch goal with H : 0 <= len l |- _ => fail | _ => pose proof (len_nonneg l) end
  | _ : context [len ?l] |- _ =>
      lazymatch goal with H : 0 <= len l |- _ => fail | _ => pose proof (len_nonneg l) end
  | |- context [u8 ?l] =>
      lazymatch goal with H : 0 <= u8 l < 256 |- _ => fail | _ => pose proof (u8_range l) end
  | _ : context [u8 ?l] |- _ =>
      lazymatch goal with H : 0 <= u8 l < 256 |- _ => fail | _ => pose proof (u8_range l) end
  end;
  unfold usize_max, u64_max, u32_max, u16_max, isize_max in *; lia.

(** ** Evaluation of the slice primitives *)

Section Slices.
Context {E A : Type}.

Lemma index_ok (data : bytes) i b :
  0 <= i -> data !! Z.to_nat i = Some b -> index (E := E) data i = Ok b.
Proof.
  intros Hi Hb. unfold index. rewrite Hb. by destruct (Z.leb_spec 0 i); [|lia].
Qed.

Lemma slice_ok (data : list A) a b :
  0 <= a <= b -> b <= len data ->
  slice (E := E) data a b = Ok (take (Z.to_nat (b - a)) (drop (Z.to_nat a) data)).
Proof.
  intros. unfold slice.
  by destruct (Z.leb_spec 0 a), (Z.leb_spec a b), (Z.leb_spec b (len data)); try lia.
Qed.

Lemma slice_app (pre mid post : list A) :
  slice (E := E) (pre ++ mid ++ post) (len pre) (len pre + len mid) = Ok mid.
Proof.
  rewrite slice_ok by len_lia. f_equal.
  rewrite drop_len_app. replace (len pre + len mid - len pre) with (len mid) by lia.
  apply take_len_app.
Qed.

Lemma slice_from_ok (data : list A) a :
  0 <= a <= len data -> slice_from (E := E) data a = Ok (drop (Z.to_nat a) data).
Proof.
  intros. unfold slice_from. rewrite slice_ok by lia. f_equal.
  apply take_ge. rewrite length_drop. unfold len. lia.
Qed.

Lemma slice_from_app (pre post : list A) :
  slice_from (E := E) (pre ++ post) (len pre) = Ok post.
Proof. rewrite slice_from_ok by len_lia. by rewrite drop_len_app. Qed.

(** The same, with the offsets given by equations. *)
Lemma slice_at (pre mid post data : list A) a b :
  data = pre ++ mid ++ post -> a = len pre -> b = a + len mid -> slice (E := E) data a b = Ok mid.
Proof. intros -> -> ->. apply slice_app. Qed.

Lemma slice_from_at (pre post data : list A) a :
  data = pre ++ post -> a = len pre -> slice_from (E := E) data a = Ok post.
Proof. intros -> ->. apply slice_from_app. Qed.

(** Slices of a prefix do not see what follows it. *)
Lemma slice_prefix (d rest : list A) a b :
  0 <= a <= b -> b <= len d -> slice (E := E) (d ++ rest) a b = slice d a b.
Proof.
  intros. rewrite !slice_ok by len_lia. f_equal.
  rewrite drop_app_le by (unfold len in *; lia).
  apply take_app_le. rewrite length_drop. unfold len in *. lia.
Qed.

Lemma slice_from_prefix (d rest : list A) a :
  0 <= a <= len d ->
  slice_from (E := E) (d ++ rest) a = Ok (drop (Z.to_nat a) d ++ rest).
Proof.
  intros. rewrite slice_from_ok by len_lia. f_equal.
  apply drop_app_le. unfold len in *. lia.
Qed.

Lemma copy_from_slice_ok (data src : bytes) a b :
  0 <= a -> len src = b - a -> b <= len data ->
  copy_from_slice (E := E) data a b src =
    Ok (take (Z.to_nat a) data ++ src ++ drop (Z.to_nat b) data).
Proof.
  intros. unfold copy_from_slice.
  destruct (Z.leb_spec 0 a), (Z.leb_spec a b), (Z.leb_spec b (len data)),
    (Z.eqb_spec (len src) (b - a)); try len_lia; done.
Qed.

Lemma set_index_ok (data : bytes) i b :
  0 <= i < len data -> set_index (E := E) data i b = Ok (<[Z.to_nat i := b]> data).
Proof. intros. unfold set_index. by destruct (Z.leb_spec 0 i), (Z.ltb_spec i (len data)); try lia. Qed.

Lemma uadd_ok a b : a + b <= u64_max -> uadd (E := E) a b = Ok (a + b).
Proof. intros. unfold uadd. by destruct (Z.leb_spec (a + b) u64_max); [|lia]. Qed.

Lemma usub_ok a b : b <= a -> usub (E := E) a b = Ok (a - b).
Proof. intros. unfold usub. by destruct (Z.leb_spec b a); [|lia]. Qed.

End Slices.

Lemma memchr_app c pre post : c ∉ pre -> memchr c (pre ++ c :: post) = Some (len pre).
Proof.
  induction pre as [|b pre IH]; cbn [memchr app]; intros Hc.
  - by rewrite bool_decide_eq_true_2.
  - apply not_elem_of_cons in Hc as [Hb Hc]. rewrite bool_decide_eq_false_2 by done.
    rewrite IH by done. cbn. f_equal. len_lia.
Qed.

Lemma memchr_None c l : memchr c l = None -> c ∉ l.
Proof.
  induction l as [|b l IH]; cbn [memchr]; [intros _; apply not_elem_of_nil|].
  case_bool_decide; [done|]. destruct (memchr c l); [done|]. intros _.
  apply not_elem_of_cons. split; [congruence|by apply IH].
Qed.

Lemma memchr_none c l : c ∉ l -> memchr c l = None.
Proof.
  induction l as [|b l IH]; cbn [memchr]; [done|]. intros [Hb Hl]%not_elem_of_cons.
  rewrite bool_decide_eq_false_2 by done. by rewrite IH.
Qed.

Lemma memchr_Some c l p :
  memchr c l = Some p -> exists pre post, l = pre ++ c :: post /\ (c ∉ pre) /\ p = len pre.
Proof.
  revert p. induction l as [|b l IH]; cbn [memchr]; [done|]. intros p. case_bool_decide as Hb.
  - intros [= <-]. exists [], l. subst. split_and!; [done|apply not_elem_of_nil|done].
  - destruct (memchr c l) as [q|]; [|done]. cbn. intros [= <-].
    destruct (IH q eq_refl) as (pre & post & -> & Hc & ->). exists (b :: pre), post.
    split_and!; [done| |len_lia]. apply not_elem_of_cons. split; [congruence|done].
Qed.

Lemma not_in_by_decide (c : byte) (l : bytes) : bool_decide (c ∈ l) = false -> c ∉ l.
Proof. apply bool_decide_eq_false. Qed.

Lemma elem_of_take_elem {A} (x : A) n l : x ∈ take n l -> x ∈ l.
Proof. intros (i & Hi & _)%elem_of_take. by eapply list_elem_of_lookup_2. Qed.

Lemma starts_with_true p l : starts_with p l = true <-> exists rest, l = p ++ rest.
Proof.
  unfold starts_with. rewrite bool_decide_eq_true. split.
  - intros E. exists (drop (length p) l). by rewrite <- E at 1; rewrite take_drop.
  - intros [rest ->]. by rewrite take_app_length.
Qed.

(** A delimiter splits a list in one way only. *)
Lemma split_unique (c : byte) pre post pre' post' :
  c ∉ pre -> c ∉ pre' -> pre ++ c :: post = pre' ++ c :: post' -> pre = pre' /\ post = post'.
Proof.
  intros H H' E. pose proof (memchr_app c pre post H) as Hm. rewrite E, memchr_app in Hm by done.
  injection Hm as Hl. assert (length pre = length pre') as Hl' by (unfold len in Hl; lia).
  destruct (app_inj_1 _ _ _ _ Hl' E) as [-> [= ->]]. done.
Qed.

(** The search for the first delimiter of a stream in the part of it that is
    there: it is found where it is, or all of the part comes before it. *)
Lemma memchr_part (c : byte) p q part later :
  c ∉ p -> p ++ c :: q = part ++ later ->
  match memchr c part with
  | Some n => n = len p /\ exists post, part = p ++ c :: post /\ q = post ++ later
  | None => exists p', p = part ++ p' /\ later = p' ++ c :: q
  end.
Proof.
  intros Hp Heq. destruct (memchr c part) as [n|] eqn:Hm.
  - apply memchr_Some in Hm as (pre & post & -> & Hpre & ->). rewrite <- app_assoc in Heq. cbn [app] in Heq.
    destruct (split_unique _ _ _ _ _ Hp Hpre Heq) as [<- ->]. split; [done|]. by exists post.
  - apply memchr_None in Hm. apply app_eq_inv in Heq as [(k & -> & ->)|(k & -> & Hk)]; [by exists k|].
    destruct k as [|b k]; [exists []; rewrite !app_nil_r; split; [done|by cbn in Hk |- *]|].
    injection Hk as <- _. apply not_elem_of_app in Hm as [_ Hm]. by destruct Hm; left.
Qed.

(** ** Weakest preconditions *)

Section Wp.
Context {E E' A B : Type}.
Implicit Types m : res E A.

Lemma wp_bind m (f : A -> res E B) Q R :
  wp m (fun a => wp (f a) Q R) R -> wp (bind m f) Q R.
Proof. by destruct m. Qed.

Lemma wp_mono m (Q Q' : A -> Prop) (R R' : E -> Prop) :
  wp m Q R -> (forall a, Q a -> Q' a) -> (forall e, R e -> R' e) -> wp m Q' R'.
Proof. destruct m; cbn; auto. Qed.

Lemma wp_map_err (f : E -> E') m Q R :
  wp m Q (fun e => R (f e)) -> wp (map_err f m) Q R.
Proof. by destruct m. Qed.

Lemma wp_not_panic m Q R : wp m Q R -> m <> Panic.
Proof. by destruct m. Qed.

Lemma wp_inv_ok m Q R a : wp m Q R -> m = Ok a -> Q a.
Proof. by intros H ->. Qed.

Lemma wp_inv_err m Q R e : wp m Q R -> m = Err e -> R e.
Proof. by intros H ->. Qed.

(** A [wp] with the strongest postcondition of a computation that is known
    not to panic. *)
Lemma wp_strongest m :
  m <> Panic -> wp m (fun a => m = Ok a) (fun e => m = Err e).
Proof. by destruct m. Qed.

Lemma bind_ok m (f : A -> res E B) b :
  bind m f = Ok b <-> exists a, m = Ok a /\ f a = Ok b.
Proof. destruct m; cbn; split; try done; [by eexists|by intros (? & [= <-] & ?)|by intros (? & [=] & ?)..]. Qed.

Lemma wp_uadd a b (Q : Z -> Prop) (R : E -> Prop) :
  a + b <= u64_max -> Q (a + b) -> wp (uadd a b) Q R.
Proof. intros. by rewrite uadd_ok. Qed.

Lemma wp_usub a b (Q : Z -> Prop) (R : E -> Prop) :
  b <= a -> Q (a - b) -> wp (usub a b) Q R.
Proof. intros. by rewrite usub_ok. Qed.

Lemma wp_index data i (Q : byte -> Prop) (R : E -> Prop) :
  0 <= i < len data ->
  (forall b, data !! Z.to_nat i = Some b -> Q b) -> wp (index data i) Q R.
Proof.
  intros Hi HQ.
  destruct (lookup_lt_is_Some_2 data (Z.to_nat i)) as [b Hb]; [unfold len in Hi; lia|].
  rewrite (index_ok _ _ b) by (done || lia). by apply HQ.
Qed.

Lemma wp_set_index data i b (Q : bytes -> Prop) (R : E -> Prop) :
  0 <= i < len data -> Q (<[Z.to_nat i := b]> data) -> wp (set_index data i b) Q R.
Proof. intros. by rewrite set_index_ok. Qed.

Lemma wp_slice (data : list B) a b (Q : list B -> Prop) (R : E -> Prop) :
  0 <= a <= b -> b <= len data ->
  (forall s, s = take (Z.to_nat (b - a)) (drop (Z.to_nat a) data) -> len s = b - a -> Q s) ->
  wp (slice data a b) Q R.
Proof. intros ? ? HQ. rewrite slice_ok by done. cbn. apply HQ; [done|]. len_lia. Qed.

Lemma wp_slice_from (data : list B) a (Q : list B -> Prop) (R : E -> Prop) :
  0 <= a <= len data ->
  (forall s, s = drop (Z.to_nat a) data -> len s = len data - a -> Q s) ->
  wp (slice_from data a) Q R.
Proof. intros ? HQ. rewrite slice_from_ok by done. cbn. apply HQ; [done|]. len_lia. Qed.

End Wp.

(** One step of a proof that a computation does not panic and satisfies its
    postcondition. *)
Ltac wp_step :=
  lazymatch goal with
  | |- wp (bind _ _) _ _ => apply wp_bind
  | |- wp (map_err _ _) _ _ => apply wp_map_err
  | |- wp (Ok ?a) ?Q _ => change (Q a); cbv beta iota
  | |- wp (Err ?e) _ ?R => change (R e); cbv beta iota
  | |- wp (uadd _ _) _ _ => apply wp_uadd; [len_lia|]
  | |- wp (usub _ _) _ _ => apply wp_usub; [len_lia|]
  | |- wp (index _ _) _ _ => apply wp_index; [len_lia|intros ? ?]
  | |- wp (set_index _ _ _) _ _ => apply wp_set_index; [len_lia|]
  | |- wp (slice _ _ _) _ _ => apply wp_slice; [len_lia|len_lia|intros ? ? ?]
  | |- wp (slice_from _ _) _ _ => apply wp_slice_from; [len_lia|intros ? ? ?]
  | |- wp (if ?b then _ else _) _ _ => destruct b eqn:?
  | |- wp (match ?x with _ => _ end) _ _ => destruct x eqn:?
  | |- wp (let _ := _ in _) _ _ => cbv zeta
  end.

Ltac bool_to_prop :=
  repeat match goal with
  | H : (_ =? _) = true |- _ => apply Z.eqb_eq in H
  | H : (_ =? _) = false |- _ => apply Z.eqb_neq in H
  | H : (_ <=? _) = true |- _ => apply Z.leb_le in H
  | H : (_ <=? _) = false |- _ => apply Z.leb_gt in H
  | H : (_ <? _) = true |- _ => apply Z.ltb_lt in H
  | H : (_ <? _) = false |- _ => apply Z.ltb_ge in H
  | H : (_ && _) = true |- _ => apply andb_true_iff in H; destruct H
  | H : (_ || _) = false |- _ => apply orb_false_iff in H; destruct H
  | H : negb _ = true |- _ => apply negb_true_iff in H
  | H : negb _ = false |- _ => apply negb_false_iff in H
  | H : bool_decide _ = true |- _ => apply bool_decide_eq_true in H
  | H : bool_decide _ = false |- _ => apply bool_decide_eq_false in H
  end.

Ltac wp_go := repeat (wp_step; bool_to_prop).
