(* ===== verification/Slices.v ===== *)
(** Slices of the standard library: [slice::binary_search] and the stable
    [slice::sort_by], with what their callers rely on. *)

From Stdlib Require Import ZArith Lia.
From stdpp Require Import base list.
From Stdlib Require Import Sorting.Sorted.
From S2P Require Import Prelude.

(** ** [slice::binary_search] *)

(** The loop of the standard library: [size] elements from [base] on are left. *)
Fixpoint binary_search_loop (fuel : nat) (v : list Z) (x : Z) (base size : nat) : nat :=
  match fuel with
  | O => base
  | S fuel' =>
      if (1 <? size)%nat then
        let half := (size / 2)%nat in
        let mid := (base + half)%nat in
        let base := if x <? nth mid v 0 then base else mid in
        binary_search_loop fuel' v x base (size - half)
      else base
  end.

(** [inl i] is [Ok(i)] and [inr i] is [Err(i)]. *)
Definition binary_search (v : list Z) (x : Z) : nat + nat :=
  match v with
  | [] => inr 0%nat
  | _ =>
      let base := binary_search_loop (length v) v x 0 (length v) in
      let e := nth base v 0 in
      if e =? x then inl base else inr (if e <? x then S base else base)
  end.

(** A vector whose elements do not fall. *)
Definition rising (v : list Z) : Prop := forall i j, (i <= j < length v)%nat -> nth i v 0 <= nth j v 0.

Lemma rising_take v n : rising v -> rising (take n v).
Proof.
  intros Hv i j Hij. rewrite length_take in Hij.
  assert (Hn : forall k, (k < n)%nat -> nth k (take n v) 0 = nth k v 0).
  { intros k Hk. rewrite !nth_lookup. by rewrite lookup_take_lt. }
  rewrite !Hn by lia. apply Hv. lia.
Qed.

Lemma binary_search_loop_spec fuel v x base size :
  rising v -> (1 <= size <= fuel)%nat -> (base + size <= length v)%nat ->
  (forall j, (base + size <= j < length v)%nat -> x < nth j v 0) -> base = 0%nat \/ nth base v 0 <= x ->
  let b := binary_search_loop fuel v x base size in
  (b < length v)%nat /\ (forall j, (b < j < length v)%nat -> x < nth j v 0) /\ (b = 0%nat \/ nth b v 0 <= x).
Proof.
  intros Hv. revert base size. induction fuel as [|fuel IH]; intros base size Hs Hb Hhi Hlo; [lia|]. cbn [binary_search_loop].
  destruct (Nat.ltb_spec 1 size) as [H1|H1]; cycle 1.
  { assert (size = 1%nat) as -> by lia. split_and!; [lia| |done]. intros j Hj. apply Hhi. lia. }
  assert (Hhalf : (1 <= size / 2 /\ 2 * (size / 2) <= size)%nat).
  { split; [apply Nat.div_le_lower_bound; lia|apply Nat.Div0.mul_div_le]. }
  set (half := (size / 2)%nat) in *. cbv zeta. destruct (Z.ltb_spec x (nth (base + half) v 0)).
  - apply IH; [lia|lia| |done]. intros j Hj. pose proof (Hv (base + half)%nat j ltac:(lia)). lia.
  - apply IH; [lia|lia| |by right]. intros j Hj. apply Hhi. lia.
Qed.

Lemma binary_search_spec v x :
  rising v ->
  match binary_search v x with
  | inl i => (i < length v)%nat /\ nth i v 0 = x
  | inr i => (i <= length v)%nat /\ (forall j, (j < i)%nat -> nth j v 0 < x) /\
      (forall j, (i <= j < length v)%nat -> x < nth j v 0)
  end.
Proof.
  intros Hv. unfold binary_search. destruct v as [|e v']; [cbn; split_and!; intros; lia|]. set (v := e :: v') in *.
  destruct (binary_search_loop_spec (length v) v x 0 (length v)) as (Hb & Hhi & Hlo);
    [done|cbn; lia|lia|intros; lia|by left|].
  cbv zeta. set (b := binary_search_loop _ _ _ _ _) in *. destruct (Z.eqb_spec (nth b v 0) x) as [He|He]; [done|].
  destruct (Z.ltb_spec (nth b v 0) x) as [Hl|Hl]; split_and!; try lia.
  - intros j Hj. pose proof (Hv j b ltac:(lia)). lia.
  - intros j Hj. apply Hhi. lia.
  - intros j Hj. pose proof (Hv b j ltac:(lia)). lia.
Qed.

(** ** [slice::sort_by] *)

(** [leb a b] says that [cmp a b] is not [Greater].  The sort is stable: an
    element goes before the elements equal to it that came after it. *)
Section sort_by.

Context {A : Type} (leb : A -> A -> bool).

Fixpoint insert_by (x : A) (l : list A) : list A :=
  match l with
  | [] => [x]
  | y :: l' => if leb x y then x :: y :: l' else y :: insert_by x l'
  end.

Fixpoint sort_by (l : list A) : list A :=
  match l with
  | [] => []
  | x :: l' => insert_by x (sort_by l')
  end.

Lemma insert_by_perm x l : insert_by x l ≡ₚ x :: l.
Proof. induction l as [|y l IH]; cbn; [done|]. destruct (leb x y); [done|]. by rewrite IH, Permutation_swap. Qed.

Lemma sort_by_perm l : sort_by l ≡ₚ l.
Proof. induction l as [|x l IH]; cbn; [done|]. by rewrite insert_by_perm, IH. Qed.

Lemma length_sort_by l : length (sort_by l) = length l.
Proof. by rewrite sort_by_perm. Qed.

(** The elements that compare as a total order does. *)
Context (P : A -> Prop).
Context (le_total : forall a b, P a -> P b -> leb a b = true \/ leb b a = true).
Context (le_trans : forall a b c, P a -> P b -> P c -> leb a b = true -> leb b c = true -> leb a c = true).

Lemma insert_by_sorted x l :
  P x -> Forall P l ->
  StronglySorted (fun a b => leb a b = true) l -> StronglySorted (fun a b => leb a b = true) (insert_by x l).
Proof using le_total le_trans.
  intros Px Pl Hl. induction Hl as [|y l Hs IH Hy]; cbn; [by repeat constructor|].
  apply Forall_cons_1 in Pl as [Py Pl]. destruct (leb x y) eqn:E.
  - constructor; [by constructor|]. constructor; [done|]. rewrite Forall_forall in *. intros z Hz.
    apply (le_trans x y z); auto.
  - constructor; [by apply IH|]. rewrite insert_by_perm. constructor; [|done].
    destruct (le_total x y); [done|done|congruence|done].
Qed.

Lemma sort_by_sorted l : Forall P l -> StronglySorted (fun a b => leb a b = true) (sort_by l).
Proof using le_total le_trans.
  induction 1 as [|x l Hx Hl IH]; cbn; [constructor|]. apply insert_by_sorted; [done| |done]. by rewrite sort_by_perm.
Qed.

(** Elements that compare as equal keep their order. *)
Lemma insert_by_stable (p : A -> bool) x l :
  (forall a b, p a = true -> p b = true -> leb a b = true) ->
  List.filter p (insert_by x l) = List.filter p (x :: l).
Proof using.
  intros Hp. induction l as [|y l IH]; [done|]. cbn. destruct (leb x y) eqn:E; [done|]. cbn. rewrite IH. cbn.
  destruct (p x) eqn:Ex, (p y) eqn:Ey; try done. by rewrite (Hp x y) in E.
Qed.

Lemma sort_by_stable (p : A -> bool) l :
  (forall a b, p a = true -> p b = true -> leb a b = true) -> List.filter p (sort_by l) = List.filter p l.
Proof using.
  intros Hp. induction l as [|x l IH]; [done|]. cbn [sort_by]. rewrite insert_by_stable by done. cbn. by rewrite IH.
Qed.

End sort_by.
