(* ===== verification/Text.v ===== *)
(** Strings of the standard library: the validation of UTF-8, characters and
    their boundaries, and [str::trim]. *)

From Stdlib Require Import ZArith Lia Strings.Byte.
From stdpp Require Import base list.
From S2P Require Import Prelude.

(** ** UTF-8 *)

Definition in_range (lo hi : Z) (b : byte) : bool := (lo <=? u8 b) && (u8 b <=? hi).
Definition is_cont (b : byte) : bool := in_range 0x80 0xbf b.

(** The length of the character at the start of [l], if it is well formed. *)
Definition utf8_char_len (l : bytes) : option nat :=
  match l with
  | [] => None
  | a :: l1 =>
      if u8 a <? 0x80 then Some 1%nat
      else if in_range 0xc2 0xdf a then
        match l1 with
        | b :: _ => if is_cont b then Some 2%nat else None
        | _ => None
        end
      else if in_range 0xe0 0xef a then
        match l1 with
        | b :: c :: _ =>
            let lo := if u8 a =? 0xe0 then 0xa0 else 0x80 in
            let hi := if u8 a =? 0xed then 0x9f else 0xbf in
            if in_range lo hi b && is_cont c then Some 3%nat else None
        | _ => None
        end
      else if in_range 0xf0 0xf4 a then
        match l1 with
        | b :: c :: d :: _ =>
            let lo := if u8 a =? 0xf0 then 0x90 else 0x80 in
            let hi := if u8 a =? 0xf4 then 0x8f else 0xbf in
            if in_range lo hi b && is_cont c && is_cont d then Some 4%nat else None
        | _ => None
        end
      else None
  end.

Fixpoint utf8_valid_fuel (fuel : nat) (l : bytes) : bool :=
  match fuel with
  | O => false
  | S fuel' =>
      match l with
      | [] => true
      | _ =>
          match utf8_char_len l with
          | Some n => utf8_valid_fuel fuel' (drop n l)
          | None => false
          end
      end
  end.

(** [str::from_utf8(l).is_ok()] *)
Definition utf8_valid (l : bytes) : bool := utf8_valid_fuel (S (length l)) l.

(** [std::str::from_utf8(..).map_err(|_| e)]. *)
Definition from_utf8 {E} (e : E) (b : bytes) : res E bytes := if utf8_valid b then Ok b else Err e.

Lemma from_utf8_safe {E} (e : E) b : from_utf8 e b <> Panic.
Proof. unfold from_utf8. by destruct (utf8_valid b). Qed.

(** [str::chars]: the code points of a text. *)
Definition code_point (c : bytes) : Z :=
  match c with
  | [a] => u8 a
  | [a; b] => Z.land (u8 a) 0x1f * 64 + Z.land (u8 b) 0x3f
  | [a; b; c] => Z.land (u8 a) 0x0f * 4096 + Z.land (u8 b) 0x3f * 64 + Z.land (u8 c) 0x3f
  | [a; b; c; d] =>
      Z.land (u8 a) 0x07 * 262144 + Z.land (u8 b) 0x3f * 4096 + Z.land (u8 c) 0x3f * 64 + Z.land (u8 d) 0x3f
  | _ => 0
  end.

Fixpoint chars_fuel (fuel : nat) (l : bytes) : list Z :=
  match fuel with
  | O => []
  | S fuel' =>
      match utf8_char_len l with
      | Some n => code_point (take n l) :: chars_fuel fuel' (drop n l)
      | None => []
      end
  end.

Definition chars (l : bytes) : list Z := chars_fuel (length l) l.

(** [char::is_control]: the general category Cc. *)
Definition is_control (c : Z) : bool := (c <=? 0x1f) || (0x7f <=? c) && (c <=? 0x9f).

(** The encodings of the characters with the property [White_Space]. *)
Definition white_space : list bytes :=
  [[x09]; [x0a]; [x0b]; [x0c]; [x0d]; [x20]; [xc2; x85]; [xc2; xa0]; [xe1; x9a; x80];
   [xe2; x80; x80]; [xe2; x80; x81]; [xe2; x80; x82]; [xe2; x80; x83]; [xe2; x80; x84]; [xe2; x80; x85];
   [xe2; x80; x86]; [xe2; x80; x87]; [xe2; x80; x88]; [xe2; x80; x89]; [xe2; x80; x8a];
   [xe2; x80; xa8]; [xe2; x80; xa9]; [xe2; x80; xaf]; [xe2; x81; x9f]; [xe3; x80; x80]].

(** Remove the characters [cs] from the start of [l]. *)
Fixpoint strip (fuel : nat) (cs : list bytes) (l : bytes) : bytes :=
  match fuel with
  | O => l
  | S fuel' =>
      match List.find (fun c => bool_decide (take (length c) l = c)) cs with
      | Some c => strip fuel' cs (drop (length c) l)
      | None => l
      end
  end.

(** [str::trim_end] and [str::trim] *)
Definition trim_end (l : bytes) : bytes := rev (strip (length l) (map (@rev byte) white_space) (rev l)).

Definition trim (l : bytes) : bytes := trim_end (strip (length l) white_space l).

(** ** Boundaries of characters *)

(** A text is a sequence of characters. *)
Inductive utf8 : bytes -> Prop :=
| utf8_nil : utf8 []
| utf8_char c rest : (c <> []) -> utf8_char_len (c ++ rest) = Some (length c) -> utf8 rest -> utf8 (c ++ rest).

Lemma utf8_char_len_pos l n : utf8_char_len l = Some n -> (0 < n <= length l)%nat.
Proof. unfold utf8_char_len. repeat case_match; intros [= <-]; cbn; lia. Qed.

Lemma utf8_valid_utf8 l : utf8_valid l = true -> utf8 l.
Proof.
  unfold utf8_valid. generalize (S (length l)) as fuel. intros fuel. revert l.
  induction fuel as [|fuel IH]; intros l; [done|]. cbn [utf8_valid_fuel].
  destruct l as [|a l]; [constructor|]. destruct (utf8_char_len (a :: l)) as [n|] eqn:Hn; [|done].
  intros Hv%IH. pose proof (utf8_char_len_pos _ _ Hn) as Hpos. rewrite <- (take_drop n (a :: l)).
  assert (length (take n (a :: l)) = n) as Hl by (rewrite length_take; lia).
  constructor; [intros He; rewrite He in Hl; cbn in Hl; lia|by rewrite take_drop, Hl|done].
Qed.

(** What makes a character depends on its bytes only. *)
Lemma utf8_char_len_app c rest rest' :
  utf8_char_len (c ++ rest) = Some (length c) -> utf8_char_len (c ++ rest') = Some (length c).
Proof.
  destruct c as [|a c]; [intros Hn%utf8_char_len_pos; cbn in *; lia|]. cbn [app utf8_char_len].
  destruct (u8 a <? 0x80); [done|]. destruct (in_range 0xc2 0xdf a); [|destruct (in_range 0xe0 0xef a); [|destruct (in_range 0xf0 0xf4 a); [|done]]].
  - destruct c as [|b [|? ?]]; cbn; [by repeat case_match|done|by case_match].
  - destruct c as [|b [|d [|? ?]]]; cbn; [by repeat case_match..|done|by case_match].
  - destruct c as [|b [|d [|e [|? ?]]]]; cbn; [by repeat case_match..|done|by case_match].
Qed.

Lemma is_cont_range lo hi b : 0x80 <= lo -> hi <= 0xbf -> in_range lo hi b = true -> is_cont b = true.
Proof. unfold is_cont, in_range. rewrite !andb_true_iff, !Z.leb_le. lia. Qed.

(** The first byte of a character is no continuation, the others are. *)
Lemma in_range_false lo hi b : u8 b < lo -> in_range lo hi b = false.
Proof. intros Hb. unfold in_range. by destruct (Z.leb_spec lo (u8 b)); [lia|]. Qed.

Lemma utf8_char_head a l n : utf8_char_len (a :: l) = Some n -> is_cont a = false.
Proof.
  intros Hn. destruct (is_cont a) eqn:Ha; [|done]. unfold is_cont, in_range in Ha. rewrite andb_true_iff, !Z.leb_le in Ha.
  cbn [utf8_char_len] in Hn. destruct (Z.ltb_spec (u8 a) 0x80); [lia|]. by rewrite !in_range_false in Hn by lia.
Qed.

Lemma utf8_char_tail c rest i b :
  utf8_char_len (c ++ rest) = Some (length c) -> (0 < i)%nat -> c !! i = Some b -> is_cont b = true.
Proof.
  intros Hlen Hi Hb. apply (utf8_char_len_app c rest []) in Hlen. rewrite app_nil_r in Hlen.
  destruct c as [|a c]; [done|]. destruct i as [|i]; [lia|]. cbn in Hb. cbn [utf8_char_len length] in Hlen.
  destruct (u8 a <? 0x80); [by destruct c|].
  destruct (in_range 0xc2 0xdf a); [|destruct (in_range 0xe0 0xef a); [|destruct (in_range 0xf0 0xf4 a); [|done]]].
  - destruct c as [|x [|? ?]]; [done| |by case_match]. destruct (is_cont x) eqn:Hx; [|done].
    by destruct i; simplify_eq/=.
  - destruct c as [|x [|y [|? ?]]]; [done..| |by case_match].
    destruct (in_range _ _ x && is_cont y) eqn:Hx; [|done]. apply andb_true_iff in Hx as [Hx Hy].
    destruct i as [|[|i]]; simplify_eq/=; [|done].
    eapply is_cont_range; [| |exact Hx]; [destruct (_ =? 0xe0)|destruct (_ =? 0xed)]; lia.
  - destruct c as [|x [|y [|z [|? ?]]]]; [done..| |by case_match].
    destruct (in_range _ _ x && is_cont y && is_cont z) eqn:Hx; [|done]. rewrite !andb_true_iff in Hx. destruct Hx as [[Hx Hy] Hz].
    destruct i as [|[|[|i]]]; simplify_eq/=; [|done..].
    eapply is_cont_range; [| |exact Hx]; [destruct (_ =? 0xf0)|destruct (_ =? 0xf4)]; lia.
Qed.

Lemma utf8_head a l : utf8 (a :: l) -> is_cont a = false.
Proof.
  intros Hu. inversion Hu as [|c rest Hc Hlen Hrest Heq]. rewrite Heq in Hlen. by apply utf8_char_head in Hlen.
Qed.

(** Every byte that is no continuation starts a character. *)
Lemma utf8_from s : utf8 s -> forall x b y, s = x ++ b :: y -> is_cont b = false -> utf8 (b :: y).
Proof.
  induction 1 as [|c rest Hc Hlen Hrest IH]; intros x b y Heq Hb; [by destruct x|].
  destruct (decide (length c <= length x)%nat) as [Hx|Hx].
  - assert (x = c ++ drop (length c) x) as Hx'.
    { rewrite <- (take_drop (length c) x) at 1. f_equal. apply (f_equal (take (length c))) in Heq.
      by rewrite take_app_length, take_app_le in Heq by lia. }
    rewrite Hx', <- app_assoc in Heq. apply app_inv_head in Heq. by apply (IH _ _ _ Heq).
  - destruct x as [|a x]; [cbn in Heq; rewrite <- Heq; by constructor|].
    assert (c !! length (a :: x) = Some b) as Hi.
    { assert ((c ++ rest) !! length (a :: x) = Some b) as Hl by (rewrite Heq; apply list_lookup_middle; done).
      rewrite lookup_app_l in Hl by lia. done. }
    rewrite (utf8_char_tail c rest (length (a :: x)) b Hlen) in Hb; [done|cbn; lia|done].
Qed.

Lemma utf8_last s : utf8 s -> s <> [] -> exists p c, s = p ++ c /\ (c <> []) /\ forall rest, utf8_char_len (c ++ rest) = Some (length c).
Proof.
  induction 1 as [|c rest Hc Hlen Hrest IH]; [done|]. intros _. destruct rest as [|a rest].
  - exists [], c. split; [by rewrite app_nil_r|]. split; [done|]. intros rest. by apply (utf8_char_len_app c []).
  - destruct IH as (p & c' & -> & Hc' & Hlen'); [done|]. exists (c ++ p), c'. by rewrite app_assoc.
Qed.

(** Where a text occurs in a text it ends at a boundary. *)
Lemma utf8_occurrence x name y : utf8 (x ++ name ++ y) -> utf8 name -> name <> [] -> utf8 y.
Proof.
  intros Hv Hn Hne. destruct (utf8_last name Hn Hne) as (p & c & -> & Hc & Hlen).
  destruct c as [|a c]; [done|].
  assert (utf8 ((a :: c) ++ y)) as Hu.
  { apply (utf8_from _ Hv (x ++ p)); [by rewrite <- !app_assoc|]. by apply (utf8_char_head a (c ++ y) _ (Hlen y)). }
  remember ((a :: c) ++ y) as s eqn:Hs. destruct Hu as [|c' rest' Hc' Hlen' Hrest']; [done|].
  rewrite Hs, Hlen in Hlen'. injection Hlen' as Hl. apply app_inj_1 in Hs as [_ ->]; [done|]. cbn in *. lia.
Qed.
