(* ===== verification/Float64.v ===== *)
(** The type [f64] as the sources use it: comparisons, rounding up, the casts
    to and from integers, and the rounded product and quotient.

    A finite number is [m * 2 ^ e]; every double is one, and the results of the
    rounded operations are doubles.  The sign of a zero is not kept: no
    operation here tells the two apart. *)

From Stdlib Require Import ZArith Lia.
From stdpp Require Import base tactics.
From S2P Require Import Prelude.

Local Open Scope Z_scope.

Inductive f64 : Type :=
| NaN
| Infinite (negative : bool)
| Finite (m e : Z).

(** ** Comparisons *)

(** The mantissas of two numbers at the smaller of their exponents. *)
Definition align (m e m' e' : Z) : Z * Z :=
  let low := Z.min e e' in (m * 2 ^ (e - low), m' * 2 ^ (e' - low)).

Definition partial_cmp (x y : f64) : option comparison :=
  match x, y with
  | NaN, _ | _, NaN => None
  | Infinite a, Infinite b => Some (if Bool.eqb a b then Eq else if a then Lt else Gt)
  | Infinite a, Finite _ _ => Some (if a then Lt else Gt)
  | Finite _ _, Infinite b => Some (if b then Gt else Lt)
  | Finite m e, Finite m' e' => let '(a, b) := align m e m' e' in Some (a ?= b)
  end.

Definition f64_lt (x y : f64) : bool := match partial_cmp x y with Some Lt => true | _ => false end.
Definition f64_le (x y : f64) : bool := match partial_cmp x y with Some Lt | Some Eq => true | _ => false end.
Definition f64_ne (x y : f64) : bool := match partial_cmp x y with Some Eq => false | _ => true end.

Definition is_nan (x : f64) : bool := match x with NaN => true | _ => false end.
Definition is_finite (x : f64) : bool := match x with Finite _ _ => true | _ => false end.

(** [f64::min]: the other number when one is not a number. *)
Definition f64_min (x y : f64) : f64 :=
  match partial_cmp x y with
  | Some Gt => y
  | Some _ => x
  | None => if is_nan x then y else x
  end.

(** ** Integers *)

Definition ceil (x : f64) : f64 :=
  match x with
  | Finite m e => if 0 <=? e then x else Finite (- (- m / 2 ^ (- e))) 0
  | _ => x
  end.

Definition trunc (m e : Z) : Z := if 0 <=? e then m * 2 ^ e else Z.quot m (2 ^ (- e)).

(** [x as iN] and [x as uN]: towards zero, and to the nearer end of the range
    outside of it. *)
Definition f64_as (low high : Z) (x : f64) : Z :=
  match x with
  | NaN => 0
  | Infinite neg => if neg then low else high
  | Finite m e => Z.max low (Z.min high (trunc m e))
  end.

Definition as_u32 : f64 -> Z := f64_as 0 u32_max.
Definition as_i64 : f64 -> Z := f64_as (- 2 ^ 63) (2 ^ 63 - 1).

(** ** Rounding *)

(** The nearest integer to [a / b], the even one of two. *)
Definition nearest_even (a b : Z) : Z :=
  let q := a / b in
  match 2 * (a mod b) ?= b with
  | Lt => q
  | Gt => q + 1
  | Eq => if Z.even q then q else q + 1
  end.

(** The exponent of the double next to [n / d]: 53 bits, and no less than the
    one of the smallest double. *)
Definition f64_exponent (n d : Z) : Z :=
  let l := Z.log2 n - Z.log2 d in
  let l := if n * 2 ^ Z.max 0 (- l) <? d * 2 ^ Z.max 0 l then l - 1 else l in
  Z.max (-1074) (l - 52).

Definition f64_round (negative : bool) (n d : Z) : f64 :=
  if n =? 0 then Finite 0 0
  else
    let e := f64_exponent n d in
    let q := nearest_even (n * 2 ^ Z.max 0 (- e)) (d * 2 ^ Z.max 0 e) in
    if 2 ^ 1024 <=? q * 2 ^ Z.max 0 e then Infinite negative
    else Finite (if negative then - q else q) e.

(** [x as f64]. *)
Definition f64_of (z : Z) : f64 := f64_round (z <? 0) (Z.abs z) 1.

(** The rounded [m * 2 ^ e / d]. *)
Definition f64_scaled (m e d : Z) : f64 :=
  f64_round (m <? 0) (Z.abs m * 2 ^ Z.max 0 e) (d * 2 ^ Z.max 0 (- e)).

Definition f64_mul (x y : f64) : f64 :=
  match x, y with
  | NaN, _ | _, NaN => NaN
  | Infinite a, Infinite b => Infinite (xorb a b)
  | Infinite a, Finite m _ | Finite m _, Infinite a => if m =? 0 then NaN else Infinite (xorb a (m <? 0))
  | Finite m e, Finite m' e' => f64_scaled (m * m') (e + e') 1
  end.

Definition f64_div (x y : f64) : f64 :=
  match x, y with
  | NaN, _ | _, NaN => NaN
  | Infinite a, Infinite b => NaN
  | Infinite a, Finite m _ => Infinite (xorb a (m <? 0))
  | Finite _ _, Infinite _ => Finite 0 0
  | Finite m e, Finite m' e' =>
      if m' =? 0 then if m =? 0 then NaN else Infinite (m <? 0)
      else f64_scaled (m * Z.sgn m') (e - e') (Z.abs m')
  end.

(** ** Comparing *)

Lemma align_cmp m e m' e' k : k <= e -> k <= e' ->
  (let '(a, b) := align m e m' e' in a ?= b) = (m * 2 ^ (e - k) ?= m' * 2 ^ (e' - k)).
Proof.
  intros He He'. unfold align. set (low := Z.min e e').
  replace (e - k) with (e - low + (low - k)) by lia. replace (e' - k) with (e' - low + (low - k)) by lia.
  rewrite !Z.pow_add_r by lia. rewrite !Z.mul_assoc. apply Zmult_compare_compat_r, Z.lt_gt, Z.pow_pos_nonneg; lia.
Qed.

(** Numbers are ordered like the integers and two ends: any three of them have
    a common scale. *)
Definition f64_key (k : Z) (x : f64) : Z * Z :=
  match x with
  | NaN => (0, 0)
  | Infinite neg => (if neg then -1 else 1, 0)
  | Finite m e => (0, m * 2 ^ (e - k))
  end.

Definition f64_exp (x : f64) : Z := match x with Finite _ e => e | _ => 0 end.

Definition key_cmp (a b : Z * Z) : comparison :=
  match a.1 ?= b.1 with Eq => a.2 ?= b.2 | c => c end.

Lemma partial_cmp_key k x y : is_nan x = false -> is_nan y = false -> k <= f64_exp x -> k <= f64_exp y ->
  partial_cmp x y = Some (key_cmp (f64_key k x) (f64_key k y)).
Proof.
  intros Hx Hy. destruct x as [|[]|m e], y as [|[]|m' e']; try done. intros He He'. cbn [partial_cmp].
  pose proof (align_cmp m e m' e' k He He') as Ha. destruct (align m e m' e'). rewrite Ha. done.
Qed.

(** The order a sort from the greatest number down uses, with numbers that do
    not compare taken as equal. *)
Definition f64_descending (x y : f64) : bool :=
  match partial_cmp y x with Some Gt => false | _ => true end.

Lemma key_cmp_total a b : key_cmp b a = Gt -> key_cmp a b = Lt.
Proof.
  unfold key_cmp. rewrite (Z.compare_antisym a.1), (Z.compare_antisym a.2).
  destruct (a.1 ?= b.1), (a.2 ?= b.2); done.
Qed.

Lemma f64_descending_total x y : is_nan x = false -> is_nan y = false ->
  f64_descending x y = true \/ f64_descending y x = true.
Proof.
  intros Hx Hy. unfold f64_descending. set (k := Z.min (f64_exp x) (f64_exp y)).
  rewrite (partial_cmp_key k y x), (partial_cmp_key k x y) by (done || lia).
  destruct (key_cmp (f64_key k y) (f64_key k x)) eqn:E; auto. apply key_cmp_total in E. rewrite E. auto.
Qed.

Lemma key_cmp_trans a b c : key_cmp b a <> Gt -> key_cmp c b <> Gt -> key_cmp c a <> Gt.
Proof.
  unfold key_cmp. destruct (Z.compare_spec b.1 a.1), (Z.compare_spec c.1 b.1), (Z.compare_spec c.1 a.1);
    try done; try lia; destruct (Z.compare_spec b.2 a.2), (Z.compare_spec c.2 b.2), (Z.compare_spec c.2 a.2); try done; lia.
Qed.

Lemma f64_descending_trans x y z : is_nan x = false -> is_nan y = false -> is_nan z = false ->
  f64_descending x y = true -> f64_descending y z = true -> f64_descending x z = true.
Proof.
  intros Hx Hy Hz. unfold f64_descending. set (k := Z.min (f64_exp x) (Z.min (f64_exp y) (f64_exp z))).
  rewrite (partial_cmp_key k y x), (partial_cmp_key k z y), (partial_cmp_key k z x) by (done || lia). intros Hyx Hzy.
  destruct (key_cmp (f64_key k z) (f64_key k x)) eqn:E; try done. exfalso.
  eapply (key_cmp_trans (f64_key k x) (f64_key k y) (f64_key k z)); [| |exact E].
  - intros E'. by rewrite E' in Hyx.
  - intros E'. by rewrite E' in Hzy.
Qed.

(** ** The strict order *)

Lemma f64_lt_number x y : f64_lt x y = true -> is_nan x = false /\ is_nan y = false.
Proof. by destruct x, y. Qed.

Lemma f64_lt_key k x y : is_nan x = false -> is_nan y = false -> k <= f64_exp x -> k <= f64_exp y ->
  f64_lt x y = true <-> key_cmp (f64_key k x) (f64_key k y) = Lt.
Proof. intros. unfold f64_lt. rewrite (partial_cmp_key k) by done. by destruct (key_cmp _ _). Qed.

Lemma key_cmp_lt a b : key_cmp a b = Lt <-> a.1 < b.1 \/ a.1 = b.1 /\ a.2 < b.2.
Proof.
  unfold key_cmp. destruct (Z.compare_spec a.1 b.1); [|split; [lia|done]|split; [done|lia]].
  rewrite Z.compare_lt_iff. lia.
Qed.

Lemma f64_lt_irrefl x : f64_lt x x = false.
Proof.
  destruct (f64_lt x x) eqn:E; [|done]. exfalso. pose proof (f64_lt_number _ _ E) as [Hx _].
  apply (f64_lt_key (f64_exp x)), key_cmp_lt in E; (done || lia).
Qed.

(** What is above [y] is above everything that is not above [y]. *)
Lemma f64_lt_above x y z : is_nan x = false -> f64_lt y z = true -> f64_lt y x = false -> f64_lt x z = true.
Proof.
  intros Hx Hyz Hyx. pose proof (f64_lt_number _ _ Hyz) as [Hy Hz]. set (k := Z.min (f64_exp x) (Z.min (f64_exp y) (f64_exp z))).
  apply not_true_iff_false in Hyx. rewrite (f64_lt_key k), key_cmp_lt in * by (done || lia). lia.
Qed.

Lemma f64_lt_trans x y z : f64_lt x y = true -> f64_lt y z = true -> f64_lt x z = true.
Proof.
  intros Hxy Hyz. pose proof (f64_lt_number _ _ Hxy) as [Hx Hy]. pose proof (f64_lt_number _ _ Hyz) as [_ Hz].
  set (k := Z.min (f64_exp x) (Z.min (f64_exp y) (f64_exp z))).
  rewrite (f64_lt_key k), key_cmp_lt in * by (done || lia). lia.
Qed.

(** ** What the rounded operations keep *)

Lemma nearest_even_lower a b k : 0 < b -> k * b <= a -> k <= nearest_even a b.
Proof.
  intros Hb Hk. unfold nearest_even. assert (k <= a / b) by (apply Z.div_le_lower_bound; lia).
  destruct (_ ?= _); [destruct (Z.even _)| |]; lia.
Qed.

(** [x] is not below the integer [k]. *)
Definition at_least (k : Z) (x : f64) : Prop :=
  match x with
  | NaN => False
  | Infinite neg => neg = false
  | Finite m e => k * 2 ^ Z.max 0 (- e) <= m * 2 ^ Z.max 0 e
  end.

(** An integer below [2 ^ 53] that is not above a ratio is not above the double
    next to it. *)
Lemma f64_round_lower n d k :
  0 < d -> 1 <= k <= 2 ^ 53 -> k * d <= n ->
  at_least k (f64_round false n d).
Proof.
  intros Hd Hk Hn. unfold f64_round. destruct (Z.eqb_spec n 0); [nia|]. set (e := f64_exponent n d).
  cbv zeta. set (q := nearest_even _ _). destruct (Z.leb_spec (2 ^ 1024) (q * 2 ^ Z.max 0 e)); [done|].
  cbn [at_least]. subst q. assert (0 < 2 ^ Z.max 0 e) by (apply Z.pow_pos_nonneg; lia).
  destruct (Z.le_gt_cases e 0) as [He|He].
  - rewrite (Z.max_l 0 e) by lia. rewrite Z.pow_0_r, !Z.mul_1_r.
    apply nearest_even_lower; [done|]. rewrite (Z.mul_comm k), <- Z.mul_assoc, (Z.mul_comm _ (k * d)).
    apply Z.mul_le_mono_nonneg_r; [apply Z.pow_nonneg; lia|done].
  - rewrite (Z.max_l 0 (- e)), (Z.max_r 0 e) in * by lia. rewrite Z.pow_0_r, !Z.mul_1_r in *.
    assert (H52 : 2 ^ 52 <= nearest_even n (d * 2 ^ e)).
    { apply nearest_even_lower; [nia|]. subst e. unfold f64_exponent in *. set (l := Z.log2 n - Z.log2 d) in *.
      destruct (Z.ltb_spec (n * 2 ^ Z.max 0 (- l)) (d * 2 ^ Z.max 0 l)) as [Hl|Hl]; cbv zeta in *.
      - rewrite Z.max_r in He |- * by lia. replace (2 ^ 52 * (d * 2 ^ (l - 1 - 52))) with (d * 2 ^ (l - 1)).
        2: { replace (l - 1) with (52 + (l - 1 - 52)) at 1 by lia. rewrite Z.pow_add_r by lia. lia. }
        pose proof (Z.log2_spec n ltac:(lia)) as [Hln _]. pose proof (Z.log2_spec d ltac:(lia)) as [_ Hld].
        assert (d * 2 ^ (l - 1) <= 2 ^ Z.log2 n); [|lia].
        replace (Z.log2 n) with (Z.succ (Z.log2 d) + (l - 1)) by lia.
        rewrite Z.pow_add_r by (pose proof (Z.log2_nonneg d); lia). apply Z.mul_le_mono_nonneg_r; [apply Z.pow_nonneg|]; lia.
      - rewrite Z.max_r in He |- * by lia. rewrite (Z.max_l 0 (- l)), (Z.max_r 0 l) in Hl by lia.
        rewrite Z.pow_0_r in Hl. replace (2 ^ 52 * (d * 2 ^ (l - 52))) with (d * 2 ^ l); [lia|].
        replace l with (52 + (l - 52)) at 1 by lia. rewrite Z.pow_add_r by lia. lia. }
    assert (2 ^ 1 <= 2 ^ e) by (apply Z.pow_le_mono_r; lia). change (2 ^ 53) with (2 ^ 52 * 2 ^ 1) in Hk. nia.
Qed.

Lemma at_least_as_i64 k x : 0 <= k < 2 ^ 63 -> at_least k x -> k <= as_i64 x.
Proof.
  intros Hk. destruct x as [|neg|m e]; cbn [at_least]; [done|by intros ->; cbn; lia|]. intros Hx.
  enough (k <= trunc m e) by (unfold as_i64, f64_as; lia). unfold trunc.
  assert (0 < 2 ^ Z.max 0 (- e)) by (apply Z.pow_pos_nonneg; lia). destruct (Z.leb_spec 0 e).
  - rewrite (Z.max_l 0 (- e)), (Z.max_r 0 e) in Hx by lia. lia.
  - rewrite (Z.max_r 0 (- e)), (Z.max_l 0 e) in * by lia. rewrite Z.quot_div_nonneg by nia.
    apply Z.div_le_lower_bound; lia.
Qed.

(** Small integers are doubles. *)
Lemma f64_of_exact k : 0 < k < 2 ^ 53 -> exists e, e <= 0 /\ f64_of k = Finite (k * 2 ^ (- e)) e.
Proof.
  intros Hk. unfold f64_of. rewrite (proj2 (Z.ltb_ge k 0)), Z.abs_eq by lia. unfold f64_round.
  destruct (Z.eqb_spec k 0); [lia|]. set (e := f64_exponent k 1). exists e.
  assert (Hl : 0 <= Z.log2 k <= 52).
  { split; [apply Z.log2_nonneg|]. apply Z.lt_succ_r, Z.log2_lt_pow2; lia. }
  assert (He : -53 <= e <= 0).
  { subst e. unfold f64_exponent. change (Z.log2 1) with 0. destruct (_ <? _); cbv zeta; lia. }
  split; [lia|]. cbv zeta. rewrite (Z.max_r 0 (- e)), (Z.max_l 0 e), Z.pow_0_r by lia. unfold nearest_even.
  rewrite Z.mul_1_r, Z.div_1_r, Z.mod_1_r, Z.mul_0_r. cbn [Z.compare]. rewrite Z.mul_1_r.
  destruct (Z.leb_spec (2 ^ 1024) (k * 2 ^ (- e))) as [Hbig|]; [|done]. exfalso.
  assert (2 ^ (- e) <= 2 ^ 53) by (apply Z.pow_le_mono_r; lia).
  assert (k * 2 ^ (- e) <= 2 ^ 53 * 2 ^ 53) by (apply Z.mul_le_mono_nonneg; [lia|lia|apply Z.pow_nonneg; lia|done]).
  assert (2 ^ 53 * 2 ^ 53 < 2 ^ 1024); [reflexivity|lia].
Qed.

Lemma f64_of_at_least k : 0 < k < 2 ^ 53 -> at_least k (f64_of k).
Proof.
  intros Hk. destruct (f64_of_exact k Hk) as (e & He & ->). cbn [at_least].
  rewrite (Z.max_r 0 (- e)), (Z.max_l 0 e) by lia. lia.
Qed.

(** The quotient of two small integers is not below one when the first is not
    below the second. *)
Lemma f64_div_at_least_1 a b : 0 < b <= a -> a < 2 ^ 53 -> at_least 1 (f64_div (f64_of a) (f64_of b)).
Proof.
  intros Hb Ha. destruct (f64_of_exact a ltac:(lia)) as (e & He & ->).
  destruct (f64_of_exact b ltac:(lia)) as (e' & He' & ->). cbn [f64_div].
  assert (0 < 2 ^ (- e) /\ 0 < 2 ^ (- e')) as [Hp Hp'] by (split; apply Z.pow_pos_nonneg; lia).
  destruct (Z.eqb_spec (b * 2 ^ (- e')) 0); [nia|]. rewrite Z.sgn_pos, Z.mul_1_r by nia.
  unfold f64_scaled. rewrite (proj2 (Z.ltb_ge _ 0)) by nia. rewrite !Z.abs_eq by nia.
  set (p := 2 ^ Z.max 0 (e - e')). set (p' := 2 ^ Z.max 0 (- (e - e'))).
  assert (0 < p /\ 0 < p') as [Hpp Hpp'] by (split; apply Z.pow_pos_nonneg; lia).
  apply f64_round_lower; [nia|lia|]. rewrite Z.mul_1_l.
  assert (2 ^ (- e') * p' = 2 ^ (- e) * p) as Heq.
  { subst p p'. rewrite <- !Z.pow_add_r by lia. f_equal. lia. }
  rewrite <- !Z.mul_assoc, Heq. apply Z.mul_le_mono_nonneg_r; nia.
Qed.

Lemma f64_mul_at_least k x : 0 < k < 2 ^ 53 -> at_least 1 x -> at_least k (f64_mul (f64_of k) x).
Proof.
  intros Hk Hx. destruct (f64_of_exact k Hk) as (e & He & ->).
  assert (0 < 2 ^ (- e)) by (apply Z.pow_pos_nonneg; lia).
  destruct x as [|neg|m e']; cbn [f64_mul at_least] in *; [done| |].
  { subst neg. destruct (Z.eqb_spec (k * 2 ^ (- e)) 0); [nia|]. cbn. apply Z.ltb_ge. nia. }
  rewrite Z.mul_1_l in Hx. set (a := 2 ^ Z.max 0 (- e')) in *. set (b := 2 ^ Z.max 0 e') in *.
  assert (0 < a /\ 0 < b) as [Hap Hbp] by (split; apply Z.pow_pos_nonneg; lia). assert (0 < m) by nia.
  unfold f64_scaled. rewrite (proj2 (Z.ltb_ge _ 0)), Z.abs_eq by nia.
  set (p := 2 ^ Z.max 0 (e + e')). set (p' := 2 ^ Z.max 0 (- (e + e'))).
  assert (0 < p /\ 0 < p') as [Hpp Hpp'] by (split; apply Z.pow_pos_nonneg; lia).
  apply f64_round_lower; [lia|lia|]. rewrite Z.mul_1_l.
  assert (Heq : p' * b = 2 ^ (- e) * p * a).
  { subst p p' a b. rewrite <- !Z.pow_add_r by lia. f_equal. lia. }
  apply Z.mul_le_mono_pos_r with b; [done|]. rewrite <- (Z.mul_assoc k), Heq.
  replace (k * 2 ^ (- e) * m * p * b) with (k * (2 ^ (- e) * p) * (m * b)) by ring.
  replace (k * (2 ^ (- e) * p * a)) with (k * (2 ^ (- e) * p) * a) by ring. apply Z.mul_le_mono_nonneg_l; nia.
Qed.
