(* ===== verification/Reader.v ===== *)
(** * Asynchronous readers

    The transport a reader sits on is a list of events: bytes that arrive
    together, a moment at which nothing is there yet, or an error; after the
    last event the peer has closed the connection.  [poll_read] is the contract
    of tokio's [AsyncRead::poll_read].  On top of it, [read_all_once] models
    [lib/vey-io-ext/src/stream/ext/read_all_once.rs]. *)

From Stdlib Require Import ZArith Lia Strings.Byte.
From stdpp Require Import base list.
From S2P Require Import Prelude.

Inductive event : Type :=
| Data (c : bytes)
| Pend
| IoError.

Abbreviation reader := (list event).

Inductive poll (A : Type) : Type :=
| Ready (a : A)
| Pending.
Arguments Ready {A} a.
Arguments Pending {A}.

(** The kinds of [io::Error] that the readers report. *)
Inductive io_error : Type := ReadFailed | UnexpectedEof | InvalidData | OtherError.

(** [poll_read] with [room] unfilled bytes: what is filled, and the rest. *)
Definition poll_read (rd : reader) (room : Z) : poll (res io_error bytes) * reader :=
  match rd with
  | [] => (Ready (Ok []), [])
  | Data c :: rd' =>
      if len c <=? room then (Ready (Ok c), rd')
      else (Ready (Ok (take (Z.to_nat room) c)), Data (drop (Z.to_nat room) c) :: rd')
  | Pend :: rd' => (Pending, rd')
  | IoError :: rd' => (Ready (Err ReadFailed), rd')
  end.

(** [read_all_once_internal]: read until nothing more is ready.  Every round
    takes an event or fills the buffer, so one round more than there are
    events is enough. *)
Fixpoint read_all_once_internal (fuel : nat) (rd : reader) (cap : Z) (filled : bytes)
    (quit_on_pending : bool) : poll (res io_error bytes) * reader :=
  match fuel with
  | O => (Ready Panic, rd)
  | S fuel' =>
      if cap - len filled =? 0 then (Ready (Ok filled), rd)
      else
        match poll_read rd (cap - len filled) with
        | (Ready (Ok c), rd') =>
            let filled' := filled ++ c in
            if len filled' =? 0 then (Ready (Ok []), rd')
            else if len filled' =? len filled then (Ready (Ok filled'), rd')
            else read_all_once_internal fuel' rd' cap filled' true
        | (Ready (Err e), rd') => (Ready (Err e), rd')
        | (Ready Panic, rd') => (Ready Panic, rd')
        | (Pending, rd') =>
            if quit_on_pending then (Ready (Ok filled), rd') else (Pending, rd')
        end
  end.

(** [ReadAllOnce::poll] *)
Definition ReadAllOnce_poll (rd : reader) (cap : Z) : poll (res io_error bytes) * reader :=
  read_all_once_internal (S (S (length rd))) rd cap [] false.

(** [reader.read_all_once(buf).await]: the future is polled again after each
    [Pending], and each [Pending] is an event. *)
Fixpoint read_all_once (polls : nat) (rd : reader) (cap : Z) : res io_error bytes * reader :=
  match polls with
  | O => (Panic, rd)
  | S polls' =>
      match ReadAllOnce_poll rd cap with
      | (Ready r, rd') => (r, rd')
      | (Pending, rd') => read_all_once polls' rd' cap
      end
  end.

Definition read_all_once_await (rd : reader) (cap : Z) : res io_error bytes * reader :=
  read_all_once (S (length rd)) rd cap.

(** ** The bytes a reader delivers *)

Fixpoint stream_of (rd : reader) : bytes :=
  match rd with
  | [] => []
  | Data c :: rd' => c ++ stream_of rd'
  | _ :: rd' => stream_of rd'
  end.

(** No errors, and no empty read before the end: an empty read means the end. *)
Definition well_behaved (rd : reader) : Prop :=
  Forall (fun e => match e with Data c => c <> [] | Pend => True | IoError => False end) rd.

Lemma poll_read_spec rd room :
  well_behaved rd -> 0 < room ->
  match poll_read rd room with
  | (Ready (Ok c), rd') =>
      c ++ stream_of rd' = stream_of rd /\ len c <= room /\ well_behaved rd' /\
      (c = [] -> rd = []) /\
      ((length rd' < length rd)%nat \/ len c = room \/ rd = []) /\ (length rd' <= length rd)%nat
  | (Pending, rd') =>
      stream_of rd' = stream_of rd /\ well_behaved rd' /\ (length rd' < length rd)%nat
  | _ => False
  end.
Proof.
  intros Hwb Hroom. destruct rd as [|[c| |] rd']; cbn [poll_read].
  - split_and!; try done; [len_lia|by right; right].
  - apply Forall_cons in Hwb as [Hc Hwb]. destruct (Z.leb_spec (len c) room); cbn [length].
    + split_and!; try done; [left|]; lia.
    + cbn [stream_of length]. rewrite app_assoc, take_drop.
      split_and!; [done|len_lia| |..].
      * constructor; [|done]. intros Hd%(f_equal len). len_lia.
      * intros Ht%(f_equal len). len_lia.
      * right; left. len_lia.
      * lia.
  - apply Forall_cons in Hwb as [_ Hwb]. split_and!; [done..|cbn; lia].
  - by apply Forall_cons in Hwb as [[] _].
Qed.

Lemma read_all_once_internal_spec fuel rd cap filled quit :
  well_behaved rd -> len filled < cap -> (S (length rd) < fuel)%nat ->
  (quit = true <-> filled <> []) ->
  match read_all_once_internal fuel rd cap filled quit with
  | (Ready (Ok c), rd') =>
      c ++ stream_of rd' = filled ++ stream_of rd /\ len c <= cap /\ well_behaved rd' /\
      (c = [] -> stream_of rd = [] /\ filled = []) /\ (length rd' <= length rd)%nat
  | (Pending, rd') =>
      quit = false /\ stream_of rd' = stream_of rd /\ well_behaved rd' /\
      (length rd' < length rd)%nat
  | _ => False
  end.
Proof.
  revert rd filled quit. induction fuel as [|fuel IH]; intros rd filled quit Hwb Hcap Hfuel Hquit;
    [lia|].
  cbn [read_all_once_internal]. destruct (Z.eqb_spec (cap - len filled) 0); [lia|].
  pose proof (poll_read_spec rd (cap - len filled) Hwb ltac:(lia)) as Hpoll.
  destruct (poll_read rd (cap - len filled)) as [[[c|e|]|] rd']; [|done..|].
  - destruct Hpoll as (Hs & Hlen & Hwb' & Hnil & Hprog & Hle).
    destruct (Z.eqb_spec (len (filled ++ c)) 0) as [H0|H0].
    { apply len_0, app_eq_nil in H0 as [-> ->]. rewrite (Hnil eq_refl) in *. cbn in *.
      split_and!; try done. lia. }
    destruct (Z.eqb_spec (len (filled ++ c)) (len filled)) as [H1|H1].
    { assert (c = []) as -> by (apply len_0; len_lia). rewrite (Hnil eq_refl) in *.
      rewrite app_nil_r in *. cbn in *. rewrite Hs, app_nil_r. split_and!; try done; try lia;
        by intros ->. }
    destruct (Z.eq_dec (len c) (cap - len filled)) as [Hfull|Hnot].
    + destruct fuel as [|fuel]; [lia|]. cbn [read_all_once_internal].
      destruct (Z.eqb_spec (cap - len (filled ++ c)) 0); [|len_lia].
      rewrite <- app_assoc, Hs. split_and!; try done; try len_lia;
        intros E%(f_equal len); len_lia.
    + assert (length rd' < length rd)%nat.
      { destruct Hprog as [?|[?| ->]]; [done|lia|].
        assert (c = []) as -> by (destruct c; [done|]; cbn in Hs; discriminate).
        rewrite app_nil_r in H1. done. }
      assert (filled ++ c <> []) as Hne by (intros E%(f_equal len); len_lia).
      specialize (IH rd' (filled ++ c) true Hwb' ltac:(len_lia) ltac:(lia) ltac:(done)).
      destruct (read_all_once_internal fuel rd' cap (filled ++ c) true) as [[[c'|e|]|] rd''].
      * destruct IH as (Hs' & ? & ? & Hnil' & ?).
        rewrite Hs', <- app_assoc, Hs. split_and!; try done; try lia;
          intros E; by destruct (Hnil' E).
      * done.
      * done.
      * by destruct IH as [[=] _].
  - destruct Hpoll as (Hs & Hwb' & Hlt). destruct quit.
    + rewrite Hs. split_and!; try done; try lia;
        intros ->; by destruct (proj1 Hquit eq_refl).
    + done.
Qed.

(** A read delivers at least one byte unless the stream is at its end, never
    more than fits, and loses or reorders nothing. *)
Lemma read_all_once_await_spec rd cap :
  well_behaved rd -> 0 < cap ->
  exists c rd',
    read_all_once_await rd cap = (Ok c, rd') /\
    c ++ stream_of rd' = stream_of rd /\ len c <= cap /\ well_behaved rd' /\
    (c = [] -> stream_of rd = []).
Proof.
  unfold read_all_once_await. intros Hwb Hcap.
  assert (length rd < S (length rd))%nat as Hpolls by lia.
  generalize dependent (S (length rd)). intros polls. revert rd Hwb.
  induction polls as [|polls IH]; intros rd Hwb Hpolls; [lia|]. cbn [read_all_once].
  unfold ReadAllOnce_poll.
  pose proof (read_all_once_internal_spec (S (S (length rd))) rd cap [] false Hwb
    ltac:(len_lia) ltac:(lia) ltac:(by split)) as Hint.
  destruct (read_all_once_internal _ rd cap [] false) as [[[c|e|]|] rd']; [|done..|].
  - destruct Hint as (? & ? & ? & Hnil & _). exists c, rd'. split_and!; try done.
    intros E. by destruct (Hnil E).
  - destruct Hint as (_ & Hs & Hwb' & Hlt). rewrite <- Hs. apply IH; [done|lia].
Qed.

(** ** A plain read

    [reader.read_buf(buf).await] with [room] bytes of spare capacity. *)
Fixpoint read_await (rd : reader) (room : Z) : res io_error bytes * reader :=
  match rd with
  | Pend :: rd' => read_await rd' room
  | _ =>
      match poll_read rd room with
      | (Ready r, rd') => (r, rd')
      | (Pending, rd') => (Panic, rd')
      end
  end.

Lemma read_await_spec rd room :
  well_behaved rd -> 0 < room ->
  exists c rd',
    read_await rd room = (Ok c, rd') /\
    c ++ stream_of rd' = stream_of rd /\ len c <= room /\ well_behaved rd' /\
    (c = [] -> stream_of rd = []).
Proof.
  intros Hwb Hroom. induction rd as [|[c| |] rd IH].
  - exists [], []. split_and!; try done. len_lia.
  - pose proof (poll_read_spec (Data c :: rd) room Hwb Hroom) as Hp.
    cbn [read_await]. destruct (poll_read (Data c :: rd) room) as [[[c'|e|]|] rd'] eqn:Hpoll; [|done..|].
    + destruct Hp as (? & ? & ? & Hn & _). exists c', rd'. split_and!; try done.
      intros E. by apply Hn in E.
    + cbn in Hpoll. by destruct (len c <=? room).
  - apply Forall_cons in Hwb as [_ Hwb]. cbn [read_await stream_of]. by apply IH.
  - by apply Forall_cons in Hwb as [[] _].
Qed.
