(* ===== verification/AsyncIo.v ===== *)
(** * Interfaces of asynchronous input and output

    The traits [AsyncRead] and [AsyncBufRead] of tokio as classes, with the laws
    that the code on top of them relies on, and their instance for an event-list
    reader; writers as the list of their coming answers; and the combinators for
    polled results ([ready!], [?], [.await]). *)

From Stdlib Require Import ZArith Lia Strings.Byte.
From stdpp Require Import base list.
From S2P Require Import Prelude Reader.

(** ** Polled results

    Both kinds of [?] on a polled result: [Pending] and errors are returned. *)
Definition poll_bind {E A B S} (r : poll (res E A) * S) (k : A -> S -> poll (res E B) * S)
    : poll (res E B) * S :=
  match r with
  | (Ready (Ok a), t) => k a t
  | (Ready (Err e), t) => (Ready (Err e), t)
  | (Ready Panic, t) => (Ready Panic, t)
  | (Pending, t) => (Pending, t)
  end.

(** A computation that does not touch the state. *)
Definition poll_lift {E A S} (r : res E A) (t : S) : poll (res E A) * S := (Ready r, t).

(** [poll_fn(f).await]: poll again after each [Pending]. *)
Fixpoint await {E A S} (polls : nat) (f : S -> poll (res E A) * S) (t : S) : res E A * S :=
  match polls with
  | O => (Panic, t)
  | S polls' =>
      match f t with
      | (Ready r, t) => (r, t)
      | (Pending, t) => await polls' f t
      end
  end.

(** Polls that keep an invariant and count down come to an end. *)
Lemma await_spec {E A S} (f : S -> poll (res E A) * S) (Inv : S -> nat -> Prop) (Q : A -> S -> Prop) :
  (forall t n, Inv t n ->
     match f t with
     | (Ready (Ok a), t') => Q a t'
     | (Pending, t') => exists m, (m < n)%nat /\ Inv t' m
     | (Ready _, _) => False
     end) ->
  forall polls t n, Inv t n -> (n < polls)%nat -> exists a t', await polls f t = (Ok a, t') /\ Q a t'.
Proof.
  intros Hf polls. induction polls as [|polls IH]; intros t n Hi Hn; [lia|]. cbn [await].
  pose proof (Hf t n Hi) as Hp. destruct (f t) as [[[a|e|]|] t']; [by exists a, t'|done..|].
  destruct Hp as (m & Hm & Hi'). apply (IH t' m Hi'). lia.
Qed.

(** The same with errors. *)
Lemma await_wp {E A S} (f : S -> poll (res E A) * S) (Inv : S -> nat -> Prop) (Q : res E A -> S -> Prop) :
  (forall t n, Inv t n ->
     match f t with
     | (Ready r, t') => Q r t'
     | (Pending, t') => exists m, (m < n)%nat /\ Inv t' m
     end) ->
  forall polls t n, Inv t n -> (n < polls)%nat -> let (r, t') := await polls f t in Q r t'.
Proof.
  intros Hf polls. induction polls as [|polls IH]; intros t n Hi Hn; [lia|]. cbn [await].
  pose proof (Hf t n Hi) as Hp. destruct (f t) as [[r|] t']; [done|].
  destruct Hp as (m & Hm & Hi'). apply (IH t' m Hi'). lia.
Qed.

(** More polls than it takes change nothing. *)
Lemma await_more {E A S} (f : S -> poll (res E A) * S) polls polls' t a t' :
  (polls <= polls')%nat -> await polls f t = (Ok a, t') -> await polls' f t = (Ok a, t').
Proof.
  revert polls' t. induction polls as [|polls IH]; intros [|polls'] t Hle; cbn [await]; try done; [lia|].
  destruct (f t) as [[r|] t1]; [done|]. apply IH. lia.
Qed.

(** ** Writers

    The coming answers to [poll_write] and [poll_flush], the bytes that have
    been accepted and how many of them have been flushed; when a list is used
    up, everything is accepted and flushed. *)

Inductive write_event : Type :=
| Accept (n : Z)
| WPend
| WError.

Inductive flush_event : Type := FPend | FError.

Record writer : Type := {
  wr_writes : list write_event;
  wr_flushes : list flush_event;
  wr_out : bytes;
  wr_flushed : Z
}.

(** The contract of [AsyncWrite::poll_write]: a prefix of the data is accepted. *)
Definition poll_write (w : writer) (data : bytes) : poll (option Z) * writer :=
  let accept n writes :=
    (Ready (Some n),
     {| wr_writes := writes; wr_flushes := wr_flushes w; wr_out := wr_out w ++ take (Z.to_nat n) data;
        wr_flushed := wr_flushed w |}) in
  let answer a writes :=
    (a, {| wr_writes := writes; wr_flushes := wr_flushes w; wr_out := wr_out w; wr_flushed := wr_flushed w |}) in
  match wr_writes w with
  | [] => accept (len data) []
  | Accept n :: writes => accept (Z.min n (len data)) writes
  | WPend :: writes => answer Pending writes
  | WError :: writes => answer (Ready None) writes
  end.

Definition poll_flush (w : writer) : poll bool * writer :=
  let answer a flushes flushed :=
    (a, {| wr_writes := wr_writes w; wr_flushes := flushes; wr_out := wr_out w; wr_flushed := flushed |}) in
  match wr_flushes w with
  | [] => answer (Ready true) [] (len (wr_out w))
  | FPend :: flushes => answer Pending flushes (wr_flushed w)
  | FError :: flushes => answer (Ready false) flushes (wr_flushed w)
  end.

(** A writer as any peer may behave: it never accepts more than it is offered. *)
Definition lawful_writer (w : writer) : Prop :=
  Forall (fun e => match e with Accept n => 0 <= n | _ => True end) (wr_writes w).

(** A writer that may let the program wait, but never fails and never accepts
    nothing. *)
Definition fair_writer (w : writer) : Prop :=
  Forall (fun e => match e with Accept n => 0 < n | WPend => True | WError => False end) (wr_writes w) /\
  Forall (fun e => match e with FPend => True | FError => False end) (wr_flushes w).

Definition writer_waits (w : writer) : nat := length (wr_writes w) + length (wr_flushes w).

Lemma fair_lawful w : fair_writer w -> lawful_writer w.
Proof. intros [Hw _]. eapply Forall_impl; [exact Hw|]. intros [n| |]; [lia|done..]. Qed.

Lemma poll_write_spec w data :
  lawful_writer w ->
  match poll_write w data with
  | (Pending, w') =>
      lawful_writer w' /\ (fair_writer w -> fair_writer w') /\ wr_out w' = wr_out w /\
      (writer_waits w' < writer_waits w)%nat
  | (Ready None, w') => lawful_writer w' /\ ~ fair_writer w /\ wr_out w' = wr_out w
  | (Ready (Some n), w') =>
      lawful_writer w' /\ (fair_writer w -> fair_writer w' /\ (data <> [] -> 0 < n)) /\ 0 <= n <= len data /\
      wr_out w' = wr_out w ++ take (Z.to_nat n) data /\ (writer_waits w' <= writer_waits w)%nat
  end.
Proof.
  destruct w as [[|[n| |] ws] fs out fl]; unfold lawful_writer, fair_writer, poll_write, writer_waits;
    cbn [wr_writes wr_flushes wr_out length]; intros Hl; try apply Forall_cons in Hl as [Hn Hl].
  - assert (data <> [] -> 0 < len data) as Hd by (destruct data; [done|]; intros; len_lia).
    split_and!; try done; len_lia.
  - assert (data <> [] -> 0 < len data) as Hd by (destruct data; [done|]; intros; len_lia).
    rewrite Forall_cons. split_and!; try done; try len_lia. intros [[? ?] ?].
    split; [done|]. intros Hx%Hd. lia.
  - rewrite Forall_cons. split_and!; try done; try lia; tauto.
  - rewrite Forall_cons. split_and!; try done; tauto.
Qed.

Lemma poll_flush_spec w :
  match poll_flush w with
  | (Pending, w') =>
      wr_writes w' = wr_writes w /\ (fair_writer w -> fair_writer w') /\ wr_out w' = wr_out w /\
      (writer_waits w' < writer_waits w)%nat
  | (Ready ok, w') =>
      wr_writes w' = wr_writes w /\ (fair_writer w -> fair_writer w' /\ ok = true) /\ wr_out w' = wr_out w /\
      (ok = true -> wr_flushed w' = len (wr_out w)) /\ (writer_waits w' <= writer_waits w)%nat
  end.
Proof.
  destruct w as [ws [|[|] fs] out fl]; unfold fair_writer, poll_flush, writer_waits;
    cbn [wr_writes wr_flushes wr_out wr_flushed length]; rewrite ?Forall_cons; split_and!; try done; try lia; tauto.
Qed.

(** [AsyncWriteExt::write_all]: every round takes an answer of the writer or
    writes everything. *)
Inductive write_error : Type := WriteFailedIo | WriteZeroIo.

Fixpoint write_all_loop (fuel : nat) (w : writer) (data : bytes) : res write_error unit * writer :=
  match fuel with
  | O => (Panic, w)
  | S fuel' =>
      if len data =? 0 then (Ok tt, w)
      else
        match poll_write w data with
        | (Pending, w) => write_all_loop fuel' w data
        | (Ready None, w) => (Err WriteFailedIo, w)
        | (Ready (Some n), w) =>
            if n =? 0 then (Err WriteZeroIo, w) else write_all_loop fuel' w (drop (Z.to_nat n) data)
        end
  end.

Definition write_all (w : writer) (data : bytes) : res write_error unit * writer :=
  write_all_loop (S (S (length (wr_writes w)))) w data.

(** [AsyncWriteExt::flush] *)
Fixpoint flush_loop (fuel : nat) (w : writer) : res write_error unit * writer :=
  match fuel with
  | O => (Panic, w)
  | S fuel' =>
      match poll_flush w with
      | (Pending, w) => flush_loop fuel' w
      | (Ready ok, w) => (if ok then Ok tt else Err WriteFailedIo, w)
      end
  end.

Definition flush (w : writer) : res write_error unit * writer :=
  flush_loop (S (length (wr_flushes w))) w.

Lemma write_all_loop_spec fuel w data :
  lawful_writer w -> (S (length (wr_writes w)) < fuel)%nat ->
  match write_all_loop fuel w data with
  | (Ok _, w') => lawful_writer w' /\ (fair_writer w -> fair_writer w') /\ wr_out w' = wr_out w ++ data
  | (Err _, w') => ~ fair_writer w /\ lawful_writer w' /\ exists k, k `prefix_of` data /\ wr_out w' = wr_out w ++ k
  | (Panic, _) => False
  end.
Proof.
  revert w data. induction fuel as [|fuel IH]; intros w data Hw Hf; [lia|]. cbn [write_all_loop].
  destruct (Z.eqb_spec (len data) 0) as [->%len_0|Hne]; [by rewrite app_nil_r|].
  assert (data <> []) as Hd by (intros ->; by apply Hne).
  pose proof (poll_write_spec w data Hw) as Hp.
  assert (forall r w', poll_write w data = (r, w') -> (length (wr_writes w') <= length (wr_writes w))%nat /\
    (wr_writes w <> [] -> (length (wr_writes w') < length (wr_writes w))%nat) /\
    (wr_writes w = [] -> r = Ready (Some (len data)))) as Hlen.
  { unfold poll_write. destruct (wr_writes w) as [|[n| |] ws]; intros r w' [= <- <-]; cbn; split_and!; intros; done || lia. }
  destruct (poll_write w data) as [[[n|]|] w'] eqn:Hpw; specialize (Hlen _ _ eq_refl) as (Hle & Hlt & Hnil).
  - destruct Hp as (Hw' & Hfair & Hn & Hout & _). destruct (Z.eqb_spec n 0) as [->|Hn0].
    { split_and!; [|done|]; [intros Hfw; destruct (Hfair Hfw) as [_ Hpos]; specialize (Hpos Hd); lia|].
      exists []. rewrite Hout. split; [apply prefix_nil|done]. }
    destruct (decide (wr_writes w = [])) as [Hnw|Hnw].
    + apply Hnil in Hnw as [= ->]. destruct fuel as [|fuel]; [lia|]. cbn [write_all_loop].
      rewrite drop_ge by (unfold len; lia). cbn. rewrite take_ge in Hout by (unfold len; lia).
      split_and!; [done|tauto|done].
    + specialize (IH w' (drop (Z.to_nat n) data) Hw' ltac:(specialize (Hlt Hnw); lia)).
      destruct (write_all_loop fuel w' (drop (Z.to_nat n) data)) as [[u|e|] w''].
      * destruct IH as (Hl & Hf' & Ho). split_and!; [done|tauto|].
        by rewrite Ho, Hout, <- app_assoc, take_drop.
      * destruct IH as (Hnf & Hl & k & Hk & Ho). split_and!; [tauto|done|].
        exists (take (Z.to_nat n) data ++ k). split; [|by rewrite Ho, Hout, <- app_assoc].
        rewrite <- (take_drop (Z.to_nat n) data) at 2. by apply prefix_app.
      * done.
  - destruct Hp as (Hw' & Hnf & Ho). split_and!; [done..|]. exists [].
    rewrite Ho, app_nil_r. split; [apply prefix_nil|done].
  - destruct Hp as (Hw' & Hfair & Ho & _).
    assert (wr_writes w <> []) as Hnw by (intros H%Hnil; done).
    specialize (IH w' data Hw' ltac:(specialize (Hlt Hnw); lia)).
    destruct (write_all_loop fuel w' data) as [[u|e|] w'']; try rewrite <- Ho.
    + destruct IH as (? & ? & ?). split_and!; auto.
    + destruct IH as (? & ? & ?). split_and!; auto.
    + done.
Qed.

(** [write_all] writes everything, or a prefix when the writer fails. *)
Lemma write_all_spec w data :
  lawful_writer w ->
  match write_all w data with
  | (Ok _, w') => lawful_writer w' /\ (fair_writer w -> fair_writer w') /\ wr_out w' = wr_out w ++ data
  | (Err _, w') => ~ fair_writer w /\ lawful_writer w' /\ exists k, k `prefix_of` data /\ wr_out w' = wr_out w ++ k
  | (Panic, _) => False
  end.
Proof. intros Hw. apply write_all_loop_spec; [done|lia]. Qed.

Lemma flush_spec w :
  match flush w with
  | (Ok _, w') => wr_writes w' = wr_writes w /\ (fair_writer w -> fair_writer w') /\
      wr_out w' = wr_out w /\ wr_flushed w' = len (wr_out w)
  | (Err _, w') => ~ fair_writer w /\ wr_writes w' = wr_writes w /\ wr_out w' = wr_out w
  | (Panic, _) => False
  end.
Proof.
  unfold flush. assert (length (wr_flushes w) < S (length (wr_flushes w)))%nat as Hf by lia.
  generalize dependent (S (length (wr_flushes w))). intros fuel. revert w.
  induction fuel as [|fuel IH]; intros [ws fs out fl] Hf; [lia|]. cbn [flush_loop wr_flushes] in *.
  destruct fs as [|[|] fs]; unfold poll_flush; cbn [wr_flushes wr_writes wr_out wr_flushed].
  - unfold fair_writer. by split_and!.
  - specialize (IH {| wr_writes := ws; wr_flushes := fs; wr_out := out; wr_flushed := fl |} ltac:(cbn in *; lia)).
    unfold fair_writer in *. cbn [wr_writes wr_flushes wr_out] in *.
    destruct (flush_loop fuel _) as [[u|e|] w']; rewrite ?Forall_cons; [|tauto..].
    destruct IH as (? & ? & ? & ?). split_and!; try done. tauto.
  - split_and!; try done. unfold fair_writer. cbn. rewrite Forall_cons. tauto.
Qed.

(** ** Readers as a class *)

Class AsyncRead (R : Type) : Type := ar_poll_read : R -> Z -> poll (res io_error bytes) * R.

Class AsyncBufRead (R : Type) : Type := {
  abr_read :: AsyncRead R;
  poll_fill_buf : R -> poll (res io_error bytes) * R;
  consume : R -> Z -> R
}.

(** What code on top of a reader relies on.  [source r s]: the bytes [s] are
    still to come.  A reader that is not [faulty] delivers them without an
    error, and answers a read with nothing only at their end, after which
    [at_end] holds.  [waits] bounds the number of times it lets its caller wait. *)
Class AsyncReadLaws (R : Type) `{AsyncRead R} : Type := {
  source : R -> bytes -> Prop;
  faulty : R -> Prop;
  at_end : R -> Prop;
  waits : R -> nat;
  source_poll_read r s room :
    source r s -> 0 < room ->
    match ar_poll_read r room with
    | (Ready (Ok c), r') =>
        exists s', s = c ++ s' /\ len c <= room /\ source r' s' /\ (faulty r' -> faulty r) /\
          (c = [] -> faulty r \/ s = [] /\ at_end r') /\ (waits r' <= waits r)%nat
    | (Ready (Err _), r') => source r' s /\ faulty r
    | (Pending, r') => source r' s /\ (faulty r' -> faulty r) /\ (waits r' < waits r)%nat
    | (Ready Panic, _) => False
    end
}.

(** A buffered reader shows a part of what is to come and keeps it until it is
    consumed. *)
Class AsyncBufReadLaws (R : Type) `{AsyncBufRead R} : Type := {
  abr_laws :: AsyncReadLaws R;
  buffered : R -> bytes -> Prop;
  source_fill_buf r s :
    source r s ->
    match poll_fill_buf r with
    | (Ready (Ok d), r') =>
        source r' s /\ buffered r' d /\ (faulty r' -> faulty r) /\ (d = [] -> faulty r \/ s = []) /\
        (waits r' <= waits r)%nat
    | (Ready (Err _), r') => source r' s /\ faulty r
    | (Pending, r') => source r' s /\ (faulty r' -> faulty r) /\ (waits r' < waits r)%nat
    | (Ready Panic, _) => False
    end;
  buffered_fill_buf r d : buffered r d -> d <> [] -> poll_fill_buf r = (Ready (Ok d), r);
  buffered_consume r s d n :
    source r s -> buffered r d -> 0 <= n <= len d ->
    exists s', s = take (Z.to_nat n) d ++ s' /\ source (consume r n) s' /\
      buffered (consume r n) (drop (Z.to_nat n) d) /\ (faulty (consume r n) -> faulty r) /\
      (waits (consume r n) <= waits r)%nat
}.

(** ** The event-list reader *)

Definition reader_fill_buf (rd : reader) : poll (res io_error bytes) * reader :=
  match rd with
  | [] => (Ready (Ok []), [])
  | Data c :: rd' => (Ready (Ok c), rd)
  | Pend :: rd' => (Pending, rd')
  | IoError :: rd' => (Ready (Err ReadFailed), rd')
  end.

Definition reader_consume (rd : reader) (n : Z) : reader :=
  match rd with
  | Data c :: rd' => if len c <=? n then rd' else Data (drop (Z.to_nat n) c) :: rd'
  | _ => rd
  end.

#[export] Instance reader_AsyncRead : AsyncRead reader := poll_read.
#[export] Instance reader_AsyncBufRead : AsyncBufRead reader :=
  {| poll_fill_buf := reader_fill_buf; consume := reader_consume |}.

Lemma stream_of_nil_well_behaved rd : well_behaved rd -> stream_of rd = [] -> Forall (eq Pend) rd.
Proof.
  induction rd as [|[c| |] rd IH]; intros Hw Hs; [done|..]; apply Forall_cons in Hw as [He Hw].
  - apply app_eq_nil in Hs as [-> _]. done.
  - constructor; auto.
  - done.
Qed.

Lemma reader_poll_read_laws rd s room :
  stream_of rd = s -> 0 < room ->
  match poll_read rd room with
  | (Ready (Ok c), rd') =>
      exists s', s = c ++ s' /\ len c <= room /\ stream_of rd' = s' /\
        (~ well_behaved rd' -> ~ well_behaved rd) /\ (c = [] -> ~ well_behaved rd \/ s = [] /\ rd' = []) /\
        (length rd' <= length rd)%nat
  | (Ready (Err _), rd') => stream_of rd' = s /\ ~ well_behaved rd
  | (Pending, rd') => stream_of rd' = s /\ (~ well_behaved rd' -> ~ well_behaved rd) /\ (length rd' < length rd)%nat
  | (Ready Panic, _) => False
  end.
Proof.
  intros <- Hroom. unfold well_behaved. destruct rd as [|[c| |] rd']; cbn [poll_read stream_of length].
  - exists []. split_and!; auto. len_lia.
  - destruct (Z.leb_spec (len c) room); cbn [stream_of length].
    + exists (stream_of rd'). rewrite Forall_cons. split_and!; try done; [tauto| |lia]. intros ->. left. tauto.
    + eexists. rewrite app_assoc, take_drop. split_and!; [done|len_lia|done|..].
      * rewrite !Forall_cons. intros Hn [? ?]. apply Hn. split; [|done]. intros Hd%(f_equal len). len_lia.
      * intros Ht%(f_equal len). len_lia.
      * lia.
  - rewrite Forall_cons. split_and!; try done; [tauto|lia].
  - rewrite Forall_cons. split_and!; try done. tauto.
Qed.

#[export] Instance reader_AsyncReadLaws : AsyncReadLaws reader := {|
  source rd s := stream_of rd = s;
  faulty rd := ~ well_behaved rd;
  at_end rd := rd = [];
  waits rd := length rd;
  source_poll_read := reader_poll_read_laws
|}.

Definition reader_buffered (rd : reader) (d : bytes) : Prop :=
  d = [] \/ exists rd', rd = Data d :: rd'.

Lemma reader_fill_buf_laws (rd : reader) s :
  source rd s ->
  match poll_fill_buf rd with
  | (Ready (Ok d), r') =>
      source r' s /\ reader_buffered r' d /\ (faulty r' -> faulty rd) /\
      (d = [] -> faulty rd \/ s = []) /\ (waits r' <= waits rd)%nat
  | (Ready (Err _), r') => source r' s /\ faulty rd
  | (Pending, r') => source r' s /\ (faulty r' -> faulty rd) /\ (waits r' < waits rd)%nat
  | (Ready Panic, _) => False
  end.
Proof.
  cbn. intros <-. unfold well_behaved, reader_buffered.
  destruct rd as [|[c| |] rd']; cbn [reader_fill_buf stream_of length].
  - split_and!; auto.
  - rewrite Forall_cons. split_and!; try done; [eauto|]. intros ->. left. tauto.
  - rewrite Forall_cons. split_and!; try done; [tauto|lia].
  - rewrite Forall_cons. split_and!; try done. tauto.
Qed.

Lemma reader_buffered_fill_buf rd d :
  reader_buffered rd d -> d <> [] -> poll_fill_buf rd = (Ready (Ok d), rd).
Proof. by intros [->|[rd' ->]]. Qed.

Lemma reader_consume_laws (rd : reader) s d n :
  source rd s -> reader_buffered rd d -> 0 <= n <= len d ->
  exists s', s = take (Z.to_nat n) d ++ s' /\ source (consume rd n) s' /\
    reader_buffered (consume rd n) (drop (Z.to_nat n) d) /\ (faulty (consume rd n) -> faulty rd) /\
    (waits (consume rd n) <= waits rd)%nat.
Proof.
  cbn. intros <- Hb Hn. unfold well_behaved, reader_buffered in *.
  destruct Hb as [->|[rd' ->]]; cbn [reader_consume stream_of].
  - rewrite take_nil, drop_nil. exists (stream_of rd). assert (n = 0) as -> by len_lia.
    destruct rd as [|[c| |] rd]; cbn [reader_consume]; try (split_and!; auto; done).
    destruct (Z.leb_spec (len c) 0) as [Hc|]; [|rewrite drop_0; split_and!; auto; done].
    rewrite (len_0 c) by (pose proof (len_nonneg c); lia). cbn [stream_of app length]. rewrite Forall_cons.
    split_and!; auto. tauto.
  - destruct (Z.leb_spec (len d) n).
    + exists (stream_of rd'). rewrite take_ge, drop_ge by (unfold len in *; lia). rewrite Forall_cons.
      cbn [length]. split_and!; auto; tauto.
    + exists (drop (Z.to_nat n) d ++ stream_of rd'). rewrite app_assoc, take_drop, !Forall_cons. cbn [stream_of].
      split_and!; eauto. intros Hf [? ?]. apply Hf. split; [|done]. intros Hd%(f_equal len). len_lia.
Qed.

#[export] Instance reader_AsyncBufReadLaws : AsyncBufReadLaws reader := {|
  buffered := reader_buffered;
  source_fill_buf := reader_fill_buf_laws;
  buffered_fill_buf := reader_buffered_fill_buf;
  buffered_consume := reader_consume_laws
|}.

(** ** Reading to the end

    [read(buf).await] again and again, with [rooms i] bytes of room in the
    [i]-th poll, until a read returns nothing. *)
Fixpoint read_to_end {R} `{AsyncRead R} (fuel : nat) (rooms : nat -> Z) (r : R) : res io_error bytes * R :=
  match fuel with
  | O => (Panic, r)
  | S fuel' =>
      match ar_poll_read r (rooms fuel') with
      | (Ready (Ok []), r) => (Ok [], r)
      | (Ready (Ok c), r) =>
          let (rest, r) := read_to_end fuel' rooms r in
          (let? l := rest in Ok (c ++ l), r)
      | (Ready (Err e), r) => (Err e, r)
      | (Ready Panic, r) => (Panic, r)
      | (Pending, r) => read_to_end fuel' rooms r
      end
  end.

(** A reader without faults delivers exactly its source. *)
Lemma read_to_end_spec {R} `{AsyncReadLaws R} fuel rooms (r : R) s :
  source r s -> ~ faulty r -> (forall i, 0 < rooms i) -> (waits r + length s < fuel)%nat ->
  exists r', read_to_end fuel rooms r = (Ok s, r') /\ source r' [] /\ at_end r' /\ ~ faulty r'.
Proof.
  revert r s. induction fuel as [|fuel IH]; intros r s Hs Hf Hrooms Hfuel; [lia|]. cbn [read_to_end].
  pose proof (source_poll_read r s (rooms fuel) Hs (Hrooms fuel)) as Hp.
  destruct (ar_poll_read r (rooms fuel)) as [[[c|e|]|] r']; [|tauto|done|].
  - destruct Hp as (s' & -> & _ & Hs' & Hf' & Hnil & Hw). destruct c as [|b c].
    + destruct (Hnil eq_refl) as [?|[Hx He]]; [done|]. cbn in Hx. subst s'. exists r'. split_and!; try done. tauto.
    + destruct (IH r' s' Hs' ltac:(tauto) Hrooms) as (r'' & -> & ? & ? & ?).
      { rewrite length_app in Hfuel. cbn in Hfuel. lia. }
      exists r''. by split_and!.
  - destruct Hp as (Hs' & Hf' & Hw). apply IH; [done|tauto|done|lia].
Qed.
