(* ===== verification/ReadExt.v ===== *)
(** Reading messages field by field: [read_exact], [read_u8] and [read_u16] of
    tokio, the futures of [lib/vey-io-ext/src/stream/ext/] that read up to a
    delimiter ([limited_read_until.rs], [limited_read_buf_until.rs],
    [limited_skip_until.rs]) and the one that writes and flushes
    ([write_all_flush.rs]).

    A computation that reads takes the reader and returns a result and the reader
    that is left; [recvs m s r s'] says that on any reader that delivers [s], in
    whatever parts, it returns [r] and leaves [s']. *)

From Stdlib Require Import ZArith Lia Strings.Byte.
From stdpp Require Import base list.
From S2P Require Import Prelude Reader AsyncIo.

(** ** Computations with a state *)

Definition proc (S E A : Type) : Type := S -> res E A * S.

(** Computations that read. *)
Abbreviation recv := (proc reader).

Definition recv_ret {S E A} (a : A) : proc S E A := fun s => (Ok a, s).
Definition recv_fail {S E A} (e : E) : proc S E A := fun s => (Err e, s).
Definition recv_lift {S E A} (r : res E A) : proc S E A := fun s => (r, s).

Definition recv_bind {S E A B} (m : proc S E A) (k : A -> proc S E B) : proc S E B := fun s =>
  match m s with
  | (Ok a, s) => k a s
  | (Err e, s) => (Err e, s)
  | (Panic, s) => (Panic, s)
  end.

(** The conversion of the error that [?] or [map_err] applies. *)
Definition recv_io {S E E' A} (f : E' -> E) (m : proc S E' A) : proc S E A := fun s =>
  let (r, s) := m s in (map_err f r, s).

Declare Scope recv_scope.
Delimit Scope recv_scope with recv.
Notation "'let*' x := m 'in' k" := (recv_bind m (fun x => k))
  (at level 10, x name, m at level 100, k at level 200) : recv_scope.
Notation "'let*' ' p := m 'in' k" := (recv_bind m (fun p => k))
  (at level 10, p strict pattern, m at level 100, k at level 200) : recv_scope.

(** ** [AsyncReadExt] *)

Fixpoint read_exact_loop (fuel : nat) (n : Z) (acc : bytes) (rd : reader) : res io_error bytes * reader :=
  match fuel with
  | O => (Panic, rd)
  | S fuel' =>
      if n =? 0 then (Ok acc, rd)
      else
        match read_await rd n with
        | (Ok [], rd) => (Err UnexpectedEof, rd)
        | (Ok c, rd) => read_exact_loop fuel' (n - len c) (acc ++ c) rd
        | (Err e, rd) => (Err e, rd)
        | (Panic, rd) => (Panic, rd)
        end
  end.

(** Every round reads a byte, or ends. *)
Definition read_exact (n : Z) (rd : reader) : res io_error bytes * reader :=
  read_exact_loop (S (Z.to_nat n)) n [] rd.

Definition read_u8 (rd : reader) : res io_error Z * reader :=
  let (r, rd) := read_exact 1 rd in (let? b := r in Ok (from_be b), rd).

Definition read_u16 (rd : reader) : res io_error Z * reader :=
  let (r, rd) := read_exact 2 rd in (let? b := r in Ok (from_be b), rd).

(** ** Reading up to a delimiter *)

Record until_state : Type := {
  us_reader : reader;
  us_buf : bytes;
  us_read : Z
}.

(** The loop of [read_until_internal].  Every round takes an event of the reader
    or ends. *)
Fixpoint read_until_internal (fuel : nat) (delimiter : byte) (limit : Z) (st : until_state)
  : poll (res io_error (bool * Z)) * until_state :=
  match fuel with
  | O => (Ready Panic, st)
  | S fuel' =>
      match poll_fill_buf (us_reader st) with
      | (Pending, rd) => (Pending, {| us_reader := rd; us_buf := us_buf st; us_read := us_read st |})
      | (Ready (Err e), rd) => (Ready (Err e), {| us_reader := rd; us_buf := us_buf st; us_read := us_read st |})
      | (Ready Panic, rd) => (Ready Panic, st)
      | (Ready (Ok available), rd) =>
          let '(done, used) := match memchr delimiter available with
                               | Some i => (true, i + 1)
                               | None => (false, len available)
                               end in
          let buf := us_buf st ++ take (Z.to_nat used) available in
          let read := us_read st + used in
          let rd := consume rd used in
          if done then
            (Ready (Ok (negb (limit <? read), read)), {| us_reader := rd; us_buf := buf; us_read := 0 |})
          else if (used =? 0) || (limit <? read) then
            (Ready (Ok (false, read)), {| us_reader := rd; us_buf := buf; us_read := 0 |})
          else read_until_internal fuel' delimiter limit {| us_reader := rd; us_buf := buf; us_read := read |}
      end
  end.

(** [LimitedReadUntil::poll] and [LimitedReadBufUntil::poll]. *)
Definition LimitedReadUntil_poll (delimiter : byte) (limit : Z) (st : until_state)
  : poll (res io_error (bool * Z)) * until_state :=
  read_until_internal (S (S (length (us_reader st)))) delimiter limit st.

(** [reader.limited_read_until(delimiter, max_len, buf).await], with what it put
    into the buffer. *)
Definition limited_read_until (delimiter : byte) (max_len : Z) (buf : bytes) (rd : reader)
  : res io_error (bool * Z * bytes) * reader :=
  let (r, st) := await (S (length rd)) (LimitedReadUntil_poll delimiter max_len)
                   {| us_reader := rd; us_buf := buf; us_read := 0 |} in
  (let? '(found, nr) := r in Ok (found, nr, us_buf st), us_reader st).

(** [skip_until_internal]: the same without a buffer. *)
Fixpoint skip_until_internal (fuel : nat) (delimiter : byte) (limit : Z) (st : reader * Z)
  : poll (res io_error (bool * Z)) * (reader * Z) :=
  match fuel with
  | O => (Ready Panic, st)
  | S fuel' =>
      match poll_fill_buf st.1 with
      | (Pending, rd) => (Pending, (rd, st.2))
      | (Ready (Err e), rd) => (Ready (Err e), (rd, st.2))
      | (Ready Panic, rd) => (Ready Panic, st)
      | (Ready (Ok available), rd) =>
          let '(done, used) := match memchr delimiter available with
                               | Some i => (true, i + 1)
                               | None => (false, len available)
                               end in
          let read := st.2 + used in
          let rd := consume rd used in
          if done then (Ready (Ok (negb (limit <? read), read)), (rd, 0))
          else if (used =? 0) || (limit <? read) then (Ready (Ok (false, read)), (rd, 0))
          else skip_until_internal fuel' delimiter limit (rd, read)
      end
  end.

Definition LimitedSkipUntil_poll (delimiter : byte) (limit : Z) (st : reader * Z)
  : poll (res io_error (bool * Z)) * (reader * Z) :=
  skip_until_internal (S (S (length st.1))) delimiter limit st.

(** ** Writing *)

Record write_all_flush_state : Type := {
  wf_writer : writer;
  wf_buf : bytes;
  wf_flush_done : bool
}.

(** The [while] loop of [WriteAllFlush::poll]. *)
Fixpoint write_buf (fuel : nat) (w : writer) (buf : bytes) : poll (res write_error unit) * (writer * bytes) :=
  match fuel with
  | O => (Ready Panic, (w, buf))
  | S fuel' =>
      if len buf =? 0 then (Ready (Ok tt), (w, buf))
      else
        match poll_write w buf with
        | (Pending, w) => (Pending, (w, buf))
        | (Ready None, w) => (Ready (Err WriteFailedIo), (w, buf))
        | (Ready (Some n), w) =>
            let buf := drop (Z.to_nat n) buf in
            if n =? 0 then (Ready (Err WriteZeroIo), (w, buf)) else write_buf fuel' w buf
        end
  end.

Definition WriteAllFlush_poll (st : write_all_flush_state) : poll (res write_error unit) * write_all_flush_state :=
  match write_buf (S (length (wf_buf st))) (wf_writer st) (wf_buf st) with
  | (Ready (Ok _), (w, buf)) =>
      if wf_flush_done st then (Ready (Ok tt), {| wf_writer := w; wf_buf := buf; wf_flush_done := true |})
      else
        match poll_flush w with
        | (Pending, w) => (Pending, {| wf_writer := w; wf_buf := buf; wf_flush_done := false |})
        | (Ready false, w) => (Ready (Err WriteFailedIo), {| wf_writer := w; wf_buf := buf; wf_flush_done := false |})
        | (Ready true, w) => (Ready (Ok tt), {| wf_writer := w; wf_buf := buf; wf_flush_done := true |})
        end
  | (Ready r, (w, buf)) => (Ready r, {| wf_writer := w; wf_buf := buf; wf_flush_done := wf_flush_done st |})
  | (Pending, (w, buf)) => (Pending, {| wf_writer := w; wf_buf := buf; wf_flush_done := wf_flush_done st |})
  end.

(** [writer.write_all_flush(buf).await]: every [Pending] is an answer of the
    writer that is used up. *)
Definition write_all_flush (buf : bytes) (w : writer) : res write_error unit * writer :=
  let (r, st) := await (S (writer_waits w)) WriteAllFlush_poll
                   {| wf_writer := w; wf_buf := buf; wf_flush_done := false |} in
  (r, wf_writer st).

(** ** What a computation does with a stream *)

(** On a reader that delivers [s] and does not fail. *)
Definition recvs {E A} (m : recv E A) (s : bytes) (r : res E A) (s' : bytes) : Prop :=
  forall rd, well_behaved rd -> stream_of rd = s ->
    exists rd', m rd = (r, rd') /\ well_behaved rd' /\ stream_of rd' = s'.

(** On any reader: no panic, and [Q] of what it returns. *)
Definition recv_safe {E A} (m : recv E A) (Q : A -> Prop) : Prop :=
  forall rd, match (m rd).1 with Ok a => Q a | Err _ => True | Panic => False end.

Section Rules.
Context {E A B : Type}.

Lemma recvs_ret (a : A) s : recvs (recv_ret (E := E) a) s (Ok a) s.
Proof. intros rd Hw Hs. by exists rd. Qed.

Lemma recvs_fail (e : E) s : recvs (recv_fail (A := A) e) s (Err e) s.
Proof. intros rd Hw Hs. by exists rd. Qed.

Lemma recvs_lift (r : res E A) s : recvs (recv_lift r) s r s.
Proof. intros rd Hw Hs. by exists rd. Qed.

Lemma recvs_bind (m : recv E A) (k : A -> recv E B) s a s1 r s2 :
  recvs m s (Ok a) s1 -> recvs (k a) s1 r s2 -> recvs (recv_bind m k) s r s2.
Proof.
  intros Hm Hk rd Hw Hs. destruct (Hm rd Hw Hs) as (rd1 & E1 & Hw1 & Hs1). unfold recv_bind. rewrite E1. by apply Hk.
Qed.

Lemma recvs_bind_err (m : recv E A) (k : A -> recv E B) s e s1 :
  recvs m s (Err e) s1 -> recvs (recv_bind m k) s (Err e) s1.
Proof. intros Hm rd Hw Hs. destruct (Hm rd Hw Hs) as (rd1 & E1 & ?). exists rd1. unfold recv_bind. by rewrite E1. Qed.

Lemma recvs_io {E'} (f : E' -> E) (m : recv E' A) s r s' :
  recvs m s r s' -> recvs (recv_io f m) s (map_err f r) s'.
Proof. intros Hm rd Hw Hs. destruct (Hm rd Hw Hs) as (rd1 & E1 & ?). exists rd1. unfold recv_io. by rewrite E1. Qed.

Lemma recvs_det (m : recv E A) s r s' rd :
  well_behaved rd -> stream_of rd = s -> recvs m s r s' -> (m rd).1 = r /\ stream_of (m rd).2 = s'.
Proof. intros Hw Hs Hm. destruct (Hm rd Hw Hs) as (rd1 & E1 & ?). rewrite E1. tauto. Qed.

Lemma safe_ret (a : A) (Q : A -> Prop) : Q a -> recv_safe (recv_ret (E := E) a) Q.
Proof. by intros HQ rd. Qed.

Lemma safe_fail (e : E) (Q : A -> Prop) : recv_safe (recv_fail e) Q.
Proof. by intros rd. Qed.

Lemma safe_lift (r : res E A) (Q : A -> Prop) :
  match r with Ok a => Q a | Err _ => True | Panic => False end -> recv_safe (recv_lift r) Q.
Proof. by intros HQ rd. Qed.

Lemma safe_bind (m : recv E A) (k : A -> recv E B) (P : A -> Prop) (Q : B -> Prop) :
  recv_safe m P -> (forall a, P a -> recv_safe (k a) Q) -> recv_safe (recv_bind m k) Q.
Proof.
  intros Hm Hk rd. unfold recv_bind. pose proof (Hm rd) as Hr. destruct (m rd) as [[a|e|] rd1]; [|done..].
  by apply Hk.
Qed.

Lemma safe_io {E'} (f : E' -> E) (m : recv E' A) (Q : A -> Prop) :
  recv_safe m Q -> recv_safe (recv_io f m) Q.
Proof. intros Hm rd. unfold recv_io. pose proof (Hm rd) as Hr. by destruct (m rd) as [[a|e|] rd1]. Qed.

End Rules.

(** ** [read_exact] *)

Lemma read_exact_loop_spec fuel n acc rd :
  well_behaved rd -> 0 <= n -> n < Z.of_nat fuel ->
  exists rd', well_behaved rd' /\
    if n <=? len (stream_of rd)
    then read_exact_loop fuel n acc rd = (Ok (acc ++ take (Z.to_nat n) (stream_of rd)), rd') /\
         stream_of rd' = drop (Z.to_nat n) (stream_of rd)
    else read_exact_loop fuel n acc rd = (Err UnexpectedEof, rd') /\ stream_of rd' = [].
Proof.
  revert n acc rd. induction fuel as [|fuel IH]; intros n acc rd Hw Hn Hf; [lia|]. cbn [read_exact_loop].
  destruct (Z.eqb_spec n 0) as [->|Hn0].
  - exists rd. rewrite (proj2 (Z.leb_le _ _)) by apply len_nonneg. cbn. by rewrite take_0, app_nil_r.
  - destruct (read_await_spec rd n Hw) as (c & rd1 & -> & Hc & Hlen & Hw1 & He); [lia|].
    destruct c as [|b c].
    + rewrite He in * by done. exists rd1. split; [done|]. cbn in Hc. destruct (Z.leb_spec n (len (@nil byte))); [len_lia|done].
    + assert (0 < len (b :: c)) by len_lia. rewrite <- Hc.
      destruct (IH (n - len (b :: c)) (acc ++ b :: c) rd1 Hw1) as (rd' & Hw' & Hr); [lia..|]. exists rd'. split; [done|].
      rewrite len_app. destruct (Z.leb_spec (n - len (b :: c)) (len (stream_of rd1)));
        destruct (Z.leb_spec n (len (b :: c) + len (stream_of rd1))); try lia; [|done].
      destruct Hr as [-> ->].
      rewrite take_app_ge, drop_app_ge by (unfold len in *; lia). rewrite <- app_assoc.
      replace (Z.to_nat n - length (b :: c))%nat with (Z.to_nat (n - len (b :: c))) by (unfold len; lia). done.
Qed.

Lemma recvs_read_exact n a s : len a = n -> recvs (read_exact n) (a ++ s) (Ok a) s.
Proof.
  intros <- rd Hw Hs. pose proof (len_nonneg a).
  destruct (read_exact_loop_spec (S (Z.to_nat (len a))) (len a) [] rd Hw) as (rd' & Hw' & Hr); [lia..|].
  exists rd'. rewrite Hs, len_app, (proj2 (Z.leb_le _ _)) in Hr by (pose proof (len_nonneg s); lia).
  rewrite take_app_length', drop_app_length' in Hr by (unfold len; lia). unfold read_exact. tauto.
Qed.

(** The stream ends inside the field. *)
Lemma recvs_read_exact_eof n s : len s < n -> recvs (read_exact n) s (Err UnexpectedEof) [].
Proof.
  intros Hn rd Hw Hs. pose proof (len_nonneg s).
  destruct (read_exact_loop_spec (S (Z.to_nat n)) n [] rd Hw) as (rd' & Hw' & Hr); [lia..|].
  exists rd'. rewrite Hs, (proj2 (Z.leb_gt _ _)) in Hr by lia. unfold read_exact. tauto.
Qed.

Lemma recvs_read_u8 b s : recvs read_u8 (b :: s) (Ok (u8 b)) s.
Proof.
  intros rd Hw Hs. destruct (recvs_read_exact 1 [b] s eq_refl rd Hw Hs) as (rd' & Hr & ?). exists rd'.
  unfold read_u8. by rewrite Hr.
Qed.

Lemma recvs_read_u8_eof : recvs read_u8 [] (Err UnexpectedEof) [].
Proof.
  intros rd Hw Hs. destruct (recvs_read_exact_eof 1 [] eq_refl rd Hw Hs) as (rd' & Hr & ?). exists rd'.
  unfold read_u8. by rewrite Hr.
Qed.

Lemma recvs_read_u16 a s : len a = 2 -> recvs read_u16 (a ++ s) (Ok (from_be a)) s.
Proof.
  intros Ha rd Hw Hs. destruct (recvs_read_exact 2 a s Ha rd Hw Hs) as (rd' & Hr & ?). exists rd'.
  unfold read_u16. by rewrite Hr.
Qed.

Lemma recvs_read_u16_eof s : len s < 2 -> recvs read_u16 s (Err UnexpectedEof) [].
Proof.
  intros Ha rd Hw Hs. destruct (recvs_read_exact_eof 2 s Ha rd Hw Hs) as (rd' & Hr & ?). exists rd'.
  unfold read_u16. by rewrite Hr.
Qed.

Lemma read_await_any rd room :
  0 < room -> match (read_await rd room).1 with Ok c => len c <= room | Err _ => True | Panic => False end.
Proof.
  intros Hroom. induction rd as [|e rd IH]; [cbn; len_lia|].
  pose proof (reader_poll_read_laws (e :: rd) _ room eq_refl Hroom) as Hp. destruct e; [..|done]; [|done].
  cbn [read_await]. destruct (poll_read (Data c :: rd) room) as [[[c'|x|]|] rd'] eqn:Hpoll; cbn; try done.
  - by destruct Hp as (? & ? & ? & ?).
  - cbn in Hpoll. by destruct (_ <=? _).
Qed.

Lemma safe_read_exact_loop fuel n acc :
  0 <= n < Z.of_nat fuel -> recv_safe (read_exact_loop fuel n acc) (fun a => len a = len acc + n).
Proof.
  revert n acc. induction fuel as [|fuel IH]; intros n acc Hn rd; [lia|]. cbn [read_exact_loop].
  destruct (Z.eqb_spec n 0) as [->|Hk]; [cbn; lia|].
  pose proof (read_await_any rd n ltac:(lia)) as Hc. destruct (read_await rd n) as [[[|b c]|e|] rd1]; [done| |done..].
  assert (0 < len (b :: c)) by len_lia. cbn [fst] in Hc.
  pose proof (IH (n - len (b :: c)) (acc ++ b :: c) ltac:(lia) rd1) as Hr.
  destruct (read_exact_loop _ _ _ _) as [[a|e|] rd2]; cbn in Hr |- *; try done. rewrite Hr, len_app. len_lia.
Qed.

Lemma safe_read_exact n : 0 <= n -> recv_safe (read_exact n) (fun a => len a = n).
Proof. intros Hn rd. pose proof (safe_read_exact_loop (S (Z.to_nat n)) n [] ltac:(lia) rd). done. Qed.

Lemma safe_read_u8 : recv_safe read_u8 (fun n => 0 <= n < 256).
Proof.
  intros rd. unfold read_u8. pose proof (safe_read_exact 1 ltac:(lia) rd) as Hr.
  destruct (read_exact 1 rd) as [[a|e|] rd']; cbn [fst bind] in *; try done.
  pose proof (from_be_range a) as Ha. by rewrite Hr in Ha.
Qed.

Lemma safe_read_u16 : recv_safe read_u16 (fun n => 0 <= n < 65536).
Proof.
  intros rd. unfold read_u16. pose proof (safe_read_exact 2 ltac:(lia) rd) as Hr.
  destruct (read_exact 2 rd) as [[a|e|] rd']; cbn [fst bind] in *; try done.
  pose proof (from_be_range a) as Ha. by rewrite Hr in Ha.
Qed.

(** ** Messages that are read to their end *)

(** The computation reads [used] and returns [a]; on a stream that ends inside
    [used] it returns [eof]. *)
Definition takes {E A} (m : recv E A) (eof : E) (used : bytes) (a : A) : Prop :=
  (forall s, recvs m (used ++ s) (Ok a) s) /\
  (forall p q, used = p ++ q -> q <> [] -> recvs m p (Err eof) []).

Section Takes.
Context {E A B : Type} (eof : E).

Lemma takes_ret (a : A) : takes (recv_ret a) eof [] a.
Proof. split; [intros s; apply recvs_ret|]. by intros [|] [|]. Qed.

Lemma takes_lift (r : res E A) a : r = Ok a -> takes (recv_lift r) eof [] a.
Proof. intros ->. split; [intros s; apply recvs_lift|]. by intros [|] [|]. Qed.

Lemma takes_bind (m : recv E A) (k : A -> recv E B) used1 used2 a b :
  takes m eof used1 a -> takes (k a) eof used2 b -> takes (recv_bind m k) eof (used1 ++ used2) b.
Proof.
  intros [Hm Hme] [Hk Hke]. split.
  - intros s. rewrite <- app_assoc. eapply recvs_bind; [apply Hm|apply Hk].
  - intros p q Hpq Hq. apply app_eq_inv in Hpq as [(l & -> & ->)|(l & -> & ->)].
    + destruct l as [|c l]; [|apply recvs_bind_err; by eapply Hme].
      rewrite app_nil_r in *. pose proof (Hm []) as Hm'. rewrite app_nil_r in Hm'.
      eapply recvs_bind; [exact Hm'|]. by eapply (Hke [] used2).
    + eapply recvs_bind; [apply Hm|]. by eapply Hke.
Qed.

(** A check between two fields, and the last field. *)
Lemma takes_check (m : recv E A) (k : A -> recv E B) used a b :
  takes m eof [] a -> takes (k a) eof used b -> takes (recv_bind m k) eof used b.
Proof. apply takes_bind. Qed.

Lemma takes_last (m : recv E A) (k : A -> recv E B) used a b :
  takes m eof used a -> takes (k a) eof [] b -> takes (recv_bind m k) eof used b.
Proof. rewrite <- (app_nil_r used) at 2. apply takes_bind. Qed.

Lemma takes_io {E'} (f : E' -> E) e (m : recv E' A) used a :
  f e = eof -> takes m e used a -> takes (recv_io f m) eof used a.
Proof.
  intros <- [Hm He]. split; [intros s; exact (recvs_io f m _ _ _ (Hm s))|].
  intros p q Hpq Hq. exact (recvs_io f m _ _ _ (He p q Hpq Hq)).
Qed.

End Takes.

Lemma takes_read_exact n a : len a = n -> takes (read_exact n) UnexpectedEof a a.
Proof.
  intros Ha. split; [intros s; by apply recvs_read_exact|]. intros p q -> Hq. apply recvs_read_exact_eof.
  rewrite len_app in Ha. destruct q; [done|]. len_lia.
Qed.

Lemma takes_read_u8 b : takes read_u8 UnexpectedEof [b] (u8 b).
Proof.
  split; [intros s; apply recvs_read_u8|]. intros [|c p] q Hpq Hq; [apply recvs_read_u8_eof|].
  injection Hpq as _ Hpq. symmetry in Hpq. by apply app_eq_nil in Hpq as [_ ?].
Qed.

Lemma takes_read_u16 a : len a = 2 -> takes read_u16 UnexpectedEof a (from_be a).
Proof.
  intros Ha. split; [intros s; by apply recvs_read_u16|]. intros p q -> Hq. apply recvs_read_u16_eof.
  rewrite len_app in Ha. destruct q; [done|]. len_lia.
Qed.

(** ** Reading up to a delimiter *)

(** Of the stream [s], [taken] was read and [rest] was left: up to the delimiter,
    or past the limit, or to the end. *)
Definition until_outcome (delimiter : byte) (limit : Z) (found : bool) (taken rest : bytes) : Prop :=
  if found then exists p, taken = p ++ [delimiter] /\ (delimiter ∉ p) /\ len taken <= limit
  else limit < len taken /\ (delimiter ∉ take (Z.to_nat limit) taken) \/ (delimiter ∉ taken) /\ rest = [].

(** What has been read of [s] while no answer was given. *)
Definition until_inv (delimiter : byte) (buf s : bytes) (st : until_state) : Prop :=
  well_behaved (us_reader st) /\
  exists p, us_buf st = buf ++ p /\ s = p ++ stream_of (us_reader st) /\ us_read st = len p /\ (delimiter ∉ p).

Lemma reader_consume_all c rd : consume (Data c :: rd : reader) (len c) = rd.
Proof. cbn. by rewrite Z.leb_refl. Qed.

Lemma consume_well_behaved (rd : reader) n : 0 <= n -> well_behaved rd -> well_behaved (consume rd n).
Proof.
  intros Hn. destruct rd as [|[c| |] rd]; cbn; try done. intros [Hc Hw]%Forall_cons. destruct (Z.leb_spec (len c) n); [done|].
  constructor; [|done]. intros Hd%(f_equal len). len_lia.
Qed.

Lemma until_inv_step delimiter buf s c rd b n :
  until_inv delimiter buf s {| us_reader := Data c :: rd; us_buf := b; us_read := n |} -> memchr delimiter c = None ->
  until_inv delimiter buf s {| us_reader := rd; us_buf := b ++ c; us_read := n + len c |}.
Proof.
  intros [Hw (p & Hb & Hs & Hn & Hp)] Hc. apply memchr_None in Hc. cbn in *.
  apply Forall_cons in Hw as [_ Hw]. split; [done|]. exists (p ++ c). cbn [us_reader us_buf us_read].
  rewrite Hb, Hs, Hn, len_app, not_elem_of_app, <- !app_assoc. done.
Qed.

Lemma until_found delimiter limit buf s pre post rd b n :
  until_inv delimiter buf s {| us_reader := Data (pre ++ delimiter :: post) :: rd; us_buf := b; us_read := n |} ->
  delimiter ∉ pre ->
  let rd' := consume (Data (pre ++ delimiter :: post) :: rd : reader) (len pre + 1) in
  exists taken, well_behaved rd' /\ s = taken ++ stream_of rd' /\
    b ++ take (Z.to_nat (len pre + 1)) (pre ++ delimiter :: post) = buf ++ taken /\ n + (len pre + 1) = len taken /\
    until_outcome delimiter limit (negb (limit <? n + (len pre + 1))) taken (stream_of rd').
Proof.
  intros [Hw (p & Hb & Hs & Hn & Hp)] Hpre. cbn in Hw, Hb, Hs, Hn.
  pose proof (len_nonneg pre). pose proof (len_nonneg post).
  destruct (reader_consume_laws (Data (pre ++ delimiter :: post) :: rd)
              ((pre ++ delimiter :: post) ++ stream_of rd) (pre ++ delimiter :: post) (len pre + 1))
    as (s' & Hs' & Hsrc & _); [done|by right; eexists|len_lia|].
  assert (take (Z.to_nat (len pre + 1)) (pre ++ delimiter :: post) = pre ++ [delimiter]) as Ht.
  { rewrite (cons_middle delimiter), (app_assoc pre), take_app_length'; [done|]. rewrite length_app. cbn. unfold len. lia. }
  change (stream_of (consume (Data (pre ++ delimiter :: post) :: rd : reader) (len pre + 1)) = s') in Hsrc.
  intros rd'. fold rd' in Hsrc. exists (p ++ pre ++ [delimiter]).
  rewrite Ht in *. rewrite Hsrc, Hb, Hs, Hs', Hn, !len_app, <- !app_assoc. split_and!; try done.
  - apply consume_well_behaved; [lia|done].
  - destruct (Z.ltb_spec limit (len p + (len pre + 1))); cbn [negb until_outcome].
    + left. rewrite !len_app. split; [len_lia|]. rewrite (app_assoc p), take_app_le
        by (rewrite length_app; unfold len in *; lia). intros Hx%elem_of_take_elem. apply elem_of_app in Hx. tauto.
    + exists (p ++ pre). rewrite <- !app_assoc, not_elem_of_app, !len_app. split_and!; try done.
Qed.

Lemma read_until_internal_spec fuel delimiter limit buf s st :
  until_inv delimiter buf s st -> (length (us_reader st) < fuel)%nat ->
  match read_until_internal fuel delimiter limit st with
  | (Pending, st') => until_inv delimiter buf s st' /\ (length (us_reader st') < length (us_reader st))%nat
  | (Ready (Ok (found, nr)), st') =>
      well_behaved (us_reader st') /\
      exists taken, s = taken ++ stream_of (us_reader st') /\ us_buf st' = buf ++ taken /\ nr = len taken /\
        until_outcome delimiter limit found taken (stream_of (us_reader st'))
  | _ => False
  end.
Proof.
  revert st. induction fuel as [|fuel IH]; intros [rd b n] Hi Hf; [cbn in Hf; lia|]. cbn in Hf.
  destruct rd as [|[c| |] rd]; cbn [read_until_internal us_reader us_buf us_read poll_fill_buf reader_AsyncBufRead reader_fill_buf].
  - destruct Hi as [_ (p & Hb & Hs & Hn & Hp)]. cbn in *. split; [constructor|]. exists p.
    rewrite app_nil_r, Hb, Hs, Hn, Z.add_0_r, !app_nil_r. split_and!; try done. by right.
  - destruct (memchr delimiter c) as [i|] eqn:Hm.
    + apply memchr_Some in Hm as (pre & post & -> & Hpre & ->).
      destruct (until_found _ limit _ _ _ _ _ _ _ Hi Hpre) as (taken & ? & ? & ? & ? & ?).
      split; [done|]. by exists taken.
    + pose proof (until_inv_step _ _ _ _ _ _ _ Hi Hm) as Hi'. pose proof Hi as [Hw _].
      apply Forall_cons in Hw as [Hc _]. rewrite reader_consume_all, take_ge by (unfold len; lia).
      assert (len c <> 0) as Hc0 by (intros Hx%len_0; done).
      rewrite (proj2 (Z.eqb_neq _ _) Hc0). cbn [orb]. destruct (Z.ltb_spec limit (n + len c)).
      * destruct Hi' as [Hw (p & Hb & Hs & Hn & Hp)]. cbn in *. split; [done|]. exists p. rewrite <- Hn.
        split_and!; try done. left. split; [lia|]. intros Hx%elem_of_take_elem. done.
      * specialize (IH _ Hi'). cbn in IH, Hf. specialize (IH ltac:(lia)).
        destruct (read_until_internal _ _ _ _) as [[[[f m]|e|]|] st']; try done.
        destruct IH. split; [done|]. cbn [us_reader length]. lia.
  - destruct Hi as [Hw Hp]. apply Forall_cons in Hw as [_ Hw]. split; [|cbn; lia]. split; done.
  - destruct Hi as [Hw _]. by apply Forall_cons in Hw as [? _].
Qed.

Lemma limited_read_until_outcome delimiter limit buf rd :
  well_behaved rd ->
  exists found taken rd',
    limited_read_until delimiter limit buf rd = (Ok (found, len taken, buf ++ taken), rd') /\
    well_behaved rd' /\ stream_of rd = taken ++ stream_of rd' /\
    until_outcome delimiter limit found taken (stream_of rd').
Proof.
  intros Hw. unfold limited_read_until.
  edestruct (await_spec (LimitedReadUntil_poll delimiter limit)
    (fun st n => until_inv delimiter buf (stream_of rd) st /\ n = length (us_reader st))
    (fun r st => well_behaved (us_reader st) /\ exists taken, stream_of rd = taken ++ stream_of (us_reader st) /\
       us_buf st = buf ++ taken /\ r.2 = len taken /\ until_outcome delimiter limit r.1 taken (stream_of (us_reader st))))
    as ([found nr] & st & -> & Hw' & taken & Hs & Hb & Hn & Ho).
  - intros st n [Hi ->]. pose proof (read_until_internal_spec (S (S (length (us_reader st)))) _ limit _ _ _ Hi) as Hp.
    unfold LimitedReadUntil_poll. specialize (Hp ltac:(lia)).
    destruct (read_until_internal _ _ _ _) as [[[[f m]|e|]|] st']; try done. destruct Hp. by eexists.
  - split; [|done]. split; [done|]. exists []. rewrite app_nil_r. split_and!; try done. apply not_elem_of_nil.
  - apply Nat.lt_succ_diag_r.
  - cbn in Hb, Hn |- *. exists found, taken, (us_reader st). by rewrite Hb, Hn.
Qed.

(** The delimiter within the limit. *)
Lemma recvs_limited_read_until delimiter limit buf p s :
  (delimiter ∉ p) -> len p < limit ->
  recvs (limited_read_until delimiter limit buf) (p ++ delimiter :: s)
    (Ok (true, len p + 1, buf ++ p ++ [delimiter])) s.
Proof.
  intros Hp Hlim rd Hw Hs. pose proof (len_nonneg p).
  destruct (limited_read_until_outcome delimiter limit buf rd Hw) as (found & taken & rd' & -> & Hw' & Hst & Ho).
  exists rd'. rewrite Hs in Hst. destruct found; cbn in Ho.
  - destruct Ho as (p' & -> & Hp' & _). rewrite <- app_assoc in Hst. cbn in Hst.
    apply split_unique in Hst as [<- <-]; [|done..]. rewrite len_app. done.
  - exfalso. destruct Ho as [[Hlen Ho]|[Ho Hr]].
    + assert (take (Z.to_nat limit) taken = take (Z.to_nat limit) (p ++ delimiter :: s)) as Ht
        by (rewrite Hst, take_app_le; [done|unfold len in *; lia]).
      apply Ho. rewrite Ht, take_app_ge, elem_of_app by (unfold len in *; lia). right.
      destruct (Z.to_nat limit - length p)%nat eqn:E; [unfold len in *; lia|]. cbn. left.
    + rewrite Hr, app_nil_r in Hst. subst taken. apply Ho, elem_of_app. right. left.
Qed.

(** Without the delimiter within the limit. *)
Lemma limited_read_until_not_found delimiter limit buf rd :
  well_behaved rd -> 0 <= limit -> delimiter ∉ take (Z.to_nat limit) (stream_of rd) ->
  exists nr buf' rd', limited_read_until delimiter limit buf rd = (Ok (false, nr, buf'), rd') /\ well_behaved rd'.
Proof.
  intros Hw Hl Hd.
  destruct (limited_read_until_outcome delimiter limit buf rd Hw) as (found & taken & rd' & -> & Hw' & Hst & Ho).
  destruct found; [|eauto]. exfalso. destruct Ho as (p & -> & Hp & Hlen). apply Hd. rewrite Hst, take_app_ge
    by (unfold len in *; lia). apply elem_of_app. left. apply elem_of_app. right. left.
Qed.

Lemma limited_read_until_safe_aux fuel delimiter limit st :
  (length (us_reader st) < fuel)%nat ->
  match read_until_internal fuel delimiter limit st with
  | (Pending, st') => (length (us_reader st') < length (us_reader st))%nat
  | (Ready (Ok (found, nr)), st') => us_read st' = 0
  | (Ready (Err _), _) => True
  | (Ready Panic, _) => False
  end.
Proof.
  revert st. induction fuel as [|fuel IH]; intros [rd b n] Hf; [cbn in Hf; lia|]. cbn in Hf.
  destruct rd as [|[c| |] rd]; cbn [read_until_internal us_reader us_buf us_read poll_fill_buf reader_AsyncBufRead reader_fill_buf].
  - done.
  - destruct (memchr delimiter c) as [i|]; [done|]. rewrite reader_consume_all. destruct (_ || _); [done|].
    specialize (IH {| us_reader := rd; us_buf := b ++ take (Z.to_nat (len c)) c; us_read := n + len c |}).
    cbn in IH, Hf. specialize (IH ltac:(lia)).
    destruct (read_until_internal _ _ _ _) as [[[[f m]|e|]|] st']; try done. cbn [us_reader length]. lia.
  - cbn. lia.
  - done.
Qed.

(** On any reader the future ends, and when the delimiter is found, a byte has
    been read. *)
Lemma safe_limited_read_until delimiter limit buf :
  recv_safe (limited_read_until delimiter limit buf) (fun _ => True).
Proof.
  intros rd. unfold limited_read_until.
  pose proof (await_wp (LimitedReadUntil_poll delimiter limit) (fun st n => n = length (us_reader st))
    (fun r _ => r <> Panic)) as Hp.
  specialize (Hp ltac:(intros st n ->; unfold LimitedReadUntil_poll;
    pose proof (limited_read_until_safe_aux (S (S (length (us_reader st)))) delimiter limit st ltac:(lia)) as Hs;
    destruct (read_until_internal _ _ _ _) as [[[[f m]|e|]|] st']; done || by eexists)).
  specialize (Hp (S (length rd)) {| us_reader := rd; us_buf := buf; us_read := 0 |} _ eq_refl (Nat.lt_succ_diag_r _)).
  destruct (await _ _ _) as [[[f m]|e|] st]; done.
Qed.

(** Skipping is reading without keeping. *)
Lemma skip_until_reads fuel delimiter limit st :
  skip_until_internal fuel delimiter limit (us_reader st, us_read st) =
  (let (r, st') := read_until_internal fuel delimiter limit st in (r, (us_reader st', us_read st'))).
Proof.
  revert st. induction fuel as [|fuel IH]; intros [rd b n]; [done|].
  cbn [skip_until_internal read_until_internal us_reader us_buf us_read fst snd].
  destruct (poll_fill_buf rd) as [[[c|e|]|] rd']; try done. destruct (memchr delimiter c); [done|].
  destruct (_ || _); [done|]. cbn [us_reader us_read] in IH. by rewrite <- IH.
Qed.

(** ** [write_all_flush] *)

Lemma write_buf_spec fuel w buf :
  lawful_writer w -> (length buf < fuel)%nat ->
  match write_buf fuel w buf with
  | (Ready (Ok _), (w', buf')) =>
      lawful_writer w' /\ (fair_writer w -> fair_writer w') /\ wr_out w' = wr_out w ++ buf /\ buf' = [] /\
      (writer_waits w' <= writer_waits w)%nat
  | (Ready (Err _), (w', _)) => ~ fair_writer w /\ exists k, k `prefix_of` buf /\ wr_out w' = wr_out w ++ k
  | (Ready Panic, _) => False
  | (Pending, (w', buf')) =>
      lawful_writer w' /\ (fair_writer w -> fair_writer w') /\
      (exists k, buf = k ++ buf' /\ wr_out w' = wr_out w ++ k) /\ (writer_waits w' < writer_waits w)%nat
  end.
Proof.
  revert w buf. induction fuel as [|fuel IH]; intros w buf Hw Hf; [lia|]. cbn [write_buf].
  destruct (Z.eqb_spec (len buf) 0) as [->%len_0|Hne]; [rewrite app_nil_r; split_and!; done|].
  assert (buf <> []) as Hd by (intros ->; by apply Hne).
  pose proof (poll_write_spec w buf Hw) as Hp. destruct (poll_write w buf) as [[[n|]|] w'].
  - destruct Hp as (Hw' & Hfair & Hn & Hout & Hwt). destruct (Z.eqb_spec n 0) as [->|Hn0].
    { split; [intros Hfw; destruct (Hfair Hfw) as [_ Hpos]; specialize (Hpos Hd); lia|].
      exists []. rewrite Hout. split; [apply prefix_nil|done]. }
    specialize (IH w' (drop (Z.to_nat n) buf) Hw').
    assert (length (drop (Z.to_nat n) buf) < fuel)%nat as Hl by (rewrite length_drop; unfold len in *; lia).
    specialize (IH Hl). rewrite Hout in IH. destruct (write_buf fuel w' _) as [[[u|e|]|] [w2 b2]].
    + rewrite <- app_assoc, take_drop in IH. destruct IH as (? & ? & ? & ? & ?). split_and!; try done; [tauto|lia].
    + destruct IH as (Hnf & k & Hk & Ho). split; [tauto|]. exists (take (Z.to_nat n) buf ++ k).
      split; [|by rewrite Ho, <- app_assoc]. rewrite <- (take_drop (Z.to_nat n) buf) at 2. by apply prefix_app.
    + done.
    + destruct IH as (? & ? & (k & Hk & Ho) & ?). split_and!; try done; [tauto| |lia].
      exists (take (Z.to_nat n) buf ++ k). rewrite Ho, <- !app_assoc, <- Hk, take_drop. done.
  - destruct Hp as (Hw' & Hnf & Ho). split; [done|]. exists []. rewrite Ho, app_nil_r. split; [apply prefix_nil|done].
  - destruct Hp as (? & ? & Ho & ?). split_and!; try done. exists []. by rewrite app_nil_r.
Qed.

(** What a future that is not ready yet has done. *)
Definition flush_inv (w : writer) (buf : bytes) (st : write_all_flush_state) : Prop :=
  lawful_writer (wf_writer st) /\ (fair_writer w -> fair_writer (wf_writer st)) /\ wf_flush_done st = false /\
  exists k, buf = k ++ wf_buf st /\ wr_out (wf_writer st) = wr_out w ++ k.

Definition flush_outcome (w : writer) (buf : bytes) (r : res write_error unit) (w' : writer) : Prop :=
  match r with
  | Ok _ => lawful_writer w' /\ (fair_writer w -> fair_writer w') /\ wr_out w' = wr_out w ++ buf /\
      wr_flushed w' = len (wr_out w')
  | Err _ => ~ fair_writer w /\ exists k, k `prefix_of` buf /\ wr_out w' = wr_out w ++ k
  | Panic => False
  end.

Lemma WriteAllFlush_poll_spec w buf st :
  flush_inv w buf st ->
  match WriteAllFlush_poll st with
  | (Ready r, st') => flush_outcome w buf r (wf_writer st')
  | (Pending, st') => (writer_waits (wf_writer st') < writer_waits (wf_writer st))%nat /\ flush_inv w buf st'
  end.
Proof.
  intros (Hw & Hfair & Hfd & k & Hk & Ho). unfold WriteAllFlush_poll. rewrite Hfd.
  pose proof (write_buf_spec (S (length (wf_buf st))) (wf_writer st) (wf_buf st) Hw ltac:(lia)) as Hb.
  destruct (write_buf _ _ _) as [[[u|e|]|] [w2 b2]].
  - destruct Hb as (Hw2 & Hf2 & Ho2 & -> & Hwt). rewrite Ho, <- app_assoc, <- Hk in Ho2.
    pose proof (poll_flush_spec w2) as Hp. destruct (poll_flush w2) as [[[]|] w3]; cbn.
    + destruct Hp as (E & ? & -> & -> & _); [|done]. unfold lawful_writer in *. rewrite E. split_and!; try done. tauto.
    + destruct Hp as (E & Hx & -> & _). split; [intros ?; by destruct Hx as [_ ?]; [tauto|]|].
      exists buf. split; [done|done].
    + destruct Hp as (E & ? & Ho3 & ?). split; [lia|]. split_and!; cbn; [unfold lawful_writer in *; by rewrite E|tauto|done|].
      exists buf. rewrite app_nil_r. split; [done|]. by rewrite Ho3.
  - destruct Hb as (Hnf & k' & Hk' & Ho'). split; [tauto|]. exists (k ++ k'). cbn.
    rewrite Ho', Ho, <- app_assoc, Hk. split; [by apply prefix_app|done].
  - done.
  - destruct Hb as (? & ? & (k' & Hk' & Ho') & ?). split; [done|]. split_and!; cbn; try done; [tauto|].
    exists (k ++ k'). by rewrite <- app_assoc, <- Hk', Ho', Ho, <- app_assoc.
Qed.

(** A message is written in full and flushed, or the writer failed after a part
    of it. *)
Lemma write_all_flush_spec buf w :
  lawful_writer w -> let (r, w') := write_all_flush buf w in flush_outcome w buf r w'.
Proof.
  intros Hw. unfold write_all_flush.
  pose proof (await_wp WriteAllFlush_poll (fun st n => flush_inv w buf st /\ n = writer_waits (wf_writer st))
    (fun r st => flush_outcome w buf r (wf_writer st))) as Hp.
  set (st0 := {| wf_writer := w; wf_buf := buf; wf_flush_done := false |}).
  assert (flush_inv w buf st0) as Hi by (split_and!; try done; exists []; by rewrite app_nil_r).
  assert (forall st n, flush_inv w buf st /\ n = writer_waits (wf_writer st) -> match WriteAllFlush_poll st with
    | (Ready r, st') => flush_outcome w buf r (wf_writer st')
    | (Pending, st') => exists m, (m < n)%nat /\ flush_inv w buf st' /\ m = writer_waits (wf_writer st')
    end) as Hstep.
  { intros st n [Hst ->]. pose proof (WriteAllFlush_poll_spec w buf st Hst) as Hpp.
    destruct (WriteAllFlush_poll st) as [[r|] st']; [done|]. destruct Hpp. by eexists. }
  specialize (Hp Hstep (S (writer_waits w)) st0 (writer_waits w) (conj Hi eq_refl) (Nat.lt_succ_diag_r _)).
  by destruct (await _ _ _).
Qed.

Lemma write_all_flush_fair buf w :
  fair_writer w -> exists w', write_all_flush buf w = (Ok tt, w') /\ fair_writer w' /\
    wr_out w' = wr_out w ++ buf /\ wr_flushed w' = len (wr_out w').
Proof.
  intros Hf. pose proof (write_all_flush_spec buf w (fair_lawful w Hf)) as Hs.
  destruct (write_all_flush buf w) as [[[]|e|] w']; cbn in Hs; [|tauto..]. exists w'. tauto.
Qed.
