(* ===== verification/StreamCopy.v ===== *)
(** * Copying one stream to another

    Models [lib/vey-io-ext/src/stream/copy.rs]: the buffer between a reader and a
    writer, the future that moves the data through it and its configuration.
    The reader is any [AsyncRead], so that the readers of other components can
    be plugged in. *)

From Stdlib Require Import ZArith Lia Strings.Byte.
From stdpp Require Import base list.
From S2P Require Import Prelude Reader AsyncIo.

Definition DEFAULT_COPY_BUFFER_SIZE : Z := 16 * 1024.
Definition MINIMAL_COPY_BUFFER_SIZE : Z := 4 * 1024.
Definition MINIMAL_READ_BUFFER_SIZE : Z := 256.
Definition DEFAULT_COPY_YIELD_SIZE : Z := 1024 * 1024.
Definition MINIMAL_COPY_YIELD_SIZE : Z := 256 * 1024.

Record StreamCopyConfig : Type := { scc_buffer_size : Z; scc_yield_size : Z }.

Definition StreamCopyConfig_default : StreamCopyConfig :=
  {| scc_buffer_size := DEFAULT_COPY_BUFFER_SIZE; scc_yield_size := DEFAULT_COPY_YIELD_SIZE |}.

Definition set_buffer_size (self : StreamCopyConfig) (buffer_size : Z) : StreamCopyConfig :=
  {| scc_buffer_size := Z.max buffer_size MINIMAL_COPY_BUFFER_SIZE; scc_yield_size := scc_yield_size self |}.

Definition set_yield_size (self : StreamCopyConfig) (yield_size : Z) : StreamCopyConfig :=
  {| scc_buffer_size := scc_buffer_size self; scc_yield_size := Z.max yield_size MINIMAL_COPY_YIELD_SIZE |}.

Inductive StreamCopyError : Type :=
| Copy_ReadFailed (e : io_error)
| Copy_WriteFailed
| Copy_WriteZero.

Record StreamCopyBuffer : Type := {
  scb_read_done : bool;
  scb_buf : bytes;
  scb_yield_size : Z;
  scb_r_off : Z;
  scb_w_off : Z;
  scb_total_read : Z;
  scb_total_write : Z;
  scb_need_flush : bool;
  scb_active : bool
}.

(** The content of the uninitialised buffer is irrelevant; it is zero here. *)
Definition StreamCopyBuffer_new (config : StreamCopyConfig) : StreamCopyBuffer := {|
  scb_read_done := false;
  scb_buf := replicate (Z.to_nat (scc_buffer_size config)) x00;
  scb_yield_size := scc_yield_size config;
  scb_r_off := 0;
  scb_w_off := 0;
  scb_total_read := 0;
  scb_total_write := 0;
  scb_need_flush := false;
  scb_active := false
|}.

(** [capacity]: what the allocator has reserved for the vector [buf]. *)
Definition StreamCopyBuffer_with_data (config : StreamCopyConfig) (buf : bytes) (capacity : Z)
    : StreamCopyBuffer := {|
  scb_read_done := false;
  scb_buf := if capacity <? scc_buffer_size config then vec_resize buf (scc_buffer_size config)
             else vec_resize buf capacity;
  scb_yield_size := scc_yield_size config;
  scb_r_off := len buf;
  scb_w_off := 0;
  scb_total_read := 0;
  scb_total_write := 0;
  scb_need_flush := false;
  scb_active := true
|}.

(** Assignments to groups of fields. *)
Section Assign.
Context (b : StreamCopyBuffer).

Definition scb_set_offsets (buf : bytes) (w_off r_off : Z) : StreamCopyBuffer := {|
  scb_read_done := scb_read_done b; scb_buf := buf; scb_yield_size := scb_yield_size b;
  scb_r_off := r_off; scb_w_off := w_off; scb_total_read := scb_total_read b;
  scb_total_write := scb_total_write b; scb_need_flush := scb_need_flush b; scb_active := scb_active b |}.

Definition scb_set_read_done : StreamCopyBuffer := {|
  scb_read_done := true; scb_buf := scb_buf b; scb_yield_size := scb_yield_size b;
  scb_r_off := scb_r_off b; scb_w_off := scb_w_off b; scb_total_read := scb_total_read b;
  scb_total_write := scb_total_write b; scb_need_flush := scb_need_flush b; scb_active := scb_active b |}.

Definition scb_set_read (buf : bytes) (r_off total_read : Z) : StreamCopyBuffer := {|
  scb_read_done := scb_read_done b; scb_buf := buf; scb_yield_size := scb_yield_size b;
  scb_r_off := r_off; scb_w_off := scb_w_off b; scb_total_read := total_read;
  scb_total_write := scb_total_write b; scb_need_flush := scb_need_flush b; scb_active := true |}.

Definition scb_set_written (w_off total_write : Z) : StreamCopyBuffer := {|
  scb_read_done := scb_read_done b; scb_buf := scb_buf b; scb_yield_size := scb_yield_size b;
  scb_r_off := scb_r_off b; scb_w_off := w_off; scb_total_read := scb_total_read b;
  scb_total_write := total_write; scb_need_flush := true; scb_active := true |}.

Definition scb_clear_flush : StreamCopyBuffer := {|
  scb_read_done := scb_read_done b; scb_buf := scb_buf b; scb_yield_size := scb_yield_size b;
  scb_r_off := scb_r_off b; scb_w_off := scb_w_off b; scb_total_read := scb_total_read b;
  scb_total_write := scb_total_write b; scb_need_flush := false; scb_active := scb_active b |}.

Definition scb_set_active (active : bool) : StreamCopyBuffer := {|
  scb_read_done := scb_read_done b; scb_buf := scb_buf b; scb_yield_size := scb_yield_size b;
  scb_r_off := scb_r_off b; scb_w_off := scb_w_off b; scb_total_read := scb_total_read b;
  scb_total_write := scb_total_write b; scb_need_flush := scb_need_flush b; scb_active := active |}.

End Assign.

(** [ptr::copy_nonoverlapping]: undefined when the ranges leave the allocation
    or overlap; here that is a panic, so that its absence is proved. *)
Definition copy_nonoverlapping {E} (data : bytes) (src dst n : Z) : res E bytes :=
  if (0 <=? src) && (0 <=? dst) && (src + n <=? len data) && (dst + n <=? len data) &&
     ((src + n <=? dst) || (dst + n <=? src))
  then Ok (take (Z.to_nat dst) data ++ take (Z.to_nat n) (drop (Z.to_nat src) data) ++
           drop (Z.to_nat (dst + n)) data)
  else Panic.

Definition check_move_cache (self : StreamCopyBuffer) : res StreamCopyError StreamCopyBuffer :=
  let? left := usub (scb_r_off self) (scb_w_off self) in
  if left <=? scb_w_off self then
    let? buf := copy_nonoverlapping (scb_buf self) (scb_w_off self) 0 left in
    Ok (scb_set_offsets self buf 0 left)
  else Ok self.

(** ** The copy

    The state is the reader, the writer and the buffer between them; the two
    futures of the source differ only in who owns the reader. *)

Record StreamCopy (R : Type) : Type := {
  sc_reader : R;
  sc_writer : writer;
  sc_buf : StreamCopyBuffer
}.
Arguments sc_reader {R}.
Arguments sc_writer {R}.
Arguments sc_buf {R}.

Section Copy.
Context {R : Type} `{!AsyncRead R}.
Implicit Types t : StreamCopy R.

Definition StreamCopy_new (rd : R) (wr : writer) (config : StreamCopyConfig) : StreamCopy R :=
  {| sc_reader := rd; sc_writer := wr; sc_buf := StreamCopyBuffer_new config |}.

Definition StreamCopy_with_data (rd : R) (wr : writer) (config : StreamCopyConfig) (data : bytes)
    (capacity : Z) : StreamCopy R :=
  {| sc_reader := rd; sc_writer := wr; sc_buf := StreamCopyBuffer_with_data config data capacity |}.

Definition sc_set_buf t (b : StreamCopyBuffer) : StreamCopy R :=
  {| sc_reader := sc_reader t; sc_writer := sc_writer t; sc_buf := b |}.

Definition sc_set_writer t (w : writer) : StreamCopy R :=
  {| sc_reader := sc_reader t; sc_writer := w; sc_buf := sc_buf t |}.

Definition scb_poll_fill_buf t : poll (res StreamCopyError unit) * StreamCopy R :=
  let b := sc_buf t in
  let answer a rd b := (a, {| sc_reader := rd; sc_writer := sc_writer t; sc_buf := b |}) in
  match slice_from (E := StreamCopyError) (scb_buf b) (scb_r_off b) with
  | Ok room =>
      match ar_poll_read (sc_reader t) (len room) with
      | (Pending, rd) => answer Pending rd b
      | (Ready (Err e), rd) => answer (Ready (Err (Copy_ReadFailed e))) rd b
      | (Ready Panic, rd) => answer (Ready Panic) rd b
      | (Ready (Ok c), rd) =>
          let nr := len c in
          if nr =? 0 then answer (Ready (Ok tt)) rd (scb_set_read_done b)
          else
            match uadd (E := StreamCopyError) (scb_total_read b) nr with
            | Ok total_read =>
                answer (Ready (Ok tt)) rd
                  (scb_set_read b
                     (take (Z.to_nat (scb_r_off b)) (scb_buf b) ++ c ++
                      drop (Z.to_nat (scb_r_off b + nr)) (scb_buf b))
                     (scb_r_off b + nr) total_read)
            | _ => answer (Ready Panic) rd b
            end
      end
  | _ => (Ready Panic, t)
  end.

(** The writer has to wait: read more into the buffer if there is room. *)
Definition top_up t : poll (res StreamCopyError Z) * StreamCopy R :=
  if scb_read_done (sc_buf t) then (Pending, t)
  else
    match check_move_cache (sc_buf t) with
    | Ok b =>
        let t := sc_set_buf t b in
        if scb_r_off b + MINIMAL_READ_BUFFER_SIZE <=? len (scb_buf b)
        then poll_bind (scb_poll_fill_buf t) (fun _ t => (Pending, t))
        else (Pending, t)
    | Err e => (Ready (Err e), t)
    | Panic => (Ready Panic, t)
    end.

Definition scb_poll_write_buf t : poll (res StreamCopyError Z) * StreamCopy R :=
  let b := sc_buf t in
  match slice (E := StreamCopyError) (scb_buf b) (scb_w_off b) (scb_r_off b) with
  | Ok data =>
      match poll_write (sc_writer t) data with
      | (Pending, w) => top_up (sc_set_writer t w)
      | (Ready None, w) => (Ready (Err Copy_WriteFailed), sc_set_writer t w)
      | (Ready (Some n), w) =>
          let t := sc_set_writer t w in
          if n =? 0 then (Ready (Err Copy_WriteZero), t)
          else
            match uadd (E := StreamCopyError) (scb_total_write b) n with
            | Ok total => (Ready (Ok n), sc_set_buf t (scb_set_written b (scb_w_off b + n) total))
            | _ => (Ready Panic, t)
            end
      end
  | _ => (Ready Panic, t)
  end.

(** [while self.w_off < self.r_off { .. }]; every round writes a byte. *)
Fixpoint write_out (fuel : nat) t (copy_this_round : Z) : poll (res StreamCopyError Z) * StreamCopy R :=
  match fuel with
  | O => (Ready Panic, t)
  | S fuel' =>
      if scb_w_off (sc_buf t) <? scb_r_off (sc_buf t) then
        poll_bind (scb_poll_write_buf t) (fun i t =>
          poll_bind (poll_lift (uadd copy_this_round i) t) (fun n t => write_out fuel' t n))
      else (Ready (Ok copy_this_round), t)
  end.

(** [ready!(writer.as_mut().poll_flush(cx)).map_err(..)?] *)
Definition sc_poll_flush t : poll (res StreamCopyError unit) * StreamCopy R :=
  match poll_flush (sc_writer t) with
  | (Pending, w) => (Pending, sc_set_writer t w)
  | (Ready true, w) => (Ready (Ok tt), sc_set_writer t w)
  | (Ready false, w) => (Ready (Err Copy_WriteFailed), sc_set_writer t w)
  end.

(** The read has nothing and there is nothing to write. *)
Definition idle_flush {A} t : poll (res StreamCopyError A) * StreamCopy R :=
  if scb_need_flush (sc_buf t) then
    poll_bind (sc_poll_flush (sc_set_buf t (scb_clear_flush (sc_buf t)))) (fun _ t => (Pending, t))
  else (Pending, t).

(** [if !self.read_done { .. }] up to the read: an empty buffer is reset, a
    small rest is moved to its start. *)
Definition make_room (b : StreamCopyBuffer) : res StreamCopyError StreamCopyBuffer :=
  let b := if scb_w_off b =? scb_r_off b then scb_set_offsets b (scb_buf b) 0 0 else b in
  if scb_w_off b =? 0 then Ok b else check_move_cache b.

(** The reading part of a round. *)
Definition read_first t : poll (res StreamCopyError unit) * StreamCopy R :=
  if scb_read_done (sc_buf t) then (Ready (Ok tt), t)
  else
    match make_room (sc_buf t) with
    | Ok b =>
        let t := sc_set_buf t b in
        if scb_r_off b <? len (scb_buf b) then
          match scb_poll_fill_buf t with
          | (Pending, t) =>
              if scb_r_off (sc_buf t) <=? scb_w_off (sc_buf t) then idle_flush t
              else (Ready (Ok tt), t)
          | r => r
          end
        else (Ready (Ok tt), t)
    | Err e => (Ready (Err e), t)
    | Panic => (Ready Panic, t)
    end.

Fixpoint scb_poll_copy_loop (fuel : nat) t (copy_this_round : Z)
    : poll (res StreamCopyError Z) * StreamCopy R :=
  match fuel with
  | O => (Ready Panic, t)
  | S fuel' =>
      poll_bind (read_first t) (fun _ t =>
        poll_bind (write_out (S (length (scb_buf (sc_buf t)))) t copy_this_round)
          (fun copy_this_round t =>
            if scb_read_done (sc_buf t) then
              poll_bind (if scb_need_flush (sc_buf t) then sc_poll_flush t else (Ready (Ok tt), t))
                (fun _ t => (Ready (Ok (scb_total_write (sc_buf t))), t))
            else if scb_yield_size (sc_buf t) <=? copy_this_round then (Pending, t)
            else scb_poll_copy_loop fuel' t copy_this_round))
  end.

(** Every round that does not return has written a byte, and as soon as
    [yield_size] bytes are written the function returns. *)
Definition scb_poll_copy t : poll (res StreamCopyError Z) * StreamCopy R :=
  scb_poll_copy_loop (S (Z.to_nat (scb_yield_size (sc_buf t)))) t 0.

Definition StreamCopy_poll t : poll (res StreamCopyError Z) * StreamCopy R := scb_poll_copy t.

Definition write_error_copy (e : write_error) : StreamCopyError :=
  match e with WriteFailedIo => Copy_WriteFailed | WriteZeroIo => Copy_WriteZero end.

(** [write_flush().await] *)
Definition StreamCopy_write_flush t : res StreamCopyError unit * StreamCopy R :=
  let b := sc_buf t in
  if scb_w_off b <? scb_r_off b then
    match slice (E := StreamCopyError) (scb_buf b) (scb_w_off b) (scb_r_off b) with
    | Ok data =>
        match write_all (sc_writer t) data with
        | (Ok _, w) =>
            match uadd (E := StreamCopyError) (scb_total_write b) (scb_r_off b - scb_w_off b) with
            | Ok total =>
                let b := {| scb_read_done := scb_read_done b; scb_buf := scb_buf b;
                  scb_yield_size := scb_yield_size b; scb_r_off := scb_r_off b; scb_w_off := scb_r_off b;
                  scb_total_read := scb_total_read b; scb_total_write := total;
                  scb_need_flush := scb_need_flush b; scb_active := scb_active b |} in
                let (r, w) := flush w in
                (map_err write_error_copy r, {| sc_reader := sc_reader t; sc_writer := w; sc_buf := b |})
            | _ => (Panic, sc_set_writer t w)
            end
        | (Err e, w) => (Err (write_error_copy e), sc_set_writer t w)
        | (Panic, w) => (Panic, sc_set_writer t w)
        end
    | _ => (Panic, t)
    end
  else (Ok tt, t).

Definition StreamCopy_cached_data_size t : Z := scb_r_off (sc_buf t) - scb_w_off (sc_buf t).
Definition StreamCopy_no_cached_data t : bool := StreamCopy_cached_data_size t =? 0.
Definition StreamCopy_finished t : bool := scb_read_done (sc_buf t) && StreamCopy_no_cached_data t.
Definition StreamCopy_read_size t : Z := scb_total_read (sc_buf t).
Definition StreamCopy_copied_size t : Z := scb_total_write (sc_buf t).
Definition StreamCopy_is_active t : bool := scb_active (sc_buf t).
Definition StreamCopy_is_idle t : bool := negb (scb_active (sc_buf t)).
Definition StreamCopy_reset_active t : StreamCopy R := sc_set_buf t (scb_set_active (sc_buf t) false).

(** [ROwnedStreamCopy] has the same fields and the same methods. *)
Definition ROwnedStreamCopy_new (rd : R) (wr : writer) (config : StreamCopyConfig) : StreamCopy R :=
  {| sc_reader := rd; sc_writer := wr; sc_buf := StreamCopyBuffer_new config |}.

Definition ROwnedStreamCopy_poll t : poll (res StreamCopyError Z) * StreamCopy R := scb_poll_copy t.

End Copy.

(** ** The invariant

    [left]: the bytes that have been read and not been written. *)

Definition scb_left (b : StreamCopyBuffer) : bytes :=
  take (Z.to_nat (scb_r_off b - scb_w_off b)) (drop (Z.to_nat (scb_w_off b)) (scb_buf b)).

Lemma scb_left_at b pre mid post :
  scb_buf b = pre ++ mid ++ post -> scb_w_off b = len pre -> scb_r_off b = len pre + len mid ->
  scb_left b = mid.
Proof.
  intros Hb Hw Hr. unfold scb_left. rewrite Hb, Hw, Hr, drop_len_app.
  replace (len pre + len mid - len pre) with (len mid) by lia. apply take_len_app.
Qed.

Lemma scb_left_take b :
  0 <= scb_w_off b <= scb_r_off b ->
  take (Z.to_nat (scb_r_off b)) (scb_buf b) = take (Z.to_nat (scb_w_off b)) (scb_buf b) ++ scb_left b.
Proof.
  intros Ho. unfold scb_left.
  replace (Z.to_nat (scb_r_off b)) with (Z.to_nat (scb_w_off b) + Z.to_nat (scb_r_off b - scb_w_off b))%nat by lia.
  by rewrite take_take_drop.
Qed.

Section CopySpec.
Context {R : Type} `{AsyncReadLaws R}.
Context (N Y : Z) (out0 whole : bytes) (F G : Prop).
Implicit Types t : StreamCopy R.

(** While [s] is still to be read: what has been written, what is buffered and
    what will be read is the whole.  [F]: the reader or the writer may fail.
    [G]: flushes never have to wait. *)
Record copying (t : StreamCopy R) (s : bytes) : Prop := {
  cpy_len : len (scb_buf (sc_buf t)) = N;
  cpy_yield : scb_yield_size (sc_buf t) = Y;
  cpy_off : 0 <= scb_w_off (sc_buf t) <= scb_r_off (sc_buf t);
  cpy_cap : scb_r_off (sc_buf t) <= N;
  cpy_source : source (sc_reader t) s;
  cpy_whole : wr_out (sc_writer t) ++ scb_left (sc_buf t) ++ s = out0 ++ whole;
  cpy_total : scb_total_write (sc_buf t) = len (wr_out (sc_writer t)) - len out0;
  cpy_read : 0 <= scb_total_read (sc_buf t) <= scb_total_write (sc_buf t) + len (scb_left (sc_buf t));
  cpy_base : 0 <= scb_total_write (sc_buf t);
  cpy_done : scb_read_done (sc_buf t) = true -> F \/ s = [] /\ at_end (sc_reader t);
  cpy_reader : faulty (sc_reader t) -> F;
  cpy_lawful : lawful_writer (sc_writer t);
  cpy_writer : F \/ fair_writer (sc_writer t);
  cpy_flush : G -> wr_flushes (sc_writer t) = [] /\
    (scb_need_flush (sc_buf t) = true \/ wr_flushed (sc_writer t) = len (wr_out (sc_writer t)) \/
     scb_total_write (sc_buf t) = 0)
}.

Lemma copying_left_len t s :
  copying t s -> len (scb_left (sc_buf t)) = scb_r_off (sc_buf t) - scb_w_off (sc_buf t).
Proof. intros [Hl _ Ho Hc]. unfold scb_left. len_lia. Qed.

(** Nothing that is counted can overflow. *)
Lemma copying_bound t s :
  copying t s -> scb_total_write (sc_buf t) + len (scb_left (sc_buf t)) + len s = len whole.
Proof. intros []. pose proof (f_equal len cpy_whole0). len_lia. Qed.

Context (HN : 0 < N <= isize_max) (HY : 0 < Y) (Hwhole : len whole <= u64_max).

(** What a wait makes smaller. *)
Definition copy_size (t : StreamCopy R) (s : bytes) : nat :=
  (waits (sc_reader t) + writer_waits (sc_writer t) + length (scb_left (sc_buf t) ++ s))%nat.

(** The outcome of a step from [t] with [s] to come that may have written up to
    [B] bytes in all, and what holds after it. *)
Definition step_ok {A} (B : Z) (t : StreamCopy R) (s : bytes)
    (Q : A -> StreamCopy R -> bytes -> Prop)
    (r : poll (res StreamCopyError A) * StreamCopy R) : Prop :=
  match r with
  | (Ready (Ok a), t') => exists s', copying t' s' /\ (copy_size t' s' <= copy_size t s)%nat /\ Q a t' s'
  | (Ready (Err _), t') => exists s', copying t' s' /\ F /\ len (wr_out (sc_writer t')) <= B
  | (Ready Panic, _) => False
  | (Pending, t') => exists s', copying t' s' /\ (copy_size t' s' < copy_size t s)%nat /\
      len (wr_out (sc_writer t')) <= B
  end.

Lemma check_move_cache_spec t s :
  copying t s ->
  exists b, check_move_cache (sc_buf t) = Ok b /\ copying (sc_set_buf t b) s /\ scb_left b = scb_left (sc_buf t) /\
    scb_read_done b = scb_read_done (sc_buf t).
Proof.
  intros Hc. pose proof (copying_left_len t s Hc) as Hl. pose proof Hc as []. unfold check_move_cache.
  rewrite usub_ok by lia. cbn [bind].
  destruct (Z.leb_spec (scb_r_off (sc_buf t) - scb_w_off (sc_buf t)) (scb_w_off (sc_buf t))) as [Hm|Hm].
  2: { exists (sc_buf t). by split_and!. }
  unfold copy_nonoverlapping.
  match goal with |- context [if ?c then _ else _] => assert (c = true) as -> end.
  { rewrite !andb_true_iff, orb_true_iff, !Z.leb_le. lia. }
  cbn [bind]. eexists. split; [reflexivity|].
  set (b := scb_set_offsets _ _ _ _).
  assert (scb_left b = scb_left (sc_buf t)) as Hb.
  { apply (scb_left_at b [] (scb_left (sc_buf t))
      (drop (Z.to_nat (0 + (scb_r_off (sc_buf t) - scb_w_off (sc_buf t)))) (scb_buf (sc_buf t))));
      [reflexivity|done|cbn [b scb_set_offsets scb_r_off]; len_lia]. }
  split_and!; try done.
  constructor; cbn [sc_set_buf sc_buf sc_reader sc_writer]; rewrite ?Hb; try done;
    cbn [b scb_set_offsets scb_r_off scb_w_off scb_buf]; try lia.
  rewrite !len_app. change (take (Z.to_nat 0) _) with (@nil byte). len_lia.
Qed.

(** A read moves bytes from the source into the buffer. *)
Lemma scb_poll_fill_buf_spec t s :
  copying t s -> scb_read_done (sc_buf t) = false -> scb_r_off (sc_buf t) < N ->
  match scb_poll_fill_buf t with
  | (Ready (Ok _), t') =>
      exists s' c, copying t' s' /\ (copy_size t' s' <= copy_size t s)%nat /\
        scb_left (sc_buf t') = scb_left (sc_buf t) ++ c /\ sc_writer t' = sc_writer t /\
        (c = [] -> scb_read_done (sc_buf t') = true)
  | (Ready (Err _), t') => exists s', copying t' s' /\ F /\ sc_writer t' = sc_writer t
  | (Ready Panic, _) => False
  | (Pending, t') =>
      copying t' s /\ (copy_size t' s < copy_size t s)%nat /\ sc_buf t' = sc_buf t /\ sc_writer t' = sc_writer t
  end.
Proof.
  intros Hc Hd Hr. pose proof (copying_left_len t s Hc) as Hl. pose proof (copying_bound t s Hc) as Hb.
  pose proof Hc as []. unfold scb_poll_fill_buf.
  rewrite slice_from_ok by lia. set (room := len _). assert (room = N - scb_r_off (sc_buf t)) as Hroom.
  { unfold room. len_lia. }
  pose proof (source_poll_read (sc_reader t) s room cpy_source0 ltac:(lia)) as Hp.
  destruct (ar_poll_read (sc_reader t) room) as [[[c|e|]|] rd'].
  - destruct Hp as (s' & -> & Hlen & Hs' & Hf & Hnil & Hw). destruct (Z.eqb_spec (len c) 0) as [->%len_0|Hc0].
    + exists s', []. rewrite app_nil_r. unfold copy_size. cbn [app sc_buf sc_reader sc_writer].
      change (scb_left (scb_set_read_done (sc_buf t))) with (scb_left (sc_buf t)).
      split_and!; [constructor; cbn [sc_buf sc_reader sc_writer]; try done; auto|lia|done..].
      * intros _. destruct (Hnil eq_refl) as [Hfl|[Hs0 He]]; [left; auto|by right].
    + rewrite uadd_ok by len_lia. exists s', c.
      set (b := scb_set_read _ _ _ _).
      assert (scb_left b = scb_left (sc_buf t) ++ c) as Hleft.
      { apply (scb_left_at b (take (Z.to_nat (scb_w_off (sc_buf t))) (scb_buf (sc_buf t))) _
          (drop (Z.to_nat (scb_r_off (sc_buf t) + len c)) (scb_buf (sc_buf t)))); cbn [b scb_set_read scb_buf scb_w_off scb_r_off].
        - by rewrite (scb_left_take (sc_buf t)), <- !app_assoc by lia.
        - len_lia.
        - len_lia. }
      unfold copy_size. cbn [sc_buf sc_reader sc_writer]. rewrite Hleft.
      split_and!; [constructor; cbn [sc_buf sc_reader sc_writer]; rewrite ?Hleft; try done; auto|..].
      * cbn [b scb_set_read scb_buf]. len_lia.
      * cbn [b scb_set_read scb_w_off scb_r_off]. len_lia.
      * cbn [b scb_set_read scb_r_off]. len_lia.
      * by rewrite <- !app_assoc.
      * cbn [b scb_set_read scb_total_read scb_total_write]. len_lia.
      * cbn [b scb_set_read scb_read_done]. by rewrite Hd.
      * rewrite <- !app_assoc. lia.
      * done.
      * done.
      * by intros ->.
  - destruct Hp as [Hs Hf]. exists s. split_and!; [|auto..]. constructor; try done; auto.
  - done.
  - destruct Hp as (Hs & Hf & Hw). unfold copy_size. cbn [sc_buf sc_reader sc_writer]. split_and!; [|lia|done..].
    constructor; try done; auto. cbn [sc_buf]. congruence.
Qed.

Lemma step_ok_mono {A} B0 t0 s0 B t s (Q Q' : A -> StreamCopy R -> bytes -> Prop) r :
  step_ok B t s Q r -> (copy_size t s <= copy_size t0 s0)%nat -> B <= B0 ->
  (forall a t' s', copying t' s' -> Q a t' s' -> Q' a t' s') -> step_ok B0 t0 s0 Q' r.
Proof.
  destruct r as [[[a|e|]|] t']; cbn; [| |done|].
  - intros (s' & ? & ? & ?) ? ? HQ. exists s'. split_and!; auto. lia.
  - intros (s' & ? & ? & ?) ? ? HQ. exists s'. split_and!; auto. lia.
  - intros (s' & ? & ? & ?) ? ? HQ. exists s'. split_and!; auto; lia.
Qed.

Lemma step_ok_bind {A A'} B t s (Q : A -> StreamCopy R -> bytes -> Prop) (Q' : A' -> StreamCopy R -> bytes -> Prop) r k :
  step_ok B t s Q r ->
  (forall a t' s', copying t' s' -> (copy_size t' s' <= copy_size t s)%nat -> Q a t' s' -> step_ok B t s Q' (k a t')) ->
  step_ok B t s Q' (poll_bind r k).
Proof.
  destruct r as [[[a|e|]|] t']; cbn [poll_bind]; [|done..].
  intros (s' & Hc & Hs & HQ) Hk. by apply (Hk a t' s').
Qed.

(** A writer that waits leaves everything in place, with more in the buffer. *)
Lemma top_up_spec t s :
  copying t s ->
  match top_up t with
  | (Ready (Ok _), _) => False
  | (Ready (Err _), t') => exists s', copying t' s' /\ F /\ sc_writer t' = sc_writer t
  | (Ready Panic, _) => False
  | (Pending, t') => exists s', copying t' s' /\ (copy_size t' s' <= copy_size t s)%nat /\ sc_writer t' = sc_writer t
  end.
Proof.
  intros Hc. unfold top_up. destruct (scb_read_done (sc_buf t)) eqn:Hd; [exists s; by split_and!|].
  destruct (check_move_cache_spec t s Hc) as (b & -> & Hcb & Hleft & Hdone).
  assert (copy_size (sc_set_buf t b) s = copy_size t s) as Hsz.
  { unfold copy_size. cbn [sc_buf sc_reader sc_writer sc_set_buf]. by rewrite Hleft. }
  destruct (Z.leb_spec (scb_r_off b + MINIMAL_READ_BUFFER_SIZE) (len (scb_buf b))) as [Hr|Hr].
  2: { exists s. split_and!; [done|lia|done]. }
  pose proof (cpy_len _ _ Hcb) as Hlen. cbn [sc_buf sc_set_buf] in Hlen.
  pose proof (scb_poll_fill_buf_spec _ _ Hcb) as Hf. cbn [sc_buf sc_set_buf] in Hf.
  specialize (Hf ltac:(congruence) ltac:(unfold MINIMAL_READ_BUFFER_SIZE in Hr; lia)).
  destruct (scb_poll_fill_buf (sc_set_buf t b)) as [[[u|e|]|] t']; cbn [poll_bind].
  - destruct Hf as (s' & c & Hc' & Hs' & _ & Hw & _). exists s'. split_and!; [done|lia|done].
  - done.
  - done.
  - destruct Hf as (Hc' & Hs' & _ & Hw). exists s. split_and!; [done|lia|done].
Qed.

Lemma scb_poll_write_buf_spec t s :
  copying t s -> scb_w_off (sc_buf t) < scb_r_off (sc_buf t) ->
  step_ok (len (wr_out (sc_writer t))) t s (fun n t' s' => s' = s /\ 0 < n <= scb_r_off (sc_buf t) - scb_w_off (sc_buf t) /\
      scb_w_off (sc_buf t') = scb_w_off (sc_buf t) + n /\ scb_r_off (sc_buf t') = scb_r_off (sc_buf t) /\
      wr_out (sc_writer t') = wr_out (sc_writer t) ++ take (Z.to_nat n) (scb_left (sc_buf t)) /\
      scb_read_done (sc_buf t') = scb_read_done (sc_buf t) /\ (copy_size t' s + Z.to_nat n <= copy_size t s)%nat)
    (scb_poll_write_buf t).
Proof.
  intros Hc Hwr. pose proof (copying_left_len t s Hc) as Hl. pose proof (copying_bound t s Hc) as Hb.
  pose proof Hc as []. unfold scb_poll_write_buf. rewrite slice_ok by lia. fold (scb_left (sc_buf t)).
  assert (scb_left (sc_buf t) <> []) as Hne by (intros E%(f_equal len); len_lia).
  pose proof (poll_write_spec (sc_writer t) (scb_left (sc_buf t)) cpy_lawful0) as Hp.
  assert (wr_flushes (snd (poll_write (sc_writer t) (scb_left (sc_buf t)))) = wr_flushes (sc_writer t) /\
    wr_flushed (snd (poll_write (sc_writer t) (scb_left (sc_buf t)))) = wr_flushed (sc_writer t)) as [Hfl Hfd].
  { unfold poll_write. by destruct (wr_writes (sc_writer t)) as [|[n| |] ws]. }
  destruct (poll_write (sc_writer t) (scb_left (sc_buf t))) as [[[n|]|] w']; cbn [snd] in Hfl, Hfd.
  - destruct Hp as (Hw' & Hfair & Hn & Hout & Hwaits). destruct (Z.eqb_spec n 0) as [->|Hn0].
    { exists s. assert (F) as HF.
      { destruct cpy_writer0 as [HF|[_ H1]%Hfair]; [done|]. specialize (H1 Hne). lia. }
      rewrite app_nil_r in Hout. cbn [sc_writer sc_set_writer]. split_and!; [|done|by rewrite Hout].
      constructor; cbn [sc_buf sc_set_writer sc_writer sc_reader]; rewrite ?Hout, ?Hfl, ?Hfd; auto. }
    rewrite uadd_ok by len_lia. exists s. set (b := scb_set_written _ _ _).
    assert (scb_left b = drop (Z.to_nat n) (scb_left (sc_buf t))) as Hleft.
    { unfold scb_left. cbn [b scb_set_written scb_w_off scb_r_off scb_buf].
      rewrite skipn_firstn_comm, drop_drop. f_equal; [|f_equal]; lia. }
    split_and!; cbn [sc_buf sc_set_buf sc_set_writer]; try done; try lia.
    2,3: unfold copy_size; cbn [sc_buf sc_set_buf sc_writer sc_set_writer sc_reader];
      rewrite Hleft, !length_app, length_drop; unfold len in *; lia.
    constructor; cbn [sc_buf sc_set_buf sc_set_writer sc_writer sc_reader]; rewrite ?Hleft, ?Hout; try done;
      cbn [b scb_set_written scb_w_off scb_r_off scb_total_read scb_total_write scb_read_done scb_need_flush]; try len_lia.
    + by rewrite <- (app_assoc (wr_out _)), (app_assoc (take _ _)), take_drop.
    + tauto.
    + rewrite Hfl. intros HG%cpy_flush0. tauto.
  - destruct Hp as (Hw' & Hnf & Ho). exists s. assert F by tauto. cbn [sc_writer sc_set_writer]. split_and!; [|done|by rewrite Ho].
    constructor; cbn [sc_buf sc_set_writer sc_writer sc_reader]; rewrite ?Ho, ?Hfl, ?Hfd; auto.
  - destruct Hp as (Hw' & Hfair & Ho & Hwaits).
    assert (copying (sc_set_writer t w') s) as Hct.
    { constructor; cbn [sc_buf sc_set_writer sc_writer sc_reader]; rewrite ?Ho, ?Hfl, ?Hfd; auto. tauto. }
    pose proof (top_up_spec _ _ Hct) as Ht.
    destruct (top_up (sc_set_writer t w')) as [[[n|e|]|] t']; [done| |done|].
    { destruct Ht as (s' & ? & ? & Hw''). exists s'. rewrite Hw''. cbn [sc_writer sc_set_writer]. by rewrite Ho. }
    destruct Ht as (s' & Hc' & Hs' & Hw''). exists s'. rewrite Hw''. cbn [sc_writer sc_set_writer]. rewrite Ho.
    split_and!; [done| |done]. unfold copy_size at 2. unfold copy_size in Hs' at 2.
    cbn [sc_writer sc_set_writer sc_buf sc_reader] in Hs'. lia.
Qed.

Lemma write_out_spec fuel t s copied :
  copying t s -> 0 <= copied <= scb_total_write (sc_buf t) ->
  scb_r_off (sc_buf t) - scb_w_off (sc_buf t) < Z.of_nat fuel ->
  step_ok (len (wr_out (sc_writer t)) + len (scb_left (sc_buf t))) t s
    (fun n t' s' => s' = s /\ n = copied + len (scb_left (sc_buf t)) /\
      scb_w_off (sc_buf t') = scb_r_off (sc_buf t') /\
      wr_out (sc_writer t') = wr_out (sc_writer t) ++ scb_left (sc_buf t) /\
      scb_read_done (sc_buf t') = scb_read_done (sc_buf t) /\ n <= scb_total_write (sc_buf t') /\
      (copy_size t' s + length (scb_left (sc_buf t)) <= copy_size t s)%nat)
    (write_out fuel t copied).
Proof.
  revert t copied. induction fuel as [|fuel IH]; intros t copied Hc Hcop Hfuel.
  { pose proof (cpy_off _ _ Hc). lia. }
  pose proof (copying_left_len t s Hc) as Hl. pose proof (copying_bound t s Hc) as Hb. cbn [write_out].
  destruct (Z.ltb_spec (scb_w_off (sc_buf t)) (scb_r_off (sc_buf t))) as [Hlt|Hge].
  2: { pose proof (cpy_off _ _ Hc). assert (scb_left (sc_buf t) = []) as Hnil by (apply len_0; lia).
       exists s. rewrite Hnil, app_nil_r. cbn [length]. split_and!; try done; try lia; len_lia. }
  eapply step_ok_bind.
  { eapply step_ok_mono; [apply (scb_poll_write_buf_spec t s Hc Hlt)|done|len_lia|].
    intros a t' s' _ HQ. exact HQ. }
  intros n t' s' Hc' Hs' (-> & Hn & Hw & Hr & Ho & Hd & Hsz).
  pose proof (copying_bound t' s Hc') as Hb'. pose proof (copying_left_len t' s Hc') as Hl'.
  pose proof (cpy_total _ _ Hc) as Ht. pose proof (cpy_total _ _ Hc') as Ht'. pose proof (f_equal len Ho) as Holen.
  unfold poll_lift. rewrite uadd_ok by len_lia. cbn [poll_bind].
  assert (take (Z.to_nat n) (scb_left (sc_buf t)) ++ scb_left (sc_buf t') = scb_left (sc_buf t)) as Hsplit.
  { pose proof (cpy_whole _ _ Hc) as H1. rewrite <- (cpy_whole _ _ Hc'), Ho, <- !app_assoc in H1.
    apply app_inv_head in H1. rewrite app_assoc in H1. by apply app_inv_tail in H1. }
  eapply step_ok_mono; [apply (IH t' (copied + n) Hc')|..]; try done.
  - len_lia.
  - lia.
  - pose proof (f_equal len Hsplit). len_lia.
  - intros m t'' s'' _ (-> & -> & ? & Ho' & Hd' & ? & ?). rewrite Ho', Ho, <- app_assoc, Hsplit, Hd', Hd.
    pose proof (f_equal len Hsplit). split_and!; try done; [len_lia|].
    pose proof (f_equal length Hsplit) as Hll. rewrite length_app, length_take in Hll. lia.
Qed.

Lemma sc_poll_flush_spec t s b :
  copying t s -> b = sc_buf t \/ b = scb_clear_flush (sc_buf t) ->
  step_ok (len (wr_out (sc_writer t))) t s (fun _ t' s' => s' = s /\ sc_buf t' = b /\
      wr_out (sc_writer t') = wr_out (sc_writer t) /\ wr_flushed (sc_writer t') = len (wr_out (sc_writer t)))
    (sc_poll_flush (sc_set_buf t b)).
Proof.
  intros Hc Hb. pose proof Hc as []. unfold sc_poll_flush. cbn [sc_writer sc_set_buf].
  pose proof (poll_flush_spec (sc_writer t)) as Hp.
  assert (wr_flushes (sc_writer t) = [] ->
    fst (poll_flush (sc_writer t)) = Ready true /\ wr_flushes (snd (poll_flush (sc_writer t))) = []) as Hg.
  { unfold poll_flush. by intros ->. }
  assert (forall w, lawful_writer (sc_writer t) -> wr_writes w = wr_writes (sc_writer t) -> lawful_writer w) as Hlaw.
  { unfold lawful_writer. by intros w ? ->. }
  assert (forall w, wr_writes w = wr_writes (sc_writer t) -> wr_out w = wr_out (sc_writer t) -> F \/ fair_writer w ->
    (G -> wr_flushes w = [] /\ wr_flushed w = len (wr_out w)) -> copying (sc_set_writer (sc_set_buf t b) w) s) as Hcop.
  { intros w Hw Ho Hfair HG.
    destruct Hb as [-> | ->]; constructor; cbn [sc_buf sc_set_buf sc_set_writer sc_writer sc_reader];
      rewrite ?Ho; eauto; intros [? ?]%HG; rewrite <- Ho; auto. }
  destruct (poll_flush (sc_writer t)) as [[[]|] w']; cbn [fst snd] in Hg.
  - destruct Hp as (Hw & Hfair & Ho & Hfl & Hwaits). exists s. cbn [sc_set_writer sc_set_buf sc_buf sc_writer].
    split_and!; auto.
    + apply Hcop; auto; [tauto|]. intros HG. rewrite Ho. split; [apply Hg; by apply cpy_flush0|auto].
    + unfold copy_size. cbn [sc_buf sc_set_buf sc_writer sc_set_writer sc_reader].
      destruct Hb as [-> | ->]; [lia|]. change (scb_left (scb_clear_flush (sc_buf t))) with (scb_left (sc_buf t)). lia.
  - destruct Hp as (Hw & Hfair & Ho & _). exists s. cbn [sc_set_writer sc_set_buf sc_buf sc_writer].
    assert F as HF by (destruct cpy_writer0 as [?|[_ [=]]%Hfair]; done).
    split_and!; auto; [|by rewrite Ho]. apply Hcop; auto. intros [Hn _]%cpy_flush0. by destruct (Hg Hn).
  - destruct Hp as (Hw & Hfair & Ho & Hwaits). exists s. cbn [sc_set_writer sc_set_buf sc_buf sc_writer].
    split_and!; [|unfold copy_size; cbn [sc_buf sc_set_buf sc_writer sc_set_writer sc_reader]|by rewrite Ho].
    + apply Hcop; auto; [tauto|]. intros [Hn _]%cpy_flush0. by destruct (Hg Hn).
    + destruct Hb as [-> | ->]; [lia|]. change (scb_left (scb_clear_flush (sc_buf t))) with (scb_left (sc_buf t)). lia.
Qed.

Lemma make_room_spec t s :
  copying t s ->
  exists b, make_room (sc_buf t) = Ok b /\ copying (sc_set_buf t b) s /\ scb_left b = scb_left (sc_buf t) /\
    scb_read_done b = scb_read_done (sc_buf t) /\ (scb_left b = [] -> scb_r_off b < N).
Proof.
  intros Hc. pose proof (copying_left_len t s Hc) as Hl. pose proof Hc as []. unfold make_room.
  destruct (Z.eqb_spec (scb_w_off (sc_buf t)) (scb_r_off (sc_buf t))) as [He|He].
  - cbn [scb_w_off scb_set_offsets Z.eqb]. eexists. split; [reflexivity|].
    assert (scb_left (sc_buf t) = []) as Hnil by (apply len_0; lia).
    assert (scb_left (scb_set_offsets (sc_buf t) (scb_buf (sc_buf t)) 0 0) = []) as Hnil' by done.
    rewrite Hnil, Hnil'. split_and!; try done; [|cbn [scb_r_off scb_set_offsets]; lia].
    constructor; cbn [sc_buf sc_set_buf sc_writer sc_reader]; rewrite ?Hnil'; rewrite ?Hnil in *; try done;
      cbn [scb_r_off scb_set_offsets scb_w_off]; lia.
  - destruct (Z.eqb_spec (scb_w_off (sc_buf t)) 0) as [Hz|Hz].
    + exists (sc_buf t). split_and!; try done. intros Hnil%(f_equal len). len_lia.
    + destruct (check_move_cache_spec t s Hc) as (b & -> & Hcb & Hleft & Hd). exists b. split_and!; try done.
      rewrite Hleft. intros Hnil%(f_equal len). len_lia.
Qed.

Lemma idle_flush_spec {A} t s :
  copying t s -> forall t0, (copy_size t s < copy_size t0 s)%nat ->
  step_ok (A := A) (len (wr_out (sc_writer t))) t0 s (fun _ _ _ => False) (idle_flush t).
Proof.
  intros Hc t0 Hsz. unfold idle_flush. destruct (scb_need_flush (sc_buf t)).
  2: { exists s. by split_and!. }
  pose proof (sc_poll_flush_spec t s _ Hc (or_intror eq_refl)) as Hf.
  destruct (sc_poll_flush _) as [[[u|e|]|] t']; cbn [poll_bind].
  - destruct Hf as (s' & Hc' & Hs & -> & _ & Ho & _). exists s. rewrite Ho. split_and!; [done|lia|done].
  - done.
  - done.
  - destruct Hf as (s' & Hc' & Hs & Ho). exists s'. split_and!; [done|lia|done].
Qed.

Lemma read_first_spec t s :
  copying t s ->
  step_ok (len (wr_out (sc_writer t))) t s (fun _ t' s' => wr_out (sc_writer t') = wr_out (sc_writer t) /\
      (scb_left (sc_buf t') = [] -> scb_read_done (sc_buf t') = true))
    (read_first t).
Proof.
  intros Hc. unfold read_first. destruct (scb_read_done (sc_buf t)) eqn:Hd; [exists s; by split_and!|].
  destruct (make_room_spec t s Hc) as (b & -> & Hcb & Hleft & Hdb & Hroom).
  assert (copy_size (sc_set_buf t b) s = copy_size t s) as Hsz.
  { unfold copy_size. cbn [sc_buf sc_reader sc_writer sc_set_buf]. by rewrite Hleft. }
  pose proof (cpy_len _ _ Hcb) as Hlen. cbn [sc_buf sc_set_buf] in Hlen. rewrite Hlen.
  destruct (Z.ltb_spec (scb_r_off b) N) as [Hr|Hr].
  2: { exists s. split_and!; [done|lia|done|]. cbn [sc_buf sc_set_buf]. intros Hx%Hroom. lia. }
  pose proof (scb_poll_fill_buf_spec _ _ Hcb ltac:(cbn; congruence) Hr) as Hf.
  destruct (scb_poll_fill_buf (sc_set_buf t b)) as [[[u|e|]|] t'].
  - destruct Hf as (s' & c & Hc' & Hs' & Hl' & Hw & Hnil). exists s'. rewrite Hw.
    split_and!; [done|lia|done|]. rewrite Hl'. intros [_ Hx%Hnil]%app_eq_nil. done.
  - destruct Hf as (s' & Hc' & HF & Hw). exists s'. by rewrite Hw.
  - done.
  - destruct Hf as (Hc' & Hs' & Hb' & Hw). rewrite Hb'. cbn [sc_buf sc_set_buf].
    destruct (Z.leb_spec (scb_r_off b) (scb_w_off b)) as [He|He].
    + eapply step_ok_mono; [apply (idle_flush_spec t' s Hc' t); lia|done|by rewrite Hw|by intros].
    + exists s. rewrite Hw. split_and!; [done|lia|done|]. rewrite Hb'.
      intros Hx%(f_equal len). pose proof (copying_left_len _ _ Hc') as Hl. rewrite Hb' in Hl.
      cbn [sc_buf sc_set_buf] in *. len_lia.
Qed.

(** The whole loop: it returns, and what it writes is bounded. *)
Lemma scb_poll_copy_loop_spec fuel t s copied :
  copying t s -> 0 <= copied <= scb_total_write (sc_buf t) -> copied < Y -> Y - copied < Z.of_nat fuel ->
  let B := len (wr_out (sc_writer t)) - copied + Y + N in
  step_ok B t s
    (fun n t' s' => scb_read_done (sc_buf t') = true /\ scb_left (sc_buf t') = [] /\
      n = scb_total_write (sc_buf t') /\ len (wr_out (sc_writer t')) <= B /\
      (G -> wr_flushed (sc_writer t') = len (wr_out (sc_writer t')) \/ n = 0))
    (scb_poll_copy_loop fuel t copied).
Proof.
  revert t s copied. induction fuel as [|fuel IH]; intros t s copied Hc Hcop HcY Hfuel B; [lia|].
  cbn [scb_poll_copy_loop]. eapply step_ok_bind.
  { eapply step_ok_mono; [apply (read_first_spec t s Hc)|done|lia|]. intros a t' s' Hc' HQ. exact HQ. }
  intros _ t1 s1 Hc1 Hs1 [Ho1 Hd1].
  pose proof (cpy_total _ _ Hc) as Ht. pose proof (cpy_total _ _ Hc1) as Ht1. rewrite Ho1, <- Ht in Ht1.
  pose proof (copying_left_len _ _ Hc1) as Hl1. pose proof (cpy_off _ _ Hc1) as Hoff1.
  pose proof (cpy_cap _ _ Hc1) as Hcap1. pose proof (cpy_len _ _ Hc1) as Hlen1.
  eapply step_ok_bind.
  { eapply step_ok_mono; [apply (write_out_spec _ t1 s1 copied Hc1)|..].
    - lia.
    - unfold len in Hlen1. lia.
    - done.
    - rewrite Ho1. unfold B. lia.
    - intros a t' s' Hc' HQ. exact HQ. }
  intros n t2 s2 Hc2 Hs2 (-> & Hn & Hw2 & Ho2 & Hd2 & Hn2 & Hsz2).
  pose proof (copying_left_len _ _ Hc2) as Hl2. assert (scb_left (sc_buf t2) = []) as Hnil2 by (apply len_0; lia).
  assert (len (wr_out (sc_writer t2)) = len (wr_out (sc_writer t)) + len (scb_left (sc_buf t1))) as Hol.
  { rewrite Ho2, Ho1. len_lia. }
  destruct (scb_read_done (sc_buf t2)) eqn:Hd.
  - destruct (scb_need_flush (sc_buf t2)) eqn:Hnf.
    + replace t2 with (sc_set_buf t2 (sc_buf t2)) at 1 by (by destruct t2). eapply step_ok_bind.
      { eapply step_ok_mono; [apply (sc_poll_flush_spec t2 s1 _ Hc2 (or_introl eq_refl))|lia|unfold B; lia|].
        intros a t' s' Hc' HQ. exact HQ. }
      intros _ t3 s3 Hc3 Hs3 (-> & Hb3 & Ho3 & Hf3). exists s1. rewrite Hb3, Ho3.
      split_and!; try done; [unfold B; lia|]. intros _. left. by rewrite Hf3.
    + cbn [poll_bind]. exists s1. split_and!; try done; [unfold B; lia|].
      intros [_ [Hx|Hx]]%(cpy_flush _ _ Hc2); [congruence|done].
  - pose proof (cpy_yield _ _ Hc2) as Hy. rewrite Hy.
    assert (scb_left (sc_buf t1) <> []) as Hne1 by (intros Hx%Hd1; congruence).
    assert (0 < len (scb_left (sc_buf t1))) by (destruct (scb_left (sc_buf t1)); [done|len_lia]).
    destruct (Z.leb_spec Y n).
    + exists s1. split_and!; [done| |unfold B; lia]. unfold len in *. lia.
    + eapply step_ok_mono; [apply (IH t2 s1 n Hc2)|..]; try lia.
      intros a t' s' Hc' (? & ? & ? & ? & ?). split_and!; auto. unfold B. lia.
Qed.

Lemma scb_poll_copy_spec t s :
  copying t s ->
  step_ok (len (wr_out (sc_writer t)) + Y + N) t s
    (fun n t' s' => scb_read_done (sc_buf t') = true /\ scb_left (sc_buf t') = [] /\
      n = scb_total_write (sc_buf t') /\ len (wr_out (sc_writer t')) <= len (wr_out (sc_writer t)) + Y + N /\
      (G -> wr_flushed (sc_writer t') = len (wr_out (sc_writer t')) \/ n = 0))
    (scb_poll_copy t).
Proof.
  intros Hc. unfold scb_poll_copy. pose proof (cpy_base _ _ Hc). rewrite (cpy_yield _ _ Hc).
  eapply step_ok_mono; [apply (scb_poll_copy_loop_spec _ t s 0 Hc)|..]; try lia.
  intros a t' s' Hc' (? & ? & ? & ? & ?). split_and!; auto. lia.
Qed.

(** Polled again after every wait, the copy comes to its end. *)
Lemma await_copy_spec polls t s :
  copying t s -> (copy_size t s < polls)%nat ->
  exists r t' s', await polls scb_poll_copy t = (r, t') /\ copying t' s' /\
    match r with
    | Ok n => scb_read_done (sc_buf t') = true /\ scb_left (sc_buf t') = [] /\ n = scb_total_write (sc_buf t') /\
        (G -> wr_flushed (sc_writer t') = len (wr_out (sc_writer t')) \/ n = 0)
    | Err _ => F
    | Panic => False
    end.
Proof.
  revert t s. induction polls as [|polls IH]; intros t s Hc Hsz; [lia|]. cbn [await].
  pose proof (scb_poll_copy_spec t s Hc) as Hp. destruct (scb_poll_copy t) as [[[n|e|]|] t'].
  - destruct Hp as (s' & Hc' & _ & ? & ? & ? & _ & ?). by exists (Ok n), t', s'.
  - destruct Hp as (s' & Hc' & HF & _). by exists (Err e), t', s'.
  - done.
  - destruct Hp as (s' & Hc' & Hs' & _). apply (IH t' s' Hc'). lia.
Qed.

End CopySpec.

(** ** Reachable states

    The states a caller can bring a copy into: it polls it (also after errors),
    writes out what is buffered, and resets the activity flag.  A failed
    [write_all] does not say how much it has written, so it ends the copy. *)
Inductive copy_reachable {R} `{AsyncRead R} (t0 : StreamCopy R) : StreamCopy R -> Prop :=
| copy_start : copy_reachable t0 t0
| copy_polled t r t' : copy_reachable t0 t -> StreamCopy_poll t = (r, t') -> copy_reachable t0 t'
| copy_flushed t t' : copy_reachable t0 t -> StreamCopy_write_flush t = (Ok tt, t') -> copy_reachable t0 t'
| copy_reset t : copy_reachable t0 t -> copy_reachable t0 (StreamCopy_reset_active t).

Section Reachable.
Context {R : Type} `{AsyncReadLaws R}.
Lemma copying_active N Y out0 whole F G t s active :
  copying N Y out0 whole F G t s -> copying N Y out0 whole F G (sc_set_buf t (scb_set_active (sc_buf t) active)) s.
Proof. intros []. by constructor. Qed.

(** [write_flush] writes what is buffered and flushes it. *)
Lemma write_flush_copying N Y out0 whole F G t s :
  len whole <= u64_max ->
  copying N Y out0 whole F G t s ->
  match StreamCopy_write_flush t with
  | (Ok _, t') => copying N Y out0 whole F False t' s /\ scb_left (sc_buf t') = [] /\
      (scb_left (sc_buf t) <> [] -> wr_flushed (sc_writer t') = len (wr_out (sc_writer t')))
  | (Err _, _) => F
  | (Panic, _) => False
  end.
Proof.
  intros Hwh Hc. pose proof (copying_left_len _ _ _ _ _ _ t s Hc) as Hl.
  pose proof (copying_bound _ _ _ _ _ _ t s Hc) as Hb. pose proof Hc as []. unfold StreamCopy_write_flush.
  destruct (Z.ltb_spec (scb_w_off (sc_buf t)) (scb_r_off (sc_buf t))) as [Hlt|Hge].
  2: { assert (scb_left (sc_buf t) = []) as Hnil by (apply len_0; lia). by split_and!. }
  rewrite slice_ok by lia. fold (scb_left (sc_buf t)).
  pose proof (write_all_spec (sc_writer t) (scb_left (sc_buf t)) cpy_lawful0) as Hw.
  destruct (write_all (sc_writer t) (scb_left (sc_buf t))) as [[u|e|] w]; [| |done].
  2: { destruct Hw as (Hnf & _). tauto. }
  destruct Hw as (Hlw & Hfw & Ho). rewrite uadd_ok by len_lia.
  pose proof (flush_spec w) as Hf. destruct (flush w) as [[v|e|] w']; cbn [map_err]; [|tauto|done].
  destruct Hf as (Hww & Hff & Hof & Hfl). match goal with |- copying _ _ _ _ _ _ ?u' _ /\ _ => set (t' := u') end.
  assert (scb_left (sc_buf t') = []) as Hnil.
  { apply len_0. unfold scb_left. cbn [t' sc_buf scb_r_off scb_w_off]. len_lia. }
  split_and!; try done.
  - constructor; rewrite ?Hnil; cbn [t' sc_buf sc_reader sc_writer scb_buf scb_yield_size scb_w_off scb_r_off
      scb_total_read scb_total_write scb_read_done]; try done; rewrite ?Hof, ?Ho; try len_lia.
    + by rewrite <- app_assoc.
    + unfold lawful_writer. by rewrite Hww.
    + tauto.
  - intros _. cbn [t' sc_writer]. by rewrite Hfl, Hof.
Qed.

Lemma reachable_copying N Y out0 whole t0 s0 t :
  0 < N <= isize_max -> 0 < Y -> len whole <= u64_max ->
  copying N Y out0 whole True False t0 s0 -> copy_reachable t0 t ->
  exists s, copying N Y out0 whole True False t s.
Proof.
  intros HN' HY' Hwh Hc0 Hr.
  induction Hr as [|t r t' _ [s Hc] Hp|t t' _ [s Hc] Hp|t _ [s Hc]]; [by exists s0|..].
  - pose proof (scb_poll_copy_spec _ _ _ _ _ _ HN' HY' Hwh t s Hc) as Hs. unfold StreamCopy_poll in Hp. rewrite Hp in Hs.
    destruct r as [[n|e|]|]; [destruct Hs as (s' & ? & _); by exists s'..|done|destruct Hs as (s' & ? & _); by exists s'].
  - pose proof (write_flush_copying _ _ _ _ _ _ t s Hwh Hc) as Hs. rewrite Hp in Hs. exists s. apply Hs.
  - exists s. by apply copying_active.
Qed.

Context (config : StreamCopyConfig).
Context (HN : 0 < scc_buffer_size config <= isize_max).

Lemma copying_new rd wr s (F G : Prop) :
  source rd s -> (faulty rd -> F) -> lawful_writer wr -> F \/ fair_writer wr -> (G -> wr_flushes wr = []) ->
  copying (scc_buffer_size config) (scc_yield_size config) (wr_out wr) s F G (StreamCopy_new rd wr config) s.
Proof.
  intros Hs HF Hw Hfw HG. assert (scb_left (sc_buf (StreamCopy_new rd wr config)) = []) as Hl by done.
  constructor; rewrite ?Hl; cbn [StreamCopy_new sc_buf sc_reader sc_writer StreamCopyBuffer_new scb_buf scb_yield_size
    scb_w_off scb_r_off scb_total_write scb_total_read scb_read_done]; try done; try len_lia.
  intros HG'. auto.
Qed.

Lemma len_vec_resize buf n : 0 <= n -> len (vec_resize buf n) = n.
Proof. intros. unfold vec_resize. destruct (Z.leb_spec n (len buf)); len_lia. Qed.

Lemma vec_resize_grow buf n : len buf <= n -> exists pad, vec_resize buf n = buf ++ pad.
Proof.
  intros Hn. unfold vec_resize. destruct (Z.leb_spec n (len buf)); [|by eexists].
  exists []. rewrite app_nil_r. apply take_ge. unfold len in *. lia.
Qed.

Lemma copying_with_data rd wr data capacity s (F G : Prop) :
  len data <= capacity <= isize_max ->
  source rd s -> (faulty rd -> F) -> lawful_writer wr -> F \/ fair_writer wr -> (G -> wr_flushes wr = []) ->
  copying (Z.max capacity (scc_buffer_size config)) (scc_yield_size config) (wr_out wr) (data ++ s) F G
    (StreamCopy_with_data rd wr config data capacity) s.
Proof.
  intros Hcap Hs HF Hw Hfw HG. set (t := StreamCopy_with_data _ _ _ _ _).
  assert (exists n, scb_buf (sc_buf t) = vec_resize data n /\ n = Z.max capacity (scc_buffer_size config)) as (n & Hb & Hn).
  { cbn [t StreamCopy_with_data sc_buf StreamCopyBuffer_with_data scb_buf].
    destruct (Z.ltb_spec capacity (scc_buffer_size config)); eexists; (split; [reflexivity|lia]). }
  destruct (vec_resize_grow data n ltac:(lia)) as [pad Hpad].
  assert (scb_left (sc_buf t) = data) as Hl.
  { apply (scb_left_at _ [] data pad); [by rewrite Hb, Hpad|done|cbn; len_lia]. }
  constructor; rewrite ?Hl; try done; try (cbn; len_lia).
  - rewrite Hb, len_vec_resize; len_lia.
  - intros HG'. auto.
Qed.

End Reachable.

(** A copy in any state it can be in comes to its end. *)
Lemma copying_completes {R} `{AsyncReadLaws R} N Y out0 (whole : bytes) (G : Prop) (t0 : StreamCopy R) s :
  0 < N <= isize_max -> 0 < Y -> len whole <= u64_max -> copying N Y out0 whole False G t0 s ->
  exists t,
    await (S (copy_size t0 s)) StreamCopy_poll t0 = (Ok (len whole), t) /\
    wr_out (sc_writer t) = out0 ++ whole /\ StreamCopy_finished t = true /\ at_end (sc_reader t) /\
    (G -> whole <> [] -> wr_flushed (sc_writer t) = len (wr_out (sc_writer t))).
Proof.
  intros HN HY Hlen Hc.
  destruct (await_copy_spec _ _ _ _ _ _ HN HY Hlen (S (copy_size t0 s)) t0 s Hc ltac:(lia)) as (r & t & s' & Ha & Hc' & Hr).
  destruct r as [n|e|]; [|done..]. destruct Hr as (Hd & Hnil & Hn & Hfl).
  pose proof Hc' as []. destruct (cpy_done0 Hd) as [[]|[-> Hend]]. rewrite Hnil, !app_nil_r in cpy_whole0.
  assert (n = len whole) as Hn' by (rewrite Hn, cpy_total0, cpy_whole0; len_lia).
  exists t. split_and!.
  - rewrite <- Hn'. exact Ha.
  - done.
  - unfold StreamCopy_finished, StreamCopy_no_cached_data, StreamCopy_cached_data_size. rewrite Hd.
    pose proof (copying_left_len _ _ _ _ _ _ _ _ Hc') as Hx. rewrite Hnil in Hx. cbn. apply Z.eqb_eq. len_lia.
  - done.
  - intros [Hx|Hx]%Hfl Hne; [done|]. destruct whole; [done|]. len_lia.
Qed.

(** A copy with nothing buffered at its start. *)
Lemma StreamCopy_new_completes {R} `{AsyncReadLaws R} (rd : R) (wr : writer) (config : StreamCopyConfig) (s : bytes) :
  0 < scc_buffer_size config <= isize_max -> 0 < scc_yield_size config -> len s <= u64_max ->
  source rd s -> ~ faulty rd -> fair_writer wr ->
  exists t,
    await (S (waits rd + writer_waits wr + length s)) StreamCopy_poll (StreamCopy_new rd wr config) = (Ok (len s), t) /\
    wr_out (sc_writer t) = wr_out wr ++ s /\ StreamCopy_finished t = true /\ at_end (sc_reader t).
Proof.
  intros HN HY Hlen Hs Hnf Hw.
  pose proof (copying_new config HN rd wr s False False Hs Hnf (fair_lawful _ Hw) (or_intror Hw) (fun Hx => match Hx with end)) as Hc.
  destruct (copying_completes _ _ _ _ _ _ _ HN HY Hlen Hc) as (t & Ha & ? & ? & ? & _). by exists t.
Qed.

(** ** Theorems *)

(** C10: a copy always comes to its end: polled again after each wait, with any
    reader that does not fail and any writer that does not, it returns the
    number of bytes copied, and the writer has received what was in the buffer
    and then all that the reader delivers, in order; the reader is left at the
    end of its data.  If flushes do not have to
    wait, all of it has been flushed.  The number of polls is bounded by the
    waits of both sides and the number of bytes. *)
Theorem stream_copy_completes {R} `{AsyncReadLaws R} (rd : R) (wr : writer) (config : StreamCopyConfig)
    (data s : bytes) (capacity : Z) :
  0 < scc_buffer_size config <= isize_max -> 0 < scc_yield_size config ->
  len data <= capacity <= isize_max -> len (data ++ s) <= u64_max ->
  source rd s -> ~ faulty rd -> fair_writer wr ->
  exists t,
    await (S (waits rd + writer_waits wr + length (data ++ s))) StreamCopy_poll
      (StreamCopy_with_data rd wr config data capacity) = (Ok (len (data ++ s)), t) /\
    wr_out (sc_writer t) = wr_out wr ++ data ++ s /\ StreamCopy_finished t = true /\ at_end (sc_reader t) /\
    (wr_flushes wr = [] -> data ++ s <> [] -> wr_flushed (sc_writer t) = len (wr_out (sc_writer t))).
Proof.
  intros HN HY Hcap Hlen Hs Hnf Hw.
  pose proof (copying_with_data config HN rd wr data capacity s False (wr_flushes wr = []) Hcap Hs Hnf
    (fair_lawful _ Hw) (or_intror Hw) (fun Hx => Hx)) as Hc.
  set (t0 := StreamCopy_with_data rd wr config data capacity) in *.
  assert (scb_left (sc_buf t0) = data) as Hl.
  { pose proof (cpy_whole _ _ _ _ _ _ _ _ Hc) as Hx. by apply app_inv_head, app_inv_tail in Hx. }
  assert (0 < Z.max capacity (scc_buffer_size config) <= isize_max) as HN' by lia.
  destruct (copying_completes _ _ _ _ _ _ _ HN' HY Hlen Hc) as (t & Ha & Ht). exists t. split; [|done].
  unfold copy_size in Ha. rewrite Hl in Ha. exact Ha.
Qed.

Lemma stream_copy_completes_witness :
  let rd : reader := [Pend; Data (bs "hello"); Pend] in
  let wr := {| wr_writes := [Accept 1; WPend]; wr_flushes := []; wr_out := []; wr_flushed := 0 |} in
  exists t,
    await (S (waits rd + writer_waits wr + length ([x51] ++ bs "hello"))) StreamCopy_poll
      (StreamCopy_with_data rd wr {| scc_buffer_size := 4; scc_yield_size := 2 |} [x51] 1) =
      (Ok (len ([x51] ++ bs "hello")), t) /\
    wr_out (sc_writer t) = [] ++ [x51] ++ bs "hello" /\ StreamCopy_finished t = true /\ at_end (sc_reader t) /\
    (wr_flushes wr = [] -> [x51] ++ bs "hello" <> [] -> wr_flushed (sc_writer t) = len (wr_out (sc_writer t))).
Proof.
  intros rd wr. apply stream_copy_completes.
  - split; [reflexivity|apply Z.leb_le; reflexivity].
  - reflexivity.
  - split; apply Z.leb_le; reflexivity.
  - apply Z.leb_le. reflexivity.
  - reflexivity.
  - intros Hf. apply Hf. repeat constructor; discriminate.
  - split; repeat constructor.
Defined.

(** Whatever the reader and the writer do (waits, errors, short and empty
    reads and writes), no poll of a copy panics or reads outside its buffer,
    and no byte is lost, repeated or reordered: what has been written, what is
    buffered and what the reader will still deliver is always the whole input,
    and the counters say how much was written and is buffered. *)
Theorem stream_copy_never_loses {R} `{AsyncReadLaws R} (rd : R) (wr : writer) (config : StreamCopyConfig)
    (s : bytes) (t : StreamCopy R) :
  0 < scc_buffer_size config <= isize_max -> 0 < scc_yield_size config -> len s <= u64_max ->
  source rd s -> lawful_writer wr -> copy_reachable (StreamCopy_new rd wr config) t ->
  fst (StreamCopy_poll t) <> Ready Panic /\ fst (StreamCopy_write_flush t) <> Panic /\
  exists rest, source (sc_reader t) rest /\
    wr_out (sc_writer t) ++ scb_left (sc_buf t) ++ rest = wr_out wr ++ s /\
    StreamCopy_copied_size t = len (wr_out (sc_writer t)) - len (wr_out wr) /\
    StreamCopy_cached_data_size t = len (scb_left (sc_buf t)).
Proof.
  intros HN HY Hlen Hs Hw Hr.
  pose proof (copying_new config HN rd wr s True False Hs (fun _ => I) Hw (or_introl I) (False_ind _)) as Hc0.
  destruct (reachable_copying _ _ _ _ _ _ _ HN HY Hlen Hc0 Hr) as [rest Hc].
  pose proof (scb_poll_copy_spec _ _ _ _ _ _ HN HY Hlen t rest Hc) as Hp.
  pose proof (write_flush_copying _ _ _ _ _ _ t rest Hlen Hc) as Hf.
  split_and!.
  - unfold StreamCopy_poll. by destruct (scb_poll_copy t) as [[[n|e|]|] t'].
  - by destruct (StreamCopy_write_flush t) as [[n|e|] t'].
  - exists rest. pose proof (copying_left_len _ _ _ _ _ _ _ _ Hc) as Hl. pose proof Hc as [].
    by split_and!.
Qed.

(** A poll does not keep its thread for longer than it should: it writes
    at most [yield_size] bytes and one buffer more. *)
Theorem stream_copy_poll_bounded {R} `{AsyncReadLaws R} (rd : R) (wr : writer) (config : StreamCopyConfig)
    (s : bytes) (t : StreamCopy R) :
  0 < scc_buffer_size config <= isize_max -> 0 < scc_yield_size config -> len s <= u64_max ->
  source rd s -> lawful_writer wr -> copy_reachable (StreamCopy_new rd wr config) t ->
  len (wr_out (sc_writer (snd (StreamCopy_poll t)))) <=
    len (wr_out (sc_writer t)) + scc_yield_size config + scc_buffer_size config.
Proof.
  intros HN HY Hlen Hs Hw Hr.
  pose proof (copying_new config HN rd wr s True False Hs (fun _ => I) Hw (or_introl I) (False_ind _)) as Hc0.
  destruct (reachable_copying _ _ _ _ _ _ _ HN HY Hlen Hc0 Hr) as [rest Hc].
  pose proof (scb_poll_copy_spec _ _ _ _ _ _ HN HY Hlen t rest Hc) as Hp.
  unfold StreamCopy_poll. destruct (scb_poll_copy t) as [[[n|e|]|] t']; cbn [snd].
  - by destruct Hp as (s' & _ & _ & _ & _ & _ & Hb & _).
  - by destruct Hp as (s' & _ & _ & Hb).
  - done.
  - by destruct Hp as (s' & _ & _ & Hb).
Qed.

Lemma stream_copy_never_loses_witness :
  let rd : reader := [Data (bs "he"); IoError; Data []; Data (bs "llo")] in
  let wr := {| wr_writes := [Accept 1; WError; Accept 0]; wr_flushes := [FPend]; wr_out := []; wr_flushed := 0 |} in
  let config := {| scc_buffer_size := 4; scc_yield_size := 2 |} in
  let t := snd (StreamCopy_poll (snd (StreamCopy_poll (StreamCopy_new rd wr config)))) in
  fst (StreamCopy_poll t) <> Ready Panic /\ fst (StreamCopy_write_flush t) <> Panic /\
  exists rest, source (sc_reader t) rest /\
    wr_out (sc_writer t) ++ scb_left (sc_buf t) ++ rest = wr_out wr ++ bs "hello" /\
    StreamCopy_copied_size t = len (wr_out (sc_writer t)) - len (wr_out wr) /\
    StreamCopy_cached_data_size t = len (scb_left (sc_buf t)).
Proof.
  intros rd wr config t. apply (stream_copy_never_loses rd wr config (bs "hello")).
  - split; [reflexivity|apply Z.leb_le; reflexivity].
  - reflexivity.
  - apply Z.leb_le. reflexivity.
  - reflexivity.
  - repeat constructor; apply Z.leb_le; reflexivity.
  - eapply copy_polled; [eapply copy_polled; [apply copy_start|]|]; apply surjective_pairing.
Defined.

Lemma stream_copy_poll_bounded_witness :
  let rd : reader := [Data (bs "hello")] in
  let wr := {| wr_writes := []; wr_flushes := []; wr_out := []; wr_flushed := 0 |} in
  let t := StreamCopy_new rd wr {| scc_buffer_size := 4; scc_yield_size := 2 |} in
  len (wr_out (sc_writer (snd (StreamCopy_poll t)))) <= len (wr_out (sc_writer t)) + 2 + 4.
Proof.
  intros rd wr t.
  apply (stream_copy_poll_bounded rd wr {| scc_buffer_size := 4; scc_yield_size := 2 |} (bs "hello")).
  - split; [reflexivity|apply Z.leb_le; reflexivity].
  - reflexivity.
  - apply Z.leb_le. reflexivity.
  - reflexivity.
  - repeat constructor.
  - apply copy_start.
Defined.

(** While the reader is silent and nothing is to be flushed, a poll does
    nothing; at the end of the input it reports completion. *)
Lemma poll_silent (b : StreamCopyBuffer) (w : writer) (n : nat) :
  scb_w_off b = 0 -> scb_r_off b = 0 -> scb_need_flush b = false -> scb_read_done b = false ->
  0 < len (scb_buf b) -> 0 < scb_yield_size b ->
  exists b', await (S n) StreamCopy_poll {| sc_reader := replicate n Pend; sc_writer := w; sc_buf := b |} =
    (Ok (scb_total_write b), {| sc_reader := []; sc_writer := w; sc_buf := b' |}).
Proof.
  intros Hw Hr Hf Hd Hlen Hy. destruct b as [done buf yield r_off w_off tr tw nf act]. cbn in * |-. subst.
  assert (slice_from (E := StreamCopyError) buf 0 = Ok buf) as Hs by (rewrite slice_from_ok by lia; done).
  assert ((0 <? len buf) = true) as Hl by (by apply Z.ltb_lt).
  induction n as [|n IH]; cbn [replicate await].
  - unfold StreamCopy_poll, scb_poll_copy, scb_poll_copy_loop, read_first, make_room, scb_poll_fill_buf.
    cbn -[len slice_from Z.ltb Z.to_nat]. rewrite Hl, Hs. cbn. by eexists.
  - match type of IH with context [await _ _ {| sc_reader := _; sc_writer := _; sc_buf := ?b |}] =>
      assert (StreamCopy_poll {| sc_reader := Pend :: replicate n Pend; sc_writer := w; sc_buf := b |} =
        (Pending, {| sc_reader := replicate n Pend; sc_writer := w; sc_buf := b |})) as ->; [|exact IH]
    end.
    unfold StreamCopy_poll, scb_poll_copy, scb_poll_copy_loop, read_first, make_room, scb_poll_fill_buf.
    cbn -[len slice_from Z.ltb Z.to_nat]. by rewrite Hl, Hs.
Qed.

(** C40: a flush that has to wait is never taken up again.  The copy forgets that
    the data has to be flushed before it knows the answer of the flush; while
    the reader is silent, however often the copy is polled, the byte it has
    written stays unflushed, and at the end of the input it reports completion
    although the writer has not been asked to flush again. *)
Theorem pending_flush_is_forgotten (n : nat) :
  let wr := {| wr_writes := []; wr_flushes := [FPend]; wr_out := []; wr_flushed := 0 |} in
  let config := {| scc_buffer_size := 4; scc_yield_size := 2 |} in
  exists t,
    await (S (S n)) StreamCopy_poll (StreamCopy_new (Data [x51] :: replicate (S n) Pend) wr config) = (Ok 1, t) /\
    wr_out (sc_writer t) = [x51] /\ wr_flushed (sc_writer t) = 0.
Proof.
  intros wr config.
  assert (exists b, StreamCopy_poll (StreamCopy_new (Data [x51] :: Pend :: replicate n Pend) wr config) =
      (Pending, {| sc_reader := replicate n Pend;
                   sc_writer := {| wr_writes := []; wr_flushes := []; wr_out := [x51]; wr_flushed := 0 |}; sc_buf := b |}) /\
    scb_w_off b = 0 /\ scb_r_off b = 0 /\ scb_need_flush b = false /\ scb_read_done b = false /\
    0 < len (scb_buf b) /\ 0 < scb_yield_size b /\ scb_total_write b = 1) as (b & Hp & ? & ? & ? & ? & ? & ? & Ht).
  { eexists. vm_compute. by split_and!. }
  destruct (poll_silent b {| wr_writes := []; wr_flushes := []; wr_out := [x51]; wr_flushed := 0 |} n) as [b' Ha];
    try done.
  eexists. split; [|split].
  - cbn [await replicate]. rewrite Hp. rewrite <- Ht. exact Ha.
  - done.
  - done.
Qed.
