(* ===== verification/HttpLine.v ===== *)
(** * Lines of HTTP/1 chunked bodies

    Models [lib/vey-http/src/parse/chunked_line.rs], with the formatting of a
    chunk size in hexadecimal.  The number parser of the [atoi] crate is a
    parameter: the class [Radix16], whose documented behaviour is the class
    [Radix16Laws]. *)

From Stdlib Require Import ZArith Lia Strings.Byte.
From stdpp Require Import base list.
From S2P Require Import Prelude Text.

(** ** Hexadecimal numbers *)

Definition hex_digit (b : byte) : option Z :=
  if in_range 0x30 0x39 b then Some (u8 b - 0x30)
  else if in_range 0x61 0x66 b then Some (u8 b - 0x61 + 10)
  else if in_range 0x41 0x46 b then Some (u8 b - 0x41 + 10)
  else None.

Definition is_hex (b : byte) : Prop := is_Some (hex_digit b).

Definition hex_value (digits : bytes) : Z :=
  fold_left (fun acc b => acc * 16 + match hex_digit b with Some d => d | None => 0 end) digits 0.

(** [u64::from_radix_16_checked] of the [atoi] crate: the value of the leading
    digits, [None] if it does not fit, and the number of digits. *)
Class Radix16 : Type := from_radix_16_checked : bytes -> option Z * Z.

Class Radix16Laws `{Radix16} : Prop := from_radix_16_spec digits rest :
  Forall is_hex digits -> (forall b l, rest = b :: l -> ~ is_hex b) ->
  from_radix_16_checked (digits ++ rest) =
    (if hex_value digits <=? u64_max then Some (hex_value digits) else None, len digits).

(** A digit of [{:x}]. *)
Definition hex_char (d : Z) : byte := to_u8 (if d <? 10 then 0x30 + d else 0x61 + d - 10).

Fixpoint hex_fmt_fuel (fuel : nat) (n : Z) (acc : bytes) : bytes :=
  match fuel with
  | O => acc
  | S fuel' =>
      let acc := hex_char (n mod 16) :: acc in
      if n / 16 =? 0 then acc else hex_fmt_fuel fuel' (n / 16) acc
  end.

(** [format!("{n:x}")] of a [u64]: at most 16 digits. *)
Definition hex_fmt (n : Z) : bytes := hex_fmt_fuel 16 n [].

(** ** Chunk size lines *)

Inductive HttpLineParseError : Type :=
| Line_NotLongEnough
| Line_LineTooLong (n : Z)
| Line_InvalidUtf8Encoding
| Line_NoDelimiterFound (c : byte)
| Line_InvalidHeaderName
| Line_InvalidHeaderValue
| Line_InvalidVersion
| Line_InvalidStatusCode
| Line_InvalidChunkSize.

Record HttpChunkedLine : Type := { hcl_chunk_size : Z; hcl_extension : option bytes }.

Definition HttpChunkedLine_parse `{Radix16} (buf : bytes) : res HttpLineParseError HttpChunkedLine :=
  let (chunk_size, offset) := from_radix_16_checked buf in
  match chunk_size with
  | None => Err Line_InvalidChunkSize
  | Some chunk_size =>
      if offset =? 0 then Err Line_InvalidChunkSize
      else if len buf =? offset then Err Line_NotLongEnough
      else
        let? b := index buf offset in
        if bool_decide (b = x0d) || bool_decide (b = x0a)
        then Ok {| hcl_chunk_size := chunk_size; hcl_extension := None |}
        else if bool_decide (b = x3b) then
          let? ext := slice_from buf (offset + 1) in
          if utf8_valid ext
          then Ok {| hcl_chunk_size := chunk_size; hcl_extension := Some (trim ext) |}
          else Err Line_InvalidUtf8Encoding
        else Err Line_InvalidChunkSize
  end.

(** ** Digits *)

Section Digits.

Lemma hex_digit_range b d : hex_digit b = Some d -> 0 <= d < 16.
Proof.
  unfold hex_digit, in_range. repeat case_match; intros [= <-]; bool_to_prop; lia.
Qed.

Lemma hex_digit_char d : 0 <= d < 16 -> hex_digit (hex_char d) = Some d.
Proof.
  intros Hd.
  pose proof (u8_forall (fun d => implb (d <? 16) (bool_decide (hex_digit (hex_char d) = Some d)))) as Hall.
  specialize (Hall ltac:(vm_compute; reflexivity) d ltac:(lia)). cbv beta in Hall.
  destruct (Z.ltb_spec d 16); [|lia]. by apply bool_decide_eq_true in Hall.
Qed.

Lemma is_hex_char d : 0 <= d < 16 -> is_hex (hex_char d).
Proof. intros. unfold is_hex. by rewrite hex_digit_char. Qed.

Lemma hex_value_snoc l b d : hex_digit b = Some d -> hex_value (l ++ [b]) = hex_value l * 16 + d.
Proof. intros Hb. unfold hex_value. rewrite fold_left_app. cbn [fold_left]. by rewrite Hb. Qed.

Lemma hex_value_nonneg l : 0 <= hex_value l.
Proof.
  induction l as [|b l IH] using rev_ind; [done|]. unfold hex_value in *. rewrite fold_left_app. cbn [fold_left].
  destruct (hex_digit b) as [d|] eqn:Hd; [apply hex_digit_range in Hd|]; lia.
Qed.

Lemma hex_fmt_fuel_spec fuel n acc :
  0 <= n < 16 ^ Z.of_nat fuel ->
  (0 < fuel)%nat ->
  exists ds, hex_fmt_fuel fuel n acc = ds ++ acc /\ Forall is_hex ds /\ hex_value ds = n /\ ds <> [] /\
    (length ds <= fuel)%nat.
Proof.
  revert n acc. induction fuel as [|fuel IH]; intros n acc Hn Hf; [lia|]. cbn [hex_fmt_fuel].
  pose proof (Z.mod_pos_bound n 16 ltac:(lia)) as Hm. pose proof (Z.div_mod n 16 ltac:(lia)) as Hdm.
  destruct (Z.eqb_spec (n / 16) 0) as [H0|H0].
  - exists [hex_char (n mod 16)]. split_and!; [done|constructor; [by apply is_hex_char|done]| |done|cbn; lia].
    unfold hex_value. cbn [fold_left]. rewrite hex_digit_char by done. lia.
  - rewrite Nat2Z.inj_succ, Z.pow_succ_r in Hn by lia.
    destruct fuel as [|fuel]; [cbn in Hn; lia|].
    destruct (IH (n / 16) (hex_char (n mod 16) :: acc)) as (ds & -> & Hds & Hv & Hne & Hlen).
    { split; [apply Z.div_pos; lia|apply Z.div_lt_upper_bound; lia]. }
    { lia. }
    exists (ds ++ [hex_char (n mod 16)]). rewrite <- app_assoc. split_and!; try done.
    + apply Forall_app. split; [done|]. constructor; [by apply is_hex_char|done].
    + rewrite (hex_value_snoc _ _ (n mod 16)) by (by apply hex_digit_char). lia.
    + by destruct ds.
    + rewrite length_app. cbn. lia.
Qed.

Lemma hex_fmt_spec n :
  0 <= n <= u64_max ->
  Forall is_hex (hex_fmt n) /\ hex_value (hex_fmt n) = n /\ hex_fmt n <> [] /\ len (hex_fmt n) <= 16.
Proof.
  intros Hn. destruct (hex_fmt_fuel_spec 16 n []) as (ds & Hds & ? & ? & ? & ?); [unfold u64_max in Hn; lia|lia|].
  unfold hex_fmt. rewrite Hds, app_nil_r. split_and!; try done. unfold len. lia.
Qed.

Lemma not_hex_CR : ~ is_hex x0d.
Proof. intros [d [=]]. Qed.
Lemma not_hex_LF : ~ is_hex x0a.
Proof. intros [d [=]]. Qed.
Lemma not_hex_semicolon : ~ is_hex x3b.
Proof. intros [d [=]]. Qed.

(** Every text starts with a longest sequence of digits. *)
Lemma hex_span (l : bytes) :
  exists digits rest, l = digits ++ rest /\ Forall is_hex digits /\ (forall b k, rest = b :: k -> ~ is_hex b).
Proof.
  induction l as [|b l (ds & rest & -> & Hds & Hr)]; [by exists [], []|].
  destruct (hex_digit b) as [d|] eqn:Hb.
  - exists (b :: ds), rest. split_and!; try done. constructor; [by exists d|done].
  - exists [], (b :: ds ++ rest). split_and!; try done. intros b' k [= <- _] [d Hd]. congruence.
Qed.

End Digits.

Section ChunkLine.
Context `{Radix16Laws}.

(** The outcome of [parse], from the digits and what follows them. *)
Definition chunk_line_outcome (digits rest : bytes) : res HttpLineParseError HttpChunkedLine :=
  if negb (hex_value digits <=? u64_max) then Err Line_InvalidChunkSize
  else if len digits =? 0 then Err Line_InvalidChunkSize
  else
    match rest with
    | [] => Err Line_NotLongEnough
    | b :: ext =>
        if bool_decide (b = x0d) || bool_decide (b = x0a)
        then Ok {| hcl_chunk_size := hex_value digits; hcl_extension := None |}
        else if bool_decide (b = x3b) then
          if utf8_valid ext
          then Ok {| hcl_chunk_size := hex_value digits; hcl_extension := Some (trim ext) |}
          else Err Line_InvalidUtf8Encoding
        else Err Line_InvalidChunkSize
    end.

Lemma HttpChunkedLine_parse_eq digits rest :
  Forall is_hex digits -> (forall b l, rest = b :: l -> ~ is_hex b) ->
  HttpChunkedLine_parse (digits ++ rest) = chunk_line_outcome digits rest.
Proof.
  intros Hd Hr. unfold HttpChunkedLine_parse, chunk_line_outcome. rewrite from_radix_16_spec by done.
  destruct (hex_value digits <=? u64_max); cbn [negb]; [|done].
  destruct (Z.eqb_spec (len digits) 0); [done|]. destruct rest as [|b ext].
  - rewrite app_nil_r. by rewrite Z.eqb_refl.
  - destruct (Z.eqb_spec (len (digits ++ b :: ext)) (len digits)) as [He|_]; [len_lia|].
    rewrite (index_ok _ _ b) by (len_lia || (unfold len; rewrite Nat2Z.id, lookup_app_r, Nat.sub_diag by lia; done)).
    cbn [bind]. case_match; [done|]. case_match; [|done].
    rewrite (slice_from_at (digits ++ [b]) ext) by (rewrite <- ?app_assoc; done || len_lia). done.
Qed.

(** The line that an encoder writes for a chunk of [n] bytes. *)
Lemma chunk_line_fmt n :
  0 <= n <= u64_max ->
  HttpChunkedLine_parse (hex_fmt n ++ [x0d; x0a]) = Ok {| hcl_chunk_size := n; hcl_extension := None |}.
Proof.
  intros Hn. destruct (hex_fmt_spec n Hn) as (Hh & Hv & Hne & _).
  rewrite HttpChunkedLine_parse_eq; [|done|intros b l [= <- _]; apply not_hex_CR].
  unfold chunk_line_outcome. rewrite Hv. destruct (Z.leb_spec n u64_max); [cbn [negb]|lia].
  destruct (Z.eqb_spec (len (hex_fmt n)) 0) as [Hx%len_0|]; [done|]. by rewrite bool_decide_eq_true_2.
Qed.

Lemma chunk_line_size_range buf line :
  HttpChunkedLine_parse buf = Ok line -> 0 <= hcl_chunk_size line <= u64_max.
Proof.
  destruct (hex_span buf) as (ds & rest & -> & Hd & Hr). rewrite HttpChunkedLine_parse_eq by done.
  unfold chunk_line_outcome. pose proof (hex_value_nonneg ds).
  destruct (Z.leb_spec (hex_value ds) u64_max); cbn [negb]; [|done].
  repeat case_match; intros [= <-]; cbn [hcl_chunk_size]; lia.
Qed.

Lemma HttpChunkedLine_parse_safe buf : HttpChunkedLine_parse buf <> Panic.
Proof.
  destruct (hex_span buf) as (ds & rest & -> & Hd & Hr). rewrite HttpChunkedLine_parse_eq by done.
  unfold chunk_line_outcome. repeat case_match; done.
Qed.

End ChunkLine.

(** A parser with the documented behaviour, to show that it can be had. *)
Fixpoint hex_prefix (l : bytes) : bytes :=
  match l with
  | b :: l' => match hex_digit b with Some _ => b :: hex_prefix l' | None => [] end
  | [] => []
  end.

Definition radix16_reference : Radix16 := fun l =>
  let ds := hex_prefix l in
  (if hex_value ds <=? u64_max then Some (hex_value ds) else None, len ds).

Lemma radix16_reference_laws : Radix16Laws (H := radix16_reference).
Proof.
  intros ds rest Hd Hr. unfold from_radix_16_checked, radix16_reference.
  assert (hex_prefix (ds ++ rest) = ds) as ->; [|done].
  induction ds as [|b ds IH]; cbn [app hex_prefix].
  - destruct rest as [|b l]; [done|]. cbn [hex_prefix]. specialize (Hr b l eq_refl). unfold is_hex in Hr.
    destruct (hex_digit b); [|done]. by destruct Hr.
  - apply Forall_cons in Hd as [[d Hb] Hd]. rewrite Hb. by rewrite IH.
Qed.

(** A chunk size line is read by its digits: the parser never panics and
    never wraps; it accepts a line exactly when its leading hexadecimal digits
    have a value below 2^64 and are followed by a line end or by a semicolon
    and valid UTF-8, and the size is that value; the line written for a chunk
    of [n] bytes is read as [n]. *)
Theorem chunk_line_reads_size `{Radix16Laws} (digits rest : bytes) (n : Z) :
  Forall is_hex digits -> (forall b l, rest = b :: l -> ~ is_hex b) -> 0 <= n <= u64_max ->
  HttpChunkedLine_parse (digits ++ rest) <> Panic /\
  (forall line, HttpChunkedLine_parse (digits ++ rest) = Ok line <->
     digits <> [] /\ hex_value digits <= u64_max /\ hcl_chunk_size line = hex_value digits /\
     exists b ext, rest = b :: ext /\
       ((b = x0d \/ b = x0a) /\ hcl_extension line = None \/
        b = x3b /\ utf8_valid ext = true /\ hcl_extension line = Some (trim ext))) /\
  HttpChunkedLine_parse (hex_fmt n ++ [x0d; x0a]) = Ok {| hcl_chunk_size := n; hcl_extension := None |}.
Proof.
  intros Hd Hr Hn. split_and!; [| |by apply chunk_line_fmt]; rewrite HttpChunkedLine_parse_eq by done; unfold chunk_line_outcome.
  - repeat case_match; done.
  - intros [size ext]. destruct (Z.leb_spec (hex_value digits) u64_max); cbn [negb]; [|by split; [|lia]].
    destruct (Z.eqb_spec (len digits) 0) as [->%len_0|Hne]; [split; [done|tauto]|].
    destruct rest as [|b l]; [split; [done|by intros (_ & _ & _ & b & l & [=] & _)]|].
    assert (digits <> []) by (intros ->; by apply Hne).
    destruct (bool_decide_reflect (b = x0d)), (bool_decide_reflect (b = x0a)), (bool_decide_reflect (b = x3b));
      subst; try done; cbn [orb]; destruct (utf8_valid l) eqn:Hu; (split;
      [intros [= <- <-]; split_and!; try done; eexists _, _; (split; [reflexivity|]); tauto
      |intros (_ & _ & Hs & b' & l' & [= <- <-] & Hx); cbn [hcl_chunk_size hcl_extension] in Hs, Hx; subst;
       destruct Hx as [[[?|?] ?]|(? & ? & ?)]; congruence]).
Qed.

Lemma chunk_line_reads_size_witness :
  let R := radix16_reference in
  HttpChunkedLine_parse (bs "1f" ++ bs "; ieof") <> Panic /\
  (forall line, HttpChunkedLine_parse (bs "1f" ++ bs "; ieof") = Ok line <->
     bs "1f" <> [] /\ hex_value (bs "1f") <= u64_max /\ hcl_chunk_size line = hex_value (bs "1f") /\
     exists b ext, bs "; ieof" = b :: ext /\
       ((b = x0d \/ b = x0a) /\ hcl_extension line = None \/
        b = x3b /\ utf8_valid ext = true /\ hcl_extension line = Some (trim ext))) /\
  HttpChunkedLine_parse (hex_fmt 255 ++ [x0d; x0a]) = Ok {| hcl_chunk_size := 255; hcl_extension := None |}.
Proof.
  intros R. pose proof (radix16_reference_laws : Radix16Laws (H := R)) as HR.
  apply chunk_line_reads_size.
  - repeat constructor; by eexists.
  - intros b l [= <- _]. apply not_hex_semicolon.
  - split; apply Z.leb_le; reflexivity.
Defined.
