(* ===== verification/HttpChunkDecode.v ===== *)
(** * Decoding chunked bodies

    Models [lib/vey-http/src/body/chunked_decoder.rs]: the reader that removes
    the chunk framing from a stream and stops in front of the trailer fields.
    It sits on any [AsyncBufRead] and is an [AsyncRead] itself; the theorems give
    it the laws of that interface. *)

From Stdlib Require Import ZArith Lia Strings.Byte.
From stdpp Require Import base list.
From S2P Require Import Prelude Reader AsyncIo HttpLine.

Definition HTTP_LF : byte := x0a.
Definition HTTP_CR : byte := x0d.

Record ChunkedDataDecodeReaderInternal : Type := {
  cdi_body_line_max_size : Z;
  cdi_chunk_header : bytes;
  cdi_this_chunk_size : Z;
  cdi_left_chunk_size : Z;
  cdi_poll_chunk_end_r : bool;
  cdi_poll_chunk_end_n : bool;
  cdi_poll_chunk_end : bool
}.

Definition ChunkedDataDecodeReaderInternal_new (body_line_max_size : Z) : ChunkedDataDecodeReaderInternal := {|
  cdi_body_line_max_size := body_line_max_size;
  cdi_chunk_header := [];
  cdi_this_chunk_size := 0;
  cdi_left_chunk_size := 0;
  cdi_poll_chunk_end_r := false;
  cdi_poll_chunk_end_n := false;
  cdi_poll_chunk_end := false
|}.

(** Assignments to groups of fields. *)
Section Assign.
Context (self : ChunkedDataDecodeReaderInternal).

Definition cdi_set_ends (r n e : bool) : ChunkedDataDecodeReaderInternal := {|
  cdi_body_line_max_size := cdi_body_line_max_size self; cdi_chunk_header := cdi_chunk_header self;
  cdi_this_chunk_size := cdi_this_chunk_size self; cdi_left_chunk_size := cdi_left_chunk_size self;
  cdi_poll_chunk_end_r := r; cdi_poll_chunk_end_n := n; cdi_poll_chunk_end := e |}.

Definition cdi_set_header (h : bytes) : ChunkedDataDecodeReaderInternal := {|
  cdi_body_line_max_size := cdi_body_line_max_size self; cdi_chunk_header := h;
  cdi_this_chunk_size := cdi_this_chunk_size self; cdi_left_chunk_size := cdi_left_chunk_size self;
  cdi_poll_chunk_end_r := cdi_poll_chunk_end_r self; cdi_poll_chunk_end_n := cdi_poll_chunk_end_n self;
  cdi_poll_chunk_end := cdi_poll_chunk_end self |}.

Definition cdi_set_sizes (this left : Z) : ChunkedDataDecodeReaderInternal := {|
  cdi_body_line_max_size := cdi_body_line_max_size self; cdi_chunk_header := cdi_chunk_header self;
  cdi_this_chunk_size := this; cdi_left_chunk_size := left;
  cdi_poll_chunk_end_r := cdi_poll_chunk_end_r self; cdi_poll_chunk_end_n := cdi_poll_chunk_end_n self;
  cdi_poll_chunk_end := cdi_poll_chunk_end self |}.

End Assign.

Definition cdi_finished (self : ChunkedDataDecodeReaderInternal) : bool :=
  cdi_poll_chunk_end self && (cdi_this_chunk_size self =? 0).

Definition cdi_left (self : ChunkedDataDecodeReaderInternal) : option Z :=
  if cdi_poll_chunk_end_r self || cdi_poll_chunk_end_n self then None
  else Some (cdi_left_chunk_size self).

Definition cdi_pending_cancel_safe (self : ChunkedDataDecodeReaderInternal) : bool :=
  (len (cdi_chunk_header self) =? 0) && negb (cdi_poll_chunk_end_r self) && negb (cdi_poll_chunk_end_n self).

Section Decode.
Context {R : Type} `{!AsyncBufRead R} `{!Radix16}.
Implicit Types (self : ChunkedDataDecodeReaderInternal) (rd : R).

(** [ready!(reader.as_mut().poll_fill_buf(cx))?] *)
Definition with_fill_buf {A} self rd (k : bytes -> R -> poll (res io_error A) * ChunkedDataDecodeReaderInternal * R)
    : poll (res io_error A) * ChunkedDataDecodeReaderInternal * R :=
  match poll_fill_buf rd with
  | (Pending, rd) => (Pending, self, rd)
  | (Ready (Err e), rd) => (Ready (Err e), self, rd)
  | (Ready Panic, rd) => (Ready Panic, self, rd)
  | (Ready (Ok r_buf), rd) => k r_buf rd
  end.

(** The branch of [self.poll_chunk_end_n]: the line feed is still to come. *)
Definition poll_end_n self rd : poll (res io_error unit) * ChunkedDataDecodeReaderInternal * R :=
  with_fill_buf self rd (fun r_buf rd =>
    match r_buf with
    | [] => (Ready (Err UnexpectedEof), self, rd)
    | b :: _ =>
        if bool_decide (b = HTTP_LF) then
          (Ready (Ok tt), cdi_set_ends self (cdi_poll_chunk_end_r self) (cdi_poll_chunk_end_n self) true, consume rd 1)
        else (Ready (Err InvalidData), self, rd)
    end).

(** The branch of [self.poll_chunk_end_r]: the whole line end is to come. *)
Definition poll_end_r self rd : poll (res io_error unit) * ChunkedDataDecodeReaderInternal * R :=
  with_fill_buf self rd (fun r_buf rd =>
    let at_end n :=
      (Ready (Ok tt), cdi_set_ends self (cdi_poll_chunk_end_r self) (cdi_poll_chunk_end_n self) true, consume rd n) in
    match r_buf with
    | [] => (Ready (Err UnexpectedEof), self, rd)
    | [b] =>
        if bool_decide (b = HTTP_CR) then
          (Ready (Ok tt), cdi_set_ends self (cdi_poll_chunk_end_r self) true (cdi_poll_chunk_end self), consume rd 1)
        else if bool_decide (b = HTTP_LF) then at_end 1
        else (Ready (Err InvalidData), self, rd)
    | b :: c :: _ =>
        if bool_decide (b = HTTP_CR) then
          if bool_decide (c <> HTTP_LF) then (Ready (Err InvalidData), self, rd) else at_end 2
        else if bool_decide (b = HTTP_LF) then at_end 1
        else (Ready (Err InvalidData), self, rd)
    end).

(** At most a carriage return, a line feed and the reset of the flags. *)
Fixpoint poll_finish_chunk_end_loop (fuel : nat) self rd
    : poll (res io_error unit) * ChunkedDataDecodeReaderInternal * R :=
  match fuel with
  | O => (Ready Panic, self, rd)
  | S fuel' =>
      let continue (r : poll (res io_error unit) * ChunkedDataDecodeReaderInternal * R) :=
        match r with
        | (Ready (Ok _), self, rd) => poll_finish_chunk_end_loop fuel' self rd
        | r => r
        end in
      if cdi_poll_chunk_end self then
        (Ready (Ok tt), (if cdi_this_chunk_size self =? 0 then self else cdi_set_ends self false false false), rd)
      else if cdi_poll_chunk_end_n self then continue (poll_end_n self rd)
      else if cdi_poll_chunk_end_r self then continue (poll_end_r self rd)
      else (Ready (Ok tt), self, rd)
  end.

Definition poll_finish_chunk_end self rd := poll_finish_chunk_end_loop 3 self rd.

(** The inner loop: read the chunk size line into [chunk_header].  Every round
    adds a byte to it, or fails. *)
Fixpoint read_chunk_line (fuel : nat) self rd
    : poll (res io_error unit) * ChunkedDataDecodeReaderInternal * R :=
  match fuel with
  | O => (Ready Panic, self, rd)
  | S fuel' =>
      with_fill_buf self rd (fun r_buf rd =>
        if len r_buf =? 0 then (Ready (Err UnexpectedEof), self, rd)
        else
          match memchr HTTP_LF r_buf with
          | Some p =>
              let n := p + 1 in
              if cdi_body_line_max_size self <? len (cdi_chunk_header self) + n
              then (Ready (Err OtherError), self, rd)
              else (Ready (Ok tt), cdi_set_header self (cdi_chunk_header self ++ take (Z.to_nat n) r_buf), consume rd n)
          | None =>
              let n := len r_buf in
              if cdi_body_line_max_size self <? len (cdi_chunk_header self) + n
              then (Ready (Err OtherError), self, rd)
              else read_chunk_line fuel' (cdi_set_header self (cdi_chunk_header self ++ r_buf)) (consume rd n)
          end)
  end.

Definition read_chunk_line_fuel self : nat :=
  S (S (Z.to_nat (cdi_body_line_max_size self - len (cdi_chunk_header self)))).

(** [poll_decode] into [room] unfilled bytes; the bytes that have been put into
    the caller's buffer are returned in every case. *)
Fixpoint poll_decode_loop (fuel : nat) self rd (room : Z) (filled : bytes)
    : poll (res io_error unit) * bytes * ChunkedDataDecodeReaderInternal * R :=
  match fuel with
  | O => (Ready Panic, filled, self, rd)
  | S fuel' =>
      let continue (r : poll (res io_error unit) * ChunkedDataDecodeReaderInternal * R) :=
        match r with
        | (Ready (Ok _), self, rd) => poll_decode_loop fuel' self rd room filled
        | (r, self, rd) => (r, filled, self, rd)
        end in
      if cdi_poll_chunk_end self then
        if cdi_this_chunk_size self =? 0 then (Ready (Ok tt), filled, self, rd)
        else poll_decode_loop fuel' (cdi_set_ends self false false false) rd room filled
      else if cdi_poll_chunk_end_n self then continue (poll_end_n self rd)
      else if cdi_poll_chunk_end_r self then continue (poll_end_r self rd)
      else if 0 <? cdi_left_chunk_size self then
        let buf_remaining := room - len filled in
        if buf_remaining =? 0 then (Ready (Ok tt), filled, self, rd)
        else
          match ar_poll_read rd (Z.min (cdi_left_chunk_size self) buf_remaining) with
          | (Pending, rd) => (Pending, filled, self, rd)
          | (Ready (Err e), rd) => (Ready (Err e), filled, self, rd)
          | (Ready Panic, rd) => (Ready Panic, filled, self, rd)
          | (Ready (Ok c), rd) =>
              if len c =? 0 then (Ready (Err UnexpectedEof), filled, self, rd)
              else
                match usub (E := io_error) (cdi_left_chunk_size self) (len c) with
                | Ok left_size =>
                    let self := cdi_set_sizes self (cdi_this_chunk_size self) left_size in
                    let self :=
                      if left_size =? 0
                      then cdi_set_ends self true (cdi_poll_chunk_end_n self) (cdi_poll_chunk_end self) else self in
                    poll_decode_loop fuel' self rd room (filled ++ c)
                | _ => (Ready Panic, filled, self, rd)
                end
          end
      else
        match read_chunk_line (read_chunk_line_fuel self) self rd with
        | (Ready (Ok _), self, rd) =>
            match HttpChunkedLine_parse (cdi_chunk_header self) with
            | Ok chunk_line =>
                let size := hcl_chunk_size chunk_line in
                let self := cdi_set_sizes self size size in
                if size =? 0 then
                  (Ready (Ok tt), filled,
                   cdi_set_ends self (cdi_poll_chunk_end_r self) (cdi_poll_chunk_end_n self) true, rd)
                else poll_decode_loop fuel' (cdi_set_header self []) rd room filled
            | Err _ => (Ready (Err InvalidData), filled, self, rd)
            | Panic => (Ready Panic, filled, self, rd)
            end
        | (r, self, rd) => (r, filled, self, rd)
        end
  end.

(** A round that reads data takes a byte of the room; at most four others (two
    for the line end, the reset, the next size line) come before the next one. *)
Definition poll_decode self rd (room : Z) :=
  poll_decode_loop (5 * S (Z.to_nat room) + 5) self rd room [].

End Decode.

Record ChunkedDataDecodeReader (R : Type) : Type := {
  cdd_reader : R;
  cdd_internal : ChunkedDataDecodeReaderInternal
}.
Arguments cdd_reader {R}.
Arguments cdd_internal {R}.

Section Reader.
Context {R : Type} `{!AsyncBufRead R} `{!Radix16}.
Implicit Types d : ChunkedDataDecodeReader R.

Definition ChunkedDataDecodeReader_new (rd : R) (body_line_max_size : Z) : ChunkedDataDecodeReader R :=
  {| cdd_reader := rd; cdd_internal := ChunkedDataDecodeReaderInternal_new body_line_max_size |}.

Definition ChunkedDataDecodeReader_resume (rd : R) (body_line_max_size left_chunk_size : Z)
    : ChunkedDataDecodeReader R :=
  {| cdd_reader := rd;
     cdd_internal := cdi_set_sizes (ChunkedDataDecodeReaderInternal_new body_line_max_size)
                       left_chunk_size left_chunk_size |}.

Definition ChunkedDataDecodeReader_into_reader d : R := cdd_reader d.
Definition ChunkedDataDecodeReader_left_chunk_size d : option Z := cdi_left (cdd_internal d).
Definition ChunkedDataDecodeReader_pending_cancel_safe d : bool := cdi_pending_cancel_safe (cdd_internal d).
Definition ChunkedDataDecodeReader_finished d : bool := cdi_finished (cdd_internal d).

Definition poll_finish_pending d : poll (res io_error unit) * ChunkedDataDecodeReader R :=
  match poll_finish_chunk_end (cdd_internal d) (cdd_reader d) with
  | (r, self, rd) => (r, {| cdd_reader := rd; cdd_internal := self |})
  end.

(** [finish_pending_chunk_end().await], polled at most [polls] times. *)
Definition finish_pending_chunk_end (polls : nat) d : res io_error unit * ChunkedDataDecodeReader R :=
  await polls poll_finish_pending d.

Definition ChunkedDataDecodeReader_poll_read d (room : Z) : poll (res io_error bytes) * ChunkedDataDecodeReader R :=
  match poll_decode (cdd_internal d) (cdd_reader d) room with
  | (r, filled, self, rd) =>
      let d := {| cdd_reader := rd; cdd_internal := self |} in
      match r with
      | Pending => if 0 <? len filled then (Ready (Ok filled), d) else (Pending, d)
      | Ready (Ok _) => (Ready (Ok filled), d)
      | Ready (Err e) => (Ready (Err e), d)
      | Ready Panic => (Ready Panic, d)
      end
  end.

#[export] Instance ChunkedDataDecodeReader_AsyncRead : AsyncRead (ChunkedDataDecodeReader R) :=
  ChunkedDataDecodeReader_poll_read.

End Reader.

(** ** What a chunked body is

    [dechunk M s data rest]: the stream [s] starts with chunks that carry
    [data], with size lines of at most [M] bytes, and the line of the last
    chunk; [rest] (the trailer fields and what follows) comes after it. *)
Section Dechunk.
Context `{Radix16} (M : Z).

Definition size_line (line : bytes) (n : Z) : Prop :=
  exists pre ext, line = pre ++ [HTTP_LF] /\ (HTTP_LF ∉ pre) /\ len line <= M /\
    HttpChunkedLine_parse line = Ok {| hcl_chunk_size := n; hcl_extension := ext |}.

Inductive line_end : bytes -> Prop :=
| line_end_crlf : line_end [HTTP_CR; HTTP_LF]
| line_end_lf : line_end [HTTP_LF].

End Dechunk.

(** Two readers of chunked bodies need not agree on what a line is; what is
    shown of the decoder holds for every kind of lines that it accepts. *)
Record chunk_syntax `{Radix16} : Type := {
  cs_line : Z -> bytes -> Z -> Prop;
  cs_end : bytes -> Prop;
  cs_line_ok M line n : cs_line M line n -> size_line M line n;
  cs_end_ok eol : cs_end eol -> line_end eol
}.

Definition lenient `{Radix16} : chunk_syntax := {|
  cs_line := size_line;
  cs_end := line_end;
  cs_line_ok _ _ _ Hl := Hl;
  cs_end_ok _ He := He
|}.

Section Chunks.
Context `{Radix16} (X : chunk_syntax) (M : Z).

Inductive dechunk_in : bytes -> bytes -> bytes -> Prop :=
| dechunk_last line rest : cs_line X M line 0 -> dechunk_in (line ++ rest) [] rest
| dechunk_chunk line chunk eol s data rest :
    cs_line X M line (len chunk) -> chunk <> [] -> cs_end X eol -> dechunk_in s data rest ->
    dechunk_in (line ++ chunk ++ eol ++ s) (chunk ++ data) rest.

(** The same from the middle of a body, in the state of a decoder. *)
Inductive decodes : ChunkedDataDecodeReaderInternal -> bytes -> bytes -> bytes -> Prop :=
| decodes_line self s data rest :
    cdi_poll_chunk_end self = false -> cdi_poll_chunk_end_n self = false -> cdi_poll_chunk_end_r self = false ->
    cdi_left_chunk_size self = 0 -> (HTTP_LF ∉ cdi_chunk_header self) ->
    dechunk_in (cdi_chunk_header self ++ s) data rest ->
    decodes self s data rest
| decodes_data self chunk eol s data rest :
    cdi_poll_chunk_end self = false -> cdi_poll_chunk_end_n self = false -> cdi_poll_chunk_end_r self = false ->
    cdi_chunk_header self = [] -> cdi_left_chunk_size self = len chunk -> chunk <> [] -> cdi_this_chunk_size self <> 0 ->
    cs_end X eol -> dechunk_in s data rest ->
    decodes self (chunk ++ eol ++ s) (chunk ++ data) rest
| decodes_end_r self eol s data rest :
    cdi_poll_chunk_end self = false -> cdi_poll_chunk_end_n self = false -> cdi_poll_chunk_end_r self = true ->
    cdi_chunk_header self = [] -> cdi_left_chunk_size self = 0 -> cdi_this_chunk_size self <> 0 ->
    cs_end X eol -> dechunk_in s data rest ->
    decodes self (eol ++ s) data rest
| decodes_end_n self s data rest :
    cdi_poll_chunk_end self = false -> cdi_poll_chunk_end_n self = true ->
    cdi_chunk_header self = [] -> cdi_left_chunk_size self = 0 -> cdi_this_chunk_size self <> 0 ->
    dechunk_in s data rest ->
    decodes self (HTTP_LF :: s) data rest
| decodes_end self s data rest :
    cdi_poll_chunk_end self = true ->
    cdi_chunk_header self = [] -> cdi_left_chunk_size self = 0 -> cdi_this_chunk_size self <> 0 ->
    dechunk_in s data rest ->
    decodes self s data rest
| decodes_done self rest :
    cdi_poll_chunk_end self = true -> cdi_this_chunk_size self = 0 -> decodes self rest [] rest.

End Chunks.

Abbreviation dechunk := (dechunk_in lenient).

(** ** The decoder against that definition *)

Section Spec.
Context {R : Type} `{AsyncBufReadLaws R} `{Radix16} (X : chunk_syntax) (M : Z).
Implicit Types (self : ChunkedDataDecodeReaderInternal) (rd : R).

(** The reader delivers [s] without a fault. *)
Definition sound rd (s : bytes) : Prop := source rd s /\ ~ faulty rd.

Lemma sound_fill_buf rd s :
  sound rd s ->
  match poll_fill_buf rd with
  | (Ready (Ok d), rd') =>
      exists s', s = d ++ s' /\ (d = [] -> s = []) /\ (waits rd' <= waits rd)%nat /\
        forall n, 0 <= n <= len d -> sound (consume rd' n) (drop (Z.to_nat n) d ++ s') /\
          (waits (consume rd' n) <= waits rd)%nat
  | (Pending, rd') => sound rd' s /\ (waits rd' < waits rd)%nat
  | (Ready _, _) => False
  end.
Proof.
  intros [Hs Hf]. pose proof (source_fill_buf rd s Hs) as Hp. unfold sound.
  destruct (poll_fill_buf rd) as [[[d|e|]|] rd']; [|tauto|done|tauto].
  destruct Hp as (Hs' & Hb & Hf' & Hnil & Hw).
  destruct (buffered_consume rd' s d (len d) Hs' Hb ltac:(len_lia)) as (s' & Heq & _).
  rewrite take_ge in Heq by (unfold len; lia). exists s'. split_and!; [done|tauto|done|].
  intros n Hn. destruct (buffered_consume rd' s d n Hs' Hb Hn) as (s'' & Heq' & Hs'' & _ & Hf'' & Hw'').
  rewrite Heq in Heq'. rewrite <- (take_drop (Z.to_nat n) d) in Heq' at 1. rewrite <- app_assoc in Heq'.
  apply app_inv_head in Heq'. rewrite Heq'. split_and!; [done|tauto|lia].
Qed.

Lemma sound_poll_read rd s room :
  sound rd s -> 0 < room ->
  match ar_poll_read rd room with
  | (Ready (Ok c), rd') =>
      exists s', s = c ++ s' /\ len c <= room /\ sound rd' s' /\ (c = [] -> s = []) /\ (waits rd' <= waits rd)%nat
  | (Pending, rd') => sound rd' s /\ (waits rd' < waits rd)%nat
  | (Ready _, _) => False
  end.
Proof.
  intros [Hs Hf] Hroom. pose proof (source_poll_read rd s room Hs Hroom) as Hp. unfold sound.
  destruct (ar_poll_read rd room) as [[[c|e|]|] rd']; [|tauto|done|tauto].
  destruct Hp as (s' & -> & Hl & Hs' & Hf' & Hn & Hw). exists s'. split_and!; try done; tauto.
Qed.

Lemma poll_end_n_spec self rd s :
  sound rd (HTTP_LF :: s) ->
  match poll_end_n self rd with
  | (Ready (Ok _), self', rd') =>
      self' = cdi_set_ends self (cdi_poll_chunk_end_r self) (cdi_poll_chunk_end_n self) true /\ sound rd' s /\
      (waits rd' <= waits rd)%nat
  | (Pending, self', rd') => self' = self /\ sound rd' (HTTP_LF :: s) /\ (waits rd' < waits rd)%nat
  | _ => False
  end.
Proof.
  intros Hs. unfold poll_end_n, with_fill_buf. pose proof (sound_fill_buf rd _ Hs) as Hp.
  destruct (poll_fill_buf rd) as [[[d|e|]|] rd']; [|done..|by destruct Hp].
  destruct Hp as (s' & Heq & Hnil & Hw & Hc). destruct d as [|b d]; [by specialize (Hnil eq_refl)|].
  injection Heq as <- ->. rewrite bool_decide_eq_true_2 by done.
  destruct (Hc 1 ltac:(len_lia)) as [? ?]. by split_and!.
Qed.

(** After the line end, or in the middle of it. *)
Lemma poll_end_r_spec self rd eol s :
  line_end eol -> sound rd (eol ++ s) ->
  match poll_end_r self rd with
  | (Ready (Ok _), self', rd') =>
      (waits rd' <= waits rd)%nat /\
      (self' = cdi_set_ends self (cdi_poll_chunk_end_r self) (cdi_poll_chunk_end_n self) true /\ sound rd' s \/
       self' = cdi_set_ends self (cdi_poll_chunk_end_r self) true (cdi_poll_chunk_end self) /\
         sound rd' (HTTP_LF :: s))
  | (Pending, self', rd') => self' = self /\ sound rd' (eol ++ s) /\ (waits rd' < waits rd)%nat
  | _ => False
  end.
Proof.
  intros He Hs. unfold poll_end_r, with_fill_buf. pose proof (sound_fill_buf rd _ Hs) as Hp.
  destruct (poll_fill_buf rd) as [[[d|e|]|] rd']; [|done..|by destruct Hp].
  destruct Hp as (s' & Heq & Hnil & Hw & Hc). destruct d as [|b [|c d]].
  - specialize (Hnil eq_refl). by destruct He.
  - destruct (Hc 1 ltac:(len_lia)) as [Hs1 ?]. destruct He; injection Heq as <- <-.
    + rewrite bool_decide_eq_true_2 by done. split; [done|]. by right.
    + rewrite bool_decide_eq_false_2, bool_decide_eq_true_2 by done. split; [done|]. by left.
  - destruct He.
    + injection Heq as <- <- ->. destruct (Hc 2 ltac:(len_lia)) as [Hs1 ?].
      rewrite bool_decide_eq_true_2, bool_decide_eq_false_2 by (done || by intros []). split; [done|]. by left.
    + injection Heq as <- ->. destruct (Hc 1 ltac:(len_lia)) as [Hs1 ?].
      rewrite bool_decide_eq_false_2, bool_decide_eq_true_2 by done. split; [done|]. by left.
Qed.

Lemma cdi_set_header_id self : cdi_set_header self (cdi_chunk_header self) = self.
Proof. by destruct self. Qed.

Lemma read_chunk_line_spec fuel self rd pre s :
  cdi_body_line_max_size self = M -> (HTTP_LF ∉ pre) -> sound rd (pre ++ HTTP_LF :: s) ->
  len (cdi_chunk_header self) + len pre + 1 <= M -> len pre + 1 < Z.of_nat fuel ->
  match read_chunk_line fuel self rd with
  | (Ready (Ok _), self', rd') =>
      self' = cdi_set_header self (cdi_chunk_header self ++ pre ++ [HTTP_LF]) /\ sound rd' s /\
      (waits rd' <= waits rd)%nat
  | (Pending, self', rd') =>
      exists p1 p2, pre = p1 ++ p2 /\ self' = cdi_set_header self (cdi_chunk_header self ++ p1) /\
        sound rd' (p2 ++ HTTP_LF :: s) /\ (waits rd' < waits rd)%nat
  | _ => False
  end.
Proof.
  revert self rd pre. induction fuel as [|fuel IH]; intros self rd pre HM Hpre Hs Hlen Hf; [len_lia|].
  cbn [read_chunk_line]. unfold with_fill_buf. pose proof (sound_fill_buf rd _ Hs) as Hp.
  destruct (poll_fill_buf rd) as [[[d|e|]|] rd']; [|done..|].
  2: { destruct Hp as [? ?]. exists [], pre. rewrite app_nil_r, cdi_set_header_id. by split_and!. }
  destruct Hp as (s' & Heq & Hnil & Hw & Hc).
  destruct (Z.eqb_spec (len d) 0) as [->%len_0|Hd]; [by destruct pre; specialize (Hnil eq_refl)|].
  pose proof (memchr_part HTTP_LF pre s d s' Hpre Heq) as Hm. destruct (memchr HTTP_LF d) as [p|].
  - destruct Hm as (-> & post & -> & ->). rewrite HM.
    destruct (Z.ltb_spec M (len (cdi_chunk_header self) + (len pre + 1))); [lia|].
    destruct (Hc (len pre + 1) ltac:(len_lia)) as [Hs1 ?].
    replace (Z.to_nat (len pre + 1)) with (length (pre ++ [HTTP_LF])) in * by (rewrite length_app; cbn; unfold len; lia).
    assert (pre ++ HTTP_LF :: post = (pre ++ [HTTP_LF]) ++ post) as Hx by (by rewrite <- app_assoc).
    rewrite Hx, drop_app_length in Hs1. rewrite Hx, take_app_length. by split_and!.
  - destruct Hm as (k & -> & ->).
    rewrite HM. destruct (Z.ltb_spec M (len (cdi_chunk_header self) + len d)); [len_lia|].
    destruct (Hc (len d) ltac:(len_lia)) as [Hs1 Hw1]. rewrite drop_ge in Hs1 by (unfold len; lia).
    apply not_elem_of_app in Hpre as [_ Hk].
    specialize (IH (cdi_set_header self (cdi_chunk_header self ++ d)) (consume rd' (len d)) k HM Hk Hs1).
    cbn [cdi_set_header cdi_chunk_header] in IH. specialize (IH ltac:(len_lia) ltac:(len_lia)).
    destruct (read_chunk_line fuel _ _) as [[[[u|e|]|] self'] rd'']; [|done..|].
    + destruct IH as (-> & ? & ?). rewrite <- !app_assoc. split_and!; [done..|lia].
    + destruct IH as (p1 & p2 & -> & -> & ? & ?). exists (d ++ p1), p2. rewrite <- !app_assoc.
      split_and!; [done..|lia].
Qed.

(** The line in front of what a decoder in the middle of a line will read. *)
Lemma dechunk_line self s data rest :
  (HTTP_LF ∉ cdi_chunk_header self) -> dechunk_in X M (cdi_chunk_header self ++ s) data rest ->
  exists pre s' n ext, s = pre ++ HTTP_LF :: s' /\ (HTTP_LF ∉ pre) /\
    len (cdi_chunk_header self) + len pre + 1 <= M /\
    HttpChunkedLine_parse (cdi_chunk_header self ++ pre ++ [HTTP_LF]) =
      Ok {| hcl_chunk_size := n; hcl_extension := ext |} /\
    (n = 0 /\ data = [] /\ s' = rest \/
     exists chunk eol s'' data', n = len chunk /\ chunk <> [] /\ cs_end X eol /\
       s' = chunk ++ eol ++ s'' /\ data = chunk ++ data' /\ dechunk_in X M s'' data' rest).
Proof.
  intros Hh Hd.
  assert (exists line n tail, cs_line X M line n /\ cdi_chunk_header self ++ s = line ++ tail /\
    (n = 0 /\ data = [] /\ tail = rest \/
     exists chunk eol s'' data', n = len chunk /\ chunk <> [] /\ cs_end X eol /\
       tail = chunk ++ eol ++ s'' /\ data = chunk ++ data' /\ dechunk_in X M s'' data' rest))
    as (line & n & tail & (pre & ext & -> & Hpre & Hlen & Hparse)%cs_line_ok & Heq & Htail).
  { inversion Hd as [line rest' Hl Heq|line chunk eol s'' data' rest' Hl Hne He Hd' Heq]; subst.
    - exists line, 0, rest. split_and!; auto.
    - exists line, (len chunk), (chunk ++ eol ++ s''). split_and!; auto. right.
      by exists chunk, eol, s'', data'. }
  rewrite <- app_assoc in Heq. cbn [app] in Heq.
  apply app_eq_inv in Heq as [(k & Hk & Hs)|(k & -> & Hk)].
  - destruct k as [|b k].
    + rewrite app_nil_r in Hk. exists [], tail, n, ext. rewrite Hk. cbn [app].
      split_and!; [by rewrite Hs|apply not_elem_of_nil|len_lia|done|done].
    + injection Hs as <- _. exfalso. apply Hh. rewrite Hk. apply elem_of_app. right. left.
  - apply not_elem_of_app in Hpre as [_ Hpre]. exists k, tail, n, ext.
    rewrite <- app_assoc in Hparse. split_and!; [done|done|len_lia|done|done].
Qed.

Definition decoding self rd (data rest : bytes) : Prop :=
  exists s, decodes X M self s data rest /\ sound rd s /\ cdi_body_line_max_size self = M.

(** The rounds before the next one that reads data. *)
Definition rank self : Z :=
  if cdi_poll_chunk_end self then if cdi_this_chunk_size self =? 0 then 0 else 2
  else if cdi_poll_chunk_end_n self then 3
  else if cdi_poll_chunk_end_r self then 4
  else if 0 <? cdi_left_chunk_size self then 0 else 1.

Lemma rank_range self : 0 <= rank self <= 4.
Proof. unfold rank. repeat case_match; lia. Qed.

Definition decode_result (room : Z) (filled data rest : bytes) rd
    (r : poll (res io_error unit) * bytes * ChunkedDataDecodeReaderInternal * R) : Prop :=
  match r with
  | (Ready (Ok _), filled', self', rd') =>
      exists new data', data = new ++ data' /\ filled' = filled ++ new /\ len filled' <= room /\
        decoding self' rd' data' rest /\ (waits rd' <= waits rd)%nat /\
        (len filled' = room \/ data' = [] /\ cdi_finished self' = true)
  | (Pending, filled', self', rd') =>
      exists new data', data = new ++ data' /\ filled' = filled ++ new /\ len filled' <= room /\
        decoding self' rd' data' rest /\ (waits rd' < waits rd)%nat
  | _ => False
  end.

Lemma decode_result_step room filled data rest rd rd' r :
  (waits rd' <= waits rd)%nat -> decode_result room filled data rest rd' r -> decode_result room filled data rest rd r.
Proof.
  intros Hw. destruct r as [[[[[u|e|]|] f] self'] rd'']; cbn; [|done..|].
  - intros (new & data' & ? & ? & ? & ? & ? & ?). exists new, data'. split_and!; try done. lia.
  - intros (new & data' & ? & ? & ? & ? & ?). exists new, data'. split_and!; try done. lia.
Qed.

Lemma decode_result_data room filled c data rest rd r :
  decode_result room (filled ++ c) data rest rd r -> decode_result room filled (c ++ data) rest rd r.
Proof.
  destruct r as [[[[[u|e|]|] f] self'] rd'']; cbn; [|done..|].
  - intros (new & data' & -> & -> & ? & ? & ? & ?). exists (c ++ new), data'. rewrite <- !app_assoc in *. by split_and!.
  - intros (new & data' & -> & -> & ? & ? & ?). exists (c ++ new), data'. rewrite <- !app_assoc in *. by split_and!.
Qed.

(** A wait, with nothing decoded since. *)
Lemma decode_result_wait room filled data rest rd self' rd' s :
  len filled <= room -> decodes X M self' s data rest -> sound rd' s -> cdi_body_line_max_size self' = M ->
  (waits rd' < waits rd)%nat -> decode_result room filled data rest rd (Pending, filled, self', rd').
Proof. intros. exists [], data. rewrite app_nil_r. split_and!; try done. by exists s. Qed.

(** What a round of the loop needs of the rounds after it. *)
Definition rounds_ok (fuel : nat) (room : Z) : Prop :=
  forall self rd filled data rest,
    decoding self rd data rest -> len filled <= room ->
    5 * (room - len filled) + rank self + 1 <= Z.of_nat fuel ->
    decode_result room filled data rest rd (poll_decode_loop fuel self rd room filled).

Section Round.
Context (fuel : nat) (room : Z) (IH : rounds_ok fuel room).
Context self rd (filled data rest : bytes) (Hroom : len filled <= room).
Context (Hf : 5 * (room - len filled) + rank self + 1 <= Z.of_nat (S fuel)).
Context (HM : cdi_body_line_max_size self = M).

Lemma round_line s :
  cdi_poll_chunk_end self = false -> cdi_poll_chunk_end_n self = false -> cdi_poll_chunk_end_r self = false ->
  cdi_left_chunk_size self = 0 -> (HTTP_LF ∉ cdi_chunk_header self) ->
  dechunk_in X M (cdi_chunk_header self ++ s) data rest -> sound rd s ->
  decode_result room filled data rest rd (poll_decode_loop (S fuel) self rd room filled).
Proof.
  intros He Hn Hr Hl Hh Hd Hs. destruct (dechunk_line self s data rest Hh Hd)
    as (pre & s' & n & ext & -> & Hpre & Hlen & Hparse & Htail).
  cbn [poll_decode_loop]. rewrite He, Hn, Hr, Hl. cbn [Z.ltb Z.compare].
  assert (rank self = 1) as Hrank by (unfold rank; by rewrite He, Hn, Hr, Hl).
  pose proof (read_chunk_line_spec (read_chunk_line_fuel self) self rd pre s' HM Hpre Hs Hlen) as Hrl.
  specialize (Hrl ltac:(unfold read_chunk_line_fuel; len_lia)).
  destruct (read_chunk_line _ self rd) as [[[[u|e|]|] self'] rd']; [|done..|].
  2: { destruct Hrl as (p1 & p2 & -> & -> & Hs' & Hw). eapply decode_result_wait; try done.
       apply decodes_line; cbn [cdi_set_header cdi_poll_chunk_end cdi_poll_chunk_end_n cdi_poll_chunk_end_r
         cdi_left_chunk_size cdi_chunk_header]; try done.
       - apply not_elem_of_app. split; [done|]. by apply not_elem_of_app in Hpre as [? _].
       - by rewrite <- !app_assoc in *. }
  destruct Hrl as (-> & Hs' & Hw). cbn [cdi_set_header cdi_chunk_header]. rewrite Hparse. cbn [hcl_chunk_size].
  destruct Htail as [(-> & -> & ->)|(chunk & eol & s'' & data' & -> & Hne & Heol & -> & -> & Hd')].
  - cbn [Z.eqb]. exists [], []. rewrite !app_nil_r. split_and!; try done; [|by right].
    exists rest. split_and!; [by apply decodes_done|done|done].
  - assert (0 < len chunk) by (destruct chunk; [done|len_lia]).
    destruct (Z.eqb_spec (len chunk) 0); [lia|].
    apply decode_result_step with rd'; [done|]. apply IH; [|done|].
    + eexists. split_and!; [apply decodes_data|exact Hs'|exact HM]; cbn; try done.
    + unfold rank. cbn. rewrite He, Hn, Hr. destruct (Z.ltb_spec 0 (len chunk)); lia.
Qed.

Lemma round_data chunk eol s data' :
  cdi_poll_chunk_end self = false -> cdi_poll_chunk_end_n self = false -> cdi_poll_chunk_end_r self = false ->
  cdi_chunk_header self = [] -> cdi_left_chunk_size self = len chunk -> chunk <> [] -> cdi_this_chunk_size self <> 0 ->
  cs_end X eol -> dechunk_in X M s data' rest -> data = chunk ++ data' -> sound rd (chunk ++ eol ++ s) ->
  decode_result room filled data rest rd (poll_decode_loop (S fuel) self rd room filled).
Proof.
  intros He Hn Hr Hh Hl Hne Ht Heol Hd -> Hs. cbn [poll_decode_loop]. rewrite He, Hn, Hr, Hl.
  assert (0 < len chunk) as Hpos by (destruct chunk; [done|len_lia]).
  destruct (Z.ltb_spec 0 (len chunk)); [|lia].
  destruct (Z.eqb_spec (room - len filled) 0) as [Hz|Hz].
  { exists [], (chunk ++ data'). rewrite app_nil_r. split_and!; try done; [|left; lia].
    eexists. split_and!; [by apply decodes_data|done|done]. }
  destruct Hs as [Hsrc Hnf].
  pose proof (source_poll_read rd _ (Z.min (len chunk) (room - len filled)) Hsrc ltac:(lia)) as Hp.
  destruct (ar_poll_read rd _) as [[[c|e|]|] rd']; [|tauto|done|].
  2: { destruct Hp as (Hs' & Hf' & Hw). eapply decode_result_wait; try done; [by apply decodes_data|]. split; tauto. }
  destruct Hp as (s' & Heq & Hc & Hs' & Hf' & Hnil & Hw).
  assert (exists chunk', chunk = c ++ chunk' /\ s' = chunk' ++ eol ++ s) as (chunk' & -> & ->).
  { apply app_eq_inv in Heq as [(k & -> & ->)|(k & Hk & Hs2)]; [by exists k|].
    assert (k = []) as -> by (apply len_0; apply (f_equal len) in Hk; len_lia).
    exists []. rewrite app_nil_r in *. split; [done|]. cbn in Hs2 |- *. done. }
  assert (0 < len c) as Hcpos.
  { destruct c; [|len_lia]. destruct (Hnil eq_refl) as [?|[Hx _]]; [tauto|]. by destruct chunk'. }
  destruct (Z.eqb_spec (len c) 0); [lia|]. rewrite usub_ok by len_lia.
  replace (len (c ++ chunk') - len c) with (len chunk') by len_lia.
  apply decode_result_step with rd'; [done|]. rewrite <- app_assoc. apply decode_result_data.
  set (self' := if len chunk' =? 0 then _ else _).
  assert (decoding self' rd' (chunk' ++ data') rest) as Hdec.
  { unfold self'. exists (chunk' ++ eol ++ s). destruct (Z.eqb_spec (len chunk') 0) as [->%len_0|Hz0].
    - split_and!; [|split; tauto|done]. cbn [app]. by apply decodes_end_r.
    - split_and!; [|split; tauto|done]. apply decodes_data; try done. by intros ->. }
  apply IH; [done|len_lia|]. pose proof (rank_range self'). pose proof (rank_range self). len_lia.
Qed.

Lemma round_end_n s :
  cdi_poll_chunk_end self = false -> cdi_poll_chunk_end_n self = true ->
  cdi_chunk_header self = [] -> cdi_left_chunk_size self = 0 -> cdi_this_chunk_size self <> 0 ->
  dechunk_in X M s data rest -> sound rd (HTTP_LF :: s) ->
  decode_result room filled data rest rd (poll_decode_loop (S fuel) self rd room filled).
Proof.
  intros He Hn Hh Hl Ht Hd Hs. cbn [poll_decode_loop]. rewrite He, Hn.
  assert (rank self = 3) as Hrank by (unfold rank; by rewrite He, Hn).
  pose proof (poll_end_n_spec self rd s Hs) as Hp.
  destruct (poll_end_n self rd) as [[[[u|e|]|] self'] rd']; [|done..|].
  - destruct Hp as (-> & Hs' & Hw). apply decode_result_step with rd'; [done|]. apply IH; [|done|].
    + exists s. split_and!; [by apply decodes_end|done|done].
    + unfold rank. cbn. destruct (Z.eqb_spec (cdi_this_chunk_size self) 0); lia.
  - destruct Hp as (-> & Hs' & Hw). eapply decode_result_wait; try done. by apply decodes_end_n.
Qed.

Lemma round_end_r eol s :
  cdi_poll_chunk_end self = false -> cdi_poll_chunk_end_n self = false -> cdi_poll_chunk_end_r self = true ->
  cdi_chunk_header self = [] -> cdi_left_chunk_size self = 0 -> cdi_this_chunk_size self <> 0 ->
  cs_end X eol -> dechunk_in X M s data rest -> sound rd (eol ++ s) ->
  decode_result room filled data rest rd (poll_decode_loop (S fuel) self rd room filled).
Proof.
  intros He Hn Hr Hh Hl Ht Heol Hd Hs. cbn [poll_decode_loop]. rewrite He, Hn, Hr.
  assert (rank self = 4) as Hrank by (unfold rank; by rewrite He, Hn, Hr).
  pose proof (poll_end_r_spec self rd eol s (cs_end_ok _ _ Heol) Hs) as Hp.
  destruct (poll_end_r self rd) as [[[[u|e|]|] self'] rd']; [|done..|].
  - destruct Hp as (Hw & Hp). apply decode_result_step with rd'; [done|].
    destruct Hp as [[-> Hs']|[-> Hs']]; apply IH; try done.
    + exists s. split_and!; [by apply decodes_end|done|done].
    + unfold rank. cbn. destruct (Z.eqb_spec (cdi_this_chunk_size self) 0); lia.
    + exists (HTTP_LF :: s). split_and!; [by apply decodes_end_n|done|done].
    + unfold rank. cbn. rewrite He. lia.
  - destruct Hp as (-> & Hs' & Hw). eapply decode_result_wait; try done. by apply decodes_end_r.
Qed.

Lemma round_end s :
  cdi_poll_chunk_end self = true ->
  cdi_chunk_header self = [] -> cdi_left_chunk_size self = 0 -> cdi_this_chunk_size self <> 0 ->
  dechunk_in X M s data rest -> sound rd s ->
  decode_result room filled data rest rd (poll_decode_loop (S fuel) self rd room filled).
Proof.
  intros He Hh Hl Ht Hd Hs. cbn [poll_decode_loop]. rewrite He.
  unfold rank in Hf. rewrite He in Hf. destruct (Z.eqb_spec (cdi_this_chunk_size self) 0); [done|].
  apply IH; [|done|].
  - exists s. split_and!; [|done..]. apply decodes_line; cbn; try done; rewrite Hh; [apply not_elem_of_nil|done].
  - unfold rank. cbn. rewrite Hl. cbn. lia.
Qed.

End Round.

Lemma poll_decode_loop_spec fuel room : rounds_ok fuel room.
Proof.
  induction fuel as [|fuel IH]; intros self rd filled data rest (s & Hd & Hs & HM) Hroom Hf.
  { pose proof (rank_range self). lia. }
  destruct Hd as [self s data rest ? ? ? ? ? ?|self chunk eol s data rest ? ? ? ? ? ? ? ? ?
    |self eol s data rest ? ? ? ? ? ? ? ?|self s data rest ? ? ? ? ? ?|self s data rest ? ? ? ? ?|self rest He Ht].
  - by apply round_line with s.
  - by apply round_data with chunk eol s data.
  - by apply round_end_r with eol s.
  - by apply round_end_n with s.
  - by apply round_end with s.
  - cbn [poll_decode_loop]. rewrite He, Ht. cbn [Z.eqb]. exists [], []. rewrite !app_nil_r.
    split_and!; try done.
    + exists rest. split_and!; [by apply decodes_done|done|done].
    + right. split; [done|]. unfold cdi_finished. by rewrite He, Ht.
Qed.

(** The rounds of [poll_finish_chunk_end]. *)
Definition end_rank self : nat :=
  if cdi_poll_chunk_end self then 1 else if cdi_poll_chunk_end_n self then 2
  else if cdi_poll_chunk_end_r self then 3 else 1.

Definition finish_result self (data rest : bytes) rd
    (r : poll (res io_error unit) * ChunkedDataDecodeReaderInternal * R) : Prop :=
  match r with
  | (Ready (Ok _), self', rd') =>
      decoding self' rd' data rest /\ cdi_chunk_header self' = cdi_chunk_header self /\ (waits rd' <= waits rd)%nat /\
      (cdi_finished self = false ->
       cdi_finished self' = false /\ cdi_poll_chunk_end_r self' = false /\ cdi_poll_chunk_end_n self' = false)
  | (Pending, self', rd') =>
      decoding self' rd' data rest /\ cdi_chunk_header self' = cdi_chunk_header self /\ (waits rd' < waits rd)%nat /\
      (cdi_finished self = false -> cdi_finished self' = false)
  | (Ready _, _, _) => False
  end.

Lemma finish_result_step self self' data rest rd rd' r :
  (waits rd' <= waits rd)%nat -> cdi_chunk_header self' = cdi_chunk_header self ->
  (cdi_finished self = false -> cdi_finished self' = false) ->
  finish_result self' data rest rd' r -> finish_result self data rest rd r.
Proof.
  intros Hw Hh Hf. unfold finish_result. rewrite Hh.
  destruct r as [[[[u|e|]|] self''] rd'']; [|done..|]; intros; destruct_and!; split_and!; auto; lia.
Qed.

Lemma poll_finish_chunk_end_loop_spec fuel self rd data rest :
  decoding self rd data rest -> (end_rank self <= fuel)%nat ->
  finish_result self data rest rd (poll_finish_chunk_end_loop fuel self rd).
Proof.
  revert self rd. induction fuel as [|fuel IH]; intros self rd (s & Hd & Hs & HM) Hf.
  { unfold end_rank in Hf. repeat case_match; lia. }
  assert (forall self' rd', (waits rd' <= waits rd)%nat -> cdi_chunk_header self' = cdi_chunk_header self ->
    cdi_this_chunk_size self' <> 0 -> decoding self' rd' data rest -> (end_rank self' <= fuel)%nat ->
    finish_result self data rest rd (poll_finish_chunk_end_loop fuel self' rd')) as Hgo.
  { intros self' rd' Hw Hh Ht Hd' Hf'. apply finish_result_step with self' rd'; [done|done| |by apply IH].
    intros _. unfold cdi_finished. apply andb_false_iff. right. by apply Z.eqb_neq. }
  clear IH. cbn [poll_finish_chunk_end_loop]. unfold end_rank in Hf.
  destruct Hd as [self s data rest He Hn Hr ? ? ?|self chunk eol s data rest He Hn Hr ? ? ? ? ? ?
    |self eol s data rest He Hn Hr ? ? ? Heol ?|self s data rest He Hn ? ? ? ?|self s data rest He Hh ? Ht ?|self rest He Ht];
    rewrite He in *; rewrite ?Hn, ?Hr in *.
  - split_and!; try done. exists s. split_and!; try done. by apply decodes_line.
  - split_and!; try done. eexists. split_and!; [|exact Hs|done]. by apply decodes_data.
  - pose proof (poll_end_r_spec self rd eol s (cs_end_ok _ _ Heol) Hs) as Hp.
    destruct (poll_end_r self rd) as [[[[u|e|]|] self'] rd']; [|done..|].
    + destruct Hp as (Hw & [[-> Hs']|[-> Hs']]); apply Hgo; try done.
      * exists s. split_and!; [by apply decodes_end|done|done].
      * cbn. lia.
      * exists (HTTP_LF :: s). split_and!; [by apply decodes_end_n|done|done].
      * unfold end_rank. cbn. rewrite He. lia.
    + destruct Hp as (-> & Hs' & Hw). split_and!; try done. exists (eol ++ s). split_and!; [by apply decodes_end_r|done|done].
  - pose proof (poll_end_n_spec self rd s Hs) as Hp.
    destruct (poll_end_n self rd) as [[[[u|e|]|] self'] rd']; [|done..|].
    + destruct Hp as (-> & Hs' & Hw). apply Hgo; try done; [|cbn; lia].
      exists s. split_and!; [by apply decodes_end|done|done].
    + destruct Hp as (-> & Hs' & Hw). split_and!; try done. exists (HTTP_LF :: s).
      split_and!; [by apply decodes_end_n|done|done].
  - destruct (Z.eqb_spec (cdi_this_chunk_size self) 0); [done|]. split_and!; try done. exists s.
    split_and!; [|done|done]. apply decodes_line; cbn; rewrite ?Hh; try done. apply not_elem_of_nil.
  - rewrite Ht. cbn [Z.eqb]. split_and!; try done; [|unfold cdi_finished; by rewrite He, Ht].
    exists rest. split_and!; [by apply decodes_done|done|done].
Qed.

(** What is left in the stream when the decoder is between two chunks or inside
    one. *)
Lemma decoding_left self rd data rest k :
  decoding self rd data rest -> cdi_chunk_header self = [] -> cdi_left self = Some k -> cdi_finished self = false ->
  k = 0 /\ (exists s, sound rd s /\ dechunk_in X M s data rest) \/
  exists chunk eol s data', k = len chunk /\ chunk <> [] /\ cs_end X eol /\ sound rd (chunk ++ eol ++ s) /\
    data = chunk ++ data' /\ dechunk_in X M s data' rest.
Proof.
  intros (s & Hd & Hs & HM) Hh Hk Hfin. unfold cdi_left in Hk. unfold cdi_finished in Hfin.
  destruct Hd as [self s data rest He Hn Hr Hl ? Hd|self chunk eol s data rest He Hn Hr ? Hl ? ? ? ?
    |self eol s data rest He Hn Hr ? ? ? Heol ?|self s data rest He Hn ? ? ? ?|self s data rest He ? Hl Ht ?|self rest He Ht].
  - left. rewrite Hn, Hr, Hl in Hk. injection Hk as <-. split; [done|]. exists s. by rewrite Hh in Hd.
  - right. rewrite Hn, Hr, Hl in Hk. injection Hk as <-. by exists chunk, eol, s, data.
  - by rewrite Hr in Hk.
  - rewrite Hn, orb_true_r in Hk. done.
  - left. case_match; [done|]. injection Hk as <-. split; [done|]. by exists s.
  - by rewrite He, Ht in Hfin.
Qed.

End Spec.

(** ** The decoder as a reader *)

Section DecoderLaws.
Context {R : Type} `{AsyncBufReadLaws R} `{Radix16} (X : chunk_syntax) (M : Z) (rest : bytes).
Implicit Types d : ChunkedDataDecodeReader R.

(** [data] is still to be delivered, and then [rest] follows in the stream. *)
Definition cdd_source d (data : bytes) : Prop :=
  decoding X M (cdd_internal d) (cdd_reader d) data rest.

Definition cdd_at_end d : Prop := ChunkedDataDecodeReader_finished d = true /\ sound (cdd_reader d) rest.

Lemma finished_sound self (rd : R) data :
  decoding X M self rd data rest -> cdi_finished self = true -> sound rd rest.
Proof.
  unfold cdi_finished. intros (s & Hd & Hs & _) [He Ht%Z.eqb_eq]%andb_true_iff. destruct Hd; congruence.
Qed.

Lemma cdd_poll_read_laws d data room :
  cdd_source d data -> 0 < room ->
  match ChunkedDataDecodeReader_poll_read d room with
  | (Ready (Ok c), d') =>
      exists data', data = c ++ data' /\ len c <= room /\ cdd_source d' data' /\ (False -> False) /\
        (c = [] -> False \/ data = [] /\ cdd_at_end d') /\ (waits (cdd_reader d') <= waits (cdd_reader d))%nat
  | (Ready (Err _), d') => cdd_source d' data /\ False
  | (Pending, d') => cdd_source d' data /\ (False -> False) /\ (waits (cdd_reader d') < waits (cdd_reader d))%nat
  | (Ready Panic, _) => False
  end.
Proof.
  destruct d as [rd self]. unfold cdd_source, ChunkedDataDecodeReader_poll_read, poll_decode.
  cbn [cdd_internal cdd_reader]. intros Hd Hroom. pose proof (rank_range self).
  pose proof (poll_decode_loop_spec X _ (5 * S (Z.to_nat room) + 5) room self rd [] data rest Hd
    ltac:(len_lia) ltac:(len_lia)) as Hp.
  destruct (poll_decode_loop _ self rd room []) as [[[[[u|e|]|] f] self'] rd']; [|done..|].
  - destruct Hp as (new & data' & -> & -> & Hlen & Hd' & Hw & Hend). cbn [app] in *.
    exists data'. cbn [cdd_internal cdd_reader].
    split_and!; try done. intros ->. right. destruct Hend as [Hx|[-> Hfin]]; [cbn in Hx; len_lia|].
    split; [done|]. split; [done|]. by eapply finished_sound.
  - destruct Hp as (new & data' & -> & -> & Hlen & Hd' & Hw). cbn [app] in *.
    destruct (Z.ltb_spec 0 (len new)).
    + exists data'. cbn [cdd_internal cdd_reader]. split_and!; try done; [|lia]. intros ->. len_lia.
    + rewrite (len_0 new) by (pose proof (len_nonneg new); lia). done.
Qed.

Definition ChunkedDataDecodeReader_laws : AsyncReadLaws (ChunkedDataDecodeReader R) := {|
  source := cdd_source;
  faulty _ := False;
  at_end := cdd_at_end;
  waits d := waits (cdd_reader d);
  source_poll_read := cdd_poll_read_laws
|}.

Lemma cdd_source_new rd s data :
  sound rd s -> dechunk_in X M s data rest -> cdd_source (ChunkedDataDecodeReader_new rd M) data.
Proof.
  intros Hs Hd. exists s. split_and!; [|done|done]. apply decodes_line; cbn; try done. apply not_elem_of_nil.
Qed.

Lemma cdd_source_resume rd chunk eol s data :
  sound rd (chunk ++ eol ++ s) -> chunk <> [] -> cs_end X eol -> dechunk_in X M s data rest ->
  cdd_source (ChunkedDataDecodeReader_resume rd M (len chunk)) (chunk ++ data).
Proof.
  intros Hs Hne He Hd. eexists. split_and!; [|exact Hs|done]. apply decodes_data; cbn; try done.
  destruct chunk; [done|]. len_lia.
Qed.

End DecoderLaws.

(** C30: the decoder delivers exactly the data of the chunks: if the stream
    holds a chunked body (size lines of at most [M] bytes, line ends CRLF or
    LF) followed by [rest], then however the stream is cut into reads and
    whatever room the caller offers, reading to the end returns the data
    without an error, the decoder is finished, and [rest] is left in the
    stream; and a decoder resumed in the middle of a chunk delivers what is
    left of the chunk and of the body. *)
Theorem chunked_decoder_delivers {R} `{AsyncBufReadLaws R} `{Radix16} (rd rd' : R) (M : Z)
    (s data chunk eol rest : bytes) (rooms : nat -> Z) :
  source rd s -> ~ faulty rd -> dechunk M s data rest -> (forall i, 0 < rooms i) ->
  source rd' (chunk ++ eol ++ s) -> ~ faulty rd' -> chunk <> [] -> line_end eol ->
  (exists d, read_to_end (S (waits rd + length data)) rooms (ChunkedDataDecodeReader_new rd M) = (Ok data, d) /\
     ChunkedDataDecodeReader_finished d = true /\ source (cdd_reader d) rest) /\
  (exists d, read_to_end (S (waits rd' + length (chunk ++ data))) rooms
       (ChunkedDataDecodeReader_resume rd' M (len chunk)) = (Ok (chunk ++ data), d) /\
     ChunkedDataDecodeReader_finished d = true /\ source (cdd_reader d) rest).
Proof.
  intros Hs Hf Hd Hr Hs' Hf' Hne He. pose (L := ChunkedDataDecodeReader_laws lenient M rest : AsyncReadLaws (ChunkedDataDecodeReader R)).
  split.
  - destruct (read_to_end_spec (H0 := L) (S (waits rd + length data)) rooms (ChunkedDataDecodeReader_new rd M) data)
      as (d & -> & _ & [? [? _]] & _); try done; [|by intros []|cbn; lia|by exists d].
    by apply cdd_source_new with s.
  - destruct (read_to_end_spec (H0 := L) (S (waits rd' + length (chunk ++ data))) rooms
      (ChunkedDataDecodeReader_resume rd' M (len chunk)) (chunk ++ data))
      as (d & -> & _ & [? [? _]] & _); try done; [|by intros []|cbn; lia|by exists d].
    by apply cdd_source_resume with eol s.
Qed.

Lemma chunked_decoder_delivers_witness :
  let RX := radix16_reference in
  let wire := bs "3" ++ [x0d; x0a] ++ bs "abc" ++ [x0d; x0a] ++ bs "0" ++ [x0a] ++ bs "T" in
  let rd : reader := [Data (take 4 wire); Pend; Data (drop 4 wire)] in
  let rd' : reader := [Data (bs "xy" ++ [x0a]); Pend; Data wire] in
  (exists d, read_to_end (S (waits rd + length (bs "abc"))) (fun _ => 2) (ChunkedDataDecodeReader_new rd 64) =
       (Ok (bs "abc"), d) /\
     ChunkedDataDecodeReader_finished d = true /\ source (cdd_reader d) (bs "T")) /\
  (exists d, read_to_end (S (waits rd' + length (bs "xy" ++ bs "abc"))) (fun _ => 2)
       (ChunkedDataDecodeReader_resume rd' 64 (len (bs "xy"))) = (Ok (bs "xy" ++ bs "abc"), d) /\
     ChunkedDataDecodeReader_finished d = true /\ source (cdd_reader d) (bs "T")).
Proof.
  intros RX wire rd rd'. apply (@chunked_decoder_delivers reader reader_AsyncBufRead reader_AsyncBufReadLaws RX
    rd rd' 64 wire (bs "abc") (bs "xy") [x0a] (bs "T") (fun _ => 2)).
  - reflexivity.
  - intros Hf. apply Hf. repeat constructor; discriminate.
  - apply (dechunk_chunk lenient 64 (bs "3" ++ [x0d; x0a]) (bs "abc") [x0d; x0a] (bs "0" ++ [x0a] ++ bs "T") [] (bs "T")).
    + exists (bs "3" ++ [x0d]), None. split; [reflexivity|]. split; [|split; [apply Z.leb_le|]; reflexivity].
      apply memchr_None. reflexivity.
    + discriminate.
    + constructor.
    + apply (dechunk_last lenient 64 (bs "0" ++ [x0a]) (bs "T")). exists (bs "0"), None. split; [reflexivity|].
      split; [|split; [apply Z.leb_le|]; reflexivity]. apply memchr_None. reflexivity.
  - intros i. reflexivity.
  - reflexivity.
  - intros Hf. apply Hf. repeat constructor; discriminate.
  - discriminate.
  - constructor.
Defined.

(** ** Arbitrary input *)

Section Safety.
Context {R : Type} `{AsyncBufReadLaws R} `{Radix16Laws} (M : Z).
Implicit Types (self : ChunkedDataDecodeReaderInternal) (rd : R).

(** The states of a decoder, whatever it has read. *)
Definition cdi_ok self : Prop :=
  len (cdi_chunk_header self) <= cdi_body_line_max_size self /\ 0 <= cdi_left_chunk_size self /\
  cdi_body_line_max_size self = M.

Definition live rd : Prop := exists s, source rd s.

(** A step that returns, in a state of the decoder. *)
Definition safe_step {A} (r : poll (res io_error A) * ChunkedDataDecodeReaderInternal * R)
    (Q : ChunkedDataDecodeReaderInternal -> Prop) : Prop :=
  match r with
  | (Ready Panic, _, _) => False
  | (Ready (Ok _), self', rd') => live rd' /\ cdi_ok self' /\ Q self'
  | (_, self', rd') => live rd' /\ cdi_ok self'
  end.

Lemma with_fill_buf_safe {A} self rd k (Q : ChunkedDataDecodeReaderInternal -> Prop) :
  live rd -> cdi_ok self ->
  (forall d rd', live rd' -> (forall n, 0 <= n <= len d -> live (consume rd' n)) -> safe_step (A := A) (k d rd') Q) ->
  safe_step (with_fill_buf self rd k) Q.
Proof.
  intros [s Hs] Hok Hk. unfold with_fill_buf. pose proof (source_fill_buf rd s Hs) as Hp.
  destruct (poll_fill_buf rd) as [[[d|e|]|] rd']; cbn.
  - destruct Hp as (Hs' & Hb & _). apply Hk; [by exists s|]. intros n Hn.
    destruct (buffered_consume rd' s d n Hs' Hb Hn) as (s' & _ & Hs'' & _). by exists s'.
  - split; [exists s; apply Hp|done].
  - done.
  - split; [exists s; apply Hp|done].
Qed.

Lemma poll_end_n_safe self rd :
  live rd -> cdi_ok self -> safe_step (poll_end_n self rd) (fun self' => cdi_poll_chunk_end self' = true).
Proof.
  intros Hr Hok. apply with_fill_buf_safe; [done..|]. intros [|b d] rd' Hr' Hc; [done|].
  case_bool_decide; [|done]. split_and!; [apply Hc; len_lia|done|done].
Qed.

Lemma poll_end_r_safe self rd :
  live rd -> cdi_ok self ->
  safe_step (poll_end_r self rd) (fun self' =>
    cdi_poll_chunk_end self' = true \/ cdi_poll_chunk_end self' = cdi_poll_chunk_end self /\ cdi_poll_chunk_end_n self' = true).
Proof.
  intros Hr Hok. apply with_fill_buf_safe; [done..|]. intros [|b [|c d]] rd' Hr' Hc; [done|..].
  - repeat case_bool_decide; try done; (split_and!; [apply Hc; len_lia|done|]); auto.
  - repeat case_bool_decide; try done; (split_and!; [apply Hc; len_lia|done|]); auto.
Qed.

Lemma read_chunk_line_safe fuel self rd :
  live rd -> cdi_ok self -> cdi_body_line_max_size self - len (cdi_chunk_header self) + 1 < Z.of_nat fuel ->
  safe_step (read_chunk_line fuel self rd) (fun self' =>
    cdi_poll_chunk_end self' = cdi_poll_chunk_end self /\ cdi_poll_chunk_end_n self' = cdi_poll_chunk_end_n self /\
    cdi_poll_chunk_end_r self' = cdi_poll_chunk_end_r self).
Proof.
  revert self rd. induction fuel as [|fuel IH]; intros self rd Hr (Hh & Hl & HM) Hf; [lia|]. cbn [read_chunk_line].
  apply with_fill_buf_safe; [done|done|]. intros d rd' Hr' Hc.
  destruct (Z.eqb_spec (len d) 0); [done|]. destruct (memchr HTTP_LF d) as [p|] eqn:Hm.
  - apply memchr_Some in Hm as (pre & post & -> & _ & ->).
    destruct (Z.ltb_spec (cdi_body_line_max_size self) (len (cdi_chunk_header self) + (len pre + 1))); [done|].
    split_and!; [apply Hc; len_lia| |done..]. split; [cbn; len_lia|done].
  - destruct (Z.ltb_spec (cdi_body_line_max_size self) (len (cdi_chunk_header self) + len d)); [done|].
    apply (IH (cdi_set_header self _) (consume rd' (len d)));
      [apply Hc; len_lia|split; [cbn; len_lia|done]|cbn; len_lia].
Qed.

Definition safe_decode (r : poll (res io_error unit) * bytes * ChunkedDataDecodeReaderInternal * R) (room : Z) : Prop :=
  match r with
  | (Ready Panic, _, _, _) => False
  | (_, filled', self', rd') => live rd' /\ cdi_ok self' /\ len filled' <= room
  end.

(** A step without data, followed by the rest of the loop. *)
Lemma safe_continue (r : poll (res io_error unit) * ChunkedDataDecodeReaderInternal * R) Q room filled
    (k : ChunkedDataDecodeReaderInternal -> R -> poll (res io_error unit) * bytes * ChunkedDataDecodeReaderInternal * R) :
  safe_step r Q -> len filled <= room ->
  (forall self' rd', live rd' -> cdi_ok self' -> Q self' -> safe_decode (k self' rd') room) ->
  safe_decode (match r with (Ready (Ok _), self, rd) => k self rd | (r, self, rd) => (r, filled, self, rd) end) room.
Proof.
  destruct r as [[[[u|e|]|] self'] rd']; cbn; intros Hr Hfl Hk; [|by destruct Hr|done|by destruct Hr].
  destruct Hr as (? & ? & ?). by apply Hk.
Qed.

Lemma poll_decode_safe fuel self rd room filled :
  live rd -> cdi_ok self -> len filled <= room -> 5 * (room - len filled) + rank self + 1 <= Z.of_nat fuel ->
  safe_decode (poll_decode_loop fuel self rd room filled) room.
Proof.
  revert self rd filled. induction fuel as [|fuel IH]; intros self rd filled Hr Hok Hfl Hf.
  { pose proof (rank_range self). lia. }
  cbn [poll_decode_loop]. unfold rank in Hf.
  destruct (cdi_poll_chunk_end self) eqn:He.
  { destruct (Z.eqb_spec (cdi_this_chunk_size self) 0); [done|]. apply IH; try done.
    unfold rank. cbn. destruct (0 <? cdi_left_chunk_size self); lia. }
  destruct (cdi_poll_chunk_end_n self) eqn:Hn.
  { eapply safe_continue; [by apply poll_end_n_safe|done|]. intros self' rd' ? ? He'. apply IH; try done.
    unfold rank. rewrite He'. destruct (cdi_this_chunk_size self' =? 0); lia. }
  destruct (cdi_poll_chunk_end_r self) eqn:Hre.
  { eapply safe_continue; [by apply poll_end_r_safe|done|]. intros self' rd' ? ? He'. apply IH; try done.
    unfold rank. destruct He' as [->|[He' Hn']]; [destruct (cdi_this_chunk_size self' =? 0); lia|].
    rewrite He', He, Hn'. lia. }
  destruct (Z.ltb_spec 0 (cdi_left_chunk_size self)) as [Hl|Hl].
  - destruct (Z.eqb_spec (room - len filled) 0) as [Hz|Hz]; [done|]. destruct Hr as [s Hs].
    pose proof (source_poll_read rd s (Z.min (cdi_left_chunk_size self) (room - len filled)) Hs ltac:(lia)) as Hp.
    destruct (ar_poll_read rd _) as [[[c|e|]|] rd']; [| |done|].
    + destruct Hp as (s' & _ & Hc & Hs' & _). destruct (Z.eqb_spec (len c) 0); [by split; [exists s'|]|].
      rewrite usub_ok by lia. apply IH; [by exists s'| |len_lia|].
      * destruct Hok as (? & ? & ?). destruct (_ =? 0); (split_and!; [done|cbn; lia|done]).
      * match goal with |- context [rank ?x] => pose proof (rank_range x) end. len_lia.
    + split_and!; [exists s; apply Hp|done|done].
    + split_and!; [exists s; apply Hp|done|done].
  - pose proof Hok as (Hh & Hl0 & _).
    pose proof (read_chunk_line_safe (read_chunk_line_fuel self) self rd Hr Hok ltac:(unfold read_chunk_line_fuel; lia)) as Hp.
    destruct (read_chunk_line _ self rd) as [[[[u|e|]|] self'] rd']; cbn in Hp; [|by destruct Hp|done|by destruct Hp].
    destruct Hp as (Hr' & Hok' & He' & Hn' & Hre').
    destruct (HttpChunkedLine_parse (cdi_chunk_header self')) as [line|e|] eqn:Hparse; [|done|].
    + pose proof (chunk_line_size_range _ _ Hparse) as Hsz. destruct Hok' as (Hh' & _ & HM').
      destruct (Z.eqb_spec (hcl_chunk_size line) 0) as [Hz|Hz].
      * split_and!; try done. split_and!; [done|cbn; lia|done].
      * apply IH; [done| |done|]; [split_and!; [cbn; len_lia|cbn; lia|done]|].
        unfold rank. cbn. rewrite He', Hn', Hre', He, Hn, Hre. destruct (Z.ltb_spec 0 (hcl_chunk_size line)); lia.
    + by apply HttpChunkedLine_parse_safe in Hparse.
Qed.

End Safety.

(** Whatever bytes arrive, in whatever pieces and with whatever faults of
    the transport, no read of a decoder panics, and the memory it holds for a
    chunk size line never exceeds the configured maximum. *)
Theorem chunked_decoder_never_panics {R} `{AsyncBufReadLaws R} `{Radix16Laws} (rd : R) (s : bytes) (M : Z)
    (rooms : list Z) (room : Z) :
  source rd s -> 0 <= M -> Forall (fun n => 0 <= n) rooms -> 0 <= room ->
  let d := fold_left (fun d n => snd (ChunkedDataDecodeReader_poll_read d n)) rooms (ChunkedDataDecodeReader_new rd M) in
  fst (ChunkedDataDecodeReader_poll_read d room) <> Ready Panic /\ len (cdi_chunk_header (cdd_internal d)) <= M.
Proof.
  intros Hs HM Hrooms Hroom.
  assert (forall (d : ChunkedDataDecodeReader R) n, live (cdd_reader d) -> cdi_ok M (cdd_internal d) -> 0 <= n ->
    let (r, d') := ChunkedDataDecodeReader_poll_read d n in
    r <> Ready Panic /\ live (cdd_reader d') /\ cdi_ok M (cdd_internal d')) as Hstep.
  { intros d n Hl Hok Hn. unfold ChunkedDataDecodeReader_poll_read, poll_decode. pose proof (rank_range (cdd_internal d)).
    pose proof (poll_decode_safe M (5 * S (Z.to_nat n) + 5) _ _ n [] Hl Hok ltac:(len_lia) ltac:(len_lia)) as Hp.
    destruct (poll_decode_loop _ _ _ n []) as [[[[[u|e|]|] f] self'] rd']; cbn in Hp; try done;
      destruct Hp as (? & ? & ?); try done. by destruct (0 <? len f). }
  assert (live rd) as Hl by (by exists s).
  assert (cdi_ok M (ChunkedDataDecodeReaderInternal_new M)) as Hok by (split_and!; cbn; done || len_lia).
  change rd with (cdd_reader (ChunkedDataDecodeReader_new rd M)) in Hl.
  change (ChunkedDataDecodeReaderInternal_new M) with (cdd_internal (ChunkedDataDecodeReader_new rd M)) in Hok.
  clear Hs. revert Hl Hok. generalize (ChunkedDataDecodeReader_new rd M).
  induction rooms as [|n rooms IH]; intros d Hl Hok; cbn [fold_left].
  - split; [|destruct Hok as (? & _ & <-); done]. specialize (Hstep d room Hl Hok Hroom).
    destruct (ChunkedDataDecodeReader_poll_read d room). apply Hstep.
  - apply Forall_cons in Hrooms as [Hn Hrooms]. specialize (Hstep d n Hl Hok Hn).
    destruct (ChunkedDataDecodeReader_poll_read d n) as [r d']. cbn [snd]. apply IH; [done|apply Hstep..].
Qed.

Lemma chunked_decoder_never_panics_witness :
  let RX := radix16_reference in
  let rd : reader := [Data (bs "fffffffffffffffff"); IoError; Data [x0d]; Pend; Data []; Data (bs "zz")] in
  let d := fold_left (fun d n => snd (ChunkedDataDecodeReader_poll_read d n)) [1; 2; 0; 4]
             (ChunkedDataDecodeReader_new rd 24) in
  fst (ChunkedDataDecodeReader_poll_read d 8) <> Ready Panic /\ len (cdi_chunk_header (cdd_internal d)) <= 24.
Proof.
  intros RX rd.
  apply (@chunked_decoder_never_panics reader reader_AsyncBufRead reader_AsyncBufReadLaws RX radix16_reference_laws
    rd (bs "fffffffffffffffff" ++ [x0d] ++ bs "zz") 24 [1; 2; 0; 4] 8).
  - reflexivity.
  - apply Z.leb_le. reflexivity.
  - repeat constructor; apply Z.leb_le; reflexivity.
  - apply Z.leb_le. reflexivity.
Defined.
