(* ===== verification/HttpChunkEncode.v ===== *)
(** * Encoding a stream as a chunked body

    Models [lib/vey-http/src/body/stream_to_chunked.rs]: the transfer that wraps
    what is buffered in a reader into chunks, one after the other, and ends
    with the last chunk.  The reader is any [AsyncBufRead].  The counters of the
    bytes written are not bounded here: they are 64 bits wide, more than a
    transfer can write. *)

From Stdlib Require Import ZArith Lia Strings.Byte.
From stdpp Require Import base list.
From S2P Require Import Prelude Reader AsyncIo StreamCopy HttpLine HttpChunkDecode.

Definition CRLF : bytes := [x0d; x0a].

Record ChunkedEncodeTransferInternal : Type := {
  cet_yield_size : Z;
  cet_no_trailer : bool;
  cet_this_chunk_size : Z;
  cet_left_chunk_size : Z;
  cet_static_header : bytes;
  cet_static_offset : Z;
  cet_total_write : Z;
  cet_copied : Z;
  cet_read_finished : bool;
  cet_active : bool
}.

Definition ChunkedEncodeTransferInternal_new (yield_size : Z) (no_trailer : bool) : ChunkedEncodeTransferInternal := {|
  cet_yield_size := yield_size;
  cet_no_trailer := no_trailer;
  cet_this_chunk_size := 0;
  cet_left_chunk_size := 0;
  cet_static_header := [];
  cet_static_offset := 0;
  cet_total_write := 0;
  cet_copied := 0;
  cet_read_finished := false;
  cet_active := false
|}.

Record StreamToChunkedTransfer (R : Type) : Type := {
  sct_reader : R;
  sct_writer : writer;
  sct_internal : ChunkedEncodeTransferInternal
}.
Arguments sct_reader {R}.
Arguments sct_writer {R}.
Arguments sct_internal {R}.

(** Assignments to groups of fields. *)
Section Assign.
Context (self : ChunkedEncodeTransferInternal).

Definition cet_start (header : bytes) (chunk_size : Z) (finished : bool) : ChunkedEncodeTransferInternal := {|
  cet_yield_size := cet_yield_size self; cet_no_trailer := cet_no_trailer self;
  cet_this_chunk_size := chunk_size; cet_left_chunk_size := chunk_size;
  cet_static_header := header; cet_static_offset := 0;
  cet_total_write := cet_total_write self; cet_copied := cet_copied self;
  cet_read_finished := finished; cet_active := true |}.

Definition cet_header_written (nw : Z) : ChunkedEncodeTransferInternal := {|
  cet_yield_size := cet_yield_size self; cet_no_trailer := cet_no_trailer self;
  cet_this_chunk_size := cet_this_chunk_size self; cet_left_chunk_size := cet_left_chunk_size self;
  cet_static_header := cet_static_header self; cet_static_offset := cet_static_offset self + nw;
  cet_total_write := cet_total_write self + nw; cet_copied := cet_copied self;
  cet_read_finished := cet_read_finished self; cet_active := true |}.

Definition cet_data_written (nw : Z) : ChunkedEncodeTransferInternal := {|
  cet_yield_size := cet_yield_size self; cet_no_trailer := cet_no_trailer self;
  cet_this_chunk_size := cet_this_chunk_size self; cet_left_chunk_size := cet_left_chunk_size self - nw;
  cet_static_header := cet_static_header self; cet_static_offset := cet_static_offset self;
  cet_total_write := cet_total_write self + nw; cet_copied := cet_copied self + nw;
  cet_read_finished := cet_read_finished self; cet_active := true |}.

Definition cet_end_chunk : ChunkedEncodeTransferInternal := {|
  cet_yield_size := cet_yield_size self; cet_no_trailer := cet_no_trailer self;
  cet_this_chunk_size := 0; cet_left_chunk_size := cet_left_chunk_size self;
  cet_static_header := cet_static_header self; cet_static_offset := cet_static_offset self;
  cet_total_write := cet_total_write self; cet_copied := cet_copied self;
  cet_read_finished := cet_read_finished self; cet_active := cet_active self |}.

Definition cet_set_active (active : bool) : ChunkedEncodeTransferInternal := {|
  cet_yield_size := cet_yield_size self; cet_no_trailer := cet_no_trailer self;
  cet_this_chunk_size := cet_this_chunk_size self; cet_left_chunk_size := cet_left_chunk_size self;
  cet_static_header := cet_static_header self; cet_static_offset := cet_static_offset self;
  cet_total_write := cet_total_write self; cet_copied := cet_copied self;
  cet_read_finished := cet_read_finished self; cet_active := active |}.

End Assign.

(** The header of the next chunk, with the line end of the one before it; a
    chunk of no bytes is the last one. *)
Definition static_header (self : ChunkedEncodeTransferInternal) (chunk_size : Z) : bytes :=
  if chunk_size =? 0 then
    if cet_total_write self =? 0 then
      if cet_no_trailer self then bs "0" ++ CRLF ++ CRLF else bs "0" ++ CRLF
    else if cet_no_trailer self then CRLF ++ bs "0" ++ CRLF ++ CRLF
    else CRLF ++ bs "0" ++ CRLF
  else if cet_total_write self =? 0 then hex_fmt chunk_size ++ CRLF
  else CRLF ++ hex_fmt chunk_size ++ CRLF.

Section Encode.
Context {R : Type} `{!AsyncBufRead R}.
Implicit Types t : StreamToChunkedTransfer R.

Definition StreamToChunkedTransfer_new (rd : R) (wr : writer) (yield_size : Z) (no_trailer : bool)
    : StreamToChunkedTransfer R :=
  {| sct_reader := rd; sct_writer := wr; sct_internal := ChunkedEncodeTransferInternal_new yield_size no_trailer |}.

Definition new_with_no_trailer (rd : R) (wr : writer) (yield_size : Z) : StreamToChunkedTransfer R :=
  StreamToChunkedTransfer_new rd wr yield_size true.

Definition new_with_pending_trailer (rd : R) (wr : writer) (yield_size : Z) : StreamToChunkedTransfer R :=
  StreamToChunkedTransfer_new rd wr yield_size false.

Definition sct_set t (rd : R) (w : writer) (self : ChunkedEncodeTransferInternal) : StreamToChunkedTransfer R :=
  {| sct_reader := rd; sct_writer := w; sct_internal := self |}.

(** [ready!(reader.poll_fill_buf(cx)).map_err(ReadFailed)?] *)
Definition sct_fill_buf t : poll (res StreamCopyError bytes) * StreamToChunkedTransfer R :=
  match poll_fill_buf (sct_reader t) with
  | (Pending, rd) => (Pending, sct_set t rd (sct_writer t) (sct_internal t))
  | (Ready r, rd) => (Ready (map_err Copy_ReadFailed r), sct_set t rd (sct_writer t) (sct_internal t))
  end.

(** [ready!(writer.poll_write(cx, data)).map_err(WriteFailed)?], where a write
    of zero bytes is an error. *)
Definition sct_write t (data : bytes) : poll (res StreamCopyError Z) * StreamToChunkedTransfer R :=
  match poll_write (sct_writer t) data with
  | (Pending, w) => (Pending, sct_set t (sct_reader t) w (sct_internal t))
  | (Ready None, w) => (Ready (Err Copy_WriteFailed), sct_set t (sct_reader t) w (sct_internal t))
  | (Ready (Some nw), w) =>
      (Ready (if nw =? 0 then Err Copy_WriteZero else Ok nw), sct_set t (sct_reader t) w (sct_internal t))
  end.

(** [if self.this_chunk_size == 0 && !self.read_finished { .. }] *)
Definition start_chunk t : poll (res StreamCopyError unit) * StreamToChunkedTransfer R :=
  let self := sct_internal t in
  if (cet_this_chunk_size self =? 0) && negb (cet_read_finished self) then
    poll_bind (sct_fill_buf t) (fun data t =>
      let chunk_size := len data in
      (Ready (Ok tt),
       sct_set t (sct_reader t) (sct_writer t)
         (cet_start self (static_header self chunk_size) chunk_size (chunk_size =? 0))))
  else (Ready (Ok tt), t).

(** [while self.static_offset < self.static_header.len() { .. }] *)
Fixpoint write_header (fuel : nat) t : poll (res StreamCopyError unit) * StreamToChunkedTransfer R :=
  match fuel with
  | O => (Ready Panic, t)
  | S fuel' =>
      let self := sct_internal t in
      if cet_static_offset self <? len (cet_static_header self) then
        poll_bind (poll_lift (slice_from (cet_static_header self) (cet_static_offset self)) t) (fun data t =>
          poll_bind (sct_write t data) (fun nw t =>
            write_header fuel' (sct_set t (sct_reader t) (sct_writer t) (cet_header_written self nw))))
      else (Ready (Ok tt), t)
  end.

(** [while self.left_chunk_size > 0 { .. }] *)
Fixpoint write_chunk (fuel : nat) t (copy_this_round : Z)
    : poll (res StreamCopyError Z) * StreamToChunkedTransfer R :=
  match fuel with
  | O => (Ready Panic, t)
  | S fuel' =>
      let self := sct_internal t in
      if 0 <? cet_left_chunk_size self then
        poll_bind (sct_fill_buf t) (fun data t =>
          poll_bind (poll_lift (slice data 0 (cet_left_chunk_size self)) t) (fun data t =>
            poll_bind (sct_write t data) (fun nw t =>
              write_chunk fuel'
                (sct_set t (consume (sct_reader t) nw) (sct_writer t) (cet_data_written self nw))
                (copy_this_round + nw))))
      else (Ready (Ok copy_this_round), t)
  end.

Definition sct_flush t : poll (res StreamCopyError unit) * StreamToChunkedTransfer R :=
  match poll_flush (sct_writer t) with
  | (Pending, w) => (Pending, sct_set t (sct_reader t) w (sct_internal t))
  | (Ready ok, w) =>
      (Ready (if ok then Ok tt else Err Copy_WriteFailed), sct_set t (sct_reader t) w (sct_internal t))
  end.

Fixpoint poll_encode_loop (fuel : nat) t (copy_this_round : Z)
    : poll (res StreamCopyError Z) * StreamToChunkedTransfer R :=
  match fuel with
  | O => (Ready Panic, t)
  | S fuel' =>
      poll_bind (start_chunk t) (fun _ t =>
        poll_bind (write_header (S (length (cet_static_header (sct_internal t)))) t) (fun _ t =>
          if cet_read_finished (sct_internal t) then
            poll_bind (sct_flush t) (fun _ t => (Ready (Ok (cet_total_write (sct_internal t))), t))
          else
            poll_bind (write_chunk (S (Z.to_nat (cet_left_chunk_size (sct_internal t)))) t copy_this_round)
              (fun copy_this_round t =>
                let t := sct_set t (sct_reader t) (sct_writer t) (cet_end_chunk (sct_internal t)) in
                if cet_yield_size (sct_internal t) <=? copy_this_round then (Pending, t)
                else poll_encode_loop fuel' t copy_this_round)))
  end.

(** Every round that does not return copies a byte; at [yield_size] bytes the
    function returns. *)
Definition poll_encode t : poll (res StreamCopyError Z) * StreamToChunkedTransfer R :=
  poll_encode_loop (S (Z.to_nat (cet_yield_size (sct_internal t)))) t 0.

Definition StreamToChunkedTransfer_poll t : poll (res StreamCopyError Z) * StreamToChunkedTransfer R := poll_encode t.

Definition StreamToChunkedTransfer_finished t : bool :=
  cet_read_finished (sct_internal t) &&
  (len (cet_static_header (sct_internal t)) <=? cet_static_offset (sct_internal t)).

Definition StreamToChunkedTransfer_read_finished t : bool := cet_read_finished (sct_internal t).
Definition StreamToChunkedTransfer_is_idle t : bool := negb (cet_active (sct_internal t)).
Definition StreamToChunkedTransfer_is_active t : bool := cet_active (sct_internal t).
Definition StreamToChunkedTransfer_reset_active t : StreamToChunkedTransfer R :=
  sct_set t (sct_reader t) (sct_writer t) (cet_set_active (sct_internal t) false).
Definition StreamToChunkedTransfer_no_cached_data t : bool :=
  (len (cet_static_header (sct_internal t)) <=? cet_static_offset (sct_internal t)) &&
  (cet_left_chunk_size (sct_internal t) =? 0).
Definition StreamToChunkedTransfer_body_size t : Z := cet_copied (sct_internal t).

End Encode.

(** ** The bytes of the chunks *)

(** The line end that a chunk still needs once something is written. *)
Definition chunk_sep (out : bytes) : bytes := if len out =? 0 then [] else CRLF.

(** [chunks_written out data]: [out] is a sequence of chunks that carry [data],
    without the line end of the last one. *)
Inductive chunks_written : bytes -> bytes -> Prop :=
| chunks_none : chunks_written [] []
| chunks_snoc out data c :
    chunks_written out data -> c <> [] ->
    chunks_written (out ++ chunk_sep out ++ hex_fmt (len c) ++ CRLF ++ c) (data ++ c).

Lemma size_line_fmt `{Radix16Laws} M n : 18 <= M -> 0 <= n <= u64_max -> size_line M (hex_fmt n ++ CRLF) n.
Proof.
  intros HM Hn. destruct (hex_fmt_spec n Hn) as (Hh & _ & _ & Hl). exists (hex_fmt n ++ [x0d]), None.
  split_and!; [by rewrite <- app_assoc| |unfold CRLF; len_lia|by apply chunk_line_fmt].
  apply not_elem_of_app. split; [|by intros ?%list_elem_of_singleton].
  intros Hin. rewrite Forall_forall in Hh. by apply Hh, not_hex_LF in Hin.
Qed.

Lemma size_line_last `{Radix16Laws} M : 18 <= M -> size_line M (bs "0" ++ CRLF) 0.
Proof. intros. apply (size_line_fmt M 0); [done|]. unfold u64_max. lia. Qed.

(** What was written is decoded to the data, whatever comes after it. *)
Lemma chunks_written_dechunk `{Radix16Laws} M out data :
  18 <= M -> chunks_written out data -> len data <= u64_max ->
  forall s data' rest, dechunk M s data' rest -> dechunk M (out ++ chunk_sep out ++ s) (data ++ data') rest.
Proof.
  intros HM Hw. induction Hw as [|out data c Hw IH Hne]; intros Hlen s data' rest Hd; [done|].
  assert (chunk_sep (out ++ chunk_sep out ++ hex_fmt (len c) ++ CRLF ++ c) = CRLF) as ->.
  { unfold chunk_sep at 1. destruct (Z.eqb_spec (len (out ++ chunk_sep out ++ hex_fmt (len c) ++ CRLF ++ c)) 0) as [Hx|]; [|done].
    unfold CRLF in Hx. len_lia. }
  rewrite <- !app_assoc. apply IH; [len_lia|].
  pose proof (dechunk_chunk lenient M (hex_fmt (len c) ++ CRLF) c CRLF s data' rest) as Hc.
  rewrite <- app_assoc in Hc. apply Hc; try done.
  - apply size_line_fmt; [done|]. len_lia.
  - constructor.
Qed.

(** The last chunk, and the empty trailer if there is to be none. *)
Definition last_chunk (no_trailer : bool) : bytes := bs "0" ++ CRLF ++ (if no_trailer then CRLF else []).

Section EncodeSpec.
Context {R : Type} `{AsyncBufReadLaws R}.
Context (Y : Z) (no_trailer : bool) (pre whole : bytes).
Context (HY : 0 < Y).
Implicit Types t : StreamToChunkedTransfer R.

(** [out] has been written and [s] is still to be read. *)
Record enc_common (t : StreamToChunkedTransfer R) (out s : bytes) : Prop := {
  en_yield : cet_yield_size (sct_internal t) = Y;
  en_trailer : cet_no_trailer (sct_internal t) = no_trailer;
  en_source : source (sct_reader t) s;
  en_sound : ~ faulty (sct_reader t);
  en_out : wr_out (sct_writer t) = pre ++ out;
  en_total : cet_total_write (sct_internal t) = len out;
  en_fair : fair_writer (sct_writer t);
  en_offset : 0 <= cet_static_offset (sct_internal t) <= len (cet_static_header (sct_internal t))
}.

Definition header_left (t : StreamToChunkedTransfer R) : bytes :=
  drop (Z.to_nat (cet_static_offset (sct_internal t))) (cet_static_header (sct_internal t)).

(** Between two chunks; inside a chunk, with the bytes [b] of it still in the
    reader; inside the last chunk. *)
Inductive enc_phase (t : StreamToChunkedTransfer R) (out s : bytes) : Prop :=
| enc_idle data :
    chunks_written out data -> data ++ s = whole -> header_left t = [] ->
    cet_this_chunk_size (sct_internal t) = 0 -> cet_left_chunk_size (sct_internal t) = 0 ->
    cet_read_finished (sct_internal t) = false -> cet_copied (sct_internal t) = len data ->
    enc_phase t out s
| enc_chunk full data b s' :
    out ++ header_left t ++ b = full -> chunks_written full data -> data ++ s' = whole -> s = b ++ s' ->
    buffered (sct_reader t) b -> b <> [] -> cet_left_chunk_size (sct_internal t) = len b ->
    cet_this_chunk_size (sct_internal t) <> 0 -> cet_read_finished (sct_internal t) = false ->
    cet_copied (sct_internal t) + len b = len data ->
    enc_phase t out s
| enc_last full :
    out ++ header_left t = full ++ chunk_sep full ++ last_chunk no_trailer -> chunks_written full whole ->
    s = [] -> cet_read_finished (sct_internal t) = true -> cet_copied (sct_internal t) = len whole ->
    enc_phase t out s.

Definition encoding (t : StreamToChunkedTransfer R) (s : bytes) : Prop :=
  exists out, enc_common t out s /\ enc_phase t out s.

Definition enc_size (t : StreamToChunkedTransfer R) (s : bytes) : nat :=
  (waits (sct_reader t) + writer_waits (sct_writer t) + length s)%nat.

(** The outcome of a step. *)
Definition enc_step {A} (t : StreamToChunkedTransfer R) (s : bytes) (Q : A -> StreamToChunkedTransfer R -> bytes -> Prop)
    (r : poll (res StreamCopyError A) * StreamToChunkedTransfer R) : Prop :=
  match r with
  | (Ready (Ok a), t') => exists s', encoding t' s' /\ (enc_size t' s' <= enc_size t s)%nat /\ Q a t' s'
  | (Pending, t') => exists s', encoding t' s' /\ (enc_size t' s' < enc_size t s)%nat
  | (Ready _, _) => False
  end.

Lemma enc_step_mono {A} t0 s0 t s (Q Q' : A -> StreamToChunkedTransfer R -> bytes -> Prop) r :
  enc_step t s Q r -> (enc_size t s <= enc_size t0 s0)%nat ->
  (forall a t' s', Q a t' s' -> Q' a t' s') -> enc_step t0 s0 Q' r.
Proof.
  destruct r as [[[a|e|]|] t']; cbn; [|done..|].
  - intros (s' & ? & ? & ?) ? HQ. exists s'. split_and!; auto. lia.
  - intros (s' & ? & ?) ? HQ. exists s'. split_and!; auto. lia.
Qed.

Lemma enc_step_bind {A B} t s (Q : A -> StreamToChunkedTransfer R -> bytes -> Prop)
    (Q' : B -> StreamToChunkedTransfer R -> bytes -> Prop) r k :
  enc_step t s Q r ->
  (forall a t' s', encoding t' s' -> (enc_size t' s' <= enc_size t s)%nat -> Q a t' s' -> enc_step t s Q' (k a t')) ->
  enc_step t s Q' (poll_bind r k).
Proof.
  destruct r as [[[a|e|]|] t']; cbn [poll_bind]; [|done..].
  intros (s' & Hc & Hs & HQ) Hk. by apply (Hk a t' s').
Qed.

(** The writer takes a prefix of what it is offered. *)
Lemma sct_write_spec t out s data :
  enc_common t out s -> data <> [] ->
  match sct_write t data with
  | (Ready (Ok n), t') =>
      exists w, t' = sct_set t (sct_reader t) w (sct_internal t) /\ 0 < n <= len data /\
        wr_out w = pre ++ out ++ take (Z.to_nat n) data /\ fair_writer w /\
        (writer_waits w <= writer_waits (sct_writer t))%nat
  | (Pending, t') =>
      exists w, t' = sct_set t (sct_reader t) w (sct_internal t) /\
        wr_out w = pre ++ out /\ fair_writer w /\ (writer_waits w < writer_waits (sct_writer t))%nat
  | _ => False
  end.
Proof.
  intros [] Hne. unfold sct_write. pose proof (poll_write_spec (sct_writer t) data (fair_lawful _ en_fair0)) as Hp.
  destruct (poll_write (sct_writer t) data) as [[[n|]|] w].
  - destruct Hp as (_ & Hf & Hn & Ho & Hw). destruct (Hf en_fair0) as [Hf' Hpos]. specialize (Hpos Hne).
    destruct (Z.eqb_spec n 0); [lia|]. exists w. rewrite Ho, en_out0, <- app_assoc. split_and!; done || lia.
  - destruct Hp as (_ & Hnf & _). done.
  - destruct Hp as (_ & Hf & Ho & Hw). exists w. rewrite Ho, en_out0. split_and!; auto.
Qed.

(** A writer that has taken nothing. *)
Lemma encoding_writer t s w :
  encoding t s -> wr_out w = wr_out (sct_writer t) -> fair_writer w ->
  encoding (sct_set t (sct_reader t) w (sct_internal t)) s.
Proof.
  intros (out & [] & Hph) Ho Hf. exists out. split; [by constructor; cbn [sct_set sct_writer]; rewrite ?Ho|].
  destruct Hph; [by eapply enc_idle|by eapply enc_chunk|by eapply enc_last].
Qed.

Lemma static_header_eq t out s n :
  enc_common t out s ->
  static_header (sct_internal t) n =
    chunk_sep out ++ (if n =? 0 then last_chunk no_trailer else hex_fmt n ++ CRLF).
Proof.
  intros []. unfold static_header, chunk_sep, last_chunk. rewrite en_total0, en_trailer0.
  by destruct (n =? 0), (len out =? 0), no_trailer.
Qed.

Lemma start_chunk_spec t s :
  encoding t s ->
  enc_step t s (fun _ t' _ => cet_this_chunk_size (sct_internal t') <> 0 \/ cet_read_finished (sct_internal t') = true)
    (start_chunk t).
Proof.
  intros (out & Hc & Hph). unfold start_chunk.
  destruct Hph as [data Hcw Hw Hh Ht Hl Hrf Hcp|full data b s' Hfull Hcw Hw Hs Hb Hne Hl Ht Hrf Hcp|full Hfull Hcw Hs Hrf Hcp].
  2: { destruct (Z.eqb_spec (cet_this_chunk_size (sct_internal t)) 0); [done|]. cbn [andb].
       exists s. split_and!; [|done|by left]. exists out. split; [done|]. by eapply enc_chunk. }
  2: { rewrite Hrf, andb_false_r. exists s. split_and!; [|done|by right]. exists out. split; [done|]. by eapply enc_last. }
  rewrite Ht, Hrf. cbn [Z.eqb negb andb]. unfold sct_fill_buf. pose proof Hc as [].
  pose proof (source_fill_buf (sct_reader t) s en_source0) as Hp.
  destruct (poll_fill_buf (sct_reader t)) as [[[d|e|]|] rd]; cbn [map_err poll_bind]; [|tauto|done|].
  2: { destruct Hp as (Hs' & Hf & Hwt). exists s. split; [|unfold enc_size; cbn; lia]. exists out.
       split; [constructor; cbn; tauto|]. by eapply enc_idle. }
  destruct Hp as (Hs' & Hb & Hf & Hnil & Hwt). cbn [sct_set sct_reader sct_writer].
  rewrite (static_header_eq t out s (len d) Hc).
  destruct (buffered_consume rd s d (len d) Hs' Hb ltac:(len_lia)) as (s' & Heq & _).
  rewrite take_ge in Heq by (unfold len; lia).
  exists s. split_and!; [|unfold enc_size; cbn; lia|].
  - exists out. split.
    { constructor; cbn -[len]; try done; try tauto. }
    destruct (Z.eqb_spec (len d) 0) as [->%len_0|Hd].
    + destruct (Hnil eq_refl) as [?| ->]; [done|]. rewrite app_nil_r in Hw. subst data.
      by apply enc_last with out.
    + assert (d <> []) by (by intros ->).
      apply enc_chunk with (out ++ (chunk_sep out ++ hex_fmt (len d) ++ CRLF) ++ d) (data ++ d) d s'; cbn -[len]; try done.
      * rewrite <- !app_assoc. by apply chunks_snoc.
      * by rewrite <- app_assoc, <- Heq.
      * len_lia.
  - cbn. destruct (Z.eqb_spec (len d) 0); [by right|by left].
Qed.

Lemma write_header_spec fuel t s :
  encoding t s -> len (header_left t) < Z.of_nat fuel ->
  enc_step t s (fun _ t' s' => s' = s /\ header_left t' = [] /\
      cet_this_chunk_size (sct_internal t') = cet_this_chunk_size (sct_internal t) /\
      cet_read_finished (sct_internal t') = cet_read_finished (sct_internal t))
    (write_header fuel t).
Proof.
  revert t. induction fuel as [|fuel IH]; intros t He Hf; [len_lia|]. cbn [write_header].
  pose proof He as (out & Hc & Hph). pose proof Hc as [].
  destruct (Z.ltb_spec (cet_static_offset (sct_internal t)) (len (cet_static_header (sct_internal t)))) as [Hlt|Hge].
  2: { exists s. split_and!; try done. unfold header_left. apply drop_ge. unfold len in *. lia. }
  rewrite slice_from_ok by lia. cbn [poll_lift poll_bind]. fold (header_left t).
  assert (header_left t <> []) as Hne.
  { unfold header_left. intros Hx%(f_equal len). len_lia. }
  pose proof (sct_write_spec t out s (header_left t) Hc Hne) as Hw.
  destruct (sct_write t (header_left t)) as [[[n|e|]|] t']; cbn [poll_bind]; [|done..|].
  2: { destruct Hw as (w & -> & Ho & Hfw & Hww). exists s. split; [|unfold enc_size; cbn; lia].
       apply encoding_writer; [done|by rewrite Ho, en_out0|done]. }
  destruct Hw as (w & -> & Hn & Ho & Hfw & Hww). cbn [sct_set sct_reader sct_writer].
  match goal with |- enc_step _ _ _ (write_header _ ?x) => set (t' := x) end.
  assert (header_left t' = drop (Z.to_nat n) (header_left t)) as Hh.
  { unfold header_left. change (cet_static_offset (sct_internal t')) with (cet_static_offset (sct_internal t) + n).
    change (cet_static_header (sct_internal t')) with (cet_static_header (sct_internal t)).
    rewrite drop_drop. f_equal. lia. }
  assert (len (header_left t) = len (cet_static_header (sct_internal t)) - cet_static_offset (sct_internal t)) as Hhl.
  { unfold header_left. len_lia. }
  assert (encoding t' s) as He'.
  { exists (out ++ take (Z.to_nat n) (header_left t)). split.
    - constructor; cbn -[len]; try done; [rewrite en_total0; len_lia|lia].
    - destruct Hph as [|full data b s' Hfull|full Hfull]; [done| |].
      + apply enc_chunk with full data b s'; try done. by rewrite Hh, <- app_assoc, (app_assoc (take _ _)), take_drop.
      + apply enc_last with full; try done. by rewrite Hh, <- app_assoc, take_drop. }
  eapply enc_step_mono; [apply (IH t' He')| |].
  - rewrite Hh. len_lia.
  - unfold enc_size. cbn. lia.
  - intros _ t'' s' (-> & ? & ? & ?). by split_and!.
Qed.

(** The bytes of a chunk that are still in the reader, once its header is
    written.  The reader shows them again as long as they are not consumed. *)
Lemma write_chunk_spec fuel t out full data b s' copied :
  enc_common t out (b ++ s') -> header_left t = [] -> out ++ b = full -> chunks_written full data ->
  data ++ s' = whole -> buffered (sct_reader t) b -> cet_left_chunk_size (sct_internal t) = len b ->
  cet_this_chunk_size (sct_internal t) <> 0 -> cet_read_finished (sct_internal t) = false ->
  cet_copied (sct_internal t) + len b = len data -> len b < Z.of_nat fuel ->
  match write_chunk fuel t copied with
  | (Ready (Ok n), t') =>
      n = copied + len b /\ encoding (sct_set t' (sct_reader t') (sct_writer t') (cet_end_chunk (sct_internal t'))) s' /\
      (enc_size t' s' + length b <= enc_size t (b ++ s'))%nat
  | (Pending, t') => exists s'', encoding t' s'' /\ (enc_size t' s'' < enc_size t (b ++ s'))%nat
  | (Ready _, _) => False
  end.
Proof.
  revert t out b copied. induction fuel as [|fuel IH];
    intros t out b copied Hc Hh Hfull Hcw Hw Hb Hl Ht Hrf Hcp Hf; [len_lia|].
  cbn [write_chunk]. rewrite Hl. destruct (Z.ltb_spec 0 (len b)) as [Hpos|Hz].
  2: { assert (b = []) as -> by (apply len_0; pose proof (len_nonneg b); lia).
       rewrite app_nil_r in Hfull. subst out. cbn [app] in *. split_and!; [len_lia| |cbn; lia]. exists full.
       split; [destruct Hc; by constructor|]. apply enc_idle with data; try done. cbn. len_lia. }
  assert (b <> []) as Hne by (intros ->; len_lia).
  unfold sct_fill_buf. rewrite (buffered_fill_buf _ _ Hb Hne). cbn [map_err poll_bind].
  replace (sct_set t (sct_reader t) (sct_writer t) (sct_internal t)) with t by (by destruct t).
  rewrite slice_ok by lia. rewrite Z.sub_0_r, drop_0, take_ge by (unfold len; lia). cbn [poll_lift poll_bind].
  pose proof Hc as []. pose proof (sct_write_spec t out _ b Hc Hne) as Hwr.
  destruct (sct_write t b) as [[[n|e|]|] t']; cbn [poll_bind]; [|done..|].
  2: { destruct Hwr as (w & -> & Ho & Hfw & Hww). exists (b ++ s'). split; [|unfold enc_size; cbn; lia].
       apply encoding_writer; [|by rewrite Ho, en_out0|done]. exists out. split; [done|].
       apply enc_chunk with full data b s'; try done. by rewrite Hh. }
  destruct Hwr as (w & -> & Hn & Ho & Hfw & Hww).
  destruct (buffered_consume (sct_reader t) _ b n en_source0 Hb ltac:(lia)) as (s0 & Heq & Hs0 & Hb0 & Hf0 & Hw0).
  rewrite <- (take_drop (Z.to_nat n) b) in Heq at 1. rewrite <- app_assoc in Heq. apply app_inv_head in Heq. subst s0.
  match goal with |- context [write_chunk _ ?x _] => set (t' := x) end.
  specialize (IH t' (out ++ take (Z.to_nat n) b) (drop (Z.to_nat n) b) (copied + n)).
  assert (enc_common t' (out ++ take (Z.to_nat n) b) (drop (Z.to_nat n) b ++ s')) as Hc'.
  { constructor; try done.
    - cbn. tauto.
    - change (cet_total_write (sct_internal t')) with (cet_total_write (sct_internal t) + n). rewrite en_total0. len_lia. }
  specialize (IH Hc' Hh). rewrite <- app_assoc, take_drop in IH.
  specialize (IH Hfull Hcw Hw Hb0).
  assert (cet_left_chunk_size (sct_internal t') = len (drop (Z.to_nat n) b)) as Hl'.
  { change (cet_left_chunk_size (sct_internal t')) with (cet_left_chunk_size (sct_internal t) - n). len_lia. }
  specialize (IH Hl' Ht Hrf).
  assert (cet_copied (sct_internal t') + len (drop (Z.to_nat n) b) = len data) as Hcp'.
  { change (cet_copied (sct_internal t')) with (cet_copied (sct_internal t) + n). len_lia. }
  specialize (IH Hcp' ltac:(len_lia)).
  assert (enc_size t' (drop (Z.to_nat n) b ++ s') + Z.to_nat n <= enc_size t (b ++ s'))%nat as Hsz.
  { unfold enc_size. cbn. rewrite !length_app, length_drop. unfold len in *. lia. }
  destruct (write_chunk fuel t' (copied + n)) as [[[m|e|]|] t'']; [|done..|].
  - destruct IH as (-> & He & Hs''). rewrite length_drop in Hs''. split_and!; [len_lia|done|unfold len in *; lia].
  - destruct IH as (s'' & He & Hs''). exists s''. split; [done|]. lia.
Qed.

Lemma sct_flush_spec t s :
  encoding t s ->
  enc_step t s (fun _ t' s' => s' = s /\ sct_internal t' = sct_internal t /\
      wr_out (sct_writer t') = wr_out (sct_writer t) /\ wr_flushed (sct_writer t') = len (wr_out (sct_writer t')))
    (sct_flush t).
Proof.
  intros He. pose proof He as (out & [] & _). unfold sct_flush. pose proof (poll_flush_spec (sct_writer t)) as Hp.
  destruct (poll_flush (sct_writer t)) as [[ok|] w].
  - destruct Hp as (_ & Hf & Ho & Hfl & Hw). destruct (Hf en_fair0) as [Hfw ->]. exists s.
    split_and!; try done; [by apply encoding_writer|unfold enc_size; cbn; lia|]. cbn. by rewrite Hfl, Ho.
  - destruct Hp as (_ & Hf & Ho & Hw). exists s. split; [apply encoding_writer; auto|unfold enc_size; cbn; lia].
Qed.

(** What holds when the transfer has returned. *)
Definition encoded (n : Z) (t : StreamToChunkedTransfer R) (s : bytes) : Prop :=
  s = [] /\ exists full, chunks_written full whole /\
    wr_out (sct_writer t) = pre ++ full ++ chunk_sep full ++ last_chunk no_trailer /\
    n = len (full ++ chunk_sep full ++ last_chunk no_trailer) /\
    wr_flushed (sct_writer t) = len (wr_out (sct_writer t)) /\ cet_copied (sct_internal t) = len whole /\
    StreamToChunkedTransfer_finished t = true.

Lemma encoded_end n t s :
  encoding t s -> header_left t = [] -> cet_read_finished (sct_internal t) = true ->
  wr_flushed (sct_writer t) = len (wr_out (sct_writer t)) -> n = cet_total_write (sct_internal t) -> encoded n t s.
Proof.
  intros (out & [] & Hph) Hh Hrf Hfl ->.
  destruct Hph as [? ? ? ? ? ? Hx|? ? ? ? ? ? ? ? ? ? ? ? Hx|full Hfull Hcw Hs Hrf' Hcp]; [congruence..|].
  rewrite Hh, app_nil_r in Hfull. subst out. split; [done|]. exists full. rewrite en_total0. split_and!; try done.
  unfold StreamToChunkedTransfer_finished. rewrite Hrf. cbn [andb]. apply Z.leb_le.
  unfold header_left in Hh. apply (f_equal len) in Hh. len_lia.
Qed.

Lemma poll_encode_loop_spec fuel t s copied :
  encoding t s -> copied < Y -> Y - copied < Z.of_nat fuel ->
  enc_step t s encoded (poll_encode_loop fuel t copied).
Proof.
  revert t s copied. induction fuel as [|fuel IH]; intros t s copied He Hc Hf; [lia|]. cbn [poll_encode_loop].
  eapply enc_step_bind; [by apply start_chunk_spec|]. intros u1 t1 s1 He1 Hs1 Hstart.
  eapply enc_step_bind.
  { eapply enc_step_mono; [apply (write_header_spec _ t1 s1 He1)|done|intros a t' s' HQ; exact HQ].
    unfold header_left. rewrite len_drop. unfold len. lia. }
  intros u2 t2 s2 He2 Hs2 (-> & Hh2 & Ht2 & Hr2).
  destruct (cet_read_finished (sct_internal t2)) eqn:Hrf.
  - eapply enc_step_bind.
    { eapply enc_step_mono; [by apply sct_flush_spec|done|intros a t' s' HQ; exact HQ]. }
    intros u3 t3 s3 He3 Hs3 (-> & Hi3 & Ho3 & Hfl3). exists s1. split_and!; try done.
    apply encoded_end; try done; [by unfold header_left; rewrite Hi3|by rewrite Hi3].
  - destruct He2 as (out & Hcm & Hph).
    destruct Hph as [? ? ? ? Ht0|full data b s' Hfull Hcw Hw Hsb Hb Hne Hl Ht Hrf' Hcp|? ? ? ? Hx]; [| |congruence].
    { exfalso. destruct Hstart as [Hx|Hx]; congruence. }
    clear Hstart. subst s1.
    rewrite Hh2 in Hfull. cbn [app] in Hfull.
    assert (len b < Z.of_nat (S (Z.to_nat (cet_left_chunk_size (sct_internal t2))))) as Hfu by len_lia.
    pose proof (write_chunk_spec _ t2 out full data b s' copied Hcm Hh2 Hfull Hcw Hw Hb Hl Ht Hrf' Hcp Hfu) as Hwc.
    destruct (write_chunk _ t2 copied) as [[[n|e|]|] t3]; cbn [poll_bind]; [|done..|].
    2: { destruct Hwc as (s'' & He3 & Hs3). exists s''. split; [done|]. lia. }
    destruct Hwc as (-> & He3 & Hs3). set (t4 := sct_set t3 _ _ _) in *.
    assert (enc_size t4 s' = enc_size t3 s') as Hsz by done.
    assert (0 < length b)%nat by (destruct b; [done|cbn; lia]).
    assert (cet_yield_size (sct_internal t4) = Y) as -> by (destruct He3 as (? & [] & _); done).
    destruct (Z.leb_spec Y (copied + len b)).
    + exists s'. split; [done|]. lia.
    + eapply enc_step_mono; [apply (IH t4 s' (copied + len b) He3); unfold len in *; lia|lia|done].
Qed.

Lemma poll_encode_spec t s : encoding t s -> enc_step t s encoded (StreamToChunkedTransfer_poll t).
Proof. intros He. apply poll_encode_loop_spec; [done|lia|]. destruct He as (? & [-> ] & _). lia. Qed.

Lemma await_encode_spec polls t s :
  encoding t s -> (enc_size t s < polls)%nat ->
  exists n t' s', await polls StreamToChunkedTransfer_poll t = (Ok n, t') /\ encoded n t' s'.
Proof.
  intros He Hsz.
  destruct (await_spec StreamToChunkedTransfer_poll (fun t n => exists s, encoding t s /\ n = enc_size t s)
    (fun n t' => exists s', encoded n t' s')) with (polls := polls) (t := t) (n := enc_size t s)
    as (n & t' & Ha & s' & Hs'); [|by exists s|done|by exists n, t', s'].
  intros t1 n (s1 & He1 & ->). pose proof (poll_encode_spec t1 s1 He1) as Hp.
  destruct (StreamToChunkedTransfer_poll t1) as [[[k|e|]|] t2]; [|done..|].
  - destruct Hp as (s2 & ? & ? & ?). by exists s2.
  - destruct Hp as (s2 & He2 & Hs2). exists (enc_size t2 s2). split; [done|]. by exists s2.
Qed.

End EncodeSpec.

Lemma encoding_new {R} `{AsyncBufReadLaws R} (rd : R) (wr : writer) (Y : Z) (no_trailer : bool) (s : bytes) :
  source rd s -> ~ faulty rd -> fair_writer wr ->
  encoding Y no_trailer (wr_out wr) s (StreamToChunkedTransfer_new rd wr Y no_trailer) s.
Proof.
  intros Hs Hf Hw. exists []. split; [constructor; try done; by rewrite app_nil_r|].
  by apply enc_idle with []; try constructor.
Qed.

(** The bytes of a finished transfer, as a decoder sees them. *)
Lemma encoded_dechunk `{Radix16Laws} M (no_trailer : bool) full s extra :
  18 <= M -> len s <= u64_max -> chunks_written full s ->
  dechunk M ((full ++ chunk_sep full ++ last_chunk no_trailer) ++ extra) s
    ((if no_trailer then CRLF else []) ++ extra).
Proof.
  intros HM Hlen Hcw. rewrite <- (app_nil_r s) at 1. rewrite <- !app_assoc.
  apply chunks_written_dechunk; try done. unfold last_chunk. rewrite <- !app_assoc.
  rewrite (app_assoc (bs "0") CRLF). apply dechunk_last. by apply size_line_last.
Qed.

(** The encoder always completes and writes a chunked body with the data of
    its reader, whatever the pattern of reads, partial writes and waits: it
    returns the number of bytes written, all of them flushed, counts the
    data, and what it has written decodes to the data, followed by the empty
    trailer if it was to write one, and by whatever comes next. *)
Theorem chunked_encoder_transfers {R} `{AsyncBufReadLaws R} `{Radix16Laws} (rd : R) (wr : writer) (Y : Z)
    (no_trailer : bool) (s : bytes) :
  source rd s -> ~ faulty rd -> fair_writer wr -> 0 < Y -> len s <= u64_max ->
  exists n t out,
    await (S (waits rd + writer_waits wr + length s)) StreamToChunkedTransfer_poll
      (StreamToChunkedTransfer_new rd wr Y no_trailer) = (Ok n, t) /\
    wr_out (sct_writer t) = wr_out wr ++ out /\ n = len out /\
    wr_flushed (sct_writer t) = len (wr_out (sct_writer t)) /\
    StreamToChunkedTransfer_body_size t = len s /\ StreamToChunkedTransfer_finished t = true /\
    forall M extra, 18 <= M -> dechunk M (out ++ extra) s ((if no_trailer then CRLF else []) ++ extra).
Proof.
  intros Hs Hf Hw HY Hlen. pose proof (encoding_new rd wr Y no_trailer s Hs Hf Hw) as He.
  destruct (await_encode_spec Y no_trailer (wr_out wr) s HY (S (waits rd + writer_waits wr + length s)) _ s He)
    as (n & t & s' & Ha & -> & full & Hcw & Ho & Hn & Hfl & Hcp & Hfin); [unfold enc_size; cbn; lia|].
  exists n, t, (full ++ chunk_sep full ++ last_chunk no_trailer). split_and!; try done.
  intros M extra HM. by apply encoded_dechunk.
Qed.

Lemma chunked_encoder_transfers_witness :
  let RX := radix16_reference in
  let rd : reader := [Data (bs "hello"); Pend; Data (bs "world")] in
  let wr := {| wr_writes := [Accept 2; WPend]; wr_flushes := [FPend]; wr_out := []; wr_flushed := 0 |} in
  exists n t out,
    await (S (waits rd + writer_waits wr + length (bs "helloworld"))) StreamToChunkedTransfer_poll
      (StreamToChunkedTransfer_new rd wr 4 true) = (Ok n, t) /\
    wr_out (sct_writer t) = wr_out wr ++ out /\ n = len out /\
    wr_flushed (sct_writer t) = len (wr_out (sct_writer t)) /\
    StreamToChunkedTransfer_body_size t = len (bs "helloworld") /\ StreamToChunkedTransfer_finished t = true /\
    forall M extra, 18 <= M -> dechunk M (out ++ extra) (bs "helloworld") (CRLF ++ extra).
Proof.
  intros RX rd wr.
  apply (@chunked_encoder_transfers reader reader_AsyncBufRead reader_AsyncBufReadLaws RX radix16_reference_laws
    rd wr 4 true (bs "helloworld")).
  - reflexivity.
  - intros Hf. apply Hf. repeat constructor; discriminate.
  - split; repeat constructor.
  - reflexivity.
  - apply Z.leb_le. reflexivity.
Defined.

(** C11: a body that the encoder has sent is decoded to the same bytes, whatever
    the reads and writes on both sides, and the decoder stops exactly where
    the encoded body ends. *)
Theorem chunked_transfer_roundtrip {R R'} `{AsyncBufReadLaws R} `{AsyncBufReadLaws R'} `{Radix16Laws}
    (rd : R) (rd' : R') (wr : writer) (Y M : Z) (no_trailer : bool) (s extra : bytes) (rooms : nat -> Z) n t :
  source rd s -> ~ faulty rd -> fair_writer wr -> wr_out wr = [] -> 0 < Y -> len s <= u64_max -> 18 <= M ->
  await (S (waits rd + writer_waits wr + length s)) StreamToChunkedTransfer_poll
    (StreamToChunkedTransfer_new rd wr Y no_trailer) = (Ok n, t) ->
  source rd' (wr_out (sct_writer t) ++ extra) -> ~ faulty rd' -> (forall i, 0 < rooms i) ->
  exists d, read_to_end (S (waits rd' + length s)) rooms (ChunkedDataDecodeReader_new rd' M) = (Ok s, d) /\
    ChunkedDataDecodeReader_finished d = true /\
    source (cdd_reader d) ((if no_trailer then CRLF else []) ++ extra).
Proof.
  intros Hs Hf Hw Ho HY Hlen HM Ha Hs' Hf' Hrooms. pose proof (encoding_new rd wr Y no_trailer s Hs Hf Hw) as He.
  destruct (await_encode_spec Y no_trailer (wr_out wr) s HY (S (waits rd + writer_waits wr + length s)) _ s He)
    as (n' & t' & s' & Ha' & -> & full & Hcw & Ho' & _); [unfold enc_size; cbn; lia|].
  rewrite Ha in Ha'. injection Ha' as <- <-. rewrite Ho', Ho in Hs'. cbn [app] in Hs'.
  pose (L := ChunkedDataDecodeReader_laws lenient M ((if no_trailer then CRLF else []) ++ extra) :
    AsyncReadLaws (ChunkedDataDecodeReader R')).
  destruct (read_to_end_spec (H0 := L) (S (waits rd' + length s)) rooms (ChunkedDataDecodeReader_new rd' M) s)
    as (d & -> & _ & [? [? _]] & _); try done; [|by intros []|cbn; lia|by exists d].
  apply cdd_source_new with ((full ++ chunk_sep full ++ last_chunk no_trailer) ++ extra); [done|].
  by apply encoded_dechunk.
Qed.

Lemma chunked_transfer_roundtrip_witness :
  let RX := radix16_reference in
  let rd : reader := [Data (bs "hello"); Pend; Data (bs "world")] in
  let wr := {| wr_writes := [Accept 2; WPend]; wr_flushes := []; wr_out := []; wr_flushed := 0 |} in
  let wire := bs "5" ++ CRLF ++ bs "hello" ++ CRLF ++ bs "5" ++ CRLF ++ bs "world" ++ CRLF ++ bs "0" ++ CRLF ++ CRLF in
  let rd' : reader := [Data (take 3 wire); Pend; Data (drop 3 wire ++ bs "GET")] in
  exists d, read_to_end (S (waits rd' + length (bs "helloworld"))) (fun _ => 3) (ChunkedDataDecodeReader_new rd' 64) =
      (Ok (bs "helloworld"), d) /\
    ChunkedDataDecodeReader_finished d = true /\ source (cdd_reader d) (CRLF ++ bs "GET").
Proof.
  intros RX rd wr wire rd'.
  refine (@chunked_transfer_roundtrip reader reader reader_AsyncBufRead reader_AsyncBufReadLaws
    reader_AsyncBufRead reader_AsyncBufReadLaws RX radix16_reference_laws
    rd rd' wr 4 64 true (bs "helloworld") (bs "GET") (fun _ => 3) 25
    (snd (await 15 StreamToChunkedTransfer_poll (StreamToChunkedTransfer_new rd wr 4 true))) _ _ _ _ _ _ _ _ _ _ _).
  - reflexivity.
  - intros Hf. apply Hf. repeat constructor; discriminate.
  - split; repeat constructor.
  - reflexivity.
  - reflexivity.
  - apply Z.leb_le. reflexivity.
  - apply Z.leb_le. reflexivity.
  - vm_compute. reflexivity.
  - vm_compute. reflexivity.
  - intros Hf. apply Hf. repeat constructor; discriminate.
  - intros i. reflexivity.
Defined.
