(* ===== verification/HttpBody.v ===== *)
(** * Reading the body of an HTTP/1 message

    Models [lib/vey-http/src/body/reader.rs]: the reader that delivers the bytes
    of a body as they are on the wire, of a known length, up to the end of the
    stream, or chunked with its trailer, and stops where the body ends. *)

From Stdlib Require Import ZArith Lia Strings.Byte.
From stdpp Require Import base list.
From S2P Require Import Prelude Reader AsyncIo StreamCopy HttpLine HttpChunkDecode HttpChunkEncode.

Inductive HttpBodyType : Type :=
| ContentLength (n : Z)
| Chunked
| ReadUntilEnd.

Inductive NextReadType : Type :=
| EndOfFile
| UntilEnd
| FixedLength
| ChunkSize
| ChunkDataEnd (c : byte)
| Trailer.

Record HttpBodyReader (R : Type) : Type := {
  hbr_stream : R;
  hbr_body_type : HttpBodyType;
  hbr_next_read_type : NextReadType;
  hbr_body_line_max_len : Z;
  hbr_next_read_size : Z;
  hbr_left_total_size : Z;
  hbr_chunk_size_line_cache : bytes;
  hbr_trailer_line_length : Z;
  hbr_trailer_last_char : byte;
  hbr_finished : bool;
  hbr_read_content_length : Z;
  hbr_current_chunk_size : Z
}.
Arguments hbr_stream {R}.
Arguments hbr_body_type {R}.
Arguments hbr_next_read_type {R}.
Arguments hbr_body_line_max_len {R}.
Arguments hbr_next_read_size {R}.
Arguments hbr_left_total_size {R}.
Arguments hbr_chunk_size_line_cache {R}.
Arguments hbr_trailer_line_length {R}.
Arguments hbr_trailer_last_char {R}.
Arguments hbr_finished {R}.
Arguments hbr_read_content_length {R}.
Arguments hbr_current_chunk_size {R}.

Section Body.
Context {R : Type} `{!AsyncBufRead R} `{!Radix16}.
Implicit Types self : HttpBodyReader R.

(** Assignments to groups of fields. *)
Definition hbr_set_stream self (rd : R) : HttpBodyReader R := {|
  hbr_stream := rd; hbr_body_type := hbr_body_type self; hbr_next_read_type := hbr_next_read_type self;
  hbr_body_line_max_len := hbr_body_line_max_len self; hbr_next_read_size := hbr_next_read_size self;
  hbr_left_total_size := hbr_left_total_size self; hbr_chunk_size_line_cache := hbr_chunk_size_line_cache self;
  hbr_trailer_line_length := hbr_trailer_line_length self; hbr_trailer_last_char := hbr_trailer_last_char self;
  hbr_finished := hbr_finished self; hbr_read_content_length := hbr_read_content_length self;
  hbr_current_chunk_size := hbr_current_chunk_size self |}.

Definition hbr_set_next self (n : NextReadType) : HttpBodyReader R := {|
  hbr_stream := hbr_stream self; hbr_body_type := hbr_body_type self; hbr_next_read_type := n;
  hbr_body_line_max_len := hbr_body_line_max_len self; hbr_next_read_size := hbr_next_read_size self;
  hbr_left_total_size := hbr_left_total_size self; hbr_chunk_size_line_cache := hbr_chunk_size_line_cache self;
  hbr_trailer_line_length := hbr_trailer_line_length self; hbr_trailer_last_char := hbr_trailer_last_char self;
  hbr_finished := hbr_finished self; hbr_read_content_length := hbr_read_content_length self;
  hbr_current_chunk_size := hbr_current_chunk_size self |}.

Definition hbr_set_sizes self (next_read_size left_total_size : Z) : HttpBodyReader R := {|
  hbr_stream := hbr_stream self; hbr_body_type := hbr_body_type self; hbr_next_read_type := hbr_next_read_type self;
  hbr_body_line_max_len := hbr_body_line_max_len self; hbr_next_read_size := next_read_size;
  hbr_left_total_size := left_total_size; hbr_chunk_size_line_cache := hbr_chunk_size_line_cache self;
  hbr_trailer_line_length := hbr_trailer_line_length self; hbr_trailer_last_char := hbr_trailer_last_char self;
  hbr_finished := hbr_finished self; hbr_read_content_length := hbr_read_content_length self;
  hbr_current_chunk_size := hbr_current_chunk_size self |}.

Definition hbr_set_line self (line : bytes) : HttpBodyReader R := {|
  hbr_stream := hbr_stream self; hbr_body_type := hbr_body_type self; hbr_next_read_type := hbr_next_read_type self;
  hbr_body_line_max_len := hbr_body_line_max_len self; hbr_next_read_size := hbr_next_read_size self;
  hbr_left_total_size := hbr_left_total_size self; hbr_chunk_size_line_cache := line;
  hbr_trailer_line_length := hbr_trailer_line_length self; hbr_trailer_last_char := hbr_trailer_last_char self;
  hbr_finished := hbr_finished self; hbr_read_content_length := hbr_read_content_length self;
  hbr_current_chunk_size := hbr_current_chunk_size self |}.

Definition hbr_set_trailer self (line_length : Z) (last_char : byte) : HttpBodyReader R := {|
  hbr_stream := hbr_stream self; hbr_body_type := hbr_body_type self; hbr_next_read_type := hbr_next_read_type self;
  hbr_body_line_max_len := hbr_body_line_max_len self; hbr_next_read_size := hbr_next_read_size self;
  hbr_left_total_size := hbr_left_total_size self; hbr_chunk_size_line_cache := hbr_chunk_size_line_cache self;
  hbr_trailer_line_length := line_length; hbr_trailer_last_char := last_char;
  hbr_finished := hbr_finished self; hbr_read_content_length := hbr_read_content_length self;
  hbr_current_chunk_size := hbr_current_chunk_size self |}.

Definition hbr_set_finished self : HttpBodyReader R := {|
  hbr_stream := hbr_stream self; hbr_body_type := hbr_body_type self; hbr_next_read_type := hbr_next_read_type self;
  hbr_body_line_max_len := hbr_body_line_max_len self; hbr_next_read_size := hbr_next_read_size self;
  hbr_left_total_size := hbr_left_total_size self; hbr_chunk_size_line_cache := hbr_chunk_size_line_cache self;
  hbr_trailer_line_length := hbr_trailer_line_length self; hbr_trailer_last_char := hbr_trailer_last_char self;
  hbr_finished := true; hbr_read_content_length := hbr_read_content_length self;
  hbr_current_chunk_size := hbr_current_chunk_size self |}.

Definition hbr_set_content self (read_content_length : Z) : HttpBodyReader R := {|
  hbr_stream := hbr_stream self; hbr_body_type := hbr_body_type self; hbr_next_read_type := hbr_next_read_type self;
  hbr_body_line_max_len := hbr_body_line_max_len self; hbr_next_read_size := hbr_next_read_size self;
  hbr_left_total_size := hbr_left_total_size self; hbr_chunk_size_line_cache := hbr_chunk_size_line_cache self;
  hbr_trailer_line_length := hbr_trailer_line_length self; hbr_trailer_last_char := hbr_trailer_last_char self;
  hbr_finished := hbr_finished self; hbr_read_content_length := read_content_length;
  hbr_current_chunk_size := hbr_current_chunk_size self |}.

Definition hbr_set_chunk self (chunk_size : Z) : HttpBodyReader R := {|
  hbr_stream := hbr_stream self; hbr_body_type := hbr_body_type self; hbr_next_read_type := hbr_next_read_type self;
  hbr_body_line_max_len := hbr_body_line_max_len self; hbr_next_read_size := hbr_next_read_size self;
  hbr_left_total_size := hbr_left_total_size self; hbr_chunk_size_line_cache := hbr_chunk_size_line_cache self;
  hbr_trailer_line_length := hbr_trailer_line_length self; hbr_trailer_last_char := hbr_trailer_last_char self;
  hbr_finished := hbr_finished self; hbr_read_content_length := hbr_read_content_length self;
  hbr_current_chunk_size := chunk_size |}.

(** A fresh reader, with the fields in which the constructors differ. *)
Definition hbr_make (rd : R) (ty : HttpBodyType) (next : NextReadType) (line_max left chunk : Z) : HttpBodyReader R := {|
  hbr_stream := rd; hbr_body_type := ty; hbr_next_read_type := next; hbr_body_line_max_len := line_max;
  hbr_next_read_size := 0; hbr_left_total_size := left; hbr_chunk_size_line_cache := [];
  hbr_trailer_line_length := 0; hbr_trailer_last_char := x00; hbr_finished := false;
  hbr_read_content_length := 0; hbr_current_chunk_size := chunk |}.

(** Without the assertion of debug builds that nothing is left to read. *)
Definition update_next_read_size self : HttpBodyReader R :=
  if usize_max <? hbr_left_total_size self
  then hbr_set_sizes self usize_max (hbr_left_total_size self - usize_max)
  else if 0 <? hbr_left_total_size self then hbr_set_sizes self (hbr_left_total_size self) 0
  else self.

Definition new_read_until_end (rd : R) : HttpBodyReader R :=
  update_next_read_size (hbr_make rd ReadUntilEnd UntilEnd 1024 0 0).

Definition new_fixed_length (rd : R) (content_length : Z) : HttpBodyReader R :=
  update_next_read_size (hbr_make rd (ContentLength content_length) FixedLength 1024 content_length 0).

Definition new_chunked (rd : R) (body_line_max_len : Z) : HttpBodyReader R :=
  update_next_read_size (hbr_make rd Chunked ChunkSize body_line_max_len 0 0).

Definition new_trailer (rd : R) (body_line_max_len : Z) : HttpBodyReader R :=
  hbr_make rd Chunked Trailer body_line_max_len 0 0.

Definition new_chunked_after_preview (rd : R) (body_line_max_len next_chunk_size : Z) : HttpBodyReader R :=
  update_next_read_size (hbr_make rd Chunked FixedLength body_line_max_len next_chunk_size next_chunk_size).

Definition HttpBodyReader_new (rd : R) (body_type : HttpBodyType) (body_line_max_len : Z) : HttpBodyReader R :=
  match body_type with
  | ReadUntilEnd => new_read_until_end rd
  | ContentLength n => new_fixed_length rd n
  | Chunked => new_chunked rd body_line_max_len
  end.

Definition hbr_body_size self : Z := hbr_read_content_length self.
Definition hbr_is_chunked self : bool := match hbr_body_type self with Chunked => true | _ => false end.

Definition poll_eof self (room : Z) : poll (res io_error bytes) * HttpBodyReader R :=
  match ar_poll_read (hbr_stream self) room with
  | (Ready (Ok c), rd) =>
      let self := hbr_set_stream self rd in
      let nr := len c in
      (Ready (Ok c),
       if nr =? 0 then hbr_set_finished self else hbr_set_content self (hbr_read_content_length self + nr))
  | (r, rd) => (r, hbr_set_stream self rd)
  end.

Definition poll_fixed self (room : Z) : poll (res io_error bytes) * HttpBodyReader R :=
  match ar_poll_read (hbr_stream self) (Z.min room (hbr_next_read_size self)) with
  | (Ready (Ok c), rd) =>
      let self := hbr_set_stream self rd in
      let nr := len c in
      if nr =? 0 then (Ready (Err UnexpectedEof), self)
      else
        match usub (E := io_error) (hbr_next_read_size self) nr with
        | Ok next_read_size =>
            let self := hbr_set_content self (hbr_read_content_length self + nr) in
            let self := hbr_set_sizes self next_read_size (hbr_left_total_size self) in
            if next_read_size =? 0 then
              let self := update_next_read_size self in
              if hbr_next_read_size self =? 0 then
                match hbr_body_type self with
                | ContentLength _ => (Ready (Ok c), hbr_set_next self EndOfFile)
                | Chunked => (Ready (Ok c), hbr_set_next self (ChunkDataEnd HTTP_CR))
                | ReadUntilEnd => (Ready Panic, self)
                end
              else (Ready (Ok c), self)
            else (Ready (Ok c), self)
        | _ => (Ready Panic, self)
        end
  | (r, rd) => (r, hbr_set_stream self rd)
  end.

(** [let cache = ready!(reader.poll_fill_buf(cx))?], not empty, and no more of it
    than there is room for. *)
Definition with_cache self (room : Z)
    (k : bytes -> HttpBodyReader R -> poll (res io_error bytes) * HttpBodyReader R)
    : poll (res io_error bytes) * HttpBodyReader R :=
  match poll_fill_buf (hbr_stream self) with
  | (Pending, rd) => (Pending, hbr_set_stream self rd)
  | (Ready (Err e), rd) => (Ready (Err e), hbr_set_stream self rd)
  | (Ready Panic, rd) => (Ready Panic, hbr_set_stream self rd)
  | (Ready (Ok cache), rd) =>
      let self := hbr_set_stream self rd in
      if len cache =? 0 then (Ready (Err UnexpectedEof), self)
      else k (if room <? len cache then take (Z.to_nat room) cache else cache) self
  end.

Definition hbr_consume self (n : Z) : HttpBodyReader R := hbr_set_stream self (consume (hbr_stream self) n).

Definition parse_chunk_size_and_update_next_read_type self : res io_error unit * HttpBodyReader R :=
  match HttpChunkedLine_parse (hbr_chunk_size_line_cache self) with
  | Ok chunk =>
      let size := hcl_chunk_size chunk in
      let self := hbr_set_chunk self size in
      let self :=
        if size =? 0 then hbr_set_next self Trailer
        else update_next_read_size (hbr_set_sizes (hbr_set_next self FixedLength) (hbr_next_read_size self) size) in
      (Ok tt, hbr_set_line self [])
  | Err _ => (Err InvalidData, self)
  | Panic => (Panic, self)
  end.

Definition check_chunk_size_last_char self (c : byte) : res io_error unit * HttpBodyReader R :=
  if bool_decide (c <> HTTP_LF) then (Err InvalidData, self)
  else parse_chunk_size_and_update_next_read_type (hbr_set_line self (hbr_chunk_size_line_cache self ++ [HTTP_LF])).

(** The result of a step whose last part is one of the checks. *)
Definition after_check (r : res io_error unit * HttpBodyReader R) (out : bytes)
    : poll (res io_error bytes) * HttpBodyReader R :=
  match r with
  | (Ok _, self) => (Ready (Ok out), self)
  | (Err e, self) => (Ready (Err e), self)
  | (Panic, self) => (Ready Panic, self)
  end.

Definition poll_chunk_size self (room : Z) : poll (res io_error bytes) * HttpBodyReader R :=
  with_cache self room (fun cache self =>
    if bool_decide (last (hbr_chunk_size_line_cache self) = Some HTTP_CR) then
      match cache with
      | next_char :: _ =>
          after_check (check_chunk_size_last_char (hbr_consume self 1) next_char) [next_char]
      | [] => (Ready Panic, self)
      end
    else
      match memchr HTTP_CR cache with
      | Some offset =>
          let nw := offset + 1 in
          if hbr_body_line_max_len self <=? len (hbr_chunk_size_line_cache self) + nw
          then (Ready (Err InvalidData), self)
          else
            let to_copy := take (Z.to_nat nw) cache in
            let self := hbr_set_line self (hbr_chunk_size_line_cache self ++ to_copy) in
            match drop (Z.to_nat nw) cache with
            | next_char :: _ =>
                after_check (check_chunk_size_last_char (hbr_consume self (nw + 1)) next_char) (to_copy ++ [next_char])
            | [] => (Ready (Ok to_copy), hbr_consume self nw)
            end
      | None =>
          let nw := len cache in
          if hbr_body_line_max_len self <=? len (hbr_chunk_size_line_cache self) + nw
          then (Ready (Err InvalidData), self)
          else
            (Ready (Ok cache), hbr_consume (hbr_set_line self (hbr_chunk_size_line_cache self ++ cache)) nw)
      end).

Definition update_next_read_type_after_chunk_data_end self : HttpBodyReader R := hbr_set_next self ChunkSize.

Definition check_chunk_data_end_last_char self (c : byte) : res io_error unit * HttpBodyReader R :=
  if bool_decide (c <> HTTP_LF) then (Err InvalidData, self)
  else (Ok tt, update_next_read_type_after_chunk_data_end self).

Definition poll_chunk_data_end self (room : Z) (c : byte) : poll (res io_error bytes) * HttpBodyReader R :=
  with_cache self room (fun cache self =>
    match cache with
    | [] => (Ready Panic, self)
    | first :: cache' =>
        if bool_decide (first <> c) then (Ready (Err InvalidData), self)
        else if bool_decide (c = HTTP_CR) then
          match cache' with
          | next_char :: _ =>
              after_check (check_chunk_data_end_last_char (hbr_consume self 2) next_char) [c; HTTP_LF]
          | [] => (Ready (Ok [c]), hbr_set_next (hbr_consume self 1) (ChunkDataEnd HTTP_LF))
          end
        else if bool_decide (c = HTTP_LF) then
          (Ready (Ok [c]), update_next_read_type_after_chunk_data_end (hbr_consume self 1))
        else (Ready Panic, self)
    end).

Definition update_next_read_type_after_trailer_header self : HttpBodyReader R :=
  if hbr_trailer_line_length self =? 0 then hbr_set_next self EndOfFile
  else hbr_set_next (hbr_set_trailer self 0 x00) Trailer.

Definition check_trailer_header_last_char self (c : byte) : res io_error unit * HttpBodyReader R :=
  if bool_decide (c <> HTTP_LF) then (Err InvalidData, self)
  else (Ok tt, update_next_read_type_after_trailer_header self).

Definition poll_trailer self (room : Z) : poll (res io_error bytes) * HttpBodyReader R :=
  with_cache self room (fun cache self =>
    if bool_decide (hbr_trailer_last_char self = HTTP_CR) then
      match cache with
      | next_char :: _ =>
          after_check (check_trailer_header_last_char (hbr_consume self 1) next_char) [next_char]
      | [] => (Ready Panic, self)
      end
    else
      match memchr HTTP_CR cache with
      | Some offset =>
          let nw := offset + 1 in
          if hbr_body_line_max_len self <=? hbr_trailer_line_length self + nw
          then (Ready (Err InvalidData), self)
          else
            let to_copy := take (Z.to_nat nw) cache in
            let self := hbr_set_trailer self (hbr_trailer_line_length self + offset) HTTP_CR in
            match drop (Z.to_nat nw) cache with
            | next_char :: _ =>
                after_check (check_trailer_header_last_char (hbr_consume self (nw + 1)) next_char) (to_copy ++ [next_char])
            | [] => (Ready (Ok to_copy), hbr_consume self nw)
            end
      | None =>
          let nw := len cache in
          if hbr_body_line_max_len self <=? hbr_trailer_line_length self + nw
          then (Ready (Err InvalidData), self)
          else
            match last cache with
            | Some last_char =>
                (Ready (Ok cache), hbr_consume (hbr_set_trailer self (hbr_trailer_line_length self + nw) last_char) nw)
            | None => (Ready Panic, self)
            end
      end).

(** One round of [poll_chunked], by the kind of bytes that come next. *)
Definition poll_chunked_step self (room : Z) : poll (res io_error bytes) * HttpBodyReader R :=
  match hbr_next_read_type self with
  | ChunkSize => poll_chunk_size self room
  | FixedLength => poll_fixed self room
  | ChunkDataEnd c => poll_chunk_data_end self room c
  | Trailer => poll_trailer self room
  | EndOfFile => (Ready (Ok []), hbr_set_finished self)
  | UntilEnd => (Ready Panic, self)
  end.

(** Every round that does not return delivers a byte. *)
Fixpoint poll_chunked_loop (fuel : nat) self (room : Z) (filled : bytes)
    : poll (res io_error bytes) * HttpBodyReader R :=
  match fuel with
  | O => (Ready Panic, self)
  | S fuel' =>
      if room <=? len filled then (Ready (Ok filled), self)
      else
        match poll_chunked_step self (room - len filled) with
        | (Pending, self) => if negb (len filled =? 0) then (Ready (Ok filled), self) else (Pending, self)
        | (Ready (Ok c), self) =>
            if len c =? 0 then (Ready (Ok filled), self)
            else poll_chunked_loop fuel' self room (filled ++ c)
        | (Ready (Err e), self) => (Ready (Err e), self)
        | (Ready Panic, self) => (Ready Panic, self)
        end
  end.

Definition poll_chunked self (room : Z) : poll (res io_error bytes) * HttpBodyReader R :=
  poll_chunked_loop (S (Z.to_nat room)) self room [].

Definition HttpBodyReader_poll_read self (room : Z) : poll (res io_error bytes) * HttpBodyReader R :=
  match hbr_body_type self with
  | ReadUntilEnd => poll_eof self room
  | ContentLength _ =>
      match hbr_next_read_type self with
      | EndOfFile => (Ready (Ok []), hbr_set_finished self)
      | FixedLength => poll_fixed self room
      | _ => (Ready Panic, self)
      end
  | Chunked => poll_chunked self room
  end.

#[export] Instance HttpBodyReader_AsyncRead : AsyncRead (HttpBodyReader R) := HttpBodyReader_poll_read.

End Body.

(** ** Chunked bodies on the wire

    As this reader takes them: a size line ends at the first carriage return,
    which a line feed has to follow; the trailer ends with an empty line. *)
Section Wire.
Context `{Radix16} (M : Z).

Definition body_line (pre : bytes) (n : Z) : Prop :=
  (HTTP_CR ∉ pre) /\ len pre + 1 < M /\
  exists ext, HttpChunkedLine_parse (pre ++ CRLF) = Ok {| hcl_chunk_size := n; hcl_extension := ext |}.

Inductive trailer_wire : bytes -> Prop :=
| trailer_end : 1 < M -> trailer_wire CRLF
| trailer_line pre s :
    pre <> [] -> (HTTP_CR ∉ pre) -> len pre + 1 < M -> trailer_wire s -> trailer_wire (pre ++ CRLF ++ s).

(** The bytes of a body, and the data in it. *)
Inductive chunked_wire : bytes -> bytes -> Prop :=
| wire_last pre tr : body_line pre 0 -> trailer_wire tr -> chunked_wire (pre ++ CRLF ++ tr) []
| wire_chunk pre chunk s data :
    body_line pre (len chunk) -> chunk <> [] -> chunked_wire s data ->
    chunked_wire (pre ++ CRLF ++ chunk ++ CRLF ++ s) (chunk ++ data).

End Wire.

Section BodySpec.
Context {R : Type} `{AsyncBufReadLaws R} `{Radix16Laws} (M : Z) (rest : bytes).
Implicit Types self : HttpBodyReader R.

(** The bytes [s] of a chunked body are still to be delivered, with the data
    [data], by a reader in the state [self]. *)
Inductive body_state self : bytes -> bytes -> Prop :=
| body_size (l s data : bytes) :
    hbr_next_read_type self = ChunkSize -> hbr_next_read_size self = 0 ->
    hbr_trailer_line_length self = 0 -> hbr_trailer_last_char self <> HTTP_CR ->
    hbr_chunk_size_line_cache self = l -> (HTTP_CR ∉ l) -> chunked_wire M (l ++ s) data ->
    body_state self s data
| body_size_cr (pre s data : bytes) :
    hbr_next_read_type self = ChunkSize -> hbr_next_read_size self = 0 ->
    hbr_trailer_line_length self = 0 -> hbr_trailer_last_char self <> HTTP_CR ->
    hbr_chunk_size_line_cache self = pre ++ [HTTP_CR] -> (HTTP_CR ∉ pre) ->
    chunked_wire M (pre ++ CRLF ++ s) data -> body_state self (HTTP_LF :: s) data
| body_data (chunk s data : bytes) :
    hbr_next_read_type self = FixedLength -> hbr_next_read_size self = len chunk ->
    hbr_trailer_line_length self = 0 -> hbr_trailer_last_char self <> HTTP_CR ->
    hbr_chunk_size_line_cache self = [] -> chunk <> [] -> chunked_wire M s data ->
    body_state self (chunk ++ CRLF ++ s) (chunk ++ data)
| body_end_r (s data : bytes) :
    hbr_next_read_type self = ChunkDataEnd HTTP_CR -> hbr_next_read_size self = 0 ->
    hbr_trailer_line_length self = 0 -> hbr_trailer_last_char self <> HTTP_CR ->
    hbr_chunk_size_line_cache self = [] -> chunked_wire M s data -> body_state self (CRLF ++ s) data
| body_end_n (s data : bytes) :
    hbr_next_read_type self = ChunkDataEnd HTTP_LF -> hbr_next_read_size self = 0 ->
    hbr_trailer_line_length self = 0 -> hbr_trailer_last_char self <> HTTP_CR ->
    hbr_chunk_size_line_cache self = [] -> chunked_wire M s data -> body_state self (HTTP_LF :: s) data
| body_trailer (p s : bytes) :
    hbr_next_read_type self = Trailer -> hbr_trailer_last_char self <> HTTP_CR ->
    hbr_trailer_line_length self = len p -> (HTTP_CR ∉ p) -> trailer_wire M (p ++ s) -> body_state self s []
| body_trailer_cr (p s : bytes) :
    hbr_next_read_type self = Trailer -> hbr_trailer_last_char self = HTTP_CR ->
    hbr_trailer_line_length self = len p -> (if len p =? 0 then s = [] else trailer_wire M s) ->
    body_state self (HTTP_LF :: s) []
| body_eof : hbr_next_read_type self = EndOfFile -> body_state self [] [].

(** The fields that never change while a chunked body is read, and the stream. *)
Record body_ok self (s data : bytes) : Prop := {
  bo_type : hbr_body_type self = Chunked;
  bo_max : hbr_body_line_max_len self = M;
  bo_left : hbr_left_total_size self = 0;
  bo_stream : sound (hbr_stream self) (s ++ rest);
  bo_state : body_state self s data
}.

(** What a round does: it waits, or delivers a part of the body; it delivers
    nothing only at its end. *)
Definition body_step self (s data : bytes) (room : Z) (r : poll (res io_error bytes) * HttpBodyReader R) : Prop :=
  match r with
  | (Ready (Ok c), self') =>
      exists s' data', s = c ++ s' /\ len c <= room /\ body_ok self' s' data' /\
        hbr_read_content_length self' + len data' = hbr_read_content_length self + len data /\
        (c = [] -> s = [] /\ hbr_finished self' = true) /\ (waits (hbr_stream self') <= waits (hbr_stream self))%nat
  | (Pending, self') =>
      body_ok self' s data /\ hbr_read_content_length self' = hbr_read_content_length self /\
      (waits (hbr_stream self') < waits (hbr_stream self))%nat
  | (Ready _, _) => False
  end.

Lemma with_cache_spec self s data room k :
  body_ok self s data -> s <> [] -> 0 < room ->
  (forall cache w rd,
     cache <> [] -> len cache <= room -> s ++ rest = cache ++ w -> (waits rd <= waits (hbr_stream self))%nat ->
     (forall n, 0 <= n <= len cache -> sound (consume rd n) (drop (Z.to_nat n) cache ++ w) /\
        (waits (consume rd n) <= waits (hbr_stream self))%nat) ->
     body_step self s data room (k cache (hbr_set_stream self rd))) ->
  body_step self s data room (with_cache self room k).
Proof.
  intros [] Hne Hroom Hk. unfold with_cache. pose proof (sound_fill_buf _ _ bo_stream0) as Hp.
  destruct (poll_fill_buf (hbr_stream self)) as [[[d|e|]|] rd]; [|done..|].
  2: { destruct Hp as [Hs Hw]. split_and!; [|done|done]. constructor; try done. by destruct bo_state0; econstructor. }
  destruct Hp as (s' & Heq & Hnil & Hw & Hc).
  destruct (Z.eqb_spec (len d) 0) as [->%len_0|Hd].
  { specialize (Hnil eq_refl). apply app_eq_nil in Hnil as [? _]. done. }
  destruct (Z.ltb_spec room (len d)) as [Hlt|Hge].
  - apply Hk with (drop (Z.to_nat room) d ++ s'); [|len_lia| |done|].
    + intros Hx%(f_equal len). len_lia.
    + by rewrite app_assoc, take_drop.
    + intros n Hn. destruct (Hc n ltac:(len_lia)) as [? ?]. split; [|done].
      rewrite app_assoc, drop_take_app by len_lia. done.
  - apply Hk with s'; try done. by intros ->.
Qed.

(** The size line is complete: what follows it, by the size. *)
Lemma check_chunk_size_spec self pre s data :
  hbr_body_type self = Chunked -> hbr_body_line_max_len self = M -> hbr_left_total_size self = 0 ->
  hbr_next_read_size self = 0 -> hbr_trailer_line_length self = 0 -> hbr_trailer_last_char self <> HTTP_CR ->
  hbr_chunk_size_line_cache self = pre ++ [HTTP_CR] -> (HTTP_CR ∉ pre) ->
  sound (hbr_stream self) (s ++ rest) -> chunked_wire M (pre ++ CRLF ++ s) data ->
  exists self', check_chunk_size_last_char self HTTP_LF = (Ok tt, self') /\ body_ok self' s data /\
    hbr_read_content_length self' = hbr_read_content_length self /\ hbr_stream self' = hbr_stream self.
Proof.
  intros Hty HM Hl Hn Htl Htc Hline Hpre Hs Hw. unfold check_chunk_size_last_char.
  rewrite bool_decide_eq_false_2 by (intros Hx; by apply Hx).
  unfold parse_chunk_size_and_update_next_read_type. cbn [hbr_set_line hbr_chunk_size_line_cache].
  rewrite Hline, <- app_assoc. cbn [app]. change [HTTP_CR; HTTP_LF] with CRLF.
  assert (forall pre' s', (HTTP_CR ∉ pre') -> pre ++ CRLF ++ s = pre' ++ CRLF ++ s' -> pre' = pre /\ s' = s) as Hinj.
  { intros pre' s' Hp' Heq. destruct (split_unique HTTP_CR pre (HTTP_LF :: s) pre' (HTTP_LF :: s')) as [<- [= <-]]; done. }
  inversion Hw as [pre' tr Hb Htr Heq|pre' chunk s' data' Hb Hne Hw' Heq]; subst data;
    symmetry in Heq; apply Hinj in Heq as [-> Heq]; try apply Hb; destruct Hb as (_ & _ & ext & Hparse); rewrite Hparse; cbn [hcl_chunk_size];
    pose proof (chunk_line_size_range _ _ Hparse) as Hr; cbn [hcl_chunk_size] in Hr.
  - subst tr. cbn [Z.eqb]. eexists. split_and!; [reflexivity| |done|done]. constructor; try done.
    apply (body_trailer _ []); try done. apply not_elem_of_nil.
  - assert (0 < len chunk) by (destruct chunk; [done|len_lia]).
    destruct (Z.eqb_spec (len chunk) 0); [lia|]. eexists. split; [reflexivity|].
    unfold update_next_read_size. cbn [hbr_set_sizes hbr_left_total_size].
    destruct (Z.ltb_spec usize_max (len chunk)); [unfold usize_max in *; lia|].
    destruct (Z.ltb_spec 0 (len chunk)); [|lia]. subst s. split_and!; try done. constructor; try done.
    by apply body_data.
Qed.

(** A line of which [l] has been read. *)
Lemma line_ahead l s pre tail :
  (HTTP_CR ∉ l) -> (HTTP_CR ∉ pre) -> l ++ s = pre ++ CRLF ++ tail ->
  exists p, s = p ++ CRLF ++ tail /\ pre = l ++ p.
Proof.
  intros Hl Hp Heq. apply app_eq_inv in Heq as [(k & -> & Heq)|(k & -> & ->)].
  - destruct k as [|b k]; [exists []; rewrite !app_nil_r; by split|].
    injection Heq as <- _. apply not_elem_of_app in Hl as [_ Hl]. by destruct Hl; left.
  - by exists k.
Qed.

(** The search for the end of a line in a part of it and of what follows. *)
Lemma cr_scan p w0 cache w :
  (HTTP_CR ∉ p) -> p ++ CRLF ++ w0 = cache ++ w ->
  match memchr HTTP_CR cache with
  | Some offset =>
      offset = len p /\ len p + 1 <= len cache /\ take (Z.to_nat (len p + 1)) cache = p ++ [HTTP_CR] /\
      match drop (Z.to_nat (len p + 1)) cache with
      | [] => drop (Z.to_nat (len p + 1)) cache ++ w = HTTP_LF :: w0
      | c :: _ => c = HTTP_LF /\ len p + 1 + 1 <= len cache /\ drop (Z.to_nat (len p + 1 + 1)) cache ++ w = w0
      end
  | None => exists p', p = cache ++ p' /\ w = p' ++ CRLF ++ w0
  end.
Proof.
  intros Hp Heq. pose proof (memchr_part HTTP_CR p _ cache w Hp Heq) as Hm.
  destruct (memchr HTTP_CR cache) as [off|]; [|done]. destruct Hm as (-> & post & -> & Hq).
  assert (p ++ HTTP_CR :: post = (p ++ [HTTP_CR]) ++ post) as -> by (by rewrite <- app_assoc).
  replace (Z.to_nat (len p + 1)) with (length (p ++ [HTTP_CR])) by (rewrite length_app; cbn; unfold len; lia).
  rewrite take_app_length, drop_app_length. split_and!; [done|len_lia|done|].
  destruct post as [|c post]; [done|].
  assert (c = HTTP_LF /\ post ++ w = w0) as [-> <-] by (by injection Hq). split_and!; [done|len_lia|].
  replace (Z.to_nat (len p + 1 + 1)) with (length (p ++ CRLF)) by (rewrite length_app; cbn; unfold len; lia).
  assert ((p ++ [HTTP_CR]) ++ HTTP_LF :: post = (p ++ CRLF) ++ post) as -> by (by rewrite <- !app_assoc).
  by rewrite drop_app_length.
Qed.

Lemma size_line_ahead l s data :
  (HTTP_CR ∉ l) -> chunked_wire M (l ++ s) data ->
  exists p tail, s = p ++ CRLF ++ tail /\ (HTTP_CR ∉ l ++ p) /\ len l + len p + 1 < M.
Proof.
  intros Hl Hw.
  inversion Hw as [pre tr (Hp & Hlen & _) _ Heq|pre chunk s' data' (Hp & Hlen & _) _ _ Heq]; symmetry in Heq;
    destruct (line_ahead _ _ _ _ Hl Hp Heq) as (p & -> & ->); eexists p, _; split_and!; try done; len_lia.
Qed.

Lemma poll_chunk_size_spec self s data room :
  body_ok self s data -> hbr_next_read_type self = ChunkSize -> 0 < room ->
  body_step self s data room (poll_chunk_size self room).
Proof.
  intros Hok Hty Hroom. pose proof Hok as []. unfold poll_chunk_size.
  destruct bo_state0 as [l s data _ Hn Htl Htc Hl Hcr Hw|pre s data _ Hn Htl Htc Hl Hcr Hw| | | | | |]; try congruence.
  - destruct (size_line_ahead _ _ _ Hcr Hw) as (p & tail & -> & Hp & Hlen).
    apply with_cache_spec; [done|by destruct p|done|]. intros cache w rd Hne Hcl Heq Hwt Hc.
    cbn [hbr_set_stream hbr_chunk_size_line_cache hbr_body_line_max_len]. rewrite Hl.
    rewrite bool_decide_eq_false_2.
    2: { intros Hx. apply last_Some in Hx as [l' ->]. apply not_elem_of_app in Hcr as [_ Hcr]. by destruct Hcr; left. }
    apply not_elem_of_app in Hp as Hp'. destruct Hp' as [_ Hp']. rewrite <- !app_assoc in Heq.
    pose proof (cr_scan p (tail ++ rest) cache w Hp' Heq) as Hm. rewrite bo_max0. destruct (memchr HTTP_CR cache) as [off|].
    + destruct Hm as (-> & Hle & -> & Hq).
      destruct (Z.leb_spec M (len l + (len p + 1))); [lia|].
      assert (p ++ [HTTP_CR] <> []) as Hnn by (by destruct p).
      destruct (drop (Z.to_nat (len p + 1)) cache) as [|b post] eqn:Hd.
      * destruct (Hc (len p + 1) ltac:(len_lia)) as [Hs1 Hw1]. rewrite Hd, Hq in Hs1.
        exists (HTTP_LF :: tail), data. split_and!; try done; [by rewrite <- app_assoc|len_lia|].
        constructor; try done. apply (body_size_cr _ (l ++ p)); try done; cbn; by rewrite <- app_assoc.
      * destruct Hq as (-> & Hle2 & Hdrop). destruct (Hc (len p + 1 + 1) ltac:(len_lia)) as [Hs1 Hw1].
        rewrite Hdrop in Hs1.
        destruct (check_chunk_size_spec (hbr_consume (hbr_set_line (hbr_set_stream self rd) (l ++ p ++ [HTTP_CR])) (len p + 1 + 1))
          (l ++ p) tail data) as (self' & -> & Hok' & Hcl' & Hst'); try done; [cbn; by rewrite <- app_assoc..|].
        cbn [after_check]. exists tail, data. rewrite Hst', Hcl'.
        split_and!; try done; [by rewrite <- !app_assoc|len_lia|by destruct p].
    + destruct Hm as (p' & -> & ->).
      destruct (Z.leb_spec M (len l + len cache)); [len_lia|].
      destruct (Hc (len cache) ltac:(len_lia)) as [Hs1 Hw1]. rewrite drop_ge in Hs1 by (unfold len; lia).
      exists (p' ++ CRLF ++ tail), data. split_and!; try done; [by rewrite <- app_assoc|].
      constructor; try done; [cbn; rewrite <- !app_assoc; exact Hs1|].
      apply (body_size _ (l ++ cache)); try done; [|by rewrite <- !app_assoc in *].
      rewrite app_assoc in Hp. by apply not_elem_of_app in Hp as [? _].
  - apply with_cache_spec; [done|done|done|]. intros cache w rd Hne Hcl Heq Hwt Hc.
    cbn [hbr_set_stream hbr_chunk_size_line_cache]. rewrite Hl.
    rewrite bool_decide_eq_true_2 by apply last_snoc. destruct cache as [|b cache]; [done|]. injection Heq as <- Heq.
    destruct (Hc 1 ltac:(len_lia)) as [Hs1 Hw1]. change (Z.to_nat 1) with 1%nat in Hs1. rewrite skipn_cons, drop_0, <- Heq in Hs1.
    destruct (check_chunk_size_spec (hbr_consume (hbr_set_stream self rd) 1) pre s data) as (self' & -> & Hok' & Hcl' & Hst'); try done.
    exists s, data. cbn [after_check]. rewrite Hst', Hcl'. split_and!; try done. len_lia.
Qed.

Lemma poll_chunk_data_end_spec self s data c room :
  body_ok self s data -> hbr_next_read_type self = ChunkDataEnd c -> 0 < room ->
  body_step self s data room (poll_chunk_data_end self room c).
Proof.
  intros Hok Hty Hroom. pose proof Hok as []. unfold poll_chunk_data_end.
  destruct bo_state0 as [| | |s data Ht Hn Htl Htc Hl Hw|s data Ht Hn Htl Htc Hl Hw| | |];
    rewrite Hty in *; try congruence; injection Ht as ->;
    (apply with_cache_spec; [done|done|done|]); intros cache w rd Hne Hcl Heq Hwt Hc;
    destruct cache as [|b cache]; try done; injection Heq as <- Heq; rewrite bool_decide_eq_false_2 by (intros Hx; by apply Hx).
  - rewrite bool_decide_eq_true_2 by done. destruct cache as [|b cache].
    + destruct (Hc 1 ltac:(len_lia)) as [Hs1 Hw1]. change (Z.to_nat 1) with 1%nat in Hs1.
      rewrite skipn_cons, drop_0, <- Heq in Hs1.
      exists (HTTP_LF :: s), data. split_and!; try done. constructor; try done. by apply body_end_n.
    + injection Heq as <- Heq. destruct (Hc 2 ltac:(len_lia)) as [Hs1 Hw1]. change (Z.to_nat 2) with 2%nat in Hs1.
      rewrite !skipn_cons, drop_0, <- Heq in Hs1. unfold check_chunk_data_end_last_char.
      rewrite bool_decide_eq_false_2 by (intros Hx; by apply Hx). cbn [after_check].
      exists s, data. split_and!; try done; [len_lia|]. constructor; try done.
      apply (body_size _ []); try done. apply not_elem_of_nil.
  - rewrite bool_decide_eq_false_2, bool_decide_eq_true_2 by done.
    destruct (Hc 1 ltac:(len_lia)) as [Hs1 Hw1]. change (Z.to_nat 1) with 1%nat in Hs1.
    rewrite skipn_cons, drop_0, <- Heq in Hs1.
    exists s, data. split_and!; try done; [len_lia|]. constructor; try done.
    apply (body_size _ []); try done. apply not_elem_of_nil.
Qed.

(** What follows an ended trailer line of length [n]. *)
Definition trailer_follows (n : Z) (s : bytes) : Prop := if n =? 0 then s = [] else trailer_wire M s.

Lemma trailer_line_ahead p s :
  (HTTP_CR ∉ p) -> trailer_wire M (p ++ s) ->
  exists q tail, s = q ++ CRLF ++ tail /\ (HTTP_CR ∉ q) /\ len p + len q + 1 < M /\ trailer_follows (len p + len q) tail.
Proof.
  intros Hp Hw. unfold trailer_follows. inversion Hw as [Hm Heq|pre s' Hne Hcr Hlen Hw' Heq]; symmetry in Heq.
  - destruct (line_ahead p s [] [] Hp (not_elem_of_nil _) Heq) as (q & -> & Hq).
    symmetry in Hq. apply app_eq_nil in Hq as [-> ->]. by exists [], [].
  - destruct (line_ahead _ _ _ _ Hp Hcr Heq) as (q & -> & ->). exists q, s'.
    apply not_elem_of_app in Hcr as [_ Hcr]. split_and!; try done; [len_lia|].
    destruct (Z.eqb_spec (len p + len q) 0) as [Hx|]; [|done]. destruct Hne.
    by rewrite (len_0 p), (len_0 q) by len_lia.
Qed.

Lemma check_trailer_spec self s :
  hbr_body_type self = Chunked -> hbr_body_line_max_len self = M -> hbr_left_total_size self = 0 ->
  sound (hbr_stream self) (s ++ rest) -> trailer_follows (hbr_trailer_line_length self) s ->
  exists self', check_trailer_header_last_char self HTTP_LF = (Ok tt, self') /\ body_ok self' s [] /\
    hbr_read_content_length self' = hbr_read_content_length self /\ hbr_stream self' = hbr_stream self.
Proof.
  intros Hty HM Hl Hs Hf. unfold check_trailer_header_last_char.
  rewrite bool_decide_eq_false_2 by (intros Hx; by apply Hx).
  unfold update_next_read_type_after_trailer_header, trailer_follows in *.
  destruct (Z.eqb_spec (hbr_trailer_line_length self) 0); eexists; (split_and!; [reflexivity| |done|done]);
    constructor; try done.
  - subst s. by apply body_eof.
  - apply (body_trailer _ []); try done. apply not_elem_of_nil.
Qed.

Lemma poll_trailer_spec self s data room :
  body_ok self s data -> hbr_next_read_type self = Trailer -> 0 < room ->
  body_step self s data room (poll_trailer self room).
Proof.
  intros Hok Hty Hroom. pose proof Hok as []. unfold poll_trailer.
  destruct bo_state0 as [| | | | |p s _ Htc Htl Hcr Hw|p s _ Htc Htl Hw|]; try congruence.
  - destruct (trailer_line_ahead _ _ Hcr Hw) as (q & tail & -> & Hq & Hlen & Hf).
    apply with_cache_spec; [done|by destruct q|done|]. intros cache w rd Hne Hcl Heq Hwt Hc.
    cbn [hbr_set_stream hbr_trailer_last_char hbr_trailer_line_length hbr_body_line_max_len]. rewrite Htl, bo_max0.
    rewrite bool_decide_eq_false_2 by done. rewrite <- !app_assoc in Heq.
    pose proof (cr_scan q (tail ++ rest) cache w Hq Heq) as Hm. destruct (memchr HTTP_CR cache) as [off|].
    + destruct Hm as (-> & Hle & -> & Hd).
      destruct (Z.leb_spec M (len p + (len q + 1))); [lia|].
      assert (q ++ [HTTP_CR] <> []) as Hnn by (by destruct q).
      destruct (drop (Z.to_nat (len q + 1)) cache) as [|b post] eqn:Hdr.
      * destruct (Hc (len q + 1) ltac:(len_lia)) as [Hs1 Hw1]. rewrite Hdr, Hd in Hs1.
        exists (HTTP_LF :: tail), []. split_and!; try done; [by rewrite <- app_assoc|len_lia|].
        constructor; try done. apply (body_trailer_cr _ (p ++ q)); try done; rewrite len_app; done.
      * destruct Hd as (-> & Hle2 & Hdrop). destruct (Hc (len q + 1 + 1) ltac:(len_lia)) as [Hs1 Hw1].
        rewrite Hdrop in Hs1.
        destruct (check_trailer_spec (hbr_consume (hbr_set_trailer (hbr_set_stream self rd) (len p + len q) HTTP_CR) (len q + 1 + 1))
          tail) as (self' & -> & Hok' & Hcl' & Hst'); try done.
        cbn [after_check]. exists tail, []. rewrite Hst', Hcl'.
        split_and!; try done; [by rewrite <- !app_assoc|len_lia|by destruct q].
    + destruct Hm as (q' & -> & ->). destruct (Z.leb_spec M (len p + len cache)); [len_lia|].
      destruct (last cache) as [lc|] eqn:Hlast; [|by apply last_None in Hlast].
      destruct (Hc (len cache) ltac:(len_lia)) as [Hs1 Hw1]. rewrite drop_ge in Hs1 by (unfold len; lia).
      apply not_elem_of_app in Hq as [Hq _].
      exists (q' ++ CRLF ++ tail), []. split_and!; try done; [by rewrite <- app_assoc|].
      constructor; try done; [cbn; rewrite <- !app_assoc; exact Hs1|].
      apply (body_trailer _ (p ++ cache)); try done; [|by rewrite len_app|by apply not_elem_of_app|by rewrite <- !app_assoc in *].
      cbn. intros ->. apply last_Some in Hlast as [c' ->]. apply not_elem_of_app in Hq as [_ Hq]. by destruct Hq; left.
  - apply with_cache_spec; [done|done|done|]. intros cache w rd Hne Hcl Heq Hwt Hc.
    cbn [hbr_set_stream hbr_trailer_last_char]. rewrite Htc, bool_decide_eq_true_2 by done.
    destruct cache as [|b cache]; [done|]. injection Heq as <- Heq.
    destruct (Hc 1 ltac:(len_lia)) as [Hs1 Hw1]. change (Z.to_nat 1) with 1%nat in Hs1. rewrite skipn_cons, drop_0, <- Heq in Hs1.
    destruct (check_trailer_spec (hbr_consume (hbr_set_stream self rd) 1) s) as (self' & -> & Hok' & Hcl' & Hst'); try done.
    { cbn. by rewrite Htl. }
    exists s, []. cbn [after_check]. rewrite Hst', Hcl'. split_and!; try done. len_lia.
Qed.

(** A read of a part of [chunk], limited to what is left of it. *)
Lemma poll_fixed_spec self (chunk w : bytes) room :
  sound (hbr_stream self) (chunk ++ w) -> chunk <> [] -> 0 < room -> hbr_next_read_size self = len chunk ->
  hbr_left_total_size self = 0 -> hbr_body_type self <> ReadUntilEnd ->
  match poll_fixed self room with
  | (Ready (Ok c), self') =>
      exists rd chunk', c <> [] /\ len c <= room /\ chunk = c ++ chunk' /\ sound rd (chunk' ++ w) /\
        (waits rd <= waits (hbr_stream self))%nat /\
        let self1 := hbr_set_sizes (hbr_set_content (hbr_set_stream self rd) (hbr_read_content_length self + len c)) (len chunk') 0 in
        self' = match chunk' with
                | [] => hbr_set_next self1 (match hbr_body_type self with Chunked => ChunkDataEnd HTTP_CR | _ => EndOfFile end)
                | _ :: _ => self1
                end
  | (Pending, self') => exists rd, self' = hbr_set_stream self rd /\ sound rd (chunk ++ w) /\ (waits rd < waits (hbr_stream self))%nat
  | (Ready _, _) => False
  end.
Proof.
  intros Hs Hne Hroom Hn Hl Hty. assert (0 < len chunk) by (destruct chunk; [done|len_lia]). unfold poll_fixed.
  pose proof (sound_poll_read (hbr_stream self) _ (Z.min room (hbr_next_read_size self)) Hs ltac:(lia)) as Hp.
  destruct (ar_poll_read _ _) as [[[c|e|]|] rd]; [|done..|by exists rd].
  destruct Hp as (w' & Heq & Hlen & Hs' & Hnil & Hw).
  destruct (Z.eqb_spec (len c) 0) as [->%len_0|Hc]; [specialize (Hnil eq_refl); by destruct chunk|].
  cbn [hbr_set_stream hbr_next_read_size]. rewrite Hn in *.
  rewrite usub_ok by len_lia.
  assert (exists k, chunk = c ++ k /\ w' = k ++ w) as (k & -> & ->).
  { apply app_eq_inv in Heq as [?|(k & -> & ->)]; [done|].
    assert (k = []) as -> by (apply len_0; len_lia). exists []. by rewrite !app_nil_r. }
  replace (len (c ++ k) - len c) with (len k) by len_lia.
  destruct (Z.eqb_spec (len k) 0) as [Hk|Hk].
  - apply len_0 in Hk as ->. rewrite app_nil_r in *. unfold update_next_read_size.
    cbn [hbr_set_sizes hbr_set_content hbr_left_total_size hbr_set_stream].
    rewrite Hl. change (usize_max <? 0) with false. cbn.
    destruct (hbr_body_type self); try done; exists rd, []; rewrite app_nil_r; split_and!; try done; lia.
  - exists rd, k. destruct k; [done|]. split_and!; try done; [by intros ->|lia|]. by rewrite <- Hl.
Qed.

Lemma poll_chunked_step_spec self s data room :
  body_ok self s data -> 0 < room -> body_step self s data room (poll_chunked_step self room).
Proof.
  intros Hok Hroom. unfold poll_chunked_step. destruct (hbr_next_read_type self) as [| | | |c|] eqn:Hty.
  - destruct Hok as [? ? ? ? Hst]. destruct Hst; try congruence. exists [], []. split_and!; try done; [len_lia|].
    constructor; try done. by apply body_eof.
  - destruct Hok as [? ? ? ? Hst]. destruct Hst; congruence.
  - pose proof Hok as []. destruct bo_state0 as [| |chunk s data _ Hn Htl Htc Hl Hne Hw| | | | |]; try congruence.
    rewrite <- app_assoc in bo_stream0.
    pose proof (poll_fixed_spec self chunk _ room bo_stream0 Hne Hroom Hn bo_left0 ltac:(congruence)) as Hp.
    destruct (poll_fixed self room) as [[[c|e|]|] self']; [|done..|].
    + destruct Hp as (rd & chunk' & Hc & Hlen & -> & Hs & Hwt & Hself). rewrite bo_type0 in Hself.
      exists (chunk' ++ CRLF ++ s), (chunk' ++ data). rewrite <- !app_assoc in *.
      destruct chunk' as [|b chunk']; cbn in Hself; subst self'; split_and!; try done; try (cbn; len_lia).
      * constructor; try done. cbn [app]. by apply body_end_r.
      * constructor; try done; [by rewrite <- app_assoc|]. by apply body_data.
    + destruct Hp as (rd & -> & Hs & Hwt). split_and!; try done. constructor; try done; [by rewrite <- app_assoc|].
      by apply body_data.
  - by apply poll_chunk_size_spec.
  - by apply poll_chunk_data_end_spec.
  - by apply poll_trailer_spec.
Qed.

(** The loop of [poll_chunked], which delivers what it can get at once. *)
Lemma poll_chunked_loop_spec fuel self s data room filled :
  body_ok self s data -> len filled <= room -> room - len filled < Z.of_nat fuel -> (filled = [] -> 0 < room) ->
  match poll_chunked_loop fuel self room filled with
  | (Ready (Ok c), self') =>
      exists c' s' data', c = filled ++ c' /\ s = c' ++ s' /\ len c <= room /\ body_ok self' s' data' /\
        hbr_read_content_length self' + len data' = hbr_read_content_length self + len data /\
        (c = [] -> s = [] /\ hbr_finished self' = true) /\ (waits (hbr_stream self') <= waits (hbr_stream self))%nat
  | (Pending, self') =>
      filled = [] /\ body_ok self' s data /\ hbr_read_content_length self' = hbr_read_content_length self /\
      (waits (hbr_stream self') < waits (hbr_stream self))%nat
  | (Ready _, _) => False
  end.
Proof.
  revert self s data filled. induction fuel as [|fuel IH]; intros self s data filled Hok Hlen Hfuel Hfull; [lia|].
  cbn [poll_chunked_loop]. destruct (Z.leb_spec room (len filled)) as [Hge|Hlt].
  { exists [], s, data. rewrite app_nil_r. split_and!; try done. intros ->. specialize (Hfull eq_refl). change (len []) with 0 in Hge. lia. }
  pose proof (poll_chunked_step_spec self s data (room - len filled) Hok ltac:(lia)) as Hp.
  destruct (poll_chunked_step self (room - len filled)) as [[[c|e|]|] self']; [|done..|].
  - destruct Hp as (s' & data' & -> & Hcl & Hok' & Hcnt & Hnil & Hw).
    destruct (Z.eqb_spec (len c) 0) as [->%len_0|Hc].
    + destruct (Hnil eq_refl) as [Hx Hfin]. exists [], s', data'. rewrite app_nil_r. by split_and!.
    + specialize (IH self' s' data' (filled ++ c) Hok' ltac:(len_lia) ltac:(len_lia) ltac:(len_lia)).
      destruct (poll_chunked_loop fuel self' room (filled ++ c)) as [[[d|e|]|] self'']; [|done..|].
      * destruct IH as (c' & s'' & data'' & -> & -> & Hl' & Hok'' & Hcnt' & Hnil' & Hw').
        exists (c ++ c'), s'', data''. rewrite <- !app_assoc in *. split_and!; try done; [lia| |lia].
        intros [_ [-> _]%app_eq_nil]%app_eq_nil. done.
      * destruct IH as [[_ ->]%app_eq_nil _]. done.
  - destruct Hp as (Hok' & Hcnt & Hw). destruct (Z.eqb_spec (len filled) 0) as [->%len_0|Hf]; cbn [negb]; [by split_and!|].
    exists [], s, data. rewrite app_nil_r. split_and!; try done; [by rewrite Hcnt|by intros ->|lia].
Qed.

End BodySpec.

Section BodyLaws.
Context {R : Type} `{AsyncBufReadLaws R} `{Radix16Laws} (rest : bytes) (total : Z).
Implicit Types self : HttpBodyReader R.

(** A reader that is still to deliver [s], after which [rest] is left in the
    stream and [total] bytes of content have been counted. *)
Inductive hbr_source self (s : bytes) : Prop :=
| src_chunked (data : bytes) :
    body_ok (hbr_body_line_max_len self) rest self s data -> hbr_read_content_length self + len data = total ->
    hbr_source self s
| src_fixed (n : Z) :
    hbr_body_type self = ContentLength n -> hbr_next_read_type self = FixedLength ->
    hbr_next_read_size self = len s -> hbr_left_total_size self = 0 -> s <> [] -> hbr_finished self = false ->
    sound (hbr_stream self) (s ++ rest) -> hbr_read_content_length self + len s = total -> hbr_source self s
| src_fixed_end (n : Z) :
    hbr_body_type self = ContentLength n -> hbr_next_read_type self = EndOfFile -> s = [] ->
    sound (hbr_stream self) rest -> hbr_read_content_length self = total -> hbr_source self s
| src_until_end :
    hbr_body_type self = ReadUntilEnd -> rest = [] -> sound (hbr_stream self) s -> (hbr_finished self = true -> s = []) ->
    hbr_read_content_length self + len s = total -> hbr_source self s.

Definition hbr_at_end self : Prop :=
  hbr_finished self = true /\ hbr_body_size self = total /\ sound (hbr_stream self) rest.

Lemma body_ok_nil M self data : body_ok M rest self [] data -> data = [] /\ sound (hbr_stream self) rest.
Proof.
  intros [_ _ _ Hs Hst]. split; [|done]. remember [] as s eqn:Hx. destruct Hst as [l s data _ _ _ _ _ Hcr Hw| |chunk s data| | | | |]; try done.
  - subst s. destruct (size_line_ahead M l [] data Hcr Hw) as (p & tail & Hx & _). by destruct p.
  - by destruct chunk.
Qed.

Lemma hbr_poll_read_laws self s room :
  hbr_source self s -> 0 < room ->
  match ar_poll_read self room with
  | (Ready (Ok c), self') =>
      exists s', s = c ++ s' /\ len c <= room /\ hbr_source self' s' /\ (False -> False) /\
        (c = [] -> False \/ s = [] /\ hbr_at_end self') /\ (waits (hbr_stream self') <= waits (hbr_stream self))%nat
  | (Ready (Err _), self') => hbr_source self' s /\ False
  | (Pending, self') => hbr_source self' s /\ (False -> False) /\ (waits (hbr_stream self') < waits (hbr_stream self))%nat
  | (Ready Panic, _) => False
  end.
Proof.
  intros Hs Hroom. change (ar_poll_read self room) with (HttpBodyReader_poll_read self room).
  unfold HttpBodyReader_poll_read. destruct Hs as [data Hok Hc|n Hty Hn Hsz Hl Hne Hfin Hst Hc|n Hty Hn -> Hst Hc|Hty Hr Hst Hfin Hc].
  - pose proof Hok as [-> _ _ _ _]. unfold poll_chunked.
    pose proof (poll_chunked_loop_spec _ rest (S (Z.to_nat room)) self s data room [] Hok ltac:(len_lia) ltac:(len_lia) ltac:(done)) as Hp.
    destruct (poll_chunked_loop _ self room []) as [[[c|e|]|] self']; [|done..|].
    + destruct Hp as (c' & s' & data' & -> & -> & Hlen & Hok' & Hcnt & Hnil & Hw). exists s'.
      pose proof (bo_max _ _ _ _ _ Hok') as HM. split_and!; try done.
      * apply src_chunked with data'; [by rewrite HM|lia].
      * intros Hx. destruct (Hnil Hx) as [He Hf]. right. split; [done|].
        cbn [app] in *. subst c'. cbn in He. subst s'. destruct (body_ok_nil _ _ _ Hok') as [-> ?].
        split_and!; [done| |done]. unfold hbr_body_size. len_lia.
    + destruct Hp as (_ & Hok' & Hcnt & Hw). split_and!; try done. pose proof (bo_max _ _ _ _ _ Hok') as HM.
      apply src_chunked with data; [by rewrite HM|lia].
  - rewrite Hty, Hn. pose proof (poll_fixed_spec self s rest room Hst Hne Hroom Hsz Hl ltac:(congruence)) as Hp.
    destruct (poll_fixed self room) as [[[c|e|]|] self']; [|done..|].
    + destruct Hp as (rd & s' & Hc' & Hlen & -> & Hs & Hw & Hself). rewrite Hty in Hself. exists s'.
      destruct s' as [|b s']; cbn in Hself; subst self'; (split_and!; [done|done| |done|done|done]).
      * apply src_fixed_end with n; try done. cbn. rewrite app_nil_r in Hc. done.
      * apply src_fixed with n; try done. cbn. len_lia.
    + destruct Hp as (rd & -> & Hs & Hw). split_and!; try done. by apply src_fixed with n.
  - rewrite Hty, Hn. exists []. split_and!; try done; [len_lia|by apply src_fixed_end with n|]. intros _. right. by split_and!.
  - rewrite Hty. unfold poll_eof. pose proof (sound_poll_read (hbr_stream self) s room Hst Hroom) as Hp.
    destruct (ar_poll_read (hbr_stream self) room) as [[[c|e|]|] rd]; [|done..|].
    + destruct Hp as (s' & -> & Hlen & Hs & Hnil & Hw). exists s'. destruct (Z.eqb_spec (len c) 0) as [->%len_0|Hz].
      * split_and!; try done; [apply src_until_end; try done; intros _; by apply Hnil|]. intros Hx. right. split; [by apply Hnil|].
        specialize (Hnil Hx). cbn in Hnil. subst s'. split_and!; [done| |by rewrite Hr]. unfold hbr_body_size. cbn. len_lia.
      * split_and!; try done; [apply src_until_end; try done; cbn; [|len_lia]|by intros ->].
        intros Hx%Hfin. by apply app_eq_nil in Hx as [_ ?].
    + destruct Hp as [Hs Hw]. split_and!; try done. by apply src_until_end.
Qed.

Definition HttpBodyReader_laws : AsyncReadLaws (HttpBodyReader R) := {|
  source := hbr_source;
  faulty _ := False;
  at_end := hbr_at_end;
  waits self := waits (hbr_stream self);
  source_poll_read := hbr_poll_read_laws
|}.

End BodyLaws.

(** ** Bodies of every type *)

(** [s] is a body of type [ty] with the data [data], followed by [rest]. *)
Inductive body_wire `{Radix16} (M : Z) : HttpBodyType -> bytes -> bytes -> bytes -> Prop :=
| wire_length s rest : s <> [] -> len s <= u64_max -> body_wire M (ContentLength (len s)) s s rest
| wire_chunked s data rest : chunked_wire M s data -> body_wire M Chunked s data rest
| wire_until_end s : body_wire M ReadUntilEnd s s [].

Section Start.
Context {R : Type} `{AsyncBufReadLaws R} `{Radix16Laws} (M : Z) (rest : bytes).

Lemma hbr_source_new (rd : R) ty s data :
  sound rd (s ++ rest) -> body_wire M ty s data rest -> hbr_source rest (len data) (HttpBodyReader_new rd ty M) s.
Proof.
  intros Hs Hw. inversion Hw as [s' rest' Hne Hl|s' data' rest' Hc|s']; subst; cbn [HttpBodyReader_new].
  - assert (0 < len data) by (destruct data; [done|len_lia]). unfold new_fixed_length, update_next_read_size.
    cbn [hbr_make hbr_left_total_size]. destruct (Z.ltb_spec usize_max (len data)); [unfold usize_max in *; lia|].
    destruct (Z.ltb_spec 0 (len data)); [|lia]. by apply src_fixed with (len data).
  - apply src_chunked with data; [|done]. constructor; try done. apply (body_size _ _ []); try done. apply not_elem_of_nil.
  - apply src_until_end; try done. by rewrite app_nil_r in Hs.
Qed.

Lemma new_fixed_length_stream (rd : R) n : hbr_stream (new_fixed_length rd n) = rd.
Proof. unfold new_fixed_length, update_next_read_size. by repeat case_match. Qed.

Lemma new_chunked_after_preview_stream (rd : R) n : hbr_stream (new_chunked_after_preview rd M n) = rd.
Proof. unfold new_chunked_after_preview, update_next_read_size. by repeat case_match. Qed.

(** The two readers that start inside a body: at its trailer, and in a chunk of
    which a part has been read already. *)
Lemma hbr_source_trailer (rd : R) s :
  sound rd (s ++ rest) -> trailer_wire M s -> hbr_source rest 0 (new_trailer rd M) s.
Proof.
  intros Hs Hw. apply src_chunked with []; [|done]. constructor; try done. apply (body_trailer _ _ []); try done.
  apply not_elem_of_nil.
Qed.

Lemma hbr_source_after_preview (rd : R) chunk s data :
  sound rd ((chunk ++ CRLF ++ s) ++ rest) -> chunk <> [] -> len chunk <= u64_max -> chunked_wire M s data ->
  hbr_source rest (len (chunk ++ data)) (new_chunked_after_preview rd M (len chunk)) (chunk ++ CRLF ++ s).
Proof.
  intros Hs Hne Hl Hw. assert (0 < len chunk) by (destruct chunk; [done|len_lia]).
  unfold new_chunked_after_preview, update_next_read_size.
  cbn [hbr_make hbr_left_total_size]. destruct (Z.ltb_spec usize_max (len chunk)); [unfold usize_max in *; lia|].
  destruct (Z.ltb_spec 0 (len chunk)); [|lia]. apply src_chunked with (chunk ++ data); [|done].
  constructor; try done. by apply body_data.
Qed.

Lemma read_body_to_end total (self : HttpBodyReader R) s rooms :
  hbr_source rest total self s -> (forall i, 0 < rooms i) ->
  exists d, read_to_end (S (waits (hbr_stream self) + length s)) rooms self = (Ok s, d) /\
    hbr_finished d = true /\ hbr_body_size d = total /\ source (hbr_stream d) rest.
Proof.
  intros Hs Hr. pose (L := HttpBodyReader_laws rest total : AsyncReadLaws (HttpBodyReader R)).
  destruct (read_to_end_spec (H0 := L) (S (waits (hbr_stream self) + length s)) rooms self s)
    as (d & -> & _ & (? & ? & [? _]) & _); try done; [by intros []|cbn; lia|by exists d].
Qed.

End Start.

(** C3: the body of a message is forwarded whole and nothing more is taken from
    the connection: for a body of a given length, a chunked one with its
    trailer, or one that ends with the stream, cut into reads in any way, a
    copy from the body reader to a writer comes to its end and reports the
    length of the body as it is on the wire; the writer has received exactly
    these bytes, the body reader is finished and has counted the bytes of
    content, and what follows the body is left in the stream. *)
Theorem http_body_forwarded {R} `{AsyncBufReadLaws R} `{Radix16Laws} (rd : R) (wr : writer) (config : StreamCopyConfig)
    (M : Z) (ty : HttpBodyType) (s data rest : bytes) :
  0 < scc_buffer_size config <= isize_max -> 0 < scc_yield_size config -> len s <= u64_max ->
  source rd (s ++ rest) -> ~ faulty rd -> body_wire M ty s data rest -> fair_writer wr ->
  exists t,
    await (S (waits rd + writer_waits wr + length s)) StreamCopy_poll
      (StreamCopy_new (HttpBodyReader_new rd ty M) wr config) = (Ok (len s), t) /\
    wr_out (sc_writer t) = wr_out wr ++ s /\ hbr_finished (sc_reader t) = true /\
    hbr_body_size (sc_reader t) = len data /\ source (hbr_stream (sc_reader t)) rest.
Proof.
  intros HN HY Hlen Hs Hf Hb Hw. pose (L := HttpBodyReader_laws rest (len data) : AsyncReadLaws (HttpBodyReader R)).
  assert (hbr_stream (HttpBodyReader_new rd ty M) = rd) as Hrd.
  { inversion Hb; subst; try done. apply new_fixed_length_stream. }
  destruct (StreamCopy_new_completes (H0 := L) (HttpBodyReader_new rd ty M) wr config s HN HY Hlen)
    as (t & Ha & Hout & _ & (Hfin & Hsz & [Hst _])); try done; [by apply hbr_source_new|by intros []|].
  exists t. split_and!; try done. rewrite <- Ha. cbn [waits L HttpBodyReader_laws]. by rewrite Hrd.
Qed.

Lemma http_body_forwarded_witness :
  let RX := radix16_reference in
  let s := bs "3;x" ++ CRLF ++ bs "abc" ++ CRLF ++ bs "0" ++ CRLF ++ bs "T:1" ++ CRLF ++ CRLF in
  let rd : reader := [Data (take 4 s); Pend; Data (drop 4 s ++ bs "GET")] in
  let wr := {| wr_writes := [Accept 1; WPend]; wr_flushes := []; wr_out := []; wr_flushed := 0 |} in
  exists t,
    await (S (waits rd + writer_waits wr + length s)) StreamCopy_poll
      (StreamCopy_new (HttpBodyReader_new rd Chunked 64) wr {| scc_buffer_size := 5; scc_yield_size := 2 |}) = (Ok (len s), t) /\
    wr_out (sc_writer t) = [] ++ s /\ hbr_finished (sc_reader t) = true /\
    hbr_body_size (sc_reader t) = len (bs "abc") /\ source (hbr_stream (sc_reader t)) (bs "GET").
Proof.
  intros RX s rd wr. apply (@http_body_forwarded reader reader_AsyncBufRead reader_AsyncBufReadLaws RX radix16_reference_laws
    rd wr {| scc_buffer_size := 5; scc_yield_size := 2 |} 64 Chunked s (bs "abc") (bs "GET")).
  - split; [reflexivity|apply Z.leb_le; reflexivity].
  - reflexivity.
  - apply Z.leb_le. reflexivity.
  - reflexivity.
  - intros Hf. apply Hf. repeat constructor; discriminate.
  - apply wire_chunked. apply (wire_chunk 64 (bs "3;x") (bs "abc") (bs "0" ++ CRLF ++ bs "T:1" ++ CRLF ++ CRLF) []).
    + split; [apply memchr_None; reflexivity|]. split; [reflexivity|]. exists (Some (bs "x")). vm_compute. reflexivity.
    + discriminate.
    + apply (wire_last 64 (bs "0") (bs "T:1" ++ CRLF ++ CRLF)).
      * split; [apply memchr_None; reflexivity|]. split; [reflexivity|]. exists None. vm_compute. reflexivity.
      * apply trailer_line; [discriminate|apply memchr_None; reflexivity|reflexivity|]. apply trailer_end. reflexivity.
  - split; repeat constructor.
Defined.

(** ** The two readings of chunked bodies

    The decoder of [chunked_decoder.rs] ends a size line at its line feed, this
    reader at its carriage return. *)
Section Agree.
Context `{Radix16} (M : Z).

(** Chunked bodies without a bare line feed in a size line. *)
Inductive clean_wire : bytes -> bytes -> bytes -> Prop :=
| clean_last pre tr : body_line M pre 0 -> (HTTP_LF ∉ pre) -> trailer_wire M tr -> clean_wire (pre ++ CRLF ++ tr) [] tr
| clean_chunk pre chunk s data tr :
    body_line M pre (len chunk) -> (HTTP_LF ∉ pre) -> chunk <> [] -> clean_wire s data tr ->
    clean_wire (pre ++ CRLF ++ chunk ++ CRLF ++ s) (chunk ++ data) tr.

Lemma clean_wire_chunked s data tr : clean_wire s data tr -> chunked_wire M s data.
Proof. induction 1; by constructor. Qed.

Lemma clean_size_line pre n : body_line M pre n -> (HTTP_LF ∉ pre) -> size_line M (pre ++ CRLF) n.
Proof.
  intros (Hcr & Hl & ext & Hp) Hlf. exists (pre ++ [HTTP_CR]), ext. split_and!;
    [by rewrite <- app_assoc| |rewrite len_app; change (len CRLF) with 2; lia|done].
  apply not_elem_of_app. split; [done|]. by intros [|?%elem_of_nil]%elem_of_cons.
Qed.

End Agree.

(** The lines that both readers take for the same. *)
Definition strict `{Radix16} : chunk_syntax := {|
  cs_line M line n := exists pre, line = pre ++ CRLF /\ body_line M pre n /\ (HTTP_LF ∉ pre);
  cs_end eol := eol = CRLF;
  cs_line_ok M line n Hl :=
    match Hl with
    | ex_intro _ pre (conj Heq (conj Hb Hlf)) => eq_ind_r (fun l => size_line M l n) (clean_size_line M pre n Hb Hlf) Heq
    end;
  cs_end_ok eol He := eq_ind_r line_end line_end_crlf He
|}.

Section Strict.
Context `{Radix16} (M : Z).

Lemma dechunk_in_lenient X s data rest : dechunk_in X M s data rest -> dechunk M s data rest.
Proof.
  induction 1; constructor; try done; try (by apply (cs_line_ok X)); by apply (cs_end_ok X).
Qed.

Lemma clean_wire_strict s data tr rest : clean_wire M s data tr -> dechunk_in strict M (s ++ rest) data (tr ++ rest).
Proof.
  induction 1 as [pre tr Hb Hlf Htr|pre chunk s data tr Hb Hlf Hne Hw IH]; rewrite <- !app_assoc, (app_assoc pre).
  - apply dechunk_last. by exists pre.
  - apply dechunk_chunk; try done. by exists pre.
Qed.

Lemma strict_clean_wire w data tr rest :
  dechunk_in strict M w data (tr ++ rest) -> trailer_wire M tr -> exists s, w = s ++ rest /\ clean_wire M s data tr.
Proof.
  intros Hd Htr. remember (tr ++ rest) as r eqn:Hr.
  induction Hd as [line r (pre & -> & Hb & Hlf)|line chunk eol w data r (pre & -> & Hb & Hlf) Hne He Hd IH].
  - exists (pre ++ CRLF ++ tr). subst r. rewrite <- !app_assoc. split; [done|]. by constructor.
  - destruct (IH Hr) as (s & -> & Hc). rewrite He. exists (pre ++ CRLF ++ chunk ++ CRLF ++ s).
    rewrite <- !app_assoc. split; [done|]. by constructor.
Qed.

End Strict.

(** C32: on bodies whose size lines hold no bare line feed, the reader that
    forwards chunked bodies and the decoder that takes the data out of them
    agree: for the same bytes, cut into reads in any two ways, the first
    delivers the body to the end of its trailer and counts as content exactly
    the bytes that the second delivers, and the second stops in front of that
    trailer. *)
Theorem chunked_readers_agree {R} `{AsyncBufReadLaws R} `{Radix16Laws} (rd1 rd2 : R) (M : Z)
    (s data tr rest : bytes) (rooms : nat -> Z) :
  source rd1 (s ++ rest) -> ~ faulty rd1 -> source rd2 (s ++ rest) -> ~ faulty rd2 ->
  clean_wire M s data tr -> (forall i, 0 < rooms i) ->
  (exists d, read_to_end (S (waits rd1 + length s)) rooms (HttpBodyReader_new rd1 Chunked M) = (Ok s, d) /\
     hbr_finished d = true /\ hbr_body_size d = len data /\ source (hbr_stream d) rest) /\
  (exists d, read_to_end (S (waits rd2 + length data)) rooms (ChunkedDataDecodeReader_new rd2 M) = (Ok data, d) /\
     ChunkedDataDecodeReader_finished d = true /\ source (cdd_reader d) (tr ++ rest)).
Proof.
  intros Hs1 Hf1 Hs2 Hf2 Hw Hr. split.
  - apply (read_body_to_end rest (len data) (HttpBodyReader_new rd1 Chunked M)); [|done].
    apply (hbr_source_new M); [done|]. apply wire_chunked. by eapply clean_wire_chunked.
  - pose (L := ChunkedDataDecodeReader_laws lenient M (tr ++ rest) : AsyncReadLaws (ChunkedDataDecodeReader R)).
    destruct (read_to_end_spec (H0 := L) (S (waits rd2 + length data)) rooms (ChunkedDataDecodeReader_new rd2 M) data)
      as (d & -> & _ & [? [? _]] & _); try done; [|by intros []|cbn; lia|by exists d].
    apply cdd_source_new with (s ++ rest); [done|]. by eapply dechunk_in_lenient, clean_wire_strict.
Qed.

Lemma chunked_readers_agree_witness :
  let RX := radix16_reference in
  let s := bs "3" ++ CRLF ++ bs "abc" ++ CRLF ++ bs "0" ++ CRLF ++ CRLF in
  let rd1 : reader := [Data (take 4 s); Pend; Data (drop 4 s ++ bs "GET")] in
  let rd2 : reader := [Data (s ++ bs "GET")] in
  (exists d, read_to_end (S (waits rd1 + length s)) (fun _ => 2) (HttpBodyReader_new rd1 Chunked 64) = (Ok s, d) /\
     hbr_finished d = true /\ hbr_body_size d = len (bs "abc") /\ source (hbr_stream d) (bs "GET")) /\
  (exists d, read_to_end (S (waits rd2 + length (bs "abc"))) (fun _ => 2) (ChunkedDataDecodeReader_new rd2 64) =
       (Ok (bs "abc"), d) /\
     ChunkedDataDecodeReader_finished d = true /\ source (cdd_reader d) (CRLF ++ bs "GET")).
Proof.
  intros RX s rd1 rd2. apply (@chunked_readers_agree reader reader_AsyncBufRead reader_AsyncBufReadLaws RX radix16_reference_laws
    rd1 rd2 64 s (bs "abc") CRLF (bs "GET") (fun _ => 2)).
  - reflexivity.
  - intros Hf. apply Hf. repeat constructor; discriminate.
  - reflexivity.
  - intros Hf. apply Hf. repeat constructor; discriminate.
  - apply (clean_chunk 64 (bs "3") (bs "abc") (bs "0" ++ CRLF ++ CRLF) [] CRLF).
    + split; [apply memchr_None; reflexivity|]. split; [reflexivity|]. exists None. vm_compute. reflexivity.
    + apply memchr_None. reflexivity.
    + discriminate.
    + apply (clean_last 64 (bs "0") CRLF).
      * split; [apply memchr_None; reflexivity|]. split; [reflexivity|]. exists None. vm_compute. reflexivity.
      * apply memchr_None. reflexivity.
      * apply trailer_end. reflexivity.
  - intros i. reflexivity.
Defined.

(** *** A bare line feed *)

Section BareLineFeed.
Context `{Radix16Laws} (M : Z).

Lemma chunk_line_line_feed n rest :
  0 <= n <= u64_max ->
  HttpChunkedLine_parse (hex_fmt n ++ HTTP_LF :: rest) = Ok {| hcl_chunk_size := n; hcl_extension := None |}.
Proof.
  intros Hn. destruct (hex_fmt_spec n Hn) as (Hh & Hv & Hne & _).
  rewrite HttpChunkedLine_parse_eq; [|done|intros b l [= <- _]; apply not_hex_LF].
  unfold chunk_line_outcome. rewrite Hv. destruct (Z.leb_spec n u64_max); [cbn [negb]|lia].
  destruct (Z.eqb_spec (len (hex_fmt n)) 0) as [Hx%len_0|]; done.
Qed.

(** What the forwarding reader takes for a size line, and the decoder for one
    that is followed by data. *)
Lemma body_line_line_feed n a :
  0 <= n <= u64_max -> (HTTP_CR ∉ a) -> len a + 18 < M -> body_line M (hex_fmt n ++ HTTP_LF :: a) n.
Proof.
  intros Hn Ha HM. destruct (hex_fmt_spec n Hn) as (Hh & _ & _ & Hl). split_and!.
  - rewrite not_elem_of_app, not_elem_of_cons. split_and!; [|done|done].
    intros Hin. rewrite Forall_forall in Hh. by apply Hh, not_hex_CR in Hin.
  - len_lia.
  - exists None. rewrite <- app_assoc. by apply chunk_line_line_feed.
Qed.

Lemma size_line_line_feed n : 0 <= n <= u64_max -> 18 <= M -> size_line M (hex_fmt n ++ [HTTP_LF]) n.
Proof.
  intros Hn HM. destruct (hex_fmt_spec n Hn) as (Hh & _ & _ & Hl). exists (hex_fmt n), None.
  split_and!; [done| |len_lia|by apply chunk_line_line_feed].
  intros Hin. rewrite Forall_forall in Hh. by apply Hh, not_hex_LF in Hin.
Qed.

End BareLineFeed.

(** C36: with a bare line feed in a size line the two readers disagree on where
    the chunks are, for all data.  Behind the size and the bare line feed stand
    [a], a line end, a last chunk, and then any bytes [d] that fill the size, as
    data of a chunk would.  The forwarding reader takes [a] as part of the size
    line, the last chunk and [d] as the data, and delivers all of the wire as one
    finished body, with what follows left in the stream; the decoder delivers [a]
    as the data, is finished by the last chunk inside, and leaves [d], which was
    forwarded as content, on the stream in front of what follows. *)
Theorem bare_line_feed_frames_differently {R} `{AsyncBufReadLaws R} `{Radix16Laws} (rd1 rd2 : R) (M : Z)
    (a d rest : bytes) (rooms : nat -> Z) :
  let last := bs "0" ++ CRLF in
  let s := hex_fmt (len a) ++ [HTTP_LF] ++ a ++ CRLF ++ (last ++ d) ++ CRLF ++ last ++ CRLF in
  (HTTP_CR ∉ a) -> len a = len (last ++ d) -> len a <= u64_max -> len a + 18 < M ->
  source rd1 (s ++ rest) -> ~ faulty rd1 -> source rd2 (s ++ rest) -> ~ faulty rd2 -> (forall i, 0 < rooms i) ->
  (exists t, read_to_end (S (waits rd1 + length s)) rooms (HttpBodyReader_new rd1 Chunked M) = (Ok s, t) /\
     hbr_finished t = true /\ hbr_body_size t = len (last ++ d) /\ source (hbr_stream t) rest) /\
  (exists t, read_to_end (S (waits rd2 + length a)) rooms (ChunkedDataDecodeReader_new rd2 M) = (Ok a, t) /\
     ChunkedDataDecodeReader_finished t = true /\ source (cdd_reader t) (d ++ CRLF ++ last ++ CRLF ++ rest)).
Proof.
  intros last s Ha Hl Hmax HM Hs1 Hf1 Hs2 Hf2 Hr. pose proof (len_nonneg a).
  assert (a <> []) as Hne by (intros ->; unfold last, CRLF in Hl; len_lia). split.
  - apply (read_body_to_end rest (len (last ++ d)) (HttpBodyReader_new rd1 Chunked M)); [|done].
    apply (hbr_source_new M); [done|]. apply wire_chunked. rewrite <- (app_nil_r (last ++ d)).
    replace s with ((hex_fmt (len a) ++ HTTP_LF :: a) ++ CRLF ++ (last ++ d) ++ CRLF ++ bs "0" ++ CRLF ++ CRLF)
      by (unfold s, last; by rewrite <- !app_assoc).
    apply wire_chunk; [|done|].
    + rewrite <- Hl. apply body_line_line_feed; [lia|done|lia].
    + apply wire_last; [|apply trailer_end; lia]. split; [by apply memchr_None|]. split; [change (len (bs "0")) with 1; lia|].
      exists None. apply (chunk_line_fmt 0). unfold u64_max. lia.
  - pose (L := ChunkedDataDecodeReader_laws lenient M (d ++ CRLF ++ last ++ CRLF ++ rest) : AsyncReadLaws (ChunkedDataDecodeReader R)).
    destruct (read_to_end_spec (H0 := L) (S (waits rd2 + length a)) rooms (ChunkedDataDecodeReader_new rd2 M) a)
      as (t & -> & _ & [? [? _]] & _); try done; [|by intros []|cbn; lia|by exists t].
    apply cdd_source_new with (s ++ rest); [done|].
    replace (s ++ rest) with ((hex_fmt (len a) ++ [HTTP_LF]) ++ a ++ CRLF ++ last ++ d ++ CRLF ++ last ++ CRLF ++ rest)
      by (unfold s; by rewrite <- !app_assoc).
    rewrite <- (app_nil_r a) at 3. apply (dechunk_chunk lenient); [apply size_line_line_feed; lia|done|constructor|].
    apply (dechunk_last lenient). apply size_line_last. lia.
Qed.

Lemma bare_line_feed_frames_differently_witness :
  let RX := radix16_reference in
  let s := bs "5" ++ [HTTP_LF] ++ bs "hello" ++ CRLF ++ bs "0" ++ CRLF ++ CRLF ++ CRLF ++ bs "0" ++ CRLF ++ CRLF in
  let rd1 : reader := [Data (take 4 s); Pend; Data (drop 4 s ++ bs "GET")] in
  let rd2 : reader := [Data (s ++ bs "GET")] in
  (exists t, read_to_end (S (waits rd1 + length s)) (fun _ => 2) (HttpBodyReader_new rd1 Chunked 64) = (Ok s, t) /\
     hbr_finished t = true /\ hbr_body_size t = 5 /\ source (hbr_stream t) (bs "GET")) /\
  (exists t, read_to_end (S (waits rd2 + length (bs "hello"))) (fun _ => 2) (ChunkedDataDecodeReader_new rd2 64) =
       (Ok (bs "hello"), t) /\
     ChunkedDataDecodeReader_finished t = true /\
     source (cdd_reader t) (CRLF ++ CRLF ++ bs "0" ++ CRLF ++ CRLF ++ bs "GET")).
Proof.
  intros RX s rd1 rd2.
  apply (@bare_line_feed_frames_differently reader reader_AsyncBufRead reader_AsyncBufReadLaws RX radix16_reference_laws
    rd1 rd2 64 (bs "hello") CRLF (bs "GET") (fun _ => 2)).
  - apply memchr_None. reflexivity.
  - reflexivity.
  - apply Z.leb_le. reflexivity.
  - reflexivity.
  - reflexivity.
  - intros Hf. apply Hf. repeat constructor; discriminate.
  - reflexivity.
  - intros Hf. apply Hf. repeat constructor; discriminate.
  - intros i. reflexivity.
Defined.
