(* ===== verification/HttpToChunked.v ===== *)
(** * Sending a body of any type as a chunked one

    Models [lib/vey-http/src/body/body_to_chunked.rs]: the transfer that an ICAP
    client uses for HTTP/1 bodies.  It sends a body of a known length as a
    single chunk, copies a chunked body as it is (from the middle of a chunk
    after a preview), and encodes one that ends with the stream. *)

From Stdlib Require Import ZArith Lia Strings.Byte.
From stdpp Require Import base list.
From S2P Require Import Prelude Reader AsyncIo StreamCopy HttpLine HttpChunkDecode HttpChunkEncode HttpBody.

Definition NO_TRAILER_END_BUFFER : bytes := CRLF ++ bs "0" ++ CRLF ++ CRLF.

(** The states that have given up their reader or writer still name them here:
    these are objects of the caller. *)
Inductive ChunkedTransferState (R : Type) : Type :=
| SendHead (head : bytes) (offset : Z) (body_reader : HttpBodyReader R) (wr : writer)
| CopyBody (copy : StreamCopy (HttpBodyReader R))
| SendNoTrailerEnd (rd : R) (offset : Z) (wr : writer)
| Encode (encode : StreamToChunkedTransfer R)
| FlushEnd (rd : R) (wr : writer)
| TransferEnd (rd : R) (wr : writer).
Arguments SendHead {R}.
Arguments CopyBody {R}.
Arguments SendNoTrailerEnd {R}.
Arguments Encode {R}.
Arguments FlushEnd {R}.
Arguments TransferEnd {R}.

Record H1BodyToChunkedTransfer (R : Type) : Type := {
  btc_body_type : HttpBodyType;
  btc_copy_config : StreamCopyConfig;
  btc_state : ChunkedTransferState R;
  btc_total_write : Z;
  btc_body_size : Z;
  btc_active : bool
}.
Arguments btc_body_type {R}.
Arguments btc_copy_config {R}.
Arguments btc_state {R}.
Arguments btc_total_write {R}.
Arguments btc_body_size {R}.
Arguments btc_active {R}.

(** [while offset < buf.len() { .. }] with a [poll_write] of the rest. *)
Fixpoint send_loop (fuel : nat) (buf : bytes) (st : Z * writer) : poll (res StreamCopyError unit) * (Z * writer) :=
  match fuel with
  | O => (Ready Panic, st)
  | S fuel' =>
      let (offset, w) := st in
      if offset <? len buf then
        poll_bind (poll_lift (slice_from buf offset) st) (fun data _ =>
          match poll_write w data with
          | (Pending, w) => (Pending, (offset, w))
          | (Ready None, w) => (Ready (Err Copy_WriteFailed), (offset, w))
          | (Ready (Some nw), w) =>
              if nw =? 0 then (Ready (Err Copy_WriteZero), (offset, w))
              else send_loop fuel' buf (offset + nw, w)
          end)
      else (Ready (Ok tt), st)
  end.

Section Transfer.
Context {R : Type} `{!AsyncBufRead R} `{!Radix16}.
Implicit Types self : H1BodyToChunkedTransfer R.

Definition btc_make (ty : HttpBodyType) (config : StreamCopyConfig) (state : ChunkedTransferState R)
    : H1BodyToChunkedTransfer R :=
  {| btc_body_type := ty; btc_copy_config := config; btc_state := state; btc_total_write := 0; btc_body_size := 0;
     btc_active := false |}.

(** Assignments to groups of fields. *)
Definition btc_set self (state : ChunkedTransferState R) (active : bool) : H1BodyToChunkedTransfer R :=
  {| btc_body_type := btc_body_type self; btc_copy_config := btc_copy_config self; btc_state := state;
     btc_total_write := btc_total_write self; btc_body_size := btc_body_size self; btc_active := active |}.

Definition btc_add self (written body : Z) : H1BodyToChunkedTransfer R :=
  {| btc_body_type := btc_body_type self; btc_copy_config := btc_copy_config self; btc_state := btc_state self;
     btc_total_write := btc_total_write self + written; btc_body_size := btc_body_size self + body;
     btc_active := btc_active self |}.

Definition btc_new_read_until_end (rd : R) (wr : writer) (config : StreamCopyConfig) : H1BodyToChunkedTransfer R :=
  btc_make ReadUntilEnd config (Encode (new_with_no_trailer rd wr (scc_yield_size config))).

Definition btc_new_fixed_length (rd : R) (wr : writer) (n : Z) (config : StreamCopyConfig) : H1BodyToChunkedTransfer R :=
  btc_make (ContentLength n) config
    (if n =? 0 then SendNoTrailerEnd rd 2 wr
     else SendHead (hex_fmt n ++ CRLF) 0 (new_fixed_length rd n) wr).

Definition btc_new_chunked (rd : R) (wr : writer) (body_line_max_len : Z) (config : StreamCopyConfig)
    : H1BodyToChunkedTransfer R :=
  btc_make Chunked config (CopyBody (ROwnedStreamCopy_new (new_chunked rd body_line_max_len) wr config)).

Definition btc_new_chunked_after_preview (rd : R) (wr : writer) (left_chunk_size body_line_max_len : Z)
    (config : StreamCopyConfig) : H1BodyToChunkedTransfer R :=
  if left_chunk_size =? 0 then btc_new_chunked rd wr body_line_max_len config
  else
    btc_make Chunked config
      (SendHead (hex_fmt left_chunk_size ++ CRLF) 0 (new_chunked_after_preview rd body_line_max_len left_chunk_size) wr).

Definition H1BodyToChunkedTransfer_new (rd : R) (wr : writer) (body_type : HttpBodyType) (body_line_max_len : Z)
    (config : StreamCopyConfig) : H1BodyToChunkedTransfer R :=
  match body_type with
  | ContentLength n => btc_new_fixed_length rd wr n config
  | ReadUntilEnd => btc_new_read_until_end rd wr config
  | Chunked => btc_new_chunked rd wr body_line_max_len config
  end.

Definition btc_finished self : bool :=
  match btc_state self with FlushEnd _ _ | TransferEnd _ _ => true | _ => false end.

Definition btc_reader_finished self : bool :=
  match btc_state self with
  | SendHead _ _ body_reader _ => hbr_finished body_reader
  | CopyBody copy => hbr_finished (sc_reader copy)
  | Encode encode => StreamToChunkedTransfer_read_finished encode
  | SendNoTrailerEnd _ _ _ | FlushEnd _ _ | TransferEnd _ _ => true
  end.

Definition btc_is_idle self : bool := negb (btc_active self).

Definition btc_no_cached_data self : bool :=
  match btc_state self with
  | SendHead _ _ _ _ | SendNoTrailerEnd _ _ _ => false
  | CopyBody copy => StreamCopy_no_cached_data copy
  | Encode encode => StreamToChunkedTransfer_no_cached_data encode
  | FlushEnd _ _ | TransferEnd _ _ => true
  end.

Definition btc_reset_active self : H1BodyToChunkedTransfer R :=
  btc_set self
    match btc_state self with
    | CopyBody copy => CopyBody (StreamCopy_reset_active copy)
    | Encode encode => Encode (StreamToChunkedTransfer_reset_active encode)
    | state => state
    end false.

Definition btc_add_copied self (n : Z) : H1BodyToChunkedTransfer R := btc_add self 0 n.

Definition H1BodyToChunkedTransfer_body_size self : Z :=
  btc_body_size self +
  match btc_state self with
  | SendHead _ _ body_reader _ => hbr_body_size body_reader
  | CopyBody copy => hbr_body_size (sc_reader copy)
  | Encode encode => StreamToChunkedTransfer_body_size encode
  | SendNoTrailerEnd _ _ _ | FlushEnd _ _ | TransferEnd _ _ => 0
  end.

Definition written_body_size self : Z :=
  match btc_state self with
  | SendHead _ _ _ _ => btc_body_size self
  | CopyBody copy =>
      match btc_body_type self with
      | Chunked => btc_body_size self + Z.max 0 (hbr_body_size (sc_reader copy) - StreamCopy_cached_data_size copy)
      | _ => btc_body_size self + StreamCopy_copied_size copy
      end
  | Encode encode => btc_body_size self + StreamToChunkedTransfer_body_size encode
  | SendNoTrailerEnd _ _ _ | FlushEnd _ _ | TransferEnd _ _ => btc_body_size self
  end.

(** The branches of [poll]; a branch that changes the state and polls again
    calls the branch of the new state. *)
Definition poll_send_end self (rd : R) (offset : Z) (wr : writer)
    : poll (res StreamCopyError unit) * H1BodyToChunkedTransfer R :=
  match send_loop (S (length NO_TRAILER_END_BUFFER)) NO_TRAILER_END_BUFFER (offset, wr) with
  | (Ready (Ok _), (_, w)) => (Ready (Ok tt), btc_set self (FlushEnd rd w) true)
  | (r, (offset, w)) => (r, btc_set self (SendNoTrailerEnd rd offset w) (btc_active self))
  end.

Definition poll_copy_body self (copy : StreamCopy (HttpBodyReader R))
    : poll (res StreamCopyError unit) * H1BodyToChunkedTransfer R :=
  match ROwnedStreamCopy_poll copy with
  | (Pending, copy) => (Pending, btc_set self (CopyBody copy) (btc_active self || StreamCopy_is_active copy))
  | (Ready (Ok n), copy) =>
      let rd := hbr_stream (sc_reader copy) in
      let self := btc_set (btc_add self n (hbr_body_size (sc_reader copy))) (TransferEnd rd (sc_writer copy)) true in
      match btc_body_type self with
      | ContentLength _ => poll_send_end self rd 0 (sc_writer copy)
      | _ => (Ready (Ok tt), self)
      end
  | (Ready (Err e), copy) => (Ready (Err e), btc_set self (CopyBody copy) (btc_active self))
  | (Ready Panic, copy) => (Ready Panic, btc_set self (CopyBody copy) (btc_active self))
  end.

Definition poll_send_head self (head : bytes) (offset : Z) (body_reader : HttpBodyReader R) (wr : writer)
    : poll (res StreamCopyError unit) * H1BodyToChunkedTransfer R :=
  match send_loop (S (length head)) head (offset, wr) with
  | (Ready (Ok _), (offset, w)) =>
      let copy := ROwnedStreamCopy_new body_reader w (btc_copy_config self) in
      poll_copy_body (btc_set (btc_add self offset 0) (CopyBody copy) true) copy
  | (r, (offset, w)) => (r, btc_set self (SendHead head offset body_reader w) (btc_active self))
  end.

Definition poll_encode_body self (encode : StreamToChunkedTransfer R)
    : poll (res StreamCopyError unit) * H1BodyToChunkedTransfer R :=
  match StreamToChunkedTransfer_poll encode with
  | (Pending, encode) =>
      (Pending, btc_set self (Encode encode) (btc_active self || StreamToChunkedTransfer_is_active encode))
  | (Ready (Ok n), encode) =>
      (Ready (Ok tt),
       btc_set (btc_add self n (StreamToChunkedTransfer_body_size encode))
         (TransferEnd (sct_reader encode) (sct_writer encode)) true)
  | (Ready (Err e), encode) => (Ready (Err e), btc_set self (Encode encode) (btc_active self))
  | (Ready Panic, encode) => (Ready Panic, btc_set self (Encode encode) (btc_active self))
  end.

Definition H1BodyToChunkedTransfer_poll self : poll (res StreamCopyError unit) * H1BodyToChunkedTransfer R :=
  match btc_state self with
  | SendHead head offset body_reader wr => poll_send_head self head offset body_reader wr
  | CopyBody copy => poll_copy_body self copy
  | SendNoTrailerEnd rd offset wr => poll_send_end self rd offset wr
  | Encode encode => poll_encode_body self encode
  | FlushEnd rd wr =>
      match poll_flush wr with
      | (Pending, w) => (Pending, btc_set self (FlushEnd rd w) (btc_active self))
      | (Ready ok, w) =>
          (Ready (if ok then Ok tt else Err Copy_WriteFailed), btc_set self (FlushEnd rd w) (btc_active self))
      end
  | TransferEnd _ _ => (Ready (Ok tt), self)
  end.

End Transfer.

(** ** The states of a transfer *)

Lemma send_loop_spec fuel buf offset w :
  fair_writer w -> 0 <= offset <= len buf -> len buf - offset < Z.of_nat fuel ->
  match send_loop fuel buf (offset, w) with
  | (Ready (Ok _), (offset', w')) =>
      offset' = len buf /\ fair_writer w' /\ wr_out w' = wr_out w ++ drop (Z.to_nat offset) buf /\
      (writer_waits w' <= writer_waits w)%nat
  | (Pending, (offset', w')) =>
      0 <= offset' <= len buf /\ fair_writer w' /\
      wr_out w' ++ drop (Z.to_nat offset') buf = wr_out w ++ drop (Z.to_nat offset) buf /\
      (writer_waits w' < writer_waits w)%nat
  | (Ready _, _) => False
  end.
Proof.
  revert offset w. induction fuel as [|fuel IH]; intros offset w Hf Ho Hfuel; [lia|]. cbn [send_loop].
  destruct (Z.ltb_spec offset (len buf)) as [Hlt|Hge].
  2: { assert (offset = len buf) as -> by lia. split_and!; try done. rewrite drop_ge by (unfold len; lia). by rewrite app_nil_r. }
  rewrite slice_from_ok by lia. cbn [poll_lift poll_bind].
  pose proof (poll_write_spec w (drop (Z.to_nat offset) buf) (fair_lawful _ Hf)) as Hp.
  destruct (poll_write w _) as [[[nw|]|] w'].
  - destruct Hp as (_ & Hfw & Hn & Hout & Hw). destruct (Hfw Hf) as [Hf' Hpos].
    assert (0 < nw) as Hp0. { apply Hpos. intros Hx%(f_equal len). len_lia. }
    destruct (Z.eqb_spec nw 0); [lia|]. rewrite len_drop in Hn.
    assert (drop (Z.to_nat offset) buf = take (Z.to_nat nw) (drop (Z.to_nat offset) buf) ++ drop (Z.to_nat (offset + nw)) buf) as Hsp.
    { rewrite <- (take_drop (Z.to_nat nw) (drop (Z.to_nat offset) buf)) at 1. rewrite drop_drop. do 2 f_equal. lia. }
    specialize (IH (offset + nw) w' Hf' ltac:(lia) ltac:(lia)).
    destruct (send_loop fuel buf (offset + nw, w')) as [[[u|e|]|] [offset' w'']]; [|done..|].
    + destruct IH as (-> & Hf'' & Ho'' & Hw''). split_and!; try done; [|lia]. by rewrite Ho'', Hout, <- app_assoc, <- Hsp.
    + destruct IH as (Hr & Hf'' & Ho'' & Hw''). split_and!; try done; try lia. by rewrite Ho'', Hout, <- app_assoc, <- Hsp.
  - tauto.
  - destruct Hp as (_ & Hf' & Hout & Hw). split_and!; try done; [lia..|auto|by rewrite Hout].
Qed.

Section TransferSpec.
Context {R : Type} `{AsyncBufReadLaws R} `{Radix16Laws}.
Context (config : StreamCopyConfig) (out0 head s tail rest : bytes) (base total : Z).
Context (HN : 0 < scc_buffer_size config <= isize_max) (HY : 0 < scc_yield_size config) (Hlen : len s <= u64_max).
Implicit Types self : H1BodyToChunkedTransfer R.

#[local] Instance body_laws : AsyncReadLaws (HttpBodyReader R) := HttpBodyReader_laws rest total.

(** The end that a body of a known length gets. *)
Definition needs_end self : Prop :=
  match btc_body_type self with ContentLength _ => tail = NO_TRAILER_END_BUFFER | _ => tail = [] end.

(** A transfer that is to write [head ++ s ++ tail] after [out0], with the waits
    it may still have. *)
Inductive sending self (n : nat) : Prop :=
| sending_head offset body_reader wr :
    btc_state self = SendHead head offset body_reader wr -> btc_body_size self = base -> btc_copy_config self = config ->
    fair_writer wr -> 0 <= offset <= len head -> wr_out wr ++ drop (Z.to_nat offset) head = out0 ++ head ->
    hbr_source rest total body_reader s -> needs_end self ->
    n = (waits (hbr_stream body_reader) + writer_waits wr + length s)%nat -> sending self n
| sending_copy copy s' :
    btc_state self = CopyBody copy -> btc_body_size self = base -> needs_end self ->
    copying (scc_buffer_size config) (scc_yield_size config) (out0 ++ head) s False False copy s' ->
    n = copy_size copy s' -> sending self n
| sending_end rd offset wr :
    btc_state self = SendNoTrailerEnd rd offset wr -> btc_body_size self = base + total ->
    fair_writer wr -> 0 <= offset <= len NO_TRAILER_END_BUFFER ->
    wr_out wr ++ drop (Z.to_nat offset) NO_TRAILER_END_BUFFER = out0 ++ head ++ s ++ tail ->
    sound rd rest -> n = writer_waits wr -> sending self n.

(** A transfer that has written [out], with the reader at [rest]. *)
Definition sent (out : bytes) self : Prop :=
  exists rd wr, (btc_state self = FlushEnd rd wr \/ btc_state self = TransferEnd rd wr) /\
    wr_out wr = out0 ++ out /\ sound rd rest /\ H1BodyToChunkedTransfer_body_size self = base + total.

Definition sending_step (n : nat) (r : poll (res StreamCopyError unit) * H1BodyToChunkedTransfer R) : Prop :=
  match r with
  | (Ready (Ok _), self') => sent (head ++ s ++ tail) self'
  | (Pending, self') => exists m, (m < n)%nat /\ sending self' m
  | (Ready _, _) => False
  end.

Lemma sent_state out self rd wr :
  btc_state self = FlushEnd rd wr \/ btc_state self = TransferEnd rd wr -> wr_out wr = out0 ++ out -> sound rd rest ->
  btc_body_size self = base + total -> sent out self.
Proof.
  intros Hs Ho Hr Hb. exists rd, wr. split_and!; try done. unfold H1BodyToChunkedTransfer_body_size.
  destruct Hs as [-> | ->]; lia.
Qed.

Lemma poll_send_end_spec self rd offset wr n :
  btc_body_size self = base + total -> fair_writer wr -> 0 <= offset <= len NO_TRAILER_END_BUFFER ->
  wr_out wr ++ drop (Z.to_nat offset) NO_TRAILER_END_BUFFER = out0 ++ head ++ s ++ tail ->
  sound rd rest -> (writer_waits wr <= n)%nat -> sending_step n (poll_send_end self rd offset wr).
Proof.
  intros Hb Hf Ho Hout Hrd Hn. unfold poll_send_end.
  pose proof (send_loop_spec (S (length NO_TRAILER_END_BUFFER)) NO_TRAILER_END_BUFFER offset wr Hf Ho
    ltac:(unfold len; lia)) as Hp.
  destruct (send_loop _ _ _) as [[[u|e|]|] [offset' w']]; [|done..|].
  - destruct Hp as (-> & Hf' & Ho' & Hw'). apply (sent_state _ _ rd w'); try done; [by left|]. by rewrite Ho'.
  - destruct Hp as (Hr & Hf' & Ho' & Hw'). exists (writer_waits w'). split; [lia|].
    apply sending_end with rd offset' w'; try done. by rewrite Ho'.
Qed.

Lemma poll_copy_body_spec self copy s' n :
  btc_body_size self = base -> needs_end self ->
  copying (scc_buffer_size config) (scc_yield_size config) (out0 ++ head) s False False copy s' ->
  (copy_size copy s' <= n)%nat -> sending_step n (poll_copy_body self copy).
Proof.
  intros Hb Hend Hc Hn. unfold poll_copy_body, ROwnedStreamCopy_poll.
  pose proof (scb_poll_copy_spec _ _ _ _ _ _ HN HY Hlen copy s' Hc) as Hp.
  destruct (scb_poll_copy copy) as [[[k|e|]|] copy']; [| |done|].
  - destruct Hp as (s'' & Hc' & Hsz & Hrd & Hnil & Hk & _). pose proof Hc' as [].
    destruct (cpy_done Hrd) as [[]|[-> (Hfin & Htot & Hst)]]. rewrite Hnil, !app_nil_r in cpy_whole.
    unfold needs_end in Hend. cbn [btc_set btc_add btc_body_type]. destruct cpy_writer as [[]|Hfw].
    assert (base + hbr_body_size (sc_reader copy') = base + total) as Ht by (by rewrite Htot).
    destruct (btc_body_type self).
    + apply poll_send_end_spec; try done; [by cbn; rewrite Hb|by rewrite cpy_whole, drop_0, Hend, <- !app_assoc|].
      unfold copy_size in *. lia.
    + cbn [sending_step]. rewrite Hend, app_nil_r.
      eapply sent_state; [by right|by rewrite cpy_whole, <- app_assoc|done|by cbn; rewrite Hb].
    + cbn [sending_step]. rewrite Hend, app_nil_r.
      eapply sent_state; [by right|by rewrite cpy_whole, <- app_assoc|done|by cbn; rewrite Hb].
  - destruct Hp as (? & _ & [] & _).
  - destruct Hp as (s'' & Hc' & Hsz & _). exists (copy_size copy' s''). split; [lia|].
    by apply sending_copy with copy' s''.
Qed.

Lemma poll_sending self n : sending self n -> sending_step n (H1BodyToChunkedTransfer_poll self).
Proof.
  intros Hs. unfold H1BodyToChunkedTransfer_poll.
  destruct Hs as [offset br wr -> Hb Hcfg Hf Ho Hout Hsrc Hend Hn|copy s' -> Hb Hend Hc Hn|rd offset wr -> Hb Hf Ho Hout Hrd Hn].
  - unfold poll_send_head. pose proof (send_loop_spec (S (length head)) head offset wr Hf Ho ltac:(unfold len; lia)) as Hp.
    destruct (send_loop _ _ _) as [[[u|e|]|] [offset' w']]; [|done..|].
    + destruct Hp as (-> & Hf' & Ho' & Hw'). rewrite Hout in Ho'. rewrite Hcfg.
      apply poll_copy_body_spec with s; [cbn; lia|done| |].
      * rewrite <- Ho'. apply (@copying_new _ _ body_laws config HN br w' s False False); try done; [by apply fair_lawful|by right].
      * unfold copy_size. change (scb_left _) with (@nil byte). cbn. lia.
    + destruct Hp as (Hr & Hf' & Ho' & Hw'). eexists. split; [|by apply sending_head with offset' br w'; try done; rewrite Ho']. lia.
  - apply poll_copy_body_spec with s'; try done. lia.
  - apply poll_send_end_spec; try done. lia.
Qed.

End TransferSpec.

(** ** What has been written is a chunked body *)

Section Written.
Context `{Radix16Laws} (M : Z) (HM : 18 <= M).

Lemma body_line_fmt n : 0 <= n <= u64_max -> body_line M (hex_fmt n) n.
Proof.
  intros Hn. destruct (hex_fmt_spec n Hn) as (Hh & _ & _ & Hl). split_and!.
  - intros Hin. rewrite Forall_forall in Hh. by apply Hh, not_hex_CR in Hin.
  - lia.
  - exists None. by apply chunk_line_fmt.
Qed.

Lemma wire_end : chunked_wire M (bs "0" ++ CRLF ++ CRLF) [].
Proof.
  apply (wire_last M (bs "0") CRLF); [apply (body_line_fmt 0); unfold u64_max; lia|]. apply trailer_end. lia.
Qed.

Lemma wire_one_chunk c s data :
  c <> [] -> len c <= u64_max -> chunked_wire M s data ->
  chunked_wire M ((hex_fmt (len c) ++ CRLF) ++ c ++ CRLF ++ s) (c ++ data).
Proof.
  intros Hne Hl Hw. rewrite <- app_assoc. apply wire_chunk; try done. apply body_line_fmt. len_lia.
Qed.

Lemma chunks_written_wire out data :
  chunks_written out data -> len data <= u64_max ->
  forall s data', chunked_wire M s data' -> chunked_wire M (out ++ chunk_sep out ++ s) (data ++ data').
Proof.
  intros Hw. induction Hw as [|out data c Hw IH Hne]; intros Hlen s data' Hd; [done|].
  assert (chunk_sep (out ++ chunk_sep out ++ hex_fmt (len c) ++ CRLF ++ c) = CRLF) as ->.
  { unfold chunk_sep at 1. destruct (Z.eqb_spec (len (out ++ chunk_sep out ++ hex_fmt (len c) ++ CRLF ++ c)) 0) as [Hx|]; [|done].
    unfold CRLF in Hx. len_lia. }
  rewrite <- !app_assoc. apply IH; [len_lia|]. rewrite (app_assoc (hex_fmt _) CRLF). apply wire_one_chunk; try done. len_lia.
Qed.

End Written.

(** ** Complete transfers *)

Section Complete.
Context {R : Type} `{AsyncBufReadLaws R} `{Radix16Laws} (M : Z) (HM : 18 <= M).
Context (config : StreamCopyConfig) (wr : writer) (rest : bytes) (base : Z).
Context (HN : 0 < scc_buffer_size config <= isize_max) (HY : 0 < scc_yield_size config) (Hw : fair_writer wr).
Implicit Types self : H1BodyToChunkedTransfer R.

Lemma sending_completes head s tail total self n :
  len s <= u64_max -> sending config (wr_out wr) head s tail rest base total self n ->
  exists t, await (S n) H1BodyToChunkedTransfer_poll self = (Ok tt, t) /\
    sent (wr_out wr) rest base total (head ++ s ++ tail) t.
Proof.
  intros Hlen Hs.
  destruct (await_spec H1BodyToChunkedTransfer_poll (sending config (wr_out wr) head s tail rest base total)
    (fun _ t => sent (wr_out wr) rest base total (head ++ s ++ tail) t)
    (poll_sending config (wr_out wr) head s tail rest base total HN HY Hlen) (S n) self n Hs ltac:(lia)) as ([] & t & ? & ?).
  by exists t.
Qed.

(** A body of a known length. *)
Lemma fixed_length_completes (rd : R) s :
  len s <= u64_max -> sound rd (s ++ rest) ->
  exists t out, await (S (waits rd + writer_waits wr + length s)) H1BodyToChunkedTransfer_poll
      (btc_add_copied (btc_new_fixed_length rd wr (len s) config) base) = (Ok tt, t) /\
    sent (wr_out wr) rest base (len s) out t /\ chunked_wire M out s.
Proof.
  intros Hlen Hs. unfold btc_new_fixed_length. destruct (Z.eqb_spec (len s) 0) as [Hz|Hz].
  - apply len_0 in Hz as ->. cbn [app] in Hs.
    destruct (sending_completes [] [] (bs "0" ++ CRLF ++ CRLF) 0
      (btc_add_copied (btc_make (ContentLength 0) config (SendNoTrailerEnd rd 2 wr)) base) (writer_waits wr)) as (t & Ha & Ht).
    + done.
    + apply (sending_end _ _ _ _ _ _ _ _ _ _ rd 2 wr); try done. cbn. lia.
    + exists t, (bs "0" ++ CRLF ++ CRLF). split_and!; [|done|by apply wire_end].
      eapply await_more; [|exact Ha]. lia.
  - assert (s <> []) as Hne by (by intros ->).
    destruct (sending_completes (hex_fmt (len s) ++ CRLF) s NO_TRAILER_END_BUFFER (len s)
      (btc_add_copied (btc_make (ContentLength (len s)) config
        (SendHead (hex_fmt (len s) ++ CRLF) 0 (new_fixed_length rd (len s)) wr)) base)
      (waits rd + writer_waits wr + length s) Hlen) as (t & Ha & Ht).
    + apply (sending_head _ _ _ _ _ _ _ _ _ _ 0 (new_fixed_length rd (len s)) wr); try done.
      * apply (hbr_source_new M rest rd (ContentLength (len s)) s s); [done|]. by constructor.
      * by rewrite new_fixed_length_stream.
    + exists t, ((hex_fmt (len s) ++ CRLF) ++ s ++ NO_TRAILER_END_BUFFER). split_and!; try done.
      rewrite <- (app_nil_r s) at 3. apply wire_one_chunk; try done. by apply wire_end.
Qed.

(** A chunked body, and what is left of one inside a chunk. *)
Lemma chunked_completes (rd : R) s data :
  len s <= u64_max -> sound rd (s ++ rest) -> chunked_wire M s data ->
  exists t, await (S (waits rd + writer_waits wr + length s)) H1BodyToChunkedTransfer_poll
      (btc_add_copied (btc_new_chunked rd wr M config) base) = (Ok tt, t) /\ sent (wr_out wr) rest base (len data) s t.
Proof.
  intros Hlen Hs Hc.
  destruct (sending_completes [] s [] (len data) (btc_add_copied (btc_new_chunked rd wr M config) base)
    (waits rd + writer_waits wr + length s) Hlen) as (t & Ha & Ht).
  - eapply sending_copy; [done|done|done| |].
    + rewrite app_nil_r.
      apply (@copying_new _ _ (HttpBodyReader_laws rest (len data)) config HN (new_chunked rd M) wr s False False); try done.
      * apply (hbr_source_new M rest rd Chunked s data); [done|]. by constructor.
      * by apply fair_lawful.
      * by right.
    + unfold copy_size. change (scb_left _) with (@nil byte). done.
  - exists t. rewrite app_nil_r in Ht. done.
Qed.

Lemma after_preview_completes (rd : R) chunk s data :
  len (chunk ++ CRLF ++ s) <= u64_max -> chunk <> [] -> sound rd ((chunk ++ CRLF ++ s) ++ rest) -> chunked_wire M s data ->
  exists t out, await (S (waits rd + writer_waits wr + length (chunk ++ CRLF ++ s))) H1BodyToChunkedTransfer_poll
      (btc_add_copied (btc_new_chunked_after_preview rd wr (len chunk) M config) base) = (Ok tt, t) /\
    sent (wr_out wr) rest base (len (chunk ++ data)) out t /\ chunked_wire M out (chunk ++ data).
Proof.
  intros Hlen Hne Hs Hc. assert (0 < len chunk <= u64_max) by (destruct chunk; [done|len_lia]).
  unfold btc_new_chunked_after_preview. destruct (Z.eqb_spec (len chunk) 0); [lia|].
  destruct (sending_completes (hex_fmt (len chunk) ++ CRLF) (chunk ++ CRLF ++ s) [] (len (chunk ++ data))
    (btc_add_copied (btc_make Chunked config
      (SendHead (hex_fmt (len chunk) ++ CRLF) 0 (new_chunked_after_preview rd M (len chunk)) wr)) base)
    (waits rd + writer_waits wr + length (chunk ++ CRLF ++ s)) Hlen) as (t & Ha & Ht).
  - eapply sending_head; try done.
    + apply hbr_source_after_preview; try done. lia.
    + by rewrite new_chunked_after_preview_stream.
  - exists t, ((hex_fmt (len chunk) ++ CRLF) ++ chunk ++ CRLF ++ s). rewrite app_nil_r in Ht. split_and!; try done.
    apply wire_one_chunk; try done. lia.
Qed.

(** A body that ends with the stream. *)
Lemma read_until_end_completes (rd : R) s :
  len s <= u64_max -> sound rd s -> rest = [] ->
  exists t out, await (S (waits rd + writer_waits wr + length s)) H1BodyToChunkedTransfer_poll
      (btc_add_copied (btc_new_read_until_end rd wr config) base) = (Ok tt, t) /\
    sent (wr_out wr) rest base (len s) out t /\ chunked_wire M out s.
Proof.
  intros Hlen [Hs Hnf] Hr. set (Y := scc_yield_size config) in *.
  pose (Inv := fun self n => exists e s', btc_state self = Encode e /\ btc_body_size self = base /\
    encoding Y true (wr_out wr) s e s' /\ n = enc_size e s').
  destruct (await_spec H1BodyToChunkedTransfer_poll Inv
    (fun _ t => exists out, sent (wr_out wr) rest base (len s) out t /\ chunked_wire M out s)) with
    (polls := S (waits rd + writer_waits wr + length s)) (t := btc_add_copied (btc_new_read_until_end rd wr config) base)
    (n := (waits rd + writer_waits wr + length s)%nat) as ([] & t & Ha & out & ? & ?).
  - intros self n (e & s' & Hst & Hb & He & ->). unfold H1BodyToChunkedTransfer_poll. rewrite Hst. unfold poll_encode_body.
    pose proof (poll_encode_spec Y true (wr_out wr) s HY e s' He) as Hp.
    destruct (StreamToChunkedTransfer_poll e) as [[[k|err|]|] e']; [|done..|].
    + destruct Hp as (s'' & He' & _ & -> & full & Hcw & Hout & _ & _ & Hcp & _).
      exists (full ++ chunk_sep full ++ last_chunk true). split.
      * eapply sent_state; [by right|done| |].
        -- destruct He' as (? & [] & _). subst rest. done.
        -- cbn. rewrite Hb. unfold StreamToChunkedTransfer_body_size. by rewrite Hcp.
      * rewrite <- (app_nil_r s). apply chunks_written_wire; try done. by apply wire_end.
    + destruct Hp as (s'' & He' & Hn). exists (enc_size e' s''). split; [done|]. by exists e', s''.
  - exists (new_with_no_trailer rd wr Y), s. split_and!; try done. by apply encoding_new.
  - lia.
  - by exists t, out.
Qed.

End Complete.

(** C8: a body of any type is sent as a chunked one: for a body of a known
    length (which may be 0), a chunked one, or one that ends with the stream,
    cut into reads in any way, the transfer comes to its end; what it has
    written is a chunked body with the data of the original one, and the very
    bytes of one that was chunked already; the content is counted, and what
    follows the body is left in the stream. *)
Theorem body_sent_as_chunked {R} `{AsyncBufReadLaws R} `{Radix16Laws} (rd : R) (wr : writer) (config : StreamCopyConfig)
    (M : Z) (ty : HttpBodyType) (s data rest : bytes) :
  18 <= M -> 0 < scc_buffer_size config <= isize_max -> 0 < scc_yield_size config -> len s <= u64_max ->
  source rd (s ++ rest) -> ~ faulty rd -> fair_writer wr ->
  body_wire M ty s data rest \/ ty = ContentLength 0 /\ s = [] /\ data = [] ->
  exists t rd' wr' out,
    await (S (waits rd + writer_waits wr + length s)) H1BodyToChunkedTransfer_poll
      (H1BodyToChunkedTransfer_new rd wr ty M config) = (Ok tt, t) /\
    (btc_state t = FlushEnd rd' wr' \/ btc_state t = TransferEnd rd' wr') /\
    wr_out wr' = wr_out wr ++ out /\ chunked_wire M out data /\ (ty = Chunked -> out = s) /\
    H1BodyToChunkedTransfer_body_size t = len data /\ source rd' rest.
Proof.
  intros HM HN HY Hlen Hs Hnf Hw Hb.
  assert (exists t out, await (S (waits rd + writer_waits wr + length s)) H1BodyToChunkedTransfer_poll
      (H1BodyToChunkedTransfer_new rd wr ty M config) = (Ok tt, t) /\
    sent (wr_out wr) rest 0 (len data) out t /\ chunked_wire M out data /\ (ty = Chunked -> out = s)) as (t & out & Ha & Ht & Hc & He).
  2: { destruct Ht as (rd' & wr' & ? & ? & [? _] & ?). by exists t, rd', wr', out. }
  destruct Hb as [Hb|(-> & -> & ->)].
  2: { destruct (fixed_length_completes M HM config wr rest 0 HN HY Hw rd []) as (t & out & ? & ? & ?); try done. by exists t, out. }
  inversion Hb as [s' rest' Hne Hl|s' data' rest' Hc|s']; subst; cbn [H1BodyToChunkedTransfer_new].
  - destruct (fixed_length_completes M HM config wr rest 0 HN HY Hw rd data) as (t & out & ? & ? & ?); try done. by exists t, out.
  - destruct (chunked_completes M config wr rest 0 HN HY Hw rd s data) as (t & ? & ?); try done. by exists t, s.
  - destruct (read_until_end_completes M HM config wr [] 0 HY Hw rd data) as (t & out & ? & ? & ?); try done; [by rewrite app_nil_r in Hs|].
    by exists t, out.
Qed.

Lemma body_sent_as_chunked_witness :
  let RX := radix16_reference in
  let rd : reader := [Data (bs "hel"); Pend; Data (bs "loGET")] in
  let wr := {| wr_writes := [Accept 1; WPend]; wr_flushes := []; wr_out := []; wr_flushed := 0 |} in
  exists t rd' wr' out,
    await (S (waits rd + writer_waits wr + length (bs "hello"))) H1BodyToChunkedTransfer_poll
      (H1BodyToChunkedTransfer_new rd wr (ContentLength 5) 64 {| scc_buffer_size := 4; scc_yield_size := 2 |}) = (Ok tt, t) /\
    (btc_state t = FlushEnd rd' wr' \/ btc_state t = TransferEnd rd' wr') /\
    wr_out wr' = wr_out wr ++ out /\ chunked_wire 64 out (bs "hello") /\ (ContentLength 5 = Chunked -> out = bs "hello") /\
    H1BodyToChunkedTransfer_body_size t = len (bs "hello") /\ source rd' (bs "GET").
Proof.
  intros RX rd wr. apply (@body_sent_as_chunked reader reader_AsyncBufRead reader_AsyncBufReadLaws RX radix16_reference_laws
    rd wr {| scc_buffer_size := 4; scc_yield_size := 2 |} 64 (ContentLength 5) (bs "hello") (bs "hello") (bs "GET")).
  - apply Z.leb_le. reflexivity.
  - split; [reflexivity|apply Z.leb_le; reflexivity].
  - reflexivity.
  - apply Z.leb_le. reflexivity.
  - reflexivity.
  - intros Hf. apply Hf. repeat constructor; discriminate.
  - split; repeat constructor.
  - left. apply (wire_length 64 (bs "hello") (bs "GET")); [discriminate|apply Z.leb_le; reflexivity].
Defined.

(** ** What has been flushed *)

(** No more has been flushed than written. *)
Definition within (w : writer) : Prop := wr_flushed w <= len (wr_out w).

Lemma poll_write_flushed w data :
  let (r, w') := poll_write w data in
  wr_flushed w' = wr_flushed w /\ len (wr_out w) <= len (wr_out w') /\
  (forall n, r = Ready (Some n) -> len (wr_out w) + n <= len (wr_out w')).
Proof.
  unfold poll_write. destruct (wr_writes w) as [|[n| |] l]; cbn [wr_flushed wr_out]; (split; [done|]); (split; [len_lia|]); try done;
    intros m [= <-]; len_lia.
Qed.

Lemma poll_flush_within w : within w -> within (poll_flush w).2.
Proof. unfold poll_flush, within. destruct (wr_flushes w) as [|[] l]; cbn; lia. Qed.

Section Within.
Context {R : Type} `{!AsyncRead R}.
Implicit Types t : StreamCopy R.

Definition copy_within {A} (r : poll (res StreamCopyError A) * StreamCopy R) : Prop := within (sc_writer r.2).

Lemma within_bind {A B} (r : poll (res StreamCopyError A) * StreamCopy R) (k : A -> StreamCopy R -> poll (res StreamCopyError B) * StreamCopy R) :
  copy_within r -> (forall a t, within (sc_writer t) -> copy_within (k a t)) -> copy_within (poll_bind r k).
Proof. destruct r as [[[a|e|]|] t]; intros Hr Hk; [by apply Hk|done..]. Qed.

Lemma fill_buf_within t : within (sc_writer t) -> copy_within (scb_poll_fill_buf t).
Proof. intros Ht. unfold scb_poll_fill_buf. by repeat case_match. Qed.

Lemma flush_within t : within (sc_writer t) -> copy_within (sc_poll_flush t).
Proof.
  intros Ht. unfold sc_poll_flush. pose proof (poll_flush_within _ Ht) as Hw. by destruct (poll_flush _) as [[[]|] w].
Qed.

Lemma write_buf_within t : within (sc_writer t) -> copy_within (scb_poll_write_buf t).
Proof.
  intros Ht. unfold scb_poll_write_buf. destruct (slice _ _ _) as [data| |]; [|done..].
  pose proof (poll_write_flushed (sc_writer t) data) as Hp. destruct (poll_write _ data) as [r w]. destruct Hp as (Hf & Hl & _).
  assert (within w) as Hw by (unfold within in *; lia).
  destruct r as [[n|]|]; [by repeat case_match|done|]. unfold top_up. destruct (scb_read_done _); [done|].
  destruct (check_move_cache _); [|done..]. cbv zeta. case_match; [|done]. apply within_bind; [by apply fill_buf_within|done].
Qed.

Lemma write_out_within fuel t n : within (sc_writer t) -> copy_within (write_out fuel t n).
Proof.
  revert t n. induction fuel as [|fuel IH]; intros t n Ht; [done|]. cbn [write_out]. case_match; [|done].
  apply within_bind; [by apply write_buf_within|]. intros k t' Ht'.
  apply within_bind; [done|]. intros m t'' Ht''. by apply IH.
Qed.

Lemma read_first_within t : within (sc_writer t) -> copy_within (read_first t).
Proof.
  intros Ht. unfold read_first. destruct (scb_read_done _); [done|]. destruct (make_room _) as [b| |]; [|done..]. cbv zeta.
  case_match; [|done]. pose proof (fill_buf_within (sc_set_buf t b) Ht) as Hf.
  destruct (scb_poll_fill_buf _) as [[r|] t']; [done|]. case_match; [|done].
  unfold idle_flush. case_match; [|done]. apply within_bind; [by apply flush_within|done].
Qed.

Lemma poll_copy_within fuel t n : within (sc_writer t) -> copy_within (scb_poll_copy_loop fuel t n).
Proof.
  revert t n. induction fuel as [|fuel IH]; intros t n Ht; [done|]. cbn [scb_poll_copy_loop].
  apply within_bind; [by apply read_first_within|]. intros _ t1 Ht1.
  apply within_bind; [by apply write_out_within|]. intros k t2 Ht2.
  case_match; [|case_match; [done|by apply IH]]. apply within_bind; [|done]. case_match; [by apply flush_within|done].
Qed.

End Within.

Lemma send_loop_unflushed fuel buf offset w :
  let '(r, (offset', w')) := send_loop fuel buf (offset, w) in
  wr_flushed w' = wr_flushed w /\ len (wr_out w) <= len (wr_out w') /\
  len (wr_out w) + (offset' - offset) <= len (wr_out w') /\ (r = Ready (Ok tt) -> len buf <= offset').
Proof.
  revert offset w. induction fuel as [|fuel IH]; intros offset w; cbn [send_loop]; [by split_and!; [|lia|lia|]|].
  destruct (Z.ltb_spec offset (len buf)) as [Hlt|Hge]; [|by split_and!; [|lia|lia|]].
  destruct (slice_from buf offset) as [data| |]; cbn [poll_lift poll_bind]; [|by split_and!; [|lia|lia|]..].
  pose proof (poll_write_flushed w data) as Hp. destruct (poll_write w data) as [[[n|]|] w']; destruct Hp as (Hf & Hl & Hn);
    [|by split_and!; [|lia|lia|]..].
  destruct (n =? 0); [by split_and!; [|lia|lia|]|]. specialize (IH (offset + n) w'). specialize (Hn n eq_refl).
  destruct (send_loop fuel buf _) as [r [offset' w'']]. destruct IH as (-> & ? & ? & ?). split_and!; [done|lia|lia|done].
Qed.

Section Unflushed.
Context {R : Type} `{!AsyncBufRead R} `{!Radix16} (skip : Z).
Implicit Types self : H1BodyToChunkedTransfer R.

(** A transfer of a body of a known length that has not flushed what it has
    written of the end, of which it skips the first [skip] bytes. *)
Definition end_unflushed self : Prop :=
  (exists n, btc_body_type self = ContentLength n) /\
  match btc_state self with
  | SendHead _ _ _ wr => skip = 0 /\ within wr
  | CopyBody copy => skip = 0 /\ within (sc_writer copy)
  | SendNoTrailerEnd _ offset wr => wr_flushed wr + (offset - skip) <= len (wr_out wr)
  | FlushEnd _ wr => wr_flushed wr + (len NO_TRAILER_END_BUFFER - skip) <= len (wr_out wr)
  | _ => False
  end.

Definition unflushed_step (r : poll (res StreamCopyError unit) * H1BodyToChunkedTransfer R) : Prop :=
  match r with
  | (Ready (Ok _), self') => end_unflushed self' /\ btc_finished self' = true
  | (Pending, self') => end_unflushed self' /\ btc_finished self' = false
  | _ => True
  end.

Lemma send_end_unflushed self rd offset wr :
  (exists n, btc_body_type self = ContentLength n) -> wr_flushed wr + (offset - skip) <= len (wr_out wr) ->
  unflushed_step (poll_send_end self rd offset wr).
Proof.
  intros Hty Hw. unfold poll_send_end. pose proof (send_loop_unflushed (S (length NO_TRAILER_END_BUFFER)) NO_TRAILER_END_BUFFER offset wr) as Hp.
  destruct (send_loop _ _ _) as [[[[]|e|]|] [offset' w]]; destruct Hp as (Hf & _ & Hl & Hn); [|done..|].
  - specialize (Hn eq_refl). split; [|done]. split; [done|]. cbn. cbn in Hn. lia.
  - split; [|done]. split; [done|]. cbn. lia.
Qed.

Lemma copy_body_unflushed self copy :
  (exists n, btc_body_type self = ContentLength n) -> skip = 0 -> within (sc_writer copy) -> unflushed_step (poll_copy_body self copy).
Proof.
  intros Hty Hskip Hw. unfold poll_copy_body, ROwnedStreamCopy_poll, scb_poll_copy. pose proof (poll_copy_within (S (Z.to_nat (scb_yield_size (sc_buf copy)))) copy 0 Hw) as Hc.
  destruct (scb_poll_copy_loop _ copy 0) as [[[k|e|]|] copy']; unfold copy_within in Hc; cbn [snd] in Hc; [|done..|].
  - cbn [btc_set btc_add btc_body_type]. destruct Hty as [n Hty]. rewrite Hty. apply send_end_unflushed; [by exists n|]. unfold within in Hc. lia.
  - split; [|done]. by split.
Qed.

Lemma poll_unflushed self :
  end_unflushed self -> btc_finished self = false -> unflushed_step (H1BodyToChunkedTransfer_poll self).
Proof.
  intros [Hty Hs] Hf. unfold H1BodyToChunkedTransfer_poll, btc_finished in *.
  destruct (btc_state self) as [head offset br wr|copy|rd offset wr|encode|rd wr|rd wr]; try done.
  - destruct Hs as [Hskip Hw]. unfold poll_send_head. pose proof (send_loop_unflushed (S (length head)) head offset wr) as Hp.
    destruct (send_loop _ _ _) as [[[[]|e|]|] [offset' w]]; destruct Hp as (Hf' & Hl & _ & _); [|done..|].
    + apply copy_body_unflushed; [done|done|]. unfold within in *. cbn. lia.
    + split; [|done]. split; [done|]. cbn. unfold within in *. split; [done|lia].
  - destruct Hs. by apply copy_body_unflushed.
  - by apply send_end_unflushed.
Qed.

Lemma await_unflushed polls self t :
  end_unflushed self -> btc_finished self = false -> await polls H1BodyToChunkedTransfer_poll self = (Ok tt, t) ->
  end_unflushed t /\ btc_finished t = true.
Proof.
  revert self. induction polls as [|polls IH]; intros self Hs Hf; cbn [await]; [done|].
  pose proof (poll_unflushed self Hs Hf) as Hp. destruct (H1BodyToChunkedTransfer_poll self) as [[r|] self'].
  - intros [= -> ->]. done.
  - destruct Hp. by apply IH.
Qed.

End Unflushed.

(** C39: the end of a body of a known length is not flushed when the transfer
    reports that it is complete.  For every such body, cut into reads in any way,
    and every writer that does not fail, the transfer returns [Ok] and counts as
    finished, in the state [FlushEnd]; but at least the last five bytes that it has
    written, the last chunk and the empty trailer, have not been flushed. *)
Theorem transfer_end_is_not_flushed {R} `{AsyncBufReadLaws R} `{Radix16Laws} (rd : R) (wr : writer) (config : StreamCopyConfig)
    (M : Z) (s rest : bytes) :
  18 <= M -> 0 < scc_buffer_size config <= isize_max -> 0 < scc_yield_size config -> len s <= u64_max ->
  source rd (s ++ rest) -> ~ faulty rd -> fair_writer wr -> wr_flushed wr <= len (wr_out wr) ->
  exists t rd' wr' out,
    await (S (waits rd + writer_waits wr + length s)) H1BodyToChunkedTransfer_poll
      (H1BodyToChunkedTransfer_new rd wr (ContentLength (len s)) M config) = (Ok tt, t) /\
    btc_finished t = true /\ btc_state t = FlushEnd rd' wr' /\
    wr_out wr' = wr_out wr ++ out /\ chunked_wire M out s /\
    wr_flushed wr' + len (bs "0" ++ CRLF ++ CRLF) <= len (wr_out wr').
Proof.
  intros HM HN HY Hlen Hs Hnf Hw Hfl.
  destruct (fixed_length_completes M HM config wr rest 0 HN HY Hw rd s) as (t & out & Ha & (rd' & wr' & Hst & Hout & _) & Hc); [done|done|].
  set (skip := if len s =? 0 then 2 else 0).
  edestruct (await_unflushed skip) as [[_ Hun] Hfin]; [| |exact Ha|].
  - split; [by exists (len s)|]. unfold btc_new_fixed_length, skip. destruct (len s =? 0); cbn; [lia|done].
  - unfold btc_new_fixed_length. by destruct (len s =? 0).
  - destruct Hst as [Hst|Hst]; rewrite Hst in Hun; [|done]. exists t, rd', wr', out. split_and!; try done.
    change (len NO_TRAILER_END_BUFFER) with 7 in Hun. change (len (bs "0" ++ CRLF ++ CRLF)) with 5.
    unfold skip in Hun. destruct (len s =? 0); lia.
Qed.

Lemma transfer_end_is_not_flushed_witness :
  let RX := radix16_reference in
  let rd : reader := [Data (bs "hel"); Pend; Data (bs "loGET")] in
  let wr := {| wr_writes := [Accept 1; WPend]; wr_flushes := []; wr_out := []; wr_flushed := 0 |} in
  exists t rd' wr' out,
    await (S (waits rd + writer_waits wr + length (bs "hello"))) H1BodyToChunkedTransfer_poll
      (H1BodyToChunkedTransfer_new rd wr (ContentLength 5) 64 {| scc_buffer_size := 4; scc_yield_size := 2 |}) = (Ok tt, t) /\
    btc_finished t = true /\ btc_state t = FlushEnd rd' wr' /\
    wr_out wr' = wr_out wr ++ out /\ chunked_wire 64 out (bs "hello") /\
    wr_flushed wr' + len (bs "0" ++ CRLF ++ CRLF) <= len (wr_out wr').
Proof.
  intros RX rd wr. apply (@transfer_end_is_not_flushed reader reader_AsyncBufRead reader_AsyncBufReadLaws RX radix16_reference_laws
    rd wr {| scc_buffer_size := 4; scc_yield_size := 2 |} 64 (bs "hello") (bs "GET")).
  - apply Z.leb_le. reflexivity.
  - split; [reflexivity|apply Z.leb_le; reflexivity].
  - reflexivity.
  - apply Z.leb_le. reflexivity.
  - reflexivity.
  - intros Hf. apply Hf. repeat constructor; discriminate.
  - split; repeat constructor.
  - apply Z.leb_le. reflexivity.
Defined.
