(* ===== verification/IcapPreview.v ===== *)
(** * The preview of an ICAP request

    Models the body part of [lib/vey-icap-client/src/reqmod/h1/preview.rs]: some
    of the body of an HTTP/1 request is read and sent to the ICAP server as a
    preview, and when the server asks for more the transfer of
    [HttpToChunked] sends the rest.  The headers, the answers of the server and
    the idle timers around the reads are not modelled. *)

From Stdlib Require Import ZArith Lia Strings.Byte.
From stdpp Require Import base list.
From S2P Require Import Prelude Reader AsyncIo StreamCopy HttpLine HttpChunkDecode HttpChunkEncode HttpBody HttpToChunked.

Inductive H1ReqmodAdaptationError : Type :=
| HttpClientReadFailed (e : io_error)
| InternalServerError.

(** [while read_offset < max_size { reader.read(&mut buf[read_offset..]).await }] *)
Fixpoint read_preview_loop {R} `{AsyncRead R} (polls : nat) (r : R) (max_size : Z) (buf : bytes)
    : res H1ReqmodAdaptationError bytes * R :=
  match polls with
  | O => (Panic, r)
  | S polls' =>
      if len buf <? max_size then
        match ar_poll_read r (max_size - len buf) with
        | (Pending, r) => read_preview_loop polls' r max_size buf
        | (Ready (Ok c), r) => if len c =? 0 then (Ok buf, r) else read_preview_loop polls' r max_size (buf ++ c)
        | (Ready (Err e), r) => (Err (HttpClientReadFailed e), r)
        | (Ready Panic, r) => (Panic, r)
        end
      else (Ok buf, r)
  end.

Definition read_preview_data {R} `{AsyncRead R} (polls : nat) (r : R) (max_size : Z)
    : res H1ReqmodAdaptationError bytes * R :=
  read_preview_loop polls r max_size [].

(** The ways in which [xfer_with_preview] goes on: without a body, with all of
    it in the preview (the trailer of a chunked one still to be read), or with
    the preview and the rest of the body. *)
Inductive preview_outcome (R : Type) : Type :=
| PreviewNoBody (rd : R)
| PreviewSmall (preview : bytes) (rd : R)
| PreviewSmallChunked (preview : bytes) (trailer_reader : HttpBodyReader R)
| PreviewPlain (preview : bytes) (body_type : HttpBodyType) (rd : R)
| PreviewChunked (preview : bytes) (left_chunk_size : Z) (decoder : ChunkedDataDecodeReader R).
Arguments PreviewNoBody {R}.
Arguments PreviewSmall {R}.
Arguments PreviewSmallChunked {R}.
Arguments PreviewPlain {R}.
Arguments PreviewChunked {R}.

Section Preview.
Context {R : Type} `{!AsyncBufRead R} `{!Radix16}.

Definition preview_until_end (polls : nat) (rd : R) (preview_size : Z) : res H1ReqmodAdaptationError (preview_outcome R) :=
  let (r, reader) := read_preview_data polls (new_read_until_end rd) preview_size in
  let? preview_buf := r in
  Ok (if hbr_finished reader then
        if len preview_buf =? 0 then PreviewNoBody (hbr_stream reader) else PreviewSmall preview_buf (hbr_stream reader)
      else PreviewPlain preview_buf ReadUntilEnd (hbr_stream reader)).

Definition preview_fixed_length (polls : nat) (rd : R) (n preview_size : Z)
    : res H1ReqmodAdaptationError (preview_outcome R) :=
  let (r, reader) := read_preview_data polls (new_fixed_length rd n) preview_size in
  let? preview_buf := r in
  if hbr_finished reader then Ok (PreviewSmall preview_buf (hbr_stream reader))
  else
    let? left := usub n (len preview_buf) in
    Ok (PreviewPlain preview_buf (ContentLength left) (hbr_stream reader)).

Definition preview_chunked (polls : nat) (rd : R) (body_line_max_size preview_size : Z)
    : res H1ReqmodAdaptationError (preview_outcome R) :=
  let (r, decoder) := read_preview_data polls (ChunkedDataDecodeReader_new rd body_line_max_size) preview_size in
  let? preview_buf := r in
  if ChunkedDataDecodeReader_finished decoder then
    Ok (PreviewSmallChunked preview_buf
          (new_trailer (ChunkedDataDecodeReader_into_reader decoder) body_line_max_size))
  else
    let (r, decoder) :=
      match ChunkedDataDecodeReader_left_chunk_size decoder with
      | None => finish_pending_chunk_end polls decoder
      | Some _ => (Ok tt, decoder)
      end in
    let? _ := map_err HttpClientReadFailed r in
    match ChunkedDataDecodeReader_left_chunk_size decoder with
    | Some left_chunk_size => Ok (PreviewChunked preview_buf left_chunk_size decoder)
    | None => Err InternalServerError
    end.

Definition xfer_preview (polls : nat) (rd : R) (body_type : HttpBodyType) (body_line_max_size preview_size : Z)
    : res H1ReqmodAdaptationError (preview_outcome R) :=
  match body_type with
  | ReadUntilEnd => preview_until_end polls rd preview_size
  | ContentLength n => preview_fixed_length polls rd n preview_size
  | Chunked => preview_chunked polls rd body_line_max_size preview_size
  end.

(** The body that [send_preview_data] sends behind the headers. *)
Definition preview_body (data : bytes) : bytes := hex_fmt (len data) ++ CRLF ++ data ++ CRLF ++ bs "0" ++ CRLF ++ CRLF.

(** The transfer of the rest of the body after the answer 100. *)
Definition continue_transfer (o : preview_outcome R) (wr : writer) (body_line_max_size : Z) (config : StreamCopyConfig)
    : option (H1BodyToChunkedTransfer R) :=
  match o with
  | PreviewPlain preview_buf ReadUntilEnd rd =>
      Some (btc_add_copied (btc_new_read_until_end rd wr config) (len preview_buf))
  | PreviewPlain preview_buf (ContentLength n) rd =>
      Some (btc_add_copied (btc_new_fixed_length rd wr n config) (len preview_buf))
  | PreviewChunked preview_buf left_chunk_size decoder =>
      Some (btc_add_copied
              (btc_new_chunked_after_preview (ChunkedDataDecodeReader_into_reader decoder) wr left_chunk_size
                 body_line_max_size config) (len preview_buf))
  | _ => None
  end.

End Preview.

(** ** Reading a preview *)

Lemma read_preview_loop_spec {R} `{AsyncReadLaws R} polls (r : R) s max_size buf :
  source r s -> ~ faulty r -> len buf <= max_size -> (waits r + length s < polls)%nat ->
  exists r' s1 s2, read_preview_loop polls r max_size buf = (Ok (buf ++ s1), r') /\ s = s1 ++ s2 /\
    source r' s2 /\ ~ faulty r' /\ len (buf ++ s1) <= max_size /\ (waits r' <= waits r)%nat /\
    (len (buf ++ s1) = max_size \/ s2 = [] /\ at_end r').
Proof.
  revert r s buf. induction polls as [|polls IH]; intros r s buf Hs Hf Hb Hp; [lia|]. cbn [read_preview_loop].
  destruct (Z.ltb_spec (len buf) max_size) as [Hlt|Hge].
  2: { exists r, [], s. rewrite app_nil_r. split_and!; try done. left. lia. }
  pose proof (source_poll_read r s (max_size - len buf) Hs ltac:(lia)) as Hr.
  destruct (ar_poll_read r (max_size - len buf)) as [[[c|e|]|] r1]; [|tauto|done|].
  - destruct Hr as (s' & -> & Hc & Hs' & Hf' & Hnil & Hw). destruct (Z.eqb_spec (len c) 0) as [->%len_0|Hne].
    + destruct (Hnil eq_refl) as [?|[Hx He]]; [done|]. cbn in Hx. subst s'.
      exists r1, [], []. rewrite app_nil_r. split_and!; try done; [tauto|]. by right.
    + destruct (IH r1 s' (buf ++ c) Hs' ltac:(tauto) ltac:(len_lia)) as (r' & s1 & s2 & -> & -> & ? & ? & ? & ? & ?).
      { rewrite length_app in Hp. unfold len in Hne. lia. }
      exists r', (c ++ s1), s2. rewrite <- !app_assoc in *. split_and!; try done. lia.
  - destruct Hr as (Hs' & Hf' & Hw).
    destruct (IH r1 s buf Hs' ltac:(tauto) Hb ltac:(lia)) as (r' & s1 & s2 & -> & -> & ? & ? & ? & ? & ?).
    exists r', s1, s2. split_and!; try done. lia.
Qed.

Lemma read_preview_data_spec {R} `{AsyncReadLaws R} polls (r : R) s max_size :
  source r s -> ~ faulty r -> 0 <= max_size -> (waits r + length s < polls)%nat ->
  exists r' s1 s2, read_preview_data polls r max_size = (Ok s1, r') /\ s = s1 ++ s2 /\
    source r' s2 /\ ~ faulty r' /\ len s1 <= max_size /\ (waits r' <= waits r)%nat /\
    (len s1 = max_size \/ s2 = [] /\ at_end r').
Proof. intros Hs Hf Hm Hp. apply (read_preview_loop_spec polls r s max_size [] Hs Hf); [len_lia|done]. Qed.

Lemma clean_wire_len `{Radix16} M s data tr :
  clean_wire M s data tr -> 0 <= M -> len s <= (M + 3) * (len data + 1) + len tr.
Proof.
  intros Hc HM. induction Hc as [pre tr (_ & Hl & _) _ _|pre chunk s data tr (_ & Hl & _) _ Hne Hc IH].
  - unfold CRLF. len_simpl. change (len (@nil byte)) with 0. lia.
  - assert (0 < len chunk) by (destruct chunk; [done|len_lia]). unfold CRLF. len_simpl.
    change (len [HTTP_CR; HTTP_LF]) with 2. nia.
Qed.

Section PreviewSpec.
Context {R : Type} `{AsyncBufReadLaws R} `{Radix16Laws} (M : Z) (rest : bytes) (size : Z) (Hsize : 0 < size).

(** The line end behind a chunk is read, and nothing else. *)
Lemma finish_pending_spec polls (d : ChunkedDataDecodeReader R) X data r :
  cdd_source X M r d data -> (waits (cdd_reader d) < polls)%nat ->
  exists d', finish_pending_chunk_end polls d = (Ok tt, d') /\ cdd_source X M r d' data /\
    cdi_chunk_header (cdd_internal d') = cdi_chunk_header (cdd_internal d) /\
    (ChunkedDataDecodeReader_finished d = false ->
     ChunkedDataDecodeReader_finished d' = false /\ cdi_left (cdd_internal d') <> None).
Proof.
  intros Hd Hp. pose (same := fun d' : ChunkedDataDecodeReader R =>
    cdd_source X M r d' data /\ cdi_chunk_header (cdd_internal d') = cdi_chunk_header (cdd_internal d) /\
    (ChunkedDataDecodeReader_finished d = false -> ChunkedDataDecodeReader_finished d' = false)).
  destruct (await_spec poll_finish_pending (fun d' n => same d' /\ n = waits (cdd_reader d'))
    (fun _ d' => same d' /\ (ChunkedDataDecodeReader_finished d = false -> cdi_left (cdd_internal d') <> None)))
    with (polls := polls) (t := d) (n := waits (cdd_reader d)) as ([] & d' & Ha & (? & ? & ?) & ?);
    [|done|done|exists d'; split_and!; auto].
  intros d1 n ((Hs & Hh & Hf1) & ->). unfold poll_finish_pending, poll_finish_chunk_end.
  pose proof (poll_finish_chunk_end_loop_spec X M 3 (cdd_internal d1) (cdd_reader d1) data r Hs) as Hf.
  specialize (Hf ltac:(unfold end_rank; repeat case_match; lia)).
  destruct (poll_finish_chunk_end_loop 3 _ _) as [[[[u|e|]|] self'] rd']; [|done..|].
  - destruct Hf as (Hd' & Hh' & _ & Hend). unfold same, ChunkedDataDecodeReader_finished in *. cbn.
    split_and!; [done|congruence|tauto|]. intros (_ & Hr & Hn)%Hf1%Hend. unfold cdi_left. by rewrite Hr, Hn.
  - destruct Hf as (Hd' & Hh' & Hw & Hfin). unfold same, ChunkedDataDecodeReader_finished in *. cbn.
    eexists. split; [exact Hw|]. split_and!; [done|congruence|tauto|done].
Qed.

(** What is left of a chunked body when the decoder is not in a size line. *)
Definition chunked_rest (d : ChunkedDataDecodeReader R) (k : Z) (data tr : bytes) : Prop :=
  k = 0 /\ (exists s, sound (cdd_reader d) (s ++ rest) /\ clean_wire M s data tr) \/
  exists chunk s data', k = len chunk /\ chunk <> [] /\ sound (cdd_reader d) ((chunk ++ CRLF ++ s) ++ rest) /\
    data = chunk ++ data' /\ clean_wire M s data' tr.

Lemma decoder_chunked_rest d k data tr :
  cdd_source strict M (tr ++ rest) d data -> trailer_wire M tr ->
  cdi_chunk_header (cdd_internal d) = [] -> cdi_left (cdd_internal d) = Some k -> ChunkedDataDecodeReader_finished d = false ->
  chunked_rest d k data tr.
Proof.
  intros Hd Htr Hh Hk Hf.
  destruct (decoding_left strict M _ _ _ _ k Hd Hh Hk Hf) as [(-> & w & Hs & Hw)|(chunk & eol & w & data' & -> & Hne & -> & Hs & -> & Hw)];
    destruct (strict_clean_wire M _ _ _ _ Hw Htr) as (s & -> & Hc).
  - left. split; [done|]. by exists s.
  - right. exists chunk, s, data'. rewrite <- !app_assoc. by split_and!.
Qed.

Lemma clean_wire_trailer s data tr : clean_wire M s data tr -> trailer_wire M tr.
Proof. by induction 1. Qed.

Lemma preview_chunked_spec polls (rd : R) s data tr :
  sound rd (s ++ rest) -> clean_wire M s data tr -> (waits rd + length data < polls)%nat ->
  exists o, preview_chunked polls rd M size = Ok o /\
    match o with
    | PreviewSmallChunked p reader => p = data /\ hbr_source rest 0 reader tr
    | PreviewChunked p k d =>
        exists data', data = p ++ data' /\ len p = size /\ cdd_source strict M (tr ++ rest) d data' /\
          cdi_left (cdd_internal d) = Some k /\ ChunkedDataDecodeReader_finished d = false
    | _ => False
    end.
Proof.
  intros Hs Hc Hp. unfold preview_chunked.
  pose (L := ChunkedDataDecodeReader_laws strict M (tr ++ rest) : AsyncReadLaws (ChunkedDataDecodeReader R)).
  assert (cdd_source strict M (tr ++ rest) (ChunkedDataDecodeReader_new rd M) data) as Hsrc.
  { apply cdd_source_new with (s ++ rest); [done|]. by apply clean_wire_strict. }
  destruct (@read_preview_data_spec _ _ L polls (ChunkedDataDecodeReader_new rd M) data size Hsrc ltac:(by intros []) ltac:(lia) Hp)
    as (d & p & data' & -> & -> & Hd & _ & Hlen & Hw & Hend). cbn [bind]. change (@source _ _ L) with (cdd_source strict M (tr ++ rest)) in Hd.
  pose proof (clean_wire_trailer _ _ _ Hc) as Htr.
  assert (forall d0 x, cdd_source strict M (tr ++ rest) d0 x -> ChunkedDataDecodeReader_finished d0 = true ->
    x = [] /\ sound (cdd_reader d0) (tr ++ rest)) as Hfin.
  { intros d0 x Hd0 Hf0. split; [|by eapply finished_sound]. destruct Hd0 as (w & Hd0 & _).
    unfold ChunkedDataDecodeReader_finished, cdi_finished in Hf0. apply andb_true_iff in Hf0 as [He Ht%Z.eqb_eq].
    inversion Hd0; subst; congruence. }
  destruct (ChunkedDataDecodeReader_finished d) eqn:Hf.
  { destruct (Hfin d data' Hd Hf) as [-> Hsd]. eexists. split; [reflexivity|]. rewrite app_nil_r. split; [done|].
    by apply hbr_source_trailer. }
  assert (len p = size) as Hps by (destruct Hend as [?|[_ [? _]]]; [done|congruence]).
  destruct (ChunkedDataDecodeReader_left_chunk_size d) as [k|] eqn:Hk.
  { rewrite Hk. eexists. split; [reflexivity|]. by exists data'. }
  destruct (finish_pending_spec polls d strict data' (tr ++ rest) Hd) as (d' & -> & Hd' & Hh' & Hleft); [cbn in Hw; lia|].
  cbn [map_err bind]. destruct (Hleft Hf) as [Hf' Hl'].
  destruct (ChunkedDataDecodeReader_left_chunk_size d') as [k|] eqn:Hk'; [|done].
  eexists. split; [reflexivity|]. by exists data'.
Qed.

(** A decoder that has taken a part of a size line. *)
Lemma decoder_in_size_line d k data tr :
  cdd_source strict M (tr ++ rest) d data -> trailer_wire M tr ->
  cdi_chunk_header (cdd_internal d) <> [] -> cdi_left (cdd_internal d) = Some k -> ChunkedDataDecodeReader_finished d = false ->
  k = 0 /\ exists w s, sound (cdd_reader d) w /\ cdi_chunk_header (cdd_internal d) ++ w = s ++ rest /\ clean_wire M s data tr.
Proof.
  intros (w & Hd & Hs & _) Htr Hh Hk Hf. unfold cdi_left in Hk. unfold ChunkedDataDecodeReader_finished, cdi_finished in Hf.
  inversion Hd as [self s' data' rest' He Hn Hr Hl _ Hw| | | | |self rest' He Ht]; subst; try done.
  - rewrite Hn, Hr, Hl in Hk. injection Hk as <-. split; [done|].
    destruct (strict_clean_wire M _ _ _ _ Hw Htr) as (s & Heq & Hc). by exists w, s.
  - by rewrite He, Ht in Hf.
Qed.

Lemma body_wire_plain ty s data :
  body_wire M ty s data rest -> ty <> Chunked ->
  data = s /\ (ty = ContentLength (len s) \/ ty = ReadUntilEnd /\ rest = []).
Proof. intros Hb Hty. destruct Hb; auto; congruence. Qed.

(** The reader of a body that is not chunked stays one. *)
Definition plain_source total (self : HttpBodyReader R) (s : bytes) : Prop :=
  hbr_source rest total self s /\ hbr_body_type self <> Chunked.

Lemma poll_read_body_type (self : HttpBodyReader R) room :
  hbr_body_type self <> Chunked -> hbr_body_type (snd (HttpBodyReader_poll_read self room)) = hbr_body_type self.
Proof.
  intros Hty. unfold HttpBodyReader_poll_read, poll_eof, poll_fixed, update_next_read_size.
  repeat case_match; cbn in *; congruence.
Qed.

Lemma plain_poll_read_laws total (self : HttpBodyReader R) s room :
  plain_source total self s -> 0 < room ->
  match ar_poll_read self room with
  | (Ready (Ok c), self') =>
      exists s', s = c ++ s' /\ len c <= room /\ plain_source total self' s' /\ (False -> False) /\
        (c = [] -> False \/ s = [] /\ hbr_at_end rest total self') /\ (waits (hbr_stream self') <= waits (hbr_stream self))%nat
  | (Ready (Err _), self') => plain_source total self' s /\ False
  | (Pending, self') =>
      plain_source total self' s /\ (False -> False) /\ (waits (hbr_stream self') < waits (hbr_stream self))%nat
  | (Ready Panic, _) => False
  end.
Proof.
  intros [Hs Hty] Hroom. pose proof (hbr_poll_read_laws rest total self s room Hs Hroom) as Hp.
  pose proof (poll_read_body_type self room Hty) as Hty'. unfold plain_source.
  change (ar_poll_read self room) with (HttpBodyReader_poll_read self room) in *.
  destruct (HttpBodyReader_poll_read self room) as [[[c|e|]|] self']; cbn in Hty'; rewrite ?Hty'; [|tauto..].
  destruct Hp as (s' & ? & ? & ? & ? & ? & ?). exists s'. rewrite ?Hty'. by split_and!.
Qed.

Definition plain_laws total : AsyncReadLaws (HttpBodyReader R) := {|
  source := plain_source total;
  faulty _ := False;
  at_end := hbr_at_end rest total;
  waits self := waits (hbr_stream self);
  source_poll_read := plain_poll_read_laws total
|}.

Lemma plain_source_left total self s :
  plain_source total self s -> sound (hbr_stream self) (s ++ rest) /\ (hbr_finished self = true -> s = []).
Proof.
  intros [Hs Hty]. destruct Hs as [data []|n ? ? ? ? ? Hf|n ? ? -> ?|? Hr ? ?]; [done|by rewrite Hf|done|].
  by rewrite Hr, app_nil_r.
Qed.

Lemma plain_preview_read polls self s :
  plain_source (len s) self s -> (waits (hbr_stream self) + length s < polls)%nat ->
  exists p s' reader, read_preview_data polls self size = (Ok p, reader) /\ s = p ++ s' /\
    sound (hbr_stream reader) (s' ++ rest) /\
    (if hbr_finished reader then s' = [] else len p = size).
Proof.
  intros Hs Hp. destruct (@read_preview_data_spec _ _ (plain_laws (len s)) polls self s size Hs ltac:(by intros []) ltac:(lia) Hp)
    as (reader & p & s' & -> & -> & Hs' & _ & _ & _ & Hend).
  destruct (plain_source_left _ _ _ Hs') as [Hst Hfin]. exists p, s', reader. split_and!; try done.
  destruct (hbr_finished reader) eqn:Hf; [by apply Hfin|]. destruct Hend as [?|[_ [? _]]]; [done|congruence].
Qed.

Lemma preview_plain_spec polls (rd : R) ty s data :
  sound rd (s ++ rest) -> body_wire M ty s data rest -> ty <> Chunked -> (waits rd + length s < polls)%nat ->
  exists o, xfer_preview polls rd ty M size = Ok o /\ data = s /\
    match o with
    | PreviewNoBody rd' => s = [] /\ sound rd' rest
    | PreviewSmall p rd' => p = s /\ sound rd' rest
    | PreviewPlain p ty' rd' =>
        exists s', s = p ++ s' /\ len p = size /\ sound rd' (s' ++ rest) /\
          (ty' = ContentLength (len s') \/ ty' = ReadUntilEnd /\ rest = [])
    | _ => False
    end.
Proof.
  intros Hs Hb Hty Hp. pose proof (hbr_source_new M rest rd ty s data Hs Hb) as Hsrc.
  destruct (body_wire_plain ty s data Hb Hty) as [-> [->|[-> Hr1]]]; cbn [xfer_preview HttpBodyReader_new] in *.
  - destruct (plain_preview_read polls (new_fixed_length rd (len s)) s) as (p & s' & reader & Hr & -> & Hst & Hfin).
    + split; [done|]. unfold new_fixed_length, update_next_read_size. by repeat case_match.
    + by rewrite new_fixed_length_stream.
    + unfold preview_fixed_length. rewrite Hr. cbn [bind]. destruct (hbr_finished reader).
      * subst s'. rewrite app_nil_r. eexists. by split_and!.
      * rewrite usub_ok by len_lia. cbn [bind]. eexists. split_and!; [reflexivity|done|]. exists s'.
        split_and!; try done. left. f_equal. len_lia.
  - destruct (plain_preview_read polls (new_read_until_end rd) s) as (p & s' & reader & Hr & -> & Hst & Hfin).
    + by split.
    + done.
    + unfold preview_until_end. rewrite Hr. cbn [bind]. destruct (hbr_finished reader).
      * subst s'. rewrite app_nil_r. eexists. split_and!; [reflexivity|done|].
        destruct (Z.eqb_spec (len p) 0) as [->%len_0|]; done.
      * eexists. split_and!; [reflexivity|done|]. exists s'. split_and!; try done. by right.
Qed.

End PreviewSpec.

(** ** The rest of the body *)

(** A transfer that completes, after which a chunked body with [data] is
    written, [total] bytes of content are counted and [rest] is left. *)
Definition completes {R} `{AsyncBufReadLaws R} `{Radix16} (M : Z) (wr : writer) (rest data : bytes) (total : Z)
    (self : H1BodyToChunkedTransfer R) : Prop :=
  exists polls t rd' wr' out,
    await polls H1BodyToChunkedTransfer_poll self = (Ok tt, t) /\
    (btc_state t = FlushEnd rd' wr' \/ btc_state t = TransferEnd rd' wr') /\
    wr_out wr' = wr_out wr ++ out /\ chunked_wire M out data /\
    H1BodyToChunkedTransfer_body_size t = total /\ source rd' rest.

Section Continue.
Context {R : Type} `{AsyncBufReadLaws R} `{Radix16Laws} (M : Z) (HM : 18 <= M).
Context (config : StreamCopyConfig) (wr : writer) (rest : bytes) (base : Z).
Context (HN : 0 < scc_buffer_size config <= isize_max) (HY : 0 < scc_yield_size config) (Hw : fair_writer wr).

Lemma completes_sent data (self : H1BodyToChunkedTransfer R) polls t out :
  await polls H1BodyToChunkedTransfer_poll self = (Ok tt, t) -> sent (wr_out wr) rest base (len data) out t ->
  chunked_wire M out data -> completes M wr rest data (base + len data) self.
Proof. intros Ha (rd' & wr' & ? & ? & [? _] & ?) Hc. by exists polls, t, rd', wr', out. Qed.

Lemma plain_rest_completes (rd : R) ty s :
  len s <= u64_max -> sound rd (s ++ rest) -> ty = ContentLength (len s) \/ ty = ReadUntilEnd /\ rest = [] ->
  completes M wr rest s (base + len s)
    (btc_add_copied (H1BodyToChunkedTransfer_new rd wr ty M config) base).
Proof.
  intros Hlen Hs [->|[-> Hr]]; cbn [H1BodyToChunkedTransfer_new].
  - destruct (fixed_length_completes M HM config wr rest base HN HY Hw rd s Hlen Hs) as (t & out & ? & ? & ?).
    by eapply completes_sent.
  - rewrite Hr, app_nil_r in Hs.
    destruct (read_until_end_completes M HM config wr rest base HY Hw rd s Hlen Hs Hr) as (t & out & ? & ? & ?).
    by eapply completes_sent.
Qed.

Lemma chunked_rest_completes (d : ChunkedDataDecodeReader R) k data tr :
  (M + 3) * (len data + 1) + len tr <= u64_max -> chunked_rest M rest d k data tr ->
  completes M wr rest data (base + len data)
    (btc_add_copied (btc_new_chunked_after_preview (ChunkedDataDecodeReader_into_reader d) wr k M config) base).
Proof.
  intros Hlen [(-> & s & Hs & Hc)|(chunk & s & data' & -> & Hne & Hs & -> & Hc)];
    pose proof (clean_wire_len _ _ _ _ Hc ltac:(lia)) as Hl; apply clean_wire_chunked in Hc.
  - destruct (chunked_completes M config wr rest base HN HY Hw (cdd_reader d) s data ltac:(lia) Hs Hc) as (t & ? & ?).
    by eapply completes_sent.
  - assert (0 < len chunk) by (destruct chunk; [done|len_lia]).
    destruct (after_preview_completes M HM config wr rest base HN HY Hw (cdd_reader d) chunk s data') as (t & out & ? & ? & ?);
      try done; [unfold CRLF; len_simpl; change (len [HTTP_CR; HTTP_LF]) with 2; nia|].
    by eapply completes_sent.
Qed.

End Continue.

(** The preview and the rest are together the body: the preview of a body
    of a known length, or of one that ends with the stream, is read without an
    error; it is all of the body, or its first [size] bytes, and then the
    transfer that follows the answer 100 comes to its end, sends the rest as a
    chunked body, counts preview and rest, and leaves in the stream what
    follows the body. *)
Theorem plain_preview_and_rest {R} `{AsyncBufReadLaws R} `{Radix16Laws} (rd : R) (wr : writer) (config : StreamCopyConfig)
    (M size : Z) (ty : HttpBodyType) (s data rest : bytes) :
  18 <= M -> 0 < scc_buffer_size config <= isize_max -> 0 < scc_yield_size config -> len s <= u64_max -> 0 < size ->
  source rd (s ++ rest) -> ~ faulty rd -> fair_writer wr -> body_wire M ty s data rest -> ty <> Chunked ->
  exists o, xfer_preview (S (waits rd + length s)) rd ty M size = Ok o /\
    match o with
    | PreviewNoBody rd' => data = [] /\ source rd' rest
    | PreviewSmall preview rd' => preview = data /\ source rd' rest
    | PreviewPlain preview _ _ =>
        exists left t, data = preview ++ left /\ len preview = size /\ continue_transfer o wr M config = Some t /\
          completes M wr rest left (len data) t
    | _ => False
    end.
Proof.
  intros HM HN HY Hlen Hsize Hs Hf Hw Hb Hty.
  destruct (preview_plain_spec M rest size Hsize (S (waits rd + length s)) rd ty s data) as (o & -> & -> & Ho); try done; [lia|].
  exists o. split; [done|]. destruct o as [rd'|p rd'|p r|p ty' rd'|p k d]; try done.
  - by destruct Ho as [? [? _]].
  - by destruct Ho as [? [? _]].
  - destruct Ho as (left & -> & Hp & Hst & Hty').
    exists left, (btc_add_copied (H1BodyToChunkedTransfer_new rd' wr ty' M config) (len p)). split_and!; try done.
    + by destruct Hty' as [->|[-> _]].
    + rewrite len_app. apply plain_rest_completes; try done. len_lia.
Qed.

Lemma plain_preview_and_rest_witness :
  let RX := radix16_reference in
  let rd : reader := [Data (bs "hel"); Pend; Data (bs "loGET")] in
  let wr := {| wr_writes := [Accept 1; WPend]; wr_flushes := []; wr_out := []; wr_flushed := 0 |} in
  let config := {| scc_buffer_size := 4; scc_yield_size := 2 |} in
  exists o, xfer_preview (S (waits rd + length (bs "hello"))) rd (ContentLength 5) 64 4 = Ok o /\
    match o with
    | PreviewNoBody rd' => bs "hello" = [] /\ source rd' (bs "GET")
    | PreviewSmall preview rd' => preview = bs "hello" /\ source rd' (bs "GET")
    | PreviewPlain preview _ _ =>
        exists left t, bs "hello" = preview ++ left /\ len preview = 4 /\ continue_transfer o wr 64 config = Some t /\
          completes 64 wr (bs "GET") left (len (bs "hello")) t
    | _ => False
    end.
Proof.
  intros RX rd wr config.
  apply (@plain_preview_and_rest reader reader_AsyncBufRead reader_AsyncBufReadLaws RX radix16_reference_laws
    rd wr config 64 4 (ContentLength 5) (bs "hello") (bs "hello") (bs "GET")).
  - apply Z.leb_le. reflexivity.
  - split; [reflexivity|apply Z.leb_le; reflexivity].
  - reflexivity.
  - apply Z.leb_le. reflexivity.
  - reflexivity.
  - reflexivity.
  - intros Hf. apply Hf. repeat constructor; discriminate.
  - split; repeat constructor.
  - apply (wire_length 64 (bs "hello") (bs "GET")); [discriminate|apply Z.leb_le; reflexivity].
  - discriminate.
Defined.

(** C9: the same for a chunked body, as long as the reading of the preview has
    not stopped inside a size line: the preview is all of the data, with the
    reader of the trailer at the trailer, or it is the first [size] bytes of
    the data, and then the transfer that follows, started with the bytes that
    are left of the current chunk, sends the rest of the data as a chunked
    body to the end of the trailer. *)
Theorem chunked_preview_and_rest {R} `{AsyncBufReadLaws R} `{Radix16Laws} (rd : R) (wr : writer) (config : StreamCopyConfig)
    (M size : Z) (s data tr rest : bytes) (rooms : nat -> Z) :
  18 <= M -> 0 < scc_buffer_size config <= isize_max -> 0 < scc_yield_size config -> 0 < size ->
  (M + 3) * (len data + 1) + len tr <= u64_max ->
  source rd (s ++ rest) -> ~ faulty rd -> fair_writer wr -> clean_wire M s data tr ->
  (forall i, 0 < rooms i) ->
  exists o, xfer_preview (S (waits rd + length data)) rd Chunked M size = Ok o /\
    match o with
    | PreviewSmallChunked preview reader =>
        preview = data /\
        exists r, read_to_end (S (waits (hbr_stream reader) + length tr)) rooms reader = (Ok tr, r) /\
          hbr_finished r = true /\ source (hbr_stream r) rest
    | PreviewChunked preview _ d =>
        exists left t, data = preview ++ left /\ len preview = size /\ continue_transfer o wr M config = Some t /\
          (cdi_chunk_header (cdd_internal d) = [] -> completes M wr rest left (len data) t)
    | _ => False
    end.
Proof.
  intros HM HN HY Hsize Hlen Hs Hf Hw Hc Hrooms.
  destruct (preview_chunked_spec M rest size Hsize (S (waits rd + length data)) rd s data tr) as (o & Ho & Hm); try done; [lia|].
  exists o. split; [done|]. destruct o as [rd'|p rd'|p r|p ty' rd'|p k d]; try done.
  - destruct Hm as (-> & Hsd). split; [done|].
    destruct (read_body_to_end rest 0 r tr rooms Hsd Hrooms) as (r' & ? & ? & _ & ?). by exists r'.
  - destruct Hm as (left & -> & Hp & Hd & Hk & Hfin). eexists left, _. split_and!; [done|done|reflexivity|]. intros Hh.
    rewrite len_app. eapply chunked_rest_completes; try done; [|by apply decoder_chunked_rest; [..|by eapply clean_wire_trailer| | |]].
    rewrite len_app in Hlen. pose proof (len_nonneg p). nia.
Qed.

Lemma chunked_preview_and_rest_witness :
  let RX := radix16_reference in
  let s := bs "5" ++ CRLF ++ bs "hello" ++ CRLF ++ bs "0" ++ CRLF ++ CRLF in
  let rd : reader := [Data (take 5 s); Pend; Data (drop 5 s ++ bs "GET")] in
  let wr := {| wr_writes := [Accept 1; WPend]; wr_flushes := []; wr_out := []; wr_flushed := 0 |} in
  let config := {| scc_buffer_size := 4; scc_yield_size := 2 |} in
  exists o, xfer_preview (S (waits rd + length (bs "hello"))) rd Chunked 64 3 = Ok o /\
    match o with
    | PreviewSmallChunked preview reader =>
        preview = bs "hello" /\
        exists r, read_to_end (S (waits (hbr_stream reader) + length CRLF)) (fun _ => 1) reader = (Ok CRLF, r) /\
          hbr_finished r = true /\ source (hbr_stream r) (bs "GET")
    | PreviewChunked preview _ d =>
        exists left t, bs "hello" = preview ++ left /\ len preview = 3 /\ continue_transfer o wr 64 config = Some t /\
          (cdi_chunk_header (cdd_internal d) = [] -> completes 64 wr (bs "GET") left (len (bs "hello")) t)
    | _ => False
    end.
Proof.
  intros RX s rd wr config.
  apply (@chunked_preview_and_rest reader reader_AsyncBufRead reader_AsyncBufReadLaws RX radix16_reference_laws
    rd wr config 64 3 s (bs "hello") CRLF (bs "GET") (fun _ => 1)).
  - apply Z.leb_le. reflexivity.
  - split; [reflexivity|apply Z.leb_le; reflexivity].
  - reflexivity.
  - reflexivity.
  - apply Z.leb_le. reflexivity.
  - reflexivity.
  - intros Hf. apply Hf. repeat constructor; discriminate.
  - split; repeat constructor.
  - apply (clean_chunk 64 (bs "5") (bs "hello") (bs "0" ++ CRLF ++ CRLF) [] CRLF).
    + split; [apply memchr_None; reflexivity|]. split; [reflexivity|]. exists None. vm_compute. reflexivity.
    + apply memchr_None. reflexivity.
    + discriminate.
    + apply (clean_last 64 (bs "0") CRLF).
      * split; [apply memchr_None; reflexivity|]. split; [reflexivity|]. exists None. vm_compute. reflexivity.
      * apply memchr_None. reflexivity.
      * apply trailer_end. reflexivity.
  - intros i. reflexivity.
Defined.

(** C38: a preview that ends while only a part of the next size line has arrived
    loses that part.  Whatever the body and however it arrives, when the decoder
    has taken the part [h] of a size line from the stream at the end of the
    preview, what is left of the current chunk is reported as 0, as if the stream
    were at the start of a size line; but the rest of the body is [h] and then the
    stream [w], and the transfer starts with [w].  So any chunked body that [w]
    starts with is sent as the rest, not the data that is left. *)
Theorem preview_loses_part_of_size_line {R} `{AsyncBufReadLaws R} `{Radix16Laws} (rd : R) (wr : writer) (config : StreamCopyConfig)
    (M size k : Z) (s data tr rest preview : bytes) (d : ChunkedDataDecodeReader R) :
  18 <= M -> 0 < scc_buffer_size config <= isize_max -> 0 < scc_yield_size config -> 0 < size ->
  source rd (s ++ rest) -> ~ faulty rd -> fair_writer wr -> clean_wire M s data tr ->
  xfer_preview (S (waits rd + length data)) rd Chunked M size = Ok (PreviewChunked preview k d) ->
  let h := cdi_chunk_header (cdd_internal d) in
  h <> [] ->
  exists left t w s',
    data = preview ++ left /\ k = 0 /\ source (cdd_reader d) w /\ h ++ w = s' ++ rest /\ clean_wire M s' left tr /\
    continue_transfer (PreviewChunked preview k d) wr M config = Some t /\
    forall s2 data2 rest2, w = s2 ++ rest2 -> chunked_wire M s2 data2 -> len s2 <= u64_max ->
      completes M wr rest2 data2 (len preview + len data2) t.
Proof.
  intros HM HN HY Hsize Hs Hf Hw Hc Ho h Hh.
  destruct (preview_chunked_spec M rest size Hsize (S (waits rd + length data)) rd s data tr) as (o & Ho' & Hm); try done; [lia|].
  cbn [xfer_preview] in Ho. rewrite Ho in Ho'. injection Ho' as <-. destruct Hm as (left & -> & Hp & Hd & Hk & Hfin).
  destruct (decoder_in_size_line M rest d k left tr Hd ltac:(by eapply clean_wire_trailer) Hh Hk Hfin) as (-> & w & s' & Hsw & Heq & Hc').
  eexists left, _, w, s'. split_and!; [done|done|by destruct Hsw|done|done|reflexivity|].
  intros s2 data2 rest2 -> Hc2 Hl2.
  destruct (chunked_completes M config wr rest2 (len preview) HN HY Hw (cdd_reader d) s2 data2 Hl2 Hsw Hc2) as (t & ? & ?).
  by eapply completes_sent.
Qed.

(** Of the chunks [abc] and [0123456789abcdef], with a preview of 3 bytes, the first
    digit of the size 10 is lost, the second is taken for the last chunk and an
    empty body is sent. *)
Lemma preview_loses_part_of_size_line_witness :
  let RX := radix16_reference in
  let s := bs "3" ++ CRLF ++ bs "abc" ++ CRLF ++ bs "10" ++ CRLF ++ bs "0123456789abcdef" ++ CRLF ++ bs "0" ++ CRLF ++ CRLF in
  let rd : reader := [Data (take 9 s); Pend; Data (drop 9 s)] in
  let wr := {| wr_writes := []; wr_flushes := []; wr_out := []; wr_flushed := 0 |} in
  let config := {| scc_buffer_size := 64; scc_yield_size := 64 |} in
  match xfer_preview (S (waits rd + length (bs "abc" ++ bs "0123456789abcdef"))) rd Chunked 64 3 with
  | Ok (PreviewChunked preview k d as o) =>
      preview = bs "abc" /\ cdi_chunk_header (cdd_internal d) = bs "1" /\
      exists t, continue_transfer o wr 64 config = Some t /\ completes 64 wr [] [] 3 t
  | _ => False
  end.
Proof.
  intros RX s rd wr config.
  assert (forall pre n, memchr HTTP_CR pre = None -> memchr HTTP_LF pre = None -> (len pre + 1 <? 64) = true ->
    HttpChunkedLine_parse (pre ++ CRLF) = Ok {| hcl_chunk_size := n; hcl_extension := None |} ->
    body_line 64 pre n /\ (HTTP_LF ∉ pre)) as Hline.
  { intros pre n Hcr Hlf Hl%Z.ltb_lt Hp. split; [|by apply memchr_None]. split_and!; [by apply memchr_None|done|by exists None]. }
  destruct (Hline (bs "3") 3) as [H3 L3]; [vm_compute; reflexivity..|]. destruct (Hline (bs "10") 16) as [H10 L10]; [vm_compute; reflexivity..|].
  destruct (Hline (bs "0") 0) as [H0 L0]; [vm_compute; reflexivity..|].
  assert (clean_wire 64 s (bs "abc" ++ bs "0123456789abcdef") CRLF) as Hc.
  { apply (clean_chunk 64 (bs "3") (bs "abc")
      (bs "10" ++ CRLF ++ bs "0123456789abcdef" ++ CRLF ++ bs "0" ++ CRLF ++ CRLF) (bs "0123456789abcdef") CRLF); [exact H3|exact L3|discriminate|].
    apply (clean_chunk 64 (bs "10") (bs "0123456789abcdef") (bs "0" ++ CRLF ++ CRLF) [] CRLF); [exact H10|exact L10|discriminate|].
    apply (clean_last 64 (bs "0") CRLF); [exact H0|exact L0|]. by apply trailer_end. }
  destruct (xfer_preview (S (waits rd + length (bs "abc" ++ bs "0123456789abcdef"))) rd Chunked 64 3) as [o| |] eqn:Ho;
    [|vm_compute in Ho; discriminate Ho..].
  assert (match o with
    | PreviewChunked preview k d => preview = bs "abc" /\ cdi_chunk_header (cdd_internal d) = bs "1" /\ stream_of (cdd_reader d) = drop 9 s
    | _ => False end) as Hfacts by (vm_compute in Ho; injection Ho as <-; vm_compute; repeat split).
  destruct o as [| | | |preview k d]; try contradiction. destruct Hfacts as (Hp & Hh & Hst). split; [exact Hp|]. split; [exact Hh|].
  destruct (@preview_loses_part_of_size_line reader reader_AsyncBufRead reader_AsyncBufReadLaws RX radix16_reference_laws
    rd wr config 64 3 k s (bs "abc" ++ bs "0123456789abcdef") CRLF [] preview d)
    as (left & t & w & s' & _ & _ & Hw & _ & _ & Ht & Hsend).
  - apply Z.leb_le. reflexivity.
  - split; [reflexivity|apply Z.leb_le; reflexivity].
  - reflexivity.
  - reflexivity.
  - vm_compute. reflexivity.
  - intros Hf. apply Hf. repeat constructor; discriminate.
  - split; repeat constructor.
  - exact Hc.
  - exact Ho.
  - rewrite Hh. discriminate.
  - exists t. split; [exact Ht|]. subst preview. apply (Hsend w).
    + by rewrite app_nil_r.
    + change (stream_of (cdd_reader d) = w) in Hw. rewrite <- Hw, Hst.
      apply (wire_last 64 (bs "0") (bs "0123456789abcdef" ++ CRLF ++ bs "0" ++ CRLF ++ CRLF)); [exact H0|].
      do 2 (apply trailer_line; [discriminate|by apply memchr_None|reflexivity|]). by apply trailer_end.
    + change (stream_of (cdd_reader d) = w) in Hw. rewrite <- Hw, Hst. apply Z.leb_le. reflexivity.
Defined.
