(* ===== verification/Limit.v ===== *)
(** Rate limits of streams: [lib/vey-io-ext/src/limit/]: the fixed time windows
    ([fixed_window/]), the token buckets that connections share
    ([token_bucket/stream.rs]) and the limiter of one connection, which uses
    both ([stream.rs]).

    A token bucket lives behind an [Arc] and is changed by single atomic
    operations, from any thread.  The limiter of a connection is therefore a
    program [prog] that asks the buckets one operation after the other; the
    buckets may change in between.  What a program does to the buckets is
    followed in a ledger: the tokens it has taken from each and not given back. *)

From Stdlib Require Import ZArith Lia.
From stdpp Require Import base list.
From Stdlib Require Sorting.Sorted.
From S2P Require Import Prelude.

(** ** Fixed windows *)

Definition RATE_LIMIT_SHIFT_MILLIS_MAX : Z := 12.

Record FixedWindow : Type := {
  fw_max_delay_millis : Z;
  fw_time_value_mask : Z;
  fw_time_slice_mask : Z;
  fw_slice_id_offset : Z
}.

Definition FixedWindow_default : FixedWindow := {|
  fw_max_delay_millis := 1;
  fw_time_value_mask := 0;
  fw_time_slice_mask := u64_max;
  fw_slice_id_offset := 0
|}.

(** [rand] is the number that [fastrand::u64(0..=max_delay_millis)] draws. *)
Definition FixedWindow_new (shift_millis : Z) (cur_millis : option Z) (rand : Z) : pure FixedWindow :=
  let shift := if RATE_LIMIT_SHIFT_MILLIS_MAX <? shift_millis then RATE_LIMIT_SHIFT_MILLIS_MAX else shift_millis in
  let? max_delay_millis := shl 64 1 shift in
  let? time_value_mask := usub max_delay_millis 1 in
  let time_slice_mask := Z.lxor u64_max time_value_mask in
  let? slice_id_offset :=
    match cur_millis with
    | Some cur => usub cur (Z.land cur time_slice_mask)
    | None => Ok rand
    end in
  Ok {| fw_max_delay_millis := max_delay_millis; fw_time_value_mask := time_value_mask;
        fw_time_slice_mask := time_slice_mask; fw_slice_id_offset := slice_id_offset |}.

Definition FixedWindow_enabled (self : FixedWindow) : bool := 1 <? fw_max_delay_millis self.

Definition slice_id (self : FixedWindow) (cur_millis : Z) : pure Z :=
  uadd (Z.land (fw_time_slice_mask self) cur_millis) (fw_slice_id_offset self).

Definition window_delay (self : FixedWindow) (cur_millis : Z) : pure Z :=
  usub (fw_max_delay_millis self) (Z.land (fw_time_value_mask self) cur_millis).

(** ** The limiter of one direction of one connection *)

(** [DelayUntil] holds a point in time, [DelayFor] a number of milliseconds. *)
Inductive StreamLimitAction : Type :=
  | AdvanceBy (size : Z)
  | DelayUntil (t : Z)
  | DelayFor (n : Z).

Record LocalStreamLimiter : Type := {
  lsl_window : FixedWindow;
  lsl_max_bytes : Z;
  lsl_time_slice_id : Z;
  lsl_cur_bytes : Z
}.

Definition LocalStreamLimiter_default : LocalStreamLimiter :=
  {| lsl_window := FixedWindow_default; lsl_max_bytes := 0; lsl_time_slice_id := 0; lsl_cur_bytes := 0 |}.

Definition LocalStreamLimiter_new (shift_millis max_bytes rand : Z) : pure LocalStreamLimiter :=
  let? window := FixedWindow_new shift_millis None rand in
  Ok {| lsl_window := window; lsl_max_bytes := max_bytes; lsl_time_slice_id := 0; lsl_cur_bytes := 0 |}.

Definition LocalStreamLimiter_reset (self : LocalStreamLimiter) (shift_millis max_bytes cur_millis : Z)
  : pure LocalStreamLimiter :=
  let? window := FixedWindow_new shift_millis (Some cur_millis) 0 in
  let? id := slice_id window cur_millis in
  Ok {| lsl_window := window; lsl_max_bytes := max_bytes; lsl_time_slice_id := id; lsl_cur_bytes := 0 |}.

Definition LocalStreamLimiter_is_set (self : LocalStreamLimiter) : bool := FixedWindow_enabled (lsl_window self).

Definition lsl_set (self : LocalStreamLimiter) (id cur : Z) : LocalStreamLimiter :=
  {| lsl_window := lsl_window self; lsl_max_bytes := lsl_max_bytes self; lsl_time_slice_id := id; lsl_cur_bytes := cur |}.

Definition LocalStreamLimiter_check (self : LocalStreamLimiter) (cur_millis to_advance : Z)
  : pure (StreamLimitAction * LocalStreamLimiter) :=
  let? id := slice_id (lsl_window self) cur_millis in
  let self := if lsl_time_slice_id self =? id then self else lsl_set self id 0 in
  let? max := usub (lsl_max_bytes self) (lsl_cur_bytes self) in
  if max =? 0
  then let? d := window_delay (lsl_window self) cur_millis in Ok (DelayFor d, self)
  else Ok (AdvanceBy (Z.min to_advance max), self).

Definition LocalStreamLimiter_set_advance (self : LocalStreamLimiter) (size : Z) : pure LocalStreamLimiter :=
  let? cur := uadd (lsl_cur_bytes self) size in Ok (lsl_set self (lsl_time_slice_id self) cur).

(** ** Counting limiter, shared behind a mutex *)

Record InnerCountLimitInfo : Type := {
  icl_window : FixedWindow;
  icl_max_count : Z;
  icl_time_slice_id : Z;
  icl_cur_count : Z
}.

Definition InnerCountLimitInfo_new (shift_millis max_count rand : Z) : pure InnerCountLimitInfo :=
  let? window := FixedWindow_new shift_millis None rand in
  Ok {| icl_window := window; icl_max_count := max_count; icl_time_slice_id := 0; icl_cur_count := max_count |}.

Definition InnerCountLimitInfo_reset (self : InnerCountLimitInfo) (shift_millis max_count cur_millis : Z)
  : pure InnerCountLimitInfo :=
  let? window := FixedWindow_new shift_millis (Some cur_millis) 0 in
  let? id := slice_id window cur_millis in
  Ok {| icl_window := window; icl_max_count := max_count; icl_time_slice_id := id; icl_cur_count := max_count |}.

Definition icl_set (self : InnerCountLimitInfo) (id cur : Z) : InnerCountLimitInfo :=
  {| icl_window := icl_window self; icl_max_count := icl_max_count self; icl_time_slice_id := id; icl_cur_count := cur |}.

(** [None] is [Ok(())], [Some d] is [Err(d)]. *)
Definition InnerCountLimitInfo_check (self : InnerCountLimitInfo) (cur_millis : Z)
  : pure (option Z * InnerCountLimitInfo) :=
  let? id := slice_id (icl_window self) cur_millis in
  let self := if icl_time_slice_id self =? id then self else icl_set self id (icl_max_count self) in
  if 0 <? icl_cur_count self
  then let? c := usub (icl_cur_count self) 1 in Ok (None, icl_set self (icl_time_slice_id self) c)
  else let? d := window_delay (icl_window self) cur_millis in Ok (Some d, self).

(** ** Token buckets *)

Inductive GlobalLimitGroup : Type := Server | User | UserSite.

#[export] Instance GlobalLimitGroup_eq_dec : EqDecision GlobalLimitGroup.
Proof. solve_decision. Defined.

Record GlobalStreamSpeedLimitConfig : Type := {
  gsc_replenish_interval : Z;
  gsc_replenish_bytes : Z;
  gsc_max_burst_bytes : Z
}.

Definition GlobalStreamSpeedLimitConfig_per_second (size : Z) : GlobalStreamSpeedLimitConfig :=
  {| gsc_replenish_interval := 1000; gsc_replenish_bytes := size; gsc_max_burst_bytes := size |}.

(** [None] is the error for a configuration without replenishment. *)
Definition GlobalStreamSpeedLimitConfig_check (self : GlobalStreamSpeedLimitConfig)
  : option GlobalStreamSpeedLimitConfig :=
  if gsc_replenish_bytes self =? 0 then None
  else Some {| gsc_replenish_interval := gsc_replenish_interval self; gsc_replenish_bytes := gsc_replenish_bytes self;
               gsc_max_burst_bytes :=
                 if gsc_max_burst_bytes self <? gsc_replenish_bytes self then gsc_replenish_bytes self
                 else gsc_max_burst_bytes self |}.

Record GlobalStreamLimiter : Type := {
  gs_group : GlobalLimitGroup;
  gs_config : GlobalStreamSpeedLimitConfig;
  gs_byte_tokens : Z;
  gs_last_updated : Z
}.

Definition GlobalStreamLimiter_new (group : GlobalLimitGroup) (config : GlobalStreamSpeedLimitConfig) (now : Z)
  : GlobalStreamLimiter :=
  {| gs_group := group; gs_config := config; gs_byte_tokens := gsc_replenish_bytes config; gs_last_updated := now |}.

Definition GlobalStreamLimiter_update (self : GlobalStreamLimiter) (config : GlobalStreamSpeedLimitConfig)
  : GlobalStreamLimiter :=
  {| gs_group := gs_group self; gs_config := config; gs_byte_tokens := gs_byte_tokens self;
     gs_last_updated := gs_last_updated self |}.

Definition gs_set_tokens (self : GlobalStreamLimiter) (tokens : Z) : GlobalStreamLimiter :=
  {| gs_group := gs_group self; gs_config := gs_config self; gs_byte_tokens := tokens;
     gs_last_updated := gs_last_updated self |}.

Definition gs_add_bytes (self : GlobalStreamLimiter) (size max_burst : Z) : pure GlobalStreamLimiter :=
  let cur_tokens := gs_byte_tokens self in
  if cur_tokens <? max_burst
  then let? sum := uadd cur_tokens size in Ok (gs_set_tokens self (Z.min sum max_burst))
  else Ok self.

(** One round of the task that [tokio_spawn_replenish] spawns, after its sleep:
    [config] was read before it. *)
Definition replenish (self : GlobalStreamLimiter) (config : GlobalStreamSpeedLimitConfig) (now : Z)
  : pure GlobalStreamLimiter :=
  let? self := gs_add_bytes self (gsc_replenish_bytes config) (gsc_max_burst_bytes config) in
  Ok {| gs_group := gs_group self; gs_config := gs_config self; gs_byte_tokens := gs_byte_tokens self;
        gs_last_updated := now |}.

Definition gs_wait_until (self : GlobalStreamLimiter) : Z :=
  gs_last_updated self + gsc_replenish_interval (gs_config self).

Definition try_consume (self : GlobalStreamLimiter) (size : Z) : pure (option Z * GlobalStreamLimiter) :=
  let prev := gs_byte_tokens self in
  if 0 <? prev
  then let? n := usub prev (saturating_sub prev size) in
       Ok (Some n, gs_set_tokens self (saturating_sub prev size))
  else Ok (None, self).

Definition GlobalStreamLimiter_check (self : GlobalStreamLimiter) (to_advance : Z)
  : pure (StreamLimitAction * GlobalStreamLimiter) :=
  let? '(o, self) := try_consume self to_advance in
  match o with
  | Some n => Ok (AdvanceBy n, self)
  | None => Ok (DelayUntil (gs_wait_until self), self)
  end.

Definition GlobalStreamLimiter_release (self : GlobalStreamLimiter) (size : Z) : pure GlobalStreamLimiter :=
  gs_add_bytes self size (gsc_max_burst_bytes (gs_config self)).

(** ** Programs over shared buckets

    [DoCheck i n k] and [DoRelease i n k] call [check] and [release] of the bucket
    behind the [Arc] number [i]. *)
Inductive prog (A : Type) : Type :=
  | Ret (a : A)
  | Crash
  | DoCheck (i : nat) (n : Z) (k : StreamLimitAction -> prog A)
  | DoRelease (i : nat) (n : Z) (k : prog A).
Arguments Ret {A}.
Arguments Crash {A}.
Arguments DoCheck {A}.
Arguments DoRelease {A}.

Fixpoint pbind {A B} (p : prog A) (f : A -> prog B) : prog B :=
  match p with
  | Ret a => f a
  | Crash => Crash
  | DoCheck i n k => DoCheck i n (fun r => pbind (k r) f)
  | DoRelease i n k => DoRelease i n (pbind k f)
  end.

Definition plift {A} (m : pure A) : prog A :=
  match m with
  | Ok a => Ret a
  | Err e => match e with end
  | Panic => Crash
  end.

Declare Scope prog_scope.
Delimit Scope prog_scope with prog.
Notation "'let!' x := m 'in' k" := (pbind m (fun x => k))
  (at level 10, x name, m at level 100, k at level 200) : prog_scope.
Notation "'let!' ' p := m 'in' k" := (pbind m (fun p => k))
  (at level 10, p strict pattern, m at level 100, k at level 200) : prog_scope.
#[local] Open Scope prog_scope.

(** ** The limiter of a connection *)

(** [gl_inner] is the number of the shared bucket. *)
Record GlobalLimiter : Type := {
  gl_inner : nat;
  gl_group : GlobalLimitGroup;
  gl_checked_bytes : option Z
}.

Definition GlobalLimiter_new (inner : nat) (group : GlobalLimitGroup) : GlobalLimiter :=
  {| gl_inner := inner; gl_group := group; gl_checked_bytes := None |}.

Definition gl_set (g : GlobalLimiter) (checked : option Z) : GlobalLimiter :=
  {| gl_inner := gl_inner g; gl_group := gl_group g; gl_checked_bytes := checked |}.

Definition GlobalLimiter_drop (g : GlobalLimiter) : prog unit :=
  match gl_checked_bytes g with
  | Some taken => DoRelease (gl_inner g) taken (Ret tt)
  | None => Ret tt
  end.

Record StreamLimiter : Type := {
  sl_is_set : bool;
  sl_local_is_set : bool;
  sl_local : LocalStreamLimiter;
  sl_global : list GlobalLimiter
}.

Definition StreamLimiter_default : StreamLimiter :=
  {| sl_is_set := false; sl_local_is_set := false; sl_local := LocalStreamLimiter_default; sl_global := [] |}.

Definition StreamLimiter_with_local (shift_millis max_bytes rand : Z) : pure StreamLimiter :=
  let? local := LocalStreamLimiter_new shift_millis max_bytes rand in
  let local_is_set := LocalStreamLimiter_is_set local in
  Ok {| sl_is_set := local_is_set; sl_local_is_set := local_is_set; sl_local := local; sl_global := [] |}.

Definition StreamLimiter_reset_local (self : StreamLimiter) (shift_millis max_bytes cur_millis : Z) : pure StreamLimiter :=
  let? local := LocalStreamLimiter_reset (sl_local self) shift_millis max_bytes cur_millis in
  let local_is_set := LocalStreamLimiter_is_set local in
  Ok {| sl_is_set := match sl_global self with [] => local_is_set | _ => sl_is_set self end;
        sl_local_is_set := local_is_set; sl_local := local; sl_global := sl_global self |}.

Definition add_global (self : StreamLimiter) (inner : nat) (group : GlobalLimitGroup) : StreamLimiter :=
  {| sl_is_set := true; sl_local_is_set := sl_local_is_set self; sl_local := sl_local self;
     sl_global := sl_global self ++ [GlobalLimiter_new inner group] |}.

Definition sl_set_global (self : StreamLimiter) (gs : list GlobalLimiter) : StreamLimiter :=
  {| sl_is_set := sl_is_set self; sl_local_is_set := sl_local_is_set self; sl_local := sl_local self; sl_global := gs |}.

Definition sl_set_local (self : StreamLimiter) (l : LocalStreamLimiter) : StreamLimiter :=
  {| sl_is_set := sl_is_set self; sl_local_is_set := sl_local_is_set self; sl_local := l; sl_global := sl_global self |}.

(** [Vec::retain]: an entry that does not stay is dropped. *)
Fixpoint retain_globals (keep : GlobalLimiter -> bool) (gs : list GlobalLimiter) : prog (list GlobalLimiter) :=
  match gs with
  | [] => Ret []
  | g :: gs =>
      if keep g then let! gs := retain_globals keep gs in Ret (g :: gs)
      else let! _ := GlobalLimiter_drop g in retain_globals keep gs
  end.

Definition remove_global_by_group (self : StreamLimiter) (group : GlobalLimitGroup) : prog StreamLimiter :=
  let! gs := retain_globals (fun g => negb (bool_decide (gl_group g = group))) (sl_global self) in
  Ret (sl_set_global self gs).

Definition retain_global_by_group (self : StreamLimiter) (group : GlobalLimitGroup) : prog StreamLimiter :=
  let! gs := retain_globals (fun g => bool_decide (gl_group g = group)) (sl_global self) in
  Ret (sl_set_global self gs).

(** The loop of [check] over the shared limiters: the size that all of them
    allow, or the answer of the first that delays. *)
Fixpoint check_globals (gs : list GlobalLimiter) (to_advance : Z)
  : prog (list GlobalLimiter * (Z + StreamLimitAction)) :=
  match gs with
  | [] => Ret ([], inl to_advance)
  | g :: gs =>
      DoCheck (gl_inner g) to_advance (fun r =>
        match r with
        | AdvanceBy size =>
            let! '(gs, o) := check_globals gs size in Ret (gl_set g (Some size) :: gs, o)
        | d => Ret (g :: gs, inr d)
        end)
  end.

Fixpoint shrink_globals (gs : list GlobalLimiter) (to_advance : Z) : prog (list GlobalLimiter) :=
  match gs with
  | [] => Ret []
  | g :: gs =>
      match gl_checked_bytes g with
      | None => Crash
      | Some checked =>
          let rest := let! gs := shrink_globals gs to_advance in Ret (gl_set g (Some to_advance) :: gs) in
          if to_advance <? checked then DoRelease (gl_inner g) (checked - to_advance) rest else rest
      end
  end.

Fixpoint release_globals (gs : list GlobalLimiter) : prog (list GlobalLimiter) :=
  match gs with
  | [] => Ret []
  | g :: gs =>
      match gl_checked_bytes g with
      | None => Ret (g :: gs)
      | Some taken =>
          DoRelease (gl_inner g) taken (let! gs := release_globals gs in Ret (gl_set g None :: gs))
      end
  end.

Definition release_global (self : StreamLimiter) : prog StreamLimiter :=
  let! gs := release_globals (sl_global self) in Ret (sl_set_global self gs).

Definition StreamLimiter_check (self : StreamLimiter) (cur_millis to_advance : Z)
  : prog (StreamLimitAction * StreamLimiter) :=
  let! '(r, self) :=
    if sl_local_is_set self
    then let! '(r, l) := plift (LocalStreamLimiter_check (sl_local self) cur_millis to_advance) in
         Ret (r, sl_set_local self l)
    else Ret (AdvanceBy to_advance, self) in
  match r with
  | AdvanceBy size =>
      let! '(gs, o) := check_globals (sl_global self) size in
      match o with
      | inl allowed =>
          let! gs := if allowed <? to_advance then shrink_globals gs allowed else Ret gs in
          Ret (AdvanceBy allowed, sl_set_global self gs)
      | inr d => let! self := release_global (sl_set_global self gs) in Ret (d, self)
      end
  | d => Ret (d, self)
  end.

Fixpoint advance_globals (gs : list GlobalLimiter) (size : Z) : prog (list GlobalLimiter) :=
  match gs with
  | [] => Ret []
  | g :: gs =>
      match gl_checked_bytes g with
      | None => Ret (g :: gs)
      | Some taken =>
          let rest := let! gs := advance_globals gs size in Ret (gl_set g None :: gs) in
          if size <? taken then DoRelease (gl_inner g) (taken - size) rest else rest
      end
  end.

Definition StreamLimiter_set_advance (self : StreamLimiter) (size : Z) : prog StreamLimiter :=
  let! self :=
    if sl_local_is_set self
    then let! l := plift (LocalStreamLimiter_set_advance (sl_local self) size) in Ret (sl_set_local self l)
    else Ret self in
  let! gs := advance_globals (sl_global self) size in
  Ret (sl_set_global self gs).

(** ** Windows *)

(** A window of [2 ^ s] milliseconds. *)
Record window_of (s : Z) (w : FixedWindow) : Prop := {
  wo_shift : 0 <= s <= 12;
  wo_delay : fw_max_delay_millis w = 2 ^ s;
  wo_value : fw_time_value_mask w = 2 ^ s - 1;
  wo_slice : fw_time_slice_mask w = Z.lxor u64_max (2 ^ s - 1);
  wo_offset : 0 <= fw_slice_id_offset w <= 2 ^ s
}.

Lemma shift_bounds s : 0 <= s <= 12 -> 1 <= 2 ^ s <= 4096.
Proof.
  intros Hs. change 4096 with (2 ^ 12). change 1 with (2 ^ 0) at 1.
  split; apply Z.pow_le_mono_r; lia.
Qed.

Lemma slice_mask_div s cur :
  0 <= s <= 12 -> 0 <= cur <= u64_max -> Z.land (Z.lxor u64_max (2 ^ s - 1)) cur = 2 ^ s * (cur / 2 ^ s).
Proof.
  intros Hs Hc. rewrite Z.mul_comm, <- shiftr_div, <- shiftl_mul by lia.
  change u64_max with (Z.ones 64) in *. rewrite Z.sub_1_r, <- Z.ones_equiv.
  apply Z.bits_inj'. intros n Hn. rewrite Z.land_spec, Z.lxor_spec, Z.shiftl_spec by done.
  destruct (Z.ltb_spec n s).
  - rewrite !Z.ones_spec_low by lia. by rewrite (Z.testbit_neg_r _ (n - s)) by lia.
  - rewrite (Z.ones_spec_high s), Z.shiftr_spec by lia. replace (n - s + s) with n by lia.
    destruct (Z.ltb_spec n 64); [by rewrite Z.ones_spec_low by lia|].
    rewrite Z.ones_spec_high by lia. symmetry. destruct (Z.eq_dec cur 0) as [->|]; [apply Z.testbit_0_l|].
    apply Z.bits_above_log2; [lia|]. apply Z.log2_lt_pow2; [lia|].
    apply (Z.lt_le_trans _ (2 ^ 64)); [change (Z.ones 64) with (2 ^ 64 - 1) in Hc; lia|].
    apply Z.pow_le_mono_r; lia.
Qed.

Section window.
Context (s : Z) (w : FixedWindow) (Hw : window_of s w).

Lemma slice_id_ok cur :
  0 <= cur -> cur + 4096 <= u64_max -> slice_id w cur = Ok (2 ^ s * (cur / 2 ^ s) + fw_slice_id_offset w).
Proof.
  intros H0 Hc. destruct Hw as [Hs _ _ Hm Ho]. unfold slice_id. pose proof (shift_bounds s Hs).
  rewrite Hm, slice_mask_div by lia. apply uadd_ok. pose proof (Z.mul_div_le cur (2 ^ s)). lia.
Qed.

Lemma window_delay_ok cur : 0 <= cur -> window_delay w cur = Ok (2 ^ s - cur mod 2 ^ s).
Proof.
  intros H0. destruct Hw as [Hs Hd Hv _ _]. unfold window_delay. pose proof (shift_bounds s Hs).
  rewrite Hd, Hv, Z.land_comm, land_mask by lia. apply usub_ok. pose proof (Z.mod_pos_bound cur (2 ^ s)). lia.
Qed.

(** The delay ends at the start of the next window. *)
Lemma delay_next_window cur : 0 <= cur -> (cur + (2 ^ s - cur mod 2 ^ s)) / 2 ^ s = cur / 2 ^ s + 1.
Proof.
  intros H0. pose proof (shift_bounds s (wo_shift _ _ Hw)).
  rewrite (Z.div_mod cur (2 ^ s)) at 1 by lia.
  replace (2 ^ s * (cur / 2 ^ s) + cur mod 2 ^ s + (2 ^ s - cur mod 2 ^ s)) with ((cur / 2 ^ s + 1) * 2 ^ s) by lia.
  apply Z.div_mul. lia.
Qed.

Lemma slice_id_inj a b :
  2 ^ s * (a / 2 ^ s) + fw_slice_id_offset w = 2 ^ s * (b / 2 ^ s) + fw_slice_id_offset w <-> a / 2 ^ s = b / 2 ^ s.
Proof. pose proof (shift_bounds s (wo_shift _ _ Hw)). split; [nia|intros ->; done]. Qed.
End window.

Lemma FixedWindow_new_spec shift cur rand :
  0 <= shift <= 255 ->
  match cur with Some c => 0 <= c <= u64_max | None => 0 <= rand <= 2 ^ Z.min shift 12 end ->
  exists w, FixedWindow_new shift cur rand = Ok w /\ window_of (Z.min shift 12) w.
Proof.
  intros Hs Hc. unfold FixedWindow_new, RATE_LIMIT_SHIFT_MILLIS_MAX.
  replace (if 12 <? shift then 12 else shift) with (Z.min shift 12) by (destruct (Z.ltb_spec 12 shift); lia).
  set (sh := Z.min shift 12) in *. assert (Hsh : 0 <= sh <= 12) by lia. pose proof (shift_bounds sh Hsh) as Hb.
  assert (Hshl : forall E, @shl E 64 1 sh = Ok (2 ^ sh)).
  { intros E. unfold shl. destruct (Z.leb_spec 0 sh); [|lia]. destruct (Z.ltb_spec sh 64); [|lia]. cbn [andb].
    rewrite shiftl_mul, Z.mul_1_l by lia. f_equal. apply Z.mod_small. change (2 ^ 64) with (u64_max + 1). unfold u64_max. lia. }
  rewrite Hshl. cbn [bind]. rewrite usub_ok by lia. cbn [bind].
  destruct cur as [c|]; [|eexists; split; [reflexivity|split; cbn; lia]].
  rewrite (Z.land_comm c), slice_mask_div by lia. pose proof (Z.div_mod c (2 ^ sh)). pose proof (Z.mod_pos_bound c (2 ^ sh)).
  rewrite usub_ok by lia. cbn [bind]. eexists. split; [reflexivity|]. split; cbn; lia.
Qed.

(** ** The bytes of a window

    A log lists what was passed on, with the time: [in_window s k log] are the
    bytes of the [k]th window of [2 ^ s] milliseconds. *)
Fixpoint in_window (s k : Z) (log : list (Z * Z)) : Z :=
  match log with
  | [] => 0
  | (t, n) :: log => (if t / 2 ^ s =? k then n else 0) + in_window s k log
  end.

Lemma in_window_snoc s k log t n :
  in_window s k (log ++ [(t, n)]) = in_window s k log + (if t / 2 ^ s =? k then n else 0).
Proof. induction log as [|[t' n'] log IH]; cbn; [|rewrite IH]; lia. Qed.

(** All of [log] is not later than [now]. *)
Definition log_until (now : Z) (log : list (Z * Z)) : Prop := Forall (fun e => e.1 <= now) log.

Lemma log_until_le now now' log : log_until now log -> now <= now' -> log_until now' log.
Proof. intros Hl Hle. eapply Forall_impl; [exact Hl|]. cbn. lia. Qed.

Lemma in_window_later s now t log :
  0 <= s <= 12 -> log_until now log -> now / 2 ^ s < t / 2 ^ s -> in_window s (t / 2 ^ s) log = 0.
Proof.
  intros Hs Hl Ht. pose proof (shift_bounds s Hs). induction Hl as [|[t' n] log Hn Hl IH]; cbn; [done|].
  cbn in Hn. pose proof (Z.div_le_mono t' now (2 ^ s)). destruct (Z.eqb_spec (t' / 2 ^ s) (t / 2 ^ s)); lia.
Qed.

(** A counter [cur] that was last used not later than [now], in the window [id],
    counts what [log] holds of that window. *)
Definition window_count (s : Z) (w : FixedWindow) (id cur : Z) (log : list (Z * Z)) (now : Z) : Prop :=
  log_until now log /\
  forall t, now <= t ->
    if id =? 2 ^ s * (t / 2 ^ s) + fw_slice_id_offset w
    then cur = in_window s (t / 2 ^ s) log else in_window s (t / 2 ^ s) log = 0.

Lemma window_count_nil s w id now : window_count s w id 0 [] now.
Proof. split; [constructor|]. intros t _. by case_match. Qed.

(** The window of the time [t] begins, or goes on. *)
Lemma window_count_roll s w id cur log now t :
  window_of s w -> window_count s w id cur log now -> 0 <= now <= t ->
  let id' := 2 ^ s * (t / 2 ^ s) + fw_slice_id_offset w in
  let cur' := if id =? id' then cur else 0 in
  window_count s w id' cur' log t /\ cur' = in_window s (t / 2 ^ s) log.
Proof.
  intros Hw [Hl Hn] Ht id' cur'. pose proof (shift_bounds s (wo_shift _ _ Hw)) as Hs.
  assert (Hcur : cur' = in_window s (t / 2 ^ s) log).
  { specialize (Hn t ltac:(lia)). fold id' in Hn. subst cur'. by destruct (id =? id'). }
  split; [|done]. split; [apply (log_until_le now); [done|lia]|]. intros t' Ht'. unfold id'.
  pose proof (slice_id_inj _ _ Hw t t') as Hinj. case_match eqn:He.
  - apply Z.eqb_eq, Hinj in He. by rewrite <- He.
  - apply Z.eqb_neq in He. apply (in_window_later _ t); [by destruct Hw|apply (log_until_le now); [done|lia]|].
    pose proof (Z.div_le_mono t t' (2 ^ s)). assert (t / 2 ^ s <> t' / 2 ^ s) by tauto. lia.
Qed.

Lemma window_count_add s w cur log t n :
  window_of s w -> window_count s w (2 ^ s * (t / 2 ^ s) + fw_slice_id_offset w) cur log t ->
  window_count s w (2 ^ s * (t / 2 ^ s) + fw_slice_id_offset w) (cur + n) (log ++ [(t, n)]) t.
Proof.
  intros Hw [Hl Hn]. split; [apply Forall_app; split; [done|by repeat constructor]|]. intros t' Ht'.
  rewrite in_window_snoc. specialize (Hn t' Ht'). pose proof (slice_id_inj _ _ Hw t t') as Hinj.
  case_match eqn:He; [apply Z.eqb_eq in He|apply Z.eqb_neq in He]; destruct (Z.eqb_spec (t / 2 ^ s) (t' / 2 ^ s)); tauto || lia.
Qed.

(** A bound on the windows that [cur] keeps holds of all of them. *)
Lemma in_window_bound s max log t n :
  (forall k, in_window s k log <= max) -> in_window s (t / 2 ^ s) log + n <= max ->
  forall k, in_window s k (log ++ [(t, n)]) <= max.
Proof. intros Hb Hn k. rewrite in_window_snoc. specialize (Hb k). destruct (Z.eqb_spec (t / 2 ^ s) k); subst; lia. Qed.

(** What holds of a local limiter between its uses, the last of them not later
    than [now]. *)
Record local_inv (s max : Z) (l : LocalStreamLimiter) (log : list (Z * Z)) (now : Z) : Prop := {
  li_window : window_of s (lsl_window l);
  li_max : lsl_max_bytes l = max;
  li_cur : 0 <= lsl_cur_bytes l <= max;
  li_count : window_count s (lsl_window l) (lsl_time_slice_id l) (lsl_cur_bytes l) log now;
  li_bound : forall k, in_window s k log <= max
}.

(** [l] was checked at the time [t]. *)
Definition checked_at (s : Z) (l : LocalStreamLimiter) (t : Z) : Prop :=
  lsl_time_slice_id l = 2 ^ s * (t / 2 ^ s) + fw_slice_id_offset (lsl_window l).

Lemma LocalStreamLimiter_new_spec shift max rand :
  0 <= shift <= 255 -> 0 <= max -> 0 <= rand <= 2 ^ Z.min shift 12 ->
  exists l, LocalStreamLimiter_new shift max rand = Ok l /\ local_inv (Z.min shift 12) max l [] 0.
Proof.
  intros Hs Hm Hr. unfold LocalStreamLimiter_new.
  destruct (FixedWindow_new_spec shift None rand Hs Hr) as (w & -> & Hw). cbn [bind].
  eexists. split; [reflexivity|]. split; cbn; [done..|lia|apply window_count_nil|intros; lia].
Qed.

Section local.
Context (s max : Z).

Lemma local_roll l log now t :
  local_inv s max l log now -> 0 <= now <= t ->
  let id := 2 ^ s * (t / 2 ^ s) + fw_slice_id_offset (lsl_window l) in
  let l' := if lsl_time_slice_id l =? id then l else lsl_set l id 0 in
  local_inv s max l' log t /\ checked_at s l' t /\ lsl_cur_bytes l' = in_window s (t / 2 ^ s) log.
Proof.
  intros [Hw Hm Hc Hn Hb] Ht id l'. destruct (window_count_roll _ _ _ _ _ _ t Hw Hn Ht) as [Hn' Hcur]. fold id in Hn', Hcur.
  unfold checked_at. subst l'. destruct (Z.eqb_spec (lsl_time_slice_id l) id) as [He|He].
  - rewrite He in *. split; [|done]. split; try done. by rewrite He.
  - split; [|done]. split; cbn; try done. lia.
Qed.

Lemma LocalStreamLimiter_check_spec l log now t n :
  local_inv s max l log now -> 0 <= now <= t -> t + 4096 <= u64_max -> 0 <= n ->
  exists r l', LocalStreamLimiter_check l t n = Ok (r, l') /\ local_inv s max l' log t /\ checked_at s l' t /\
    lsl_cur_bytes l' = in_window s (t / 2 ^ s) log /\
    match r with
    | AdvanceBy m => 0 <= m <= n /\ lsl_cur_bytes l' + m <= max /\ (0 < n -> 0 < m)
    | DelayFor d => d = 2 ^ s - t mod 2 ^ s /\ in_window s (t / 2 ^ s) log = max
    | DelayUntil _ => False
    end.
Proof.
  intros Hi Ht Hu Hn. pose proof (local_roll _ _ _ _ Hi Ht) as (Hi' & Hat & Hcur). cbv zeta in *.
  unfold LocalStreamLimiter_check. rewrite (slice_id_ok _ _ (li_window _ _ _ _ _ Hi)) by lia. cbn [bind].
  set (l' := if _ =? _ then l else _) in *. pose proof Hi' as [Hw' Hm' Hc' _ _].
  rewrite Hm', usub_ok by lia. cbn [bind]. destruct (Z.eqb_spec (max - lsl_cur_bytes l') 0).
  - rewrite (window_delay_ok _ _ Hw') by lia. cbn [bind]. do 2 eexists. split_and!; [reflexivity|done..|]. cbn. lia.
  - do 2 eexists. split_and!; [reflexivity|done..|]. cbn. lia.
Qed.

Lemma LocalStreamLimiter_set_advance_spec l log t n :
  max <= u64_max -> local_inv s max l log t -> checked_at s l t -> 0 <= n -> lsl_cur_bytes l + n <= max ->
  exists l', LocalStreamLimiter_set_advance l n = Ok l' /\ local_inv s max l' (log ++ [(t, n)]) t.
Proof.
  intros Hu [Hw Hm Hc Hn Hb] Hat H0 Hle. unfold LocalStreamLimiter_set_advance. rewrite uadd_ok by lia.
  cbn [bind]. eexists. split; [reflexivity|]. unfold checked_at in Hat. rewrite Hat in *.
  pose proof (proj2 Hn t ltac:(lia)) as Hcur. rewrite Z.eqb_refl in Hcur.
  split; cbn; [done..|lia|by apply window_count_add|apply in_window_bound; [done|lia]].
Qed.
End local.

(** ** Counting limiter *)

(** The answers of a run of checks at the times [ts]. *)
Fixpoint run_checks (self : InnerCountLimitInfo) (ts : list Z) : pure (list (option Z) * InnerCountLimitInfo) :=
  match ts with
  | [] => Ok ([], self)
  | t :: ts =>
      let? '(r, self) := InnerCountLimitInfo_check self t in
      let? '(rs, self) := run_checks self ts in
      Ok (r :: rs, self)
  end.

(** ** Buckets *)

(** A bucket whose numbers fit: a slice has at most [isize::MAX] bytes, and so
    has what is taken from and given back to a bucket. *)
Definition config_ok (config : GlobalStreamSpeedLimitConfig) : Prop :=
  0 <= gsc_replenish_bytes config <= isize_max /\ 0 <= gsc_max_burst_bytes config <= isize_max.

Definition bucket_ok (b : GlobalStreamLimiter) : Prop :=
  0 <= gs_byte_tokens b <= isize_max /\ config_ok (gs_config b).

Lemma gs_add_bytes_spec b size burst :
  0 <= gs_byte_tokens b <= isize_max -> 0 <= size <= isize_max -> 0 <= burst <= isize_max ->
  exists b', gs_add_bytes b size burst = Ok b' /\ gs_config b' = gs_config b /\ gs_group b' = gs_group b /\
    gs_byte_tokens b' = Z.max (gs_byte_tokens b) (Z.min (gs_byte_tokens b + size) burst) /\
    0 <= gs_byte_tokens b' <= isize_max.
Proof.
  intros Hb Hs Hm. unfold gs_add_bytes. destruct (Z.ltb_spec (gs_byte_tokens b) burst).
  - rewrite uadd_ok by (unfold u64_max, isize_max in *; lia). cbn [bind]. eexists. split_and!; [reflexivity|done|done|cbn; lia..].
  - eexists. split_and!; [reflexivity|done|done|lia..].
Qed.

Lemma GlobalStreamLimiter_check_spec b n :
  bucket_ok b -> 0 <= n ->
  exists r b', GlobalStreamLimiter_check b n = Ok (r, b') /\ bucket_ok b' /\ gs_config b' = gs_config b /\
    match r with
    | AdvanceBy m => 0 < gs_byte_tokens b /\ m = Z.min n (gs_byte_tokens b) /\ gs_byte_tokens b' = gs_byte_tokens b - m
    | DelayUntil t => gs_byte_tokens b = 0 /\ b' = b /\ t = gs_wait_until b
    | DelayFor _ => False
    end.
Proof.
  intros (Ht & Hr & Hm) Hn. unfold GlobalStreamLimiter_check, try_consume, saturating_sub.
  destruct (Z.ltb_spec 0 (gs_byte_tokens b)).
  - rewrite usub_ok by lia. cbn [bind]. do 2 eexists. split_and!; [reflexivity|unfold bucket_ok, config_ok; cbn; lia|done|cbn; lia].
  - cbn [bind]. do 2 eexists. split_and!; [reflexivity|done|done|]. cbn. split_and!; [lia|done..].
Qed.

Lemma GlobalStreamLimiter_release_spec b n :
  bucket_ok b -> 0 <= n <= isize_max ->
  exists b', GlobalStreamLimiter_release b n = Ok b' /\ bucket_ok b' /\ gs_config b' = gs_config b /\
    gs_byte_tokens b' = Z.max (gs_byte_tokens b) (Z.min (gs_byte_tokens b + n) (gsc_max_burst_bytes (gs_config b))).
Proof.
  intros (Ht & Hr & Hm) Hn.
  destruct (gs_add_bytes_spec b n _ Ht Hn Hm) as (b' & He & Hc & _ & Htk & Hb').
  exists b'. unfold bucket_ok. by rewrite Hc.
Qed.

Lemma replenish_spec b config now :
  bucket_ok b -> config_ok config ->
  exists b', replenish b config now = Ok b' /\ bucket_ok b' /\ gs_config b' = gs_config b /\
    gs_byte_tokens b' =
      Z.max (gs_byte_tokens b) (Z.min (gs_byte_tokens b + gsc_replenish_bytes config) (gsc_max_burst_bytes config)).
Proof.
  intros (Ht & Hr & Hm) [Hcr Hcm].
  destruct (gs_add_bytes_spec b _ _ Ht Hcr Hcm) as (b' & He & Hc & _ & Htk & Hb').
  unfold replenish. rewrite He. cbn [bind]. eexists. split; [reflexivity|]. unfold bucket_ok. cbn.
  by rewrite Hc.
Qed.

(** ** Ledgers *)

Definition ledger := nat -> Z.

Definition credit (led : ledger) (i : nat) (n : Z) : ledger := fun j => led j + (if decide (j = i) then n else 0).

Ltac ledger_lia := intros; unfold credit in *; repeat case_decide; subst; try lia.

Definition taken (r : StreamLimitAction) : Z := match r with AdvanceBy m => m | _ => 0 end.

(** What a bucket may answer to [check]: never more than what was asked for, and
    never nothing when something was asked for. *)
Definition answers (n : Z) (r : StreamLimitAction) : Prop :=
  0 <= taken r <= n /\ match r with AdvanceBy m => 0 < n -> 0 < m | _ => True end.

Lemma GlobalStreamLimiter_check_answers b n :
  bucket_ok b -> 0 <= n ->
  exists r b', GlobalStreamLimiter_check b n = Ok (r, b') /\ answers n r /\ bucket_ok b' /\
    gs_byte_tokens b' = gs_byte_tokens b - taken r.
Proof.
  intros Hb Hn. destruct (GlobalStreamLimiter_check_spec b n Hb Hn) as (r & b' & He & Hb' & _ & Hr).
  exists r, b'. unfold answers. destruct Hb as [Ht _]. destruct r as [m|t|d]; cbn; [|destruct Hr as (_ & -> & _)|done].
  - split_and!; try done; lia.
  - split_and!; try done; lia.
Qed.

Section floor.
Context (fl : ledger).

(** [holds fl p led Q]: started when the ledger is [led], the program [p] does not
    panic whatever the buckets answer, the numbers it passes to the buckets are
    sizes of slices, it does not give back so much that its ledger falls below
    [fl], and [Q] holds of its result and the ledger then. *)
Fixpoint holds {A} (p : prog A) (led : ledger) (Q : A -> ledger -> Prop) : Prop :=
  match p with
  | Ret a => Q a led
  | Crash => False
  | DoCheck i n k =>
      0 <= n <= isize_max /\ forall r, answers n r -> holds (k r) (credit led i (taken r)) Q
  | DoRelease i n k => 0 <= n <= isize_max /\ fl i <= led i - n /\ holds k (credit led i (- n)) Q
  end.

Lemma holds_mono {A} (p : prog A) led (Q Q' : A -> ledger -> Prop) :
  holds p led Q -> (forall a l, Q a l -> Q' a l) -> holds p led Q'.
Proof.
  intros Hp HQ. revert led Hp. induction p as [a| |i n k IH|i n k IH]; cbn; intros led Hp; [by apply HQ|done|..].
  - destruct Hp as [Hn Hp]. split; [done|]. intros r Hr. apply IH, Hp, Hr.
  - destruct Hp as (Hn & Hf & Hp). split; [done|]. split; [done|]. apply IH, Hp.
Qed.

Lemma holds_bind {A B} (p : prog A) (f : A -> prog B) led Q :
  holds p led (fun a l => holds (f a) l Q) -> holds (pbind p f) led Q.
Proof.
  revert led. induction p as [a| |i n k IH|i n k IH]; cbn; intros led Hp; [done|done|..].
  - destruct Hp as [Hn Hp]. split; [done|]. intros r Hr. apply IH, Hp, Hr.
  - destruct Hp as (Hn & Hf & Hp). split; [done|]. split; [done|]. apply IH, Hp.
Qed.

(** Sequencing by a specification of the first part. *)
Lemma holds_seq {A B} (p : prog A) (f : A -> prog B) led Q R :
  holds p led R -> (forall a l, R a l -> holds (f a) l Q) -> holds (pbind p f) led Q.
Proof. intros Hp Hf. apply holds_bind. eapply holds_mono; [exact Hp|exact Hf]. Qed.

(** The number of entries for the bucket [i], and the tokens of it that the
    entries hold. *)
Fixpoint uses (gs : list GlobalLimiter) (i : nat) : Z :=
  match gs with
  | [] => 0
  | g :: gs => (if decide (i = gl_inner g) then 1 else 0) + uses gs i
  end.

Fixpoint held (gs : list GlobalLimiter) (i : nat) : Z :=
  match gs with
  | [] => 0
  | g :: gs => (if decide (i = gl_inner g) then default 0 (gl_checked_bytes g) else 0) + held gs i
  end.

Definition unchecked (gs : list GlobalLimiter) : Prop := Forall (fun g => gl_checked_bytes g = None) gs.
Definition all_checked (gs : list GlobalLimiter) (lo hi : Z) : Prop :=
  Forall (fun g => exists c, gl_checked_bytes g = Some c /\ lo <= c <= hi) gs.

(** Entries up to some place are checked. *)
Definition checked_prefix (gs : list GlobalLimiter) (hi : Z) : Prop :=
  exists a b, gs = a ++ b /\ all_checked a 0 hi /\ unchecked b.

Definition same_arcs (gs gs' : list GlobalLimiter) : Prop := forall i, uses gs' i = uses gs i.

#[local] Ltac arcs_lia :=
  repeat match goal with H : same_arcs _ _ |- _ => unfold same_arcs in H end;
  unfold same_arcs; intros; cbn;
  repeat match goal with i : nat, H : forall _ : nat, _ = _ |- _ => specialize (H i) end;
  cbn in *; unfold credit in *; repeat case_decide; subst; try done; lia.

Lemma uses_nonneg gs i : 0 <= uses gs i.
Proof. induction gs; cbn; [done|]. case_decide; lia. Qed.

Lemma held_unchecked gs i : unchecked gs -> held gs i = 0.
Proof. induction 1 as [|g gs Hg Hgs IH]; cbn; [done|]. rewrite Hg, IH. by case_decide. Qed.

Lemma held_app gs gs' i : held (gs ++ gs') i = held gs i + held gs' i.
Proof. induction gs; cbn; lia. Qed.

Lemma held_all gs m i : all_checked gs m m -> held gs i = m * uses gs i.
Proof.
  induction 1 as [|g gs (c & Hg & Hc) Hgs IH]; cbn; [lia|]. rewrite Hg, IH. cbn. case_decide; lia.
Qed.

Lemma held_checked gs lo hi i : all_checked gs lo hi -> 0 <= lo -> 0 <= held gs i.
Proof.
  intros Hc Hlo. induction Hc as [|g gs (c & Hg & Hc) Hgs IH]; cbn; [done|]. rewrite Hg. cbn. case_decide; lia.
Qed.

Lemma check_globals_spec gs n led :
  unchecked gs -> 0 <= n <= isize_max ->
  holds (check_globals gs n) led (fun '(gs', o) led' =>
    same_arcs gs gs' /\ (forall i, led' i = led i + held gs' i) /\
    match o with
    | inl m => 0 <= m <= n /\ (0 < n -> 0 < m) /\ all_checked gs' m n
    | inr d => taken d = 0 /\ (forall m, d <> AdvanceBy m) /\ checked_prefix gs' n
    end).
Proof.
  intros Hu. revert n led. induction Hu as [|g gs Hg Hgs IH]; intros n led Hn; cbn.
  { split_and!; [done|intros; lia..|constructor]. }
  assert (Hdelay : forall d led', taken d = 0 -> (forall m, d <> AdvanceBy m) -> led' = credit led (gl_inner g) (taken d) ->
    holds (Ret (g :: gs, inr d : Z + StreamLimitAction)) led' (fun '(gs', o) led' =>
      same_arcs (g :: gs) gs' /\ (forall i, led' i = led i + held gs' i) /\
      match o with
      | inl m => 0 <= m <= n /\ (0 < n -> 0 < m) /\ all_checked gs' m n
      | inr d => taken d = 0 /\ (forall m, d <> AdvanceBy m) /\ checked_prefix gs' n
      end)).
  { intros d led' Ht Hd ->. cbn. split; [done|]. split; [|split_and!; [done..|]].
    - intros i. rewrite Hg, held_unchecked, Ht by done. unfold credit. cbn. repeat case_decide; lia.
    - exists [], (g :: gs). split_and!; [done|constructor|by constructor]. }
  split; [done|]. intros [m|t|d] [Hr Hpos]; [|by apply Hdelay..]. cbn in Hr.
  eapply holds_seq; [by apply IH; lia|]. intros [gs' o] led' (Ha & Hl & Ho). cbn.
  split_and!; [arcs_lia|arcs_lia|]. destruct o as [m'|d].
  - destruct Ho as (Hm & Hm0 & Hc). split_and!; [lia|lia|lia|]. constructor; [by exists m; split; [|lia]|].
    eapply Forall_impl; [exact Hc|]. intros x (c & Hx & Hxc). exists c. split; [done|lia].
  - destruct Ho as (Ht & Hd & a & b & -> & Hca & Hub). split_and!; [done..|].
    exists (gl_set g (Some m) :: a), b. split_and!; [done| |done]. constructor; [by exists m; split; [|lia]|].
    eapply Forall_impl; [exact Hca|]. intros x (c & Hx & Hxc). exists c. split; [done|lia].
Qed.

Lemma release_globals_spec gs hi led :
  checked_prefix gs hi -> hi <= isize_max -> (forall i, fl i <= led i - held gs i) ->
  holds (release_globals gs) led (fun gs' led' =>
    same_arcs gs gs' /\ unchecked gs' /\ forall i, led' i = led i - held gs i).
Proof.
  intros (a & b & -> & Ha & Hb) Hhi. revert led. induction Ha as [|g a (c & Hg & Hc) Ha IH]; intros led Hf; cbn.
  - destruct Hb as [|g b Hg Hb]; cbn; [split_and!; [done|constructor|lia]|].
    rewrite Hg. cbn. split_and!; [done|by constructor|]. intros i. rewrite held_unchecked by done. case_decide; lia.
  - cbn in Hf. rewrite Hg in *. cbn in *. split; [lia|]. split.
    { specialize (Hf (gl_inner g)). rewrite decide_True in Hf by done. enough (0 <= held (a ++ b) (gl_inner g)) by lia. rewrite held_app, (held_unchecked b) by done.
      pose proof (held_checked a 0 hi (gl_inner g) Ha). lia. }
    eapply holds_seq; [apply IH; intros i; specialize (Hf i); unfold credit; repeat case_decide; lia|].
    intros gs' led' (Has & Hu & Hl). cbn.
    split_and!; [arcs_lia|by constructor|]. intros i. rewrite Hl. unfold credit. cbn. repeat case_decide; lia.
Qed.

Lemma shrink_globals_spec gs m n led :
  all_checked gs m n -> 0 <= m -> n <= isize_max -> (forall i, fl i <= led i - held gs i) ->
  holds (shrink_globals gs m) led (fun gs' led' =>
    same_arcs gs gs' /\ all_checked gs' m m /\ forall i, led' i = led i - held gs i + held gs' i).
Proof.
  intros Hc Hm Hn. revert led. induction Hc as [|g gs (c & Hg & Hc) Hgs IH]; intros led Hf; cbn [shrink_globals].
  { cbn. split_and!; [done|constructor|lia]. }
  rewrite Hg.
  assert (Hrest : forall led0, (forall i, led0 i = led i - (if decide (i = gl_inner g) then c - m else 0)) ->
    holds (let! gs := shrink_globals gs m in Ret (gl_set g (Some m) :: gs)) led0 (fun gs' led' =>
      same_arcs (g :: gs) gs' /\ all_checked gs' m m /\ forall i, led' i = led i - held (g :: gs) i + held gs' i)).
  { intros led0 H0. eapply holds_seq.
    { apply IH. intros i. specialize (Hf i). cbn in Hf. rewrite Hg in Hf. cbn in Hf. rewrite H0. case_decide; lia. }
    intros gs' led' (Has & Hca & Hl). cbn.
    split_and!; [arcs_lia|constructor; [by exists m; split; [|lia]|done]|].
    intros i. rewrite Hl, H0, Hg. cbn. case_decide; lia. }
  destruct (Z.ltb_spec m c); [cbn [holds]; split; [lia|]; split|]; [|apply Hrest; ledger_lia..].
  specialize (Hf (gl_inner g)). cbn in Hf. rewrite Hg, decide_True in Hf by done. cbn in Hf.
  pose proof (held_checked gs m n (gl_inner g) Hgs Hm). lia.
Qed.

Lemma advance_globals_spec gs m k led :
  all_checked gs m m -> 0 <= k <= m -> m <= isize_max -> (forall i, fl i <= led i - m * uses gs i) ->
  holds (advance_globals gs k) led (fun gs' led' =>
    same_arcs gs gs' /\ unchecked gs' /\ forall i, led' i = led i - (m - k) * uses gs i).
Proof.
  intros Hc Hk Hm. revert led. induction Hc as [|g gs (c & Hg & Hc) Hgs IH]; intros led Hf; cbn [advance_globals].
  { cbn. split_and!; [done|constructor|lia]. }
  rewrite Hg. assert (c = m) as -> by lia.
  assert (Hrest : forall led0, (forall i, led0 i = led i - (if decide (i = gl_inner g) then m - k else 0)) ->
    holds (let! gs := advance_globals gs k in Ret (gl_set g None :: gs)) led0 (fun gs' led' =>
      same_arcs (g :: gs) gs' /\ unchecked gs' /\ forall i, led' i = led i - (m - k) * uses (g :: gs) i)).
  { intros led0 H0. eapply holds_seq.
    { apply IH. intros i. specialize (Hf i). cbn in Hf. rewrite H0. case_decide; lia. }
    intros gs' led' (Has & Hu & Hl). cbn.
    split_and!; [arcs_lia|by constructor|]. intros i. rewrite Hl, H0. cbn. case_decide; lia. }
  destruct (Z.ltb_spec k m); [cbn [holds]; split; [lia|]; split|]; [|apply Hrest; ledger_lia..].
  specialize (Hf (gl_inner g)). cbn in Hf. rewrite decide_True in Hf by done. pose proof (uses_nonneg gs (gl_inner g)). nia.
Qed.

(** ** The limiter of a connection

    Between polls no entry holds tokens; between [check] and [set_advance] or
    [release_global] every entry holds the size that [check] returned. *)

Definition same_shape (self self' : StreamLimiter) : Prop :=
  sl_is_set self' = sl_is_set self /\ sl_local_is_set self' = sl_local_is_set self /\
  same_arcs (sl_global self) (sl_global self').

Lemma same_shape_trans a b c : same_shape a b -> same_shape b c -> same_shape a c.
Proof.
  intros (H1 & H2 & H3) (H4 & H5 & H6). split_and!; [congruence..|]. intros i. by rewrite H6, H3.
Qed.

Record limiter_idle (s max : Z) (self : StreamLimiter) (log : list (Z * Z)) (now : Z) : Prop := {
  id_local : sl_local_is_set self = true -> local_inv s max (sl_local self) log now;
  id_global : unchecked (sl_global self)
}.

Record limiter_checked (s max : Z) (self : StreamLimiter) (log : list (Z * Z)) (t m : Z) : Prop := {
  ck_local : sl_local_is_set self = true ->
    local_inv s max (sl_local self) log t /\ checked_at s (sl_local self) t /\ lsl_cur_bytes (sl_local self) + m <= max;
  ck_global : all_checked (sl_global self) m m
}.

Section limiter.
Context (s max : Z) (Hmax : max <= u64_max).

Lemma release_global_spec self log t lo m led :
  (sl_local_is_set self = true -> local_inv s max (sl_local self) log t) ->
  checked_prefix (sl_global self) m -> m <= isize_max ->
  (forall i, led i = lo i + held (sl_global self) i) -> (forall i, fl i <= lo i) ->
  holds (release_global self) led (fun self' led' =>
    same_shape self self' /\ limiter_idle s max self' log t /\ forall i, led' i = lo i).
Proof.
  intros Hl Hp Hm Hled Hf. eapply holds_seq.
  { eapply release_globals_spec; [done..|]. intros i. rewrite Hled. specialize (Hf i). lia. }
  intros gs led' (Ha & Hu & Hled'). cbn. split; [done|]. split; [by split|].
  intros i. rewrite Hled', Hled. lia.
Qed.

Lemma checked_release self log t m led lo :
  limiter_checked s max self log t m -> 0 <= m <= isize_max -> (forall i, led i = lo i + m * uses (sl_global self) i) ->
  (forall i, fl i <= lo i) ->
  holds (release_global self) led (fun self' led' =>
    same_shape self self' /\ limiter_idle s max self' log t /\ forall i, led' i = lo i).
Proof.
  intros [Hl Hg] Hm Hled Hf. apply (release_global_spec _ _ _ _ m); [by intros; apply Hl| |lia| |done].
  - exists (sl_global self), []. rewrite app_nil_r. split; [done|]. split; [|constructor].
    eapply Forall_impl; [exact Hg|]. intros x (c & Hc & Hcm). exists c. split; [done|lia].
  - intros i. by rewrite Hled, (held_all _ m).
Qed.

Lemma StreamLimiter_check_spec self log now t n led :
  limiter_idle s max self log now -> 0 <= now <= t -> t + 4096 <= u64_max -> 0 <= n <= isize_max -> (forall i, fl i <= led i) ->
  holds (StreamLimiter_check self t n) led (fun '(r, self') led' =>
    same_shape self self' /\
    match r with
    | AdvanceBy m =>
        0 <= m <= n /\ (0 < n -> 0 < m) /\ limiter_checked s max self' log t m /\
        forall i, led' i = led i + m * uses (sl_global self) i
    | _ => limiter_idle s max self' log t /\ forall i, led' i = led i
    end).
Proof.
  intros [Hl Hg] Ht Hu Hn Hf. unfold StreamLimiter_check.
  apply (holds_seq _ _ _ _ (fun '(r, self') led' => led' = led /\ same_shape self self' /\ sl_global self' = sl_global self /\
    (sl_local_is_set self = true -> local_inv s max (sl_local self') log t) /\
    forall m, r = AdvanceBy m -> (0 <= m <= n /\ (0 < n -> 0 < m)) /\ (sl_local_is_set self = true ->
      checked_at s (sl_local self') t /\ lsl_cur_bytes (sl_local self') + m <= max))).
  { destruct (sl_local_is_set self) eqn:Hs; [|cbn; split_and!; try done; intros m [= <-]; split; [lia|done]].
    destruct (LocalStreamLimiter_check_spec s max _ _ _ t n (Hl eq_refl) Ht Hu) as (r & l' & -> & Hi & Hat & _ & Hr); [lia|].
    cbn. split_and!; try done. intros m ->. split; [lia|]. intros _. split; [done|lia]. }
  intros [r self1] led' (-> & Hsh & Hgl & Hl1 & Hr).
  assert (Hidle : holds (Ret (r, self1)) led (fun '(r, self') led' => same_shape self self' /\
    limiter_idle s max self' log t /\ forall i, led' i = led i)).
  { cbn. split_and!; try done. split; [intros Hset; apply Hl1|by rewrite Hgl]. by destruct Hsh as (_ & <- & _). }
  destruct r as [m|d|d]; [|exact Hidle..]. destruct (Hr m eq_refl) as [Hm Hck]. clear Hr Hidle.
  eapply holds_seq; [apply check_globals_spec; [by rewrite Hgl|lia]|]. intros [gs o] led' (Ha & Hled & Ho).
  assert (Hset : sl_local_is_set self1 = true -> sl_local_is_set self = true) by (by destruct Hsh as (_ & <- & _)).
  assert (Hsh' : same_shape self (sl_set_global self1 gs)).
  { destruct Hsh as (? & ? & _). split_and!; [done..|]. by rewrite Hgl in Ha. }
  destruct o as [k|d].
  - apply (holds_seq _ _ _ _ (fun gs' led'' => same_arcs gs gs' /\ all_checked gs' k k /\
      forall i, led'' i = led i + held gs' i)).
    { destruct (Z.ltb_spec k n).
      - eapply holds_mono; [eapply shrink_globals_spec; [apply Ho|lia|lia|]|].
        { intros i. rewrite Hled. specialize (Hf i). lia. }
        intros gs' led'' (Ha' & Hc & Hl').
        split_and!; [done..|]. intros i. rewrite Hl', Hled. lia.
      - destruct Ho as (Hk & _ & Hc). assert (m = k) as -> by lia. done. }
    intros gs' led'' (Ha' & Hc & Hl').
    assert (Hu' : forall i, uses gs' i = uses (sl_global self) i) by (intros i; rewrite Ha'; apply Hsh').
    cbn. split; [|split_and!; [lia|lia|lia| |]].
    + destruct Hsh' as (? & ? & _). by split_and!.
    + split; [|done]. intros Hs. cbn in Hs |- *. specialize (Hck (Hset Hs)). split_and!; [auto|apply Hck|lia].
    + intros i. by rewrite Hl', (held_all _ k), Hu' by done.
  - destruct Ho as (_ & Hnot & Hpre).
    eapply holds_seq; [eapply (release_global_spec _ log t led m); [by cbn; auto|done|lia|done|done]|].
    intros self2 led2 (Hsh2 & Hidle2 & Hled2). cbn. split; [by eapply same_shape_trans|].
    destruct d as [m'|d|d]; [by destruct (Hnot m')|by split..].
Qed.

Lemma StreamLimiter_set_advance_spec self log t m k led lo :
  limiter_checked s max self log t m -> 0 <= k <= m -> m <= isize_max ->
  (forall i, led i = lo i + m * uses (sl_global self) i) -> (forall i, fl i <= lo i) ->
  holds (StreamLimiter_set_advance self k) led (fun self' led' =>
    same_shape self self' /\ limiter_idle s max self' (log ++ [(t, k)]) t /\
    forall i, led' i = lo i + k * uses (sl_global self) i).
Proof.
  intros [Hl Hg] Hk Hm Hled Hf. unfold StreamLimiter_set_advance.
  apply (holds_seq _ _ _ _ (fun self1 led1 => led1 = led /\ sl_global self1 = sl_global self /\ same_shape self self1 /\
    (sl_local_is_set self = true -> local_inv s max (sl_local self1) (log ++ [(t, k)]) t))).
  { destruct (sl_local_is_set self) eqn:Hs; [|by cbn]. destruct (Hl eq_refl) as (Hi & Hat & Hc).
    destruct (LocalStreamLimiter_set_advance_spec s max _ _ _ k Hmax Hi Hat) as (l' & -> & Hl'); [lia..|]. by cbn. }
  intros self1 led1 (-> & Hgl & Hsh & Hl1).
  eapply holds_seq; [apply (advance_globals_spec _ m k); rewrite ?Hgl; [done..|intros i; rewrite Hled; specialize (Hf i); lia]|].
  intros gs led1 (Ha & Hu & Hled1). cbn. rewrite Hgl in *. destruct Hsh as (Hs1 & Hs2 & _).
  split_and!; [done..| |].
  - split; [|done]. cbn. rewrite Hs2. done.
  - intros i. rewrite Hled1, Hled. lia.
Qed.
End limiter.
End floor.

(** Entries that hold nothing are removed without an operation on a bucket. *)
Lemma retain_globals_idle keep gs : unchecked gs -> retain_globals keep gs = Ret (List.filter keep gs).
Proof.
  induction 1 as [|g gs Hg Hgs IH]; cbn; [done|]. unfold GlobalLimiter_drop. rewrite Hg. cbn. rewrite IH.
  by destruct (keep g).
Qed.

(** A limit that is replaced starts with the window of that moment. *)
Lemma StreamLimiter_reset_local_spec self shift max t :
  unchecked (sl_global self) -> 0 <= shift <= 255 -> 0 <= max -> 0 <= t -> t + 4096 <= u64_max ->
  exists self', StreamLimiter_reset_local self shift max t = Ok self' /\ sl_global self' = sl_global self /\
    limiter_idle (Z.min shift 12) max self' [] t.
Proof.
  intros Hg Hs Hm Ht Hu. unfold StreamLimiter_reset_local, LocalStreamLimiter_reset.
  destruct (FixedWindow_new_spec shift (Some t) 0 Hs) as (w & -> & Hw); [lia|]. cbn [bind].
  rewrite (slice_id_ok _ _ Hw) by lia. cbn [bind]. eexists. split_and!; [reflexivity|done|].
  split; [|done]. intros _. split; cbn; [done|done|lia|apply window_count_nil|intros; lia].
Qed.

(** ** Counting

    The counting limiter is the byte limiter that passes on one at a time. *)

Definition as_local (c : InnerCountLimitInfo) : LocalStreamLimiter :=
  {| lsl_window := icl_window c; lsl_max_bytes := icl_max_count c; lsl_time_slice_id := icl_time_slice_id c;
     lsl_cur_bytes := icl_max_count c - icl_cur_count c |}.

Section count.
Context (s max : Z) (Hmax : max <= u64_max).

Lemma as_local_roll c id :
  as_local (if icl_time_slice_id c =? id then c else icl_set c id (icl_max_count c)) =
  (if lsl_time_slice_id (as_local c) =? id then as_local c else lsl_set (as_local c) id 0).
Proof. cbn. destruct (_ =? id); [done|]. unfold as_local, lsl_set. cbn. f_equal. lia. Qed.

Lemma InnerCountLimitInfo_check_spec c log now t :
  local_inv s max (as_local c) log now -> 0 <= now <= t -> t + 4096 <= u64_max ->
  exists r c', InnerCountLimitInfo_check c t = Ok (r, c') /\
    match r with
    | None => local_inv s max (as_local c') (log ++ [(t, 1)]) t
    | Some d => local_inv s max (as_local c') log t /\ d = 2 ^ s - t mod 2 ^ s /\ in_window s (t / 2 ^ s) log = max
    end.
Proof.
  intros Hi Ht Hu. pose proof (local_roll _ _ _ _ _ _ Hi Ht) as (Hi' & Hat & Hcur). cbv zeta in *.
  unfold InnerCountLimitInfo_check. rewrite (slice_id_ok s _ (li_window _ _ _ _ _ Hi)) by lia. cbn [bind].
  change (fw_slice_id_offset (lsl_window (as_local c))) with (fw_slice_id_offset (icl_window c)) in *.
  rewrite <- as_local_roll in Hi', Hat, Hcur. set (c1 := if _ =? _ then c else _) in *. clearbody c1. clear Hi.
  pose proof Hi' as [Hw Hm Hc _ _]. cbn in Hm, Hc, Hw. destruct (Z.ltb_spec 0 (icl_cur_count c1)).
  - rewrite usub_ok by lia. cbn [bind]. do 2 eexists. split; [reflexivity|]. cbn.
    destruct (LocalStreamLimiter_set_advance_spec s max _ _ _ 1 Hmax Hi' Hat) as (l' & Hl' & Hinv); [lia|cbn; lia|].
    unfold LocalStreamLimiter_set_advance in Hl'. rewrite uadd_ok in Hl' by (cbn; lia). cbn [bind] in Hl'.
    injection Hl' as <-. unfold as_local, lsl_set in *. cbn in *.
    by replace (icl_max_count c1 - (icl_cur_count c1 - 1)) with (icl_max_count c1 - icl_cur_count c1 + 1) by lia.
  - rewrite (window_delay_ok s _ Hw) by lia. cbn [bind]. do 2 eexists. split; [reflexivity|]. split_and!; [done..|].
    cbn in Hcur. lia.
Qed.

(** The times of the checks that were granted. *)
Fixpoint granted (ts : list Z) (rs : list (option Z)) : list (Z * Z) :=
  match ts, rs with
  | t :: ts, None :: rs => (t, 1) :: granted ts rs
  | _ :: ts, _ :: rs => granted ts rs
  | _, _ => []
  end.

Lemma run_checks_spec ts c log now :
  local_inv s max (as_local c) log now -> 0 <= now -> Forall (fun t => t + 4096 <= u64_max) ts ->
  Sorted.Sorted Z.le (now :: ts) ->
  exists rs c', run_checks c ts = Ok (rs, c') /\ length rs = length ts /\
    exists now', local_inv s max (as_local c') (log ++ granted ts rs) now'.
Proof.
  intros Hi H0 Hts Hs. apply Sorted.Sorted_StronglySorted in Hs; [|intros x y z; lia].
  revert c log now Hi H0 Hs. induction Hts as [|t ts Ht Hts IH]; intros c log now Hi H0 Hs; cbn.
  { do 2 eexists. split_and!; [reflexivity|done|]. exists now. by rewrite app_nil_r. }
  apply Sorted.StronglySorted_inv in Hs as [Hs Hn]. apply Forall_cons in Hn as [Hn _].
  destruct (InnerCountLimitInfo_check_spec c log now t Hi) as (r & c1 & -> & Hr); [lia..|]. cbn [bind].
  set (log1 := match r with None => log ++ [(t, 1)] | Some _ => log end).
  assert (Hi1 : local_inv s max (as_local c1) log1 t) by (subst log1; destruct r; [apply Hr|done]).
  destruct (IH c1 log1 t Hi1 ltac:(lia) Hs) as (rs & c' & -> & Hlen & now' & Hinv). cbn [bind].
  do 2 eexists. split_and!; [reflexivity|cbn; lia|]. exists now'. subst log1.
  destruct r; cbn; [done|]. by rewrite <- app_assoc in Hinv.
Qed.
End count.

(** A counting limiter that several threads share: whatever the times of
    the checks, in the order in which they come through its mutex, and whatever
    offset was drawn, no check panics and no window of the configured length
    sees more than [max_count] checks granted. *)
Theorem count_limit_respected (shift max rand : Z) (ts : list Z) :
  0 <= shift <= 255 -> 0 <= max <= u64_max -> 0 <= rand <= 2 ^ Z.min shift 12 ->
  Sorted.Sorted Z.le (0 :: ts) -> Forall (fun t => t + 4096 <= u64_max) ts ->
  exists c rs c', InnerCountLimitInfo_new shift max rand = Ok c /\ run_checks c ts = Ok (rs, c') /\
    length rs = length ts /\ forall k, in_window (Z.min shift 12) k (granted ts rs) <= max.
Proof.
  intros Hs Hm Hr Hsort Hts.
  destruct (LocalStreamLimiter_new_spec shift max rand Hs ltac:(lia) Hr) as (l & Hl & Hi).
  unfold LocalStreamLimiter_new in Hl. unfold InnerCountLimitInfo_new.
  destruct (FixedWindow_new shift None rand) as [w|e|]; try done. cbn [bind] in *. injection Hl as <-.
  eexists _. destruct (run_checks_spec (Z.min shift 12) max ltac:(lia) ts
    {| icl_window := w; icl_max_count := max; icl_time_slice_id := 0; icl_cur_count := max |} [] 0) as (rs & c' & Hrun & Hlen & now' & Hinv);
    [unfold as_local; cbn; by rewrite Z.sub_diag|done..|].
  exists rs, c'. split_and!; [reflexivity|done..|]. apply Hinv.
Qed.

Lemma count_limit_respected_witness :
  exists c rs c', InnerCountLimitInfo_new 10 2 700 = Ok c /\ run_checks c [5; 6; 1000; 1023; 1024] = Ok (rs, c') /\
    length rs = length [5; 6; 1000; 1023; 1024] /\
    forall k, in_window (Z.min 10 12) k (granted [5; 6; 1000; 1023; 1024] rs) <= 2.
Proof.
  apply (count_limit_respected 10 2 700 [5; 6; 1000; 1023; 1024]).
  1-3: split; apply Z.leb_le; reflexivity.
  1-2: repeat constructor; apply Z.leb_le; reflexivity.
Defined.
