(* ===== verification/LimitedStream.v ===== *)
(** Streams with a rate limit: the readers and the writer of
    [lib/vey-io-ext/src/stream/limited/], and many such readers that share token
    buckets.

    The connections of a server run on several threads.  The last part lets
    them run in any interleaving of their operations on the buckets, together
    with the tasks that replenish the buckets, and follows the tokens. *)

From Stdlib Require Import ZArith Lia Strings.Byte.
From stdpp Require Import base list.
From S2P Require Import Prelude Reader AsyncIo Limit.

#[local] Open Scope prog_scope.

(** ** Readers *)

(** Instants are in milliseconds.  [lrs_delay] is the deadline of the [Sleep],
    and [lrs_stats] what has been reported with [add_read_bytes]. *)
Record LimitedReaderState : Type := {
  lrs_delay : Z;
  lrs_started : Z;
  lrs_limit : StreamLimiter;
  lrs_stats : Z
}.

Record LimitedReader (R : Type) : Type := {
  lr_inner : R;
  lr_state : LimitedReaderState
}.
Arguments lr_inner {R}.
Arguments lr_state {R}.

Definition LimitedReaderState_new (now : Z) : LimitedReaderState :=
  {| lrs_delay := now; lrs_started := now; lrs_limit := StreamLimiter_default; lrs_stats := 0 |}.

Definition LimitedReaderState_local_limited (shift_millis max_bytes now rand : Z) : pure LimitedReaderState :=
  let? limit := StreamLimiter_with_local shift_millis max_bytes rand in
  Ok {| lrs_delay := now; lrs_started := now; lrs_limit := limit; lrs_stats := 0 |}.

Definition lrs_set_limit (self : LimitedReaderState) (limit : StreamLimiter) : LimitedReaderState :=
  {| lrs_delay := lrs_delay self; lrs_started := lrs_started self; lrs_limit := limit; lrs_stats := lrs_stats self |}.

Definition lrs_set_delay (self : LimitedReaderState) (t : Z) : LimitedReaderState :=
  {| lrs_delay := t; lrs_started := lrs_started self; lrs_limit := lrs_limit self; lrs_stats := lrs_stats self |}.

Definition lrs_add_read_bytes (self : LimitedReaderState) (n : Z) : LimitedReaderState :=
  {| lrs_delay := lrs_delay self; lrs_started := lrs_started self; lrs_limit := lrs_limit self;
     lrs_stats := lrs_stats self + n |}.

Definition lrs_add_global_limiter (self : LimitedReaderState) (limiter : nat) (group : GlobalLimitGroup)
  : LimitedReaderState :=
  lrs_set_limit self (add_global (lrs_limit self) limiter group).

Definition lrs_retain_global_limiter_by_group (self : LimitedReaderState) (group : GlobalLimitGroup)
  : prog LimitedReaderState :=
  let! limit := retain_global_by_group (lrs_limit self) group in Ret (lrs_set_limit self limit).

(** [started.elapsed().as_millis()] *)
Definition dur_millis (self : LimitedReaderState) (now : Z) : Z := saturating_sub now (lrs_started self).

Definition lrs_reset_local_limit (self : LimitedReaderState) (shift_millis max_bytes now : Z) : pure LimitedReaderState :=
  let? limit := StreamLimiter_reset_local (lrs_limit self) shift_millis max_bytes (dur_millis self now) in
  Ok (lrs_set_limit self limit).

Section reader.
Context {R : Type} `{AsyncRead R}.

(** After the deadline of the [Sleep] is set the poll returns [Pending] also
    when the deadline has passed: then the task is woken at once. *)
Definition LimitedReaderState_poll_read (self : LimitedReaderState) (reader : R) (now room : Z)
  : prog (poll (res io_error bytes) * (LimitedReaderState * R)) :=
  if sl_is_set (lrs_limit self) then
    let dur := dur_millis self now in
    let! '(a, limit) := StreamLimiter_check (lrs_limit self) dur room in
    let self := lrs_set_limit self limit in
    match a with
    | AdvanceBy len =>
        match ar_poll_read reader len with
        | (Ready (Ok c), reader) =>
            let nr := Prelude.len c in
            let! limit := StreamLimiter_set_advance (lrs_limit self) nr in
            Ret (Ready (Ok c), (lrs_add_read_bytes (lrs_set_limit self limit) nr, reader))
        | (r, reader) =>
            let! limit := release_global (lrs_limit self) in
            Ret (r, (lrs_set_limit self limit, reader))
        end
    | DelayUntil t => Ret (Pending, (lrs_set_delay self t, reader))
    | DelayFor ms => Ret (Pending, (lrs_set_delay self (lrs_started self + (dur + ms)), reader))
    end
  else
    match ar_poll_read reader room with
    | (Ready (Ok c), reader) => Ret (Ready (Ok c), (lrs_add_read_bytes self (Prelude.len c), reader))
    | (r, reader) => Ret (r, (self, reader))
    end.

Definition LimitedReader_new (inner : R) (now : Z) : LimitedReader R :=
  {| lr_inner := inner; lr_state := LimitedReaderState_new now |}.

Definition LimitedReader_local_limited (inner : R) (shift_millis max_bytes now rand : Z) : pure (LimitedReader R) :=
  let? state := LimitedReaderState_local_limited shift_millis max_bytes now rand in
  Ok {| lr_inner := inner; lr_state := state |}.

Definition LimitedReader_add_global_limiter (self : LimitedReader R) (limiter : nat) (group : GlobalLimitGroup)
  : LimitedReader R :=
  {| lr_inner := lr_inner self; lr_state := lrs_add_global_limiter (lr_state self) limiter group |}.

Definition LimitedReader_poll_read (self : LimitedReader R) (now room : Z)
  : prog (poll (res io_error bytes) * LimitedReader R) :=
  let! '(r, (state, inner)) := LimitedReaderState_poll_read (lr_state self) (lr_inner self) now room in
  Ret (r, {| lr_inner := inner; lr_state := state |}).

(** A reader of at most [max_size] bytes. *)
Record SizedReader : Type := {
  sz_inner : R;
  sz_max_size : Z;
  sz_cur_size : Z
}.

Definition SizedReader_new (inner : R) (max_size : Z) : SizedReader :=
  {| sz_inner := inner; sz_max_size := max_size; sz_cur_size := 0 |}.

Definition SizedReader_poll_read (self : SizedReader) (room : Z) : poll (res io_error bytes) * SizedReader :=
  if sz_max_size self <=? sz_cur_size self then (Ready (Ok []), self)
  else
    let n := Z.min room (Z.min (sz_max_size self - sz_cur_size self) usize_max) in
    let '(r, inner) := ar_poll_read (sz_inner self) n in
    let nr := match r with Ready (Ok c) => Prelude.len c | _ => 0 end in
    (r, {| sz_inner := inner; sz_max_size := sz_max_size self; sz_cur_size := sz_cur_size self + nr |}).
End reader.
Arguments SizedReader : clear implicits.

#[export] Instance SizedReader_AsyncRead {R} `{AsyncRead R} : AsyncRead (SizedReader R) := SizedReader_poll_read.

(** ** Writers *)

Record LimitedWriterState : Type := {
  lws_delay : Z;
  lws_started : Z;
  lws_limit : StreamLimiter;
  lws_stats : Z
}.

Definition lws_set_limit (self : LimitedWriterState) (limit : StreamLimiter) : LimitedWriterState :=
  {| lws_delay := lws_delay self; lws_started := lws_started self; lws_limit := limit; lws_stats := lws_stats self |}.

Definition lws_set_delay (self : LimitedWriterState) (t : Z) : LimitedWriterState :=
  {| lws_delay := t; lws_started := lws_started self; lws_limit := lws_limit self; lws_stats := lws_stats self |}.

Definition lws_add_write_bytes (self : LimitedWriterState) (n : Z) : LimitedWriterState :=
  {| lws_delay := lws_delay self; lws_started := lws_started self; lws_limit := lws_limit self;
     lws_stats := lws_stats self + n |}.

Definition LimitedWriterState_new (now : Z) : LimitedWriterState :=
  {| lws_delay := now; lws_started := now; lws_limit := StreamLimiter_default; lws_stats := 0 |}.

Definition LimitedWriterState_local_limited (shift_millis max_bytes now rand : Z) : pure LimitedWriterState :=
  let? limit := StreamLimiter_with_local shift_millis max_bytes rand in
  Ok {| lws_delay := now; lws_started := now; lws_limit := limit; lws_stats := 0 |}.

Definition lws_add_global_limiter (self : LimitedWriterState) (limiter : nat) (group : GlobalLimitGroup)
  : LimitedWriterState :=
  lws_set_limit self (add_global (lws_limit self) limiter group).

Definition lws_retain_global_limiter_by_group (self : LimitedWriterState) (group : GlobalLimitGroup)
  : prog LimitedWriterState :=
  let! limit := retain_global_by_group (lws_limit self) group in Ret (lws_set_limit self limit).

Definition lws_reset_local_limit (self : LimitedWriterState) (shift_millis max_bytes now : Z) : pure LimitedWriterState :=
  let? limit := StreamLimiter_reset_local (lws_limit self) shift_millis max_bytes (saturating_sub now (lws_started self)) in
  Ok (lws_set_limit self limit).

(** The slice [&buf[..len]] is taken before the writer is called. *)
Definition LimitedWriterState_poll_write (self : LimitedWriterState) (w : writer) (now : Z) (buf : bytes)
  : prog (poll (option Z) * (LimitedWriterState * writer)) :=
  if sl_is_set (lws_limit self) then
    let dur := saturating_sub now (lws_started self) in
    let! '(a, limit) := StreamLimiter_check (lws_limit self) dur (len buf) in
    let self := lws_set_limit self limit in
    match a with
    | AdvanceBy n =>
        let! part := plift (slice buf 0 n) in
        match poll_write w part with
        | (Ready (Some nw), w) =>
            let! limit := StreamLimiter_set_advance (lws_limit self) nw in
            Ret (Ready (Some nw), (lws_add_write_bytes (lws_set_limit self limit) nw, w))
        | (r, w) =>
            let! limit := release_global (lws_limit self) in
            Ret (r, (lws_set_limit self limit, w))
        end
    | DelayUntil t => Ret (Pending, (lws_set_delay self t, w))
    | DelayFor ms => Ret (Pending, (lws_set_delay self (lws_started self + (dur + ms)), w))
    end
  else
    match poll_write w buf with
    | (Ready (Some nw), w) => Ret (Ready (Some nw), (lws_add_write_bytes self nw, w))
    | (r, w) => Ret (r, (self, w))
    end.

(** ** Clients of shared buckets

    A client holds a program for each of its requests; [cl_spent] are the tokens
    of each bucket that it has used up.  [cl_ok c0 c]: the client [c] has come
    out of [c0] by requests. *)
Class Client (C : Type) : Type := {
  cl_request : Type;
  cl_valid : C -> cl_request -> bool;
  cl_poll : C -> cl_request -> prog C;
  cl_spent : C -> ledger
}.

(** What a client promises: no request fails, and between requests it holds no
    tokens beside the spent ones; it has not less than these in between. *)
Class ClientLaws (C : Type) `{Client C} : Type := {
  cl_ok : C -> C -> Prop;
  cl_poll_ok c0 c q :
    cl_ok c0 c -> cl_valid c q = true ->
    holds (cl_spent c) (cl_poll c q) (cl_spent c) (fun c' led => cl_ok c0 c' /\ forall i, led i = cl_spent c' i)
}.

(** Different kinds of clients can share buckets. *)
#[export] Instance sum_Client {C D} `{Client C, Client D} : Client (C + D) := {|
  cl_request := (cl_request (C := C) + cl_request (C := D))%type;
  cl_valid x q :=
    match x, q with
    | inl c, inl q => cl_valid c q
    | inr d, inr q => cl_valid d q
    | _, _ => false
    end;
  cl_poll x q :=
    match x, q with
    | inl c, inl q => let! c := cl_poll c q in Ret (inl c)
    | inr d, inr q => let! d := cl_poll d q in Ret (inr d)
    | _, _ => Crash
    end;
  cl_spent x := match x with inl c => cl_spent c | inr d => cl_spent d end
|}.

Definition sum_ok {C D} `{ClientLaws C, ClientLaws D} (x y : C + D) : Prop :=
  match x, y with
  | inl c0, inl c => cl_ok c0 c
  | inr d0, inr d => cl_ok d0 d
  | _, _ => False
  end.

Lemma sum_poll_ok {C D} `{ClientLaws C, ClientLaws D} (x0 x : C + D) q :
  sum_ok x0 x -> cl_valid x q = true ->
  holds (cl_spent x) (cl_poll x q) (cl_spent x) (fun x' led => sum_ok x0 x' /\ forall i, led i = cl_spent x' i).
Proof.
  destruct x0 as [c0|d0], x as [c|d], q as [q|q]; try done; cbn; intros Hx Hq.
  - eapply holds_seq; [by apply (cl_poll_ok c0)|]. intros c' led Hc. exact Hc.
  - eapply holds_seq; [by apply (cl_poll_ok d0)|]. intros d' led Hd. exact Hd.
Qed.

#[export] Instance sum_ClientLaws {C D} `{ClientLaws C, ClientLaws D} : ClientLaws (C + D) :=
  {| cl_ok := sum_ok; cl_poll_ok := sum_poll_ok |}.

(** ** Clients and buckets together *)

(** A client that runs a program is shown with its state before the request. *)
Inductive phase (C : Type) : Type :=
  | Idle (c : C)
  | Polling (c : C) (p : prog C).
Arguments Idle {C}.
Arguments Polling {C}.

Definition phase_client {C} (ph : phase C) : C := match ph with Idle c | Polling c _ => c end.

(** [sy_given]: the tokens a bucket started with or was offered by its
    replenishment; [sy_excess]: how many of them, or of the tokens given back,
    were above the burst size of the bucket at that time. *)
Record sys (C : Type) : Type := {
  sy_store : nat -> GlobalStreamLimiter;
  sy_conns : list (phase C);
  sy_given : ledger;
  sy_excess : ledger
}.
Arguments sy_store {C}.
Arguments sy_conns {C}.
Arguments sy_given {C}.
Arguments sy_excess {C}.

Section system.
Context {C : Type} `{Client C}.

(** What can happen next: a client gets a request, it runs one operation of
    its program or ends it, the task of a bucket adds tokens, and a bucket
    gets a new configuration. *)
Inductive action : Type :=
  | ARequest (c : nat) (q : cl_request)
  | AStep (c : nat)
  | AReplenish (i : nat) (config : GlobalStreamSpeedLimitConfig) (now : Z)
  | AUpdate (i : nat) (config : GlobalStreamSpeedLimitConfig).

Definition set_bucket (sy : sys C) (i : nat) (b : GlobalStreamLimiter) (conns : list (phase C)) (given over : Z)
  : sys C :=
  {| sy_store := fun j => if decide (j = i) then b else sy_store sy j; sy_conns := conns;
     sy_given := credit (sy_given sy) i given; sy_excess := credit (sy_excess sy) i over |}.

Definition set_conns (sy : sys C) (conns : list (phase C)) : sys C :=
  {| sy_store := sy_store sy; sy_conns := conns; sy_given := sy_given sy; sy_excess := sy_excess sy |}.

(** Of [n] tokens for a bucket that holds [tokens], those above [max_burst]. *)
Definition excess (tokens n max_burst : Z) : Z := Z.max 0 (Z.min n (tokens + n - max_burst)).

Definition config_okb (config : GlobalStreamSpeedLimitConfig) : bool :=
  (0 <=? gsc_replenish_bytes config) && (gsc_replenish_bytes config <=? isize_max) &&
  (0 <=? gsc_max_burst_bytes config) && (gsc_max_burst_bytes config <=? isize_max).

Definition step_client (sy : sys C) (c : nat) (x : C) (p : prog C) : option (sys C) :=
  let put ph := <[c := ph]> (sy_conns sy) in
  match p with
  | Ret x' => Some (set_conns sy (put (Idle x')))
  | Crash => None
  | DoCheck i n k =>
      match GlobalStreamLimiter_check (sy_store sy i) n with
      | Ok (r, b) => Some (set_bucket sy i b (put (Polling x (k r))) 0 0)
      | _ => None
      end
  | DoRelease i n k =>
      match GlobalStreamLimiter_release (sy_store sy i) n with
      | Ok b =>
          let old := sy_store sy i in
          Some (set_bucket sy i b (put (Polling x k)) 0 (excess (gs_byte_tokens old) n (gsc_max_burst_bytes (gs_config old))))
      | _ => None
      end
  end.

Definition sys_step (sy : sys C) (a : action) : option (sys C) :=
  match a with
  | ARequest c q =>
      match sy_conns sy !! c with
      | Some (Idle x) =>
          if cl_valid x q then Some (set_conns sy (<[c := Polling x (cl_poll x q)]> (sy_conns sy))) else None
      | _ => None
      end
  | AStep c =>
      match sy_conns sy !! c with
      | Some (Polling x p) => step_client sy c x p
      | _ => None
      end
  | AReplenish i config now =>
      if config_okb config then
        match replenish (sy_store sy i) config now with
        | Ok b =>
            let n := gsc_replenish_bytes config in
            Some (set_bucket sy i b (sy_conns sy) n (excess (gs_byte_tokens (sy_store sy i)) n (gsc_max_burst_bytes config)))
        | _ => None
        end
      else None
  | AUpdate i config =>
      if config_okb config
      then Some (set_bucket sy i (GlobalStreamLimiter_update (sy_store sy i) config) (sy_conns sy) 0 0)
      else None
  end.

(** What may happen in a state: idle clients get valid requests, programs go on,
    and the tasks of the buckets run with valid configurations at any time. *)
Definition enabled (sy : sys C) (a : action) : Prop :=
  match a with
  | ARequest c q => exists x, sy_conns sy !! c = Some (Idle x) /\ cl_valid x q = true
  | AStep c => exists x p, sy_conns sy !! c = Some (Polling x p)
  | AReplenish _ config _ | AUpdate _ config => config_okb config = true
  end.

Inductive reachable (sy0 : sys C) : sys C -> Prop :=
  | reach_refl : reachable sy0 sy0
  | reach_step sy a sy' : reachable sy0 sy -> sys_step sy a = Some sy' -> reachable sy0 sy'.

Fixpoint run_actions (sy : sys C) (l : list action) : option (sys C) :=
  match l with
  | [] => Some sy
  | a :: l => match sys_step sy a with Some sy => run_actions sy l | None => None end
  end.

Lemma run_reachable sy0 sy l sy' : reachable sy0 sy -> run_actions sy l = Some sy' -> reachable sy0 sy'.
Proof.
  revert sy. induction l as [|a l IH]; cbn; intros sy Hr Hs; [by injection Hs as <-|].
  destruct (sys_step sy a) as [sy1|] eqn:Ha; [|done]. by apply (IH sy1); [eapply reach_step|].
Qed.

(** The tokens of a bucket that the clients have spent. *)
Definition spent (conns : list (phase C)) (i : nat) : Z :=
  foldr Z.add 0 (map (fun ph => cl_spent (phase_client ph) i) conns).

Definition total (leds : list ledger) (i : nat) : Z := foldr Z.add 0 (map (fun led => led i) leds).

(** Buckets with some tokens, and clients that have spent nothing. *)
Definition start (store : nat -> GlobalStreamLimiter) (clients : list C) : sys C := {|
  sy_store := store;
  sy_conns := map Idle clients;
  sy_given := fun i => gs_byte_tokens (store i);
  sy_excess := fun _ => 0
|}.
End system.
Arguments action C {_}.

Section conservation.
Context {C : Type} `{ClientLaws C} (clients : list C).

Definition conn_ok (c0 : C) (ph : phase C) (led : ledger) : Prop :=
  match ph with
  | Idle c => cl_ok c0 c /\ forall i, led i = cl_spent c i
  | Polling c p =>
      cl_ok c0 c /\ (forall i, cl_spent c i <= led i) /\
      holds (cl_spent c) p led (fun c' led' => cl_ok c0 c' /\ forall i, led' i = cl_spent c' i)
  end.

Definition conns_ok (conns : list (phase C)) (leds : list ledger) : Prop :=
  length conns = length clients /\ length leds = length clients /\
  forall j ph, conns !! j = Some ph -> exists c0 led, clients !! j = Some c0 /\ leds !! j = Some led /\ conn_ok c0 ph led.

Record sys_inv (sy : sys C) (leds : list ledger) : Prop := {
  sv_conns : conns_ok (sy_conns sy) leds;
  sv_buckets : forall i, bucket_ok (sy_store sy i);
  sv_excess : forall i, 0 <= sy_excess sy i;
  sv_tokens : forall i, gs_byte_tokens (sy_store sy i) + total leds i + sy_excess sy i = sy_given sy i
}.

Lemma conns_ok_update conns leds j ph c0 led ph' led' :
  conns_ok conns leds -> conns !! j = Some ph -> clients !! j = Some c0 -> leds !! j = Some led ->
  conn_ok c0 ph' led' ->
  conns_ok (<[j := ph']> conns) (<[j := led']> leds).
Proof.
  intros (Hl1 & Hl2 & Hc) Hj Hc0 Hled Hok. split_and!; [by rewrite length_insert..|]. intros j' ph1 Hj'.
  destruct (decide (j' = j)) as [->|Hne].
  - apply list_lookup_insert_Some in Hj' as [(_ & <- & _)|[? _]]; [|done].
    exists c0, led'. split_and!; [done| |done]. apply list_lookup_insert_eq. by eapply lookup_lt_Some.
  - rewrite list_lookup_insert_ne in Hj' by done. destruct (Hc _ _ Hj') as (c1 & led1 & H1 & H2 & H3).
    exists c1, led1. by rewrite list_lookup_insert_ne.
Qed.

Lemma total_insert leds j led led' i :
  leds !! j = Some led -> total (<[j := led']> leds) i = total leds i - led i + led' i.
Proof.
  unfold total. revert j. induction leds as [|l leds IH]; intros [|j] Hj; [done|done| |].
  - injection Hj as ->. cbn. lia.
  - change (<[S j := led']> (l :: leds)) with (l :: <[j := led']> leds). cbn [map foldr]. rewrite (IH j Hj). lia.
Qed.

Lemma config_okb_ok config : config_okb config = true -> config_ok config.
Proof. unfold config_okb, config_ok. intros Hc. bool_to_prop. lia. Qed.

(** One operation of a client. *)
Lemma step_client_ok sy leds c x p c0 led :
  sys_inv sy leds -> sy_conns sy !! c = Some (Polling x p) -> clients !! c = Some c0 -> leds !! c = Some led ->
  conn_ok c0 (Polling x p) led ->
  exists sy' led', step_client sy c x p = Some sy' /\ sys_inv sy' (<[c := led']> leds).
Proof.
  intros [Hc Hb Hl Ht] Hx Hc0 Hled (Hok & Hfl & Hp). destruct p as [x'| |i n k|i n k]; cbn in Hp; [|done|..].
  - do 2 eexists. split; [reflexivity|]. split; cbn; [by eapply conns_ok_update|done..|].
    intros i. rewrite (total_insert _ _ _ _ _ Hled), <- Ht. lia.
  - destruct Hp as [Hn Hp]. destruct (GlobalStreamLimiter_check_answers _ n (Hb i)) as (r & b & He & Ha & Hb' & Htk); [lia|].
    cbn. rewrite He. do 2 eexists. split; [reflexivity|]. split; cbn.
    + eapply conns_ok_update; [done..|]. split_and!; [done| |exact (Hp r Ha)].
      intros j. specialize (Hfl j). destruct Ha as [Ha _]. ledger_lia.
    + intros j. by case_decide.
    + intros j. specialize (Hl j). ledger_lia.
    + intros j. rewrite (total_insert _ _ _ _ _ Hled). specialize (Ht j). ledger_lia.
  - destruct Hp as (Hn & Hf & Hp). destruct (GlobalStreamLimiter_release_spec _ n (Hb i) Hn) as (b & He & Hb' & _ & Htk).
    cbn. rewrite He. do 2 eexists. split; [reflexivity|]. split; cbn.
    + eapply conns_ok_update; [done..|]. split_and!; [done| |exact Hp]. intros j. specialize (Hfl j). ledger_lia.
    + intros j. by case_decide.
    + intros j. specialize (Hl j). unfold excess. ledger_lia.
    + intros j. rewrite (total_insert _ _ _ _ _ Hled). specialize (Ht j). unfold excess. ledger_lia.
Qed.

Lemma sys_inv_step sy leds a sy' :
  sys_inv sy leds -> sys_step sy a = Some sy' -> exists leds', sys_inv sy' leds'.
Proof.
  intros Hi Hs. pose proof Hi as [Hc Hb Hl Ht]. destruct a as [c q|c|i config now|i config]; cbn in Hs.
  - destruct (sy_conns sy !! c) as [[x|x p]|] eqn:Hx; [|done..]. destruct (cl_valid x q) eqn:Hv; [|done].
    injection Hs as <-. destruct (proj2 (proj2 Hc) _ _ Hx) as (c0 & led & Hc0 & Hled & Hok & Hsp).
    exists (<[c := cl_spent x]> leds). split; cbn; [|done..|].
    + eapply conns_ok_update; [done..|]. split_and!; [done|done|by apply cl_poll_ok].
    + intros i. rewrite (total_insert _ _ _ _ _ Hled), <- Ht, Hsp. lia.
  - destruct (sy_conns sy !! c) as [[x|x p]|] eqn:Hx; [done| |done].
    destruct (proj2 (proj2 Hc) _ _ Hx) as (c0 & led & Hc0 & Hled & Hok).
    destruct (step_client_ok _ _ _ _ _ _ _ Hi Hx Hc0 Hled Hok) as (sy1 & led' & He & Hi'). rewrite He in Hs.
    injection Hs as <-. by eexists.
  - destruct (config_okb config) eqn:Hcf; [|done]. apply config_okb_ok in Hcf.
    destruct (replenish_spec _ _ now (Hb i) Hcf) as (b & He & Hb' & _ & Htk). rewrite He in Hs. injection Hs as <-.
    pose proof (proj1 Hcf). exists leds. split; cbn; [done|intros j; by case_decide|..].
    + intros j. specialize (Hl j). unfold excess. ledger_lia.
    + intros j. specialize (Ht j). unfold excess. ledger_lia.
  - destruct (config_okb config) eqn:Hcf; [|done]. apply config_okb_ok in Hcf. injection Hs as <-.
    exists leds. split; cbn; [done| |intros j; specialize (Hl j); ledger_lia|intros j; specialize (Ht j); ledger_lia; cbn; lia].
    intros j. case_decide; [|done]. split; [apply (Hb i)|done].
Qed.

(** No step that may happen panics. *)
Lemma enabled_steps sy leds a : sys_inv sy leds -> enabled sy a -> sys_step sy a <> None.
Proof.
  intros Hi Ha. pose proof Hi as [Hc Hb _ _]. destruct a as [c q|c|i config now|i config]; cbn in Ha |- *.
  - destruct Ha as (x & -> & ->). done.
  - destruct Ha as (x & p & Hx). rewrite Hx. destruct (proj2 (proj2 Hc) _ _ Hx) as (c0 & led & Hc0 & Hled & Hok).
    by destruct (step_client_ok _ _ _ _ _ _ _ Hi Hx Hc0 Hled Hok) as (sy' & led' & -> & _).
  - rewrite Ha. destruct (replenish_spec _ config now (Hb i)) as (b & -> & _); [by apply config_okb_ok|done].
  - by rewrite Ha.
Qed.

Lemma reachable_inv store sy :
  (forall i, bucket_ok (store i)) -> Forall (fun c => cl_ok c c /\ forall i, cl_spent c i = 0) clients ->
  reachable (start store clients) sy -> exists leds, sys_inv sy leds.
Proof.
  intros Hb Hc. induction 1 as [|sy a sy' _ [leds IH] Hs]; [|by eapply sys_inv_step].
  exists (map (fun _ _ => 0) clients). split; cbn; [|done..|].
  - split_and!; [by rewrite length_map..|]. intros j ph Hj. apply list_lookup_fmap_Some in Hj as (c0 & -> & Hj).
    rewrite Forall_lookup in Hc. destruct (Hc _ _ Hj) as [Hok Hsp].
    exists c0, (fun _ => 0). split_and!; [done| |by split; [|intros i; rewrite Hsp]]. by rewrite list_lookup_fmap, Hj.
  - intros i. assert (total (map (fun _ _ => 0) clients) i = 0); [|lia].
    clear Hc. unfold total. induction clients; cbn in *; lia.
Qed.

(** What the clients have spent, against what they hold. *)
Lemma spent_total conns leds i :
  conns_ok conns leds -> spent conns i <= total leds i /\
    (Forall (fun ph => exists c, ph = Idle c) conns -> spent conns i = total leds i).
Proof.
  intros (Hl1 & Hl2 & Hc). assert (Hp : forall j ph (led : ledger), conns !! j = Some ph -> leds !! j = Some led ->
    cl_spent (phase_client ph) i <= led i /\ ((exists c, ph = Idle c) -> cl_spent (phase_client ph) i = led i)).
  { intros j ph led Hj Hled. destruct (Hc _ _ Hj) as (c0 & led1 & _ & Hled1 & Hok). rewrite Hled in Hled1. injection Hled1 as <-.
    destruct ph as [c|c p]; cbn in *; [destruct Hok as [_ Hsp]; specialize (Hsp i); split; intros; lia|]. split; [apply Hok|]. by intros [? ?]. }
  assert (Hl : length conns = length leds) by congruence. clear Hc Hl1 Hl2. unfold spent, total.
  revert leds Hl Hp. induction conns as [|ph conns IH]; intros [|led leds] Hl Hp; try done.
  destruct (Hp 0%nat ph led eq_refl eq_refl) as [Hle Heq].
  destruct (IH leds) as [IHle IHeq]; [by injection Hl|intros j; exact (Hp (S j))|]. cbn. split; [lia|].
  intros [Hi Hr]%Forall_cons. specialize (Heq Hi). specialize (IHeq Hr). lia.
Qed.
End conservation.

(** ** Limited readers as clients *)

(** A reader with the stream below it as it was at the start, its local limit,
    what it has delivered at which time, and the time of its last poll, in
    milliseconds since its start. *)
Record reader_conn (R : Type) : Type := {
  rc_stream : bytes;
  rc_shift : Z;
  rc_max : Z;
  rc_reader : LimitedReader R;
  rc_log : list (Z * bytes);
  rc_time : Z
}.
Arguments rc_stream {R}.
Arguments rc_shift {R}.
Arguments rc_max {R}.
Arguments rc_reader {R}.
Arguments rc_log {R}.
Arguments rc_time {R}.

Definition log_sizes (log : list (Z * bytes)) : list (Z * Z) := map (fun e => (e.1, len e.2)) log.
Definition log_data (log : list (Z * bytes)) : bytes := concat (map snd log).

Lemma log_data_snoc log t c : log_data (log ++ [(t, c)]) = log_data log ++ c.
Proof. unfold log_data. rewrite map_app, concat_app. cbn. by rewrite app_nil_r. Qed.

Lemma log_sizes_snoc log t c : log_sizes (log ++ [(t, c)]) = log_sizes log ++ [(t, len c)].
Proof. apply map_app. Qed.

Arguments log_data : simpl never.
Arguments log_sizes : simpl never.

Section reader_client.
Context {R : Type} `{AsyncReadLaws R}.

Definition rc_limit (c : reader_conn R) : StreamLimiter := lrs_limit (lr_state (rc_reader c)).
Definition rc_dur (c : reader_conn R) (now : Z) : Z := dur_millis (lr_state (rc_reader c)) now.

Definition rc_valid (c : reader_conn R) (q : Z * Z) : bool :=
  let '(now, room) := q in
  (rc_time c <=? rc_dur c now) && (rc_dur c now + 4096 <=? u64_max) && (0 <? room) && (room <=? isize_max).

Definition rc_poll (c : reader_conn R) (q : Z * Z) : prog (reader_conn R) :=
  let '(now, room) := q in
  let! '(r, lr) := LimitedReader_poll_read (rc_reader c) now room in
  Ret {| rc_stream := rc_stream c; rc_shift := rc_shift c; rc_max := rc_max c; rc_reader := lr;
         rc_log := match r with Ready (Ok d) => rc_log c ++ [(rc_dur c now, d)] | _ => rc_log c end;
         rc_time := rc_dur c now |}.

Definition rc_spent (c : reader_conn R) (i : nat) : Z := len (log_data (rc_log c)) * uses (sl_global (rc_limit c)) i.

#[export] Instance reader_Client : Client (reader_conn R) :=
  {| cl_request := Z * Z; cl_valid := rc_valid; cl_poll := rc_poll; cl_spent := rc_spent |}.

Record rc_ok (c0 c : reader_conn R) : Prop := {
  ro_stream : rc_stream c = rc_stream c0;
  ro_shift : rc_shift c = rc_shift c0;
  ro_max : rc_max c = rc_max c0;
  ro_max_le : rc_max c <= u64_max;
  ro_shape : same_shape (rc_limit c0) (rc_limit c);
  ro_unset : sl_is_set (rc_limit c) = false -> sl_local_is_set (rc_limit c) = false /\ sl_global (rc_limit c) = [];
  ro_time : 0 <= rc_time c;
  ro_idle : limiter_idle (rc_shift c) (rc_max c) (rc_limit c) (log_sizes (rc_log c)) (rc_time c);
  ro_source : exists rest, source (lr_inner (rc_reader c)) rest /\ rc_stream c = log_data (rc_log c) ++ rest;
  ro_faulty : faulty (lr_inner (rc_reader c)) -> faulty (lr_inner (rc_reader c0));
  ro_end : [] ∈ map snd (rc_log c) -> faulty (lr_inner (rc_reader c0)) \/ log_data (rc_log c) = rc_stream c;
  ro_stats : lrs_stats (lr_state (rc_reader c)) = len (log_data (rc_log c))
}.

(** The result of a poll as a client. *)
Definition rc_after (c : reader_conn R) (t : Z) (r : poll (res io_error bytes)) (st : LimitedReaderState) (inner : R)
  : reader_conn R :=
  {| rc_stream := rc_stream c; rc_shift := rc_shift c; rc_max := rc_max c;
     rc_reader := {| lr_inner := inner; lr_state := st |};
     rc_log := match r with Ready (Ok d) => rc_log c ++ [(t, d)] | _ => rc_log c end; rc_time := t |}.

(** What a poll of the stream below does to the connection, apart from its limiter. *)
Lemma rc_after_ok c0 c n t st :
  rc_ok c0 c -> 0 < n -> rc_time c <= t ->
  let '(r, inner) := ar_poll_read (lr_inner (rc_reader c)) n in
  let c' := rc_after c t r st inner in
  same_shape (rc_limit c) (lrs_limit st) ->
  (sl_is_set (lrs_limit st) = false -> sl_local_is_set (lrs_limit st) = false /\ sl_global (lrs_limit st) = []) ->
  limiter_idle (rc_shift c) (rc_max c) (lrs_limit st) (log_sizes (rc_log c')) t ->
  lrs_stats st = lrs_stats (lr_state (rc_reader c)) + (match r with Ready (Ok d) => len d | _ => 0 end) ->
  rc_ok c0 c' /\ match r with Ready (Ok d) => len d <= n | Ready Panic => False | _ => True end.
Proof.
  intros [H1 H2 H3 H4 H5 H6 H7 H8 (rest & Hsrc & Hstr) H10 H11 H12] Hn Ht.
  pose proof (source_poll_read _ _ n Hsrc Hn) as Hp.
  destruct (ar_poll_read _ n) as [r inner]. intros c' Hsh Hun Hid Hst. subst c'.
  assert (Hsh' : same_shape (rc_limit c0) (lrs_limit st)) by (by eapply same_shape_trans).
  destruct r as [[d|e|]|]; [| |done|].
  - destruct Hp as (s' & -> & Hlen & Hsrc' & Hf' & He & _). split; [|done].
    split; cbn; try done; try lia; rewrite ?log_data_snoc.
    + exists s'. split; [done|]. by rewrite <- app_assoc.
    + auto.
    + rewrite map_app, elem_of_app. cbn. intros [Hin|Hin%list_elem_of_singleton].
      * destruct (H11 Hin) as [Hf|Hall]; [by left|]. right. rewrite <- Hall in Hstr at 1.
        rewrite <- (app_nil_r (log_data _)) in Hstr at 1. apply app_inv_head in Hstr.
        symmetry in Hstr. apply app_eq_nil in Hstr as [-> _]. by rewrite app_nil_r.
      * destruct (He (eq_sym Hin)) as [Hf|[Hs _]]; [left; auto|]. right.
        apply app_eq_nil in Hs as [-> ->]. by rewrite app_nil_r in *.
    + rewrite Hst, H12. len_lia.
  - destruct Hp as [Hsrc' Hf']. split; [|done]. split; cbn; try done; try lia; [by exists rest|by intros; auto].
  - destruct Hp as (Hsrc' & Hf' & _). split; [|done]. split; cbn; try done; try lia; [by exists rest|by intros; auto].
Qed.

(** A poll that the limiter delays. *)
Lemma rc_delayed_ok c0 c t st :
  rc_ok c0 c -> rc_time c <= t -> same_shape (rc_limit c) (lrs_limit st) ->
  (sl_is_set (lrs_limit st) = false -> sl_local_is_set (lrs_limit st) = false /\ sl_global (lrs_limit st) = []) ->
  limiter_idle (rc_shift c) (rc_max c) (lrs_limit st) (log_sizes (rc_log c)) t ->
  lrs_stats st = lrs_stats (lr_state (rc_reader c)) ->
  rc_ok c0 (rc_after c t Pending st (lr_inner (rc_reader c))).
Proof.
  intros [H1 H2 H3 H4 H5 H6 H7 H8 H9 H10 H11 H12] Ht Hsh Hun Hid Hst.
  split; cbn; try done; try lia. by eapply same_shape_trans.
Qed.

Lemma rc_spent_after c t r st inner i :
  same_shape (rc_limit c) (lrs_limit st) ->
  rc_spent (rc_after c t r st inner) i =
    rc_spent c i + (match r with Ready (Ok d) => len d | _ => 0 end) * uses (sl_global (rc_limit c)) i.
Proof.
  intros (_ & _ & Ha). unfold rc_spent. cbn. rewrite Ha.
  destruct r as [[d|e|]|]; try lia. rewrite log_data_snoc, len_app. lia.
Qed.

(** The poll of the stream below, when the limiter has granted [m] bytes. *)
Section granted.
Context (c0 c : reader_conn R) (Hc : rc_ok c0 c) (m t : Z) (Hm : 0 < m <= isize_max) (Ht : rc_time c <= t).
Context (st : LimitedReaderState) (Hst : lrs_stats st = lrs_stats (lr_state (rc_reader c))).
Context (Hsh : same_shape (rc_limit c) (lrs_limit st)) (Hset : sl_is_set (rc_limit c) = true).
Context (Hck : limiter_checked (rc_shift c) (rc_max c) (lrs_limit st) (log_sizes (rc_log c)) t m).
Context (led : ledger) (Hled : forall i, led i = rc_spent c i + m * uses (sl_global (lrs_limit st)) i).

Definition polled (x : poll (res io_error bytes) * (LimitedReaderState * R)) (led : ledger) : Prop :=
  let '(r, (st, inner)) := x in
  let c' := rc_after c t r st inner in rc_ok c0 c' /\ forall i, led i = rc_spent c' i.

Lemma granted_nothing r inner :
  ar_poll_read (lr_inner (rc_reader c)) m = (r, inner) -> (forall d, r <> Ready (Ok d)) ->
  holds (rc_spent c) (let! limit := release_global (lrs_limit st) in Ret (r, (lrs_set_limit st limit, inner))) led polled.
Proof.
  intros Hr Hno.
  eapply holds_seq; [apply (checked_release _ _ _ _ _ _ m _ (rc_spent c) Hck); [lia|done|done]|].
  intros limit led' (Hsh' & Hid & Hl'). pose proof (same_shape_trans _ _ _ Hsh Hsh') as Hsh2. cbn.
  pose proof (rc_after_ok c0 c m t (lrs_set_limit st limit) Hc) as Hafter. rewrite Hr in Hafter.
  assert (sl_is_set limit = true) as Hset2 by (destruct Hsh2 as (-> & _); done). split.
  - destruct r as [[d|e|]|]; [by destruct (Hno d)|..];
      apply Hafter; try done; try lia; cbn; try lia; by rewrite Hset2.
  - intros i. rewrite rc_spent_after, Hl' by done. destruct r as [[d|e|]|]; [by destruct (Hno d)|lia..].
Qed.

Lemma granted_data d inner :
  ar_poll_read (lr_inner (rc_reader c)) m = (Ready (Ok d), inner) ->
  holds (rc_spent c)
    (let! limit := StreamLimiter_set_advance (lrs_limit st) (len d) in
     Ret (Ready (Ok d), (lrs_add_read_bytes (lrs_set_limit st limit) (len d), inner))) led polled.
Proof.
  intros Hr. assert (Hlen : 0 <= len d <= m).
  { destruct (ro_source _ _ Hc) as (rest & Hsrc & _). pose proof (source_poll_read _ _ m Hsrc) as Hp.
    rewrite Hr in Hp. destruct Hp as (s' & _ & Hp & _); len_lia. }
  eapply holds_seq;
    [apply (StreamLimiter_set_advance_spec _ _ _ (ro_max_le _ _ Hc) _ _ _ m _ _ (rc_spent c) Hck); [lia|lia|done|done]|].
  intros limit led' (Hsh' & Hid & Hl'). pose proof (same_shape_trans _ _ _ Hsh Hsh') as Hsh2. cbn.
  pose proof (rc_after_ok c0 c m t (lrs_add_read_bytes (lrs_set_limit st limit) (len d)) Hc) as Hafter.
  rewrite Hr in Hafter. assert (sl_is_set limit = true) as Hset2 by (destruct Hsh2 as (-> & _); done). split.
  - apply Hafter; try done; try lia; cbn; [by rewrite Hset2|by rewrite log_sizes_snoc|lia].
  - intros i. rewrite rc_spent_after, Hl' by done. by destruct Hsh as (_ & _ & ->).
Qed.
End granted.

Lemma state_poll_ok c0 c now room :
  rc_ok c0 c -> rc_valid c (now, room) = true ->
  holds (rc_spent c) (LimitedReaderState_poll_read (lr_state (rc_reader c)) (lr_inner (rc_reader c)) now room)
    (rc_spent c) (polled c0 c (rc_dur c now)).
Proof.
  intros Hc Hv. unfold rc_valid in Hv. bool_to_prop. pose proof Hc as [_ _ _ Hmax Hsh0 Hun Ht0 Hid _ _ _ _].
  unfold LimitedReaderState_poll_read. fold (rc_limit c). fold (rc_dur c now). set (t := rc_dur c now) in *.
  destruct (sl_is_set (rc_limit c)) eqn:Hset.
  - eapply holds_seq; [eapply StreamLimiter_check_spec; [done|lia..|done]|]. intros [a limit] led (Hsh & Ha).
    assert (Hset' : sl_is_set limit = true) by (destruct Hsh as (-> & _); done).
    destruct a as [m|d|d].
    2, 3: destruct Ha as [Hid' Hled]; split; [apply rc_delayed_ok; [done|lia|done|cbn; by rewrite Hset'|done|done]|];
      intros i; rewrite rc_spent_after by done; rewrite Hled; lia.
    destruct Ha as (Hm & Hm0 & Hck & Hled). cbn zeta.
    assert (Hled' : forall i, led i = rc_spent c i + m * uses (sl_global limit) i).
    { intros i. rewrite Hled. by destruct Hsh as (_ & _ & ->). }
    destruct (ar_poll_read (lr_inner (rc_reader c)) m) as [[[d|e|]|] inner] eqn:Hr.
    1: by apply (granted_data c0 c Hc m t ltac:(lia) ltac:(lia) (lrs_set_limit (lr_state (rc_reader c)) limit)).
    all: by apply (granted_nothing c0 c Hc m t ltac:(lia) ltac:(lia) (lrs_set_limit (lr_state (rc_reader c)) limit)).
  - pose proof (fun st => rc_after_ok c0 c room t st Hc ltac:(lia) ltac:(lia)) as Hafter.
    destruct (ar_poll_read (lr_inner (rc_reader c)) room) as [r inner] eqn:Hr.
    assert (Hidle : limiter_idle (rc_shift c) (rc_max c) (rc_limit c)
      (log_sizes (match r with Ready (Ok d) => rc_log c ++ [(t, d)] | _ => rc_log c end)) t).
    { destruct (Hun eq_refl) as [Hl Hg]. split; [by rewrite Hl|by apply Hid]. }
    destruct r as [[d|e|]|]; (split; [apply Hafter; [done|intros _; by apply Hun|done|cbn; lia]|]); intros i; rewrite rc_spent_after by done;
      destruct (Hun eq_refl) as [_ ->]; cbn; lia.
Qed.

Lemma rc_poll_ok c0 c q :
  rc_ok c0 c -> rc_valid c q = true ->
  holds (rc_spent c) (rc_poll c q) (rc_spent c) (fun c' led => rc_ok c0 c' /\ forall i, led i = rc_spent c' i).
Proof.
  destruct q as [now room]. intros Hc Hv. unfold rc_poll, LimitedReader_poll_read. do 2 apply holds_bind.
  eapply holds_mono; [by apply (state_poll_ok c0)|]. intros [r [st inner]] led Hp. exact Hp.
Qed.

#[export] Instance reader_ClientLaws : ClientLaws (reader_conn R) :=
  {| cl_ok := rc_ok; cl_poll_ok := rc_poll_ok |}.
End reader_client.

(** ** Limited writers as clients *)

(** A writer with what it had received at the start; the log holds what it
    has accepted since then. *)
Record writer_conn : Type := {
  wc_out : bytes;
  wc_shift : Z;
  wc_max : Z;
  wc_state : LimitedWriterState;
  wc_writer : writer;
  wc_log : list (Z * bytes);
  wc_time : Z
}.

Definition wc_limit (c : writer_conn) : StreamLimiter := lws_limit (wc_state c).
Definition wc_dur (c : writer_conn) (now : Z) : Z := saturating_sub now (lws_started (wc_state c)).

Definition wc_valid (c : writer_conn) (q : Z * bytes) : bool :=
  let '(now, buf) := q in
  (wc_time c <=? wc_dur c now) && (wc_dur c now + 4096 <=? u64_max) && (0 <? len buf) && (len buf <=? isize_max).

(** The result of a poll as a client. *)
Definition wc_after (c : writer_conn) (t : Z) (buf : bytes) (r : poll (option Z)) (st : LimitedWriterState) (w : writer)
  : writer_conn :=
  {| wc_out := wc_out c; wc_shift := wc_shift c; wc_max := wc_max c; wc_state := st; wc_writer := w;
     wc_log := match r with Ready (Some n) => wc_log c ++ [(t, take (Z.to_nat n) buf)] | _ => wc_log c end;
     wc_time := t |}.

Definition wc_poll (c : writer_conn) (q : Z * bytes) : prog writer_conn :=
  let '(now, buf) := q in
  let! '(r, (st, w)) := LimitedWriterState_poll_write (wc_state c) (wc_writer c) now buf in
  Ret (wc_after c (wc_dur c now) buf r st w).

Definition wc_spent (c : writer_conn) (i : nat) : Z := len (log_data (wc_log c)) * uses (sl_global (wc_limit c)) i.

#[export] Instance writer_Client : Client writer_conn :=
  {| cl_request := Z * bytes; cl_valid := wc_valid; cl_poll := wc_poll; cl_spent := wc_spent |}.

Record wc_ok (c0 c : writer_conn) : Prop := {
  wk_out : wc_out c = wc_out c0;
  wk_shift : wc_shift c = wc_shift c0;
  wk_max : wc_max c = wc_max c0;
  wk_max_le : wc_max c <= u64_max;
  wk_shape : same_shape (wc_limit c0) (wc_limit c);
  wk_unset : sl_is_set (wc_limit c) = false -> sl_local_is_set (wc_limit c) = false /\ sl_global (wc_limit c) = [];
  wk_time : 0 <= wc_time c;
  wk_idle : limiter_idle (wc_shift c) (wc_max c) (wc_limit c) (log_sizes (wc_log c)) (wc_time c);
  wk_lawful : lawful_writer (wc_writer c);
  wk_written : wr_out (wc_writer c) = wc_out c ++ log_data (wc_log c);
  wk_stats : lws_stats (wc_state c) = len (log_data (wc_log c))
}.

Definition nw_of (r : poll (option Z)) : Z := match r with Ready (Some n) => n | _ => 0 end.

Lemma wc_after_ok c0 c t buf part st :
  wc_ok c0 c -> wc_time c <= t -> part `prefix_of` buf ->
  let '(r, w) := poll_write (wc_writer c) part in
  let c' := wc_after c t buf r st w in
  same_shape (wc_limit c) (lws_limit st) ->
  (sl_is_set (lws_limit st) = false -> sl_local_is_set (lws_limit st) = false /\ sl_global (lws_limit st) = []) ->
  limiter_idle (wc_shift c) (wc_max c) (lws_limit st) (log_sizes (wc_log c')) t ->
  lws_stats st = lws_stats (wc_state c) + nw_of r ->
  wc_ok c0 c'.
Proof.
  intros [H1 H2 H3 H4 H5 H6 H7 H8 H9 H10 H11] Ht [rest ->]. pose proof (poll_write_spec _ part H9) as Hw.
  destruct (poll_write _ part) as [r w]. intros c' Hsh Hun Hid Hst. subst c'.
  assert (Hsh' : same_shape (wc_limit c0) (lws_limit st)) by (by eapply same_shape_trans).
  destruct r as [[n|]|].
  - destruct Hw as (Hl & _ & Hn & Hout & _). assert (Htk : take (Z.to_nat n) (part ++ rest) = take (Z.to_nat n) part).
    { apply take_app_le. unfold len in Hn. lia. }
    split; cbn; try done; try lia; rewrite Htk, log_data_snoc.
    + by rewrite Hout, H10, app_assoc.
    + rewrite len_app, len_take, Hst, H11. cbn. lia.
  - destruct Hw as (Hl & _ & Hout). split; cbn; try done; try lia; [by rewrite Hout|cbn in Hst; lia].
  - destruct Hw as (Hl & _ & Hout & _). split; cbn; try done; try lia; [by rewrite Hout|cbn in Hst; lia].
Qed.

Lemma wc_spent_after c t buf r st w i :
  same_shape (wc_limit c) (lws_limit st) -> 0 <= nw_of r <= len buf ->
  wc_spent (wc_after c t buf r st w) i = wc_spent c i + nw_of r * uses (sl_global (wc_limit c)) i.
Proof.
  intros (_ & _ & Ha) Hn. unfold wc_spent. cbn. rewrite Ha.
  destruct r as [[n|]|]; cbn in *; try lia. rewrite log_data_snoc, len_app, len_take.
  replace (Z.of_nat (Z.to_nat n) `min` len buf) with n by lia. lia.
Qed.

Definition wrote (c0 c : writer_conn) (t : Z) (buf : bytes) (x : poll (option Z) * (LimitedWriterState * writer))
    (led : ledger) : Prop :=
  let '(r, (st, w)) := x in
  let c' := wc_after c t buf r st w in wc_ok c0 c' /\ forall i, led i = wc_spent c' i.

(** The poll of the writer below, when the limiter has granted [m] bytes. *)
Section granted_write.
Context (c0 c : writer_conn) (Hc : wc_ok c0 c) (m t : Z) (buf : bytes) (Hm : 0 <= m <= len buf).
Context (Hbuf : len buf <= isize_max) (Ht : wc_time c <= t).
Context (st : LimitedWriterState) (Hst : lws_stats st = lws_stats (wc_state c)).
Context (Hsh : same_shape (wc_limit c) (lws_limit st)) (Hset : sl_is_set (wc_limit c) = true).
Context (Hck : limiter_checked (wc_shift c) (wc_max c) (lws_limit st) (log_sizes (wc_log c)) t m).
Context (led : ledger) (Hled : forall i, led i = wc_spent c i + m * uses (sl_global (lws_limit st)) i).

Lemma granted_write_nothing r w :
  poll_write (wc_writer c) (take (Z.to_nat m) buf) = (r, w) -> (forall n, r <> Ready (Some n)) ->
  holds (wc_spent c) (let! limit := release_global (lws_limit st) in Ret (r, (lws_set_limit st limit, w))) led
    (wrote c0 c t buf).
Proof using All.
  intros Hr Hno. eapply holds_seq; [apply (checked_release _ _ _ _ _ _ m _ (wc_spent c) Hck); [lia|done|done]|].
  intros limit led' (Hsh' & Hid & Hl'). pose proof (same_shape_trans _ _ _ Hsh Hsh') as Hsh2. cbn.
  pose proof (wc_after_ok c0 c t buf _ (lws_set_limit st limit) Hc Ht (prefix_take _ (Z.to_nat m))) as Hafter.
  rewrite Hr in Hafter. assert (sl_is_set limit = true) as Hset2 by (destruct Hsh2 as (-> & _); done).
  assert (Hnw : nw_of r = 0) by (destruct r as [[n|]|]; [by destruct (Hno n)|done..]). split.
  - destruct r as [[n|]|]; [by destruct (Hno n)|..]; apply Hafter; try done; cbn; try lia; by rewrite Hset2.
  - intros i. rewrite wc_spent_after, Hl', Hnw by (rewrite ?Hnw; try done; len_lia). lia.
Qed.

Lemma granted_write_data n w :
  poll_write (wc_writer c) (take (Z.to_nat m) buf) = (Ready (Some n), w) ->
  holds (wc_spent c)
    (let! limit := StreamLimiter_set_advance (lws_limit st) n in
     Ret (Ready (Some n), (lws_add_write_bytes (lws_set_limit st limit) n, w))) led (wrote c0 c t buf).
Proof using All.
  intros Hr. assert (Hlen : 0 <= n <= m).
  { pose proof (poll_write_spec (wc_writer c) (take (Z.to_nat m) buf) (wk_lawful _ _ Hc)) as Hp. rewrite Hr in Hp.
    destruct Hp as (_ & _ & Hp & _). len_lia. }
  eapply holds_seq;
    [apply (StreamLimiter_set_advance_spec _ _ _ (wk_max_le _ _ Hc) _ _ _ m _ _ (wc_spent c) Hck); [lia|lia|done|done]|].
  intros limit led' (Hsh' & Hid & Hl'). pose proof (same_shape_trans _ _ _ Hsh Hsh') as Hsh2. cbn.
  pose proof (wc_after_ok c0 c t buf _ (lws_add_write_bytes (lws_set_limit st limit) n) Hc Ht (prefix_take _ (Z.to_nat m)))
    as Hafter.
  rewrite Hr in Hafter. assert (sl_is_set limit = true) as Hset2 by (destruct Hsh2 as (-> & _); done). split.
  - apply Hafter; try done; cbn; [by rewrite Hset2| |lia].
    rewrite log_sizes_snoc, len_take. by replace (Z.of_nat (Z.to_nat n) `min` len buf) with n by lia.
  - intros i. rewrite wc_spent_after, Hl' by (try done; cbn; lia). by destruct Hsh as (_ & _ & ->).
Qed.
End granted_write.

Lemma wc_delayed_ok c0 c t buf st :
  wc_ok c0 c -> wc_time c <= t -> same_shape (wc_limit c) (lws_limit st) ->
  (sl_is_set (lws_limit st) = false -> sl_local_is_set (lws_limit st) = false /\ sl_global (lws_limit st) = []) ->
  limiter_idle (wc_shift c) (wc_max c) (lws_limit st) (log_sizes (wc_log c)) t ->
  lws_stats st = lws_stats (wc_state c) ->
  wc_ok c0 (wc_after c t buf Pending st (wc_writer c)).
Proof.
  intros [H1 H2 H3 H4 H5 H6 H7 H8 H9 H10 H11] Ht Hsh Hun Hid Hst.
  split; cbn; try done; try lia. by eapply same_shape_trans.
Qed.

Lemma state_write_ok c0 c now buf :
  wc_ok c0 c -> wc_valid c (now, buf) = true ->
  holds (wc_spent c) (LimitedWriterState_poll_write (wc_state c) (wc_writer c) now buf) (wc_spent c)
    (wrote c0 c (wc_dur c now) buf).
Proof.
  intros Hc Hv. unfold wc_valid in Hv. bool_to_prop. pose proof Hc as [_ _ _ Hmax _ Hun Ht0 Hid Hlw _ _].
  unfold LimitedWriterState_poll_write. fold (wc_limit c). fold (wc_dur c now). set (t := wc_dur c now) in *.
  destruct (sl_is_set (wc_limit c)) eqn:Hset.
  - eapply holds_seq; [eapply StreamLimiter_check_spec; [done|lia..|done]|]. intros [a limit] led (Hsh & Ha).
    assert (Hset' : sl_is_set limit = true) by (destruct Hsh as (-> & _); done).
    destruct a as [m|d|d].
    2, 3: destruct Ha as [Hid' Hled]; split; [apply wc_delayed_ok; [done|lia|done|cbn; by rewrite Hset'|done|done]|];
      intros i; rewrite wc_spent_after by (try done; cbn; lia); rewrite Hled; cbn; lia.
    destruct Ha as (Hm & Hm0 & Hck & Hled). cbn zeta.
    assert (Hled' : forall i, led i = wc_spent c i + m * uses (sl_global limit) i).
    { intros i. rewrite Hled. by destruct Hsh as (_ & _ & ->). }
    rewrite slice_ok by lia. cbn [plift pbind]. rewrite Z.sub_0_r. change (drop (Z.to_nat 0) buf) with buf.
    destruct (poll_write (wc_writer c) (take (Z.to_nat m) buf)) as [[[n|]|] w] eqn:Hr.
    1: by apply (granted_write_data c0 c Hc m t buf Hm ltac:(lia) ltac:(lia) (lws_set_limit (wc_state c) limit)).
    all: by apply (granted_write_nothing c0 c Hc m t buf Hm ltac:(lia) ltac:(lia) (lws_set_limit (wc_state c) limit)).
  - pose proof (fun st => wc_after_ok c0 c t buf buf st Hc ltac:(lia) ltac:(done)) as Hafter.
    pose proof (poll_write_spec (wc_writer c) buf Hlw) as Hw.
    destruct (poll_write (wc_writer c) buf) as [r w] eqn:Hr.
    assert (Hidle : limiter_idle (wc_shift c) (wc_max c) (wc_limit c)
      (log_sizes (match r with Ready (Some n) => wc_log c ++ [(t, take (Z.to_nat n) buf)] | _ => wc_log c end)) t).
    { destruct (Hun eq_refl) as [Hl Hg]. split; [by rewrite Hl|by apply Hid]. }
    assert (Hnw : 0 <= nw_of r <= len buf) by (destruct r as [[n|]|]; cbn in *; try lia; apply Hw).
    destruct r as [[n|]|]; (split; [apply Hafter; [done|intros _; by apply Hun|done|cbn; lia]|]); intros i;
      rewrite wc_spent_after by done; destruct (Hun eq_refl) as [_ ->]; cbn; lia.
Qed.

Lemma wc_poll_ok c0 c q :
  wc_ok c0 c -> wc_valid c q = true ->
  holds (wc_spent c) (wc_poll c q) (wc_spent c) (fun c' led => wc_ok c0 c' /\ forall i, led i = wc_spent c' i).
Proof.
  destruct q as [now buf]. intros Hc Hv. unfold wc_poll. apply holds_bind.
  eapply holds_mono; [by apply (state_write_ok c0)|]. intros [r [st w]] led Hp. exact Hp.
Qed.

#[export] Instance writer_ClientLaws : ClientLaws writer_conn := {| cl_ok := wc_ok; cl_poll_ok := wc_poll_ok |}.

(** ** Connections at their start

    A local limit and a list of shared buckets with their groups. *)

Definition arc_list := list (nat * GlobalLimitGroup).

Definition reader_start {R} (inner : R) (stream : bytes) (shift max now rand : Z) (arcs : arc_list) : pure (reader_conn R) :=
  let? lr := LimitedReader_local_limited inner shift max now rand in
  Ok {| rc_stream := stream; rc_shift := Z.min shift 12; rc_max := max;
        rc_reader := foldl (fun lr a => LimitedReader_add_global_limiter lr a.1 a.2) lr arcs; rc_log := []; rc_time := 0 |}.

Definition writer_start (w : writer) (shift max now rand : Z) (arcs : arc_list) : pure writer_conn :=
  let? st := LimitedWriterState_local_limited shift max now rand in
  Ok {| wc_out := wr_out w; wc_shift := Z.min shift 12; wc_max := max;
        wc_state := foldl (fun st a => lws_add_global_limiter st a.1 a.2) st arcs; wc_writer := w; wc_log := [];
        wc_time := 0 |}.

Definition limits_ok (shift max rand : Z) : Prop :=
  0 <= shift <= 255 /\ 0 <= max <= u64_max /\ 0 <= rand <= 2 ^ Z.min shift 12.

Definition fresh {R} `{AsyncReadLaws R} (x : reader_conn R + writer_conn) : Prop :=
  match x with
  | inl c => exists inner stream shift max now rand arcs,
      reader_start inner stream shift max now rand arcs = Ok c /\ limits_ok shift max rand /\ source inner stream
  | inr c => exists w shift max now rand arcs,
      writer_start w shift max now rand arcs = Ok c /\ limits_ok shift max rand /\ lawful_writer w
  end.

(** A limiter in its first state. *)
Definition limiter_fresh (s max : Z) (l : StreamLimiter) : Prop :=
  limiter_idle s max l [] 0 /\ (sl_is_set l = false -> sl_local_is_set l = false /\ sl_global l = []).

Lemma with_local_fresh shift max rand :
  limits_ok shift max rand ->
  exists l, StreamLimiter_with_local shift max rand = Ok l /\ limiter_fresh (Z.min shift 12) max l.
Proof.
  intros (Hs & Hm & Hr). unfold StreamLimiter_with_local.
  destruct (LocalStreamLimiter_new_spec shift max rand Hs ltac:(lia) Hr) as (l & -> & Hl). cbn [bind].
  eexists. split; [reflexivity|]. split; [|done]. split; [done|constructor].
Qed.

Lemma add_global_fresh s max l i g : limiter_fresh s max l -> limiter_fresh s max (add_global l i g).
Proof. intros [[Hl Hg] _]. split; [|done]. split; [done|]. apply Forall_app. split; [done|]. by repeat constructor. Qed.

Lemma reader_start_ok {R} `{AsyncReadLaws R} (inner : R) stream shift max now rand arcs c :
  limits_ok shift max rand -> source inner stream -> reader_start inner stream shift max now rand arcs = Ok c ->
  rc_ok c c /\ forall i, rc_spent c i = 0.
Proof.
  intros Hl Hsrc. destruct (with_local_fresh _ _ _ Hl) as (l & Hw & Hf).
  unfold reader_start, LimitedReader_local_limited, LimitedReaderState_local_limited. rewrite Hw. cbn [bind].
  intros [= <-]. match goal with |- context [foldl ?f ?x arcs] => set (F := f); set (lr0 := x) end.
  assert (Hlr : forall lr, limiter_fresh (Z.min shift 12) max (lrs_limit (lr_state lr)) -> lr_inner lr = inner ->
    lrs_stats (lr_state lr) = 0 -> let lr' := foldl F lr arcs in
    limiter_fresh (Z.min shift 12) max (lrs_limit (lr_state lr')) /\ lr_inner lr' = inner /\ lrs_stats (lr_state lr') = 0).
  { induction arcs as [|[i g] arcs IH]; cbn; intros lr H1 H2 H3; [done|]. by apply IH; [apply add_global_fresh|..]. }
  destruct (Hlr lr0 Hf eq_refl eq_refl) as ([Hid Hun] & Hin & Hst). split; [|done].
  destruct Hl as (_ & Hm & _).
  split; cbn; rewrite ?Hin; try done; try lia; [by exists stream|by intros ?%elem_of_nil].
Qed.

Lemma writer_start_ok w shift max now rand arcs c :
  limits_ok shift max rand -> lawful_writer w -> writer_start w shift max now rand arcs = Ok c ->
  wc_ok c c /\ forall i, wc_spent c i = 0.
Proof.
  intros Hl Hlw. destruct (with_local_fresh _ _ _ Hl) as (l & Hw & Hf).
  unfold writer_start, LimitedWriterState_local_limited. rewrite Hw. cbn [bind].
  intros [= <-]. match goal with |- context [foldl ?f ?x arcs] => set (F := f); set (st0 := x) end.
  assert (Hst : forall st, limiter_fresh (Z.min shift 12) max (lws_limit st) -> lws_stats st = 0 ->
    let st' := foldl F st arcs in limiter_fresh (Z.min shift 12) max (lws_limit st') /\ lws_stats st' = 0).
  { induction arcs as [|[i g] arcs IH]; cbn; intros st H1 H2; [done|]. by apply IH; [apply add_global_fresh|..]. }
  destruct (Hst st0 Hf eq_refl) as ([Hid Hun] & Hs). split; [|done]. destruct Hl as (_ & Hm & _).
  split; cbn; try done; try lia. by rewrite app_nil_r.
Qed.

Lemma fresh_ok {R} `{AsyncReadLaws R} (x : reader_conn R + writer_conn) :
  fresh x -> cl_ok x x /\ forall i, cl_spent x i = 0.
Proof.
  destruct x as [c|c]; cbn.
  - intros (inner & stream & shift & max & now & rand & arcs & He & Hl & Hs). by eapply reader_start_ok.
  - intros (w & shift & max & now & rand & arcs & He & Hl & Hs). by eapply writer_start_ok.
Qed.

(** ** A connection alone

    The loop of a task that reads a stream with a local limit to its end: after
    a delay, or when the stream below had nothing, it runs again when the
    deadline has passed, possibly later. *)
Fixpoint read_limited {R} `{AsyncRead R} (fuel : nat) (late : nat -> Z) (room : Z) (lr : LimitedReader R) (now : Z)
  : res io_error bytes * LimitedReader R :=
  match fuel with
  | O => (Panic, lr)
  | S fuel =>
      match LimitedReader_poll_read lr now room with
      | Ret (Ready (Ok []), lr) => (Ok [], lr)
      | Ret (Ready (Ok c), lr) =>
          let '(r, lr) := read_limited fuel late room lr now in (let? rest := r in Ok (c ++ rest), lr)
      | Ret (Ready (Err e), lr) => (Err e, lr)
      | Ret (Pending, lr) => read_limited fuel late room lr (Z.max now (lrs_delay (lr_state lr)) + late fuel)
      | _ => (Panic, lr)
      end
  end.

Section alone.
Context {R : Type} `{AsyncReadLaws R} (c0 : reader_conn R).

(** A reader with a local limit only. *)
Record alone (c : reader_conn R) : Prop := {
  al_ok : rc_ok c0 c;
  al_set : sl_is_set (rc_limit c) = true;
  al_local : sl_local_is_set (rc_limit c) = true;
  al_global : sl_global (rc_limit c) = [];
  al_sound : ~ faulty (lr_inner (rc_reader c0));
  al_max : 0 < rc_max c
}.

Definition full (c : reader_conn R) (t : Z) : bool :=
  in_window (rc_shift c) (t / 2 ^ rc_shift c) (log_sizes (rc_log c)) =? rc_max c.

Lemma alone_poll c now room :
  alone c -> rc_valid c (now, room) = true ->
  let t := rc_dur c now in
  exists r st inner, LimitedReader_poll_read (rc_reader c) now room = Ret (r, {| lr_inner := inner; lr_state := st |}) /\
    alone (rc_after c t r st inner) /\ lrs_started st = lrs_started (lr_state (rc_reader c)) /\
    if full c t then
      r = Pending /\ inner = lr_inner (rc_reader c) /\
      lrs_delay st = lrs_started st + (t + (2 ^ rc_shift c - t mod 2 ^ rc_shift c))
    else
      lrs_delay st = lrs_delay (lr_state (rc_reader c)) /\
      exists m, 0 < m /\ ar_poll_read (lr_inner (rc_reader c)) m = (r, inner).
Proof.
  intros [Hok Hset Hloc Hgl Hsd Hmx] Hv t. pose proof (state_poll_ok c0 c now room Hok Hv) as Hp.
  unfold rc_valid in Hv. bool_to_prop. pose proof (id_local _ _ _ _ _ (ro_idle _ _ Hok) Hloc) as Hl.
  destruct (LocalStreamLimiter_check_spec _ _ _ _ _ t room Hl) as (a & l & Hch & Hl' & Hat & Hcur & Ha);
    [pose proof (ro_time _ _ Hok); subst t; lia..|].
  unfold LimitedReader_poll_read, LimitedReaderState_poll_read in *. fold (rc_limit c) in *. fold (rc_dur c now) in *.
  fold t in Hp |- *. unfold StreamLimiter_check in *. rewrite Hset, Hloc, Hch in *. cbn in Hp |- *. unfold full.
  destruct a as [m|d|d]; [|done|].
  - destruct (Z.eqb_spec (in_window (rc_shift c) (t / 2 ^ rc_shift c) (log_sizes (rc_log c))) (rc_max c)); [lia|].
    cbn in Hp |- *. rewrite Hgl in *. cbn in Hp |- *.
    replace (if m <? room then Ret [] else Ret []) with (@Ret (list GlobalLimiter) []) in * by (by case_match).
    cbn in Hp |- *. destruct (ar_poll_read (lr_inner (rc_reader c)) m) as [r inner] eqn:Hr.
    unfold StreamLimiter_set_advance, release_global in *. cbn in Hp |- *.
    assert (Hm0 : 0 < m) by lia.
    destruct r as [[e|e|]|]; cbn in Hp |- *.
    1: rewrite Hloc in *; destruct (LocalStreamLimiter_set_advance l (len e)) as [l2|[]|]; cbn in Hp |- *; [|done].
    all: do 3 eexists; split; [reflexivity|]; split; [split; [apply Hp|done..]|]; cbn.
    all: split; [done|]; split; [done|]; by exists m.
  - destruct Ha as [-> Hfull]. rewrite Hfull, Z.eqb_refl. do 3 eexists. split; [reflexivity|].
    split; [|by cbn]. split; [apply Hp|done..].
Qed.

Lemma alone_window c :
  alone c -> 1 <= 2 ^ rc_shift c <= 4096 /\ 0 <= rc_time c /\
    window_of (rc_shift c) (lsl_window (sl_local (rc_limit c))) /\ log_until (rc_time c) (log_sizes (rc_log c)).
Proof.
  intros [Hok _ Hloc _ _ _]. pose proof (id_local _ _ _ _ _ (ro_idle _ _ Hok) Hloc) as [Hw _ _ [Hl _] _].
  split_and!; [apply shift_bounds, (wo_shift _ _ Hw)..|by apply (ro_time c0)|done|done].
Qed.

Lemma full_later c now now' :
  alone c -> rc_time c <= now <= now' -> full c now = false -> full c now' = false.
Proof.
  intros Hal Hn. destruct (alone_window c Hal) as (Hs & _ & Hw & Hl). unfold full.
  pose proof (Z.div_le_mono now now' (2 ^ rc_shift c)).
  destruct (Z.eq_dec (now / 2 ^ rc_shift c) (now' / 2 ^ rc_shift c)) as [<-|]; [done|].
  intros _. apply Z.eqb_neq. rewrite (in_window_later _ now); [|by destruct Hw| |lia].
  - pose proof (al_max _ Hal). lia.
  - apply (log_until_le (rc_time c)); [done|lia].
Qed.

(** The deadline of a delay is the start of an empty window. *)
Lemma full_deadline c now now' :
  alone c -> rc_time c <= now -> now + (2 ^ rc_shift c - now mod 2 ^ rc_shift c) <= now' -> full c now' = false.
Proof.
  intros Hal Hn Hn'. destruct (alone_window c Hal) as (Hs & H0' & Hw & Hl). unfold full.
  pose proof (delay_next_window _ _ Hw now ltac:(lia)).
  pose proof (Z.div_le_mono _ now' (2 ^ rc_shift c) ltac:(lia) Hn').
  apply Z.eqb_neq. rewrite (in_window_later _ now); [|by destruct Hw| |lia].
  - pose proof (al_max _ Hal). lia.
  - apply (log_until_le (rc_time c)); [done|lia].
Qed.

(** At the time [now], with [rest] to come, the end is at most [fuel] polls away. *)
Record live (W : Z) (fuel : nat) (c : reader_conn R) (now : Z) (rest : bytes) : Prop := {
  lv_alone : alone c;
  lv_source : source (lr_inner (rc_reader c)) rest;
  lv_stream : rc_stream c = log_data (rc_log c) ++ rest;
  lv_started : lrs_started (lr_state (rc_reader c)) <= now;
  lv_delay : lrs_delay (lr_state (rc_reader c)) <= now;
  lv_time : rc_time c <= now - lrs_started (lr_state (rc_reader c));
  lv_fits : now - lrs_started (lr_state (rc_reader c)) + Z.of_nat fuel * (4096 + W) + 4096 <= u64_max;
  lv_rank : (waits (lr_inner (rc_reader c)) + 2 * length rest +
    (if full c (now - lrs_started (lr_state (rc_reader c))) then 1 else 0) < fuel)%nat
}.

Lemma live_dur W fuel c now rest : live W fuel c now rest -> rc_dur c now = now - lrs_started (lr_state (rc_reader c)).
Proof. intros []. unfold rc_dur, dur_millis, saturating_sub. lia. Qed.

Section live.
Context (W : Z) (HW : 0 <= W) (fuel : nat) (c : reader_conn R) (now : Z) (rest : bytes) (Hlv : live W (S fuel) c now rest).

Abbreviation t := (now - lrs_started (lr_state (rc_reader c))).

(** After a delay of the limiter. *)
Lemma live_delayed st late :
  full c t = true -> 0 <= late <= W -> lrs_started st = lrs_started (lr_state (rc_reader c)) ->
  lrs_delay st = lrs_started st + (t + (2 ^ rc_shift c - t mod 2 ^ rc_shift c)) ->
  let c' := rc_after c t Pending st (lr_inner (rc_reader c)) in
  alone c' -> live W fuel c' (Z.max now (lrs_delay st) + late) rest.
Proof using HW Hlv.
  intros Hf Hlate Hst Hde c' Hal'. destruct Hlv as [Hal Hsrc Hstr H1 H2 H3 H4 H5]. rewrite Hf in H5.
  destruct (alone_window c Hal) as (Hs & H0' & _ & _).
  pose proof (Z.mod_pos_bound t (2 ^ rc_shift c)).
  split; cbn; try done; try lia.
  rewrite (full_deadline c' t); [lia|done|cbn; lia|cbn; lia].
Qed.

(** After a wait for the stream below. *)
Lemma live_waited st inner late :
  full c t = false -> 0 <= late <= W -> lrs_started st = lrs_started (lr_state (rc_reader c)) ->
  lrs_delay st = lrs_delay (lr_state (rc_reader c)) -> source inner rest ->
  (waits inner < waits (lr_inner (rc_reader c)))%nat ->
  let c' := rc_after c t Pending st inner in
  alone c' -> live W fuel c' (Z.max now (lrs_delay st) + late) rest.
Proof using HW Hlv.
  intros Hf Hlate Hst Hde Hsrc' Hw c' Hal'. destruct Hlv as [Hal Hsrc Hstr H1 H2 H3 H4 H5]. rewrite Hf in H5.
  destruct (alone_window c Hal) as (Hs & H0' & _ & _).
  split; cbn; try done; try lia. rewrite (full_later c' t); [lia|done|cbn; lia|exact Hf].
Qed.

(** After some data. *)
Lemma live_data st inner d s' :
  lrs_started st = lrs_started (lr_state (rc_reader c)) -> lrs_delay st = lrs_delay (lr_state (rc_reader c)) ->
  source inner s' -> rest = d ++ s' -> d <> [] -> (waits inner <= waits (lr_inner (rc_reader c)))%nat ->
  let c' := rc_after c t (Ready (Ok d)) st inner in
  alone c' -> live W fuel c' now s'.
Proof using HW Hlv.
  intros Hst Hde Hsrc' Hrest Hd Hw c' Hal'. destruct Hlv as [Hal Hsrc Hstr H1 H2 H3 H4 H5]. subst rest.
  assert (length d <> 0)%nat by (by destruct d). rewrite length_app in H5.
  split; cbn; try done; try lia.
  - by rewrite log_data_snoc, <- app_assoc.
  - destruct (full c t), (full c' _); lia.
Qed.
End live.

Lemma read_limited_spec W fuel late room c now rest :
  live W fuel c now rest -> 0 < room <= isize_max -> (forall i, 0 <= late i <= W) ->
  exists c', alone c' /\ log_data (rc_log c') = rc_stream c0 /\
    read_limited fuel late room (rc_reader c) now = (Ok rest, rc_reader c').
Proof.
  revert c now rest. induction fuel as [|fuel IH]; intros c now rest Hlv Hroom Hlate; [by destruct Hlv; lia|].
  pose proof Hlv as [Hal Hsrc Hstr _ _ Hti Hu _]. pose proof (live_dur _ _ _ _ _ Hlv) as Hdur.
  specialize (Hlate fuel) as Hlf. assert (HW : 0 <= W) by lia.
  assert (Hv : rc_valid c (now, room) = true).
  { unfold rc_valid. rewrite Hdur. repeat (apply andb_true_intro; split); try apply Z.leb_le; try apply Z.ltb_lt; lia. }
  destruct (alone_poll c now room Hal Hv) as (r & st & inner & Hp & Hal' & Hst & Hcase). rewrite Hdur in *.
  cbn [read_limited]. rewrite Hp. destruct (full c _) eqn:Hfull.
  { destruct Hcase as (-> & -> & Hd).
    exact (IH _ _ _ (live_delayed W HW fuel c now rest Hlv st (late fuel) Hfull Hlf Hst Hd Hal') Hroom Hlate). }
  destruct Hcase as (Hd & m & Hm & Hr). pose proof (source_poll_read _ _ m Hsrc Hm) as Hps. rewrite Hr in Hps.
  assert (Hf : ~ faulty (lr_inner (rc_reader c))) by (intros ?%(ro_faulty _ _ (al_ok _ Hal)); by apply (al_sound _ Hal)).
  destruct r as [[d|e|]|]; [|by destruct Hps| done|].
  - destruct Hps as (s' & Hrest & Hlen & Hsrc' & _ & He & Hwt). destruct d as [|b d].
    + destruct (He eq_refl) as [?|[-> _]]; [done|]. eexists. split; [exact Hal'|]. split; [|done].
      cbn. rewrite log_data_snoc, app_nil_r in *. rewrite <- Hstr.
      apply (ro_stream _ _ (al_ok _ Hal)).
    + destruct (IH _ _ _ (live_data W HW fuel c now rest Hlv st inner _ s' Hst Hd Hsrc' Hrest ltac:(done) Hwt Hal') Hroom Hlate)
        as (c' & Hc' & Hdata & Hrl). exists c'. split_and!; [done..|]. cbn in Hrl. by rewrite Hrl, Hrest.
  - destruct Hps as (Hsrc' & _ & Hwt).
    exact (IH _ _ _ (live_waited W HW fuel c now rest Hlv st inner (late fuel) Hfull Hlf Hst Hd Hsrc' Hwt Hal') Hroom Hlate).
Qed.
End alone.

(** ** Readers of a limited size

    A [SizedReader] is a reader of the first bytes of the stream below it. *)
Section sized.
Context {R : Type} `{AsyncReadLaws R}.

Definition sz_source (self : SizedReader R) (s : bytes) : Prop :=
  0 <= sz_cur_size self <= sz_max_size self /\ sz_max_size self <= u64_max /\
  exists f, source (sz_inner self) f /\ s = take (Z.to_nat (sz_max_size self - sz_cur_size self)) f.

Lemma sz_poll_read_laws (self : SizedReader R) s room :
  sz_source self s -> 0 < room ->
  match SizedReader_poll_read self room with
  | (Ready (Ok c), r') =>
      exists s', s = c ++ s' /\ len c <= room /\ sz_source r' s' /\ (faulty (sz_inner r') -> faulty (sz_inner self)) /\
        (c = [] -> faulty (sz_inner self) \/ s = [] /\ (sz_max_size r' <= sz_cur_size r' \/ at_end (sz_inner r'))) /\
        (waits (sz_inner r') <= waits (sz_inner self))%nat
  | (Ready (Err _), r') => sz_source r' s /\ faulty (sz_inner self)
  | (Pending, r') => sz_source r' s /\ (faulty (sz_inner r') -> faulty (sz_inner self)) /\
      (waits (sz_inner r') < waits (sz_inner self))%nat
  | (Ready Panic, _) => False
  end.
Proof.
  intros (Hcur & Hmax & f & Hf & Hs) Hroom. unfold SizedReader_poll_read.
  destruct (Z.leb_spec (sz_max_size self) (sz_cur_size self)).
  { assert (s = []) as ->. { rewrite Hs. by replace (Z.to_nat _) with 0%nat by lia. }
    exists []. split_and!; try done; [unfold len; cbn; lia| |].
    - split_and!; try lia. by exists f.
    - intros _. right. split; [done|]. by left. }
  set (n := Z.min room _). assert (Hn : 0 < n) by (subst n; unfold usize_max, u64_max in *; lia).
  pose proof (source_poll_read _ _ n Hf Hn) as Hp. destruct (ar_poll_read (sz_inner self) n) as [[[c|e|]|] inner]; [| |done|].
  - destruct Hp as (s' & -> & Hlen & Hsrc & Hfa & He & Hw). assert (Hle : len c <= sz_max_size self - sz_cur_size self) by lia.
    exists (take (Z.to_nat (sz_max_size self - (sz_cur_size self + len c))) s'). cbn. split_and!; try done; try lia.
    + rewrite Hs, take_app, take_ge by (unfold len in *; lia). f_equal. f_equal. unfold len in *. lia.
    + split_and!; cbn; try len_lia. by exists s'.
    + intros ->. destruct (He eq_refl) as [?|[Hnil Hend]]; [by left|]. right. split; [|by right].
      rewrite Hs, Hnil. apply take_nil.
  - destruct Hp as [Hsrc Hfa]. split; [|done]. split_and!; cbn; try lia. exists f. by rewrite Z.add_0_r.
  - destruct Hp as (Hsrc & Hfa & Hw). split; [|done]. split_and!; cbn; try lia. exists f. by rewrite Z.add_0_r.
Qed.

#[export] Instance SizedReader_laws : AsyncReadLaws (SizedReader R) := {|
  source := sz_source;
  faulty r := faulty (sz_inner r);
  at_end r := sz_max_size r <= sz_cur_size r \/ at_end (sz_inner r);
  waits r := waits (sz_inner r);
  source_poll_read := sz_poll_read_laws
|}.
End sized.

(** ** Shared and local limits, and progress *)

(** C4: shared limits: connections of any number, readers and writers, share
    token buckets in any way.  In every interleaving of their operations with
    each other, with the replenishment of the buckets and with changes of their
    configuration, the tokens of a bucket and the bytes that have been passed on
    through it never exceed the tokens that the bucket was given; while no
    connection is being polled nothing is missing either, but for the tokens that
    were above the burst size when they were offered or given back.  No operation
    of a connection and no replenishment panics. *)
Theorem shared_limit_respected {R} `{AsyncReadLaws R} (store : nat -> GlobalStreamLimiter)
    (clients : list (reader_conn R + writer_conn)) (sy : sys (reader_conn R + writer_conn)) :
  (forall i, bucket_ok (store i)) -> Forall fresh clients -> reachable (start store clients) sy ->
  (forall i, 0 <= gs_byte_tokens (sy_store sy i) /\ 0 <= sy_excess sy i /\
     gs_byte_tokens (sy_store sy i) + spent (sy_conns sy) i + sy_excess sy i <= sy_given sy i) /\
  (Forall (fun ph => exists c, ph = Idle c) (sy_conns sy) ->
   forall i, gs_byte_tokens (sy_store sy i) + spent (sy_conns sy) i + sy_excess sy i = sy_given sy i) /\
  (forall a, enabled sy a -> sys_step sy a <> None).
Proof.
  intros Hb Hf Hr.
  destruct (reachable_inv clients store sy Hb) as (leds & Hi); [by eapply Forall_impl; [|intros; apply fresh_ok]|done|].
  pose proof Hi as [Hc Hbk Hl Ht]. split_and!.
  - intros i. destruct (Hbk i) as [? _]. pose proof (spent_total clients _ _ i Hc) as [? _].
    specialize (Hl i). specialize (Ht i). lia.
  - intros Hid i. pose proof (spent_total clients _ _ i Hc) as [_ Heq]. rewrite (Heq Hid). apply Ht.
  - intros a. by apply (enabled_steps clients _ leds).
Qed.

(** A reader and a writer that share the buckets 0 and 1. *)
Definition sample_limit : StreamLimiter := Eval vm_compute in
  match StreamLimiter_with_local 10 100 700 with
  | Ok l => add_global (add_global l 0 Server) 1 User
  | _ => StreamLimiter_default
  end.

Definition sample_clients : list (reader_conn reader + writer_conn) := [
  inl {| rc_stream := bs "abcdef"; rc_shift := 10; rc_max := 100;
         rc_reader := {| lr_inner := [Data (bs "abc"); Pend; Data (bs "def")];
           lr_state := {| lrs_delay := 0; lrs_started := 0; lrs_limit := sample_limit; lrs_stats := 0 |} |};
         rc_log := []; rc_time := 0 |};
  inr {| wc_out := []; wc_shift := 10; wc_max := 100;
         wc_state := {| lws_delay := 0; lws_started := 0; lws_limit := sample_limit; lws_stats := 0 |};
         wc_writer := {| wr_writes := [Accept 1]; wr_flushes := []; wr_out := []; wr_flushed := 0 |};
         wc_log := []; wc_time := 0 |} ].

Definition sample_store (i : nat) : GlobalStreamLimiter :=
  GlobalStreamLimiter_new User (GlobalStreamSpeedLimitConfig_per_second 5) 0.

Definition sample_request (c : nat) (q : (Z * Z) + (Z * bytes)) : action (reader_conn reader + writer_conn) :=
  @ARequest (reader_conn reader + writer_conn) (@sum_Client (reader_conn reader) writer_conn reader_Client writer_Client) c q.

(** The reader takes tokens for four bytes and reads three; the writer finds one
    token left and writes one byte. *)
Definition sample_run : list (action (reader_conn reader + writer_conn)) :=
  [sample_request 0 (inl (10, 4)); sample_request 1 (inr (10, bs "xy")); AStep 0; AStep 1; AStep 0; AStep 1; AStep 0; AStep 0;
   AStep 0; AStep 1; AReplenish 0 (GlobalStreamSpeedLimitConfig_per_second 5) 1000].

Lemma sample_fresh : Forall fresh sample_clients.
Proof.
  repeat constructor.
  - exists [Data (bs "abc"); Pend; Data (bs "def")], (bs "abcdef"), 10, 100, 0, 700, [(0%nat, Server); (1%nat, User)].
    split_and!; try reflexivity; split_and!; apply Z.leb_le; reflexivity.
  - exists {| wr_writes := [Accept 1]; wr_flushes := []; wr_out := []; wr_flushed := 0 |}, 10, 100, 0, 700,
      [(0%nat, Server); (1%nat, User)].
    split_and!; try reflexivity; [split_and!; apply Z.leb_le; reflexivity|].
    repeat constructor. apply Z.leb_le. reflexivity.
Qed.

Lemma sample_buckets i : bucket_ok (sample_store i).
Proof. repeat split; cbn; apply Z.leb_le; reflexivity. Qed.

Definition sample_end : sys (reader_conn reader + writer_conn) :=
  match run_actions (start sample_store sample_clients) sample_run with
  | Some sy => sy
  | None => start sample_store sample_clients
  end.

Lemma sample_reachable : reachable (start sample_store sample_clients) sample_end.
Proof.
  unfold sample_end. destruct (run_actions _ sample_run) as [sy|] eqn:Hrun; [|constructor].
  by apply (run_reachable _ (start sample_store sample_clients) sample_run); [constructor|].
Qed.

Lemma sample_idle : Forall (fun ph => exists c, ph = Idle c) (sy_conns sample_end).
Proof. vm_compute. repeat constructor; eexists; reflexivity. Qed.

Lemma shared_limit_respected_witness :
  gs_byte_tokens (sy_store sample_end 0%nat) + spent (sy_conns sample_end) 0%nat + sy_excess sample_end 0%nat =
    sy_given sample_end 0%nat /\
  spent (sy_conns sample_end) 0%nat = 4 /\ sy_given sample_end 0%nat = 10.
Proof.
  split; [|split; vm_compute; reflexivity].
  exact (proj1 (proj2 (shared_limit_respected sample_store sample_clients sample_end sample_buckets sample_fresh
    sample_reachable)) sample_idle 0%nat).
Defined.

(** C12: in the same runs every connection keeps its own limit and its data: no
    window of its limiter sees more bytes than configured; what a reader has
    delivered is the start of its stream, with nothing lost, added or reordered
    by delays, and it reports the end of the stream only there; what has been
    reported as written is what the writer below has received. *)
Theorem limited_streams_correct {R} `{AsyncReadLaws R} (store : nat -> GlobalStreamLimiter)
    (clients : list (reader_conn R + writer_conn)) (sy : sys (reader_conn R + writer_conn)) (j : nat) x0 ph :
  (forall i, bucket_ok (store i)) -> Forall fresh clients -> reachable (start store clients) sy ->
  clients !! j = Some x0 -> sy_conns sy !! j = Some ph ->
  match x0, phase_client ph with
  | inl c0, inl c =>
      (sl_local_is_set (rc_limit c0) = true ->
       forall k, in_window (rc_shift c0) k (log_sizes (rc_log c)) <= rc_max c0) /\
      (exists rest, source (lr_inner (rc_reader c)) rest /\ rc_stream c0 = log_data (rc_log c) ++ rest) /\
      ([] ∈ map snd (rc_log c) -> faulty (lr_inner (rc_reader c0)) \/ log_data (rc_log c) = rc_stream c0) /\
      lrs_stats (lr_state (rc_reader c)) = len (log_data (rc_log c))
  | inr c0, inr c =>
      (sl_local_is_set (wc_limit c0) = true ->
       forall k, in_window (wc_shift c0) k (log_sizes (wc_log c)) <= wc_max c0) /\
      wr_out (wc_writer c) = wc_out c0 ++ log_data (wc_log c) /\
      lws_stats (wc_state c) = len (log_data (wc_log c))
  | _, _ => False
  end.
Proof.
  intros Hb Hf Hr Hx0 Hph.
  destruct (reachable_inv clients store sy Hb) as (leds & Hi); [by eapply Forall_impl; [|intros; apply fresh_ok]|done|].
  destruct (proj2 (proj2 (sv_conns _ _ _ Hi)) _ _ Hph) as (c0 & led & Hc0 & _ & Hok).
  rewrite Hx0 in Hc0. injection Hc0 as <-.
  assert (Hcl : cl_ok x0 (phase_client ph)) by (destruct ph; apply Hok). clear Hok.
  destruct x0 as [c0|c0], (phase_client ph) as [c|c]; [|done|done|]; cbn in Hcl.
  - destruct Hcl as [H1 H2 H3 _ H5 _ _ H8 H9 _ H11 H12]. rewrite <- H1, <- H2, <- H3. split_and!; [|done..].
    intros Hs. apply (id_local _ _ _ _ _ H8). destruct H5 as (_ & -> & _). done.
  - destruct Hcl as [H1 H2 H3 _ H5 _ _ H8 _ H10 H11]. rewrite <- H1, <- H2, <- H3. split_and!; [|done..].
    intros Hs. apply (id_local _ _ _ _ _ H8). destruct H5 as (_ & -> & _). done.
Qed.

Lemma limited_streams_correct_witness :
  match sample_clients !! 0%nat, sy_conns sample_end !! 0%nat with
  | Some (inl c0), Some (Idle (inl c)) =>
      log_data (rc_log c) = bs "abc" /\
      exists rest, source (lr_inner (rc_reader c)) rest /\ rc_stream c0 = log_data (rc_log c) ++ rest
  | _, _ => False
  end.
Proof.
  destruct (sample_clients !! 0%nat) as [[c0|?]|] eqn:H0; [|done|done].
  destruct (sy_conns sample_end !! 0%nat) as [[[c|?]|? ?]|] eqn:H1; [|by vm_compute in H1..].
  split; [vm_compute in H1; injection H1 as <-; reflexivity|].
  apply (limited_streams_correct sample_store sample_clients sample_end 0 (inl c0) (Idle (inl c))
    sample_buckets sample_fresh sample_reachable H0 H1).
Defined.

(** A local limit delays a stream but never holds it up: a task that reads
    a stream through a limited reader, and runs again at the deadline that a
    delay has set or up to [W] milliseconds later, reads the whole stream in a
    bounded number of polls. *)
Theorem limited_reader_completes {R} `{AsyncReadLaws R} (inner : R) (stream : bytes) (shift max now rand W room : Z)
    (late : nat -> Z) (fuel : nat) :
  limits_ok shift max rand -> 0 < shift -> 0 < max -> source inner stream -> ~ faulty inner ->
  0 < room <= isize_max -> (forall i, 0 <= late i <= W) ->
  (waits inner + 2 * length stream < fuel)%nat -> Z.of_nat fuel * (4096 + W) + 4096 <= u64_max ->
  exists lr lr', LimitedReader_local_limited inner shift max now rand = Ok lr /\
    read_limited fuel late room lr now = (Ok stream, lr') /\ lrs_stats (lr_state lr') = len stream.
Proof.
  intros Hl Hs Hm Hsrc Hnf Hroom Hlate Hfuel Hu.
  assert (Hstart : exists c, reader_start inner stream shift max now rand [] = Ok c).
  { unfold reader_start, LimitedReader_local_limited, LimitedReaderState_local_limited.
    destruct (with_local_fresh _ _ _ Hl) as (l & -> & _). by eexists. }
  destruct Hstart as [c Hc]. destruct (reader_start_ok _ _ _ _ _ _ _ _ Hl Hsrc Hc) as [Hok _].
  unfold reader_start, LimitedReader_local_limited, LimitedReaderState_local_limited, StreamLimiter_with_local,
    LocalStreamLimiter_new, LocalStreamLimiter_is_set in *.
  destruct (FixedWindow_new_spec shift None rand) as (w & Hw & Hof); [by apply Hl..|]. rewrite Hw in *. cbn in Hc.
  assert (Hset : FixedWindow_enabled w = true).
  { unfold FixedWindow_enabled. apply Z.ltb_lt. rewrite (wo_delay _ _ Hof). apply (Z.pow_gt_1 2); lia. }
  rewrite Hset in *. injection Hc as <-. cbn [bind]. set (c := {| rc_stream := stream |}) in *.
  assert (Hal : alone c c) by (by split).
  assert (Hlv : live c W fuel c now stream).
  { split; cbn; try done; try lia. rewrite Z.sub_diag. unfold full. cbn. change (log_sizes []) with (@nil (Z * Z)). cbn.
    destruct max; lia. }
  destruct (read_limited_spec c W fuel late room c now stream Hlv Hroom Hlate) as (c' & Hal' & Hdata & Hrl).
  cbn. rewrite Hset. do 2 eexists. split_and!; [reflexivity|exact Hrl|].
  by rewrite (ro_stats _ _ (al_ok _ _ Hal')), Hdata.
Qed.

Lemma limited_reader_completes_witness :
  exists lr lr', LimitedReader_local_limited ([Data (bs "abc"); Pend; Data (bs "def")] : reader) 10 2 0 700 = Ok lr /\
    read_limited 20 (fun _ => 7) 4 lr 0 = (Ok (bs "abcdef"), lr') /\ lrs_stats (lr_state lr') = len (bs "abcdef").
Proof.
  apply (limited_reader_completes ([Data (bs "abc"); Pend; Data (bs "def")] : reader) (bs "abcdef") 10 2 0 700 7 4
    (fun _ => 7) 20).
  - repeat split; apply Z.leb_le; reflexivity.
  - reflexivity.
  - reflexivity.
  - reflexivity.
  - intros Hf. apply Hf. repeat constructor; discriminate.
  - split; [reflexivity|]. apply Z.leb_le. reflexivity.
  - intros _. split; apply Z.leb_le; reflexivity.
  - apply Nat.ltb_lt. reflexivity.
  - apply Z.leb_le. reflexivity.
Defined.
