(* ===== verification/DatagramLimit.v ===== *)
(** Rate limits of datagrams: [lib/vey-io-ext/src/limit/]: the local limit in
    packets and bytes ([fixed_window/datagram.rs]), the token buckets for both
    ([token_bucket/datagram.rs]) and the limiter of a socket ([datagram.rs]).

    A batch of datagrams is given by the vector of its running totals: the sizes
    of the first one, of the first two together, and so on.  The buckets are in
    a store; an operation is modelled as it runs when no other thread uses the
    same bucket meanwhile. *)

From Stdlib Require Import ZArith Lia.
From stdpp Require Import base list.
From Stdlib Require Sorting.Sorted.
From S2P Require Import Prelude Slices Limit.

Definition total_at (v : list Z) (i : Z) : pure Z :=
  if 0 <=? i then match v !! Z.to_nat i with Some x => Ok x | None => Panic end else Panic.

(** ** The local limit *)

Inductive DatagramLimitAction : Type :=
  | Advance (n : Z)
  | DgDelayUntil (t : Z)
  | DgDelayFor (n : Z).

Record LocalDatagramLimiter : Type := {
  ldl_window : FixedWindow;
  ldl_max_packets : Z;
  ldl_max_bytes : Z;
  ldl_time_slice_id : Z;
  ldl_cur_packets : Z;
  ldl_cur_bytes : Z
}.

Definition LocalDatagramLimiter_new (shift_millis max_packets max_bytes rand : Z) : pure LocalDatagramLimiter :=
  let? window := FixedWindow_new shift_millis None rand in
  Ok {| ldl_window := window; ldl_max_packets := max_packets; ldl_max_bytes := max_bytes; ldl_time_slice_id := 0;
        ldl_cur_packets := 0; ldl_cur_bytes := 0 |}.

Definition LocalDatagramLimiter_reset (self : LocalDatagramLimiter) (shift_millis max_packets max_bytes cur_millis : Z)
  : pure LocalDatagramLimiter :=
  let? window := FixedWindow_new shift_millis (Some cur_millis) 0 in
  let? id := slice_id window cur_millis in
  Ok {| ldl_window := window; ldl_max_packets := max_packets; ldl_max_bytes := max_bytes; ldl_time_slice_id := id;
        ldl_cur_packets := 0; ldl_cur_bytes := 0 |}.

Definition LocalDatagramLimiter_is_set (self : LocalDatagramLimiter) : bool := FixedWindow_enabled (ldl_window self).

Definition ldl_set (self : LocalDatagramLimiter) (id packets bytes : Z) : LocalDatagramLimiter :=
  {| ldl_window := ldl_window self; ldl_max_packets := ldl_max_packets self; ldl_max_bytes := ldl_max_bytes self;
     ldl_time_slice_id := id; ldl_cur_packets := packets; ldl_cur_bytes := bytes |}.

(** The first lines of both checks. *)
Definition ldl_roll (self : LocalDatagramLimiter) (id : Z) : LocalDatagramLimiter :=
  if ldl_time_slice_id self =? id then self else ldl_set self id 0 0.

Definition ldl_delay (self : LocalDatagramLimiter) (cur_millis : Z) : pure (DatagramLimitAction * LocalDatagramLimiter) :=
  let? d := window_delay (ldl_window self) cur_millis in Ok (DgDelayFor d, self).

Definition LocalDatagramLimiter_check_packet (self : LocalDatagramLimiter) (cur_millis buf_size : Z)
  : pure (DatagramLimitAction * LocalDatagramLimiter) :=
  let? id := slice_id (ldl_window self) cur_millis in
  let self := ldl_roll self id in
  if (0 <? ldl_max_packets self) && (ldl_max_packets self <=? ldl_cur_packets self) then ldl_delay self cur_millis
  else if (0 <? ldl_max_bytes self) && (0 <? ldl_cur_bytes self) then
    let? sum := uadd (ldl_cur_bytes self) buf_size in
    if ldl_max_bytes self <? sum then ldl_delay self cur_millis else Ok (Advance 1, self)
  else Ok (Advance 1, self).

Definition LocalDatagramLimiter_check_packets (self : LocalDatagramLimiter) (cur_millis : Z) (total_size_v : list Z)
  : pure (DatagramLimitAction * LocalDatagramLimiter) :=
  let? id := slice_id (ldl_window self) cur_millis in
  let self := ldl_roll self id in
  if (0 <? ldl_max_packets self) && (ldl_max_packets self <=? ldl_cur_packets self) then ldl_delay self cur_millis
  else
    let pkt_count :=
      if 0 <? ldl_max_packets self then Z.min (len total_size_v) (ldl_max_packets self - ldl_cur_packets self)
      else len total_size_v in
    if 0 <? ldl_max_bytes self then
      if ldl_max_bytes self <=? ldl_cur_bytes self then ldl_delay self cur_millis
      else
        let allowed := ldl_max_bytes self - ldl_cur_bytes self in
        let? part := slice total_size_v 0 pkt_count in
        match binary_search part allowed with
        | inl found_index => Ok (Advance (Z.of_nat found_index + 1), self)
        | inr O => if ldl_cur_bytes self =? 0 then Ok (Advance 1, self) else ldl_delay self cur_millis
        | inr insert_index => Ok (Advance (Z.of_nat insert_index), self)
        end
    else Ok (Advance pkt_count, self).

Definition LocalDatagramLimiter_set_advance (self : LocalDatagramLimiter) (packets size : Z) : pure LocalDatagramLimiter :=
  let? p := uadd (ldl_cur_packets self) packets in
  let? b := uadd (ldl_cur_bytes self) size in
  Ok (ldl_set self (ldl_time_slice_id self) p b).

(** ** Token buckets *)

Record GlobalDatagramSpeedLimitConfig : Type := {
  gdc_replenish_interval : Z;
  gdc_replenish_bytes : Z;
  gdc_replenish_packets : Z;
  gdc_max_burst_bytes : Z;
  gdc_max_burst_packets : Z
}.

Definition GlobalDatagramSpeedLimitConfig_per_second (bytes : Z) : GlobalDatagramSpeedLimitConfig :=
  {| gdc_replenish_interval := 1000; gdc_replenish_bytes := bytes; gdc_replenish_packets := 0;
     gdc_max_burst_bytes := bytes; gdc_max_burst_packets := 0 |}.

Definition GlobalDatagramSpeedLimitConfig_check (self : GlobalDatagramSpeedLimitConfig)
  : option GlobalDatagramSpeedLimitConfig :=
  if (gdc_replenish_bytes self =? 0) && (gdc_replenish_packets self =? 0) then None
  else Some {| gdc_replenish_interval := gdc_replenish_interval self; gdc_replenish_bytes := gdc_replenish_bytes self;
               gdc_replenish_packets := gdc_replenish_packets self;
               gdc_max_burst_bytes :=
                 if gdc_max_burst_bytes self <? gdc_replenish_bytes self then gdc_replenish_bytes self
                 else gdc_max_burst_bytes self;
               gdc_max_burst_packets :=
                 if gdc_max_burst_packets self <? gdc_replenish_packets self then gdc_replenish_packets self
                 else gdc_max_burst_packets self |}.

Record GlobalDatagramLimiter : Type := {
  gd_config : GlobalDatagramSpeedLimitConfig;
  gd_byte_tokens : Z;
  gd_packet_tokens : Z;
  gd_last_updated : Z
}.

Definition GlobalDatagramLimiter_new (config : GlobalDatagramSpeedLimitConfig) (now : Z) : GlobalDatagramLimiter :=
  {| gd_config := config; gd_byte_tokens := gdc_replenish_bytes config; gd_packet_tokens := gdc_replenish_packets config;
     gd_last_updated := now |}.

Definition gd_set (self : GlobalDatagramLimiter) (bytes packets : Z) : GlobalDatagramLimiter :=
  {| gd_config := gd_config self; gd_byte_tokens := bytes; gd_packet_tokens := packets;
     gd_last_updated := gd_last_updated self |}.

(** The update that adds tokens up to a limit. *)
Definition add_capped (cur_tokens n max_burst : Z) : pure Z :=
  if cur_tokens <? max_burst then let? sum := uadd cur_tokens n in Ok (Z.min sum max_burst) else Ok cur_tokens.

Definition gd_add_bytes (self : GlobalDatagramLimiter) (size max_burst : Z) : pure GlobalDatagramLimiter :=
  let? b := add_capped (gd_byte_tokens self) size max_burst in Ok (gd_set self b (gd_packet_tokens self)).

Definition gd_add_packets (self : GlobalDatagramLimiter) (count max_burst : Z) : pure GlobalDatagramLimiter :=
  let? p := add_capped (gd_packet_tokens self) count max_burst in Ok (gd_set self (gd_byte_tokens self) p).

(** One round of the task that [tokio_spawn_replenish] spawns, after its sleep. *)
Definition gd_replenish (self : GlobalDatagramLimiter) (config : GlobalDatagramSpeedLimitConfig) (now : Z)
  : pure GlobalDatagramLimiter :=
  let? self := if 0 <? gdc_replenish_bytes config
    then gd_add_bytes self (gdc_replenish_bytes config) (gdc_max_burst_bytes config) else Ok self in
  let? self := if 0 <? gdc_replenish_packets config
    then gd_add_packets self (gdc_replenish_packets config) (gdc_max_burst_packets config) else Ok self in
  Ok {| gd_config := gd_config self; gd_byte_tokens := gd_byte_tokens self; gd_packet_tokens := gd_packet_tokens self;
        gd_last_updated := now |}.

Definition gd_wait_until (self : GlobalDatagramLimiter) : Z :=
  gd_last_updated self + gdc_replenish_interval (gd_config self).

(** [add_packets] behind the test that packets are limited at all. *)
Definition refund_packets (self : GlobalDatagramLimiter) (count : Z) : pure GlobalDatagramLimiter :=
  if 0 <? gdc_replenish_packets (gd_config self)
  then gd_add_packets self count (gdc_max_burst_packets (gd_config self)) else Ok self.

Definition refund_bytes (self : GlobalDatagramLimiter) (size : Z) : pure GlobalDatagramLimiter :=
  if 0 <? gdc_replenish_bytes (gd_config self)
  then gd_add_bytes self size (gdc_max_burst_bytes (gd_config self)) else Ok self.

Definition gd_delay (self : GlobalDatagramLimiter) : pure (DatagramLimitAction * GlobalDatagramLimiter) :=
  Ok (DgDelayUntil (gd_wait_until self), self).

Definition GlobalDatagramLimiter_check_packet (self : GlobalDatagramLimiter) (buf_size : Z)
  : pure (DatagramLimitAction * GlobalDatagramLimiter) :=
  let config := gd_config self in
  let take_byte_tokens self :=
    if 0 <? gdc_replenish_bytes config then
      if buf_size <=? gd_byte_tokens self
      then Ok (Advance 1, gd_set self (gd_byte_tokens self - buf_size) (gd_packet_tokens self))
      else let? self := refund_packets self 1 in gd_delay self
    else Ok (Advance 1, self) in
  if 0 <? gdc_replenish_packets config then
    if 0 <? gd_packet_tokens self then take_byte_tokens (gd_set self (gd_byte_tokens self) (gd_packet_tokens self - 1))
    else gd_delay self
  else take_byte_tokens self.

(** The last part of [check_packets]: [buf_size] byte tokens have been taken,
    which are less than the total of the [to_advance] packets. *)
Definition fit_packets (self : GlobalDatagramLimiter) (total_size_v : list Z) (to_advance buf_size : Z)
  : pure (DatagramLimitAction * GlobalDatagramLimiter) :=
  match binary_search total_size_v buf_size with
  | inl found_index =>
      let? extra := usub to_advance (Z.of_nat found_index + 1) in
      let? self := refund_packets self extra in
      Ok (Advance (Z.of_nat found_index + 1), self)
  | inr O =>
      let? self := refund_packets self to_advance in
      let? self := refund_bytes self buf_size in
      gd_delay self
  | inr insert_index =>
      let? extra := usub to_advance (Z.of_nat insert_index) in
      let? self := refund_packets self extra in
      let? total := total_at total_size_v (Z.of_nat insert_index - 1) in
      let? extra := usub buf_size total in
      let? self := refund_bytes self extra in
      Ok (Advance (Z.of_nat insert_index), self)
  end.

Definition GlobalDatagramLimiter_check_packets (self : GlobalDatagramLimiter) (total_size_v : list Z)
  : pure (DatagramLimitAction * GlobalDatagramLimiter) :=
  let config := gd_config self in
  let take_byte_tokens self to_advance :=
    let? total := total_at total_size_v (to_advance - 1) in
    if 0 <? gdc_replenish_bytes config then
      let prev := gd_byte_tokens self in
      if 0 <? prev then
        let left := saturating_sub prev total in
        let? buf_size := usub prev left in
        let self := gd_set self left (gd_packet_tokens self) in
        if buf_size =? total then Ok (Advance to_advance, self)
        else fit_packets self total_size_v to_advance buf_size
      else let? self := refund_packets self to_advance in gd_delay self
    else Ok (Advance to_advance, self) in
  match total_size_v with
  | [] => Ok (Advance 0, self)
  | _ =>
      let to_advance := len total_size_v in
      if 0 <? gdc_replenish_packets config then
        let prev := gd_packet_tokens self in
        if 0 <? prev then
          let left := saturating_sub prev to_advance in
          let? to_advance := usub prev left in
          take_byte_tokens (gd_set self (gd_byte_tokens self) left) to_advance
        else gd_delay self
      else take_byte_tokens self to_advance
  end.

Definition release_bytes (self : GlobalDatagramLimiter) (size : Z) : pure GlobalDatagramLimiter :=
  let max_burst := gdc_max_burst_bytes (gd_config self) in
  if 0 <? max_burst then gd_add_bytes self size max_burst else Ok self.

Definition release_packets (self : GlobalDatagramLimiter) (count : Z) : pure GlobalDatagramLimiter :=
  let max_burst := gdc_max_burst_packets (gd_config self) in
  if 0 <? max_burst then gd_add_packets self count max_burst else Ok self.

(** ** The limiter of a socket *)

(** [dg_inner] is the number of the shared bucket. *)
Record DgGlobalLimiter : Type := {
  dg_inner : nat;
  dg_checked_packets : option Z;
  dg_checked_bytes : option Z
}.

Definition DgGlobalLimiter_new (inner : nat) : DgGlobalLimiter :=
  {| dg_inner := inner; dg_checked_packets := None; dg_checked_bytes := None |}.

Definition dg_set (g : DgGlobalLimiter) (packets bytes : option Z) : DgGlobalLimiter :=
  {| dg_inner := dg_inner g; dg_checked_packets := packets; dg_checked_bytes := bytes |}.

Record DatagramLimiter : Type := {
  dl_is_set : bool;
  dl_local_is_set : bool;
  dl_local : LocalDatagramLimiter;
  dl_global : list DgGlobalLimiter
}.

Definition DatagramLimiter_with_local (shift_millis max_packets max_bytes rand : Z) : pure DatagramLimiter :=
  let? local := LocalDatagramLimiter_new shift_millis max_packets max_bytes rand in
  let local_is_set := LocalDatagramLimiter_is_set local in
  Ok {| dl_is_set := local_is_set; dl_local_is_set := local_is_set; dl_local := local; dl_global := [] |}.

Definition DatagramLimiter_reset_local (self : DatagramLimiter) (shift_millis max_packets max_bytes cur_millis : Z)
  : pure DatagramLimiter :=
  let? local := LocalDatagramLimiter_reset (dl_local self) shift_millis max_packets max_bytes cur_millis in
  let local_is_set := LocalDatagramLimiter_is_set local in
  Ok {| dl_is_set := match dl_global self with [] => local_is_set | _ => dl_is_set self end;
        dl_local_is_set := local_is_set; dl_local := local; dl_global := dl_global self |}.

Definition dl_add_global (self : DatagramLimiter) (inner : nat) : DatagramLimiter :=
  {| dl_is_set := true; dl_local_is_set := dl_local_is_set self; dl_local := dl_local self;
     dl_global := dl_global self ++ [DgGlobalLimiter_new inner] |}.

Definition dl_set (self : DatagramLimiter) (l : LocalDatagramLimiter) (gs : list DgGlobalLimiter) : DatagramLimiter :=
  {| dl_is_set := dl_is_set self; dl_local_is_set := dl_local_is_set self; dl_local := l; dl_global := gs |}.

(** The shared buckets. *)
Definition dg_store := nat -> GlobalDatagramLimiter.

Definition put (st : dg_store) (i : nat) (b : GlobalDatagramLimiter) : dg_store :=
  fun j => if decide (j = i) then b else st j.

Fixpoint dl_release_globals (st : dg_store) (gs : list DgGlobalLimiter) : pure (list DgGlobalLimiter * dg_store) :=
  match gs with
  | [] => Ok ([], st)
  | g :: gs =>
      match dg_checked_packets g with
      | None => Ok (g :: gs, st)
      | Some packets =>
          let? b := release_packets (st (dg_inner g)) packets in
          let? b := match dg_checked_bytes g with Some size => release_bytes b size | None => Ok b end in
          let? '(gs, st) := dl_release_globals (put st (dg_inner g) b) gs in
          Ok (dg_set g None None :: gs, st)
      end
  end.

Definition dl_release_global (self : DatagramLimiter) (st : dg_store) : pure (DatagramLimiter * dg_store) :=
  let? '(gs, st) := dl_release_globals st (dl_global self) in Ok (dl_set self (dl_local self) gs, st).

(** The loop of [check_packet] over the shared limiters; [Some d] is the answer
    of the first that delays. *)
Fixpoint check_packet_globals (st : dg_store) (gs : list DgGlobalLimiter) (buf_size : Z)
  : pure (option DatagramLimitAction * list DgGlobalLimiter * dg_store) :=
  match gs with
  | [] => Ok (None, [], st)
  | g :: gs =>
      let? '(r, b) := GlobalDatagramLimiter_check_packet (st (dg_inner g)) buf_size in
      let st := put st (dg_inner g) b in
      match r with
      | Advance _ =>
          let? '(o, gs, st) := check_packet_globals st gs buf_size in
          Ok (o, dg_set g (Some 1) (Some buf_size) :: gs, st)
      | d => Ok (Some d, g :: gs, st)
      end
  end.

Definition DatagramLimiter_check_packet (self : DatagramLimiter) (st : dg_store) (cur_millis buf_size : Z)
  : pure (DatagramLimitAction * DatagramLimiter * dg_store) :=
  let? '(r, l) :=
    if dl_local_is_set self then LocalDatagramLimiter_check_packet (dl_local self) cur_millis buf_size
    else Ok (Advance 1, dl_local self) in
  match r with
  | Advance _ =>
      let? '(o, gs, st) := check_packet_globals st (dl_global self) buf_size in
      match o with
      | None => Ok (Advance 1, dl_set self l gs, st)
      | Some d => let? '(self, st) := dl_release_global (dl_set self l gs) st in Ok (d, self, st)
      end
  | d => Ok (d, dl_set self l (dl_global self), st)
  end.

(** The loop of [check_packets]: the number of packets that all limiters allow. *)
Fixpoint check_packets_globals (st : dg_store) (gs : list DgGlobalLimiter) (total_size_v : list Z) (to_advance : Z)
  : pure ((Z + DatagramLimitAction) * list DgGlobalLimiter * dg_store) :=
  match gs with
  | [] => Ok (inl to_advance, [], st)
  | g :: gs =>
      let? part := slice total_size_v 0 to_advance in
      let? '(r, b) := GlobalDatagramLimiter_check_packets (st (dg_inner g)) part in
      let st := put st (dg_inner g) b in
      match r with
      | Advance n =>
          let? '(o, gs, st) := check_packets_globals st gs total_size_v n in
          Ok (o, dg_set g (Some n) (dg_checked_bytes g) :: gs, st)
      | d => Ok (inr d, g :: gs, st)
      end
  end.

(** The second loop of [check_packets]. *)
Fixpoint settle_globals (st : dg_store) (gs : list DgGlobalLimiter) (total_size_v : list Z) (to_advance buf_size : Z)
  : pure (list DgGlobalLimiter * dg_store) :=
  match gs with
  | [] => Ok ([], st)
  | g :: gs =>
      match dg_checked_packets g with
      | None => Panic
      | Some checked =>
          let? b :=
            if to_advance <? checked then
              let? b := release_packets (st (dg_inner g)) (checked - to_advance) in
              let? total := total_at total_size_v (checked - 1) in
              let? extra := usub total buf_size in
              release_bytes b extra
            else Ok (st (dg_inner g)) in
          let? '(gs, st) := settle_globals (put st (dg_inner g) b) gs total_size_v to_advance buf_size in
          Ok (dg_set g (Some to_advance) (Some buf_size) :: gs, st)
      end
  end.

Definition DatagramLimiter_check_packets (self : DatagramLimiter) (st : dg_store) (cur_millis : Z) (total_size_v : list Z)
  : pure (DatagramLimitAction * DatagramLimiter * dg_store) :=
  let? '(r, l) :=
    if dl_local_is_set self then LocalDatagramLimiter_check_packets (dl_local self) cur_millis total_size_v
    else Ok (Advance (len total_size_v), dl_local self) in
  match r, dl_global self with
  | Advance n, [] => Ok (Advance n, dl_set self l [], st)
  | Advance n, gs =>
      let? '(o, gs, st) := check_packets_globals st gs total_size_v n in
      match o with
      | inl to_advance =>
          if 0 <? to_advance then
            let? buf_size := total_at total_size_v (to_advance - 1) in
            let? '(gs, st) := settle_globals st gs total_size_v to_advance buf_size in
            Ok (Advance to_advance, dl_set self l gs, st)
          else Ok (Advance to_advance, dl_set self l gs, st)
      | inr d => let? '(self, st) := dl_release_global (dl_set self l gs) st in Ok (d, self, st)
      end
  | d, gs => Ok (d, dl_set self l gs, st)
  end.

Fixpoint dl_advance_globals (st : dg_store) (gs : list DgGlobalLimiter) (packets size : Z)
  : pure (list DgGlobalLimiter * dg_store) :=
  match gs with
  | [] => Ok ([], st)
  | g :: gs =>
      match dg_checked_packets g with
      | None => Ok (g :: gs, st)
      | Some checked =>
          let? b := if packets <? checked then release_packets (st (dg_inner g)) (checked - packets)
                    else Ok (st (dg_inner g)) in
          let? b := match dg_checked_bytes g with
                    | Some checked => if size <? checked then release_bytes b (checked - size) else Ok b
                    | None => Ok b
                    end in
          let? '(gs, st) := dl_advance_globals (put st (dg_inner g) b) gs packets size in
          Ok (dg_set g None None :: gs, st)
      end
  end.

Definition DatagramLimiter_set_advance (self : DatagramLimiter) (st : dg_store) (packets size : Z)
  : pure (DatagramLimiter * dg_store) :=
  let? l := if dl_local_is_set self then LocalDatagramLimiter_set_advance (dl_local self) packets size
            else Ok (dl_local self) in
  let? '(gs, st) := dl_advance_globals st (dl_global self) packets size in
  Ok (dl_set self l gs, st).

(** ** Buckets *)

(** A bucket with a configuration as [GlobalDatagramSpeedLimitConfig_check]
    leaves it, and not more tokens than it may hold. *)
Definition gd_ok (b : GlobalDatagramLimiter) : Prop :=
  let c := gd_config b in
  0 <= gdc_replenish_bytes c <= gdc_max_burst_bytes c /\ gdc_max_burst_bytes c <= isize_max /\
  0 <= gdc_replenish_packets c <= gdc_max_burst_packets c /\ gdc_max_burst_packets c <= isize_max /\
  0 <= gd_byte_tokens b <= gdc_max_burst_bytes c /\ 0 <= gd_packet_tokens b <= gdc_max_burst_packets c.

(** Between [b] and [b'], [p] packet tokens and [z] byte tokens have been taken,
    of the kinds that are limited. *)
Definition spends (b b' : GlobalDatagramLimiter) (p z : Z) : Prop :=
  gd_ok b' /\ gd_config b' = gd_config b /\ gd_last_updated b' = gd_last_updated b /\
  (0 < gdc_replenish_packets (gd_config b) -> gd_packet_tokens b' = gd_packet_tokens b - p) /\
  (0 < gdc_replenish_bytes (gd_config b) -> gd_byte_tokens b' = gd_byte_tokens b - z).

Lemma add_capped_ok cur n burst : 0 <= cur -> 0 <= n -> cur + n <= burst -> burst <= isize_max -> add_capped cur n burst = Ok (cur + n).
Proof.
  intros. unfold add_capped, isize_max in *. destruct (Z.ltb_spec cur burst); [|f_equal; lia].
  rewrite uadd_ok by (unfold u64_max; lia). cbn [bind]. f_equal. lia.
Qed.

(** Tokens that were taken before fit again. *)
Lemma refund_packets_ok b b' p z n :
  gd_ok b -> spends b b' p z -> 0 <= n <= p -> exists b2, refund_packets b' n = Ok b2 /\ spends b b2 (p - n) z.
Proof.
  intros Hb (Hb' & Hc & Hl & Hp & Hz) Hn. unfold refund_packets. rewrite Hc.
  destruct (Z.ltb_spec 0 (gdc_replenish_packets (gd_config b))) as [Hr|Hr].
  - specialize (Hp Hr). unfold gd_ok in Hb, Hb'. cbv zeta in Hb, Hb'. rewrite Hc in Hb'.
    unfold gd_add_packets. rewrite add_capped_ok by lia. cbn [bind]. eexists. split; [reflexivity|].
    unfold spends, gd_ok. cbn. rewrite Hc. split_and!; try done; lia.
  - eexists. split; [reflexivity|]. unfold spends. split_and!; try done; lia.
Qed.

Lemma refund_bytes_ok b b' p z n :
  gd_ok b -> spends b b' p z -> 0 <= n <= z -> exists b2, refund_bytes b' n = Ok b2 /\ spends b b2 p (z - n).
Proof.
  intros Hb (Hb' & Hc & Hl & Hp & Hz) Hn. unfold refund_bytes. rewrite Hc.
  destruct (Z.ltb_spec 0 (gdc_replenish_bytes (gd_config b))) as [Hr|Hr].
  - specialize (Hz Hr). unfold gd_ok in Hb, Hb'. cbv zeta in Hb, Hb'. rewrite Hc in Hb'.
    unfold gd_add_bytes. rewrite add_capped_ok by lia. cbn [bind]. eexists. split; [reflexivity|].
    unfold spends, gd_ok. cbn. rewrite Hc. split_and!; try done; lia.
  - eexists. split; [reflexivity|]. unfold spends. split_and!; try done; lia.
Qed.

Lemma spends_wait_until b b' p z : spends b b' p z -> gd_wait_until b' = gd_wait_until b.
Proof. intros (_ & Hc & Hl & _). unfold gd_wait_until. by rewrite Hc, Hl. Qed.

Lemma total_at_ok v i : 0 <= i < len v -> total_at v i = Ok (nth (Z.to_nat i) v 0).
Proof.
  intros Hi. unfold total_at. destruct (Z.leb_spec 0 i); [|lia]. rewrite nth_lookup.
  destruct (v !! Z.to_nat i) eqn:Hv; [done|]. apply lookup_ge_None in Hv. unfold len in Hi. lia.
Qed.

(** What a check may answer for a batch: some of its packets, paid for exactly,
    or a delay that costs nothing. *)
Definition batch_answer (b : GlobalDatagramLimiter) (v : list Z) (x : DatagramLimitAction * GlobalDatagramLimiter) : Prop :=
  match x with
  | (Advance n, b') => 1 <= n <= len v /\ spends b b' n (nth (Z.to_nat (n - 1)) v 0)
  | (DgDelayUntil t, b') => spends b b' 0 0 /\ t = gd_wait_until b
  | (DgDelayFor _, _) => False
  end.

Definition batch (v : list Z) : Prop := v <> [] /\ rising v /\ 0 <= nth 0 v 0.

Lemma batch_nonneg v i : batch v -> (i < length v)%nat -> 0 <= nth i v 0.
Proof. intros (_ & Hr & H0) Hi. pose proof (Hr 0%nat i ltac:(lia)). lia. Qed.

Lemma fit_packets_ok b b' v n z :
  gd_ok b -> batch v -> 1 <= n <= len v -> spends b b' n z -> 0 <= z < nth (Z.to_nat (n - 1)) v 0 ->
  exists x, fit_packets b' v n z = Ok x /\ batch_answer b v x.
Proof.
  intros Hb Hv Hn Hs Hz. pose proof Hv as (_ & Hr & H0). unfold fit_packets, len in *.
  pose proof (binary_search_spec v z Hr) as Hbs. destruct (binary_search v z) as [i|[|i]].
  - destruct Hbs as [Hi He]. assert (i < Z.to_nat (n - 1))%nat.
    { destruct (Nat.lt_ge_cases i (Z.to_nat (n - 1))); [done|]. pose proof (Hr (Z.to_nat (n - 1)) i ltac:(lia)). lia. }
    rewrite usub_ok by lia. cbn [bind].
    destruct (refund_packets_ok b b' n z (n - (Z.of_nat i + 1)) Hb Hs) as (b2 & -> & Hs2); [lia|]. cbn [bind].
    eexists. split; [reflexivity|]. cbn. split; [unfold len; lia|].
    replace (Z.to_nat (Z.of_nat i + 1 - 1)) with i by lia. rewrite He.
    by replace (n - (n - (Z.of_nat i + 1))) with (Z.of_nat i + 1) in Hs2 by lia.
  - destruct (refund_packets_ok b b' n z n Hb Hs) as (b2 & -> & Hs2); [lia|]. cbn [bind].
    destruct (refund_bytes_ok b b2 (n - n) z z Hb Hs2) as (b3 & -> & Hs3); [lia|]. cbn [bind].
    rewrite !Z.sub_diag in Hs3. eexists. split; [reflexivity|]. split; [done|]. by eapply spends_wait_until.
  - destruct Hbs as (Hi & Hlo & Hhi). assert (S i <= Z.to_nat (n - 1))%nat.
    { destruct (Nat.le_gt_cases (S i) (Z.to_nat (n - 1))); [done|]. specialize (Hlo (Z.to_nat (n - 1)) ltac:(lia)). lia. }
    specialize (Hlo i ltac:(lia)). pose proof (batch_nonneg v i Hv ltac:(lia)).
    rewrite usub_ok by lia. cbn [bind].
    destruct (refund_packets_ok b b' n z (n - Z.of_nat (S i)) Hb Hs) as (b2 & -> & Hs2); [lia|]. cbn [bind].
    rewrite total_at_ok by (unfold len; lia). cbn [bind]. replace (Z.to_nat (Z.of_nat (S i) - 1)) with i by lia.
    rewrite usub_ok by lia. cbn [bind].
    destruct (refund_bytes_ok b b2 _ z (z - nth i v 0) Hb Hs2) as (b3 & -> & Hs3); [lia|]. cbn [bind].
    eexists. split; [reflexivity|]. split; [unfold len; lia|]. replace (Z.to_nat (Z.of_nat (S i) - 1)) with i by lia.
    by replace (n - (n - Z.of_nat (S i))) with (Z.of_nat (S i)) in Hs3 by lia;
      replace (z - (z - nth i v 0)) with (nth i v 0) in Hs3 by lia.
Qed.

Lemma spends_refl b : gd_ok b -> spends b b 0 0.
Proof. intros Hb. unfold spends. split_and!; try done; lia. Qed.

Lemma spends_unlimited b n : gd_ok b -> gdc_replenish_packets (gd_config b) <= 0 -> spends b b n 0.
Proof. intros Hb Hr. unfold spends. split_and!; try done; lia. Qed.

(** The first updates of both counters. *)
Lemma spends_packets b n :
  gd_ok b -> 0 <= n <= gd_packet_tokens b -> spends b (gd_set b (gd_byte_tokens b) (gd_packet_tokens b - n)) n 0.
Proof. intros Hb Hn. unfold spends, gd_ok in *. cbn in *. split_and!; try done; lia. Qed.

Lemma spends_bytes b b' p n :
  spends b b' p 0 -> 0 <= n <= gd_byte_tokens b' -> spends b (gd_set b' (gd_byte_tokens b' - n) (gd_packet_tokens b')) p n.
Proof.
  intros (Hb' & Hc & Hl & Hp & Hz) Hn. unfold spends, gd_ok in *. cbn in *. rewrite Hc in *. split_and!; try done; lia.
Qed.

Lemma GlobalDatagramLimiter_check_packets_spec b v :
  gd_ok b -> batch v -> exists x, GlobalDatagramLimiter_check_packets b v = Ok x /\ batch_answer b v x.
Proof.
  intros Hb Hv.
  assert (Hbytes : forall b' n, spends b b' n 0 -> 1 <= n <= len v -> exists x,
    (let? total := total_at v (n - 1) in
     if 0 <? gdc_replenish_bytes (gd_config b) then
       let prev := gd_byte_tokens b' in
       if 0 <? prev then
         let left := saturating_sub prev total in
         let? buf_size := usub prev left in
         let self := gd_set b' left (gd_packet_tokens b') in
         if buf_size =? total then Ok (Advance n, self) else fit_packets self v n buf_size
       else let? self := refund_packets b' n in gd_delay self
     else Ok (Advance n, b')) = Ok x /\ batch_answer b v x).
  { intros b' n Hs Hn. rewrite total_at_ok by lia. cbn [bind]. cbv zeta. set (total := nth _ v 0).
    assert (0 <= total) by (apply batch_nonneg; [done|unfold len in Hn; lia]).
    destruct (Z.ltb_spec 0 (gdc_replenish_bytes (gd_config b))) as [Hr|Hr]; cycle 1.
    { eexists. split; [reflexivity|]. split; [done|]. destruct Hs as (? & ? & ? & ? & ?). unfold spends. split_and!; try done; lia. }
    destruct (Z.ltb_spec 0 (gd_byte_tokens b')) as [Ht|Ht]; cycle 1.
    { destruct (refund_packets_ok b b' n 0 n Hb Hs) as (b2 & -> & Hs2); [lia|]. cbn [bind]. rewrite Z.sub_diag in Hs2.
      eexists. split; [reflexivity|]. split; [done|]. by eapply spends_wait_until. }
    unfold saturating_sub. rewrite usub_ok by lia. cbn [bind].
    set (z := gd_byte_tokens b' - Z.max 0 (gd_byte_tokens b' - total)).
    assert (Hs' : spends b (gd_set b' (Z.max 0 (gd_byte_tokens b' - total)) (gd_packet_tokens b')) n z).
    { replace (Z.max 0 (gd_byte_tokens b' - total)) with (gd_byte_tokens b' - z) by lia. apply spends_bytes; [done|lia]. }
    destruct (Z.eqb_spec z total) as [He|He].
    - eexists. split; [reflexivity|]. split; [done|]. rewrite He in Hs'. exact Hs'.
    - apply fit_packets_ok; try done. fold total. lia. }
  unfold GlobalDatagramLimiter_check_packets. cbv zeta.
  destruct v as [|e v']; [by destruct Hv|]. set (v := e :: v') in *.
  assert (Hlen : 1 <= len v) by (subst v; unfold len; cbn; lia).
  destruct (Z.ltb_spec 0 (gdc_replenish_packets (gd_config b))); [|apply Hbytes; [by apply spends_unlimited|lia]].
  destruct (Z.ltb_spec 0 (gd_packet_tokens b)).
  - unfold saturating_sub. rewrite usub_ok by lia. cbn [bind]. apply Hbytes; [|lia].
    replace (Z.max 0 (gd_packet_tokens b - len v))
      with (gd_packet_tokens b - (gd_packet_tokens b - Z.max 0 (gd_packet_tokens b - len v))) at 1 by lia.
    apply spends_packets; [done|lia].
  - eexists. split; [reflexivity|]. split; [by apply spends_refl|done].
Qed.

Lemma GlobalDatagramLimiter_check_packet_spec b size :
  gd_ok b -> 0 <= size ->
  exists r b', GlobalDatagramLimiter_check_packet b size = Ok (r, b') /\
    match r with
    | Advance n => n = 1 /\ spends b b' 1 size
    | DgDelayUntil t => spends b b' 0 0 /\ t = gd_wait_until b
    | DgDelayFor _ => False
    end.
Proof.
  intros Hb Hsz.
  assert (Hbytes : forall b', spends b b' 1 0 -> exists r b2,
    (if 0 <? gdc_replenish_bytes (gd_config b) then
       if size <=? gd_byte_tokens b' then Ok (Advance 1, gd_set b' (gd_byte_tokens b' - size) (gd_packet_tokens b'))
       else let? self := refund_packets b' 1 in gd_delay self
     else Ok (Advance 1, b')) = Ok (r, b2) /\
    match r with
    | Advance n => n = 1 /\ spends b b2 1 size
    | DgDelayUntil t => spends b b2 0 0 /\ t = gd_wait_until b
    | DgDelayFor _ => False
    end).
  { intros b' Hs. destruct (Z.ltb_spec 0 (gdc_replenish_bytes (gd_config b))) as [Hr|Hr]; cycle 1.
    { do 2 eexists. split; [reflexivity|]. split; [done|]. destruct Hs as (? & ? & ? & ? & ?). unfold spends. split_and!; try done; lia. }
    destruct (Z.leb_spec size (gd_byte_tokens b')).
    - do 2 eexists. split; [reflexivity|]. split; [done|]. apply spends_bytes; [done|lia].
    - destruct (refund_packets_ok b b' 1 0 1 Hb Hs) as (b2 & -> & Hs2); [lia|]. do 2 eexists. split; [reflexivity|].
      split; [done|]. by eapply spends_wait_until. }
  unfold GlobalDatagramLimiter_check_packet. cbv zeta.
  destruct (Z.ltb_spec 0 (gdc_replenish_packets (gd_config b))).
  - destruct (Z.ltb_spec 0 (gd_packet_tokens b)).
    + apply Hbytes. apply spends_packets; [done|lia].
    + do 2 eexists. split; [reflexivity|]. split; [by apply spends_refl|done].
  - apply Hbytes. by apply spends_unlimited.
Qed.

(** ** The local limit *)

(** [mp] and [mb] limit the packets and the bytes of a window when they are not
    0; a datagram larger than [mb] passes alone, so [M] bounds the size of a
    datagram. *)
Record ldl_inv (s mp mb M : Z) (l : LocalDatagramLimiter) (plog blog : list (Z * Z)) (now : Z) : Prop := {
  dv_window : window_of s (ldl_window l);
  dv_max_packets : ldl_max_packets l = mp;
  dv_max_bytes : ldl_max_bytes l = mb;
  dv_nonneg : 0 <= ldl_cur_packets l /\ 0 <= ldl_cur_bytes l;
  dv_packets : window_count s (ldl_window l) (ldl_time_slice_id l) (ldl_cur_packets l) plog now;
  dv_bytes : window_count s (ldl_window l) (ldl_time_slice_id l) (ldl_cur_bytes l) blog now;
  dv_bound_packets : 0 < mp -> forall k, in_window s k plog <= mp;
  dv_bound_bytes : 0 < mb -> forall k, in_window s k blog <= Z.max mb M
}.

Definition dg_checked_at (s : Z) (l : LocalDatagramLimiter) (t : Z) : Prop :=
  ldl_time_slice_id l = 2 ^ s * (t / 2 ^ s) + fw_slice_id_offset (ldl_window l).

Section local.
Context (s mp mb M : Z).

Lemma ldl_roll_spec l plog blog now t :
  ldl_inv s mp mb M l plog blog now -> 0 <= now <= t ->
  let l' := ldl_roll l (2 ^ s * (t / 2 ^ s) + fw_slice_id_offset (ldl_window l)) in
  ldl_inv s mp mb M l' plog blog t /\ dg_checked_at s l' t /\
  ldl_cur_packets l' = in_window s (t / 2 ^ s) plog /\ ldl_cur_bytes l' = in_window s (t / 2 ^ s) blog.
Proof.
  intros [Hw H1 H2 H3 Hp Hb H4 H5] Ht. destruct (window_count_roll _ _ _ _ _ _ t Hw Hp Ht) as [Hp' Hcp].
  destruct (window_count_roll _ _ _ _ _ _ t Hw Hb Ht) as [Hb' Hcb]. unfold ldl_roll, dg_checked_at.
  set (id := 2 ^ s * (t / 2 ^ s) + _) in *. destruct (Z.eqb_spec (ldl_time_slice_id l) id) as [He|He].
  - split_and!; [|done..]. split; rewrite ?He; done.
  - split_and!; [|done..]. split; cbn; done.
Qed.

(** What a check of a batch answers. *)
Definition ldl_answer (plog blog : list (Z * Z)) (t : Z) (v : list Z) (r : DatagramLimitAction) : Prop :=
  match r with
  | Advance n =>
      1 <= n <= len v /\ (0 < mp -> in_window s (t / 2 ^ s) plog + n <= mp) /\
      (0 < mb -> in_window s (t / 2 ^ s) blog + nth (Z.to_nat (n - 1)) v 0 <= Z.max mb M)
  | DgDelayFor d =>
      d = 2 ^ s - t mod 2 ^ s /\
      (0 < mp /\ in_window s (t / 2 ^ s) plog = mp \/ 0 < mb /\ 0 < in_window s (t / 2 ^ s) blog)
  | DgDelayUntil _ => False
  end.

Lemma LocalDatagramLimiter_check_packets_spec l plog blog now t v :
  ldl_inv s mp mb M l plog blog now -> 0 <= mp -> 0 <= mb -> 0 <= now <= t -> t + 4096 <= u64_max -> batch v -> nth 0 v 0 <= M ->
  exists r l', LocalDatagramLimiter_check_packets l t v = Ok (r, l') /\
    ldl_inv s mp mb M l' plog blog t /\ dg_checked_at s l' t /\ ldl_answer plog blog t v r.
Proof.
  intros Hi Hmp Hmb Ht Hu Hv HM. pose proof Hv as (Hne & Hr & H0). unfold LocalDatagramLimiter_check_packets.
  rewrite (slice_id_ok s _ (dv_window _ _ _ _ _ _ _ _ Hi)) by lia. cbn [bind].
  destruct (ldl_roll_spec _ _ _ _ _ Hi Ht) as (Hi' & Hat & Hcp & Hcb). set (l' := ldl_roll _ _) in *. clearbody l'. clear Hi.
  assert (Hlen : 1 <= len v) by (destruct v; [done|]; unfold len; cbn; lia).
  pose proof Hi' as [Hw H1 H2 H3 _ _ Hbp _]. rewrite H1, H2.
  assert (Hdelay : (0 < mp /\ mp <= ldl_cur_packets l' \/ 0 < mb /\ 0 < ldl_cur_bytes l') -> exists r l2,
    ldl_delay l' t = Ok (r, l2) /\ ldl_inv s mp mb M l2 plog blog t /\ dg_checked_at s l2 t /\ ldl_answer plog blog t v r).
  { intros Hc. unfold ldl_delay. rewrite (window_delay_ok s _ Hw) by lia. cbn [bind]. do 2 eexists.
    split_and!; [reflexivity|done|done|]. cbn. split; [done|]. destruct Hc as [[? Hc]|[? Hc]]; [left|right]; [|lia].
    specialize (Hbp ltac:(lia) (t / 2 ^ s)). lia. }
  destruct ((0 <? mp) && (mp <=? ldl_cur_packets l')) eqn:Hfull; [apply Hdelay; bool_to_prop; lia|].
  set (count := if 0 <? mp then _ else _).
  assert (Hcount : 1 <= count <= len v /\ (0 < mp -> ldl_cur_packets l' + count <= mp)).
  { subst count. apply andb_false_iff in Hfull. destruct (Z.ltb_spec 0 mp) as [Hp|Hp]; [|lia].
    destruct Hfull as [Hf|Hf]; [done|]. apply Z.leb_gt in Hf. lia. }
  destruct (Z.ltb_spec 0 mb) as [Hb|Hb]; cycle 1.
  { do 2 eexists. split_and!; [reflexivity|done|done|]. cbn. split_and!; intros; lia. }
  destruct (Z.leb_spec mb (ldl_cur_bytes l')); [apply Hdelay; lia|].
  rewrite slice_ok by lia. cbn [bind]. rewrite Z.sub_0_r. change (drop (Z.to_nat 0) v) with v.
  set (part := take (Z.to_nat count) v).
  assert (Hnth : forall i, (i < length part)%nat -> nth i part 0 = nth i v 0 /\ (i < Z.to_nat count)%nat).
  { intros i Hi. unfold part in *. rewrite length_take in Hi. rewrite !nth_lookup, lookup_take_lt by lia. split; [done|lia]. }
  pose proof (binary_search_spec part (mb - ldl_cur_bytes l') (rising_take v _ Hr)) as Hbs.
  destruct (binary_search part (mb - ldl_cur_bytes l')) as [i|[|i]].
  - destruct Hbs as [Hip He]. destruct (Hnth i Hip) as [He' Hic]. rewrite He' in He.
    do 2 eexists. split_and!; [reflexivity|done|done|]. cbn. replace (Z.to_nat (Z.of_nat i + 1 - 1)) with i by lia.
    split_and!; intros; lia.
  - destruct (Z.eqb_spec (ldl_cur_bytes l') 0); [|apply Hdelay; lia].
    do 2 eexists. split_and!; [reflexivity|done|done|]. cbn [ldl_answer]. change (Z.to_nat (1 - 1)) with 0%nat.
    split_and!; intros; lia.
  - destruct Hbs as (Hip & Hlo & _). specialize (Hlo i ltac:(lia)). destruct (Hnth i ltac:(lia)) as [He' Hic]. rewrite He' in Hlo.
    do 2 eexists. split_and!; [reflexivity|done|done|]. cbn [ldl_answer]. replace (Z.to_nat (Z.of_nat (S i) - 1)) with i by lia.
    split_and!; intros; lia.
Qed.

Lemma LocalDatagramLimiter_set_advance_spec l plog blog t k z :
  ldl_inv s mp mb M l plog blog t -> dg_checked_at s l t -> 0 <= k -> 0 <= z ->
  ldl_cur_packets l + k <= u64_max -> ldl_cur_bytes l + z <= u64_max ->
  (0 < mp -> in_window s (t / 2 ^ s) plog + k <= mp) -> (0 < mb -> in_window s (t / 2 ^ s) blog + z <= Z.max mb M) ->
  exists l', LocalDatagramLimiter_set_advance l k z = Ok l' /\
    ldl_inv s mp mb M l' (plog ++ [(t, k)]) (blog ++ [(t, z)]) t.
Proof.
  intros [Hw H1 H2 H3 Hp Hb H4 H5] Hat Hk Hz Hup Hub Hlp Hlb. unfold LocalDatagramLimiter_set_advance.
  rewrite !uadd_ok by lia. cbn [bind]. eexists. split; [reflexivity|].
  unfold dg_checked_at in Hat. rewrite Hat in *.
  split; cbn; [done..|lia|by apply window_count_add|by apply window_count_add| |].
  - intros H0 k'. apply in_window_bound; auto.
  - intros H0 k'. apply in_window_bound; auto.
Qed.
End local.

(** ** Batches through a local limit *)

(** A sender that sends what each check allows: the batches with their times,
    and the packets and bytes that were sent. *)
Fixpoint send_batches (l : LocalDatagramLimiter) (bs : list (Z * list Z)) : pure (list (Z * Z) * list (Z * Z)) :=
  match bs with
  | [] => Ok ([], [])
  | (t, v) :: bs =>
      let? '(r, l) := LocalDatagramLimiter_check_packets l t v in
      match r with
      | Advance n =>
          let? z := total_at v (n - 1) in
          let? l := LocalDatagramLimiter_set_advance l n z in
          let? '(p, b) := send_batches l bs in
          Ok ((t, n) :: p, (t, z) :: b)
      | _ => send_batches l bs
      end
  end.

Definition sum_all (log : list (Z * Z)) : Z := foldr Z.add 0 (map snd log).

Lemma in_window_le_sum s k log : Forall (fun e => 0 <= e.2) log -> in_window s k log <= sum_all log.
Proof. unfold sum_all. induction 1 as [|[t n] log Hn _ IH]; cbn in *; [done|]. case_match; lia. Qed.

(** The most that a list of batches can send. *)
Definition batches_len (bs : list (Z * list Z)) : Z := foldr Z.add 0 (map (fun b => len b.2) bs).
Definition batches_size (bs : list (Z * list Z)) : Z := foldr Z.add 0 (map (fun b => nth (length b.2 - 1) b.2 0) bs).

Lemma sum_all_snoc log t n : sum_all (log ++ [(t, n)]) = sum_all log + n.
Proof. unfold sum_all. rewrite map_app, foldr_app. cbn. induction (map snd log); cbn; lia. Qed.

Lemma batch_last v : batch v -> 0 <= nth (length v - 1) v 0.
Proof. intros Hv. apply batch_nonneg; [done|]. destruct Hv as [Hne _]. destruct v; [done|cbn; lia]. Qed.

Lemma batches_nonneg bs : Forall (fun b => batch b.2) bs -> 0 <= batches_len bs /\ 0 <= batches_size bs.
Proof.
  induction 1 as [|[t v] bs Hv _ IH]; [done|]. pose proof (batch_last v Hv). unfold batches_len, batches_size in *.
  cbn [map foldr snd]. len_lia.
Qed.

Section run.
Context (s mp mb M : Z) (Hmp : 0 <= mp) (Hmb : 0 <= mb).

Lemma send_batches_spec bs l plog blog now :
  ldl_inv s mp mb M l plog blog now -> 0 <= now ->
  Forall (fun e => 0 <= e.2) plog -> Forall (fun e => 0 <= e.2) blog ->
  Forall (fun b => b.1 + 4096 <= u64_max /\ batch b.2 /\ nth 0 b.2 0 <= M) bs -> Sorted.Sorted Z.le (now :: map fst bs) ->
  sum_all plog + batches_len bs <= u64_max -> sum_all blog + batches_size bs <= u64_max ->
  exists p b, send_batches l bs = Ok (p, b) /\
    (0 < mp -> forall k, in_window s k (plog ++ p) <= mp) /\ (0 < mb -> forall k, in_window s k (blog ++ b) <= Z.max mb M).
Proof.
  intros Hi H0 Hnp Hnb Hbs Hs. apply Sorted.Sorted_StronglySorted in Hs; [|intros x y z; lia].
  revert l plog blog now Hi H0 Hnp Hnb Hs. induction Hbs as [|[t v] bs (Ht & Hv & HM) Hbs IH];
    intros l plog blog now Hi H0 Hnp Hnb Hs Hup Hub; cbn [send_batches map].
  { do 2 eexists. split; [reflexivity|]. rewrite !app_nil_r. by destruct Hi. }
  apply Sorted.StronglySorted_inv in Hs as [Hs Hn]. apply Forall_cons in Hn as [Hn _]. cbn in Hn, Ht, Hv, HM.
  change (batches_len ((t, v) :: bs)) with (len v + batches_len bs) in Hup.
  change (batches_size ((t, v) :: bs)) with (nth (length v - 1) v 0 + batches_size bs) in Hub.
  destruct (LocalDatagramLimiter_check_packets_spec s mp mb M l plog blog now t v) as (r & l1 & -> & Hi1 & Hat & Ha); [done|lia..|done|lia|].
  cbn [bind]. assert (Hlv : 0 <= len v) by len_lia.
  pose proof (batch_last v Hv) as Hz.
  destruct r as [n|d|d]; [|done|by apply (IH l1 plog blog t); try done; lia].
  destruct Ha as (Hn1 & Hp & Hb). rewrite total_at_ok by lia. cbn [bind]. set (z := nth (Z.to_nat (n - 1)) v 0) in *.
  assert (Hzz : 0 <= z <= nth (length v - 1) v 0).
  { unfold len in Hn1. split; [apply batch_nonneg; [done|lia]|]. apply (proj1 (proj2 Hv)). lia. }
  pose proof Hi1 as [_ _ _ _ Hcp Hcb _ _]. pose proof (proj2 Hcp t ltac:(lia)) as Hcp'. pose proof (proj2 Hcb t ltac:(lia)) as Hcb'.
  unfold dg_checked_at in Hat. rewrite Hat, Z.eqb_refl in Hcp', Hcb'.
  destruct (batches_nonneg bs) as [Hbl Hbz]; [eapply Forall_impl; [exact Hbs|]; by intros x (_ & ? & _)|].
  pose proof (in_window_le_sum s (t / 2 ^ s) plog Hnp). pose proof (in_window_le_sum s (t / 2 ^ s) blog Hnb).
  destruct (LocalDatagramLimiter_set_advance_spec s mp mb M l1 plog blog t n z) as (l2 & -> & Hi2); try done; try lia. cbn [bind].
  destruct (IH l2 (plog ++ [(t, n)]) (blog ++ [(t, z)]) t) as (p & b & -> & Hpp & Hbb); try done;
    rewrite ?sum_all_snoc; try lia; try (apply Forall_app; split; [done|]; repeat constructor; cbn; lia).
  cbn [bind]. do 2 eexists. split; [reflexivity|]. rewrite <- !app_assoc in *. done.
Qed.
End run.

(** ** A socket with one shared limiter *)

Lemma add_capped_spec cur n burst :
  0 <= cur <= burst -> 0 <= n <= isize_max -> burst <= isize_max ->
  exists c, add_capped cur n burst = Ok c /\ c = Z.min (cur + n) burst.
Proof.
  intros. unfold add_capped, isize_max in *. destruct (Z.ltb_spec cur burst).
  - rewrite uadd_ok by (unfold u64_max; lia). cbn [bind]. eexists. split; [reflexivity|done].
  - eexists. split; [reflexivity|]. lia.
Qed.

Lemma release_packets_ok b b' p z n :
  gd_ok b -> spends b b' p z -> 0 <= n <= p -> n <= isize_max ->
  exists b2, release_packets b' n = Ok b2 /\ spends b b2 (p - n) z.
Proof.
  intros Hb (Hb' & Hc & Hl & Hp & Hz) Hn Hni. unfold release_packets, gd_add_packets. rewrite Hc.
  unfold gd_ok in Hb, Hb'. cbv zeta in Hb, Hb'. rewrite Hc in Hb'.
  destruct (Z.ltb_spec 0 (gdc_max_burst_packets (gd_config b))).
  - edestruct (add_capped_spec (gd_packet_tokens b') n) as (c & -> & ->); [| |apply Hb|]; [lia..|]. cbn [bind].
    eexists. split; [reflexivity|]. unfold spends, gd_ok. cbn. rewrite Hc. split_and!; try done; try lia.
  - eexists. split; [reflexivity|]. unfold spends, gd_ok. rewrite Hc. split_and!; try done; lia.
Qed.

Lemma release_bytes_ok b b' p z n :
  gd_ok b -> spends b b' p z -> 0 <= n <= z -> n <= isize_max ->
  exists b2, release_bytes b' n = Ok b2 /\ spends b b2 p (z - n).
Proof.
  intros Hb (Hb' & Hc & Hl & Hp & Hz) Hn Hni. unfold release_bytes, gd_add_bytes. rewrite Hc.
  unfold gd_ok in Hb, Hb'. cbv zeta in Hb, Hb'. rewrite Hc in Hb'.
  destruct (Z.ltb_spec 0 (gdc_max_burst_bytes (gd_config b))).
  - edestruct (add_capped_spec (gd_byte_tokens b') n) as (c & -> & ->); [| |apply Hb|]; [lia..|]. cbn [bind].
    eexists. split; [reflexivity|]. unfold spends, gd_ok. cbn. rewrite Hc. split_and!; try done; try lia.
  - eexists. split; [reflexivity|]. unfold spends, gd_ok. rewrite Hc. split_and!; try done; lia.
Qed.

Lemma put_eq st i b : put st i b i = b.
Proof. unfold put. by rewrite decide_True. Qed.

(** A socket without a local limit that uses the bucket [i]. *)
Definition socket (i : nat) : DatagramLimiter :=
  {| dl_is_set := true; dl_local_is_set := false;
     dl_local := {| ldl_window := FixedWindow_default; ldl_max_packets := 0; ldl_max_bytes := 0; ldl_time_slice_id := 0;
                    ldl_cur_packets := 0; ldl_cur_bytes := 0 |};
     dl_global := [DgGlobalLimiter_new i] |}.

(** The socket when [n] packets of [z] bytes have been granted. *)
Definition socket_checked (i : nat) (n z : Z) : DatagramLimiter :=
  dl_set (socket i) (dl_local (socket i)) [dg_set (DgGlobalLimiter_new i) (Some n) (Some z)].

Section socket.
Context (i : nat) (b : GlobalDatagramLimiter) (Hb : gd_ok b) (n z : Z) (Hn : 0 <= n <= isize_max) (Hz : 0 <= z <= isize_max).
Context (st : dg_store) (Hst : spends b (st i) n z).

Lemma socket_set_advance k zk :
  0 <= k <= n -> 0 <= zk <= z ->
  exists st', DatagramLimiter_set_advance (socket_checked i n z) st k zk = Ok (socket i, st') /\ spends b (st' i) k zk.
Proof using All.
  intros Hk Hzk. unfold DatagramLimiter_set_advance. cbn.
  assert (Hp : exists b1, (if k <? n then release_packets (st i) (n - k) else Ok (st i)) = Ok b1 /\ spends b b1 k z).
  { destruct (Z.ltb_spec k n); [|assert (k = n) as -> by lia; by eexists].
    destruct (release_packets_ok b (st i) n z (n - k) Hb Hst) as (b1 & -> & H1); [lia..|].
    replace (n - (n - k)) with k in H1 by lia. by eexists. }
  destruct Hp as (b1 & -> & H1). cbn [bind].
  assert (Hbz : exists b2, (if zk <? z then release_bytes b1 (z - zk) else Ok b1) = Ok b2 /\ spends b b2 k zk).
  { destruct (Z.ltb_spec zk z); [|assert (zk = z) as -> by lia; by eexists].
    destruct (release_bytes_ok b b1 k z (z - zk) Hb H1) as (b2 & -> & H2); [lia..|].
    replace (z - (z - zk)) with zk in H2 by lia. by eexists. }
  destruct Hbz as (b2 & -> & H2). cbn. eexists. split; [reflexivity|]. by rewrite put_eq.
Qed.

Lemma socket_release :
  exists st', dl_release_global (socket_checked i n z) st = Ok (socket i, st') /\ spends b (st' i) 0 0.
Proof using All.
  unfold dl_release_global. cbn. destruct (release_packets_ok b (st i) n z n Hb Hst) as (b1 & -> & H1); [lia..|]. cbn.
  destruct (release_bytes_ok b b1 _ z z Hb H1) as (b2 & -> & H2); [lia..|]. cbn. rewrite !Z.sub_diag in H2.
  eexists. split; [reflexivity|]. by rewrite put_eq.
Qed.
End socket.

(** The bytes of the first [k] packets of a batch. *)
Definition batch_bytes (v : list Z) (k : Z) : Z := if k =? 0 then 0 else nth (Z.to_nat (k - 1)) v 0.

(** C31: a batch of datagrams is paid for exactly: a socket with a shared limiter
    is granted some first packets of the batch, never none, or told to wait at
    no cost; when it has sent [k] of the granted packets, the bucket has paid
    for these packets and their bytes and for nothing else, and after a failure
    to send for nothing. *)
Theorem datagram_batch_paid_exactly (i : nat) (st : dg_store) (t : Z) (v : list Z) :
  gd_ok (st i) -> batch v -> len v <= isize_max -> nth (length v - 1) v 0 <= isize_max ->
  exists r self st', DatagramLimiter_check_packets (socket i) st t v = Ok (r, self, st') /\
    match r with
    | Advance n =>
        1 <= n <= len v /\
        (forall k, 0 <= k <= n -> exists st2,
           DatagramLimiter_set_advance self st' k (batch_bytes v k) = Ok (socket i, st2) /\
           spends (st i) (st2 i) k (batch_bytes v k)) /\
        (exists st2, dl_release_global self st' = Ok (socket i, st2) /\ spends (st i) (st2 i) 0 0)
    | DgDelayUntil _ => self = socket i /\ spends (st i) (st' i) 0 0
    | DgDelayFor _ => False
    end.
Proof.
  intros Hb Hv Hlen Hlast. unfold DatagramLimiter_check_packets. cbn.
  assert (Hlv : 0 <= len v) by len_lia. rewrite slice_ok by lia. cbn [bind]. rewrite Z.sub_0_r.
  change (drop (Z.to_nat 0) v) with v. unfold len at 1. rewrite Nat2Z.id, firstn_all.
  destruct (GlobalDatagramLimiter_check_packets_spec (st i) v Hb Hv) as ([r b'] & -> & Ha). cbn [bind].
  destruct r as [n|d|d]; [| |done].
  - destruct Ha as [Hn Hs]. cbn. destruct (Z.ltb_spec 0 n); [|lia]. rewrite total_at_ok by lia. cbn [bind].
    rewrite Z.ltb_irrefl. cbn. set (z := nth (Z.to_nat (n - 1)) v 0) in *.
    pose proof (proj1 (proj2 Hv)) as Hr. assert (Hz : 0 <= z <= isize_max).
    { unfold len in *. pose proof (Hr (Z.to_nat (n - 1)) (length v - 1)%nat ltac:(lia)).
      pose proof (batch_nonneg v (Z.to_nat (n - 1)) Hv ltac:(lia)). lia. }
    do 3 eexists. split; [reflexivity|]. set (st' := put _ _ _).
    assert (Hst' : spends (st i) (st' i) n z) by (subst st'; by rewrite !put_eq).
    split_and!; [lia|lia| |].
    + intros k Hk. apply (socket_set_advance i (st i) Hb n z ltac:(lia) Hz st' Hst'); [lia|]. unfold batch_bytes.
      destruct (Z.eqb_spec k 0); [lia|]. unfold len in *. split; [apply batch_nonneg; [done|lia]|]. apply Hr. lia.
    + apply (socket_release i (st i) Hb n z ltac:(lia) Hz st' Hst').
  - destruct Ha as [Hs _]. cbn. do 3 eexists. split; [reflexivity|]. split; [done|]. by rewrite put_eq.
Qed.

Lemma datagram_batch_paid_exactly_witness :
  let config := {| gdc_replenish_interval := 1000; gdc_replenish_bytes := 1000; gdc_replenish_packets := 5;
                   gdc_max_burst_bytes := 1000; gdc_max_burst_packets := 5 |} in
  let st : dg_store := fun _ => GlobalDatagramLimiter_new config 0 in
  exists st1 st2, DatagramLimiter_check_packets (socket 0) st 7 [400; 800; 1200] =
      Ok (Advance 2, socket_checked 0 2 800, st1) /\
    DatagramLimiter_set_advance (socket_checked 0 2 800) st1 1 (batch_bytes [400; 800; 1200] 1) = Ok (socket 0, st2) /\
    gd_byte_tokens (st2 0%nat) = 600 /\ gd_packet_tokens (st2 0%nat) = 4.
Proof.
  intros config st.
  assert (Hok : gd_ok (st 0%nat)) by (repeat split; apply Z.leb_le; reflexivity).
  assert (Hv : batch [400; 800; 1200]).
  { split; [done|]. split; [|apply Z.leb_le; reflexivity]. intros [|[|[|i]]] [|[|[|j]]] Hij; cbn in *; lia. }
  destruct (datagram_batch_paid_exactly 0 st 7 [400; 800; 1200] Hok Hv) as (r & self & st1 & He & Hr);
    [apply Z.leb_le; reflexivity..|].
  destruct r as [n|d|d]; [|by vm_compute in He..].
  assert (n = 2) as -> by (by vm_compute in He; injection He).
  assert (self = socket_checked 0 2 800) as -> by (by vm_compute in He; injection He).
  destruct Hr as (_ & Hk & _). destruct (Hk 1 ltac:(lia)) as (st2 & Hs2 & _ & _ & _ & Hp & Hb).
  exists st1, st2. split; [exact He|]. split; [exact Hs2|]. split; [apply Hb|apply Hp]; reflexivity.
Defined.

(** Local limits of datagrams: however the batches come in time, no window
    sees more packets than configured, nor more bytes than configured, except
    for a single datagram that is larger than the limit by itself. *)
Theorem local_datagram_limit_respected (shift mp mb M rand : Z) (bs : list (Z * list Z)) :
  0 <= shift <= 255 -> 0 <= mp -> 0 <= mb -> 0 <= M -> 0 <= rand <= 2 ^ Z.min shift 12 ->
  Forall (fun b => b.1 + 4096 <= u64_max /\ batch b.2 /\ nth 0 b.2 0 <= M) bs -> Sorted.Sorted Z.le (0 :: map fst bs) ->
  batches_len bs <= u64_max -> batches_size bs <= u64_max ->
  exists l p b, LocalDatagramLimiter_new shift mp mb rand = Ok l /\ send_batches l bs = Ok (p, b) /\
    (0 < mp -> forall k, in_window (Z.min shift 12) k p <= mp) /\
    (0 < mb -> forall k, in_window (Z.min shift 12) k b <= Z.max mb M).
Proof.
  intros Hs Hmp Hmb HM Hr Hbs Hsort Hl Hz. unfold LocalDatagramLimiter_new.
  destruct (FixedWindow_new_spec shift None rand Hs Hr) as (w & -> & Hw). cbn [bind].
  set (l := {| ldl_window := w |}). assert (Hi : ldl_inv (Z.min shift 12) mp mb M l [] [] 0).
  { split; cbn; try done; try (intros; lia); apply window_count_nil. }
  destruct (send_batches_spec (Z.min shift 12) mp mb M Hmp Hmb bs l [] [] 0 Hi) as (p & b & Hrun & Hp & Hb);
    [done|constructor|constructor|done..|].
  exists l, p, b. by split_and!.
Qed.

Lemma local_datagram_limit_respected_witness :
  exists l p b, LocalDatagramLimiter_new 10 3 1000 5 = Ok l /\
    send_batches l [(1, [400; 800; 1200]); (2, [1500]); (1024, [1500; 1600])] = Ok (p, b) /\
    (0 < 3 -> forall k, in_window (Z.min 10 12) k p <= 3) /\ (0 < 1000 -> forall k, in_window (Z.min 10 12) k b <= Z.max 1000 1500).
Proof.
  apply (local_datagram_limit_respected 10 3 1000 1500 5 [(1, [400; 800; 1200]); (2, [1500]); (1024, [1500; 1600])]).
  1-5: repeat split; apply Z.leb_le; reflexivity.
  - repeat constructor; try (apply Z.leb_le; reflexivity); try discriminate.
    + intros [|[|[|i]]] [|[|[|j]]] Hij; cbn in *; lia.
    + intros [|i] [|j] Hij; cbn in *; lia.
    + intros [|[|i]] [|[|j]] Hij; cbn in *; lia.
  - repeat constructor; apply Z.leb_le; reflexivity.
  - apply Z.leb_le. reflexivity.
  - apply Z.leb_le. reflexivity.
Defined.

Lemma put_ne st i j b : i <> j -> put st j b i = st i.
Proof. intros. unfold put. by rewrite decide_False. Qed.

(** C37: with two shared limiters a delay is not free.  For all states of two
    buckets and every batch, when the first bucket grants [n] packets and the
    second delays these, the socket waits with the packets given back to the first
    bucket, but the bytes of the [n] packets stay taken from it: [release_global]
    gives back what is noted in [checked_bytes], which [check_packets] fills in only
    after all limiters have agreed.  A single datagram in the same place is given
    back in full. *)
Theorem delayed_batch_keeps_bytes (i j : nat) (st : dg_store) (t n d : Z) (v : list Z) (b b' : GlobalDatagramLimiter) :
  i <> j -> gd_ok (st i) -> batch v -> len v <= isize_max -> nth (length v - 1) v 0 <= isize_max ->
  GlobalDatagramLimiter_check_packets (st i) v = Ok (Advance n, b) ->
  GlobalDatagramLimiter_check_packets (st j) (take (Z.to_nat n) v) = Ok (DgDelayUntil d, b') ->
  let self := dl_add_global (socket i) j in
  (exists st', DatagramLimiter_check_packets self st t v = Ok (DgDelayUntil d, self, st') /\ st' j = b' /\
     spends (st i) (st' i) 0 (batch_bytes v n)) /\
  forall size c c' d', 0 <= size <= isize_max ->
    GlobalDatagramLimiter_check_packet (st i) size = Ok (Advance 1, c) ->
    GlobalDatagramLimiter_check_packet (st j) size = Ok (DgDelayUntil d', c') ->
    exists st', DatagramLimiter_check_packet self st t size = Ok (DgDelayUntil d', self, st') /\ spends (st i) (st' i) 0 0.
Proof.
  intros Hij Hb Hv Hl Hlast Hi Hj self. split.
  - destruct (GlobalDatagramLimiter_check_packets_spec (st i) v Hb Hv) as (x & Hx & Ha). rewrite Hi in Hx. injection Hx as <-.
    destruct Ha as [Hn Hs]. unfold DatagramLimiter_check_packets. cbn -[GlobalDatagramLimiter_check_packets slice].
    rewrite (slice_at [] v []) by (rewrite ?app_nil_r; done). cbn [bind]. rewrite Hi. cbn -[GlobalDatagramLimiter_check_packets slice].
    rewrite slice_ok by (unfold len in *; lia). cbn [bind]. change (Z.to_nat 0) with O. rewrite drop_0, Z.sub_0_r, put_ne, Hj by done.
    cbn. unfold dl_release_global. cbn. rewrite put_ne, put_eq by done.
    destruct (release_packets_ok (st i) b n _ n Hb Hs) as (b2 & -> & H2); [lia..|]. cbn.
    eexists. split; [reflexivity|]. rewrite put_ne, !put_eq by done. split; [done|]. unfold batch_bytes.
    destruct (Z.eqb_spec n 0); [lia|]. by rewrite Z.sub_diag in H2.
  - intros size c c' d' Hsize Hci Hcj.
    destruct (GlobalDatagramLimiter_check_packet_spec (st i) size Hb ltac:(lia)) as (r & c1 & Hx & Ha). rewrite Hci in Hx.
    injection Hx as <- <-. destruct Ha as [_ Hs]. unfold DatagramLimiter_check_packet. cbn -[GlobalDatagramLimiter_check_packet].
    rewrite Hci. cbn -[GlobalDatagramLimiter_check_packet]. rewrite put_ne, Hcj by done. cbn. unfold dl_release_global. cbn. rewrite put_ne, put_eq by done.
    destruct (release_packets_ok (st i) c 1 size 1 Hb Hs) as (c2 & -> & H2); [unfold isize_max; lia..|]. cbn.
    destruct (release_bytes_ok (st i) c2 _ size size Hb H2) as (c3 & -> & H3); [lia..|]. cbn.
    eexists. split; [reflexivity|]. rewrite put_eq. by rewrite !Z.sub_diag in H3.
Qed.

Lemma delayed_batch_keeps_bytes_witness :
  let st : dg_store := fun i => GlobalDatagramLimiter_new (GlobalDatagramSpeedLimitConfig_per_second 1000) 0 in
  let st := put st 1 (gd_set (st 1%nat) 0 0) in
  let self := dl_add_global (socket 0) 1 in
  exists d st', DatagramLimiter_check_packets self st 7 [300; 600] = Ok (DgDelayUntil d, self, st') /\
    gd_byte_tokens (st 0%nat) = 1000 /\ gd_byte_tokens (st' 0%nat) = 400.
Proof.
  intros st0 st self.
  destruct (GlobalDatagramLimiter_check_packets (st 0%nat) [300; 600]) as [[[n| |] b]| |] eqn:Hi; try (vm_compute in Hi; discriminate Hi).
  assert (n = 2) as -> by (by vm_compute in Hi; injection Hi).
  destruct (GlobalDatagramLimiter_check_packets (st 1%nat) (take (Z.to_nat 2) [300; 600])) as [[[|d|] b']| |] eqn:Hj;
    try (vm_compute in Hj; discriminate Hj).
  destruct (delayed_batch_keeps_bytes 0 1 st 7 2 d [300; 600] b b') as [(st' & Hst & _ & _ & _ & _ & _ & Hz) _].
  - discriminate.
  - repeat split; apply Z.leb_le; reflexivity.
  - split; [done|]. split; [|apply Z.leb_le; reflexivity]. intros [|[|i]] [|[|k]] Hik; cbn in *; lia.
  - apply Z.leb_le. reflexivity.
  - apply Z.leb_le. reflexivity.
  - exact Hi.
  - exact Hj.
  - exists d, st'. split; [exact Hst|]. split; [reflexivity|]. apply Hz. reflexivity.
Defined.
