(* ===== verification/WeightedCycle.v ===== *)
(** Weighted nodes and their cycle: the items of
    [lib/vey-types/src/collection/selective_vec.rs] and [weighted_value.rs], and
    the smooth weighted round robin that puts their indices into a cycle, each
    as often as its weight says.

    The hash functions, and the order an unstable sort gives to equal elements,
    are parameters. *)

From Stdlib Require Import ZArith Lia.
From stdpp Require Import base list.
From Stdlib Require Import Sorting.Sorted.
From S2P Require Import Prelude Slices Float64.

(** ** Hashing *)

(** What a [Hash] implementation calls of its hasher: [write], or the method of
    an integer of some width. *)
Inductive write_call : Type :=
| Write (b : bytes)
| WriteInt (width v : Z).

Class Hasher (H : Type) : Type := {
  hasher_write : H -> write_call -> H;
  finish : H -> Z
}.

Class Hash (K : Type) : Type := {
  hash : forall {H} `{Hasher H}, K -> H -> H
}.

(** [finish] returns a [u64]. *)
Class HasherLaws (H : Type) `{Hasher H} : Prop := {
  finish_u64 : forall h : H, 0 <= finish h <= u64_max
}.

(** [crc32fast::Hasher]. *)
Class Crc32 : Type := {
  crc : Type;
  crc_hasher :: Hasher crc;
  crc_new : crc;
  crc_update : crc -> bytes -> crc;
  crc_finalize : crc -> Z
}.

(** [foldhash::fast::FixedState]. *)
Class FixedState : Type := {
  fold : Type;
  fold_hasher :: Hasher fold;
  build_hasher : fold
}.

Definition hash_one `{FixedState} {K} `{Hash K} (key : K) : Z := finish (hash key build_hasher).

(** [slice::sort_unstable_by] leaves the order of equal elements open. *)
Class UnstableSort : Type := {
  sort_unstable_by : forall {A}, (A -> A -> bool) -> list A -> list A
}.

Class UnstableSortLaws `{UnstableSort} : Prop := {
  sort_unstable_perm : forall A leb (l : list A), sort_unstable_by leb l ≡ₚ l;
  sort_unstable_sorted : forall A leb (l : list A),
    (forall a b, a ∈ l -> b ∈ l -> leb a b = true \/ leb b a = true) ->
    (forall a b c, a ∈ l -> b ∈ l -> c ∈ l -> leb a b = true -> leb b c = true -> leb a c = true) ->
    StronglySorted (fun a b => leb a b = true) (sort_unstable_by leb l)
}.

(** ** Items *)

Class SelectiveItem (T : Type) : Type := {
  weight : T -> f64;
  weight_u32 : T -> Z;
  selective_hash : forall {H} `{Hasher H}, T -> H -> H
}.

(** The provided [weight_u32]. *)
Definition default_weight_u32 (weight : f64) : Z :=
  let w := ceil weight in
  if negb (is_finite w) || f64_le w (Finite 0 0) then 0
  else as_u32 (f64_min w (f64_of u32_max)).

(** Anything that can be hashed has weight one. *)
Definition Hash_SelectiveItem {T} `{Hash T} : SelectiveItem T := {|
  weight _ := Finite 1 0;
  weight_u32 _ := 1;
  selective_hash _ _ v state := hash v state
|}.

Record WeightedValue (T : Type) : Type := {
  wv_value : T;
  wv_weight : f64
}.
Arguments wv_value {T} w.
Arguments wv_weight {T} w.

Definition with_weight {T} (value : T) (weight : f64) : WeightedValue T :=
  {| wv_value := value; wv_weight := weight |}.

Definition WeightedValue_new {T} (value : T) : WeightedValue T := with_weight value (Finite 1 0).

#[export] Instance WeightedValue_SelectiveItem {T} `{Hash T} : SelectiveItem (WeightedValue T) := {|
  weight v := wv_weight v;
  weight_u32 v := default_weight_u32 (wv_weight v);
  selective_hash _ _ v state := hash (wv_value v) state
|}.

(** ** Smooth weighted round robin *)

(** [i64::saturating_add] and [i64::saturating_sub]. *)
Definition i64_sat (z : Z) : Z := Z.max (- 2 ^ 63) (Z.min (2 ^ 63 - 1) z).

(** [v[i]]. *)
Definition item_at {A} (v : list A) (i : nat) : pure A :=
  match v !! i with Some a => Ok a | None => Panic end.

Fixpoint gcd_loop (fuel : nat) (a b : Z) : Z :=
  match fuel with
  | O => a
  | S fuel' => if b =? 0 then a else gcd_loop fuel' b (a mod b)
  end.

(** Two rounds of the loop halve the numbers. *)
Definition gcd_u64 (a b : Z) : Z := gcd_loop (Z.to_nat (Z.log2 a + Z.log2 b + 3)) a b.

(** The loop over the weights from index [i] on. *)
Fixpoint swrr_scan (i : nat) (weight current : list Z) (best : nat) (best_weight : Z) : pure (list Z * nat) :=
  match weight with
  | [] => Ok (current, best)
  | w :: weight' =>
      if w <=? 0 then swrr_scan (S i) weight' current best best_weight
      else
        let? c := item_at current i in
        let c := i64_sat (c + w) in
        let current := <[i := c]> current in
        if best_weight <? c then swrr_scan (S i) weight' current i c
        else swrr_scan (S i) weight' current best best_weight
  end.

Definition swrr_step (current weight : list Z) (total : Z) : pure (nat * list Z) :=
  let? '(current, best) := swrr_scan 0 weight current 0 (- 2 ^ 63) in
  let? c := item_at current best in
  Ok (best, <[best := i64_sat (c - total)]> current).

Fixpoint sum_u64 (l : list Z) : pure Z :=
  match l with
  | [] => Ok 0
  | x :: l' => let? s := sum_u64 l' in uadd x s
  end.

Definition MAX_RR_CYCLE : Z := 65536.

(** One pass over the nodes in the order of their remainders: the shares, what
    is left to give away, and whether a node got one. *)
Fixpoint fit_pass (order : list nat) (weight fitted : list Z) (rem : Z) (progressed : bool)
  : pure (list Z * Z * bool) :=
  match order with
  | [] => Ok (fitted, rem, progressed)
  | i :: order' =>
      if rem =? 0 then Ok (fitted, rem, progressed)
      else
        let? w := item_at weight i in
        if w =? 0 then fit_pass order' weight fitted rem progressed
        else
          let? f := item_at fitted i in
          fit_pass order' weight (<[i := saturating_add f 1]> fitted) (rem - 1) true
  end.

Fixpoint fit_loop (fuel : nat) (order : list nat) (weight fitted : list Z) (rem : Z) : pure (list Z) :=
  match fuel with
  | O => Ok fitted
  | S fuel' =>
      if 0 <? rem then
        let? '(fitted, rem, progressed) := fit_pass order weight fitted rem false in
        if progressed then fit_loop fuel' order weight fitted rem else Ok fitted
      else Ok fitted
  end.

Definition remainder_of (weight : list Z) (cap sum : Z) (i : nat) : Z :=
  saturating_mul (nth i weight 0) cap mod sum.

Definition fit_rr_cycle (weight : list Z) : pure (list Z) :=
  let? sum := sum_u64 weight in
  let peers := len (List.filter (fun w => 0 <? w) weight) in
  let cap := Z.max MAX_RR_CYCLE peers in
  if (sum <=? cap) || (sum =? 0) then Ok weight
  else
    let fitted := map (fun w => saturating_mul w cap / sum) weight in
    let used := fold_left saturating_add fitted 0 in
    let rem := saturating_sub cap used in
    let order := sort_by (fun a b => remainder_of weight cap sum b <=? remainder_of weight cap sum a)
                   (seq 0 (length weight)) in
    fit_loop (S (Z.to_nat rem)) order weight fitted rem.

Fixpoint swrr_run (n : nat) (current weight : list Z) (total : Z) : pure (list nat) :=
  match n with
  | O => Ok []
  | S n' =>
      let? '(best, current) := swrr_step current weight total in
      let? seq := swrr_run n' current weight total in
      Ok (best :: seq)
  end.

Definition weights_gcd (weight : list Z) : Z :=
  fold_left (fun g w => if w =? 0 then g else if g =? 0 then w else gcd_u64 g w) weight 0.

Definition swrr_seq {T} `{SelectiveItem T} (nodes : list T) : pure (list nat) :=
  let weight := map weight_u32 nodes in
  let g := weights_gcd weight in
  if g =? 0 then Ok []
  else
    let weight := if 1 <? g then map (fun w => w / g) weight else weight in
    let? weight := fit_rr_cycle weight in
    let? total := sum_u64 weight in
    if 2 ^ 63 - 1 <? total then Ok []
    else if total =? 0 then Ok []
    else swrr_run (Z.to_nat total) (replicate (length weight) 0) weight total.

(** ** Sums *)

Definition sumZ (l : list Z) : Z := fold_right Z.add 0 l.
Arguments sumZ : simpl never.

Lemma sumZ_nil : sumZ [] = 0.
Proof. done. Qed.

Lemma sumZ_cons x l : sumZ (x :: l) = x + sumZ l.
Proof. done. Qed.

Lemma sumZ_app l k : sumZ (l ++ k) = sumZ l + sumZ k.
Proof. induction l as [|x l IH]; cbn; rewrite ?sumZ_cons; [done|lia]. Qed.

Lemma sumZ_zip_add l k : length l = length k -> sumZ (zip_with Z.add l k) = sumZ l + sumZ k.
Proof.
  revert k. induction l as [|x l IH]; intros [|y k]; try done. intros [= Hl]. cbn.
  rewrite ?sumZ_cons. rewrite IH by done. lia.
Qed.

Lemma sumZ_insert l i x y : l !! i = Some x -> sumZ (<[i := y]> l) = sumZ l + y - x.
Proof.
  revert i. induction l as [|z l IH]; intros [|i] Hi; try done.
  - injection Hi as ->. change (<[0%nat := y]> (x :: l)) with (y :: l). rewrite !sumZ_cons. lia.
  - change (<[S i := y]> (z :: l)) with (z :: <[i := y]> l). rewrite !sumZ_cons, (IH i) by done. lia.
Qed.

Lemma sumZ_replicate n x : sumZ (replicate n x) = Z.of_nat n * x.
Proof. induction n as [|n IH]; [done|]. cbn. rewrite ?sumZ_cons. lia. Qed.

Lemma sumZ_nonneg l : Forall (fun x => 0 <= x) l -> 0 <= sumZ l.
Proof. induction 1 as [|x l Hx _ IH]; cbn; [done|]. rewrite ?sumZ_cons. lia. Qed.

Lemma sumZ_le_len l hi : Forall (fun x => x <= hi) l -> sumZ l <= len l * hi.
Proof. induction 1 as [|x l Hx _ IH]; [done|]. rewrite sumZ_cons, len_cons. lia. Qed.

Lemma sumZ_le_member l i x : Forall (fun x => 0 <= x) l -> l !! i = Some x -> x <= sumZ l.
Proof.
  intros Hl. revert i. induction Hl as [|y l Hy Hl IH]; intros [|i] Hi; try done; cbn in *;
    rewrite ?sumZ_cons; pose proof (sumZ_nonneg l Hl).
  - injection Hi as ->. lia.
  - specialize (IH i Hi). lia.
Qed.

(** An element of a list whose sum is known, when no element is below [lo]. *)
Lemma sumZ_upper l i x lo : Forall (fun x => lo <= x) l -> l !! i = Some x -> x <= sumZ l - (len l - 1) * lo.
Proof.
  intros Hl. revert i. induction Hl as [|y l Hy Hl IH]; intros [|i] Hi; try done; cbn in *;
    rewrite ?sumZ_cons; rewrite len_cons.
  - injection Hi as ->. enough (len l * lo <= sumZ l) by lia. clear -Hl.
    induction Hl as [|z l Hz _ IH]; cbn; [done|]. rewrite len_cons. rewrite ?sumZ_cons. lia.
  - specialize (IH i Hi). lia.
Qed.

(** A sum of numbers that are at most [hi] each, and not positive where [p] does
    not hold. *)
Lemma sumZ_positive (p : nat -> bool) l hi off :
  (forall i x, l !! i = Some x -> x <= (if p (off + i)%nat then hi else 0)) ->
  sumZ l <= Z.of_nat (length (List.filter p (seq off (length l)))) * hi.
Proof.
  revert off. induction l as [|x l IH]; intros off Hx; [done|]. cbn. rewrite ?sumZ_cons.
  specialize (IH (S off)). pose proof (Hx 0%nat x eq_refl) as H0. rewrite Nat.add_0_r in H0.
  assert (IH' : sumZ l <= Z.of_nat (length (List.filter p (seq (S off) (length l)))) * hi).
  { apply IH. intros i y Hy. specialize (Hx (S i) y Hy). by rewrite Nat.add_succ_r in Hx. }
  destruct (p off); cbn; lia.
Qed.

Lemma sum_u64_ok l : Forall (fun x => 0 <= x) l -> sumZ l <= u64_max -> sum_u64 l = Ok (sumZ l).
Proof.
  induction 1 as [|x l Hx Hl IH]; [done|]. cbn. rewrite ?sumZ_cons. intros Hs.
  rewrite IH by lia. cbn [bind]. by rewrite uadd_ok.
Qed.

Lemma item_at_ok {A} (l : list A) i a : l !! i = Some a -> item_at l i = Ok a.
Proof. unfold item_at. by intros ->. Qed.

(** How often the indices occur in a sequence. *)
Lemma count_sum n seq :
  Forall (fun i => i < n)%nat seq ->
  sumZ (map (fun i => Z.of_nat (count_occ Nat.eq_dec seq i)) (List.seq 0 n)) = len seq.
Proof.
  induction 1 as [|x seq Hx _ IH].
  - assert (Hz : forall s, sumZ (map (fun i => Z.of_nat (count_occ Nat.eq_dec [] i)) (List.seq s n)) = 0); [|apply Hz].
    induction n as [|n IHn]; intros s; [done|]. cbn [List.seq map]. rewrite sumZ_cons, IHn. done.
  - rewrite len_cons, <- IH. clear IH. assert (Hgen : forall s k, (s <= x < s + k)%nat ->
      sumZ (map (fun i => Z.of_nat (count_occ Nat.eq_dec (x :: seq) i)) (List.seq s k)) =
      1 + sumZ (map (fun i => Z.of_nat (count_occ Nat.eq_dec seq i)) (List.seq s k))); [|apply Hgen; lia].
    assert (Hno : forall k s, (x < s \/ s + k <= x)%nat ->
      sumZ (map (fun i => Z.of_nat (count_occ Nat.eq_dec (x :: seq) i)) (List.seq s k)) =
      sumZ (map (fun i => Z.of_nat (count_occ Nat.eq_dec seq i)) (List.seq s k))).
    { induction k as [|k IHk]; intros s Hs; [done|]. cbn [List.seq map].
      rewrite ?sumZ_cons. rewrite IHk by lia. rewrite count_occ_cons_neq by lia. done. }
    intros s k. revert s. induction k as [|k IHk]; intros s Hs; [lia|]. cbn [List.seq map].
    rewrite ?sumZ_cons. destruct (decide (x = s)) as [->|Hne].
    + rewrite Hno by lia. rewrite count_occ_cons_eq by done. lia.
    + rewrite IHk by lia. rewrite count_occ_cons_neq by done. lia.
Qed.

(** ** The greatest common divisor *)

Lemma gcd_loop_spec fuel a b :
  0 <= b < a -> Z.log2 a + Z.log2 b + 1 < Z.of_nat fuel -> gcd_loop fuel a b = Z.gcd a b.
Proof.
  revert a b. induction fuel as [|fuel IH]; intros a b Hab Hf.
  { pose proof (Z.log2_nonneg a). pose proof (Z.log2_nonneg b). lia. }
  cbn [gcd_loop]. destruct (Z.eqb_spec b 0) as [->|Hb]; [rewrite Z.gcd_0_r; lia|].
  pose proof (Z.mod_pos_bound a b ltac:(lia)) as Hm. rewrite IH; [|done|].
  - rewrite Z.gcd_comm. rewrite Z.gcd_mod by done. apply Z.gcd_comm.
  - enough (Z.log2 (a mod b) < Z.log2 a) by lia. destruct (Z.eq_dec (a mod b) 0) as [->|Hr].
    { pose proof (Z.log2_pos a ltac:(lia)). change (Z.log2 0) with 0. lia. }
    pose proof (Z.div_mod a b Hb). assert (1 <= a / b) by (apply Z.div_le_lower_bound; lia).
    assert (H2 : 2 * (a mod b) <= a) by nia. apply Z.log2_le_mono in H2. rewrite Z.log2_double in H2 by lia. lia.
Qed.

Lemma gcd_u64_spec a b : 0 <= a -> 0 <= b -> gcd_u64 a b = Z.gcd a b.
Proof.
  intros Ha Hb. unfold gcd_u64. pose proof (Z.log2_nonneg a). pose proof (Z.log2_nonneg b).
  destruct (Z.to_nat (Z.log2 a + Z.log2 b + 3)) as [|fuel] eqn:Hfuel; [lia|]. cbn [gcd_loop].
  destruct (Z.eqb_spec b 0) as [->|Hb0]; [rewrite Z.gcd_0_r; lia|].
  pose proof (Z.mod_pos_bound a b ltac:(lia)). rewrite gcd_loop_spec; [|lia|].
  - rewrite Z.gcd_comm, Z.gcd_mod by done. apply Z.gcd_comm.
  - pose proof (Z.log2_le_mono (a mod b) a ltac:(apply Z.mod_le; lia)). lia.
Qed.

Lemma weights_gcd_fold weight : Forall (fun w => 0 <= w) weight -> weights_gcd weight = fold_left Z.gcd weight 0.
Proof.
  intros Hw. unfold weights_gcd. set (f := fun g w => _). enough (Hgen : forall g, 0 <= g ->
    fold_left f weight g = fold_left Z.gcd weight g) by by apply Hgen.
  induction Hw as [|w l Hw _ IH]; intros g Hg; [done|]. cbn [fold_left]. unfold f at 2.
  replace (if w =? 0 then g else if g =? 0 then w else gcd_u64 g w) with (Z.gcd g w); [apply IH, Z.gcd_nonneg|].
  destruct (Z.eqb_spec w 0) as [->|]; [rewrite Z.gcd_0_r; lia|].
  destruct (Z.eqb_spec g 0) as [->|]; [rewrite Z.gcd_0_l; lia|]. by rewrite gcd_u64_spec.
Qed.

Lemma fold_gcd_divides l g : (fold_left Z.gcd l g | g) /\ Forall (fun w => (fold_left Z.gcd l g | w)) l.
Proof.
  revert g. induction l as [|w l IH]; intros g; cbn [fold_left]; [by split; [apply Z.divide_refl|]|].
  destruct (IH (Z.gcd g w)) as [Hg Hl]. split; [|constructor; [|done]]; (eapply Z.divide_trans; [exact Hg|]).
  - apply Z.gcd_divide_l.
  - apply Z.gcd_divide_r.
Qed.

Lemma weights_gcd_nonneg weight : Forall (fun w => 0 <= w) weight -> 0 <= weights_gcd weight.
Proof.
  intros Hw. rewrite weights_gcd_fold by done.
  enough (Hgen : forall g, 0 <= g -> 0 <= fold_left Z.gcd weight g) by by apply Hgen. clear Hw. induction weight as [|w l IH]; intros g Hg; cbn [fold_left]; [done|]. apply IH, Z.gcd_nonneg.
Qed.

(** The weights are multiples of their divisor. *)
Lemma weights_gcd_divides weight : Forall (fun w => 0 <= w) weight ->
  Forall (fun w => w = weights_gcd weight * (w / weights_gcd weight)) weight.
Proof.
  intros Hw. rewrite weights_gcd_fold by done. eapply Forall_impl; [apply (fold_gcd_divides weight 0)|].
  intros w [q ->]. destruct (Z.eq_dec (fold_left Z.gcd weight 0) 0) as [->|]; [lia|]. rewrite Z.div_mul by done. lia.
Qed.

(** ** One step of the round robin *)

Definition in_i64 (z : Z) : Prop := - 2 ^ 63 < z < 2 ^ 63.

Lemma i64_sat_id z : in_i64 z -> i64_sat z = z.
Proof. unfold in_i64, i64_sat. lia. Qed.

(** The node a scan finds among [weight] and [current]: none that is greater than
    [low], or one of the greatest. *)
Definition scan_result (weight current : list Z) (off best : nat) (low : Z) (b : nat) : Prop :=
  (b = best /\ forall j c w, current !! j = Some c -> weight !! j = Some w -> 0 < w -> c + w <= low) \/
  (exists j c w, b = (off + j)%nat /\ current !! j = Some c /\ weight !! j = Some w /\ 0 < w /\ low < c + w /\
     forall j' c' w', current !! j' = Some c' -> weight !! j' = Some w' -> 0 < w' -> c' + w' <= c + w).

Lemma scan_result_cons weight current off best low b c w :
  0 < w ->
  (if low <? c + w then scan_result weight current (S off) off (c + w) b
   else scan_result weight current (S off) best low b) ->
  scan_result (w :: weight) (c :: current) off best low b.
Proof.
  intros Hw. destruct (Z.ltb_spec low (c + w)) as [Hl|Hl]; intros [[-> Hall]|(j & c1 & w1 & -> & Hc & Hw1 & Hp & Hlow & Hall)].
  - right. exists 0%nat, c, w. split_and!; try done; try lia. intros [|j'] c' w' Hc' Hw' Hp'; cbn in *; [simplify_eq; lia|].
    by apply (Hall j').
  - right. exists (S j), c1, w1. split_and!; try done; try lia. intros [|j'] c' w' Hc' Hw' Hp'; cbn in *; [simplify_eq; lia|].
    by apply (Hall j').
  - left. split; [done|]. intros [|j'] c' w' Hc' Hw' Hp'; cbn in *; [simplify_eq; lia|]. by apply (Hall j').
  - right. exists (S j), c1, w1. split_and!; try done; try lia. intros [|j'] c' w' Hc' Hw' Hp'; cbn in *; [simplify_eq; lia|].
    by apply (Hall j').
Qed.

Lemma scan_result_skip weight current off best low b c :
  scan_result weight current (S off) best low b -> scan_result (0 :: weight) (c :: current) off best low b.
Proof.
  intros [[-> Hall]|(j & c1 & w1 & -> & Hc & Hw1 & Hp & Hlow & Hall)].
  - left. split; [done|]. intros [|j'] c' w' Hc' Hw' Hp'; cbn in *; [simplify_eq; lia|]. by apply (Hall j').
  - right. exists (S j), c1, w1. split_and!; try done; try lia. intros [|j'] c' w' Hc' Hw' Hp'; cbn in *; [simplify_eq; lia|].
    by apply (Hall j').
Qed.

Lemma swrr_scan_spec weight pre current best low :
  Forall2 (fun c w => 0 <= w /\ in_i64 (c + w)) current weight ->
  exists b, swrr_scan (length pre) weight (pre ++ current) best low = Ok (pre ++ zip_with Z.add current weight, b) /\
    scan_result weight current (length pre) best low b.
Proof.
  intros Hf. revert pre best low. induction Hf as [|c w current weight [Hw Hs] _ IH]; intros pre best low.
  { exists best. split; [done|]. by left. }
  cbn [swrr_scan zip_with]. destruct (Z.leb_spec w 0) as [Hw0|Hw0].
  - assert (w = 0) as -> by lia. destruct (IH (pre ++ [c]) best low) as (b & Hb & Hr).
    rewrite length_app, Nat.add_1_r, <- !app_assoc in Hb. cbn in Hb. exists b. rewrite Hb. rewrite Z.add_0_r.
    split; [done|]. rewrite length_app, Nat.add_1_r in Hr. by apply scan_result_skip.
  - rewrite (item_at_ok _ _ c) by (by apply list_lookup_middle). cbn [bind]. rewrite i64_sat_id by done.
    rewrite insert_app_r_alt, Nat.sub_diag by lia. cbn [insert list_insert].
    destruct (IH (pre ++ [c + w]) (if low <? c + w then length pre else best) (if low <? c + w then c + w else low))
      as (b & Hb & Hr). rewrite length_app, Nat.add_1_r, <- !app_assoc in Hb. cbn in Hb. exists b.
    split; [by destruct (low <? c + w)|]. rewrite length_app, Nat.add_1_r in Hr. apply scan_result_cons; [done|].
    by destruct (low <? c + w).
Qed.

(** Between two steps: the credits of the nodes add up to zero, none is a whole
    cycle behind, and nodes without weight have none. *)
Record swrr_inv (weight : list Z) (total : Z) (current : list Z) : Prop := {
  si_node : Forall2 (fun c w => 0 <= w /\ - total < c /\ (w = 0 -> c = 0)) current weight;
  si_sum : sumZ current = 0;
  si_total : sumZ weight = total;
  si_positive : 0 < total;
  si_bound : (len weight + 1) * total < 2 ^ 63
}.

Lemma sumZ_nonpos l : Forall (fun x => x <= 0) l -> sumZ l <= 0.
Proof. induction 1; [done|]. rewrite sumZ_cons. lia. Qed.

Lemma Forall2_lookup_both {A B} (P : A -> B -> Prop) l k i a b :
  Forall2 P l k -> l !! i = Some a -> k !! i = Some b -> P a b.
Proof. intros Hf Ha Hb. by eapply (Forall2_lookup_lr _ _ _ i). Qed.

Lemma swrr_credit_range weight total current i c w :
  swrr_inv weight total current -> current !! i = Some c -> weight !! i = Some w -> in_i64 (c + w).
Proof.
  intros [Hn Hs Ht Hp Hb] Hc Hw. pose proof (Forall2_length _ _ _ Hn) as Hl.
  destruct (Forall2_lookup_both _ _ _ _ _ _ Hn Hc Hw) as (Hw0 & Hc0 & _).
  assert (c <= sumZ current - (len current - 1) * (- total + 1)).
  { apply (sumZ_upper current i); [|done]. apply Forall_forall. intros x [j Hj]%list_elem_of_lookup.
    destruct (Forall2_lookup_l _ _ _ _ _ Hn Hj) as (w' & _ & _ & Hx & _). lia. }
  assert (w <= total).
  { rewrite <- Ht. apply (sumZ_le_member weight i); [|done]. apply Forall_forall. intros x [j Hj]%list_elem_of_lookup.
    destruct (Forall2_lookup_r _ _ _ _ _ Hn Hj) as (c' & _ & Hx & _). lia. }
  assert (len current = len weight) as Hlen by (unfold len; by rewrite Hl).
  assert (1 <= len weight). { apply lookup_lt_Some in Hw. unfold len. lia. }
  unfold in_i64. rewrite Hs, Hlen in *. nia.
Qed.

Lemma swrr_inv_scan weight total current :
  swrr_inv weight total current -> Forall2 (fun c w => 0 <= w /\ in_i64 (c + w)) current weight.
Proof.
  intros Hinv. pose proof Hinv as [Hn _ _ _ _]. apply Forall2_same_length_lookup_2; [by eapply Forall2_length|].
  intros i c w Hc Hw. split; [by destruct (Forall2_lookup_both _ _ _ _ _ _ Hn Hc Hw)|]. by eapply swrr_credit_range.
Qed.

Lemma swrr_scan_finds weight total current b :
  swrr_inv weight total current -> scan_result weight current 0 0 (- 2 ^ 63) b ->
  exists c w, current !! b = Some c /\ weight !! b = Some w /\ 0 < w /\ 0 < c + w.
Proof.
  intros Hinv [[_ Hlow]|(j & c & w & -> & Hc & Hw & Hp & _ & Hmax)].
  - exfalso. destruct Hinv as [Hn Hs Ht Htp Hb]. apply (Z.lt_irrefl 0). rewrite <- Ht in Htp. eapply Z.lt_le_trans; [done|].
    apply sumZ_nonpos, Forall_forall. intros w [i Hi]%list_elem_of_lookup.
    destruct (Forall2_lookup_r _ _ _ _ _ Hn Hi) as (c & Hc & Hw & Hc0 & _). destruct (Z.le_gt_cases w 0); [done|].
    specialize (Hlow i c w Hc Hi ltac:(lia)). pose proof (len_nonneg weight). nia.
  - exists c, w. split_and!; try done. destruct Hinv as [Hn Hs Ht Htp Hb]. apply Z.nle_gt. intros Hle.
    assert (Hsum : sumZ (zip_with Z.add current weight) <= 0).
    { apply sumZ_nonpos, Forall_forall. intros x [i Hi]%list_elem_of_lookup.
      apply lookup_zip_with_Some in Hi as (c' & w' & -> & Hc' & Hw').
      destruct (Forall2_lookup_both _ _ _ _ _ _ Hn Hc' Hw') as (Hw0 & _ & Hz).
      destruct (Z.eq_dec w' 0) as [E|]; [specialize (Hz E); lia|]. specialize (Hmax i c' w' Hc' Hw' ltac:(lia)). lia. }
    rewrite sumZ_zip_add, Hs, Ht in Hsum by (by eapply Forall2_length). lia.
Qed.

(** The node a step picks has weight, and the step keeps the invariant. *)
Lemma swrr_step_spec weight total current :
  swrr_inv weight total current ->
  exists b c w, current !! b = Some c /\ weight !! b = Some w /\ 0 < w /\
    swrr_step current weight total = Ok (b, <[b := c + w - total]> (zip_with Z.add current weight)) /\
    swrr_inv weight total (<[b := c + w - total]> (zip_with Z.add current weight)).
Proof.
  intros Hinv. destruct (swrr_scan_spec weight [] current 0 (- 2 ^ 63) (swrr_inv_scan _ _ _ Hinv)) as (b & Hscan & Hr).
  cbn [length app] in *. destruct (swrr_scan_finds _ _ _ _ Hinv Hr) as (c & w & Hc & Hw & Hp & Hpos).
  exists b, c, w. split_and!; try done.
  - unfold swrr_step. rewrite Hscan. cbn [bind]. rewrite (item_at_ok _ _ (c + w)).
    2: { apply lookup_zip_with_Some. eauto. }
    cbn [bind]. rewrite i64_sat_id; [done|]. pose proof (swrr_credit_range _ _ _ _ _ _ Hinv Hc Hw).
    destruct Hinv as [_ _ _ Htp Hb]. pose proof (len_nonneg weight). unfold in_i64 in *. nia.
  - destruct Hinv as [Hn Hs Ht Htp Hb]. pose proof (Forall2_length _ _ _ Hn) as Hl. constructor; try done.
    + apply Forall2_same_length_lookup_2; [rewrite length_insert, length_zip_with; lia|]. intros i c' w' Hc' Hw'.
      apply list_lookup_insert_Some in Hc' as [(-> & <- & _)|[Hne Hc']].
      * simplify_eq. split_and!; lia.
      * apply lookup_zip_with_Some in Hc' as (c0 & w0 & -> & Hc0 & Hw0). simplify_eq.
        destruct (Forall2_lookup_both _ _ _ _ _ _ Hn Hc0 Hw0) as (? & ? & Hz). split_and!; [done|lia|]. intros E.
        specialize (Hz E). lia.
    + rewrite (sumZ_insert _ _ (c + w)) by (apply lookup_zip_with_Some; eauto). rewrite sumZ_zip_add by done. lia.
Qed.

(** ** A run of the round robin *)

(** How often node [i] occurs. *)
Definition picks (seq : list nat) (i : nat) : Z := Z.of_nat (count_occ Nat.eq_dec seq i).

Lemma picks_cons b seq i : picks (b :: seq) i = (if bool_decide (b = i) then 1 else 0) + picks seq i.
Proof.
  unfold picks. cbn [count_occ]. destruct (Nat.eq_dec b i) as [->|].
  - rewrite bool_decide_eq_true_2 by done. lia.
  - rewrite bool_decide_eq_false_2 by done. lia.
Qed.

(** No node is ever ahead of its share by a whole pick. *)
Lemma swrr_run_spec n weight total current :
  swrr_inv weight total current ->
  exists seq, swrr_run n current weight total = Ok seq /\ length seq = n /\
    Forall (fun i => i < length weight)%nat seq /\
    forall p i c w, (p <= n)%nat -> current !! i = Some c -> weight !! i = Some w ->
      - total < c + Z.of_nat p * w - total * picks (take p seq) i.
Proof.
  revert current. induction n as [|n IH]; intros current Hinv.
  { exists []. split_and!; try done. intros p i c w Hp Hc Hw. assert (p = 0%nat) as -> by lia.
    destruct (Forall2_lookup_both _ _ _ _ _ _ (si_node _ _ _ Hinv) Hc Hw) as (_ & ? & _).
    change (picks (take 0 []) i) with 0. lia. }
  destruct (swrr_step_spec _ _ _ Hinv) as (b & cb & wb & Hcb & Hwb & Hp & Hstep & Hinv').
  destruct (IH _ Hinv') as (seq & Hrun & Hlen & Hall & Hcount). exists (b :: seq). cbn [swrr_run].
  rewrite Hstep. cbn [bind]. rewrite Hrun. cbn [bind length]. split_and!; try done; [lia| |].
  { constructor; [by eapply lookup_lt_Some|done]. }
  intros [|p] i c w Hpn Hc Hw.
  { destruct (Forall2_lookup_both _ _ _ _ _ _ (si_node _ _ _ Hinv) Hc Hw) as (_ & ? & _).
    change (picks (take 0 (b :: seq)) i) with 0. lia. }
  cbn [take]. rewrite picks_cons.
  assert (Hz : zip_with Z.add current weight !! i = Some (c + w)) by (apply lookup_zip_with_Some; eauto).
  specialize (Hcount p i (c + w - (if bool_decide (b = i) then total else 0)) w ltac:(lia)). case_bool_decide as E.
  - subst i. simplify_eq. rewrite list_lookup_insert_eq in Hcount by (by eapply lookup_lt_Some).
    specialize (Hcount eq_refl Hwb). lia.
  - rewrite list_lookup_insert_ne in Hcount by done. rewrite Hz in Hcount. specialize (Hcount ltac:(f_equal; lia) Hw). lia.
Qed.

Lemma sumZ_le_eq l k : Forall2 Z.le l k -> sumZ l = sumZ k -> l = k.
Proof.
  assert (Hle : forall l k, Forall2 Z.le l k -> sumZ l <= sumZ k).
  { induction 1; [done|]. rewrite !sumZ_cons. lia. }
  induction 1 as [|x y l k Hxy Hlk IH]; [done|]. rewrite !sumZ_cons. intros Hs. pose proof (Hle _ _ Hlk).
  f_equal; [lia|]. apply IH. lia.
Qed.

Lemma swrr_inv_start weight :
  Forall (fun w => 0 <= w) weight -> 0 < sumZ weight -> (len weight + 1) * sumZ weight < 2 ^ 63 ->
  swrr_inv weight (sumZ weight) (replicate (length weight) 0).
Proof.
  intros Hw Hp Hb. constructor; try done.
  - apply Forall2_same_length_lookup_2; [apply length_replicate|]. intros i c w [-> _]%lookup_replicate Hi.
    rewrite Forall_lookup in Hw. specialize (Hw i w Hi). split_and!; lia.
  - rewrite sumZ_replicate. lia.
Qed.

(** In one cycle every node is picked as often as its weight says, and at no
    point of it was it ahead by a whole pick. *)
Lemma swrr_run_cycle weight :
  Forall (fun w => 0 <= w) weight -> 0 < sumZ weight -> (len weight + 1) * sumZ weight < 2 ^ 63 ->
  exists seq, swrr_run (Z.to_nat (sumZ weight)) (replicate (length weight) 0) weight (sumZ weight) = Ok seq /\
    len seq = sumZ weight /\ Forall (fun i => i < length weight)%nat seq /\
    (forall i w, weight !! i = Some w -> picks seq i = w) /\
    (forall p i w, weight !! i = Some w -> sumZ weight * picks (take p seq) i < Z.of_nat p * w + sumZ weight).
Proof.
  intros Hw Hp Hb. destruct (swrr_run_spec (Z.to_nat (sumZ weight)) _ _ _ (swrr_inv_start weight Hw Hp Hb))
    as (seq & Hrun & Hlen & Hall & Hcount).
  assert (Hahead : forall p i w, (p <= Z.to_nat (sumZ weight))%nat -> weight !! i = Some w ->
    sumZ weight * picks (take p seq) i < Z.of_nat p * w + sumZ weight).
  { intros p i w Hpn Hi. specialize (Hcount p i 0 w Hpn). rewrite lookup_replicate_2 in Hcount by (by eapply lookup_lt_Some).
    specialize (Hcount eq_refl Hi). lia. }
  assert (Heq : map (picks seq) (List.seq 0 (length weight)) = weight).
  { apply sumZ_le_eq.
    - apply Forall2_same_length_lookup_2; [by rewrite length_map, length_seq|]. intros i x w Hx Hi.
      rewrite list_lookup_fmap in Hx. apply fmap_Some in Hx as (j & Hj & ->).
      apply lookup_seq in Hj as [-> _]. cbn. specialize (Hahead (Z.to_nat (sumZ weight)) i w ltac:(lia) Hi).
      rewrite take_ge in Hahead by lia. rewrite Z2Nat.id in Hahead by lia. nia.
    - unfold picks. rewrite count_sum by done. unfold len. lia. }
  exists seq. split_and!; [done|unfold len; lia|done| |].
  - intros i w Hi. rewrite <- Heq in Hi. rewrite list_lookup_fmap in Hi. apply fmap_Some in Hi as (j & Hj & ->).
    by apply lookup_seq in Hj as [-> _].
  - intros p i w Hi. destruct (Nat.le_gt_cases p (Z.to_nat (sumZ weight))) as [|Hgt]; [by apply Hahead|].
    specialize (Hahead (Z.to_nat (sumZ weight)) i w ltac:(lia) Hi). rewrite !take_ge in * by lia.
    rewrite Forall_lookup in Hw. specialize (Hw i w Hi). nia.
Qed.

(** ** Fitting the weights *)

(** One more for the nodes of [chosen]. *)
Definition bump (chosen : list nat) (fitted : list Z) : list Z :=
  imap (fun i f => if bool_decide (i ∈ chosen) then f + 1 else f) fitted.

Lemma lookup_bump chosen fitted i :
  bump chosen fitted !! i = (fun f => if bool_decide (i ∈ chosen) then f + 1 else f) <$> fitted !! i.
Proof. unfold bump. by rewrite list_lookup_imap. Qed.

Lemma bump_cons i chosen fitted f :
  i ∉ chosen -> fitted !! i = Some f -> bump chosen (<[i := f + 1]> fitted) = bump (i :: chosen) fitted.
Proof.
  intros Hi Hf. apply list_eq. intros j. rewrite !lookup_bump. destruct (decide (i = j)) as [<-|Hne].
  - rewrite list_lookup_insert_eq by (by eapply lookup_lt_Some). rewrite Hf. cbn.
    rewrite bool_decide_eq_false_2 by done. rewrite bool_decide_eq_true_2 by (by left). done.
  - rewrite list_lookup_insert_ne by done. destruct (fitted !! j); [|done]. cbn. f_equal.
    destruct (decide (j ∈ chosen)) as [Hj|Hj].
    + rewrite !bool_decide_eq_true_2; [done|by right|done].
    + rewrite !bool_decide_eq_false_2; [done| |done]. rewrite elem_of_cons. by intros [->|].
Qed.

Lemma bump_nil fitted : bump [] fitted = fitted.
Proof.
  apply list_eq. intros j. rewrite lookup_bump. destruct (fitted !! j); [|done]. cbn.
  by rewrite bool_decide_eq_false_2 by apply not_elem_of_nil.
Qed.

Lemma bump_sum chosen fitted :
  NoDup chosen -> Forall (fun i => i < length fitted)%nat chosen -> sumZ (bump chosen fitted) = sumZ fitted + len chosen.
Proof.
  intros Hd. revert fitted. induction Hd as [|i chosen Hi _ IH]; intros fitted Hf.
  { rewrite bump_nil, len_nil. lia. }
  apply Forall_cons_1 in Hf as [Hlt Hf]. destruct (lookup_lt_is_Some_2 fitted i Hlt) as [f Hfi].
  rewrite <- (bump_cons i chosen fitted f) by done. rewrite IH by (by rewrite length_insert).
  rewrite (sumZ_insert _ _ f) by done. rewrite len_cons. lia.
Qed.

(** The nodes with weight, in an order. *)
Definition weighty (weight : list Z) (order : list nat) : list nat :=
  List.filter (fun i => negb (nth i weight 0 =? 0)) order.

Lemma elem_of_weighty weight order i : i ∈ weighty weight order <-> i ∈ order /\ nth i weight 0 <> 0.
Proof.
  unfold weighty. rewrite !list_elem_of_In, filter_In. rewrite negb_true_iff, Z.eqb_neq. done.
Qed.

Lemma fit_pass_spec order weight fitted rem progressed :
  NoDup order -> length fitted = length weight -> Forall (fun i => i < length weight)%nat order ->
  Forall (fun i => forall f, fitted !! i = Some f -> f < u64_max) order -> 0 <= rem ->
  let chosen := take (Z.to_nat rem) (weighty weight order) in
  fit_pass order weight fitted rem progressed =
    Ok (bump chosen fitted, rem - len chosen, progressed || negb (bool_decide (chosen = []))).
Proof.
  intros Hd. revert fitted rem progressed. induction Hd as [|i order Hi _ IH]; intros fitted rem progressed Hl Hlt Hf Hr.
  { cbn. rewrite take_nil, bump_nil, len_nil, orb_false_r. f_equal. f_equal. f_equal. lia. }
  apply Forall_cons_1 in Hlt as [Hil Hlt]. apply Forall_cons_1 in Hf as [Hfi Hf]. cbn [fit_pass].
  destruct (Z.eqb_spec rem 0) as [->|Hr0].
  { cbn. rewrite bump_nil, orb_false_r. done. }
  destruct (lookup_lt_is_Some_2 weight i Hil) as [w Hw]. rewrite (item_at_ok _ _ w) by done. cbn [bind].
  unfold weighty. cbn [List.filter]. rewrite (nth_lookup_Some _ _ _ w) by done. fold (weighty weight order).
  destruct (Z.eqb_spec w 0) as [->|Hw0]; cbn [negb]; [by apply IH|].
  destruct (lookup_lt_is_Some_2 fitted i ltac:(lia)) as [f Hfit]. rewrite (item_at_ok _ _ f) by done. cbn [bind].
  specialize (Hfi f Hfit). unfold saturating_add. rewrite Z.min_r by (unfold usize_max; lia).
  replace (Z.to_nat rem) with (S (Z.to_nat (rem - 1))) by lia. cbn [take]. rewrite IH; [|by rewrite length_insert|done| |lia].
  - rewrite bump_cons; [| |done]; [rewrite len_cons|].
    + rewrite (bool_decide_eq_false_2 (_ :: _ = _)) by done. rewrite orb_true_r. f_equal. f_equal. f_equal. lia.
    + intros (j & Hj & _)%elem_of_take. apply list_elem_of_lookup_2, elem_of_weighty in Hj as [Hj _]. done.
  - rewrite Forall_forall in Hf |- *. intros j Hj f' Hf'. rewrite list_lookup_insert_ne in Hf' by (by intros ->).
    by apply (Hf j).
Qed.

Lemma weighty_perm weight order order' : order ≡ₚ order' -> weighty weight order ≡ₚ weighty weight order'.
Proof.
  unfold weighty. induction 1 as [|i l k _ IH|i j l|l k k' _ IH _ IH']; cbn; [done| | |by rewrite IH].
  - destruct (negb _); by rewrite IH.
  - destruct (negb _), (negb _); done || apply Permutation_swap.
Qed.

Lemma fit_loop_one fuel order weight fitted rem :
  NoDup order -> length fitted = length weight -> Forall (fun i => i < length weight)%nat order ->
  Forall (fun i => forall f, fitted !! i = Some f -> f < u64_max) order -> 0 <= rem <= len (weighty weight order) ->
  (1 < fuel)%nat ->
  fit_loop fuel order weight fitted rem = Ok (bump (take (Z.to_nat rem) (weighty weight order)) fitted).
Proof.
  intros Hd Hl Hlt Hf Hr Hfuel. destruct fuel as [|[|fuel]]; [lia|lia|]. cbn [fit_loop].
  destruct (Z.ltb_spec 0 rem) as [Hp|Hp].
  - rewrite fit_pass_spec by (done || lia). cbn [bind orb]. set (chosen := take _ _).
    assert (Hc : len chosen = rem) by (subst chosen; rewrite len_take; lia). rewrite Hc, Z.sub_diag. cbn [Z.ltb Z.compare].
    rewrite bool_decide_eq_false_2; [done|]. intros E. rewrite E, len_nil in Hc. lia.
  - assert (rem = 0) as -> by lia. cbn. by rewrite bump_nil.
Qed.

Lemma fold_saturating l s :
  Forall (fun x => 0 <= x) l -> 0 <= s -> s + sumZ l <= usize_max -> fold_left saturating_add l s = s + sumZ l.
Proof.
  intros Hl. revert s. induction Hl as [|x l Hx Hl IH]; intros s Hs Hm; cbn [fold_left].
  - rewrite sumZ_nil. lia.
  - rewrite sumZ_cons in *. pose proof (sumZ_nonneg l Hl). unfold saturating_add at 2. rewrite Z.min_r by lia.
    rewrite IH by lia. lia.
Qed.

(** ** Shares of a cycle that is too long *)

Section fit.

Context (weight : list Z).

Definition fit_sum : Z := sumZ weight.
Definition fit_cap : Z := Z.max MAX_RR_CYCLE (len (List.filter (fun w => 0 <? w) weight)).

(** The whole part and the rest of what a weight gets of [fit_cap] slots. *)
Definition fit_quota (w : Z) : Z := w * fit_cap / fit_sum.
Definition fit_rest (w : Z) : Z := (w * fit_cap) mod fit_sum.
Definition fit_left : Z := fit_cap - sumZ (map fit_quota weight).
Definition fit_order : list nat :=
  sort_by (fun a b => remainder_of weight fit_cap fit_sum b <=? remainder_of weight fit_cap fit_sum a)
    (seq 0 (length weight)).
Definition fit_chosen : list nat := take (Z.to_nat fit_left) (weighty weight fit_order).

Context (Hw : Forall (fun w => 0 <= w <= u32_max) weight).
Context (Hlen : len weight < 2 ^ 31).
Context (Hlong : fit_cap < fit_sum).

Lemma fit_cap_range : MAX_RR_CYCLE <= fit_cap < 2 ^ 31.
Proof using Hlen.
  unfold fit_cap, MAX_RR_CYCLE. pose proof (filter_length_le (fun w => 0 <? w) weight). unfold len in *. lia.
Qed.

Lemma fit_sum_range : 0 < fit_sum < 2 ^ 63.
Proof using Hw Hlen Hlong.
  pose proof fit_cap_range. unfold MAX_RR_CYCLE in *. split; [lia|]. clear Hlong. unfold fit_sum.
  enough (sumZ weight <= len weight * u32_max) by (pose proof (len_nonneg weight); unfold u32_max in *; lia).
  apply sumZ_le_len. eapply Forall_impl; [exact Hw|]. cbn. lia.
Qed.

Lemma fit_mul w : 0 <= w <= u32_max -> saturating_mul w fit_cap = w * fit_cap.
Proof using Hlen.
  intros Hr. pose proof fit_cap_range. unfold saturating_mul. apply Z.min_r. unfold usize_max, u64_max, u32_max, MAX_RR_CYCLE in *.
  nia.
Qed.

Lemma fit_split w : w * fit_cap = fit_sum * fit_quota w + fit_rest w /\ 0 <= fit_rest w < fit_sum.
Proof using Hw Hlen Hlong.
  pose proof fit_sum_range. split; [apply Z.div_mod; lia|]. apply Z.mod_pos_bound. lia.
Qed.

(** The rests add up to the slots that the whole parts leave. *)
Lemma fit_rests : sumZ (map fit_rest weight) = fit_sum * fit_left.
Proof using Hw Hlen Hlong.
  enough (Hgen : forall l, sumZ (map fit_rest l) = sumZ l * fit_cap - fit_sum * sumZ (map fit_quota l)).
  { rewrite Hgen. unfold fit_left. fold fit_sum. lia. }
  induction l as [|w l IH]; [cbn; rewrite sumZ_nil; lia|]. cbn [map]. rewrite !sumZ_cons, IH.
  destruct (fit_split w). lia.
Qed.

Lemma fit_left_range : 0 <= fit_left <= len (weighty weight fit_order).
Proof using Hw Hlen Hlong.
  pose proof fit_sum_range. split.
  - assert (0 <= sumZ (map fit_rest weight)); [|rewrite fit_rests in *; nia]. apply sumZ_nonneg, Forall_map.
    apply Forall_forall. intros w _. cbn. destruct (fit_split w). lia.
  - assert (sumZ (map fit_rest weight) <= len (weighty weight fit_order) * fit_sum); [|rewrite fit_rests in *; nia].
    assert (Hp : weighty weight fit_order ≡ₚ weighty weight (seq 0 (length weight))) by apply weighty_perm, sort_by_perm.
    unfold len. rewrite Hp. unfold weighty. rewrite <- (length_map fit_rest weight) at 1. apply sumZ_positive.
    intros i r Hi. cbn [Nat.add]. rewrite list_lookup_fmap in Hi. apply fmap_Some in Hi as (w & Hi & ->).
    rewrite (nth_lookup_Some _ _ _ w) by done. destruct (Z.eqb_spec w 0) as [->|]; cbn [negb].
    + unfold fit_rest. rewrite Z.mul_0_l, Z.mod_0_l by lia. lia.
    + destruct (fit_split w). lia.
Qed.

Lemma fit_order_nodup : NoDup fit_order.
Proof using. unfold fit_order. rewrite sort_by_perm. apply NoDup_seq. Qed.

Lemma fit_order_lt : Forall (fun i => i < length weight)%nat fit_order.
Proof using.
  unfold fit_order. rewrite sort_by_perm. apply Forall_forall. intros i Hi%elem_of_seq. lia.
Qed.

Lemma fit_quotas_ok : map (fun w => saturating_mul w fit_cap / fit_sum) weight = map fit_quota weight.
Proof using Hw Hlen.
  apply map_ext_in. intros w Hin%list_elem_of_In. rewrite Forall_forall in Hw. by rewrite fit_mul by (by apply Hw).
Qed.

Lemma fit_quota_range w : 0 <= w <= u32_max -> 0 <= fit_quota w < u64_max.
Proof using Hw Hlen Hlong.
  intros Hr. pose proof fit_sum_range. pose proof fit_cap_range as Hc. unfold MAX_RR_CYCLE, u32_max, u64_max in *.
  destruct (fit_split w) as [Hs Hrest]. split; nia.
Qed.

Lemma fit_rr_cycle_long : fit_rr_cycle weight = Ok (bump fit_chosen (map fit_quota weight)).
Proof using Hw Hlen Hlong.
  pose proof fit_sum_range as Hs. pose proof fit_cap_range as Hc. pose proof fit_left_range as Hleft. unfold fit_rr_cycle.
  rewrite sum_u64_ok; cycle 1.
  { eapply Forall_impl; [exact Hw|]. cbn. lia. }
  { fold fit_sum. unfold u64_max. lia. }
  cbn [bind]. fold fit_cap fit_sum. rewrite (proj2 (Z.leb_gt _ _)) by done. rewrite (proj2 (Z.eqb_neq _ _)) by lia. cbn [orb].
  rewrite fit_quotas_ok.
  assert (Hnn : Forall (fun x => 0 <= x) (map fit_quota weight)).
  { apply Forall_map. eapply Forall_impl; [exact Hw|]. cbn. intros w Hr. apply (fit_quota_range w Hr). }
  rewrite fold_saturating; [|done|lia|unfold fit_left, usize_max, u64_max in *; lia]. rewrite Z.add_0_l.
  replace (saturating_sub fit_cap (sumZ (map fit_quota weight))) with fit_left
    by (unfold saturating_sub, fit_left in *; lia).
  fold fit_order. destruct (Z.eq_dec fit_left 0) as [E|E].
  { unfold fit_chosen. rewrite E. cbn. by rewrite bump_nil. }
  apply fit_loop_one; [apply fit_order_nodup|apply length_map|apply fit_order_lt| |done|lia].
  apply Forall_forall. intros i _ f Hf. rewrite list_lookup_fmap in Hf. apply fmap_Some in Hf as (w & Hi & ->).
  apply fit_quota_range. by eapply (Forall_lookup_1 _ _ _ _ Hw).
Qed.

Lemma fit_share i w : weight !! i = Some w ->
  bump fit_chosen (map fit_quota weight) !! i =
    Some (if bool_decide (i ∈ fit_chosen) then fit_quota w + 1 else fit_quota w).
Proof using. intros Hi. rewrite lookup_bump, list_lookup_fmap, Hi. done. Qed.

Lemma elem_of_fit_chosen i : i ∈ fit_chosen -> i ∈ weighty weight fit_order.
Proof using. intros (j & Hj & _)%elem_of_take. by apply list_elem_of_lookup_2 in Hj. Qed.

Lemma weighty_nodup order : NoDup order -> NoDup (weighty weight order).
Proof using.
  unfold weighty. intros Hd%NoDup_ListNoDup. apply NoDup_ListNoDup. by apply List.NoDup_filter.
Qed.

(** All the slots are given away. *)
Lemma fit_shares_sum : sumZ (bump fit_chosen (map fit_quota weight)) = fit_cap.
Proof using Hw Hlen Hlong.
  rewrite bump_sum.
  - unfold fit_chosen at 1. pose proof fit_left_range. rewrite len_take. unfold fit_left in *. lia.
  - pose proof (weighty_nodup _ fit_order_nodup) as Hd. rewrite <- (take_drop (Z.to_nat fit_left) (weighty _ _)) in Hd.
    by apply NoDup_app in Hd as [Hd _].
  - rewrite length_map. apply Forall_forall. intros i [Hi _]%elem_of_fit_chosen%elem_of_weighty.
    pose proof fit_order_lt as Hlt. rewrite Forall_forall in Hlt. by apply Hlt.
Qed.

Lemma fit_chosen_weight i w : i ∈ fit_chosen -> weight !! i = Some w -> w <> 0.
Proof using. intros [_ Hn]%elem_of_fit_chosen%elem_of_weighty Hi. by rewrite (nth_lookup_Some _ _ _ w) in Hn. Qed.

Lemma StronglySorted_take {A} (R : A -> A -> Prop) n l a b :
  StronglySorted R l -> a ∈ take n l -> b ∈ drop n l -> R a b.
Proof using.
  intros Hs. revert n. induction Hs as [|x l Hs IH Hx]; intros n; [by rewrite take_nil, elem_of_nil|].
  destruct n as [|n]; cbn; [by rewrite elem_of_nil|]. rewrite elem_of_cons. intros [->|Ha] Hb; [|by eapply IH].
  rewrite Forall_forall in Hx. apply Hx. rewrite <- (take_drop n l). apply elem_of_app. by right.
Qed.

Lemma StronglySorted_filter {A} (R : A -> A -> Prop) p l : StronglySorted R l -> StronglySorted R (List.filter p l).
Proof using.
  induction 1 as [|x l Hs IH Hx]; cbn; [constructor|]. destruct (p x); [|done]. constructor; [done|].
  rewrite Forall_forall in Hx |- *. intros y Hy%list_elem_of_In. apply filter_In in Hy as [Hy _]. by apply Hx, list_elem_of_In.
Qed.

(** A node that gets one of the slots left has no smaller rest than one that does
    not. *)
Lemma fit_largest_rest i j w w' :
  i ∈ fit_chosen -> j ∉ fit_chosen -> weight !! i = Some w -> weight !! j = Some w' -> w' <> 0 ->
  fit_rest w' <= fit_rest w.
Proof using Hw Hlen.
  intros Hi Hj Hwi Hwj Hn.
  assert (Hr : forall k v, weight !! k = Some v -> remainder_of weight fit_cap fit_sum k = fit_rest v).
  { intros k v Hk. unfold remainder_of, fit_rest. rewrite (nth_lookup_Some _ _ _ v) by done.
    rewrite fit_mul; [done|]. by eapply (Forall_lookup_1 _ _ _ _ Hw). }
  assert (Hs : StronglySorted (fun a b => (remainder_of weight fit_cap fit_sum b <=? remainder_of weight fit_cap fit_sum a) = true)
    (weighty weight fit_order)).
  { unfold weighty. apply StronglySorted_filter. unfold fit_order. apply (sort_by_sorted _ (fun _ => True)); [intros; lia..|by apply Forall_forall]. }
  assert (Hjd : j ∈ drop (Z.to_nat fit_left) (weighty weight fit_order)).
  { assert (j ∈ weighty weight fit_order) as Hin.
    { apply elem_of_weighty. split; [|by rewrite (nth_lookup_Some _ _ _ w')]. unfold fit_order. rewrite sort_by_perm.
      apply elem_of_seq. apply lookup_lt_Some in Hwj. lia. }
    rewrite <- (take_drop (Z.to_nat fit_left) (weighty weight fit_order)), elem_of_app in Hin. by destruct Hin. }
  pose proof (StronglySorted_take _ _ _ _ _ Hs Hi Hjd) as Hle. cbn in Hle.
  rewrite (Hr i w), (Hr j w') in Hle by done. lia.
Qed.

End fit.

Lemma fit_rr_cycle_short weight :
  Forall (fun w => 0 <= w <= u32_max) weight -> len weight < 2 ^ 31 -> fit_sum weight <= fit_cap weight ->
  fit_rr_cycle weight = Ok weight.
Proof.
  intros Hw Hl Hs. pose proof (fit_cap_range weight Hl). unfold fit_rr_cycle. rewrite sum_u64_ok; cycle 1.
  { eapply Forall_impl; [exact Hw|]. cbn. lia. }
  { unfold fit_sum, u64_max in *. lia. }
  cbn [bind]. fold (fit_cap weight). fold (fit_sum weight). by rewrite (proj2 (Z.leb_le _ _)).
Qed.

(** The fitted weights: not negative, not all zero, and within the cap. *)
Lemma fit_rr_cycle_ok weight :
  Forall (fun w => 0 <= w <= u32_max) weight -> len weight < 2 ^ 31 -> 0 < sumZ weight ->
  exists fitted, fit_rr_cycle weight = Ok fitted /\ length fitted = length weight /\
    Forall (fun f => 0 <= f) fitted /\ 0 < sumZ fitted <= fit_cap weight.
Proof.
  intros Hw Hl Hp. pose proof (fit_cap_range weight Hl) as Hc. unfold MAX_RR_CYCLE in Hc.
  destruct (Z.le_gt_cases (fit_sum weight) (fit_cap weight)) as [Hs|Hs].
  - exists weight. split_and!; try done; [by apply fit_rr_cycle_short|]. eapply Forall_impl; [exact Hw|]. cbn. lia.
  - exists (bump (fit_chosen weight) (map (fit_quota weight) weight)). split_and!.
    + by apply fit_rr_cycle_long.
    + unfold bump. by rewrite length_imap, length_map.
    + apply Forall_lookup. intros i f Hf. destruct (lookup_lt_is_Some_2 weight i) as [w Hi].
      { apply lookup_lt_Some in Hf. unfold bump in Hf. by rewrite length_imap, length_map in Hf. }
      rewrite (fit_share _ _ w) in Hf by done. injection Hf as <-.
      pose proof (fit_quota_range weight Hw Hl Hs w ltac:(by eapply (Forall_lookup_1 _ _ _ _ Hw))).
      case_bool_decide; lia.
    + rewrite fit_shares_sum by done. lia.
    + rewrite fit_shares_sum by done. lia.
Qed.

(** The weights of the nodes, without their common divisor. *)
Definition reduced_weights {T} `{SelectiveItem T} (nodes : list T) : list Z :=
  map (fun node => weight_u32 node / weights_gcd (map weight_u32 nodes)) nodes.

(** [weight_u32] is a [u32]. *)
Definition u32_weights {T} `{SelectiveItem T} (nodes : list T) : Prop :=
  Forall (fun node => 0 <= weight_u32 node <= u32_max) nodes.

Section reduced.

Context {T : Type} `{SelectiveItem T} (nodes : list T).
Context (Hu : u32_weights nodes).

Lemma u32_weights_nonneg : Forall (fun w => 0 <= w) (map weight_u32 nodes).
Proof using Hu. apply Forall_map. eapply Forall_impl; [exact Hu|]. cbn. lia. Qed.

Lemma reduced_weight_mul node : node ∈ nodes ->
  weight_u32 node = weights_gcd (map weight_u32 nodes) * (weight_u32 node / weights_gcd (map weight_u32 nodes)).
Proof using Hu.
  intros Hin. pose proof (weights_gcd_divides _ u32_weights_nonneg) as Hd. rewrite Forall_map in Hd.
  by rewrite Forall_forall in Hd; apply Hd.
Qed.

Lemma reduced_weights_range : Forall (fun w => 0 <= w <= u32_max) (reduced_weights nodes).
Proof using Hu.
  unfold reduced_weights. apply Forall_map, Forall_forall. intros node Hin. cbn.
  pose proof (weights_gcd_nonneg _ u32_weights_nonneg) as Hg. pose proof (reduced_weight_mul node Hin) as Hm.
  unfold u32_weights in Hu. rewrite Forall_forall in Hu. specialize (Hu node Hin).
  set (g := weights_gcd _) in *. set (q := _ / g) in *. destruct (Z.eq_dec g 0) as [E|]; [|nia].
  subst q. rewrite E, Z.div_0_r. unfold u32_max. lia.
Qed.

Context (Hsome : Exists (fun node => 0 < weight_u32 node) nodes).

Lemma reduced_gcd_positive : 0 < weights_gcd (map weight_u32 nodes).
Proof using Hu Hsome.
  pose proof (weights_gcd_nonneg _ u32_weights_nonneg). apply Exists_exists in Hsome as (node & Hin & Hp).
  pose proof (reduced_weight_mul node Hin) as Hm. destruct (Z.eq_dec (weights_gcd (map weight_u32 nodes)) 0) as [E|]; [|lia].
  rewrite E in Hm. lia.
Qed.

Lemma reduced_weights_positive : 0 < sumZ (reduced_weights nodes).
Proof using Hu Hsome.
  pose proof reduced_gcd_positive as Hg. pose proof Hsome as (node & Hin & Hp)%Exists_exists.
  pose proof (reduced_weight_mul node Hin) as Hm. apply list_elem_of_lookup in Hin as [i Hi].
  eapply Z.lt_le_trans; [|apply (sumZ_le_member _ i)].
  2: { eapply Forall_impl; [apply reduced_weights_range|]. cbn. lia. }
  2: { unfold reduced_weights. by rewrite list_lookup_fmap, Hi. }
  cbn. nia.
Qed.

(** The cycle of nodes some of which have a weight: each is in it as often as
    its fitted weight says. *)
Lemma swrr_seq_spec :
  len nodes < 2 ^ 31 ->
  exists shares seq, fit_rr_cycle (reduced_weights nodes) = Ok shares /\ length shares = length nodes /\
    swrr_seq nodes = Ok seq /\ 0 < len seq /\ len seq = sumZ shares /\ Forall (fun i => i < length nodes)%nat seq /\
    (forall i s, shares !! i = Some s -> picks seq i = s) /\
    (forall p i s, shares !! i = Some s -> len seq * picks (take p seq) i < Z.of_nat p * s + len seq).
Proof using Hu Hsome.
  intros Hl. assert (Hlr : len (reduced_weights nodes) = len nodes) by (unfold reduced_weights, len; by rewrite length_map).
  pose proof reduced_gcd_positive as Hg.
  destruct (fit_rr_cycle_ok _ reduced_weights_range ltac:(lia) reduced_weights_positive) as (shares & Hfit & Hls & Hnn & Hsum).
  assert (Hl31 : len (reduced_weights nodes) < 2 ^ 31) by lia. pose proof (fit_cap_range _ Hl31) as Hc.
  assert (Hls' : length shares = length nodes) by (rewrite Hls; apply length_map).
  assert (Hlen : len shares = len nodes) by (unfold len; lia).
  destruct (swrr_run_cycle shares Hnn ltac:(lia)) as (seq & Hrun & Hlq & Hlt & Hpicks & Hahead); [nia|].
  exists shares, seq. rewrite Hls' in Hlt. rewrite Hlq. split_and!; try done; [|lia].
  unfold swrr_seq. rewrite (proj2 (Z.eqb_neq _ _)) by lia.
  replace (if 1 <? _ then _ else _) with (reduced_weights nodes).
  2: { unfold reduced_weights. destruct (Z.ltb_spec 1 (weights_gcd (map weight_u32 nodes))) as [|Hg1]; [by rewrite map_map|].
       assert (weights_gcd (map weight_u32 nodes) = 1) as -> by lia. apply map_ext. intros a. apply Z.div_1_r. }
  rewrite Hfit. cbn [bind]. rewrite sum_u64_ok by (done || unfold u64_max; lia). cbn [bind].
  rewrite (proj2 (Z.ltb_ge _ _)) by lia. rewrite (proj2 (Z.eqb_neq _ _)) by lia. done.
Qed.

End reduced.

(** Without any weight there is no cycle. *)
Lemma swrr_seq_empty {T} `{SelectiveItem T} (nodes : list T) :
  Forall (fun node => weight_u32 node = 0) nodes -> swrr_seq nodes = Ok [].
Proof.
  intros Hz. unfold swrr_seq. replace (weights_gcd (map weight_u32 nodes)) with 0; [done|].
  unfold weights_gcd. symmetry. induction Hz as [|node nodes Hn _ IH]; [done|]. cbn [map fold_left]. by rewrite Hn.
Qed.

(** ** Weights as integers *)

(** The smallest integer that is not below a number. *)
Definition round_up (m e : Z) : Z := if 0 <=? e then m * 2 ^ e else - (- m / 2 ^ (- e)).

Lemma round_up_positive m e : 0 < m -> 0 < round_up m e.
Proof.
  intros Hm. unfold round_up. destruct (Z.leb_spec 0 e).
  - apply Z.mul_pos_pos; [done|]. apply Z.pow_pos_nonneg; lia.
  - assert (- m / 2 ^ (- e) < 0); [|lia]. apply Z.div_lt_upper_bound; [apply Z.pow_pos_nonneg|]; lia.
Qed.

Lemma round_up_nonpos m e : m <= 0 -> round_up m e <= 0.
Proof.
  intros Hm. unfold round_up. destruct (Z.leb_spec 0 e).
  - apply Z.mul_nonpos_nonneg; [done|]. apply Z.pow_nonneg; lia.
  - assert (0 <= - m / 2 ^ (- e)); [|lia]. apply Z.div_pos; [lia|]. apply Z.pow_pos_nonneg; lia.
Qed.

(** Rounding up gives an integer, at some exponent that is not negative. *)
Lemma ceil_Finite m e : exists m' e', ceil (Finite m e) = Finite m' e' /\ 0 <= e' /\ m' * 2 ^ e' = round_up m e.
Proof.
  unfold ceil, round_up. destruct (Z.leb_spec 0 e); eexists _, _; split_and!; [done|lia|done|done|lia|].
  rewrite Z.pow_0_r. lia.
Qed.

Lemma f64_le_zero m e : 0 <= e -> f64_le (Finite m e) (Finite 0 0) = (m * 2 ^ e <=? 0).
Proof.
  intros He. unfold f64_le. rewrite (partial_cmp_key 0) by done. unfold key_cmp, f64_key. cbn [fst snd Z.compare].
  rewrite Z.mul_0_l, Z.sub_0_r. unfold Z.leb. by destruct (_ ?= 0).
Qed.

Lemma f64_min_u32 m e : 0 <= e -> 0 < m * 2 ^ e -> as_u32 (f64_min (Finite m e) (f64_of u32_max)) = Z.min u32_max (m * 2 ^ e).
Proof.
  intros He Hp. destruct (f64_of_exact u32_max ltac:(done)) as (e' & He' & ->). unfold f64_min.
  rewrite (partial_cmp_key e') by (done || cbn; lia). unfold key_cmp, f64_key. cbn [fst snd Z.compare].
  rewrite Z.sub_diag, Z.pow_0_r, Z.mul_1_r. assert (0 < 2 ^ (- e')) by (apply Z.pow_pos_nonneg; lia).
  replace (e - e') with (e + (- e')) by lia. rewrite Z.pow_add_r, Z.mul_assoc by lia.
  assert (Hsmall : m * 2 ^ e <= u32_max -> as_u32 (Finite m e) = Z.min u32_max (m * 2 ^ e)).
  { intros Hm. unfold as_u32, f64_as, trunc. rewrite (proj2 (Z.leb_le 0 e)) by done. unfold u32_max in *. lia. }
  destruct (Z.compare_spec (m * 2 ^ e * 2 ^ (- e')) (u32_max * 2 ^ (- e'))) as [Hc|Hc|Hc]; [apply Hsmall; nia..|].
  unfold as_u32, f64_as, trunc. assert (u32_max < m * 2 ^ e) by nia. rewrite (Z.min_l u32_max (m * 2 ^ e)) by lia.
  destruct (Z.leb_spec 0 e').
  - assert (e' = 0) as -> by lia. rewrite !Z.pow_0_r, !Z.mul_1_r. done.
  - rewrite Z.quot_mul by lia. done.
Qed.

(** C33: the weight of a node as a [u32] is its [f64] weight rounded up to an
    integer and cut to the range; it is zero for a weight that is not positive,
    not finite, or not a number. *)
Theorem weight_u32_rounds_up w :
  default_weight_u32 w =
    match w with
    | Finite m e => if 0 <? m then Z.min u32_max (round_up m e) else 0
    | _ => 0
    end.
Proof.
  unfold default_weight_u32. destruct w as [|neg|m e]; [done|done|].
  destruct (ceil_Finite m e) as (m' & e' & -> & He' & Hv). cbn [is_finite negb orb].
  rewrite f64_le_zero, Hv by done. destruct (Z.ltb_spec 0 m) as [Hm|Hm].
  - pose proof (round_up_positive m e Hm). rewrite (proj2 (Z.leb_gt _ _)) by done. rewrite f64_min_u32, Hv by lia. done.
  - pose proof (round_up_nonpos m e Hm). by rewrite (proj2 (Z.leb_le _ _)).
Qed.

(** C27: a cycle that is longer than 65536 slots, or than the number of nodes with
    weight when that is more, is cut to that many: the slots given out add up to
    it, every node gets its proportional share rounded down or up, and none that
    is rounded up had a smaller remainder than one with weight that is rounded
    down.  A shorter cycle is not changed. *)
Theorem fit_rr_cycle_largest_remainder weight :
  Forall (fun w => 0 <= w <= u32_max) weight -> len weight < 2 ^ 31 ->
  exists fitted, fit_rr_cycle weight = Ok fitted /\ length fitted = length weight /\
    (fit_sum weight <= fit_cap weight -> fitted = weight) /\
    (fit_cap weight < fit_sum weight ->
      sumZ fitted = fit_cap weight /\
      (forall i w f, weight !! i = Some w -> fitted !! i = Some f ->
         f = fit_quota weight w \/ f = fit_quota weight w + 1 /\ w <> 0) /\
      (forall i j w w' f f', weight !! i = Some w -> weight !! j = Some w' -> fitted !! i = Some f -> fitted !! j = Some f' ->
         f = fit_quota weight w + 1 -> f' = fit_quota weight w' -> w' <> 0 -> fit_rest weight w' <= fit_rest weight w)).
Proof.
  intros Hw Hl. destruct (Z.le_gt_cases (fit_sum weight) (fit_cap weight)) as [Hs|Hs].
  { exists weight. split_and!; [by apply fit_rr_cycle_short|done|done|]. intros. lia. }
  exists (bump (fit_chosen weight) (map (fit_quota weight) weight)). split_and!.
  - by apply fit_rr_cycle_long.
  - unfold bump. by rewrite length_imap, length_map.
  - intros. lia.
  - intros _. split_and!; [by apply fit_shares_sum| |].
    + intros i w f Hi Hf. rewrite (fit_share _ _ w) in Hf by done. injection Hf as <-. case_bool_decide; [|by left].
      right. split; [done|]. by eapply fit_chosen_weight.
    + intros i j w w' f f' Hi Hj Hf Hf' -> -> Hn. rewrite (fit_share _ _ w) in Hf by done.
      rewrite (fit_share _ _ w') in Hf' by done.
      apply (fit_largest_rest weight Hw Hl i j w w'); try done.
      * clear Hf'. case_bool_decide as E; [done|]. injection Hf. lia.
      * clear Hf. case_bool_decide as E; [injection Hf'; lia|done].
Qed.

(** A cycle of 5,000,000,001 slots of which the first node has all but one. *)
Lemma fit_rr_cycle_largest_remainder_witness :
  exists fitted, fit_rr_cycle [4000000000; 1000000000; 1] = Ok fitted /\ sumZ fitted = 65536 /\ len fitted = 3.
Proof.
  destruct (fit_rr_cycle_largest_remainder [4000000000; 1000000000; 1]) as (fitted & Hf & Hl & _ & Hlong).
  - repeat constructor; (discriminate || apply Z.leb_le; reflexivity).
  - reflexivity.
  - exists fitted. split; [done|]. split; [apply Hlong; reflexivity|]. unfold len. by rewrite Hl.
Defined.
