(* ===== verification/Selective.v ===== *)
(** Picking among weighted nodes: [lib/vey-types/src/collection/selective_vec.rs]:
    the vector of upstream peers, resolved addresses or escapers from which a
    request takes one, or a few, at random, in order, in turn, or by the hash of
    a key.

    The random generator and the natural logarithm are parameters.  The cursor
    of the round robin is an atomic that a pick changes by one [update]; picks
    from several threads are one after the other in the order of these.  The
    cursor stays below the length of the cycle, a vector, so that the additions
    to it do not reach [2 ^ 64]. *)

From Stdlib Require Import ZArith Lia.
From stdpp Require Import base list.
From Stdlib Require Import Sorting.Sorted.
From S2P Require Import Prelude Slices Float64 WeightedCycle.

(** [rand]: an element, or some of them, of a slice. *)
Class Rng (T : Type) : Type := {
  choose : list T -> option T;
  choose_weighted : list T -> (T -> f64) -> option T;
  sample : list T -> nat -> list T;
  sample_weighted : list T -> nat -> (T -> f64) -> option (list T)
}.

(** What is chosen is in the slice. *)
Class RngLaws (T : Type) `{Rng T} : Prop := {
  choose_in : forall (l : list T) a, choose l = Some a -> a ∈ l;
  choose_weighted_in : forall (l : list T) f a, choose_weighted l f = Some a -> a ∈ l;
  sample_in : forall (l : list T) n, sample l n ⊆ l;
  sample_weighted_in : forall (l : list T) n f k, sample_weighted l n f = Some k -> k ⊆ l
}.

(** [f64::ln]. *)
Class Ln : Type := { ln : f64 -> f64 }.

(** ** The ring of points of [ketama] *)

(** [Vec::dedup_by]: an element equal to the one kept before it goes. *)
Fixpoint dedup_from {A} (same : A -> A -> bool) (prev : A) (l : list A) : list A :=
  match l with
  | [] => []
  | x :: l' => if same x prev then dedup_from same prev l' else x :: dedup_from same x l'
  end.

Definition dedup_by {A} (same : A -> A -> bool) (l : list A) : list A :=
  match l with
  | [] => []
  | x :: l' => x :: dedup_from same x l'
  end.

Definition POINT_MULTIPLE : Z := 160.

Section Selective.

Context {T : Type} {item : SelectiveItem T}.
Context {crc32 : Crc32} {fixed : FixedState} {usort : UnstableSort} {rng : Rng T} {logarithm : Ln}.

(** The points of node [i]. *)
Definition node_points (i : nat) (node : T) : list (nat * Z) :=
  let hasher := selective_hash node crc_new in
  let num_points := Z.min u32_max (weight_u32 node * POINT_MULTIPLE) in
  map (fun j => (i, crc_finalize (crc_update hasher (rev (to_be 4 (Z.of_nat j)))))) (seq 0 (Z.to_nat num_points)).

Fixpoint ring_points (i : nat) (nodes : list T) : list (nat * Z) :=
  match nodes with
  | [] => []
  | node :: nodes' => node_points i node ++ ring_points (S i) nodes'
  end.

(** The code also adds up the weights, as the capacity that it reserves for the
    points; the sum saturates, and memory is not part of the model. *)
Definition ketama_ring_create (nodes : list T) : list (nat * Z) :=
  let ring := sort_unstable_by (fun v1 v2 => v1.2 <=? v2.2) (ring_points 0 nodes) in
  dedup_by (fun v1 v2 => v1.2 =? v2.2) ring.

(** ** Building *)

Record SelectiveVec : Type := {
  sv_weighted : bool;
  sv_inner : list T;
  sv_rr_id : nat;
  sv_rr_seq : list nat;
  sv_ketama_ring : list (nat * Z)
}.

(** A [SelectiveVecBuilder] is the vector of what was inserted. *)
Definition builder_new : list T := [].
Definition builder_insert (inner : list T) (value : T) : list T := inner ++ [value].

Definition is_weighted (inner : list T) : pure bool :=
  let? first := item_at inner 0 in
  let w := weight first in
  Ok (existsb (fun item => f64_ne (weight item) w) inner).

(** The comparison of weights is an order as long as all of them are numbers; the
    standard library promises nothing for other comparisons, and the model sorts
    by insertion then too. *)
Definition builder_build (inner : list T) : pure (option SelectiveVec) :=
  if bool_decide (length inner = 0%nat) then Ok None
  else
    let? weighted := is_weighted inner in
    let nodes := sort_by (fun a b => f64_descending (weight a) (weight b)) inner in
    let ring := ketama_ring_create nodes in
    let? rr_seq := if weighted then swrr_seq nodes else Ok [] in
    Ok (Some {| sv_weighted := weighted; sv_inner := nodes; sv_rr_id := 0; sv_rr_seq := rr_seq;
                sv_ketama_ring := ring |}).

Definition new_basic (inner : list T) : SelectiveVec :=
  {| sv_weighted := false; sv_inner := inner; sv_rr_id := 0; sv_rr_seq := []; sv_ketama_ring := [] |}.

(** The cursor after an [update]. *)
Definition sv_set_id (self : SelectiveVec) (id : nat) : SelectiveVec :=
  {| sv_weighted := sv_weighted self; sv_inner := sv_inner self; sv_rr_id := id;
     sv_rr_seq := sv_rr_seq self; sv_ketama_ring := sv_ketama_ring self |}.

(** ** Picking at random and in order *)

Definition unwrap_or_first (self : SelectiveVec) (o : option T) : pure T :=
  match o with
  | Some a => Ok a
  | None => item_at (sv_inner self) 0
  end.

Definition pick_random (self : SelectiveVec) : pure T :=
  match length (sv_inner self) with
  | 0%nat => Panic
  | 1%nat => item_at (sv_inner self) 0
  | _ =>
      if sv_weighted self then unwrap_or_first self (choose_weighted (sv_inner self) weight)
      else unwrap_or_first self (choose (sv_inner self))
  end.

Definition pick_random_n (self : SelectiveVec) (n : nat) : pure (list T) :=
  match length (sv_inner self) with
  | 0%nat => Panic
  | 1%nat => let? first := item_at (sv_inner self) 0 in Ok [first]
  | count =>
      let count := Nat.min count n in
      if sv_weighted self then
        match sample_weighted (sv_inner self) count weight with
        | Some l => Ok l
        | None => Ok (sample (sv_inner self) count)
        end
      else Ok (sample (sv_inner self) count)
  end.

Definition pick_serial (self : SelectiveVec) : pure T :=
  if bool_decide (length (sv_inner self) = 0%nat) then Panic else item_at (sv_inner self) 0.

Definition pick_serial_n (self : SelectiveVec) (n : nat) : pure (list T) :=
  if bool_decide (length (sv_inner self) = 0%nat) then Panic
  else
    let count := length (sv_inner self) in
    let count := if (n <? count)%nat then n else count in
    slice (sv_inner self) 0 (Z.of_nat count).

(** ** Picking in turn *)

Definition pick_round_robin (self : SelectiveVec) : pure (T * SelectiveVec) :=
  match length (sv_inner self) with
  | 0%nat => Panic
  | 1%nat => let? first := item_at (sv_inner self) 0 in Ok (first, self)
  | count =>
      let cycle := if sv_weighted self then length (sv_rr_seq self) else count in
      if (cycle =? 0)%nat then let? first := item_at (sv_inner self) 0 in Ok (first, self)
      else
        let id := sv_rr_id self in
        let next := (id + 1)%nat in
        let self := sv_set_id self (if (cycle <=? next)%nat then 0%nat else next) in
        let idx := if sv_weighted self then default 0%nat (sv_rr_seq self !! id) else id in
        let? node := unwrap_or_first self (sv_inner self !! idx) in
        Ok (node, self)
  end.

(** The nodes of the cycle at [start], [start + 1], ... *)
Fixpoint seq_items (self : SelectiveVec) (start : nat) (ids : list nat) : pure (list T) :=
  match ids with
  | [] => Ok []
  | i :: ids' =>
      let seq_i := ((start + i) mod length (sv_rr_seq self))%nat in
      let idx := default 0%nat (sv_rr_seq self !! seq_i) in
      let? item := item_at (sv_inner self) idx in
      let? r := seq_items self start ids' in
      Ok (item :: r)
  end.

Definition next_end (count n id : nat) : nat :=
  let e := (id + n)%nat in if (count <=? e)%nat then (e mod count)%nat else e.

Definition pick_round_robin_n (self : SelectiveVec) (n : nat) : pure (list T * SelectiveVec) :=
  match length (sv_inner self) with
  | 0%nat => Panic
  | 1%nat => let? first := item_at (sv_inner self) 0 in Ok ([first], self)
  | count =>
      let n := Nat.min n count in
      if sv_weighted self then
        let seq_len := length (sv_rr_seq self) in
        if (n =? 0)%nat then Ok ([], self)
        else if (seq_len =? 0)%nat then
          let? first := item_at (sv_inner self) 0 in Ok (replicate n first, self)
        else
          let start := sv_rr_id self in
          let self := sv_set_id self ((start + n) mod seq_len)%nat in
          let? r := seq_items self start (seq 0 n) in
          Ok (r, self)
      else if (n =? 0)%nat then Ok ([], self)
      else
        let id := sv_rr_id self in
        let self := sv_set_id self (next_end count n id) in
        let e := next_end count n id in
        if (e <=? id)%nat then
          let? tail := slice_from (sv_inner self) (Z.of_nat id) in
          let? head := slice (sv_inner self) 0 (Z.of_nat e) in
          Ok (tail ++ head, self)
        else
          let? mid := slice (sv_inner self) (Z.of_nat id) (Z.of_nat e) in
          Ok (mid, self)
  end.

(** ** Picking by the hash of a key *)

(** The slot after [b]. *)
Definition jump_next (b h : Z) : Z :=
  as_i64 (f64_mul (f64_of (b + 1)) (f64_div (f64_of (Z.shiftl 1 31)) (f64_of (Z.shiftr h 33 + 1)))).

(** The loop of [jump_hash]; [None] when the fuel is used up. *)
Fixpoint jump_loop (fuel : nat) (slot_count b j h : Z) : option Z :=
  match fuel with
  | O => None
  | S fuel' =>
      if j <? slot_count then
        let b := j in
        let h := (h * 2862933555777941757 + 1) mod 2 ^ 64 in
        jump_loop fuel' slot_count b (jump_next b h) h
      else Some b
  end.

(** The loop ends after at most [slot_count] rounds. *)
Definition jump_hash {K} `{Hash K} (key : K) (slot_count : Z) : option Z :=
  let slot_count := Z.min slot_count (2 ^ 30 - 1) in
  let h := hash_one key in
  match jump_loop (S (Z.to_nat slot_count)) slot_count (-1) 0 h with
  | Some b => Some (b mod 2 ^ 32)
  | None => None
  end.

(** [None] is a loop that does not end. *)
Definition pick_jump {K} `{Hash K} (self : SelectiveVec) (key : K) : option (pure T) :=
  match length (sv_inner self) with
  | 0%nat => Some Panic
  | 1%nat => Some (item_at (sv_inner self) 0)
  | slot_count =>
      match jump_hash key (Z.of_nat slot_count mod 2 ^ 32) with
      | None => None
      | Some slot => Some (unwrap_or_first self (sv_inner self !! Z.to_nat slot))
      end
  end.

Definition rendezvous_hash {K} `{Hash K} (item : T) (key : K) : Z :=
  finish (selective_hash item (hash key build_hasher)).

Definition rendezvous_weighted_hash {K} `{Hash K} (item : T) (key : K) : f64 :=
  let w := weight item in
  if negb (is_finite w) || f64_le w (Finite 0 0) then Infinite true
  else
    let hash := f64_of (finish (selective_hash item (hash key build_hasher))) in
    let distance := ln (f64_div hash (f64_of u64_max)) in
    f64_div distance w.

(** The loop that keeps the item of the greatest value so far. *)
Fixpoint scan_max {V} (lt : V -> V -> bool) (value : T -> V) (items : list T) (node : T) (final_value : V) : T :=
  match items with
  | [] => node
  | item :: items' =>
      if lt final_value (value item) then scan_max lt value items' item (value item)
      else scan_max lt value items' node final_value
  end.

Definition pick_rendezvous {K} `{Hash K} (self : SelectiveVec) (key : K) : pure T :=
  match length (sv_inner self) with
  | 0%nat => Panic
  | 1%nat => item_at (sv_inner self) 0
  | _ =>
      let? node := item_at (sv_inner self) 0 in
      if sv_weighted self then
        Ok (scan_max f64_lt (fun item => rendezvous_weighted_hash item key) (sv_inner self) node (Infinite true))
      else
        Ok (scan_max Z.ltb (fun item => rendezvous_hash item key) (sv_inner self) node 0)
  end.

Definition pick_rendezvous_n {K} `{Hash K} (self : SelectiveVec) (key : K) (n : nat) : pure (list T) :=
  match length (sv_inner self) with
  | 0%nat => Panic
  | 1%nat => let? first := item_at (sv_inner self) 0 in Ok [first]
  | _ =>
      let value item := if sv_weighted self then rendezvous_weighted_hash item key
                        else f64_of (rendezvous_hash item key) in
      let nodes := map (fun item => (item, value item)) (sv_inner self) in
      let nodes := sort_unstable_by (fun a b => f64_descending a.2 b.2) nodes in
      let nodes := if (n <? length nodes)%nat then take n nodes else nodes in
      Ok (map fst nodes)
  end.

Definition ketama_ring_idx {K} `{Hash K} (self : SelectiveVec) (key : K) : nat :=
  let hash := crc_finalize (hash key crc_new) in
  match binary_search (map snd (sv_ketama_ring self)) hash with
  | inl i => i
  | inr i => if (length (sv_ketama_ring self) <=? i)%nat then 0%nat else i
  end.

Definition pick_ketama {K} `{Hash K} (self : SelectiveVec) (key : K) : pure T :=
  match length (sv_inner self) with
  | 0%nat => Panic
  | 1%nat => item_at (sv_inner self) 0
  | _ =>
      if bool_decide (length (sv_ketama_ring self) = 0%nat) then item_at (sv_inner self) 0
      else
        let? node := item_at (sv_ketama_ring self) (ketama_ring_idx self key) in
        item_at (sv_inner self) node.1
  end.

(** ** Well formed vectors *)

(** The indices over which the round robin goes. *)
Definition sv_order (self : SelectiveVec) : list nat :=
  if sv_weighted self then sv_rr_seq self else seq 0 (length (sv_inner self)).

Record sv_wf (self : SelectiveVec) : Prop := {
  wf_inner : sv_inner self <> [];
  wf_order : Forall (fun i => i < length (sv_inner self))%nat (sv_order self);
  wf_ring : Forall (fun p => p.1 < length (sv_inner self))%nat (sv_ketama_ring self);
  wf_id : sv_rr_id self = 0%nat \/ (sv_rr_id self < length (sv_order self))%nat
}.

(** Only the cursor changes. *)
Definition same_nodes (v v' : SelectiveVec) : Prop :=
  sv_weighted v' = sv_weighted v /\ sv_inner v' = sv_inner v /\ sv_rr_seq v' = sv_rr_seq v /\
  sv_ketama_ring v' = sv_ketama_ring v.

Lemma same_nodes_order v v' : same_nodes v v' -> sv_order v' = sv_order v.
Proof using. unfold sv_order. by intros (-> & -> & -> & _). Qed.

Lemma sv_set_id_same v id : same_nodes v (sv_set_id v id).
Proof using. done. Qed.

Lemma sv_wf_set_id v id : sv_wf v -> id = 0%nat \/ (id < length (sv_order v))%nat -> sv_wf (sv_set_id v id).
Proof using. intros [Hi Ho Hr _] Hid. by constructor. Qed.

Lemma sv_wf_first v : sv_wf v -> exists a, sv_inner v !! 0%nat = Some a /\ a ∈ sv_inner v.
Proof using.
  intros [Hi _ _ _]. destruct (sv_inner v) as [|a l]; [done|]. exists a. split; [done|]. by left.
Qed.

Lemma dedup_from_incl {A} (same : A -> A -> bool) prev l : dedup_from same prev l ⊆ l.
Proof using.
  revert prev. induction l as [|x l IH]; intros prev; cbn; [done|]. destruct (same x prev).
  - intros y Hy. right. by eapply IH.
  - intros y [->|Hy]%elem_of_cons; [by left|]. right. by eapply IH.
Qed.

Lemma dedup_by_incl {A} (same : A -> A -> bool) l : dedup_by same l ⊆ l.
Proof using.
  destruct l as [|x l]; [done|]. cbn. intros y [->|Hy]%elem_of_cons; [by left|]. right. by eapply dedup_from_incl.
Qed.

Lemma ring_points_index nodes off p :
  p ∈ ring_points off nodes -> exists node, (off <= p.1)%nat /\ nodes !! (p.1 - off)%nat = Some node /\ 0 < weight_u32 node.
Proof using.
  revert off. induction nodes as [|node nodes IH]; intros off; cbn [ring_points]; [by rewrite elem_of_nil|].
  rewrite elem_of_app. intros [Hp|Hp].
  - unfold node_points in Hp. apply list_elem_of_fmap in Hp as (j & -> & Hj%elem_of_seq). cbn. exists node.
    rewrite Nat.sub_diag. split_and!; [lia|done|]. unfold POINT_MULTIPLE in *. lia.
  - destruct (IH _ Hp) as (nd & Hle & Hnd & Hw). exists nd. split_and!; [lia| |done].
    replace (p.1 - off)%nat with (S (p.1 - S off)) by lia. done.
Qed.

Context `{!UnstableSortLaws}.

(** A point on the ring belongs to a node with weight. *)
Lemma ketama_ring_index nodes p :
  p ∈ ketama_ring_create nodes -> exists node, nodes !! p.1 = Some node /\ 0 < weight_u32 node.
Proof using All.
  intros Hp%dedup_by_incl. rewrite sort_unstable_perm in Hp. apply ring_points_index in Hp as (node & _ & Hn & Hw).
  rewrite Nat.sub_0_r in Hn. eauto.
Qed.

Lemma builder_build_spec inner :
  inner <> [] -> u32_weights inner -> len inner < 2 ^ 31 ->
  exists weighted rr_seq,
    let nodes := sort_by (fun a b => f64_descending (weight a) (weight b)) inner in
    is_weighted inner = Ok weighted /\ (if weighted then swrr_seq nodes = Ok rr_seq else rr_seq = []) /\
    Forall (fun i => i < length nodes)%nat rr_seq /\
    builder_build inner = Ok (Some {| sv_weighted := weighted; sv_inner := nodes; sv_rr_id := 0; sv_rr_seq := rr_seq;
      sv_ketama_ring := ketama_ring_create nodes |}).
Proof using.
  intros Hi Hu Hl. cbv zeta. set (nodes := sort_by _ inner). assert (Hp : nodes ≡ₚ inner) by apply sort_by_perm.
  assert (exists w, is_weighted inner = Ok w) as [weighted Hw].
  { unfold is_weighted. destruct inner as [|a l]; [done|]. cbn. eauto. }
  assert (Hun : u32_weights nodes) by (unfold u32_weights; by rewrite Hp).
  assert (exists rr, (if weighted then swrr_seq nodes = Ok rr else rr = []) /\ Forall (fun i => i < length nodes)%nat rr)
    as (rr & Hrr & Hlt).
  { destruct weighted; [|by exists []].
    destruct (decide (Exists (fun node => 0 < weight_u32 node) nodes)) as [Hex|Hno].
    - destruct (swrr_seq_spec nodes Hun Hex) as (? & rr & _ & _ & Hrr & _ & _ & Hlt & _); [unfold len; by rewrite Hp|]. eauto.
    - exists []. split; [|done]. apply swrr_seq_empty. apply Forall_Exists_neg in Hno.
      unfold u32_weights in Hun. rewrite Forall_forall in *. intros node Hin. specialize (Hno node Hin).
      specialize (Hun node Hin). lia. }
  exists weighted, rr. split_and!; try done. unfold builder_build. rewrite bool_decide_eq_false_2 by (by destruct inner).
  rewrite Hw. cbn [bind]. fold nodes. destruct weighted; [by rewrite Hrr|by subst rr].
Qed.

(** What [build] makes is well formed. *)
Lemma builder_build_wf inner :
  inner <> [] -> u32_weights inner -> len inner < 2 ^ 31 ->
  exists v, builder_build inner = Ok (Some v) /\ sv_wf v /\ sv_inner v ≡ₚ inner.
Proof using All.
  intros Hi Hu Hl. destruct (builder_build_spec inner Hi Hu Hl) as (weighted & rr & Hw & Hrr & Hlt & Hb).
  set (nodes := sort_by _ inner) in *. assert (Hp : nodes ≡ₚ inner) by apply sort_by_perm.
  eexists. split; [exact Hb|]. split; [|done]. constructor; cbn.
  - intros E. apply Hi. apply Permutation_nil. by rewrite <- Hp, E.
  - unfold sv_order. cbn. destruct weighted; [done|]. apply Forall_forall. intros i Hin%elem_of_seq. lia.
  - apply Forall_forall. intros p (node & Hn & _)%ketama_ring_index. by eapply lookup_lt_Some.
  - by left.
Qed.

(** ** Going round *)

(** The indices at [n] positions of a cycle, from [start] on. *)
Definition walk (order : list nat) (start n : nat) : list nat :=
  map (fun k => nth ((start + k) mod length order) order 0%nat) (seq 0 n).

Lemma walk_app order start n m : walk order start (n + m) = walk order start n ++ walk order (start + n) m.
Proof using.
  unfold walk. rewrite seq_app, map_app. f_equal. assert (Hs : seq (0 + n) m = map (Nat.add n) (seq 0 m)).
  { replace (0 + n)%nat with (n + 0)%nat by lia. symmetry. apply fmap_add_seq. }
  rewrite Hs, map_map.
  apply map_ext. intros k. do 2 f_equal. lia.
Qed.

Lemma walk_mod order start n : walk order (start mod length order) n = walk order start n.
Proof using.
  unfold walk. apply map_ext. intros k. f_equal. by rewrite Nat.Div0.add_mod_idemp_l.
Qed.

Lemma walk_straight order start n :
  (start + n <= length order)%nat -> walk order start n = take n (drop start order).
Proof using.
  intros Hn. apply list_eq. intros i. unfold walk. change (map ?f ?l) with (f <$> l). rewrite list_lookup_fmap.
  destruct (Nat.lt_ge_cases i n) as [Hi|Hi].
  - rewrite lookup_seq_lt by done. cbn. rewrite Nat.mod_small by lia. rewrite lookup_take_lt, lookup_drop by done.
    destruct (lookup_lt_is_Some_2 order (start + i)) as [x Hx]; [lia|]. rewrite Hx. f_equal. by apply nth_lookup_Some.
  - rewrite lookup_seq_ge by done. rewrite lookup_take_ge by done. done.
Qed.

(** One time round from anywhere is a rotation. *)
Lemma walk_cycle order start : order <> [] -> walk order start (length order) ≡ₚ order.
Proof using.
  intros Ho. assert (length order <> 0)%nat by (by destruct order). rewrite <- walk_mod.
  pose proof (Nat.mod_upper_bound start (length order) ltac:(done)) as Hs. set (st := (start mod length order)%nat) in *.
  replace (length order) with ((length order - st) + st)%nat at 1 by lia. rewrite walk_app.
  replace (st + (length order - st))%nat with (length order) by lia. rewrite <- (walk_mod _ (length order)).
  rewrite Nat.Div0.mod_same, !walk_straight by lia. rewrite take_ge by (rewrite length_drop; lia). rewrite drop_0.
  rewrite Permutation_app_comm. by rewrite take_drop.
Qed.

Lemma picks_app l k i : picks (l ++ k) i = picks l i + picks k i.
Proof using. unfold picks. rewrite count_occ_app. lia. Qed.

Lemma picks_perm l k i : l ≡ₚ k -> picks l i = picks k i.
Proof using. intros Hp. unfold picks. f_equal. by apply Permutation_count_occ. Qed.

(** Some times round: every index as often as in so many cycles. *)
Lemma walk_cycles order start m i :
  order <> [] -> picks (walk order start (m * length order)) i = Z.of_nat m * picks order i.
Proof using.
  intros Ho. revert start. induction m as [|m IH]; intros start; [done|]. cbn [Nat.mul].
  rewrite walk_app, picks_app, IH, (picks_perm _ _ _ (walk_cycle order start Ho)). lia.
Qed.

(** The nodes at some indices. *)
Definition nodes_at (inner : list T) (ids : list nat) (nodes : list T) : Prop :=
  Forall2 (fun i node => inner !! i = Some node) ids nodes.

Lemma nodes_at_app inner ids ids' nodes nodes' :
  nodes_at inner ids nodes -> nodes_at inner ids' nodes' -> nodes_at inner (ids ++ ids') (nodes ++ nodes').
Proof using. apply Forall2_app. Qed.

(** A range of the nodes themselves. *)
Lemma nodes_at_range (inner : list T) a n :
  (a + n <= length inner)%nat -> nodes_at inner (seq a n) (take n (drop a inner)).
Proof using.
  intros Hn. apply Forall2_same_length_lookup_2; [rewrite length_seq, length_take, length_drop; lia|].
  intros i j node Hj Hi. apply lookup_seq in Hj as [-> Hlt]. by rewrite lookup_take_lt, lookup_drop in Hi by lia.
Qed.

Lemma walk_seq count start n :
  (start + n <= count)%nat -> walk (seq 0 count) start n = seq start n.
Proof using.
  intros Hn. rewrite walk_straight by (rewrite length_seq; lia). rewrite drop_seq, take_seq.
  rewrite Nat.add_0_l. f_equal. lia.
Qed.

(** The length of the cycle as the picks compute it. *)
Lemma length_sv_order v :
  length (sv_order v) = if sv_weighted v then length (sv_rr_seq v) else length (sv_inner v).
Proof using. unfold sv_order. destruct (sv_weighted v); [done|]. apply length_seq. Qed.

Lemma wf_id_lt v : sv_wf v -> sv_order v <> [] -> (sv_rr_id v < length (sv_order v))%nat.
Proof using. intros [_ _ _ [->|Hlt]] Ho; [|done]. destruct (sv_order v); [done|cbn; lia]. Qed.

(** What is known of a pick of [n] nodes in turn. *)
Definition picked (v : SelectiveVec) (n : nat) (nodes : list T) (v' : SelectiveVec) : Prop :=
  nodes_at (sv_inner v) (walk (sv_order v) (sv_rr_id v) n) nodes /\ same_nodes v v' /\ sv_wf v' /\
  sv_rr_id v' = ((sv_rr_id v + n) mod length (sv_order v))%nat.

Lemma picked_intro v n nodes id :
  sv_wf v -> sv_order v <> [] -> nodes_at (sv_inner v) (walk (sv_order v) (sv_rr_id v) n) nodes ->
  id = ((sv_rr_id v + n) mod length (sv_order v))%nat -> picked v n nodes (sv_set_id v id).
Proof using.
  intros Hwf Ho Hn ->. split_and!; [done|apply sv_set_id_same| |done]. apply sv_wf_set_id; [done|]. right.
  apply Nat.mod_upper_bound. by destruct (sv_order v).
Qed.

(** The node at a position of the cycle. *)
Lemma order_node v k :
  sv_wf v -> sv_order v <> [] -> exists idx node,
    sv_order v !! (k mod length (sv_order v))%nat = Some idx /\ sv_inner v !! idx = Some node.
Proof using.
  intros [_ Hord _ _] Ho. destruct (lookup_lt_is_Some_2 (sv_order v) (k mod length (sv_order v))) as [idx Hidx].
  { apply Nat.mod_upper_bound. by destruct (sv_order v). }
  destruct (lookup_lt_is_Some_2 (sv_inner v) idx) as [node Hnode]; [by eapply (Forall_lookup_1 _ _ _ _ Hord)|]. eauto.
Qed.

Lemma sv_order_lookup v k idx :
  sv_wf v -> sv_order v !! k = Some idx -> (if sv_weighted v then default 0%nat (sv_rr_seq v !! k) else k) = idx.
Proof using.
  intros _. unfold sv_order. destruct (sv_weighted v); [by intros ->|]. by intros [-> _]%lookup_seq.
Qed.

Lemma pick_round_robin_spec v :
  sv_wf v -> (2 <= length (sv_inner v))%nat -> sv_order v <> [] ->
  exists node v', pick_round_robin v = Ok (node, v') /\ picked v 1 [node] v'.
Proof using.
  intros Hwf Hl Ho. pose proof (wf_id_lt v Hwf Ho) as Hid. destruct (order_node v (sv_rr_id v) Hwf Ho) as (idx & node & Hidx & Hnode).
  rewrite Nat.mod_small in Hidx by done. pose proof (sv_order_lookup v _ _ Hwf Hidx) as Hdef. exists node.
  unfold pick_round_robin. pose proof (length_sv_order v) as Hlo. destruct (length (sv_inner v)) as [|[|c]] eqn:Ec; [lia|lia|].
  rewrite <- Hlo. destruct (Nat.eqb_spec (length (sv_order v)) 0) as [E|_]; [lia|]. cbn [sv_weighted sv_inner sv_rr_seq sv_set_id].
  cbv zeta. rewrite Hdef, Hnode. cbn [unwrap_or_first bind]. eexists. split; [done|]. apply picked_intro; try done.
  - unfold walk. cbn. rewrite Nat.add_0_r, Nat.mod_small by done. rewrite (nth_lookup_Some _ _ _ idx) by done.
    by repeat constructor.
  - destruct (Nat.leb_spec (length (sv_order v)) (sv_rr_id v + 1)).
    + assert (sv_rr_id v + 1 = length (sv_order v))%nat as -> by lia. by rewrite Nat.Div0.mod_same.
    + by rewrite Nat.mod_small.
Qed.

Lemma seq_items_spec v start ids :
  sv_wf v -> sv_weighted v = true -> sv_order v <> [] ->
  exists nodes, seq_items v start ids = Ok nodes /\
    nodes_at (sv_inner v) (map (fun k => nth ((start + k) mod length (sv_order v)) (sv_order v) 0%nat) ids) nodes.
Proof using.
  intros Hwf Hw Ho. induction ids as [|k ids IH]; [by exists []; repeat constructor|]. destruct IH as (nodes & Hn & Hat).
  destruct (order_node v (start + k) Hwf Ho) as (idx & node & Hidx & Hnode). exists (node :: nodes).
  pose proof (sv_order_lookup v _ _ Hwf Hidx) as Hdef. rewrite Hw in Hdef. cbn [seq_items map].
  assert (length (sv_rr_seq v) = length (sv_order v)) as -> by (by rewrite length_sv_order, Hw).
  rewrite Hdef, (item_at_ok _ _ node) by done. cbn [bind]. rewrite Hn. cbn [bind]. split; [done|].
  constructor; [by rewrite (nth_lookup_Some _ _ _ idx)|done].
Qed.

Lemma next_end_mod count n id : (id < count)%nat -> next_end count n id = ((id + n) mod count)%nat.
Proof using.
  intros Hid. unfold next_end. cbv zeta. destruct (Nat.leb_spec count (id + n)); [done|]. by rewrite Nat.mod_small.
Qed.

(** The slices of an unweighted pick are the nodes of a walk. *)
Lemma slices_walk (inner : list T) id n :
  (id < length inner)%nat -> (1 <= n <= length inner)%nat ->
  let e := ((id + n) mod length inner)%nat in
  exists nodes, (if (e <=? id)%nat
     then let? tail := slice_from inner (Z.of_nat id) in let? head := slice inner 0 (Z.of_nat e) in Ok (E := Empty_set) (tail ++ head)
     else slice inner (Z.of_nat id) (Z.of_nat e)) = Ok nodes /\
    nodes_at inner (walk (seq 0 (length inner)) id n) nodes.
Proof using.
  intros Hid Hn. cbv zeta. destruct (Nat.lt_ge_cases (id + n) (length inner)) as [Hlt|Hge].
  - rewrite Nat.mod_small by done. destruct (Nat.leb_spec (id + n) id); [lia|]. exists (take n (drop id inner)).
    rewrite slice_ok by (unfold len; lia). rewrite Nat2Z.id. replace (Z.to_nat (Z.of_nat (id + n) - Z.of_nat id)) with n by lia.
    split; [done|]. rewrite walk_seq by lia. apply nodes_at_range. lia.
  - assert (Hm : ((id + n) mod length inner = id + n - length inner)%nat).
    { symmetry. apply (Nat.mod_unique _ _ 1%nat); lia. }
    rewrite Hm. destruct (Nat.leb_spec (id + n - length inner) id); [|lia]. set (e := (id + n - length inner)%nat) in *.
    rewrite slice_from_ok by (unfold len; lia). cbn [bind]. rewrite slice_ok by (unfold len; lia). cbn [bind].
    eexists. split; [done|]. rewrite Nat2Z.id, Z.sub_0_r, Nat2Z.id. change (Z.to_nat 0) with 0%nat.
    replace n with ((length inner - id) + e)%nat at 1 by lia. rewrite walk_app. apply nodes_at_app.
    + rewrite walk_seq by lia. rewrite <- (take_ge (drop id inner) (length inner - id)) by (rewrite length_drop; lia).
      apply nodes_at_range. lia.
    + replace (id + (length inner - id))%nat with (length inner) by lia. rewrite <- walk_mod, length_seq, Nat.Div0.mod_same.
      rewrite walk_seq by lia. apply nodes_at_range. lia.
Qed.

Lemma pick_round_robin_n_spec v n :
  sv_wf v -> (2 <= length (sv_inner v))%nat -> sv_order v <> [] ->
  exists nodes v', pick_round_robin_n v n = Ok (nodes, v') /\ picked v (Nat.min n (length (sv_inner v))) nodes v'.
Proof using.
  intros Hwf Hl Ho. pose proof (wf_id_lt v Hwf Ho) as Hid. pose proof (length_sv_order v) as Hlo.
  unfold pick_round_robin_n. destruct (length (sv_inner v)) as [|[|c]] eqn:Ec; [lia|lia|]. rewrite <- Ec in *. cbv zeta.
  assert (Hnone : Nat.min n (length (sv_inner v)) = 0%nat -> picked v (Nat.min n (length (sv_inner v))) [] v).
  { intros ->. split_and!; [constructor|done|done|]. rewrite Nat.add_0_r, Nat.mod_small; done. }
  destruct (Nat.eqb_spec (Nat.min n (length (sv_inner v))) 0) as [E|E]; [exists [], v; destruct (sv_weighted v); auto|].
  destruct (sv_weighted v) eqn:Hw.
  - rewrite <- Hlo. destruct (Nat.eqb_spec (length (sv_order v)) 0) as [E0|_]; [lia|].
    destruct (seq_items_spec (sv_set_id v ((sv_rr_id v + Nat.min n (length (sv_inner v))) mod length (sv_order v)))
      (sv_rr_id v) (seq 0 (Nat.min n (length (sv_inner v))))) as (nodes & Hn & Hat); try done.
    { apply sv_wf_set_id; [done|]. right. apply Nat.mod_upper_bound. lia. }
    rewrite Hn. cbn [bind]. eexists _, _. split; [done|]. by apply picked_intro.
  - rewrite next_end_mod by lia. cbn [sv_inner sv_set_id].
    destruct (slices_walk (sv_inner v) (sv_rr_id v) (Nat.min n (length (sv_inner v)))) as (nodes & Hs & Hat); [lia|lia|].
    exists nodes. eexists. split.
    2: { apply picked_intro; [done|done| |done]. unfold sv_order. by rewrite Hw. }
    rewrite Hlo. destruct (_ <=? _)%nat; [|by rewrite Hs]. destruct (slice_from _ _); [|done|done]. cbn [bind] in *.
    destruct (slice _ _ _); [|done|done]. cbn [bind] in *. by injection Hs as ->.
Qed.

(** ** Sequences of picks *)

(** The picks of all threads, in the order in which they move the cursor. *)
Inductive rr_call : Type :=
| PickOne
| PickMany (n : nat).

Definition call_size (v : SelectiveVec) (c : rr_call) : nat :=
  match c with PickOne => 1 | PickMany n => Nat.min n (length (sv_inner v)) end.

Definition calls_size (v : SelectiveVec) (calls : list rr_call) : nat := list_sum (map (call_size v) calls).

Fixpoint run_calls (v : SelectiveVec) (calls : list rr_call) : pure (list T * SelectiveVec) :=
  match calls with
  | [] => Ok ([], v)
  | c :: calls' =>
      let? '(nodes, v) := match c with
                          | PickOne => let? '(node, v) := pick_round_robin v in Ok ([node], v)
                          | PickMany n => pick_round_robin_n v n
                          end in
      let? '(nodes', v) := run_calls v calls' in
      Ok (nodes ++ nodes', v)
  end.

Lemma picked_app v n nodes v1 m nodes' v2 :
  picked v n nodes v1 -> picked v1 m nodes' v2 -> picked v (n + m) (nodes ++ nodes') v2.
Proof using.
  intros (Hn & Hs & Hwf & Hid) (Hn' & Hs' & Hwf' & Hid'). pose proof (same_nodes_order _ _ Hs) as Ho.
  pose proof Hs as (Hw & Hi & Hq & Hr). rewrite Ho, Hid in *. rewrite walk_mod, Hi in Hn'. split_and!; [| |done|].
  - rewrite walk_app. by apply nodes_at_app.
  - destruct Hs' as (Hw' & Hi' & Hq' & Hr'). unfold same_nodes. split_and!; congruence.
  - rewrite Hid', Nat.Div0.add_mod_idemp_l. f_equal. lia.
Qed.

Lemma run_calls_spec v calls :
  sv_wf v -> (2 <= length (sv_inner v))%nat -> sv_order v <> [] ->
  exists nodes v', run_calls v calls = Ok (nodes, v') /\ picked v (calls_size v calls) nodes v'.
Proof using.
  revert v. induction calls as [|c calls IH]; intros v Hwf Hl Ho.
  { exists [], v. split; [done|]. split_and!; [constructor|done|done|]. pose proof (wf_id_lt v Hwf Ho). cbn.
    rewrite Nat.add_0_r, Nat.mod_small; done. }
  assert (Hone : exists nodes v1, match c with
      | PickOne => let? '(node, v) := pick_round_robin v in Ok ([node], v)
      | PickMany n => pick_round_robin_n v n
      end = Ok (nodes, v1) /\ picked v (call_size v c) nodes v1).
  { destruct c as [|n]; [|by apply pick_round_robin_n_spec]. destruct (pick_round_robin_spec v Hwf Hl Ho) as (node & v1 & Hp & Hpk).
    exists [node], v1. by rewrite Hp. }
  destruct Hone as (nodes & v1 & H1 & Hp1). pose proof Hp1 as (_ & Hs & Hwf1 & _).
  pose proof (same_nodes_order _ _ Hs) as Ho1. pose proof Hs as (_ & Hi1 & _).
  destruct (IH v1) as (nodes' & v2 & H2 & Hp2); [done|by rewrite Hi1|by rewrite Ho1|].
  exists (nodes ++ nodes'), v2. cbn [run_calls]. rewrite H1. cbn [bind]. rewrite H2. split; [done|].
  assert (calls_size v1 calls = calls_size v calls) as Hsz.
  { unfold calls_size. f_equal. apply map_ext. intros []; cbn; [done|]. by rewrite Hi1. }
  rewrite Hsz in Hp2. change (calls_size v (c :: calls)) with (call_size v c + calls_size v calls)%nat.
  by eapply picked_app.
Qed.

(** Weights that are numbers: for others the order of the nodes is left open. *)
Definition numeric (inner : list T) : Prop := Forall (fun node => is_nan (weight node) = false) inner.

(** The nodes are in the order of their weights, the greatest first. *)
Lemma built_sorted inner v :
  numeric inner -> builder_build inner = Ok (Some v) ->
  StronglySorted (fun a b => f64_descending (weight a) (weight b) = true) (sv_inner v).
Proof using.
  intros Hn. unfold builder_build. case_bool_decide; [done|]. destruct (is_weighted inner) as [w| |]; [|done|done].
  cbn [bind]. destruct (if w then _ else _); [|done|done]. intros [= <-]. cbn [sv_inner].
  apply (sort_by_sorted _ (fun node => is_nan (weight node) = false)); [| |exact Hn].
  - intros x y Hx Hy. by apply f64_descending_total.
  - intros x y z Hx Hy Hz Hxy Hyz. by apply (f64_descending_trans (weight x) (weight y)).
Qed.

(** How often the built cycle has a node. *)
Lemma built_order_picks inner :
  u32_weights inner -> len inner < 2 ^ 31 -> Exists (fun node => 0 < weight_u32 node) inner ->
  exists v shares, builder_build inner = Ok (Some v) /\ sv_wf v /\ sv_order v <> [] /\ sv_inner v ≡ₚ inner /\
    fit_rr_cycle (reduced_weights (sv_inner v)) = Ok shares /\
    forall i node, sv_inner v !! i = Some node ->
      picks (sv_order v) i = if sv_weighted v then nth i shares 0 else 1.
Proof using All.
  intros Hu Hl Hex. assert (Hi : inner <> []) by (by intros ->; inversion Hex).
  destruct (builder_build_wf inner Hi Hu Hl) as (v & Hb & Hwf & Hp). exists v.
  destruct (builder_build_spec inner Hi Hu Hl) as (weighted & rr & Hw & Hrr & Hlt & Hb'). rewrite Hb in Hb'. injection Hb' as Ev.
  set (nodes := sort_by _ inner) in *. assert (Hpn : nodes ≡ₚ inner) by apply sort_by_perm.
  assert (Hun : u32_weights nodes) by (unfold u32_weights; by rewrite Hpn).
  assert (Hexn : Exists (fun node => 0 < weight_u32 node) nodes) by (by rewrite Hpn).
  destruct (swrr_seq_spec nodes Hun Hexn) as (shares & sq & Hfit & Hls & Hseq & Hpos & _ & _ & Hpicks & _).
  { unfold len. by rewrite Hpn. }
  exists shares. subst v. cbn [sv_inner sv_weighted] in *. unfold sv_order in *. cbn [sv_inner sv_weighted sv_rr_seq] in *.
  split_and!; try done.
  - destruct weighted.
    + rewrite Hseq in Hrr. injection Hrr as <-. intros E. by rewrite E in Hpos.
    + intros E. apply (f_equal length) in E. rewrite length_seq, Hpn in E. by destruct inner.
  - intros i node Hnode. apply lookup_lt_Some in Hnode as Hil. destruct weighted.
    + rewrite Hseq in Hrr. injection Hrr as <-. destruct (lookup_lt_is_Some_2 shares i) as [sh Hsh]; [lia|].
      rewrite (nth_lookup_Some _ _ _ sh) by done. by apply Hpicks.
    + unfold picks. rewrite (proj1 (NoDup_count_occ' Nat.eq_dec _)); [done|apply seq_NoDup|apply in_seq; lia].
Qed.

(** C16: round robin is fair: whatever picks came before, picks of one or several
    nodes by any threads that amount to some times round the cycle pick every
    node exactly as often in each round as its share says: its weight without
    the common divisor (scaled down when the cycle would be too long), or once
    when all weights are equal. *)
Theorem round_robin_fair inner :
  numeric inner -> u32_weights inner -> len inner < 2 ^ 31 -> (2 <= length inner)%nat ->
  Exists (fun node => 0 < weight_u32 node) inner ->
  exists v shares, builder_build inner = Ok (Some v) /\ sv_inner v ≡ₚ inner /\
    StronglySorted (fun a b => f64_descending (weight a) (weight b) = true) (sv_inner v) /\
    fit_rr_cycle (reduced_weights (sv_inner v)) = Ok shares /\
    forall before, exists earlier v1, run_calls v before = Ok (earlier, v1) /\
    forall calls rounds, calls_size v calls = (rounds * length (sv_order v))%nat ->
      exists ids nodes v2, run_calls v1 calls = Ok (nodes, v2) /\ nodes_at (sv_inner v) ids nodes /\
        forall i node, sv_inner v !! i = Some node ->
          picks ids i = Z.of_nat rounds * (if sv_weighted v then nth i shares 0 else 1).
Proof using All.
  intros Hnum Hu Hl H2 Hex. destruct (built_order_picks inner Hu Hl Hex) as (v & shares & Hb & Hwf & Ho & Hp & Hfit & Hshare).
  exists v, shares. split_and!; try done; [by eapply built_sorted|]. intros before.
  destruct (run_calls_spec v before Hwf ltac:(by rewrite Hp) Ho) as (earlier & v1 & Hr1 & _ & Hs & Hwf1 & _).
  exists earlier, v1. split; [done|]. intros calls rounds Hsize. pose proof (same_nodes_order _ _ Hs) as Ho1.
  pose proof Hs as (_ & Hi1 & _).
  destruct (run_calls_spec v1 calls Hwf1 ltac:(by rewrite Hi1, Hp) ltac:(by rewrite Ho1)) as (nodes & v2 & Hr2 & Hat & _).
  assert (Hsz : calls_size v1 calls = calls_size v calls).
  { unfold calls_size. f_equal. apply map_ext. intros []; cbn; [done|]. by rewrite Hi1. }
  rewrite Hsz, Hsize, Ho1, Hi1 in Hat. eexists _, nodes, v2. split_and!; [done|exact Hat|].
  intros i node Hnode. rewrite walk_cycles by done. by rewrite (Hshare i node).
Qed.

(** ** Jumping *)

(** The loop gets on: the rounded quotient is not below one. *)
Lemma jump_next_gt b h : 0 <= b < 2 ^ 30 -> 0 <= h < 2 ^ 64 -> b + 1 <= jump_next b h.
Proof using.
  intros Hb Hh. unfold jump_next. apply at_least_as_i64; [lia|]. apply f64_mul_at_least; [lia|].
  rewrite shiftr_div by lia. assert (0 <= h / 2 ^ 33 < 2 ^ 31).
  { split; [apply Z.div_pos; lia|]. apply Z.div_lt_upper_bound; lia. }
  apply f64_div_at_least_1; [|done]. change (Z.shiftl 1 31) with (2 ^ 31). lia.
Qed.

Definition next_state (h : Z) : Z := (h * 2862933555777941757 + 1) mod 2 ^ 64.

Lemma jump_loop_eq fuel slot_count b j h :
  jump_loop (S fuel) slot_count b j h =
    if j <? slot_count then jump_loop fuel slot_count j (jump_next j (next_state h)) (next_state h) else Some b.
Proof using. done. Qed.

Lemma next_state_range h : 0 <= next_state h < 2 ^ 64.
Proof using. apply Z.mod_pos_bound. lia. Qed.

Lemma jump_loop_spec fuel slot_count b j h :
  0 <= slot_count < 2 ^ 30 -> b < slot_count -> b < j -> 0 <= j -> slot_count - j < Z.of_nat fuel -> (0 < fuel)%nat ->
  exists b', jump_loop fuel slot_count b j h = Some b' /\ b <= b' < slot_count /\ (j < slot_count -> j <= b').
Proof using.
  intros Hs. revert b j h. induction fuel as [|fuel IH]; intros b j h Hb Hj Hj0 Hf Hpos; [lia|]. rewrite jump_loop_eq.
  destruct (Z.ltb_spec j slot_count) as [Hlt|Hge]; [|exists b; split_and!; try done; lia].
  pose proof (jump_next_gt j (next_state h) ltac:(lia) (next_state_range h)) as Hn.
  destruct (IH j (jump_next j (next_state h)) (next_state h)) as (b' & Hb' & Hr & _); [lia|lia|lia|lia|lia|].
  exists b'. split_and!; [done|lia|lia|lia].
Qed.

(** One more slot: the key stays, or moves to the new slot. *)
Lemma jump_loop_grow fuel slot_count b j h b' :
  0 <= slot_count < 2 ^ 30 - 1 -> 0 <= j -> jump_loop fuel slot_count b j h = Some b' ->
  jump_loop (S fuel) (slot_count + 1) b j h = Some b' \/ jump_loop (S fuel) (slot_count + 1) b j h = Some slot_count.
Proof using.
  intros Hs. revert b j h. induction fuel as [|fuel IH]; intros b j h Hj; [done|]. rewrite (jump_loop_eq fuel), (jump_loop_eq (S fuel)).
  pose proof (jump_next_gt j (next_state h)) as Hn. destruct (Z.ltb_spec j slot_count) as [Hlt|Hge].
  - intros Hb'. rewrite (proj2 (Z.ltb_lt _ _)) by lia. apply IH; [|done].
    specialize (Hn ltac:(lia) (next_state_range h)). lia.
  - intros [= <-]. destruct (Z.ltb_spec j (slot_count + 1)) as [Hlt'|Hge']; [|by left]. right.
    assert (j = slot_count) as -> by lia. rewrite jump_loop_eq. specialize (Hn ltac:(lia) (next_state_range h)).
    by rewrite (proj2 (Z.ltb_ge _ _)) by lia.
Qed.

Lemma jump_hash_range {K} `{Hash K} (key : K) n :
  1 <= n -> exists b, jump_hash key n = Some b /\ 0 <= b < Z.min n (2 ^ 30 - 1) /\
    jump_loop (S (Z.to_nat (Z.min n (2 ^ 30 - 1)))) (Z.min n (2 ^ 30 - 1)) (-1) 0 (hash_one key) = Some b.
Proof using.
  intros Hn. unfold jump_hash. set (m := Z.min n (2 ^ 30 - 1)). assert (1 <= m < 2 ^ 30) by lia.
  destruct (jump_loop_spec (S (Z.to_nat m)) m (-1) 0 (hash_one key)) as (b & Hb & Hr & Hj); [lia|lia|lia|lia|lia|lia|].
  exists b. rewrite Hb. specialize (Hj ltac:(lia)). split_and!; [|lia|lia|done]. by rewrite Z.mod_small by lia.
Qed.

(** C26: the jump hash ends, gives one of the slots, and is consistent: when a
    slot is added, a key keeps its slot or moves to the new one. *)
Theorem jump_hash_consistent {K} `{Hash K} (key : K) n :
  1 <= n ->
  exists b b', jump_hash key n = Some b /\ 0 <= b < n /\
    jump_hash key (n + 1) = Some b' /\ (b' = b \/ b' = n).
Proof using.
  intros Hn. destruct (jump_hash_range key n Hn) as (b & Hb & Hr & Hl).
  destruct (jump_hash_range key (n + 1) ltac:(lia)) as (b' & Hb' & Hr' & Hl'). exists b, b'. split_and!; try done; try lia.
  destruct (Z.le_gt_cases (2 ^ 30 - 1) n) as [Hbig|Hsmall].
  - left. rewrite !Z.min_r in * by lia. congruence.
  - rewrite !Z.min_l in * by lia. replace (Z.to_nat (n + 1)) with (S (Z.to_nat n)) in Hl' by lia.
    destruct (jump_loop_grow _ n (-1) 0 (hash_one key) b ltac:(lia) ltac:(lia) Hl) as [E|E]; rewrite E in Hl';
      injection Hl'; auto.
Qed.

(** ** The ring *)

Lemma dedup_from_rising prev (l : list (nat * Z)) :
  StronglySorted (fun a b => (a.2 <=? b.2) = true) (prev :: l) ->
  StronglySorted (fun a b => a.2 < b.2) (prev :: dedup_from (fun v1 v2 => v1.2 =? v2.2) prev l) /\
  forall p, p ∈ l -> exists q, q ∈ prev :: dedup_from (fun v1 v2 => v1.2 =? v2.2) prev l /\ q.2 = p.2.
Proof using.
  revert prev. induction l as [|x l IH]; intros prev Hs; cbn [dedup_from].
  { split; [by repeat constructor|]. intros p. by rewrite elem_of_nil. }
  apply StronglySorted_inv in Hs as [Hsx Hprev]. apply Forall_cons_1 in Hprev as [Hpx Hpl]. apply Z.leb_le in Hpx.
  destruct (Z.eqb_spec x.2 prev.2) as [E|E].
  - apply StronglySorted_inv in Hsx as [Hsl _]. destruct (IH prev) as [H1 H2]; [by constructor|]. split; [done|].
    intros p [->|Hp]%elem_of_cons; [|by apply H2]. exists prev. split; [by left|done].
  - destruct (IH x Hsx) as [H1 H2]. split.
    + constructor; [done|]. apply StronglySorted_inv in H1 as [_ H1]. constructor; [lia|].
      eapply Forall_impl; [exact H1|]. cbn. lia.
    + intros p [->|Hp]%elem_of_cons; [exists x; split; [right; by left|done]|].
      destruct (H2 p Hp) as (q & Hq & Eq). exists q. split; [by right|done].
Qed.

(** The ring has one point for every hash, in rising order. *)
Lemma ketama_ring_rising nodes :
  StronglySorted (fun a b => a.2 < b.2) (ketama_ring_create nodes) /\
  (forall p, p ∈ ring_points 0 nodes -> exists q, q ∈ ketama_ring_create nodes /\ q.2 = p.2) /\
  ketama_ring_create nodes ⊆ ring_points 0 nodes.
Proof using All.
  unfold ketama_ring_create. cbv zeta. set (leb := fun v1 v2 : nat * Z => v1.2 <=? v2.2).
  pose proof (sort_unstable_perm _ leb (ring_points 0 nodes)) as Hp.
  assert (Hs : StronglySorted (fun a b => leb a b = true) (sort_unstable_by leb (ring_points 0 nodes))).
  { apply sort_unstable_sorted; unfold leb; intros; lia. }
  split_and!.
  - destruct (sort_unstable_by leb _) as [|x l]; [constructor|]. by apply dedup_from_rising.
  - intros p Hin. rewrite <- Hp in Hin. destruct (sort_unstable_by leb _) as [|x l]; [by rewrite elem_of_nil in Hin|].
    apply elem_of_cons in Hin as [->|Hin]; [exists x; split; [by left|done]|].
    by apply (dedup_from_rising x l Hs).
  - intros p Hin%dedup_by_incl. by rewrite Hp in Hin.
Qed.

Lemma StronglySorted_lookup {A} (R : A -> A -> Prop) l i j a b :
  StronglySorted R l -> (i < j)%nat -> l !! i = Some a -> l !! j = Some b -> R a b.
Proof using.
  intros Hs. revert i j. induction Hs as [|x l Hs IH Hx]; intros i j Hij Ha Hb; [done|]. destruct j as [|j]; [lia|].
  destruct i as [|i]; cbn in *; [|by eapply (IH i j); [lia|..]]. injection Ha as <-.
  by eapply (Forall_lookup_1 _ _ _ _ Hx).
Qed.

(** The point a key falls on: the next one on the ring, or the first one. *)
Definition next_point (points : list (nat * Z)) (h : Z) (p : nat * Z) : Prop :=
  p ∈ points /\
  (h <= p.2 /\ (forall q, q ∈ points -> h <= q.2 -> p.2 <= q.2) \/
   (forall q, q ∈ points -> q.2 < h /\ p.2 <= q.2)).

Lemma ring_nth (ring : list (nat * Z)) i p : ring !! i = Some p -> nth i (map snd ring) 0 = p.2.
Proof using. intros Hi. apply nth_lookup_Some. by rewrite list_lookup_fmap, Hi. Qed.

Lemma ring_is_rising (ring : list (nat * Z)) : StronglySorted (fun a b => a.2 < b.2) ring -> rising (map snd ring).
Proof using.
  intros Hs i j Hij. rewrite length_map in Hij. destruct (lookup_lt_is_Some_2 ring i) as [p Hp]; [lia|].
  destruct (lookup_lt_is_Some_2 ring j) as [q Hq]; [lia|]. rewrite (ring_nth _ _ p), (ring_nth _ _ q) by done.
  destruct (decide (i = j)) as [->|]; [simplify_eq; lia|].
  pose proof (StronglySorted_lookup _ _ i j p q Hs ltac:(lia) Hp Hq). cbn in *. lia.
Qed.

Lemma ketama_ring_idx_next {K} `{Hash K} v (key : K) :
  StronglySorted (fun a b => a.2 < b.2) (sv_ketama_ring v) -> sv_ketama_ring v <> [] ->
  exists p, sv_ketama_ring v !! ketama_ring_idx v key = Some p /\
    next_point (sv_ketama_ring v) (crc_finalize (hash key crc_new)) p.
Proof using.
  intros Hs Hne. unfold ketama_ring_idx. set (ring := sv_ketama_ring v) in *. set (h := crc_finalize _).
  pose proof (binary_search_spec (map snd ring) h (ring_is_rising ring Hs)) as Hb. rewrite length_map in Hb.
  assert (Hval : forall q, q ∈ ring -> exists j, (j < length ring)%nat /\ nth j (map snd ring) 0 = q.2).
  { intros q [j Hj]%list_elem_of_lookup. exists j. split; [by eapply lookup_lt_Some|]. by apply ring_nth. }
  destruct (binary_search (map snd ring) h) as [i|i].
  - destruct Hb as [Hi He]. destruct (lookup_lt_is_Some_2 ring i Hi) as [p Hp]. exists p. split; [done|].
    rewrite (ring_nth _ _ p) in He by done. split; [by eapply list_elem_of_lookup_2|]. left. split; [lia|]. intros. lia.
  - destruct Hb as (Hi & Hlow & Hhigh). destruct (Nat.leb_spec (length ring) i) as [Hlen|Hlen].
    + destruct (lookup_lt_is_Some_2 ring 0%nat) as [p Hp]; [by destruct ring; [|cbn; lia]|]. exists p. split; [done|].
      split; [by eapply list_elem_of_lookup_2|]. right. intros q Hq. destruct (Hval q Hq) as (j & Hj & <-).
      split; [apply Hlow; lia|]. rewrite <- (ring_nth _ _ p Hp). apply (ring_is_rising ring Hs). rewrite length_map. lia.
    + destruct (lookup_lt_is_Some_2 ring i Hlen) as [p Hp]. exists p. split; [done|].
      split; [by eapply list_elem_of_lookup_2|]. left. rewrite <- (ring_nth _ _ p Hp).
      split; [specialize (Hhigh i ltac:(lia)); lia|]. intros q Hq Hhq. destruct (Hval q Hq) as (j & Hj & Eq). rewrite <- Eq in Hhq |- *.
      apply (ring_is_rising ring Hs). rewrite length_map. destruct (Nat.lt_ge_cases j i) as [Hji|]; [|lia].
      specialize (Hlow j Hji). lia.
Qed.

Lemma next_point_all ring points h p :
  ring ⊆ points -> (forall q, q ∈ points -> exists q', q' ∈ ring /\ q'.2 = q.2) -> next_point ring h p -> next_point points h p.
Proof using.
  intros Hsub Hall [Hin Hnext]. split; [by apply Hsub|]. destruct Hnext as [[Hh Hmin]|Hwrap]; [left; split; [done|]|right].
  - intros q Hq Hhq. destruct (Hall q Hq) as (q' & Hq' & Eq). rewrite <- Eq in *. by apply Hmin.
  - intros q Hq. destruct (Hall q Hq) as (q' & Hq' & Eq). rewrite <- Eq. by apply Hwrap.
Qed.

(** A pick on the ketama ring is the node that owns the next point from the
    hash of the key on, or the first point when there is none: of all the points
    of the nodes, 160 for each unit of weight.  Without any point it is the
    first node. *)
Theorem ketama_picks_next_point {K} `{Hash K} inner v (key : K) :
  (2 <= length inner)%nat -> u32_weights inner -> len inner < 2 ^ 31 -> numeric inner ->
  builder_build inner = Ok (Some v) ->
  let points := ring_points 0 (sv_inner v) in
  exists node, pick_ketama v key = Ok node /\
    if bool_decide (points = []) then sv_inner v !! 0%nat = Some node
    else exists p, next_point points (crc_finalize (hash key crc_new)) p /\ sv_inner v !! p.1 = Some node.
Proof using All.
  intros H2 Hu Hl Hn Hb. cbv zeta. assert (Hi : inner <> []) by (by intros ->; cbn in H2; lia).
  destruct (builder_build_wf inner Hi Hu Hl) as (v' & Hb' & Hwf & Hp). rewrite Hb in Hb'. injection Hb' as <-.
  destruct (builder_build_spec inner Hi Hu Hl) as (w & rr & _ & _ & _ & Hb'). rewrite Hb in Hb'. injection Hb' as Ev.
  assert (Hring : sv_ketama_ring v = ketama_ring_create (sv_inner v)) by (by subst v).
  destruct (ketama_ring_rising (sv_inner v)) as (Hs & Hall & Hsub). rewrite <- Hring in *. clear Ev.
  unfold pick_ketama. assert (Hlen : (2 <= length (sv_inner v))%nat) by (by rewrite Hp).
  destruct (length (sv_inner v)) as [|[|c]] eqn:Ec; [lia|lia|]. destruct (sv_wf_first v Hwf) as (first & Hfirst & _).
  destruct (decide (ring_points 0 (sv_inner v) = [])) as [Ep|Ep].
  - exists first. rewrite (bool_decide_eq_true_2 (ring_points _ _ = _)) by done. split; [|done].
    rewrite bool_decide_eq_true_2; [by apply item_at_ok|]. rewrite Ep in Hsub.
    destruct (sv_ketama_ring v) as [|q l]; [done|]. exfalso. by apply (not_elem_of_nil q), Hsub; left.
  - rewrite (bool_decide_eq_false_2 (ring_points _ _ = _)) by done. assert (Hne : sv_ketama_ring v <> []).
    { intros E. destruct (ring_points 0 (sv_inner v)) as [|q l]; [done|]. destruct (Hall q) as (q' & Hq' & _); [by left|].
      rewrite E in Hq'. by apply not_elem_of_nil in Hq'. }
    destruct (ketama_ring_idx_next v key Hs Hne) as (p & Hpt & Hnext).
    assert (Hpi : (p.1 < length (sv_inner v))%nat) by (by eapply (Forall_lookup_1 _ _ _ _ (wf_ring _ Hwf))).
    destruct (lookup_lt_is_Some_2 _ _ Hpi) as [node Hnode]. exists node.
    rewrite bool_decide_eq_false_2 by (by destruct (sv_ketama_ring v)). rewrite (item_at_ok _ _ p) by done. cbn [bind].
    split; [by apply item_at_ok|]. exists p. split; [|done]. by eapply next_point_all.
Qed.

(** ** Rendezvous *)

(** A strict order on values, of which the [good] ones compare with each other,
    and a value to start from. *)
Class ScanOrder {V} (lt : V -> V -> bool) (good : V -> Prop) (init : V) : Prop := {
  so_init : good init;
  so_good : forall x y, lt x y = true -> good y;
  so_irrefl : forall x, lt x x = false;
  so_trans : forall x y z, lt x y = true -> lt y z = true -> lt x z = true;
  so_above : forall x y z, good x -> lt y z = true -> lt y x = false -> lt x z = true
}.

#[local] Instance f64_scan : ScanOrder f64_lt (fun x => is_nan x = false) (Infinite true).
Proof using.
  constructor; [done| |apply f64_lt_irrefl|apply f64_lt_trans|by intros; eapply f64_lt_above].
  intros x y Hlt. by apply f64_lt_number in Hlt as [_ Hy].
Qed.

#[local] Instance u64_scan : ScanOrder Z.ltb (fun _ => True) 0.
Proof using. constructor; intros; (done || lia). Qed.

Section scan.

Context {V : Type} (lt : V -> V -> bool) (good : V -> Prop) (init : V) {order : ScanOrder lt good init}.
Context (value : T -> V).

Lemma scan_max_spec items node fv :
  good fv ->
  let r := scan_max lt value items node fv in
  (r = node /\ forall y, y ∈ items -> lt fv (value y) = false) \/
  (r ∈ items /\ lt fv (value r) = true /\ forall y, y ∈ items -> lt (value r) (value y) = false).
Proof using order.
  cbv zeta. revert node fv. induction items as [|x items IH]; intros node fv Hg; cbn [scan_max].
  { left. split; [done|]. intros y. by rewrite elem_of_nil. }
  destruct (lt fv (value x)) eqn:Ex.
  - right. destruct (IH x (value x) ltac:(by eapply so_good)) as [[-> Hall]|(Hin & Hlt & Hall)].
    + split_and!; [by left|done|]. intros y [->|Hy]%elem_of_cons; [apply so_irrefl|by apply Hall].
    + split_and!; [by right|by eapply so_trans|]. intros y [->|Hy]%elem_of_cons; [|by apply Hall].
      apply not_true_iff_false. intros E. pose proof (so_trans _ _ _ Hlt E) as E'. by rewrite so_irrefl in E'.
  - destruct (IH node fv Hg) as [[-> Hall]|(Hin & Hlt & Hall)].
    + left. split; [done|]. intros y [->|Hy]%elem_of_cons; [done|by apply Hall].
    + right. split_and!; [by right|done|]. intros y [->|Hy]%elem_of_cons; [|by apply Hall].
      apply not_true_iff_false. intros E. pose proof (so_trans _ _ _ Hlt E). congruence.
Qed.

(** Where the scan started does not matter once it found something greater. *)
Lemma scan_max_start items node fv node' fv' :
  good fv' -> lt fv fv' = false -> (exists y, y ∈ items /\ lt fv (value y) = true) ->
  scan_max lt value items node' fv' = scan_max lt value items node fv.
Proof using order.
  intros Hg' Hle. revert node' fv' Hg' Hle. induction items as [|x items IH]; intros node' fv' Hg' Hle (y & Hy & Hlt).
  { by apply not_elem_of_nil in Hy. }
  cbn [scan_max]. destruct (lt fv (value x)) eqn:Ex.
  { by rewrite (so_above fv' fv (value x)). }
  assert (Hex : exists y, y ∈ items /\ lt fv (value y) = true).
  { apply elem_of_cons in Hy as [->|Hy]; [congruence|eauto]. }
  destruct (lt fv' (value x)) eqn:Ex'; apply IH; try done. by eapply so_good.
Qed.

Lemma scan_max_app l1 l2 node fv :
  scan_max lt value (l1 ++ l2) node fv =
    scan_max lt value l2 (scan_max lt value l1 node fv)
      (fold_left (fun f y => if lt f (value y) then value y else f) l1 fv).
Proof using.
  revert node fv. induction l1 as [|x l1 IH]; intros node fv; [done|]. cbn [app scan_max fold_left].
  destruct (lt fv (value x)); apply IH.
Qed.

Lemma scan_fold_good l fv :
  good fv -> good (fold_left (fun f y => if lt f (value y) then value y else f) l fv).
Proof using order.
  revert fv. induction l as [|x l IH]; intros fv Hg; [done|]. cbn. apply IH. destruct (lt fv (value x)) eqn:E; [|done].
  by eapply so_good.
Qed.

(** Without an item that is not the one found, the same one is found. *)
Lemma scan_max_remove l1 x l2 node node' fv :
  good fv -> scan_max lt value (l1 ++ x :: l2) node fv <> x ->
  scan_max lt value (l1 ++ x :: l2) node fv <> node \/ node' = node ->
  scan_max lt value (l1 ++ l2) node' fv = scan_max lt value (l1 ++ x :: l2) node fv.
Proof using order.
  intros Hg. pose proof (scan_fold_good l1 fv Hg) as Hg1. rewrite !scan_max_app. cbn [scan_max].
  set (f1 := fold_left _ l1 fv) in *. destruct (lt f1 (value x)) eqn:Ex; intros Hx Hnode.
  - destruct (scan_max_spec l2 x (value x) ltac:(by eapply so_good)) as [[? _]|(Hin & Hlt & _)]; [done|].
    apply scan_max_start; [done| |eauto]. apply not_true_iff_false. intros E. pose proof (so_trans _ _ _ Ex E) as E'.
    by rewrite so_irrefl in E'.
  - unfold f1 in *. rewrite <- !scan_max_app in *. destruct Hnode as [Hn| ->]; [|done].
    destruct (scan_max_spec (l1 ++ l2) node fv Hg) as [[? _]|(Hin & Hlt & _)]; [done|].
    apply scan_max_start; [done|apply so_irrefl|eauto].
Qed.

(** The same for scans that start at the first item. *)
Lemma scan_first_remove l1 x l2 a rest a' rest' :
  a :: rest = l1 ++ x :: l2 -> a' :: rest' = l1 ++ l2 -> scan_max lt value (a :: rest) a init <> x ->
  scan_max lt value (a' :: rest') a' init = scan_max lt value (a :: rest) a init.
Proof using order.
  intros E E' Hx. rewrite E, E' in *. apply scan_max_remove; [apply so_init|done|].
  destruct l1 as [|b l1]; cbn in E, E'; [|right; congruence]. left. injection E as -> _. done.
Qed.

Lemma scan_first_in a rest : scan_max lt value (a :: rest) a init ∈ a :: rest.
Proof using order. destruct (scan_max_spec (a :: rest) a init so_init) as [[-> _]|[Hin _]]; [by left|done]. Qed.

(** Nothing is above what was found, when nothing is above the values that are
    not above the first. *)
Lemma scan_first_max a rest other :
  (forall x y, lt init (value y) = false -> lt (value x) (value y) = false) ->
  other ∈ a :: rest -> lt (value (scan_max lt value (a :: rest) a init)) (value other) = false.
Proof using order.
  intros Hlow Hin. destruct (scan_max_spec (a :: rest) a init so_init) as [[_ Hall]|(_ & _ & Hall)]; [|by apply Hall].
  by apply Hlow, Hall.
Qed.

End scan.

Lemma pick_rendezvous_eq {K} `{Hash K} v (key : K) a rest :
  sv_inner v = a :: rest ->
  pick_rendezvous v key = Ok (
    if sv_weighted v then scan_max f64_lt (fun item => rendezvous_weighted_hash item key) (a :: rest) a (Infinite true)
    else scan_max Z.ltb (fun item => rendezvous_hash item key) (a :: rest) a 0).
Proof using.
  intros Hi. unfold pick_rendezvous. rewrite Hi. destruct rest as [|b rest].
  - cbn. by destruct (sv_weighted v); [destruct (f64_lt _ _)|destruct (0 <? _)].
  - cbn [length item_at bind lookup]. unfold item_at. cbn [lookup list_lookup bind]. by destruct (sv_weighted v).
Qed.

Definition rendezvous_below {K} `{Hash K} v (key : K) (a b : T) : bool :=
  if sv_weighted v then f64_lt (rendezvous_weighted_hash a key) (rendezvous_weighted_hash b key)
  else rendezvous_hash a key <? rendezvous_hash b key.

Context {hash_laws : HasherLaws fold}.

(** No value is above the greatest one, also when none is above the first. *)
Lemma f64_lt_lowest x y : f64_lt (Infinite true) y = false -> f64_lt x y = false.
Proof using. destruct x as [|[]|], y as [|[]|]; done. Qed.

(** A rendezvous pick is a node of the vector above whose hash with the key
    there is no other, and it is stable: when any node that was not picked is
    taken away, the same node is picked. *)
Theorem rendezvous_picks_highest {K} `{Hash K} v (key : K) :
  sv_inner v <> [] ->
  exists node, pick_rendezvous v key = Ok node /\ node ∈ sv_inner v /\
    (forall other, other ∈ sv_inner v -> rendezvous_below v key node other = false) /\
    (forall v' l1 x l2, sv_inner v = l1 ++ x :: l2 -> x <> node ->
       sv_weighted v' = sv_weighted v -> sv_inner v' = l1 ++ l2 -> pick_rendezvous v' key = Ok node).
Proof using All.
  intros Hne. destruct (sv_inner v) as [|a rest] eqn:Hi; [done|]. rewrite (pick_rendezvous_eq v key a rest) by done.
  eexists. split; [done|]. unfold rendezvous_below. destruct (sv_weighted v) eqn:Hw; split_and!.
  - apply (scan_first_in _ _ _ (order := f64_scan)).
  - intros other. apply (scan_first_max _ _ _ (order := f64_scan) (fun item => rendezvous_weighted_hash item key)). intros. by apply f64_lt_lowest.
  - intros v' l1 x l2 E Hx Hw' Hi'. destruct (l1 ++ l2) as [|a' rest'] eqn:E'.
    { destruct l1; [|done]. cbn in *. subst l2. injection E as -> ->. cbn in Hx. by destruct (f64_lt _ _). }
    rewrite (pick_rendezvous_eq v' key a' rest'), Hw' by done. f_equal.
    by apply (scan_first_remove _ _ _ (order := f64_scan) _ l1 x l2).
  - apply (scan_first_in _ _ _ (order := u64_scan)).
  - intros other. apply (scan_first_max _ _ _ (order := u64_scan) (fun item => rendezvous_hash item key)). intros x y Hy.
    pose proof (finish_u64 (selective_hash x (hash key build_hasher))). unfold rendezvous_hash in *. lia.
  - intros v' l1 x l2 E Hx Hw' Hi'. destruct (l1 ++ l2) as [|a' rest'] eqn:E'.
    { destruct l1; [|done]. cbn in *. subst l2. injection E as -> ->. cbn in Hx. by destruct (_ <? _). }
    rewrite (pick_rendezvous_eq v' key a' rest'), Hw' by done. f_equal.
    by apply (scan_first_remove _ _ _ (order := u64_scan) _ l1 x l2).
Qed.

(** ** Every pick gives nodes *)

Context {rng_laws : RngLaws T}.

(** A pick that returns a node of the vector, or some of them. *)
Definition gives_node (v : SelectiveVec) (m : pure T) : Prop := exists a, m = Ok a /\ a ∈ sv_inner v.
Definition gives_nodes (v : SelectiveVec) (m : pure (list T)) : Prop := exists l, m = Ok l /\ l ⊆ sv_inner v.

(** A pick that may also move the cursor. *)
Definition gives_step {A} (v : SelectiveVec) (P : A -> Prop) (m : pure (A * SelectiveVec)) : Prop :=
  exists a v', m = Ok (a, v') /\ P a /\ sv_wf v' /\ same_nodes v v'.

Lemma gives_first v : sv_wf v -> gives_node v (item_at (sv_inner v) 0).
Proof using. intros Hwf. destruct (sv_wf_first v Hwf) as (a & Ha & Hin). exists a. split; [by apply item_at_ok|done]. Qed.

Lemma gives_unwrap v o : sv_wf v -> (forall a, o = Some a -> a ∈ sv_inner v) -> gives_node v (unwrap_or_first v o).
Proof using. intros Hwf Ho. destruct o as [a|]; [exists a; auto|by apply gives_first]. Qed.

Lemma gives_first_list v n :
  sv_wf v -> gives_nodes v (let? first := item_at (sv_inner v) 0 in Ok (replicate n first)).
Proof using.
  intros Hwf. destruct (gives_first v Hwf) as (a & -> & Hin). eexists. split; [done|]. cbn.
  intros b [-> _]%elem_of_replicate. done.
Qed.

Lemma nodes_at_in (inner : list T) ids nodes : nodes_at inner ids nodes -> nodes ⊆ inner.
Proof using.
  induction 1 as [|i node ids nodes Hi _ IH]; intros a; [by rewrite elem_of_nil|].
  intros [->|Ha]%elem_of_cons; [by eapply list_elem_of_lookup_2|by apply IH].
Qed.

Lemma gives_round_robin v : sv_wf v -> gives_step v (fun a => a ∈ sv_inner v) (pick_round_robin v).
Proof using.
  intros Hwf. destruct (decide (2 <= length (sv_inner v) /\ sv_order v <> []))%nat as [[H2 Ho]|Hno].
  - destruct (pick_round_robin_spec v Hwf H2 Ho) as (node & v' & Hp & Hat & Hs & Hwf' & _). exists node, v'.
    split_and!; try done. apply (nodes_at_in _ _ _ Hat). by left.
  - destruct (gives_first v Hwf) as (a & Ha & Hin). exists a, v. unfold pick_round_robin.
    pose proof (length_sv_order v) as Hlo. pose proof (wf_inner v Hwf) as Hne.
    destruct (length (sv_inner v)) as [|[|c]] eqn:Ec; [by apply nil_length_inv in Ec|by rewrite Ha|].
    rewrite <- Hlo. destruct (Nat.eqb_spec (length (sv_order v)) 0) as [E|E]; [by rewrite Ha|].
    exfalso. apply Hno. split; [lia|]. intros E'. by rewrite E' in E.
Qed.

Lemma gives_round_robin_n v n : sv_wf v -> gives_step v (fun l => l ⊆ sv_inner v) (pick_round_robin_n v n).
Proof using.
  intros Hwf. destruct (decide (2 <= length (sv_inner v) /\ sv_order v <> []))%nat as [[H2 Ho]|Hno].
  - destruct (pick_round_robin_n_spec v n Hwf H2 Ho) as (nodes & v' & Hp & Hat & Hs & Hwf' & _). exists nodes, v'.
    split_and!; try done. by eapply nodes_at_in.
  - destruct (gives_first v Hwf) as (a & Ha & Hin). unfold pick_round_robin_n.
    pose proof (length_sv_order v) as Hlo. pose proof (wf_inner v Hwf) as Hne.
    assert (Hrep : forall k, replicate k a ⊆ sv_inner v) by (intros k b [-> _]%elem_of_replicate; done).
    destruct (length (sv_inner v)) as [|[|c]] eqn:Ec; [by apply nil_length_inv in Ec| |].
    { rewrite Ha. exists [a], v. split_and!; try done. apply (Hrep 1%nat). }
    assert (Hnil : gives_step v (fun l => l ⊆ sv_inner v) (Ok ([], v))).
    { exists [], v. split_and!; try done. apply list_subseteq_nil. }
    destruct (sv_weighted v) eqn:Hw; cbv zeta; destruct (Nat.min n (S (S c)) =? 0)%nat; [done| |done|].
    + rewrite <- Hlo. destruct (Nat.eqb_spec (length (sv_order v)) 0) as [E|E]; [rewrite Ha; by eexists _, v|].
      exfalso. apply Hno. split; [lia|]. intros E'. by rewrite E' in E.
    + exfalso. apply Hno. split; [lia|]. intros E. rewrite E in Hlo. done.
Qed.

Lemma gives_jump {K} `{Hash K} v (key : K) :
  sv_wf v -> len (sv_inner v) < 2 ^ 31 -> exists m, pick_jump v key = Some m /\ gives_node v m.
Proof using.
  intros Hwf Hl. unfold pick_jump, len in *. pose proof (wf_inner v Hwf) as Hne.
  destruct (length (sv_inner v)) as [|[|c]] eqn:Ec; [by apply nil_length_inv in Ec|eexists; split; [done|by apply gives_first]|].
  rewrite Z.mod_small by lia. destruct (jump_hash_range key (Z.of_nat (S (S c))) ltac:(lia)) as (b & -> & _).
  eexists. split; [done|]. apply gives_unwrap; [done|]. intros a. by apply list_elem_of_lookup_2.
Qed.

Lemma gives_ketama {K} `{Hash K} v (key : K) :
  sv_wf v -> StronglySorted (fun a b => a.2 < b.2) (sv_ketama_ring v) -> gives_node v (pick_ketama v key).
Proof using.
  intros Hwf Hs. unfold pick_ketama. pose proof (wf_inner v Hwf) as Hne.
  destruct (length (sv_inner v)) as [|[|c]] eqn:Ec; [by apply nil_length_inv in Ec|by apply gives_first|].
  case_bool_decide as E; [by apply gives_first|].
  destruct (ketama_ring_idx_next v key Hs ltac:(by intros E'; rewrite E' in E)) as (p & Hp & _).
  rewrite (item_at_ok _ _ p) by done. cbn [bind].
  destruct (lookup_lt_is_Some_2 (sv_inner v) p.1) as [a Ha].
  { by eapply (Forall_lookup_1 _ _ _ _ (wf_ring _ Hwf)). }
  exists a. split; [by apply item_at_ok|by eapply list_elem_of_lookup_2].
Qed.

Lemma gives_rendezvous {K} `{Hash K} v (key : K) : sv_wf v -> gives_node v (pick_rendezvous v key).
Proof using.
  intros Hwf. pose proof (wf_inner v Hwf) as Hne. destruct (sv_inner v) as [|a rest] eqn:Hi; [done|].
  rewrite (pick_rendezvous_eq v key a rest) by done. eexists. split; [done|]. rewrite Hi. destruct (sv_weighted v).
  - apply (scan_first_in _ _ _ (order := f64_scan)).
  - apply (scan_first_in _ _ _ (order := u64_scan)).
Qed.

Lemma gives_rendezvous_n {K} `{Hash K} v (key : K) n :
  sv_wf v -> gives_nodes v (pick_rendezvous_n v key n).
Proof using All.
  intros Hwf. unfold pick_rendezvous_n. pose proof (wf_inner v Hwf) as Hne.
  destruct (length (sv_inner v)) as [|[|c]] eqn:Ec; [by apply nil_length_inv in Ec|by apply (gives_first_list v 1)|].
  eexists. split; [done|]. cbv zeta. set (nodes := sort_unstable_by _ _). intros a (p & -> & Hp)%list_elem_of_fmap.
  assert (p ∈ nodes) as Hin.
  { destruct (_ <? _)%nat; [|done]. apply elem_of_take in Hp as (i & Hi & _). by eapply list_elem_of_lookup_2. }
  unfold nodes in Hin. rewrite sort_unstable_perm in Hin. by apply list_elem_of_fmap in Hin as (b & -> & Hb).
Qed.

Lemma gives_random v n : sv_wf v -> gives_node v (pick_random v) /\ gives_nodes v (pick_random_n v n).
Proof using rng_laws.
  intros Hwf. unfold pick_random, pick_random_n. pose proof (wf_inner v Hwf) as Hne.
  destruct (length (sv_inner v)) as [|[|c]] eqn:Ec; [by apply nil_length_inv in Ec| |].
  - split; [by apply gives_first|by apply (gives_first_list v 1)].
  - assert (Hsample : forall k, gives_nodes v (Ok (sample (sv_inner v) k))) by (intros k; eexists; split; [done|apply sample_in]).
    cbv zeta. destruct (sv_weighted v).
    + split; [apply gives_unwrap; [done|apply choose_weighted_in]|].
      destruct (sample_weighted _ _ _) as [l|] eqn:E; [|done]. eexists. split; [done|]. by eapply sample_weighted_in.
    + split; [apply gives_unwrap; [done|apply choose_in]|done].
Qed.

Lemma gives_serial v n : sv_wf v -> gives_node v (pick_serial v) /\ gives_nodes v (pick_serial_n v n).
Proof using.
  intros Hwf. unfold pick_serial, pick_serial_n. pose proof (wf_inner v Hwf) as Hne.
  rewrite bool_decide_eq_false_2 by (by intros E%nil_length_inv). split; [by apply gives_first|].
  rewrite slice_ok by (unfold len; destruct (Nat.ltb_spec n (length (sv_inner v))); lia).
  eexists. split; [done|]. intros a (i & Hi & _)%elem_of_take. by eapply list_elem_of_lookup_2.
Qed.

(** C29: what [build] makes of a vector of nodes is well formed: its cycle and its
    ring refer to nodes, and its cursor is within the cycle; every pick leaves it
    so, does not panic, and gives nodes of the vector. *)
Theorem selective_vec_well_formed {K} `{Hash K} inner (key : K) n :
  inner <> [] -> numeric inner -> u32_weights inner -> len inner < 2 ^ 31 ->
  exists v0, builder_build inner = Ok (Some v0) /\ sv_wf v0 /\ sv_inner v0 ≡ₚ inner /\
    forall v, sv_wf v -> same_nodes v0 v ->
      gives_node v (pick_random v) /\ gives_nodes v (pick_random_n v n) /\
      gives_node v (pick_serial v) /\ gives_nodes v (pick_serial_n v n) /\
      gives_step v (fun a => a ∈ sv_inner v) (pick_round_robin v) /\
      gives_step v (fun l => l ⊆ sv_inner v) (pick_round_robin_n v n) /\
      (exists m, pick_jump v key = Some m /\ gives_node v m) /\
      gives_node v (pick_rendezvous v key) /\ gives_nodes v (pick_rendezvous_n v key n) /\
      gives_node v (pick_ketama v key).
Proof using All.
  intros Hi Hn Hu Hl. destruct (builder_build_wf inner Hi Hu Hl) as (v0 & Hb & Hwf & Hp). exists v0. split_and!; try done.
  intros v Hv Hs. destruct (gives_random v n Hv), (gives_serial v n Hv). pose proof Hs as (Hw & Hin & _ & Hring).
  destruct (builder_build_spec inner Hi Hu Hl) as (w & rr & _ & _ & _ & Hb'). rewrite Hb in Hb'. injection Hb' as Ev.
  assert (Hr : StronglySorted (fun a b => a.2 < b.2) (sv_ketama_ring v)).
  { rewrite Hring, Ev. apply ketama_ring_rising. }
  split_and!; try done; [by apply gives_round_robin|by apply gives_round_robin_n| | |by apply gives_rendezvous_n|by apply gives_ketama].
  - apply gives_jump; [done|]. rewrite Hin. unfold len. by rewrite Hp.
  - by apply gives_rendezvous.
Qed.

End Selective.

(** ** Concrete parameters *)

Module Sample.

(** A hash state of 32 bits that adds up what it is given. *)
Definition mix (h v : Z) : Z := (h * 16777619 + v) mod 2 ^ 32.

#[local] Instance mix_hasher : Hasher Z := {|
  hasher_write h c := match c with Write b => fold_left (fun h b => mix h (u8 b)) b h | WriteInt _ v => mix h v end;
  finish h := h mod 2 ^ 32
|}.

#[local] Instance mix_laws : HasherLaws Z.
Proof. constructor. intros h. cbn. pose proof (Z.mod_pos_bound h (2 ^ 32) ltac:(lia)). unfold u64_max. lia. Qed.

#[local] Instance Z_Hash : Hash Z := {| hash _ _ z h := hasher_write h (WriteInt 64 z) |}.

#[local] Instance mix_crc : Crc32 := {|
  crc := Z;
  crc_new := 2166136261;
  crc_update h b := hasher_write h (Write b);
  crc_finalize h := h
|}.

#[local] Instance mix_fixed : FixedState := {| fold := Z; build_hasher := 2166136261 |}.

#[local] Instance stable_sort : UnstableSort := {| sort_unstable_by _ leb l := sort_by leb l |}.

#[local] Instance stable_sort_laws : UnstableSortLaws.
Proof.
  constructor; intros A leb l.
  - apply sort_by_perm.
  - intros Ht Htr. apply (sort_by_sorted leb (fun a => a ∈ l)); [auto|eauto|]. by apply Forall_forall.
Qed.

#[local] Instance first_rng (T : Type) : Rng T := {|
  choose l := head l;
  choose_weighted l _ := head l;
  sample l n := take n l;
  sample_weighted l n _ := None
|}.

#[local] Instance first_rng_laws (T : Type) : RngLaws T.
Proof.
  constructor.
  - intros [|x l] a; [done|]. intros [= ->]. by left.
  - intros [|x l] f a; [done|]. intros [= ->]. by left.
  - intros l n a (i & Hi & _)%elem_of_take. by eapply list_elem_of_lookup_2.
  - done.
Qed.

#[local] Instance no_ln : Ln := {| ln x := x |}.

(** Three nodes of the weights 0.5, 3 and 2. *)
Definition nodes : list (WeightedValue Z) :=
  [with_weight 10 (Finite 1 (-1)); with_weight 20 (Finite 3 0); with_weight 30 (Finite 1 1)].

Definition built : @SelectiveVec (WeightedValue Z) :=
  match builder_build nodes with Ok (Some v) => v | _ => new_basic [] end.

Lemma round_robin_fair_witness :
  exists v shares earlier v1 ids picked v2, builder_build nodes = Ok (Some v) /\ fit_rr_cycle (reduced_weights (sv_inner v)) = Ok shares /\
    run_calls v [PickOne; PickMany 2] = Ok (earlier, v1) /\
    run_calls v1 [PickMany 3; PickOne; PickMany 2] = Ok (picked, v2) /\ nodes_at (sv_inner v) ids picked /\
    forall i node, sv_inner v !! i = Some node -> picks ids i = 1 * (if sv_weighted v then nth i shares 0 else 1).
Proof.
  destruct (round_robin_fair nodes) as (v & shares & Hb & _ & _ & Hfit & Hrun).
  - repeat constructor.
  - repeat constructor; apply Z.leb_le; reflexivity.
  - reflexivity.
  - cbn. lia.
  - left. reflexivity.
  - destruct (Hrun [PickOne; PickMany 2]) as (earlier & v1 & H1 & H2).
    assert (Hv : v = built) by (unfold built; rewrite Hb; reflexivity).
    destruct (H2 [PickMany 3; PickOne; PickMany 2] 1%nat) as (ids & picked & v2 & H3 & H4 & H5).
    { subst v. vm_compute. reflexivity. }
    exists v, shares, earlier, v1, ids, picked, v2. split_and!; assumption.
Defined.

Lemma jump_hash_consistent_witness :
  exists b b', jump_hash 7 5 = Some b /\ 0 <= b < 5 /\ jump_hash 7 6 = Some b' /\ (b' = b \/ b' = 5).
Proof. apply (jump_hash_consistent 7 5). apply Z.leb_le. reflexivity. Defined.

Lemma ketama_picks_next_point_witness :
  exists node p, pick_ketama built 7 = Ok node /\ sv_inner built !! p.1 = Some node /\
    next_point (ring_points 0 (sv_inner built)) (crc_finalize (hash 7 crc_new)) p.
Proof.
  destruct (ketama_picks_next_point nodes built 7) as (node & Hp & Hn).
  - cbn. lia.
  - repeat constructor; apply Z.leb_le; reflexivity.
  - reflexivity.
  - repeat constructor.
  - vm_compute. reflexivity.
  - rewrite bool_decide_eq_false_2 in Hn by (vm_compute; discriminate). destruct Hn as (p & Hnext & Hnode).
    exists node, p. auto.
Defined.

Lemma rendezvous_picks_highest_witness :
  exists node, pick_rendezvous built 7 = Ok node /\ node ∈ sv_inner built /\
    (forall other, other ∈ sv_inner built -> rendezvous_below built 7 node other = false).
Proof.
  destruct (rendezvous_picks_highest built 7) as (node & Hp & Hin & Hmax & _); [vm_compute; discriminate|].
  exists node. auto.
Defined.

Lemma selective_vec_well_formed_witness :
  exists v, builder_build nodes = Ok (Some v) /\ sv_wf v /\ gives_node v (pick_rendezvous v 7) /\
    gives_nodes v (pick_random_n v 2).
Proof.
  destruct (selective_vec_well_formed nodes 7 2) as (v & Hb & Hwf & _ & Hpicks).
  - discriminate.
  - repeat constructor.
  - repeat constructor; apply Z.leb_le; reflexivity.
  - reflexivity.
  - exists v. split; [exact Hb|]. split; [exact Hwf|].
    destruct (Hpicks v Hwf (conj eq_refl (conj eq_refl (conj eq_refl eq_refl))))
      as (_ & Hrn & _ & _ & _ & _ & _ & Hr & _ & _). split; [exact Hr|exact Hrn].
Defined.

End Sample.
