(* ===== verification/Leb128.v ===== *)
(** * LEB128, zig-zag and Thrift compact integers

    Models [lib/vey-codec/src/leb128.rs], [lib/vey-std-ext/src/core/zig_zag.rs]
    and [lib/vey-codec/src/thrift/var_int.rs].  The decoder is compared with
    [uleb], the textbook unbounded definition of LEB128; the encoders are
    inverted by the decoders. *)

From Stdlib Require Import ZArith Lia Strings.Byte.
From stdpp Require Import base list.
From S2P Require Import Prelude.

(** ** The codec *)

Inductive Leb128DecodeError : Type :=
| LebNeedMoreData
| LebNoEndFound
| LebOverflow.

Record Leb128 : Type := { leb_value : Z; leb_encoded_len : Z }.

(** The [for (i, b) in left.iter().enumerate()] loop. *)
Fixpoint Leb128_decode_loop (left : bytes) (i value total_bits : Z)
    : res Leb128DecodeError Leb128 :=
  match left with
  | [] => Err LebNeedMoreData
  | b :: left' =>
      let bv := Z.land (u8 b) 0x7f in
      if Z.land (u8 b) 0x80 =? 0 then
        let room := 32 - total_bits in
        let? high := shr 32 bv room in
        if negb (high =? 0) then Err LebOverflow
        else
          let? shifted := shl 32 bv total_bits in
          Ok {| leb_value := Z.lor value shifted; leb_encoded_len := i + 2 |}
      else
        let? shifted := shl 32 bv total_bits in
        let value := Z.lor value shifted in
        let total_bits := total_bits + 7 in
        if 32 <? total_bits then Err LebNoEndFound
        else Leb128_decode_loop left' (i + 1) value total_bits
  end.

Definition Leb128_decode (data : bytes) : res Leb128DecodeError Leb128 :=
  if len data =? 0 then Err LebNeedMoreData
  else
    let? b0 := index data 0 in
    let bv := Z.land (u8 b0) 0x7F in
    if Z.land (u8 b0) 0x80 =? 0 then Ok {| leb_value := bv; leb_encoded_len := 1 |}
    else
      let? left := slice_from data 1 in
      Leb128_decode_loop left 0 bv 7.

(** [Leb128Encoder] owns a buffer of ten bytes; [encode_u32] returns the buffer
    and the borrowed prefix of it.  Every iteration writes one cell, so the
    loop is bounded by the cells that are left: the next write would be out
    of range. *)
Definition Leb128Encoder_default : bytes := replicate 10 x00.

Fixpoint Leb128_encode_loop {E} (cells : nat) (buf : bytes) (offset data : Z)
    : res E (bytes * bytes) :=
  match cells with
  | O => Panic
  | S cells' =>
      let bv := Z.land data 0x7f in
      let data := Z.shiftr data 7 in
      if data =? 0 then
        let? buf := set_index buf offset (to_u8 bv) in
        let? out := slice buf 0 (offset + 1) in
        Ok (buf, out)
      else
        let? buf := set_index buf offset (to_u8 (Z.lor bv 0x80)) in
        Leb128_encode_loop cells' buf (offset + 1) data
  end.

Definition Leb128_encode_u32 {E} (buf : bytes) (data : Z) : res E (bytes * bytes) :=
  Leb128_encode_loop (length buf) buf 0 data.

(** [impl_zig_zag!] at the width [w] of its two types. *)
Definition to_zig_zag (w x : Z) : Z :=
  let shl1 := cast_signed w (cast_unsigned w (Z.shiftl x 1)) in
  cast_unsigned w (Z.lxor (Z.shiftr x (w - 1)) shl1).

Definition from_zig_zag (w v : Z) : Z :=
  Z.lxor (cast_signed w (Z.shiftr v 1)) (- cast_signed w (Z.land v 1)).

(** Thrift's [VarInt32] and [VarIntEncoder]. *)
Record VarInt32 : Type := { vi_leb128 : Leb128 }.

Definition VarInt32_parse (data : bytes) : res Leb128DecodeError VarInt32 :=
  let? leb128 := Leb128_decode data in
  Ok {| vi_leb128 := leb128 |}.

Definition VarInt32_positive_value (v : VarInt32) : Z :=
  cast_signed 32 (leb_value (vi_leb128 v)).

Definition VarInt32_value (v : VarInt32) : Z :=
  from_zig_zag 32 (leb_value (vi_leb128 v)).

Definition VarInt32_encoded_len (v : VarInt32) : Z := leb_encoded_len (vi_leb128 v).

Definition encode_i32 {E} (buf : bytes) (v : Z) : res E (bytes * bytes) :=
  Leb128_encode_u32 buf (to_zig_zag 32 v).

Definition encode_positive_i32 {E} (buf : bytes) (v : Z) : res E (bytes * bytes) :=
  Leb128_encode_u32 buf (cast_unsigned 32 v).

(** ** The reference definition

    Little endian groups of seven bits; the last group is the first byte below
    128.  [uleb data] is the number and how many bytes carry it. *)
Fixpoint uleb (data : bytes) : option (Z * Z) :=
  match data with
  | [] => None
  | b :: l =>
      if u8 b <? 128 then Some (u8 b, 1)
      else match uleb l with
           | Some (v, n) => Some (u8 b - 128 + 128 * v, n + 1)
           | None => None
           end
  end.

Fixpoint uleb_encode (n : nat) (v : Z) : bytes :=
  match n with
  | O => []
  | S n' =>
      if v <? 128 then [to_u8 v]
      else to_u8 (v mod 128 + 128) :: uleb_encode n' (v / 128)
  end.

(** ** Correctness *)

Lemma shl_ok {E} w x n :
  0 <= n < w -> 0 <= x -> x * 2 ^ n < 2 ^ w -> shl (E := E) w x n = Ok (x * 2 ^ n).
Proof.
  intros. unfold shl.
  destruct (Z.leb_spec 0 n), (Z.ltb_spec n w); try lia. cbn.
  rewrite shiftl_mul, Z.mod_small by (try apply Z.mul_nonneg_nonneg; lia). done.
Qed.

Lemma shr_ok {E} w x n : 0 <= n < w -> shr (E := E) w x n = Ok (x / 2 ^ n).
Proof.
  intros. unfold shr.
  destruct (Z.leb_spec 0 n), (Z.ltb_spec n w); try lia. cbn.
  by rewrite shiftr_div by lia.
Qed.

(** What the loop returns from the state it reaches after [k] bytes. *)
Lemma Leb128_decode_loop_spec (left : bytes) (k value : Z) :
  k = 1 \/ k = 2 \/ k = 3 \/ k = 4 ->
  0 <= value < 2 ^ (7 * k) ->
  Leb128_decode_loop left (k - 1) value (7 * k) =
    match uleb (take (Z.to_nat (5 - k)) left) with
    | Some (v, n) =>
        if value + 2 ^ (7 * k) * v <=? u32_max
        then Ok {| leb_value := value + 2 ^ (7 * k) * v; leb_encoded_len := k + n |}
        else Err LebOverflow
    | None => if len left <? 5 - k then Err LebNeedMoreData else Err LebNoEndFound
    end.
Proof.
  revert k value. induction left as [|b left IH]; intros k value Hk Hv.
  { destruct Hk as [-> | [-> | [-> | ->]]]; reflexivity. }
  cbn [Leb128_decode_loop]. pose proof (u8_range b) as Hb.
  rewrite low_bits, high_bit by lia.
  assert (Z.to_nat (5 - k) = S (Z.to_nat (4 - k))) as -> by lia.
  cbn [take uleb].
  destruct (Z.ltb_spec (u8 b) 128) as [Hlow|Hhigh].
  - rewrite shr_ok by lia. cbn [bind]. rewrite (Z.mod_small (u8 b)) by lia.
    destruct (Z.eqb_spec (u8 b / 2 ^ (32 - 7 * k)) 0) as [Hfit|Hfit]; cbn [negb].
    + apply Z.div_small_iff in Hfit; [|lia].
      destruct Hk as [-> | [-> | [-> | ->]]]; cbn in Hv, Hfit;
        rewrite shl_ok by (cbn; lia); cbn [bind]; rewrite lor_disjoint by (cbn; lia);
        match goal with |- context [?a <=? ?b] => destruct (Z.leb_spec a b) end;
        unfold u32_max in *; cbn in *; try lia; do 2 f_equal; lia.
    + destruct (Z.leb_spec (value + 2 ^ (7 * k) * u8 b) u32_max); [|done]. exfalso.
      apply Hfit, Z.div_small.
      destruct Hk as [-> | [-> | [-> | ->]]]; cbn in *; unfold u32_max in *; lia.
  - assert (u8 b mod 128 = u8 b - 128) as -> by (symmetry; apply Z.mod_unique with 1; lia).
    destruct (Z.eq_dec k 4) as [->|Hk4].
    { change (Z.to_nat (4 - 4)) with 0%nat. cbn [take uleb].
      destruct (Z.ltb_spec (len (b :: left)) (5 - 4)); [len_lia|reflexivity]. }
    assert (2 ^ (7 * (k + 1)) = 128 * 2 ^ (7 * k)) as Hpow.
    { replace (7 * (k + 1)) with (7 + 7 * k) by lia. by rewrite Z.pow_add_r by lia. }
    assert (2 ^ (7 * k) <= 2 ^ 21) by (apply Z.pow_le_mono_r; lia).
    assert ((u8 b - 128) * 2 ^ (7 * k) <= 127 * 2 ^ 21)
      by (apply Z.mul_le_mono_nonneg; lia).
    rewrite shl_ok by (cbn in *; lia). cbn [bind]. rewrite lor_disjoint by lia.
    replace (k - 1 + 1) with (k + 1 - 1) by lia.
    replace (7 * k + 7) with (7 * (k + 1)) by lia.
    destruct (Z.ltb_spec 32 (7 * (k + 1))); [lia|].
    assert (0 <= value + (u8 b - 128) * 2 ^ (7 * k) < 128 * 2 ^ (7 * k)) by nia.
    rewrite IH, Hpow by (rewrite ?Hpow; lia).
    replace (Z.to_nat (5 - (k + 1))) with (Z.to_nat (4 - k)) by lia.
    destruct (uleb _) as [[v n]|].
    + replace (value + 2 ^ (7 * k) * (u8 b - 128 + 128 * v))
        with (value + (u8 b - 128) * 2 ^ (7 * k) + 128 * 2 ^ (7 * k) * v) by ring.
      destruct (_ <=? _); [|done]. do 2 f_equal. lia.
    + rewrite len_cons.
      destruct (Z.ltb_spec (len left) (5 - (k + 1))), (Z.ltb_spec (1 + len left) (5 - k));
        done || lia.
Qed.

Lemma Leb128_decode_uleb (data : bytes) :
  Leb128_decode data =
    match uleb (take 5 data) with
    | Some (v, n) =>
        if v <=? u32_max then Ok {| leb_value := v; leb_encoded_len := n |}
        else Err LebOverflow
    | None => if len data <? 5 then Err LebNeedMoreData else Err LebNoEndFound
    end.
Proof.
  destruct data as [|b left]; [reflexivity|].
  unfold Leb128_decode. rewrite len_cons.
  destruct (Z.eqb_spec (1 + len left) 0); [len_lia|].
  rewrite (index_ok _ _ b) by done. cbn [bind]. pose proof (u8_range b).
  rewrite low_bits, high_bit by lia. cbn [take uleb].
  destruct (Z.ltb_spec (u8 b) 128).
  - rewrite Z.mod_small by lia.
    destruct (Z.leb_spec (u8 b) u32_max); [done|unfold u32_max in *; lia].
  - rewrite slice_from_ok by len_lia. change (drop (Z.to_nat 1) (b :: left)) with left.
    cbn [bind].
    assert (u8 b mod 128 = u8 b - 128) as -> by (symmetry; apply Z.mod_unique with 1; lia).
    change (Leb128_decode_loop left 0 (u8 b - 128) 7)
      with (Leb128_decode_loop left (1 - 1) (u8 b - 128) (7 * 1)).
    rewrite (Leb128_decode_loop_spec left 1 (u8 b - 128)) by lia.
    change (Z.to_nat (5 - 1)) with 4%nat. change (2 ^ (7 * 1)) with 128.
    destruct (uleb _) as [[v k]|].
    + destruct (_ <=? _); [|done]. do 2 f_equal. lia.
    + destruct (Z.ltb_spec (len left) (5 - 1)), (Z.ltb_spec (1 + len left) 5); done || lia.
Qed.

(** *** The encoder *)

Lemma set_index_app {E} (pre : bytes) (c b : byte) (post : bytes) :
  set_index (E := E) (pre ++ c :: post) (len pre) b = Ok (pre ++ b :: post).
Proof.
  unfold set_index.
  destruct (Z.leb_spec 0 (len pre)), (Z.ltb_spec (len pre) (len (pre ++ c :: post)));
    try len_lia.
  cbn. f_equal. unfold len. rewrite Nat2Z.id, insert_app_r_alt, Nat.sub_diag by lia.
  reflexivity.
Qed.

Lemma Leb128_encode_loop_spec {E} (pre post : bytes) (v : Z) :
  0 <= v < 128 ^ len post -> post <> [] ->
  exists tail,
    Leb128_encode_loop (E := E) (length post) (pre ++ post) (len pre) v =
      Ok (pre ++ uleb_encode (length post) v ++ tail, pre ++ uleb_encode (length post) v) /\
    length (uleb_encode (length post) v ++ tail) = length post.
Proof.
  revert pre v. induction post as [|c post IH]; intros pre v Hv Hne; [done|].
  rewrite len_cons, Z.pow_add_r in Hv by len_lia. change (128 ^ 1) with 128 in Hv.
  cbn [length Leb128_encode_loop uleb_encode].
  rewrite shiftr_div, low_bits by lia. change (2 ^ 7) with 128.
  destruct (Z.eqb_spec (v / 128) 0) as [Hlast|Hmore].
  - apply Z.div_small_iff in Hlast; [|lia].
    destruct (Z.ltb_spec v 128); [|lia]. rewrite (Z.mod_small v) by lia.
    rewrite set_index_app. cbn [bind]. exists post.
    replace (pre ++ to_u8 v :: post) with ([] ++ (pre ++ [to_u8 v]) ++ post)
      by (cbn; by rewrite <- app_assoc).
    replace (len pre + 1) with (len (@nil byte) + len (pre ++ [to_u8 v])) by len_lia.
    change 0 with (len (@nil byte)) at 1.
    rewrite slice_app. cbn [bind app length]. split; [|done]. by rewrite <- app_assoc.
  - assert (128 <= v) by (destruct (Z.lt_ge_cases v 128); [|done];
      exfalso; apply Hmore, Z.div_small; lia).
    destruct (Z.ltb_spec v 128); [lia|].
    rewrite set_index_app. cbn [bind].
    assert (Z.lor (v mod 128) 128 = v mod 128 + 128) as ->.
    { apply (lor_disjoint _ 1 7); [lia|]. apply Z.mod_pos_bound. lia. }
    assert (0 <= v / 128 < 128 ^ len post) as Hv'.
    { split; [apply Z.div_pos; lia|apply Z.div_lt_upper_bound; lia]. }
    assert (post <> []) by (intros ->; change (len []) with 0 in Hv'; rewrite Z.pow_0_r in Hv'; lia).
    destruct (IH (pre ++ [to_u8 (v mod 128 + 128)]) (v / 128)) as (tail & Hrec & Hlen); [done..|].
    exists tail. split; [|cbn [app length]; by rewrite Hlen]. rewrite len_app in Hrec. change (len [_]) with 1 in Hrec.
    rewrite <- !app_assoc in Hrec. cbn [app] in Hrec. exact Hrec.
Qed.

Lemma uleb_encode_decode n v rest :
  0 <= v < 128 ^ Z.of_nat n ->
  uleb (uleb_encode n v ++ rest) = Some (v, len (uleb_encode n v)) \/ n = O.
Proof.
  revert v. induction n as [|n IH]; intros v Hv; [by right|left].
  rewrite Nat2Z.inj_succ, Z.pow_succ_r in Hv by lia. cbn [uleb_encode].
  pose proof (Z.mod_pos_bound v 128 ltac:(lia)).
  destruct (Z.ltb_spec v 128).
  - cbn. rewrite u8_to_u8_small by lia. by destruct (Z.ltb_spec v 128); [|lia].
  - cbn [app uleb]. rewrite u8_to_u8_small by lia.
    destruct (Z.ltb_spec (v mod 128 + 128) 128); [lia|].
    destruct (IH (v / 128)) as [-> | ->].
    { split; [apply Z.div_pos; lia|apply Z.div_lt_upper_bound; lia]. }
    + rewrite len_cons. f_equal. f_equal; [|lia].
      pose proof (Z.div_mod v 128 ltac:(lia)). lia.
    + cbn in Hv. lia.
Qed.

Lemma length_uleb_encode n v :
  (0 < n)%nat -> (1 <= length (uleb_encode n v) <= n)%nat.
Proof.
  revert v. induction n as [|n IH]; intros v Hn; [lia|]. cbn [uleb_encode].
  destruct (v <? 128); cbn [length]; [lia|].
  destruct n as [|n]; [cbn; lia|]. specialize (IH (v / 128)). lia.
Qed.

(** The bytes the encoder returns for a 32 bit number: at most five. *)
Lemma uleb_encode_ge n m v :
  0 <= v < 128 ^ Z.of_nat n -> (n <= m)%nat -> (0 < n)%nat -> uleb_encode m v = uleb_encode n v.
Proof.
  revert m v. induction n as [|n IH]; intros m v Hv Hm Hn; [lia|].
  destruct m as [|m]; [lia|]. cbn [uleb_encode].
  rewrite Nat2Z.inj_succ, Z.pow_succ_r in Hv by lia.
  destruct (Z.ltb_spec v 128); [done|]. f_equal.
  destruct n as [|n]; [cbn in Hv; lia|]. apply IH; [|lia..].
  split; [apply Z.div_pos; lia|apply Z.div_lt_upper_bound; lia].
Qed.

Lemma Leb128_encode_u32_spec {E} (buf : bytes) (v : Z) :
  length buf = 10%nat -> 0 <= v <= u32_max ->
  exists buf', length buf' = 10%nat /\
    Leb128_encode_u32 (E := E) buf v = Ok (buf', uleb_encode 5 v).
Proof.
  intros Hbuf Hv. unfold Leb128_encode_u32.
  destruct (Leb128_encode_loop_spec (E := E) [] buf v) as (tail & Hloop & Hlen).
  { unfold len. rewrite Hbuf. unfold u32_max in Hv. cbn. lia. }
  { by intros ->. }
  cbn [app] in Hloop. change (len []) with 0 in Hloop. rewrite Hloop. eexists. split; [by rewrite Hlen|].
  rewrite Hbuf, (uleb_encode_ge 5 10) by (unfold u32_max in Hv; cbn; lia). done.
Qed.

Lemma Leb128_decode_encoded (v : Z) (rest : bytes) :
  0 <= v <= u32_max ->
  Leb128_decode (uleb_encode 5 v ++ rest) =
    Ok {| leb_value := v; leb_encoded_len := len (uleb_encode 5 v) |}.
Proof.
  intros Hv. pose proof (length_uleb_encode 5 v ltac:(lia)).
  rewrite Leb128_decode_uleb, take_app_ge by lia.
  destruct (uleb_encode_decode 5 v (take (5 - length (uleb_encode 5 v)) rest)) as [-> | [=]].
  { unfold u32_max in Hv. cbn. lia. }
  by destruct (Z.leb_spec v u32_max); [|lia].
Qed.

Example encode_624485 :
  Leb128_encode_u32 (E := Leb128DecodeError) Leb128Encoder_default 624485
    = Ok ([xe5; x8e; x26] ++ replicate 7 x00, [xe5; x8e; x26]).
Proof. reflexivity. Qed.

Example decode_624485 :
  Leb128_decode [xe5; x8e; x26] = Ok {| leb_value := 624485; leb_encoded_len := 3 |}.
Proof. reflexivity. Qed.

(** *** Zig-zag *)

Section ZigZag.
Context (w : Z) (Hw : 2 <= w).

Lemma pow_w : 2 ^ w = 2 * 2 ^ (w - 1) /\ 2 <= 2 ^ (w - 1).
Proof.
  split.
  - rewrite <- Z.pow_succ_r by lia. f_equal. lia.
  - change 2 with (2 ^ 1) at 1. apply Z.pow_le_mono_r; lia.
Qed.

(** Non-negative numbers go to the even codes, negative ones to the odd codes. *)
Lemma to_zig_zag_eq x :
  - 2 ^ (w - 1) <= x < 2 ^ (w - 1) ->
  to_zig_zag w x = if 0 <=? x then 2 * x else - 2 * x - 1.
Proof.
  destruct pow_w as [Hp Hp2]. intros Hx. unfold to_zig_zag, cast_unsigned, cast_signed.
  rewrite shiftr_div, shiftl_mul by lia. change (2 ^ 1) with 2.
  assert (exists k, (if (x * 2) mod 2 ^ w <? 2 ^ (w - 1) then (x * 2) mod 2 ^ w
                     else (x * 2) mod 2 ^ w - 2 ^ w) = x * 2 + k * 2 ^ w) as (k & ->).
  { pose proof (Z.div_mod (x * 2) (2 ^ w) ltac:(lia)). destruct (_ <? _).
    - exists (- (x * 2 / 2 ^ w)). lia.
    - exists (- (x * 2 / 2 ^ w) - 1). lia. }
  destruct (Z.leb_spec 0 x).
  - rewrite Z.div_small, Z.lxor_0_l, Z.mod_add, Z.mod_small by lia. lia.
  - assert (x / 2 ^ (w - 1) = -1) as ->
      by (symmetry; apply Z.div_unique with (x + 2 ^ (w - 1)); lia).
    rewrite Z.lxor_comm, Z.lxor_m1_r. unfold Z.lnot. rewrite <- Z.sub_1_r.
    symmetry. apply Z.mod_unique with (- k); lia.
Qed.

Lemma from_zig_zag_eq v :
  0 <= v < 2 ^ w ->
  from_zig_zag w v = if Z.even v then v / 2 else - (v / 2) - 1.
Proof.
  destruct pow_w as [Hp Hp2]. intros Hv. unfold from_zig_zag, cast_signed.
  rewrite shiftr_div by lia. change (Z.land v 1) with (Z.land v (2 ^ 1 - 1)).
  rewrite land_mask, Zmod_even by lia. change (2 ^ 1) with 2.
  assert (v / 2 < 2 ^ (w - 1)) by (apply Z.div_lt_upper_bound; lia).
  destruct (Z.ltb_spec (v / 2) (2 ^ (w - 1))); [|lia]. destruct (Z.even v).
  - destruct (Z.ltb_spec 0 (2 ^ (w - 1))); [|lia]. apply Z.lxor_0_r.
  - destruct (Z.ltb_spec 1 (2 ^ (w - 1))); [|lia].
    change (- (1)) with (-1). rewrite Z.lxor_m1_r. unfold Z.lnot. lia.
Qed.

Lemma to_zig_zag_range x :
  - 2 ^ (w - 1) <= x < 2 ^ (w - 1) -> 0 <= to_zig_zag w x < 2 ^ w.
Proof.
  destruct pow_w as [Hp Hp2]. intros Hx. rewrite (to_zig_zag_eq x Hx).
  destruct (Z.leb_spec 0 x); lia.
Qed.

Lemma from_to_zig_zag x :
  - 2 ^ (w - 1) <= x < 2 ^ (w - 1) -> from_zig_zag w (to_zig_zag w x) = x.
Proof.
  intros Hx. pose proof (to_zig_zag_range x Hx) as Hr.
  rewrite (from_zig_zag_eq _ Hr), (to_zig_zag_eq x Hx). destruct (Z.leb_spec 0 x).
  - rewrite Z.even_mul. cbn [Z.even orb]. rewrite Z.mul_comm. apply Z.div_mul. lia.
  - replace (- 2 * x - 1) with (1 + 2 * (- x - 1)) by lia.
    rewrite Z.even_add_mul_2. cbn [Z.even].
    rewrite Z.add_comm, Z.mul_comm, Z.div_add_l by lia. change (1 / 2) with 0. lia.
Qed.

Lemma to_from_zig_zag v :
  0 <= v < 2 ^ w ->
  - 2 ^ (w - 1) <= from_zig_zag w v < 2 ^ (w - 1) /\ to_zig_zag w (from_zig_zag w v) = v.
Proof.
  destruct pow_w as [Hp Hp2]. intros Hv. rewrite (from_zig_zag_eq v Hv).
  assert (v = 2 * (v / 2) + if Z.even v then 0 else 1) as Hdm
    by (rewrite <- Zmod_even; apply Z.div_mod; lia).
  assert (0 <= v / 2 < 2 ^ (w - 1)) as Hh
    by (split; [apply Z.div_pos|apply Z.div_lt_upper_bound]; lia).
  destruct (Z.even v); (split; [lia|]); rewrite to_zig_zag_eq by lia;
    match goal with |- context [0 <=? ?a] => destruct (Z.leb_spec 0 a) end; lia.
Qed.

End ZigZag.

(** ** Properties *)

(** [Leb128::<u32>::decode] is the textbook LEB128 decoder restricted to
    five bytes: on every input it returns the number and the byte count of the
    reference definition when the number fits in 32 bits, [Overflow] when it
    does not, [NeedMoreData] when fewer than five bytes are there and none ends
    the number, and [NoEndFound] when five bytes are there and none does.  It
    never panics (no shift is out of range). *)
Theorem Leb128_decode_equiv (data : bytes) :
  Leb128_decode data =
    match uleb (take 5 data) with
    | Some (v, n) =>
        if v <=? u32_max then Ok {| leb_value := v; leb_encoded_len := n |}
        else Err LebOverflow
    | None => if len data <? 5 then Err LebNeedMoreData else Err LebNoEndFound
    end.
Proof. apply Leb128_decode_uleb. Qed.

(** Zig-zag is a bijection between the signed and the unsigned integers at
    each of the three widths of [impl_zig_zag!] (and any other): each
    conversion undoes the other, and numbers of small magnitude get small
    codes ([x] gets [2x], or [-2x-1] when negative). *)
Theorem zig_zag_bijection (w : Z) :
  w = 16 \/ w = 32 \/ w = 64 ->
  (forall x, - 2 ^ (w - 1) <= x < 2 ^ (w - 1) ->
     to_zig_zag w x = (if 0 <=? x then 2 * x else - 2 * x - 1) /\
     0 <= to_zig_zag w x < 2 ^ w /\
     from_zig_zag w (to_zig_zag w x) = x) /\
  (forall v, 0 <= v < 2 ^ w ->
     - 2 ^ (w - 1) <= from_zig_zag w v < 2 ^ (w - 1) /\
     to_zig_zag w (from_zig_zag w v) = v).
Proof.
  intros Hw. split; intros.
  - repeat split; [apply to_zig_zag_eq|apply to_zig_zag_range|apply to_zig_zag_range
                  |apply from_to_zig_zag]; lia.
  - apply to_from_zig_zag; lia.
Qed.

Lemma zig_zag_bijection_witness :
  (16 = 16 \/ 16 = 32 \/ 16 = 64) /\ from_zig_zag 16 (to_zig_zag 16 (-3)) = -3.
Proof.
  split; [by left|].
  apply (zig_zag_bijection 16); [by left|]. cbn. lia.
Defined.

(** Every [i32] survives Thrift's compact encoding, with and without
    zig-zag, whatever bytes follow it and whatever the encoder's buffer held
    before; the encoder neither panics nor writes more than five bytes, and the
    parser consumes exactly the bytes the encoder wrote. *)
Theorem thrift_varint_roundtrip (buf : bytes) (v : Z) (rest : bytes) :
  length buf = 10%nat -> - 2 ^ 31 <= v < 2 ^ 31 ->
  (exists buf' out p,
     encode_i32 (E := Leb128DecodeError) buf v = Ok (buf', out) /\
     length buf' = 10%nat /\ len out <= 5 /\
     VarInt32_parse (out ++ rest) = Ok p /\
     VarInt32_value p = v /\ VarInt32_encoded_len p = len out) /\
  (exists buf' out p,
     encode_positive_i32 (E := Leb128DecodeError) buf v = Ok (buf', out) /\
     length buf' = 10%nat /\ len out <= 5 /\
     VarInt32_parse (out ++ rest) = Ok p /\
     VarInt32_positive_value p = v /\ VarInt32_encoded_len p = len out).
Proof.
  intros Hbuf Hv.
  assert (forall u, 0 <= u < 2 ^ 32 -> exists buf' out p,
    Leb128_encode_u32 (E := Leb128DecodeError) buf u = Ok (buf', out) /\
    length buf' = 10%nat /\ len out <= 5 /\ VarInt32_parse (out ++ rest) = Ok p /\
    leb_value (vi_leb128 p) = u /\ VarInt32_encoded_len p = len out) as Hleb.
  { intros u Hu. assert (0 <= u <= u32_max) as Hu' by (unfold u32_max; lia).
    destruct (Leb128_encode_u32_spec (E := Leb128DecodeError) buf u Hbuf Hu')
      as (buf' & Hbuf' & Henc).
    pose proof (length_uleb_encode 5 u ltac:(lia)).
    eexists buf', _, _. unfold VarInt32_parse. rewrite Leb128_decode_encoded by done.
    repeat split; try done. unfold len. lia. }
  split.
  - destruct (Hleb (to_zig_zag 32 v)) as (buf' & out & p & He & Hb & Ho & Hp & Hval & Hlen).
    { apply to_zig_zag_range; lia. }
    exists buf', out, p. repeat split; try done.
    unfold VarInt32_value. rewrite Hval. apply from_to_zig_zag; lia.
  - destruct (Hleb (cast_unsigned 32 v)) as (buf' & out & p & He & Hb & Ho & Hp & Hval & Hlen).
    { apply Z.mod_pos_bound. lia. }
    exists buf', out, p. repeat split; try done.
    unfold VarInt32_positive_value. rewrite Hval. unfold cast_signed, cast_unsigned.
    destruct (Z.lt_ge_cases v 0).
    + assert (v mod 2 ^ 32 = v + 2 ^ 32) as -> by (symmetry; apply Z.mod_unique with (-1); lia).
      by destruct (Z.ltb_spec (v + 2 ^ 32) (2 ^ (32 - 1))); lia.
    + rewrite Z.mod_small by lia. by destruct (Z.ltb_spec v (2 ^ (32 - 1))); lia.
Qed.

Lemma thrift_varint_roundtrip_witness :
  exists buf' out p,
    encode_i32 (E := Leb128DecodeError) Leb128Encoder_default (-67890) = Ok (buf', out) /\
    length buf' = 10%nat /\ len out <= 5 /\
    VarInt32_parse (out ++ [xff]) = Ok p /\
    VarInt32_value p = -67890 /\ VarInt32_encoded_len p = len out.
Proof.
  apply (thrift_varint_roundtrip Leb128Encoder_default (-67890) [xff]); [reflexivity|lia].
Defined.
