(* ===== verification/Tlv.v ===== *)
(** * Tag-length-value sequences

    Models [lib/vey-codec/src/tlv.rs]: the trait [TlvParse] with its provided
    method [parse_tlv], and the blanket implementation for one byte tags and
    two byte big endian lengths ([T1L2BVParse]).  The trait is a type class;
    what an implementor does with a value ([parse_value]) stays abstract. *)

From Stdlib Require Import ZArith Lia Strings.Byte.
From stdpp Require Import base list.
From S2P Require Import Prelude.

(** ** The trait *)

Class TlvParse (Self Tag Er : Type) : Type := {
  TAG_SIZE : Z;
  LENGTH_SIZE : Z;
  tlv_tag : bytes -> res Er Tag;
  tlv_length : bytes -> res Er Z;
  tlv_no_enough_data : Er;
  tlv_parse_value : Self -> Tag -> bytes -> Self * res Er unit
}.

(** [parse_tlv]: [self] is updated in place, so the state is returned with the
    outcome.  Each round consumes a header, so a sequence of [n] bytes takes at
    most [n] rounds when headers are not empty; running out of [fuel] is a
    [Panic], which [parse_tlv_spec] excludes. *)
Fixpoint parse_tlv_loop `{TlvParse Self Tag Er} (fuel : nat) (self : Self)
    (v : bytes) (offset : Z) : Self * res Er unit :=
  match fuel with
  | O => (self, Panic)
  | S fuel' =>
      let total_len := len v in
      if total_len <? offset + TAG_SIZE + LENGTH_SIZE then (self, Err tlv_no_enough_data)
      else
        let header :=
          let? buf := slice_from v offset in
          let? tag_buf := slice buf 0 TAG_SIZE in
          let? tag := tlv_tag tag_buf in
          let? len_buf := slice_from buf TAG_SIZE in
          let? vl := tlv_length len_buf in
          let? header_end := uadd offset (TAG_SIZE + LENGTH_SIZE) in
          let? value_end := uadd header_end vl in
          Ok (tag, header_end, value_end) in
        match header with
        | Ok (tag, header_end, value_end) =>
            if total_len <? value_end then (self, Err tlv_no_enough_data)
            else
              match slice v header_end value_end with
              | Ok buf =>
                  match tlv_parse_value self tag buf with
                  | (self, Ok _) =>
                      if value_end =? total_len then (self, Ok tt)
                      else parse_tlv_loop fuel' self v value_end
                  | (self, r) => (self, r)
                  end
              | r => (self, let? _ := r in Ok tt)
              end
        | r => (self, let? _ := r in Ok tt)
        end
  end.

Definition parse_tlv `{TlvParse Self Tag Er} (self : Self) (v : bytes)
    : Self * res Er unit :=
  parse_tlv_loop (S (length v)) self v 0.

(** ** One byte tags, two byte lengths *)

Class T1L2BVParse (Self Er : Type) : Type := {
  no_enough_data : Er;
  parse_value : Self -> byte -> bytes -> Self * res Er unit
}.

#[export] Instance T1L2BVParse_TlvParse `{T1L2BVParse Self Er} : TlvParse Self byte Er := {
  TAG_SIZE := 1;
  LENGTH_SIZE := 2;
  tlv_tag buf := index buf 0;
  tlv_length buf :=
    let? b0 := index buf 0 in
    let? b1 := index buf 1 in
    Ok (from_be [b0; b1]);
  tlv_no_enough_data := no_enough_data;
  tlv_parse_value := parse_value
}.

(** ** Specification *)

(** The wire format of a list of values. *)
Definition tlv_encode_item (i : byte * bytes) : bytes :=
  i.1 :: to_be 2 (len i.2) ++ i.2.

Definition tlv_encode (items : list (byte * bytes)) : bytes :=
  concat (tlv_encode_item <$> items).

Lemma tlv_encode_cons i items : tlv_encode (i :: items) = tlv_encode_item i ++ tlv_encode items.
Proof. reflexivity. Qed.

(** The values one after the other, stopping at the first one that is refused. *)
Fixpoint parse_items `{T1L2BVParse Self Er} (self : Self)
    (items : list (byte * bytes)) (last : res Er unit) : Self * res Er unit :=
  match items with
  | [] => (self, last)
  | (tag, buf) :: items =>
      match parse_value self tag buf with
      | (self, Ok _) => parse_items self items last
      | (self, r) => (self, r)
      end
  end.

(** No complete value starts here. *)
Definition tlv_incomplete (rest : bytes) : bool :=
  match rest with
  | _ :: b0 :: b1 :: l => len l <? from_be [b0; b1]
  | _ => true
  end.

Section Spec.
Context `{T1L2BVParse Self Er}.

Lemma tlv_step fuel (self : Self) pre tag b0 b1 l :
  len (pre ++ tag :: b0 :: b1 :: l) <= isize_max ->
  parse_tlv_loop (S fuel) self (pre ++ tag :: b0 :: b1 :: l) (len pre) =
    if len l <? from_be [b0; b1] then (self, Err no_enough_data)
    else
      let n := Z.to_nat (from_be [b0; b1]) in
      match parse_value self tag (take n l) with
      | (self, Ok _) =>
          if len l =? from_be [b0; b1] then (self, Ok tt)
          else parse_tlv_loop fuel self ((pre ++ tag :: b0 :: b1 :: take n l) ++ drop n l)
                 (len (pre ++ tag :: b0 :: b1 :: take n l))
      | (self, r) => (self, r)
      end.
Proof.
  intros Hlen. pose proof (from_be_range [b0; b1]) as Hr. change (256 ^ len _) with 65536 in Hr.
  set (vl := from_be [b0; b1]) in *.
  cbn [parse_tlv_loop TAG_SIZE LENGTH_SIZE T1L2BVParse_TlvParse tlv_tag tlv_length].
  destruct (Z.ltb_spec (len (pre ++ tag :: b0 :: b1 :: l)) (len pre + 1 + 2)); [len_lia|].
  rewrite slice_from_app. cbn [bind].
  rewrite (slice_ok _ 0 1) by len_lia. cbn [bind take drop Z.to_nat].
  change (take (Z.to_nat (1 - 0)) _) with [tag].
  change (index [tag] 0) with (Ok (E := Er) tag). cbn [bind].
  rewrite slice_from_ok by len_lia.
  change (drop (Z.to_nat 1) (tag :: b0 :: b1 :: l)) with (b0 :: b1 :: l). cbn [bind].
  change (index (b0 :: b1 :: l) 0) with (Ok (E := Er) b0). cbn [bind].
  change (index (b0 :: b1 :: l) 1) with (Ok (E := Er) b1). cbn [bind]. fold vl.
  rewrite uadd_ok by len_lia. cbn [bind]. rewrite uadd_ok by len_lia. cbn [bind].
  destruct (Z.ltb_spec (len (pre ++ tag :: b0 :: b1 :: l)) (len pre + (1 + 2) + vl)),
    (Z.ltb_spec (len l) vl); try len_lia; [done|].
  assert (pre ++ tag :: b0 :: b1 :: l =
          (pre ++ [tag; b0; b1]) ++ take (Z.to_nat vl) l ++ drop (Z.to_nat vl) l) as Heq.
  { by rewrite take_drop, <- app_assoc. }
  rewrite Heq at 1.
  replace (len pre + (1 + 2) + vl)
    with (len (pre ++ [tag; b0; b1]) + len (take (Z.to_nat vl) l)) by len_lia.
  replace (len pre + (1 + 2)) with (len (pre ++ [tag; b0; b1])) by len_lia.
  rewrite slice_app. cbn zeta.
  change (@tlv_parse_value Self byte Er _) with (@parse_value Self Er _).
  destruct (parse_value self tag (take (Z.to_nat vl) l)) as [self' [[]| |]]; [|done..].
  destruct (Z.eqb_spec (len (pre ++ [tag; b0; b1]) + len (take (Z.to_nat vl) l))
              (len (pre ++ tag :: b0 :: b1 :: l))), (Z.eqb_spec (len l) vl); try len_lia; [done|].
  f_equal; [|len_lia]. rewrite <- app_assoc. cbn. by rewrite take_drop.
Qed.

Lemma tlv_short fuel (self : Self) pre rest :
  len rest < 3 -> parse_tlv_loop (S fuel) self (pre ++ rest) (len pre) = (self, Err no_enough_data).
Proof.
  intros. cbn [parse_tlv_loop TAG_SIZE LENGTH_SIZE T1L2BVParse_TlvParse].
  by destruct (Z.ltb_spec (len (pre ++ rest)) (len pre + 1 + 2)); [|len_lia].
Qed.

Lemma tlv_encode_item_eq tag b0 b1 l :
  from_be [b0; b1] <= len l ->
  tag :: b0 :: b1 :: take (Z.to_nat (from_be [b0; b1])) l =
    tlv_encode_item (tag, take (Z.to_nat (from_be [b0; b1])) l).
Proof.
  intros Hl. pose proof (from_be_range [b0; b1]) as Hr. change (256 ^ len _) with 65536 in Hr.
  unfold tlv_encode_item. cbn [fst snd].
  replace (len (take _ l)) with (from_be [b0; b1]) by len_lia.
  assert (to_be 2 (from_be [b0; b1]) = [b0; b1]) as ->; [|done].
  unfold from_be. cbn [to_be from_be_acc]. pose proof (u8_range b0). pose proof (u8_range b1).
  f_equal; [|f_equal]; apply u8_inj; rewrite u8_to_u8, shiftr_div by lia.
  - change (2 ^ (8 * Z.of_nat 1)) with 256. rewrite Z.div_add_l, Z.div_small, Z.mod_small; lia.
  - change (2 ^ (8 * Z.of_nat 0)) with 1. rewrite Z.div_1_r.
    symmetry. apply Z.mod_unique with (u8 b0); lia.
Qed.

Definition tlv_last (items : list (byte * bytes)) (rest : bytes) : res Er unit :=
  match items, rest with
  | _ :: _, [] => Ok tt
  | _, _ => Err no_enough_data
  end.

Lemma parse_tlv_loop_spec fuel (self : Self) pre suf :
  len (pre ++ suf) <= isize_max -> (length suf < fuel)%nat ->
  exists items rest,
    suf = tlv_encode items ++ rest /\ tlv_incomplete rest = true /\
    parse_tlv_loop fuel self (pre ++ suf) (len pre) = parse_items self items (tlv_last items rest).
Proof.
  revert self pre suf. induction fuel as [|fuel IH]; intros self pre suf Hlen Hfuel; [lia|].
  destruct suf as [|tag [|b0 [|b1 l]]].
  1-3: eexists [], _; split; [reflexivity|]; split; [reflexivity|];
       rewrite tlv_short by done; reflexivity.
  rewrite tlv_step by done. destruct (Z.ltb_spec (len l) (from_be [b0; b1])) as [Hlt|Hge].
  { eexists [], _. repeat split. cbn. by apply Z.ltb_lt. }
  pose proof (from_be_range [b0; b1]) as Hr. cbn zeta.
  set (n := Z.to_nat (from_be [b0; b1])).
  destruct (Z.eqb_spec (len l) (from_be [b0; b1])) as [Heq|Hne].
  - exists [(tag, take n l)], []. split; [|split; [done|]].
    + rewrite tlv_encode_cons, !app_nil_r. unfold n.
      rewrite <- tlv_encode_item_eq, take_ge by (unfold len in *; lia). done.
    + cbn. by destruct (parse_value self tag (take n l)) as [self' [[]| |]].
  - set (pre' := pre ++ tag :: b0 :: b1 :: take n l).
    assert (len (pre' ++ drop n l) <= isize_max).
    { unfold pre'. rewrite <- app_assoc. cbn. by rewrite take_drop. }
    assert (length (drop n l) < fuel)%nat by (rewrite length_drop; cbn in Hfuel; lia).
    destruct (parse_value self tag (take n l)) as [self' r] eqn:Hval.
    destruct (IH self' pre' (drop n l)) as (items & rest & Hdrop & Hinc & Hloop); [done..|].
    exists ((tag, take n l) :: items), rest. split; [|split; [done|]].
    + rewrite tlv_encode_cons, <- app_assoc, <- Hdrop. unfold n.
      rewrite <- tlv_encode_item_eq by lia. cbn. by rewrite take_drop.
    + cbn [parse_items]. rewrite Hval. destruct r as [[]| |]; [|done..].
      rewrite Hloop. f_equal. destruct items, rest; [|done..].
      apply (f_equal length) in Hdrop. rewrite length_drop in Hdrop.
      cbn in Hdrop. unfold len in *. lia.
Qed.

Lemma parse_tlv_loop_encode fuel (self : Self) pre i items :
  Forall (fun i => len i.2 <= u16_max) (i :: items) ->
  len (pre ++ tlv_encode (i :: items)) <= isize_max ->
  (length (tlv_encode (i :: items)) < fuel)%nat ->
  parse_tlv_loop fuel self (pre ++ tlv_encode (i :: items)) (len pre) =
    parse_items self (i :: items) (Ok tt).
Proof.
  revert fuel self pre i. induction items as [|i' items IH];
    intros fuel self pre [tag buf] Hsmall Hlen Hfuel; (destruct fuel as [|fuel]; [lia|]);
    rewrite tlv_encode_cons in *; apply Forall_cons in Hsmall as [Hbuf Hsmall];
    cbn [snd] in Hbuf;
    pose proof (from_be_to_be 2 (len buf)) as Hvl;
    rewrite Z.mod_small in Hvl by (unfold u16_max in *; cbn; len_lia);
    unfold tlv_encode_item in Hlen, Hfuel |- *; cbn [fst snd app to_be] in *;
    rewrite tlv_step by done; rewrite Hvl.
  - rewrite app_nil_r in *. rewrite Z.ltb_irrefl, Z.eqb_refl. cbn zeta.
    rewrite take_ge by (unfold len; lia). cbn.
    by destruct (parse_value self tag buf) as [self' [[]| |]].
  - assert (buf ++ tlv_encode (i' :: items) <> [] /\ tlv_encode (i' :: items) <> []) as [_ Hne].
    { split; [|by destruct i']. by destruct buf; [destruct i'|]. }
    rewrite len_app. destruct (Z.ltb_spec (len buf + len (tlv_encode (i' :: items))) (len buf));
      [len_lia|].
    destruct (Z.eqb_spec (len buf + len (tlv_encode (i' :: items))) (len buf)).
    { exfalso. apply Hne, len_0. lia. }
    cbn zeta. rewrite take_len_app, drop_len_app. cbn [parse_items].
    destruct (parse_value self tag buf) as [self' [[]| |]]; [|done..].
    apply IH; [done| |].
    + rewrite <- app_assoc. exact Hlen.
    + cbn [length] in Hfuel. rewrite length_app in Hfuel. lia.
Qed.

End Spec.

(** ** Properties *)

(** [parse_tlv] splits any buffer into complete values followed by bytes in
    which no complete value starts, hands the values to [parse_value] in order
    until one is refused, and then succeeds exactly when there was at least one
    value and nothing is left; otherwise it reports missing data.  It always
    terminates without panicking by itself. *)
Theorem parse_tlv_spec `{T1L2BVParse Self Er} (self : Self) (v : bytes) :
  len v <= isize_max ->
  exists items rest,
    v = tlv_encode items ++ rest /\ tlv_incomplete rest = true /\
    parse_tlv self v = parse_items self items (tlv_last items rest).
Proof.
  intros Hlen. apply (parse_tlv_loop_spec _ self [] v); [done|lia].
Qed.

(** A sequence of values in wire format is read back value by value: any
    non-empty list of values of at most 65535 bytes is handed to
    [parse_value] in order and completely. *)
Theorem parse_tlv_roundtrip `{T1L2BVParse Self Er} (self : Self) (items : list (byte * bytes)) :
  items <> [] -> Forall (fun i => len i.2 <= u16_max) items ->
  len (tlv_encode items) <= isize_max ->
  parse_tlv self (tlv_encode items) = parse_items self items (Ok tt).
Proof.
  intros Hne Hsmall Hlen. destruct items as [|i items]; [done|].
  apply (parse_tlv_loop_encode _ self []); [done..|lia].
Qed.

(** The collector of the unit tests of [tlv.rs]. *)
Inductive CollectorErr : Type := Truncated | BadTag.

#[local] Instance Collector : T1L2BVParse (list (byte * bytes)) CollectorErr := {
  no_enough_data := Truncated;
  parse_value values tag buf :=
    if bool_decide (tag = xff) then (values, Err BadTag) else (values ++ [(tag, buf)], Ok tt)
}.

Lemma parse_tlv_spec_witness :
  exists items rest,
    [x01; x00; x02; x61; x62; x02; x00; x09] = tlv_encode items ++ rest /\
    tlv_incomplete rest = true /\
    parse_tlv [] [x01; x00; x02; x61; x62; x02; x00; x09] =
      parse_items [] items (tlv_last items rest).
Proof.
  apply (parse_tlv_spec [] [x01; x00; x02; x61; x62; x02; x00; x09]).
  apply Z.leb_le. reflexivity.
Defined.

Lemma parse_tlv_roundtrip_witness :
  parse_tlv [] (tlv_encode [(x01, [x61; x62]); (x02, [])]) =
    parse_items [] [(x01, [x61; x62]); (x02, [])] (Ok tt).
Proof.
  apply (parse_tlv_roundtrip [] [(x01, [x61; x62]); (x02, [])]); [done| |].
  - repeat constructor; done.
  - apply Z.leb_le. reflexivity.
Defined.

Example parse_t1l2_ok :
  parse_tlv [] [x01; x00; x02; x61; x62; x02; x00; x00] =
    ([(x01, [x61; x62]); (x02, [])], Ok tt).
Proof. reflexivity. Qed.

Example parse_t1l2_truncated :
  parse_tlv [] [x01; x00; x02; x61] = ([], Err Truncated).
Proof. reflexivity. Qed.
