(* ===== verification/Domain.v ===== *)
(** * Domain names

    Models [lib/vey-types/src/net/domain.rs].  The conversion to ASCII of the
    [idna] crate is the parameter [to_ascii]: nothing is assumed about it.  A
    name is kept with its trailing dot; strings are their bytes. *)

From Stdlib Require Import ZArith Lia Strings.Byte.
From stdpp Require Import base list sets.
From S2P Require Import Prelude.

Inductive DomainNameParseError : Type :=
| Domain_Empty
| Domain_TooLong
| Domain_Invalid.

Record DomainName : Type := { dn_fqdn : bytes }.

Definition DomainName_MAX_LEN : Z := 254.
Definition DomainName_MAX_FQDN_LEN : Z := 255.

Definition DOT : byte := x2e.

(** [s.ends_with('.')] *)
Definition ends_with_dot (s : bytes) : bool :=
  match last s with
  | Some b => bool_decide (b = DOT)
  | None => false
  end.

(** The loop that skips leading dots. *)
Fixpoint strip_leading_dots (b : bytes) : bytes :=
  match b with
  | [] => []
  | c :: b' => if bool_decide (c = DOT) then strip_leading_dots b' else b
  end.

(** [s.strip_suffix(suffix)] on strings *)
Definition str_strip_suffix (s suffix : bytes) : option bytes :=
  if len suffix <=? len s then
    let n := Z.to_nat (len s - len suffix) in
    if bool_decide (drop n s = suffix) then Some (take n s) else None
  else None.

(** [s.split('.')] *)
Fixpoint split_dots (s : bytes) : list bytes :=
  match s with
  | [] => [[]]
  | c :: s' =>
      if bool_decide (c = DOT) then [] :: split_dots s'
      else
        match split_dots s' with
        | l :: ls => (c :: l) :: ls
        | [] => [[c]]
        end
  end.

(** [parts.join(".")] *)
Fixpoint join_dots (parts : list bytes) : bytes :=
  match parts with
  | [] => []
  | [p] => p
  | p :: parts' => p ++ DOT :: join_dots parts'
  end.

Definition DomainName_len_u8 {E} (self : DomainName) : res E Z :=
  let l := len (dn_fqdn self) mod 256 in
  if 1 <=? l then Ok (l - 1) else Panic.

Definition DomainName_as_bytes {E} (self : DomainName) : res E bytes :=
  let? n := usub (len (dn_fqdn self)) 1 in
  slice (dn_fqdn self) 0 n.

Definition DomainName_as_str {E} (self : DomainName) : res E bytes :=
  let? n := usub (len (dn_fqdn self)) 1 in
  slice (dn_fqdn self) 0 n.

Definition DomainName_as_fqdn_str (self : DomainName) : bytes := dn_fqdn self.

Definition DomainName_to_reversed {E} (self : DomainName) : res E bytes :=
  let? s := DomainName_as_str self in
  Ok (join_dots (rev (split_dots s)) ++ [DOT]).

Definition DomainName_strip_suffix {E} (self suffix : DomainName) : res E (option bytes) :=
  let? s := DomainName_as_str self in
  let? t := DomainName_as_str suffix in
  match str_strip_suffix s t with
  | Some prefix => Ok (str_strip_suffix prefix [DOT])
  | None => Ok None
  end.

Definition DomainName_replace_suffix (self from to : DomainName)
    : res DomainNameParseError (option DomainName) :=
  let? stripped := DomainName_strip_suffix self from in
  match stripped with
  | None => Ok None
  | Some s =>
      let? new_suffix := DomainName_as_str to in
      let new_len := len s + 1 + len new_suffix + 1 in
      if DomainName_MAX_FQDN_LEN <? new_len then Err Domain_TooLong
      else Ok (Some {| dn_fqdn := s ++ [DOT] ++ new_suffix ++ [DOT] |})
  end.

Section Parse.
Context (to_ascii : bytes -> option bytes).

Definition DomainName_parse (b : bytes) : res DomainNameParseError DomainName :=
  let b := strip_leading_dots b in
  if len b =? 0 then Err Domain_Empty
  else
    match to_ascii b with
    | None => Err Domain_Invalid
    | Some domain =>
        if negb (ends_with_dot domain) then
          if DomainName_MAX_LEN <? len domain then Err Domain_TooLong
          else Ok {| dn_fqdn := domain ++ [DOT] |}
        else if DomainName_MAX_FQDN_LEN <? len domain then Err Domain_TooLong
        else Ok {| dn_fqdn := domain |}
    end.

(** ** Every name that exists is well formed *)

(** The name with its dot fits a [u8] length, with room for the dot. *)
Definition domain_ok (d : DomainName) : Prop :=
  exists name, dn_fqdn d = name ++ [DOT] /\ len name <= DomainName_MAX_LEN.

Lemma ends_with_dot_spec s : ends_with_dot s = true <-> exists p, s = p ++ [DOT].
Proof.
  unfold ends_with_dot. destruct (last s) as [b|] eqn:Hl.
  - apply last_Some in Hl as [p ->]. rewrite bool_decide_eq_true. split.
    + intros ->. by exists p.
    + by intros (p' & [-> [= ->]]%app_inj_tail).
  - apply last_None in Hl as ->. split; [done|]. by intros ([|] & ?).
Qed.

Lemma DomainName_parse_ok b d : DomainName_parse b = Ok d -> domain_ok d.
Proof.
  unfold DomainName_parse, domain_ok, DomainName_MAX_LEN, DomainName_MAX_FQDN_LEN.
  destruct (len _ =? 0); [done|]. destruct (to_ascii _) as [a|]; [|done].
  destruct (ends_with_dot a) eqn:Hdot; cbn [negb].
  - destruct (Z.ltb_spec 255 (len a)); [done|]. intros [= <-].
    apply ends_with_dot_spec in Hdot as [p ->]. exists p. split; [done|]. len_lia.
  - destruct (Z.ltb_spec 254 (len a)); [done|]. intros [= <-]. by exists a.
Qed.

Lemma DomainName_parse_total b : DomainName_parse b <> Panic.
Proof. unfold DomainName_parse. repeat case_match; done. Qed.

End Parse.

Section Accessors.
Context {E : Type}.

Lemma as_bytes_ok d name :
  dn_fqdn d = name ++ [DOT] -> DomainName_as_bytes (E := E) d = Ok name.
Proof.
  intros Hd. unfold DomainName_as_bytes. rewrite Hd. rewrite usub_ok by len_lia. cbn [bind].
  pose proof (slice_app (E := E) [] name [DOT]) as Hs. cbn [app] in Hs.
  change (len []) with 0 in Hs. rewrite Z.add_0_l in Hs.
  replace (len (name ++ [DOT]) - 1) with (len name) by len_lia. exact Hs.
Qed.

Lemma as_str_ok d name :
  dn_fqdn d = name ++ [DOT] -> DomainName_as_str (E := E) d = Ok name.
Proof. apply as_bytes_ok. Qed.

Lemma len_u8_ok d name :
  dn_fqdn d = name ++ [DOT] -> len name <= DomainName_MAX_LEN ->
  DomainName_len_u8 (E := E) d = Ok (len name).
Proof.
  unfold DomainName_MAX_LEN. intros Hd Hn. unfold DomainName_len_u8. rewrite Hd.
  pose proof (len_nonneg name). rewrite len_app. change (len [DOT]) with 1.
  rewrite Z.mod_small by lia. destruct (Z.leb_spec 1 (len name + 1)); [|lia]. f_equal. lia.
Qed.

Lemma str_strip_suffix_spec s suffix p :
  str_strip_suffix s suffix = Some p <-> s = p ++ suffix.
Proof.
  unfold str_strip_suffix. split.
  - destruct (Z.leb_spec (len suffix) (len s)); [|done].
    destruct (bool_decide _) eqn:Hb; [|done]. apply bool_decide_eq_true in Hb.
    intros [= <-]. rewrite <- Hb at 2. by rewrite take_drop.
  - intros ->. destruct (Z.leb_spec (len suffix) (len (p ++ suffix))); [|len_lia].
    replace (len (p ++ suffix) - len suffix) with (len p) by len_lia.
    rewrite drop_len_app, take_len_app. by rewrite bool_decide_eq_true_2.
Qed.

Lemma strip_suffix_ok d s name suffix p :
  dn_fqdn d = name ++ [DOT] -> dn_fqdn s = suffix ++ [DOT] ->
  DomainName_strip_suffix (E := E) d s = Ok (Some p) <-> name = p ++ DOT :: suffix.
Proof.
  intros Hd Hs. unfold DomainName_strip_suffix.
  rewrite (as_str_ok _ _ Hd), (as_str_ok _ _ Hs). cbn [bind].
  change (DOT :: suffix) with ([DOT] ++ suffix).
  destruct (str_strip_suffix name suffix) as [q|] eqn:Hq.
  - apply str_strip_suffix_spec in Hq as ->. split.
    + intros [= ->%str_strip_suffix_spec]. by rewrite app_assoc.
    + rewrite app_assoc. intros ->%app_inv_tail. f_equal. by apply str_strip_suffix_spec.
  - split; [done|]. intros ->. rewrite app_assoc in Hq.
    assert (str_strip_suffix ((p ++ [DOT]) ++ suffix) suffix = Some (p ++ [DOT])) as Hs'
      by by apply str_strip_suffix_spec.
    congruence.
Qed.

End Accessors.

(** ** Labels *)

Section Labels.

Lemma split_dots_cons s : exists l ls, split_dots s = l :: ls.
Proof.
  induction s as [|c s (l & ls & IH)]; cbn; [by eexists _, _|].
  rewrite IH. destruct (bool_decide _); by eexists _, _.
Qed.

Lemma join_split_dots s : join_dots (split_dots s) = s.
Proof.
  induction s as [|c s IH]; [done|]. cbn [split_dots].
  destruct (split_dots_cons s) as (l & ls & Hs). rewrite Hs in *.
  destruct (bool_decide (c = DOT)) eqn:Hc.
  - apply bool_decide_eq_true in Hc as ->. cbn [join_dots app]. by f_equal.
  - rewrite <- IH. by destruct ls.
Qed.

Lemma split_dots_label p : DOT ∉ p -> split_dots p = [p].
Proof.
  induction p as [|c p IH]; [done|]. intros Hp. cbn.
  rewrite IH by set_solver. rewrite bool_decide_eq_false_2; [done|]. set_solver.
Qed.

Lemma split_dots_app p s : DOT ∉ p -> split_dots (p ++ DOT :: s) = p :: split_dots s.
Proof.
  induction p as [|c p IH]; intros Hp; cbn.
  - by rewrite bool_decide_eq_true_2.
  - rewrite IH by set_solver. rewrite bool_decide_eq_false_2; [done|]. set_solver.
Qed.

Lemma split_join_dots parts :
  parts <> [] -> Forall (fun p => DOT ∉ p) parts -> split_dots (join_dots parts) = parts.
Proof.
  induction parts as [|p parts IH]; [done|]. intros _ [Hp Hps]%Forall_cons.
  destruct parts as [|q parts]; [by apply split_dots_label|].
  cbn [join_dots]. rewrite split_dots_app by done. f_equal. by apply IH.
Qed.

Lemma split_dots_no_dots s : Forall (fun p => DOT ∉ p) (split_dots s).
Proof.
  induction s as [|c s IH]; cbn; [apply Forall_singleton; set_solver|].
  destruct (bool_decide (c = DOT)) eqn:Hc; [constructor; [set_solver|done]|].
  apply bool_decide_eq_false in Hc. destruct (split_dots s) as [|l ls].
  - apply Forall_singleton. set_solver.
  - apply Forall_cons in IH as [? ?]. constructor; [set_solver|done].
Qed.

Lemma split_join_rev s :
  split_dots (join_dots (rev (split_dots s))) = rev (split_dots s).
Proof.
  apply split_join_dots.
  - destruct (split_dots_cons s) as (l & ls & ->). cbn. by intros [_ [=]]%app_eq_nil.
  - apply Forall_rev, split_dots_no_dots.
Qed.

Lemma length_join_rev_app ps p :
  length (join_dots (ps ++ [p])) = length (join_dots (p :: ps)).
Proof.
  assert (forall q qs, length (join_dots (q :: qs)) =
    (length q + foldr (fun x n => S (length x + n)) 0 qs)%nat) as Hlen.
  { intros q qs. revert q. induction qs as [|q' qs IH]; intros q; [cbn; lia|].
    change (join_dots (q :: q' :: qs)) with (q ++ DOT :: join_dots (q' :: qs)).
    rewrite length_app. cbn [length]. rewrite IH. cbn. lia. }
  destruct ps as [|q ps]; [done|]. cbn [app]. rewrite !Hlen, foldr_app. cbn [foldr].
  generalize (length p) as n, (length q) as m. intros n m.
  assert (forall k, foldr (fun x n => S (length x + n)) k ps =
    (foldr (fun x n => S (length x + n)) 0 ps + k)%nat) as Hk.
  { intros k. induction ps as [|x ps IH]; cbn; [done|]. rewrite IH. lia. }
  rewrite Hk. lia.
Qed.

Lemma len_join_rev ps : len (join_dots (rev ps)) = len (join_dots ps).
Proof.
  unfold len. f_equal. induction ps as [|p ps IH]; [done|]. cbn [rev].
  rewrite length_join_rev_app. destruct ps as [|q ps]; [done|]. cbn [join_dots].
  destruct (rev (q :: ps)) as [|r rs] eqn:Hr.
  { by apply (f_equal length) in Hr; rewrite length_rev in Hr. }
  change (join_dots (p :: r :: rs)) with (p ++ DOT :: join_dots (r :: rs)).
  rewrite !length_app. cbn [length]. by rewrite IH.
Qed.

End Labels.

(** ** Properties *)

(** Whatever the IDNA conversion returns, a parsed name is a name with one
    trailing dot of at most 255 bytes, so that every accessor is total:
    [as_str] and [as_bytes] are the name without the dot and [len_u8] is its
    length, not a truncation of it. *)
Theorem DomainName_parse_wellformed (to_ascii : bytes -> option bytes) (b : bytes) :
  match DomainName_parse to_ascii b with
  | Ok d => exists name,
      DomainName_as_fqdn_str d = name ++ [DOT] /\ len name <= DomainName_MAX_LEN /\
      DomainName_as_str (E := False) d = Ok name /\ DomainName_as_bytes (E := False) d = Ok name /\
      DomainName_len_u8 (E := False) d = Ok (len name)
  | Err _ => True
  | Panic => False
  end.
Proof.
  destruct (DomainName_parse to_ascii b) as [d| |] eqn:Hp; [|done|].
  - destruct (DomainName_parse_ok _ _ _ Hp) as (name & Hd & Hn). exists name.
    split_and!; [done|done|by apply as_str_ok|by apply as_bytes_ok|by apply len_u8_ok].
  - by apply DomainName_parse_total in Hp.
Qed.

(** Replacing the suffix of a well-formed name never panics.  It yields a
    name exactly when the name is [p.from] for some [p], and then the name
    [p.to], which is well formed; the error is reported exactly when [p.to.] is
    longer than 255 bytes. *)
Theorem replace_suffix_correct (self from to : DomainName) (name suffix new_suffix : bytes) :
  dn_fqdn self = name ++ [DOT] -> dn_fqdn from = suffix ++ [DOT] ->
  dn_fqdn to = new_suffix ++ [DOT] ->
  match DomainName_replace_suffix self from to with
  | Ok (Some d) => exists p, name = p ++ DOT :: suffix /\
      dn_fqdn d = p ++ DOT :: new_suffix ++ [DOT] /\ domain_ok d
  | Ok None => forall p, name <> p ++ DOT :: suffix
  | Err e => e = Domain_TooLong /\
      exists p, name = p ++ DOT :: suffix /\
        DomainName_MAX_FQDN_LEN < len (p ++ DOT :: new_suffix ++ [DOT])
  | Panic => False
  end.
Proof.
  intros Hself Hfrom Hto. unfold DomainName_replace_suffix.
  pose proof (fun p => strip_suffix_ok (E := DomainNameParseError) self from name suffix p Hself Hfrom)
    as Hstrip.
  destruct (DomainName_strip_suffix self from) as [[p|]|e|] eqn:Hs; cbn [bind].
  - rewrite (as_str_ok to new_suffix Hto). cbn [bind].
    assert (len (p ++ DOT :: new_suffix ++ [DOT]) = len p + 1 + len new_suffix + 1) as Hlen by len_lia.
    destruct (Z.ltb_spec DomainName_MAX_FQDN_LEN (len p + 1 + len new_suffix + 1)).
    + split; [done|]. exists p. split; [by apply Hstrip|lia].
    + exists p. split; [by apply Hstrip|]. split; [done|]. exists (p ++ DOT :: new_suffix).
      split; [cbn; by rewrite <- app_assoc|].
      unfold DomainName_MAX_LEN, DomainName_MAX_FQDN_LEN in *. len_lia.
  - intros p Hp. apply Hstrip in Hp. done.
  - exfalso. unfold DomainName_strip_suffix in Hs.
    rewrite (as_str_ok _ _ Hself), (as_str_ok _ _ Hfrom) in Hs. cbn [bind] in Hs.
    by destruct (str_strip_suffix _ _).
  - unfold DomainName_strip_suffix in Hs.
    rewrite (as_str_ok _ _ Hself), (as_str_ok _ _ Hfrom) in Hs. cbn [bind] in Hs.
    by destruct (str_strip_suffix _ _).
Qed.

Lemma replace_suffix_correct_witness :
  DomainName_replace_suffix {| dn_fqdn := bs "a.b.c." |} {| dn_fqdn := bs "b.c." |}
    {| dn_fqdn := bs "d." |} = Ok (Some {| dn_fqdn := bs "a.d." |}) /\
  exists p, bs "a.b.c" = p ++ DOT :: bs "b.c" /\ bs "a.d." = p ++ DOT :: bs "d" ++ [DOT] /\
    domain_ok {| dn_fqdn := bs "a.d." |}.
Proof.
  split; [reflexivity|].
  exact (replace_suffix_correct {| dn_fqdn := bs "a.b.c." |} {| dn_fqdn := bs "b.c." |}
    {| dn_fqdn := bs "d." |} (bs "a.b.c") (bs "b.c") (bs "d") eq_refl eq_refl eq_refl).
Defined.

(** [to_reversed] lists the labels in the opposite order: the labels of its
    result are the labels of the name reversed, no byte is lost, and reversing
    twice gives the name back. *)
Theorem to_reversed_correct (d : DomainName) (name : bytes) :
  dn_fqdn d = name ++ [DOT] ->
  exists r, DomainName_to_reversed (E := False) d = Ok (r ++ [DOT]) /\
    split_dots r = rev (split_dots name) /\ len r = len name /\
    DomainName_to_reversed (E := False) {| dn_fqdn := r ++ [DOT] |} = Ok (name ++ [DOT]).
Proof.
  intros Hd. exists (join_dots (rev (split_dots name))).
  unfold DomainName_to_reversed. rewrite (as_str_ok d name Hd). cbn [bind].
  split_and!; [done|apply split_join_rev|by rewrite len_join_rev, join_split_dots|].
  rewrite (as_str_ok {| dn_fqdn := _ |} (join_dots (rev (split_dots name))) eq_refl). cbn [bind].
  by rewrite split_join_rev, rev_involutive, join_split_dots.
Qed.

Lemma to_reversed_correct_witness :
  exists r, DomainName_to_reversed (E := False) {| dn_fqdn := bs "www.example.com." |}
    = Ok (r ++ [DOT]) /\ split_dots r = [bs "com"; bs "example"; bs "www"].
Proof.
  destruct (to_reversed_correct {| dn_fqdn := bs "www.example.com." |} (bs "www.example.com") eq_refl)
    as (r & Hr & Hs & _).
  exists r. split; [exact Hr|]. rewrite Hs. reflexivity.
Defined.
