(* ===== verification/IpAddr.v ===== *)
(** Addresses of the standard library: [std::net::IpAddr] and [SocketAddr], the
    text they are written as ([Display]) and the parsers that read it
    ([FromStr]), and [u16::from_str].

    An address is its bytes: four, or sixteen.  A parser takes the bytes that are
    left and returns a value and what is left after it; where it fails, its
    caller goes on with the bytes it had. *)

From Stdlib Require Import ZArith Lia Strings.Byte.
From stdpp Require Import base list.
From S2P Require Import Prelude.

Inductive IpAddr : Type :=
| V4 (octets : bytes)
| V6 (octets : bytes).

#[export] Instance IpAddr_eq_dec : EqDecision IpAddr.
Proof. solve_decision. Defined.

Definition ip_ok (ip : IpAddr) : Prop :=
  match ip with V4 o => length o = 4%nat | V6 o => length o = 16%nat end.

Record SocketAddr : Type := {
  sa_ip : IpAddr;
  sa_port : Z
}.

Definition sa_ok (a : SocketAddr) : Prop := ip_ok (sa_ip a) /\ 0 <= sa_port a <= u16_max.

Definition mapped_prefix : bytes := replicate 10 x00 ++ [xff; xff].

(** [Ipv6Addr::to_ipv4_mapped]. *)
Definition to_ipv4_mapped (o : bytes) : option bytes :=
  if bool_decide (take 12 o = mapped_prefix) then Some (drop 12 o) else None.

(** ** Numbers as text *)

(** [char::to_digit]. *)
Definition to_digit (radix : Z) (c : byte) : option Z :=
  let v := u8 c in
  let d := if (48 <=? v) && (v <=? 57) then Some (v - 48)
           else if (97 <=? v) && (v <=? 122) then Some (v - 87)
           else if (65 <=? v) && (v <=? 90) then Some (v - 55)
           else None in
  match d with
  | Some d => if d <? radix then Some d else None
  | None => None
  end.

Definition digit_char (d : Z) : byte := if d <? 10 then to_u8 (48 + d) else to_u8 (87 + d).

(** A number in some radix, in lower case and without leading zeros. *)
Fixpoint digits (fuel : nat) (radix n : Z) : bytes :=
  match fuel with
  | O => []
  | S fuel' => if n <? radix then [digit_char n] else digits fuel' radix (n / radix) ++ [digit_char (n mod radix)]
  end.

(** [{}] and [{:x}] of a [u8] or [u16]: five digits at most. *)
Definition fmt_dec (n : Z) : bytes := digits 5 10 n.
Definition fmt_hex (n : Z) : bytes := digits 5 16 n.

Fixpoint fmt_joined (sep : byte) (parts : list bytes) : bytes :=
  match parts with
  | [] => []
  | [p] => p
  | p :: parts' => p ++ sep :: fmt_joined sep parts'
  end.

(** [Display] of [Ipv4Addr]. *)
Definition fmt_ipv4 (o : bytes) : bytes := fmt_joined x2e (map (fun b => fmt_dec (u8 b)) o).

(** The groups of an address and the address of its groups. *)
Fixpoint segments (o : bytes) : list Z :=
  match o with
  | a :: b :: o' => from_be [a; b] :: segments o'
  | _ => []
  end.

Definition from_segments (s : list Z) : bytes := concat (map (to_be 2) s).

(** The first longest run of zeros, as its start and length. *)
Fixpoint zero_run (i : nat) (s : list Z) (longest current : nat * nat) : nat * nat :=
  match s with
  | [] => longest
  | g :: s' =>
      if g =? 0 then
        let current := (if (current.2 =? 0)%nat then i else current.1, S current.2) in
        zero_run (S i) s' (if (longest.2 <? current.2)%nat then current else longest) current
      else zero_run (S i) s' longest (0, 0)%nat
  end.

Definition fmt_groups (s : list Z) : bytes := fmt_joined x3a (map fmt_hex s).

(** [Display] of [Ipv6Addr]. *)
Definition fmt_ipv6 (o : bytes) : bytes :=
  match to_ipv4_mapped o with
  | Some o4 => bs "::ffff:" ++ fmt_ipv4 o4
  | None =>
      let s := segments o in
      let '(start, n) := zero_run 0 s (0, 0)%nat (0, 0)%nat in
      if (1 <? n)%nat then fmt_groups (take start s) ++ bs "::" ++ fmt_groups (drop (start + n) s)
      else fmt_groups s
  end.

Definition fmt_ip (ip : IpAddr) : bytes := match ip with V4 o => fmt_ipv4 o | V6 o => fmt_ipv6 o end.

(** ** Parsers *)

Definition read_given_char (c : byte) (b : bytes) : option bytes :=
  match b with
  | c' :: b' => if bool_decide (c' = c) then Some b' else None
  | [] => None
  end.

(** The digits of a number of at most [max] of them. *)
Fixpoint read_digits (radix max : Z) (b : bytes) (result count : Z) : option (Z * Z * bytes) :=
  match b with
  | [] => Some (result, count, [])
  | c :: b' =>
      match to_digit radix c with
      | None => Some (result, count, b)
      | Some d =>
          let count := count + 1 in
          if max <? count then None else read_digits radix max b' (result * radix + d) count
      end
  end.

(** [read_number] with a limit on the digits. *)
Definition read_number (radix max limit : Z) (allow_zero_prefix : bool) (b : bytes) : option (Z * bytes) :=
  let has_leading_zero := match b with c :: _ => bool_decide (c = x30) | [] => false end in
  match read_digits radix max b 0 0 with
  | None => None
  | Some (result, count, rest) =>
      if count =? 0 then None
      else if negb allow_zero_prefix && has_leading_zero && (1 <? count) then None
      else if result <=? limit then Some (result, rest) else None
  end.

(** [read_separator]: the separator first, but not at the first place. *)
Definition read_separator {A} (sep : byte) (i : nat) (inner : bytes -> option (A * bytes)) (b : bytes)
  : option (A * bytes) :=
  if (0 <? i)%nat then
    match read_given_char sep b with
    | Some b' => inner b'
    | None => None
    end
  else inner b.

Definition read_octet : bytes -> option (Z * bytes) := read_number 10 3 255 false.

(** The [n] octets from place [i] on. *)
Fixpoint read_octets (n i : nat) (b : bytes) : option (bytes * bytes) :=
  match n with
  | O => Some ([], b)
  | S n' =>
      match read_separator x2e i read_octet b with
      | None => None
      | Some (g, b) =>
          match read_octets n' (S i) b with
          | None => None
          | Some (o, b) => Some (to_u8 g :: o, b)
          end
      end
  end.

Definition read_ipv4_addr (b : bytes) : option (bytes * bytes) := read_octets 4 0 b.

(** [read_groups] from place [i] on, with [n] places left: the groups, whether
    the last two are an embedded IPv4 address, and what is left. *)
Fixpoint read_groups (n i : nat) (b : bytes) : list Z * bool * bytes :=
  match n with
  | O => ([], false, b)
  | S n' =>
      let v4 := if (0 <? n')%nat then read_separator x3a i read_ipv4_addr b else None in
      match v4 with
      | Some (o, b) => (segments o, true, b)
      | None =>
          match read_separator x3a i (read_number 16 4 u16_max true) b with
          | Some (g, b) => let '(s, e, b) := read_groups n' (S i) b in (g :: s, e, b)
          | None => ([], false, b)
          end
      end
  end.

Definition read_ipv6_addr (b : bytes) : option (bytes * bytes) :=
  let '(head, head_ipv4, b) := read_groups 8 0 b in
  if (length head =? 8)%nat then Some (from_segments head, b)
  else if head_ipv4 then None
  else
    match read_given_char x3a b with
    | None => None
    | Some b =>
        match read_given_char x3a b with
        | None => None
        | Some b =>
            let '(tail, _, b) := read_groups (8 - (length head + 1)) 0 b in
            Some (from_segments (head ++ replicate (8 - length tail - length head) 0 ++ tail), b)
        end
    end.

(** [parse_with]: nothing may be left. *)
Definition parse_with {A} (f : bytes -> option (A * bytes)) (b : bytes) : option A :=
  match f b with
  | Some (a, []) => Some a
  | _ => None
  end.

(** [from_str] of [Ipv4Addr], [Ipv6Addr] and [IpAddr]. *)
Definition ipv4_from_str (s : bytes) : option bytes := if 15 <? len s then None else parse_with read_ipv4_addr s.

Definition ipv6_from_str (s : bytes) : option bytes := parse_with read_ipv6_addr s.

Definition read_ip_addr (b : bytes) : option (IpAddr * bytes) :=
  match read_ipv4_addr b with
  | Some (o, b) => Some (V4 o, b)
  | None => match read_ipv6_addr b with Some (o, b) => Some (V6 o, b) | None => None end
  end.

Definition ip_from_str (s : bytes) : option IpAddr := parse_with read_ip_addr s.

(** A number without a limit on the digits: [None] when it is too big. *)
Fixpoint read_checked (radix limit : Z) (b : bytes) (result : Z) (some : bool) : option (Z * bool * bytes) :=
  match b with
  | [] => Some (result, some, [])
  | c :: b' =>
      match to_digit radix c with
      | None => Some (result, some, b)
      | Some d =>
          let result := result * radix + d in
          if limit <? result then None else read_checked radix limit b' result true
      end
  end.

Definition read_unbounded (limit : Z) (b : bytes) : option (Z * bytes) :=
  match read_checked 10 limit b 0 false with
  | Some (n, true, rest) => Some (n, rest)
  | _ => None
  end.

(** [read_scope_id], which is optional; only that it is there matters here. *)
Definition read_scope_id (b : bytes) : bytes :=
  match read_given_char x25 b with
  | Some b' => match read_unbounded u32_max b' with Some (_, rest) => rest | None => b end
  | None => b
  end.

(** [SocketAddrV6::from_str], its address and port. *)
Definition read_socket_addr_v6 (b : bytes) : option (bytes * Z * bytes) :=
  match read_given_char x5b b with
  | None => None
  | Some b =>
      match read_ipv6_addr b with
      | None => None
      | Some (o, b) =>
          match read_given_char x5d (read_scope_id b) with
          | None => None
          | Some b =>
              match read_given_char x3a b with
              | None => None
              | Some b =>
                  match read_unbounded u16_max b with
                  | None => None
                  | Some (port, b) => Some (o, port, b)
                  end
              end
          end
      end
  end.

Definition socket_addr_v6_from_str (s : bytes) : option (bytes * Z) := parse_with read_socket_addr_v6 s.

(** [u16::from_str]: digits, perhaps after a plus sign. *)
Definition u16_from_str (s : bytes) : option Z :=
  let digits := match s with c :: s' => if bool_decide (c = x2b) then s' else s | [] => s end in
  match read_checked 10 u16_max digits 0 false with
  | Some (n, true, []) => Some n
  | _ => None
  end.

(** ** Reading back a number *)

Section numbers.

Context (radix : Z) (Hradix : 2 <= radix <= 16).

Definition is_digit (c : byte) : Prop := to_digit radix c <> None.

(** What follows a number is not a digit. *)
Definition stops (rest : bytes) : Prop := match rest with [] => True | c :: _ => to_digit radix c = None end.

Lemma to_digit_char d : 0 <= d < radix -> to_digit radix (digit_char d) = Some d.
Proof using Hradix.
  intros Hd. unfold to_digit, digit_char. destruct (Z.ltb_spec d 10).
  - rewrite u8_to_u8_small by lia. assert ((48 <=? 48 + d) && (48 + d <=? 57) = true) as -> by lia.
    replace (48 + d - 48) with d by lia. by assert ((d <? radix) = true) as -> by lia.
  - rewrite u8_to_u8_small by lia. assert ((48 <=? 87 + d) && (87 + d <=? 57) = false) as -> by lia.
    assert ((97 <=? 87 + d) && (87 + d <=? 122) = true) as -> by lia.
    replace (87 + d - 87) with d by lia. by assert ((d <? radix) = true) as -> by lia.
Qed.

Definition digits_value (r : Z) (l : bytes) : Z := fold_left (fun r c => r * radix + default 0 (to_digit radix c)) l r.

Lemma digits_spec fuel n r :
  0 <= n < radix ^ Z.of_nat fuel -> (0 < fuel)%nat ->
  Forall is_digit (digits fuel radix n) /\
  digits_value r (digits fuel radix n) = r * radix ^ len (digits fuel radix n) + n /\ digits fuel radix n <> [] /\
  (0 < n -> head (digits fuel radix n) <> Some x30).
Proof using Hradix.
  revert n. induction fuel as [|fuel IH]; intros n Hn Hf; [lia|]. cbn [digits].
  destruct (Z.ltb_spec n radix) as [Hs|Hs].
  - split_and!; try done.
    + constructor; [|done]. unfold is_digit. by rewrite to_digit_char by lia.
    + unfold digits_value. cbn [fold_left]. rewrite to_digit_char by lia. change (len [_]) with 1. by rewrite Z.pow_1_r.
    + intros Hp [= E]. pose proof (to_digit_char n ltac:(lia)) as Ed. rewrite E in Ed.
      pose proof (to_digit_char 0 ltac:(lia)) as E0. change (digit_char 0) with x30 in E0. rewrite E0 in Ed. injection Ed. lia.
  - rewrite Nat2Z.inj_succ, Z.pow_succ_r in Hn by lia.
    pose proof (Z.div_mod n radix ltac:(lia)) as Hdm. pose proof (Z.mod_pos_bound n radix ltac:(lia)) as Hm.
    assert (1 <= n / radix) by (apply Z.div_le_lower_bound; lia).
    assert (n / radix < radix ^ Z.of_nat fuel) by (apply Z.div_lt_upper_bound; lia).
    destruct fuel as [|fuel]; [cbn in *; lia|].
    destruct (IH (n / radix) ltac:(lia) ltac:(lia)) as (Hd & Hv & Hne & Hz). split_and!.
    + apply Forall_app. split; [done|]. constructor; [|done]. unfold is_digit. by rewrite to_digit_char by lia.
    + unfold digits_value in *. rewrite fold_left_app, Hv. cbn [fold_left]. rewrite to_digit_char by lia. cbn [default].
      rewrite len_app, len_cons, len_nil, Z.pow_add_r by (pose proof (len_nonneg (digits (S fuel) radix (n / radix))); lia).
      change (1 + 0) with 1. rewrite Z.pow_1_r. unfold default, id. lia.
    + intros E. by apply app_nil in E as [E _].
    + intros _. destruct (digits (S fuel) radix (n / radix)) as [|c l]; [done|]. cbn in *. apply Hz. lia.
Qed.

(** A number that is smaller has fewer digits. *)
Lemma digits_len fuel k n :
  0 <= n < radix ^ Z.of_nat k -> (0 < k)%nat -> len (digits fuel radix n) <= Z.of_nat k.
Proof using Hradix.
  revert fuel n. induction k as [|k IH]; intros fuel n Hn Hk; [lia|]. destruct fuel as [|fuel]; cbn [digits]; [len_lia|].
  destruct (Z.ltb_spec n radix); [rewrite len_cons, len_nil; lia|].
  rewrite Nat2Z.inj_succ, Z.pow_succ_r in Hn by lia. destruct k as [|k]; [cbn in *; lia|].
  rewrite len_app, len_cons, len_nil. assert (0 <= n / radix < radix ^ Z.of_nat (S k)).
  { split; [apply Z.div_pos; lia|]. apply Z.div_lt_upper_bound; lia. }
  specialize (IH fuel (n / radix) ltac:(lia) ltac:(lia)). lia.
Qed.

Lemma read_digits_app max l rest r c :
  Forall is_digit l -> c + len l <= max ->
  read_digits radix max (l ++ rest) r c = read_digits radix max rest (digits_value r l) (c + len l).
Proof using.
  intros Hl. revert r c. induction Hl as [|x l Hx Hl IH]; intros r c Hc; [by rewrite len_nil, Z.add_0_r|].
  rewrite len_cons in *. cbn [app read_digits]. unfold is_digit in Hx. destruct (to_digit radix x) as [d|] eqn:Ed; [|done].
  cbv zeta. rewrite (proj2 (Z.ltb_ge max (c + 1))) by (pose proof (len_nonneg l); lia). rewrite IH by lia.
  unfold digits_value. cbn [fold_left]. rewrite Ed. cbn [default]. unfold default, id. f_equal; lia.
Qed.

Lemma read_digits_stop max rest r c : stops rest -> read_digits radix max rest r c = Some (r, c, rest).
Proof using. destruct rest as [|x rest]; [done|]. cbn. by intros ->. Qed.

Lemma read_number_digits fuel max limit allow n rest :
  0 <= n < radix ^ Z.of_nat fuel -> (0 < fuel)%nat -> n <= limit -> len (digits fuel radix n) <= max -> stops rest ->
  read_number radix max limit allow (digits fuel radix n ++ rest) = Some (n, rest).
Proof using Hradix.
  intros Hn Hf Hl Hm Hs. destruct (digits_spec fuel n 0 Hn Hf) as (Hd & Hv & Hne & Hz). unfold read_number.
  rewrite read_digits_app by (done || lia). rewrite read_digits_stop by done. rewrite Hv, Z.add_0_l.
  assert (0 < len (digits fuel radix n)). { destruct (digits fuel radix n); [done|]. len_lia. }
  rewrite (proj2 (Z.eqb_neq _ _)) by lia. replace (0 * radix ^ len (digits fuel radix n) + n) with n by lia.
  rewrite (proj2 (Z.leb_le n limit)) by done.
  destruct (negb allow && _ && _) eqn:E; [|done]. exfalso. apply andb_true_iff in E as [E E1]. apply andb_true_iff in E as [_ E].
  assert (n = 0) as ->.
  { destruct (Z.eq_dec n 0); [done|]. specialize (Hz ltac:(lia)). destruct (digits fuel radix n) as [|c l]; [done|].
    cbn in *. case_bool_decide; congruence. }
  destruct fuel; [lia|]. cbn [digits] in E1. rewrite (proj2 (Z.ltb_lt 0 radix)) in E1 by lia. done.
Qed.

Lemma to_digit_nonneg x d : to_digit radix x = Some d -> 0 <= d.
Proof using.
  unfold to_digit. destruct ((48 <=? u8 x) && (u8 x <=? 57)) eqn:E1;
    [|destruct ((97 <=? u8 x) && (u8 x <=? 122)) eqn:E2; [|destruct ((65 <=? u8 x) && (u8 x <=? 90)) eqn:E3; [|done]]];
    cbv zeta; destruct (_ <? radix); try done; intros [= <-]; lia.
Qed.

Lemma digits_value_ge r l : 0 <= r -> r <= digits_value r l.
Proof using Hradix.
  unfold digits_value. revert r. induction l as [|x l IH]; intros r Hr; cbn [fold_left]; [lia|].
  destruct (to_digit radix x) as [d|] eqn:E; cbn [default].
  - apply to_digit_nonneg in E. etransitivity; [|apply IH]; unfold id; nia.
  - etransitivity; [|apply IH]; nia.
Qed.

(** The digits of a number that is checked for overflow. *)
Lemma read_checked_app limit l rest r some :
  Forall is_digit l -> (l <> [] \/ some = true) -> 0 <= r -> digits_value r l <= limit -> stops rest ->
  read_checked radix limit (l ++ rest) r some = Some (digits_value r l, true, rest).
Proof using Hradix.
  intros Hl. revert r some. induction Hl as [|x l Hx Hl IH]; intros r some Hne Hr Hlim Hs.
  - destruct Hne as [| ->]; [done|]. destruct rest as [|c rest]; [done|]. cbn in *. by rewrite Hs.
  - cbn [app read_checked]. unfold is_digit in Hx. destruct (to_digit radix x) as [d|] eqn:Ed; [|done].
    assert (E : digits_value r (x :: l) = digits_value (r * radix + d) l).
    { unfold digits_value. cbn [fold_left]. by rewrite Ed. }
    rewrite E in *. pose proof (to_digit_nonneg x d Ed). pose proof (digits_value_ge (r * radix + d) l ltac:(nia)).
    cbv zeta. rewrite (proj2 (Z.ltb_ge limit (r * radix + d))) by lia. apply IH; [by right|nia|done|done].
Qed.

End numbers.

Lemma fmt_joined_cons sep p parts : fmt_joined sep (p :: parts) = p ++ concat (map (cons sep) parts).
Proof.
  revert p. induction parts as [|q parts IH]; intros p; [by rewrite app_nil_r|].
  change (fmt_joined sep (p :: q :: parts)) with (p ++ sep :: fmt_joined sep (q :: parts)). rewrite IH. done.
Qed.

(** ** IPv4 addresses *)

Lemma fmt_dec_len n : 0 <= n <= 255 -> len (fmt_dec n) <= 3.
Proof. intros Hn. unfold fmt_dec. apply (digits_len 10 ltac:(lia) 5 3); lia. Qed.

Lemma read_octet_fmt b rest : stops 10 rest -> read_octet (fmt_dec (u8 b) ++ rest) = Some (u8 b, rest).
Proof.
  intros Hs. pose proof (u8_range b). unfold read_octet, fmt_dec. apply read_number_digits; try done; try lia.
  apply fmt_dec_len. lia.
Qed.

Lemma read_octets_S n i b :
  read_octets (S n) i b =
    match read_separator x2e i read_octet b with
    | None => None
    | Some (g, b) => match read_octets n (S i) b with None => None | Some (o, b) => Some (to_u8 g :: o, b) end
    end.
Proof. done. Qed.

Lemma read_octets_fmt o i rest :
  stops 10 rest ->
  read_octets (length o) (S i) (concat (map (cons x2e) (map (fun b => fmt_dec (u8 b)) o)) ++ rest) = Some (o, rest).
Proof.
  intros Hs. revert i. induction o as [|b o IH]; intros i; [done|]. cbn [length read_octets map concat].
  unfold read_separator. change (0 <? S i)%nat with true. cbv iota. cbn [read_given_char app].
  rewrite bool_decide_eq_true_2 by done. rewrite <- app_assoc, read_octet_fmt.
  - rewrite IH. by rewrite to_u8_u8.
  - destruct o; [done|]. by vm_compute.
Qed.

Lemma read_ipv4_fmt o rest : length o = 4%nat -> stops 10 rest -> read_ipv4_addr (fmt_ipv4 o ++ rest) = Some (o, rest).
Proof.
  intros Hl Hs. destruct o as [|b o]; [done|]. injection Hl as Hl. unfold read_ipv4_addr, fmt_ipv4. cbn [map].
  rewrite fmt_joined_cons, <- app_assoc. rewrite read_octets_S. unfold read_separator. change (0 <? 0)%nat with false. cbv iota.
  rewrite read_octet_fmt.
  - rewrite <- Hl, read_octets_fmt by done. by rewrite to_u8_u8.
  - destruct o; [done|]. by vm_compute.
Qed.

Lemma fmt_ipv4_len o : length o = 4%nat -> len (fmt_ipv4 o) <= 15.
Proof.
  intros Hl. destruct o as [|a [|b [|c [|d [|]]]]]; try done. unfold fmt_ipv4. cbn [map fmt_joined].
  pose proof (fmt_dec_len (u8 a)). pose proof (fmt_dec_len (u8 b)). pose proof (fmt_dec_len (u8 c)). pose proof (fmt_dec_len (u8 d)).
  pose proof (u8_range a). pose proof (u8_range b). pose proof (u8_range c). pose proof (u8_range d). len_lia.
Qed.

(** An IPv4 address is read back from its text. *)
Lemma ipv4_from_str_fmt o : length o = 4%nat -> ipv4_from_str (fmt_ipv4 o) = Some o.
Proof.
  intros Hl. unfold ipv4_from_str. rewrite (proj2 (Z.ltb_ge _ _)) by (by apply fmt_ipv4_len). unfold parse_with.
  rewrite <- (app_nil_r (fmt_ipv4 o)). by rewrite read_ipv4_fmt.
Qed.

(** ** IPv6 addresses *)

Lemma read_digits_split radix max b r c r' c' rest :
  read_digits radix max b r c = Some (r', c', rest) -> exists p, b = p ++ rest /\ Forall (is_digit radix) p /\ stops radix rest.
Proof.
  revert r c. induction b as [|x b IH]; intros r c; cbn [read_digits].
  - intros [= _ _ <-]. by exists [].
  - destruct (to_digit radix x) as [d|] eqn:Ed.
    + cbv zeta. destruct (max <? c + 1); [done|]. intros (p & -> & Hp & Hs)%IH. exists (x :: p). split_and!; [done| |done].
      constructor; [|done]. unfold is_digit. by rewrite Ed.
    + intros [= _ _ <-]. exists []. split_and!; [done|done|]. done.
Qed.

Lemma read_number_split radix max limit allow b n rest :
  read_number radix max limit allow b = Some (n, rest) -> exists p, b = p ++ rest /\ Forall (is_digit radix) p /\ stops radix rest.
Proof.
  unfold read_number. destruct (read_digits radix max b 0 0) as [[[r c] rest']|] eqn:E; [|done].
  destruct (c =? 0); [done|]. destruct (negb allow && _ && _); [done|]. destruct (r <=? limit); [|done]. intros [= _ <-].
  by eapply read_digits_split.
Qed.

(** A text that does not go on as an IPv4 address does after its first octet. *)
Definition no_dot (b : bytes) : Prop := head b <> Some x2e.

Lemma hex_digit_not_dot : ~ is_digit 16 x2e.
Proof. intros H. by apply H. Qed.

Lemma dec_digit_hex c : is_digit 10 c -> is_digit 16 c.
Proof.
  unfold is_digit, to_digit. destruct (if (48 <=? u8 c) && (u8 c <=? 57) then _ else _) as [d|]; [|done]. cbv zeta.
  destruct (Z.ltb_spec d 10); [|done]. by rewrite (proj2 (Z.ltb_lt d 16)) by lia.
Qed.

(** The digits of a hexadecimal number are not the start of an IPv4 address. *)
Lemma read_ipv4_hex h rest :
  Forall (is_digit 16) h -> stops 16 rest -> no_dot rest -> read_ipv4_addr (h ++ rest) = None.
Proof.
  intros Hh Hs Hd. unfold read_ipv4_addr. rewrite read_octets_S. unfold read_separator. change (0 <? 0)%nat with false. cbv iota.
  destruct (read_octet (h ++ rest)) as [[g r]|] eqn:Eo; [|done]. apply read_number_split in Eo as (p & Hb & Hp & Hr).
  rewrite read_octets_S. unfold read_separator. change (0 <? 1)%nat with true. cbv iota.
  assert (Hn : read_given_char x2e r = None); [|by rewrite Hn].
  destruct r as [|c r]; [done|]. cbn. rewrite bool_decide_eq_false_2; [done|]. intros ->.
  apply app_eq_inv in Hb as [(k & -> & Hk)|(k & -> & Hk)].
  - destruct k as [|x k]; [cbn in Hk; subst rest; by apply Hd|]. cbn in Hk. injection Hk as <- _.
    apply Forall_app in Hh as [_ Hh]. apply Forall_cons_1 in Hh as [Hx _]. by apply hex_digit_not_dot.
  - destruct k as [|x k]; [cbn in Hk; subst rest; by apply Hd|]. subst rest.
    apply Forall_app in Hp as [_ Hp]. apply Forall_cons_1 in Hp as [Hx _]. apply dec_digit_hex in Hx. by apply Hx.
Qed.

(** The separator before the group at place [i]. *)
Definition group_sep (i : nat) : bytes := if (0 <? i)%nat then [x3a] else [].

Lemma read_separator_at {A} i (inner : bytes -> option (A * bytes)) b :
  read_separator x3a i inner (group_sep i ++ b) = inner b.
Proof.
  unfold read_separator, group_sep. destruct (0 <? i)%nat; [|done]. cbn. by rewrite bool_decide_eq_true_2.
Qed.

Lemma fmt_hex_digits g : 0 <= g <= u16_max -> Forall (is_digit 16) (fmt_hex g) /\ len (fmt_hex g) <= 4.
Proof.
  unfold u16_max. intros Hg. split.
  - apply (digits_spec 16 ltac:(lia) 5 g 0); lia.
  - apply (digits_len 16 ltac:(lia) 5 4); lia.
Qed.

Lemma read_groups_step n i g rest :
  0 <= g <= u16_max -> stops 16 rest -> no_dot rest ->
  read_groups (S n) i (group_sep i ++ fmt_hex g ++ rest) =
    let '(s, e, b) := read_groups n (S i) rest in (g :: s, e, b).
Proof.
  intros Hg Hs Hd. destruct (fmt_hex_digits g Hg) as [Hdig Hlen]. cbn [read_groups].
  assert (Hv4 : (if (0 <? n)%nat then read_separator x3a i read_ipv4_addr (group_sep i ++ fmt_hex g ++ rest) else None) = None).
  { destruct (0 <? n)%nat; [|done]. rewrite read_separator_at. by apply read_ipv4_hex. }
  rewrite Hv4, read_separator_at. unfold fmt_hex. rewrite read_number_digits; try done; unfold u16_max in *; lia.
Qed.

(** Where no group follows. *)
Definition no_group (i : nat) (rest : bytes) : Prop :=
  if (0 <? i)%nat then head rest <> Some x3a \/ (exists b, rest = x3a :: x3a :: b) else stops 16 rest.

Lemma read_ipv4_stop rest : stops 16 rest -> read_ipv4_addr rest = None.
Proof.
  intros Hs. destruct (decide (head rest = Some x2e)) as [E|E]; [|by apply (read_ipv4_hex [])].
  destruct rest as [|c rest]; [done|]. injection E as ->. done.
Qed.

Lemma read_number_stop radix max limit allow rest : stops radix rest -> read_number radix max limit allow rest = None.
Proof. intros Hs. unfold read_number. by rewrite read_digits_stop. Qed.

Lemma read_groups_end n i rest : no_group i rest -> read_groups n i rest = ([], false, rest).
Proof.
  unfold no_group. intros Hend. destruct n as [|n]; [done|]. cbn [read_groups]. unfold read_separator.
  destruct (0 <? i)%nat.
  - assert (Hnone : forall A (inner : bytes -> option (A * bytes)), (forall b, inner (x3a :: b) = None) ->
      match read_given_char x3a rest with Some b' => inner b' | None => None end = None).
    { intros A inner Hi. destruct rest as [|c rest]; [done|]. cbn. case_bool_decide as E; [|done]. subst c.
      destruct Hend as [He|(b & [= ->])]; [by destruct He|]. apply Hi. }
    rewrite !Hnone; [by destruct (0 <? n)%nat| |].
    + intros b. by apply read_number_stop.
    + intros b. by apply read_ipv4_stop.
  - rewrite read_ipv4_stop by done. rewrite read_number_stop by done. by destruct (0 <? n)%nat.
Qed.

Lemma read_groups_list gs n i rest :
  gs <> [] -> (length gs <= n)%nat -> Forall (fun g => 0 <= g <= u16_max) gs -> stops 16 rest -> no_dot rest ->
  read_groups n i (group_sep i ++ fmt_groups gs ++ rest) =
    let '(s, e, b) := read_groups (n - length gs) (i + length gs) rest in (gs ++ s, e, b).
Proof.
  revert n i. induction gs as [|g gs IH]; intros n i Hne Hn Hg Hs Hd; [done|]. apply Forall_cons_1 in Hg as [Hg Hgs].
  destruct n as [|n]; [cbn in Hn; lia|]. cbn [length Nat.sub]. destruct gs as [|g' gs].
  - unfold fmt_groups. cbn [map fmt_joined]. rewrite read_groups_step by done. cbn [length]. rewrite Nat.sub_0_r, Nat.add_1_r.
    by destruct (read_groups n (S i) rest) as [[s e] b].
  - change (fmt_groups (g :: g' :: gs)) with (fmt_hex g ++ x3a :: fmt_groups (g' :: gs)). rewrite <- app_assoc.
    rewrite read_groups_step by done. specialize (IH n (S i)). change (group_sep (S i)) with [x3a] in IH.
    cbn [app] in IH |- *. rewrite IH by (done || cbn in *; lia). cbn [length].
    replace (i + S (S (length gs)))%nat with (S i + S (length gs))%nat by lia.
    by destruct (read_groups _ _ rest) as [[s e] b].
Qed.

(** The groups and the octets of an address. *)
Lemma segments_range o : Forall (fun g => 0 <= g <= u16_max) (segments o).
Proof.
  assert (Hgen : forall n o, (length o <= n)%nat -> Forall (fun g => 0 <= g <= u16_max) (segments o)); [|by eapply Hgen].
  clear o. induction n as [|n IH]; intros [|a [|b o]] Hl; cbn [segments length] in *; try lia; constructor.
  - pose proof (from_be_range [a; b]) as Hr. change (256 ^ len [a; b]) with 65536 in Hr. unfold u16_max. lia.
  - apply IH. lia.
Qed.

Lemma from_segments_app s s' : from_segments (s ++ s') = from_segments s ++ from_segments s'.
Proof. unfold from_segments. by rewrite map_app, concat_app. Qed.

Lemma from_segments_segments o n : length o = (2 * n)%nat -> from_segments (segments o) = o /\ length (segments o) = n.
Proof.
  revert o. induction n as [|n IH]; intros o Hl; [by destruct o|]. destruct o as [|a [|b o]]; cbn in Hl; [lia|lia|].
  destruct (IH o ltac:(lia)) as [Ho Hn]. cbn [segments length]. split; [|lia].
  change (from_be [a; b] :: segments o) with ([from_be [a; b]] ++ segments o). rewrite from_segments_app, Ho.
  unfold from_segments. cbn [map concat]. change 2%nat with (length [a; b]). by rewrite to_be_from_be.
Qed.

Lemma segments_app o o' n : length o = (2 * n)%nat -> segments (o ++ o') = segments o ++ segments o'.
Proof.
  revert o. induction n as [|n IH]; intros o Hl; [by destruct o|]. destruct o as [|a [|b o]]; cbn in Hl; [lia|lia|].
  cbn [app segments]. f_equal. apply IH. lia.
Qed.

(** A run of zeros in a list of groups. *)
Definition zeros_at (s : list Z) (run : nat * nat) : Prop :=
  (run.1 + run.2 <= length s)%nat /\ forall k, (run.1 <= k < run.1 + run.2)%nat -> s !! k = Some 0.

Lemma zero_run_spec p s longest current :
  zeros_at (p ++ s) longest -> current.2 = 0%nat \/ (current.1 + current.2)%nat = length p -> zeros_at (p ++ s) current ->
  zeros_at (p ++ s) (zero_run (length p) s longest current).
Proof.
  revert p longest current. induction s as [|g s IH]; intros p longest current Hl Hc Hz; cbn [zero_run]; [done|].
  assert (E : p ++ g :: s = (p ++ [g]) ++ s) by (by rewrite <- app_assoc).
  assert (El : S (length p) = length (p ++ [g])) by (rewrite length_app; cbn; lia).
  assert (Hnil : zeros_at (p ++ g :: s) (0, 0)%nat) by (split; cbn; [lia|intros; lia]).
  destruct (Z.eqb_spec g 0) as [->|Hg]; cbv zeta.
  - set (cur := (if (current.2 =? 0)%nat then length p else current.1, S current.2)).
    assert (Hcur : zeros_at (p ++ 0 :: s) cur).
    { unfold cur, zeros_at. cbn [fst snd]. rewrite length_app. cbn [length]. destruct (Nat.eqb_spec current.2 0) as [E0|E0].
      - rewrite E0. split; [lia|]. intros k Hk. assert (k = length p) as -> by lia. by rewrite list_lookup_middle.
      - destruct Hc as [|Hc]; [done|]. split; [lia|]. intros k Hk. destruct (decide (k = length p)) as [->|];
          [by rewrite list_lookup_middle|]. apply Hz. lia. }
    rewrite E in *. rewrite El. apply IH; [by destruct (_ <? _)%nat| |done]. right. rewrite <- El. unfold cur. cbn [fst snd].
    destruct (Nat.eqb_spec current.2 0) as [E0|E0]; [rewrite E0; lia|]. destruct Hc; lia.
  - rewrite E in *. rewrite El. apply IH; [done|by left|done].
Qed.

Lemma zero_run_zeros s : zeros_at s (zero_run 0 s (0, 0)%nat (0, 0)%nat).
Proof.
  assert (H0 : zeros_at s (0, 0)%nat) by (split; cbn; [lia|intros; lia]).
  by apply (zero_run_spec [] s (0, 0)%nat (0, 0)%nat); [|left|].
Qed.

Lemma zeros_at_split s start n :
  zeros_at s (start, n) -> s = take start s ++ replicate n 0 ++ drop (start + n) s.
Proof.
  intros [Hl Hz]. cbn in *. rewrite <- (take_drop start s) at 1. f_equal.
  rewrite <- (take_drop n (drop start s)), drop_drop. f_equal. apply list_eq. intros k.
  destruct (Nat.lt_ge_cases k n) as [Hk|Hk].
  - rewrite lookup_take_lt, lookup_drop, lookup_replicate_2 by done. apply Hz. lia.
  - rewrite lookup_take_ge by done. symmetry. by apply lookup_replicate_None.
Qed.

(** What may follow an address. *)
Definition addr_end (rest : bytes) : Prop := stops 16 rest /\ no_dot rest /\ head rest <> Some x3a.

Lemma read_groups_all gs n rest :
  (length gs <= n)%nat -> Forall (fun g => 0 <= g <= u16_max) gs -> stops 16 rest -> no_dot rest ->
  (head rest <> Some x3a \/ exists b, rest = x3a :: x3a :: b) -> read_groups n 0 (fmt_groups gs ++ rest) = (gs, false, rest).
Proof.
  intros Hn Hg Hs Hd Hend. destruct gs as [|g gs]; [by apply read_groups_end|].
  pose proof (read_groups_list (g :: gs) n 0 rest ltac:(done) Hn Hg Hs Hd) as Hr. cbn [group_sep Nat.ltb Nat.leb app] in Hr.
  change (group_sep 0 ++ fmt_groups (g :: gs) ++ rest) with (fmt_groups (g :: gs) ++ rest) in Hr. rewrite Hr.
  rewrite read_groups_end; [by rewrite app_nil_r|]. done.
Qed.

Lemma read_given_char_cons c b : read_given_char c (c :: b) = Some b.
Proof. cbn. by rewrite bool_decide_eq_true_2. Qed.

Lemma read_ipv6_mapped o4 rest :
  length o4 = 4%nat -> addr_end rest ->
  read_ipv6_addr (bs "::ffff:" ++ fmt_ipv4 o4 ++ rest) = Some (mapped_prefix ++ o4, rest).
Proof.
  intros Hl (Hs & Hd & _). unfold read_ipv6_addr. rewrite read_groups_end by done. cbn [length Nat.eqb].
  change (bs "::ffff:" ++ fmt_ipv4 o4 ++ rest) with (x3a :: x3a :: fmt_hex 65535 ++ x3a :: fmt_ipv4 o4 ++ rest).
  rewrite !read_given_char_cons. change (8 - (0 + 1))%nat with 7%nat.
  pose proof (read_groups_step 6 0 65535 (x3a :: fmt_ipv4 o4 ++ rest)) as Hstep. cbn [group_sep Nat.ltb Nat.leb app] in Hstep.
  change (group_sep 0 ++ ?l) with l in Hstep. rewrite Hstep by done. cbn [read_groups].
  change (0 <? 5)%nat with true. cbv iota. change (x3a :: fmt_ipv4 o4 ++ rest) with (group_sep 1 ++ fmt_ipv4 o4 ++ rest).
  rewrite read_separator_at, read_ipv4_fmt; [|done|].
  - destruct (from_segments_segments o4 2 Hl) as [Ho Hn]. cbn [length]. rewrite Hn. cbn [Nat.sub app replicate]. f_equal. f_equal.
    change (0 :: 0 :: 0 :: 0 :: 0 :: 65535 :: segments o4) with ([0; 0; 0; 0; 0; 65535] ++ segments o4).
    rewrite from_segments_app, Ho. done.
  - destruct rest as [|c rest]; [done|]. cbn in *. destruct (to_digit 10 c) eqn:E; [|done]. exfalso.
    assert (is_digit 16 c) as Hc by (apply dec_digit_hex; unfold is_digit; by rewrite E). by apply Hc.
Qed.

Lemma read_ipv6_compressed pre zeros post rest :
  (length pre + zeros + length post)%nat = 8%nat -> (2 <= zeros)%nat ->
  Forall (fun g => 0 <= g <= u16_max) pre -> Forall (fun g => 0 <= g <= u16_max) post -> addr_end rest ->
  read_ipv6_addr (fmt_groups pre ++ bs "::" ++ fmt_groups post ++ rest) =
    Some (from_segments (pre ++ replicate zeros 0 ++ post), rest).
Proof.
  intros Hl Hz Hpre Hpost (Hs & Hd & Hc). unfold read_ipv6_addr.
  rewrite read_groups_all; [|lia|done|done|done|right; by eexists]. rewrite (proj2 (Nat.eqb_neq _ _)) by lia.
  change (bs "::" ++ ?l) with (x3a :: x3a :: l). rewrite !read_given_char_cons.
  rewrite read_groups_all; [|lia|done|done|done|by left]. replace (8 - length post - length pre)%nat with zeros by lia. done.
Qed.

Lemma read_ipv6_full s rest :
  length s = 8%nat -> Forall (fun g => 0 <= g <= u16_max) s -> addr_end rest ->
  read_ipv6_addr (fmt_groups s ++ rest) = Some (from_segments s, rest).
Proof.
  intros Hl Hg (Hs & Hd & Hc). unfold read_ipv6_addr. rewrite read_groups_all; [|lia|done|done|done|by left]. by rewrite Hl.
Qed.

Lemma read_ipv6_fmt o rest : length o = 16%nat -> addr_end rest -> read_ipv6_addr (fmt_ipv6 o ++ rest) = Some (o, rest).
Proof.
  intros Hl Hend. unfold fmt_ipv6, to_ipv4_mapped. case_bool_decide as Em.
  { rewrite <- app_assoc, read_ipv6_mapped by (done || rewrite length_drop; lia). by rewrite <- Em, take_drop. }
  destruct (from_segments_segments o 8 Hl) as [Ho Hn]. pose proof (segments_range o) as Hr. cbv zeta.
  destruct (zero_run 0 (segments o) (0, 0)%nat (0, 0)%nat) as [start n] eqn:Ez.
  destruct (Nat.ltb_spec 1 n) as [H1|H1]; [|rewrite read_ipv6_full by done; by rewrite Ho].
  assert (Hz : zeros_at (segments o) (start, n)) by (rewrite <- Ez; apply zero_run_zeros).
  pose proof (zeros_at_split _ _ _ Hz) as Hsplit. pose proof (f_equal length Hsplit) as Hlen.
  rewrite !length_app, length_replicate in Hlen. rewrite <- !app_assoc. rewrite (read_ipv6_compressed _ n); try done.
  - by rewrite <- Hsplit, Ho.
  - lia.
  - by apply Forall_take.
  - by apply Forall_drop.
Qed.

(** An IPv6 address is read back from its text. *)
Lemma ipv6_from_str_fmt o : length o = 16%nat -> ipv6_from_str (fmt_ipv6 o) = Some o.
Proof.
  intros Hl. unfold ipv6_from_str, parse_with. rewrite <- (app_nil_r (fmt_ipv6 o)). by rewrite read_ipv6_fmt.
Qed.

(** ** The characters of the texts *)

Lemma fmt_dec_digits n : 0 <= n <= u16_max -> Forall (is_digit 10) (fmt_dec n) /\ fmt_dec n <> [].
Proof.
  unfold u16_max. intros Hn. destruct (digits_spec 10 ltac:(lia) 5 n 0) as (Hd & _ & Hne & _); [lia|lia|]. done.
Qed.

Lemma is_digit_10 c : is_digit 10 c <-> 48 <= u8 c <= 57.
Proof.
  unfold is_digit, to_digit. destruct ((48 <=? u8 c) && (u8 c <=? 57)) eqn:E1; cbv zeta.
  - destruct (Z.ltb_spec (u8 c - 48) 10); split; intros; try done; lia.
  - destruct ((97 <=? u8 c) && (u8 c <=? 122)) eqn:E2; [|destruct ((65 <=? u8 c) && (u8 c <=? 90)) eqn:E3].
    + destruct (Z.ltb_spec (u8 c - 87) 10); split; intros; try done; lia.
    + destruct (Z.ltb_spec (u8 c - 55) 10); split; intros; try done; lia.
    + split; intros; [done|lia].
Qed.

(** A port is read back from its text. *)
Lemma read_checked_fmt n rest :
  0 <= n <= u16_max -> stops 10 rest -> read_checked 10 u16_max (fmt_dec n ++ rest) 0 false = Some (n, true, rest).
Proof.
  intros Hn Hs. destruct (fmt_dec_digits n Hn) as [Hd Hne].
  assert (Hv : digits_value 10 0 (fmt_dec n) = n).
  { unfold u16_max in Hn. destruct (digits_spec 10 ltac:(lia) 5 n 0) as (_ & Hv & _); [lia|lia|]. unfold fmt_dec. rewrite Hv. lia. }
  rewrite (read_checked_app 10 ltac:(lia)); [by rewrite Hv|done|by left|done|rewrite Hv; lia|done].
Qed.

Lemma u16_from_str_fmt n : 0 <= n <= u16_max -> u16_from_str (fmt_dec n) = Some n.
Proof.
  intros Hn. destruct (fmt_dec_digits n Hn) as [Hd Hne]. unfold u16_from_str.
  assert (E : match fmt_dec n with c :: s' => if bool_decide (c = x2b) then s' else fmt_dec n | [] => fmt_dec n end = fmt_dec n).
  { destruct (fmt_dec n) as [|c l]; [done|]. rewrite bool_decide_eq_false_2; [done|]. intros ->.
    apply Forall_cons_1 in Hd as [Hd _]. apply is_digit_10 in Hd. change (u8 x2b) with 43 in Hd. lia. }
  rewrite E. rewrite <- (app_nil_r (fmt_dec n)). by rewrite read_checked_fmt.
Qed.

Lemma read_unbounded_fmt n rest : 0 <= n <= u16_max -> stops 10 rest -> read_unbounded u16_max (fmt_dec n ++ rest) = Some (n, rest).
Proof. intros Hn Hs. unfold read_unbounded. by rewrite read_checked_fmt. Qed.

(** The octets of an IPv4 address are digits and dots. *)
Lemma fmt_ipv4_chars o : Forall (fun c => is_digit 10 c \/ c = x2e) (fmt_ipv4 o).
Proof.
  unfold fmt_ipv4. induction o as [|b o IH]; [done|]. cbn [map].
  assert (Hb : Forall (fun c => is_digit 10 c \/ c = x2e) (fmt_dec (u8 b))).
  { eapply Forall_impl; [apply (fmt_dec_digits (u8 b)); pose proof (u8_range b); unfold u16_max; lia|]. by left. }
  destruct o as [|b' o]; [done|]. cbn [map fmt_joined] in *. apply Forall_app. split; [done|]. constructor; [by right|done].
Qed.

(** ** Colons *)

Definition colons (b : bytes) : nat := count_occ byte_eq_dec b x3a.

Lemma colons_app b b' : colons (b ++ b') = (colons b + colons b')%nat.
Proof. apply count_occ_app. Qed.

Lemma colons_none b : x3a ∉ b -> colons b = 0%nat.
Proof. intros Hb. apply count_occ_not_In. by rewrite <- list_elem_of_In. Qed.

Lemma read_octets_split n i b o rest :
  read_octets n i b = Some (o, rest) -> (exists p, b = p ++ rest) /\ length o = n.
Proof.
  revert i b o. induction n as [|n IH]; intros i b o; cbn [read_octets]; [intros [= <- <-]; split; [by exists []|done]|].
  unfold read_separator. intros Hr.
  assert (exists q b1 g, b = q ++ b1 /\ read_octet b1 = Some g /\
    match read_octets n (S i) g.2 with None => None | Some (o, b) => Some (to_u8 g.1 :: o, b) end = Some (o, rest))
    as (q & b1 & [g b2] & -> & Hg & Hrest).
  { destruct (0 <? i)%nat.
    - destruct b as [|c b]; cbn in Hr; [done|]. case_bool_decide; [|done]. destruct (read_octet b) as [[g b2]|] eqn:E; [|done].
      by exists [c], b, (g, b2).
    - destruct (read_octet b) as [[g b2]|] eqn:E; [|done]. by exists [], b, (g, b2). }
  cbn in Hrest. apply read_number_split in Hg as (p & -> & _). destruct (read_octets n (S i) b2) as [[o' rest']|] eqn:E; [|done].
  injection Hrest as <- <-. apply IH in E as [(p' & ->) Hl]. split; [|cbn; lia]. exists (q ++ p ++ p'). by rewrite <- !app_assoc.
Qed.

(** Every group but the first costs a colon, and so does an embedded address. *)
Lemma read_groups_colons n i b s e rest :
  read_groups n i b = (s, e, rest) ->
  exists p, b = p ++ rest /\ (length s <= colons p + (if (0 <? i)%nat then 0 else 1) + (if e then 1 else 0))%nat.
Proof.
  revert i b s e rest. induction n as [|n IH]; intros i b s e rest; cbn [read_groups].
  { intros [= <- <- <-]. exists []. split; [done|cbn; lia]. }
  assert (Hsep : forall A (inner : bytes -> option (A * bytes)) a r, read_separator x3a i inner b = Some (a, r) ->
    exists q b1, b = q ++ b1 /\ inner b1 = Some (a, r) /\ colons q = if (0 <? i)%nat then 1%nat else 0%nat).
  { intros A inner a r. unfold read_separator. destruct (0 <? i)%nat; [|by exists [], b].
    destruct b as [|c b]; cbn; [done|]. case_bool_decide as E; [|done]. subst c. by exists [x3a], b. }
  destruct (if (0 <? n)%nat then _ else _) as [[o b2]|] eqn:Ev.
  { intros [= <- <- <-]. destruct (0 <? n)%nat; [|done]. apply Hsep in Ev as (q & b1 & -> & Hr & Hq).
    apply read_octets_split in Hr as [(p & ->) Hl]. exists (q ++ p). split; [by rewrite <- app_assoc|]. rewrite colons_app.
    destruct (from_segments_segments o 2 Hl) as [_ ->]. destruct (0 <? i)%nat; lia. }
  destruct (read_separator x3a i (read_number 16 4 u16_max true) b) as [[g b2]|] eqn:Eg.
  - apply Hsep in Eg as (q & b1 & -> & Hr & Hq). apply read_number_split in Hr as (p & -> & _).
    destruct (read_groups n (S i) b2) as [[s' e'] rest'] eqn:Er. intros [= <- <- <-].
    apply IH in Er as (p' & -> & Hlen). exists (q ++ p ++ p'). split; [by rewrite <- !app_assoc|]. rewrite !colons_app.
    change (0 <? S i)%nat with true in Hlen. cbv iota in Hlen. cbn [length]. destruct (0 <? i)%nat; lia.
  - intros [= <- <- <-]. exists []. split; [done|cbn; lia].
Qed.

(** The text of an IPv6 address has two colons or more. *)
Lemma ipv6_from_str_colons s o : ipv6_from_str s = Some o -> (2 <= colons s)%nat.
Proof.
  unfold ipv6_from_str, parse_with, read_ipv6_addr. destruct (read_groups 8 0 s) as [[h e] b] eqn:Eh.
  apply read_groups_colons in Eh as (p & -> & Hlen). rewrite colons_app. change (0 <? 0)%nat with false in Hlen. cbv iota in Hlen.
  destruct (Nat.eqb_spec (length h) 8) as [E8|_]; [destruct e; lia|]. destruct e; [done|].
  destruct b as [|c b]; [done|]. cbn [read_given_char]. case_bool_decide as E1; [|done]. subst c.
  destruct b as [|c b]; [done|]. cbn [read_given_char]. case_bool_decide as E2; [|done]. subst c.
  intros _. change (x3a :: x3a :: b) with ([x3a; x3a] ++ b). rewrite colons_app. cbn. lia.
Qed.

Lemma memchr_colons s : (1 <= colons s)%nat -> exists p q, s = p ++ x3a :: q /\ memchr x3a s = Some (len p) /\ (colons q = colons s - 1)%nat.
Proof.
  intros Hc. destruct (memchr x3a s) as [i|] eqn:Em.
  - apply memchr_Some in Em as (p & q & -> & Hp & ->). exists p, q. split_and!; [done|done|]. rewrite colons_app, (colons_none p) by done.
    change (x3a :: q) with ([x3a] ++ q). rewrite colons_app. cbn. lia.
  - apply memchr_None, colons_none in Em. lia.
Qed.

(** ** How the text of an IPv6 address starts *)

Lemma fmt_groups_shape g gs l : exists k, fmt_groups (g :: gs) ++ x3a :: l = fmt_hex g ++ x3a :: k.
Proof.
  destruct gs as [|g' gs]; [by exists l|]. exists (fmt_groups (g' :: gs) ++ x3a :: l).
  change (fmt_groups (g :: g' :: gs)) with (fmt_hex g ++ x3a :: fmt_groups (g' :: gs)). by rewrite <- app_assoc.
Qed.

Lemma fmt_ipv6_shape o :
  length o = 16%nat ->
  (exists l, fmt_ipv6 o = x3a :: l) \/
  (to_ipv4_mapped o = None /\ exists g l, 0 <= g <= u16_max /\ fmt_ipv6 o = fmt_hex g ++ x3a :: l).
Proof.
  intros Hl. unfold fmt_ipv6. destruct (to_ipv4_mapped o) as [o4|]; [left; by eexists|].
  destruct (from_segments_segments o 8 Hl) as [_ Hn]. pose proof (segments_range o) as Hr. cbv zeta.
  destruct (zero_run 0 (segments o) (0, 0)%nat (0, 0)%nat) as [start n]. destruct (1 <? n)%nat.
  - change (bs "::") with [x3a; x3a]. destruct (take start (segments o)) as [|g gs] eqn:Et; [left; by eexists|]. right. split; [done|].
    assert (Hg : Forall (fun g => 0 <= g <= u16_max) (take start (segments o))) by (by apply Forall_take).
    rewrite Et in Hg. apply Forall_cons_1 in Hg as [Hg _].
    destruct (fmt_groups_shape g gs (x3a :: fmt_groups (drop (start + n) (segments o)))) as [k Hk]. by exists g, k.
  - right. split; [done|]. destruct (segments o) as [|g [|g' gs]]; cbn in Hn; [lia|lia|]. apply Forall_cons_1 in Hr as [Hg _].
    by exists g, (fmt_groups (g' :: gs)).
Qed.

Lemma read_ipv4_of_ipv6 o : length o = 16%nat -> read_ipv4_addr (fmt_ipv6 o) = None.
Proof.
  intros Hl. destruct (fmt_ipv6_shape o Hl) as [[l ->]|(_ & g & l & Hg & ->)]; [by apply read_ipv4_stop|].
  by apply read_ipv4_hex; [apply fmt_hex_digits| |].
Qed.

(** An address of either kind is read back from its text. *)
Lemma ip_from_str_fmt ip : ip_ok ip -> ip_from_str (fmt_ip ip) = Some ip.
Proof.
  unfold ip_from_str, parse_with, read_ip_addr. destruct ip as [o|o]; cbn [ip_ok fmt_ip]; intros Hl.
  - rewrite <- (app_nil_r (fmt_ipv4 o)). by rewrite read_ipv4_fmt.
  - rewrite read_ipv4_of_ipv6 by done. rewrite <- (app_nil_r (fmt_ipv6 o)). by rewrite read_ipv6_fmt.
Qed.

(** ** The characters and the length of an address *)

Abbreviation addr_char := (fun c : byte => 46 <= u8 c <= 102).

Lemma is_digit_addr_char radix c : radix <= 16 -> is_digit radix c -> addr_char c.
Proof.
  unfold is_digit, to_digit. destruct ((48 <=? u8 c) && (u8 c <=? 57)) eqn:E1; cbv zeta; [lia|].
  destruct ((97 <=? u8 c) && (u8 c <=? 122)) eqn:E2; [|destruct ((65 <=? u8 c) && (u8 c <=? 90)) eqn:E3; [lia|done]].
  destruct (Z.ltb_spec (u8 c - 87) radix); [lia|done].
Qed.

Lemma fmt_joined_chars sep parts :
  addr_char sep -> Forall (Forall addr_char) parts -> Forall addr_char (fmt_joined sep parts).
Proof.
  intros Hs. induction parts as [|p parts IH]; intros Hp; [done|]. apply Forall_cons_1 in Hp as [Hp Hps].
  destruct parts as [|q parts]; [done|]. change (fmt_joined sep (p :: q :: parts)) with (p ++ sep :: fmt_joined sep (q :: parts)).
  apply Forall_app. auto.
Qed.

Lemma fmt_joined_len sep parts k :
  0 <= k -> Forall (fun p => len p <= k) parts -> len (fmt_joined sep parts) <= Z.max 0 (len parts * (k + 1) - 1).
Proof.
  intros Hk. induction parts as [|p parts IH]; intros Hp; [done|]. apply Forall_cons_1 in Hp as [Hp Hps].
  destruct parts as [|q parts]; [cbn [fmt_joined]; change (len [p]) with 1; lia|]. specialize (IH Hps).
  change (fmt_joined sep (p :: q :: parts)) with (p ++ sep :: fmt_joined sep (q :: parts)).
  rewrite len_app, len_cons. rewrite (len_cons p), (len_cons q) in *. pose proof (len_nonneg parts). nia.
Qed.

Lemma fmt_dec_chars n : 0 <= n <= u16_max -> Forall addr_char (fmt_dec n).
Proof.
  intros Hn. eapply Forall_impl; [apply fmt_dec_digits; exact Hn|]. intros c Hc. by apply (is_digit_addr_char 10).
Qed.

Lemma fmt_ipv4_addr_chars o : Forall addr_char (fmt_ipv4 o).
Proof.
  eapply Forall_impl; [apply fmt_ipv4_chars|]. intros c [Hc| ->]; [by apply (is_digit_addr_char 10)|]. by vm_compute.
Qed.

Lemma fmt_groups_text s :
  Forall (fun g => 0 <= g <= u16_max) s ->
  Forall addr_char (fmt_groups s) /\ len (fmt_groups s) <= Z.max 0 (len s * 5 - 1).
Proof.
  intros Hs. unfold fmt_groups. split.
  - apply fmt_joined_chars; [by vm_compute|]. apply Forall_fmap. eapply Forall_impl; [exact Hs|]. intros g Hg. cbn.
    eapply Forall_impl; [apply fmt_hex_digits; exact Hg|]. intros c Hc. by apply (is_digit_addr_char 16).
  - replace (len s) with (len (map fmt_hex s)) by (unfold len; by rewrite length_map).
    apply (fmt_joined_len x3a (map fmt_hex s) 4); [lia|]. apply Forall_fmap. eapply Forall_impl; [exact Hs|].
    intros g Hg. cbn. by apply fmt_hex_digits.
Qed.

Lemma fmt_ipv6_text o : length o = 16%nat -> Forall addr_char (fmt_ipv6 o) /\ len (fmt_ipv6 o) <= 39.
Proof.
  intros Hl. unfold fmt_ipv6, to_ipv4_mapped. case_bool_decide.
  { split; [apply Forall_app; split; [by repeat constructor; vm_compute|apply fmt_ipv4_addr_chars]|].
    rewrite len_app. change (len (bs "::ffff:")) with 7. 
    pose proof (fmt_ipv4_len (drop 12 o) ltac:(rewrite length_drop, Hl; done)). lia. }
  destruct (from_segments_segments o 8 Hl) as [_ Hn]. pose proof (segments_range o) as Hr. cbv zeta.
  destruct (zero_run 0 (segments o) (0, 0)%nat (0, 0)%nat) as [start n] eqn:Ez.
  destruct (Nat.ltb_spec 1 n) as [H1|H1].
  - destruct (fmt_groups_text (take start (segments o))) as [C1 L1]; [by apply Forall_take|].
    destruct (fmt_groups_text (drop (start + n) (segments o))) as [C2 L2]; [by apply Forall_drop|].
    split; [apply Forall_app; split; [done|]; apply Forall_app; split; [by repeat constructor; vm_compute|done]|].
    rewrite !len_app. change (len (bs "::")) with 2. unfold len in L1, L2 |- *. rewrite length_take in L1.
    rewrite length_drop in L2. pose proof (zero_run_zeros (segments o)) as [Hz _]. rewrite Ez in Hz. cbn in Hz. lia.
  - destruct (fmt_groups_text (segments o) Hr) as [C L]. split; [done|]. unfold len in L |- *. rewrite Hn in L. lia.
Qed.

(** The text of an address: no spaces, at most 39 bytes. *)
Lemma fmt_ip_text ip : ip_ok ip -> Forall addr_char (fmt_ip ip) /\ len (fmt_ip ip) <= 39.
Proof.
  destruct ip as [o|o]; cbn [ip_ok fmt_ip]; intros Hl; [|by apply fmt_ipv6_text].
  split; [apply fmt_ipv4_addr_chars|]. pose proof (fmt_ipv4_len o Hl). lia.
Qed.

Lemma fmt_dec_len_u16 n : 0 <= n <= u16_max -> len (fmt_dec n) <= 5.
Proof. unfold u16_max. intros Hn. unfold fmt_dec. apply (digits_len 10 ltac:(lia) 5 5); lia. Qed.

Lemma addr_chars_not_in (c : byte) l : Forall addr_char l -> ~ (46 <= u8 c <= 102) -> c ∉ l.
Proof. intros Hl Hc Hin. apply Hc. by apply (proj1 (Forall_forall _ _) Hl). Qed.
