(* ===== verification/Host.v ===== *)
(** Hosts and upstream addresses: [lib/vey-types/src/net/host.rs] and
    [lib/vey-types/src/net/upstream.rs]: the address a client asks to be connected
    to, from its text and back.

    The conversion of a domain to ASCII is the parameter [to_ascii], as in
    [Domain.v].  Texts are their bytes. *)

From Stdlib Require Import ZArith Lia Strings.Byte.
From stdpp Require Import base list.
From S2P Require Import Prelude Text Domain IpAddr.

Inductive Host : Type :=
| Host_Ip (ip : IpAddr)
| Host_Domain (d : DomainName).

(** The messages of the errors. *)
Inductive HostError : Type :=
| EmptyString
| InvalidIpv6InBrackets
| InvalidIpv6
| InvalidIpv6Addr
| InvalidIpv6IpOrAddr
| InvalidPort
| InvalidDomain (e : DomainNameParseError).

Definition Host_empty : Host := Host_Ip (V4 [x00; x00; x00; x00]).

(** [IpAddr::is_unspecified]. *)
Definition is_unspecified (ip : IpAddr) : bool :=
  match ip with V4 o | V6 o => forallb (fun b => bool_decide (b = x00)) o end.

Definition Host_is_empty (self : Host) : bool :=
  match self with Host_Ip ip => is_unspecified ip | Host_Domain _ => false end.

Definition Host_from_maybe_mapped_ip6 (o : bytes) : Host :=
  match to_ipv4_mapped o with
  | Some o4 => Host_Ip (V4 o4)
  | None => Host_Ip (V6 o)
  end.

(** Ranges of the first byte of a text. *)
Definition is_dec_byte (b : byte) : bool := (48 <=? u8 b) && (u8 b <=? 57).
Definition is_hex_letter (b : byte) : bool :=
  (97 <=? u8 b) && (u8 b <=? 102) || (65 <=? u8 b) && (u8 b <=? 70).

Section Host.

Context (to_ascii : bytes -> option bytes).

Definition Host_from_domain_str (domain : bytes) : res HostError Host :=
  let? d := map_err InvalidDomain (DomainName_parse to_ascii domain) in
  Ok (Host_Domain d).

Definition Host_from_str (s : bytes) : res HostError Host :=
  match s with
  | [] => Err EmptyString
  | c :: _ =>
      if bool_decide (c = x5b) then
        let pos_last := len s - 1 in
        let? last := index s pos_last in
        if bool_decide (last = x5d) then
          let? inner := slice s 1 pos_last in
          match ipv6_from_str inner with
          | Some ip6 => Ok (Host_from_maybe_mapped_ip6 ip6)
          | None => Err InvalidIpv6InBrackets
          end
        else Err InvalidIpv6InBrackets
      else if bool_decide (c = x3a) then
        match ipv6_from_str s with
        | Some ip6 => Ok (Host_from_maybe_mapped_ip6 ip6)
        | None => Err InvalidIpv6
        end
      else if is_dec_byte c then
        match ip_from_str s with
        | Some (V4 o) => Ok (Host_Ip (V4 o))
        | Some (V6 ip6) => Ok (Host_from_maybe_mapped_ip6 ip6)
        | None => Host_from_domain_str s
        end
      else if is_hex_letter c then
        match ipv6_from_str s with
        | Some ip6 => Ok (Host_Ip (V6 ip6))
        | None => Host_from_domain_str s
        end
      else Host_from_domain_str s
  end.

(** [buf.eq_ignore_ascii_case(..)]. *)
Definition ascii_lower (b : byte) : byte := if (65 <=? u8 b) && (u8 b <=? 90) then to_u8 (u8 b + 32) else b.

Definition parse_smtp_ipv6_literal (buf : bytes) : res HostError (option Host) :=
  match memchr x3a buf with
  | None => Ok None
  | Some d =>
      let? tag := slice buf 0 d in
      if negb (bool_decide (map ascii_lower tag = map ascii_lower (bs "IPv6"))) then Ok None
      else
        let? s := slice_from buf (d + 1) in
        if negb (utf8_valid s) then Ok None
        else Ok (option_map (fun v6 => Host_Ip (V6 v6)) (ipv6_from_str s))
  end.

(** [Result::ok]. *)
Definition to_option {E A} (m : res E A) : res E (option A) :=
  match m with Ok a => Ok (Some a) | Err _ => Ok None | Panic => Panic end.

Definition parse_smtp_host_address (buf : bytes) : res HostError (option Host) :=
  match buf with
  | [] => Ok None
  | c :: _ =>
      if bool_decide (c = x5b) then
        let e := len buf - 1 in
        let? last := index buf e in
        if negb (bool_decide (last = x5d)) then Ok None
        else
          let? inner := slice buf 1 e in
          if negb (utf8_valid inner) then Ok None
          else
            match ipv4_from_str inner with
            | Some v4 => Ok (Some (Host_Ip (V4 v4)))
            | None => parse_smtp_ipv6_literal inner
            end
      else
        match memchr x3a buf with
        | Some _ => parse_smtp_ipv6_literal buf
        | None => if negb (utf8_valid buf) then Ok None else to_option (Host_from_domain_str buf)
        end
  end.

(** [Display]. *)
Definition Host_fmt (self : Host) : res HostError bytes :=
  match self with
  | Host_Ip ip => Ok (fmt_ip ip)
  | Host_Domain domain => DomainName_as_str domain
  end.

(** ** Upstream addresses *)

Record UpstreamAddr : Type := {
  ups_host : Host;
  ups_port : Z
}.

Definition UpstreamAddr_empty : UpstreamAddr := {| ups_host := Host_empty; ups_port := 0 |}.

Definition UpstreamAddr_is_empty (self : UpstreamAddr) : bool := Host_is_empty (ups_host self).

Definition from_ip_and_port (ip : IpAddr) (port : Z) : UpstreamAddr := {| ups_host := Host_Ip ip; ups_port := port |}.

Definition socket_addr (self : UpstreamAddr) : option SocketAddr :=
  match ups_host self with
  | Host_Ip ip => Some {| sa_ip := ip; sa_port := ups_port self |}
  | Host_Domain _ => None
  end.

Definition from_domain_str_and_port (domain : bytes) (port : Z) : res HostError UpstreamAddr :=
  let? host := Host_from_domain_str domain in
  Ok {| ups_host := host; ups_port := port |}.

Definition from_host_str_and_port (host : bytes) (port : Z) : res HostError UpstreamAddr :=
  let? host := Host_from_str host in
  Ok {| ups_host := host; ups_port := port |}.

Definition from_maybe_mapped_ip6 (ip6 : bytes) (port : Z) : UpstreamAddr :=
  {| ups_host := Host_from_maybe_mapped_ip6 ip6; ups_port := port |}.

Definition parse_port (s : bytes) : res HostError Z :=
  match u16_from_str s with Some port => Ok port | None => Err InvalidPort end.

Definition from_full_domain_str (s : bytes) : res HostError UpstreamAddr :=
  match memchr x3a s with
  | Some i =>
      let? rest := slice_from s (i + 1) in
      let? port := parse_port rest in
      let? domain := slice s 0 i in
      from_domain_str_and_port domain port
  | None => from_domain_str_and_port s 0
  end.

(** An IPv6 address without a port. *)
Definition from_ipv6_str (e : HostError) (s : bytes) : res HostError UpstreamAddr :=
  match ipv6_from_str s with
  | Some ip6 => Ok (from_maybe_mapped_ip6 ip6 0)
  | None => Err e
  end.

Definition UpstreamAddr_from_str (s : bytes) : res HostError UpstreamAddr :=
  match s with
  | [] => Err EmptyString
  | c :: _ =>
      if bool_decide (c = x5b) then
        let pos_last := len s - 1 in
        let? last := index s pos_last in
        if bool_decide (last = x5d) then
          let? inner := slice s 1 pos_last in
          from_ipv6_str InvalidIpv6InBrackets inner
        else if is_dec_byte last then
          match socket_addr_v6_from_str s with
          | Some (ip6, port) => Ok (from_maybe_mapped_ip6 ip6 port)
          | None => Err InvalidIpv6Addr
          end
        else Err InvalidIpv6IpOrAddr
      else if bool_decide (c = x3a) then from_ipv6_str InvalidIpv6 s
      else if is_dec_byte c then
        match memchr x3a s with
        | Some i =>
            let? rest := slice_from s (i + 1) in
            match memchr x3a rest with
            | Some _ => from_ipv6_str InvalidIpv6 s
            | None =>
                let? port := parse_port rest in
                let? head := slice s 0 i in
                match ipv4_from_str head with
                | Some ip4 => Ok (from_ip_and_port (V4 ip4) port)
                | None => from_domain_str_and_port head port
                end
            end
        | None =>
            match ipv4_from_str s with
            | Some ip4 => Ok (from_ip_and_port (V4 ip4) 0)
            | None => from_domain_str_and_port s 0
            end
        end
      else if is_hex_letter c then
        match ipv6_from_str s with
        | Some ip6 => Ok (from_ip_and_port (V6 ip6) 0)
        | None => from_full_domain_str s
        end
      else from_full_domain_str s
  end.

(** [Display]. *)
Definition UpstreamAddr_fmt (self : UpstreamAddr) : res HostError bytes :=
  if ups_port self =? 0 then Host_fmt (ups_host self)
  else
    match ups_host self with
    | Host_Ip (V4 ip4) => Ok (fmt_ipv4 ip4 ++ bs ":" ++ fmt_dec (ups_port self))
    | Host_Ip (V6 ip6) => Ok (bs "[" ++ fmt_ipv6 ip6 ++ bs "]:" ++ fmt_dec (ups_port self))
    | Host_Domain domain =>
        let? s := DomainName_as_str domain in
        Ok (s ++ bs ":" ++ fmt_dec (ups_port self))
    end.

End Host.

(** ** Texts are read back *)

(** A V4 address written as V6 is taken for the V4 address. *)
Definition Host_normal (h : Host) : Host :=
  match h with Host_Ip (V6 o) => Host_from_maybe_mapped_ip6 o | _ => h end.

Lemma first_hex c : is_digit 16 c -> is_dec_byte c = true \/ is_dec_byte c = false /\ is_hex_letter c = true.
Proof.
  unfold is_digit, to_digit, is_dec_byte, is_hex_letter.
  destruct ((48 <=? u8 c) && (u8 c <=? 57)) eqn:E1; [by left|]. right. split; [done|].
  destruct ((97 <=? u8 c) && (u8 c <=? 122)) eqn:E2; [|destruct ((65 <=? u8 c) && (u8 c <=? 90)) eqn:E3; [|done]];
    cbv zeta in *; destruct (Z.ltb_spec (u8 c - 87) 16), (Z.ltb_spec (u8 c - 55) 16); try done; lia.
Qed.

(** The first byte of the text of an address. *)
Lemma fmt_ipv4_first o : length o = 4%nat -> exists c l, fmt_ipv4 o = c :: l /\ is_dec_byte c = true.
Proof.
  intros Hl. destruct o as [|b o]; [done|]. unfold fmt_ipv4. cbn [map]. rewrite fmt_joined_cons.
  destruct (fmt_dec_digits (u8 b)) as [Hd Hne]; [pose proof (u8_range b); unfold u16_max; lia|].
  destruct (fmt_dec (u8 b)) as [|c l]; [done|]. apply Forall_cons_1 in Hd as [Hd _]. eexists c, _. split; [done|].
  apply is_digit_10 in Hd. unfold is_dec_byte. lia.
Qed.

Lemma fmt_ipv6_first o :
  length o = 16%nat -> exists c l, fmt_ipv6 o = c :: l /\
    (c = x3a \/ is_digit 16 c /\ to_ipv4_mapped o = None).
Proof.
  intros Hl. destruct (fmt_ipv6_shape o Hl) as [[l ->]|(Hm & g & l & Hg & ->)]; [exists x3a, l; auto|].
  destruct (fmt_hex_digits g Hg) as [Hd _]. assert (Hne : fmt_hex g <> []).
  { apply (digits_spec 16 ltac:(lia) 5 g 0); unfold u16_max in *; lia. }
  destruct (fmt_hex g) as [|c k]; [done|]. apply Forall_cons_1 in Hd as [Hd _]. eexists c, _. split; [done|]. auto.
Qed.

Lemma hex_byte_special c : is_digit 16 c -> c <> x5b /\ c <> x3a.
Proof. intros Hc. split; intros ->; by apply Hc. Qed.

Lemma dec_byte_special c : is_dec_byte c = true -> c <> x5b /\ c <> x3a.
Proof. intros Hc. split; intros ->; done. Qed.

(** A domain that a text can stand for: it is taken for nothing else, and the
    conversion to ASCII keeps it. *)
Definition plain_domain (to_ascii : bytes -> option bytes) (d : DomainName) (name : bytes) : Prop :=
  dn_fqdn d = name ++ [DOT] /\ name <> [] /\ (x3a ∉ name) /\ head name <> Some x5b /\ ip_from_str name = None /\
  DomainName_parse to_ascii name = Ok d.

Definition host_ok (to_ascii : bytes -> option bytes) (h : Host) : Prop :=
  match h with
  | Host_Ip ip => ip_ok ip
  | Host_Domain d => exists name, plain_domain to_ascii d name
  end.

Section Roundtrip.

Context (to_ascii : bytes -> option bytes).

Lemma no_colon_ipv6 s : (colons s <= 1)%nat -> ipv6_from_str s = None.
Proof using. intros Hc. destruct (ipv6_from_str s) eqn:E; [|done]. apply ipv6_from_str_colons in E. lia. Qed.

(** A text that is no address of either kind is no IPv4 address. *)
Lemma ip_none_ipv4 s : ip_from_str s = None -> ipv4_from_str s = None.
Proof using.
  unfold ip_from_str, ipv4_from_str, parse_with, read_ip_addr. destruct (15 <? len s); [done|].
  destruct (read_ipv4_addr s) as [[o [|c r]]|]; done.
Qed.

Lemma plain_domain_text d name : plain_domain to_ascii d name -> DomainName_as_str (E := HostError) d = Ok name.
Proof using. intros (Hd & _). by apply as_str_ok. Qed.

Lemma Host_from_str_ipv6 o : length o = 16%nat -> Host_from_str to_ascii (fmt_ipv6 o) = Ok (Host_from_maybe_mapped_ip6 o).
Proof using.
  intros Hl. pose proof (ipv6_from_str_fmt o Hl) as H6. pose proof (ip_from_str_fmt (V6 o) Hl) as Hip. cbn [fmt_ip] in Hip.
  destruct (fmt_ipv6_first o Hl) as (c & l & E & Hc). unfold Host_from_str. rewrite H6, Hip, E. destruct Hc as [->|[Hc Hm]].
  - rewrite bool_decide_eq_false_2, bool_decide_eq_true_2 by done. done.
  - destruct (hex_byte_special c Hc). rewrite !bool_decide_eq_false_2 by done.
    destruct (first_hex c Hc) as [->|[-> ->]]; [done|]. unfold Host_from_maybe_mapped_ip6. by rewrite Hm.
Qed.

(** The text of a host is read back, as a host that is the same or the V4
    address that is written as V6. *)
Lemma Host_roundtrip h :
  host_ok to_ascii h -> exists s, Host_fmt h = Ok s /\ Host_from_str to_ascii s = Ok (Host_normal h).
Proof using.
  destruct h as [[o|o]|d]; cbn [host_ok ip_ok Host_fmt Host_normal fmt_ip].
  - intros Hl. eexists. split; [done|]. pose proof (ip_from_str_fmt (V4 o) Hl) as Hip. cbn [fmt_ip] in Hip.
    destruct (fmt_ipv4_first o Hl) as (c & l & E & Hc). destruct (dec_byte_special c Hc). unfold Host_from_str.
    rewrite Hip, E, !bool_decide_eq_false_2 by done. by rewrite Hc.
  - intros Hl. eexists. split; [done|]. by apply Host_from_str_ipv6.
  - intros (name & Hp). pose proof Hp as (Hd & Hne & Hcol & Hbr & Hip & Hparse). exists name.
    split; [by eapply plain_domain_text|]. unfold Host_from_str, Host_from_domain_str. rewrite Hip, Hparse.
    rewrite no_colon_ipv6 by (rewrite colons_none by done; lia). destruct name as [|c name]; [done|].
    rewrite bool_decide_eq_false_2 by (intros ->; by apply Hbr).
    rewrite bool_decide_eq_false_2 by (intros ->; apply Hcol; by left). by destruct (is_dec_byte c), (is_hex_letter c).
Qed.

(** ** Upstream addresses are read back *)

Lemma parse_port_fmt port : 0 <= port <= u16_max -> parse_port (fmt_dec port) = Ok port.
Proof using. intros Hp. unfold parse_port. by rewrite u16_from_str_fmt. Qed.

Lemma fmt_dec_no_colon port : 0 <= port <= u16_max -> x3a ∉ fmt_dec port.
Proof using.
  intros Hp Hin. destruct (fmt_dec_digits port Hp) as [Hd _]. rewrite Forall_forall in Hd. by apply (Hd x3a).
Qed.

Lemma fmt_ipv4_no_colon o : x3a ∉ fmt_ipv4 o.
Proof using. intros Hin. pose proof (fmt_ipv4_chars o) as Hc. rewrite Forall_forall in Hc. by destruct (Hc x3a Hin). Qed.

Lemma fmt_dec_last port p : 0 <= port <= u16_max ->
  exists c, index (E := HostError) (p ++ fmt_dec port) (len (p ++ fmt_dec port) - 1) = Ok c /\ is_dec_byte c = true /\ c <> x5d.
Proof using.
  intros Hp. destruct (fmt_dec_digits port Hp) as [Hd Hne]. destruct (exists_last Hne) as (l & c & E). rewrite E in *. exists c.
  apply Forall_app in Hd as [_ Hd]. apply Forall_cons_1 in Hd as [Hd _]. apply is_digit_10 in Hd. split_and!.
  - apply index_ok; [len_lia|]. rewrite app_assoc. replace (Z.to_nat _) with (length (p ++ l)).
    + by apply list_lookup_middle.
    + rewrite length_app. unfold len. rewrite !length_app. cbn [length]. lia.
  - unfold is_dec_byte. lia.
  - intros ->. change (u8 x5d) with 93 in Hd. lia.
Qed.

(** A text before a colon and a port. *)
Lemma split_port (head : bytes) port :
  x3a ∉ head -> 0 <= port <= u16_max -> let s := head ++ bs ":" ++ fmt_dec port in
  memchr x3a s = Some (len head) /\ slice_from (E := HostError) s (len head + 1) = Ok (fmt_dec port) /\
  memchr x3a (fmt_dec port) = None /\ slice (E := HostError) s 0 (len head) = Ok head /\ colons s = 1%nat.
Proof using.
  intros Hh Hp. cbv zeta. pose proof (fmt_dec_no_colon port Hp) as Hno. change (bs ":") with [x3a]. split_and!.
  - by apply memchr_app.
  - apply (slice_from_at (head ++ [x3a])); [by rewrite <- app_assoc|len_lia].
  - by apply memchr_none.
  - eapply (slice_at [] head); [done|len_lia|len_lia].
  - rewrite !colons_app, (colons_none head), (colons_none (fmt_dec port)) by done. done.
Qed.

Lemma upstream_v4 o port :
  length o = 4%nat -> 0 <= port <= u16_max ->
  exists s, UpstreamAddr_fmt (from_ip_and_port (V4 o) port) = Ok s /\
    UpstreamAddr_from_str to_ascii s = Ok (from_ip_and_port (V4 o) port).
Proof using.
  intros Hl Hp. unfold UpstreamAddr_fmt. cbn [ups_port ups_host from_ip_and_port Host_fmt fmt_ip].
  destruct (fmt_ipv4_first o Hl) as (c & l & E & Hc). destruct (dec_byte_special c Hc).
  pose proof (ipv4_from_str_fmt o Hl) as H4. pose proof (fmt_ipv4_no_colon o) as Hno.
  destruct (Z.eqb_spec port 0) as [->|Hp0]; eexists; (split; [done|]).
  - unfold UpstreamAddr_from_str. rewrite (memchr_none _ _ Hno), H4, E, !bool_decide_eq_false_2 by done. by rewrite Hc.
  - destruct (split_port (fmt_ipv4 o) port Hno Hp) as (Hm & Hrest & Hm2 & Hhead & _). set (s := fmt_ipv4 o ++ _) in *.
    unfold UpstreamAddr_from_str. rewrite Hm, Hrest. cbn [bind]. rewrite Hm2, parse_port_fmt by done. cbn [bind].
    rewrite Hhead. cbn [bind]. rewrite H4. unfold s at 1. rewrite E. cbn [app]. rewrite !bool_decide_eq_false_2 by done. by rewrite Hc.
Qed.

Lemma upstream_v6 o port :
  length o = 16%nat -> 0 <= port <= u16_max ->
  exists s, UpstreamAddr_fmt (from_ip_and_port (V6 o) port) = Ok s /\
    UpstreamAddr_from_str to_ascii s = Ok (from_maybe_mapped_ip6 o port).
Proof using.
  intros Hl Hp. unfold UpstreamAddr_fmt. cbn [ups_port ups_host from_ip_and_port Host_fmt fmt_ip].
  pose proof (ipv6_from_str_fmt o Hl) as H6. destruct (Z.eqb_spec port 0) as [->|Hp0]; eexists; (split; [done|]).
  - assert (H6' : forall e, from_ipv6_str e (fmt_ipv6 o) = Ok (from_maybe_mapped_ip6 o 0)).
    { intros e. unfold from_ipv6_str. by rewrite H6. }
    pose proof (ipv6_from_str_colons _ _ H6) as Hc2.
    destruct (memchr_colons (fmt_ipv6 o) ltac:(lia)) as (p & q & Epq & Hm & Hq).
    assert (Hrest : slice_from (E := HostError) (fmt_ipv6 o) (len p + 1) = Ok q).
    { rewrite Epq. apply (slice_from_at (p ++ [x3a])); [by rewrite <- app_assoc|len_lia]. }
    destruct (memchr_colons q ltac:(lia)) as (p' & q' & _ & Hm' & _).
    unfold UpstreamAddr_from_str. rewrite H6, !H6', Hm, Hrest. cbn [bind]. rewrite Hm'.
    destruct (fmt_ipv6_first o Hl) as (c & l & E & Hc). rewrite E. destruct Hc as [->|[Hc Hmap]].
    + rewrite bool_decide_eq_false_2, bool_decide_eq_true_2 by done. done.
    + destruct (hex_byte_special c Hc). rewrite !bool_decide_eq_false_2 by done.
      destruct (first_hex c Hc) as [->|[-> ->]]; [done|]. unfold from_maybe_mapped_ip6, Host_from_maybe_mapped_ip6. by rewrite Hmap.
  - assert (Hs : socket_addr_v6_from_str (bs "[" ++ fmt_ipv6 o ++ bs "]:" ++ fmt_dec port) = Some (o, port)).
    { unfold socket_addr_v6_from_str, parse_with, read_socket_addr_v6. change (bs "[" ++ ?l) with (x5b :: l).
      rewrite read_given_char_cons. change (bs "]:" ++ ?l) with (x5d :: x3a :: l). rewrite read_ipv6_fmt by done.
      change (read_scope_id (x5d :: ?l)) with (x5d :: l). rewrite !read_given_char_cons.
      rewrite <- (app_nil_r (fmt_dec port)), read_unbounded_fmt by done. done. }
    destruct (fmt_dec_last port (bs "[" ++ fmt_ipv6 o ++ bs "]:") Hp) as (c & Hlast & Hc & Hne).
    rewrite <- !app_assoc in Hlast. unfold UpstreamAddr_from_str. rewrite Hlast, Hs. cbn [bind].
    rewrite (bool_decide_eq_false_2 (c = x5d)) by done. rewrite Hc. done.
Qed.

Lemma upstream_domain d name port :
  plain_domain to_ascii d name -> 0 <= port <= u16_max ->
  exists s, UpstreamAddr_fmt {| ups_host := Host_Domain d; ups_port := port |} = Ok s /\
    UpstreamAddr_from_str to_ascii s = Ok {| ups_host := Host_Domain d; ups_port := port |}.
Proof using.
  intros Hd Hp. pose proof (plain_domain_text _ _ Hd) as Htext. pose proof Hd as (_ & Hne & Hno & Hbr & Hip & Hparse).
  pose proof (ip_none_ipv4 _ Hip) as H4. unfold UpstreamAddr_fmt. cbn [ups_port ups_host Host_fmt]. rewrite Htext. cbn [bind].
  assert (Hdom : forall p, from_domain_str_and_port to_ascii name p = Ok {| ups_host := Host_Domain d; ups_port := p |}).
  { intros p. unfold from_domain_str_and_port, Host_from_domain_str. by rewrite Hparse. }
  destruct name as [|c name]; [done|].
  assert (c <> x5b /\ c <> x3a) as [Hc5 Hc3] by (split; intros ->; [by apply Hbr|apply Hno; by left]).
  destruct (Z.eqb_spec port 0) as [->|Hp0]; eexists; (split; [done|]).
  - unfold UpstreamAddr_from_str, from_full_domain_str. rewrite (memchr_none _ _ Hno), H4, Hdom.
    rewrite no_colon_ipv6 by (rewrite colons_none by done; lia). rewrite !bool_decide_eq_false_2 by done.
    by destruct (is_dec_byte c), (is_hex_letter c).
  - destruct (split_port (c :: name) port Hno Hp) as (Hm & Hrest & Hm2 & Hhead & Hcol). set (s := (c :: name) ++ _) in *.
    unfold UpstreamAddr_from_str, from_full_domain_str. rewrite no_colon_ipv6 by lia. rewrite Hm, Hrest. cbn [bind].
    rewrite Hm2, parse_port_fmt by done. cbn [bind]. rewrite Hhead. cbn [bind]. rewrite H4, Hdom. unfold s at 1. cbn [app].
    rewrite !bool_decide_eq_false_2 by done. by destruct (is_dec_byte c), (is_hex_letter c).
Qed.

End Roundtrip.

(** C28: an upstream address is read back from the text it is printed as, with or
    without a port: an IPv4 address, an IPv6 address (one that maps an IPv4
    address becomes that address) or a domain that is not the text of an
    address. *)
Theorem upstream_addr_roundtrip (to_ascii : bytes -> option bytes) (a : UpstreamAddr) :
  host_ok to_ascii (ups_host a) -> 0 <= ups_port a <= u16_max ->
  exists s, UpstreamAddr_fmt a = Ok s /\
    UpstreamAddr_from_str to_ascii s = Ok {| ups_host := Host_normal (ups_host a); ups_port := ups_port a |}.
Proof.
  destruct a as [[[o|o]|d] port]; cbn [ups_host ups_port host_ok ip_ok Host_normal]; intros Hh Hp.
  - by apply (upstream_v4 to_ascii o port).
  - by apply (upstream_v6 to_ascii o port).
  - destruct Hh as (name & Hd). by apply (upstream_domain to_ascii d name port).
Qed.

(** A conversion that takes every text as it is. *)
Lemma upstream_addr_roundtrip_witness :
  exists s s', UpstreamAddr_fmt {| ups_host := Host_Domain {| dn_fqdn := bs "example.net." |}; ups_port := 443 |} = Ok s /\
    UpstreamAddr_from_str Some s = Ok {| ups_host := Host_Domain {| dn_fqdn := bs "example.net." |}; ups_port := 443 |} /\
    UpstreamAddr_fmt {| ups_host := Host_Ip (V6 (x20 :: x01 :: replicate 13 x00 ++ [x01])); ups_port := 80 |} = Ok s' /\
    UpstreamAddr_from_str Some s' = Ok {| ups_host := Host_Ip (V6 (x20 :: x01 :: replicate 13 x00 ++ [x01])); ups_port := 80 |}.
Proof.
  destruct (upstream_addr_roundtrip Some {| ups_host := Host_Domain {| dn_fqdn := bs "example.net." |}; ups_port := 443 |})
    as (s & Hs & Hr).
  - exists (bs "example.net"). split_and!; try reflexivity; try discriminate. apply not_elem_of_cons. vm_compute.
    split; [discriminate|]. intros Hin. repeat (apply elem_of_cons in Hin as [Hin|Hin]; [discriminate|]). by apply not_elem_of_nil in Hin.
  - split; apply Z.leb_le; reflexivity.
  - destruct (upstream_addr_roundtrip Some {| ups_host := Host_Ip (V6 (x20 :: x01 :: replicate 13 x00 ++ [x01])); ups_port := 80 |})
      as (s' & Hs' & Hr'); [reflexivity|split; apply Z.leb_le; reflexivity|].
    exists s, s'. split; [exact Hs|]. split; [exact Hr|]. split; [exact Hs'|exact Hr'].
Defined.

(** ** Any text *)

Section Safety.

Context (to_ascii : bytes -> option bytes).

Lemma domain_str_no_panic s : Host_from_domain_str to_ascii s <> Panic.
Proof.
  unfold Host_from_domain_str. pose proof (DomainName_parse_total to_ascii s). by destruct (DomainName_parse to_ascii s).
Qed.

Lemma domain_port_no_panic s port : from_domain_str_and_port to_ascii s port <> Panic.
Proof.
  unfold from_domain_str_and_port. pose proof (domain_str_no_panic s). by destruct (Host_from_domain_str to_ascii s).
Qed.

Lemma parse_port_no_panic s : parse_port s <> Panic.
Proof. unfold parse_port. by destruct (u16_from_str s). Qed.

Lemma bind_no_panic {E A B} (m : res E A) (f : A -> res E B) :
  m <> Panic -> (forall a, m = Ok a -> f a <> Panic) -> bind m f <> Panic.
Proof. destruct m; cbn; auto. Qed.

(** The parts of a text at a byte that was found. *)
Lemma memchr_parts c s i :
  memchr c s = Some i -> exists p q, slice (E := HostError) s 0 i = Ok p /\ slice_from (E := HostError) s (i + 1) = Ok q.
Proof.
  intros (p & q & -> & _ & ->)%memchr_Some. exists p, q. split.
  - by eapply (slice_at [] p).
  - apply (slice_from_at (p ++ [c])); [by rewrite <- app_assoc|len_lia].
Qed.

(** The part of a text between brackets. *)
Lemma bracket_parts c s :
  c = x5b -> exists l, index (E := HostError) (c :: s) (len (c :: s) - 1) = Ok l /\
    (l = x5d -> exists inner, slice (E := HostError) (c :: s) 1 (len (c :: s) - 1) = Ok inner).
Proof.
  intros ->. assert (Hlt : (length s < length (x5b :: s))%nat) by (cbn; lia).
  destruct (lookup_lt_is_Some_2 (x5b :: s) (length s) Hlt) as [l Hl]. exists l. split.
  - apply index_ok; [rewrite len_cons; pose proof (len_nonneg s); lia|]. rewrite <- Hl. f_equal. unfold len. cbn [length]. lia.
  - intros ->. destruct s as [|x s]; [done|]. eexists. apply slice_ok; rewrite ?len_cons; pose proof (len_nonneg s); lia.
Qed.

Lemma host_str_no_panic s : Host_from_str to_ascii s <> Panic.
Proof.
  pose proof domain_str_no_panic as Hd. destruct s as [|c s]; [done|]. unfold Host_from_str. case_bool_decide as E1.
  { destruct (bracket_parts c s E1) as (l & -> & Hl). cbn [bind]. case_bool_decide as E2; [|done].
    destruct (Hl E2) as [inner ->]. cbn [bind]. by destruct (ipv6_from_str inner). }
  case_bool_decide; [by destruct (ipv6_from_str _)|]. destruct (is_dec_byte c); [by destruct (ip_from_str _) as [[]|]|].
  destruct (is_hex_letter c); [by destruct (ipv6_from_str _)|done].
Qed.

Lemma host_port_no_panic s port : from_host_str_and_port to_ascii s port <> Panic.
Proof. unfold from_host_str_and_port. pose proof (host_str_no_panic s). by destruct (Host_from_str to_ascii s). Qed.

Lemma smtp_literal_no_panic s : parse_smtp_ipv6_literal s <> Panic.
Proof.
  unfold parse_smtp_ipv6_literal. destruct (memchr x3a s) as [i|] eqn:Em; [|done].
  destruct (memchr_parts _ _ _ Em) as (p & q & -> & Hq). cbn [bind]. destruct (negb _); [done|]. rewrite Hq. cbn [bind].
  by destruct (negb _).
Qed.

Lemma full_domain_no_panic s : from_full_domain_str to_ascii s <> Panic.
Proof.
  unfold from_full_domain_str. destruct (memchr x3a s) as [i|] eqn:Em; [|apply domain_port_no_panic].
  destruct (memchr_parts _ _ _ Em) as (p & q & Hp & ->). cbn [bind]. apply bind_no_panic; [apply parse_port_no_panic|].
  intros port _. rewrite Hp. cbn [bind]. apply domain_port_no_panic.
Qed.

End Safety.

(** No text makes the parsers of hosts and upstream addresses panic: an
    empty one, brackets that do not match, colons in odd places, bytes that are
    not UTF-8. *)
Theorem host_parsers_never_panic (to_ascii : bytes -> option bytes) (s : bytes) :
  Host_from_str to_ascii s <> Panic /\ UpstreamAddr_from_str to_ascii s <> Panic /\
  parse_smtp_host_address to_ascii s <> Panic.
Proof.
  pose proof (domain_str_no_panic to_ascii) as Hd. pose proof (domain_port_no_panic to_ascii) as Hdp.
  pose proof (full_domain_no_panic to_ascii) as Hfd. destruct s as [|c s]; [done|]. split_and!.
  - apply host_str_no_panic.
  - assert (H6 : forall e b, from_ipv6_str e b <> Panic) by (intros e b; unfold from_ipv6_str; by destruct (ipv6_from_str b)).
    unfold UpstreamAddr_from_str. case_bool_decide as E1.
    { destruct (bracket_parts c s E1) as (l & -> & Hl). cbn [bind]. case_bool_decide as E2.
      - destruct (Hl E2) as [inner ->]. apply H6.
      - destruct (is_dec_byte l); [|done]. by destruct (socket_addr_v6_from_str _) as [[]|]. }
    case_bool_decide; [apply H6|]. destruct (is_dec_byte c).
    + destruct (memchr x3a (c :: s)) as [i|] eqn:Em; [|by destruct (ipv4_from_str _)].
      destruct (memchr_parts _ _ _ Em) as (p & q & Hp & ->). cbn [bind]. destruct (memchr x3a q); [apply H6|].
      apply bind_no_panic; [apply parse_port_no_panic|]. intros port _. rewrite Hp. cbn [bind]. by destruct (ipv4_from_str p).
    + destruct (is_hex_letter c); [by destruct (ipv6_from_str _)|done].
  - unfold parse_smtp_host_address. case_bool_decide as E1.
    { destruct (bracket_parts c s E1) as (l & -> & Hl). cbn [bind]. case_bool_decide as E2; [|done].
      destruct (Hl E2) as [inner ->]. cbn [bind negb]. destruct (negb _); [done|].
      destruct (ipv4_from_str inner); [done|apply smtp_literal_no_panic]. }
    destruct (memchr x3a (c :: s)); [apply smtp_literal_no_panic|]. destruct (negb _); [done|].
    unfold to_option. pose proof (Hd (c :: s)). by destruct (Host_from_domain_str to_ascii (c :: s)).
Qed.
