(* ===== verification/Socks.v ===== *)
(** The messages of SOCKS 4, 4a and 5: [lib/vey-socks/src/types/],
    [lib/vey-socks/src/v4a/] and the requests and replies of
    [lib/vey-socks/src/v5/].

    A receiver reads its fields one after the other from the reader; a sender
    builds the message and writes it with [write_all_flush].  The conversion of a
    domain to ASCII is the parameter [to_ascii], as in [Domain.v]. *)

From Stdlib Require Import ZArith Lia Strings.Byte.
From stdpp Require Import base list.
From S2P Require Import Prelude Text Reader AsyncIo ReadExt Domain IpAddr Host.

Local Open Scope recv_scope.

(** ** Types *)

Inductive SocksNegotiationError : Type :=
| InvalidVersion
| NoAuthMethod
| InvalidAuthMethod
| InvalidCommand
| InvalidUserIdString
| InvalidDomainString
| InvalidAddrType
| InvalidUserAuthMsg.

Inductive SocksRequestParseError : Type :=
| Request_ReadFailed (e : io_error)
| Request_InvalidProtocol (e : SocksNegotiationError)
| InvalidUdpPeerAddress
| ClientClosed.

Definition SocksRequestParseError_from_io (e : io_error) : SocksRequestParseError :=
  match e with
  | UnexpectedEof => ClientClosed
  | _ => Request_ReadFailed e
  end.

Inductive SocksReplyParseError : Type :=
| Reply_ReadFailed (e : io_error)
| Reply_InvalidProtocol (e : SocksNegotiationError).

(** The errors of the senders: of the writer, and the one for an address that
    SOCKS 4 cannot carry. *)
Inductive send_error : Type :=
| SendFailed (e : write_error)
| SendUnsupported.

Inductive SocksConnectError : Type :=
| Connect_ReadFailed (e : io_error)
| Connect_WriteFailed (e : send_error)
| NoAuthMethodAvailable
| UnsupportedAuthVersion
| AuthFailed
| Connect_InvalidProtocol (e : SocksNegotiationError)
| PeerTimeout
| RequestFailed (message : bytes).

Definition SocksConnectError_from_reply (e : SocksReplyParseError) : SocksConnectError :=
  match e with
  | Reply_ReadFailed e => Connect_ReadFailed e
  | Reply_InvalidProtocol e => Connect_InvalidProtocol e
  end.

Inductive SocksCommand : Type := TcpConnect | TcpBind | UdpAssociate.

Definition SocksCommand_code (self : SocksCommand) : Z :=
  match self with
  | TcpConnect => 1
  | TcpBind => 2
  | UdpAssociate => 3
  end.

Definition SocksCommand_try_from (value : Z) : res SocksNegotiationError SocksCommand :=
  if value =? 1 then Ok TcpConnect
  else if value =? 2 then Ok TcpBind
  else if value =? 3 then Ok UdpAssociate
  else Err InvalidCommand.

Inductive SocksVersion : Type := SocksV4a | SocksV5 | SocksV6.

Definition SocksVersion_code (self : SocksVersion) : Z :=
  match self with
  | SocksV4a => 4
  | SocksV5 => 5
  | SocksV6 => 6
  end.

Definition SocksVersion_try_from (value : Z) : res SocksNegotiationError SocksVersion :=
  if value =? 4 then Ok SocksV4a
  else if value =? 5 then Ok SocksV5
  else if value =? 6 then Ok SocksV6
  else Err InvalidVersion.

(** [?] on the results of reads, and on the errors of the protocol. *)
Definition request_read {A} (m : recv io_error A) : recv SocksRequestParseError A :=
  recv_io SocksRequestParseError_from_io m.
Definition request_check {A} (r : res SocksNegotiationError A) : recv SocksRequestParseError A :=
  recv_lift (map_err Request_InvalidProtocol r).
Definition request_invalid {A} (e : SocksNegotiationError) : recv SocksRequestParseError A :=
  recv_fail (Request_InvalidProtocol e).

(** [.map_err(|_| e)]. *)
Definition or_err {E E' A} (e : E) (r : res E' A) : res E A := map_err (fun _ => e) r.

(** [buf.put_u8] and [buf.put_u16] append these bytes. *)
Definition put_u8 (v : Z) : bytes := [to_u8 v].
Definition put_u16 (v : Z) : bytes := to_be 2 v.

(** A sender builds its message and writes it. *)
Definition write_message (buf : pure bytes) : proc writer send_error unit := fun w =>
  match buf with
  | Ok buf => recv_io SendFailed (write_all_flush buf) w
  | _ => (Panic, w)
  end.

(** ** SOCKS 5 *)

Record Socks5Request : Type := {
  s5_command : SocksCommand;
  s5_upstream : UpstreamAddr
}.

Section Socks.

Context (to_ascii : bytes -> option bytes).

(** The address, by its type. *)
Definition Socks5Request_recv_upstream (atyp : Z) : recv SocksRequestParseError UpstreamAddr :=
  if atyp =? 1 then
    let* ip_bytes := request_read (read_exact 4) in
    let* port := request_read read_u16 in
    recv_ret (from_ip_and_port (V4 ip_bytes) port)
  else if atyp =? 3 then
    let* n := request_read read_u8 in
    if n =? 0 then request_invalid InvalidDomainString
    else
      let* domain := request_read (read_exact n) in
      let* domain := request_check (from_utf8 InvalidDomainString domain) in
      let* port := request_read read_u16 in
      request_check (or_err InvalidDomainString (from_host_str_and_port to_ascii domain port))
  else if atyp =? 4 then
    let* ip_bytes := request_read (read_exact 16) in
    let* port := request_read read_u16 in
    recv_ret (from_ip_and_port (V6 ip_bytes) port)
  else request_invalid InvalidAddrType.

Definition Socks5Request_recv : recv SocksRequestParseError Socks5Request :=
  let* version := request_read read_u8 in
  if negb (version =? 5) then request_invalid InvalidVersion
  else
    let* code := request_read read_u8 in
    let* command := request_check (SocksCommand_try_from code) in
    let* _rsv := request_read read_u8 in
    let* atyp := request_read read_u8 in
    let* upstream := Socks5Request_recv_upstream atyp in
    recv_ret {| s5_command := command; s5_upstream := upstream |}.

Definition udp_peer_addr (self : Socks5Request) : res SocksRequestParseError (option SocketAddr) :=
  match ups_host (s5_upstream self) with
  | Host_Ip ip => Ok (Some {| sa_ip := ip; sa_port := ups_port (s5_upstream self) |})
  | Host_Domain domain =>
      let? name := DomainName_as_str domain in
      if bool_decide (name = bs "0") then Ok None else Err InvalidUdpPeerAddress
  end.

Definition Socks5Request_buf (command : SocksCommand) (addr : UpstreamAddr) : pure bytes :=
  let head := put_u8 5 ++ put_u8 (SocksCommand_code command) ++ put_u8 0 in
  match ups_host addr with
  | Host_Domain domain =>
      let? n := DomainName_len_u8 domain in
      let? b := DomainName_as_bytes domain in
      let? b := slice b 0 n in
      Ok (head ++ put_u8 3 ++ put_u8 n ++ b ++ put_u16 (ups_port addr))
  | Host_Ip (V4 ip4) => Ok (head ++ put_u8 1 ++ ip4 ++ put_u16 (ups_port addr))
  | Host_Ip (V6 ip6) => Ok (head ++ put_u8 4 ++ ip6 ++ put_u16 (ups_port addr))
  end.

Definition Socks5Request_send (command : SocksCommand) (addr : UpstreamAddr) : proc writer send_error unit :=
  write_message (Socks5Request_buf command addr).

Inductive Socks5Reply : Type :=
| Succeeded (addr : SocketAddr)
| GeneralServerFailure
| ForbiddenByRule
| NetworkUnreachable
| HostUnreachable
| ConnectionRefused
| TtlExpired
| CommandNotSupported
| AddressTypeNotSupported
| Unassigned (n : Z).

Definition Socks5Reply_new (code : Z) (addr : SocketAddr) : Socks5Reply :=
  match code with
  | 0 => Succeeded addr
  | 1 => GeneralServerFailure
  | 2 => ForbiddenByRule
  | 3 => NetworkUnreachable
  | 4 => HostUnreachable
  | 5 => ConnectionRefused
  | 6 => TtlExpired
  | 7 => CommandNotSupported
  | 8 => AddressTypeNotSupported
  | n => Unassigned n
  end.

Definition Socks5Reply_code (self : Socks5Reply) : Z :=
  match self with
  | Succeeded _ => 0
  | GeneralServerFailure => 1
  | ForbiddenByRule => 2
  | NetworkUnreachable => 3
  | HostUnreachable => 4
  | ConnectionRefused => 5
  | TtlExpired => 6
  | CommandNotSupported => 7
  | AddressTypeNotSupported => 8
  | Unassigned n => n
  end.

Definition Socks5Reply_error_message (self : Socks5Reply) : bytes :=
  match self with
  | Succeeded _ => bs "Succeeded"
  | GeneralServerFailure => bs "General SOCKS server failure"
  | ForbiddenByRule => bs "Connection not allowed by ruleset"
  | NetworkUnreachable => bs "Network unreachable"
  | HostUnreachable => bs "Host unreachable"
  | ConnectionRefused => bs "Connection refused"
  | TtlExpired => bs "TTL expired"
  | CommandNotSupported => bs "Command not supported"
  | AddressTypeNotSupported => bs "Address type not supported"
  | Unassigned _ => bs "unassigned reply code"
  end.

(** [SocketAddr::new(ip(left_bytes[..n]), u16::from_be_bytes(left_bytes[n..n + 2]))]. *)
Definition addr_of_bytes (ip : bytes -> IpAddr) (n : Z) (left_bytes : bytes) : res SocksReplyParseError SocketAddr :=
  let? ip_bytes := slice left_bytes 0 n in
  let? port_bytes := slice left_bytes n (n + 2) in
  Ok {| sa_ip := ip ip_bytes; sa_port := from_be port_bytes |}.

Definition Socks5Reply_recv : recv SocksReplyParseError Socks5Reply :=
  let* buf := recv_io Reply_ReadFailed (read_exact 4) in
  let* version := recv_lift (index buf 0) in
  if negb (u8 version =? 5) then recv_fail (Reply_InvalidProtocol InvalidVersion)
  else
    let* code := recv_lift (index buf 1) in
    let* _rsv := recv_lift (index buf 2) in
    let* atyp := recv_lift (index buf 3) in
    let* addr :=
      if u8 atyp =? 1 then
        let* left_bytes := recv_io Reply_ReadFailed (read_exact 6) in
        recv_lift (addr_of_bytes V4 4 left_bytes)
      else if u8 atyp =? 3 then recv_fail (Reply_InvalidProtocol InvalidAddrType)
      else if u8 atyp =? 4 then
        let* left_bytes := recv_io Reply_ReadFailed (read_exact 18) in
        recv_lift (addr_of_bytes V6 16 left_bytes)
      else recv_fail (Reply_InvalidProtocol InvalidAddrType) in
    recv_ret (Socks5Reply_new (u8 code) addr).

Definition Socks5Reply_buf (self : Socks5Reply) : bytes :=
  put_u8 5 ++ put_u8 (Socks5Reply_code self) ++ put_u8 0 ++
  match self with
  | Succeeded addr =>
      match sa_ip addr with
      | V4 ip4 => put_u8 1 ++ ip4 ++ put_u16 (sa_port addr)
      | V6 ip6 =>
          match to_ipv4_mapped ip6 with
          | Some ip4 => put_u8 1 ++ ip4 ++ put_u16 (sa_port addr)
          | None => put_u8 4 ++ ip6 ++ put_u16 (sa_port addr)
          end
      end
  | _ => put_u8 1 ++ [x00; x00; x00; x00] ++ [x00; x00]
  end.

Definition Socks5Reply_send (self : Socks5Reply) : proc writer send_error unit :=
  write_message (Ok (Socks5Reply_buf self)).

(** ** SOCKS 4 and 4a *)

Record SocksV4aRequest : Type := {
  s4_command : SocksCommand;
  s4_upstream : UpstreamAddr;
  s4_user_id : bytes
}.

Definition USER_ID_MAX_LEN : Z := 512.
Definition DOMAIN_MAX_LEN : Z := 256.

Definition SocksV4aRequest_recv_domain (port : Z) : recv SocksRequestParseError UpstreamAddr :=
  let* '(found, nr, domain) := request_read (limited_read_until x00 (DOMAIN_MAX_LEN + 1) []) in
  if nr =? 0 then recv_fail ClientClosed
  else if nr =? 1 then request_invalid InvalidDomainString
  else if negb found || (DOMAIN_MAX_LEN <? nr) then request_invalid InvalidDomainString
  else
    let domain := take (Z.to_nat (nr - 1)) domain in
    let* domain := request_check (from_utf8 InvalidDomainString domain) in
    request_check (or_err InvalidDomainString (from_host_str_and_port to_ascii domain port)).

(** The address: a domain follows in place of an address [0.0.0.x]. *)
Definition SocksV4aRequest_recv_upstream (ip_bytes : bytes) (port : Z) : recv SocksRequestParseError UpstreamAddr :=
  match ip_bytes with
  | [x00; x00; x00; x00] => recv_ret (from_ip_and_port (V4 [x00; x00; x00; x00]) port)
  | [x00; x00; x00; _] => SocksV4aRequest_recv_domain port
  | _ => recv_ret (from_ip_and_port (V4 ip_bytes) port)
  end.

(** The version has been read already. *)
Definition SocksV4aRequest_recv : recv SocksRequestParseError SocksV4aRequest :=
  let* code := request_read read_u8 in
  let* command := request_check (SocksCommand_try_from code) in
  match command with
  | UdpAssociate => request_invalid InvalidCommand
  | _ =>
      let* port := request_read read_u16 in
      let* ip_bytes := request_read (read_exact 4) in
      let* '(found, nr, user_id_buf) := request_read (limited_read_until x00 (USER_ID_MAX_LEN + 1) []) in
      if nr =? 0 then recv_fail ClientClosed
      else if negb found || (USER_ID_MAX_LEN <? nr) then request_invalid InvalidUserIdString
      else
        let user_id_buf := take (Z.to_nat (nr - 1)) user_id_buf in
        let* user_id :=
          if len user_id_buf =? 0 then recv_ret []
          else request_check (from_utf8 InvalidUserIdString user_id_buf) in
        let* upstream := SocksV4aRequest_recv_upstream ip_bytes port in
        recv_ret {| s4_command := command; s4_upstream := upstream; s4_user_id := user_id |}
  end.

Definition SocksV4aRequest_buf (command : SocksCommand) (addr : UpstreamAddr) : res send_error bytes :=
  let head := put_u8 4 ++ put_u8 (SocksCommand_code command) ++ put_u16 (ups_port addr) in
  match ups_host addr with
  | Host_Ip (V4 ip4) => Ok (head ++ ip4 ++ put_u8 0)
  | Host_Ip (V6 _) => Err SendUnsupported
  | Host_Domain domain =>
      let? _ := DomainName_len_u8 domain in
      let? b := DomainName_as_bytes domain in
      Ok (head ++ [x00; x00; x00; x01] ++ put_u8 0 ++ b ++ put_u8 0)
  end.

Definition SocksV4aRequest_send (command : SocksCommand) (addr : UpstreamAddr) : proc writer send_error unit :=
  let* buf := recv_lift (SocksV4aRequest_buf command addr) in
  write_message (Ok buf).

Inductive SocksV4Reply : Type :=
| RequestGranted (addr : SocketAddr)
| RequestRejectedOrFailed
| ClientIdentDNotConnected
| UserIdNotMatch
| V4Unassigned (code : Z).

Definition SocksV4Reply_new (code : Z) (addr : SocketAddr) : SocksV4Reply :=
  match code with
  | 90 => RequestGranted addr
  | 91 => RequestRejectedOrFailed
  | 92 => ClientIdentDNotConnected
  | 93 => UserIdNotMatch
  | _ => V4Unassigned code
  end.

Definition SocksV4Reply_code (self : SocksV4Reply) : Z :=
  match self with
  | RequestGranted _ => 90
  | RequestRejectedOrFailed => 91
  | ClientIdentDNotConnected => 92
  | UserIdNotMatch => 93
  | V4Unassigned code => code
  end.

Definition SocksV4Reply_error_message (self : SocksV4Reply) : bytes :=
  match self with
  | RequestGranted _ => bs "request granted"
  | RequestRejectedOrFailed => bs "request rejected or failed"
  | ClientIdentDNotConnected =>
      bs "request rejected becasue SOCKS server cannot connect to identd on the client"
  | UserIdNotMatch =>
      bs "request rejected because the client program and identd report different user-ids"
  | V4Unassigned _ => bs "unassigned reply code"
  end.

Definition SocksV4Reply_recv : recv SocksReplyParseError SocksV4Reply :=
  let* buf := recv_io Reply_ReadFailed (read_exact 8) in
  let* version := recv_lift (index buf 0) in
  if negb (u8 version =? 0) then recv_fail (Reply_InvalidProtocol InvalidVersion)
  else
    let* code := recv_lift (index buf 1) in
    let* ip_bytes := recv_lift (slice buf 4 8) in
    let* hi := recv_lift (index buf 2) in
    let* lo := recv_lift (index buf 3) in
    let port := Z.shiftl (u8 hi) 8 + u8 lo in
    recv_ret (SocksV4Reply_new (u8 code) {| sa_ip := V4 ip_bytes; sa_port := port |}).

Definition SocksV4Reply_send (self : SocksV4Reply) : proc writer send_error unit :=
  write_message (Ok ([x00] ++ put_u8 (SocksV4Reply_code self) ++ [x00; x00; x00; x00; x00; x00])).

Definition request_granted : SocksV4Reply :=
  RequestGranted {| sa_ip := V4 [x00; x00; x00; x00]; sa_port := 0 |}.

End Socks.

(** ** What receivers and senders do *)

(** A sender on a writer that does not fail puts out exactly its message. *)
Definition sends (m : proc writer send_error unit) (msg : bytes) : Prop :=
  forall w, fair_writer w -> exists w', m w = (Ok tt, w') /\ fair_writer w' /\
    wr_out w' = wr_out w ++ msg /\ wr_flushed w' = len (wr_out w').

Lemma sends_message buf : sends (write_message (Ok buf)) buf.
Proof.
  intros w Hw. destruct (write_all_flush_fair buf w Hw) as (w' & Hr & ?). exists w'.
  unfold write_message, recv_io. by rewrite Hr.
Qed.

(** The parts of an upstream address that a message can carry: texts are UTF-8. *)
Definition addr_ok (to_ascii : bytes -> option bytes) (a : UpstreamAddr) : Prop :=
  0 <= ups_port a <= u16_max /\
  match ups_host a with
  | Host_Ip ip => ip_ok ip
  | Host_Domain d => exists name, plain_domain to_ascii d name /\ utf8_valid name = true
  end.

Lemma from_be_put_u16 v : 0 <= v <= u16_max -> from_be (put_u16 v) = v.
Proof. intros Hv. unfold put_u16. rewrite from_be_to_be. apply Z.mod_small. unfold u16_max in Hv. cbn. lia. Qed.

Lemma len_put_u16 v : len (put_u16 v) = 2.
Proof. done. Qed.

(** The fields of a message that a receiver reads. *)
Lemma request_u8 v : 0 <= v < 256 -> takes (request_read read_u8) ClientClosed [to_u8 v] v.
Proof.
  intros Hv. apply (takes_io _ _ UnexpectedEof); [done|]. pose proof (takes_read_u8 (to_u8 v)) as Hr. by rewrite u8_to_u8_small in Hr.
Qed.

Lemma request_u16 v : 0 <= v <= u16_max -> takes (request_read read_u16) ClientClosed (put_u16 v) v.
Proof.
  intros Hv. apply (takes_io _ _ UnexpectedEof); [done|]. pose proof (takes_read_u16 (put_u16 v) eq_refl) as Hr.
  by rewrite from_be_put_u16 in Hr.
Qed.

Lemma request_exact n a : len a = n -> takes (request_read (read_exact n)) ClientClosed a a.
Proof. intros Ha. apply (takes_io _ _ UnexpectedEof); [done|]. by apply takes_read_exact. Qed.

Lemma request_ok {A} (a : A) r : r = Ok a -> takes (request_check r) ClientClosed [] a.
Proof. intros ->. by apply takes_lift. Qed.

Section RoundTrips.

Context (to_ascii : bytes -> option bytes).

(** The accessors of a domain whose text can be sent. *)
Lemma plain_domain_parts {E} d name :
  plain_domain to_ascii d name ->
  DomainName_len_u8 (E := E) d = Ok (len name) /\ DomainName_as_bytes (E := E) d = Ok name /\
  1 <= len name <= 254 /\
  forall port, from_host_str_and_port to_ascii name port = Ok {| ups_host := Host_Domain d; ups_port := port |}.
Proof using.
  intros Hp. pose proof Hp as (Hd & Hne & _ & _ & _ & Hparse).
  apply DomainName_parse_ok in Hparse as (name' & Hd' & Hn). rewrite Hd in Hd'. apply app_inj_tail in Hd' as [<- _].
  split_and!; [by apply len_u8_ok|by apply as_bytes_ok| |exact Hn|].
  - destruct name; [done|]. len_lia.
  - intros port. destruct (Host_roundtrip to_ascii (Host_Domain d)) as (s & Hs & Hr); [by exists name|].
    cbn [Host_fmt] in Hs. rewrite (plain_domain_text to_ascii d name Hp) in Hs. injection Hs as <-.
    unfold from_host_str_and_port. by rewrite Hr.
Qed.

Lemma try_from_code c : SocksCommand_try_from (SocksCommand_code c) = Ok c.
Proof using. by destruct c. Qed.

Lemma code_range c : 0 <= SocksCommand_code c < 256.
Proof using. destruct c; cbn; lia. Qed.

(** The name of a domain, without the dot at its end. *)
Definition domain_text (d : DomainName) : bytes := take (length (dn_fqdn d) - 1) (dn_fqdn d).

Lemma domain_text_eq d name : dn_fqdn d = name ++ [DOT] -> domain_text d = name.
Proof using. intros Hd. unfold domain_text. rewrite Hd, take_app_length'; [done|]. rewrite length_app. cbn. lia. Qed.

(** An address in a message of SOCKS 5. *)
Definition socks5_addr (a : UpstreamAddr) : bytes :=
  match ups_host a with
  | Host_Ip (V4 o) => to_u8 1 :: o ++ put_u16 (ups_port a)
  | Host_Ip (V6 o) => to_u8 4 :: o ++ put_u16 (ups_port a)
  | Host_Domain d => to_u8 3 :: to_u8 (len (domain_text d)) :: domain_text d ++ put_u16 (ups_port a)
  end.

Lemma socks5_request_buf command a :
  addr_ok to_ascii a ->
  Socks5Request_buf command a = Ok (to_u8 5 :: to_u8 (SocksCommand_code command) :: to_u8 0 :: socks5_addr a).
Proof using.
  destruct a as [[[o|o]|d] port]; intros [_ Hh]; try done. destruct Hh as (name & Hd & _).
  destruct (plain_domain_parts (E := Empty_set) d name Hd) as (E1 & E2 & Hn & _). unfold Socks5Request_buf, socks5_addr.
  cbn [ups_host ups_port]. rewrite E1, E2, (domain_text_eq d name) by apply Hd. cbn [bind].
  by rewrite (slice_at [] name [] name) by (rewrite ?app_nil_r; done || len_lia).
Qed.

Lemma recv_upstream_ok a :
  addr_ok to_ascii a ->
  exists atyp body, socks5_addr a = to_u8 atyp :: body /\ 0 <= atyp < 256 /\
    takes (Socks5Request_recv_upstream to_ascii atyp) ClientClosed body a.
Proof using.
  destruct a as [[[o|o]|d] port]; intros [Hp Hh]; unfold socks5_addr; cbn [ups_host ups_port ip_ok] in *.
  - exists 1. eexists. split; [done|]. split; [lia|].
    eapply takes_bind; [apply request_exact; unfold len; by rewrite Hh|].
    eapply takes_last; [by apply request_u16|]. apply takes_ret.
  - exists 4. eexists. split; [done|]. split; [lia|].
    eapply takes_bind; [apply request_exact; unfold len; by rewrite Hh|].
    eapply takes_last; [by apply request_u16|]. apply takes_ret.
  - destruct Hh as (name & Hd & Hu). rewrite (domain_text_eq d name) by apply Hd.
    destruct (plain_domain_parts (E := Empty_set) d name Hd) as (_ & _ & Hn & Hf).
    exists 3. eexists. split; [done|]. split; [lia|].
    eapply (takes_bind _ _ _ [_]); [apply request_u8; lia|]. rewrite (proj2 (Z.eqb_neq _ _)) by lia.
    eapply takes_bind; [by apply request_exact|].
    eapply takes_check; [apply (request_ok name); unfold from_utf8; by rewrite Hu|].
    eapply takes_last; [by apply request_u16|]. apply request_ok. by rewrite Hf.
Qed.

Lemma socks5_request_recv command a :
  addr_ok to_ascii a ->
  takes (Socks5Request_recv to_ascii) ClientClosed
    (to_u8 5 :: to_u8 (SocksCommand_code command) :: to_u8 0 :: socks5_addr a)
    {| s5_command := command; s5_upstream := a |}.
Proof using.
  intros Ha. pose proof (code_range command). destruct (recv_upstream_ok a Ha) as (atyp & body & -> & Hat & Hr).
  eapply (takes_bind _ _ _ [_]); [apply request_u8; lia|]. cbn [negb Z.eqb Pos.eqb].
  eapply (takes_bind _ _ _ [_]); [apply request_u8; lia|].
  eapply takes_check; [apply request_ok, try_from_code|].
  eapply (takes_bind _ _ _ [_]); [apply request_u8; lia|]. eapply (takes_bind _ _ _ [_]); [apply request_u8; lia|].
  eapply takes_last; [exact Hr|]. apply takes_ret.
Qed.

(** *** SOCKS 4 and 4a *)

(** What SOCKS 4a can carry: an address [0.0.0.x] announces a domain, and a
    domain ends at a zero byte. *)
Definition v4a_ok (a : UpstreamAddr) : Prop :=
  match ups_host a with
  | Host_Ip (V4 o) => take 3 o = [x00; x00; x00] -> o = [x00; x00; x00; x00]
  | Host_Ip (V6 _) => False
  | Host_Domain d => x00 ∉ domain_text d
  end.

Definition socks4a_host (a : UpstreamAddr) : bytes :=
  match ups_host a with
  | Host_Ip (V4 o) | Host_Ip (V6 o) => o ++ [x00]
  | Host_Domain d => [x00; x00; x00; x01; x00] ++ domain_text d ++ [x00]
  end.

Lemma socks4a_request_buf command a :
  addr_ok to_ascii a -> v4a_ok a ->
  SocksV4aRequest_buf command a =
  Ok (to_u8 4 :: to_u8 (SocksCommand_code command) :: put_u16 (ups_port a) ++ socks4a_host a).
Proof using.
  destruct a as [[[o|o]|d] port]; intros [_ Hh] Hv; try done. destruct Hh as (name & Hd & _).
  destruct (plain_domain_parts (E := send_error) d name Hd) as (E1 & E2 & Hn & _).
  unfold SocksV4aRequest_buf, socks4a_host. cbn [ups_host ups_port].
  by rewrite E1, E2, (domain_text_eq d name) by apply Hd.
Qed.

Lemma request_until limit p s :
  x00 ∉ p -> len p < limit ->
  recvs (request_read (limited_read_until x00 limit [])) (p ++ x00 :: s) (Ok (true, len p + 1, p ++ [x00])) s.
Proof using. intros Hp Hl. exact (recvs_io _ _ _ _ _ (recvs_limited_read_until x00 limit [] p s Hp Hl)). Qed.

(** Any address but those that announce a domain. *)
Lemma v4a_recv_upstream_eq o port :
  SocksV4aRequest_recv_upstream to_ascii o port =
  if bool_decide (length o = 4%nat /\ take 3 o = [x00; x00; x00] /\ o <> [x00; x00; x00; x00])
  then SocksV4aRequest_recv_domain to_ascii port else recv_ret (from_ip_and_port (V4 o) port).
Proof using.
  destruct o as [|a [|b [|c [|d [|e o]]]]]; [..| |];
    try (rewrite bool_decide_eq_false_2 by (intros [Hx _]; cbn in Hx; lia); first [done|destruct a]; try done;
         first [done|destruct b]; try done; first [done|destruct c]; try done; by destruct d).
  destruct (decide ([a; b; c] = [x00; x00; x00])) as [[= -> -> ->]|Hne].
  - destruct (decide (d = x00)) as [->|Hd]; [by rewrite bool_decide_eq_false_2 by (intros (_ & _ & ?); done)|].
    rewrite bool_decide_eq_true_2 by (split_and!; try done; congruence). by destruct d.
  - rewrite bool_decide_eq_false_2 by (intros (_ & ? & _); done). destruct a; try done. destruct b; try done. by destruct c.
Qed.

Lemma v4a_recv_ip o port s :
  (take 3 o = [x00; x00; x00] -> o = [x00; x00; x00; x00]) ->
  recvs (SocksV4aRequest_recv_upstream to_ascii o port) s (Ok (from_ip_and_port (V4 o) port)) s.
Proof using.
  intros Hv. rewrite v4a_recv_upstream_eq, bool_decide_eq_false_2 by (intros (_ & ? & ?); auto). apply recvs_ret.
Qed.

Lemma v4a_recv_domain d name port s :
  plain_domain to_ascii d name -> utf8_valid name = true -> x00 ∉ name ->
  recvs (SocksV4aRequest_recv_upstream to_ascii [x00; x00; x00; x01] port) (name ++ x00 :: s)
    (Ok {| ups_host := Host_Domain d; ups_port := port |}) s.
Proof using.
  intros Hp Hu H0. destruct (plain_domain_parts (E := Empty_set) d name Hp) as (_ & _ & Hn & Hf).
  eapply recvs_bind; [apply request_until; [done|unfold DOMAIN_MAX_LEN; lia]|]. cbv beta iota.
  rewrite !(proj2 (Z.eqb_neq _ _)) by lia. unfold DOMAIN_MAX_LEN.
  rewrite (proj2 (Z.ltb_ge _ _)) by lia. cbn [negb orb].
  rewrite take_app_length' by (unfold len; lia).
  assert (from_utf8 InvalidDomainString name = Ok name) as Hu' by (unfold from_utf8; by rewrite Hu).
  eapply recvs_bind; [apply (request_ok _ _ Hu')|]. rewrite Hf. apply (request_ok _ _ eq_refl).
Qed.

Lemma socks4a_request_recv command a s :
  addr_ok to_ascii a -> v4a_ok a -> command <> UdpAssociate ->
  recvs (SocksV4aRequest_recv to_ascii)
    (to_u8 (SocksCommand_code command) :: (put_u16 (ups_port a) ++ socks4a_host a) ++ s)
    (Ok {| s4_command := command; s4_upstream := a; s4_user_id := [] |}) s.
Proof using.
  intros [Hp Hh] Hv Hc. pose proof (code_range command). unfold SocksV4aRequest_recv. rewrite <- app_assoc.
  eapply recvs_bind; [apply (proj1 (request_u8 _ (code_range command)) (put_u16 (ups_port a) ++ socks4a_host a ++ s))|].
  eapply recvs_bind; [apply (proj1 (request_ok _ _ (try_from_code command)))|].
  assert (exists o rest, len o = 4 /\ socks4a_host a ++ s = o ++ [] ++ x00 :: rest /\
    recvs (SocksV4aRequest_recv_upstream to_ascii o (ups_port a)) rest (Ok a) s) as (o & rest & Ho & -> & Hr).
  { destruct a as [[[o|o]|d] port]; unfold socks4a_host, v4a_ok in *; cbn [ups_host ups_port ip_ok] in *; [|done|].
    - exists o, s. rewrite <- app_assoc. split_and!; [unfold len; by rewrite Hh|done|]. by apply v4a_recv_ip.
    - destruct Hh as (name & Hd & Hu). rewrite (domain_text_eq d name) in * by apply Hd.
      exists [x00; x00; x00; x01], (name ++ x00 :: s). split_and!; [done|by rewrite <- !app_assoc|].
      by apply v4a_recv_domain. }
  destruct command; [..|done];
  (eapply recvs_bind; [by apply request_u16|]; eapply recvs_bind; [apply (request_exact 4 o Ho)|];
   eapply recvs_bind; [apply request_until; [apply not_elem_of_nil|done]|]; cbn [len];
   eapply recvs_bind; [apply recvs_ret|]; eapply recvs_bind; [exact Hr|]; apply recvs_ret).
Qed.

End RoundTrips.

(** *** Replies *)

(** A reply that has a code of its own, with an address that exists. *)
Definition reply_ok (r : Socks5Reply) : Prop :=
  match r with
  | Succeeded addr => sa_ok addr
  | Unassigned n => 9 <= n < 256
  | _ => True
  end.

(** The address as it is sent: the V4 address that a V6 address maps. *)
Definition addr_normal (a : SocketAddr) : SocketAddr :=
  match sa_ip a with
  | V6 o => match to_ipv4_mapped o with Some o4 => {| sa_ip := V4 o4; sa_port := sa_port a |} | None => a end
  | V4 _ => a
  end.

Definition reply_normal (r : Socks5Reply) : Socks5Reply :=
  match r with Succeeded addr => Succeeded (addr_normal addr) | _ => r end.

Lemma reply_code_range r : reply_ok r -> 0 <= Socks5Reply_code r < 256.
Proof. destruct r; cbn; lia. Qed.

Lemma reply_new_code r addr :
  reply_ok r -> Socks5Reply_new (Socks5Reply_code r) addr = match r with Succeeded _ => Succeeded addr | _ => r end.
Proof.
  destruct r; try done. cbn [reply_ok Socks5Reply_code]. intros Hn.
  unfold Socks5Reply_new. repeat case_match; done || lia.
Qed.

Lemma addr_of_bytes_ok ip n o port :
  len o = n -> 0 <= port <= u16_max ->
  addr_of_bytes ip n (o ++ put_u16 port) = Ok {| sa_ip := ip o; sa_port := port |}.
Proof.
  intros <- Hp. unfold addr_of_bytes. rewrite (slice_at [] o (put_u16 port)) by (done || len_lia). cbn [bind].
  rewrite (slice_at o (put_u16 port) []) by (rewrite ?app_nil_r, ?len_put_u16; done). cbn [bind].
  by rewrite from_be_put_u16.
Qed.

(** A reply with an address of [n] bytes. *)
Lemma socks5_reply_recv_addr code atyp ip n o port :
  0 <= code < 256 -> 0 <= port <= u16_max -> len o = n ->
  (atyp = 1 /\ ip = V4 /\ n = 4 \/ atyp = 4 /\ ip = V6 /\ n = 16) ->
  takes Socks5Reply_recv (Reply_ReadFailed UnexpectedEof)
    (to_u8 5 :: to_u8 code :: to_u8 0 :: to_u8 atyp :: o ++ put_u16 port)
    (Socks5Reply_new code {| sa_ip := ip o; sa_port := port |}).
Proof.
  intros Hc Hp Hn Hat. unfold Socks5Reply_recv.
  apply (takes_bind _ _ _ [to_u8 5; to_u8 code; to_u8 0; to_u8 atyp] _ [to_u8 5; to_u8 code; to_u8 0; to_u8 atyp]).
  { apply (takes_io _ _ UnexpectedEof); [done|]. by apply takes_read_exact. }
  eapply takes_check; [by apply takes_lift|]. cbn [u8 negb Z.eqb Pos.eqb].
  eapply takes_check; [by apply takes_lift|]. eapply takes_check; [by apply takes_lift|].
  eapply takes_check; [by apply takes_lift|].
  rewrite (u8_to_u8_small atyp), (u8_to_u8_small code) by lia. eapply takes_last; [|apply takes_ret].
  assert (len (o ++ put_u16 port) = n + 2) by (rewrite len_app, len_put_u16; lia).
  destruct Hat as [(-> & -> & ->)|(-> & -> & ->)]; cbn [Z.eqb Pos.eqb];
    (eapply takes_last; [apply (takes_io _ _ UnexpectedEof); [done|by apply takes_read_exact]|]);
    apply takes_lift; by apply addr_of_bytes_ok.
Qed.

Lemma socks5_reply_recv r :
  reply_ok r -> takes Socks5Reply_recv (Reply_ReadFailed UnexpectedEof) (Socks5Reply_buf r) (reply_normal r).
Proof.
  intros Hr. pose proof (reply_code_range r Hr) as Hc.
  assert (exists atyp ip n o port, Socks5Reply_buf r =
      to_u8 5 :: to_u8 (Socks5Reply_code r) :: to_u8 0 :: to_u8 atyp :: o ++ put_u16 port /\
      0 <= port <= u16_max /\ len o = n /\ (atyp = 1 /\ ip = V4 /\ n = 4 \/ atyp = 4 /\ ip = V6 /\ n = 16) /\
      reply_normal r = Socks5Reply_new (Socks5Reply_code r) {| sa_ip := ip o; sa_port := port |})
    as (atyp & ip & n & o & port & -> & Hp & Hn & Hat & ->); [|by apply (socks5_reply_recv_addr _ _ _ n)].
  destruct r as [[ip port]| | | | | | | | |k].
  { destruct Hr as [Hip Hp]. cbn [sa_ip sa_port reply_normal Socks5Reply_buf Socks5Reply_code] in *.
    unfold addr_normal, Socks5Reply_buf. cbn [sa_ip sa_port]. destruct ip as [o|o].
    - exists 1, V4, 4, o, port. split_and!; try done; try lia; [unfold len; by rewrite Hip|tauto].
    - unfold to_ipv4_mapped. case_bool_decide.
      + exists 1, V4, 4, (drop 12 o), port. split_and!; try done; try lia; [unfold len; rewrite length_drop, Hip; lia|tauto].
      + exists 4, V6, 16, o, port. split_and!; try done; try lia; [unfold len; by rewrite Hip|tauto]. }
  all: exists 1, V4, 4, [x00; x00; x00; x00], 0; rewrite reply_new_code by done; split_and!; done || tauto.
Qed.

(** *** Replies of SOCKS 4 *)

Definition v4_reply_ok (r : SocksV4Reply) : Prop :=
  match r with V4Unassigned n => 0 <= n < 256 /\ (n < 90 \/ 93 < n) | _ => True end.

(** The address is not sent. *)
Definition v4_reply_normal (r : SocksV4Reply) : SocksV4Reply :=
  match r with RequestGranted _ => request_granted | _ => r end.

Lemma socks4_reply_recv r :
  v4_reply_ok r ->
  takes SocksV4Reply_recv (Reply_ReadFailed UnexpectedEof)
    ([x00] ++ put_u8 (SocksV4Reply_code r) ++ [x00; x00; x00; x00; x00; x00]) (v4_reply_normal r).
Proof.
  intros Hr. assert (0 <= SocksV4Reply_code r < 256) as Hc by (destruct r; cbn in *; lia).
  eapply takes_last; [apply (takes_io _ _ UnexpectedEof); [done|by apply takes_read_exact]|].
  eapply takes_check; [by apply takes_lift|]. cbn [negb Z.eqb u8].
  eapply takes_check; [by apply takes_lift|]. eapply takes_check; [by apply takes_lift|].
  eapply takes_check; [by apply takes_lift|]. eapply takes_check; [by apply takes_lift|].
  rewrite u8_to_u8_small by done.
  replace (v4_reply_normal r) with (SocksV4Reply_new (SocksV4Reply_code r) {| sa_ip := V4 [x00; x00; x00; x00]; sa_port := 0 |});
    [apply takes_ret|].
  destruct r; try done. cbn [SocksV4Reply_code v4_reply_normal]. cbn in Hr. unfold SocksV4Reply_new.
  repeat case_match; done || lia.
Qed.


(** ** Any stream *)

Section Safety.

Context (to_ascii : bytes -> option bytes).

Abbreviation any := (fun _ => True).

Lemma request_safe {A} (m : recv io_error A) Q : recv_safe m Q -> recv_safe (request_read m) Q.
Proof. apply safe_io. Qed.

Lemma check_safe {A} (r : res SocksNegotiationError A) : r <> Panic -> recv_safe (request_check r) any.
Proof. intros Hr. apply safe_lift. by destruct r. Qed.

Lemma invalid_safe {A} e : recv_safe (request_invalid (A := A) e) any.
Proof. apply safe_fail. Qed.

Lemma host_safe e s port :
  or_err (E := SocksNegotiationError) e (from_host_str_and_port to_ascii s port) <> Panic.
Proof. pose proof (host_port_no_panic to_ascii s port). unfold or_err. by destruct (from_host_str_and_port _ _ _). Qed.

Lemma command_safe c : SocksCommand_try_from c <> Panic.
Proof. unfold SocksCommand_try_from. by repeat case_match. Qed.

Create HintDb socks.
Hint Resolve check_safe invalid_safe from_utf8_safe host_safe command_safe safe_fail safe_limited_read_until : socks.
Hint Resolve safe_read_u8 safe_read_u16 : socks.

Lemma recv_upstream_safe atyp : recv_safe (Socks5Request_recv_upstream to_ascii atyp) any.
Proof.
  unfold Socks5Request_recv_upstream.
  destruct (_ =? 1); [|destruct (_ =? 3); [|destruct (_ =? 4); [|eauto with socks]]].
  - eapply safe_bind; [apply request_safe, safe_read_exact; lia|]. intros o Ho.
    eapply safe_bind; [apply request_safe, safe_read_u16|]. intros port Hp. by apply safe_ret.
  - eapply safe_bind; [apply request_safe, safe_read_u8|]. intros n Hn. cbn in Hn. destruct (n =? 0); [eauto with socks|].
    eapply safe_bind; [apply request_safe, safe_read_exact; lia|]. intros domain _.
    eapply safe_bind; [eauto with socks|]. intros name _.
    eapply safe_bind; [apply request_safe, safe_read_u16|]. eauto with socks.
  - eapply safe_bind; [apply request_safe, safe_read_exact; lia|]. intros o Ho.
    eapply safe_bind; [apply request_safe, safe_read_u16|]. intros port Hp. by apply safe_ret.
Qed.

Lemma socks5_request_safe : recv_safe (Socks5Request_recv to_ascii) any.
Proof.
  eapply safe_bind; [apply request_safe, safe_read_u8|]. intros v _. destruct (negb _); [eauto with socks|].
  eapply safe_bind; [apply request_safe, safe_read_u8|]. intros c _. eapply safe_bind; [eauto with socks|]. intros command _.
  eapply safe_bind; [apply request_safe, safe_read_u8|]. intros _ _.
  eapply safe_bind; [apply request_safe, safe_read_u8|]. intros atyp _.
  eapply safe_bind; [apply recv_upstream_safe|]. intros a _. by apply safe_ret.
Qed.

Lemma v4a_upstream_safe o port : recv_safe (SocksV4aRequest_recv_upstream to_ascii o port) any.
Proof.
  rewrite v4a_recv_upstream_eq. case_bool_decide; [|by apply safe_ret].
  eapply safe_bind; [apply request_safe, safe_limited_read_until|]. intros [[found nr] domain] _.
  destruct (nr =? 0); [eauto with socks|]. destruct (nr =? 1); [eauto with socks|].
  destruct (_ || _); [eauto with socks|]. eapply safe_bind; eauto with socks.
Qed.

Lemma socks4a_request_safe : recv_safe (SocksV4aRequest_recv to_ascii) any.
Proof.
  eapply safe_bind; [apply request_safe, safe_read_u8|]. intros c _. eapply safe_bind; [eauto with socks|]. intros command _.
  destruct command; [..|eauto with socks];
  (eapply safe_bind; [apply request_safe, safe_read_u16|]; intros port _;
   eapply safe_bind; [apply request_safe, safe_read_exact; lia|]; intros o _;
   eapply safe_bind; [apply request_safe, safe_limited_read_until|]; intros [[found nr] user_id] _;
   destruct (nr =? 0); [eauto with socks|]; destruct (_ || _); [eauto with socks|];
   eapply (safe_bind _ _ any); [destruct (len _ =? 0); [by apply safe_ret|eauto with socks]|]; intros uid _;
   eapply safe_bind; [apply v4a_upstream_safe|]; intros a _; by apply safe_ret).
Qed.

(** An element and a part of a buffer that is long enough. *)
Lemma index_safe (b : bytes) i : 0 <= i < len b -> recv_safe (E := SocksReplyParseError) (recv_lift (index b i)) any.
Proof.
  intros Hi. apply safe_lift. destruct (lookup_lt_is_Some_2 b (Z.to_nat i)) as [x Hx]; [unfold len in Hi; lia|].
  by rewrite (index_ok b i x) by (done || lia).
Qed.

Lemma addr_of_bytes_safe ip n b : 0 <= n -> len b = n + 2 -> recv_safe (recv_lift (addr_of_bytes ip n b)) any.
Proof. intros Hn Hb. apply safe_lift. unfold addr_of_bytes. by rewrite !slice_ok by lia. Qed.

Lemma socks5_reply_safe : recv_safe Socks5Reply_recv any.
Proof.
  eapply safe_bind; [apply safe_io, safe_read_exact; lia|]. intros b Hb. cbn in Hb.
  eapply safe_bind; [apply index_safe; lia|]. intros v _. destruct (negb _); [apply safe_fail|].
  do 3 (eapply safe_bind; [apply index_safe; lia|]; intros ? _). eapply (safe_bind _ _ any); [|intros; by apply safe_ret].
  repeat (destruct (_ =? _); [try apply safe_fail|]); try apply safe_fail;
    (eapply safe_bind; [apply safe_io, safe_read_exact; lia|]); intros l Hl; cbn in Hl; apply addr_of_bytes_safe; lia.
Qed.

Lemma socks4_reply_safe : recv_safe SocksV4Reply_recv any.
Proof.
  eapply safe_bind; [apply safe_io, safe_read_exact; lia|]. intros b Hb. cbn in Hb.
  eapply safe_bind; [apply index_safe; lia|]. intros v _. destruct (negb _); [apply safe_fail|].
  eapply safe_bind; [apply index_safe; lia|]. intros c _.
  eapply (safe_bind _ _ any); [apply safe_lift; by rewrite slice_ok by lia|]. intros o _.
  do 2 (eapply safe_bind; [apply index_safe; lia|]; intros ? _). by apply safe_ret.
Qed.

End Safety.

(** ** Properties *)

(** A SOCKS 5 request is sent in full and flushed, and what was sent is
    received as the request with the same command and address, however the
    bytes arrive, and nothing after it is read; when the client closes the
    connection anywhere inside the message, [ClientClosed] is reported. *)
Theorem socks5_request_roundtrip (to_ascii : bytes -> option bytes) (command : SocksCommand) (a : UpstreamAddr) :
  addr_ok to_ascii a ->
  exists msg, sends (Socks5Request_send command a) msg /\
    takes (Socks5Request_recv to_ascii) ClientClosed msg {| s5_command := command; s5_upstream := a |}.
Proof.
  intros Ha. eexists. split; [|by apply socks5_request_recv].
  unfold Socks5Request_send. rewrite (socks5_request_buf to_ascii) by done. apply sends_message.
Qed.

(** A SOCKS 4a request for an IPv4 address or a domain is received as it was
    sent, with an empty user id, however the bytes arrive; the exceptions are
    addresses [0.0.0.x], which announce a domain, and domains with a zero byte.
    For an IPv6 address nothing is sent and the sender reports that it is not
    supported. *)
Theorem socks4a_request_roundtrip (to_ascii : bytes -> option bytes) (command : SocksCommand) (a : UpstreamAddr) :
  addr_ok to_ascii a -> command <> UdpAssociate ->
  (v4a_ok a ->
     exists msg, sends (SocksV4aRequest_send command a) (to_u8 (SocksVersion_code SocksV4a) :: msg) /\
       forall s, recvs (SocksV4aRequest_recv to_ascii) (msg ++ s)
         (Ok {| s4_command := command; s4_upstream := a; s4_user_id := [] |}) s) /\
  (forall o w, ups_host a = Host_Ip (V6 o) -> SocksV4aRequest_send command a w = (Err SendUnsupported, w)).
Proof.
  intros Ha Hc. split.
  - intros Hv. exists (to_u8 (SocksCommand_code command) :: put_u16 (ups_port a) ++ socks4a_host a).
    split; [|intros s; by apply (socks4a_request_recv to_ascii)].
    unfold SocksV4aRequest_send. rewrite (socks4a_request_buf to_ascii) by done. apply sends_message.
  - intros o w Ho. unfold SocksV4aRequest_send, SocksV4aRequest_buf. by rewrite Ho.
Qed.

(** Every reply that has a code of its own is received as it was sent: in
    SOCKS 5 with its address (an IPv6 address that maps an IPv4 address as that
    one), in SOCKS 4 without it.  A reply that ends early is a failed read. *)
Theorem socks_reply_roundtrip (r5 : Socks5Reply) (r4 : SocksV4Reply) :
  reply_ok r5 -> v4_reply_ok r4 ->
  (exists msg, sends (Socks5Reply_send r5) msg /\
     takes Socks5Reply_recv (Reply_ReadFailed UnexpectedEof) msg (reply_normal r5)) /\
  (exists msg, sends (SocksV4Reply_send r4) msg /\
     takes SocksV4Reply_recv (Reply_ReadFailed UnexpectedEof) msg (v4_reply_normal r4)).
Proof.
  intros H5 H4. split; eexists; (split; [apply sends_message|]); [by apply socks5_reply_recv|by apply socks4_reply_recv].
Qed.

(** No peer can make a receiver of SOCKS messages panic: whatever bytes
    arrive, in whatever parts, with errors or the end of the stream anywhere,
    every receiver returns a message or an error. *)
Theorem socks_receivers_never_panic (to_ascii : bytes -> option bytes) (rd : reader) :
  (Socks5Request_recv to_ascii rd).1 <> Panic /\ (SocksV4aRequest_recv to_ascii rd).1 <> Panic /\
  (Socks5Reply_recv rd).1 <> Panic /\ (SocksV4Reply_recv rd).1 <> Panic.
Proof.
  pose proof (socks5_request_safe to_ascii rd). pose proof (socks4a_request_safe to_ascii rd).
  pose proof (socks5_reply_safe rd). pose proof (socks4_reply_safe rd). split_and!; intros E; rewrite E in *; done.
Qed.

(** ** Witnesses *)

Module Sample.

Definition domain_addr : UpstreamAddr :=
  {| ups_host := Host_Domain {| dn_fqdn := bs "example.net." |}; ups_port := 443 |}.

Lemma domain_addr_ok : addr_ok Some domain_addr.
Proof.
  split; [split; apply Z.leb_le; reflexivity|]. exists (bs "example.net"). split; [|reflexivity].
  split_and!; try reflexivity; try discriminate. apply not_in_by_decide. reflexivity.
Defined.

Lemma socks5_request_roundtrip_witness :
  exists msg, sends (Socks5Request_send TcpConnect domain_addr) msg /\
    takes (Socks5Request_recv Some) ClientClosed msg {| s5_command := TcpConnect; s5_upstream := domain_addr |}.
Proof. apply (socks5_request_roundtrip Some TcpConnect domain_addr). exact domain_addr_ok. Defined.

Lemma socks4a_request_roundtrip_witness :
  exists msg, sends (SocksV4aRequest_send TcpConnect domain_addr) (to_u8 4 :: msg) /\
    forall s, recvs (SocksV4aRequest_recv Some) (msg ++ s)
      (Ok {| s4_command := TcpConnect; s4_upstream := domain_addr; s4_user_id := [] |}) s.
Proof.
  refine (proj1 (socks4a_request_roundtrip Some TcpConnect domain_addr domain_addr_ok _) _); [discriminate|].
  apply not_in_by_decide. reflexivity.
Defined.

Lemma socks_reply_roundtrip_witness :
  exists msg, sends (Socks5Reply_send (Succeeded {| sa_ip := V6 (mapped_prefix ++ [x7f; x00; x00; x01]); sa_port := 80 |})) msg /\
    takes Socks5Reply_recv (Reply_ReadFailed UnexpectedEof) msg
      (Succeeded {| sa_ip := V4 [x7f; x00; x00; x01]; sa_port := 80 |}).
Proof.
  refine (proj1 (socks_reply_roundtrip (Succeeded {| sa_ip := V6 (mapped_prefix ++ [x7f; x00; x00; x01]); sa_port := 80 |})
    request_granted _ I)).
  split; [reflexivity|]. split; apply Z.leb_le; reflexivity.
Defined.

End Sample.
