(* ===== verification/SocksAuth.v ===== *)
(** Authentication in SOCKS 5 and the clients: [lib/vey-socks/src/types/auth.rs],
    [lib/vey-socks/src/v5/auth.rs], [lib/vey-socks/src/v5/client.rs],
    [lib/vey-socks/src/v4a/client.rs], with the user names and passwords of
    [lib/vey-types/src/auth/user.rs] and [lib/vey-types/src/net/socks/auth.rs].

    The client logs in through a [BufReader] that it then drops: what the reader
    had buffered is lost.  The model keeps the buffer and the transport apart, so
    that the connection is shown to survive it. *)

From Stdlib Require Import ZArith Lia Strings.Byte Sorting.Sorted.
From stdpp Require Import base list.
From S2P Require Import Prelude Text Reader AsyncIo ReadExt Domain IpAddr Host Socks.

Local Open Scope recv_scope.

(** ** Users *)

Record Username : Type := { un_inner : bytes }.
Record Password : Type := { pw_inner : bytes }.

Definition USERNAME_MAX_LENGTH : Z := 255.
Definition PASSWORD_MAX_LENGTH : Z := 255.

Inductive UserInfoError : Type :=
| EmptyUsername
| UsernameTooLong
| ControlCharacter
| ColonCharacter
| PasswordTooLong.

Definition Username_len (self : Username) : Z := len (un_inner self) mod 256.
Definition Password_len (self : Password) : Z := len (pw_inner self) mod 256.

(** The loop over the characters. *)
Fixpoint check_username (cs : list Z) : res UserInfoError unit :=
  match cs with
  | [] => Ok tt
  | c :: cs =>
      if is_control c then Err ControlCharacter
      else if c =? 58 then Err ColonCharacter
      else check_username cs
  end.

Definition Username_from_original (s : bytes) : res UserInfoError Username :=
  if len s =? 0 then Err EmptyUsername
  else if USERNAME_MAX_LENGTH <? len s then Err UsernameTooLong
  else
    let? _ := check_username (chars s) in
    Ok {| un_inner := s |}.

Definition Password_from_original (s : bytes) : res UserInfoError Password :=
  if PASSWORD_MAX_LENGTH <? len s then Err PasswordTooLong
  else Ok {| pw_inner := s |}.

Inductive SocksAuth : Type :=
| Auth_None
| Auth_User (username : Username) (password : Password).

Definition SocksAuth_code (self : SocksAuth) : Z :=
  match self with Auth_None => 0 | Auth_User _ _ => 2 end.

(** ** Methods *)

Inductive SocksAuthMethod : Type :=
| Method_None
| Method_GssApi
| Method_User
| Method_Chap
| Method_OtherAssigned (v : Z)
| Method_Private (v : Z)
| Method_NoAcceptable.

Definition SocksAuthMethod_code (self : SocksAuthMethod) : Z :=
  match self with
  | Method_None => 0
  | Method_GssApi => 1
  | Method_User => 2
  | Method_Chap => 3
  | Method_OtherAssigned v => v
  | Method_Private v => v
  | Method_NoAcceptable => 255
  end.

Definition SocksAuthMethod_from (method : Z) : SocksAuthMethod :=
  match method with
  | 0 => Method_None
  | 1 => Method_GssApi
  | 2 => Method_User
  | 3 => Method_Chap
  | v => if v <=? 0x7f then Method_OtherAssigned v else if v <? 0xff then Method_Private v else Method_NoAcceptable
  end.

(** The derived [Ord]: the order of the variants, then of their fields. *)
Definition method_key (m : SocksAuthMethod) : Z * Z :=
  match m with
  | Method_None => (0, 0)
  | Method_GssApi => (1, 0)
  | Method_User => (2, 0)
  | Method_Chap => (3, 0)
  | Method_OtherAssigned v => (4, v)
  | Method_Private v => (5, v)
  | Method_NoAcceptable => (6, 0)
  end.

Definition method_ltb (a b : SocksAuthMethod) : bool :=
  let '(ka, va) := method_key a in
  let '(kb, vb) := method_key b in
  (ka <? kb) || (ka =? kb) && (va <? vb).

(** [BTreeSet::insert]. *)
Fixpoint set_insert (m : SocksAuthMethod) (l : list SocksAuthMethod) : list SocksAuthMethod :=
  match l with
  | [] => [m]
  | x :: l' => if method_ltb m x then m :: l else if method_ltb x m then x :: set_insert m l' else l
  end.

Fixpoint recv_methods (count : nat) (methods : list SocksAuthMethod)
  : recv SocksRequestParseError (list SocksAuthMethod) :=
  match count with
  | O => recv_ret methods
  | S count =>
      let* method := request_read read_u8 in
      match SocksAuthMethod_from method with
      | Method_NoAcceptable => request_invalid InvalidAuthMethod
      | method => recv_methods count (set_insert method methods)
      end
  end.

Definition recv_methods_from_client : recv SocksRequestParseError (list SocksAuthMethod) :=
  let* count := request_read read_u8 in
  if count =? 0 then request_invalid NoAuthMethod
  else recv_methods (Z.to_nat count) [].

Definition send_method_to_client (method : SocksAuthMethod) : proc writer send_error unit :=
  write_message (Ok ([x05] ++ put_u8 (SocksAuthMethod_code method))).

Definition methods_message (auth : SocksAuth) : bytes :=
  match auth with
  | Auth_None => [x05; x01; x00]
  | _ => [x05; x02] ++ put_u8 (SocksAuth_code auth) ++ [x00]
  end.

Definition send_methods_to_remote (auth : SocksAuth) : proc writer send_error unit :=
  let* _ := recv_io SendFailed (fun w => write_all w (methods_message auth)) in
  recv_io SendFailed flush.

(** ** Users on the server *)

Definition or_invalid_user {E A} (r : res E A) : recv SocksRequestParseError A :=
  request_check (or_err InvalidUserAuthMsg r).

Definition recv_user_from_client : recv SocksRequestParseError (Username * Password) :=
  let* ver := request_read read_u8 in
  if negb (ver =? 1) then request_invalid InvalidUserAuthMsg
  else
    let* ul := request_read read_u8 in
    if ul =? 0 then request_invalid InvalidUserAuthMsg
    else
      let* buf := request_read (read_exact ul) in
      let* username := request_check (from_utf8 InvalidUserAuthMsg buf) in
      let* username := or_invalid_user (Username_from_original username) in
      let* pl := request_read read_u8 in
      if pl =? 0 then request_invalid InvalidUserAuthMsg
      else
        let* buf := request_read (read_exact pl) in
        let* password := request_check (from_utf8 InvalidUserAuthMsg buf) in
        let* password := or_invalid_user (Password_from_original password) in
        recv_ret (username, password).

Definition send_user_auth_success : proc writer send_error unit := write_message (Ok [x01; x00]).
Definition send_user_auth_failure : proc writer send_error unit := write_message (Ok [x01; x01]).

(** ** The client *)

Record tcp_stream : Type := {
  ts_reader : reader;
  ts_writer : writer
}.

(** [BufReader::new(stream)]: the stream and what has been read ahead. *)
Record buf_stream : Type := {
  bs_stream : tcp_stream;
  bs_buf : bytes
}.

Definition DEFAULT_BUF_SIZE : Z := 8192.

Definition on_reader {E A} (m : proc reader E A) : proc tcp_stream E A := fun st =>
  let (r, rd) := m (ts_reader st) in (r, {| ts_reader := rd; ts_writer := ts_writer st |}).

Definition on_writer {E A} (m : proc writer E A) : proc tcp_stream E A := fun st =>
  let (r, w) := m (ts_writer st) in (r, {| ts_reader := ts_reader st; ts_writer := w |}).

(** Writes go through. *)
Definition on_inner {E A} (m : proc tcp_stream E A) : proc buf_stream E A := fun bs =>
  let (r, st) := m (bs_stream bs) in (r, {| bs_stream := st; bs_buf := bs_buf bs |}).

(** [read_u8] through the buffer, which is filled when it is empty. *)
Definition buffered_read_u8 : proc buf_stream io_error Z := fun bs =>
  match bs_buf bs with
  | c :: l => (Ok (u8 c), {| bs_stream := bs_stream bs; bs_buf := l |})
  | [] =>
      let (r, rd) := read_await (ts_reader (bs_stream bs)) DEFAULT_BUF_SIZE in
      let st := {| ts_reader := rd; ts_writer := ts_writer (bs_stream bs) |} in
      match r with
      | Ok [] => (Err UnexpectedEof, {| bs_stream := st; bs_buf := [] |})
      | Ok (c :: l) => (Ok (u8 c), {| bs_stream := st; bs_buf := l |})
      | Err e => (Err e, {| bs_stream := st; bs_buf := [] |})
      | Panic => (Panic, {| bs_stream := st; bs_buf := [] |})
      end
  end.

Definition connect_u8 : proc buf_stream SocksConnectError Z := recv_io Connect_ReadFailed buffered_read_u8.

Definition recv_method_from_remote : proc buf_stream SocksConnectError SocksAuthMethod :=
  let* version := connect_u8 in
  if negb (version =? 5) then recv_fail (Connect_InvalidProtocol InvalidVersion)
  else
    let* code := connect_u8 in
    recv_ret (SocksAuthMethod_from code).

Definition send_and_recv_method (auth : SocksAuth) : proc buf_stream SocksConnectError SocksAuthMethod :=
  let* _ := recv_io Connect_WriteFailed (on_inner (on_writer (send_methods_to_remote auth))) in
  recv_method_from_remote.

Definition user_message (username : Username) (password : Password) : bytes :=
  put_u8 1 ++ put_u8 (Username_len username) ++ un_inner username ++ put_u8 (Password_len password) ++ pw_inner password.

Definition proceed_with_user (username : Username) (password : Password) : proc buf_stream SocksConnectError unit :=
  let* _ := recv_io Connect_WriteFailed (on_inner (on_writer (write_message (Ok (user_message username password))))) in
  let* version := connect_u8 in
  if negb (version =? 1) then recv_fail UnsupportedAuthVersion
  else
    let* status := connect_u8 in
    if negb (status =? 0) then recv_fail AuthFailed else recv_ret tt.

(** The buffer is dropped with the [BufReader]. *)
Definition socks5_login (auth : SocksAuth) : proc tcp_stream SocksConnectError unit := fun st =>
  let login : proc buf_stream SocksConnectError unit :=
    let* auth_method := send_and_recv_method auth in
    match auth_method with
    | Method_None => recv_ret tt
    | Method_User =>
        match auth with
        | Auth_User username password => proceed_with_user username password
        | Auth_None => recv_fail NoAuthMethodAvailable
        end
    | _ => recv_fail NoAuthMethodAvailable
    end in
  let (r, bs) := login {| bs_stream := st; bs_buf := [] |} in
  (r, bs_stream bs).

Definition request_failed (message : bytes) : SocksConnectError := RequestFailed (bs "request failed: " ++ message).

Definition socks5_request (command : SocksCommand) (addr : UpstreamAddr) : proc tcp_stream SocksConnectError SocketAddr :=
  let* _ := recv_io Connect_WriteFailed (on_writer (Socks5Request_send command addr)) in
  let* rsp := recv_io SocksConnectError_from_reply (on_reader Socks5Reply_recv) in
  match rsp with
  | Succeeded addr => recv_ret addr
  | _ => recv_fail (request_failed (Socks5Reply_error_message rsp))
  end.

Definition socks5_connect_to (auth : SocksAuth) (addr : UpstreamAddr) : proc tcp_stream SocksConnectError SocketAddr :=
  let* _ := socks5_login auth in
  socks5_request TcpConnect addr.

Definition socks5_udp_associate (auth : SocksAuth) (local_udp_addr : SocketAddr)
  : proc tcp_stream SocksConnectError SocketAddr :=
  let* _ := socks5_login auth in
  let addr := from_ip_and_port (sa_ip local_udp_addr) (sa_port local_udp_addr) in
  socks5_request UdpAssociate addr.

Definition socks4a_connect_to (addr : UpstreamAddr) : proc tcp_stream SocksConnectError unit :=
  let* _ := recv_io Connect_WriteFailed (on_writer (SocksV4aRequest_send TcpConnect addr)) in
  let* rsp := recv_io SocksConnectError_from_reply (on_reader SocksV4Reply_recv) in
  match rsp with
  | RequestGranted _ => recv_ret tt
  | _ => recv_fail (request_failed (SocksV4Reply_error_message rsp))
  end.

(** ** The set of methods *)

Lemma method_key_from v :
  0 <= v < 256 ->
  method_key (SocksAuthMethod_from v) =
  if v <? 4 then (v, 0) else if v <=? 127 then (4, v) else if v <? 255 then (5, v) else (6, 0).
Proof.
  intros Hv. unfold SocksAuthMethod_from.
  destruct (Z.ltb_spec v 4); [assert (v = 0 \/ v = 1 \/ v = 2 \/ v = 3) as [->|[->|[->| ->]]] by lia; done|].
  assert (exists p, v = Z.pos p /\ (3 < p)%positive) as (p & -> & Hp) by (destruct v; try lia; eexists; split; [done|lia]).
  do 2 (destruct p as [p|p|]; try lia; cbn beta iota); repeat case_match; done || lia.
Qed.

(** The code that is sent for a method is read back as the method. *)
Lemma SocksAuthMethod_code_from v : 0 <= v < 256 -> SocksAuthMethod_code (SocksAuthMethod_from v) = v.
Proof.
  intros Hv. pose proof (method_key_from v Hv) as Hk.
  destruct (SocksAuthMethod_from v); cbn in Hk |- *; repeat case_match; simplify_eq; try lia.
Qed.

Lemma method_key_inj a b : method_key a = method_key b -> a = b.
Proof. destruct a, b; cbn; congruence. Qed.

Lemma method_ltb_trans a b c : method_ltb a b = true -> method_ltb b c = true -> method_ltb a c = true.
Proof.
  unfold method_ltb. destruct (method_key a) as [ka va], (method_key b) as [kb vb], (method_key c) as [kc vc]. lia.
Qed.

Lemma method_ltb_total a b : method_ltb a b = false -> method_ltb b a = false -> a = b.
Proof.
  intros H1 H2. apply method_key_inj. unfold method_ltb in *.
  destruct (method_key a) as [ka va], (method_key b) as [kb vb]. f_equal; lia.
Qed.

Abbreviation ascending := (StronglySorted (fun a b => method_ltb a b = true)).

Lemma elem_of_set_insert m x l : x ∈ set_insert m l <-> x = m \/ x ∈ l.
Proof.
  induction l as [|y l IH]; cbn [set_insert]; [rewrite list_elem_of_singleton, elem_of_nil; tauto|].
  destruct (method_ltb m y) eqn:E1; [by rewrite elem_of_cons|].
  destruct (method_ltb y m) eqn:E2; [rewrite !elem_of_cons, IH; tauto|].
  pose proof (method_ltb_total _ _ E1 E2) as ->. rewrite elem_of_cons. tauto.
Qed.

Lemma set_insert_ascending m l : ascending l -> ascending (set_insert m l).
Proof.
  induction 1 as [|y l Hl IH Hy]; cbn [set_insert]; [by repeat constructor|].
  destruct (method_ltb m y) eqn:E1.
  - constructor; [by constructor|]. constructor; [done|].
    eapply Forall_impl; [exact Hy|]. intros z. by apply method_ltb_trans.
  - destruct (method_ltb y m) eqn:E2; [|by constructor]. constructor; [done|].
    apply Forall_forall. intros x [->|Hx]%elem_of_set_insert; [done|]. by apply (proj1 (Forall_forall _ _) Hy).
Qed.

(** The set after the bytes [ms]. *)
Definition methods_of (ms : bytes) (l : list SocksAuthMethod) : list SocksAuthMethod :=
  fold_left (fun l b => set_insert (SocksAuthMethod_from (u8 b)) l) ms l.

Lemma methods_of_spec ms l :
  ascending l -> ascending (methods_of ms l) /\
  forall m, m ∈ methods_of ms l <-> m ∈ l \/ exists b, b ∈ ms /\ m = SocksAuthMethod_from (u8 b).
Proof.
  revert l. induction ms as [|b ms IH]; intros l Hl.
  - split; [done|]. intros m. cbn. split; [tauto|]. intros [?|(b & Hb & _)]; [done|by apply not_elem_of_nil in Hb].
  - destruct (IH _ (set_insert_ascending (SocksAuthMethod_from (u8 b)) l Hl)) as [Hs Hm]. split; [exact Hs|].
    intros m. cbn [methods_of fold_left]. fold (methods_of ms (set_insert (SocksAuthMethod_from (u8 b)) l)).
    rewrite Hm, elem_of_set_insert. setoid_rewrite elem_of_cons. split.
    + intros [[->|?]|(c & ? & ->)]; eauto 6.
    + intros [?|(c & [->|?] & ->)]; eauto 6.
Qed.

(** The only byte that stands for no method. *)
Lemma from_no_acceptable b : SocksAuthMethod_from (u8 b) = Method_NoAcceptable <-> b = xff.
Proof.
  split; [|by intros ->]. intros E. pose proof (SocksAuthMethod_code_from (u8 b) (u8_range b)) as Hc. rewrite E in Hc.
  apply u8_inj. by rewrite <- Hc.
Qed.

Lemma request_byte b : takes (request_read read_u8) ClientClosed [b] (u8 b).
Proof. rewrite <- (to_u8_u8 b) at 1. apply request_u8, u8_range. Qed.

Lemma recv_methods_ok ms l :
  xff ∉ ms -> takes (recv_methods (length ms) l) ClientClosed ms (methods_of ms l).
Proof.
  revert l. induction ms as [|b ms IH]; intros l Hms; cbn [length recv_methods]; [apply takes_ret|].
  apply not_elem_of_cons in Hms as [Hb Hms]. pose proof (u8_range b).
  eapply (takes_bind _ _ _ [_]); [apply request_byte|].
  assert (SocksAuthMethod_from (u8 b) <> Method_NoAcceptable) as Hn by (rewrite from_no_acceptable; congruence).
  specialize (IH (set_insert (SocksAuthMethod_from (u8 b)) l) Hms). cbn [methods_of fold_left].
  by destruct (SocksAuthMethod_from (u8 b)).
Qed.

(** A byte that stands for no method is refused at once. *)
Lemma recv_methods_err ms count l s :
  xff ∉ ms -> (length ms < count)%nat ->
  recvs (recv_methods count l) (ms ++ xff :: s) (Err (Request_InvalidProtocol InvalidAuthMethod)) s.
Proof.
  revert count l. induction ms as [|b ms IH]; intros [|count] l Hms Hc; cbn [length] in Hc; [lia| |lia|]; cbn [recv_methods].
  - eapply recvs_bind; [apply (proj1 (request_byte xff))|]. apply recvs_fail.
  - apply not_elem_of_cons in Hms as [Hb Hms]. pose proof (u8_range b).
    eapply recvs_bind; [apply (proj1 (request_byte b))|].
    assert (SocksAuthMethod_from (u8 b) <> Method_NoAcceptable) as Hn by (rewrite from_no_acceptable; congruence).
    specialize (IH count (set_insert (SocksAuthMethod_from (u8 b)) l) Hms ltac:(lia)).
    by destruct (SocksAuthMethod_from (u8 b)).
Qed.

(** ** Users *)

(** A user that the server accepts: made by [from_original], and a password that
    is not empty. *)
Definition user_ok (u : Username) (p : Password) : Prop :=
  Username_from_original (un_inner u) = Ok u /\ Password_from_original (pw_inner p) = Ok p /\
  utf8_valid (un_inner u) = true /\ utf8_valid (pw_inner p) = true.

Lemma username_len u : Username_from_original (un_inner u) = Ok u -> 1 <= len (un_inner u) <= 255.
Proof.
  unfold Username_from_original, USERNAME_MAX_LENGTH. pose proof (len_nonneg (un_inner u)).
  destruct (Z.eqb_spec (len (un_inner u)) 0); [done|]. destruct (Z.ltb_spec 255 (len (un_inner u))); [done|]. lia.
Qed.

Lemma password_len p : Password_from_original (pw_inner p) = Ok p -> len (pw_inner p) <= 255.
Proof. unfold Password_from_original, PASSWORD_MAX_LENGTH. destruct (Z.ltb_spec 255 (len (pw_inner p))); [done|]. lia. Qed.

Lemma recv_user_ok u p :
  user_ok u p -> pw_inner p <> [] -> takes recv_user_from_client ClientClosed (user_message u p) (u, p).
Proof.
  intros (Hu & Hp & Uu & Up) Hne. pose proof (username_len u Hu). pose proof (password_len p Hp).
  assert (1 <= len (pw_inner p)) by (destruct (pw_inner p); [done|len_lia]).
  unfold user_message, Username_len, Password_len. rewrite !Z.mod_small by lia.
  eapply (takes_bind _ _ _ [_]); [apply request_u8; lia|]. cbn [negb Z.eqb Pos.eqb].
  eapply (takes_bind _ _ _ [_]); [apply request_u8; lia|]. rewrite (proj2 (Z.eqb_neq _ _)) by lia.
  eapply takes_bind; [by apply request_exact|]. unfold from_utf8. rewrite Uu.
  eapply takes_check; [by apply request_ok|]. eapply takes_check; [apply request_ok; by rewrite Hu|].
  eapply (takes_bind _ _ _ [_]); [apply request_u8; lia|]. rewrite (proj2 (Z.eqb_neq _ _)) by lia.
  eapply takes_last; [by apply request_exact|]. rewrite Up.
  eapply takes_check; [by apply request_ok|]. eapply takes_check; [apply request_ok; by rewrite Hp|]. apply takes_ret.
Qed.

(** ** The client *)

Lemma stream_of_app rd rd' : stream_of (rd ++ rd') = stream_of rd ++ stream_of rd'.
Proof. induction rd as [|[c| |] rd IH]; cbn; rewrite ?IH, <- ?app_assoc; done. Qed.

(** A read takes what comes first and nothing of what comes later. *)
Lemma read_await_first r1 r2 room :
  well_behaved r1 -> stream_of r1 <> [] -> 0 < room ->
  exists c r1', read_await (r1 ++ r2) room = (Ok c, r1' ++ r2) /\ c <> [] /\ c ++ stream_of r1' = stream_of r1 /\
    well_behaved r1'.
Proof.
  intros Hw Hs Hr. induction r1 as [|[c| |] r1 IH]; [done|..]; apply Forall_cons in Hw as [Hc Hw].
  - cbn [app read_await poll_read stream_of]. destruct (Z.leb_spec (len c) room) as [Hl|Hl].
    + by exists c, r1.
    + exists (take (Z.to_nat room) c), (Data (drop (Z.to_nat room) c) :: r1). cbn [stream_of app].
      rewrite app_assoc, take_drop. split_and!; try done.
      * intros E%(f_equal len). len_lia.
      * constructor; [|done]. intros E%(f_equal len). len_lia.
  - cbn [app read_await stream_of] in *. auto.
  - done.
Qed.

(** The [BufReader] over a transport on which [r2] comes later: [u] is what is
    still to be read before it. *)
Definition bs_at (u : bytes) (r2 : reader) (w : writer) (bs : buf_stream) : Prop :=
  exists r1, well_behaved r1 /\ bs_stream bs = {| ts_reader := r1 ++ r2; ts_writer := w |} /\ bs_buf bs ++ stream_of r1 = u.

Lemma connect_u8_at c u r2 w bs :
  bs_at (c :: u) r2 w bs -> exists bs', connect_u8 bs = (Ok (u8 c), bs') /\ bs_at u r2 w bs'.
Proof.
  intros (r1 & Hw & Hst & Hu). destruct bs as [st buf]. cbn in Hst, Hu. subst st.
  unfold connect_u8, recv_io, buffered_read_u8. cbn [bs_buf bs_stream ts_reader ts_writer]. destruct buf as [|d buf].
  - destruct (read_await_first r1 r2 DEFAULT_BUF_SIZE Hw) as (k & r1' & -> & Hk & Hs & Hw'); [cbn in Hu; by rewrite Hu|done|].
    cbn in Hu.
    destruct k as [|d k]; [done|]. rewrite Hu in Hs. injection Hs as <- Hs. eexists. split; [done|]. by exists r1'.
  - injection Hu as <- Hu. eexists. split; [done|]. by exists r1.
Qed.

Lemma on_writer_at m msg u r2 w bs :
  bs_at u r2 w bs -> sends m msg -> fair_writer w ->
  exists w' bs', recv_io Connect_WriteFailed (on_inner (on_writer m)) bs = (Ok tt, bs') /\ bs_at u r2 w' bs' /\
    fair_writer w' /\ wr_out w' = wr_out w ++ msg /\ wr_flushed w' = len (wr_out w').
Proof.
  intros (r1 & Hw & Hst & Hu) Hm Hf. destruct (Hm w Hf) as (w' & Hr & ?). destruct bs as [st buf]. cbn in Hst, Hu. subst st.
  exists w'. eexists. unfold recv_io, on_inner, on_writer. cbn [bs_stream bs_buf ts_writer ts_reader]. rewrite Hr.
  split; [done|]. split; [|done]. by exists r1.
Qed.

Lemma sends_methods auth : sends (send_methods_to_remote auth) (methods_message auth).
Proof.
  intros w Hw. pose proof (write_all_spec w (methods_message auth) (fair_lawful w Hw)) as Hs.
  unfold send_methods_to_remote, recv_bind, recv_io.
  destruct (write_all w (methods_message auth)) as [[u|e|] w1]; [|tauto..]. destruct Hs as (_ & Hf1 & Ho). cbn [map_err].
  pose proof (flush_spec w1) as Hfl. destruct (flush w1) as [[[]|e|] w2]; [|tauto..].
  destruct Hfl as (_ & Hf2 & Ho2 & Hfl). exists w2. rewrite Ho2, Hfl. split_and!; auto.
Qed.

Lemma recv_bind_ok {S E A B} (m : proc S E A) (k : A -> proc S E B) s a s' :
  m s = (Ok a, s') -> recv_bind m k s = k a s'.
Proof. intros Hm. unfold recv_bind. by rewrite Hm. Qed.

(** What the server may answer to a login, and what the client then sends. *)
Definition login_reply (auth : SocksAuth) (reply sent : bytes) : Prop :=
  reply = [x05; x00] /\ sent = methods_message auth \/
  exists u p, auth = Auth_User u p /\ reply = [x05; x02; x01; x00] /\ sent = methods_message auth ++ user_message u p.

Lemma socks5_login_ok auth r1 r2 w sent :
  well_behaved r1 -> well_behaved r2 -> fair_writer w -> login_reply auth (stream_of r1) sent ->
  exists rd w', socks5_login auth {| ts_reader := r1 ++ r2; ts_writer := w |} =
      (Ok tt, {| ts_reader := rd; ts_writer := w' |}) /\
    well_behaved rd /\ stream_of rd = stream_of r2 /\ fair_writer w' /\ wr_out w' = wr_out w ++ sent.
Proof.
  intros Hw1 Hw2 Hf Hl. unfold socks5_login, send_and_recv_method, recv_method_from_remote.
  set (bs0 := {| bs_stream := _; bs_buf := [] |}). assert (bs_at (stream_of r1) r2 w bs0) as H0 by by exists r1.
  destruct (on_writer_at _ _ _ _ _ _ H0 (sends_methods auth) Hf) as (w1 & bs1 & E1 & H1 & Hf1 & Ho1 & _).
  assert (forall w' bs, bs_at [] r2 w' bs -> exists rd, bs_stream bs = {| ts_reader := rd; ts_writer := w' |} /\
    well_behaved rd /\ stream_of rd = stream_of r2) as Hend.
  { intros w' bs (r & Hr & -> & [_ E]%app_eq_nil). exists (r ++ r2). rewrite stream_of_app, E. split_and!; try done.
    by apply Forall_app_2. }
  destruct Hl as [[Hr ->]|(u & p & -> & Hr & ->)]; rewrite Hr in H1.
  - destruct (connect_u8_at _ _ _ _ _ H1) as (bs2 & E2 & H2). destruct (connect_u8_at _ _ _ _ _ H2) as (bs3 & E3 & H3).
    erewrite recv_bind_ok; [|erewrite recv_bind_ok by exact E1; erewrite recv_bind_ok by exact E2; change (u8 x05 =? 5) with true; cbn [negb];
      by erewrite recv_bind_ok by exact E3]. destruct (Hend _ _ H3) as (rd & Hs & ? & ?). exists rd, w1. cbn. by rewrite Hs.
  - destruct (connect_u8_at _ _ _ _ _ H1) as (bs2 & E2 & H2). destruct (connect_u8_at _ _ _ _ _ H2) as (bs3 & E3 & H3).
    destruct (on_writer_at _ _ _ _ _ _ H3 (sends_message (user_message u p)) Hf1) as (w2 & bs4 & E4 & H4 & Hf2 & Ho2 & _).
    destruct (connect_u8_at _ _ _ _ _ H4) as (bs5 & E5 & H5). destruct (connect_u8_at _ _ _ _ _ H5) as (bs6 & E6 & H6).
    erewrite recv_bind_ok; [|erewrite recv_bind_ok by exact E1; erewrite recv_bind_ok by exact E2; change (u8 x05 =? 5) with true; cbn [negb];
      by erewrite recv_bind_ok by exact E3]. change (SocksAuthMethod_from (u8 x02)) with Method_User. cbv beta iota.
    unfold proceed_with_user. erewrite recv_bind_ok by exact E4. erewrite recv_bind_ok by exact E5.
    change (u8 x01 =? 1) with true. cbn [negb].
    erewrite recv_bind_ok by exact E6. destruct (Hend _ _ H6) as (rd & Hs & ? & ?). exists rd, w2.
    rewrite Ho2, Ho1, app_assoc. cbn. by rewrite Hs.
Qed.

(** What the client makes of a reply. *)
Definition reply_result (r : Socks5Reply) : res SocksConnectError SocketAddr :=
  match r with
  | Succeeded addr => Ok addr
  | _ => Err (request_failed (Socks5Reply_error_message r))
  end.

Lemma socks5_request_ok to_ascii command addr reply rd w s :
  addr_ok to_ascii addr -> reply_ok reply -> well_behaved rd -> fair_writer w ->
  stream_of rd = Socks5Reply_buf reply ++ s ->
  exists msg rd' w', Socks5Request_buf command addr = Ok msg /\
    socks5_request command addr {| ts_reader := rd; ts_writer := w |} =
      (reply_result (reply_normal reply), {| ts_reader := rd'; ts_writer := w' |}) /\
    stream_of rd' = s /\ fair_writer w' /\ wr_out w' = wr_out w ++ msg /\ wr_flushed w' = len (wr_out w').
Proof.
  intros Ha Hr Hw Hf Hs. destruct (Socks5Request_buf command addr) as [msg|e|] eqn:Hb;
    [|by rewrite (socks5_request_buf to_ascii) in Hb by done..].
  destruct (sends_message msg w Hf) as (w' & Ew & Hf' & Ho & Hfl).
  destruct (proj1 (socks5_reply_recv reply Hr) s rd Hw Hs) as (rd' & Er & Hw' & Hs').
  exists msg, rd', w'. split; [done|]. split; [|split_and!; [done|done|exact Ho|done]].
  unfold socks5_request, Socks5Request_send. rewrite Hb.
  erewrite recv_bind_ok by (unfold recv_io, on_writer; cbn [ts_writer]; by rewrite Ew).
  erewrite recv_bind_ok by (unfold recv_io, on_reader; cbn [ts_reader ts_writer]; by rewrite Er).
  by destruct (reply_normal reply).
Qed.

Lemma socks5_exchange_ok to_ascii auth command addr reply r1 r2 w s sent :
  addr_ok to_ascii addr -> reply_ok reply -> fair_writer w -> well_behaved r1 -> well_behaved r2 ->
  login_reply auth (stream_of r1) sent -> stream_of r2 = Socks5Reply_buf reply ++ s ->
  exists msg rd' w', Socks5Request_buf command addr = Ok msg /\
    recv_bind (socks5_login auth) (fun _ => socks5_request command addr) {| ts_reader := r1 ++ r2; ts_writer := w |} =
      (reply_result (reply_normal reply), {| ts_reader := rd'; ts_writer := w' |}) /\
    stream_of rd' = s /\ wr_out w' = wr_out w ++ sent ++ msg /\ wr_flushed w' = len (wr_out w').
Proof.
  intros Ha Hr Hf Hw1 Hw2 Hl Hs.
  destruct (socks5_login_ok auth r1 r2 w sent Hw1 Hw2 Hf Hl) as (rd1 & w1 & El & Hrd1 & Hs1 & Hf1 & Ho1).
  rewrite Hs in Hs1.
  destruct (socks5_request_ok to_ascii command addr reply rd1 w1 s Ha Hr Hrd1 Hf1 Hs1)
    as (msg & rd' & w' & Hb & Er & Hs' & _ & Ho & Hfl).
  exists msg, rd', w'. erewrite recv_bind_ok by exact El. rewrite Ho, Ho1, app_assoc in *. by split_and!.
Qed.

(** The client of SOCKS 4a: a granted request, or the failure that the reply
    names. *)
Lemma socks4a_client_connects to_ascii addr reply rd w s :
  addr_ok to_ascii addr -> v4a_ok addr -> v4_reply_ok reply -> well_behaved rd -> fair_writer w ->
  stream_of rd = ([x00] ++ put_u8 (SocksV4Reply_code reply) ++ [x00; x00; x00; x00; x00; x00]) ++ s ->
  exists msg rd' w', SocksV4aRequest_buf TcpConnect addr = Ok msg /\
    socks4a_connect_to addr {| ts_reader := rd; ts_writer := w |} =
      (match reply with RequestGranted _ => Ok tt | _ => Err (request_failed (SocksV4Reply_error_message reply)) end,
       {| ts_reader := rd'; ts_writer := w' |}) /\
    stream_of rd' = s /\ wr_out w' = wr_out w ++ msg /\ wr_flushed w' = len (wr_out w').
Proof.
  intros Ha Hv Hr Hw Hf Hs. destruct (SocksV4aRequest_buf TcpConnect addr) as [msg|e|] eqn:Hb;
    [|by rewrite (socks4a_request_buf to_ascii) in Hb by done..].
  destruct (sends_message msg w Hf) as (w' & Ew & Hf' & Ho & Hfl).
  destruct (proj1 (socks4_reply_recv reply Hr) s rd Hw Hs) as (rd' & Er & Hw' & Hs').
  exists msg, rd', w'. split; [done|]. split; [|by split_and!].
  unfold socks4a_connect_to, SocksV4aRequest_send. rewrite Hb.
  erewrite recv_bind_ok by (unfold recv_io, on_writer, recv_bind, recv_lift; cbn [ts_writer]; by rewrite Ew).
  erewrite recv_bind_ok by (unfold recv_io, on_reader; cbn [ts_reader ts_writer]; by rewrite Er).
  by destruct reply.
Qed.

(** ** Properties *)

(** C15: connecting through a SOCKS 5 proxy.  Against a server that lets the
    client in (without a user, or with the user and password it offers) and that
    sends its reply to the request after the login, the client sends exactly the
    methods, the user and password when asked for, and the request, flushes it
    all, and returns the address of the reply, or the failure that the reply
    names; the bytes that follow the reply are still on the stream, although the
    login went through a buffer that was dropped. *)
Theorem socks5_client_connects (to_ascii : bytes -> option bytes) (auth : SocksAuth) (addr : UpstreamAddr)
    (local : SocketAddr) (reply : Socks5Reply) (r1 r2 : reader) (w : writer) (s sent : bytes) :
  addr_ok to_ascii addr -> sa_ok local -> reply_ok reply -> fair_writer w -> well_behaved r1 -> well_behaved r2 ->
  login_reply auth (stream_of r1) sent -> stream_of r2 = Socks5Reply_buf reply ++ s ->
  (exists msg rd' w', Socks5Request_buf TcpConnect addr = Ok msg /\
     socks5_connect_to auth addr {| ts_reader := r1 ++ r2; ts_writer := w |} =
       (reply_result (reply_normal reply), {| ts_reader := rd'; ts_writer := w' |}) /\
     stream_of rd' = s /\ wr_out w' = wr_out w ++ sent ++ msg /\ wr_flushed w' = len (wr_out w')) /\
  (exists msg rd' w', Socks5Request_buf UdpAssociate (from_ip_and_port (sa_ip local) (sa_port local)) = Ok msg /\
     socks5_udp_associate auth local {| ts_reader := r1 ++ r2; ts_writer := w |} =
       (reply_result (reply_normal reply), {| ts_reader := rd'; ts_writer := w' |}) /\
     stream_of rd' = s /\ wr_out w' = wr_out w ++ sent ++ msg /\ wr_flushed w' = len (wr_out w')).
Proof.
  intros Ha [Hip Hport] Hr Hf Hw1 Hw2 Hl Hs. split; [by apply (socks5_exchange_ok to_ascii)|].
  by apply (socks5_exchange_ok to_ascii auth UdpAssociate (from_ip_and_port (sa_ip local) (sa_port local))).
Qed.

(** The login on the server.  A list of methods is received as the set of
    the methods it names, in order and without duplicates, whatever follows it,
    and [ClientClosed] is reported when it is cut off; one that contains 0xFF is
    refused.  A user and password are received as the client sent them. *)
Theorem socks5_login_received (ms : bytes) (u : Username) (p : Password) :
  user_ok u p -> pw_inner p <> [] -> 1 <= len ms <= 255 ->
  (xff ∉ ms ->
     exists l, takes recv_methods_from_client ClientClosed (put_u8 (len ms) ++ ms) l /\ ascending l /\
       forall m, m ∈ l <-> exists b, b ∈ ms /\ m = SocksAuthMethod_from (u8 b)) /\
  (forall pre post s, ms = pre ++ xff :: post -> xff ∉ pre ->
     recvs recv_methods_from_client (put_u8 (len ms) ++ ms ++ s)
       (Err (Request_InvalidProtocol InvalidAuthMethod)) (post ++ s)) /\
  takes recv_user_from_client ClientClosed (user_message u p) (u, p).
Proof.
  intros Hu Hp Hms. split_and!; [| |by apply recv_user_ok].
  - intros Hff. exists (methods_of ms []). destruct (methods_of_spec ms []) as [Hs Hm]; [constructor|]. split_and!; [|done|].
    + eapply takes_bind; [apply request_u8; lia|]. rewrite (proj2 (Z.eqb_neq _ _)) by lia.
      unfold len. rewrite Nat2Z.id. by apply recv_methods_ok.
    + intros m. rewrite Hm. split; [|by right]. intros [Hx|?]; [by apply not_elem_of_nil in Hx|done].
  - intros pre post s -> Hpre. eapply recvs_bind; [apply (proj1 (request_u8 (len (pre ++ xff :: post)) ltac:(lia)))|].
    rewrite (proj2 (Z.eqb_neq _ _)) by lia. rewrite <- app_assoc. apply recv_methods_err; [done|].
    rewrite len_app. rewrite len_cons. pose proof (len_nonneg post). unfold len in *. lia.
Qed.

(** ** Witnesses *)

Module Sample.

Definition user : Username := {| un_inner := bs "alice" |}.
Definition password : Password := {| pw_inner := bs "secret" |}.
Definition address : UpstreamAddr := from_ip_and_port (V4 [x0a; x00; x00; x01]) 80.
Definition bound : SocketAddr := {| sa_ip := V4 [x0a; x00; x00; x02]; sa_port := 1080 |}.
Definition login : reader := [Data [x05]; Pend; Data [x02; x01]; Data [x00]].
Definition answer : reader := [Pend; Data (Socks5Reply_buf (Succeeded bound) ++ bs "hello")].
Definition writer0 : writer := {| wr_writes := [Accept 1; WPend]; wr_flushes := [FPend]; wr_out := []; wr_flushed := 0 |}.

Lemma user_password_ok : user_ok user password.
Proof. split_and!; reflexivity. Defined.

Lemma socks5_client_connects_witness :
  exists msg rd' w', Socks5Request_buf TcpConnect address = Ok msg /\
    socks5_connect_to (Auth_User user password) address {| ts_reader := login ++ answer; ts_writer := writer0 |} =
      (Ok bound, {| ts_reader := rd'; ts_writer := w' |}) /\
    stream_of rd' = bs "hello" /\
    wr_out w' = [] ++ (methods_message (Auth_User user password) ++ user_message user password) ++ msg /\
    wr_flushed w' = len (wr_out w').
Proof.
  refine (proj1 (socks5_client_connects Some (Auth_User user password) address bound (Succeeded bound) login answer writer0
    (bs "hello") (methods_message (Auth_User user password) ++ user_message user password) _ _ _ _ _ _ _ _)).
  - split; [split; apply Z.leb_le; reflexivity|reflexivity].
  - split; [reflexivity|split; apply Z.leb_le; reflexivity].
  - split; [reflexivity|split; apply Z.leb_le; reflexivity].
  - split; repeat constructor.
  - repeat constructor; discriminate.
  - repeat constructor; discriminate.
  - right. exists user, password. split; [reflexivity|]. split; reflexivity.
  - vm_compute. reflexivity.
Defined.

Lemma socks5_login_received_witness :
  exists l, takes recv_methods_from_client ClientClosed [x03; x02; x00; x02] l /\ ascending l /\
    forall m, m ∈ l <-> exists b, b ∈ [x02; x00; x02] /\ m = SocksAuthMethod_from (u8 b).
Proof.
  refine (proj1 (socks5_login_received [x02; x00; x02] user password user_password_ok _ _) _).
  - discriminate.
  - split; apply Z.leb_le; reflexivity.
  - apply not_in_by_decide. reflexivity.
Defined.

End Sample.
