(* ===== verification/SocksUdp.v ===== *)
(** The header of a UDP packet in SOCKS 5: [lib/vey-socks/src/v5/udp_io.rs].

    The header is written into a buffer that exists already, so the model keeps
    what it held before: [cursor] is a [&mut [u8]] that moves forward as [BufMut]
    writes, and a write that does not fit panics. *)

From Stdlib Require Import ZArith Lia Strings.Byte.
From stdpp Require Import base list.
From S2P Require Import Prelude Text Domain IpAddr Host Socks.

Inductive SocksUdpPacketError : Type :=
| TooSmallPacket
| ReservedNotZeroed
| FragmentNotSupported
| Udp_InvalidDomainString
| Udp_InvalidAddrType.

Definition UDP_HEADER_LEN_IPV4 : Z := 10.
Definition UDP_HEADER_LEN_IPV6 : Z := 22.

Section Input.

Context (to_ascii : bytes -> option bytes).

(** [buf.get_u32] and its like: the number in the first [n] bytes, and the rest. *)
Definition get_be (n : Z) (buf : bytes) : res SocksUdpPacketError (Z * bytes) :=
  let? b := slice buf 0 n in
  let? rest := slice_from buf n in
  Ok (from_be b, rest).

Definition parse_header (buf : bytes) : res SocksUdpPacketError (Z * UpstreamAddr) :=
  let n := len buf in
  if n <=? 8 then Err TooSmallPacket
  else
    let? b0 := index buf 0 in
    let? b1 := index buf 1 in
    if negb (u8 b0 =? 0) || negb (u8 b1 =? 0) then Err ReservedNotZeroed
    else
      let? b2 := index buf 2 in
      if negb (u8 b2 =? 0) then Err FragmentNotSupported
      else
        let? atyp := index buf 3 in
        if u8 atyp =? 1 then
          if n <? UDP_HEADER_LEN_IPV4 then Err TooSmallPacket
          else
            let? buf := slice_from buf 4 in
            let? '(ip4, buf) := get_be 4 buf in
            let? '(port, _) := get_be 2 buf in
            Ok (UDP_HEADER_LEN_IPV4, from_ip_and_port (V4 (to_be 4 ip4)) port)
        else if u8 atyp =? 3 then
          let? b4 := index buf 4 in
          let domain_len := u8 b4 in
          let header_len := 4 + 1 + domain_len + 2 in
          if n <? header_len then Err TooSmallPacket
          else
            let? domain := slice buf 5 (5 + domain_len) in
            let? domain := from_utf8 Udp_InvalidDomainString domain in
            let port_off := 5 + domain_len in
            let? hi := index buf port_off in
            let? lo := index buf (port_off + 1) in
            let port := Z.shiftl (u8 hi) 8 + u8 lo in
            let? addr := or_err Udp_InvalidDomainString (from_host_str_and_port to_ascii domain port) in
            Ok (header_len, addr)
        else if u8 atyp =? 4 then
          if n <? UDP_HEADER_LEN_IPV6 then Err TooSmallPacket
          else
            let? buf := slice_from buf 4 in
            let? '(ip6, buf) := get_be 16 buf in
            let? '(port, _) := get_be 2 buf in
            Ok (UDP_HEADER_LEN_IPV6, from_ip_and_port (V6 (to_be 16 ip6)) port)
        else Err Udp_InvalidAddrType.

End Input.

(** ** Output *)

(** What has been written, and what the buffer holds after it. *)
Record cursor : Type := {
  cur_written : bytes;
  cur_rest : bytes
}.

Definition put_slice (src : bytes) (c : cursor) : pure cursor :=
  if len src <=? len (cur_rest c) then
    Ok {| cur_written := cur_written c ++ src; cur_rest := drop (length src) (cur_rest c) |}
  else Panic.

Definition calc_header_len (upstream : UpstreamAddr) : pure Z :=
  match ups_host upstream with
  | Host_Ip (V6 ip6) =>
      match to_ipv4_mapped ip6 with
      | Some _ => Ok UDP_HEADER_LEN_IPV4
      | None => Ok UDP_HEADER_LEN_IPV6
      end
  | Host_Ip (V4 _) => Ok UDP_HEADER_LEN_IPV4
  | Host_Domain domain =>
      let? n := DomainName_len_u8 domain in
      Ok (5 + n + 2)
  end.

Definition put_addr (buf : cursor) (ip : IpAddr) (port : Z) : pure cursor :=
  let put atyp octets :=
    let? buf := put_slice (put_u8 atyp) buf in
    let? buf := put_slice octets buf in
    put_slice (put_u16 port) buf in
  match ip with
  | V4 ip4 => put 1 ip4
  | V6 ip6 =>
      match to_ipv4_mapped ip6 with
      | Some ip4 => put 1 ip4
      | None => put 4 ip6
      end
  end.

(** The buffer after the call. *)
Definition written (r : pure cursor) : pure bytes :=
  let? c := r in Ok (cur_written c ++ cur_rest c).

Definition generate_header (buf : bytes) (upstream : UpstreamAddr) : pure bytes :=
  written (
    let? buf := put_slice (put_u16 0) {| cur_written := []; cur_rest := buf |} in
    let? buf := put_slice (put_u8 0) buf in
    match ups_host upstream with
    | Host_Ip ip => put_addr buf ip (ups_port upstream)
    | Host_Domain domain =>
        let? buf := put_slice (put_u8 3) buf in
        let? domain_len := DomainName_len_u8 domain in
        let? buf := put_slice (put_u8 domain_len) buf in
        let? b := DomainName_as_bytes domain in
        let? b := slice b 0 domain_len in
        let? buf := put_slice b buf in
        put_slice (put_u16 (ups_port upstream)) buf
    end).

Definition generate_header2 (buf : bytes) (addr : SocketAddr) : pure bytes :=
  written (
    let? buf := put_slice (put_u16 0) {| cur_written := []; cur_rest := buf |} in
    let? buf := put_slice (put_u8 0) buf in
    put_addr buf (sa_ip addr) (sa_port addr)).

Record SocksUdpHeader : Type := { uh_buf : bytes }.

Definition SocksUdpHeader_default : SocksUdpHeader := {| uh_buf := [] |}.

(** [encode], with the memory [junk] that [set_len] makes part of the buffer. *)
Definition SocksUdpHeader_encode (junk : bytes) (self : SocksUdpHeader) (ups : UpstreamAddr) : pure SocksUdpHeader :=
  let? header_len := calc_header_len ups in
  let buf := if len (uh_buf self) <? header_len then take (Z.to_nat header_len) (uh_buf self ++ junk) else uh_buf self in
  let? head := slice buf 0 header_len in
  let? head := generate_header head ups in
  let buf := head ++ drop (Z.to_nat header_len) buf in
  Ok {| uh_buf := take (Z.to_nat header_len) buf |}.

Definition SocksUdpHeader_new (junk : bytes) (ups : UpstreamAddr) : pure SocksUdpHeader :=
  SocksUdpHeader_encode junk SocksUdpHeader_default ups.

(** ** What is written *)

(** The header as bytes: the address is the one of a SOCKS 5 request, except that
    an IPv6 address that maps an IPv4 address is written as that one. *)
Definition ups_normal (a : UpstreamAddr) : UpstreamAddr := {| ups_host := Host_normal (ups_host a); ups_port := ups_port a |}.

Definition udp_header (a : UpstreamAddr) : bytes := [x00; x00; x00] ++ socks5_addr (ups_normal a).

Lemma put_slice_ok src c :
  len src <= len (cur_rest c) ->
  put_slice src c = Ok {| cur_written := cur_written c ++ src; cur_rest := drop (length src) (cur_rest c) |}.
Proof. intros Hl. unfold put_slice. by rewrite (proj2 (Z.leb_le _ _)) by done. Qed.

(** A sequence of writes that fill the buffer. *)
Lemma put_slice_fill src c rest :
  length (cur_rest c) = (length src + rest)%nat ->
  exists c', put_slice src c = Ok c' /\ cur_written c' = cur_written c ++ src /\ length (cur_rest c') = rest.
Proof.
  intros Hl. eexists. split; [apply put_slice_ok; unfold len; lia|]. cbn. split; [done|]. rewrite length_drop. lia.
Qed.

Lemma Host_normal_v6 o :
  Host_normal (Host_Ip (V6 o)) = match to_ipv4_mapped o with Some o4 => Host_Ip (V4 o4) | None => Host_Ip (V6 o) end.
Proof. done. Qed.

Lemma put_addr_ok c ip port :
  ip_ok ip -> len (cur_rest c) = len (socks5_addr (ups_normal (from_ip_and_port ip port))) ->
  exists c', put_addr c ip port = Ok c' /\ cur_rest c' = [] /\
    cur_written c' = cur_written c ++ socks5_addr (ups_normal (from_ip_and_port ip port)).
Proof.
  assert (forall atyp o, len (cur_rest c) = len (to_u8 atyp :: o ++ put_u16 port) ->
    exists c', (let? buf := put_slice (put_u8 atyp) c in let? buf := put_slice o buf in put_slice (put_u16 port) buf) = Ok c' /\
      cur_rest c' = [] /\ cur_written c' = cur_written c ++ to_u8 atyp :: o ++ put_u16 port) as Hput.
  { intros atyp o Hl. apply Nat2Z.inj in Hl. cbn [length] in Hl. rewrite length_app in Hl.
    destruct (put_slice_fill (put_u8 atyp) c _ Hl) as (c1 & -> & Hw1 & Hr1). cbn [bind].
    destruct (put_slice_fill o c1 _ Hr1) as (c2 & -> & Hw2 & Hr2). cbn [bind].
    destruct (put_slice_fill (put_u16 port) c2 0) as (c3 & -> & Hw3 & Hr3%length_zero_iff_nil); [lia|].
    exists c3. split_and!; [done|done|]. by rewrite Hw3, Hw2, Hw1, <- !app_assoc. }
  intros Hip Hl. unfold put_addr. destruct ip as [o|o]; [by apply Hput|].
  unfold ups_normal, socks5_addr in *. cbn [ups_host ups_port from_ip_and_port] in *. rewrite Host_normal_v6 in *.
  by destruct (to_ipv4_mapped o); apply Hput.
Qed.

Lemma socks5_addr_len to_ascii a :
  addr_ok to_ascii a -> calc_header_len a = Ok (len (udp_header a)) /\ len (udp_header a) <= 261.
Proof.
  destruct a as [[[o|o]|d] port]; intros [_ Hh]; unfold calc_header_len, udp_header, ups_normal, socks5_addr;
    cbn [ups_host ups_port Host_normal app].
  - cbn in Hh. rewrite !len_cons, len_app, len_put_u16. unfold len. rewrite Hh. cbn. split; [done|lia].
  - cbn in Hh. unfold Host_from_maybe_mapped_ip6, to_ipv4_mapped. case_bool_decide;
      rewrite !len_cons, len_app, len_put_u16; unfold len; rewrite ?length_drop, Hh; cbn; (split; [done|lia]).
  - destruct Hh as (name & Hd & _). destruct (plain_domain_parts (E := Empty_set) to_ascii d name Hd) as (-> & _ & Hn & _).
    rewrite (domain_text_eq d name) by apply Hd. rewrite !len_cons, len_app, len_put_u16. cbn [bind].
    split; [f_equal; lia|lia].
Qed.

Lemma generate_header_ok to_ascii buf a :
  addr_ok to_ascii a -> len buf = len (udp_header a) -> generate_header buf a = Ok (udp_header a).
Proof.
  intros Ha Hl. unfold generate_header, written. apply Nat2Z.inj in Hl. unfold udp_header in *. rewrite length_app in Hl.
  destruct (put_slice_fill (put_u16 0) {| cur_written := []; cur_rest := buf |} (1 + length (socks5_addr (ups_normal a))) Hl)
    as (c1 & -> & Hw1 & Hr1). cbn [bind].
  destruct (put_slice_fill (put_u8 0) c1 (length (socks5_addr (ups_normal a))) Hr1) as (c2 & -> & Hw2 & Hr2). cbn [bind].
  assert (cur_written c2 = [x00; x00; x00]) as Hw by (rewrite Hw2, Hw1; done).
  destruct a as [[ip|d] port]; destruct Ha as [_ Hh]; cbn [ups_host ups_port] in *.
  - destruct (put_addr_ok c2 ip port Hh) as (c3 & -> & Hr3 & Hw3); [unfold len; by rewrite Hr2|]. cbn [bind].
    by rewrite Hr3, Hw3, Hw, app_nil_r.
  - destruct Hh as (name & Hd & _). destruct (plain_domain_parts (E := Empty_set) to_ascii d name Hd) as (E1 & E2 & Hn & _).
    unfold ups_normal, socks5_addr in *. cbn [ups_host ups_port Host_normal] in *. rewrite (domain_text_eq d name) in * by apply Hd.
    destruct (put_slice_fill (put_u8 3) c2 (1 + (length name + 2))) as (c3 & -> & Hw3 & Hr3);
      [rewrite Hr2; cbn [length]; rewrite length_app; done|]. cbn [bind]. rewrite E1. cbn [bind].
    destruct (put_slice_fill (put_u8 (len name)) c3 (length name + 2) Hr3) as (c4 & -> & Hw4 & Hr4). cbn [bind]. rewrite E2. cbn [bind].
    rewrite (slice_at [] name [] name) by (rewrite ?app_nil_r; done || len_lia). cbn [bind].
    destruct (put_slice_fill name c4 2 Hr4) as (c5 & -> & Hw5 & Hr5). cbn [bind].
    destruct (put_slice_fill (put_u16 port) c5 0) as (c6 & -> & Hw6 & Hr6%length_zero_iff_nil); [exact Hr5|]. cbn [bind].
    by rewrite Hr6, Hw6, Hw5, Hw4, Hw3, Hw, app_nil_r, <- !app_assoc.
Qed.

Lemma generate_header2_eq buf addr :
  generate_header2 buf addr = generate_header buf (from_ip_and_port (sa_ip addr) (sa_port addr)).
Proof. done. Qed.

(** ** What is read *)

Lemma get_be_app n (b rest : bytes) : len b = n -> get_be n (b ++ rest) = Ok (from_be b, rest).
Proof.
  intros <-. unfold get_be. rewrite (slice_at [] b rest) by (done || len_lia). cbn [bind].
  by rewrite (slice_from_at b rest).
Qed.

Lemma shift_port hi lo : Z.shiftl (u8 hi) 8 + u8 lo = from_be [hi; lo].
Proof.
  rewrite !from_be_cons, Z.shiftl_mul_pow2 by lia. change (from_be []) with 0. change (256 ^ len [lo]) with 256.
  change (256 ^ len []) with 1. change (2 ^ 8) with 256. lia.
Qed.

(** The tests before the address. *)
Lemma parse_header_head to_ascii atyp (body : bytes) :
  8 < len ([x00; x00; x00] ++ atyp :: body) ->
  parse_header to_ascii ([x00; x00; x00] ++ atyp :: body) =
  (if u8 atyp =? 1 then
     if len ([x00; x00; x00] ++ atyp :: body) <? UDP_HEADER_LEN_IPV4 then Err TooSmallPacket
     else
       let? '(ip4, buf) := get_be 4 body in
       let? '(port, _) := get_be 2 buf in
       Ok (UDP_HEADER_LEN_IPV4, from_ip_and_port (V4 (to_be 4 ip4)) port)
   else if u8 atyp =? 3 then
     let buf := [x00; x00; x00] ++ atyp :: body in
     let? b4 := index buf 4 in
     let domain_len := u8 b4 in
     let header_len := 4 + 1 + domain_len + 2 in
     if len buf <? header_len then Err TooSmallPacket
     else
       let? domain := slice buf 5 (5 + domain_len) in
       let? domain := from_utf8 Udp_InvalidDomainString domain in
       let? hi := index buf (5 + domain_len) in
       let? lo := index buf (5 + domain_len + 1) in
       let? addr := or_err Udp_InvalidDomainString
                      (from_host_str_and_port to_ascii domain (Z.shiftl (u8 hi) 8 + u8 lo)) in
       Ok (header_len, addr)
   else if u8 atyp =? 4 then
     if len ([x00; x00; x00] ++ atyp :: body) <? UDP_HEADER_LEN_IPV6 then Err TooSmallPacket
     else
       let? '(ip6, buf) := get_be 16 body in
       let? '(port, _) := get_be 2 buf in
       Ok (UDP_HEADER_LEN_IPV6, from_ip_and_port (V6 (to_be 16 ip6)) port)
   else Err Udp_InvalidAddrType).
Proof.
  intros Hl. unfold parse_header. rewrite (proj2 (Z.leb_gt _ _)) by done.
  assert (slice_from (E := SocksUdpPacketError) ([x00; x00; x00] ++ atyp :: body) 4 = Ok body) as ->
    by by apply (slice_from_at [x00; x00; x00; atyp] body).
  done.
Qed.

Lemma parse_header_ip to_ascii atyp ip n o port payload :
  (atyp = x01 /\ ip = V4 /\ n = 4 \/ atyp = x04 /\ ip = V6 /\ n = 16) -> len o = n -> 0 <= port <= u16_max ->
  parse_header to_ascii ([x00; x00; x00] ++ atyp :: o ++ put_u16 port ++ payload) =
  Ok (6 + n, from_ip_and_port (ip o) port).
Proof.
  intros Hat Ho Hp. pose proof (len_nonneg payload).
  assert (len ([x00; x00; x00] ++ atyp :: o ++ put_u16 port ++ payload) = 6 + n + len payload) as Hl
    by (cbn [app]; rewrite !len_cons, !len_app, len_put_u16, Ho; lia).
  rewrite parse_header_head by lia. rewrite Hl. pose proof (to_be_from_be o) as Hto.
  unfold UDP_HEADER_LEN_IPV4, UDP_HEADER_LEN_IPV6. destruct Hat as [(-> & -> & ->)|(-> & -> & ->)].
  - change (u8 x01 =? 1) with true. cbv beta iota. rewrite (proj2 (Z.ltb_ge _ _)) by lia.
    rewrite (get_be_app _ o _ Ho). cbn [bind]. rewrite (get_be_app 2) by done. cbn [bind]. rewrite from_be_put_u16 by done.
    replace (length o) with 4%nat in Hto by (unfold len in Ho; lia). by rewrite Hto.
  - change (u8 x04 =? 1) with false. change (u8 x04 =? 3) with false. change (u8 x04 =? 4) with true. cbv beta iota.
    rewrite (proj2 (Z.ltb_ge _ _)) by lia.
    rewrite (get_be_app _ o _ Ho). cbn [bind]. rewrite (get_be_app 2) by done. cbn [bind]. rewrite from_be_put_u16 by done.
    replace (length o) with 16%nat in Hto by (unfold len in Ho; lia). by rewrite Hto.
Qed.

Lemma put_u16_bytes port : exists hi lo, put_u16 port = [hi; lo].
Proof. by eexists _, _. Qed.

Lemma parse_header_domain to_ascii d name port payload :
  plain_domain to_ascii d name -> utf8_valid name = true -> 0 <= port <= u16_max -> 1 < len name + len payload ->
  parse_header to_ascii ([x00; x00; x00] ++ x03 :: to_u8 (len name) :: name ++ put_u16 port ++ payload) =
  Ok (7 + len name, {| ups_host := Host_Domain d; ups_port := port |}).
Proof.
  intros Hd Hu Hp Hl. destruct (plain_domain_parts (E := Empty_set) to_ascii d name Hd) as (_ & _ & Hn & Hf).
  pose proof (from_be_put_u16 port Hp) as Hbe. destruct (put_u16_bytes port) as (hi & lo & E). rewrite E in *.
  set (buf := [x00; x00; x00] ++ x03 :: to_u8 (len name) :: name ++ [hi; lo] ++ payload).
  assert (len buf = 7 + len name + len payload) as Hb
    by (unfold buf; cbn [app]; rewrite !len_cons, len_app, !len_cons; lia).
  assert (buf = [x00; x00; x00; x03; to_u8 (len name)] ++ name ++ [hi; lo] ++ payload) as Hbuf by done.
  unfold buf at 1. rewrite parse_header_head by (fold buf; lia). cbv zeta. fold buf.
  change (u8 x03 =? 1) with false. change (u8 x03 =? 3) with true. cbv beta iota.
  rewrite (index_ok buf 4 (to_u8 (len name))) by done. cbn [bind]. rewrite u8_to_u8_small by lia.
  rewrite (proj2 (Z.ltb_ge _ _)) by (pose proof (len_nonneg payload); lia).
  rewrite (slice_at [x00; x00; x00; x03; to_u8 (len name)] name ([hi; lo] ++ payload)) by done. cbn [bind].
  unfold from_utf8. rewrite Hu. cbn [bind].
  assert (forall i x, [hi; lo] !! i = Some x -> index (E := SocksUdpPacketError) buf (5 + len name + Z.of_nat i) = Ok x) as Hi.
  { intros i x Hx. apply index_ok; [lia|]. rewrite Hbuf, app_assoc, lookup_app_r by (rewrite length_app; unfold len; cbn; lia).
    rewrite length_app. replace (_ - _)%nat with i by (unfold len; cbn; lia). apply lookup_app_l_Some. done. }
  pose proof (Hi 0%nat hi eq_refl) as H0. change (Z.of_nat 0) with 0 in H0. rewrite Z.add_0_r in H0. rewrite H0. cbn [bind].
  pose proof (Hi 1%nat lo eq_refl) as H1. change (Z.of_nat 1) with 1 in H1. rewrite H1. cbn [bind]. rewrite shift_port, Hbe, Hf. cbn [or_err map_err bind]. do 2 f_equal. lia.
Qed.

Lemma header_app (h : bytes) x l payload : (h ++ x :: l) ++ payload = h ++ x :: (l ++ payload).
Proof. by rewrite <- app_assoc. Qed.

Lemma parse_header_ok to_ascii a payload :
  addr_ok to_ascii a -> 8 < len (udp_header a ++ payload) ->
  parse_header to_ascii (udp_header a ++ payload) = Ok (len (udp_header a), ups_normal a).
Proof.
  intros Ha Hl. destruct a as [[[o|o]|d] port]; destruct Ha as [Hp Hh]; unfold udp_header, ups_normal, socks5_addr in *;
    cbn [ups_host ups_port Host_normal ip_ok] in *.
  - change (to_u8 1) with x01 in *. rewrite header_app, <- app_assoc, (parse_header_ip _ x01 V4 4)
      by (done || (by left) || (unfold len; by rewrite Hh)).
    cbn [app]. rewrite !len_cons, len_app, len_put_u16. unfold len. by rewrite Hh.
  - unfold Host_from_maybe_mapped_ip6, to_ipv4_mapped in *. case_bool_decide; cbn [ups_host ups_port] in *.
    + change (to_u8 1) with x01 in *. rewrite header_app, <- app_assoc, (parse_header_ip _ x01 V4 4)
        by (done || (by left) || (unfold len; rewrite length_drop, Hh; done)).
      cbn [app]. rewrite !len_cons, len_app, len_put_u16. unfold len. by rewrite length_drop, Hh.
    + change (to_u8 4) with x04 in *. rewrite header_app, <- app_assoc, (parse_header_ip _ x04 V6 16)
        by (done || (by right) || (unfold len; by rewrite Hh)).
      cbn [app]. rewrite !len_cons, len_app, len_put_u16. unfold len. by rewrite Hh.
  - destruct Hh as (name & Hd & Hu). rewrite (domain_text_eq d name) in * by apply Hd.
    change (to_u8 3) with x03 in *. rewrite header_app in *.
    change ((to_u8 (len name) :: name ++ put_u16 port) ++ payload) with (to_u8 (len name) :: (name ++ put_u16 port) ++ payload) in *.
    rewrite <- (app_assoc name) in *. cbn [app] in Hl. rewrite !len_cons, !len_app, len_put_u16 in Hl. rewrite (parse_header_domain _ d name) by (done || lia).
    cbn [app]. rewrite !len_cons, len_app, len_put_u16. do 2 f_equal. lia.
Qed.

(** ** Any packet *)

Lemma index_some (b : bytes) i : 0 <= i < len b -> exists x, index (E := SocksUdpPacketError) b i = Ok x.
Proof.
  intros Hi. destruct (lookup_lt_is_Some_2 b (Z.to_nat i)) as [x Hx]; [unfold len in Hi; lia|].
  exists x. apply index_ok; [lia|done].
Qed.

Lemma get_be_some n b : 0 <= n <= len b -> exists v r, get_be n b = Ok (v, r) /\ len r = len b - n.
Proof.
  intros Hn. unfold get_be. rewrite slice_ok, slice_from_ok by lia. eexists _, _. split; [done|].
  rewrite len_drop. lia.
Qed.

Lemma parse_header_safe to_ascii buf : parse_header to_ascii buf <> Panic.
Proof.
  unfold parse_header, UDP_HEADER_LEN_IPV4, UDP_HEADER_LEN_IPV6. destruct (Z.leb_spec (len buf) 8) as [|Hl]; [done|].
  destruct (index_some buf 0) as [b0 ->]; [lia|]. destruct (index_some buf 1) as [b1 ->]; [lia|]. cbn [bind].
  destruct (_ || _); [done|]. destruct (index_some buf 2) as [b2 ->]; [lia|]. cbn [bind]. destruct (negb _); [done|].
  destruct (index_some buf 3) as [atyp ->]; [lia|]. cbn [bind].
  assert (forall n, 0 <= n -> n + 6 <= len buf -> exists v p r, slice_from (E := SocksUdpPacketError) buf 4 = Ok r /\
    exists r', get_be n r = Ok (v, r') /\ exists r'', get_be 2 r' = Ok (p, r'')) as Hget.
  { intros n Hn Hb. rewrite slice_from_ok by lia. destruct (get_be_some n (drop (Z.to_nat 4) buf)) as (v & r & Hv & Hr);
      [rewrite len_drop; lia|]. rewrite len_drop in Hr. destruct (get_be_some 2 r) as (p & r' & Hp & _); [lia|]. eauto 10. }
  destruct (u8 atyp =? 1).
  { destruct (Z.ltb_spec (len buf) 10); [done|]. destruct (Hget 4) as (v & p & r & -> & r' & Hv & r'' & Hp); [lia..|].
    cbn [bind]. rewrite Hv. cbn [bind]. by rewrite Hp. }
  destruct (u8 atyp =? 3).
  - destruct (index_some buf 4) as [b4 ->]; [lia|]. cbn [bind]. pose proof (u8_range b4).
    destruct (Z.ltb_spec (len buf) (4 + 1 + u8 b4 + 2)); [done|]. rewrite slice_ok by lia. cbn [bind].
    pose proof (from_utf8_safe Udp_InvalidDomainString (take (Z.to_nat (5 + u8 b4 - 5)) (drop (Z.to_nat 5) buf))).
    destruct (from_utf8 _ _) as [domain|e|]; cbn [bind]; try done.
    destruct (index_some buf (5 + u8 b4)) as [hi ->]; [lia|]. destruct (index_some buf (5 + u8 b4 + 1)) as [lo ->]; [lia|].
    cbn [bind]. pose proof (host_port_no_panic to_ascii domain (Z.shiftl (u8 hi) 8 + u8 lo)). unfold or_err.
    by destruct (from_host_str_and_port _ _ _).
  - destruct (u8 atyp =? 4); [|done]. destruct (Z.ltb_spec (len buf) 22); [done|].
    destruct (Hget 16) as (v & p & r & -> & r' & Hv & r'' & Hp); [lia..|]. cbn [bind]. rewrite Hv. cbn [bind]. by rewrite Hp.
Qed.

(** The header is written over whatever the buffer held. *)
Lemma encode_ok to_ascii junk h a :
  addr_ok to_ascii a -> len (udp_header a) <= len (uh_buf h) + len junk ->
  SocksUdpHeader_encode junk h a = Ok {| uh_buf := udp_header a |}.
Proof.
  intros Ha Hj. unfold SocksUdpHeader_encode. destruct (socks5_addr_len to_ascii a Ha) as [-> _]. cbn [bind].
  pose proof (len_nonneg (udp_header a)). set (n := len (udp_header a)) in *.
  set (buf := if len (uh_buf h) <? n then take (Z.to_nat n) (uh_buf h ++ junk) else uh_buf h).
  assert (n <= len buf) as Hb.
  { unfold buf. destruct (Z.ltb_spec (len (uh_buf h)) n); [|lia]. unfold len. rewrite length_take, length_app. unfold len in *. lia. }
  rewrite slice_ok by lia. cbn [bind]. rewrite Z.sub_0_r, drop_0.
  rewrite (generate_header_ok to_ascii) by (done || (unfold len; rewrite length_take; fold n; unfold len in *; lia)).
  cbn [bind]. do 2 f_equal. apply take_app_length'. unfold n, len. lia.
Qed.

(** The UDP header of SOCKS 5.  It is as long as [calc_header_len] says, it
    is written completely whatever the buffer held before, so that no byte of it
    is left from memory that was not initialised, and the packet that starts with
    it is parsed to the length of the header and the address; an IPv6 address
    that maps an IPv4 address becomes that one.  No packet makes the parser
    panic. *)
Theorem udp_header_roundtrip (to_ascii : bytes -> option bytes) (a : UpstreamAddr) (h : SocksUdpHeader)
    (junk payload packet : bytes) :
  addr_ok to_ascii a -> 261 <= len junk -> 8 < len (udp_header a ++ payload) ->
  calc_header_len a = Ok (len (udp_header a)) /\
  SocksUdpHeader_encode junk h a = Ok {| uh_buf := udp_header a |} /\
  SocksUdpHeader_new junk a = Ok {| uh_buf := udp_header a |} /\
  parse_header to_ascii (udp_header a ++ payload) = Ok (len (udp_header a), ups_normal a) /\
  parse_header to_ascii packet <> Panic.
Proof.
  intros Ha Hj Hl. destruct (socks5_addr_len to_ascii a Ha) as [Hc Hm]. pose proof (len_nonneg (uh_buf h)).
  split_and!; [done|apply (encode_ok to_ascii); [done|lia]|apply (encode_ok to_ascii); [done|cbn [uh_buf]; len_lia]|
    by apply parse_header_ok|apply parse_header_safe].
Qed.

Lemma udp_header_roundtrip_witness :
  parse_header Some (udp_header Socks.Sample.domain_addr ++ bs "payload") =
    Ok (18, Socks.Sample.domain_addr) /\
  SocksUdpHeader_encode (replicate 300 xaa) {| uh_buf := bs "old" |} Socks.Sample.domain_addr =
    Ok {| uh_buf := udp_header Socks.Sample.domain_addr |}.
Proof.
  destruct (udp_header_roundtrip Some Socks.Sample.domain_addr {| uh_buf := bs "old" |} (replicate 300 xaa) (bs "payload") [])
    as (_ & He & _ & Hp & _).
  - exact Socks.Sample.domain_addr_ok.
  - apply Z.leb_le. reflexivity.
  - apply Z.ltb_lt. reflexivity.
  - split; [exact Hp|exact He].
Defined.
