(* ===== verification/ProxyProtocol.v ===== *)
(** The PROXY protocol, versions 1 and 2: the encoders of
    [lib/vey-types/src/net/haproxy/] and the readers of
    [lib/vey-io-ext/src/haproxy/].

    The timer of a reader is the argument [elapsed]: whether it runs out before
    the header is there.  A TCP stream is an event-list reader; [peek] shows the
    bytes that a [read] then takes. *)

From Stdlib Require Import ZArith Lia Strings.Byte.
From stdpp Require Import base list.
From S2P Require Import Prelude Text Reader AsyncIo ReadExt Domain IpAddr Host.

Local Open Scope recv_scope.

Record ProxyAddr : Type := {
  src_addr : SocketAddr;
  dst_addr : SocketAddr
}.

Inductive ProxyProtocolReadError : Type :=
| Proxy_ReadFailed (e : io_error)
| ClosedUnexpected
| ReadTimeout
| InvalidMagicHeader
| Proxy_InvalidVersion (v : Z)
| Proxy_InvalidCommand (c : Z)
| InvalidFamily (f : Z)
| InvalidProtocol (p : Z)
| InvalidDataLength (n : Z)
| InvalidSrcAddr
| InvalidDstAddr.

Inductive ProxyProtocolEncodeError : Type :=
| AddressFamilyNotMatch
| InvalidU16Length
| TotalLengthOverflow
| TooLongTagValue (tag n : Z).

Inductive ProxyProtocolVersion : Type := PV1 | PV2.

Definition ProxyProtocolVersion_from_str (s : bytes) : option ProxyProtocolVersion :=
  if bool_decide (s = bs "1" \/ s = bs "v1" \/ s = bs "V1") then Some PV1
  else if bool_decide (s = bs "2" \/ s = bs "v2" \/ s = bs "V2") then Some PV2
  else None.

(** ** The encoder of version 1 *)

(** What the encoder holds after the call, and the result. *)
Definition V1_encode_tcp (client_addr server_addr : SocketAddr) : bytes * res ProxyProtocolEncodeError bytes :=
  let line family :=
    let buf := family ++ fmt_ip (sa_ip client_addr) ++ bs " " ++ fmt_ip (sa_ip server_addr) ++ bs " " ++
                 fmt_dec (sa_port client_addr) ++ bs " " ++ fmt_dec (sa_port server_addr) ++ [x0d; x0a] in
    (buf, Ok buf) in
  match sa_ip client_addr, sa_ip server_addr with
  | V4 _, V4 _ => line (bs "PROXY TCP4 ")
  | V6 _, V6 _ => line (bs "PROXY TCP6 ")
  | _, _ => ([], Err AddressFamilyNotMatch)
  end.

(** ** The encoder of version 2 *)

Definition V2_MAGIC_HEADER : bytes := [x0d; x0a; x0d; x0a; x00; x0d; x0a; x51; x55; x49; x54; x0a].
Definition V2_BUF_CAP : Z := 536.
Definition V2_HDR_LEN : Z := 16.
Definition BYTE_13_PROXY : Z := Z.lor 0x20 0x01.
Definition BYTE14_TCP4 : Z := Z.lor 0x10 0x01.
Definition BYTE14_TCP6 : Z := Z.lor 0x20 0x01.

Definition PP2_TYPE_CUSTOM_UPSTREAM : Z := 0xe0.
Definition PP2_TYPE_CUSTOM_TLS_NAME : Z := 0xe1.
Definition PP2_TYPE_CUSTOM_USERNAME : Z := 0xe2.
Definition PP2_TYPE_CUSTOM_TASK_ID : Z := 0xe3.
Definition PP2_TYPE_CUSTOM_PROTOCOL : Z := 0xe4.
Definition PP2_TYPE_CUSTOM_MATCH_ID : Z := 0xe5.
Definition PP2_TYPE_CUSTOM_PAYLOAD_LEN : Z := 0xe6.

Record ProxyProtocolV2Encoder : Type := {
  v2_buf : bytes;
  v2_len : Z
}.

Definition V2Encoder_new : ProxyProtocolV2Encoder := {| v2_buf := replicate (Z.to_nat V2_BUF_CAP) x00; v2_len := 0 |}.

(** A sequence of [self.buf[a..b].copy_from_slice(src)]. *)
Fixpoint copy_all {E} (buf : bytes) (parts : list (Z * Z * bytes)) : res E bytes :=
  match parts with
  | [] => Ok buf
  | (a, b, src) :: parts =>
      let? buf := copy_from_slice buf a b src in
      copy_all buf parts
  end.

(** The encoder after the call; the slice that is returned is its first [len]
    bytes. *)
Definition V2_encode_tcp (self : ProxyProtocolV2Encoder) (client_addr server_addr : SocketAddr)
  : ProxyProtocolV2Encoder * res ProxyProtocolEncodeError bytes :=
  let fill parts n :=
    match copy_all (v2_buf self) ((0, 12, V2_MAGIC_HEADER) :: parts) with
    | Ok buf =>
        let self := {| v2_buf := buf; v2_len := n |} in
        (self, slice buf 0 n)
    | Err e => (self, Err e)
    | Panic => (self, Panic)
    end in
  match sa_ip client_addr, sa_ip server_addr with
  | V4 c4, V4 s4 =>
      fill [(12, 16, [to_u8 BYTE_13_PROXY; to_u8 BYTE14_TCP4; x00; to_u8 12]); (16, 20, c4); (20, 24, s4);
            (24, 26, to_be 2 (sa_port client_addr)); (26, 28, to_be 2 (sa_port server_addr))] 28
  | V6 c6, V6 s6 =>
      fill [(12, 16, [to_u8 BYTE_13_PROXY; to_u8 BYTE14_TCP6; x00; to_u8 36]); (16, 32, c6); (32, 48, s6);
            (48, 50, to_be 2 (sa_port client_addr)); (50, 52, to_be 2 (sa_port server_addr))] 52
  | _, _ =>
      match copy_from_slice (v2_buf self) 0 12 V2_MAGIC_HEADER with
      | Ok buf => ({| v2_buf := buf; v2_len := v2_len self |}, Err AddressFamilyNotMatch)
      | Err e => (self, Err e)
      | Panic => (self, Panic)
      end
  end.

Definition V2Encoder_new_tcp (client_addr server_addr : SocketAddr) : res ProxyProtocolEncodeError ProxyProtocolV2Encoder :=
  let (encoder, r) := V2_encode_tcp V2Encoder_new client_addr server_addr in
  let? _ := r in
  Ok encoder.

Definition push_tlv (self : ProxyProtocolV2Encoder) (key : Z) (value : bytes)
  : ProxyProtocolV2Encoder * res ProxyProtocolEncodeError unit :=
  let v_len := len value in
  if u16_max <? v_len then (self, Err InvalidU16Length)
  else
    let len_b := to_be 2 v_len in
    let offset := v2_len self in
    let n := v2_len self + (3 + v_len) in
    if V2_BUF_CAP <? n then (self, Err TotalLengthOverflow)
    else
      match copy_all (E := ProxyProtocolEncodeError) (v2_buf self)
              [(offset, offset + 1, [to_u8 key]); (offset + 1, offset + 1 + 2, len_b);
               (offset + 1 + 2, offset + 1 + 2 + v_len, value)] with
      | Ok buf => ({| v2_buf := buf; v2_len := n |}, Ok tt)
      | Err e => (self, Err e)
      | Panic => (self, Panic)
      end.

Definition lift_push (self : ProxyProtocolV2Encoder) (r : pure bytes) (key : Z)
  : ProxyProtocolV2Encoder * res ProxyProtocolEncodeError unit :=
  match r with
  | Ok value => push_tlv self key value
  | _ => (self, Panic)
  end.

(** [to_string] cannot fail. *)
Definition to_string {E} (r : res E bytes) : pure bytes :=
  match r with Ok s => Ok s | _ => Panic end.

Definition push_upstream (self : ProxyProtocolV2Encoder) (upstream : UpstreamAddr) :=
  lift_push self (to_string (UpstreamAddr_fmt upstream)) PP2_TYPE_CUSTOM_UPSTREAM.

Definition push_tls_name (self : ProxyProtocolV2Encoder) (tls_name : Host) :=
  match tls_name with
  | Host_Domain s => lift_push self (DomainName_as_bytes s) PP2_TYPE_CUSTOM_TLS_NAME
  | Host_Ip ip => push_tlv self PP2_TYPE_CUSTOM_TLS_NAME (fmt_ip ip)
  end.

Definition push_username (self : ProxyProtocolV2Encoder) (name : bytes) := push_tlv self PP2_TYPE_CUSTOM_USERNAME name.
Definition push_task_id (self : ProxyProtocolV2Encoder) (id : bytes) := push_tlv self PP2_TYPE_CUSTOM_TASK_ID id.
Definition push_protocol (self : ProxyProtocolV2Encoder) (protocol : bytes) := push_tlv self PP2_TYPE_CUSTOM_PROTOCOL protocol.
Definition push_match_id (self : ProxyProtocolV2Encoder) (id : Z) := push_tlv self PP2_TYPE_CUSTOM_MATCH_ID (to_be 2 id).

Definition push_payload_len (self : ProxyProtocolV2Encoder) (payload_len : Z) :=
  if u32_max <? payload_len then (self, Err (TooLongTagValue PP2_TYPE_CUSTOM_PAYLOAD_LEN payload_len))
  else push_tlv self PP2_TYPE_CUSTOM_PAYLOAD_LEN (to_be 4 payload_len).

Definition finalize (self : ProxyProtocolV2Encoder) : res ProxyProtocolEncodeError (ProxyProtocolV2Encoder * bytes) :=
  let? n := usub (v2_len self) V2_HDR_LEN in
  let data_len := n mod 65536 in
  let? buf := copy_from_slice (v2_buf self) 14 16 (to_be 2 data_len) in
  let self := {| v2_buf := buf; v2_len := v2_len self |} in
  let? b := slice buf 0 (v2_len self) in
  Ok (self, b).

(** ** Either encoder *)

Inductive ProxyProtocolEncoder : Type :=
| Encoder_V1 (v1 : bytes)
| Encoder_V2 (v2 : ProxyProtocolV2Encoder).

Definition ProxyProtocolEncoder_new (version : ProxyProtocolVersion) : ProxyProtocolEncoder :=
  match version with
  | PV1 => Encoder_V1 []
  | PV2 => Encoder_V2 V2Encoder_new
  end.

Definition ProxyProtocolEncoder_encode_tcp (self : ProxyProtocolEncoder) (client_addr server_addr : SocketAddr)
  : ProxyProtocolEncoder * res ProxyProtocolEncodeError bytes :=
  match self with
  | Encoder_V1 _ => let (v1, r) := V1_encode_tcp client_addr server_addr in (Encoder_V1 v1, r)
  | Encoder_V2 v2 => let (v2, r) := V2_encode_tcp v2 client_addr server_addr in (Encoder_V2 v2, r)
  end.

(** ** The reader of version 1 *)

Definition PROXY_DATA_V1_MAX_LEN : Z := 108.
Definition COMMON_DATA : bytes := bs "PROXY ".

(** [stream.peek(&mut buf).await], with a buffer of [room] bytes. *)
Fixpoint peek_await (rd : reader) (room : Z) : res io_error bytes * reader :=
  match rd with
  | [] => (Ok [], [])
  | Pend :: rd' => peek_await rd' room
  | IoError :: rd' => (Err ReadFailed, rd')
  | Data c :: rd' => (Ok (take (Z.to_nat room) c), rd)
  end.

(** [stream.read(&mut self.data_buf[a..b]).await]: the buffer after it, and the
    number of bytes that were read. *)
Definition read_into (data_buf : bytes) (a b : Z) : recv ProxyProtocolReadError (bytes * Z) :=
  let* _ := recv_lift (slice data_buf a b) in
  let* c := recv_io Proxy_ReadFailed (fun rd => read_await rd (b - a)) in
  let* buf := recv_lift (copy_from_slice data_buf a (a + len c) c) in
  recv_ret (buf, len c).

(** What has arrived of the line must start as it should. *)
Definition check_magic (data_buf : bytes) (offset : Z) : res ProxyProtocolReadError unit :=
  if len COMMON_DATA <=? offset then
    let? head := slice data_buf 0 (len COMMON_DATA) in
    if negb (bool_decide (head = COMMON_DATA)) then Err InvalidMagicHeader else Ok tt
  else
    let? head := slice data_buf 0 offset in
    let? common := slice COMMON_DATA 0 offset in
    if negb (bool_decide (head = common)) then Err InvalidMagicHeader else Ok tt.

(** The loop of [peek_line]: every round reads a byte of at most 108, or ends. *)
Fixpoint peek_line_loop (fuel : nat) (data_buf : bytes) (offset : Z) : recv ProxyProtocolReadError (bytes * Z) :=
  match fuel with
  | O => recv_lift Panic
  | S fuel' =>
      let* buf := recv_io Proxy_ReadFailed (fun rd => peek_await rd PROXY_DATA_V1_MAX_LEN) in
      let n := len buf in
      if n =? 0 then recv_fail ClosedUnexpected
      else
        match memchr x0a buf with
        | Some p =>
            if PROXY_DATA_V1_MAX_LEN <=? offset + p then recv_fail (InvalidDataLength (offset + p))
            else
              let n := p + 1 in
              let* '(data_buf, nr) := read_into data_buf offset (offset + n) in
              if negb (nr =? n) then recv_lift Panic
              else if negb (starts_with COMMON_DATA data_buf) then recv_fail InvalidMagicHeader
              else recv_ret (data_buf, offset + nr)
        | None =>
            if PROXY_DATA_V1_MAX_LEN <=? offset + n then recv_fail (InvalidDataLength (offset + n))
            else
              let* '(data_buf, nr) := read_into data_buf offset (offset + n) in
              if negb (nr =? n) then recv_lift Panic
              else
                let offset := offset + nr in
                let* _ := recv_lift (check_magic data_buf offset) in
                peek_line_loop fuel' data_buf offset
        end
  end.

Definition peek_line (data_buf : bytes) : recv ProxyProtocolReadError (bytes * Z) :=
  peek_line_loop (S (Z.to_nat PROXY_DATA_V1_MAX_LEN)) data_buf 0.

(** [data.split(|c| *c == b' ')]. *)
Fixpoint split_spaces (s : bytes) : list bytes :=
  match s with
  | [] => [[]]
  | c :: s' =>
      if bool_decide (c = x20) then [] :: split_spaces s'
      else
        match split_spaces s' with
        | l :: ls => (c :: l) :: ls
        | [] => [[c]]
        end
  end.

(** [trim_ascii_end]. *)
Definition is_ascii_whitespace (c : byte) : bool := bool_decide (c ∈ [x09; x0a; x0c; x0d; x20]).

Fixpoint skip_whitespace (l : bytes) : bytes :=
  match l with
  | c :: l' => if is_ascii_whitespace c then skip_whitespace l' else l
  | [] => []
  end.

Definition trim_ascii_end (l : bytes) : bytes := rev (skip_whitespace (rev l)).

(** [iter.next().ok_or(e)?], as UTF-8. *)
Definition next_text (e : ProxyProtocolReadError) (iter : list bytes) : res ProxyProtocolReadError (bytes * list bytes) :=
  match iter with
  | [] => Err e
  | f :: iter => let? f := from_utf8 e f in Ok (f, iter)
  end.

Definition ok_or {E A} (o : option A) (e : E) : res E A := match o with Some a => Ok a | None => Err e end.

(** The addresses and ports after the family. *)
Definition parse_addrs (family_c : byte) (iter : list bytes) : res ProxyProtocolReadError (option ProxyAddr) :=
  let? '(src_ip, iter) := next_text InvalidSrcAddr iter in
  let? '(dst_ip, iter) := next_text InvalidDstAddr iter in
  let? '(src_port, iter) := next_text InvalidSrcAddr iter in
  let? '(dst_port, _) := next_text InvalidDstAddr iter in
  let? '(src_ip, dst_ip) :=
    if bool_decide (family_c = x34) then
      let? s := ok_or (ipv4_from_str src_ip) InvalidSrcAddr in
      let? d := ok_or (ipv4_from_str dst_ip) InvalidDstAddr in
      Ok (V4 s, V4 d)
    else if bool_decide (family_c = x36) then
      let? s := ok_or (ipv6_from_str src_ip) InvalidSrcAddr in
      let? d := ok_or (ipv6_from_str dst_ip) InvalidDstAddr in
      Ok (V6 s, V6 d)
    else Err (InvalidFamily (u8 family_c)) in
  let? src_port := ok_or (u16_from_str src_port) InvalidSrcAddr in
  let? dst_port := ok_or (u16_from_str (trim_end dst_port)) InvalidDstAddr in
  Ok (Some {| src_addr := {| sa_ip := src_ip; sa_port := src_port |};
              dst_addr := {| sa_ip := dst_ip; sa_port := dst_port |} |}).

Definition parse_buf (data : bytes) : res ProxyProtocolReadError (option ProxyAddr) :=
  let? fields := slice_from data (len COMMON_DATA) in
  match split_spaces fields with
  | [] => Err (InvalidFamily 0)
  | family :: iter =>
      let family := trim_ascii_end family in
      if len family =? 4 then
        if negb (starts_with (bs "TCP") family) then Err (InvalidFamily 0)
        else
          let? family_c := index family 3 in
          parse_addrs family_c iter
      else if len family =? 7 then
        if bool_decide (family = bs "UNKNOWN") then Ok None else Err (InvalidFamily 0)
      else Err (InvalidFamily 0)
  end.

(** [read_proxy_protocol_v1_for_tcp]. *)
Definition read_proxy_protocol_v1 (elapsed : bool) (data_buf : bytes) : recv ProxyProtocolReadError (option ProxyAddr) :=
  if elapsed then recv_fail ReadTimeout
  else
    let* '(data_buf, l) := peek_line data_buf in
    let* data := recv_lift (slice data_buf 0 l) in
    recv_lift (parse_buf data).

(** ** The reader of version 2 *)

Definition PROXY_HDR_V2_LEN : Z := 16.
Definition PROXY_DATA_V2_MAX_LEN : Z := 536.

(** Both buffers. *)
Record ProxyProtocolV2Reader : Type := {
  v2r_hdr_buf : bytes;
  v2r_data_buf : bytes
}.

Definition V2Reader_new : ProxyProtocolV2Reader := {|
  v2r_hdr_buf := replicate (Z.to_nat PROXY_HDR_V2_LEN) x00;
  v2r_data_buf := replicate (Z.to_nat PROXY_DATA_V2_MAX_LEN) x00
|}.

Definition version (self : ProxyProtocolV2Reader) : res ProxyProtocolReadError Z :=
  let? b := index (v2r_hdr_buf self) 12 in Ok (Z.shiftr (u8 b) 4).
Definition command (self : ProxyProtocolV2Reader) : res ProxyProtocolReadError Z :=
  let? b := index (v2r_hdr_buf self) 12 in Ok (Z.land (u8 b) 0x0f).
Definition family (self : ProxyProtocolV2Reader) : res ProxyProtocolReadError Z :=
  let? b := index (v2r_hdr_buf self) 13 in Ok (Z.shiftr (u8 b) 4).
Definition protocol (self : ProxyProtocolV2Reader) : res ProxyProtocolReadError Z :=
  let? b := index (v2r_hdr_buf self) 13 in Ok (Z.land (u8 b) 0x0f).

(** The fields of both addresses, of [n] bytes each. *)
Definition get_addrs (ip : bytes -> IpAddr) (n : Z) (b : bytes) : res ProxyProtocolReadError ProxyAddr :=
  let? src := slice b 0 n in
  let? dst := slice b n (n + n) in
  let? src_port := slice b (n + n) (n + n + 2) in
  let? dst_port := slice b (n + n + 2) (n + n + 4) in
  Ok {| src_addr := {| sa_ip := ip src; sa_port := from_be src_port |};
        dst_addr := {| sa_ip := ip dst; sa_port := from_be dst_port |} |}.

Definition get_inet_addr (self : ProxyProtocolV2Reader) (data_len : Z) : res ProxyProtocolReadError ProxyAddr :=
  if data_len <? 12 then Err (InvalidDataLength data_len)
  else
    let? b := slice (v2r_data_buf self) 0 12 in
    get_addrs V4 4 b.

Definition get_inet6_addr (self : ProxyProtocolV2Reader) (data_len : Z) : res ProxyProtocolReadError ProxyAddr :=
  if data_len <? 36 then Err (InvalidDataLength data_len)
  else
    let? b := slice (v2r_data_buf self) 0 36 in
    get_addrs V6 16 b.

Definition read_in_data (self : ProxyProtocolV2Reader) : recv ProxyProtocolReadError (ProxyProtocolV2Reader * Z) :=
  let* hdr_buf := recv_io Proxy_ReadFailed (read_exact PROXY_HDR_V2_LEN) in
  let self := {| v2r_hdr_buf := hdr_buf; v2r_data_buf := v2r_data_buf self |} in
  let* magic := recv_lift (slice hdr_buf 0 (len V2_MAGIC_HEADER)) in
  if negb (bool_decide (magic = V2_MAGIC_HEADER)) then recv_fail InvalidMagicHeader
  else
    let* v := recv_lift (version self) in
    if negb (v =? 2) then recv_fail (Proxy_InvalidVersion v)
    else
      let* len_b := recv_lift (slice hdr_buf 14 16) in
      let data_len := from_be len_b in
      if len (v2r_data_buf self) <? data_len then recv_fail (InvalidDataLength data_len)
      else
        let* data := recv_io Proxy_ReadFailed (read_exact data_len) in
        let* data_buf := recv_lift (copy_from_slice (v2r_data_buf self) 0 data_len data) in
        recv_ret ({| v2r_hdr_buf := hdr_buf; v2r_data_buf := data_buf |}, data_len).

(** What the header says, once it is there. *)
Definition decode_v2 (self : ProxyProtocolV2Reader) (data_len : Z) : res ProxyProtocolReadError (option ProxyAddr) :=
  let? c := command self in
  if c =? 1 then
    let? p := protocol self in
    if p =? 0 then Ok None
    else if p =? 1 then
      let? f := family self in
      if f =? 0 then Ok None
      else if f =? 1 then let? addr := get_inet_addr self data_len in Ok (Some addr)
      else if f =? 2 then let? addr := get_inet6_addr self data_len in Ok (Some addr)
      else Err (InvalidFamily f)
    else Err (InvalidProtocol p)
  else if c =? 0 then Ok None
  else Err (Proxy_InvalidCommand c).

(** [read_proxy_protocol_v2_for_tcp]. *)
Definition read_proxy_protocol_v2 (elapsed : bool) (self : ProxyProtocolV2Reader)
  : recv ProxyProtocolReadError (option ProxyAddr) :=
  if elapsed then recv_fail ReadTimeout
  else
    let* '(self, data_len) := read_in_data self in
    recv_lift (decode_v2 self data_len).

(** ** Version 2: what is encoded *)

(** A copy right after what has been written. *)
Lemma copy_at {E} (pre rest : bytes) a b src :
  a = len pre -> b = a + len src -> len src <= len rest ->
  copy_from_slice (E := E) (pre ++ rest) a b src = Ok ((pre ++ src) ++ drop (length src) rest).
Proof.
  intros -> -> Hl. pose proof (len_nonneg pre). pose proof (len_nonneg src). unfold copy_from_slice.
  rewrite len_app. assert ((0 <=? len pre) && (len pre <=? len pre + len src) && (len pre + len src <=? len pre + len rest) &&
    (len src =? len pre + len src - len pre) = true) as -> by lia. f_equal.
  rewrite take_app_length' by (unfold len; lia). rewrite drop_app_ge by (unfold len; lia).
  rewrite <- app_assoc. do 3 f_equal. unfold len. lia.
Qed.

(** The encoder holds [data], followed by bytes that do not matter. *)
Definition holds (e : ProxyProtocolV2Encoder) (data : bytes) : Prop :=
  exists rest, v2_buf e = data ++ rest /\ v2_len e = len data /\ len data + len rest = V2_BUF_CAP.

Definition same_family (c s : SocketAddr) : bool :=
  match sa_ip c, sa_ip s with V4 _, V4 _ | V6 _, V6 _ => true | _, _ => false end.

Definition octets (ip : IpAddr) : bytes := match ip with V4 o | V6 o => o end.

(** The addresses as they are sent. *)
Definition addr_block (c s : SocketAddr) : bytes :=
  octets (sa_ip c) ++ octets (sa_ip s) ++ to_be 2 (sa_port c) ++ to_be 2 (sa_port s).

Definition byte14 (c : SocketAddr) : byte := match sa_ip c with V4 _ => to_u8 BYTE14_TCP4 | V6 _ => to_u8 BYTE14_TCP6 end.

Definition v2_header (c : SocketAddr) (n : Z) : bytes := V2_MAGIC_HEADER ++ [to_u8 BYTE_13_PROXY; byte14 c] ++ to_be 2 n.

Lemma len_addr_block c s :
  sa_ok c -> sa_ok s -> same_family c s = true ->
  len (addr_block c s) = match sa_ip c with V4 _ => 12 | V6 _ => 36 end.
Proof.
  destruct c as [[c|c] pc], s as [[s|s] ps]; intros [Hc _] [Hs _] Hf; try done; unfold addr_block;
    cbn [sa_ip sa_port octets ip_ok] in *; rewrite !len_app, !len_to_be; unfold len; rewrite Hc, Hs; done.
Qed.

Lemma len_v2_header c n : len (v2_header c n) = 16.
Proof. unfold v2_header. rewrite !len_app, len_to_be. done. Qed.

(** Copies one after the other. *)
Fixpoint seq_parts (off : Z) (srcs : list bytes) : list (Z * Z * bytes) :=
  match srcs with
  | [] => []
  | s :: srcs => (off, off + len s, s) :: seq_parts (off + len s) srcs
  end.

Lemma copy_all_seq {E} srcs (pre rest : bytes) :
  len (concat srcs) <= len rest ->
  copy_all (E := E) (pre ++ rest) (seq_parts (len pre) srcs) =
  Ok ((pre ++ concat srcs) ++ drop (length (concat srcs)) rest).
Proof.
  revert pre rest. induction srcs as [|s srcs IH]; intros pre rest Hl; cbn [seq_parts concat] in *; [by rewrite app_nil_r|].
  rewrite len_app in Hl. pose proof (len_nonneg (concat srcs)). pose proof (len_nonneg s).
  cbn [copy_all]. rewrite copy_at by (done || lia). cbn [bind]. rewrite <- (len_app pre s), IH by (rewrite len_drop; unfold len in *; lia).
  by rewrite drop_drop, <- !app_assoc, length_app.
Qed.

(** Filling a new encoder. *)
Lemma V2_fill_ok {E} parts srcs data n :
  parts = seq_parts 0 srcs -> concat srcs = data -> len data = n -> n <= V2_BUF_CAP ->
  exists buf, copy_all (E := E) (v2_buf V2Encoder_new) parts = Ok buf /\ slice (E := E) buf 0 n = Ok data /\
    holds {| v2_buf := buf; v2_len := n |} data.
Proof.
  intros -> <- <- Hn. pose proof (len_nonneg (concat srcs)). change (v2_buf V2Encoder_new) with ([] ++ replicate 536 x00).
  assert (len (replicate 536 x00) = V2_BUF_CAP) as Hr by done.
  rewrite (copy_all_seq srcs [] (replicate 536 x00)) by lia. eexists. split; [done|]. cbn [app]. split.
  - by apply (slice_at [] (concat srcs) (drop (length (concat srcs)) (replicate 536 x00))).
  - eexists. cbn [v2_buf v2_len]. split; [done|]. split; [done|]. rewrite len_drop. unfold len in *. lia.
Qed.

Lemma V2Encoder_new_tcp_ok c s :
  sa_ok c -> sa_ok s -> same_family c s = true ->
  exists e, V2Encoder_new_tcp c s = Ok e /\ holds e (v2_header c (len (addr_block c s)) ++ addr_block c s).
Proof.
  intros Hc Hs Hf. pose proof (len_addr_block c s Hc Hs Hf) as Hl. rewrite Hl.
  unfold V2Encoder_new_tcp, V2_encode_tcp.
  destruct c as [[c|c] pc], s as [[s|s] ps]; try done; destruct Hc as [Hc _], Hs as [Hs _]; unfold addr_block, v2_header, byte14 in *;
    cbn [sa_ip sa_port octets ip_ok] in *.
  all: assert (len c = Z.of_nat (length c) /\ len s = Z.of_nat (length s)) as [Lc Ls] by done; rewrite Hc in Lc; rewrite Hs in Ls.
  - destruct (V2_fill_ok (E := ProxyProtocolEncodeError)
      ((0, 12, V2_MAGIC_HEADER) :: [(12, 16, [to_u8 BYTE_13_PROXY; to_u8 BYTE14_TCP4; x00; to_u8 12]); (16, 20, c); (20, 24, s);
        (24, 26, to_be 2 pc); (26, 28, to_be 2 ps)])
      [V2_MAGIC_HEADER; [to_u8 BYTE_13_PROXY; to_u8 BYTE14_TCP4; x00; to_u8 12]; c; s; to_be 2 pc; to_be 2 ps]
      ((V2_MAGIC_HEADER ++ [to_u8 BYTE_13_PROXY; to_u8 BYTE14_TCP4] ++ to_be 2 12) ++ c ++ s ++ to_be 2 pc ++ to_be 2 ps) 28)
      as (buf & -> & -> & Hh); [cbn [seq_parts]; rewrite !len_to_be, Lc, Ls; done|cbn [concat]; by rewrite app_nil_r|
      rewrite len_app, Hl; done|done|]. cbn [bind]. by eexists.
  - destruct (V2_fill_ok (E := ProxyProtocolEncodeError)
      ((0, 12, V2_MAGIC_HEADER) :: [(12, 16, [to_u8 BYTE_13_PROXY; to_u8 BYTE14_TCP6; x00; to_u8 36]); (16, 32, c); (32, 48, s);
        (48, 50, to_be 2 pc); (50, 52, to_be 2 ps)])
      [V2_MAGIC_HEADER; [to_u8 BYTE_13_PROXY; to_u8 BYTE14_TCP6; x00; to_u8 36]; c; s; to_be 2 pc; to_be 2 ps]
      ((V2_MAGIC_HEADER ++ [to_u8 BYTE_13_PROXY; to_u8 BYTE14_TCP6] ++ to_be 2 36) ++ c ++ s ++ to_be 2 pc ++ to_be 2 ps) 52)
      as (buf & -> & -> & Hh); [cbn [seq_parts]; rewrite !len_to_be, Lc, Ls; done|cbn [concat]; by rewrite app_nil_r|
      rewrite len_app, Hl; done|done|]. cbn [bind]. by eexists.
Qed.

(** A field of the header. *)
Definition tlv (key : Z) (value : bytes) : bytes := to_u8 key :: to_be 2 (len value) ++ value.

(** It is added when it fits, and otherwise nothing changes. *)
Lemma push_tlv_ok e data key value :
  holds e data ->
  (len data + 3 + len value <= V2_BUF_CAP ->
     exists e', push_tlv e key value = (e', Ok tt) /\ holds e' (data ++ tlv key value)) /\
  (V2_BUF_CAP < len data + 3 + len value ->
     push_tlv e key value = (e, Err (if u16_max <? len value then InvalidU16Length else TotalLengthOverflow))).
Proof.
  intros (rest & Hb & Hn & Hr). pose proof (len_nonneg data). pose proof (len_nonneg value). unfold push_tlv, tlv.
  rewrite Hn. unfold V2_BUF_CAP in *. split; intros Hl.
  - rewrite (proj2 (Z.ltb_ge _ _)) by (unfold u16_max; lia). rewrite (proj2 (Z.ltb_ge _ _)) by lia. rewrite Hb.
    pose proof (copy_all_seq (E := ProxyProtocolEncodeError) [[to_u8 key]; to_be 2 (len value); value] data rest) as Hc.
    cbn [seq_parts concat] in Hc. rewrite app_nil_r, len_to_be in Hc.
    change (len [to_u8 key]) with 1 in Hc. change (Z.of_nat 2) with 2 in Hc. rewrite Hc by (rewrite !len_app, len_to_be; change (len [to_u8 key]) with 1; lia).
    eexists. split; [done|]. eexists. cbn [v2_buf v2_len]. split; [done|].
    rewrite len_drop, !len_app, len_cons, len_app, len_to_be, length_app. cbn [length]. rewrite length_app, length_to_be.
    unfold V2_BUF_CAP, len in *. split; lia.
  - destruct (u16_max <? len value); [done|]. rewrite (proj2 (Z.ltb_lt _ _)) by lia. done.
Qed.

Lemma finalize_ok e c n body :
  holds e (v2_header c n ++ body) ->
  exists e', finalize e = Ok (e', v2_header c (len body) ++ body).
Proof.
  intros (rest & Hb & Hn & Hr). pose proof (len_nonneg body). pose proof (len_nonneg rest).
  rewrite len_app, len_v2_header in Hn, Hr. unfold finalize, V2_HDR_LEN, V2_BUF_CAP in *. rewrite Hn, usub_ok by lia. cbn [bind].
  replace (16 + len body - 16) with (len body) by lia. rewrite Z.mod_small by lia. rewrite Hb. unfold v2_header.
  set (h := V2_MAGIC_HEADER ++ [to_u8 BYTE_13_PROXY; byte14 c]).
  assert (copy_from_slice (E := ProxyProtocolEncodeError)
    (((V2_MAGIC_HEADER ++ [to_u8 BYTE_13_PROXY; byte14 c] ++ to_be 2 n) ++ body) ++ rest) 14 16 (to_be 2 (len body)) =
    Ok ((v2_header c (len body) ++ body) ++ rest)) as ->.
  { replace (((V2_MAGIC_HEADER ++ [to_u8 BYTE_13_PROXY; byte14 c] ++ to_be 2 n) ++ body) ++ rest)
      with (h ++ to_be 2 n ++ body ++ rest) by (unfold h; by rewrite <- !app_assoc).
    rewrite copy_at by (done || rewrite !len_app, !len_to_be; lia). by rewrite length_to_be. }
  cbn [bind v2_len]. rewrite (slice_at [] (v2_header c (len body) ++ body) rest) by (done || (rewrite len_app, len_v2_header; lia)).
  cbn [bind]. eexists. done.
Qed.

(** ** Version 2: what is read *)

Lemma from_be_to_be_small v : 0 <= v <= u16_max -> from_be (to_be 2 v) = v.
Proof. intros Hv. rewrite from_be_to_be. apply Z.mod_small. unfold u16_max in Hv. cbn. lia. Qed.

Lemma get_addrs_ok ip n c s pc ps :
  len c = n -> len s = n -> 0 <= pc <= u16_max -> 0 <= ps <= u16_max ->
  get_addrs ip n (c ++ s ++ to_be 2 pc ++ to_be 2 ps) =
  Ok {| src_addr := {| sa_ip := ip c; sa_port := pc |}; dst_addr := {| sa_ip := ip s; sa_port := ps |} |}.
Proof.
  intros Hc Hs Hpc Hps. unfold get_addrs. pose proof (len_nonneg c).
  rewrite (slice_at [] c (s ++ to_be 2 pc ++ to_be 2 ps)) by (done || (change (len []) with 0; lia)). cbn [bind].
  rewrite (slice_at c s (to_be 2 pc ++ to_be 2 ps)) by (done || lia). cbn [bind].
  rewrite (slice_at (c ++ s) (to_be 2 pc) (to_be 2 ps))
    by (first [by rewrite <- app_assoc|rewrite len_app; lia|rewrite len_to_be; lia]). cbn [bind].
  rewrite (slice_at (c ++ s ++ to_be 2 pc) (to_be 2 ps) [])
    by (first [by rewrite app_nil_r, <- !app_assoc|rewrite !len_app, len_to_be; lia|rewrite len_to_be; lia]). cbn [bind].
  by rewrite !from_be_to_be_small.
Qed.

(** A reader as [new] makes it, or after it was used. *)
Definition v2_reader_ok (r : ProxyProtocolV2Reader) : Prop := len (v2r_data_buf r) = PROXY_DATA_V2_MAX_LEN.

Lemma decode_v2_ok c s body rest hdr n :
  sa_ok c -> sa_ok s -> same_family c s = true -> hdr = v2_header c n ->
  decode_v2 {| v2r_hdr_buf := hdr; v2r_data_buf := (addr_block c s ++ body) ++ rest |} (len (addr_block c s ++ body)) =
  Ok (Some {| src_addr := c; dst_addr := s |}).
Proof.
  intros Hc Hs Hf ->. pose proof (len_addr_block c s Hc Hs Hf) as Hl. pose proof (len_nonneg body).
  destruct c as [[c|c] pc], s as [[s|s] ps]; try done; destruct Hc as [Hc Hpc], Hs as [Hs Hps];
    cbn [sa_ip sa_port ip_ok] in *; unfold decode_v2, get_inet_addr, get_inet6_addr;
    (replace (command _) with (Ok 1 : res ProxyProtocolReadError Z) by done);
    (replace (protocol _) with (Ok 1 : res ProxyProtocolReadError Z) by done); cbn [bind Z.eqb Pos.eqb].
  - replace (family _) with (Ok 1 : res ProxyProtocolReadError Z) by done. cbn [bind Z.eqb Pos.eqb].
    rewrite len_app, (proj2 (Z.ltb_ge _ _)) by lia. cbn [v2r_data_buf].
    rewrite (slice_at [] (addr_block {| sa_ip := V4 c; sa_port := pc |} {| sa_ip := V4 s; sa_port := ps |}) (body ++ rest))
      by (first [by rewrite <- app_assoc|done|rewrite Hl; done]). cbn [bind].
    unfold addr_block. cbn [octets sa_ip sa_port]. by rewrite get_addrs_ok by (done || (unfold len; by rewrite ?Hc, ?Hs)).
  - replace (family _) with (Ok 2 : res ProxyProtocolReadError Z) by done. cbn [bind Z.eqb Pos.eqb].
    rewrite len_app, (proj2 (Z.ltb_ge _ _)) by lia. cbn [v2r_data_buf].
    rewrite (slice_at [] (addr_block {| sa_ip := V6 c; sa_port := pc |} {| sa_ip := V6 s; sa_port := ps |}) (body ++ rest))
      by (first [by rewrite <- app_assoc|done|rewrite Hl; done]). cbn [bind].
    unfold addr_block. cbn [octets sa_ip sa_port]. by rewrite get_addrs_ok by (done || (unfold len; by rewrite ?Hc, ?Hs)).
Qed.

Lemma read_v2_ok c s body r :
  sa_ok c -> sa_ok s -> same_family c s = true -> v2_reader_ok r ->
  len (addr_block c s ++ body) <= PROXY_DATA_V2_MAX_LEN ->
  takes (read_proxy_protocol_v2 false r) (Proxy_ReadFailed UnexpectedEof)
    (v2_header c (len (addr_block c s ++ body)) ++ addr_block c s ++ body) (Some {| src_addr := c; dst_addr := s |}).
Proof.
  intros Hc Hs Hf Hr Hl. set (data := addr_block c s ++ body) in *. pose proof (len_nonneg data).
  unfold PROXY_DATA_V2_MAX_LEN, v2_reader_ok in *. unfold read_proxy_protocol_v2, read_in_data.
  eapply (takes_last _ _ _ _ ({| v2r_hdr_buf := v2_header c (len data);
    v2r_data_buf := data ++ drop (length data) (v2r_data_buf r) |}, len data)); [|by apply takes_lift, (decode_v2_ok c s body _ _ (len data))].
  eapply takes_bind; [apply (takes_io _ _ UnexpectedEof); [done|]; apply takes_read_exact, len_v2_header|].
  eapply takes_check; [by apply takes_lift|]. rewrite bool_decide_eq_true_2 by done. cbn [negb].
  eapply takes_check; [by apply takes_lift|]. change (Z.shiftr (u8 (to_u8 BYTE_13_PROXY)) 4 =? 2) with true. cbn [negb].
  eapply takes_check; [apply takes_lift, (slice_at (V2_MAGIC_HEADER ++ [to_u8 BYTE_13_PROXY; byte14 c]) (to_be 2 (len data)) []);
    [by rewrite app_nil_r|done|done]|].
  rewrite from_be_to_be_small by (unfold u16_max; lia). cbn [v2r_data_buf].
  rewrite (proj2 (Z.ltb_ge _ _)) by (rewrite Hr; unfold PROXY_DATA_V2_MAX_LEN; lia).
  eapply takes_last; [apply (takes_io _ _ UnexpectedEof); [done|by apply takes_read_exact]|].
  eapply takes_check; [apply takes_lift, (copy_at [] (v2r_data_buf r)); [done|lia|rewrite Hr; unfold PROXY_DATA_V2_MAX_LEN; lia]|].
  apply takes_ret.
Qed.

(** ** Version 1: reading the line *)

(** What [peek] shows is what a [read] of as many bytes takes. *)
Lemma peek_then_read rd room :
  well_behaved rd -> 0 < room ->
  exists part rd1, peek_await rd room = (Ok part, rd1) /\ (part = [] -> stream_of rd = []) /\ len part <= room /\
    (exists later, stream_of rd = part ++ later) /\
    forall n, 0 < n <= len part ->
      exists rd2, read_await rd1 n = (Ok (take (Z.to_nat n) part), rd2) /\ well_behaved rd2 /\
        stream_of rd2 = drop (Z.to_nat n) (stream_of rd).
Proof.
  intros Hw Hr. induction rd as [|[c| |] rd IH].
  - exists [], []. split_and!; try done; [len_lia|by exists []|]. intros n Hn. exfalso. change (len []) with 0 in Hn. lia.
  - apply Forall_cons in Hw as [Hc Hw]. cbn [peek_await stream_of]. eexists _, _. split; [done|].
    assert (0 < len c) by (destruct c; [done|len_lia]). split_and!.
    + intros E%(f_equal len). len_lia.
    + len_lia.
    + exists (drop (Z.to_nat room) c ++ stream_of rd). by rewrite app_assoc, take_drop.
    + intros n Hn. rewrite len_take in Hn. rewrite take_take. cbn [read_await poll_read].
      replace (Nat.min (Z.to_nat n) (Z.to_nat room)) with (Z.to_nat n) by lia.
      destruct (Z.leb_spec (len c) n).
      * exists rd. rewrite take_ge by (unfold len in *; lia). split; [done|]. split; [done|].
        rewrite drop_app_ge by (unfold len in *; lia). replace (_ - _)%nat with 0%nat by (unfold len in *; lia). done.
      * eexists. split; [done|]. cbn [stream_of]. rewrite drop_app_le by (unfold len in *; lia). split; [|done].
        constructor; [|done]. intros E%(f_equal len). len_lia.
  - apply Forall_cons in Hw as [_ Hw]. cbn [peek_await stream_of]. auto.
  - by apply Forall_cons in Hw as [? _].
Qed.

(** A read into the buffer after what it holds. *)
Lemma read_into_ok got junk c n rd rd' :
  read_await rd n = (Ok c, rd') -> len c = n -> n <= len junk ->
  read_into (got ++ junk) (len got) (len got + n) rd = (Ok ((got ++ c) ++ drop (length c) junk, n), rd').
Proof.
  intros Hr <- Hj. pose proof (len_nonneg got). pose proof (len_nonneg c). unfold read_into, recv_bind, recv_lift, recv_io, recv_ret.
  rewrite slice_ok by (rewrite ?len_app; lia). replace (len got + len c - len got) with (len c) by lia. rewrite Hr. cbn [map_err].
  by rewrite copy_at by (done || lia).
Qed.

Lemma starts_with_app l l' p : (length p <= length l)%nat -> starts_with p (l ++ l') = starts_with p l.
Proof. intros Hl. unfold starts_with. by rewrite take_app_le. Qed.

Lemma starts_with_len l p : starts_with p l = true -> (length p <= length l)%nat.
Proof. intros H%bool_decide_eq_true. apply (f_equal length) in H. rewrite length_take in H. lia. Qed.

(** The check of what has arrived of a line that starts as it should. *)
Lemma check_magic_ok (got junk more : bytes) :
  starts_with COMMON_DATA (got ++ more) = true -> check_magic (got ++ junk) (len got) = Ok tt.
Proof.
  intros H%bool_decide_eq_true. pose proof (len_nonneg got). unfold check_magic.
  destruct (Z.leb_spec (len COMMON_DATA) (len got)).
  - rewrite take_app_le in H by (unfold len in *; lia). rewrite <- (take_drop (length COMMON_DATA) got), H, <- app_assoc.
    rewrite (slice_at [] COMMON_DATA (drop (length COMMON_DATA) got ++ junk)) by done. cbn [bind].
    by rewrite bool_decide_eq_true_2.
  - rewrite (slice_at [] got junk) by (done || lia). cbn [bind].
    rewrite (slice_at [] got (drop (length got) COMMON_DATA)); [|cbn [app]|done|lia].
    + cbn [bind]. by rewrite bool_decide_eq_true_2.
    + rewrite <- (take_drop (length got) COMMON_DATA) at 1. f_equal. rewrite <- H, take_take, take_app_le by lia.
      apply take_ge. unfold len in *. lia.
Qed.

Lemma peek_line_loop_ok fuel got junk p rest :
  x0a ∉ p -> starts_with COMMON_DATA (got ++ p ++ [x0a]) = true ->
  len got + len p < PROXY_DATA_V1_MAX_LEN -> len got + len junk = PROXY_DATA_V1_MAX_LEN ->
  PROXY_DATA_V1_MAX_LEN - len got < Z.of_nat fuel ->
  recvs (peek_line_loop fuel (got ++ junk) (len got)) (p ++ x0a :: rest)
    (Ok ((got ++ p ++ [x0a]) ++ drop (length p + 1) junk, len got + len p + 1)) rest.
Proof.
  unfold PROXY_DATA_V1_MAX_LEN. revert got junk p. induction fuel as [|fuel IH]; intros got junk p Hp Hst Hlen Hj Hf rd Hw Hs.
  { pose proof (len_nonneg p). lia. }
  pose proof (len_nonneg p). pose proof (len_nonneg got). cbn [peek_line_loop]. unfold PROXY_DATA_V1_MAX_LEN.
  destruct (peek_then_read rd 108 Hw ltac:(lia)) as (part & rd1 & Hpk & Hnil & Hroom & (later & Hlater) & Hread).
  unfold recv_bind at 1, recv_io at 1. rewrite Hpk. cbn [map_err]. rewrite Hs in Hnil, Hlater, Hread.
  assert (0 < len part) as Hpos. { destruct part; [|len_lia]. specialize (Hnil eq_refl). by destruct p. }
  rewrite (proj2 (Z.eqb_neq _ _)) by lia. pose proof (memchr_part x0a p rest part later Hp Hlater) as Hm.
  destruct (memchr x0a part) as [n|].
  - destruct Hm as (-> & post & -> & ->). rewrite (proj2 (Z.leb_gt _ _)) by lia.
    destruct (Hread (len p + 1)) as (rd2 & Hr2 & Hw2 & Hs2); [len_lia|].
    assert (take (Z.to_nat (len p + 1)) (p ++ x0a :: post) = p ++ [x0a]) as Ht.
    { rewrite (cons_middle x0a), app_assoc. apply take_app_length'. rewrite length_app. cbn. unfold len. lia. }
    rewrite Ht in Hr2. unfold recv_bind. rewrite (read_into_ok _ _ _ _ _ _ Hr2) by (rewrite ?len_app; change (len [x0a]) with 1; lia).
    rewrite Z.eqb_refl. cbn [negb]. rewrite starts_with_app, Hst by (by apply starts_with_len). cbn [negb]. exists rd2.
    unfold recv_ret. rewrite length_app. split; [do 3 f_equal; lia|]. split; [done|].
    rewrite Hs2, (cons_middle x0a), app_assoc. apply drop_app_length'. rewrite length_app. cbn. unfold len. lia.
  - destruct Hm as (p' & -> & ->). rewrite len_app in *. pose proof (len_nonneg p').
    rewrite (proj2 (Z.leb_gt _ _)) by lia. destruct (Hread (len part)) as (rd2 & Hr2 & Hw2 & Hs2); [lia|].
    rewrite take_ge in Hr2 by (unfold len; lia). unfold recv_bind.
    rewrite (read_into_ok _ _ _ _ _ _ Hr2) by (done || lia). rewrite Z.eqb_refl. cbn [negb].
    rewrite <- !app_assoc, (app_assoc got) in Hst. rewrite <- len_app. unfold recv_lift at 1.
    rewrite (check_magic_ok (got ++ part) _ _ Hst).
    specialize (IH (got ++ part) (drop (length part) junk) p'). rewrite len_app in IH |- *.
    destruct (IH ltac:(by apply not_elem_of_app in Hp as [_ ?]) Hst ltac:(lia) ltac:(rewrite len_drop; unfold len in *; lia) ltac:(lia) rd2 Hw2)
      as (rd3 & Hr3 & Hw3 & Hs3); [rewrite Hs2, <- app_assoc; apply drop_app_length'; unfold len; lia|].
    exists rd3. rewrite Hr3, drop_drop, length_app, <- !app_assoc. split; [|done].
    rewrite Nat.add_assoc. replace (len got + (len part + len p') + 1) with (len got + len part + len p' + 1) by lia. done.
Qed.

(** ** Version 1: parsing the line *)

Lemma split_spaces_cons_not c s : c <> x20 -> exists l ls, split_spaces s = l :: ls /\ split_spaces (c :: s) = (c :: l) :: ls.
Proof.
  intros Hc. cbn [split_spaces]. rewrite bool_decide_eq_false_2 by done. destruct (split_spaces s) as [|l ls] eqn:E; [|eauto].
  destruct s as [|d s]; [done|]. cbn in E. case_bool_decide; [done|]. by destruct (split_spaces s).
Qed.

Lemma split_spaces_field p s : x20 ∉ p -> split_spaces (p ++ [x20] ++ s) = p :: split_spaces s.
Proof.
  cbn [app].
  induction p as [|c p IH]; intros Hp; [done|]. apply not_elem_of_cons in Hp as [Hc Hp].
  cbn [app]. destruct (split_spaces_cons_not c (p ++ x20 :: s)) as (l & ls & E & ->); [congruence|]. rewrite IH in E by done. by injection E as <- <-.
Qed.

Lemma split_spaces_last p : x20 ∉ p -> split_spaces p = [p].
Proof.
  induction p as [|c p IH]; intros Hp; [done|]. apply not_elem_of_cons in Hp as [Hc Hp].
  destruct (split_spaces_cons_not c p) as (l & ls & E & ->); [congruence|]. rewrite IH in E by done. by injection E as <- <-.
Qed.

Lemma ascii_utf8_fuel fuel l : (length l < fuel)%nat -> Forall (fun c => u8 c < 128) l -> utf8_valid_fuel fuel l = true.
Proof.
  revert l. induction fuel as [|fuel IH]; intros [|c l] Hf Hl; [cbn in Hf; lia..|done|]. cbn [length] in Hf.
  apply Forall_cons_1 in Hl as [Hc Hl]. cbn [utf8_valid_fuel].
  assert (utf8_char_len (c :: l) = Some 1%nat) as -> by (cbn; by rewrite (proj2 (Z.ltb_lt _ _))).
  change (drop 1 (c :: l)) with l. apply IH; [lia|done].
Qed.

Lemma from_utf8_ascii {E} (e : E) l : Forall (fun c => u8 c < 128) l -> from_utf8 e l = Ok l.
Proof. intros Hl. unfold from_utf8, utf8_valid. by rewrite ascii_utf8_fuel by (done || lia). Qed.

Lemma next_text_ok e l iter : Forall addr_char l -> next_text e (l :: iter) = Ok (l, iter).
Proof.
  intros Hl. cbn [next_text]. rewrite from_utf8_ascii; [done|]. eapply Forall_impl; [exact Hl|]. cbn. lia.
Qed.

(** No white space ends in a character of an address. *)
Lemma no_white_space d l : addr_char d -> List.find (fun c => bool_decide (take (length c) (d :: l) = c)) (map (@rev byte) white_space) = None.
Proof.
  intros Hd. destruct (List.find _ _) as [c|] eqn:E; [|done]. exfalso. apply List.find_some in E as [Hin Hc].
  apply bool_decide_eq_true in Hc.
  assert (forall x k, In (x :: k) (map (@rev byte) white_space) -> ~ addr_char x) as Hx.
  { intros x k Hk. vm_compute in Hk. repeat (destruct Hk as [[= <- <-]|Hk]; [vm_compute; intros [? ?]; done|]). done. }
  destruct c as [|x k]; [vm_compute in Hin; repeat (destruct Hin as [Hin|Hin]; [done|]); done|].
  cbn in Hc. injection Hc as -> _. by apply (Hx x k Hin).
Qed.

Lemma trim_end_crlf l : Forall addr_char l -> l <> [] -> trim_end (l ++ [x0d; x0a]) = l.
Proof.
  intros Hl Hne. unfold trim_end. rewrite rev_app_distr, length_app, Nat.add_comm. cbn [rev app length Nat.add].
  destruct (rev l) as [|d k] eqn:E; [apply (f_equal (@rev byte)) in E; rewrite rev_involutive in E; done|].
  assert (addr_char d) as Hd.
  { apply (proj1 (Forall_forall _ _) Hl), list_elem_of_In, in_rev. rewrite E. by left. }
  cbn [strip]. replace (List.find _ (map (@rev byte) white_space)) with (Some [x0a]) by done. cbn [length drop].
  cbn [strip]. replace (List.find _ (map (@rev byte) white_space)) with (Some [x0d]) by done. cbn [length drop].
  destruct (length l); cbn [strip]; [|rewrite no_white_space by done]; rewrite <- E; apply rev_involutive.
Qed.

Definition v1_line (c s : SocketAddr) : bytes :=
  bs "PROXY TCP" ++ (match sa_ip c with V4 _ => [x34] | V6 _ => [x36] end) ++ bs " " ++ fmt_ip (sa_ip c) ++ bs " " ++
  fmt_ip (sa_ip s) ++ bs " " ++ fmt_dec (sa_port c) ++ bs " " ++ fmt_dec (sa_port s) ++ [x0d; x0a].

Lemma V1_encode_tcp_ok c s : same_family c s = true -> V1_encode_tcp c s = (v1_line c s, Ok (v1_line c s)).
Proof. by destruct c as [[] ?], s as [[] ?]. Qed.

Lemma addr_char_not_space l : Forall addr_char l -> x20 ∉ l.
Proof. intros Hl. apply addr_chars_not_in; [done|]. vm_compute. intros []. done. Qed.

Lemma parse_addrs_ok c s family_c :
  sa_ok c -> sa_ok s -> same_family c s = true -> family_c = match sa_ip c with V4 _ => x34 | V6 _ => x36 end ->
  parse_addrs family_c [fmt_ip (sa_ip c); fmt_ip (sa_ip s); fmt_dec (sa_port c); fmt_dec (sa_port s) ++ [x0d; x0a]] =
  Ok (Some {| src_addr := c; dst_addr := s |}).
Proof.
  intros [Hc Hpc] [Hs Hps] Hf ->. destruct (fmt_ip_text _ Hc) as [Cc _], (fmt_ip_text _ Hs) as [Cs _].
  unfold parse_addrs. rewrite !next_text_ok by (done || by apply fmt_dec_chars). cbn [bind]. rewrite next_text_ok by done. cbn [bind].
  rewrite next_text_ok by by apply fmt_dec_chars. cbn [bind next_text]. rewrite from_utf8_ascii.
  2:{ apply Forall_app. split; [eapply Forall_impl; [by apply fmt_dec_chars|cbn; lia]|by repeat constructor; vm_compute]. }
  cbn [bind]. rewrite trim_end_crlf by (first [by apply fmt_dec_chars|by apply fmt_dec_digits]).
  rewrite !u16_from_str_fmt by done. destruct c as [[c|c] pc], s as [[s|s] ps]; try done; cbn [sa_ip sa_port fmt_ip ip_ok] in *.
  - by rewrite !ipv4_from_str_fmt.
  - by rewrite !ipv6_from_str_fmt.
Qed.

Lemma parse_buf_ok c s :
  sa_ok c -> sa_ok s -> same_family c s = true -> parse_buf (v1_line c s) = Ok (Some {| src_addr := c; dst_addr := s |}).
Proof.
  intros Hc Hs Hf. pose proof (addr_char_not_space _ (proj1 (fmt_ip_text _ (proj1 Hc)))).
  pose proof (addr_char_not_space _ (proj1 (fmt_ip_text _ (proj1 Hs)))).
  pose proof (addr_char_not_space _ (fmt_dec_chars _ (proj2 Hc))). pose proof (addr_char_not_space _ (fmt_dec_chars _ (proj2 Hs))).
  unfold parse_buf, v1_line. set (fam := match sa_ip c with V4 _ => [x34] | V6 _ => [x36] end).
  change (bs "PROXY TCP") with (COMMON_DATA ++ bs "TCP"). change (bs " ") with [x20]. rewrite <- !app_assoc.
  erewrite (slice_from_at COMMON_DATA); [|reflexivity|reflexivity]. cbn [bind].
  assert (x20 ∉ bs "TCP" ++ fam) as Hfam by (apply not_in_by_decide; unfold fam; by destruct (sa_ip c)).
  rewrite (app_assoc (bs "TCP")), split_spaces_field by done.
  rewrite !split_spaces_field by done. rewrite split_spaces_last by (rewrite not_elem_of_app; split; [done|]; by apply not_in_by_decide).
  pose proof (parse_addrs_ok c s _ Hc Hs Hf eq_refl) as Hp. unfold fam.
  destruct (sa_ip c); change (trim_ascii_end (bs "TCP" ++ [x34])) with (bs "TCP4"); change (trim_ascii_end (bs "TCP" ++ [x36])) with (bs "TCP6");
    cbv beta iota zeta; [change (len (bs "TCP4") =? 4) with true; change (starts_with (bs "TCP") (bs "TCP4")) with true|
    change (len (bs "TCP6") =? 4) with true; change (starts_with (bs "TCP") (bs "TCP6")) with true]; cbn [negb];
    exact Hp.
Qed.

Lemma v1_line_split c s :
  sa_ok c -> sa_ok s -> exists p, v1_line c s = p ++ [x0a] /\ (x0a ∉ p) /\ len p < PROXY_DATA_V1_MAX_LEN /\
    starts_with COMMON_DATA (p ++ [x0a]) = true.
Proof.
  intros [Hc Hpc] [Hs Hps]. destruct (fmt_ip_text _ Hc) as [Cc Lc], (fmt_ip_text _ Hs) as [Cs Ls].
  pose proof (fmt_dec_chars _ Hpc) as Cpc. pose proof (fmt_dec_chars _ Hps) as Cps.
  pose proof (fmt_dec_len_u16 _ Hpc). pose proof (fmt_dec_len_u16 _ Hps).
  assert (forall l, Forall addr_char l -> x0a ∉ l) as Hnl.
  { intros l Hl. apply addr_chars_not_in; [done|]. vm_compute. intros []. done. }
  unfold v1_line. change [x0d; x0a] with ([x0d] ++ [x0a]). rewrite !app_assoc. eexists. split; [reflexivity|]. split_and!.
  - rewrite !not_elem_of_app. split_and!; auto; apply not_in_by_decide; by destruct (sa_ip c).
  - rewrite !len_app. unfold PROXY_DATA_V1_MAX_LEN. change (len (bs "PROXY TCP")) with 9. change (len (bs " ")) with 1.
    change (len [x0d]) with 1. destruct (sa_ip c); cbn [fmt_ip] in *; [change (len [x34]) with 1|change (len [x36]) with 1]; lia.
  - rewrite <- !app_assoc. by destruct (sa_ip c).
Qed.

Lemma read_v1_ok c s data_buf rest :
  sa_ok c -> sa_ok s -> same_family c s = true -> len data_buf = PROXY_DATA_V1_MAX_LEN ->
  recvs (read_proxy_protocol_v1 false data_buf) (v1_line c s ++ rest) (Ok (Some {| src_addr := c; dst_addr := s |})) rest.
Proof.
  intros Hc Hs Hf Hb. destruct (v1_line_split c s Hc Hs) as (p & E & Hp & Hl & Hst). rewrite E, <- app_assoc.
  unfold read_proxy_protocol_v1. eapply recvs_bind.
  - apply (peek_line_loop_ok _ [] data_buf p rest Hp Hst); [done|done|]. change (len []) with 0. unfold PROXY_DATA_V1_MAX_LEN. lia.
  - cbv beta iota. eapply recvs_bind.
    + rewrite (slice_at [] (p ++ [x0a]) (drop (length p + 1) data_buf)) by (done || (rewrite len_app; change (len [x0a]) with 1; change (len []) with 0; lia)).
      apply recvs_lift.
    + rewrite <- E, parse_buf_ok by done. apply recvs_lift.
Qed.

(** ** Any stream *)

Lemma peek_read_any rd room :
  match peek_await rd room with
  | (Ok part, rd1) => forall n, 0 < n <= len part -> exists rd2, read_await rd1 n = (Ok (take (Z.to_nat n) part), rd2)
  | (Err _, _) => True
  | (Panic, _) => False
  end.
Proof.
  induction rd as [|[c| |] rd IH]; cbn [peek_await]; [|..|done]; [| |done].
  - intros n Hn. change (len []) with 0 in Hn. lia.
  - intros n Hn. rewrite len_take in Hn. rewrite take_take. cbn [read_await poll_read].
    replace (Nat.min (Z.to_nat n) (Z.to_nat room)) with (Z.to_nat n) by lia.
    destruct (Z.leb_spec (len c) n); [rewrite take_ge by (unfold len in *; lia)|]; by eexists.
Qed.

Lemma check_magic_safe data_buf offset : 0 <= offset <= len data_buf -> len data_buf = PROXY_DATA_V1_MAX_LEN ->
  check_magic data_buf offset <> Panic.
Proof.
  unfold PROXY_DATA_V1_MAX_LEN, check_magic. intros Ho Hb. destruct (Z.leb_spec (len COMMON_DATA) offset) as [Hl|Hl].
  - change (len COMMON_DATA) with 6 in *. rewrite slice_ok by lia. cbn [bind]. by destruct (negb _).
  - rewrite !slice_ok by lia. cbn [bind]. by destruct (negb _).
Qed.

(** A line that is accepted is longer than the magic: it ends in a line feed. *)
Lemma accepted_line (got c junk : bytes) :
  starts_with COMMON_DATA ((got ++ c ++ [x0a]) ++ junk) = true -> len COMMON_DATA <= len got + len c + 1.
Proof.
  intros H%bool_decide_eq_true. apply Z.nlt_ge. intros Hlt.
  assert (COMMON_DATA !! (length got + length c)%nat = Some x0a) as Hx.
  { rewrite <- H, lookup_take_lt by (unfold len in Hlt; lia). rewrite <- !app_assoc, lookup_app_r by lia.
    rewrite lookup_app_r by lia. by replace (_ - _ - _)%nat with 0%nat by lia. }
  apply list_elem_of_lookup_2 in Hx. revert Hx. by apply not_in_by_decide.
Qed.

Lemma peek_line_loop_safe fuel data_buf offset rd :
  len data_buf = PROXY_DATA_V1_MAX_LEN -> 0 <= offset <= PROXY_DATA_V1_MAX_LEN -> PROXY_DATA_V1_MAX_LEN - offset < Z.of_nat fuel ->
  match (peek_line_loop fuel data_buf offset rd).1 with
  | Ok (b, l) => len b = PROXY_DATA_V1_MAX_LEN /\ len COMMON_DATA <= l <= PROXY_DATA_V1_MAX_LEN
  | Err _ => True
  | Panic => False
  end.
Proof.
  revert data_buf offset rd. induction fuel as [|fuel IH]; intros data_buf offset rd Hb Ho Hf; [lia|].
  cbn [peek_line_loop]. unfold recv_bind at 1, recv_io at 1. pose proof (peek_read_any rd PROXY_DATA_V1_MAX_LEN) as Hp.
  destruct (peek_await rd PROXY_DATA_V1_MAX_LEN) as [[part|e|] rd1]; cbn [map_err]; [|done..].
  destruct (Z.eqb_spec (len part) 0); [done|]. pose proof (len_nonneg part).
  assert (exists got junk, data_buf = got ++ junk /\ len got = offset) as (got & junk & -> & <-).
  { exists (take (Z.to_nat offset) data_buf), (drop (Z.to_nat offset) data_buf). rewrite take_drop, len_take. split; [done|lia]. }
  rewrite len_app in Hb. destruct (memchr x0a part) as [q|] eqn:Em.
  - apply memchr_Some in Em as (pre & post & -> & _ & ->). pose proof (len_nonneg pre). pose proof (len_nonneg post).
    rewrite len_app, len_cons in *. destruct (Z.leb_spec PROXY_DATA_V1_MAX_LEN (len got + len pre)); [done|].
    destruct (Hp (len pre + 1)) as (rd2 & Hr2); [lia|]. unfold recv_bind.
    assert (take (Z.to_nat (len pre + 1)) (pre ++ x0a :: post) = pre ++ [x0a]) as Ht.
    { rewrite (cons_middle x0a), app_assoc. apply take_app_length'. rewrite length_app. cbn. unfold len. lia. }
    rewrite Ht in Hr2. rewrite (read_into_ok _ _ _ _ _ _ Hr2) by (rewrite ?len_app; change (len [x0a]) with 1; lia).
    rewrite Z.eqb_refl. cbn [negb]. destruct (starts_with _ _) eqn:Est; [|done]. cbn [negb recv_ret fst].
    apply accepted_line in Est. rewrite !len_app, len_drop, length_app. change (len [x0a]) with 1. cbn [length]. unfold len in *. lia.
  - destruct (Z.leb_spec PROXY_DATA_V1_MAX_LEN (len got + len part)); [done|].
    destruct (Hp (len part)) as (rd2 & Hr2); [lia|]. rewrite take_ge in Hr2 by (unfold len; lia). unfold recv_bind.
    rewrite (read_into_ok _ _ _ _ _ _ Hr2) by (done || lia). rewrite Z.eqb_refl. cbn [negb].
    assert (len ((got ++ part) ++ drop (length part) junk) = PROXY_DATA_V1_MAX_LEN) as Hb'
      by (rewrite !len_app, len_drop; unfold len in *; lia).
    pose proof (check_magic_safe _ (len got + len part) ltac:(rewrite Hb'; lia) Hb'). unfold recv_lift at 1.
    destruct (check_magic _ _) as [[]|e|]; [|done..]. apply IH; [done|lia|lia].
Qed.

Lemma ok_or_no_panic {E A} (o : option A) (e : E) : ok_or o e <> Panic.
Proof. by destruct o. Qed.

Lemma next_text_no_panic e iter : next_text e iter <> Panic.
Proof. destruct iter as [|f iter]; [done|]. cbn. pose proof (from_utf8_safe e f). by destruct (from_utf8 e f). Qed.

Lemma parse_addrs_no_panic family_c iter : parse_addrs family_c iter <> Panic.
Proof.
  unfold parse_addrs. do 4 (apply bind_no_panic; [apply next_text_no_panic|]; intros [? ?] _).
  apply bind_no_panic.
  - repeat case_bool_decide; [..|done]; do 2 (apply bind_no_panic; [apply ok_or_no_panic|]; intros ? _); done.
  - intros [? ?] _. do 2 (apply bind_no_panic; [apply ok_or_no_panic|]; intros ? _). done.
Qed.

Lemma parse_buf_no_panic data : len COMMON_DATA <= len data -> parse_buf data <> Panic.
Proof.
  intros Hl. unfold parse_buf. rewrite slice_from_ok by (change (len COMMON_DATA) with 6 in *; lia). cbn [bind].
  destruct (split_spaces _) as [|family iter]; [done|]. destruct (Z.eqb_spec (len (trim_ascii_end family)) 4) as [H4|H4].
  - destruct (negb _); [done|]. destruct (lookup_lt_is_Some_2 (trim_ascii_end family) 3) as [x Hx]; [unfold len in H4; lia|].
    rewrite (index_ok _ 3 x) by (done || lia). apply parse_addrs_no_panic.
  - destruct (_ =? 7); [|done]. by case_bool_decide.
Qed.

Lemma read_v1_safe elapsed data_buf rd :
  len data_buf = PROXY_DATA_V1_MAX_LEN -> (read_proxy_protocol_v1 elapsed data_buf rd).1 <> Panic.
Proof.
  intros Hb. unfold read_proxy_protocol_v1. destruct elapsed; [done|]. unfold recv_bind, peek_line.
  pose proof (peek_line_loop_safe (S (Z.to_nat PROXY_DATA_V1_MAX_LEN)) data_buf 0 rd Hb) as Hp.
  unfold PROXY_DATA_V1_MAX_LEN in Hp. specialize (Hp ltac:(lia) ltac:(lia)). change 108 with PROXY_DATA_V1_MAX_LEN in Hp.
  destruct (peek_line_loop _ _ _ _) as [[[b l]|e|] rd1]; cbn [fst] in *; [|done..]. destruct Hp as [Hlb Hl].
  unfold recv_lift. change (len COMMON_DATA) with 6 in Hl. rewrite slice_ok by lia. cbn [fst]. apply parse_buf_no_panic.
  change (len COMMON_DATA) with 6. rewrite len_take, len_drop. lia.
Qed.

Lemma index_no_panic {E} (b : bytes) i : 0 <= i < len b -> exists x, index (E := E) b i = Ok x.
Proof.
  intros Hi. destruct (lookup_lt_is_Some_2 b (Z.to_nat i)) as [x Hx]; [unfold len in Hi; lia|].
  exists x. apply index_ok; [lia|done].
Qed.

Lemma get_addrs_no_panic ip n b : 0 <= n -> len b = n + n + 4 -> get_addrs ip n b <> Panic.
Proof. intros Hn Hb. unfold get_addrs. by rewrite !slice_ok by lia. Qed.

Lemma decode_v2_no_panic r data_len :
  len (v2r_hdr_buf r) = PROXY_HDR_V2_LEN -> v2_reader_ok r -> decode_v2 r data_len <> Panic.
Proof.
  unfold v2_reader_ok, PROXY_HDR_V2_LEN, PROXY_DATA_V2_MAX_LEN. intros Hh Hd.
  unfold decode_v2, command, protocol, family, get_inet_addr, get_inet6_addr.
  destruct (index_no_panic (E := ProxyProtocolReadError) (v2r_hdr_buf r) 12) as [b12 ->]; [lia|].
  destruct (index_no_panic (E := ProxyProtocolReadError) (v2r_hdr_buf r) 13) as [b13 ->]; [lia|]. cbn [bind].
  destruct (_ =? 1); [|by destruct (_ =? 0)]. destruct (_ =? 0); [done|]. destruct (_ =? 1); [|done].
  destruct (_ =? 0); [done|]. destruct (_ =? 1); [|destruct (_ =? 2); [|done]].
  - apply bind_no_panic; [|done]. destruct (_ <? 12); [done|]. rewrite slice_ok by lia. cbn [bind].
    apply get_addrs_no_panic; [lia|]. rewrite len_take, len_drop. lia.
  - apply bind_no_panic; [|done]. destruct (_ <? 36); [done|]. rewrite slice_ok by lia. cbn [bind].
    apply get_addrs_no_panic; [lia|]. rewrite len_take, len_drop. lia.
Qed.

Lemma read_v2_safe elapsed r : v2_reader_ok r -> recv_safe (read_proxy_protocol_v2 elapsed r) (fun _ => True).
Proof.
  intros Hr. unfold read_proxy_protocol_v2. destruct elapsed; [apply safe_fail|].
  eapply (safe_bind _ _ (fun p => len (v2r_hdr_buf p.1) = PROXY_HDR_V2_LEN /\ v2_reader_ok p.1)).
  - eapply safe_bind; [apply safe_io, safe_read_exact; done|]. intros hdr Hh. cbn in Hh. unfold PROXY_HDR_V2_LEN in Hh.
    eapply (safe_bind _ _ (fun _ => True)); [apply safe_lift; by rewrite slice_ok by (change (len V2_MAGIC_HEADER) with 12; lia)|].
    intros magic _. destruct (negb _); [apply safe_fail|].
    eapply (safe_bind _ _ (fun _ => True)).
    { apply safe_lift. unfold version. cbn [v2r_hdr_buf].
      by destruct (index_no_panic (E := ProxyProtocolReadError) hdr 12) as [b ->]; [lia|]. }
    intros v _. destruct (negb _); [apply safe_fail|].
    eapply (safe_bind _ _ (fun _ => True)); [apply safe_lift; by rewrite slice_ok by lia|]. intros len_b _. cbn [v2r_data_buf].
    destruct (Z.ltb_spec (len (v2r_data_buf r)) (from_be len_b)); [apply safe_fail|]. pose proof (from_be_range len_b).
    eapply safe_bind; [apply safe_io, safe_read_exact; lia|]. intros data Hd. cbn in Hd.
    eapply (safe_bind _ _ (fun b => len b = len (v2r_data_buf r))).
    { apply safe_lift. rewrite (copy_at [] (v2r_data_buf r)) by (done || lia). cbn [app].
      rewrite len_app, len_drop. unfold len in *. lia. }
    intros b Hb. apply safe_ret. split; [done|]. unfold v2_reader_ok in *. cbn. by rewrite Hb.
  - intros [r' n] [Hh Hr']. apply safe_lift. pose proof (decode_v2_no_panic r' n Hh Hr'). by destruct (decode_v2 r' n).
Qed.

(** ** Properties *)

(** The fields that are added to a header of version 2, in order. *)
Fixpoint push_tlvs (e : ProxyProtocolV2Encoder) (tlvs : list (Z * bytes)) : res ProxyProtocolEncodeError ProxyProtocolV2Encoder :=
  match tlvs with
  | [] => Ok e
  | (key, value) :: tlvs =>
      let (e, r) := push_tlv e key value in
      let? _ := r in
      push_tlvs e tlvs
  end.

Definition tlv_bytes (tlvs : list (Z * bytes)) : bytes := concat (map (fun '(key, value) => tlv key value) tlvs).

Lemma push_tlvs_ok e data tlvs :
  holds e data -> len data + len (tlv_bytes tlvs) <= V2_BUF_CAP ->
  exists e', push_tlvs e tlvs = Ok e' /\ holds e' (data ++ tlv_bytes tlvs).
Proof.
  revert e data. induction tlvs as [|[key value] tlvs IH]; intros e data He Hl; cbn [push_tlvs].
  - exists e. split; [done|]. unfold tlv_bytes. by rewrite app_nil_r.
  - unfold tlv_bytes in *. cbn [map concat] in *. rewrite len_app in Hl. unfold tlv in Hl at 1. rewrite len_cons, len_app, len_to_be in Hl.
    pose proof (len_nonneg (concat (map (fun '(key, value) => tlv key value) tlvs))).
    destruct (proj1 (push_tlv_ok e data key value He) ltac:(lia)) as (e1 & -> & H1). cbn [bind]. rewrite app_assoc.
    apply IH; [done|]. unfold tlv at 1. rewrite len_app, len_cons, len_app, len_to_be. lia.
Qed.

(** C17: a PROXY header of version 2.  For two addresses of one family and any
    fields that fit into the 536 bytes of the encoder behind the header, which
    has 28 bytes for IPv4 and 52 for IPv6, every field is added, and what
    [finalize] returns is read back as the two addresses, in whatever parts it
    arrives and whatever the buffer of the reader held, with all the fields
    consumed and nothing after them; a connection that closes inside the header
    is a failed read.  A further field that does not fit, of any length, is an
    error and leaves the encoder as it was, and addresses of different families
    are refused. *)
Theorem proxy_v2_roundtrip (c s : SocketAddr) (tlvs : list (Z * bytes)) (r : ProxyProtocolV2Reader) :
  sa_ok c -> sa_ok s -> v2_reader_ok r ->
  (same_family c s = true -> match sa_ip c with V4 _ => 28 | V6 _ => 52 end + len (tlv_bytes tlvs) <= V2_BUF_CAP ->
     exists e e' e'' msg, V2Encoder_new_tcp c s = Ok e /\ push_tlvs e tlvs = Ok e' /\ finalize e' = Ok (e'', msg) /\
       takes (read_proxy_protocol_v2 false r) (Proxy_ReadFailed UnexpectedEof) msg (Some {| src_addr := c; dst_addr := s |}) /\
       forall key value, V2_BUF_CAP < len msg + 3 + len value ->
         push_tlv e' key value = (e', Err (if u16_max <? len value then InvalidU16Length else TotalLengthOverflow))) /\
  (same_family c s = false -> V2Encoder_new_tcp c s = Err AddressFamilyNotMatch).
Proof.
  intros Hc Hs Hr. split.
  - intros Hf Hl. destruct (V2Encoder_new_tcp_ok c s Hc Hs Hf) as (e & He & Hh). pose proof (len_addr_block c s Hc Hs Hf) as Ha.
    assert (16 + len (addr_block c s) + len (tlv_bytes tlvs) <= V2_BUF_CAP) as Hfit by (rewrite Ha; destruct (sa_ip c); lia).
    destruct (push_tlvs_ok e _ tlvs Hh) as (e' & He' & Hh'); [rewrite len_app, len_v2_header; lia|].
    rewrite <- app_assoc in Hh'. destruct (finalize_ok e' c _ _ Hh') as (e'' & He''). exists e, e', e''. eexists.
    split_and!; [done|done|exact He''|..].
    + apply read_v2_ok; try done. rewrite len_app. unfold V2_BUF_CAP, PROXY_DATA_V2_MAX_LEN in *. lia.
    + intros key value Hv. rewrite len_app, len_v2_header in Hv. destruct (push_tlv_ok e' _ key value Hh') as [_ Hov].
      apply Hov. rewrite len_app, len_v2_header. lia.
  - destruct c as [[] ?], s as [[] ?]; done.
Qed.

(** A PROXY line of version 1.  Two addresses of one family are written as a
    line that the reader reads back as those addresses, in whatever parts the
    line arrives and whatever the buffer of the reader held, leaving what follows
    the line on the stream; addresses of different families are refused. *)
Theorem proxy_v1_roundtrip (c s : SocketAddr) (data_buf : bytes) :
  sa_ok c -> sa_ok s -> len data_buf = PROXY_DATA_V1_MAX_LEN ->
  (same_family c s = true ->
     exists line, V1_encode_tcp c s = (line, Ok line) /\
       forall rest, recvs (read_proxy_protocol_v1 false data_buf) (line ++ rest)
         (Ok (Some {| src_addr := c; dst_addr := s |})) rest) /\
  (same_family c s = false -> (V1_encode_tcp c s).2 = Err AddressFamilyNotMatch).
Proof.
  intros Hc Hs Hb. split.
  - intros Hf. exists (v1_line c s). split; [by apply V1_encode_tcp_ok|]. intros rest. by apply read_v1_ok.
  - by destruct c as [[] ?], s as [[] ?].
Qed.

(** No peer can make a reader of PROXY headers panic: whatever arrives, in
    whatever parts, with errors, the end of the stream or the timer anywhere,
    both readers return an answer or an error; the assertion that a read takes
    what was peeked holds, and no line that is accepted is shorter than the text
    that is skipped before it is parsed. *)
Theorem proxy_readers_never_panic (elapsed : bool) (data_buf : bytes) (r : ProxyProtocolV2Reader) (rd : reader) :
  len data_buf = PROXY_DATA_V1_MAX_LEN -> v2_reader_ok r ->
  (read_proxy_protocol_v1 elapsed data_buf rd).1 <> Panic /\ (read_proxy_protocol_v2 elapsed r rd).1 <> Panic.
Proof.
  intros Hb Hr. split; [by apply read_v1_safe|]. pose proof (read_v2_safe elapsed r Hr rd) as Hs. intros E. by rewrite E in Hs.
Qed.

(** ** Witnesses *)

Module Sample.

Definition client : SocketAddr := {| sa_ip := V4 [x0a; x00; x00; x01]; sa_port := 40000 |}.
Definition server : SocketAddr := {| sa_ip := V4 [x0a; x00; x00; x02]; sa_port := 443 |}.

Lemma client_ok : sa_ok client.
Proof. split; [reflexivity|split; apply Z.leb_le; reflexivity]. Defined.

Lemma server_ok : sa_ok server.
Proof. split; [reflexivity|split; apply Z.leb_le; reflexivity]. Defined.

Lemma proxy_v2_roundtrip_witness :
  exists e e' e'' msg, V2Encoder_new_tcp client server = Ok e /\
    push_tlvs e [(PP2_TYPE_CUSTOM_USERNAME, bs "alice")] = Ok e' /\ finalize e' = Ok (e'', msg) /\
    takes (read_proxy_protocol_v2 false V2Reader_new) (Proxy_ReadFailed UnexpectedEof) msg
      (Some {| src_addr := client; dst_addr := server |}).
Proof.
  destruct (proxy_v2_roundtrip client server [(PP2_TYPE_CUSTOM_USERNAME, bs "alice")] V2Reader_new client_ok server_ok eq_refl)
    as [H _].
  destruct H as (e & e' & e'' & msg & H1 & H2 & H3 & H4 & _); [reflexivity|apply Z.leb_le; reflexivity|].
  exists e, e', e'', msg. split; [exact H1|]. split; [exact H2|]. split; [exact H3|exact H4].
Defined.

Lemma proxy_v1_roundtrip_witness :
  exists line, V1_encode_tcp client server = (line, Ok line) /\
    forall rest, recvs (read_proxy_protocol_v1 false (replicate 108 x00)) (line ++ rest)
      (Ok (Some {| src_addr := client; dst_addr := server |})) rest.
Proof.
  refine (proj1 (proxy_v1_roundtrip client server (replicate 108 x00) client_ok server_ok _) _); reflexivity.
Defined.

Lemma proxy_readers_never_panic_witness :
  (read_proxy_protocol_v1 false (replicate 108 x00) [Data (bs "PRO"); IoError]).1 <> Panic.
Proof.
  refine (proj1 (proxy_readers_never_panic false (replicate 108 x00) V2Reader_new [Data (bs "PRO"); IoError] _ _)); reflexivity.
Defined.

End Sample.
