(* ===== verification/TlsExtension.v ===== *)
(** * TLS extensions

    Models [lib/vey-codec/src/tls/extension.rs] (extensions, the lookup and the
    iterator over an extension list) and the two extension values the proxy
    reads, [lib/vey-types/src/net/tls/server_name.rs] and
    [lib/vey-types/src/net/tls/alpn.rs]. *)

From Stdlib Require Import ZArith Lia Strings.Byte.
From stdpp Require Import base list.
From S2P Require Import Prelude Domain.

(** ** Extensions *)

Inductive ExtensionType : Type :=
| ServerName
| MaxFragmentLength
| StatusRequest
| SupportedGroups
| SignatureAlgorithms
| UseSrtp
| Heartbeat
| ApplicationLayerProtocolNegotiation
| SignedCertificateTimestamp
| ClientCertificateType
| ServerCertificateType
| Padding
| PreSharedKey
| EarlyData
| SupportedVersions
| Cookie
| PskKeyExchangeModes
| CertificateAuthorities
| OidFilters
| PostHandshakeAuth
| SignatureAlgorithmsCert
| KeyShare
| Unknown (n : Z).

#[global] Instance ExtensionType_eq_dec : EqDecision ExtensionType.
Proof. solve_decision. Defined.

Definition ExtensionType_from (value : Z) : ExtensionType :=
  match value with
  | 0 => ServerName
  | 1 => MaxFragmentLength
  | 5 => StatusRequest
  | 10 => SupportedGroups
  | 13 => SignatureAlgorithms
  | 14 => UseSrtp
  | 15 => Heartbeat
  | 16 => ApplicationLayerProtocolNegotiation
  | 18 => SignedCertificateTimestamp
  | 19 => ClientCertificateType
  | 20 => ServerCertificateType
  | 21 => Padding
  | 41 => PreSharedKey
  | 42 => EarlyData
  | 43 => SupportedVersions
  | 44 => Cookie
  | 45 => PskKeyExchangeModes
  | 47 => CertificateAuthorities
  | 48 => OidFilters
  | 49 => PostHandshakeAuth
  | 50 => SignatureAlgorithmsCert
  | 51 => KeyShare
  | n => Unknown n
  end.

Inductive ExtensionParseError : Type :=
| Extension_NotEnoughData
| Extension_InvalidLength.

Record Extension : Type := {
  ext_type : ExtensionType;
  ext_len : Z;
  ext_data : option bytes
}.

Definition Extension_HEADER_LEN : Z := 4.

(** [u16::from_be_bytes([data[i], data[i + 1]])] *)
Definition be16 {E} (data : bytes) (i : Z) : res E Z :=
  let? b0 := index data i in
  let? b1 := index data (i + 1) in
  Ok (from_be [b0; b1]).

Definition Extension_parse (data : bytes) : res ExtensionParseError Extension :=
  if len data <? Extension_HEADER_LEN then Err Extension_NotEnoughData
  else
    let? ty := be16 data 0 in
    let? elen := be16 data 2 in
    if elen =? 0 then
      Ok {| ext_type := ExtensionType_from ty; ext_len := elen; ext_data := None |}
    else
      let start := Extension_HEADER_LEN in
      let fin := start + elen in
      if len data <? fin then Err Extension_InvalidLength
      else
        let? d := slice data start fin in
        Ok {| ext_type := ExtensionType_from ty; ext_len := elen; ext_data := Some d |}.

(** The loop of [ExtensionList::get_ext].  Every round advances by at least the
    header. *)
Fixpoint get_ext_loop (fuel : nat) (full_data : bytes) (offset : Z) (ty : ExtensionType)
    : res ExtensionParseError (option bytes) :=
  match fuel with
  | O => Panic
  | S fuel' =>
      if offset <? len full_data then
        let? left := slice_from full_data offset in
        let? ext := Extension_parse left in
        if bool_decide (ext_type ext = ty) then Ok (ext_data ext)
        else
          let? offset := uadd offset (Extension_HEADER_LEN + ext_len ext) in
          get_ext_loop fuel' full_data offset ty
      else Ok None
  end.

Definition ExtensionList_get_ext (full_data : bytes) (ty : ExtensionType) :=
  get_ext_loop (S (length full_data)) full_data 0 ty.

Record ExtensionIter : Type := { ei_data : bytes; ei_offset : Z }.

Definition ExtensionIter_new (data : bytes) : ExtensionIter :=
  {| ei_data := data; ei_offset := 0 |}.

Definition ExtensionIter_next (self : ExtensionIter)
    : res False (option (Extension + ExtensionParseError) * ExtensionIter) :=
  if ei_offset self <? len (ei_data self) then
    let? left := slice_from (ei_data self) (ei_offset self) in
    match Extension_parse left with
    | Ok ext =>
        let? offset := uadd (ei_offset self) (Extension_HEADER_LEN + ext_len ext) in
        Ok (Some (inl ext), {| ei_data := ei_data self; ei_offset := offset |})
    | Err e =>
        Ok (Some (inr e), {| ei_data := ei_data self; ei_offset := len (ei_data self) |})
    | Panic => Panic
    end
  else Ok (None, self).

(** [iter.collect()]: at most [fuel] items. *)
Fixpoint ExtensionIter_collect (fuel : nat) (self : ExtensionIter)
    : res False (list (Extension + ExtensionParseError)) :=
  match fuel with
  | O => Panic
  | S fuel' =>
      let? '(item, self') := ExtensionIter_next self in
      match item with
      | None => Ok []
      | Some x =>
          let? rest := ExtensionIter_collect fuel' self' in
          Ok (x :: rest)
      end
  end.

(** ** The server name extension *)

Inductive TlsServerNameError : Type :=
| Sni_NotEnoughData (n : Z)
| Sni_InvalidListLength (n : Z)
| Sni_InvalidNameType (n : Z)
| Sni_InvalidNameLength (n : Z)
| Sni_InvalidDomain (e : DomainNameParseError).

Record TlsServerName : Type := { sni_domain : DomainName }.

Section ServerNameExtension.
Context (to_ascii : bytes -> option bytes).

Definition TlsServerName_from_extension_value (buf : bytes)
    : res TlsServerNameError TlsServerName :=
  let buf_len := len buf in
  if buf_len <? 5 then Err (Sni_NotEnoughData buf_len)
  else
    let? list_len := be16 buf 0 in
    if negb (list_len + 2 =? buf_len) then Err (Sni_InvalidListLength list_len)
    else
      let? name_type := index buf 2 in
      if negb (u8 name_type =? 0) then Err (Sni_InvalidNameType (u8 name_type))
      else
        let? name_len := be16 buf 3 in
        if buf_len <? name_len + 5 then Err (Sni_InvalidNameLength name_len)
        else
          let? name := slice buf 5 (5 + name_len) in
          let? domain := map_err Sni_InvalidDomain (DomainName_parse to_ascii name) in
          Ok {| sni_domain := domain |}.

End ServerNameExtension.

(** ** The ALPN extension *)

Inductive TlsAlpnError : Type :=
| Alpn_NotEnoughData (n : Z)
| Alpn_InvalidListLength (n : Z)
| Alpn_EmptyProtocolName
| Alpn_TruncatedProtocolName.

Record TlsAlpn : Type := { alpn_raw_list : bytes }.

(** The validation loop.  Every round advances by at least two bytes. *)
Fixpoint alpn_check_loop (fuel : nat) (buf : bytes) (offset : Z) : res TlsAlpnError unit :=
  match fuel with
  | O => Panic
  | S fuel' =>
      match Z.compare (len buf) offset with
      | Eq => Ok tt
      | Lt => Err Alpn_TruncatedProtocolName
      | Gt =>
          let? name_len := index buf offset in
          if u8 name_len =? 0 then Err Alpn_EmptyProtocolName
          else
            let? offset := uadd offset (1 + u8 name_len) in
            alpn_check_loop fuel' buf offset
      end
  end.

Definition TlsAlpn_from_extension_value (buf : bytes) : res TlsAlpnError TlsAlpn :=
  let buf_len := len buf in
  if buf_len <? 2 then Err (Alpn_NotEnoughData buf_len)
  else
    let? list_len := be16 buf 0 in
    if negb (list_len + 2 =? buf_len) then Err (Alpn_InvalidListLength list_len)
    else
      let? _ := alpn_check_loop (S (length buf)) buf 2 in
      let? raw_list := slice_from buf 2 in
      Ok {| alpn_raw_list := raw_list |}.

(** The loop of [retain_clone]. *)
Fixpoint retain_loop {E} (fuel : nat) (retain : bytes -> bool) (raw_list : bytes)
    (offset : Z) (new : bytes) : res E bytes :=
  match fuel with
  | O => Panic
  | S fuel' =>
      if offset <? len raw_list then
        let? l := index raw_list offset in
        let n := u8 l in
        if len raw_list <? offset + n then Ok new
        else
          let start := offset + 1 in
          let fin := start + n in
          let? name := slice raw_list start fin in
          let? new :=
            if retain name then
              let? item := slice raw_list offset fin in
              Ok (new ++ item)
            else Ok new in
          retain_loop fuel' retain raw_list fin new
      else Ok new
  end.

Definition TlsAlpn_retain_clone {E} (self : TlsAlpn) (retain : bytes -> bool) : res E TlsAlpn :=
  let? new := retain_loop (S (length (alpn_raw_list self))) retain (alpn_raw_list self) 0 [] in
  Ok {| alpn_raw_list := new |}.

Definition TlsAlpn_is_empty (self : TlsAlpn) : bool := len (alpn_raw_list self) =? 0.

Inductive AlpnProtocol : Type :=
| Http10 | Http11 | Http2 | Http3 | Ftp | Smtp | Imap | Pop3 | Nntp | Nnsp | Mqtt
| DnsOverTls | DnsOverQuic.

Definition AlpnProtocol_as_str (p : AlpnProtocol) : bytes :=
  match p with
  | Http10 => bs "http/1.0"
  | Http11 => bs "http/1.1"
  | Http2 => bs "h2"
  | Http3 => bs "h3"
  | Ftp => bs "ftp"
  | Smtp => bs "smtp"
  | Imap => bs "imap"
  | Pop3 => bs "pop3"
  | Nntp => bs "nntp"
  | Nnsp => bs "nnsp"
  | Mqtt => bs "mqtt"
  | DnsOverTls => bs "dot"
  | DnsOverQuic => bs "doq"
  end.

Definition wired_identification_sequence (p : AlpnProtocol) : bytes :=
  match p with
  | Http10 => x08 :: bs "http/1.0"
  | Http11 => x08 :: bs "http/1.1"
  | Http2 => x02 :: bs "h2"
  | Http3 => x02 :: bs "h3"
  | Ftp => x03 :: bs "ftp"
  | Smtp => x04 :: bs "smtp"
  | Imap => x04 :: bs "imap"
  | Pop3 => x04 :: bs "pop3"
  | Nntp => x04 :: bs "nntp"
  | Nnsp => x04 :: bs "nnsp"
  | Mqtt => x04 :: bs "mqtt"
  | DnsOverTls => x03 :: bs "dot"
  | DnsOverQuic => x03 :: bs "doq"
  end.

Definition identification_sequence {E} (p : AlpnProtocol) : res E bytes :=
  slice_from (wired_identification_sequence p) 1.

Definition from_selected (buf : bytes) : option AlpnProtocol :=
  if bool_decide (buf = bs "http/1.0") then Some Http10
  else if bool_decide (buf = bs "http/1.1") then Some Http11
  else if bool_decide (buf = bs "h2") then Some Http2
  else if bool_decide (buf = bs "h3") then Some Http3
  else if bool_decide (buf = bs "ftp") then Some Ftp
  else if bool_decide (buf = bs "smtp") then Some Smtp
  else if bool_decide (buf = bs "imap") then Some Imap
  else if bool_decide (buf = bs "pop3") then Some Pop3
  else if bool_decide (buf = bs "nntp") then Some Nntp
  else if bool_decide (buf = bs "nnsp") then Some Nnsp
  else if bool_decide (buf = bs "mqtt") then Some Mqtt
  else if bool_decide (buf = bs "dot") then Some DnsOverTls
  else if bool_decide (buf = bs "doq") then Some DnsOverQuic
  else None.

Definition encode_wired_list (protocols : list AlpnProtocol) : bytes :=
  fold_left (fun buf p => buf ++ wired_identification_sequence p) protocols [].

(** ** The items of an extension list *)

Section Items.

Lemma wp_be16 {E} (data : bytes) i (Q : Z -> Prop) (R : E -> Prop) :
  0 <= i -> i + 1 < len data -> (forall v, 0 <= v <= u16_max -> Q v) -> wp (be16 data i) Q R.
Proof.
  intros. unfold be16. wp_go. apply H1. pose proof (from_be_range [b; b0]) as Hr.
  change (256 ^ len [b; b0]) with 65536 in Hr. unfold u16_max. lia.
Qed.

Lemma Extension_parse_wp data :
  len data <= isize_max ->
  wp (Extension_parse data)
    (fun e => 0 <= ext_len e /\ Extension_HEADER_LEN + ext_len e <= len data) (fun _ => True).
Proof.
  intros Hlen. unfold Extension_parse, Extension_HEADER_LEN.
  destruct (Z.ltb_spec (len data) 4); [done|].
  wp_step. apply wp_be16; [lia..|]. intros ty Hty.
  wp_step. apply wp_be16; [lia..|]. intros el Hel.
  wp_go; try done; cbn; lia.
Qed.

(** The extensions at the front of [data], and the error that ends them. *)
Fixpoint ext_items (fuel : nat) (data : bytes) : list (Extension + ExtensionParseError) :=
  match fuel, data with
  | S fuel', _ :: _ =>
      match Extension_parse data with
      | Ok e => inl e :: ext_items fuel' (drop (Z.to_nat (Extension_HEADER_LEN + ext_len e)) data)
      | Err e => [inr e]
      | Panic => []
      end
  | _, _ => []
  end.

(** The first extension of a type, or the error met before it. *)
Fixpoint find_ext (ty : ExtensionType) (items : list (Extension + ExtensionParseError))
    : res ExtensionParseError (option bytes) :=
  match items with
  | [] => Ok None
  | inr e :: _ => Err e
  | inl x :: items' => if bool_decide (ext_type x = ty) then Ok (ext_data x) else find_ext ty items'
  end.

Lemma ext_items_fuel n m data :
  len data <= isize_max -> (length data <= n)%nat -> (length data <= m)%nat ->
  ext_items n data = ext_items m data.
Proof.
  revert m data. induction n as [|n IH]; intros [|m] data Hlen Hn Hm; try done;
    destruct data as [|b data]; try (cbn in *; lia); try done.
  cbn [ext_items]. pose proof (Extension_parse_wp (b :: data) Hlen) as Hp.
  destruct (Extension_parse (b :: data)) as [e|e|]; [|done..].
  destruct Hp as [Hp _]. f_equal. unfold Extension_HEADER_LEN.
  assert (Z.to_nat (4 + ext_len e) <> 0%nat) by lia.
  apply IH; rewrite ?length_drop; cbn [length] in *; [|lia..]. len_lia.
Qed.

Lemma slice_from_step {E} (data : bytes) o :
  0 <= o < len data -> exists b r, slice_from (E := E) data o = Ok (b :: r) /\
    drop (Z.to_nat o) data = b :: r.
Proof.
  intros Ho. rewrite slice_from_ok by lia.
  destruct (drop (Z.to_nat o) data) as [|b r] eqn:Hd; [|by eexists _, _].
  apply (f_equal len) in Hd. len_lia.
Qed.

Lemma get_ext_loop_eq n m data o ty :
  len data <= isize_max -> 0 <= o <= len data ->
  (Z.to_nat (len data - o) < n)%nat -> (Z.to_nat (len data - o) <= m)%nat ->
  get_ext_loop n data o ty = find_ext ty (ext_items m (drop (Z.to_nat o) data)).
Proof.
  intros Hlen. revert m o. induction n as [|n IH]; intros m o Ho Hn Hm; [lia|]. cbn [get_ext_loop].
  destruct (Z.ltb_spec o (len data)).
  2: { rewrite drop_ge by (unfold len in *; lia). by destruct m. }
  destruct m as [|m]; [lia|].
  destruct (slice_from_step (E := ExtensionParseError) data o ltac:(lia)) as (b & r & -> & Hd).
  cbn [bind]. rewrite Hd. cbn [ext_items]. rewrite <- Hd.
  assert (len (drop (Z.to_nat o) data) = len data - o) as Hl by len_lia.
  pose proof (Extension_parse_wp (drop (Z.to_nat o) data) ltac:(lia)) as Hp.
  destruct (Extension_parse _) as [e|e|]; [|done..]. destruct Hp as [Hp1 Hp2]. cbn [bind find_ext].
  destruct (bool_decide _); [done|]. unfold Extension_HEADER_LEN in *.
  rewrite uadd_ok by len_lia. cbn [bind]. rewrite (IH m) by lia.
  rewrite drop_drop. do 3 f_equal. lia.
Qed.

Lemma ExtensionIter_collect_eq n m data o :
  len data <= isize_max -> 0 <= o <= len data ->
  (Z.to_nat (len data - o) < n)%nat -> (Z.to_nat (len data - o) <= m)%nat ->
  ExtensionIter_collect n {| ei_data := data; ei_offset := o |} =
    Ok (ext_items m (drop (Z.to_nat o) data)).
Proof.
  intros Hlen. revert m o. induction n as [|n IH]; intros m o Ho Hn Hm; [lia|].
  cbn [ExtensionIter_collect]. unfold ExtensionIter_next. cbn [ei_offset ei_data].
  destruct (Z.ltb_spec o (len data)).
  2: { rewrite drop_ge by (unfold len in *; lia). by destruct m. }
  destruct m as [|m]; [lia|].
  destruct (slice_from_step (E := False) data o ltac:(lia)) as (b & r & -> & Hd).
  cbn [bind]. rewrite Hd. cbn [ext_items]. rewrite <- Hd.
  assert (len (drop (Z.to_nat o) data) = len data - o) as Hl by len_lia.
  pose proof (Extension_parse_wp (drop (Z.to_nat o) data) ltac:(lia)) as Hp.
  destruct (Extension_parse _) as [e|e|]; [|cbn [bind]|done].
  - destruct Hp as [Hp1 Hp2]. unfold Extension_HEADER_LEN in *.
    rewrite uadd_ok by len_lia. cbn [bind]. rewrite (IH m) by lia. cbn [bind].
    rewrite drop_drop. do 4 f_equal. lia.
  - destruct n as [|n]; [lia|]. cbn [ExtensionIter_collect]. unfold ExtensionIter_next.
    cbn [ei_offset ei_data]. rewrite Z.ltb_irrefl. done.
Qed.

End Items.

(** ** Encodings *)

Section Encodings.

(** RFC 8446 4.2: type, length, value. *)
Definition ext_bytes (x : Z * bytes) : bytes := to_be 2 (fst x) ++ to_be 2 (len (snd x)) ++ snd x.

Definition ext_fits (x : Z * bytes) : Prop := 0 <= fst x <= u16_max /\ len (snd x) <= u16_max.

Definition ext_of (x : Z * bytes) : Extension := {|
  ext_type := ExtensionType_from (fst x);
  ext_len := len (snd x);
  ext_data := if len (snd x) =? 0 then None else Some (snd x)
|}.

Lemma be16_to_be {E} pre v post :
  0 <= v <= u16_max -> be16 (E := E) (pre ++ to_be 2 v ++ post) (len pre) = Ok v.
Proof.
  intros Hv. unfold be16. cbn [to_be app].
  rewrite (index_ok _ _ (to_u8 (Z.shiftr v (8 * Z.of_nat 1)))).
  2: apply len_nonneg.
  2: { unfold len. rewrite Nat2Z.id, lookup_app_r, Nat.sub_diag by lia. done. }
  cbn [bind]. rewrite (index_ok _ _ (to_u8 (Z.shiftr v (8 * Z.of_nat 0)))).
  2: len_lia.
  2: { unfold len. rewrite lookup_app_r by lia.
       by replace (Z.to_nat (Z.of_nat (length pre) + 1) - length pre)%nat with 1%nat by lia. }
  cbn [bind]. f_equal. change ([to_u8 _; to_u8 _]) with (to_be 2 v).
  rewrite from_be_to_be. apply Z.mod_small. unfold u16_max in Hv. cbn. lia.
Qed.

Lemma Extension_parse_bytes x rest :
  ext_fits x -> Extension_parse (ext_bytes x ++ rest) = Ok (ext_of x).
Proof.
  destruct x as [ty d]. intros [Hty Hd]. unfold ext_bytes, ext_of in *. cbn [fst snd] in *.
  unfold Extension_parse, Extension_HEADER_LEN.
  assert (len ((to_be 2 ty ++ to_be 2 (len d) ++ d) ++ rest) = 4 + len d + len rest) as Hl.
  { rewrite !len_app, !len_to_be. lia. }
  rewrite Hl. destruct (Z.ltb_spec (4 + len d + len rest) 4); [len_lia|].
  rewrite <- !app_assoc.
  pose proof (be16_to_be (E := ExtensionParseError) [] ty (to_be 2 (len d) ++ d ++ rest) Hty) as H1.
  pose proof (be16_to_be (E := ExtensionParseError) (to_be 2 ty) (len d) (d ++ rest)
    ltac:(len_lia)) as H2.
  rewrite len_to_be in H2. cbn [app] in H1. change (len []) with 0 in H1. 
  change (Z.of_nat 2) with 2 in H2. rewrite H1. cbn [bind]. rewrite H2. cbn [bind].
  destruct (Z.eqb_spec (len d) 0); [done|].
  destruct (Z.ltb_spec (4 + len d + len rest) (4 + len d)); [len_lia|].
  pose proof (slice_app (E := ExtensionParseError) (to_be 2 ty ++ to_be 2 (len d)) d rest) as Hs.
  rewrite len_app, !len_to_be, <- app_assoc in Hs. change (Z.of_nat 2 + Z.of_nat 2) with 4 in Hs.
  by rewrite Hs.
Qed.

Lemma len_ext_bytes x : len (ext_bytes x) = Extension_HEADER_LEN + len (snd x).
Proof. unfold ext_bytes, Extension_HEADER_LEN. rewrite !len_app, !len_to_be. lia. Qed.

Lemma ext_items_bytes xs n :
  Forall ext_fits xs -> (length (concat (map ext_bytes xs)) <= n)%nat ->
  ext_items n (concat (map ext_bytes xs)) = map (fun x => inl (ext_of x)) xs.
Proof.
  intros Hxs. revert n. induction Hxs as [|x xs Hx Hxs IH]; intros n Hn; [by destruct n|].
  cbn [map concat] in *. pose proof (len_ext_bytes x) as Hlen.
  rewrite length_app in Hn. unfold Extension_HEADER_LEN, len in Hlen.
  destruct n as [|n]; [lia|].
  assert (exists b r, ext_bytes x ++ concat (map ext_bytes xs) = b :: r) as (b & r & Hbr).
  { destruct (ext_bytes x); [cbn in Hlen; lia|]. by eexists _, _. }
  cbn [ext_items]. rewrite Hbr. rewrite <- Hbr, Extension_parse_bytes by done. f_equal.
  unfold Extension_HEADER_LEN. cbn [ext_of ext_len].
  replace (Z.to_nat (4 + len (snd x))) with (length (ext_bytes x)) by (unfold len; lia).
  rewrite drop_app_length. apply IH. lia.
Qed.

(** RFC 7301 3.1: a list of names, each with its length. *)
Definition alpn_bytes (names : list bytes) : bytes :=
  concat (map (fun n => to_u8 (len n) :: n) names).

Definition alpn_names_ok (names : list bytes) : Prop :=
  Forall (fun n => 1 <= len n <= 255) names.

Lemma alpn_check_loop_spec fuel buf o :
  len buf <= isize_max -> 0 <= o -> (Z.to_nat (len buf - o) < fuel)%nat -> o <= len buf + 256 ->
  match alpn_check_loop fuel buf o with
  | Ok _ => exists names, alpn_names_ok names /\ o <= len buf /\
              drop (Z.to_nat o) buf = alpn_bytes names
  | Err _ => forall names, alpn_names_ok names -> o <= len buf ->
              drop (Z.to_nat o) buf <> alpn_bytes names
  | Panic => False
  end.
Proof.
  intros Hlen. revert o. induction fuel as [|fuel IH]; intros o Ho Hf Hle; [lia|].
  cbn [alpn_check_loop]. destruct (Z.compare_spec (len buf) o) as [E|E|E].
  - exists []. split; [constructor|]. split; [lia|]. apply drop_ge. unfold len in *. lia.
  - intros names _ ?. lia.
  - destruct (slice_from_step (E := TlsAlpnError) buf o ltac:(lia)) as (b & r & _ & Hd).
    assert (index (E := TlsAlpnError) buf o = Ok b) as ->.
    { apply index_ok; [lia|]. rewrite <- (Nat.add_0_r (Z.to_nat o)), <- lookup_drop, Hd. done. }
    cbn [bind]. pose proof (u8_range b). destruct (Z.eqb_spec (u8 b) 0) as [E0|E0].
    { intros [|n names] Hok _; rewrite Hd; [done|].
      change (alpn_bytes (n :: names)) with ((to_u8 (len n) :: n) ++ alpn_bytes names).
      intros [= Hb _].
      apply Forall_cons in Hok as [Hn _]. rewrite Hb, u8_to_u8_small in E0 by lia. lia. }
    rewrite uadd_ok by len_lia. cbn [bind].
    assert (drop (Z.to_nat (o + (1 + u8 b))) buf = drop (Z.to_nat (u8 b)) r) as Hdd.
    { replace (Z.to_nat (o + (1 + u8 b))) with (Z.to_nat o + S (Z.to_nat (u8 b)))%nat by lia.
      rewrite <- drop_drop, Hd. done. }
    assert (len buf - o = 1 + len r) as Hlr.
    { apply (f_equal len) in Hd. len_lia. }
    specialize (IH (o + (1 + u8 b)) ltac:(lia) ltac:(lia) ltac:(lia)). rewrite Hdd in IH.
    destruct (alpn_check_loop fuel buf _) as [[]|e|]; [| |done].
    + destruct IH as (names & Hok & Hin & Hr).
      exists (take (Z.to_nat (u8 b)) r :: names). assert (u8 b <= len r) by lia.
      split; [constructor; [len_lia|done]|]. split; [lia|]. rewrite Hd.
      set (n := take (Z.to_nat (u8 b)) r).
      change (alpn_bytes (n :: names)) with ((to_u8 (len n) :: n) ++ alpn_bytes names).
      rewrite <- Hr. unfold n. cbn [app]. rewrite take_drop. f_equal.
      replace (len (take (Z.to_nat (u8 b)) r)) with (u8 b) by len_lia. symmetry. apply to_u8_u8.
    + intros [|n names] Hok _; rewrite Hd; [done|].
      change (alpn_bytes (n :: names)) with ((to_u8 (len n) :: n) ++ alpn_bytes names).
      intros Heq.
      injection Heq as Hb Hr. apply Forall_cons in Hok as [Hn Hok].
      assert (u8 b = len n) as Hbn by (rewrite Hb; apply u8_to_u8_small; lia).
      apply (IH names Hok).
      * rewrite Hr in Hlr. len_lia.
      * rewrite Hr, Hbn. apply drop_len_app.
Qed.

Lemma retain_loop_spec {E} fuel retain pre names new :
  alpn_names_ok names -> (length (alpn_bytes names) < fuel)%nat ->
  retain_loop (E := E) fuel retain (pre ++ alpn_bytes names) (len pre) new =
    Ok (new ++ alpn_bytes (filter (fun n => retain n) names)).
Proof.
  revert pre names new. induction fuel as [|fuel IH]; intros pre names new Hok Hf; [lia|].
  cbn [retain_loop]. destruct names as [|n names].
  { cbn. rewrite !app_nil_r, Z.ltb_irrefl. done. }
  apply Forall_cons in Hok as [Hn Hok].
  change (alpn_bytes (n :: names)) with ((to_u8 (len n) :: n) ++ alpn_bytes names) in *.
  set (rest := alpn_bytes names) in *. set (raw := pre ++ (to_u8 (len n) :: n) ++ rest).
  assert (len raw = len pre + 1 + len n + len rest) as Hl by (unfold raw; len_lia).
  destruct (Z.ltb_spec (len pre) (len raw)); [|len_lia].
  rewrite (index_ok raw _ (to_u8 (len n))).
  2: apply len_nonneg.
  2: { unfold raw, len. rewrite Nat2Z.id, lookup_app_r, Nat.sub_diag by lia. done. }
  cbn [bind]. rewrite u8_to_u8_small by lia.
  destruct (Z.ltb_spec (len raw) (len pre + len n)); [len_lia|].
  pose proof (slice_app (E := E) (pre ++ [to_u8 (len n)]) n rest) as Hs1.
  pose proof (slice_app (E := E) pre (to_u8 (len n) :: n) rest) as Hs2.
  rewrite len_app, <- app_assoc in Hs1. cbn [app] in Hs1. change (len [_]) with 1 in Hs1.
  change (pre ++ to_u8 (len n) :: n ++ rest) with raw in Hs1. fold raw in Hs2.
  rewrite Hs1. cbn [bind].
  replace (len pre + len (to_u8 (len n) :: n)) with (len pre + 1 + len n) in Hs2 by len_lia.
  assert (len pre + 1 + len n = len (pre ++ to_u8 (len n) :: n)) as Hnext by len_lia.
  assert (length rest < fuel)%nat as Hrest by (rewrite length_app in Hf; cbn [length] in Hf; lia).
  assert (raw = (pre ++ to_u8 (len n) :: n) ++ rest) as Hraw.
  { unfold raw. by rewrite <- app_assoc. }
  rewrite filter_cons. destruct (retain n) eqn:Hret.
  - rewrite Hs2. cbn [bind]. rewrite Hnext, Hraw. unfold rest. rewrite IH by done.
    rewrite decide_True by done. by rewrite <- app_assoc.
  - cbn [bind]. rewrite Hnext, Hraw. unfold rest. rewrite IH by done.
    rewrite decide_False by (by intros []). done.
Qed.

(** RFC 6066 3: a list with one host name, followed by other entries. *)
Definition sni_bytes (name extra : bytes) : bytes :=
  to_be 2 (3 + len name + len extra) ++ x00 :: to_be 2 (len name) ++ name ++ extra.

Lemma TlsServerName_from_bytes to_ascii name extra :
  3 + len name + len extra <= u16_max ->
  TlsServerName_from_extension_value to_ascii (sni_bytes name extra) =
    bind (map_err Sni_InvalidDomain (DomainName_parse to_ascii name))
      (fun d => Ok {| sni_domain := d |}).
Proof.
  intros Hfit. unfold sni_bytes.
  unfold TlsServerName_from_extension_value. set (lb := to_be 2 (3 + len name + len extra)).
  set (nb := to_be 2 (len name)).
  assert (len (lb ++ x00 :: nb ++ name ++ extra) = 5 + len name + len extra) as Hl.
  { unfold lb, nb. rewrite len_app, len_cons, !len_app, !len_to_be. lia. }
  rewrite Hl. destruct (Z.ltb_spec (5 + len name + len extra) 5); [len_lia|].
  pose proof (be16_to_be (E := TlsServerNameError) [] (3 + len name + len extra)
    (x00 :: nb ++ name ++ extra) ltac:(len_lia)) as H1.
  change (len (@nil byte)) with 0 in H1. cbn [app] in H1. fold lb in H1. rewrite H1. cbn [bind].
  destruct (Z.eqb_spec (3 + len name + len extra + 2) (5 + len name + len extra)); [|lia].
  cbn [negb]. change (index (lb ++ x00 :: nb ++ name ++ extra) 2)
    with (Ok (E := TlsServerNameError) x00). cbn [bind].
  change (negb (u8 x00 =? 0)) with false. cbn iota.
  pose proof (be16_to_be (E := TlsServerNameError) (lb ++ [x00]) (len name) (name ++ extra)
    ltac:(len_lia)) as H2.
  rewrite <- app_assoc in H2. change (len (lb ++ [x00])) with 3 in H2. cbn [app] in H2.
  fold nb in H2. rewrite H2. cbn [bind].
  destruct (Z.ltb_spec (5 + len name + len extra) (len name + 5)); [len_lia|].
  pose proof (slice_app (E := TlsServerNameError) (lb ++ x00 :: nb) name extra) as H3.
  rewrite <- app_assoc in H3. change (len (lb ++ x00 :: nb)) with 5 in H3. cbn [app] in H3.
  rewrite H3. done.
Qed.

(** Looking up the first of the encoded extensions of a type. *)
Lemma get_ext_bytes before ty data after :
  Forall ext_fits (before ++ (ty, data) :: after) ->
  len (concat (map ext_bytes (before ++ (ty, data) :: after))) <= isize_max ->
  Forall (fun x => ExtensionType_from (fst x) <> ExtensionType_from ty) before ->
  ExtensionList_get_ext (concat (map ext_bytes (before ++ (ty, data) :: after))) (ExtensionType_from ty)
    = Ok (if len data =? 0 then None else Some data).
Proof.
  intros Hfits Hlen Hb. unfold ExtensionList_get_ext.
  set (bytes := concat _) in *.
  rewrite (get_ext_loop_eq _ (length bytes)) by (unfold len in *; lia).
  change (drop (Z.to_nat 0) bytes) with bytes. unfold bytes. rewrite ext_items_bytes by done.
  rewrite map_app. cbn [map]. clear Hfits Hlen bytes. induction Hb as [|x before Hx Hb IH]; cbn.
  - by rewrite bool_decide_eq_true_2.
  - by rewrite bool_decide_eq_false_2.
Qed.

Lemma ExtensionType_from_ServerName n : ExtensionType_from n = ServerName -> n = 0.
Proof. unfold ExtensionType_from. repeat case_match; congruence. Qed.

End Encodings.

(** ** Properties *)

(** On every extension list the iterator stops without a panic, and looking
    up a type returns the value of the first extension of that type among the
    items the iterator yields, or the error that ends them.  Every item but the
    last is an extension. *)
Theorem extension_lookup_agrees_with_iterator (data : bytes) :
  len data <= isize_max ->
  exists items,
    ExtensionIter_collect (S (length data)) (ExtensionIter_new data) = Ok items /\
    (forall ty, ExtensionList_get_ext data ty = find_ext ty items) /\
    (forall pre e post, items = pre ++ inr e :: post -> post = []).
Proof.
  intros Hlen. exists (ext_items (length data) data). split_and!.
  - unfold ExtensionIter_new. rewrite (ExtensionIter_collect_eq _ (length data)) by (unfold len in *; lia).
    done.
  - intros ty. unfold ExtensionList_get_ext.
    rewrite (get_ext_loop_eq _ (length data)) by (unfold len in *; lia). done.
  - intros pre e post. generalize (length data) as n. clear Hlen. intros n. revert data pre.
    induction n as [|n IH]; intros [|b data] pre; cbn [ext_items]; try (by destruct pre).
    destruct (Extension_parse (b :: data)) as [x|x|]; [| |by destruct pre].
    + destruct pre as [|y pre]; [done|]. intros [= _ Hr]. by eapply IH.
    + destruct pre as [|y pre]; [by intros [= -> <-]|]. by destruct pre.
Qed.

Lemma extension_lookup_agrees_with_iterator_witness :
  exists items,
    ExtensionIter_collect 11 (ExtensionIter_new [x00; x00; x00; x00; x00; x10; x00; x02; x68; x32])
      = Ok items /\
    ExtensionList_get_ext [x00; x00; x00; x00; x00; x10; x00; x02; x68; x32]
      ApplicationLayerProtocolNegotiation = find_ext ApplicationLayerProtocolNegotiation items.
Proof.
  destruct (extension_lookup_agrees_with_iterator [x00; x00; x00; x00; x00; x10; x00; x02; x68; x32])
    as (items & Hc & Hg & _).
  - apply Z.leb_le. reflexivity.
  - exists items. split; [exact Hc|]. apply Hg.
Defined.

(** An encoded list of extensions is read back by the iterator, in order and
    without losing a byte of any value. *)
Theorem extension_list_roundtrip (xs : list (Z * bytes)) :
  Forall ext_fits xs -> len (concat (map ext_bytes xs)) <= isize_max ->
  let data := concat (map ext_bytes xs) in
  ExtensionIter_collect (S (length data)) (ExtensionIter_new data) =
    Ok (map (fun x => inl (ext_of x)) xs).
Proof.
  cbv zeta. intros Hxs Hlen. set (data := concat (map ext_bytes xs)) in *.
  unfold ExtensionIter_new. rewrite (ExtensionIter_collect_eq _ (length data)) by (unfold len in *; lia).
  cbn [drop Z.to_nat]. f_equal. by apply ext_items_bytes.
Qed.

Lemma extension_list_roundtrip_witness :
  ExtensionIter_collect 11
    (ExtensionIter_new (concat (map ext_bytes [(0, []); (16, bs "h2")]))) =
    Ok [inl {| ext_type := ServerName; ext_len := 0; ext_data := None |};
        inl {| ext_type := ApplicationLayerProtocolNegotiation; ext_len := 2;
               ext_data := Some (bs "h2") |}].
Proof.
  apply (extension_list_roundtrip [(0, []); (16, bs "h2")]).
  - repeat constructor; apply Z.leb_le; reflexivity.
  - apply Z.leb_le. reflexivity.
Defined.

(** The ALPN extension is accepted exactly when its value is the encoding of
    a list of non-empty names, the whole list is kept, and no value makes the
    check panic. *)
Theorem alpn_accepts_exactly_name_lists (buf : bytes) :
  len buf <= isize_max ->
  match TlsAlpn_from_extension_value buf with
  | Ok a => exists names, alpn_names_ok names /\ alpn_raw_list a = alpn_bytes names /\
              buf = to_be 2 (len (alpn_bytes names)) ++ alpn_bytes names
  | Err _ => forall names, alpn_names_ok names -> len (alpn_bytes names) <= u16_max ->
              buf <> to_be 2 (len (alpn_bytes names)) ++ alpn_bytes names
  | Panic => False
  end.
Proof.
  intros Hlen. unfold TlsAlpn_from_extension_value.
  destruct (Z.ltb_spec (len buf) 2) as [Hs|Hs].
  { intros names _ _ Hb%(f_equal len). rewrite len_app, len_to_be in Hb. len_lia. }
  destruct buf as [|b0 [|b1 raw]]; [len_lia..|].
  change (be16 (b0 :: b1 :: raw) 0) with (Ok (E := TlsAlpnError) (from_be [b0; b1])). cbn [bind].
  destruct (Z.eqb_spec (from_be [b0; b1] + 2) (len (b0 :: b1 :: raw))) as [Hl|Hl]; cbn [negb].
  2: { intros names _ Hn Hb. apply Hl. cbn [to_be app] in Hb. injection Hb as -> -> ->.
       change [to_u8 _; to_u8 _] with (to_be 2 (len (alpn_bytes names))).
       rewrite from_be_to_be, Z.mod_small by (unfold u16_max in Hn; cbn; len_lia). len_lia. }
  assert (from_be [b0; b1] = len raw) as Hfb by len_lia.
  pose proof (alpn_check_loop_spec (S (length (b0 :: b1 :: raw))) (b0 :: b1 :: raw) 2 Hlen
    ltac:(lia) ltac:(unfold len; lia) ltac:(lia)) as Hc.
  change (drop (Z.to_nat 2) (b0 :: b1 :: raw)) with raw in Hc.
  destruct (alpn_check_loop _ _ _) as [[]|e|]; [| |done]; cbn [bind].
  - rewrite slice_from_ok by len_lia. cbn [bind]. destruct Hc as (names & Hok & _ & Hr).
    exists names. split; [done|]. split; [done|]. rewrite <- Hr, <- Hfb.
    pose proof (to_be_from_be [b0; b1]) as Hbe. cbn [length] in Hbe. by rewrite Hbe.
  - intros names Hok Hn Hb. apply (Hc names Hok ltac:(lia)). cbn in Hb. by injection Hb.
Qed.

Lemma alpn_accepts_exactly_name_lists_witness :
  exists names, alpn_names_ok names /\ bs "h2" = drop 1 (alpn_bytes names).
Proof.
  pose proof (alpn_accepts_exactly_name_lists (x00 :: x03 :: x02 :: bs "h2")
    ltac:(apply Z.leb_le; reflexivity)) as (names & Hok & Hr & _).
  exists names. split; [exact Hok|]. rewrite <- Hr. reflexivity.
Defined.

(** Filtering an accepted ALPN list keeps exactly the names the predicate
    accepts, in order, and yields a well-formed list; no accepted list makes it
    panic. *)
Theorem alpn_retain_filters (names : list bytes) (retain : bytes -> bool) :
  alpn_names_ok names ->
  TlsAlpn_retain_clone (E := False) {| alpn_raw_list := alpn_bytes names |} retain =
    Ok {| alpn_raw_list := alpn_bytes (filter (fun n => retain n) names) |} /\
  alpn_names_ok (filter (fun n => retain n) names).
Proof.
  intros Hok. split.
  - unfold TlsAlpn_retain_clone. cbn [alpn_raw_list].
    pose proof (retain_loop_spec (E := False) (S (length (alpn_bytes names))) retain [] names []
      Hok ltac:(lia)) as Hr.
    change (len (@nil byte)) with 0 in Hr. cbn [app] in Hr. by rewrite Hr.
  - apply Forall_forall. intros n [_ Hn]%list_elem_of_filter.
    by eapply Forall_forall in Hn; [|exact Hok].
Qed.

Lemma alpn_retain_filters_witness :
  TlsAlpn_retain_clone (E := False)
    {| alpn_raw_list := alpn_bytes [bs "h2"; bs "http/1.1"] |} (fun n => bool_decide (n <> bs "h2")) =
    Ok {| alpn_raw_list := alpn_bytes [bs "http/1.1"] |}.
Proof.
  refine (proj1 (alpn_retain_filters [bs "h2"; bs "http/1.1"] (fun n => bool_decide (n <> bs "h2")) _)).
  repeat constructor; apply Z.leb_le; reflexivity.
Defined.

(** The bound check of [retain_clone] leaves out the length byte: a list that
    ends one byte early passes it and is sliced out of range.  Lists that come
    from [from_extension_value] are never of this shape. *)
Example retain_clone_guard_off_by_one :
  TlsAlpn_retain_clone (E := False) {| alpn_raw_list := [x01] |} (fun _ => true) = Panic.
Proof. reflexivity. Qed.

(** Every protocol's wire name is its name with its length, selecting it by
    its name finds it again, and a list of protocols is encoded as a list of
    names that the ALPN check accepts. *)
Theorem alpn_protocols_encode (ps : list AlpnProtocol) :
  (forall p, from_selected (AlpnProtocol_as_str p) = Some p /\
             identification_sequence (E := False) p = Ok (AlpnProtocol_as_str p)) /\
  (forall b p, from_selected b = Some p -> b = AlpnProtocol_as_str p) /\
  encode_wired_list ps = alpn_bytes (map AlpnProtocol_as_str ps) /\
  alpn_names_ok (map AlpnProtocol_as_str ps).
Proof.
  split_and!.
  - by intros [].
  - intros b p. unfold from_selected.
    repeat (destruct (bool_decide (b = _)) eqn:Hb;
      [apply bool_decide_eq_true in Hb; intros [= <-]; exact Hb|clear Hb]). done.
  - unfold encode_wired_list, alpn_bytes.
    assert (forall acc, fold_left (fun buf p => buf ++ wired_identification_sequence p) ps acc =
      acc ++ concat (map (fun n => to_u8 (len n) :: n) (map AlpnProtocol_as_str ps))) as Hgen.
    { induction ps as [|p ps IH]; intros acc; cbn [fold_left map concat]; [by rewrite app_nil_r|].
      rewrite IH, <- app_assoc. f_equal. f_equal. by destruct p. }
    apply (Hgen []).
  - apply Forall_map, Forall_forall. intros [] _; split; apply Z.leb_le; reflexivity.
Qed.

(** The server name extension yields the parsed host name exactly as it is
    written in the first entry of the list (further entries are ignored), and
    no value makes the reader panic. *)
Theorem server_name_extension_reads_name (to_ascii : bytes -> option bytes)
    (buf name extra : bytes) :
  len buf <= isize_max -> 3 + len name + len extra <= u16_max ->
  TlsServerName_from_extension_value to_ascii buf <> Panic /\
  TlsServerName_from_extension_value to_ascii (sni_bytes name extra) =
    bind (map_err Sni_InvalidDomain (DomainName_parse to_ascii name))
      (fun d => Ok {| sni_domain := d |}).
Proof.
  intros Hlen Hfit. split.
  - eapply (wp_not_panic _ (fun _ => True) (fun _ => True)).
    unfold TlsServerName_from_extension_value. wp_go; [done|].
    apply wp_be16; [lia..|]. intros ll Hll. wp_go; try done.
    apply wp_be16; [lia..|]. intros nl Hnl. wp_go; try done.
    pose proof (DomainName_parse_total to_ascii s) as Hd.
    destruct (DomainName_parse to_ascii s); done.
  - by apply TlsServerName_from_bytes.
Qed.

Lemma server_name_extension_reads_name_witness :
  TlsServerName_from_extension_value Some (sni_bytes (bs "example.net") []) =
    Ok {| sni_domain := {| dn_fqdn := bs "example.net." |} |}.
Proof.
  refine (proj2 (server_name_extension_reads_name Some [] (bs "example.net") [] _ _));
    apply Z.leb_le; reflexivity.
Defined.
