(* ===== verification/Tls.v ===== *)
(** * TLS records and handshake messages

    Models [lib/vey-codec/src/tls/]: records ([record.rs]), handshake messages
    and the coalescer that puts a fragmented message together
    ([handshake/mod.rs]), and the client hello
    ([handshake/client_hello.rs]). *)

From Stdlib Require Import ZArith Lia Strings.Byte.
From stdpp Require Import base list.
From S2P Require Import Prelude Domain TlsExtension.

Record RawVersion : Type := { rv_major : byte; rv_minor : byte }.

Definition RawVersion_is_tlcp (v : RawVersion) : bool :=
  (u8 (rv_major v) =? 1) && (u8 (rv_minor v) =? 1).

(** The versions that records and client hellos may carry. *)
Definition version_supported (major minor : byte) : bool :=
  match u8 major, u8 minor with
  | 1, 1 => true
  | 3, 0 => true
  | 3, 1 => true
  | 3, 2 => true
  | 3, 3 => true
  | _, _ => false
  end.

(** ** Client hello *)

Definition HandshakeHeader_SIZE : Z := 4.

Definition HandshakeType_ClientHello : Z := 1.

Record HandshakeHeader : Type := { hh_msg_type : Z; hh_msg_length : Z }.

Definition HandshakeHeader_try_parse {E} (data : bytes) : res E (option HandshakeHeader) :=
  if len data <? HandshakeHeader_SIZE then Ok None
  else
    let? b0 := index data 0 in
    let? b1 := index data 1 in
    let? b2 := index data 2 in
    let? b3 := index data 3 in
    Ok (Some {| hh_msg_type := u8 b0; hh_msg_length := from_be [x00; b1; b2; b3] |}).

Definition HandshakeHeader_encoded_len (h : HandshakeHeader) : Z :=
  HandshakeHeader_SIZE + hh_msg_length h.

Inductive ClientHelloParseError : Type :=
| ClientHello_InvalidContentType (n : Z)
| ClientHello_InvalidFragmentLength
| ClientHello_InvalidMessageType (n : Z)
| ClientHello_InvalidMessageLength
| ClientHello_InvalidCipherSuitesLength
| ClientHello_UnsupportedVersion (v : RawVersion).

Record ClientHello : Type := {
  ch_legacy_version : RawVersion;
  ch_cipher_suites : bytes;
  ch_compression_methods : option bytes;
  ch_extensions : option bytes
}.

(** [ensure_min!] *)
Definition ensure_min (buf : bytes) (min : Z) : res ClientHelloParseError unit :=
  if len buf <? min then Err ClientHello_InvalidMessageLength else Ok tt.

Definition RANDOM_FIELD_SIZE : Z := 32.

(** The four variable-length fields, each read at an offset of the message. *)
Definition hello_session_id (data : bytes) (offset : Z) : res ClientHelloParseError Z :=
  let? left := slice_from data offset in
  if len left =? 0 then Err ClientHello_InvalidMessageLength
  else
    let? session_id_len := index left 0 in
    let? _ := ensure_min left (1 + u8 session_id_len) in
    uadd offset (1 + u8 session_id_len).

Definition hello_cipher_suites (data : bytes) (offset : Z) : res ClientHelloParseError (bytes * Z) :=
  let? left := slice_from data offset in
  let? _ := ensure_min left 2 in
  let? cipher_suites_len := be16 left 0 in
  if (cipher_suites_len =? 0) || negb (Z.land cipher_suites_len 1 =? 0) then
    Err ClientHello_InvalidCipherSuitesLength
  else
    let? _ := ensure_min left (2 + cipher_suites_len) in
    let? start := uadd offset 2 in
    let? fin := uadd start cipher_suites_len in
    let? cipher_suites := slice data start fin in
    Ok (cipher_suites, fin).

Definition hello_compression_methods (data : bytes) (offset : Z)
    : res ClientHelloParseError (option bytes * Z) :=
  let? left := slice_from data offset in
  if len left =? 0 then Err ClientHello_InvalidMessageLength
  else
    let? l := index left 0 in
    let compression_methods_len := u8 l in
    if 0 <? compression_methods_len then
      let? _ := ensure_min left (1 + compression_methods_len) in
      let? start := uadd offset 1 in
      let? fin := uadd start compression_methods_len in
      let? m := slice data start fin in
      Ok (Some m, fin)
    else
      let? offset := uadd offset 1 in
      Ok (None, offset).

Definition hello_extensions (data : bytes) (offset : Z)
    : res ClientHelloParseError (option bytes * Z) :=
  let? left := slice_from data offset in
  let? _ := ensure_min left 2 in
  let? extensions_len := be16 left 0 in
  if 0 <? extensions_len then
    let? _ := ensure_min left (2 + extensions_len) in
    let? start := uadd offset 2 in
    let? fin := uadd start extensions_len in
    let? m := slice data start fin in
    Ok (Some m, fin)
  else
    let? offset := uadd offset 2 in
    Ok (None, offset).

Definition ClientHello_parse_msg_data (data : bytes) : res ClientHelloParseError ClientHello :=
  let? _ := ensure_min data 2 in
  let? major := index data 0 in
  let? minor := index data 1 in
  let legacy_version := {| rv_major := major; rv_minor := minor |} in
  if negb (version_supported major minor) then Err (ClientHello_UnsupportedVersion legacy_version)
  else
    let offset := 2 in
    let? left := slice_from data offset in
    let? _ := ensure_min left RANDOM_FIELD_SIZE in
    let? offset := uadd offset RANDOM_FIELD_SIZE in
    let? offset := hello_session_id data offset in
    let? '(cipher_suites, offset) := hello_cipher_suites data offset in
    let? '(compression_methods, offset) := hello_compression_methods data offset in
    if len data <=? offset then
      Ok {| ch_legacy_version := legacy_version; ch_cipher_suites := cipher_suites;
            ch_compression_methods := compression_methods; ch_extensions := None |}
    else
      let? '(extensions, offset) := hello_extensions data offset in
      if offset <? len data then Err ClientHello_InvalidMessageLength
      else
        Ok {| ch_legacy_version := legacy_version; ch_cipher_suites := cipher_suites;
              ch_compression_methods := compression_methods; ch_extensions := extensions |}.

Definition ClientHello_parse_fragment (handshake_header : HandshakeHeader) (data : bytes)
    : res ClientHelloParseError ClientHello :=
  if negb (hh_msg_type handshake_header =? HandshakeType_ClientHello) then
    Err (ClientHello_InvalidMessageType (hh_msg_type handshake_header))
  else
    let encoded_len := HandshakeHeader_encoded_len handshake_header in
    if len data <? encoded_len then Err ClientHello_InvalidMessageLength
    else
      let? body := slice data HandshakeHeader_SIZE encoded_len in
      ClientHello_parse_msg_data body.

Definition ClientHello_get_ext (self : ClientHello) (ty : ExtensionType)
    : res ExtensionParseError (option bytes) :=
  match ch_extensions self with
  | None => Ok None
  | Some data => ExtensionList_get_ext data ty
  end.

Definition ClientHello_ext_iter (self : ClientHello) : ExtensionIter :=
  match ch_extensions self with
  | Some data => ExtensionIter_new data
  | None => ExtensionIter_new []
  end.

(** ** Handshake messages *)

Record HandshakeMessage : Type := { hm_header : HandshakeHeader; hm_msg_data : bytes }.

Definition HandshakeMessage_try_parse_fragment {E} (data : bytes)
    : res E (option HandshakeMessage) :=
  let? header := HandshakeHeader_try_parse data in
  match header with
  | None => Ok None
  | Some header =>
      let encoded_len := HandshakeHeader_encoded_len header in
      if encoded_len <=? len data then
        let? msg_data := slice data 0 encoded_len in
        Ok (Some {| hm_header := header; hm_msg_data := msg_data |})
      else Ok None
  end.

Definition HandshakeMessage_encoded_len (self : HandshakeMessage) : Z := len (hm_msg_data self).

Definition HandshakeMessage_parse_client_hello (self : HandshakeMessage) :=
  ClientHello_parse_fragment (hm_header self) (hm_msg_data self).

(** ** The coalescer *)

Inductive HandshakeCoalesceError : Type :=
| Coalesce_InvalidContentType (n : Z)
| Coalesce_TooLargeMessageSize (n : Z).

Record HandshakeCoalescer : Type := {
  hc_max_message_size : Z;
  hc_header : option HandshakeHeader;
  hc_buf : bytes
}.

Definition HandshakeCoalescer_new (max_message_size : Z) : HandshakeCoalescer :=
  {| hc_max_message_size := max_message_size; hc_header := None; hc_buf := [] |}.

Definition HandshakeCoalescer_default : HandshakeCoalescer :=
  HandshakeCoalescer_new (Z.shiftl 1 14).

Definition HandshakeCoalescer_is_empty (self : HandshakeCoalescer) : bool :=
  len (hc_buf self) =? 0.

Definition hc_extend (self : HandshakeCoalescer) (h : option HandshakeHeader) (d : bytes) :=
  {| hc_max_message_size := hc_max_message_size self; hc_header := h; hc_buf := hc_buf self ++ d |}.

(** The operations change the coalescer on the error paths too, so they return
    it beside the outcome. *)
Definition add_first_fragment (self : HandshakeCoalescer) (data : bytes)
    : res HandshakeCoalesceError Z * HandshakeCoalescer :=
  match HandshakeHeader_try_parse data with
  | Ok (Some hdr) =>
      if hc_max_message_size self <? hh_msg_length hdr then
        (Err (Coalesce_TooLargeMessageSize (hh_msg_length hdr)), self)
      else
        let encoded_len := HandshakeHeader_encoded_len hdr in
        if len data <=? encoded_len then (Ok (len data), hc_extend self (Some hdr) data)
        else
          match slice (E := HandshakeCoalesceError) data 0 encoded_len with
          | Ok d => (Ok encoded_len, hc_extend self (Some hdr) d)
          | Err e => (Err e, self)
          | Panic => (Panic, self)
          end
  | Ok None => (Ok (len data), hc_extend self (hc_header self) data)
  | Err e => (Err e, self)
  | Panic => (Panic, self)
  end.

Definition coalesce_fragment (self : HandshakeCoalescer) (data : bytes)
    : res HandshakeCoalesceError Z * HandshakeCoalescer :=
  if len (hc_buf self) =? 0 then add_first_fragment self data
  else
    match hc_header self with
    | Some hdr =>
        let parts :=
          let? needed := usub (HandshakeHeader_encoded_len hdr) (len (hc_buf self)) in
          if len data <=? needed then Ok (len data, data)
          else
            let? d := slice data 0 needed in
            Ok (needed, d) in
        match parts with
        | Ok (n, d) => (Ok n, hc_extend self (Some hdr) d)
        | Err e => (Err e, self)
        | Panic => (Panic, self)
        end
    | None =>
        let self1 := hc_extend self None data in
        match HandshakeHeader_try_parse (hc_buf self1) with
        | Ok (Some hdr) =>
            if hc_max_message_size self1 <? hh_msg_length hdr then
              (Err (Coalesce_TooLargeMessageSize (hh_msg_length hdr)), self1)
            else
              let encoded_len := HandshakeHeader_encoded_len hdr in
              let self2 := {| hc_max_message_size := hc_max_message_size self1;
                              hc_header := Some hdr; hc_buf := hc_buf self1 |} in
              if len (hc_buf self2) <? encoded_len then (Ok (len data), self2)
              else
                let consumed :=
                  let? extra := usub (len (hc_buf self2)) encoded_len in
                  usub (len data) extra in
                (consumed,
                 {| hc_max_message_size := hc_max_message_size self2; hc_header := Some hdr;
                    hc_buf := take (Z.to_nat encoded_len) (hc_buf self2) |})
        | Ok None => (Ok (len data), self1)
        | Err e => (Err e, self1)
        | Panic => (Panic, self1)
        end
    end.

Definition HandshakeCoalescer_parse_client_hello (self : HandshakeCoalescer)
    : res ClientHelloParseError (option ClientHello) :=
  match hc_header self with
  | None => Ok None
  | Some hdr =>
      if negb (hh_msg_type hdr =? HandshakeType_ClientHello) then
        Err (ClientHello_InvalidMessageType (hh_msg_type hdr))
      else if HandshakeHeader_encoded_len hdr =? len (hc_buf self) then
        let? body := slice_from (hc_buf self) HandshakeHeader_SIZE in
        let? ch := ClientHello_parse_msg_data body in
        Ok (Some ch)
      else Ok None
  end.

(** ** Records *)

Inductive ContentType : Type :=
| CT_Invalid
| CT_ChangeCipherSpec
| CT_Alert
| CT_Handshake
| CT_ApplicationData
| CT_Heartbeat.

#[global] Instance ContentType_eq_dec : EqDecision ContentType.
Proof. solve_decision. Defined.

Definition ContentType_try_from (value : Z) : option ContentType :=
  match value with
  | 20 => Some CT_ChangeCipherSpec
  | 21 => Some CT_Alert
  | 22 => Some CT_Handshake
  | 23 => Some CT_ApplicationData
  | 24 => Some CT_Heartbeat
  | _ => None
  end.

(** [content_type as u8] *)
Definition ContentType_code (c : ContentType) : Z :=
  match c with
  | CT_Invalid => 0
  | CT_ChangeCipherSpec => 20
  | CT_Alert => 21
  | CT_Handshake => 22
  | CT_ApplicationData => 23
  | CT_Heartbeat => 24
  end.

Inductive RecordParseError : Type :=
| Record_NeedMoreData (n : Z)
| Record_UnsupportedVersion (v : RawVersion)
| Record_InvalidContentType (n : Z)
| Record_FragmentLengthExceeded
| Record_EmptyHandshakeFragment.

Record RecordHeader : Type := {
  rh_version : RawVersion;
  rh_content_type : ContentType;
  rh_fragment_size : Z
}.

Definition RecordHeader_SIZE : Z := 5.

Definition RecordHeader_parse (data : bytes) : res RecordParseError RecordHeader :=
  let? b0 := index data 0 in
  match ContentType_try_from (u8 b0) with
  | None => Err (Record_InvalidContentType (u8 b0))
  | Some content_type =>
      let? b1 := index data 1 in
      let? b2 := index data 2 in
      let version := {| rv_major := b1; rv_minor := b2 |} in
      if negb (version_supported b1 b2) then Err (Record_UnsupportedVersion version)
      else
        let? fragment_len := be16 data 3 in
        Ok {| rh_version := version; rh_content_type := content_type;
              rh_fragment_size := fragment_len |}
  end.

Record TlsRecord : Type := {
  rec_header : RecordHeader;
  rec_fragment : bytes;
  rec_consume_offset : Z
}.

Definition Record_parse (data : bytes) : res RecordParseError TlsRecord :=
  if len data <? RecordHeader_SIZE then Err (Record_NeedMoreData (RecordHeader_SIZE - len data))
  else
    let? header := RecordHeader_parse data in
    if Z.shiftl 1 14 <? rh_fragment_size header then Err Record_FragmentLengthExceeded
    else if bool_decide (rh_content_type header = CT_Handshake) && (rh_fragment_size header =? 0)
    then Err Record_EmptyHandshakeFragment
    else
      let start := RecordHeader_SIZE in
      let fin := start + rh_fragment_size header in
      if len data <? fin then Err (Record_NeedMoreData (fin - len data))
      else
        let? fragment := slice data start fin in
        Ok {| rec_header := header; rec_fragment := fragment; rec_consume_offset := 0 |}.

Definition Record_encoded_len (self : TlsRecord) : Z := RecordHeader_SIZE + len (rec_fragment self).

Definition Record_consume_done (self : TlsRecord) : bool :=
  len (rec_fragment self) <=? rec_consume_offset self.

Definition rec_advance {E} (self : TlsRecord) (n : Z) : res E TlsRecord :=
  let? offset := uadd (rec_consume_offset self) n in
  Ok {| rec_header := rec_header self; rec_fragment := rec_fragment self;
        rec_consume_offset := offset |}.

(** The record and the coalescer are both updated; an error leaves the record
    where it was. *)
Definition Record_consume_handshake (self : TlsRecord) (coalescer : HandshakeCoalescer)
    : res HandshakeCoalesceError (option HandshakeMessage * TlsRecord) * HandshakeCoalescer :=
  if negb (bool_decide (rh_content_type (rec_header self) = CT_Handshake)) then
    (Err (Coalesce_InvalidContentType (ContentType_code (rh_content_type (rec_header self)))), coalescer)
  else if Record_consume_done self then (Ok (None, self), coalescer)
  else
    match slice_from (E := HandshakeCoalesceError) (rec_fragment self) (rec_consume_offset self) with
    | Ok fragment =>
        let whole :=
          if HandshakeCoalescer_is_empty coalescer
          then HandshakeMessage_try_parse_fragment (E := HandshakeCoalesceError) fragment
          else Ok None in
        match whole with
        | Ok (Some msg) =>
            (let? self' := rec_advance self (HandshakeMessage_encoded_len msg) in
             Ok (Some msg, self'), coalescer)
        | Ok None =>
            let '(r, coalescer') := coalesce_fragment coalescer fragment in
            (let? n := r in
             let? self' := rec_advance self n in
             Ok (None, self'), coalescer')
        | Err e => (Err e, coalescer)
        | Panic => (Panic, coalescer)
        end
    | Err e => (Err e, coalescer)
    | Panic => (Panic, coalescer)
    end.

(** ** Handshake framing *)

Section Framing.

(** The header at the front of a handshake stream, once it is complete. *)
Definition hs_header (data : bytes) : option HandshakeHeader :=
  match data with
  | b0 :: b1 :: b2 :: b3 :: _ => Some {| hh_msg_type := u8 b0; hh_msg_length := from_be [b1; b2; b3] |}
  | _ => None
  end.

Lemma HandshakeHeader_try_parse_eq {E} data :
  HandshakeHeader_try_parse (E := E) data = Ok (hs_header data).
Proof.
  unfold HandshakeHeader_try_parse, HandshakeHeader_SIZE.
  destruct data as [|b0 [|b1 [|b2 [|b3 r]]]]; try done.
  destruct (Z.ltb_spec (len (b0 :: b1 :: b2 :: b3 :: r)) 4); [len_lia|]. done.
Qed.

Lemma hs_header_app d rest h : hs_header d = Some h -> hs_header (d ++ rest) = Some h.
Proof. by destruct d as [|b0 [|b1 [|b2 [|b3 r]]]]. Qed.

Lemma hs_header_len d h : hs_header d = Some h -> 4 <= len d /\ 0 <= hh_msg_length h < 2 ^ 24.
Proof.
  destruct d as [|b0 [|b1 [|b2 [|b3 r]]]]; try done. intros [= <-]. cbn [hh_msg_length].
  pose proof (from_be_range [b1; b2; b3]) as Hr. change (256 ^ len [b1; b2; b3]) with (2 ^ 24) in Hr.
  len_lia.
Qed.

Lemma hs_header_short d : hs_header d = None -> len d < 4.
Proof. destruct d as [|b0 [|b1 [|b2 [|b3 r]]]]; try done; len_lia. Qed.

(** One whole handshake message. *)
Definition hs_message (msg : bytes) (h : HandshakeHeader) : Prop :=
  hs_header msg = Some h /\ HandshakeHeader_encoded_len h = len msg.

Lemma HandshakeMessage_try_parse_fragment_eq {E} data :
  HandshakeMessage_try_parse_fragment (E := E) data =
    Ok (match hs_header data with
        | Some h =>
            if HandshakeHeader_encoded_len h <=? len data
            then Some {| hm_header := h;
                         hm_msg_data := take (Z.to_nat (HandshakeHeader_encoded_len h)) data |}
            else None
        | None => None
        end).
Proof.
  unfold HandshakeMessage_try_parse_fragment. rewrite HandshakeHeader_try_parse_eq. cbn [bind].
  destruct (hs_header data) as [h|] eqn:Hh; [|done]. apply hs_header_len in Hh as [_ Hh].
  unfold HandshakeHeader_encoded_len, HandshakeHeader_SIZE in *.
  destruct (Z.leb_spec (4 + hh_msg_length h) (len data)); [|done].
  rewrite slice_ok by lia. cbn [bind]. by rewrite Z.sub_0_r.
Qed.

(** What the coalescer holds is a prefix of one message of acceptable size. *)
Definition hc_ok (c : HandshakeCoalescer) : Prop :=
  hc_header c = hs_header (hc_buf c) /\
  match hc_header c with
  | None => True
  | Some h => len (hc_buf c) <= HandshakeHeader_encoded_len h /\
              hh_msg_length h <= hc_max_message_size c
  end.

Lemma HandshakeCoalescer_new_ok max : hc_ok (HandshakeCoalescer_new max).
Proof. done. Qed.

Lemma coalesce_fragment_spec c data :
  hc_ok c ->
  let all := hc_buf c ++ data in
  match hs_header all with
  | None =>
      coalesce_fragment c data =
        (Ok (len data), {| hc_max_message_size := hc_max_message_size c;
                           hc_header := None; hc_buf := all |})
  | Some h =>
      let l := HandshakeHeader_encoded_len h in
      if hc_max_message_size c <? hh_msg_length h then
        fst (coalesce_fragment c data) = Err (Coalesce_TooLargeMessageSize (hh_msg_length h))
      else
        coalesce_fragment c data =
          (Ok (Z.min (len data) (l - len (hc_buf c))),
           {| hc_max_message_size := hc_max_message_size c; hc_header := Some h;
              hc_buf := take (Z.to_nat l) all |})
  end.
Proof.
  destruct c as [max hdr buf]. unfold hc_ok. cbn. intros [Hh Hinv].
  unfold coalesce_fragment. cbn [hc_buf]. destruct (Z.eqb_spec (len buf) 0) as [E|E].
  - apply len_0 in E as ->. cbn in Hh. subst hdr. cbn [app].
    unfold add_first_fragment. rewrite HandshakeHeader_try_parse_eq.
    destruct (hs_header data) as [h|] eqn:Hd; [|done]. apply hs_header_len in Hd as [_ Hd].
    cbn [hc_max_message_size]. destruct (Z.ltb_spec max (hh_msg_length h)); [done|].
    unfold HandshakeHeader_encoded_len, HandshakeHeader_SIZE in *. change (len (@nil byte)) with 0.
    rewrite Z.sub_0_r. unfold hc_extend. cbn [hc_buf hc_max_message_size app].
    destruct (Z.leb_spec (len data) (4 + hh_msg_length h)).
    + rewrite Z.min_l, take_ge by (unfold len in *; lia). done.
    + rewrite Z.min_r by lia. rewrite slice_ok by lia. by rewrite Z.sub_0_r.
  - cbn [hc_header]. destruct hdr as [h|].
    + symmetry in Hh. rewrite (hs_header_app _ _ _ Hh). destruct Hinv as [Hlen Hmax].
      destruct (Z.ltb_spec max (hh_msg_length h)); [lia|].
      rewrite usub_ok by lia. cbn [bind]. set (l := HandshakeHeader_encoded_len h) in *.
      unfold hc_extend. cbn [hc_buf hc_max_message_size].
      destruct (Z.leb_spec (len data) (l - len buf)).
      * rewrite Z.min_l, take_ge by (rewrite ?length_app; unfold len in *; lia). done.
      * rewrite Z.min_r by lia. rewrite slice_ok by lia. cbn [bind]. rewrite Z.sub_0_r.
        do 2 f_equal. cbn [Z.to_nat drop].
        rewrite take_app_ge by (unfold len in *; lia). do 2 f_equal. unfold len. lia.
    + unfold hc_extend. cbn [hc_buf hc_max_message_size]. rewrite HandshakeHeader_try_parse_eq.
      destruct (hs_header (buf ++ data)) as [h|] eqn:Hd; [|done].
      destruct (Z.ltb_spec max (hh_msg_length h)); [done|]. apply hs_header_len in Hd as [_ Hd].
      symmetry in Hh. apply hs_header_short in Hh.
      unfold HandshakeHeader_encoded_len, HandshakeHeader_SIZE in *. set (l := 4 + hh_msg_length h) in *.
      destruct (Z.ltb_spec (len (buf ++ data)) l).
      * rewrite Z.min_l, take_ge by (rewrite ?length_app; unfold len in *; rewrite ?length_app in *; lia).
        done.
      * rewrite usub_ok by lia. cbn [bind]. rewrite usub_ok by len_lia.
        do 2 f_equal. len_lia.
Qed.

(** A successful step keeps the invariant, and keeps every byte: what is
    buffered and what is left to the caller is the stream. *)
Lemma coalesce_fragment_ok c data n c' :
  hc_ok c -> coalesce_fragment c data = (Ok n, c') ->
  hc_ok c' /\ hc_max_message_size c' = hc_max_message_size c /\ 0 <= n <= len data /\
  hc_buf c' ++ drop (Z.to_nat n) data = hc_buf c ++ data.
Proof.
  intros Hok Hc. pose proof (coalesce_fragment_spec c data Hok) as Hs. cbv zeta in Hs.
  destruct (hs_header (hc_buf c ++ data)) as [h|] eqn:Hh.
  - pose proof (hs_header_len _ _ Hh) as [H4 Hr].
    set (l := HandshakeHeader_encoded_len h) in *. assert (4 <= l) by
      (unfold l, HandshakeHeader_encoded_len, HandshakeHeader_SIZE; lia).
    destruct (Z.ltb_spec (hc_max_message_size c) (hh_msg_length h)).
    { by rewrite Hc in Hs. }
    rewrite Hc in Hs. injection Hs as -> ->. cbn [hc_buf hc_max_message_size hc_header].
    assert (len (hc_buf c) <= l) as Hbuf.
    { destruct Hok as [Hc1 Hc2]. destruct (hc_header c) as [h'|] eqn:Eh.
      - symmetry in Hc1. apply (hs_header_app _ data) in Hc1. rewrite Hc1 in Hh.
        injection Hh as ->. apply Hc2.
      - symmetry in Hc1. apply hs_header_short in Hc1. lia. }
    unfold hc_ok. cbn [hc_buf hc_max_message_size hc_header]. split_and!; try len_lia.
    + symmetry. revert Hh. generalize (hc_buf c ++ data) as s. intros s.
      replace (Z.to_nat l) with (S (S (S (S (Z.to_nat (l - 4)))))) by lia.
      by destruct s as [|b0 [|b1 [|b2 [|b3 r]]]].
    + destruct (Z.le_gt_cases (len data) (l - len (hc_buf c))).
      * rewrite Z.min_l, take_ge, drop_ge, app_nil_r by (rewrite ?length_app; unfold len in *; lia). done.
      * rewrite Z.min_r by lia. rewrite take_app_ge by (unfold len in *; lia).
        rewrite <- app_assoc. f_equal.
        replace (Z.to_nat (l - len (hc_buf c))) with (Z.to_nat l - length (hc_buf c))%nat
          by (unfold len; lia).
        by rewrite take_drop.
  - rewrite Hc in Hs. injection Hs as -> ->. cbn. unfold hc_ok. cbn.
    split_and!; try len_lia; try done. rewrite drop_ge by (unfold len; lia). apply app_nil_r.
Qed.

End Framing.

(** ** Client hello layout *)

Section Hello.

(** RFC 8446 4.1.2 *)
Record hello : Type := {
  h_version : RawVersion;
  h_random : bytes;
  h_session_id : bytes;
  h_suites : bytes;
  h_methods : bytes;
  h_extensions : option bytes
}.

Definition hello_ok (h : hello) : Prop :=
  version_supported (rv_major (h_version h)) (rv_minor (h_version h)) = true /\
  len (h_random h) = RANDOM_FIELD_SIZE /\ len (h_session_id h) <= 255 /\
  0 < len (h_suites h) <= u16_max /\ Z.even (len (h_suites h)) = true /\
  len (h_methods h) <= 255 /\
  match h_extensions h with Some e => len e <= u16_max | None => True end.

Definition hello_exts_bytes (e : option bytes) : bytes :=
  match e with
  | Some e => to_be 2 (len e) ++ e
  | None => []
  end.

Definition hello_bytes (h : hello) : bytes :=
  [rv_major (h_version h); rv_minor (h_version h)] ++ h_random h ++
  to_u8 (len (h_session_id h)) :: h_session_id h ++
  to_be 2 (len (h_suites h)) ++ h_suites h ++
  to_u8 (len (h_methods h)) :: h_methods h ++
  hello_exts_bytes (h_extensions h).

(** An empty vector is reported as absent. *)
Definition nonempty (b : bytes) : option bytes := if len b =? 0 then None else Some b.

Definition hello_parsed (h : hello) : ClientHello := {|
  ch_legacy_version := h_version h;
  ch_cipher_suites := h_suites h;
  ch_compression_methods := nonempty (h_methods h);
  ch_extensions := match h_extensions h with Some e => nonempty e | None => None end
|}.

Lemma ensure_min_wp buf min (Q : unit -> Prop) (R : ClientHelloParseError -> Prop) :
  (min <= len buf -> Q tt) -> R ClientHello_InvalidMessageLength -> wp (ensure_min buf min) Q R.
Proof. unfold ensure_min. intros HQ HR. destruct (Z.ltb_spec (len buf) min); [done|by apply HQ]. Qed.

Lemma ensure_min_ok buf min : min <= len buf -> ensure_min buf min = Ok tt.
Proof. intros. unfold ensure_min. by destruct (Z.ltb_spec (len buf) min); [lia|]. Qed.

Ltac hello_step :=
  lazymatch goal with
  | |- wp (ensure_min _ _) _ _ => apply ensure_min_wp; [intros ?|exact I]
  | |- wp (be16 _ _) _ _ => apply wp_be16; [len_lia|len_lia|intros ? ?]
  | _ => wp_step; bool_to_prop
  end.

(** The fields of an arbitrary message are read without a panic, and end inside
    it. *)
Section Fields.
Context (data : bytes) (Hlen : len data <= isize_max).

Lemma hello_session_id_wp o :
  0 <= o <= len data ->
  wp (hello_session_id data o) (fun o' => o < o' <= len data) (fun _ => True).
Proof. intros. unfold hello_session_id. repeat hello_step; try exact I. len_lia. Qed.

Lemma hello_cipher_suites_wp o :
  0 <= o <= len data ->
  wp (hello_cipher_suites data o) (fun x => o < snd x <= len data) (fun _ => True).
Proof. intros. unfold hello_cipher_suites. repeat hello_step; try exact I. cbn. len_lia. Qed.

Lemma hello_compression_methods_wp o :
  0 <= o <= len data ->
  wp (hello_compression_methods data o) (fun x => o < snd x <= len data) (fun _ => True).
Proof. intros. unfold hello_compression_methods. repeat hello_step; try exact I; cbn; len_lia. Qed.

Lemma hello_extensions_wp o :
  0 <= o <= len data ->
  wp (hello_extensions data o) (fun x => o < snd x <= len data) (fun _ => True).
Proof. intros. unfold hello_extensions. repeat hello_step; try exact I; cbn; len_lia. Qed.

Lemma ClientHello_parse_msg_data_no_panic : ClientHello_parse_msg_data data <> Panic.
Proof.
  eapply (wp_not_panic _ (fun _ => True) (fun _ => True)).
  unfold ClientHello_parse_msg_data, RANDOM_FIELD_SIZE. repeat hello_step; try exact I.
  eapply wp_mono; [apply hello_session_id_wp; len_lia| |done]. intros o1 Ho1. cbn beta in Ho1 |- *.
  wp_step. eapply wp_mono; [apply hello_cipher_suites_wp; lia| |done]. intros [cs o2] Ho2. cbn in Ho2 |- *.
  wp_step. eapply wp_mono; [apply hello_compression_methods_wp; lia| |done].
  intros [cm o3] Ho3. cbn in Ho3 |- *.
  repeat hello_step; try exact I.
  eapply wp_mono; [apply hello_extensions_wp; lia| |done]. intros [ex o4] Ho4. cbn in Ho4 |- *.
  repeat hello_step; exact I.
Qed.

(** The fields of an encoded message. *)
Context (pre post : bytes).

Lemma hello_session_id_bytes sid :
  data = pre ++ to_u8 (len sid) :: sid ++ post -> len sid <= 255 ->
  hello_session_id data (len pre) = Ok (len pre + 1 + len sid).
Proof.
  intros Hd Hs. assert (len data = len pre + 1 + len sid + len post) by (rewrite Hd; len_lia).
  unfold hello_session_id. rewrite (slice_from_at pre _ data _ Hd) by done. cbn [bind].
  rewrite len_cons. destruct (Z.eqb_spec (1 + len (sid ++ post)) 0); [len_lia|].
  change (index (?b :: _) 0) with (Ok (E := ClientHelloParseError) (to_u8 (len sid))). cbn [bind].
  rewrite u8_to_u8_small by len_lia. rewrite ensure_min_ok by len_lia. cbn [bind].
  rewrite uadd_ok by len_lia. f_equal. lia.
Qed.

Lemma be16_front {E} v rest : 0 <= v <= u16_max -> be16 (E := E) (to_be 2 v ++ rest) 0 = Ok v.
Proof. exact (be16_to_be [] v rest). Qed.

Lemma land_1_even n : 0 <= n -> (Z.land n 1 =? 0) = Z.even n.
Proof.
  intros. change 1 with (Z.ones 1). rewrite Z.land_ones by lia. change (2 ^ 1) with 2.
  rewrite Zeven_mod. by destruct (n mod 2) as [|[]|].
Qed.

Lemma hello_cipher_suites_bytes suites :
  data = pre ++ to_be 2 (len suites) ++ suites ++ post ->
  0 < len suites <= u16_max -> Z.even (len suites) = true ->
  hello_cipher_suites data (len pre) = Ok (suites, len pre + 2 + len suites).
Proof.
  intros Hd Hs Heven.
  assert (len data = len pre + 2 + len suites + len post) as Hl.
  { rewrite Hd, !len_app, len_to_be. lia. }
  unfold hello_cipher_suites. rewrite (slice_from_at pre _ data _ Hd) by done. cbn [bind].
  assert (len (to_be 2 (len suites) ++ suites ++ post) = 2 + len suites + len post) as Hr.
  { rewrite !len_app, len_to_be. lia. }
  rewrite ensure_min_ok by len_lia. cbn [bind]. rewrite be16_front by len_lia. cbn [bind].
  rewrite land_1_even, Heven by lia. destruct (Z.eqb_spec (len suites) 0); [lia|]. cbn [negb orb].
  rewrite ensure_min_ok by len_lia. cbn [bind]. rewrite !uadd_ok by len_lia. cbn [bind].
  rewrite uadd_ok by len_lia. cbn [bind].
  rewrite (slice_at (pre ++ to_be 2 (len suites)) suites post).
  2: { rewrite Hd, <- app_assoc. done. }
  2: { rewrite len_app, len_to_be. lia. }
  2: done.
  done.
Qed.

Lemma hello_compression_methods_bytes m :
  data = pre ++ to_u8 (len m) :: m ++ post -> len m <= 255 ->
  hello_compression_methods data (len pre) = Ok (nonempty m, len pre + 1 + len m).
Proof.
  intros Hd Hs. assert (len data = len pre + 1 + len m + len post) by (rewrite Hd; len_lia).
  unfold hello_compression_methods. rewrite (slice_from_at pre _ data _ Hd) by done. cbn [bind].
  rewrite len_cons. destruct (Z.eqb_spec (1 + len (m ++ post)) 0); [len_lia|].
  change (index (?b :: _) 0) with (Ok (E := ClientHelloParseError) (to_u8 (len m))). cbn [bind].
  rewrite u8_to_u8_small by len_lia. unfold nonempty.
  destruct (Z.ltb_spec 0 (len m)), (Z.eqb_spec (len m) 0) as [E|E]; try len_lia.
  - rewrite ensure_min_ok by len_lia. cbn [bind]. rewrite uadd_ok by len_lia. cbn [bind].
    rewrite uadd_ok by len_lia. cbn [bind].
    rewrite (slice_at (pre ++ [to_u8 (len m)]) m post); [done| |len_lia|done].
    by rewrite Hd, <- app_assoc.
  - rewrite uadd_ok by len_lia. cbn [bind]. do 2 f_equal. lia.
Qed.

Lemma hello_extensions_bytes e :
  data = pre ++ to_be 2 (len e) ++ e ++ post -> len e <= u16_max ->
  hello_extensions data (len pre) = Ok (nonempty e, len pre + 2 + len e).
Proof.
  intros Hd Hs. assert (len data = len pre + 2 + len e + len post) as Hl.
  { rewrite Hd, !len_app, len_to_be. lia. }
  unfold hello_extensions. rewrite (slice_from_at pre _ data _ Hd) by done. cbn [bind].
  assert (len (to_be 2 (len e) ++ e ++ post) = 2 + len e + len post) as Hr.
  { rewrite !len_app, len_to_be. lia. }
  rewrite ensure_min_ok by len_lia. cbn [bind]. rewrite be16_front by len_lia. cbn [bind].
  unfold nonempty. destruct (Z.ltb_spec 0 (len e)), (Z.eqb_spec (len e) 0) as [E|E]; try len_lia.
  - rewrite ensure_min_ok by len_lia. cbn [bind]. rewrite uadd_ok by len_lia. cbn [bind].
    rewrite uadd_ok by len_lia. cbn [bind].
    rewrite (slice_at (pre ++ to_be 2 (len e)) e post); [done| | |done].
    + by rewrite Hd, <- app_assoc.
    + rewrite len_app, len_to_be. lia.
  - rewrite uadd_ok by len_lia. cbn [bind]. do 2 f_equal. lia.
Qed.

End Fields.

Lemma ClientHello_parse_msg_data_bytes h :
  hello_ok h -> len (hello_bytes h) <= isize_max ->
  ClientHello_parse_msg_data (hello_bytes h) = Ok (hello_parsed h).
Proof.
  destruct h as [[mj mn] rnd sid suites m exts]. unfold hello_ok, hello_parsed, hello_bytes.
  cbn [h_version h_random h_session_id h_suites h_methods h_extensions rv_major rv_minor].
  intros (Hv & Hrnd & Hsid & Hsu & Heven & Hm & He) Hlen. set (data := _ ++ _) in *.
  set (ex := hello_exts_bytes exts) in data. unfold RANDOM_FIELD_SIZE in Hrnd.
  set (p1 := [mj; mn] ++ rnd). set (p2 := p1 ++ to_u8 (len sid) :: sid).
  set (p3 := p2 ++ to_be 2 (len suites) ++ suites). set (p4 := p3 ++ to_u8 (len m) :: m).
  assert (data = p1 ++ to_u8 (len sid) :: sid ++ to_be 2 (len suites) ++ suites ++
    to_u8 (len m) :: m ++ ex) as D1 by (unfold data, p1; by rewrite <- app_assoc).
  assert (data = p2 ++ to_be 2 (len suites) ++ suites ++ to_u8 (len m) :: m ++ ex) as D2
    by (rewrite D1; unfold p2; by rewrite <- app_assoc).
  assert (data = p3 ++ to_u8 (len m) :: m ++ ex) as D3
    by (rewrite D2; unfold p3; by rewrite <- !app_assoc).
  assert (data = p4 ++ ex) as D4 by (rewrite D3; unfold p4; by rewrite <- !app_assoc).
  assert (len p1 = 34) as L1 by (unfold p1; len_lia).
  assert (len p2 = len p1 + 1 + len sid) as L2 by (unfold p2; len_lia).
  assert (len p3 = len p2 + 2 + len suites) as L3 by (unfold p3; rewrite !len_app, len_to_be; lia).
  assert (len p4 = len p3 + 1 + len m) as L4 by (unfold p4; len_lia).
  assert (len data = len p4 + len ex) as LD by (rewrite D4; len_lia).
  unfold ClientHello_parse_msg_data, RANDOM_FIELD_SIZE. rewrite ensure_min_ok by len_lia. cbn [bind].
  change (index data 0) with (Ok (E := ClientHelloParseError) mj).
  change (index data 1) with (Ok (E := ClientHelloParseError) mn). cbn [bind]. rewrite Hv. cbn [negb].
  rewrite slice_from_ok by len_lia. cbn [bind]. rewrite ensure_min_ok by len_lia. cbn [bind].
  rewrite uadd_ok by len_lia. cbn [bind]. replace (2 + 32) with (len p1) by lia.
  rewrite (hello_session_id_bytes data Hlen p1 _ sid D1 Hsid). cbn [bind]. rewrite <- L2.
  rewrite (hello_cipher_suites_bytes data Hlen p2 _ suites D2 Hsu Heven). cbn [bind]. rewrite <- L3.
  rewrite (hello_compression_methods_bytes data Hlen p3 _ m D3 Hm). cbn [bind]. rewrite <- L4.
  destruct exts as [e|]; cbn [hello_exts_bytes] in ex.
  - assert (len ex = 2 + len e) as Lex by (unfold ex; rewrite len_app, len_to_be; lia).
    destruct (Z.leb_spec (len data) (len p4)); [len_lia|].
    rewrite (hello_extensions_bytes data Hlen p4 [] e); [|by rewrite D4, app_nil_r|done]. cbn [bind].
    destruct (Z.ltb_spec (len p4 + 2 + len e) (len data)); [lia|done].
  - destruct (Z.leb_spec (len data) (len p4)); [done|]. unfold ex in LD. len_lia.
Qed.

End Hello.

(** ** Record layout *)

Section Records.

(** RFC 8446 5.1 *)
Definition record_bytes (v : RawVersion) (code : byte) (frag : bytes) : bytes :=
  [code; rv_major v; rv_minor v] ++ to_be 2 (len frag) ++ frag.

Definition record_ok (v : RawVersion) (frag : bytes) : Prop :=
  version_supported (rv_major v) (rv_minor v) = true /\ 1 <= len frag <= 2 ^ 14.

Lemma len_record_bytes v code frag : len (record_bytes v code frag) = RecordHeader_SIZE + len frag.
Proof. unfold record_bytes, RecordHeader_SIZE. rewrite !len_app, len_to_be, !len_cons, len_nil. lia. Qed.

Lemma RecordHeader_parse_wp data :
  5 <= len data ->
  wp (RecordHeader_parse data)
    (fun h => 0 <= rh_fragment_size h <= u16_max /\ rh_content_type h <> CT_Invalid)
    (fun e => match e with Record_NeedMoreData _ => False | _ => True end).
Proof.
  intros Hd. unfold RecordHeader_parse. wp_step. wp_step.
  destruct (ContentType_try_from (u8 b)) as [c|] eqn:Hc; [|done].
  wp_go; [done|]. apply wp_be16; [lia..|]. intros v Hv. wp_step. cbn. split; [done|].
  intros ->. revert Hc. generalize (u8 b). intros z. unfold ContentType_try_from.
  repeat case_match; congruence.
Qed.

Lemma Record_parse_wp data :
  len data <= isize_max ->
  wp (Record_parse data)
    (fun r => Record_encoded_len r <= len data /\ len (rec_fragment r) <= 2 ^ 14 /\
              rec_consume_offset r = 0)
    (fun e => match e with Record_NeedMoreData n => 1 <= n | _ => True end).
Proof.
  intros Hlen. unfold Record_parse, RecordHeader_SIZE, Record_encoded_len.
  destruct (Z.ltb_spec (len data) 5); [cbn; lia|]. wp_step.
  eapply wp_mono; [apply RecordHeader_parse_wp; lia| |by intros []].
  intros h [Hh _]. cbn beta. change (Z.shiftl 1 14) with (2 ^ 14). wp_go; try done.
  - lia.
  - cbn. unfold RecordHeader_SIZE. lia.
Qed.

Lemma RecordHeader_parse_bytes v ct code (frag rest : bytes) :
  version_supported (rv_major v) (rv_minor v) = true -> len frag <= u16_max ->
  ContentType_try_from (u8 code) = Some ct ->
  RecordHeader_parse ([code; rv_major v; rv_minor v] ++ to_be 2 (len frag) ++ rest) =
    Ok {| rh_version := v; rh_content_type := ct; rh_fragment_size := len frag |}.
Proof.
  destruct v as [mj mn]. intros Hv Hf Hct. cbn [rv_major rv_minor] in *.
  unfold RecordHeader_parse. set (data := _ ++ _ ++ rest).
  change (index data 0) with (Ok (E := RecordParseError) code).
  change (index data 1) with (Ok (E := RecordParseError) mj).
  change (index data 2) with (Ok (E := RecordParseError) mn). cbn [bind].
  rewrite Hct, Hv. cbn [negb]. unfold data.
  pose proof (be16_to_be (E := RecordParseError) [code; mj; mn] (len frag) rest ltac:(len_lia)) as Hb.
  change (len [code; mj; mn]) with 3 in Hb. by rewrite Hb.
Qed.

Lemma Record_parse_bytes v ct code frag rest :
  record_ok v frag -> ContentType_try_from (u8 code) = Some ct ->
  Record_parse (record_bytes v code frag ++ rest) =
    Ok {| rec_header := {| rh_version := v; rh_content_type := ct; rh_fragment_size := len frag |};
          rec_fragment := frag; rec_consume_offset := 0 |}.
Proof.
  intros [Hv Hf] Hct. unfold Record_parse, RecordHeader_SIZE.
  assert (len (record_bytes v code frag ++ rest) = 5 + len frag + len rest) as Hl.
  { rewrite len_app, len_record_bytes. unfold RecordHeader_SIZE. lia. }
  rewrite Hl. destruct (Z.ltb_spec (5 + len frag + len rest) 5); [len_lia|].
  unfold record_bytes in *. rewrite <- !app_assoc in *.
  rewrite (RecordHeader_parse_bytes v ct code frag (frag ++ rest)) by (try done; unfold u16_max; lia).
  cbn [bind rh_fragment_size rh_content_type]. change (Z.shiftl 1 14) with (2 ^ 14).
  destruct (Z.ltb_spec (2 ^ 14) (len frag)); [lia|].
  destruct (Z.eqb_spec (len frag) 0); [lia|]. rewrite andb_false_r.
  destruct (Z.ltb_spec (5 + len frag + len rest) (5 + len frag)); [len_lia|].
  rewrite (slice_at ([code; rv_major v; rv_minor v] ++ to_be 2 (len frag)) frag rest); [done| | |done].
  - by rewrite <- app_assoc.
  - rewrite len_app, len_to_be. done.
Qed.

(** A record that has not arrived completely asks for more data. *)
Lemma Record_parse_partial v ct code frag d missing :
  record_ok v frag -> ContentType_try_from (u8 code) = Some ct ->
  record_bytes v code frag = d ++ missing -> missing <> [] ->
  exists n, Record_parse d = Err (Record_NeedMoreData n).
Proof.
  intros [Hv Hf] Hct Hd Hm. pose proof (len_record_bytes v code frag) as Hl.
  rewrite Hd, len_app in Hl. unfold RecordHeader_SIZE in Hl.
  assert (0 < len missing) by (destruct missing; [done|len_lia]).
  unfold Record_parse, RecordHeader_SIZE. destruct (Z.ltb_spec (len d) 5) as [H5|H5]; [by eexists|].
  unfold record_bytes in Hd. set (hd := [code; rv_major v; rv_minor v] ++ to_be 2 (len frag)).
  assert (exists d', d = hd ++ d') as [d' ->].
  { rewrite app_assoc in Hd. fold hd in Hd. exists (drop 5 d).
    assert (len hd = 5) as Hhd by (unfold hd; rewrite len_app, len_to_be; done).
    rewrite <- (take_drop 5 d) at 1. f_equal.
    apply (f_equal (take 5)) in Hd.
    rewrite (take_app_le d), (take_app_le hd), (take_ge hd) in Hd by (unfold len in *; lia).
    done. }
  unfold hd. rewrite <- app_assoc.
  rewrite (RecordHeader_parse_bytes v ct code frag d') by (try done; unfold u16_max; lia).
  cbn [bind rh_fragment_size rh_content_type]. change (Z.shiftl 1 14) with (2 ^ 14).
  destruct (Z.ltb_spec (2 ^ 14) (len frag)); [lia|].
  destruct (Z.eqb_spec (len frag) 0); [lia|]. rewrite andb_false_r.
  unfold hd in *. rewrite <- app_assoc in Hl.
  destruct (Z.ltb_spec (len ([code; rv_major v; rv_minor v] ++ to_be 2 (len frag) ++ d')) (5 + len frag));
    [by eexists|lia].
Qed.

End Records.

(** ** Properties *)

(** Feed fragments to the coalescer one after the other: the bytes each of them
    consumed. *)
Fixpoint coalesce_all (c : HandshakeCoalescer) (frags : list bytes)
    : res HandshakeCoalesceError (list Z) * HandshakeCoalescer :=
  match frags with
  | [] => (Ok [], c)
  | f :: frags' =>
      match coalesce_fragment c f with
      | (Ok n, c') =>
          let '(r, c'') := coalesce_all c' frags' in
          (let? ns := r in Ok (n :: ns), c'')
      | (Err e, c') => (Err e, c')
      | (Panic, c') => (Panic, c')
      end
  end.

Lemma coalesce_all_message c frags msg h extra :
  hc_ok c -> hs_message msg h -> hh_msg_length h <= hc_max_message_size c ->
  hc_buf c ++ concat frags = msg ++ extra -> len (hc_buf c) <= len msg ->
  exists ns c', coalesce_all c frags = (Ok ns, c') /\ hc_ok c' /\
    hc_buf c' = msg /\ foldr Z.add 0 ns = len msg - len (hc_buf c).
Proof.
  intros Hok [Hh Hl] Hmax. revert c extra Hok Hmax.
  induction frags as [|f frags IH]; intros c extra Hok Hmax Hs Hle.
  - cbn [concat] in Hs. rewrite app_nil_r in Hs. exists [], c.
    assert (extra = []) as -> by (apply len_0; rewrite Hs in Hle; len_lia).
    rewrite app_nil_r in Hs. rewrite Hs. split_and!; try done. cbn. lia.
  - cbn [concat coalesce_all] in *. rewrite app_assoc in Hs.
    pose proof (coalesce_fragment_spec c f Hok) as Hc. cbv zeta in Hc.
    assert (exists n c', coalesce_fragment c f = (Ok n, c') /\ len (hc_buf c') <= len msg /\
      len (hc_buf c') = len (hc_buf c) + n /\ (n < len f -> len (hc_buf c') = len msg))
      as (n & c' & Hcf & Hle' & Hn & Hpart).
    { pose proof (f_equal hs_header Hs) as Hhs. rewrite (hs_header_app _ extra _ Hh) in Hhs.
      destruct (hs_header (hc_buf c ++ f)) as [h'|] eqn:Hf.
      - rewrite (hs_header_app _ _ _ Hf) in Hhs. injection Hhs as ->.
        destruct (Z.ltb_spec (hc_max_message_size c) (hh_msg_length h)); [lia|].
        rewrite Hl in Hc. eexists _, _. split; [exact Hc|]. cbn. split_and!; len_lia.
      - eexists _, _. split; [exact Hc|]. cbn. apply hs_header_short in Hf.
        pose proof (hs_header_len _ _ Hh) as [? _]. len_lia. }
    rewrite Hcf. destruct (coalesce_fragment_ok c f n c' Hok Hcf) as (Hok' & Hmax' & Hr & Hkeep).
    assert (exists extra', hc_buf c' ++ concat frags = msg ++ extra') as [extra' Hs'].
    { destruct (Z.eq_dec n (len f)) as [->|Hne].
      - exists extra. rewrite drop_ge, app_nil_r in Hkeep by (unfold len; lia). by rewrite Hkeep.
      - exists (concat frags). f_equal.
        assert (len (hc_buf c') = len msg) as Hfull by (apply Hpart; lia).
        rewrite <- Hkeep, <- app_assoc in Hs. apply (f_equal (take (length msg))) in Hs.
        rewrite take_app_length, take_app_le, take_ge in Hs by (unfold len in Hfull; lia). done. }
    destruct (IH c' extra' Hok' ltac:(lia) Hs' Hle') as (ns & c'' & -> & Hok'' & Hb & Hsum).
    eexists _, _. split; [reflexivity|]. split_and!; try done. cbn. lia.
Qed.

(** A handshake message that arrives in fragments is put together exactly.
    Whatever the fragments are (single bytes, a split inside the header, empty
    ones, one that carries the beginning of the next message), the coalescer
    ends up with the message and nothing else, and consumes exactly its bytes:
    the bytes of the next message stay with the caller. *)
Theorem coalescer_reassembles (max : Z) (frags : list bytes) (msg extra : bytes)
    (h : HandshakeHeader) :
  hs_message msg h -> hh_msg_length h <= max -> concat frags = msg ++ extra ->
  exists ns c,
    coalesce_all (HandshakeCoalescer_new max) frags = (Ok ns, c) /\
    hc_buf c = msg /\ foldr Z.add 0 ns = len msg /\
    HandshakeCoalescer_parse_client_hello c =
      if hh_msg_type h =? HandshakeType_ClientHello
      then bind (ClientHello_parse_msg_data (drop 4 msg)) (fun ch => Ok (Some ch))
      else Err (ClientHello_InvalidMessageType (hh_msg_type h)).
Proof.
  intros Hmsg Hmax Hs.
  destruct (coalesce_all_message (HandshakeCoalescer_new max) frags msg h extra) as
    (ns & c & Hc & Hok & Hb & Hsum); [done|done|done|done|apply len_nonneg|].
  exists ns, c. split_and!; [done..| |].
  - rewrite Hsum. cbn. apply Z.sub_0_r.
  - destruct Hok as [Hh _]. destruct Hmsg as [Hh' Hl]. rewrite Hb, Hh' in Hh.
    unfold HandshakeCoalescer_parse_client_hello. rewrite Hh, Hb.
    destruct (hh_msg_type h =? HandshakeType_ClientHello); cbn [negb]; [|done].
    rewrite Hl, Z.eqb_refl. apply hs_header_len in Hh' as [? _].
    by rewrite slice_from_ok by (unfold HandshakeHeader_SIZE; lia).
Qed.

Lemma coalescer_reassembles_witness :
  exists ns c,
    coalesce_all (HandshakeCoalescer_new 16) [[x02]; [x00; x00]; [x02; xab]; []; [xcd; x01; x00]]
      = (Ok ns, c) /\ hc_buf c = [x02; x00; x00; x02; xab; xcd] /\ foldr Z.add 0 ns = 6.
Proof.
  destruct (coalescer_reassembles 16 [[x02]; [x00; x00]; [x02; xab]; []; [xcd; x01; x00]]
    [x02; x00; x00; x02; xab; xcd] [x01; x00] {| hh_msg_type := 2; hh_msg_length := 2 |})
    as (ns & c & Hc & Hb & Hn & _).
  - split; reflexivity.
  - apply Z.leb_le. reflexivity.
  - reflexivity.
  - exists ns, c. split; [exact Hc|]. split; [exact Hb|]. exact Hn.
Defined.

(** Every client hello of RFC 8446 4.1.2 with a supported version is read
    back field by field, an empty vector as an absent one; and no message of any
    content makes the parser panic. *)
Theorem client_hello_roundtrip (h : hello) (data : bytes) :
  hello_ok h -> len (hello_bytes h) <= isize_max -> len data <= isize_max ->
  ClientHello_parse_msg_data (hello_bytes h) = Ok (hello_parsed h) /\
  ClientHello_parse_msg_data data <> Panic.
Proof.
  intros Hok Hlen Hd.
  split; [by apply ClientHello_parse_msg_data_bytes|by apply ClientHello_parse_msg_data_no_panic].
Qed.

Definition hello_example : hello := {|
  h_version := {| rv_major := x03; rv_minor := x03 |};
  h_random := replicate 32 x11; h_session_id := []; h_suites := [x13; x01];
  h_methods := [x00]; h_extensions := Some [x00; x00; x00; x00]
|}.

Lemma client_hello_roundtrip_witness :
  ClientHello_parse_msg_data (hello_bytes hello_example) = Ok (hello_parsed hello_example).
Proof.
  refine (proj1 (client_hello_roundtrip hello_example [] _ _ _)).
  - repeat split; apply Z.leb_le || apply Z.ltb_lt; reflexivity.
  - apply Z.leb_le. reflexivity.
  - apply Z.leb_le. reflexivity.
Defined.

(** A record is read when it is complete, whatever follows it; every proper
    prefix of it asks for more data; and no input makes the parser panic or
    return more than the input holds. *)
Theorem record_framing (v : RawVersion) (ct : ContentType) (code : byte) (frag rest data : bytes) :
  record_ok v frag -> ContentType_try_from (u8 code) = Some ct -> len data <= isize_max ->
  Record_parse (record_bytes v code frag ++ rest) =
    Ok {| rec_header := {| rh_version := v; rh_content_type := ct; rh_fragment_size := len frag |};
          rec_fragment := frag; rec_consume_offset := 0 |} /\
  (forall d missing, record_bytes v code frag = d ++ missing -> missing <> [] ->
     exists n, Record_parse d = Err (Record_NeedMoreData n)) /\
  match Record_parse data with
  | Ok r => Record_encoded_len r <= len data /\ len (rec_fragment r) <= 2 ^ 14
  | Err _ => True
  | Panic => False
  end.
Proof.
  intros Hok Hct Hlen. split_and!.
  - by apply Record_parse_bytes.
  - intros d missing. by apply (Record_parse_partial v ct).
  - pose proof (Record_parse_wp data Hlen) as Hwp. destruct (Record_parse data); [|done..].
    by destruct Hwp as (? & ? & _).
Qed.

Lemma record_framing_witness :
  exists n, Record_parse [x16; x03; x01; x00; x02; xaa] = Err (Record_NeedMoreData n).
Proof.
  refine (proj1 (proj2 (record_framing {| rv_major := x03; rv_minor := x01 |} CT_Handshake x16
    [xaa; xbb] [] [] _ _ _)) [x16; x03; x01; x00; x02; xaa] [xbb] _ _).
  - split; [reflexivity|]. split; apply Z.leb_le; reflexivity.
  - reflexivity.
  - apply Z.leb_le. reflexivity.
  - reflexivity.
  - discriminate.
Defined.
