(* ===== verification/TlsAccept.v ===== *)
(** * Reading the client hello of a new connection

    Five servers read the first handshake message of a connection with the same
    loop: [vey-proxy/src/serve/sni_proxy/task/accept/tls.rs] ([parse_request]),
    [vey-proxy/src/serve/tls_proxy/task/accept/task.rs],
    [vey-proxy/src/serve/http_guard/server.rs],
    [vey-proxy/src/serve/http_expose/server.rs] ([read_sni_host]) and
    [vey-proxy/src/inspect/tls/mod.rs] ([do_read_client_hello]).  The loop is
    modelled once, on the record, coalescer and client hello models of [Tls]. *)

From Stdlib Require Import ZArith Lia Strings.Byte.
From stdpp Require Import base list.
From S2P Require Import Prelude Reader Domain TlsExtension Tls.

Inductive HelloError : Type :=
| Hello_TooLarge
| Hello_ClosedByClient
| Hello_ReadFailed (e : io_error)
| Hello_InvalidRequest
| Hello_PartialFragmented
| Hello_InvalidFragmented.

Definition max_buf_size (max_hello_size : Z) : Z :=
  saturating_add (saturating_mul max_hello_size (RecordHeader_SIZE + 1)) (Z.shiftl 1 14).

(** What the loop does with a complete record: the client hello, or nothing yet. *)
Definition hello_record (record : TlsRecord) (coalescer : HandshakeCoalescer)
    : res HelloError (option ClientHello) * HandshakeCoalescer :=
  match Record_consume_handshake record coalescer with
  | (Ok (Some handshake_msg, _), coalescer') =>
      (let? ch := map_err (fun _ => Hello_InvalidRequest)
                    (HandshakeMessage_parse_client_hello handshake_msg) in
       Ok (Some ch), coalescer')
  | (Ok (None, record'), coalescer') =>
      (let? found := map_err (fun _ => Hello_InvalidFragmented)
                       (HandshakeCoalescer_parse_client_hello coalescer') in
       match found with
       | Some ch => Ok (Some ch)
       | None =>
           if negb (Record_consume_done record') then Err Hello_PartialFragmented else Ok None
       end, coalescer')
  | (Err _, coalescer') => (Err Hello_InvalidRequest, coalescer')
  | (Panic, coalescer') => (Panic, coalescer')
  end.

Section Loop.

(** [spare n]: how many bytes [read_buf] may add to a [BytesMut] of [n] bytes.
    [BytesMut] reserves room before a read, so this is positive. *)
Context (spare : Z -> Z).

(** The loop.  Every round reads at least one byte or passes a record, so twice
    the bytes of the stream and the buffered bytes bound the rounds. *)
Fixpoint hello_loop (fuel : nat) (max_buf : Z) (coalescer : HandshakeCoalescer)
    (record_offset : Z) (buf : bytes) (rd : reader)
    : res HelloError ClientHello * bytes * reader :=
  match fuel with
  | O => (Panic, buf, rd)
  | S fuel' =>
      let parsed :=
        let? left := slice_from buf record_offset in
        let? record := Record_parse left in
        let? offset := uadd record_offset (Record_encoded_len record) in
        Ok (record, offset) in
      match parsed with
      | Ok (record, offset) =>
          match hello_record record coalescer with
          | (Ok (Some ch), _) => (Ok ch, buf, rd)
          | (Ok None, coalescer') => hello_loop fuel' max_buf coalescer' offset buf rd
          | (Err e, _) => (Err e, buf, rd)
          | (Panic, _) => (Panic, buf, rd)
          end
      | Err (Record_NeedMoreData _) =>
          if max_buf <=? len buf then (Err Hello_TooLarge, buf, rd)
          else
            match read_await rd (spare (len buf)) with
            | (Ok c, rd') =>
                if len c =? 0 then (Err Hello_ClosedByClient, buf, rd')
                else hello_loop fuel' max_buf coalescer record_offset (buf ++ c) rd'
            | (Err e, rd') => (Err (Hello_ReadFailed e), buf, rd')
            | (Panic, rd') => (Panic, buf, rd')
            end
      | Err _ => (Err Hello_InvalidRequest, buf, rd)
      | Panic => (Panic, buf, rd)
      end
  end.

Definition read_client_hello (max_client_hello_size : Z) (clt_r_buf : bytes) (rd : reader)
    : res HelloError ClientHello * bytes * reader :=
  hello_loop (S (2 * length (stream_of rd) + length clt_r_buf))
    (max_buf_size max_client_hello_size) (HandshakeCoalescer_new max_client_hello_size)
    0 clt_r_buf rd.

(** ** The servers *)

Context (to_ascii : bytes -> option bytes).

(** *** The SNI proxy *)

Inductive SniRequestError : Type :=
| SniReq_Hello (e : HelloError)
| SniReq_InvalidServerName
| SniReq_NoServerName
| SniReq_InvalidExtension.

(** [UpstreamAddr::new(Host::from(sni), port)] *)
Record SniUpstream : Type := { su_host : DomainName; su_port : Z }.

Definition parse_sni (ch : ClientHello) (port : Z) : res SniRequestError SniUpstream :=
  match ClientHello_get_ext ch ServerName with
  | Ok (Some data) =>
      let? sni := map_err (fun _ => SniReq_InvalidServerName)
                    (TlsServerName_from_extension_value to_ascii data) in
      Ok {| su_host := sni_domain sni; su_port := port |}
  | Ok None => Err SniReq_NoServerName
  | Err _ => Err SniReq_InvalidExtension
  | Panic => Panic
  end.

Definition sni_parse_request (max_client_hello_size port : Z) (clt_r_buf : bytes) (rd : reader)
    : res SniRequestError SniUpstream * bytes * reader :=
  let '(r, buf, rd') := read_client_hello max_client_hello_size clt_r_buf rd in
  (let? ch := map_err SniReq_Hello r in parse_sni ch port, buf, rd').

(** *** The TLS proxy *)

Definition TLS_MAX_CLIENT_HELLO_SIZE : Z := Z.shiftl 1 16.

Definition host_from_client_hello (ch : ClientHello) : res False (option DomainName) :=
  match ClientHello_get_ext ch ServerName with
  | Ok (Some data) =>
      match TlsServerName_from_extension_value to_ascii data with
      | Ok sni => Ok (Some (sni_domain sni))
      | Err _ => Ok None
      | Panic => Panic
      end
  | Ok None | Err _ => Ok None
  | Panic => Panic
  end.

Definition tls_proxy_read_sni_host (clt_r_buf : bytes) (rd : reader)
    : res HelloError (option DomainName) * bytes * reader :=
  let '(r, buf, rd') := read_client_hello TLS_MAX_CLIENT_HELLO_SIZE clt_r_buf rd in
  (let? ch := r in map_err (False_rect _) (host_from_client_hello ch), buf, rd').

(** *** TLS interception *)

Record ParsedClientHello : Type := {
  pch_version : RawVersion;
  pch_sni : option TlsServerName;
  pch_alpn : option TlsAlpn
}.

Inductive ParseHelloError : Type :=
| ParseHello_Hello (e : HelloError)
| ParseHello_Extension (e : ExtensionParseError)
| ParseHello_ServerName (e : TlsServerNameError)
| ParseHello_Alpn (e : TlsAlpnError).

(** The [for] loop over the extensions. *)
Fixpoint parsed_hello_loop (fuel : nat) (iter : ExtensionIter) (sni : option TlsServerName)
    (alpn : option TlsAlpn) : res ParseHelloError (option TlsServerName * option TlsAlpn) :=
  match fuel with
  | O => Panic
  | S fuel' =>
      let? '(item, iter') := map_err (False_rect _) (ExtensionIter_next iter) in
      match item with
      | None => Ok (sni, alpn)
      | Some (inr e) => Err (ParseHello_Extension e)
      | Some (inl ext) =>
          match ext_data ext with
          | None => parsed_hello_loop fuel' iter' sni alpn
          | Some data =>
              match ext_type ext with
              | ServerName =>
                  let? v := map_err ParseHello_ServerName
                              (TlsServerName_from_extension_value to_ascii data) in
                  parsed_hello_loop fuel' iter' (Some v) alpn
              | ApplicationLayerProtocolNegotiation =>
                  let? v := map_err ParseHello_Alpn (TlsAlpn_from_extension_value data) in
                  parsed_hello_loop fuel' iter' sni (Some v)
              | _ => parsed_hello_loop fuel' iter' sni alpn
              end
          end
      end
  end.

Definition ParsedClientHello_parse (ch : ClientHello) : res ParseHelloError ParsedClientHello :=
  let iter := ClientHello_ext_iter ch in
  let? '(sni, alpn) := parsed_hello_loop (S (length (ei_data iter))) iter None None in
  Ok {| pch_version := ch_legacy_version ch; pch_sni := sni; pch_alpn := alpn |}.

Definition do_read_client_hello (client_hello_max_size : Z) (clt_r_buf : bytes) (rd : reader)
    : res ParseHelloError ParsedClientHello * bytes * reader :=
  let '(r, buf, rd') := read_client_hello client_hello_max_size clt_r_buf rd in
  (let? ch := map_err ParseHello_Hello r in ParsedClientHello_parse ch, buf, rd').

End Loop.

(** ** One record *)

Section Records.

Definition handshake_record (v : RawVersion) (f : bytes) : TlsRecord := {|
  rec_header := {| rh_version := v; rh_content_type := CT_Handshake; rh_fragment_size := len f |};
  rec_fragment := f;
  rec_consume_offset := 0
|}.

Lemma rec_advance_handshake {E} v f n :
  n <= 2 ^ 32 -> exists r, rec_advance (E := E) (handshake_record v f) n = Ok r /\
    rec_fragment r = f /\ rec_consume_offset r = n.
Proof.
  intros Hn. unfold rec_advance. cbn [handshake_record rec_consume_offset].
  rewrite uadd_ok by (unfold u64_max; lia). by eexists.
Qed.

(** A piece of the message is taken completely. *)
Lemma coalesce_piece c msg h f tail :
  hc_ok c -> hs_message msg h -> hh_msg_length h <= hc_max_message_size c ->
  hc_buf c ++ f ++ tail = msg ->
  exists c', coalesce_fragment c f = (Ok (len f), c') /\ hc_ok c' /\
    hc_max_message_size c' = hc_max_message_size c /\ hc_buf c' = hc_buf c ++ f.
Proof.
  intros Hok [Hh Hl] Hmax Hmsg. pose proof (coalesce_fragment_spec c f Hok) as Hc. cbv zeta in Hc.
  assert (len (hc_buf c) + len f + len tail = len msg) as Hlen by (rewrite <- Hmsg; len_lia).
  assert (exists c', coalesce_fragment c f = (Ok (len f), c')) as [c' Hc'].
  { destruct (hs_header (hc_buf c ++ f)) as [h'|] eqn:E; [|by eexists].
    rewrite app_assoc in Hmsg. pose proof (hs_header_app _ tail _ E) as E'.
    rewrite Hmsg, Hh in E'. injection E' as <-.
    destruct (Z.ltb_spec (hc_max_message_size c) (hh_msg_length h)); [lia|].
    rewrite Hl, Z.min_l in Hc by len_lia. by eexists. }
  destruct (coalesce_fragment_ok c f _ c' Hok Hc') as (Hok' & Hm & _ & Hb).
  rewrite drop_ge, app_nil_r in Hb by (unfold len; lia). by exists c'.
Qed.

(** The next piece of the message is found whole or handed to the coalescer. *)
Lemma consume_piece v c msg h f tail :
  hc_ok c -> hs_message msg h -> hh_msg_length h <= hc_max_message_size c ->
  hc_buf c ++ f ++ tail = msg -> 1 <= len f <= 2 ^ 14 ->
  (tail = [] /\ exists r, Record_consume_handshake (handshake_record v f) c =
      (Ok (Some {| hm_header := h; hm_msg_data := msg |}, r), c)) \/
  (exists r c', Record_consume_handshake (handshake_record v f) c = (Ok (None, r), c') /\
     Record_consume_done r = true /\ hc_ok c' /\ hc_buf c' = hc_buf c ++ f /\
     hc_max_message_size c' = hc_max_message_size c).
Proof.
  intros Hok Hhs Hmax Hmsg Hf. unfold Record_consume_handshake, Record_consume_done.
  change (rh_content_type (rec_header (handshake_record v f))) with CT_Handshake.
  change (rec_fragment (handshake_record v f)) with f.
  change (rec_consume_offset (handshake_record v f)) with 0.
  rewrite bool_decide_eq_true_2 by done. cbn [negb].
  destruct (Z.leb_spec (len f) 0); [lia|]. rewrite slice_from_ok by lia.
  change (drop (Z.to_nat 0) f) with f. cbv beta iota zeta.
  assert (len (hc_buf c) + len f + len tail = len msg) as Hlen by (rewrite <- Hmsg; len_lia).
  destruct (coalesce_piece c msg h f tail Hok Hhs Hmax Hmsg) as (c' & Hc & Hok' & Hm & Hb).
  rewrite HandshakeMessage_try_parse_fragment_eq, Hc. cbn [bind]. destruct Hhs as [Hh Hl].
  destruct (rec_advance_handshake (E := HandshakeCoalesceError) v f (len f) ltac:(lia))
    as (r & Hadv & Hrf & Hro).
  assert ((let? self' := rec_advance (handshake_record v f) (len f) in Ok (None, self')) =
    Ok (E := HandshakeCoalesceError) (@None HandshakeMessage, r)) as Hnone by (by rewrite Hadv).
  destruct (HandshakeCoalescer_is_empty c) eqn:E.
  - unfold HandshakeCoalescer_is_empty in E. apply Z.eqb_eq, len_0 in E.
    destruct (hs_header f) as [h'|] eqn:Ef.
    2: { right. exists r, c'. rewrite Hnone, Hrf, Hro, Z.leb_refl. done. }
    assert (h' = h) as ->.
    { rewrite E in Hmsg. cbn [app] in Hmsg. apply (hs_header_app _ tail) in Ef. congruence. }
    rewrite Hl. destruct (Z.leb_spec (len msg) (len f)).
    + left. assert (tail = []) as -> by (apply len_0; len_lia). split; [done|].
      rewrite E, app_nil_r in Hmsg. cbn [app] in Hmsg. subst f.
      rewrite take_ge by (unfold len; lia). unfold HandshakeMessage_encoded_len. cbn [hm_msg_data].
      rewrite Hadv. by eexists.
    + right. exists r, c'. rewrite Hnone, Hrf, Hro, Z.leb_refl. done.
  - right. exists r, c'. rewrite Hnone, Hrf, Hro, Z.leb_refl. done.
Qed.

(** What a record of the message means to the loop. *)
Lemma hello_record_spec v c msg h ch f tail :
  hc_ok c -> hs_message msg h -> hh_msg_length h <= hc_max_message_size c ->
  hh_msg_type h = HandshakeType_ClientHello ->
  ClientHello_parse_msg_data (drop 4 msg) = Ok ch ->
  hc_buf c ++ f ++ tail = msg -> 1 <= len f <= 2 ^ 14 ->
  (tail = [] /\ exists c', hello_record (handshake_record v f) c = (Ok (Some ch), c')) \/
  (tail <> [] /\ exists c', hello_record (handshake_record v f) c = (Ok None, c') /\
     hc_ok c' /\ hc_buf c' = hc_buf c ++ f /\ hc_max_message_size c' = hc_max_message_size c).
Proof.
  intros Hok Hhs Hmax Hty Hch Hmsg Hf. unfold hello_record. pose proof Hhs as [Hh Hl].
  pose proof (hs_header_len _ _ Hh) as [H4 Hr].
  destruct (consume_piece v c msg h f tail Hok Hhs Hmax Hmsg Hf)
    as [(-> & r & ->)|(r & c' & -> & Hdone & Hok' & Hb & Hm)].
  - left. split; [done|]. unfold HandshakeMessage_parse_client_hello, ClientHello_parse_fragment.
    cbn [hm_header hm_msg_data]. rewrite Hty, Z.eqb_refl. cbn [negb]. rewrite Hl, Z.ltb_irrefl.
    unfold HandshakeHeader_SIZE. rewrite slice_ok by lia. cbn [bind].
    rewrite take_ge by (rewrite length_drop; unfold len; lia).
    change (drop (Z.to_nat 4) msg) with (drop 4 msg). rewrite Hch. by eexists.
  - unfold HandshakeCoalescer_parse_client_hello. destruct Hok' as [Hh' Hinv].
    assert (len (hc_buf c') + len tail = len msg) as Hlen by (rewrite <- Hmsg, Hb; len_lia).
    rewrite app_assoc, <- Hb in Hmsg. destruct (hc_header c') as [h'|] eqn:E.
    + assert (h' = h) as ->.
      { symmetry in Hh'. apply (hs_header_app _ tail) in Hh'. rewrite Hmsg in Hh'. congruence. }
      rewrite Hty, Z.eqb_refl, Hl. cbn [negb]. destruct (Z.eqb_spec (len msg) (len (hc_buf c'))).
      * left. assert (tail = []) as -> by (apply len_0; len_lia). split; [done|].
        rewrite app_nil_r in Hmsg. rewrite Hmsg, slice_from_ok by (unfold HandshakeHeader_SIZE; lia).
        cbn [bind]. change (drop (Z.to_nat HandshakeHeader_SIZE) msg) with (drop 4 msg).
        rewrite Hch. by eexists.
      * right. split; [intros ->; len_lia|]. cbn [map_err bind]. rewrite Hdone. cbn [negb].
        exists c'. split_and!; try done. by split; rewrite E.
    + right. split.
      { intros ->. rewrite app_nil_r in Hmsg. congruence. }
      cbn [map_err bind]. rewrite Hdone. cbn [negb]. exists c'. split_and!; try done.
      by split; rewrite E.
Qed.

End Records.

(** ** The loop *)

Section Delivery.
Context (spare : Z -> Z) (Hspare : forall n, 0 < spare n).

(** A handshake message sent in records. *)
Definition wire (rs : list (RawVersion * bytes)) : bytes :=
  concat (map (fun r => record_bytes (fst r) x16 (snd r)) rs).

Definition records_ok (rs : list (RawVersion * bytes)) : Prop :=
  Forall (fun r => record_ok (fst r) (snd r)) rs.

Lemma len_wire rs : records_ok rs -> len (wire rs) <= 6 * len (concat (map snd rs)).
Proof.
  intros Hrs. induction Hrs as [|[v f] rs [_ Hf] Hrs IH]; [done|].
  unfold wire in *. cbn [map concat fst snd] in *. rewrite !len_app, len_record_bytes.
  unfold RecordHeader_SIZE. cbn [snd] in Hf. lia.
Qed.

Context (msg : bytes) (h : HandshakeHeader) (ch : ClientHello).
Context (Hmsg : hs_message msg h) (Hty : hh_msg_type h = HandshakeType_ClientHello).
Context (Hch : ClientHello_parse_msg_data (drop 4 msg) = Ok ch).

Lemma hello_loop_delivers fuel max_buf c pre q rs rest rd :
  hc_ok c -> hh_msg_length h <= hc_max_message_size c ->
  records_ok rs -> rs <> [] -> hc_buf c ++ concat (map snd rs) = msg ->
  q ++ stream_of rd = wire rs ++ rest ->
  len pre + len (wire rs) <= max_buf -> max_buf <= usize_max -> well_behaved rd ->
  (2 * length (stream_of rd) + length q < fuel)%nat ->
  exists buf' rd',
    hello_loop spare fuel max_buf c (len pre) (pre ++ q) rd = (Ok ch, buf', rd') /\
    buf' ++ stream_of rd' = (pre ++ q) ++ stream_of rd /\ well_behaved rd'.
Proof.
  revert c pre q rs rd. induction fuel as [|fuel IH];
    intros c pre q rs rd Hok Hmax Hrs Hne Hcat Hs Hbuf Husize Hwb Hfuel; [lia|].
  destruct rs as [|[v f] rs]; [done|]. apply Forall_cons in Hrs as [Hf Hrs].
  cbn [fst snd map concat] in *. cbn [hello_loop]. rewrite slice_from_app. cbn [bind].
  change (wire ((v, f) :: rs)) with (record_bytes v x16 f ++ wire rs) in *.
  rewrite <- app_assoc in Hs. pose proof (len_record_bytes v x16 f) as Hlr.
  unfold RecordHeader_SIZE in Hlr.
  assert ((exists q', q = record_bytes v x16 f ++ q' /\ wire rs ++ rest = q' ++ stream_of rd) \/
    (exists missing, record_bytes v x16 f = q ++ missing /\ missing <> [] /\
       stream_of rd = missing ++ wire rs ++ rest)) as [(q' & -> & Hrest)|(missing & Hpart & Hnil & Hstream)].
  { destruct (app_eq_inv _ _ _ _ Hs) as [(q' & -> & Hrest)|([|b missing] & Hpart & Hstream)].
    - left. by exists q'.
    - left. exists []. rewrite app_nil_r in *. cbn in Hstream. by rewrite Hpart, Hstream.
    - right. by exists (b :: missing). }
  - rewrite (Record_parse_bytes v CT_Handshake) by done. cbn [bind].
    fold (handshake_record v f). unfold Record_encoded_len. cbn [handshake_record rec_fragment].
    fold (handshake_record v f). unfold RecordHeader_SIZE. rewrite uadd_ok by len_lia. cbn [bind].
    destruct (hello_record_spec v c msg h ch f (concat (map snd rs)) Hok Hmsg Hmax Hty Hch Hcat
      (proj2 Hf)) as [(Hlast & c' & ->)|(Hmore & c' & -> & Hok' & Hb & Hm)].
    { by eexists _, _. }
    assert (rs <> []) as Hrs' by (by intros ->).
    destruct (IH c' (pre ++ record_bytes v x16 f) q' rs rd) as (buf' & rd' & Hloop & Hkeep & Hwb');
      try done.
    + lia.
    + by rewrite Hb, <- app_assoc.
    + len_lia.
    + rewrite length_app in Hfuel. unfold len in Hlr. lia.
    + exists buf', rd'. rewrite len_app, Hlr, <- !app_assoc in Hloop. split_and!; try done.
      by rewrite Hkeep, <- !app_assoc.
  - destruct (Record_parse_partial v CT_Handshake x16 f q missing Hf eq_refl Hpart Hnil) as [n ->].
    cbn [bind]. assert (len q + len missing = 5 + len f) as Hq by (rewrite <- Hlr, Hpart; len_lia).
    assert (0 < len missing) by (destruct missing; [done|len_lia]).
    destruct (Z.leb_spec max_buf (len (pre ++ q))); [len_lia|].
    destruct (read_await_spec rd (spare (len (pre ++ q))) Hwb (Hspare _))
      as (d & rd' & -> & Hd & _ & Hwb' & Hend).
    destruct (Z.eqb_spec (len d) 0) as [E|E].
    { apply len_0, Hend in E. rewrite E in Hstream. by destruct missing. }
    assert (0 < length d)%nat by (unfold len in E; lia).
    apply (f_equal length) in Hd as Hdl. rewrite length_app in Hdl.
    destruct (IH c pre (q ++ d) ((v, f) :: rs) rd') as (buf' & rd'' & Hloop & Hkeep & Hwb''); try done.
    + by constructor.
    + change (wire ((v, f) :: rs)) with (record_bytes v x16 f ++ wire rs).
      by rewrite <- !app_assoc, Hd.
    + rewrite length_app. lia.
    + exists buf', rd''. rewrite <- app_assoc. split_and!; try done.
      by rewrite Hkeep, <- Hd, <- !app_assoc.
Qed.

End Delivery.

(** ** No input makes the loop panic *)

Section Safety.

Lemma parse_msg_client_hello_safe f msg :
  len f <= 2 ^ 14 ->
  HandshakeMessage_try_parse_fragment (E := HandshakeCoalesceError) f = Ok (Some msg) ->
  HandshakeMessage_parse_client_hello msg <> Panic.
Proof.
  intros Hf. rewrite HandshakeMessage_try_parse_fragment_eq.
  destruct (hs_header f) as [h|] eqn:Hh; [|done]. pose proof (hs_header_len _ _ Hh) as [_ Hr].
  destruct (Z.leb_spec (HandshakeHeader_encoded_len h) (len f)) as [Hle|]; [|done]. intros [= <-].
  unfold HandshakeMessage_parse_client_hello, ClientHello_parse_fragment. cbn [hm_header hm_msg_data].
  unfold HandshakeHeader_encoded_len, HandshakeHeader_SIZE in *.
  destruct (negb _); [done|]. rewrite len_take, Z2Nat.id, Z.min_l, Z.ltb_irrefl by lia.
  rewrite slice_ok by len_lia. cbn [bind]. apply ClientHello_parse_msg_data_no_panic. len_lia.
Qed.

Lemma coalescer_parse_client_hello_safe c :
  hc_ok c -> HandshakeCoalescer_parse_client_hello c <> Panic.
Proof.
  intros [Hh Hinv]. unfold HandshakeCoalescer_parse_client_hello.
  destruct (hc_header c) as [h|]; [|done]. symmetry in Hh. pose proof (hs_header_len _ _ Hh) as [H4 Hr].
  destruct (negb _); [done|]. destruct (Z.eqb_spec (HandshakeHeader_encoded_len h) (len (hc_buf c)));
    [|done].
  unfold HandshakeHeader_encoded_len, HandshakeHeader_SIZE in *. rewrite slice_from_ok by lia. cbn [bind].
  pose proof (ClientHello_parse_msg_data_no_panic (drop (Z.to_nat 4) (hc_buf c)) ltac:(len_lia)).
  by destruct (ClientHello_parse_msg_data _).
Qed.

Lemma coalesce_fragment_no_panic c f : hc_ok c -> fst (coalesce_fragment c f) <> Panic.
Proof.
  intros Hok. pose proof (coalesce_fragment_spec c f Hok) as Hs. cbv zeta in Hs.
  destruct (hs_header _) as [h|]; [|by rewrite Hs].
  destruct (_ <? _); by rewrite Hs.
Qed.

Lemma hello_record_safe r c :
  hc_ok c -> len (rec_fragment r) <= 2 ^ 14 -> rec_consume_offset r = 0 ->
  fst (hello_record r c) <> Panic /\
  (forall c', hello_record r c = (Ok None, c') -> hc_ok c').
Proof.
  intros Hok Hf Ho. unfold hello_record, Record_consume_handshake.
  destruct (negb _); [done|]. rewrite Ho.
  assert (forall r' c', hc_ok c' ->
    let res := (let? found := map_err (fun _ => Hello_InvalidFragmented)
        (HandshakeCoalescer_parse_client_hello c') in
      match found with
      | Some ch => Ok (Some ch)
      | None => if negb (Record_consume_done r') then Err Hello_PartialFragmented else Ok None
      end, c') in
    fst res <> Panic /\ (forall c'', res = (Ok None, c'') -> hc_ok c'')) as Hdone.
  { intros r' c' Hok'. pose proof (coalescer_parse_client_hello_safe c' Hok') as Hs.
    destruct (HandshakeCoalescer_parse_client_hello c') as [[|]|e|]; cbn; try done.
    destruct (negb _); split; try done. by intros c'' [= <-]. }
  destruct (Record_consume_done r) eqn:Hd; [by apply Hdone|].
  rewrite slice_from_ok by len_lia. change (drop (Z.to_nat 0) (rec_fragment r)) with (rec_fragment r).
  assert (exists w, (if HandshakeCoalescer_is_empty c
    then HandshakeMessage_try_parse_fragment (E := HandshakeCoalesceError) (rec_fragment r)
    else Ok None) = Ok w /\ forall m, w = Some m -> HandshakeMessage_parse_client_hello m <> Panic /\
      HandshakeMessage_encoded_len m <= 2 ^ 14) as (w & -> & Hw).
  { destruct (HandshakeCoalescer_is_empty c); [|by exists None].
    rewrite HandshakeMessage_try_parse_fragment_eq. eexists. split; [reflexivity|]. intros m Hm.
    split.
    - apply (parse_msg_client_hello_safe (rec_fragment r) m Hf).
      by rewrite HandshakeMessage_try_parse_fragment_eq, Hm.
    - destruct (hs_header _); [|done]. destruct (_ <=? _); [|done]. injection Hm as <-.
      unfold HandshakeMessage_encoded_len. cbn [hm_msg_data]. len_lia. }
  unfold rec_advance. rewrite Ho. destruct w as [m|].
  - destruct (Hw m eq_refl) as [Hp Hl]. rewrite uadd_ok by (unfold u64_max; lia). cbn [bind].
    by destruct (HandshakeMessage_parse_client_hello m).
  - pose proof (coalesce_fragment_no_panic c (rec_fragment r) Hok) as Hnp.
    destruct (coalesce_fragment c (rec_fragment r)) as [[n|e|] c'] eqn:Hc; [|done..].
    destruct (coalesce_fragment_ok _ _ _ _ Hok Hc) as (Hok' & _ & Hn & _).
    cbn [bind]. rewrite uadd_ok by (unfold u64_max; lia). cbn [bind]. by apply Hdone.
Qed.

Context (spare : Z -> Z) (Hspare : forall n, 0 < spare n).

Lemma hello_loop_safe fuel max_buf c off buf rd :
  hc_ok c -> well_behaved rd -> 0 <= off <= len buf -> len buf + len (stream_of rd) <= isize_max ->
  (2 * length (stream_of rd) + Z.to_nat (len buf - off) < fuel)%nat ->
  exists r buf' rd', hello_loop spare fuel max_buf c off buf rd = (r, buf', rd') /\ r <> Panic /\
    buf' ++ stream_of rd' = buf ++ stream_of rd.
Proof.
  revert c off buf rd. induction fuel as [|fuel IH]; intros c off buf rd Hok Hwb Hoff Hlen Hfuel; [lia|].
  cbn [hello_loop]. rewrite slice_from_ok by lia. cbn [bind].
  pose proof (Record_parse_wp (drop (Z.to_nat off) buf) ltac:(len_lia)) as Hp.
  destruct (Record_parse _) as [r|e|]; [| |done]; cbn [bind].
  - destruct Hp as (He & Hf & Ho). unfold Record_encoded_len, RecordHeader_SIZE in *.
    rewrite uadd_ok by len_lia. cbn [bind]. destruct (hello_record_safe r c Hok Hf Ho) as [Hnp Hnext].
    destruct (hello_record r c) as [[[ch|]|e|] c']; try done; try (by eexists _, _, _).
    apply IH; [by apply Hnext|done|len_lia|done|len_lia].
  - destruct e; try (by eexists _, _, _). destruct (max_buf <=? len buf); [by eexists _, _, _|].
    destruct (read_await_spec rd (spare (len buf)) Hwb (Hspare _)) as (d & rd' & -> & Hd & _ & Hwb' & _).
    rewrite <- Hd in Hlen, Hfuel |- *. rewrite app_assoc.
    destruct (Z.eqb_spec (len d) 0) as [E|E].
    { apply len_0 in E as ->. rewrite app_nil_r. by eexists _, _, _. }
    apply IH; try done; [len_lia..|]. rewrite length_app in Hfuel. unfold len in *.
    rewrite length_app. lia.
Qed.

End Safety.

Lemma read_client_hello_ok (spare : Z -> Z) (max : Z) (buf : bytes) (rd : reader)
    (rs : list (RawVersion * bytes)) (rest : bytes) (h : HandshakeHeader) (ch : ClientHello) :
  (forall n, 0 < spare n) -> 0 <= max <= u32_max -> well_behaved rd ->
  records_ok rs -> hs_message (concat (map snd rs)) h ->
  hh_msg_type h = HandshakeType_ClientHello -> hh_msg_length h <= max ->
  ClientHello_parse_msg_data (drop 4 (concat (map snd rs))) = Ok ch ->
  buf ++ stream_of rd = wire rs ++ rest ->
  exists buf' rd', read_client_hello spare max buf rd = (Ok ch, buf', rd') /\
    buf' ++ stream_of rd' = wire rs ++ rest.
Proof.
  intros Hspare Hmax Hwb Hrs Hmsg Hty Hlen Hch Hs. pose proof Hmsg as [Hh Hl].
  pose proof (len_wire rs Hrs) as Hw. unfold read_client_hello.
  destruct (hello_loop_delivers spare Hspare (concat (map snd rs)) h ch Hmsg Hty Hch
    (S (2 * length (stream_of rd) + length buf)) (max_buf_size max) (HandshakeCoalescer_new max)
    [] buf rs rest rd) as (buf' & rd' & Hloop & Hkeep & _); try done.
  - intros ->. done.
  - rewrite <- Hl in Hw. unfold HandshakeHeader_encoded_len, HandshakeHeader_SIZE in Hw.
    unfold max_buf_size, saturating_add, saturating_mul, RecordHeader_SIZE, usize_max, u64_max, u32_max in *.
    change (Z.shiftl 1 14) with 16384. change (len (@nil byte)) with 0. lia.
  - unfold max_buf_size, saturating_add. lia.
  - lia.
  - exists buf', rd'. split; [exact Hloop|]. rewrite Hkeep. exact Hs.
Qed.

(** ** Properties *)

(** C18: a client hello is found however it travels.  It may be cut into
    handshake records at any place (down to one byte each, in any supported
    record version), the records may arrive in pieces of any size with waits
    between them, some of them may be buffered already, and other data may
    follow: the loop returns the parsed client hello.  It never mistakes the
    message for too large a one, and the bytes it has buffered together with
    those still to be read are exactly the original stream, so that it can be
    forwarded unchanged. *)
Theorem read_client_hello_delivers (spare : Z -> Z) (max : Z) (buf : bytes) (rd : reader)
    (rs : list (RawVersion * bytes)) (rest : bytes) (h : HandshakeHeader) (ch : ClientHello) :
  (forall n, 0 < spare n) -> 0 <= max <= u32_max -> well_behaved rd ->
  records_ok rs -> hs_message (concat (map snd rs)) h ->
  hh_msg_type h = HandshakeType_ClientHello -> hh_msg_length h <= max ->
  ClientHello_parse_msg_data (drop 4 (concat (map snd rs))) = Ok ch ->
  buf ++ stream_of rd = wire rs ++ rest ->
  exists buf' rd', read_client_hello spare max buf rd = (Ok ch, buf', rd') /\
    buf' ++ stream_of rd' = wire rs ++ rest.
Proof.
  apply read_client_hello_ok.
Qed.

Lemma read_client_hello_delivers_witness :
  exists buf' rd',
    read_client_hello (fun _ => 64) 65536 [x16; x03; x01; x00; x02]
      [Data [x01]; Pend; Data [x00];
       Data (record_bytes {| rv_major := x03; rv_minor := x03 |} x16
               ([x00; x2f] ++ hello_bytes hello_example)); Data [xff]] =
      (Ok (hello_parsed hello_example), buf', rd').
Proof.
  destruct (read_client_hello_delivers (fun _ => 64) 65536 [x16; x03; x01; x00; x02]
    [Data [x01]; Pend; Data [x00];
     Data (record_bytes {| rv_major := x03; rv_minor := x03 |} x16
             ([x00; x2f] ++ hello_bytes hello_example)); Data [xff]]
    [({| rv_major := x03; rv_minor := x01 |}, [x01; x00]);
     ({| rv_major := x03; rv_minor := x03 |}, [x00; x2f] ++ hello_bytes hello_example)]
    [xff] {| hh_msg_type := 1; hh_msg_length := 47 |} (hello_parsed hello_example))
    as (buf' & rd' & Hr & _).
  - done.
  - split; apply Z.leb_le; reflexivity.
  - by repeat constructor.
  - repeat constructor; apply Z.leb_le; reflexivity.
  - split; reflexivity.
  - reflexivity.
  - apply Z.leb_le. reflexivity.
  - reflexivity.
  - reflexivity.
  - exists buf', rd'. exact Hr.
Defined.

(** Whatever a client sends, reading its client hello comes to an end
    without a panic, and the buffered bytes followed by the unread ones are
    still the stream the client sent. *)
Theorem read_client_hello_terminates (spare : Z -> Z) (max : Z) (buf : bytes) (rd : reader) :
  (forall n, 0 < spare n) -> well_behaved rd -> len buf + len (stream_of rd) <= isize_max ->
  exists r buf' rd', read_client_hello spare max buf rd = (r, buf', rd') /\ r <> Panic /\
    buf' ++ stream_of rd' = buf ++ stream_of rd.
Proof.
  intros Hspare Hwb Hlen. unfold read_client_hello.
  apply hello_loop_safe; try done; rewrite ?Z.sub_0_r; unfold len; lia.
Qed.

Lemma read_client_hello_terminates_witness :
  exists r buf' rd',
    read_client_hello (fun _ => 2) 16 [x16] [Data [x03; x03; x00; x01]; Pend; Data [x02; x15]]
      = (r, buf', rd') /\ r <> Panic.
Proof.
  destruct (read_client_hello_terminates (fun _ => 2) 16 [x16]
    [Data [x03; x03; x00; x01]; Pend; Data [x02; x15]]) as (r & buf' & rd' & Hr & Hnp & _).
  - done.
  - by repeat constructor.
  - apply Z.leb_le. reflexivity.
  - by exists r, buf', rd'.
Defined.

(** The SNI proxy connects to the host the client names.  For a client hello
    whose first server name extension carries a host name that parses, in
    records cut and delivered in any way, [parse_request] returns that host and
    the configured port, and keeps every byte for forwarding. *)
Theorem sni_proxy_routes_to_named_host (spare : Z -> Z) (to_ascii : bytes -> option bytes)
    (max port : Z) (buf : bytes) (rd : reader) (rs : list (RawVersion * bytes)) (rest : bytes)
    (h : hello) (before after : list (Z * bytes)) (name extra : bytes) (d : DomainName) :
  (forall n, 0 < spare n) -> 0 <= max <= u32_max -> well_behaved rd -> records_ok rs ->
  let exts := before ++ (0, sni_bytes name extra) :: after in
  hello_ok h -> h_extensions h = Some (concat (map ext_bytes exts)) -> Forall ext_fits exts ->
  Forall (fun x => fst x <> 0) before -> 3 + len name + len extra <= u16_max ->
  DomainName_parse to_ascii name = Ok d ->
  concat (map snd rs) = x01 :: to_be 3 (len (hello_bytes h)) ++ hello_bytes h ->
  len (hello_bytes h) <= max -> len (hello_bytes h) < 2 ^ 24 ->
  buf ++ stream_of rd = wire rs ++ rest ->
  exists buf' rd', sni_parse_request spare to_ascii max port buf rd =
      (Ok {| su_host := d; su_port := port |}, buf', rd') /\
    buf' ++ stream_of rd' = wire rs ++ rest.
Proof.
  cbv zeta. set (exts := before ++ (0, sni_bytes name extra) :: after).
  intros Hspare Hmax Hwb Hrs Hok Hexts Hfits Hbefore Hname Hd Hcat Hle Hlt Hs.
  assert (len (concat (map ext_bytes exts)) <= u16_max) as Hel.
  { destruct Hok as (_ & _ & _ & _ & _ & _ & He). by rewrite Hexts in He. }
  assert (0 < len (sni_bytes name extra)) as Hsni.
  { unfold sni_bytes. rewrite len_app, len_to_be. len_lia. }
  assert (0 < len (concat (map ext_bytes exts))) as Hpos.
  { unfold exts. rewrite map_app, concat_app. cbn [map concat]. rewrite !len_app, len_ext_bytes.
    unfold Extension_HEADER_LEN. cbn [snd]. len_lia. }
  destruct (read_client_hello_ok spare max buf rd rs rest
    {| hh_msg_type := 1; hh_msg_length := len (hello_bytes h) |} (hello_parsed h))
    as (buf' & rd' & Hr & Hkeep); try done.
  - rewrite Hcat. split.
    + cbn [to_be app hs_header]. do 2 f_equal.
      change [to_u8 _; to_u8 _; to_u8 _] with (to_be 3 (len (hello_bytes h))).
      rewrite from_be_to_be. apply Z.mod_small. change (256 ^ Z.of_nat 3) with (2 ^ 24). len_lia.
    + unfold HandshakeHeader_encoded_len, HandshakeHeader_SIZE. cbn [hh_msg_length].
      rewrite len_cons, len_app, len_to_be. lia.
  - rewrite Hcat. change (drop 4 (x01 :: to_be 3 (len (hello_bytes h)) ++ hello_bytes h))
      with (hello_bytes h).
    apply ClientHello_parse_msg_data_bytes; [done|]. unfold isize_max. lia.
  - exists buf', rd'. split; [|exact Hkeep]. unfold sni_parse_request. rewrite Hr. cbn [map_err bind].
    unfold parse_sni, ClientHello_get_ext, hello_parsed. cbn [ch_extensions]. rewrite Hexts.
    unfold nonempty. destruct (Z.eqb_spec (len (concat (map ext_bytes exts))) 0); [lia|].
    unfold exts in *. change ServerName with (ExtensionType_from 0).
    rewrite (get_ext_bytes before 0 (sni_bytes name extra) after); try done.
    + destruct (Z.eqb_spec (len (sni_bytes name extra)) 0); [lia|].
      rewrite TlsServerName_from_bytes by done. by rewrite Hd.
    + unfold u16_max, isize_max in *. lia.
    + eapply Forall_impl; [exact Hbefore|]. intros x Hx E. by apply ExtensionType_from_ServerName in E.
Qed.

Definition hello_sni_example : hello := {|
  h_version := {| rv_major := x03; rv_minor := x03 |};
  h_random := replicate 32 x11; h_session_id := []; h_suites := [x13; x01]; h_methods := [x00];
  h_extensions := Some (concat (map ext_bytes [(16, [x00; x00]); (0, sni_bytes (bs "example.net") [])]))
|}.

Lemma sni_proxy_routes_to_named_host_witness :
  exists buf' rd',
    sni_parse_request (fun _ => 64) Some 65536 443 []
      [Data (record_bytes {| rv_major := x03; rv_minor := x01 |} x16 [x01; x00; x00]); Pend;
       Data (record_bytes {| rv_major := x03; rv_minor := x01 |} x16
               (x45 :: hello_bytes hello_sni_example))] =
      (Ok {| su_host := {| dn_fqdn := bs "example.net." |}; su_port := 443 |}, buf', rd').
Proof.
  destruct (sni_proxy_routes_to_named_host (fun _ => 64) Some 65536 443 []
    [Data (record_bytes {| rv_major := x03; rv_minor := x01 |} x16 [x01; x00; x00]); Pend;
     Data (record_bytes {| rv_major := x03; rv_minor := x01 |} x16 (x45 :: hello_bytes hello_sni_example))]
    [({| rv_major := x03; rv_minor := x01 |}, [x01; x00; x00]);
     ({| rv_major := x03; rv_minor := x01 |}, x45 :: hello_bytes hello_sni_example)]
    [] hello_sni_example [(16, [x00; x00])] [] (bs "example.net") [] {| dn_fqdn := bs "example.net." |})
    as (buf' & rd' & Hr & _);
    try reflexivity; try (split; apply Z.leb_le; reflexivity); try (apply Z.leb_le; reflexivity);
    try (apply Z.ltb_lt; reflexivity).
  - by repeat constructor.
  - repeat constructor; apply Z.leb_le; reflexivity.
  - repeat split; apply Z.leb_le || apply Z.ltb_lt; reflexivity.
  - repeat constructor; apply Z.leb_le; reflexivity.
  - by repeat constructor.
  - exists buf', rd'. exact Hr.
Defined.
