(* ===== verification/Ber.v ===== *)
(** * BER lengths and integers

    Models [lib/vey-codec/src/ber/length.rs] and [lib/vey-codec/src/ber/integer.rs]:
    the length octets of X.690 up to eight value bytes, their encoder, and
    two's complement integers of up to eight content bytes. *)

From Stdlib Require Import ZArith Lia Strings.Byte.
From stdpp Require Import base list.
From S2P Require Import Prelude.

(** ** Lengths *)

Inductive BerLengthParseError : Type :=
| BerLength_NeedMoreData (needed : Z)
| BerLength_TooLargeValue.

Record BerLength : Type := {
  bl_value : Z;
  bl_indefinite : bool;
  bl_encoded_len : Z
}.

(** [data[i]] for several indices, in order. *)
Fixpoint index_all {E} (data : bytes) (idxs : list Z) : res E bytes :=
  match idxs with
  | [] => Ok []
  | i :: idxs =>
      let? b := index data i in
      let? bs := index_all data idxs in
      Ok (b :: bs)
  end.

Definition BerLength_parse (data : bytes) : res BerLengthParseError BerLength :=
  if len data =? 0 then Err (BerLength_NeedMoreData 1)
  else
    let? b0 := index data 0 in
    if Z.land (u8 b0) 0x80 =? 0 then
      Ok {| bl_value := u8 b0; bl_indefinite := false; bl_encoded_len := 1 |}
    else
      match Z.land (u8 b0) 0x7F with
      | 0 => Ok {| bl_value := 0; bl_indefinite := true; bl_encoded_len := 1 |}
      | 1 =>
          if len data <? 2 then
            let? needed := usub 2 (len data) in Err (BerLength_NeedMoreData needed)
          else
            let? b1 := index data 1 in
            Ok {| bl_value := u8 b1; bl_indefinite := false; bl_encoded_len := 2 |}
      | 2 =>
          if len data <? 3 then
            let? needed := usub 3 (len data) in Err (BerLength_NeedMoreData needed)
          else
            let? d := index_all data [1; 2] in
            Ok {| bl_value := from_be d; bl_indefinite := false; bl_encoded_len := 3 |}
      | 3 =>
          if len data <? 4 then
            let? needed := usub 4 (len data) in Err (BerLength_NeedMoreData needed)
          else
            let? d := index_all data [1; 2; 3] in
            Ok {| bl_value := from_be ([x00] ++ d); bl_indefinite := false; bl_encoded_len := 4 |}
      | 4 =>
          if len data <? 5 then
            let? needed := usub 5 (len data) in Err (BerLength_NeedMoreData needed)
          else
            let? d := index_all data [1; 2; 3; 4] in
            Ok {| bl_value := from_be d; bl_indefinite := false; bl_encoded_len := 5 |}
      | 5 =>
          if len data <? 6 then
            let? needed := usub 6 (len data) in Err (BerLength_NeedMoreData needed)
          else
            let? d := index_all data [1; 2; 3; 4; 5] in
            Ok {| bl_value := from_be ([x00; x00; x00] ++ d); bl_indefinite := false;
                  bl_encoded_len := 6 |}
      | 6 =>
          if len data <? 7 then
            let? needed := usub 7 (len data) in Err (BerLength_NeedMoreData needed)
          else
            let? d := index_all data [1; 2; 3; 4; 5; 6] in
            Ok {| bl_value := from_be ([x00; x00] ++ d); bl_indefinite := false;
                  bl_encoded_len := 7 |}
      | 7 =>
          if len data <? 8 then
            let? needed := usub 8 (len data) in Err (BerLength_NeedMoreData needed)
          else
            let? d := index_all data [1; 2; 3; 4; 5; 6; 7] in
            Ok {| bl_value := from_be ([x00] ++ d); bl_indefinite := false; bl_encoded_len := 8 |}
      | 8 =>
          if len data <? 9 then
            let? needed := usub 9 (len data) in Err (BerLength_NeedMoreData needed)
          else
            let? d := index_all data [1; 2; 3; 4; 5; 6; 7; 8] in
            Ok {| bl_value := from_be d; bl_indefinite := false; bl_encoded_len := 9 |}
      | _ => Err BerLength_TooLargeValue
      end.

(** [u64::leading_zeros] *)
Definition leading_zeros (v : Z) : Z :=
  if v =? 0 then 64 else 63 - Z.log2 v.

Record BerLengthEncoder : Type := { ble_buf : bytes; ble_offset : Z }.

Definition BerLengthEncoder_default : BerLengthEncoder :=
  {| ble_buf := replicate 9 x00; ble_offset := 0 |}.

Definition BerLengthEncoder_encode {E} (self : BerLengthEncoder) (value : Z)
    : res E (BerLengthEncoder * bytes) :=
  if value <=? 0x7F then
    let? buf := set_index (ble_buf self) 8 (to_u8 (Z.land value 0x7F)) in
    let? out := slice_from buf 8 in
    Ok ({| ble_buf := buf; ble_offset := 8 |}, out)
  else
    let bytes := to_be 8 value in
    let? buf := copy_from_slice (ble_buf self) 1 9 bytes in
    let unused_bits := leading_zeros value in
    let offset := unused_bits / 8 in
    let? n := usub 8 offset in
    let? buf := set_index buf offset (to_u8 (Z.lor 0x80 n)) in
    let? out := slice_from buf offset in
    Ok ({| ble_buf := buf; ble_offset := offset |}, out).

(** ** Integers *)

Inductive BerIntegerParseError : Type :=
| BerInteger_NeedMoreData (needed : Z)
| BerInteger_InvalidType
| BerInteger_TooLargeLength
| BerInteger_IndefiniteLength
| BerInteger_InvalidValueBytes.

Definition BerIntegerParseError_from (e : BerLengthParseError) : BerIntegerParseError :=
  match e with
  | BerLength_NeedMoreData n => BerInteger_NeedMoreData n
  | BerLength_TooLargeValue => BerInteger_TooLargeLength
  end.

Record BerInteger : Type := { bi_value : Z; bi_encoded_len : Z }.

(** The content octets are copied to the end of an [[u8; 8]] that is filled
    with the sign. *)
Definition parse_twos_complement_i64 {E} (bytes : bytes) : res E Z :=
  let? start := usub 8 (len bytes) in
  let? b0 := index bytes 0 in
  let fill := if Z.land (u8 b0) 0x80 =? 0 then x00 else xff in
  let buf := replicate (Z.to_nat start) fill ++ replicate (Z.to_nat (8 - start)) x00 in
  let? buf := copy_from_slice buf start 8 bytes in
  Ok (cast_signed 64 (from_be buf)).

Definition BerInteger_parse_with_identifier (data : bytes) (identifier : Z)
    : res BerIntegerParseError BerInteger :=
  if len data =? 0 then Err (BerInteger_NeedMoreData 1)
  else
    let? b0 := index data 0 in
    if negb (u8 b0 =? identifier) then Err BerInteger_InvalidType
    else
      let? rest := slice_from data 1 in
      let? length := map_err BerIntegerParseError_from (BerLength_parse rest) in
      if bl_indefinite length then Err BerInteger_IndefiniteLength
      else
        let? offset := uadd 1 (bl_encoded_len length) in
        let? left := slice_from data offset in
        let content_len := bl_value length in
        if (content_len =? 0) || (8 <? content_len) then Err BerInteger_InvalidValueBytes
        else if len left <? content_len then
          let? needed := usub content_len (len left) in
          Err (BerInteger_NeedMoreData needed)
        else
          let? content := slice left 0 content_len in
          let? value := parse_twos_complement_i64 content in
          let? encoded_len := uadd offset content_len in
          Ok {| bi_value := value; bi_encoded_len := encoded_len |}.

Definition BerInteger_parse (data : bytes) : res BerIntegerParseError BerInteger :=
  BerInteger_parse_with_identifier data 0x02.

Definition BerInteger_parse_enumerated_value (data : bytes)
    : res BerIntegerParseError BerInteger :=
  BerInteger_parse_with_identifier data 0x0a.

(** ** Specification of the length octets *)

(** X.690 8.1.3: one byte below 128 is the length itself, [0x80] is the
    indefinite form, [0x80 + n] announces [n] big endian bytes.  At most eight
    of them are accepted. *)
Definition ber_length_spec (data : bytes) : res BerLengthParseError BerLength :=
  match data with
  | [] => Err (BerLength_NeedMoreData 1)
  | b0 :: l =>
      let n := u8 b0 - 128 in
      if n <? 0 then Ok {| bl_value := u8 b0; bl_indefinite := false; bl_encoded_len := 1 |}
      else if n =? 0 then Ok {| bl_value := 0; bl_indefinite := true; bl_encoded_len := 1 |}
      else if 8 <? n then Err BerLength_TooLargeValue
      else if len l <? n then Err (BerLength_NeedMoreData (n - len l))
      else Ok {| bl_value := from_be (take (Z.to_nat n) l); bl_indefinite := false;
                 bl_encoded_len := 1 + n |}
  end.

Lemma BerLength_parse_eq data : BerLength_parse data = ber_length_spec data.
Proof.
  destruct data as [|b0 l]; [reflexivity|]. unfold BerLength_parse, ber_length_spec.
  rewrite len_cons. destruct (Z.eqb_spec (1 + len l) 0); [len_lia|].
  change (index (b0 :: l) 0) with (Ok (E := BerLengthParseError) b0). cbn [bind].
  pose proof (u8_range b0) as Hb. rewrite high_bit, low_bits by lia.
  destruct (Z.ltb_spec (u8 b0) 128), (Z.ltb_spec (u8 b0 - 128) 0); try lia; [done|].
  assert (u8 b0 mod 128 = u8 b0 - 128) as -> by (symmetry; apply Z.mod_unique with 1; lia).
  generalize (u8 b0 - 128) (ltac:(lia) : 0 <= u8 b0 - 128 < 128). clear. intros n Hn.
  destruct (Z.ltb_spec 8 n) as [Hbig|Hsmall].
  { destruct (Z.eqb_spec n 0); [lia|]. destruct n as [|p|p]; try lia.
    by do 4 (destruct p as [p|p|]; try lia). }
  assert (n = 0 \/ n = 1 \/ n = 2 \/ n = 3 \/ n = 4 \/ n = 5 \/ n = 6 \/ n = 7 \/ n = 8)
    as Hcases by lia.
  repeat destruct Hcases as [-> | Hcases]; try subst n; [reflexivity|..]; cbn [Z.eqb];
    match goal with |- context [1 + len l <? ?m] => destruct (Z.ltb_spec (1 + len l) m) end;
    match goal with |- context [len l <? ?m] => destruct (Z.ltb_spec (len l) m) end; try lia.
  all: try (rewrite usub_ok by lia; cbn [bind]; do 2 f_equal; lia).
  all: repeat (destruct l as [|? l];
         [exfalso; autorewrite with len in *; lia|]; try reflexivity).
Qed.

(** The shortest length octets of a number. *)
Definition ber_len_size (v : Z) : nat := Z.to_nat (Z.log2 v / 8 + 1).

Definition ber_len_bytes (v : Z) : bytes :=
  if v <=? 0x7F then [to_u8 v]
  else to_u8 (128 + Z.of_nat (ber_len_size v)) :: to_be (ber_len_size v) v.

Lemma ber_len_size_range v : 0 < v <= u64_max -> (1 <= ber_len_size v <= 8)%nat.
Proof.
  intros Hv. unfold ber_len_size, u64_max in *.
  assert (0 <= Z.log2 v < 64) by (split; [apply Z.log2_nonneg|apply Z.log2_lt_pow2; lia]).
  assert (0 <= Z.log2 v / 8 <= 7); [|lia].
  split; [apply Z.div_pos; lia|]. apply Z.lt_succ_r, Z.div_lt_upper_bound; lia.
Qed.

Lemma ber_len_size_fits v : 0 < v -> v < 256 ^ Z.of_nat (ber_len_size v).
Proof.
  intros Hv. pose proof (Z.log2_spec v Hv) as [_ Hlt]. pose proof (Z.log2_nonneg v).
  eapply Z.lt_le_trans; [exact Hlt|].
  change 256 with (2 ^ 8). rewrite <- Z.pow_mul_r by lia. apply Z.pow_le_mono_r; [lia|].
  unfold ber_len_size. pose proof (Z.div_pos (Z.log2 v) 8 ltac:(lia) ltac:(lia)).
  rewrite Z2Nat.id by lia.
  pose proof (Z.mod_pos_bound (Z.log2 v) 8 ltac:(lia)).
  pose proof (Z.div_mod (Z.log2 v) 8 ltac:(lia)). lia.
Qed.

Lemma BerLengthEncoder_encode_spec {E} (self : BerLengthEncoder) (v : Z) :
  length (ble_buf self) = 9%nat -> 0 <= v <= usize_max ->
  exists self', length (ble_buf self') = 9%nat /\
    BerLengthEncoder_encode (E := E) self v = Ok (self', ber_len_bytes v).
Proof.
  intros Hbuf Hv. destruct self as [buf off]. cbn [ble_buf] in *.
  do 9 (destruct buf as [|? buf]; [done|]). destruct buf; [|done].
  unfold BerLengthEncoder_encode, ber_len_bytes. cbn [ble_buf].
  destruct (Z.leb_spec v 127).
  - eexists {| ble_buf := _; ble_offset := _ |}. rewrite low_bits, Z.mod_small by lia.
    split; [|reflexivity]. reflexivity.
  - pose proof (ber_len_size_range v ltac:(unfold usize_max in *; lia)) as Hn.
    unfold leading_zeros. destruct (Z.eqb_spec v 0); [lia|].
    assert ((63 - Z.log2 v) / 8 = 8 - Z.of_nat (ber_len_size v)) as ->.
    { unfold ber_len_size in *. pose proof (Z.mod_pos_bound (Z.log2 v) 8 ltac:(lia)).
      pose proof (Z.div_mod (Z.log2 v) 8 ltac:(lia)).
      symmetry. apply Z.div_unique with (7 - Z.log2 v mod 8); lia. }
    clear n. generalize dependent (ber_len_size v). intros n Hn.
    assert (n = 1 \/ n = 2 \/ n = 3 \/ n = 4 \/ n = 5 \/ n = 6 \/ n = 7 \/ n = 8)%nat
      as Hcases by lia.
    repeat destruct Hcases as [-> | Hcases]; try subst n;
      (eexists {| ble_buf := _; ble_offset := _ |}; split; [|reflexivity]); reflexivity.
Qed.

Lemma BerLength_parse_bytes (v : Z) (rest : bytes) :
  0 <= v <= u64_max ->
  BerLength_parse (ber_len_bytes v ++ rest) =
    Ok {| bl_value := v; bl_indefinite := false; bl_encoded_len := len (ber_len_bytes v) |}.
Proof.
  intros Hv. rewrite BerLength_parse_eq. unfold ber_len_bytes.
  destruct (Z.leb_spec v 127).
  - cbn. rewrite u8_to_u8_small by lia. by destruct (Z.ltb_spec (v - 128) 0); [|lia].
  - pose proof (ber_len_size_range v ltac:(lia)). pose proof (ber_len_size_fits v ltac:(lia)).
    set (n := ber_len_size v) in *. cbn [app ber_length_spec].
    rewrite u8_to_u8_small by lia. replace (128 + Z.of_nat n - 128) with (Z.of_nat n) by lia.
    destruct (Z.ltb_spec (Z.of_nat n) 0), (Z.eqb_spec (Z.of_nat n) 0),
      (Z.ltb_spec 8 (Z.of_nat n)); try lia.
    assert (len (to_be n v) = Z.of_nat n) as Hlen by (unfold len; by rewrite length_to_be).
    rewrite len_app, len_cons, Hlen.
    destruct (Z.ltb_spec (Z.of_nat n + len rest) (Z.of_nat n)); [len_lia|].
    rewrite Nat2Z.id, take_app_le, take_ge by (rewrite length_to_be; lia).
    rewrite from_be_to_be, Z.mod_small by lia. done.
Qed.

(** More input does not change a verdict. *)
Lemma BerLength_parse_prefix d rest :
  match BerLength_parse d with
  | Err (BerLength_NeedMoreData _) => True
  | r => BerLength_parse (d ++ rest) = r
  end.
Proof.
  rewrite !BerLength_parse_eq. destruct d as [|b0 l]; [done|]. cbn [ber_length_spec app].
  destruct (_ <? 0); [done|]. destruct (_ =? 0); [done|]. destruct (8 <? _); [done|].
  destruct (Z.ltb_spec (len l) (u8 b0 - 128)); [done|].
  destruct (Z.ltb_spec (len (l ++ rest)) (u8 b0 - 128)); [len_lia|].
  rewrite take_app_le; [done|]. unfold len in *. lia.
Qed.

(** A parsed length lies inside the input. *)
Lemma BerLength_parse_wp data :
  wp (BerLength_parse data)
    (fun l => 1 <= bl_encoded_len l <= 9 /\ bl_encoded_len l <= len data /\
              0 <= bl_value l <= u64_max)
    (fun e => match e with
              | BerLength_NeedMoreData n => 1 <= n <= 9 - len data
              | BerLength_TooLargeValue => True
              end).
Proof.
  rewrite BerLength_parse_eq. destruct data as [|b0 l]; cbn [ber_length_spec wp]; [len_lia|].
  pose proof (u8_range b0).
  destruct (Z.ltb_spec (u8 b0 - 128) 0); [cbn; len_lia|].
  destruct (Z.eqb_spec (u8 b0 - 128) 0); [cbn; len_lia|].
  destruct (Z.ltb_spec 8 (u8 b0 - 128)); [done|].
  destruct (Z.ltb_spec (len l) (u8 b0 - 128)); cbn; [len_lia|].
  pose proof (from_be_range (take (Z.to_nat (u8 b0 - 128)) l)) as Hr.
  assert (len (take (Z.to_nat (u8 b0 - 128)) l) <= 8) by len_lia.
  assert (256 ^ len (take (Z.to_nat (u8 b0 - 128)) l) <= 256 ^ 8) by (apply Z.pow_le_mono_r; lia).
  change (256 ^ 8) with (u64_max + 1) in *. len_lia.
Qed.

(** ** Two's complement *)

(** The number that big endian two's complement octets denote. *)
Definition twos_complement (l : bytes) : Z :=
  match l with
  | [] => 0
  | b :: _ => from_be l - (if u8 b <? 128 then 0 else 256 ^ len l)
  end.

Lemma parse_twos_complement_i64_eq {E} (l : bytes) :
  1 <= len l <= 8 -> parse_twos_complement_i64 (E := E) l = Ok (twos_complement l).
Proof.
  intros Hl. destruct l as [|b0 l]; [len_lia|].
  unfold parse_twos_complement_i64. rewrite usub_ok by lia. cbn [bind].
  change (index (b0 :: l) 0) with (Ok (E := E) b0). cbn [bind].
  rewrite high_bit by (apply u8_range). rewrite len_cons in *.
  rewrite copy_from_slice_ok by len_lia. cbn [bind].
  rewrite take_app_le, take_ge, (drop_ge _ (Z.to_nat 8)), app_nil_r
    by (rewrite ?length_app, ?length_replicate; len_lia).
  rewrite from_be_app, len_cons, Z.pow_add_r by len_lia.
  unfold twos_complement. rewrite from_be_cons, len_cons, Z.pow_add_r by len_lia.
  change (256 ^ 1) with 256.
  pose proof (from_be_range l) as Hr. pose proof (u8_range b0) as Hb.
  assert (256 ^ len l <= 256 ^ 7) as HP by (apply Z.pow_le_mono_r; len_lia).
  change (256 ^ 7) with (2 ^ 56) in HP.
  assert (256 ^ (8 - (1 + len l)) * (256 * 256 ^ len l) = 2 ^ 64) as H64.
  { change 256 with (256 ^ 1) at 2. rewrite <- !Z.pow_add_r by len_lia.
    replace (8 - (1 + len l) + (1 + len l)) with 8 by lia. reflexivity. }
  f_equal. unfold cast_signed. change (2 ^ (64 - 1)) with (2 ^ 63).
  destruct (Z.ltb_spec (u8 b0) 128) as [Hs|Hs].
  - rewrite from_be_zeros, Z.mul_0_l, Z.add_0_l.
    match goal with |- context [?a <? ?b] => destruct (Z.ltb_spec a b) end; nia.
  - rewrite from_be_ones, Z2Nat.id, Z.mul_sub_distr_r, H64 by len_lia.
    match goal with |- context [?a <? ?b] => destruct (Z.ltb_spec a b) end; nia.
Qed.

(** What the integer parser returns, in terms of the length octets. *)
Definition ber_integer_spec (data : bytes) (identifier : Z)
    : res BerIntegerParseError BerInteger :=
  match data with
  | [] => Err (BerInteger_NeedMoreData 1)
  | b0 :: l =>
      if negb (u8 b0 =? identifier) then Err BerInteger_InvalidType
      else
        match ber_length_spec l with
        | Err e => Err (BerIntegerParseError_from e)
        | Panic => Panic
        | Ok n =>
            let content := drop (Z.to_nat (bl_encoded_len n)) l in
            if bl_indefinite n then Err BerInteger_IndefiniteLength
            else if (bl_value n =? 0) || (8 <? bl_value n) then Err BerInteger_InvalidValueBytes
            else if len content <? bl_value n
            then Err (BerInteger_NeedMoreData (bl_value n - len content))
            else Ok {| bi_value := twos_complement (take (Z.to_nat (bl_value n)) content);
                       bi_encoded_len := 1 + bl_encoded_len n + bl_value n |}
        end
  end.

Lemma BerInteger_parse_eq data identifier :
  len data <= isize_max ->
  BerInteger_parse_with_identifier data identifier = ber_integer_spec data identifier.
Proof.
  intros Hdata. destruct data as [|b0 l]; [reflexivity|].
  unfold BerInteger_parse_with_identifier, ber_integer_spec.
  rewrite len_cons in *. destruct (Z.eqb_spec (1 + len l) 0); [len_lia|].
  change (index (b0 :: l) 0) with (Ok (E := BerIntegerParseError) b0). cbn [bind].
  destruct (u8 b0 =? identifier); cbn [negb]; [|done].
  rewrite (slice_from_app [b0] l : slice_from (b0 :: l) 1 = Ok l). cbn [bind].
  pose proof (BerLength_parse_wp l) as Hwp. rewrite BerLength_parse_eq in *.
  destruct (ber_length_spec l) as [n'|e|]; cbn [wp map_err bind] in *; [|done..].
  destruct (bl_indefinite n'); [done|].
  rewrite uadd_ok by len_lia. cbn [bind].
  rewrite slice_from_ok by len_lia. cbn [bind].
  replace (drop (Z.to_nat (1 + bl_encoded_len n')) (b0 :: l))
    with (drop (Z.to_nat (bl_encoded_len n')) l) by (by rewrite Z2Nat.inj_add by lia).
  set (content := drop (Z.to_nat (bl_encoded_len n')) l).
  destruct ((bl_value n' =? 0) || (8 <? bl_value n')) eqn:Hrange; [done|]. bool_to_prop.
  destruct (Z.ltb_spec (len content) (bl_value n')).
  { rewrite usub_ok by lia. done. }
  rewrite slice_ok by len_lia. cbn [bind]. rewrite Z.sub_0_r. change (drop (Z.to_nat 0) content) with content.
  rewrite parse_twos_complement_i64_eq by len_lia. cbn [bind].
  rewrite uadd_ok by len_lia. done.
Qed.

Lemma BerInteger_parse_wp data identifier :
  len data <= isize_max ->
  wp (BerInteger_parse_with_identifier data identifier)
    (fun i => 3 <= bi_encoded_len i <= len data /\ - 2 ^ 63 <= bi_value i < 2 ^ 63)
    (fun _ => True).
Proof.
  intros Hdata. rewrite BerInteger_parse_eq by done. destruct data as [|b0 l]; [done|].
  cbn [ber_integer_spec]. destruct (negb _); [done|].
  pose proof (BerLength_parse_wp l) as Hwp. rewrite BerLength_parse_eq in *.
  destruct (ber_length_spec l) as [n|e|]; cbn [wp] in *; [|done..].
  destruct (bl_indefinite n); [done|].
  destruct ((bl_value n =? 0) || (8 <? bl_value n)) eqn:Hrange; [done|]. bool_to_prop.
  destruct (Z.ltb_spec (len (drop (Z.to_nat (bl_encoded_len n)) l)) (bl_value n)); [done|].
  cbn [wp bi_encoded_len bi_value]. split; [len_lia|].
  set (c := take (Z.to_nat (bl_value n)) _).
  assert (1 <= len c <= 8) as Hc by (unfold c; len_lia). clearbody c.
  destruct c as [|b c]; [len_lia|]. unfold twos_complement. rewrite len_cons in *.
  pose proof (from_be_range c) as Hr. rewrite from_be_cons, Z.pow_add_r by len_lia.
  assert (256 ^ len c <= 256 ^ 7) as HP by (apply Z.pow_le_mono_r; len_lia).
  change (256 ^ 7) with (2 ^ 56) in HP. change (256 ^ 1) with 256.
  pose proof (u8_range b). destruct (Z.ltb_spec (u8 b) 128); nia.
Qed.

(** No length octets that denote [v] are shorter than [ber_len_bytes v]. *)
Lemma ber_len_bytes_shortest data r :
  BerLength_parse data = Ok r -> bl_indefinite r = false ->
  len (ber_len_bytes (bl_value r)) <= bl_encoded_len r.
Proof.
  rewrite BerLength_parse_eq. unfold ber_len_bytes.
  destruct data as [|b0 l]; cbn [ber_length_spec]; [done|]. pose proof (u8_range b0).
  destruct (Z.ltb_spec (u8 b0 - 128) 0).
  { intros [= <-] _. cbn [bl_value bl_encoded_len].
    by destruct (Z.leb_spec (u8 b0) 127); [|lia]. }
  destruct (Z.eqb_spec (u8 b0 - 128) 0); [by intros [= <-] [=]|].
  destruct (Z.ltb_spec 8 (u8 b0 - 128)); [done|].
  destruct (Z.ltb_spec (len l) (u8 b0 - 128)); [done|]. intros [= <-] _.
  cbn [bl_value bl_encoded_len].
  pose proof (from_be_range (take (Z.to_nat (u8 b0 - 128)) l)) as Hr.
  replace (len (take _ l)) with (u8 b0 - 128) in Hr by len_lia.
  set (v := from_be _) in *. destruct (Z.leb_spec v 127); [change (len _) with 1; lia|].
  rewrite len_cons. unfold len. rewrite length_to_be. unfold ber_len_size.
  assert (Z.log2 v < 8 * (u8 b0 - 128)) as Hlog.
  { apply Z.log2_lt_pow2; [lia|]. rewrite Z.pow_mul_r by lia. apply Hr. }
  pose proof (Z.log2_nonneg v). pose proof (Z.div_pos (Z.log2 v) 8 ltac:(lia) ltac:(lia)).
  assert (Z.log2 v / 8 < u8 b0 - 128) by (apply Z.div_lt_upper_bound; lia). lia.
Qed.

(** ** Properties *)

Lemma BerInteger_parse_bytes (id : byte) (content rest : bytes) :
  1 <= len content <= 8 -> 2 + len content + len rest <= isize_max ->
  BerInteger_parse_with_identifier (id :: ber_len_bytes (len content) ++ content ++ rest) (u8 id) =
    Ok {| bi_value := twos_complement content; bi_encoded_len := 2 + len content |}.
Proof.
  intros Hc Hrest. assert (ber_len_bytes (len content) = [to_u8 (len content)]) as Hlb.
  { unfold ber_len_bytes. by destruct (Z.leb_spec (len content) 127); [|lia]. }
  rewrite BerInteger_parse_eq by (rewrite Hlb; len_lia).
  cbn [ber_integer_spec]. rewrite Z.eqb_refl. cbn [negb].
  rewrite <- BerLength_parse_eq, BerLength_parse_bytes by len_lia.
  cbn [bl_encoded_len bl_value bl_indefinite]. rewrite drop_len_app, Hlb, len_app.
  change (len [_]) with 1.
  destruct (Z.eqb_spec (len content) 0), (Z.ltb_spec 8 (len content)); try lia. cbn [orb].
  destruct (Z.ltb_spec (len content + len rest) (len content)); [len_lia|].
  rewrite take_len_app. reflexivity.
Qed.

(** An integer of a single byte. *)
Lemma BerInteger_parse_byte (id b : byte) (rest : bytes) :
  u8 b < 128 -> 3 + len rest <= isize_max ->
  BerInteger_parse_with_identifier (id :: x01 :: b :: rest) (u8 id) =
    Ok {| bi_value := u8 b; bi_encoded_len := 3 |}.
Proof.
  intros Hb Hrest. pose proof (BerInteger_parse_bytes id [b] rest ltac:(len_lia) ltac:(len_lia)) as H.
  cbn -[BerInteger_parse_with_identifier u8] in H.
  destruct (Z.ltb_spec (u8 b) 128); [|lia]. rewrite Z.sub_0_r in H. exact H.
Qed.

(** [BerLength::parse], written as nine unrolled cases, is the length octet
    rule of X.690 on every input: short form, indefinite form, [n] big endian
    bytes for [n] up to eight, the exact number of missing bytes, and an error
    for longer forms.  It never reads outside the input. *)
Theorem BerLength_parse_x690 (data : bytes) : BerLength_parse data = ber_length_spec data.
Proof. apply BerLength_parse_eq. Qed.

(** For every [usize] the encoder produces length octets that parse back to
    that number and to their own size, whatever follows them and whatever the
    encoder's buffer held before; no length octets of the same number are
    shorter. *)
Theorem BerLength_roundtrip (self : BerLengthEncoder) (v : Z) (rest : bytes) :
  length (ble_buf self) = 9%nat -> 0 <= v <= usize_max ->
  exists self' out,
    BerLengthEncoder_encode (E := BerLengthParseError) self v = Ok (self', out) /\
    length (ble_buf self') = 9%nat /\
    BerLength_parse (out ++ rest) =
      Ok {| bl_value := v; bl_indefinite := false; bl_encoded_len := len out |} /\
    (forall data r, BerLength_parse data = Ok r -> bl_indefinite r = false ->
       bl_value r = v -> len out <= bl_encoded_len r).
Proof.
  intros Hbuf Hv.
  destruct (BerLengthEncoder_encode_spec (E := BerLengthParseError) self v Hbuf Hv)
    as (self' & Hbuf' & Henc).
  exists self', (ber_len_bytes v). repeat split; [done..| |].
  - by apply BerLength_parse_bytes.
  - intros data r Hr Hi <-. by eapply ber_len_bytes_shortest.
Qed.

Lemma BerLength_roundtrip_witness :
  exists self' out,
    BerLengthEncoder_encode (E := BerLengthParseError) BerLengthEncoder_default 300
      = Ok (self', out) /\
    length (ble_buf self') = 9%nat /\
    BerLength_parse (out ++ [x01]) =
      Ok {| bl_value := 300; bl_indefinite := false; bl_encoded_len := len out |} /\
    (forall data r, BerLength_parse data = Ok r -> bl_indefinite r = false ->
       bl_value r = 300 -> len out <= bl_encoded_len r).
Proof.
  apply (BerLength_roundtrip BerLengthEncoder_default 300 [x01]); [reflexivity|].
  unfold usize_max, u64_max. lia.
Defined.

Example encode_300 :
  BerLengthEncoder_encode (E := BerLengthParseError) BerLengthEncoder_default 300 =
    Ok ({| ble_buf := [x00; x00; x00; x00; x00; x00; x82; x01; x2c]; ble_offset := 6 |},
        [x82; x01; x2c]).
Proof. reflexivity. Qed.

(** A BER integer or enumerated value is the two's complement number of its
    content octets: for every identifier, every content of one to eight bytes
    and every following bytes, the parser returns that number and the size of
    the element. *)
Theorem BerInteger_parse_twos_complement (id : byte) (content rest : bytes) :
  1 <= len content <= 8 -> 2 + len content + len rest <= isize_max ->
  BerInteger_parse_with_identifier (id :: ber_len_bytes (len content) ++ content ++ rest) (u8 id) =
    Ok {| bi_value := twos_complement content; bi_encoded_len := 2 + len content |}.
Proof. apply BerInteger_parse_bytes. Qed.

Lemma BerInteger_parse_twos_complement_witness :
  BerInteger_parse_with_identifier (x02 :: ber_len_bytes 2 ++ [xff; x7e] ++ [x01]) 2 =
    Ok {| bi_value := -130; bi_encoded_len := 4 |}.
Proof.
  apply (BerInteger_parse_twos_complement x02 [xff; x7e] [x01]).
  - split; apply Z.leb_le; reflexivity.
  - apply Z.leb_le. reflexivity.
Defined.
