(* ===== verification/Ldap.v ===== *)
(** * LDAP messages

    Models [lib/vey-codec/src/ldap/]: the length, sequence, message id, message
    and result parsers.  The theorems: no input makes them panic, what they
    return lies inside their input, and a verdict on a prefix of a stream is
    the verdict on the stream. *)

From Stdlib Require Import ZArith Lia Strings.Byte.
From stdpp Require Import base list.
From S2P Require Import Prelude Ber.

(** ** Lengths *)

Inductive LdapLengthParseError : Type :=
| LdapLength_NeedMoreData (needed : Z)
| LdapLength_TooLargeValue
| LdapLength_IndefiniteValue.

Definition LdapLengthParseError_from (e : BerLengthParseError) : LdapLengthParseError :=
  match e with
  | BerLength_NeedMoreData needed => LdapLength_NeedMoreData needed
  | BerLength_TooLargeValue => LdapLength_TooLargeValue
  end.

Record LdapLength : Type := { ll_value : Z; ll_encoded_len : Z }.

Definition LdapLength_parse (data : bytes) : res LdapLengthParseError LdapLength :=
  let? ber_len := map_err LdapLengthParseError_from (BerLength_parse data) in
  if bl_indefinite ber_len then Err LdapLength_IndefiniteValue
  else Ok {| ll_value := bl_value ber_len; ll_encoded_len := bl_encoded_len ber_len |}.

(** ** Sequences and octet strings *)

Inductive LdapSequenceParseError : Type :=
| LdapSequence_NeedMoreData (needed : Z)
| LdapSequence_InvalidType
| LdapSequence_TooLargeLength
| LdapSequence_IndefiniteLength.

Definition LdapSequenceParseError_from (e : BerLengthParseError) : LdapSequenceParseError :=
  match e with
  | BerLength_NeedMoreData n => LdapSequence_NeedMoreData n
  | BerLength_TooLargeValue => LdapSequence_TooLargeLength
  end.

Record LdapSequence : Type := { ls_data : bytes; ls_encoded_len : Z }.

Definition LdapSequence_parse_with_identifier (data : bytes) (identifier : Z)
    : res LdapSequenceParseError LdapSequence :=
  if len data =? 0 then Err (LdapSequence_NeedMoreData 1)
  else
    let? b0 := index data 0 in
    if negb (u8 b0 =? identifier) then Err LdapSequence_InvalidType
    else
      let? rest := slice_from data 1 in
      let? ber_length := map_err LdapSequenceParseError_from (BerLength_parse rest) in
      if bl_indefinite ber_length then Err LdapSequence_IndefiniteLength
      else
        let? offset := uadd 1 (bl_encoded_len ber_length) in
        if bl_value ber_length =? 0 then Ok {| ls_data := []; ls_encoded_len := offset |}
        else if saturating_sub (len data) offset <? bl_value ber_length then
          Err LdapSequence_TooLargeLength
        else
          let? encoded_len := uadd offset (bl_value ber_length) in
          let? content := slice data offset encoded_len in
          Ok {| ls_data := content; ls_encoded_len := encoded_len |}.

Definition LdapSequence_parse_octet_string (data : bytes) :=
  LdapSequence_parse_with_identifier data 0x04.

Definition LdapSequence_parse_referrals_sequence (data : bytes) :=
  LdapSequence_parse_with_identifier data 0xa3.

Definition LdapSequence_parse_bind_response (data : bytes) :=
  LdapSequence_parse_with_identifier data 0x61.

Definition LdapSequence_parse_extended_response (data : bytes) :=
  LdapSequence_parse_with_identifier data 0x78.

Definition LdapSequence_parse_extended_response_oid (data : bytes) :=
  LdapSequence_parse_with_identifier data 0x8a.

(** ** Message ids *)

Inductive LdapMessageIdParseError : Type :=
| LdapMessageId_InvalidIntegerValue (e : BerIntegerParseError)
| LdapMessageId_NegativeValue
| LdapMessageId_TooLargeValue.

Record LdapMessageId : Type := { li_value : Z; li_encoded_len : Z }.

Definition LdapMessageId_parse (data : bytes) : res LdapMessageIdParseError LdapMessageId :=
  let? ber_integer := map_err LdapMessageId_InvalidIntegerValue (BerInteger_parse data) in
  if bi_value ber_integer <? 0 then Err LdapMessageId_NegativeValue
  else if u32_max <? bi_value ber_integer then Err LdapMessageId_TooLargeValue
  else Ok {| li_value := bi_value ber_integer; li_encoded_len := bi_encoded_len ber_integer |}.

(** ** Messages *)

Inductive LdapMessageParseError : Type :=
| LdapMessage_NeedMoreData (needed : Z)
| LdapMessage_InvalidBerType
| LdapMessage_InvalidMessageLength
| LdapMessage_InvalidMessageId (e : LdapMessageIdParseError).

Definition LdapMessageParseError_from (e : LdapLengthParseError) : LdapMessageParseError :=
  match e with
  | LdapLength_NeedMoreData n => LdapMessage_NeedMoreData n
  | LdapLength_TooLargeValue | LdapLength_IndefiniteValue => LdapMessage_InvalidMessageLength
  end.

Record LdapMessage : Type := { lm_id : Z; lm_payload : bytes; lm_encoded_size : Z }.

Definition LdapMessage_parse (data : bytes) (max_message_length : Z)
    : res LdapMessageParseError LdapMessage :=
  if len data =? 0 then Err (LdapMessage_NeedMoreData 1)
  else
    let? b0 := index data 0 in
    if negb (u8 b0 =? 0x30) then Err LdapMessage_InvalidBerType
    else
      let offset := 1 in
      let? rest := slice_from data offset in
      let? length := map_err LdapMessageParseError_from (LdapLength_parse rest) in
      let? offset := uadd offset (ll_encoded_len length) in
      let message_length := ll_value length in
      if max_message_length <? message_length then Err LdapMessage_InvalidMessageLength
      else
        let? left := slice_from data offset in
        if len left <? message_length then
          let? needed := usub message_length (len left) in
          Err (LdapMessage_NeedMoreData needed)
        else
          let? body := slice left 0 message_length in
          let? id := map_err LdapMessage_InvalidMessageId (LdapMessageId_parse body) in
          let message_id := li_value id in
          let? payload := slice left (li_encoded_len id) message_length in
          let? encoded_size := uadd offset message_length in
          Ok {| lm_id := message_id; lm_payload := payload; lm_encoded_size := encoded_size |}.

(** ** Results *)

Inductive LdapResultParseError : Type :=
| LdapResult_InvalidResultCode (e : BerIntegerParseError)
| LdapResult_OutOfRangeResultCode
| LdapResult_InvalidMatchedDn (e : LdapSequenceParseError)
| LdapResult_InvalidDiagnosticMessage (e : LdapSequenceParseError)
| LdapResult_InvalidReferralsSequence (e : LdapSequenceParseError).

Record LdapResult : Type := {
  lr_result_code : Z;
  lr_matched_dn : bytes;
  lr_diagnostic_message : bytes;
  lr_referral_sequence : bytes;
  lr_encoded_len : Z
}.

Definition LdapResult_parse (data : bytes) : res LdapResultParseError LdapResult :=
  let? code := map_err LdapResult_InvalidResultCode (BerInteger_parse_enumerated_value data) in
  if (bi_value code <? 0) || (u16_max <? bi_value code) then Err LdapResult_OutOfRangeResultCode
  else
    let result_code := bi_value code in
    let offset := bi_encoded_len code in
    let? left := slice_from data offset in
    let? matched_dn :=
      map_err LdapResult_InvalidMatchedDn (LdapSequence_parse_octet_string left) in
    let? offset := uadd offset (ls_encoded_len matched_dn) in
    let? left := slice_from data offset in
    let? diagnostic_message :=
      map_err LdapResult_InvalidDiagnosticMessage (LdapSequence_parse_octet_string left) in
    let? offset := uadd offset (ls_encoded_len diagnostic_message) in
    if result_code =? 10 then
      let? left := slice_from data offset in
      let? referral_sequence :=
        map_err LdapResult_InvalidReferralsSequence (LdapSequence_parse_referrals_sequence left) in
      let? encoded_len := uadd offset (ls_encoded_len referral_sequence) in
      Ok {| lr_result_code := result_code; lr_matched_dn := ls_data matched_dn;
            lr_diagnostic_message := ls_data diagnostic_message;
            lr_referral_sequence := ls_data referral_sequence; lr_encoded_len := encoded_len |}
    else
      Ok {| lr_result_code := result_code; lr_matched_dn := ls_data matched_dn;
            lr_diagnostic_message := ls_data diagnostic_message;
            lr_referral_sequence := []; lr_encoded_len := offset |}.

Definition LdapResult_is_success (r : LdapResult) : bool := lr_result_code r =? 0.

(** ** No panics, and results lie inside their input *)

Section Safety.

Lemma LdapLength_parse_wp data :
  wp (LdapLength_parse data)
    (fun l => 1 <= ll_encoded_len l <= 9 /\ ll_encoded_len l <= len data /\ 0 <= ll_value l <= u64_max)
    (fun e => match e with LdapLength_NeedMoreData n => 1 <= n <= 9 - len data | _ => True end).
Proof.
  unfold LdapLength_parse. wp_step. wp_step.
  eapply wp_mono; [apply BerLength_parse_wp| |].
  - intros l Hl. cbn beta. destruct (bl_indefinite l); [done|]. exact Hl.
  - by intros [].
Qed.

Lemma LdapSequence_parse_wp data identifier :
  len data <= isize_max ->
  wp (LdapSequence_parse_with_identifier data identifier)
    (fun s => 2 <= ls_encoded_len s <= len data /\ len (ls_data s) <= len data)
    (fun _ => True).
Proof.
  intros Hlen. unfold LdapSequence_parse_with_identifier. wp_go; try done.
  eapply wp_mono; [apply BerLength_parse_wp| |done]. intros l (Hl1 & Hl2 & Hl3). cbn beta.
  unfold saturating_sub. wp_go; try done; cbn; len_lia.
Qed.

Lemma LdapMessageId_parse_wp data :
  len data <= isize_max ->
  wp (LdapMessageId_parse data)
    (fun i => 3 <= li_encoded_len i <= len data /\ 0 <= li_value i <= u32_max) (fun _ => True).
Proof.
  intros Hlen. unfold LdapMessageId_parse, BerInteger_parse. wp_step. wp_step.
  eapply wp_mono; [by apply BerInteger_parse_wp| |done]. intros i (Hi1 & Hi2). cbn beta.
  wp_go; try done.
Qed.

Lemma LdapMessage_parse_wp data max :
  0 <= max <= isize_max - 10 ->
  wp (LdapMessage_parse data max)
    (fun m => lm_encoded_size m <= len data /\ 5 <= lm_encoded_size m <= 10 + max /\
              0 <= lm_id m <= u32_max)
    (fun e => match e with LdapMessage_NeedMoreData n => 1 <= n <= 10 + max - len data | _ => True end).
Proof.
  intros Hmax. unfold LdapMessage_parse. wp_go; try done; try len_lia.
  eapply wp_mono; [apply LdapLength_parse_wp| |].
  2: { intros [] He; cbn; try done. len_lia. }
  intros l (Hl1 & Hl2 & Hl3). cbn beta. wp_go; try done; try len_lia.
  eapply wp_mono; [apply LdapMessageId_parse_wp; len_lia| |done].
  intros i (Hi1 & Hi2). cbn beta. wp_go. cbn. len_lia.
Qed.

Lemma LdapResult_parse_wp data :
  len data <= isize_max ->
  wp (LdapResult_parse data)
    (fun r => 7 <= lr_encoded_len r <= len data /\ 0 <= lr_result_code r <= u16_max) (fun _ => True).
Proof.
  intros Hlen. unfold LdapResult_parse, BerInteger_parse_enumerated_value. wp_step. wp_step.
  eapply wp_mono; [by apply BerInteger_parse_wp| |done]. intros c (Hc & _). cbn beta.
  wp_go; try done. unfold LdapSequence_parse_octet_string, LdapSequence_parse_referrals_sequence.
  eapply wp_mono; [apply LdapSequence_parse_wp; len_lia| |done]. intros dn (Hdn & _). cbn beta.
  wp_go. eapply wp_mono; [apply LdapSequence_parse_wp; len_lia| |done].
  intros msg (Hmsg & _). cbn beta. wp_go.
  - eapply wp_mono; [apply LdapSequence_parse_wp; len_lia| |done].
    intros rs (Hrs & _). cbn beta. wp_go. cbn. len_lia.
  - cbn. len_lia.
Qed.

End Safety.

(** ** The layout of a message

    RFC 4511 4.1.1: a sequence of a message id and the protocol operation. *)

Definition ldap_message_spec (data : bytes) (max : Z) : res LdapMessageParseError LdapMessage :=
  match data with
  | [] => Err (LdapMessage_NeedMoreData 1)
  | tag :: data' =>
      if negb (u8 tag =? 0x30) then Err LdapMessage_InvalidBerType
      else
        let? l := map_err LdapMessageParseError_from (LdapLength_parse data') in
        let left := drop (Z.to_nat (ll_encoded_len l)) data' in
        if max <? ll_value l then Err LdapMessage_InvalidMessageLength
        else if len left <? ll_value l then Err (LdapMessage_NeedMoreData (ll_value l - len left))
        else
          let body := take (Z.to_nat (ll_value l)) left in
          let? id := map_err LdapMessage_InvalidMessageId (LdapMessageId_parse body) in
          Ok {| lm_id := li_value id; lm_payload := drop (Z.to_nat (li_encoded_len id)) body;
                lm_encoded_size := 1 + ll_encoded_len l + ll_value l |}
  end.

Lemma LdapMessage_parse_eq data max :
  0 <= max <= isize_max - 10 -> LdapMessage_parse data max = ldap_message_spec data max.
Proof.
  intros Hmax. destruct data as [|tag d]; [done|]. unfold LdapMessage_parse, ldap_message_spec.
  destruct (Z.eqb_spec (len (tag :: d)) 0); [len_lia|]. cbn [index bind].
  change (index (tag :: d) 0) with (Ok (E := LdapMessageParseError) tag). cbn [bind].
  destruct (negb _); [done|]. rewrite slice_from_ok by len_lia. cbn [bind].
  change (drop (Z.to_nat 1) (tag :: d)) with d. pose proof (LdapLength_parse_wp d) as Hl.
  destruct (LdapLength_parse d) as [l|e|]; [|done..]. destruct Hl as (Hl1 & Hl2 & Hl3).
  cbn [map_err bind]. rewrite uadd_ok by len_lia. cbn [bind].
  destruct (Z.ltb_spec max (ll_value l)); [done|]. rewrite slice_from_ok by len_lia. cbn [bind].
  replace (Z.to_nat (1 + ll_encoded_len l)) with (S (Z.to_nat (ll_encoded_len l))) by lia.
  cbn [drop]. set (left := drop (Z.to_nat (ll_encoded_len l)) d).
  destruct (Z.ltb_spec (len left) (ll_value l)).
  { by rewrite usub_ok by lia. }
  rewrite slice_ok by lia. cbn [bind]. rewrite Z.sub_0_r. cbn [drop].
  change (drop (Z.to_nat 0) left) with left.
  pose proof (LdapMessageId_parse_wp (take (Z.to_nat (ll_value l)) left) ltac:(len_lia)) as Hi.
  destruct (LdapMessageId_parse _) as [i|e|]; [|done..]. destruct Hi as (Hi & _).
  cbn [map_err bind]. rewrite slice_ok by len_lia. cbn [bind].
  rewrite uadd_ok by len_lia. cbn [bind]. do 2 f_equal.
  rewrite Z2Nat.inj_sub by lia. symmetry. apply skipn_firstn_comm.
Qed.

(** ** Verdicts are stable *)

Lemma LdapLength_parse_prefix d rest :
  match LdapLength_parse d with
  | Err (LdapLength_NeedMoreData _) => True
  | r => LdapLength_parse (d ++ rest) = r
  end.
Proof.
  unfold LdapLength_parse. pose proof (BerLength_parse_prefix d rest) as Hp.
  destruct (BerLength_parse d) as [l|[]|]; cbn; try done; rewrite Hp; cbn; try done.
  by destruct (bl_indefinite l).
Qed.

(** Bytes that arrive later change a message or an error to nothing else. *)
Lemma LdapMessage_parse_prefix d rest max :
  0 <= max <= isize_max - 10 ->
  match LdapMessage_parse d max with
  | Err (LdapMessage_NeedMoreData _) => True
  | r => LdapMessage_parse (d ++ rest) max = r
  end.
Proof.
  intros Hmax. rewrite !LdapMessage_parse_eq by done. destruct d as [|tag d]; [done|].
  cbn [ldap_message_spec app]. destruct (negb _); [done|].
  pose proof (LdapLength_parse_prefix d rest) as Hp. pose proof (LdapLength_parse_wp d) as Hl.
  destruct (LdapLength_parse d) as [l|[]|]; try done; rewrite Hp; cbn [map_err bind wp] in *; try done.
  destruct (Z.ltb_spec max (ll_value l)); [done|].
  rewrite drop_app_le by (unfold len in Hl; lia).
  set (left := drop (Z.to_nat (ll_encoded_len l)) d).
  destruct (Z.ltb_spec (len left) (ll_value l)); [done|].
  destruct (Z.ltb_spec (len (left ++ rest)) (ll_value l)); [len_lia|].
  rewrite take_app_le by (unfold len in *; lia).
  destruct (LdapMessageId_parse _) as [i|e|]; done.
Qed.

(** ** Reading back encoded values *)

Lemma LdapSequence_parse_bytes tag content rest :
  len content <= isize_max ->
  LdapSequence_parse_with_identifier (tag :: ber_len_bytes (len content) ++ content ++ rest) (u8 tag) =
    Ok {| ls_data := content;
          ls_encoded_len := 1 + len (ber_len_bytes (len content)) + len content |}.
Proof.
  intros Hlen. unfold LdapSequence_parse_with_identifier. set (lb := ber_len_bytes (len content)).
  destruct (Z.eqb_spec (len (tag :: lb ++ content ++ rest)) 0); [len_lia|].
  change (index (tag :: lb ++ content ++ rest) 0) with (Ok (E := LdapSequenceParseError) tag).
  cbn [bind]. rewrite Z.eqb_refl. cbn [negb]. rewrite slice_from_ok by len_lia. cbn [bind].
  change (drop (Z.to_nat 1) (tag :: lb ++ content ++ rest)) with (lb ++ content ++ rest).
  pose proof (BerLength_parse_wp (lb ++ content ++ rest)) as Hwp.
  unfold lb in *. rewrite BerLength_parse_bytes in * by len_lia. fold lb in Hwp |- *.
  cbn in Hwp. cbn [map_err bind bl_indefinite bl_encoded_len bl_value].
  rewrite uadd_ok by len_lia. cbn [bind].
  destruct (Z.eqb_spec (len content) 0) as [E|E].
  { apply len_0 in E as ->. rewrite len_nil, Z.add_0_r. done. }
  unfold saturating_sub. destruct (Z.ltb_spec (Z.max 0
    (len (tag :: lb ++ content ++ rest) - (1 + len lb))) (len content)); [len_lia|].
  rewrite uadd_ok by len_lia. cbn [bind].
  pose proof (slice_app (E := LdapSequenceParseError) (tag :: lb) content rest) as Hs.
  rewrite len_cons in Hs. cbn [app] in Hs. rewrite Hs. done.
Qed.

Lemma LdapMessage_parse_bytes id payload rest max :
  0 <= u8 id < 128 -> 3 + len payload <= max <= isize_max - 10 ->
  LdapMessage_parse
    (x30 :: ber_len_bytes (3 + len payload) ++ (x02 :: x01 :: id :: payload) ++ rest) max =
    Ok {| lm_id := u8 id; lm_payload := payload;
          lm_encoded_size := 1 + len (ber_len_bytes (3 + len payload)) + (3 + len payload) |}.
Proof.
  intros Hid Hmax. rewrite LdapMessage_parse_eq by len_lia. cbn [ldap_message_spec].
  set (body := x02 :: x01 :: id :: payload). assert (len body = 3 + len payload) as Hbody.
  { unfold body. len_lia. }
  rewrite <- Hbody in *. set (lb := ber_len_bytes (len body)).
  assert (LdapLength_parse (lb ++ body ++ rest) =
    Ok {| ll_value := len body; ll_encoded_len := len lb |}) as Hl.
  { unfold LdapLength_parse, lb. by rewrite BerLength_parse_bytes by len_lia. }
  rewrite Hl. cbn [negb u8 Z.eqb map_err bind ll_value ll_encoded_len].
  change (negb (u8 x30 =? 48)) with false. cbn iota. rewrite drop_len_app.
  destruct (Z.ltb_spec max (len body)); [len_lia|].
  destruct (Z.ltb_spec (len (body ++ rest)) (len body)); [len_lia|]. rewrite take_len_app.
  assert (LdapMessageId_parse body = Ok {| li_value := u8 id; li_encoded_len := 3 |}) as Hi.
  { unfold LdapMessageId_parse, BerInteger_parse, body. change 2 with (u8 x02).
    rewrite BerInteger_parse_byte by (unfold isize_max in *; len_lia).
    cbn [map_err bind bi_value]. unfold u32_max.
    by destruct (Z.ltb_spec (u8 id) 0), (Z.ltb_spec (2 ^ 32 - 1) (u8 id)); try lia. }
  rewrite Hi. done.
Qed.

(** A tag, the length and the content. *)
Definition ber_item (tag : byte) (content : bytes) : bytes :=
  tag :: ber_len_bytes (len content) ++ content.

Lemma len_ber_len_bytes v : 0 <= v <= u64_max -> 1 <= len (ber_len_bytes v) <= 9.
Proof.
  intros Hv. pose proof (BerLength_parse_wp (ber_len_bytes v ++ [])) as Hwp.
  rewrite BerLength_parse_bytes in Hwp by done. cbn in Hwp. lia.
Qed.

Lemma len_ber_item tag content :
  len content <= isize_max ->
  2 + len content <= len (ber_item tag content) <= 10 + len content.
Proof.
  intros H. unfold ber_item. pose proof (len_ber_len_bytes (len content) ltac:(len_lia)). len_lia.
Qed.

Lemma LdapSequence_parse_item tag content rest :
  len content <= isize_max ->
  LdapSequence_parse_with_identifier (ber_item tag content ++ rest) (u8 tag) =
    Ok {| ls_data := content; ls_encoded_len := len (ber_item tag content) |}.
Proof.
  intros Hc. unfold ber_item. cbn [app]. rewrite <- app_assoc.
  rewrite LdapSequence_parse_bytes by done. do 2 f_equal. len_lia.
Qed.

Lemma LdapMessage_parse_item id payload rest max :
  0 <= u8 id < 128 -> 3 + len payload <= max <= isize_max - 10 ->
  LdapMessage_parse (ber_item x30 ([x02; x01; id] ++ payload) ++ rest) max =
    Ok {| lm_id := u8 id; lm_payload := payload;
          lm_encoded_size := len (ber_item x30 ([x02; x01; id] ++ payload)) |}.
Proof.
  intros Hid Hmax. assert (len ([x02; x01; id] ++ payload) = 3 + len payload) as Hl by len_lia.
  unfold ber_item. rewrite Hl. cbn [app]. rewrite <- app_assoc. cbn [app].
  pose proof (LdapMessage_parse_bytes id payload rest max Hid Hmax) as H. cbn [app] in H.
  rewrite H. do 2 f_equal. len_lia.
Qed.

(** ** Properties *)

(** On every input, and for every limit that leaves room for a header below
    [isize::MAX], message parsing returns what the layout of RFC 4511 4.1.1
    prescribes and does not panic.  A message lies inside the input and within
    the limit; a request for more data is never for more than can still belong
    to the message; and bytes that follow change neither a message nor an
    error. *)
Theorem LdapMessage_parse_framing (data : bytes) (max : Z) :
  0 <= max <= isize_max - 10 ->
  LdapMessage_parse data max = ldap_message_spec data max /\
  match LdapMessage_parse data max with
  | Ok m => lm_encoded_size m <= len data /\ 5 <= lm_encoded_size m <= 10 + max /\
            forall rest, LdapMessage_parse (data ++ rest) max = Ok m
  | Err (LdapMessage_NeedMoreData n) => 1 <= n <= 10 + max - len data
  | Err e => forall rest, LdapMessage_parse (data ++ rest) max = Err e
  | Panic => False
  end.
Proof.
  intros Hmax. split; [by apply LdapMessage_parse_eq|].
  pose proof (LdapMessage_parse_wp data max Hmax) as Hwp.
  pose proof (fun rest => LdapMessage_parse_prefix data rest max Hmax) as Hpre.
  destruct (LdapMessage_parse data max) as [m|[]|]; try done.
  destruct Hwp as (? & ? & _). done.
Qed.

Lemma LdapMessage_parse_framing_witness :
  LdapMessage_parse [x30; x05; x02; x01; x07; x42; x00] 16 =
    Ok {| lm_id := 7; lm_payload := [x42; x00]; lm_encoded_size := 7 |} /\
  LdapMessage_parse [x30; x05; x02; x01; x07; x42; x00] 16 =
    ldap_message_spec [x30; x05; x02; x01; x07; x42; x00] 16.
Proof.
  split; [reflexivity|].
  refine (proj1 (LdapMessage_parse_framing [x30; x05; x02; x01; x07; x42; x00] 16 _)).
  split; apply Z.leb_le; reflexivity.
Defined.

(** Parsing a result never panics; the parsed result ends inside the input
    and its code is a [u16]. *)
Theorem LdapResult_parse_safe (data : bytes) :
  len data <= isize_max ->
  match LdapResult_parse data with
  | Ok r => 7 <= lr_encoded_len r <= len data /\ 0 <= lr_result_code r <= u16_max
  | Err _ => True
  | Panic => False
  end.
Proof. apply LdapResult_parse_wp. Qed.

Lemma LdapResult_parse_safe_witness :
  LdapResult_parse [x0a; x01; x00; x04; x00; x04; x00] <> Panic.
Proof.
  pose proof (LdapResult_parse_safe [x0a; x01; x00; x04; x00; x04; x00]
    ltac:(apply Z.leb_le; reflexivity)) as H.
  intros E. rewrite E in H. exact H.
Defined.
