(* ===== verification/LdapClient.v ===== *)
(** * The LDAP client of the user authentication

    Models [vey-proxy/src/auth/group/ldap/protocol/] (bind request encoder and
    message receiver) and the response handlers of
    [vey-proxy/src/auth/group/ldap/pool/task.rs]. *)

From Stdlib Require Import ZArith Lia Strings.Byte.
From stdpp Require Import base list.
From S2P Require Import Prelude Ber Reader Ldap.

(** ** The bind request encoder *)

Definition MAX_MESSAGE_ID : Z := 0x7F.
Definition MIN_MESSAGE_ID : Z := 1.

Record SimpleBindRequestEncoder : Type := {
  sb_message_id : Z;
  sb_bind_dn_length_encoder : BerLengthEncoder;
  sb_password_length_encoder : BerLengthEncoder;
  sb_request_length_encoder : BerLengthEncoder;
  sb_message_length_encoder : BerLengthEncoder;
  sb_request_buf : bytes
}.

Definition SimpleBindRequestEncoder_default : SimpleBindRequestEncoder := {|
  sb_message_id := MAX_MESSAGE_ID;
  sb_bind_dn_length_encoder := BerLengthEncoder_default;
  sb_password_length_encoder := BerLengthEncoder_default;
  sb_request_length_encoder := BerLengthEncoder_default;
  sb_message_length_encoder := BerLengthEncoder_default;
  sb_request_buf := []
|}.

Definition SimpleBindRequestEncoder_reset (self : SimpleBindRequestEncoder)
    : SimpleBindRequestEncoder := {|
  sb_message_id := MAX_MESSAGE_ID;
  sb_bind_dn_length_encoder := sb_bind_dn_length_encoder self;
  sb_password_length_encoder := sb_password_length_encoder self;
  sb_request_length_encoder := sb_request_length_encoder self;
  sb_message_length_encoder := sb_message_length_encoder self;
  sb_request_buf := sb_request_buf self
|}.

(** The [u8] counter shared by [encode] and [unbind_sequence]. *)
Definition next_message_id {E} (id : Z) : res E Z :=
  if id + 1 <=? 255 then
    Ok (if MAX_MESSAGE_ID <? id + 1 then MIN_MESSAGE_ID else id + 1)
  else Panic.

Definition SimpleBindRequestEncoder_encode {E} (self : SimpleBindRequestEncoder)
    (bind_dn password : bytes) : res E (SimpleBindRequestEncoder * bytes) :=
  let? message_id := next_message_id (sb_message_id self) in
  let bind_dn_len := len bind_dn in
  let? '(dn_enc, bind_dn_length_bytes) :=
    BerLengthEncoder_encode (sb_bind_dn_length_encoder self) bind_dn_len in
  let? bind_dn_encoded_len := uadd (1 + len bind_dn_length_bytes) bind_dn_len in
  let password_len := len password in
  let? '(pw_enc, password_length_bytes) :=
    BerLengthEncoder_encode (sb_password_length_encoder self) password_len in
  let? password_encoded_len := uadd (1 + len password_length_bytes) password_len in
  let? request_len := uadd (3 + bind_dn_encoded_len) password_encoded_len in
  let? '(req_enc, request_length_bytes) :=
    BerLengthEncoder_encode (sb_request_length_encoder self) request_len in
  let? request_encoded_len := uadd (1 + len request_length_bytes) request_len in
  let? message_len := uadd 3 request_encoded_len in
  let? '(msg_enc, message_length_bytes) :=
    BerLengthEncoder_encode (sb_message_length_encoder self) message_len in
  let? _ := uadd (1 + len message_length_bytes) message_len in
  let request_buf :=
    [x30] ++ message_length_bytes ++
    [x02] ++ [x01] ++ [to_u8 message_id] ++
    [x60] ++ request_length_bytes ++
    [x02; x01; x03] ++
    [x04] ++ bind_dn_length_bytes ++ bind_dn ++
    [x80] ++ password_length_bytes ++ password in
  Ok ({| sb_message_id := message_id;
         sb_bind_dn_length_encoder := dn_enc;
         sb_password_length_encoder := pw_enc;
         sb_request_length_encoder := req_enc;
         sb_message_length_encoder := msg_enc;
         sb_request_buf := request_buf |}, request_buf).

Definition SimpleBindRequestEncoder_unbind_sequence {E} (self : SimpleBindRequestEncoder)
    : res E (SimpleBindRequestEncoder * bytes) :=
  let? message_id := next_message_id (sb_message_id self) in
  Ok ({| sb_message_id := message_id;
         sb_bind_dn_length_encoder := sb_bind_dn_length_encoder self;
         sb_password_length_encoder := sb_password_length_encoder self;
         sb_request_length_encoder := sb_request_length_encoder self;
         sb_message_length_encoder := sb_message_length_encoder self;
         sb_request_buf := sb_request_buf self |},
      [x30; x05; x02; x01; to_u8 message_id; x42; x00]).

(** ** The message receiver *)

Record LdapMessageReceiver : Type := {
  rx_max_message_size : Z;
  rx_buffer : bytes;
  rx_received_len : Z;
  rx_cur_message_len : Z
}.

(** The buffer is allocated uninitialised: its first contents are arbitrary. *)
Definition LdapMessageReceiver_new {E} (max_message_size : Z) (uninit : Z -> bytes)
    : res E LdapMessageReceiver :=
  let? buffer_size := uadd max_message_size 10 in
  Ok {| rx_max_message_size := max_message_size; rx_buffer := uninit buffer_size;
        rx_received_len := 0; rx_cur_message_len := 0 |}.

(** [data.copy_within(a..b, 0)] *)
Definition copy_within_front {E} (data : bytes) (a b : Z) : res E bytes :=
  let? src := slice data a b in
  copy_from_slice data 0 (len src) src.

Definition consume_cur_message {E} (self : LdapMessageReceiver) : res E LdapMessageReceiver :=
  if rx_cur_message_len self =? 0 then Ok self
  else
    let? left_size := usub (rx_received_len self) (rx_cur_message_len self) in
    let? buffer :=
      if 0 <? left_size
      then copy_within_front (rx_buffer self) (rx_cur_message_len self) (rx_received_len self)
      else Ok (rx_buffer self) in
    Ok {| rx_max_message_size := rx_max_message_size self; rx_buffer := buffer;
          rx_received_len := left_size; rx_cur_message_len := 0 |}.

Inductive LdapRecvError : Type :=
| Recv_InvalidMessage (e : LdapMessageParseError)
| Recv_ReadIoError (e : io_error)
| Recv_ConnectionClosed.

(** The read of one round of [recv]. *)
Definition recv_fill (self : LdapMessageReceiver) (rd : reader)
    : res LdapRecvError LdapMessageReceiver * reader :=
  match slice_from (E := LdapRecvError) (rx_buffer self) (rx_received_len self) with
  | Ok room =>
      let '(r, rd') := read_all_once_await rd (len room) in
      (let? c := map_err Recv_ReadIoError r in
       let nr := len c in
       if nr =? 0 then Err Recv_ConnectionClosed
       else
         let? received_len := uadd (rx_received_len self) nr in
         let? buffer := copy_from_slice (rx_buffer self) (rx_received_len self) received_len c in
         Ok {| rx_max_message_size := rx_max_message_size self; rx_buffer := buffer;
               rx_received_len := received_len;
               rx_cur_message_len := rx_cur_message_len self |}, rd')
  | Err e => (Err e, rd)
  | Panic => (Panic, rd)
  end.

(** The loop of [recv].  Every round that does not return reads at least one
    byte, so one round more than the stream has bytes is enough. *)
Fixpoint recv_loop (fuel : nat) (self : LdapMessageReceiver) (rd : reader)
    : res LdapRecvError LdapMessage * LdapMessageReceiver * reader :=
  match fuel with
  | O => (Panic, self, rd)
  | S fuel' =>
      let parsed :=
        if 0 <? rx_received_len self then
          let? data := slice (rx_buffer self) 0 (rx_received_len self) in
          LdapMessage_parse data (rx_max_message_size self)
        else Err (LdapMessage_NeedMoreData 1) in
      match parsed with
      | Ok message =>
          (Ok message,
           {| rx_max_message_size := rx_max_message_size self; rx_buffer := rx_buffer self;
              rx_received_len := rx_received_len self;
              rx_cur_message_len := lm_encoded_size message |}, rd)
      | Err (LdapMessage_NeedMoreData _) =>
          match recv_fill self rd with
          | (Ok self', rd') => recv_loop fuel' self' rd'
          | (Err e, rd') => (Err e, self, rd')
          | (Panic, rd') => (Panic, self, rd')
          end
      | Err e => (Err (Recv_InvalidMessage e), self, rd)
      | Panic => (Panic, self, rd)
      end
  end.

Definition LdapMessageReceiver_recv (self : LdapMessageReceiver) (rd : reader)
    : res LdapRecvError LdapMessage * LdapMessageReceiver * reader :=
  match consume_cur_message (E := LdapRecvError) self with
  | Ok self' => recv_loop (S (S (length (stream_of rd)))) self' rd
  | Err e => (Err e, self, rd)
  | Panic => (Panic, self, rd)
  end.

(** ** The response handlers *)

Inductive LdapHandleError : Type :=
| Handle_Sequence (e : LdapSequenceParseError)
| Handle_Result (e : LdapResultParseError).

(** [handle_response]: the value sent to the requester, its credentials when
    they are valid. *)
Definition handle_response (op_data : bytes) (username password : bytes)
    : res LdapHandleError (option (bytes * bytes)) :=
  let? rsp_sequence := map_err Handle_Sequence (LdapSequence_parse_bind_response op_data) in
  let data := ls_data rsp_sequence in
  let? result := map_err Handle_Result (LdapResult_parse data) in
  if LdapResult_is_success result then Ok (Some (username, password)) else Ok None.

Definition NOTICE_OF_DISCONNECTION : bytes := bs "1.3.6.1.4.1.1466.20036".

(** [handle_unsolicited_notification]: whether to reconnect. *)
Definition handle_unsolicited_notification (op_data : bytes) : res LdapHandleError bool :=
  let? rsp_sequence := map_err Handle_Sequence (LdapSequence_parse_extended_response op_data) in
  let data := ls_data rsp_sequence in
  let? result := map_err Handle_Result (LdapResult_parse data) in
  let? left := slice_from data (lr_encoded_len result) in
  let? oid := map_err Handle_Sequence (LdapSequence_parse_extended_response_oid left) in
  Ok (bool_decide (ls_data oid = NOTICE_OF_DISCONNECTION)).

(** ** The receiver delivers the stream's messages *)

Section Receiver.

Definition rx_ok (self : LdapMessageReceiver) : Prop :=
  0 <= rx_max_message_size self <= isize_max - 10 /\
  len (rx_buffer self) = rx_max_message_size self + 10 /\
  0 <= rx_cur_message_len self <= rx_received_len self /\
  rx_received_len self <= len (rx_buffer self).

(** What has been received and not yet been handed out. *)
Definition rx_unread (self : LdapMessageReceiver) : bytes :=
  drop (Z.to_nat (rx_cur_message_len self))
    (take (Z.to_nat (rx_received_len self)) (rx_buffer self)).

(** What the next messages are made of. *)
Definition rx_pending (self : LdapMessageReceiver) (rd : reader) : bytes :=
  rx_unread self ++ stream_of rd.

(** The outcome of [recv] as a function of the bytes of the connection alone. *)
Definition recv_spec (pending : bytes) (max : Z) : res LdapRecvError LdapMessage :=
  match LdapMessage_parse pending max with
  | Ok m => Ok m
  | Err (LdapMessage_NeedMoreData _) => Err Recv_ConnectionClosed
  | Err e => Err (Recv_InvalidMessage e)
  | Panic => Panic
  end.

Definition recv_rest (pending : bytes) (max : Z) : bytes :=
  match LdapMessage_parse pending max with
  | Ok m => drop (Z.to_nat (lm_encoded_size m)) pending
  | _ => pending
  end.

Lemma consume_cur_message_spec {E} self :
  rx_ok self ->
  exists self', consume_cur_message (E := E) self = Ok self' /\ rx_ok self' /\
    rx_cur_message_len self' = 0 /\ rx_unread self' = rx_unread self /\
    rx_max_message_size self' = rx_max_message_size self.
Proof.
  destruct self as [max buf rcv cur]. unfold rx_ok, rx_unread, consume_cur_message. cbn.
  intros (Hmax & Hbuf & Hcur & Hrcv). destruct (Z.eqb_spec cur 0) as [->|Hnz].
  { eexists. split; [done|]. cbn. split_and!; done || lia. }
  rewrite usub_ok by lia. cbn [bind]. destruct (Z.ltb_spec 0 (rcv - cur)).
  - unfold copy_within_front. rewrite slice_ok by lia. cbn [bind].
    rewrite copy_from_slice_ok by len_lia. cbn [bind]. eexists. split; [done|]. cbn.
    rewrite !len_app. split_and!; try len_lia.
    change (take (Z.to_nat 0) buf) with (@nil byte). cbn [app]. rewrite drop_0.
    rewrite take_app_le, take_ge by (rewrite length_take, length_drop; unfold len in *; lia).
    rewrite Z2Nat.inj_sub by lia. symmetry. apply skipn_firstn_comm.
  - eexists. split; [done|]. cbn. split_and!; try lia; try done.
    rewrite (drop_ge _ (Z.to_nat cur)) by (rewrite length_take; lia).
    by replace (rcv - cur) with 0 by lia.
Qed.

Lemma recv_fill_spec self rd :
  rx_ok self -> rx_cur_message_len self = 0 -> well_behaved rd ->
  rx_received_len self < len (rx_buffer self) ->
  exists r rd', recv_fill self rd = (r, rd') /\ well_behaved rd' /\
    match r with
    | Ok self' =>
        rx_ok self' /\ rx_cur_message_len self' = 0 /\
        rx_pending self' rd' = rx_pending self rd /\
        rx_max_message_size self' = rx_max_message_size self /\
        (length (stream_of rd') < length (stream_of rd))%nat
    | Err Recv_ConnectionClosed => stream_of rd = [] /\ stream_of rd' = []
    | _ => False
    end.
Proof.
  destruct self as [max buf rcv cur]. unfold rx_pending, rx_unread, rx_ok. cbn.
  intros (Hmax & Hbuf & Hpos & Hrcv) -> Hwb Hroom. unfold recv_fill.
  cbn [rx_buffer rx_received_len]. rewrite slice_from_ok by lia. cbn beta iota.
  destruct (read_all_once_await_spec rd (len (drop (Z.to_nat rcv) buf)) Hwb ltac:(len_lia))
    as (c & rd' & -> & Hs & Hc & Hwb' & Hnil).
  cbn [map_err bind]. eexists _, rd'. split; [reflexivity|]. split; [done|].
  destruct (Z.eqb_spec (len c) 0) as [E|E].
  { apply len_0 in E as ->. cbn in Hs. split; [by apply Hnil|]. rewrite Hs. by apply Hnil. }
  rewrite uadd_ok by len_lia. cbn [bind]. rewrite copy_from_slice_ok by len_lia. cbn [bind].
  cbn. rewrite !len_app, !drop_0. split_and!; try len_lia; try done.
  - rewrite <- Hs, !app_assoc. f_equal.
    rewrite take_app_le by (rewrite length_app, length_take; unfold len in *; lia).
    apply take_ge. rewrite length_app, length_take; unfold len in *; lia.
  - apply (f_equal len) in Hs. rewrite len_app in Hs. unfold len in *. lia.
Qed.

Lemma recv_loop_spec fuel self rd :
  rx_ok self -> rx_cur_message_len self = 0 -> well_behaved rd ->
  (length (stream_of rd) < fuel)%nat ->
  exists r self' rd',
    recv_loop fuel self rd = (r, self', rd') /\ rx_ok self' /\ well_behaved rd' /\
    rx_max_message_size self' = rx_max_message_size self /\
    r = recv_spec (rx_pending self rd) (rx_max_message_size self) /\
    rx_pending self' rd' = recv_rest (rx_pending self rd) (rx_max_message_size self).
Proof.
  revert self rd. induction fuel as [|fuel IH]; intros self rd Hok Hcur Hwb Hfuel; [lia|].
  cbn [recv_loop]. pose proof Hok as (Hmax & Hbuf & Hpos & Hrcv).
  set (have := take (Z.to_nat (rx_received_len self)) (rx_buffer self)).
  assert ((if 0 <? rx_received_len self
           then let? data := slice (rx_buffer self) 0 (rx_received_len self) in
                LdapMessage_parse data (rx_max_message_size self)
           else Err (LdapMessage_NeedMoreData 1))
          = LdapMessage_parse have (rx_max_message_size self)) as ->.
  { destruct (Z.ltb_spec 0 (rx_received_len self)).
    - rewrite slice_ok by lia. cbn [bind]. by rewrite Z.sub_0_r.
    - assert (have = []) as ->; [|done]. apply len_0. unfold have. len_lia. }
  assert (rx_pending self rd = have ++ stream_of rd) as HP.
  { unfold rx_pending, rx_unread. by rewrite Hcur. }
  pose proof (LdapMessage_parse_wp have _ Hmax) as Hwp.
  pose proof (LdapMessage_parse_prefix have (stream_of rd) _ Hmax) as Hpre.
  assert (len have = rx_received_len self) as Hhave by (unfold have; len_lia).
  unfold recv_spec, recv_rest.
  destruct (LdapMessage_parse have _) as [m|e|] eqn:Hparse; [| |done].
  - destruct Hwp as (H1 & H2 & _). rewrite HP, Hpre. eexists _, _, _. split; [done|].
    unfold rx_ok, rx_pending, rx_unread. cbn. fold have. split_and!; try done; try lia.
    rewrite drop_app_le by (unfold len in *; lia). done.
  - destruct e; try (rewrite HP, Hpre; eexists _, _, _; split; [done|]; by rewrite <- HP).
    cbn in Hwp. destruct (recv_fill_spec self rd Hok Hcur Hwb ltac:(lia))
      as (r & rd' & -> & Hwb' & Hr).
    destruct r as [self'|[]|]; try done.
    + destruct Hr as (Hok' & Hcur' & HP' & Hmax' & Hlt).
      destruct (IH self' rd' Hok' Hcur' Hwb' ltac:(lia)) as (r & self'' & rd'' & -> & H).
      rewrite HP', Hmax' in H. by eexists _, _, _.
    + destruct Hr as [Hs Hs']. eexists _, _, _. split; [done|].
      rewrite HP, Hs, app_nil_r, Hparse.
      split_and!; try done. unfold rx_pending, rx_unread. rewrite Hs', Hcur, app_nil_r. done.
Qed.

Lemma LdapMessageReceiver_recv_spec self rd :
  rx_ok self -> well_behaved rd ->
  exists r self' rd',
    LdapMessageReceiver_recv self rd = (r, self', rd') /\ rx_ok self' /\ well_behaved rd' /\
    rx_max_message_size self' = rx_max_message_size self /\
    r = recv_spec (rx_pending self rd) (rx_max_message_size self) /\
    rx_pending self' rd' = recv_rest (rx_pending self rd) (rx_max_message_size self).
Proof.
  intros Hok Hwb. unfold LdapMessageReceiver_recv.
  destruct (consume_cur_message_spec (E := LdapRecvError) self Hok)
    as (s1 & -> & Hok1 & Hcur & Hun & Hmax).
  assert (rx_pending self rd = rx_pending s1 rd) as -> by (unfold rx_pending; by rewrite Hun).
  rewrite <- Hmax. apply recv_loop_spec; try done. lia.
Qed.

End Receiver.

(** ** The bind request *)

Section BindRequest.

Definition sb_ok (self : SimpleBindRequestEncoder) : Prop :=
  MIN_MESSAGE_ID <= sb_message_id self <= MAX_MESSAGE_ID /\
  length (ble_buf (sb_bind_dn_length_encoder self)) = 9%nat /\
  length (ble_buf (sb_password_length_encoder self)) = 9%nat /\
  length (ble_buf (sb_request_length_encoder self)) = 9%nat /\
  length (ble_buf (sb_message_length_encoder self)) = 9%nat.

(** The ids go through 1, ..., 127 in a circle. *)
Definition id_after (id : Z) : Z := if id =? MAX_MESSAGE_ID then MIN_MESSAGE_ID else id + 1.

Lemma next_message_id_spec {E} id :
  MIN_MESSAGE_ID <= id <= MAX_MESSAGE_ID ->
  next_message_id (E := E) id = Ok (id_after id) /\
  MIN_MESSAGE_ID <= id_after id <= MAX_MESSAGE_ID.
Proof.
  unfold next_message_id, id_after, MIN_MESSAGE_ID, MAX_MESSAGE_ID. intros.
  destruct (Z.leb_spec (id + 1) 255), (Z.ltb_spec 0x7F (id + 1)), (Z.eqb_spec id 0x7F);
    try lia; split; done || lia.
Qed.

(** RFC 4511 4.2: version 3, the name and the password of a simple bind. *)
Definition bind_request_body (bind_dn password : bytes) : bytes :=
  [x02; x01; x03] ++ ber_item x04 bind_dn ++ ber_item x80 password.

Lemma SimpleBindRequestEncoder_encode_spec {E} self bind_dn password :
  sb_ok self -> len bind_dn + len password <= isize_max - 64 ->
  exists self' out,
    SimpleBindRequestEncoder_encode (E := E) self bind_dn password = Ok (self', out) /\
    sb_ok self' /\ sb_message_id self' = id_after (sb_message_id self) /\
    out = ber_item x30 ([x02; x01; to_u8 (sb_message_id self')] ++
                        ber_item x60 (bind_request_body bind_dn password)).
Proof.
  intros (Hid & H1 & H2 & H3 & H4) Hlen. unfold SimpleBindRequestEncoder_encode.
  destruct (next_message_id_spec (E := E) _ Hid) as [-> Hid']. cbn [bind].
  destruct (BerLengthEncoder_encode_spec (E := E) _ (len bind_dn) H1 ltac:(len_lia))
    as (e1 & He1 & ->). cbn [bind].
  pose proof (len_ber_len_bytes (len bind_dn) ltac:(len_lia)).
  rewrite uadd_ok by len_lia. cbn [bind].
  destruct (BerLengthEncoder_encode_spec (E := E) _ (len password) H2 ltac:(len_lia))
    as (e2 & He2 & ->). cbn [bind].
  pose proof (len_ber_len_bytes (len password) ltac:(len_lia)).
  rewrite !uadd_ok by len_lia. cbn [bind]. rewrite uadd_ok by len_lia. cbn [bind].
  assert (len (bind_request_body bind_dn password) =
    3 + (1 + len (ber_len_bytes (len bind_dn)) + len bind_dn) +
    (1 + len (ber_len_bytes (len password)) + len password)) as Hbody.
  { unfold bind_request_body, ber_item. len_lia. }
  rewrite <- Hbody. set (body := bind_request_body bind_dn password) in *.
  destruct (BerLengthEncoder_encode_spec (E := E) _ (len body) H3 ltac:(len_lia))
    as (e3 & He3 & ->). cbn [bind].
  pose proof (len_ber_len_bytes (len body) ltac:(len_lia)).
  rewrite uadd_ok by len_lia. cbn [bind]. rewrite uadd_ok by len_lia. cbn [bind].
  set (id := to_u8 (id_after (sb_message_id self))).
  assert (3 + (1 + len (ber_len_bytes (len body)) + len body) =
    len ([x02; x01; id] ++ ber_item x60 body)) as Hmsg by (unfold ber_item; len_lia).
  rewrite Hmsg. set (msg := [x02; x01; id] ++ ber_item x60 body) in *.
  destruct (BerLengthEncoder_encode_spec (E := E) _ (len msg) H4 ltac:(len_lia))
    as (e4 & He4 & ->). cbn [bind].
  pose proof (len_ber_len_bytes (len msg) ltac:(len_lia)). rewrite uadd_ok by len_lia. cbn [bind].
  eexists _, _. split; [reflexivity|]. split_and!; try done.
  cbn [sb_message_id]. fold id. unfold msg, ber_item, body, bind_request_body, ber_item.
  cbn [app]. by rewrite <- ?app_assoc.
Qed.

End BindRequest.

(** ** The response handlers *)

Section Handlers.

Lemma handle_response_no_panic op_data username password :
  len op_data <= isize_max -> handle_response op_data username password <> Panic.
Proof.
  intros Hlen. eapply (wp_not_panic _ (fun _ => True) (fun _ => True)). unfold handle_response.
  wp_go. eapply wp_mono; [by apply LdapSequence_parse_wp| |done].
  intros s (_ & Hs). cbn beta. wp_go.
  eapply wp_mono; [apply LdapResult_parse_wp; len_lia| |done]. intros r _. cbn beta.
  wp_go; done.
Qed.

Lemma handle_unsolicited_notification_no_panic op_data :
  len op_data <= isize_max -> handle_unsolicited_notification op_data <> Panic.
Proof.
  intros Hlen. eapply (wp_not_panic _ (fun _ => True) (fun _ => True)).
  unfold handle_unsolicited_notification.
  wp_go. eapply wp_mono; [by apply LdapSequence_parse_wp| |done].
  intros s (_ & Hs). cbn beta. wp_go.
  eapply wp_mono; [apply LdapResult_parse_wp; len_lia| |done]. intros r (Hr & _). cbn beta.
  wp_go. eapply wp_mono; [apply LdapSequence_parse_wp; len_lia| |done]. intros o _. cbn beta.
  wp_go; done.
Qed.

(** The components of a result (RFC 4511 4.1.9) with a one byte code. *)
Definition ldap_result_bytes (code : byte) (matched_dn diagnostic_message : bytes) : bytes :=
  [x0a; x01; code] ++ ber_item x04 matched_dn ++ ber_item x04 diagnostic_message.

Lemma LdapResult_parse_bytes code matched_dn msg rest :
  u8 code < 128 -> u8 code <> 10 ->
  len (ldap_result_bytes code matched_dn msg ++ rest) <= isize_max ->
  LdapResult_parse (ldap_result_bytes code matched_dn msg ++ rest) =
    Ok {| lr_result_code := u8 code; lr_matched_dn := matched_dn;
          lr_diagnostic_message := msg; lr_referral_sequence := [];
          lr_encoded_len := len (ldap_result_bytes code matched_dn msg) |}.
Proof.
  intros Hc Hne Hlen. unfold ldap_result_bytes in *.
  assert (len matched_dn <= len (ber_item x04 matched_dn)) by (unfold ber_item; len_lia).
  assert (len msg <= len (ber_item x04 msg)) by (unfold ber_item; len_lia).
  set (dn := ber_item x04 matched_dn) in *. set (dm := ber_item x04 msg) in *.
  unfold LdapResult_parse, BerInteger_parse_enumerated_value. change 10 with (u8 x0a) at 1.
  cbn [app]. rewrite BerInteger_parse_byte by (try done; len_lia).
  cbn [map_err bind bi_value bi_encoded_len].
  destruct (Z.ltb_spec (u8 code) 0), (Z.ltb_spec u16_max (u8 code)); try len_lia. cbn [orb].
  pose proof (slice_from_app (E := LdapResultParseError) [x0a; x01; code] (dn ++ dm ++ rest)) as Hs1.
  pose proof (slice_from_app (E := LdapResultParseError) ([x0a; x01; code] ++ dn) (dm ++ rest)) as Hs2.
  cbn [app] in Hs1, Hs2. rewrite <- !app_assoc. change (len [x0a; x01; code]) with 3 in Hs1.
  rewrite Hs1. cbn [bind]. unfold LdapSequence_parse_octet_string, dn at 1. change 4 with (u8 x04).
  rewrite LdapSequence_parse_item by len_lia. cbn [map_err bind ls_encoded_len ls_data].
  fold dn. rewrite uadd_ok by len_lia. cbn [bind].
  replace (len (x0a :: x01 :: code :: dn)) with (3 + len dn) in Hs2 by len_lia.
  rewrite Hs2. cbn [bind]. unfold LdapSequence_parse_octet_string, dm at 1. change 4 with (u8 x04).
  rewrite LdapSequence_parse_item by len_lia. cbn [map_err bind ls_encoded_len ls_data].
  fold dm. rewrite uadd_ok by len_lia. cbn [bind].
  destruct (Z.eqb_spec (u8 code) 10); [done|]. do 2 f_equal. len_lia.
Qed.

End Handlers.

(** ** Properties *)

(** C19: [recv] is a function of the byte stream alone.  However the bytes of the
    connection are cut into reads, and wherever the reads have to wait, it
    returns the first message of the bytes not handed out yet, reports the first
    malformed message, or reports that the connection was closed in the middle
    of one; the bytes after the message stay for the next call.  The buffer of
    [max_message_size + 10] bytes is never full while more data is needed. *)
Theorem LdapMessageReceiver_recv_refines (self : LdapMessageReceiver) (rd : reader) :
  rx_ok self -> well_behaved rd ->
  exists r self' rd',
    LdapMessageReceiver_recv self rd = (r, self', rd') /\ rx_ok self' /\ well_behaved rd' /\
    rx_max_message_size self' = rx_max_message_size self /\
    r = recv_spec (rx_pending self rd) (rx_max_message_size self) /\
    rx_pending self' rd' = recv_rest (rx_pending self rd) (rx_max_message_size self).
Proof. apply LdapMessageReceiver_recv_spec. Qed.

Definition rx_example : LdapMessageReceiver :=
  {| rx_max_message_size := 8; rx_buffer := replicate 18 x00;
     rx_received_len := 0; rx_cur_message_len := 0 |}.

Lemma LdapMessageReceiver_recv_refines_witness :
  exists r self' rd',
    LdapMessageReceiver_recv rx_example
      [Pend; Data [x30]; Pend; Data [x05; x02; x01; x07; x42; x00; x30]] = (r, self', rd') /\
    r = Ok {| lm_id := 7; lm_payload := [x42; x00]; lm_encoded_size := 7 |} /\
    rx_pending self' rd' = [x30].
Proof.
  destruct (LdapMessageReceiver_recv_refines rx_example
    [Pend; Data [x30]; Pend; Data [x05; x02; x01; x07; x42; x00; x30]])
    as (r & self' & rd' & Hrecv & _ & _ & _ & Hr & Hp).
  - split_and!; apply Z.leb_le || apply Z.eqb_eq; reflexivity.
  - by repeat constructor.
  - exists r, self', rd'. split; [exact Hrecv|]. by rewrite Hr, Hp.
Defined.

(** [n] calls of [recv], which stop at the first that fails. *)
Fixpoint recv_n (n : nat) (self : LdapMessageReceiver) (rd : reader)
    : list LdapMessage * res LdapRecvError LdapMessage :=
  match LdapMessageReceiver_recv self rd with
  | (Ok m, self', rd') =>
      match n with
      | O => ([], Ok m)
      | S n' => let '(ms, r) := recv_n n' self' rd' in (m :: ms, r)
      end
  | (r, _, _) => ([], r)
  end.

Lemma recv_n_frames frames ms self rd :
  rx_ok self -> well_behaved rd ->
  Forall2 (fun f m => LdapMessage_parse f (rx_max_message_size self) = Ok m /\
                      lm_encoded_size m = len f) frames ms ->
  rx_pending self rd = concat frames ->
  recv_n (length frames) self rd = (ms, Err Recv_ConnectionClosed).
Proof.
  intros Hok Hwb Hf. revert self rd Hok Hwb Hf. 
  assert (forall max, Forall2 (fun f m => LdapMessage_parse f max = Ok m /\
    lm_encoded_size m = len f) frames ms -> forall self rd, rx_ok self -> well_behaved rd ->
    rx_max_message_size self = max -> rx_pending self rd = concat frames ->
    recv_n (length frames) self rd = (ms, Err Recv_ConnectionClosed)) as Hgen; [|by eauto].
  intros max Hf. induction Hf as [|f m frames ms [Hm Hsize] Hf IH]; intros self rd Hok Hwb Hmax Hp;
    destruct (LdapMessageReceiver_recv_spec self rd Hok Hwb)
      as (r & self' & rd' & Hrecv & Hok' & Hwb' & Hmax' & Hr & Hrest);
    rewrite Hp in Hr, Hrest; cbn [concat length recv_n] in *; rewrite Hrecv.
  { by rewrite Hr. }
  unfold recv_spec, recv_rest in *.
  assert (LdapMessage_parse (f ++ concat frames) (rx_max_message_size self) = Ok m) as Hpm.
  { pose proof (LdapMessage_parse_prefix f (concat frames) max) as Hpre. rewrite Hm in Hpre.
    rewrite Hmax. apply Hpre. rewrite <- Hmax. apply Hok. }
  rewrite Hpm in Hr, Hrest. subst r. rewrite Hsize, drop_len_app in Hrest.
  by rewrite (IH self' rd') by (done || congruence).
Qed.

(** A fresh receiver hands out exactly the messages of the stream, in order,
    and then reports the end of the connection, however the stream is cut into
    reads and whatever the uninitialised buffer contained. *)
Theorem recv_delivers_all_messages (max : Z) (uninit : Z -> bytes) (rd : reader)
    (frames : list bytes) (ms : list LdapMessage) (self : LdapMessageReceiver) :
  0 <= max <= isize_max - 10 -> (forall n, 0 <= n -> len (uninit n) = n) ->
  LdapMessageReceiver_new (E := LdapRecvError) max uninit = Ok self ->
  well_behaved rd -> stream_of rd = concat frames ->
  Forall2 (fun f m => LdapMessage_parse f max = Ok m /\ lm_encoded_size m = len f) frames ms ->
  recv_n (length frames) self rd = (ms, Err Recv_ConnectionClosed).
Proof.
  intros Hmax Huninit Hnew Hwb Hs Hf. unfold LdapMessageReceiver_new in Hnew.
  rewrite uadd_ok in Hnew by (unfold isize_max, u64_max in *; lia).
  cbn [bind] in Hnew. injection Hnew as <-.
  apply recv_n_frames; try done. unfold rx_ok. cbn. rewrite Huninit by lia. lia.
Qed.

Lemma recv_delivers_all_messages_witness :
  recv_n 2 rx_example
    [Data [x30; x05; x02; x01; x07]; Data [x42; x00; x30; x05; x02]; Pend;
     Data [x01; x08; x42; x00]] =
    ([{| lm_id := 7; lm_payload := [x42; x00]; lm_encoded_size := 7 |};
      {| lm_id := 8; lm_payload := [x42; x00]; lm_encoded_size := 7 |}],
     Err Recv_ConnectionClosed).
Proof.
  apply (recv_delivers_all_messages 8 (fun n => replicate (Z.to_nat n) x00) _
    [[x30; x05; x02; x01; x07; x42; x00]; [x30; x05; x02; x01; x08; x42; x00]]).
  - split; apply Z.leb_le; reflexivity.
  - intros n Hn. unfold len. rewrite length_replicate. apply Z2Nat.id, Hn.
  - reflexivity.
  - by repeat constructor.
  - reflexivity.
  - by repeat constructor.
Defined.

(** The request that [encode] produces is one LDAP message whose id is the
    next one in the circle 1, ..., 127.  Its operation is a bind request that
    carries version 3, exactly the given name and exactly the given password;
    the encoder's buffers may hold anything from earlier requests. *)
Theorem bind_request_roundtrip (self : SimpleBindRequestEncoder) (bind_dn password rest : bytes) :
  sb_ok self -> len bind_dn + len password <= isize_max - 64 ->
  exists self' out body,
    SimpleBindRequestEncoder_encode (E := LdapRecvError) self bind_dn password = Ok (self', out) /\
    sb_ok self' /\ sb_message_id self' = id_after (sb_message_id self) /\
    LdapMessage_parse (out ++ rest) (len out) =
      Ok {| lm_id := sb_message_id self'; lm_payload := ber_item x60 body;
            lm_encoded_size := len out |} /\
    LdapSequence_parse_with_identifier (ber_item x60 body) 0x60 =
      Ok {| ls_data := body; ls_encoded_len := len (ber_item x60 body) |} /\
    BerInteger_parse body = Ok {| bi_value := 3; bi_encoded_len := 3 |} /\
    LdapSequence_parse_octet_string (drop 3 body) =
      Ok {| ls_data := bind_dn; ls_encoded_len := len (ber_item x04 bind_dn) |} /\
    LdapSequence_parse_with_identifier (drop (3 + length (ber_item x04 bind_dn)) body) 0x80 =
      Ok {| ls_data := password;
            ls_encoded_len := len body - 3 - len (ber_item x04 bind_dn) |}.
Proof.
  intros Hok Hlen.
  destruct (SimpleBindRequestEncoder_encode_spec (E := LdapRecvError) self bind_dn password Hok Hlen)
    as (self' & out & Henc & Hok' & Hid & Hout).
  exists self', out, (bind_request_body bind_dn password).
  set (body := bind_request_body bind_dn password) in *.
  pose proof (len_ber_item x04 bind_dn ltac:(len_lia)).
  pose proof (len_ber_item x80 password ltac:(len_lia)).
  assert (len body = 3 + len (ber_item x04 bind_dn) + len (ber_item x80 password)) as Hbody.
  { unfold body, bind_request_body. len_lia. }
  pose proof (len_ber_item x60 body ltac:(len_lia)).
  pose proof (len_ber_item x30 ([x02; x01; to_u8 (sb_message_id self')] ++ ber_item x60 body)
    ltac:(len_lia)) as Hmsg.
  rewrite <- Hout in Hmsg. split_and!; try done.
  - destruct Hok' as (Hrange & _). unfold MIN_MESSAGE_ID, MAX_MESSAGE_ID in Hrange.
    assert (u8 (to_u8 (sb_message_id self')) = sb_message_id self') as Hu8
      by (apply u8_to_u8_small; lia).
    rewrite Hout at 1. rewrite LdapMessage_parse_item by len_lia. by rewrite <- Hout, Hu8.
  - rewrite <- (app_nil_r (ber_item x60 body)), (LdapSequence_parse_item x60) by len_lia.
    by rewrite app_nil_r.
  - unfold BerInteger_parse, body, bind_request_body. cbn [app]. change 2 with (u8 x02).
    by rewrite BerInteger_parse_byte by (try done; len_lia).
  - unfold LdapSequence_parse_octet_string, body, bind_request_body. cbn [app drop].
    rewrite drop_0. by apply (LdapSequence_parse_item x04); len_lia.
  - unfold body, bind_request_body at 1. cbn [app drop Nat.add]. rewrite drop_app_length.
    rewrite <- (app_nil_r (ber_item x80 password)), (LdapSequence_parse_item x80) by len_lia.
    do 2 f_equal. fold body. lia.
Qed.

Lemma bind_request_roundtrip_witness :
  exists self' out body,
    SimpleBindRequestEncoder_encode (E := LdapRecvError) SimpleBindRequestEncoder_default
      (bs "cn=u") (bs "secret") = Ok (self', out) /\
    sb_message_id self' = 1 /\
    LdapMessage_parse (out ++ [x30]) (len out) =
      Ok {| lm_id := sb_message_id self'; lm_payload := ber_item x60 body;
            lm_encoded_size := len out |}.
Proof.
  destruct (bind_request_roundtrip SimpleBindRequestEncoder_default (bs "cn=u") (bs "secret") [x30])
    as (self' & out & body & Henc & _ & Hid & Hmsg & _).
  - by repeat split.
  - apply Z.leb_le. reflexivity.
  - by exists self', out, body.
Defined.

(** The answer to a bind request reports the credentials as valid exactly
    when the server's result code is 0, whatever the other components of the
    response say and whatever follows it; no response makes the handler
    panic. *)
Theorem handle_response_reports_code (op_data username password : bytes)
    (code : byte) (matched_dn msg extra rest : bytes) :
  len op_data <= isize_max ->
  u8 code < 128 -> u8 code <> 10 ->
  len (ldap_result_bytes code matched_dn msg ++ extra) <= isize_max ->
  handle_response op_data username password <> Panic /\
  handle_response (ber_item x61 (ldap_result_bytes code matched_dn msg ++ extra) ++ rest)
    username password =
    Ok (if u8 code =? 0 then Some (username, password) else None).
Proof.
  intros Hop Hc Hne Hlen. split; [by apply handle_response_no_panic|].
  unfold handle_response, LdapSequence_parse_bind_response. change 0x61 with (u8 x61).
  rewrite LdapSequence_parse_item by done. cbn [map_err bind ls_data].
  rewrite LdapResult_parse_bytes by done. cbn [map_err bind]. unfold LdapResult_is_success.
  cbn [lr_result_code]. by destruct (u8 code =? 0).
Qed.

Lemma handle_response_reports_code_witness :
  handle_response (ber_item x61 (ldap_result_bytes x31 [] (bs "no") ++ []) ++ [])
    (bs "u") (bs "p") = Ok None.
Proof.
  refine (proj2 (handle_response_reports_code [] (bs "u") (bs "p") x31 [] (bs "no") [] [] _ _ _ _)).
  - apply Z.leb_le. reflexivity.
  - apply Z.ltb_lt. reflexivity.
  - apply Z.eqb_neq. reflexivity.
  - apply Z.leb_le. reflexivity.
Defined.

(** An unsolicited notification makes the client reconnect exactly when its
    name is the OID of the notice of disconnection (RFC 4511 4.4.1); no
    notification makes the handler panic. *)
Theorem unsolicited_notification_reconnects (op_data : bytes)
    (code : byte) (matched_dn msg oid extra rest : bytes) :
  len op_data <= isize_max ->
  u8 code < 128 -> u8 code <> 10 -> len oid <= isize_max ->
  len (ldap_result_bytes code matched_dn msg ++ ber_item x8a oid ++ extra) <= isize_max ->
  handle_unsolicited_notification op_data <> Panic /\
  handle_unsolicited_notification
    (ber_item x78 (ldap_result_bytes code matched_dn msg ++ ber_item x8a oid ++ extra) ++ rest) =
    Ok (bool_decide (oid = bs "1.3.6.1.4.1.1466.20036")).
Proof.
  intros Hop Hc Hne Hoid Hlen. split; [by apply handle_unsolicited_notification_no_panic|].
  unfold handle_unsolicited_notification, LdapSequence_parse_extended_response.
  change 0x78 with (u8 x78). rewrite LdapSequence_parse_item by done.
  cbn [map_err bind ls_data]. rewrite LdapResult_parse_bytes by done.
  cbn [map_err bind lr_encoded_len]. rewrite slice_from_app. cbn [bind].
  unfold LdapSequence_parse_extended_response_oid. change 0x8a with (u8 x8a).
  by rewrite LdapSequence_parse_item by done.
Qed.

Lemma unsolicited_notification_reconnects_witness :
  handle_unsolicited_notification
    (ber_item x78 (ldap_result_bytes x34 [] [] ++
       ber_item x8a (bs "1.3.6.1.4.1.1466.20036") ++ []) ++ []) = Ok true.
Proof.
  refine (proj2 (unsolicited_notification_reconnects [] x34 [] []
    (bs "1.3.6.1.4.1.1466.20036") [] [] _ _ _ _ _)).
  - apply Z.leb_le. reflexivity.
  - apply Z.ltb_lt. reflexivity.
  - apply Z.eqb_neq. reflexivity.
  - apply Z.leb_le. reflexivity.
  - apply Z.leb_le. reflexivity.
Defined.
