(* ===== verification/QuicFrame.v ===== *)
(** * QUIC variable-length integers and frames

    Models [lib/vey-codec/src/quic/var_int.rs] and
    [lib/vey-codec/src/quic/frame/] (ACK and CRYPTO frames). *)

From Stdlib Require Import ZArith Lia Strings.Byte.
From stdpp Require Import base list.
From S2P Require Import Prelude.

(** ** Variable-length integers *)

Record VarInt : Type := { vi_value : Z; vi_encoded_len : Z }.

Definition VarInt_parse {E} (data : bytes) : res E (option VarInt) :=
  if len data =? 0 then Ok None
  else
    let? b0 := index data 0 in
    let value0 := to_u8 (Z.land (u8 b0) 0x3F) in
    match Z.shiftr (u8 b0) 6 with
    | 0 => Ok (Some {| vi_value := u8 value0; vi_encoded_len := 1 |})
    | 1 =>
        if len data <? 2 then Ok None
        else
          let? b1 := index data 1 in
          Ok (Some {| vi_value := from_be [value0; b1]; vi_encoded_len := 2 |})
    | 2 =>
        if len data <? 4 then Ok None
        else
          let? b1 := index data 1 in
          let? b2 := index data 2 in
          let? b3 := index data 3 in
          Ok (Some {| vi_value := from_be [value0; b1; b2; b3]; vi_encoded_len := 4 |})
    | 3 =>
        if len data <? 8 then Ok None
        else
          let? b1 := index data 1 in
          let? b2 := index data 2 in
          let? b3 := index data 3 in
          let? b4 := index data 4 in
          let? b5 := index data 5 in
          let? b6 := index data 6 in
          let? b7 := index data 7 in
          Ok (Some {| vi_value := from_be [value0; b1; b2; b3; b4; b5; b6; b7];
                      vi_encoded_len := 8 |})
    | _ => Panic
    end.

Record VarIntEncoder : Type := { vie_buf : bytes }.

Definition VarIntEncoder_default : VarIntEncoder := {| vie_buf := replicate 8 x00 |}.

Definition VarIntEncoder_encode_u16 {E} (self : VarIntEncoder) (value : Z)
    : res E (VarIntEncoder * bytes) :=
  let high_byte := to_u8 (Z.shiftr value 8) in
  let low_byte := to_u8 (Z.land value 0xff) in
  if negb (Z.land (u8 high_byte) 0xC0 =? 0) then
    let? buf := set_index (vie_buf self) 0 x80 in
    let? buf := set_index buf 1 x00 in
    let? buf := set_index buf 2 high_byte in
    let? buf := set_index buf 3 low_byte in
    let? out := slice buf 0 4 in
    Ok ({| vie_buf := buf |}, out)
  else if negb (u8 high_byte =? 0) || negb (Z.land (u8 low_byte) 0xC0 =? 0) then
    let? buf := set_index (vie_buf self) 0 (to_u8 (Z.lor (u8 high_byte) 0x40)) in
    let? buf := set_index buf 1 low_byte in
    let? out := slice buf 0 2 in
    Ok ({| vie_buf := buf |}, out)
  else
    let? buf := set_index (vie_buf self) 0 low_byte in
    let? out := slice buf 0 1 in
    Ok ({| vie_buf := buf |}, out).

(** ** Frames *)

Inductive FrameParseError : Type :=
| Frame_InvalidFrameType (n : Z)
| Frame_NotEnoughData
| Frame_TooBigOffsetValue (n : Z)
| Frame_OutOfOrderFrame
| Frame_MalformedFrame.

(** [read_var_int!]: the integer at an offset, and the offset after it. *)
Definition read_var_int (data : bytes) (offset : Z) : res FrameParseError (VarInt * Z) :=
  let? left := slice_from data offset in
  let? v := VarInt_parse left in
  match v with
  | None => Err Frame_NotEnoughData
  | Some v =>
      let? offset := uadd offset (vi_encoded_len v) in
      Ok (v, offset)
  end.

Record AckRange : Type := { ar_gap : VarInt; ar_length : VarInt; ar_encoded_len : Z }.

Definition AckRange_parse (data : bytes) : res FrameParseError AckRange :=
  let? gap := VarInt_parse data in
  match gap with
  | None => Err Frame_NotEnoughData
  | Some gap =>
      let offset := vi_encoded_len gap in
      let? '(length, encoded_len) := read_var_int data offset in
      Ok {| ar_gap := gap; ar_length := length; ar_encoded_len := encoded_len |}
  end.

Record EcnCounts : Type := {
  ecn_ect0 : VarInt;
  ecn_ect1 : VarInt;
  ecn_ce : VarInt;
  ecn_encoded_len : Z
}.

Definition EcnCounts_parse (data : bytes) : res FrameParseError EcnCounts :=
  let? '(ect0, offset) := read_var_int data 0 in
  let? '(ect1, offset) := read_var_int data offset in
  let? '(ce, offset) := read_var_int data offset in
  Ok {| ecn_ect0 := ect0; ecn_ect1 := ect1; ecn_ce := ce; ecn_encoded_len := offset |}.

Record AckFrame : Type := {
  ack_largest_ack : VarInt;
  ack_delay : VarInt;
  ack_first_ack_range : VarInt;
  ack_ranges : list AckRange;
  ack_ecn_counts : option EcnCounts;
  ack_encoded_len : Z
}.

(** The [for] loop over the ranges. *)
Fixpoint ack_ranges_loop (count : nat) (data : bytes) (offset : Z) (ranges : list AckRange)
    : res FrameParseError (list AckRange * Z) :=
  match count with
  | O => Ok (ranges, offset)
  | S count' =>
      let? left := slice_from data offset in
      let? r := AckRange_parse left in
      let? offset := uadd offset (ar_encoded_len r) in
      ack_ranges_loop count' data offset (ranges ++ [r])
  end.

Definition AckFrame_parse (data : bytes) (ecn : bool) : res FrameParseError AckFrame :=
  let? '(largest_ack, offset) := read_var_int data 0 in
  let? '(delay, offset) := read_var_int data offset in
  let? '(ack_range_count, offset) := read_var_int data offset in
  let? '(first_ack_range, offset) := read_var_int data offset in
  let ack_range_count := vi_value ack_range_count in
  let? room := usub (len data) offset in
  if room / 2 <? ack_range_count then Err Frame_NotEnoughData
  else
    let? '(ranges, offset) := ack_ranges_loop (Z.to_nat ack_range_count) data offset [] in
    if ecn then
      let? left := slice_from data offset in
      let? counts := EcnCounts_parse left in
      let? encoded_len := uadd offset (ecn_encoded_len counts) in
      Ok {| ack_largest_ack := largest_ack; ack_delay := delay;
            ack_first_ack_range := first_ack_range; ack_ranges := ranges;
            ack_ecn_counts := Some counts; ack_encoded_len := encoded_len |}
    else
      Ok {| ack_largest_ack := largest_ack; ack_delay := delay;
            ack_first_ack_range := first_ack_range; ack_ranges := ranges;
            ack_ecn_counts := None; ack_encoded_len := offset |}.

Record CryptoFrame : Type := { cf_stream_offset : Z; cf_data : bytes; cf_encoded_len : Z }.

Definition CryptoFrame_new (stream_offset : Z) (data : bytes) : CryptoFrame :=
  {| cf_stream_offset := stream_offset; cf_data := data; cf_encoded_len := 0 |}.

Definition CryptoFrame_parse (data : bytes) : res FrameParseError CryptoFrame :=
  let? v := VarInt_parse data in
  match v with
  | None => Err Frame_NotEnoughData
  | Some stream_offset =>
      let offset := vi_encoded_len stream_offset in
      (* [usize::try_from] of a [u64] succeeds on 64-bit targets *)
      if usize_max <? vi_value stream_offset then
        Err (Frame_TooBigOffsetValue (vi_value stream_offset))
      else
        let? '(length, offset) := read_var_int data offset in
        let? fin := uadd offset (vi_value length) in
        if len data <? fin then Err Frame_NotEnoughData
        else
          let? d := slice data offset fin in
          Ok {| cf_stream_offset := vi_value stream_offset; cf_data := d; cf_encoded_len := fin |}
  end.

(** ** Integers: the parser against RFC 9000 16 *)

Section VarInts.

(** The two most significant bits of the first byte give the length (1, 2, 4 or
    8 bytes), the other bits the big endian value. *)
Definition var_int_size (b0 : byte) : Z := 2 ^ (u8 b0 / 64).

Definition var_int_spec (data : bytes) : option VarInt :=
  match data with
  | [] => None
  | b0 :: _ =>
      let n := var_int_size b0 in
      if len data <? n then None
      else Some {| vi_value := from_be (take (Z.to_nat n) data) mod 2 ^ (8 * n - 2);
                   vi_encoded_len := n |}
  end.

Lemma var_int_value b0 l :
  u8 (to_u8 (Z.land (u8 b0) 0x3F)) * 256 ^ len l + from_be l =
  (u8 b0 * 256 ^ len l + from_be l) mod (64 * 256 ^ len l).
Proof.
  pose proof (u8_range b0) as Hb. pose proof (from_be_range l) as Hl.
  change 0x3F with (Z.ones 6). rewrite Z.land_ones by lia. change (2 ^ 6) with 64.
  pose proof (Z.mod_pos_bound (u8 b0) 64 ltac:(lia)).
  rewrite u8_to_u8_small by lia. pose proof (Z.div_mod (u8 b0) 64 ltac:(lia)) as Hdm.
  apply (Z.mod_unique _ _ (u8 b0 / 64)); [left; nia|]. nia.
Qed.

Lemma VarInt_parse_eq {E} data : VarInt_parse (E := E) data = Ok (var_int_spec data).
Proof.
  destruct data as [|b0 l]; [done|]. unfold VarInt_parse, var_int_spec, var_int_size.
  destruct (Z.eqb_spec (len (b0 :: l)) 0); [len_lia|].
  change (index (b0 :: l) 0) with (Ok (E := E) b0). cbn [bind].
  pose proof (u8_range b0) as Hb. rewrite Z.shiftr_div_pow2 by lia. change (2 ^ 6) with 64.
  assert (u8 b0 / 64 = 0 \/ u8 b0 / 64 = 1 \/ u8 b0 / 64 = 2 \/ u8 b0 / 64 = 3) as Hq.
  { pose proof (Z.div_pos (u8 b0) 64). pose proof (Z.div_lt_upper_bound (u8 b0) 64 4). lia. }
  repeat destruct Hq as [Hq|Hq]; rewrite Hq.
  - destruct (Z.ltb_spec (len (b0 :: l)) (2 ^ 0)); [cbn in *; len_lia|].
    pose proof (var_int_value b0 []) as Hv. cbn in Hv. rewrite !Z.mul_1_r, !Z.add_0_r in Hv.
    rewrite Hv. done.
  - change (2 ^ 1) with 2. destruct (Z.ltb_spec (len (b0 :: l)) 2); [done|].
    destruct l as [|b1 l]; [len_lia|].
    change (index (b0 :: b1 :: l) 1) with (Ok (E := E) b1). cbn [bind]. do 3 f_equal.
    rewrite from_be_cons, var_int_value, <- from_be_cons. done.
  - change (2 ^ 2) with 4. destruct (Z.ltb_spec (len (b0 :: l)) 4); [done|].
    destruct l as [|b1 [|b2 [|b3 l]]]; try len_lia.
    change (index ?d 1) with (Ok (E := E) b1).
    change (index ?d 2) with (Ok (E := E) b2).
    change (index ?d 3) with (Ok (E := E) b3).
    cbn [bind].
    do 3 f_equal. rewrite from_be_cons, var_int_value, <- from_be_cons. done.
  - change (2 ^ 3) with 8. destruct (Z.ltb_spec (len (b0 :: l)) 8); [done|].
    destruct l as [|b1 [|b2 [|b3 [|b4 [|b5 [|b6 [|b7 l]]]]]]]; try len_lia.
    change (index ?d 1) with (Ok (E := E) b1).
    change (index ?d 2) with (Ok (E := E) b2).
    change (index ?d 3) with (Ok (E := E) b3).
    change (index ?d 4) with (Ok (E := E) b4).
    change (index ?d 5) with (Ok (E := E) b5).
    change (index ?d 6) with (Ok (E := E) b6).
    change (index ?d 7) with (Ok (E := E) b7).
    cbn [bind].
    do 3 f_equal. rewrite from_be_cons, var_int_value, <- from_be_cons. done.
Qed.

Lemma var_int_spec_bounds data v :
  var_int_spec data = Some v ->
  1 <= vi_encoded_len v <= 8 /\ vi_encoded_len v <= len data /\ 0 <= vi_value v < 2 ^ 62.
Proof.
  destruct data as [|b0 l]; [done|]. unfold var_int_spec, var_int_size.
  pose proof (u8_range b0) as Hb.
  assert (u8 b0 / 64 = 0 \/ u8 b0 / 64 = 1 \/ u8 b0 / 64 = 2 \/ u8 b0 / 64 = 3) as Hq.
  { pose proof (Z.div_pos (u8 b0) 64). pose proof (Z.div_lt_upper_bound (u8 b0) 64 4). lia. }
  destruct (Z.ltb_spec (len (b0 :: l)) (2 ^ (u8 b0 / 64))); [done|]. intros [= <-].
  cbn [vi_value vi_encoded_len].
  repeat destruct Hq as [Hq|Hq]; rewrite Hq in *; cbn [Z.pow Z.pow_pos Pos.iter] in *;
    match goal with |- context [?x mod ?m] => pose proof (Z.mod_pos_bound x m ltac:(lia)) end; lia.
Qed.

End VarInts.

Section Encoder.

(** The shortest encoding of a 16 bit number. *)
Definition var_int_bytes (v : Z) : bytes :=
  if v <? 64 then [to_u8 v]
  else if v <? 16384 then [to_u8 (64 + v / 256); to_u8 (v mod 256)]
  else [x80; x00; to_u8 (v / 256); to_u8 (v mod 256)].

Lemma top_bits z : 0 <= z < 256 -> (Z.land z 0xC0 =? 0) = (z <? 64).
Proof.
  intros. apply Bool.eqb_prop.
  apply (u8_forall (fun z => Bool.eqb (Z.land z 0xC0 =? 0) (z <? 64))); [|done].
  vm_compute. reflexivity.
Qed.

Lemma or_0x40 z : 0 <= z < 64 -> Z.lor z 0x40 = 64 + z.
Proof.
  intros. apply Z.eqb_eq. pose proof (u8_forall (fun z => (64 <=? z) || (Z.lor z 0x40 =? 64 + z))) as H0.
  specialize (H0 ltac:(vm_compute; reflexivity) z ltac:(lia)). cbn beta in H0.
  by destruct (Z.leb_spec 64 z); [lia|].
Qed.

Lemma VarIntEncoder_encode_u16_spec {E} self v :
  length (vie_buf self) = 8%nat -> 0 <= v <= u16_max ->
  exists self', VarIntEncoder_encode_u16 (E := E) self v = Ok (self', var_int_bytes v) /\
    length (vie_buf self') = 8%nat.
Proof.
  intros Hbuf Hv. destruct self as [buf]. cbn [vie_buf] in *. unfold u16_max in Hv.
  do 8 (destruct buf as [|? buf]; [done|]). destruct buf; [|done].
  unfold VarIntEncoder_encode_u16, var_int_bytes. cbn [vie_buf].
  rewrite Z.shiftr_div_pow2 by lia. change 0xff with (Z.ones 8). rewrite Z.land_ones by lia.
  change (2 ^ 8) with 256. pose proof (Z.mod_pos_bound v 256 ltac:(lia)) as Hlo.
  pose proof (Z.div_mod v 256 ltac:(lia)) as Hdm.
  assert (0 <= v / 256 < 256) as Hhi
    by (split; [apply Z.div_pos; lia|apply Z.div_lt_upper_bound; lia]).
  rewrite !u8_to_u8_small, !top_bits by lia.
  destruct (Z.ltb_spec (v / 256) 64), (Z.eqb_spec (v / 256) 0), (Z.ltb_spec (v mod 256) 64),
    (Z.ltb_spec v 64), (Z.ltb_spec v 16384); try lia; cbn [negb orb];
    rewrite ?or_0x40 by lia; eexists; (split; [|shelve]).
  all: try reflexivity.
  all: try (rewrite Z.mod_small by lia; reflexivity).
  Unshelve.
  all: done.
Qed.

Lemma var_int_spec_bytes v rest :
  0 <= v <= u16_max ->
  var_int_spec (var_int_bytes v ++ rest) =
    Some {| vi_value := v; vi_encoded_len := len (var_int_bytes v) |}.
Proof.
  intros Hv. unfold u16_max in Hv. unfold var_int_bytes.
  pose proof (Z.mod_pos_bound v 256 ltac:(lia)) as Hlo. pose proof (Z.div_mod v 256 ltac:(lia)) as Hdm.
  destruct (Z.ltb_spec v 64); [|destruct (Z.ltb_spec v 16384)];
    cbn [app var_int_spec]; unfold var_int_size.
  - rewrite u8_to_u8_small by lia. rewrite Z.div_small by lia. change (2 ^ 0) with 1.
    destruct (Z.ltb_spec (len (to_u8 v :: rest)) 1); [len_lia|].
    change (take (Z.to_nat 1) (to_u8 v :: rest)) with [to_u8 v].
    change (from_be [to_u8 v]) with (u8 (to_u8 v)). rewrite u8_to_u8_small by lia.
    change (2 ^ (8 * 1 - 2)) with 64. by rewrite Z.mod_small by lia.
  - rewrite u8_to_u8_small by lia.
    assert ((64 + v / 256) / 64 = 1) as -> by (symmetry; apply Z.div_unique with (v / 256); lia).
    change (2 ^ 1) with 2. destruct (Z.ltb_spec (len (to_u8 (64 + v / 256) :: to_u8 (v mod 256) :: rest)) 2);
      [len_lia|].
    change (take (Z.to_nat 2) _) with [to_u8 (64 + v / 256); to_u8 (v mod 256)].
    do 2 f_equal. unfold from_be. cbn [from_be_acc]. rewrite !u8_to_u8_small by lia.
    change (2 ^ (8 * 2 - 2)) with 16384. symmetry. apply Z.mod_unique with 1; lia.
  - change (u8 x80 / 64) with 2. change (2 ^ 2) with 4.
    destruct (Z.ltb_spec (len (x80 :: x00 :: to_u8 (v / 256) :: to_u8 (v mod 256) :: rest)) 4); [len_lia|].
    change (take (Z.to_nat 4) _) with [x80; x00; to_u8 (v / 256); to_u8 (v mod 256)].
    assert (0 <= v / 256 < 256) by lia.
    do 2 f_equal. unfold from_be. cbn [from_be_acc]. rewrite !u8_to_u8_small by lia.
    change (u8 x80) with 128. change (u8 x00) with 0. change (2 ^ (8 * 4 - 2)) with 1073741824.
    symmetry. apply Z.mod_unique with 2; lia.
Qed.

End Encoder.

(** ** Frames stay inside the packet *)

Section Frames.

Lemma VarInt_parse_wp {E} data (Q : option VarInt -> Prop) (R : E -> Prop) :
  Q None ->
  (forall v, 1 <= vi_encoded_len v <= 8 -> vi_encoded_len v <= len data ->
     0 <= vi_value v < 2 ^ 62 -> Q (Some v)) ->
  wp (VarInt_parse data) Q R.
Proof.
  intros HN HS. rewrite VarInt_parse_eq. cbn [wp].
  destruct (var_int_spec data) as [v|] eqn:Hv; [|done].
  apply var_int_spec_bounds in Hv as (? & ? & ?). by apply HS.
Qed.

Lemma read_var_int_wp data o (Q : VarInt * Z -> Prop) (R : FrameParseError -> Prop) :
  len data <= isize_max -> 0 <= o <= len data -> R Frame_NotEnoughData ->
  (forall v o', o < o' <= len data -> 0 <= vi_value v < 2 ^ 62 -> Q (v, o')) ->
  wp (read_var_int data o) Q R.
Proof.
  intros Hlen Ho HR HQ. unfold read_var_int. wp_step. wp_step. wp_step. apply VarInt_parse_wp; [done|].
  intros v Hv1 Hv2 Hv3. wp_go. apply HQ; len_lia.
Qed.

Ltac frame_step :=
  lazymatch goal with
  | |- wp (read_var_int _ _) _ _ =>
      apply read_var_int_wp; [len_lia|len_lia|exact I|intros ? ? ? ?]; cbv beta iota
  | |- wp (VarInt_parse _) _ _ => apply VarInt_parse_wp; [exact I|intros ? ? ? ?]
  | _ => wp_step; bool_to_prop
  end.

Lemma AckRange_parse_wp data :
  len data <= isize_max ->
  wp (AckRange_parse data) (fun r => 2 <= ar_encoded_len r <= len data) (fun _ => True).
Proof. intros Hlen. unfold AckRange_parse. repeat frame_step. cbn. lia. Qed.

Lemma EcnCounts_parse_wp data :
  len data <= isize_max ->
  wp (EcnCounts_parse data) (fun r => 3 <= ecn_encoded_len r <= len data) (fun _ => True).
Proof. intros Hlen. unfold EcnCounts_parse. repeat frame_step. cbn. len_lia. Qed.

Lemma ack_ranges_loop_wp count data o ranges :
  len data <= isize_max -> 0 <= o <= len data ->
  wp (ack_ranges_loop count data o ranges)
    (fun x => o + 2 * Z.of_nat count <= snd x <= len data /\
              length (fst x) = (length ranges + count)%nat) (fun _ => True).
Proof.
  intros Hlen. revert o ranges. induction count as [|count IH]; intros o ranges Ho; cbn [ack_ranges_loop].
  - cbn. lia.
  - wp_go. eapply wp_mono; [apply AckRange_parse_wp; len_lia| |done]. intros r Hr. cbn beta in Hr |- *.
    wp_go. eapply wp_mono; [apply IH; len_lia| |done]. cbn beta. intros x [Hx1 Hx2].
    rewrite length_app in Hx2. cbn [length] in Hx2. lia.
Qed.

Lemma AckFrame_parse_wp data ecn :
  len data <= isize_max ->
  wp (AckFrame_parse data ecn)
    (fun f => 4 + 2 * len (ack_ranges f) <= ack_encoded_len f <= len data /\
              (ecn = true <-> ack_ecn_counts f <> None)) (fun _ => True).
Proof.
  intros Hlen. unfold AckFrame_parse. repeat frame_step; try exact I.
  eapply wp_mono; [apply ack_ranges_loop_wp; len_lia| |done]. intros [ranges o9] [Ho9 Hl].
  cbn in Ho9, Hl |- *. destruct ecn.
  - wp_go. eapply wp_mono; [apply EcnCounts_parse_wp; len_lia| |done]. intros e He. cbn beta in He |- *.
    wp_go. cbn. unfold len in *. rewrite Hl. split; [|done]. 
    lia.
  - wp_go. cbn. unfold len at 1. rewrite Hl. split; [|done]. lia.
Qed.

(** The data of a CRYPTO frame is a piece of the packet, and the frame ends
    with it. *)
Lemma CryptoFrame_parse_wp data :
  len data <= isize_max ->
  wp (CryptoFrame_parse data)
    (fun f => 0 <= cf_stream_offset f < 2 ^ 62 /\
              exists header rest, data = header ++ cf_data f ++ rest /\ 2 <= len header /\
                cf_encoded_len f = len header + len (cf_data f))
    (fun _ => True).
Proof.
  intros Hlen. unfold CryptoFrame_parse. repeat frame_step; try exact I.
  cbn [cf_stream_offset cf_data cf_encoded_len]. split; [lia|].
  exists (take (Z.to_nat o') data), (drop (Z.to_nat (o' + vi_value v0)) data). split_and!; [|len_lia..].
  subst s. replace (Z.to_nat (o' + vi_value v0)) with
    (Z.to_nat o' + Z.to_nat (o' + vi_value v0 - o'))%nat by lia.
  by rewrite <- drop_drop, take_drop, take_drop.
Qed.

Lemma read_var_int_bytes pre v rest data :
  data = pre ++ var_int_bytes v ++ rest -> 0 <= v <= u16_max -> len data <= isize_max ->
  read_var_int data (len pre) =
    Ok ({| vi_value := v; vi_encoded_len := len (var_int_bytes v) |}, len (pre ++ var_int_bytes v)).
Proof.
  intros Hd Hv Hlen. unfold read_var_int. rewrite (slice_from_at pre _ data _ Hd) by done. cbn [bind].
  rewrite VarInt_parse_eq, var_int_spec_bytes by done. cbn [bind vi_encoded_len].
  rewrite uadd_ok by (rewrite Hd in Hlen; len_lia). cbn [bind]. by rewrite len_app.
Qed.

Lemma CryptoFrame_parse_bytes off d rest :
  0 <= off <= u16_max -> len d <= u16_max ->
  let data := var_int_bytes off ++ var_int_bytes (len d) ++ d ++ rest in
  len data <= isize_max ->
  CryptoFrame_parse data =
    Ok {| cf_stream_offset := off; cf_data := d;
          cf_encoded_len := len (var_int_bytes off) + len (var_int_bytes (len d)) + len d |}.
Proof.
  intros Ho Hd data Hlen. unfold CryptoFrame_parse.
  rewrite VarInt_parse_eq. unfold data at 1. rewrite var_int_spec_bytes by done. cbn [bind vi_value vi_encoded_len].
  destruct (Z.ltb_spec usize_max off); [unfold usize_max, u64_max, u16_max in *; lia|].
  rewrite (read_var_int_bytes (var_int_bytes off) (len d) (d ++ rest)) by (done || len_lia).
  cbn [bind vi_value].
  assert (len data = len (var_int_bytes off) + len (var_int_bytes (len d)) + len d + len rest) as Hl
    by (unfold data; len_lia).
  rewrite len_app. rewrite uadd_ok by len_lia. cbn [bind].
  destruct (Z.ltb_spec (len data)
    (len (var_int_bytes off) + len (var_int_bytes (len d)) + len d)); [len_lia|].
  rewrite (slice_at (var_int_bytes off ++ var_int_bytes (len d)) d rest); [done| |by rewrite len_app|done].
  unfold data. by rewrite <- app_assoc.
Qed.

(** An ACK frame without its type, from its fields. *)
Definition ack_range_bytes (r : Z * Z) : bytes := var_int_bytes (fst r) ++ var_int_bytes (snd r).

Definition ack_bytes (largest delay first : Z) (ranges : list (Z * Z)) : bytes :=
  var_int_bytes largest ++ var_int_bytes delay ++ var_int_bytes (len ranges) ++
  var_int_bytes first ++ concat (map ack_range_bytes ranges).

Definition is_u16 (v : Z) : Prop := 0 <= v <= u16_max.

Lemma var_int_bytes_len v : 1 <= len (var_int_bytes v).
Proof. unfold var_int_bytes. repeat case_match; len_lia. Qed.

Lemma ack_ranges_bytes_len ranges : 2 * len ranges <= len (concat (map ack_range_bytes ranges)).
Proof.
  induction ranges as [|[g l] ranges IH]; cbn [map concat]; [done|].
  unfold ack_range_bytes at 1. cbn [fst snd].
  pose proof (var_int_bytes_len g). pose proof (var_int_bytes_len l). len_lia.
Qed.

Lemma AckRange_parse_bytes gap l rest :
  is_u16 gap -> is_u16 l -> len (ack_range_bytes (gap, l) ++ rest) <= isize_max ->
  exists r, AckRange_parse (ack_range_bytes (gap, l) ++ rest) = Ok r /\
    ar_encoded_len r = len (ack_range_bytes (gap, l)).
Proof.
  unfold ack_range_bytes. cbn [fst snd]. rewrite <- app_assoc. intros Hg Hl Hlen. unfold AckRange_parse.
  rewrite VarInt_parse_eq, var_int_spec_bytes by done. cbn [bind vi_encoded_len].
  rewrite (read_var_int_bytes (var_int_bytes gap) l rest) by done. cbn [bind]. by eexists.
Qed.

Lemma ack_ranges_loop_bytes ranges rest data pre acc :
  Forall (fun r => is_u16 (fst r) /\ is_u16 (snd r)) ranges -> len data <= isize_max ->
  data = pre ++ concat (map ack_range_bytes ranges) ++ rest ->
  exists rs, ack_ranges_loop (length ranges) data (len pre) acc =
    Ok (rs, len (pre ++ concat (map ack_range_bytes ranges))).
Proof.
  intros Hr Hlen. revert pre acc. induction Hr as [|[g l] ranges [Hg Hl] Hr IH]; intros pre acc Hd;
    cbn [length ack_ranges_loop map concat].
  { exists acc. by rewrite app_nil_r. }
  cbn [map concat] in Hd. rewrite <- app_assoc in Hd. rewrite (slice_from_at pre _ data _ Hd) by done. cbn [bind].
  destruct (AckRange_parse_bytes g l (concat (map ack_range_bytes ranges) ++ rest)) as (r & -> & Hel);
    [done|done|rewrite Hd in Hlen; len_lia|]. cbn [bind].
  rewrite Hel, uadd_ok by (rewrite Hd in Hlen; len_lia). cbn [bind].
  destruct (IH (pre ++ ack_range_bytes (g, l)) (acc ++ [r])) as [rs Hrs].
  { by rewrite Hd, <- app_assoc. }
  exists rs. by rewrite <- len_app, Hrs, <- app_assoc.
Qed.

Lemma AckFrame_parse_bytes largest delay first ranges rest :
  is_u16 largest -> is_u16 delay -> is_u16 first -> len ranges <= u16_max ->
  Forall (fun r => is_u16 (fst r) /\ is_u16 (snd r)) ranges ->
  len (ack_bytes largest delay first ranges ++ rest) <= isize_max ->
  exists f, AckFrame_parse (ack_bytes largest delay first ranges ++ rest) false = Ok f /\
    ack_encoded_len f = len (ack_bytes largest delay first ranges).
Proof.
  intros H1 H2 H3 H4 Hr. unfold ack_bytes. rewrite <- !app_assoc.
  set (rb := concat (map ack_range_bytes ranges)). set (data := var_int_bytes largest ++ _). intros Hlen.
  unfold AckFrame_parse.
  change 0 with (len (@nil byte)) at 1.
  rewrite (read_var_int_bytes [] largest _ data eq_refl) by done. cbn [bind app].
  rewrite (read_var_int_bytes _ delay _ data eq_refl) by done. cbn [bind].
  rewrite (read_var_int_bytes _ (len ranges) (var_int_bytes first ++ rb ++ rest) data);
    [|unfold data; by rewrite <- app_assoc|unfold is_u16; len_lia|done]. cbn [bind].
  rewrite (read_var_int_bytes _ first (rb ++ rest) data);
    [|unfold data; by rewrite <- !app_assoc|done|done]. cbn [bind vi_value].
  set (pre := ((_ ++ _) ++ _) ++ _). assert (data = pre ++ rb ++ rest) as Hd
    by (unfold data, pre; by rewrite <- !app_assoc).
  pose proof (ack_ranges_bytes_len ranges) as Hrb. fold rb in Hrb.
  rewrite usub_ok by (rewrite Hd; len_lia). cbn [bind].
  destruct (Z.ltb_spec ((len data - len pre) / 2) (len ranges)) as [Hlt|_].
  { exfalso. assert (len ranges <= (len data - len pre) / 2); [|lia].
    apply Z.div_le_lower_bound; [lia|]. rewrite Hd. len_lia. }
  replace (Z.to_nat (len ranges)) with (length ranges) by (unfold len; lia).
  destruct (ack_ranges_loop_bytes ranges rest data pre [] Hr Hlen Hd) as [rs ->]. cbn [bind].
  eexists. split; [reflexivity|]. cbn [ack_encoded_len]. fold rb. unfold pre. by rewrite <- !app_assoc.
Qed.

End Frames.

(** ** Properties *)

(** Reading a variable-length integer is RFC 9000 section 16 on every input:
    the length is given by the two high bits of the first byte, the value by
    the remaining bits in big endian order; it never panics (the
    [unreachable!] arm is unreachable). *)
Theorem var_int_parse_rfc9000 (data : bytes) :
  VarInt_parse (E := False) data = Ok (var_int_spec data).
Proof. apply VarInt_parse_eq. Qed.

(** Every 16 bit number that the encoder writes is read back with the length
    of its encoding, whatever follows it and whatever the encoder's buffer held
    before. *)
Theorem var_int_u16_roundtrip (self : VarIntEncoder) (v : Z) (rest : bytes) :
  length (vie_buf self) = 8%nat -> 0 <= v <= u16_max ->
  exists self' out,
    VarIntEncoder_encode_u16 (E := False) self v = Ok (self', out) /\
    length (vie_buf self') = 8%nat /\
    VarInt_parse (E := False) (out ++ rest) =
      Ok (Some {| vi_value := v; vi_encoded_len := len out |}).
Proof.
  intros Hbuf Hv. destruct (VarIntEncoder_encode_u16_spec (E := False) self v Hbuf Hv) as (self' & He & Hb).
  exists self', (var_int_bytes v). split_and!; [done..|]. by rewrite VarInt_parse_eq, var_int_spec_bytes.
Qed.

Lemma var_int_u16_roundtrip_witness :
  exists self' out,
    VarIntEncoder_encode_u16 (E := False) VarIntEncoder_default 0x3FFF = Ok (self', out) /\
    VarInt_parse (E := False) (out ++ [x07]) =
      Ok (Some {| vi_value := 0x3FFF; vi_encoded_len := len out |}).
Proof.
  destruct (var_int_u16_roundtrip VarIntEncoder_default 0x3FFF [x07] eq_refl)
    as (self' & out & He & _ & Hp).
  - split; apply Z.leb_le; reflexivity.
  - by exists self', out.
Defined.

(** No packet content makes the frame parsers panic.  A parsed ACK frame ends
    inside the packet and has at most as many ranges as fit into it; a parsed
    CRYPTO frame carries a piece of the packet that directly precedes its end. *)
Theorem frames_inside_packet (data : bytes) :
  len data <= isize_max ->
  (forall ecn, match AckFrame_parse data ecn with
   | Ok f => 4 + 2 * len (ack_ranges f) <= ack_encoded_len f <= len data /\
             (ecn = true <-> ack_ecn_counts f <> None)
   | Err _ => True
   | Panic => False
   end) /\
  match CryptoFrame_parse data with
  | Ok f => 0 <= cf_stream_offset f < 2 ^ 62 /\
            exists header rest, data = header ++ cf_data f ++ rest /\ 2 <= len header /\
              cf_encoded_len f = len header + len (cf_data f)
  | Err _ => True
  | Panic => False
  end.
Proof.
  intros Hlen. split; [intros ecn; by apply AckFrame_parse_wp|by apply CryptoFrame_parse_wp].
Qed.

Lemma frames_inside_packet_witness :
  exists header rest, [x00; x02; xaa; xbb; x00] = header ++ [xaa; xbb] ++ rest /\ 2 <= len header /\
    4 = len header + 2.
Proof.
  exact (proj2 (proj2 (frames_inside_packet [x00; x02; xaa; xbb; x00]
    ltac:(apply Z.leb_le; reflexivity)))).
Defined.
