(* ===== verification/QuicHandshake.v ===== *)
(** * The QUIC handshake coalescer

    Models [lib/vey-codec/src/quic/message/handshake.rs]: CRYPTO frames of one
    handshake message arrive in any order, overlap and repeat; the coalescer
    puts them together in a buffer and remembers the ranges that are not yet
    connected to its front. *)

From Stdlib Require Import ZArith Lia Strings.Byte Sorting.Sorted.
From stdpp Require Import base list.
From S2P Require Import Prelude Domain TlsExtension Tls QuicFrame.

(** What the consumer of a packet's frames provides. *)
Class FrameConsume (T : Type) : Type := {
  recv_crypto : T -> CryptoFrame -> res FrameParseError unit * T
}.

Record Fragment : Type := { fr_offset : Z; fr_length : Z }.

Definition Fragment_cmp (a b : Fragment) : comparison :=
  match Z.compare (fr_offset a) (fr_offset b) with
  | Gt => Gt
  | Lt => Lt
  | Eq => Z.compare (fr_length a) (fr_length b)
  end.

(** [BTreeSet::insert]: the set is its sorted list of elements. *)
Fixpoint fragment_insert (f : Fragment) (s : list Fragment) : list Fragment :=
  match s with
  | [] => [f]
  | g :: s' =>
      match Fragment_cmp f g with
      | Lt => f :: s
      | Eq => s
      | Gt => g :: fragment_insert f s'
      end
  end.

Record QuicCoalescer : Type := {
  qc_max_message_size : Z;
  qc_header : option HandshakeHeader;
  qc_buf : bytes;
  qc_unfilled_offset : Z;
  qc_expected_length : Z;
  qc_fragment_set : list Fragment
}.

Definition QuicCoalescer_new (max_message_size : Z) : QuicCoalescer := {|
  qc_max_message_size := max_message_size;
  qc_header := None;
  qc_buf := [];
  qc_unfilled_offset := 0;
  qc_expected_length := 0;
  qc_fragment_set := []
|}.

Definition QuicCoalescer_default : QuicCoalescer := QuicCoalescer_new (Z.shiftl 1 14).

Definition QuicCoalescer_finished (self : QuicCoalescer) : bool :=
  (0 <? qc_expected_length self) && (qc_expected_length self =? qc_unfilled_offset self).

(** [fragment_set.retain], which moves the offset while it goes through the set
    in ascending order. *)
Fixpoint retain_fragments {E} (unfilled : Z) (s : list Fragment) : res E (list Fragment * Z) :=
  match s with
  | [] => Ok ([], unfilled)
  | f :: s' =>
      if unfilled <? fr_offset f then
        let? '(kept, unfilled') := retain_fragments unfilled s' in
        Ok (f :: kept, unfilled')
      else
        let? fragment_end := uadd (fr_offset f) (fr_length f) in
        retain_fragments (if unfilled <? fragment_end then fragment_end else unfilled) s'
  end.

Definition advance_unfilled {E} (self : QuicCoalescer) (fin : Z) : res E QuicCoalescer :=
  if fin <=? qc_unfilled_offset self then Ok self
  else
    let? '(kept, unfilled) := retain_fragments fin (qc_fragment_set self) in
    Ok {| qc_max_message_size := qc_max_message_size self; qc_header := qc_header self;
          qc_buf := qc_buf self; qc_unfilled_offset := unfilled;
          qc_expected_length := qc_expected_length self; qc_fragment_set := kept |}.

Definition capture_header (self : QuicCoalescer) : res FrameParseError unit * QuicCoalescer :=
  if 0 <? qc_expected_length self then (Ok tt, self)
  else
    let parsed :=
      let? d := slice (qc_buf self) 0 (qc_unfilled_offset self) in
      HandshakeHeader_try_parse (E := FrameParseError) d in
    match parsed with
    | Ok None => (Ok tt, self)
    | Ok (Some header) =>
        if qc_max_message_size self <? hh_msg_length header then (Err Frame_MalformedFrame, self)
        else
          let msg_len := HandshakeHeader_encoded_len header in
          (Ok tt,
           {| qc_max_message_size := qc_max_message_size self;
              qc_header := Some header;
              qc_buf := vec_resize (qc_buf self) msg_len;
              qc_unfilled_offset :=
                if msg_len <? qc_unfilled_offset self then msg_len else qc_unfilled_offset self;
              qc_expected_length := msg_len;
              qc_fragment_set := qc_fragment_set self |})
    | Err e => (Err e, self)
    | Panic => (Panic, self)
    end.

Definition QuicCoalescer_parse_client_hello (self : QuicCoalescer)
    : res ClientHelloParseError (option ClientHello) :=
  match qc_header self with
  | None => Ok None
  | Some hdr =>
      if negb (hh_msg_type hdr =? HandshakeType_ClientHello) then
        Err (ClientHello_InvalidMessageType (hh_msg_type hdr))
      else if QuicCoalescer_finished self then
        let? body := slice_from (qc_buf self) HandshakeHeader_SIZE in
        let? ch := ClientHello_parse_msg_data body in
        Ok (Some ch)
      else Ok None
  end.

Definition qc_with (self : QuicCoalescer) (buf : bytes) (s : list Fragment) : QuicCoalescer := {|
  qc_max_message_size := qc_max_message_size self;
  qc_header := qc_header self;
  qc_buf := buf;
  qc_unfilled_offset := qc_unfilled_offset self;
  qc_expected_length := qc_expected_length self;
  qc_fragment_set := s
|}.

(** The part of [recv_crypto] after the size checks: the bytes [data] at
    [offset] belong to the message. *)
Definition qc_store (self : QuicCoalescer) (offset fin : Z) (data : bytes)
    : res FrameParseError unit * QuicCoalescer :=
  if offset <=? qc_unfilled_offset self then
    let stored :=
      let? buf :=
        if fin <? len (qc_buf self) then copy_from_slice (qc_buf self) offset fin data
        else Ok (vec_resize (qc_buf self) offset ++ data) in
      advance_unfilled (qc_with self buf (qc_fragment_set self)) fin in
    match stored with
    | Ok self' => capture_header self'
    | Err e => (Err e, self)
    | Panic => (Panic, self)
    end
  else if qc_expected_length self =? 0 then (Err Frame_OutOfOrderFrame, self)
  else
    match copy_from_slice (E := FrameParseError) (qc_buf self) offset fin data with
    | Ok buf =>
        (Ok tt, qc_with self buf
           (fragment_insert {| fr_offset := offset; fr_length := len data |} (qc_fragment_set self)))
    | Err e => (Err e, self)
    | Panic => (Panic, self)
    end.

Definition QuicCoalescer_recv_crypto (self : QuicCoalescer) (frame : CryptoFrame)
    : res FrameParseError unit * QuicCoalescer :=
  if (0 <? qc_expected_length self) && (qc_expected_length self <? cf_stream_offset frame) then
    (Err Frame_MalformedFrame, self)
  else
    let prepared :=
      let? n :=
        if 0 <? qc_expected_length self then
          let? room := usub (qc_expected_length self) (cf_stream_offset frame) in
          Ok (Z.min (len (cf_data frame)) room)
        else Ok (len (cf_data frame)) in
      let? data := slice (cf_data frame) 0 n in
      let? fin := uadd (cf_stream_offset frame) n in
      Ok (data, fin) in
    match prepared with
    | Ok (data, fin) =>
        if len data =? 0 then
          if (qc_expected_length self =? 0) && (qc_unfilled_offset self <? cf_stream_offset frame)
          then (Err Frame_OutOfOrderFrame, self)
          else (Ok tt, self)
        else qc_store self (cf_stream_offset frame) fin data
    | Err e => (Err e, self)
    | Panic => (Panic, self)
    end.

#[global] Instance QuicCoalescer_FrameConsume : FrameConsume QuicCoalescer :=
  {| recv_crypto := QuicCoalescer_recv_crypto |}.

(** ** The filled positions *)

Section Fragments.

Definition in_fragment (f : Fragment) (i : Z) : Prop :=
  fr_offset f <= i < fr_offset f + fr_length f.

(** Position [i] of the message has been received. *)
Definition filled (unfilled : Z) (s : list Fragment) (i : Z) : Prop :=
  i < unfilled \/ Exists (fun f => in_fragment f i) s.

Definition by_offset (a b : Fragment) : Prop := fr_offset a <= fr_offset b.

Lemma fragment_insert_filled f s i :
  Exists (fun g => in_fragment g i) (fragment_insert f s) <->
  in_fragment f i \/ Exists (fun g => in_fragment g i) s.
Proof.
  induction s as [|g s IH]; cbn; [rewrite Exists_cons; by split; intros [?|?%Exists_nil]; auto|].
  unfold Fragment_cmp. destruct (Z.compare_spec (fr_offset f) (fr_offset g)) as [E|E|E].
  - destruct (Z.compare_spec (fr_length f) (fr_length g)) as [E'|E'|E']; rewrite !Exists_cons.
    + unfold in_fragment. rewrite E, E'. tauto.
    + tauto.
    + rewrite IH. tauto.
  - rewrite !Exists_cons. tauto.
  - rewrite !Exists_cons, IH. tauto.
Qed.

Lemma fragment_insert_Forall (P : Fragment -> Prop) f s :
  P f -> Forall P s -> Forall P (fragment_insert f s).
Proof.
  intros Hf Hs. induction Hs as [|g s Hg Hs IH]; cbn; [by repeat constructor|].
  destruct (Fragment_cmp f g); by repeat constructor.
Qed.

Lemma fragment_insert_sorted f s :
  StronglySorted by_offset s -> StronglySorted by_offset (fragment_insert f s).
Proof.
  unfold by_offset. induction 1 as [|g s Hs IH Hg]; cbn; [by repeat constructor|].
  unfold Fragment_cmp. destruct (Z.compare_spec (fr_offset f) (fr_offset g)) as [E|E|E].
  - destruct (Z.compare (fr_length f) (fr_length g)).
    + by constructor.
    + constructor; [by constructor|]. constructor; [lia|].
      eapply Forall_impl; [exact Hg|]. cbn. lia.
    + constructor; [done|]. apply fragment_insert_Forall; [lia|done].
  - constructor; [by constructor|]. constructor; [lia|].
    eapply Forall_impl; [exact Hg|]. cbn. lia.
  - constructor; [done|]. apply fragment_insert_Forall; [lia|done].
Qed.

Lemma retain_fragments_none {E} u s :
  Forall (fun f => u < fr_offset f) s -> retain_fragments (E := E) u s = Ok (s, u).
Proof.
  induction 1 as [|f s Hf Hs IH]; [done|]. cbn [retain_fragments].
  destruct (Z.ltb_spec u (fr_offset f)); [|lia]. by rewrite IH.
Qed.

(** The fragments of a message of [l] bytes that are not connected yet. *)
Definition fragments_ok (l u : Z) (s : list Fragment) : Prop :=
  StronglySorted by_offset s /\
  Forall (fun f => u < fr_offset f /\ 0 < fr_length f /\ fr_offset f + fr_length f <= l) s.

(** Going through the set in order connects everything that can be connected,
    and forgets no position. *)
Lemma retain_fragments_spec {E} l u0 u s :
  l <= isize_max -> 0 <= u0 -> u0 <= u <= l -> fragments_ok l u0 s ->
  exists s' u', retain_fragments (E := E) u s = Ok (s', u') /\ u <= u' <= l /\
    fragments_ok l u' s' /\ (forall i, 0 <= i -> (filled u' s' i <-> filled u s i)).
Proof.
  intros Hl Hu0 Hu [Hsort Hs]. revert u Hu. induction s as [|f s IH]; intros u Hu.
  { exists [], u. split_and!; try done; lia. }
  apply StronglySorted_inv in Hsort as [Hsort Hf]. apply Forall_cons in Hs as [Hfb Hs].
  destruct (Z.ltb_spec u (fr_offset f)) as [Hlt|Hle].
  - assert (Forall (fun g => u < fr_offset g) (f :: s)) as Hall.
    { constructor; [done|]. eapply Forall_impl; [exact Hf|]. unfold by_offset. lia. }
    exists (f :: s), u. rewrite retain_fragments_none by done. split_and!; try done; try lia.
    split; [by constructor|]. apply Forall_and. split; [done|].
    constructor; [tauto|]. eapply Forall_impl; [exact Hs|]. cbn. tauto.
  - cbn [retain_fragments]. destruct (Z.ltb_spec u (fr_offset f)); [lia|].
    rewrite uadd_ok by (unfold isize_max, u64_max in *; lia). cbn [bind].
    set (u1 := if _ <? _ then _ else _).
    assert (u <= u1 <= l /\ u1 = Z.max u (fr_offset f + fr_length f)) as [Hu1 Heq].
    { unfold u1. destruct (Z.ltb_spec u (fr_offset f + fr_length f)); lia. }
    destruct (IH Hsort Hs u1 ltac:(lia)) as (s' & u' & -> & Hu' & Hok & Hfill).
    exists s', u'. split_and!; try done; try lia. intros i Hi. rewrite Hfill by done.
    unfold filled. rewrite Exists_cons. unfold in_fragment at 2.
    assert (i < u1 <-> i < u \/ fr_offset f <= i < fr_offset f + fr_length f) as -> by lia. tauto.
Qed.

End Fragments.

(** ** Invariant of the coalescer *)

Section Invariant.

(** Before the header is complete the buffer is the received prefix; afterwards
    it has the size of the message, and the fragments lie inside it, behind the
    connected part. *)
Definition qc_wf (c : QuicCoalescer) : Prop :=
  if qc_expected_length c =? 0 then
    qc_header c = None /\ qc_fragment_set c = [] /\ len (qc_buf c) = qc_unfilled_offset c /\
    qc_unfilled_offset c < HandshakeHeader_SIZE
  else
    (exists h, qc_header c = Some h /\ HandshakeHeader_encoded_len h = qc_expected_length c) /\
    HandshakeHeader_SIZE <= qc_expected_length c <= HandshakeHeader_SIZE + 2 ^ 24 /\
    len (qc_buf c) = qc_expected_length c /\
    0 <= qc_unfilled_offset c <= qc_expected_length c /\
    fragments_ok (qc_expected_length c) (qc_unfilled_offset c) (qc_fragment_set c).

Definition qc_filled (c : QuicCoalescer) (i : Z) : Prop :=
  filled (qc_unfilled_offset c) (qc_fragment_set c) i.

Lemma QuicCoalescer_new_wf max : qc_wf (QuicCoalescer_new max).
Proof. done. Qed.

(** The bytes at [offset] have been written, the others are as before. *)
Definition written (buf buf' : bytes) (offset : Z) (data : bytes) : Prop :=
  forall i : nat, (i < length buf')%nat ->
    buf' !! i = if (offset <=? Z.of_nat i) && (Z.of_nat i <? offset + len data)
                then data !! (i - Z.to_nat offset)%nat else buf !! i.

Lemma lookup_written (pre data post : bytes) (i : nat) :
  (pre ++ data ++ post) !! i =
    if (len pre <=? Z.of_nat i) && (Z.of_nat i <? len pre + len data)
    then data !! (i - length pre)%nat
    else if Z.of_nat i <? len pre then pre !! i else post !! (i - length pre - length data)%nat.
Proof.
  unfold len. destruct (Z.leb_spec (Z.of_nat (length pre)) (Z.of_nat i)); cbn [andb].
  - rewrite lookup_app_r by lia.
    destruct (Z.ltb_spec (Z.of_nat i) (Z.of_nat (length pre) + Z.of_nat (length data))).
    + by rewrite lookup_app_l by lia.
    + rewrite lookup_app_r by lia. by destruct (Z.ltb_spec (Z.of_nat i) (Z.of_nat (length pre))); [lia|].
  - rewrite lookup_app_l by lia. by destruct (Z.ltb_spec (Z.of_nat i) (Z.of_nat (length pre))); [|lia].
Qed.

Lemma copy_written {E} buf o data :
  0 <= o -> o + len data <= len buf ->
  exists buf', copy_from_slice (E := E) buf o (o + len data) data = Ok buf' /\
    len buf' = len buf /\ written buf buf' o data.
Proof.
  intros Ho Hle. rewrite copy_from_slice_ok by lia. eexists. split; [done|]. split; [len_lia|].
  intros i Hi. rewrite lookup_written.
  assert (len (take (Z.to_nat o) buf) = o) as -> by len_lia.
  assert (length (take (Z.to_nat o) buf) = Z.to_nat o) as -> by (rewrite length_take; unfold len in *; lia).
  destruct (_ && _) eqn:Hb; [done|]. destruct (Z.ltb_spec (Z.of_nat i) o).
  - by rewrite lookup_take_lt by lia.
  - rewrite lookup_drop. f_equal. unfold len in *.
    destruct (Z.leb_spec o (Z.of_nat i)), (Z.ltb_spec (Z.of_nat i) (o + Z.of_nat (length data)));
      try done; lia.
Qed.

Lemma resize_written buf o data :
  0 <= o <= len buf ->
  len (vec_resize buf o ++ data) = o + len data /\ written buf (vec_resize buf o ++ data) o data.
Proof.
  intros Ho. unfold vec_resize. destruct (Z.leb_spec o (len buf)); [|lia]. split; [len_lia|].
  intros i Hi. rewrite <- (app_nil_r data) at 1. rewrite lookup_written.
  assert (len (take (Z.to_nat o) buf) = o) as -> by len_lia.
  assert (length (take (Z.to_nat o) buf) = Z.to_nat o) as Hl by (rewrite length_take; unfold len in *; lia).
  rewrite Hl. destruct (_ && _) eqn:Hb; [done|]. destruct (Z.ltb_spec (Z.of_nat i) o).
  - by rewrite lookup_take_lt by lia.
  - rewrite length_app, Hl in Hi. unfold len in *.
    destruct (Z.leb_spec o (Z.of_nat i)), (Z.ltb_spec (Z.of_nat i) (o + Z.of_nat (length data)));
      try done; lia.
Qed.

(** The in-order part of [qc_store]: the bytes are written. *)
Lemma store_written {E} c o data :
  qc_wf c -> 0 <= o <= qc_unfilled_offset c ->
  (qc_expected_length c <> 0 -> o + len data <= qc_expected_length c) ->
  exists buf', (if o + len data <? len (qc_buf c) then copy_from_slice (E := E) (qc_buf c) o (o + len data) data
                else Ok (vec_resize (qc_buf c) o ++ data)) = Ok buf' /\
    len buf' = Z.max (len (qc_buf c)) (o + len data) /\ written (qc_buf c) buf' o data.
Proof.
  intros Hwf Ho Hend. assert (o <= len (qc_buf c)) as Hbuf.
  { unfold qc_wf in Hwf. destruct (Z.eqb_spec (qc_expected_length c) 0).
    - destruct Hwf as (_ & _ & ? & _). lia.
    - destruct Hwf as (_ & _ & ? & ? & _). lia. }
  destruct (Z.ltb_spec (o + len data) (len (qc_buf c))).
  - destruct (copy_written (E := E) (qc_buf c) o data) as (buf' & Hc & Hl & Hw); try lia.
    exists buf'. split_and!; [done|lia|done].
  - destruct (resize_written (qc_buf c) o data) as [Hl Hw]; [lia|].
    eexists. split; [done|]. split; [lia|done].
Qed.

(** The invariant between storing the bytes and looking for the header. *)
Definition qc_wf1 (c : QuicCoalescer) : Prop :=
  if qc_expected_length c =? 0 then
    qc_header c = None /\ qc_fragment_set c = [] /\ len (qc_buf c) = qc_unfilled_offset c
  else qc_wf c.

Lemma qc_wf_wf1 c : qc_wf c -> qc_wf1 c.
Proof. unfold qc_wf1, qc_wf. destruct (_ =? _); [tauto|done]. Qed.

(** [data] at [o] is a new piece: what the state [c1] after [c] is. *)
Definition qc_added (c c1 : QuicCoalescer) (o : Z) (data : bytes) : Prop :=
  qc_max_message_size c1 = qc_max_message_size c /\ qc_header c1 = qc_header c /\
  qc_expected_length c1 = qc_expected_length c /\
  written (qc_buf c) (qc_buf c1) o data /\
  (forall i, 0 <= i -> (qc_filled c1 i <-> qc_filled c i \/ o <= i < o + len data)).

Lemma advance_unfilled_spec {E} c buf' o data :
  qc_wf c -> 0 <= o <= qc_unfilled_offset c ->
  (qc_expected_length c <> 0 -> o + len data <= qc_expected_length c) ->
  len buf' = Z.max (len (qc_buf c)) (o + len data) -> written (qc_buf c) buf' o data ->
  exists c1, advance_unfilled (E := E) (qc_with c buf' (qc_fragment_set c)) (o + len data) = Ok c1 /\
    qc_wf1 c1 /\ qc_added c c1 o data.
Proof.
  intros Hwf Ho Hend Hlen Hw. unfold advance_unfilled, qc_added, qc_filled.
  cbn [qc_with qc_unfilled_offset qc_fragment_set qc_expected_length qc_header qc_max_message_size qc_buf].
  destruct (Z.leb_spec (o + len data) (qc_unfilled_offset c)) as [Hle|Hgt].
  - eexists. split; [done|]. split.
    + unfold qc_wf1, qc_wf in *. cbn. destruct (Z.eqb_spec (qc_expected_length c) 0).
      * destruct Hwf as (? & ? & ? & ?). split_and!; try done. lia.
      * destruct (Z.eqb_spec (qc_expected_length c) 0); [done|]. destruct Hwf as (? & ? & ? & ? & ?).
        split_and!; try done; lia.
    + cbn. split_and!; try done. intros i Hi. unfold filled. split; [tauto|].
      intros [?|?]; [done|]. left. lia.
  - destruct (Z.eqb_spec (qc_expected_length c) 0) as [E0|E0].
    + unfold qc_wf in Hwf. rewrite E0 in Hwf. cbn in Hwf. destruct Hwf as (Hh & Hf & Hb & Hu).
      rewrite Hf. cbn [retain_fragments bind]. eexists. split; [done|]. split.
      * unfold qc_wf1. cbn. rewrite E0. cbn. split_and!; try done. lia.
      * cbn. split_and!; try done. intros i Hi. unfold filled. rewrite Exists_nil. lia.
    + pose proof Hwf as Hwf0. unfold qc_wf in Hwf.
      destruct (Z.eqb_spec (qc_expected_length c) 0); [done|].
      destruct Hwf as (Hh & Hexp & Hb & Hu & Hfr).
      destruct (retain_fragments_spec (E := E) (qc_expected_length c) (qc_unfilled_offset c)
        (o + len data) (qc_fragment_set c)) as (s' & u' & -> & Hu' & Hok & Hfill).
      { unfold isize_max, HandshakeHeader_SIZE in *. lia. }
      { lia. }
      { specialize (Hend E0). lia. }
      { done. }
      cbn [bind]. eexists. split; [done|]. split.
      * unfold qc_wf1, qc_wf. cbn. destruct (Z.eqb_spec (qc_expected_length c) 0); [done|].
        specialize (Hend E0). split_and!; try done; lia.
      * cbn. split_and!; try done. intros i Hi. rewrite Hfill by done. unfold filled.
        assert (i < o + len data <-> i < qc_unfilled_offset c \/ o <= i < o + len data) as -> by lia.
        tauto.
Qed.

Lemma insert_spec {E} c o data :
  qc_wf c -> qc_unfilled_offset c < o -> qc_expected_length c <> 0 -> 0 < len data ->
  o + len data <= qc_expected_length c ->
  exists buf', copy_from_slice (E := E) (qc_buf c) o (o + len data) data = Ok buf' /\
    let c1 := qc_with c buf'
      (fragment_insert {| fr_offset := o; fr_length := len data |} (qc_fragment_set c)) in
    qc_wf c1 /\ qc_added c c1 o data.
Proof.
  intros Hwf Ho E0 Hpos Hend. pose proof Hwf as Hwf'. unfold qc_wf in Hwf'.
  destruct (Z.eqb_spec (qc_expected_length c) 0); [done|].
  destruct Hwf' as (Hh & Hexp & Hb & Hu & Hsort & Hfr).
  destruct (copy_written (E := E) (qc_buf c) o data) as (buf' & Hc & Hl & Hw); try lia.
  exists buf'. split; [done|]. cbv zeta. split.
  - unfold qc_wf. cbn. destruct (Z.eqb_spec (qc_expected_length c) 0); [done|].
    split_and!; try done; try lia. split; [by apply fragment_insert_sorted|].
    apply fragment_insert_Forall; [cbn; lia|done].
  - unfold qc_added, qc_filled. cbn. split_and!; try done. intros i Hi. unfold filled.
    rewrite fragment_insert_filled. unfold in_fragment at 1. cbn. tauto.
Qed.

End Invariant.

Section Capture.

Lemma qc_wf1_unfilled c : qc_wf1 c -> 0 <= qc_unfilled_offset c <= len (qc_buf c).
Proof.
  unfold qc_wf1, qc_wf. destruct (Z.eqb_spec (qc_expected_length c) 0).
  - intros (_ & _ & Hl). len_lia.
  - destruct (Z.eqb_spec (qc_expected_length c) 0); [done|]. intros (_ & _ & ? & ? & _). lia.
Qed.

Lemma capture_header_spec c :
  qc_wf1 c ->
  match capture_header c with
  | (Ok _, c') =>
      qc_wf c' /\ qc_max_message_size c' = qc_max_message_size c /\
      (c' = c \/
       exists h, qc_expected_length c = 0 /\ hs_header (qc_buf c) = Some h /\
         hh_msg_length h <= qc_max_message_size c /\
         c' = {| qc_max_message_size := qc_max_message_size c; qc_header := Some h;
                 qc_buf := vec_resize (qc_buf c) (HandshakeHeader_encoded_len h);
                 qc_unfilled_offset := Z.min (HandshakeHeader_encoded_len h) (qc_unfilled_offset c);
                 qc_expected_length := HandshakeHeader_encoded_len h; qc_fragment_set := [] |})
  | (Err _, _) => qc_expected_length c = 0 /\
      exists h, hs_header (qc_buf c) = Some h /\ qc_max_message_size c < hh_msg_length h
  | (Panic, _) => False
  end.
Proof.
  intros Hwf. pose proof (qc_wf1_unfilled c Hwf) as Hu. unfold capture_header.
  destruct (Z.ltb_spec 0 (qc_expected_length c)) as [Hpos|Hz].
  { unfold qc_wf1 in Hwf. destruct (Z.eqb_spec (qc_expected_length c) 0); [lia|]. by split_and!; auto. }
  rewrite slice_ok by lia. cbn [bind]. rewrite HandshakeHeader_try_parse_eq, Z.sub_0_r.
  unfold qc_wf1 in Hwf. destruct (Z.eqb_spec (qc_expected_length c) 0) as [E|E].
  2: { unfold qc_wf in Hwf. destruct (Z.eqb_spec (qc_expected_length c) 0); [done|].
       destruct Hwf as (_ & Hexp & _). unfold HandshakeHeader_SIZE in Hexp. lia. }
  destruct Hwf as (Hh & Hf & Hb).
  assert (take (Z.to_nat (qc_unfilled_offset c)) (drop (Z.to_nat 0) (qc_buf c)) = qc_buf c) as ->.
  { change (drop (Z.to_nat 0) (qc_buf c)) with (qc_buf c). apply take_ge. unfold len in *. lia. }
  destruct (hs_header (qc_buf c)) as [h|] eqn:Hs.
  - destruct (Z.ltb_spec (qc_max_message_size c) (hh_msg_length h)); [by eauto|].
    pose proof (hs_header_len _ _ Hs) as [H4 Hr].
    assert ((if HandshakeHeader_encoded_len h <? qc_unfilled_offset c
             then HandshakeHeader_encoded_len h else qc_unfilled_offset c) =
            Z.min (HandshakeHeader_encoded_len h) (qc_unfilled_offset c)) as ->.
    { destruct (Z.ltb_spec (HandshakeHeader_encoded_len h) (qc_unfilled_offset c)); lia. }
    rewrite Hf. split_and!; [|done|right; by eauto].
    unfold qc_wf. cbn. unfold HandshakeHeader_encoded_len, HandshakeHeader_SIZE in *.
    destruct (Z.eqb_spec (4 + hh_msg_length h) 0); [lia|]. split_and!; try lia.
    + by exists h.
    + unfold vec_resize. destruct (Z.leb_spec (4 + hh_msg_length h) (len (qc_buf c))); len_lia.
    + split; [constructor|constructor].
  - split_and!; [|done|by left]. unfold qc_wf. rewrite E. cbn. split_and!; try done.
    apply hs_header_short in Hs. unfold HandshakeHeader_SIZE. lia.
Qed.

End Capture.

(** ** Frames of one handshake stream *)

Section Stream.
Context (S : bytes) (HS : len S <= isize_max).

(** The frame carries the bytes of the stream at its offset. *)
Definition frame_of_stream (f : CryptoFrame) : Prop :=
  0 <= cf_stream_offset f /\
  exists pre rest, S = pre ++ cf_data f ++ rest /\ len pre = cf_stream_offset f.

(** Some frame has carried position [i]. *)
Definition covered (frames : list CryptoFrame) (i : Z) : Prop :=
  Exists (fun f => cf_stream_offset f <= i < cf_stream_offset f + len (cf_data f)) frames.

(** The coalescer has stored exactly what the frames have carried. *)
Definition qc_follows (frames : list CryptoFrame) (c : QuicCoalescer) : Prop :=
  qc_wf c /\
  (forall i : nat, qc_filled c (Z.of_nat i) -> qc_buf c !! i = S !! i) /\
  (qc_expected_length c <> 0 -> qc_header c = hs_header S) /\
  (forall i, 0 <= i -> (qc_expected_length c <> 0 -> i < qc_expected_length c) ->
     (covered frames i <-> qc_filled c i)).

Lemma qc_follows_new max : qc_follows [] (QuicCoalescer_new max).
Proof.
  split_and!; try done.
  - intros i [Hi|Hi]; [cbn in Hi; lia|by apply Exists_nil in Hi].
  - intros i Hi _. unfold covered, qc_filled, filled. cbn. rewrite !Exists_nil. lia.
Qed.

Lemma filled_in_buf c i : qc_wf c -> qc_filled c i -> i < len (qc_buf c).
Proof.
  unfold qc_wf, qc_filled, filled. destruct (Z.eqb_spec (qc_expected_length c) 0).
  - intros (_ & -> & -> & _). rewrite Exists_nil. lia.
  - intros (_ & _ & -> & Hu & _ & Hf) [Hi|Hi]; [lia|].
    apply Exists_exists in Hi as (f & Hin & Hi). eapply Forall_forall in Hf; [|exact Hin].
    unfold in_fragment in Hi. lia.
Qed.

(** A frame's bytes, or the part of them that belongs to the message. *)
Lemma frame_lookup f n (i : nat) :
  frame_of_stream f -> cf_stream_offset f <= Z.of_nat i < cf_stream_offset f + n -> n <= len (cf_data f) ->
  take (Z.to_nat n) (cf_data f) !! (i - Z.to_nat (cf_stream_offset f))%nat = S !! i.
Proof.
  intros (Ho & pre & rest & Hs & Hp) Hi Hn. rewrite Hs. unfold len in *.
  rewrite lookup_take_lt by lia. rewrite lookup_app_r by lia. rewrite lookup_app_l by lia.
  f_equal. lia.
Qed.

Lemma added_agrees c c1 f n :
  qc_wf c -> frame_of_stream f -> 0 <= n <= len (cf_data f) ->
  (forall i : nat, qc_filled c (Z.of_nat i) -> qc_buf c !! i = S !! i) ->
  qc_added c c1 (cf_stream_offset f) (take (Z.to_nat n) (cf_data f)) ->
  (forall i : nat, qc_filled c1 (Z.of_nat i) -> (i < length (qc_buf c1))%nat -> qc_buf c1 !! i = S !! i).
Proof.
  intros Hwf Hf Hn Hag (_ & _ & _ & Hw & Hfill) i Hi Hlen. rewrite Hw by done.
  assert (len (take (Z.to_nat n) (cf_data f)) = n) as Hl by len_lia. rewrite Hl in *.
  destruct (Z.leb_spec (cf_stream_offset f) (Z.of_nat i)),
    (Z.ltb_spec (Z.of_nat i) (cf_stream_offset f + n)); cbn [andb];
    try (apply frame_lookup; done || lia);
    apply Hag; apply Hfill in Hi as [?|?]; try done; lia.
Qed.

(** Looking for the header keeps what has been received. *)
Lemma capture_follows frames c1 :
  qc_wf1 c1 ->
  (forall i : nat, qc_filled c1 (Z.of_nat i) -> (i < length (qc_buf c1))%nat -> qc_buf c1 !! i = S !! i) ->
  (qc_expected_length c1 <> 0 -> qc_header c1 = hs_header S) ->
  (forall i, 0 <= i -> (qc_expected_length c1 <> 0 -> i < qc_expected_length c1) ->
     (covered frames i <-> qc_filled c1 i)) ->
  match capture_header c1 with
  | (Ok _, c') => qc_follows frames c' /\ qc_max_message_size c' = qc_max_message_size c1 /\
      (qc_expected_length c1 <> 0 -> qc_expected_length c' = qc_expected_length c1)
  | (Err _, _) => qc_expected_length c1 = 0 /\
      exists h, hs_header S = Some h /\ qc_max_message_size c1 < hh_msg_length h
  | (Panic, _) => False
  end.
Proof.
  intros Hwf1 Hag Hh Hcov. pose proof (capture_header_spec c1 Hwf1) as Hc.
  assert (forall h, qc_expected_length c1 = 0 -> hs_header (qc_buf c1) = Some h -> hs_header S = Some h)
    as Hhdr.
  { intros h E Hb. unfold qc_wf1 in Hwf1. rewrite E in Hwf1. cbn in Hwf1. destruct Hwf1 as (_ & _ & Hl).
    rewrite <- (take_drop (length (qc_buf c1)) S). apply hs_header_app.
    assert (qc_buf c1 = take (length (qc_buf c1)) S) as <-; [|done].
    apply list_eq. intros i. destruct (Nat.lt_ge_cases i (length (qc_buf c1))).
    - rewrite lookup_take_lt by lia. apply Hag; [|done]. left. unfold len in Hl. lia.
    - rewrite lookup_ge_None_2, lookup_take_ge by lia. done. }
  destruct (capture_header c1) as [[[]|e|] c']; [| |done].
  2: { destruct Hc as (E & h & Hb & Hm). split; [done|]. exists h. by auto. }
  destruct Hc as (Hwf' & Hm & [->|(h & E & Hb & Hm' & ->)]).
  - split; [|done]. split_and!; try done. intros i Hi. apply Hag; [done|].
    apply filled_in_buf in Hi; [unfold len in Hi; lia|done].
  - unfold qc_wf1 in Hwf1. rewrite E in Hwf1. cbn in Hwf1. destruct Hwf1 as (_ & Hfs & Hl).
    split; [|split; [done|done]]. split_and!; [done| | |]; cbn [qc_expected_length qc_header qc_buf].
    + intros i [Hi|Hi]; [|by apply Exists_nil in Hi]. cbn in Hi. rewrite <- Hag.
      * unfold vec_resize. destruct (Z.leb_spec (HandshakeHeader_encoded_len h) (len (qc_buf c1))).
        -- apply lookup_take_lt. lia.
        -- apply lookup_app_l. unfold len in *. lia.
      * left. lia.
      * unfold len in *. lia.
    + intros _. symmetry. by apply Hhdr.
    + intros i Hi Hlt. rewrite Hcov by (done || lia). unfold qc_filled, filled. cbn.
      rewrite Hfs, !Exists_nil. specialize (Hlt ltac:(apply hs_header_len in Hb as [_ ?];
        unfold HandshakeHeader_encoded_len, HandshakeHeader_SIZE; lia)). lia.
Qed.

Lemma covered_snoc frames f i :
  covered (frames ++ [f]) i <->
  covered frames i \/ cf_stream_offset f <= i < cf_stream_offset f + len (cf_data f).
Proof. unfold covered. rewrite Exists_app, Exists_cons, Exists_nil. tauto. Qed.

(** Why a frame is refused. *)
Definition refused (c : QuicCoalescer) (f : CryptoFrame) : Prop :=
  (qc_expected_length c <> 0 /\ qc_expected_length c < cf_stream_offset f) \/
  (qc_expected_length c = 0 /\ qc_unfilled_offset c < cf_stream_offset f) \/
  (qc_expected_length c = 0 /\
   exists h, hs_header S = Some h /\ qc_max_message_size c < hh_msg_length h).

(** Storing the [n] bytes of a frame that belong to the message. *)
Lemma store_follows frames c f n :
  qc_follows frames c -> frame_of_stream f -> 0 < n <= len (cf_data f) ->
  n = (if qc_expected_length c =? 0 then len (cf_data f)
       else Z.min (len (cf_data f)) (qc_expected_length c - cf_stream_offset f)) ->
  match qc_store c (cf_stream_offset f) (cf_stream_offset f + n) (take (Z.to_nat n) (cf_data f)) with
  | (Ok _, c') => qc_follows (frames ++ [f]) c' /\ qc_max_message_size c' = qc_max_message_size c /\
      (qc_expected_length c <> 0 -> qc_expected_length c' = qc_expected_length c)
  | (Err _, _) => refused c f
  | (Panic, _) => False
  end.
Proof.
  intros (Hwf & Hag & Hh & Hcov) Hf Hn Heq. set (o := cf_stream_offset f) in *.
  set (d := take (Z.to_nat n) (cf_data f)). assert (len d = n) as Hd by (unfold d; len_lia).
  assert (0 <= o) as Ho by apply Hf.
  assert (qc_expected_length c <> 0 -> o + n <= qc_expected_length c) as Hend.
  { destruct (Z.eqb_spec (qc_expected_length c) 0); [done|]. lia. }
  assert (forall c1, qc_added c c1 o d -> forall i, 0 <= i ->
    (qc_expected_length c1 <> 0 -> i < qc_expected_length c1) ->
    (covered (frames ++ [f]) i <-> qc_filled c1 i)) as Hcov1.
  { intros c1 (_ & _ & He & _ & Hfill) i Hi Hlt. rewrite Hfill, covered_snoc, Hd by done. fold o.
    rewrite He in Hlt. rewrite Hcov by done.
    destruct (Z.eqb_spec (qc_expected_length c) 0) as [E|E]; [by rewrite Heq|].
    specialize (Hlt E). split; intros [?|?]; auto; right; lia. }
  unfold qc_store. rewrite <- Hd in Hend |- *. destruct (Z.leb_spec o (qc_unfilled_offset c)) as [Hle|Hgt].
  - destruct (store_written (E := FrameParseError) c o d Hwf ltac:(lia) Hend) as (buf' & -> & Hl & Hw).
    cbn [bind]. destruct (advance_unfilled_spec (E := FrameParseError) c buf' o d Hwf ltac:(lia) Hend Hl Hw)
      as (c1 & -> & Hwf1 & Hadd). pose proof Hadd as (Hm1 & Hh1 & He1 & _).
    pose proof (capture_follows (frames ++ [f]) c1 Hwf1
      (added_agrees c c1 f n Hwf Hf ltac:(lia) Hag Hadd) ltac:(by rewrite He1, Hh1) (Hcov1 c1 Hadd)) as Hc.
    destruct (capture_header c1) as [[[]|e|] c']; [by rewrite <- Hm1, <- He1| |done].
    rewrite He1, Hm1 in Hc. right. right. exact Hc.
  - destruct (Z.eqb_spec (qc_expected_length c) 0) as [E|E].
    { right. left. done. }
    destruct (insert_spec (E := FrameParseError) c o d Hwf Hgt E ltac:(lia) (Hend E))
      as (buf' & -> & Hwf' & Hadd). set (c1 := qc_with c buf' _) in *.
    split; [|done]. split_and!; [done| | |].
    + intros i Hi. apply (added_agrees c c1 f n Hwf Hf ltac:(lia) Hag Hadd i Hi).
      apply filled_in_buf in Hi; [unfold len in Hi; lia|done].
    + exact Hh.
    + exact (Hcov1 c1 Hadd).
Qed.

(** One frame: it is stored, or refused for one of the reasons above. *)
Lemma recv_crypto_follows frames c f :
  qc_follows frames c -> frame_of_stream f ->
  match QuicCoalescer_recv_crypto c f with
  | (Ok _, c') => qc_follows (frames ++ [f]) c' /\ qc_max_message_size c' = qc_max_message_size c /\
      (qc_expected_length c <> 0 -> qc_expected_length c' = qc_expected_length c)
  | (Err _, _) => refused c f
  | (Panic, _) => False
  end.
Proof.
  intros Hfol Hf. pose proof Hf as (Ho & pre & rest & HSeq & Hpre). pose proof Hfol as (Hwf & Hag & Hh & Hcov).
  assert (0 <= qc_expected_length c) as Hexp.
  { unfold qc_wf in Hwf. destruct (Z.eqb_spec (qc_expected_length c) 0); [lia|].
    destruct Hwf as (_ & ? & _). unfold HandshakeHeader_SIZE in *. lia. }
  assert (cf_stream_offset f + len (cf_data f) <= isize_max) as Hbound.
  { rewrite HSeq in HS. len_lia. }
  unfold QuicCoalescer_recv_crypto.
  destruct ((0 <? qc_expected_length c) && (qc_expected_length c <? cf_stream_offset f)) eqn:Hbig.
  { bool_to_prop. left. lia. }
  set (n := if qc_expected_length c =? 0 then len (cf_data f)
            else Z.min (len (cf_data f)) (qc_expected_length c - cf_stream_offset f)).
  assert (qc_expected_length c <> 0 -> cf_stream_offset f <= qc_expected_length c) as Hle.
  { apply andb_false_iff in Hbig as [?|?]; bool_to_prop; lia. }
  assert (0 <= n <= len (cf_data f)) as Hn.
  { unfold n. destruct (Z.eqb_spec (qc_expected_length c) 0); len_lia. }
  assert ((if 0 <? qc_expected_length c then
      let? room := usub (qc_expected_length c) (cf_stream_offset f) in
      Ok (Z.min (len (cf_data f)) room)
    else Ok (E := FrameParseError) (len (cf_data f))) = Ok n) as ->.
  { unfold n. destruct (Z.ltb_spec 0 (qc_expected_length c)), (Z.eqb_spec (qc_expected_length c) 0);
      try lia; [|done]. by rewrite usub_ok by lia. }
  cbn [bind]. rewrite slice_ok by lia. cbn [bind]. rewrite uadd_ok by len_lia. cbn [bind].
  rewrite Z.sub_0_r. change (drop (Z.to_nat 0) (cf_data f)) with (cf_data f).
  assert (len (take (Z.to_nat n) (cf_data f)) = n) as -> by len_lia.
  destruct (Z.eqb_spec n 0) as [En|En].
  - destruct ((qc_expected_length c =? 0) && (qc_unfilled_offset c <? cf_stream_offset f)) eqn:Hout.
    { bool_to_prop. right. left. lia. }
    split; [|done]. split_and!; try done. intros i Hi Hlt. rewrite covered_snoc, <- Hcov by done.
    unfold n in En. destruct (Z.eqb_spec (qc_expected_length c) 0) as [E|E].
    { assert (~ (cf_stream_offset f <= i < cf_stream_offset f + len (cf_data f))) by lia. tauto. }
    specialize (Hlt E). specialize (Hle E).
    assert (~ (cf_stream_offset f <= i < cf_stream_offset f + len (cf_data f))) by lia. tauto.
  - apply store_follows; try done. lia.
Qed.

(** Feed frames to the coalescer until one is refused. *)
Fixpoint recv_all (c : QuicCoalescer) (frames : list CryptoFrame) : res FrameParseError unit * QuicCoalescer :=
  match frames with
  | [] => (Ok tt, c)
  | f :: frames' =>
      match QuicCoalescer_recv_crypto c f with
      | (Ok _, c') => recv_all c' frames'
      | r => r
      end
  end.

Lemma recv_all_follows frames c before :
  qc_follows before c -> Forall frame_of_stream frames ->
  match recv_all c frames with
  | (Ok _, c') => qc_follows (before ++ frames) c' /\ qc_max_message_size c' = qc_max_message_size c
  | (Err _, _) => True
  | (Panic, _) => False
  end.
Proof.
  revert c before. induction frames as [|f frames IH]; intros c before Hc Hfs; cbn [recv_all].
  { by rewrite app_nil_r. }
  apply Forall_cons in Hfs as [Hf Hfs]. pose proof (recv_crypto_follows before c f Hc Hf) as Hr.
  destruct (QuicCoalescer_recv_crypto c f) as [[[]|e|] c']; [|done..]. destruct Hr as (Hc' & Hm & _).
  specialize (IH c' (before ++ [f]) Hc' Hfs). rewrite <- app_assoc, Hm in IH. exact IH.
Qed.

(** Once the header is known no frame of the message is refused. *)
Lemma recv_all_accepts frames c before :
  qc_follows before c -> qc_expected_length c <> 0 -> Forall frame_of_stream frames ->
  Forall (fun f => cf_stream_offset f <= qc_expected_length c) frames ->
  exists c', recv_all c frames = (Ok tt, c') /\ qc_expected_length c' = qc_expected_length c.
Proof.
  intros Hc He Hfs Hle. revert c before Hc He Hle.
  induction frames as [|f frames IH]; intros c before Hc He Hle; cbn [recv_all]; [by eauto|].
  apply Forall_cons in Hfs as [Hf Hfs]. apply Forall_cons in Hle as [Hle Hles].
  pose proof (recv_crypto_follows before c f Hc Hf) as Hr.
  destruct (QuicCoalescer_recv_crypto c f) as [[[]|e|] c'] eqn:Hstep; [| |done].
  2: { exfalso. destruct Hr as [[_ ?]|[[? _]|[? _]]]; [lia|done..]. }
  destruct Hr as (Hc' & _ & He'). specialize (He' He). rewrite <- He' in Hles |- *.
  apply (IH Hfs c' (before ++ [f])); [done| |done]. by rewrite He'.
Qed.

End Stream.

(** ** Arbitrary frames *)

Section Arbitrary.

(** Frames with contradictory data, impossible offsets and so on are stored or
    refused, and keep the coalescer well formed. *)
Lemma recv_crypto_safe c f :
  qc_wf c -> 0 <= cf_stream_offset f -> cf_stream_offset f + len (cf_data f) <= isize_max ->
  match QuicCoalescer_recv_crypto c f with
  | (Ok _, c') => qc_wf c'
  | (Err _, _) => True
  | (Panic, _) => False
  end.
Proof.
  intros Hwf Ho Hbound. unfold QuicCoalescer_recv_crypto.
  destruct ((0 <? qc_expected_length c) && (qc_expected_length c <? cf_stream_offset f)) eqn:Hbig; [done|].
  assert (exists n, 0 <= n <= len (cf_data f) /\
    (qc_expected_length c <> 0 -> cf_stream_offset f + n <= qc_expected_length c) /\
    (if 0 <? qc_expected_length c then
      let? room := usub (qc_expected_length c) (cf_stream_offset f) in
      Ok (Z.min (len (cf_data f)) room)
    else Ok (E := FrameParseError) (len (cf_data f))) = Ok n) as (n & Hn & Hend & ->).
  { apply andb_false_iff in Hbig. destruct (Z.ltb_spec 0 (qc_expected_length c)).
    - destruct Hbig as [?|?]; [done|]. bool_to_prop. rewrite usub_ok by lia. cbn [bind].
      eexists. split_and!; [| | |reflexivity]; len_lia.
    - exists (len (cf_data f)). split_and!; try done; try len_lia.
      unfold qc_wf in Hwf. destruct (Z.eqb_spec (qc_expected_length c) 0); [done|].
      destruct Hwf as (_ & ? & _). unfold HandshakeHeader_SIZE in *. lia. }
  cbn [bind]. rewrite slice_ok by lia. cbn [bind]. rewrite uadd_ok by len_lia. cbn [bind].
  rewrite Z.sub_0_r. change (drop (Z.to_nat 0) (cf_data f)) with (cf_data f).
  set (d := take (Z.to_nat n) (cf_data f)). assert (len d = n) as Hd by (unfold d; len_lia).
  rewrite <- Hd in *. destruct (Z.eqb_spec (len d) 0).
  { by destruct ((qc_expected_length c =? 0) && (qc_unfilled_offset c <? cf_stream_offset f)). }
  unfold qc_store. destruct (Z.leb_spec (cf_stream_offset f) (qc_unfilled_offset c)) as [Hle|Hgt].
  - destruct (store_written (E := FrameParseError) c (cf_stream_offset f) d Hwf ltac:(lia) Hend) as (buf' & -> & Hl & Hw).
    cbn [bind]. destruct (advance_unfilled_spec (E := FrameParseError) c buf' (cf_stream_offset f) d Hwf ltac:(lia) Hend Hl Hw)
      as (c1 & -> & Hwf1 & _).
    pose proof (capture_header_spec c1 Hwf1) as Hc.
    destruct (capture_header c1) as [[[]|e|] c']; [by destruct Hc|done..].
  - destruct (Z.eqb_spec (qc_expected_length c) 0) as [E|E]; [done|].
    destruct (insert_spec (E := FrameParseError) c (cf_stream_offset f) d Hwf Hgt E ltac:(len_lia) (Hend E))
      as (buf' & -> & Hwf' & _). done.
Qed.

Lemma parse_client_hello_safe c : qc_wf c -> QuicCoalescer_parse_client_hello c <> Panic.
Proof.
  intros Hwf. unfold QuicCoalescer_parse_client_hello. unfold qc_wf in Hwf.
  destruct (Z.eqb_spec (qc_expected_length c) 0).
  { by destruct Hwf as (-> & _). }
  destruct Hwf as ((h & -> & _) & Hexp & Hb & _). destruct (negb _); [done|].
  destruct (QuicCoalescer_finished c); [|done]. unfold HandshakeHeader_SIZE in *.
  rewrite slice_from_ok by lia. cbn [bind].
  pose proof (ClientHello_parse_msg_data_no_panic (drop (Z.to_nat 4) (qc_buf c)) ltac:(len_lia)).
  by destruct (ClientHello_parse_msg_data _).
Qed.

End Arbitrary.

(** ** The end result *)

Section Result.
Context (msg extra : bytes) (h : HandshakeHeader).
Context (Hmsg : hs_message msg h) (Hlen : len (msg ++ extra) <= isize_max).

Lemma follows_expected frames c :
  qc_follows (msg ++ extra) frames c -> qc_expected_length c <> 0 ->
  qc_expected_length c = len msg /\ qc_header c = Some h.
Proof.
  intros (Hwf & _ & Hh & _) E. specialize (Hh E). destruct Hmsg as [Hhd Hl].
  rewrite (hs_header_app _ extra _ Hhd) in Hh. unfold qc_wf in Hwf.
  destruct (Z.eqb_spec (qc_expected_length c) 0); [done|].
  destruct Hwf as ((h' & Hh' & Hl') & _). rewrite Hh in Hh'. injection Hh' as <-. split; [lia|done].
Qed.

Lemma finished_iff_covered frames c :
  qc_follows (msg ++ extra) frames c ->
  QuicCoalescer_finished c = true <-> (forall i, 0 <= i < len msg -> covered frames i).
Proof.
  intros Hfol. pose proof Hfol as (Hwf & Hag & _ & Hcov). unfold QuicCoalescer_finished.
  destruct Hmsg as [Hhd Hl]. pose proof (hs_header_len _ _ Hhd) as [H4 _].
  destruct (Z.eq_dec (qc_expected_length c) 0) as [E|E].
  - rewrite E. cbn. split; [done|]. intros Hall. exfalso.
    unfold qc_wf in Hwf. rewrite E in Hwf. cbn in Hwf. destruct Hwf as (_ & Hf & _ & Hu).
    specialize (Hall 3 ltac:(lia)). apply Hcov in Hall; [|lia|done].
    destruct Hall as [?|Hx]; [unfold HandshakeHeader_SIZE in *; lia|]. rewrite Hf in Hx.
    by apply Exists_nil in Hx.
  - destruct (follows_expected frames c Hfol E) as [He _]. rewrite He in *. unfold qc_wf in Hwf.
    rewrite He in Hwf. destruct (Z.eqb_spec (len msg) 0); [lia|].
    destruct Hwf as (_ & _ & _ & Hu & _ & Hf). rewrite andb_true_iff, Z.ltb_lt, Z.eqb_eq. split.
    + intros [_ Hfull] i Hi. apply Hcov; [lia|lia|]. left. lia.
    + intros Hall. split; [lia|]. destruct (Z.eq_dec (len msg) (qc_unfilled_offset c)); [done|].
      exfalso. specialize (Hall (qc_unfilled_offset c) ltac:(lia)).
      apply Hcov in Hall as [?|Hx]; [lia| |lia|lia].
      apply Exists_exists in Hx as (f & Hin & Hx). eapply Forall_forall in Hf; [|exact Hin].
      unfold in_fragment in Hx. lia.
Qed.

Lemma finished_message frames c :
  qc_follows (msg ++ extra) frames c -> QuicCoalescer_finished c = true ->
  qc_buf c = msg /\ qc_header c = Some h.
Proof.
  intros Hfol Hfin. pose proof Hfol as (Hwf & Hag & _ & _). unfold QuicCoalescer_finished in Hfin.
  bool_to_prop. assert (qc_expected_length c <> 0) as E by lia.
  destruct (follows_expected frames c Hfol E) as [He Hh]. split; [|done].
  unfold qc_wf in Hwf. destruct (Z.eqb_spec (qc_expected_length c) 0); [done|].
  destruct Hwf as (_ & _ & Hb & _). apply list_eq. intros i.
  destruct (Nat.lt_ge_cases i (length msg)) as [Hi|Hi].
  - rewrite Hag; [by rewrite lookup_app_l by lia|]. left. unfold len in *. lia.
  - rewrite !lookup_ge_None_2; [done|lia|unfold len in *; lia].
Qed.

End Result.

(** ** Properties *)

(** C20: CRYPTO frames of one handshake stream may arrive in any order, overlap,
    repeat, be empty or run into the next message.  As long as the first one
    carries the header and none starts behind the message, all of them are
    accepted.  The message is reported as complete exactly when every byte of
    it has been carried by some frame, and then the buffer is the message,
    neither shorter nor longer. *)
Theorem quic_coalescer_any_order (max : Z) (msg extra : bytes) (h : HandshakeHeader)
    (f0 : CryptoFrame) (frames : list CryptoFrame) :
  hs_message msg h -> len (msg ++ extra) <= isize_max -> hh_msg_length h <= max ->
  Forall (frame_of_stream (msg ++ extra)) (f0 :: frames) ->
  cf_stream_offset f0 = 0 -> HandshakeHeader_SIZE <= len (cf_data f0) ->
  Forall (fun f => cf_stream_offset f <= len msg) frames ->
  exists c, recv_all (QuicCoalescer_new max) (f0 :: frames) = (Ok tt, c) /\
    (QuicCoalescer_finished c = true <-> (forall i, 0 <= i < len msg -> covered (f0 :: frames) i)) /\
    (QuicCoalescer_finished c = true -> qc_buf c = msg /\
       QuicCoalescer_parse_client_hello c =
         if hh_msg_type h =? HandshakeType_ClientHello
         then bind (ClientHello_parse_msg_data (drop 4 msg)) (fun ch => Ok (Some ch))
         else Err (ClientHello_InvalidMessageType (hh_msg_type h))).
Proof.
  intros Hmsg Hlen Hmax Hfs Ho Hsize Hle. pose proof Hfs as [Hf0 Hfs']%Forall_cons.
  pose proof (recv_crypto_follows (msg ++ extra) Hlen [] (QuicCoalescer_new max) f0
    (qc_follows_new _ max) Hf0) as Hr.
  destruct (QuicCoalescer_recv_crypto (QuicCoalescer_new max) f0) as [[[]|e|] c1] eqn:Hc1; [| |done].
  2: { exfalso. destruct Hmsg as [Hhd _]. destruct Hr as [[? _]|[[_ Hr]|[_ (h' & Hh' & Hr)]]].
       - done.
       - cbn in Hr. lia.
       - rewrite (hs_header_app _ extra _ Hhd) in Hh'. injection Hh' as <-. cbn in Hr. lia. }
  destruct Hr as (Hfol1 & _ & _). cbn [app] in Hfol1.
  assert (qc_expected_length c1 <> 0) as E1.
  { intros E. destruct Hfol1 as (Hwf & _ & _ & Hcov). unfold qc_wf in Hwf. rewrite E in Hwf. cbn in Hwf.
    destruct Hwf as (_ & Hf & _ & Hu). unfold HandshakeHeader_SIZE in *.
    assert (covered [f0] 3) as H3 by (constructor; lia).
    apply Hcov in H3 as [?|Hx]; [lia| |lia|done]. rewrite Hf in Hx. by apply Exists_nil in Hx. }
  destruct (follows_expected msg extra h Hmsg [f0] c1 Hfol1 E1) as [He1 _].
  destruct (recv_all_accepts (msg ++ extra) Hlen frames c1 [f0] Hfol1 E1 Hfs') as (c & Hall & _).
  { by rewrite He1. }
  exists c. cbn [recv_all]. rewrite Hc1. split; [done|].
  pose proof (recv_all_follows (msg ++ extra) Hlen frames c1 [f0] Hfol1 Hfs') as Hfol.
  rewrite Hall in Hfol. destruct Hfol as [Hfol _]. cbn [app] in Hfol.
  split; [by apply (finished_iff_covered msg extra h)|]. intros Hfin.
  destruct (finished_message msg extra h Hmsg _ c Hfol Hfin) as [Hb Hh]. split; [done|].
  unfold QuicCoalescer_parse_client_hello. rewrite Hh, Hb, Hfin.
  destruct (hh_msg_type h =? HandshakeType_ClientHello); cbn [negb]; [|done].
  destruct Hmsg as [Hhd _]. apply hs_header_len in Hhd as [? _].
  by rewrite slice_from_ok by (unfold HandshakeHeader_SIZE; lia).
Qed.

Lemma quic_coalescer_any_order_witness :
  exists c, recv_all (QuicCoalescer_new 16)
      [CryptoFrame_new 0 [x02; x00; x00; x04]; CryptoFrame_new 7 [xdd; x01];
       CryptoFrame_new 5 [xbb; xcc]; CryptoFrame_new 3 [x04; xaa]] = (Ok tt, c) /\
    QuicCoalescer_finished c = true /\ qc_buf c = [x02; x00; x00; x04; xaa; xbb; xcc; xdd].
Proof.
  destruct (quic_coalescer_any_order 16 [x02; x00; x00; x04; xaa; xbb; xcc; xdd] [x01; x00]
    {| hh_msg_type := 2; hh_msg_length := 4 |} (CryptoFrame_new 0 [x02; x00; x00; x04])
    [CryptoFrame_new 7 [xdd; x01]; CryptoFrame_new 5 [xbb; xcc]; CryptoFrame_new 3 [x04; xaa]])
    as (c & Hr & Hiff & Hfin).
  - split; reflexivity.
  - apply Z.leb_le. reflexivity.
  - apply Z.leb_le. reflexivity.
  - repeat constructor; try (apply Z.leb_le; reflexivity).
    + by exists [], [xaa; xbb; xcc; xdd; x01; x00].
    + by exists [x02; x00; x00; x04; xaa; xbb; xcc], [x00].
    + by exists [x02; x00; x00; x04; xaa], [xdd; x01; x00].
    + by exists [x02; x00; x00], [xbb; xcc; xdd; x01; x00].
  - reflexivity.
  - apply Z.leb_le. reflexivity.
  - repeat constructor; apply Z.leb_le; reflexivity.
  - exists c. assert (QuicCoalescer_finished c = true) as Hf.
    { apply Hiff. intros i Hi. unfold covered. rewrite !Exists_cons. cbn.
      change (len [x02; x00; x00; x04; xaa; xbb; xcc; xdd]) with 8 in Hi. unfold len. cbn [length]. lia. }
    split; [exact Hr|]. split; [exact Hf|]. apply (Hfin Hf).
Defined.

(** Whatever frames a peer sends (contradictory, overlapping or absurd
    ones), receiving them never panics and keeps the coalescer well formed:
    the buffer never grows beyond the announced message, and looking for a
    client hello in it never panics either. *)
Theorem quic_coalescer_safe (max : Z) (frames : list CryptoFrame) :
  Forall (fun f => 0 <= cf_stream_offset f /\ cf_stream_offset f + len (cf_data f) <= isize_max) frames ->
  match recv_all (QuicCoalescer_new max) frames with
  | (Ok _, c) => qc_wf c /\ len (qc_buf c) <= HandshakeHeader_SIZE + 2 ^ 24 /\
                 QuicCoalescer_parse_client_hello c <> Panic
  | (Err _, _) => True
  | (Panic, _) => False
  end.
Proof.
  intros Hfs. pose proof (QuicCoalescer_new_wf max) as Hwf. revert Hwf.
  generalize (QuicCoalescer_new max) as c.
  induction Hfs as [|f frames [Ho Hb] Hfs IH]; intros c Hwf; cbn [recv_all].
  - split; [done|]. split; [|by apply parse_client_hello_safe].
    unfold qc_wf, HandshakeHeader_SIZE in *. destruct (qc_expected_length c =? 0).
    + destruct Hwf as (_ & _ & ? & ?). lia.
    + destruct Hwf as (_ & ? & ? & _). lia.
  - pose proof (recv_crypto_safe c f Hwf Ho Hb) as Hs.
    destruct (QuicCoalescer_recv_crypto c f) as [[[]|e|] c']; [by apply IH|done..].
Qed.

Lemma quic_coalescer_safe_witness :
  qc_wf (snd (recv_all (QuicCoalescer_new 16)
    [CryptoFrame_new 0 [x01; x00; x00; x02]; CryptoFrame_new 5 [xff]; CryptoFrame_new 5 [xee; xee]])).
Proof.
  exact (proj1 (quic_coalescer_safe 16
    [CryptoFrame_new 0 [x01; x00; x00; x02]; CryptoFrame_new 5 [xff]; CryptoFrame_new 5 [xee; xee]]
    ltac:(repeat constructor; apply Z.leb_le; reflexivity))).
Defined.
