(* ===== verification/QuicPacket.v ===== *)
(** * QUIC Initial packets

    Models [lib/vey-codec/src/quic/packet/]: the Initial packets of versions 1
    and 2 ([v1.rs], [v2.rs]), header protection ([header.rs]), the labels of the
    key derivation ([hkdf.rs]) and the walk through the frames of a packet
    ([mod.rs]).

    The primitives of OpenSSL are parameters: HKDF with SHA-256, one AES-128
    block and AES-128-GCM decryption. *)

From Stdlib Require Import ZArith Lia Strings.Byte.
From stdpp Require Import base list.
From S2P Require Import Prelude Domain TlsExtension Tls QuicFrame QuicHandshake.

Inductive PacketParseError : Type :=
| Packet_TooSmall
| Packet_NotLongHeader
| Packet_InvalidLongPacketType
| Packet_UnknownVersion (v : Z)
| Packet_InvalidConnectionIdLength (n : Z)
| Packet_InvalidTokenLength (n : Z)
| Packet_InvalidLengthValue (n : Z)
| Packet_CryptoError
| Packet_InvalidPacketNumberLength (n : Z).

Definition LONG_PACKET_FIXED_LEN : Z := 5.

(** ** Header protection *)

(** [a ^ b] on [u8] *)
Definition bxor (a b : byte) : byte := to_u8 (Z.lxor (u8 a) (u8 b)).

Definition MAX_PACKET_NUMBER_BYTES : Z := 4.

Record Header : Type := {
  hd_byte1 : byte;
  hd_packet_number_buf : bytes;
  hd_packet_number_len : Z;
  hd_packet_number : Z
}.

(** The loop over the [n] bytes of the packet number, from byte [i]. *)
Fixpoint packet_number_loop {E} (left : nat) (i n : Z) (buf mask data : bytes) : res E bytes :=
  match left with
  | O => Ok buf
  | S left' =>
      let? m := index mask (i + 1) in
      let? d := index data i in
      let? buf := set_index buf (MAX_PACKET_NUMBER_BYTES - n + i) (bxor m d) in
      packet_number_loop left' (i + 1) n buf mask data
  end.

Definition Header_decode_long (byte1 : byte) (mask data : bytes) : res PacketParseError Header :=
  let? m0 := index mask 0 in
  let byte1_low_bits := Z.land (u8 (bxor byte1 m0)) 0x0F in
  let real_byte1 := to_u8 (Z.lor byte1_low_bits (Z.land (u8 byte1) 0xF0)) in
  let packet_number_len := Z.land byte1_low_bits 3 + 1 in
  if MAX_PACKET_NUMBER_BYTES <? packet_number_len then
    Err (Packet_InvalidPacketNumberLength packet_number_len)
  else
    let? buf := packet_number_loop (Z.to_nat packet_number_len) 0 packet_number_len
                  (replicate 4 x00) mask data in
    Ok {| hd_byte1 := real_byte1; hd_packet_number_buf := buf;
          hd_packet_number_len := packet_number_len; hd_packet_number := from_be buf |}.

Definition Header_packet_number_bytes {E} (self : Header) : res E bytes :=
  slice_from (hd_packet_number_buf self) (MAX_PACKET_NUMBER_BYTES - hd_packet_number_len self).

(** [iv[i] ^= self.packet_number_buf[j]] *)
Definition xor_at {E} (iv : bytes) (i : Z) (b : byte) : res E bytes :=
  let? x := index iv i in
  set_index iv i (bxor x b).

Definition Header_xor_nonce {E} (self : Header) (iv : bytes) : res E bytes :=
  let? p0 := index (hd_packet_number_buf self) 0 in
  let? iv := xor_at iv 8 p0 in
  let? p1 := index (hd_packet_number_buf self) 1 in
  let? iv := xor_at iv 9 p1 in
  let? p2 := index (hd_packet_number_buf self) 2 in
  let? iv := xor_at iv 10 p2 in
  let? p3 := index (hd_packet_number_buf self) 3 in
  xor_at iv 11 p3.

(** ** Key derivation *)

Definition build_info_from_label {E} (label : bytes) (output_len : Z) : res E bytes :=
  let label_len := 6 + len label mod 256 in
  if 255 <? label_len then Panic
  else
    let? l := slice label 0 (label_len - 6) in
    Ok (to_be 2 (output_len mod 2 ^ 16) ++ [to_u8 label_len] ++ bs "tls13 " ++ l ++ [x00]).

Section Crypto.

(** HKDF-Extract then Expand of (salt, key, info), HKDF-Expand of (key, info),
    both to an output of the given length; AES-128-ECB of (key, block); AES-128-GCM
    decryption of (key, iv, additional data, ciphertext, tag). *)
Context (hkdf_extract_expand : bytes -> bytes -> bytes -> Z -> option bytes).
Context (hkdf_expand : bytes -> bytes -> Z -> option bytes).
Context (aes_128_ecb : bytes -> bytes -> option bytes).
Context (aes_128_gcm_open : bytes -> bytes -> bytes -> bytes -> bytes -> option bytes).

Definition crypto {A} (r : option A) : res PacketParseError A :=
  match r with
  | Some a => Ok a
  | None => Err Packet_CryptoError
  end.

Definition quic_hkdf_extract_expand (salt ikm label : bytes) (output_len : Z)
    : res PacketParseError bytes :=
  let? info := build_info_from_label label output_len in
  crypto (hkdf_extract_expand salt ikm info output_len).

Definition quic_hkdf_expand (prk label : bytes) (output_len : Z) : res PacketParseError bytes :=
  let? info := build_info_from_label label output_len in
  crypto (hkdf_expand prk info output_len).

(** The first five bytes of a 32 byte buffer that the block is written to. *)
Definition aes_ecb_mask (key sample : bytes) : res PacketParseError bytes :=
  let? out := crypto (aes_128_ecb key sample) in
  Ok (take 5 (out ++ replicate 32 x00)).

Definition aes_gcm_decrypt (key iv : bytes) (aad_vec : list bytes) (ciphertext tag : bytes)
    : res PacketParseError bytes :=
  crypto (aes_128_gcm_open key iv (concat aad_vec) ciphertext tag).

(** What distinguishes the two versions. *)
Record QuicVersion : Type := {
  qv_type_bits : Z;
  qv_initial_salt : bytes;
  qv_key_label : bytes;
  qv_iv_label : bytes;
  qv_hp_label : bytes
}.

Definition QUIC_V1 : QuicVersion := {|
  qv_type_bits := 0x00;
  qv_initial_salt := [x38; x76; x2c; xf7; xf5; x59; x34; xb3; x4d; x17; x9a; xe6; xa4; xc8; x0c; xad;
                      xcc; xbb; x7f; x0a];
  qv_key_label := bs "quic key";
  qv_iv_label := bs "quic iv";
  qv_hp_label := bs "quic hp"
|}.

Definition QUIC_V2 : QuicVersion := {|
  qv_type_bits := 0x10;
  qv_initial_salt := [x0d; xed; xe3; xde; xf7; x00; xa6; xdb; x81; x93; x81; xbe; x6e; x26; x9d; xcb;
                      xf9; xbd; x2e; xd9];
  qv_key_label := bs "quicv2 key";
  qv_iv_label := bs "quicv2 iv";
  qv_hp_label := bs "quicv2 hp"
|}.

Record ClientSecrets : Type := { cs_key : bytes; cs_iv : bytes; cs_hp : bytes }.

Definition ClientSecrets_new (v : QuicVersion) (cid : bytes) : res PacketParseError ClientSecrets :=
  let? client_initial_secret :=
    quic_hkdf_extract_expand (qv_initial_salt v) cid (bs "client in") 32 in
  let? key := quic_hkdf_expand client_initial_secret (qv_key_label v) 16 in
  let? iv := quic_hkdf_expand client_initial_secret (qv_iv_label v) 12 in
  let? hp := quic_hkdf_expand client_initial_secret (qv_hp_label v) 16 in
  Ok {| cs_key := key; cs_iv := iv; cs_hp := hp |}.

(** ** Packets *)

(** The connection id at an offset, and the offset after it. *)
Definition packet_cid (data : bytes) (offset : Z) : res PacketParseError (bytes * Z) :=
  let? left := slice_from data offset in
  if len left =? 0 then Err Packet_TooSmall
  else
    let? l := index left 0 in
    if 20 <? u8 l then Err (Packet_InvalidConnectionIdLength (u8 l))
    else
      let? start := uadd offset 1 in
      let? fin := uadd start (u8 l) in
      if len data <? fin then Err Packet_TooSmall
      else
        let? cid := slice data start fin in
        Ok (cid, fin).

(** The offset after the token. *)
Definition packet_token (data : bytes) (offset : Z) : res PacketParseError Z :=
  let? left := slice_from data offset in
  let? v := VarInt_parse left in
  match v with
  | None => Err Packet_TooSmall
  | Some token_len =>
      let? start := uadd offset (vi_encoded_len token_len) in
      let? fin := uadd start (vi_value token_len) in
      if len data <? fin then Err (Packet_InvalidTokenLength (vi_value token_len)) else Ok fin
  end.

(** The offset of the packet number: the length field covers the rest of the
    packet, which must hold the sample. *)
Definition packet_length (data : bytes) (offset : Z) : res PacketParseError Z :=
  let? left := slice_from data offset in
  let? v := VarInt_parse left in
  match v with
  | None => Err Packet_TooSmall
  | Some length =>
      let? offset := uadd offset (vi_encoded_len length) in
      let? fin := uadd offset (vi_value length) in
      if negb (fin =? len data) then Err (Packet_InvalidLengthValue (vi_value length))
      else
        let? left := slice_from data offset in
        if len left <? 20 then Err (Packet_InvalidLengthValue (vi_value length)) else Ok offset
  end.

Record InitialPacketData : Type := { ip_packet_number : Z; ip_payload : bytes }.

(** Removal of the protection, from the packet number on. *)
Definition packet_unprotect (v : QuicVersion) (byte1 : byte) (data dst_cid : bytes) (pn_offset : Z)
    : res PacketParseError InitialPacketData :=
  let? left := slice_from data pn_offset in
  let? sample := slice left 4 20 in
  let? secrets := ClientSecrets_new v dst_cid in
  let? mask := aes_ecb_mask (cs_hp secrets) sample in
  let? header := Header_decode_long byte1 mask left in
  let? iv := Header_xor_nonce header (cs_iv secrets) in
  let? aad1 := slice data 1 pn_offset in
  let? aad2 := Header_packet_number_bytes header in
  let? tag_start := usub (len left) 16 in
  let? ciphertext := slice left (hd_packet_number_len header) tag_start in
  let? tag := slice_from left tag_start in
  let? payload := aes_gcm_decrypt (cs_key secrets) iv [[hd_byte1 header]; aad1; aad2] ciphertext tag in
  Ok {| ip_packet_number := hd_packet_number header; ip_payload := payload |}.

Definition parse_client_with (v : QuicVersion) (data : bytes)
    : res PacketParseError InitialPacketData :=
  let? byte1 := index data 0 in
  if negb (Z.land (u8 byte1) 0x30 =? qv_type_bits v) then Err Packet_InvalidLongPacketType
  else
    let offset := LONG_PACKET_FIXED_LEN in
    let? '(dst_cid, offset) := packet_cid data offset in
    let? '(_, offset) := packet_cid data offset in
    let? offset := packet_token data offset in
    let? pn_offset := packet_length data offset in
    packet_unprotect v byte1 data dst_cid pn_offset.

Definition InitialPacketV1_parse_client (data : bytes) := parse_client_with QUIC_V1 data.
Definition InitialPacketV2_parse_client (data : bytes) := parse_client_with QUIC_V2 data.

Inductive InitialPacket : Type :=
| IP_V1 (p : InitialPacketData)
| IP_V2 (p : InitialPacketData).

Definition InitialPacket_parse_client (data : bytes) : res PacketParseError InitialPacket :=
  if len data <? LONG_PACKET_FIXED_LEN then Err Packet_TooSmall
  else
    let? byte1 := index data 0 in
    if negb (Z.land (u8 byte1) 0xC0 =? 0xC0) then Err Packet_NotLongHeader
    else
      let? b1 := index data 1 in
      let? b2 := index data 2 in
      let? b3 := index data 3 in
      let? b4 := index data 4 in
      let version := from_be [b1; b2; b3; b4] in
      if version =? 0x00000001 then
        let? p := InitialPacketV1_parse_client data in Ok (IP_V1 p)
      else if version =? 0x6b3343cf then
        let? p := InitialPacketV2_parse_client data in Ok (IP_V2 p)
      else Err (Packet_UnknownVersion version).

Definition InitialPacket_packet_number (p : InitialPacket) : Z :=
  match p with
  | IP_V1 v1 => ip_packet_number v1
  | IP_V2 v2 => ip_packet_number v2
  end.

Definition InitialPacket_payload (p : InitialPacket) : bytes :=
  match p with
  | IP_V1 v1 => ip_payload v1
  | IP_V2 v2 => ip_payload v2
  end.

End Crypto.

(** ** The frames of a packet *)

Section Frames.
Context {T : Type} `{FrameConsume T}.

(** The loop of [consume_frames]; every round passes at least one byte. *)
Fixpoint consume_frames_loop (fuel : nat) (payload : bytes) (offset : Z) (consumer : T)
    : res FrameParseError unit * T :=
  match fuel with
  | O => (Panic, consumer)
  | S fuel' =>
      if offset <? len payload then
        match read_var_int payload offset with
        | Ok (frame_type, offset) =>
            if (vi_value frame_type =? 0x00) || (vi_value frame_type =? 0x01) then
              consume_frames_loop fuel' payload offset consumer
            else if (vi_value frame_type =? 0x02) || (vi_value frame_type =? 0x03) then
              let parsed :=
                let? left := slice_from payload offset in
                let? ack := AckFrame_parse left (vi_value frame_type =? 0x03) in
                uadd offset (ack_encoded_len ack) in
              match parsed with
              | Ok offset => consume_frames_loop fuel' payload offset consumer
              | Err e => (Err e, consumer)
              | Panic => (Panic, consumer)
              end
            else if vi_value frame_type =? 0x06 then
              let parsed :=
                let? left := slice_from payload offset in
                CryptoFrame_parse left in
              match parsed with
              | Ok crypto =>
                  match recv_crypto consumer crypto with
                  | (Ok _, consumer') =>
                      match uadd (E := FrameParseError) offset (cf_encoded_len crypto) with
                      | Ok offset => consume_frames_loop fuel' payload offset consumer'
                      | Err e => (Err e, consumer')
                      | Panic => (Panic, consumer')
                      end
                  | (Err e, consumer') => (Err e, consumer')
                  | (Panic, consumer') => (Panic, consumer')
                  end
              | Err e => (Err e, consumer)
              | Panic => (Panic, consumer)
              end
            else (Err (Frame_InvalidFrameType (vi_value frame_type)), consumer)
        | Err e => (Err e, consumer)
        | Panic => (Panic, consumer)
        end
      else (Ok tt, consumer)
  end.

Definition consume_frames (self : InitialPacket) (consumer : T) : res FrameParseError unit * T :=
  let payload := InitialPacket_payload self in
  consume_frames_loop (S (length payload)) payload 0 consumer.

End Frames.

(** ** No packet makes the parser panic *)

Section Safety.
Context (hkdf_extract_expand : bytes -> bytes -> bytes -> Z -> option bytes).
Context (hkdf_expand : bytes -> bytes -> Z -> option bytes).
Context (aes_128_ecb : bytes -> bytes -> option bytes).
Context (aes_128_gcm_open : bytes -> bytes -> bytes -> bytes -> bytes -> option bytes).
(** HKDF fills the output buffer it is given. *)
Context (Hexpand : forall prk info n out, hkdf_expand prk info n = Some out -> len out = n).
(** GCM is a stream cipher mode. *)
Context (Hopen : forall key iv aad ct tag pt,
  aes_128_gcm_open key iv aad ct tag = Some pt -> len pt = len ct).

Lemma wp_crypto {A} (r : option A) (Q : A -> Prop) (R : PacketParseError -> Prop) :
  R Packet_CryptoError -> (forall a, r = Some a -> Q a) -> wp (crypto r) Q R.
Proof. intros HR HQ. destruct r; [by apply HQ|done]. Qed.

Lemma build_info_ok {E} label n :
  len label <= 249 ->
  build_info_from_label (E := E) label n =
    Ok (to_be 2 (n mod 2 ^ 16) ++ [to_u8 (6 + len label)] ++ bs "tls13 " ++ label ++ [x00]).
Proof.
  intros Hl. unfold build_info_from_label. rewrite Z.mod_small by len_lia.
  destruct (Z.ltb_spec 255 (6 + len label)); [lia|].
  rewrite slice_ok by len_lia. cbn [bind]. change (Z.to_nat 0) with O. rewrite drop_0.
  by rewrite take_ge by (unfold len; lia).
Qed.

Lemma quic_hkdf_expand_wp prk label n :
  len label <= 249 ->
  wp (quic_hkdf_expand hkdf_expand prk label n) (fun out => len out = n) (fun _ => True).
Proof.
  intros Hl. unfold quic_hkdf_expand. rewrite build_info_ok by done. cbn [bind].
  apply wp_crypto; [done|]. intros out. apply Hexpand.
Qed.

(** The labels of both versions. *)
Definition known_version (v : QuicVersion) : Prop := v = QUIC_V1 \/ v = QUIC_V2.

Lemma known_version_labels v :
  known_version v ->
  len (qv_key_label v) <= 249 /\ len (qv_iv_label v) <= 249 /\ len (qv_hp_label v) <= 249.
Proof. intros [-> | ->]; split_and!; apply Z.leb_le; reflexivity. Qed.

Lemma ClientSecrets_new_wp v cid :
  known_version v ->
  wp (ClientSecrets_new hkdf_extract_expand hkdf_expand v cid)
    (fun s => len (cs_iv s) = 12) (fun _ => True).
Proof.
  intros (Hk & Hi & Hh)%known_version_labels. unfold ClientSecrets_new, quic_hkdf_extract_expand.
  rewrite build_info_ok by (apply Z.leb_le; reflexivity). cbn [bind].
  wp_step. apply wp_crypto; [done|]. intros prk _.
  wp_step. eapply wp_mono; [by apply quic_hkdf_expand_wp| |done]. intros key _. cbn beta.
  wp_step. eapply wp_mono; [by apply quic_hkdf_expand_wp| |done]. intros iv Hiv. cbn beta in Hiv |- *.
  wp_step. eapply wp_mono; [by apply quic_hkdf_expand_wp| |done]. intros hp _. exact Hiv.
Qed.

Lemma aes_ecb_mask_wp key sample :
  wp (aes_ecb_mask aes_128_ecb key sample) (fun m => len m = 5) (fun _ => True).
Proof. unfold aes_ecb_mask. wp_step. apply wp_crypto; [done|]. intros out _. wp_step. len_lia. Qed.

Lemma packet_number_loop_wp {E} left i n buf mask data :
  0 <= i -> i + Z.of_nat left = n -> n <= 4 -> len buf = 4 -> len mask = 5 -> 4 <= len data ->
  wp (packet_number_loop (E := E) left i n buf mask data) (fun b => len b = 4) (fun _ => True).
Proof.
  unfold MAX_PACKET_NUMBER_BYTES.
  revert i buf. induction left as [|left IH]; intros i buf Hi Hn Hn4 Hb Hm Hd; cbn [packet_number_loop].
  { done. }
  unfold MAX_PACKET_NUMBER_BYTES. wp_go. apply IH; len_lia.
Qed.

Lemma land_3 x : 0 <= Z.land x 3 <= 3.
Proof.
  pose proof (land_mask x 2 ltac:(lia)) as H. change (2 ^ 2 - 1) with 3 in H. rewrite H.
  pose proof (Z.mod_pos_bound x (2 ^ 2) ltac:(lia)). lia.
Qed.

Lemma Header_decode_long_wp byte1 mask data :
  len mask = 5 -> 4 <= len data ->
  wp (Header_decode_long byte1 mask data)
    (fun h => 1 <= hd_packet_number_len h <= 4 /\ len (hd_packet_number_buf h) = 4) (fun _ => True).
Proof.
  intros Hm Hd. unfold Header_decode_long. wp_step. wp_step.
  set (low := Z.land (u8 _) 0x0F). pose proof (land_3 low) as Hl. cbv zeta.
  wp_step; [done|]. wp_step. bool_to_prop. unfold MAX_PACKET_NUMBER_BYTES in *.
  eapply wp_mono; [apply packet_number_loop_wp; len_lia| |done]. intros buf Hb. cbn in Hb |- *. lia.
Qed.

Lemma Header_xor_nonce_wp {E} h iv :
  len (hd_packet_number_buf h) = 4 -> len iv = 12 ->
  wp (Header_xor_nonce (E := E) h iv) (fun iv' => len iv' = 12) (fun _ => True).
Proof. intros. unfold Header_xor_nonce, xor_at. wp_go. len_lia. Qed.

Lemma packet_cid_wp data o :
  len data <= isize_max -> 0 <= o <= len data ->
  wp (packet_cid data o) (fun x => o < snd x <= len data) (fun _ => True).
Proof. intros. unfold packet_cid. wp_go; try exact I. cbn. len_lia. Qed.

Lemma packet_token_wp data o :
  len data <= isize_max -> 0 <= o <= len data ->
  wp (packet_token data o) (fun o' => o < o' <= len data) (fun _ => True).
Proof.
  intros. unfold packet_token. wp_step. wp_step. wp_step. apply VarInt_parse_wp; [exact I|].
  intros. wp_go; [exact I|]. len_lia.
Qed.

Lemma packet_length_wp data o :
  len data <= isize_max -> 0 <= o <= len data ->
  wp (packet_length data o) (fun o' => o < o' /\ o' + 20 <= len data) (fun _ => True).
Proof.
  intros. unfold packet_length. wp_step. wp_step. wp_step. apply VarInt_parse_wp; [exact I|].
  intros. wp_go; try exact I. len_lia.
Qed.

Lemma packet_unprotect_wp v byte1 data cid o :
  known_version v -> len data <= isize_max -> 1 <= o -> o + 20 <= len data ->
  wp (packet_unprotect hkdf_extract_expand hkdf_expand aes_128_ecb aes_128_gcm_open v byte1 data cid o)
    (fun p => len (ip_payload p) <= len data) (fun _ => True).
Proof.
  intros Hv Hlen Ho1 Ho2. unfold packet_unprotect. do 4 wp_step.
  wp_step. eapply wp_mono; [by apply ClientSecrets_new_wp| |done]. intros secrets Hiv. cbn beta in Hiv |- *.
  wp_step. eapply wp_mono; [apply aes_ecb_mask_wp| |done]. intros mask Hm. cbn beta in Hm |- *.
  wp_step. eapply wp_mono; [apply Header_decode_long_wp; len_lia| |done]. intros h [Hn Hb]. cbn beta.
  wp_step. eapply wp_mono; [by apply Header_xor_nonce_wp| |done]. intros iv _. cbn beta.
  unfold Header_packet_number_bytes, MAX_PACKET_NUMBER_BYTES, aes_gcm_decrypt.
  wp_go. apply wp_crypto; [done|]. intros pt Hpt. apply Hopen in Hpt. wp_step. cbn. len_lia.
Qed.

Lemma parse_client_with_wp v data :
  known_version v -> LONG_PACKET_FIXED_LEN <= len data <= isize_max ->
  wp (parse_client_with hkdf_extract_expand hkdf_expand aes_128_ecb aes_128_gcm_open v data)
    (fun p => len (ip_payload p) <= len data) (fun _ => True).
Proof.
  unfold LONG_PACKET_FIXED_LEN. intros Hv Hlen. unfold parse_client_with, LONG_PACKET_FIXED_LEN.
  wp_step. wp_step. wp_step; [done|]. cbv zeta.
  wp_step. eapply wp_mono; [apply packet_cid_wp; len_lia| |done]. intros [dst o1] H1. cbn in H1 |- *.
  wp_step. eapply wp_mono; [apply packet_cid_wp; len_lia| |done]. intros [src o2] H2. cbn in H2 |- *.
  wp_step. eapply wp_mono; [apply packet_token_wp; len_lia| |done]. intros o3 H3. cbn beta in H3 |- *.
  wp_step. eapply wp_mono; [apply packet_length_wp; len_lia| |done]. intros o4 H4. cbn beta in H4 |- *.
  apply packet_unprotect_wp; [done|lia..].
Qed.

Lemma InitialPacket_parse_client_wp data :
  len data <= isize_max ->
  wp (InitialPacket_parse_client hkdf_extract_expand hkdf_expand aes_128_ecb aes_128_gcm_open data)
    (fun p => len (InitialPacket_payload p) <= len data) (fun _ => True).
Proof.
  intros Hlen. unfold InitialPacket_parse_client. wp_step; [done|]. bool_to_prop.
  unfold LONG_PACKET_FIXED_LEN in *. wp_step. wp_step. wp_step; [done|]. do 8 wp_step. cbv zeta.
  wp_step; [|wp_step; [|done]]; wp_step;
    (eapply wp_mono; [apply parse_client_with_wp; [by (left + right)|unfold LONG_PACKET_FIXED_LEN; lia]| |done]);
    intros p Hp; exact Hp.
Qed.

End Safety.

(** ** Walking through the frames *)

(** What [consume_frames] needs from a consumer: a frame at a possible position
    does not make it panic, and an accepted frame keeps it usable. *)
Class FrameConsumeLaws (T : Type) `{FrameConsume T} := {
  consumer_ok : T -> Prop;
  recv_crypto_keeps : forall (c : T) (f : CryptoFrame),
    consumer_ok c -> 0 <= cf_stream_offset f ->
    cf_stream_offset f + len (cf_data f) <= isize_max ->
    match recv_crypto c f with
    | (Ok _, c') => consumer_ok c'
    | (Err _, _) => True
    | (Panic, _) => False
    end
}.

#[global] Instance QuicCoalescer_FrameConsumeLaws : FrameConsumeLaws QuicCoalescer :=
  {| consumer_ok := qc_wf; recv_crypto_keeps := recv_crypto_safe |}.

Section Walk.
Context {T : Type} `{FrameConsumeLaws T}.

(** The outcome of a walk. *)
Definition walk_ok (r : res FrameParseError unit * T) : Prop :=
  match r with
  | (Ok _, c) => consumer_ok c
  | (Err _, _) => True
  | (Panic, _) => False
  end.

(** A parse result selects how the walk goes on. *)
Lemma walk_match {A} (m : res FrameParseError A) (k : A -> res FrameParseError unit * T) (c : T) Q :
  wp m Q (fun _ => True) -> (forall a, Q a -> walk_ok (k a)) ->
  walk_ok (match m with Ok a => k a | Err e => (Err e, c) | Panic => (Panic, c) end).
Proof. intros Hm Hk. destruct m; [by apply Hk|done..]. Qed.

Lemma consume_frames_loop_ok fuel payload o (c : T) :
  len payload <= 2 ^ 62 -> 0 <= o <= len payload -> len payload - o < Z.of_nat fuel ->
  consumer_ok c -> walk_ok (consume_frames_loop fuel payload o c).
Proof.
  intros Hlen. revert o c. induction fuel as [|fuel IH]; intros o c Ho Hfuel Hc; [lia|].
  cbn [consume_frames_loop]. destruct (Z.ltb_spec o (len payload)); [|done].
  pose proof (read_var_int_wp payload o (fun x => o < snd x <= len payload) (fun _ => True)
    ltac:(len_lia) ltac:(lia) I ltac:(intros; cbn; lia)) as Hr.
  destruct (read_var_int payload o) as [[ty o1]| |]; [|done..]. cbn in Hr. cbv beta iota.
  destruct ((vi_value ty =? 0x00) || (vi_value ty =? 0x01)); [apply IH; lia || done|].
  destruct ((vi_value ty =? 0x02) || (vi_value ty =? 0x03)).
  { cbv zeta. apply walk_match with (Q := fun o' => o1 <= o' <= len payload); [|intros; apply IH; lia || done].
    wp_step. wp_step. wp_step. eapply wp_mono; [apply AckFrame_parse_wp; len_lia| |done].
    intros ack [Hack _]. cbn beta. wp_go. len_lia. }
  destruct (vi_value ty =? 0x06); [|done]. cbv zeta.
  apply walk_match with (Q := fun f => 0 <= cf_stream_offset f < 2 ^ 62 /\
    0 <= cf_encoded_len f <= len payload - o1 /\ len (cf_data f) <= len payload).
  { wp_step. wp_step. eapply wp_mono; [apply CryptoFrame_parse_wp; len_lia| |done].
    cbn beta. intros f (Hoff & hd & rest & Hs & Hhd & Hel). split; [done|]. rewrite Hs in *. len_lia. }
  intros f (Hoff & Hel & Hd). pose proof (recv_crypto_keeps c f Hc ltac:(lia) ltac:(len_lia)) as Hk.
  destruct (recv_crypto c f) as [[[]| |] c']; [|done..].
  rewrite uadd_ok by len_lia. apply IH; lia || done.
Qed.

End Walk.

Section Delivery.
Context {T : Type} `{FrameConsume T}.

(** The frames of Initial packets. *)
Inductive PacketFrame : Type :=
| PF_Padding
| PF_Ping
| PF_Ack (largest delay first : Z) (ranges : list (Z * Z))
| PF_Crypto (stream_offset : Z) (data : bytes).

Definition frame_bytes (f : PacketFrame) : bytes :=
  match f with
  | PF_Padding => [x00]
  | PF_Ping => [x01]
  | PF_Ack largest delay first ranges => x02 :: ack_bytes largest delay first ranges
  | PF_Crypto off d => x06 :: var_int_bytes off ++ var_int_bytes (len d) ++ d
  end.

Definition frame_fits (f : PacketFrame) : Prop :=
  match f with
  | PF_Padding | PF_Ping => True
  | PF_Ack largest delay first ranges =>
      is_u16 largest /\ is_u16 delay /\ is_u16 first /\ len ranges <= u16_max /\
      Forall (fun r => is_u16 (fst r) /\ is_u16 (snd r)) ranges
  | PF_Crypto off d => is_u16 off /\ len d <= u16_max
  end.

Definition payload_bytes (frames : list PacketFrame) : bytes := concat (map frame_bytes frames).

Definition crypto_frame (off : Z) (d : bytes) : CryptoFrame :=
  {| cf_stream_offset := off; cf_data := d;
     cf_encoded_len := len (var_int_bytes off) + len (var_int_bytes (len d)) + len d |}.

(** The CRYPTO frames, in the order of the packet. *)
Fixpoint crypto_frames (frames : list PacketFrame) : list CryptoFrame :=
  match frames with
  | [] => []
  | PF_Crypto off d :: frames' => crypto_frame off d :: crypto_frames frames'
  | _ :: frames' => crypto_frames frames'
  end.

(** Hand frames to a consumer until it refuses one. *)
Fixpoint recv_each (c : T) (frames : list CryptoFrame) : res FrameParseError unit * T :=
  match frames with
  | [] => (Ok tt, c)
  | f :: frames' =>
      match recv_crypto c f with
      | (Ok _, c') => recv_each c' frames'
      | r => r
      end
  end.

Lemma frame_bytes_cons f : exists ty body, frame_bytes f = ty :: body /\ u8 ty < 64.
Proof. destruct f; by eexists _, _. Qed.

(** The type of a frame is read in one byte. *)
Lemma read_frame_type pre (ty : byte) rest data :
  data = pre ++ ty :: rest -> u8 ty < 64 -> len data <= isize_max ->
  read_var_int data (len pre) = Ok ({| vi_value := u8 ty; vi_encoded_len := 1 |}, len (pre ++ [ty])).
Proof.
  intros Hd Hty Hlen. pose proof (u8_range ty).
  assert (var_int_bytes (u8 ty) = [ty]) as Hv.
  { unfold var_int_bytes. destruct (Z.ltb_spec (u8 ty) 64); [by rewrite to_u8_u8|lia]. }
  rewrite (read_var_int_bytes pre (u8 ty) rest data); rewrite ?Hv; [done|done|len_lia|done].
Qed.

Lemma consume_frames_loop_delivers frames : forall fuel payload pre (c : T),
  Forall frame_fits frames -> payload = pre ++ payload_bytes frames -> len payload <= isize_max ->
  (length (payload_bytes frames) < fuel)%nat ->
  consume_frames_loop fuel payload (len pre) c = recv_each c (crypto_frames frames).
Proof.
  induction frames as [|f frames IH]; intros fuel payload pre c Hfit Hp Hlen Hfuel;
    (destruct fuel as [|fuel]; [lia|]); cbn [consume_frames_loop].
  { rewrite Hp. cbn. rewrite app_nil_r. by rewrite Z.ltb_irrefl. }
  apply Forall_cons in Hfit as [Hf Hfit]. specialize (IH fuel payload).
  assert (payload = pre ++ frame_bytes f ++ payload_bytes frames) as Hp' by exact Hp.
  assert (length (frame_bytes f) + length (payload_bytes frames) < S fuel)%nat as Hfuel'
    by (rewrite <- length_app; exact Hfuel).
  destruct (Z.ltb_spec (len pre) (len payload)) as [_|Hge].
  2: { destruct (frame_bytes_cons f) as (ty & body & Hb & _). rewrite Hb in Hp'. rewrite Hp' in Hge. len_lia. }
  assert (forall body ty, frame_bytes f = ty :: body ->
    forall c', consume_frames_loop fuel payload (len (pre ++ ty :: body)) c' =
      recv_each c' (crypto_frames frames)) as Hnext.
  { intros body ty Hb c'. apply IH; [done| |done|].
    - by rewrite Hp', Hb, <- app_assoc.
    - rewrite Hb in Hfuel'. cbn [length] in Hfuel'. lia. }
  destruct f as [| |largest delay first ranges|off d]; cbn [frame_bytes app] in Hp';
    rewrite (read_frame_type _ _ _ _ Hp') by done; cbv beta iota; cbn [vi_value].
  - by apply Hnext.
  - by apply Hnext.
  - change ((u8 x02 =? 0) || (u8 x02 =? 1)) with false. change ((u8 x02 =? 2) || (u8 x02 =? 3)) with true.
    change (u8 x02 =? 3) with false. cbv iota zeta.
    destruct Hf as (H1 & H2 & H3 & H4 & H5).
    rewrite (slice_from_at (pre ++ [x02]) (ack_bytes largest delay first ranges ++ payload_bytes frames))
      by (done || by rewrite Hp', <- app_assoc). cbn [bind].
    destruct (AckFrame_parse_bytes largest delay first ranges (payload_bytes frames)) as (a & -> & Ha);
      [done..|rewrite Hp' in Hlen; len_lia|]. cbn [bind].
    rewrite Ha, uadd_ok by (rewrite Hp' in Hlen; len_lia). rewrite <- len_app, <- app_assoc. by apply Hnext.
  - change ((u8 x06 =? 0) || (u8 x06 =? 1)) with false. change ((u8 x06 =? 2) || (u8 x06 =? 3)) with false.
    change (u8 x06 =? 6) with true. cbv iota zeta. destruct Hf as [Ho Hd].
    rewrite (slice_from_at (pre ++ [x06]) (var_int_bytes off ++ var_int_bytes (len d) ++ d ++ payload_bytes frames))
      by (done || by rewrite Hp', <- !app_assoc). cbn [bind].
    rewrite CryptoFrame_parse_bytes by (done || rewrite Hp' in Hlen; len_lia).
    cbn [crypto_frames recv_each]. unfold crypto_frame.
    destruct (recv_crypto c _) as [[[]| |] c']; [|done..]. cbn [cf_encoded_len].
    rewrite uadd_ok by (rewrite Hp' in Hlen; len_lia).
    specialize (Hnext _ _ eq_refl c'). rewrite <- Hnext. f_equal. len_lia.
Qed.

End Delivery.

Lemma recv_each_recv_all (c : QuicCoalescer) frames : recv_each c frames = recv_all c frames.
Proof.
  revert c. induction frames as [|f frames IH]; intros c; cbn [recv_each recv_all]; [done|].
  change (recv_crypto c f) with (QuicCoalescer_recv_crypto c f).
  destruct (QuicCoalescer_recv_crypto c f) as [[[]| |] c']; [apply IH|done..].
Qed.

(** ** Unprotecting what a client protects *)

Section Xor.

Definition all_bytes : bytes := map (fun n => to_u8 (Z.of_nat n)) (seq 0 256).

Lemma all_bytes_all b : In b all_bytes.
Proof.
  apply in_map_iff. pose proof (u8_range b). exists (Z.to_nat (u8 b)).
  rewrite Z2Nat.id by lia. split; [apply to_u8_u8|]. apply in_seq. lia.
Qed.

Lemma byte_forall2 (P : byte -> byte -> bool) :
  forallb (fun a => forallb (P a) all_bytes) all_bytes = true -> forall a b, P a b = true.
Proof.
  rewrite forallb_forall. intros H a b. specialize (H a (all_bytes_all a)).
  rewrite forallb_forall in H. apply H, all_bytes_all.
Qed.

Lemma bxor_cancel a b : bxor b (bxor a b) = a.
Proof.
  apply u8_inj, Z.eqb_eq. revert a b. apply (byte_forall2 (fun a b => u8 (bxor b (bxor a b)) =? u8 a)).
  vm_compute. reflexivity.
Qed.

Lemma bxor_0 a : bxor a x00 = a.
Proof. unfold bxor. change (u8 x00) with 0. by rewrite Z.lxor_0_r, to_u8_u8. Qed.

(** Header protection covers the low four bits of the first byte. *)
Definition mask_byte1 (b m : byte) : byte := bxor b (to_u8 (Z.land (u8 m) 0x0F)).

Lemma unmask_byte1 b m :
  let low := Z.land (u8 (bxor (mask_byte1 b m) m)) 0x0F in
  low = Z.land (u8 b) 0x0F /\ to_u8 (Z.lor low (Z.land (u8 (mask_byte1 b m)) 0xF0)) = b.
Proof.
  cbv zeta. cut ((Z.land (u8 (bxor (mask_byte1 b m) m)) 0x0F =? Z.land (u8 b) 0x0F) &&
    (u8 (to_u8 (Z.lor (Z.land (u8 (bxor (mask_byte1 b m) m)) 0x0F) (Z.land (u8 (mask_byte1 b m)) 0xF0)))
      =? u8 b) = true).
  { intros H. bool_to_prop. split; [done|by apply u8_inj]. }
  revert b m. apply (byte_forall2 (fun b m => _ && _)). vm_compute. reflexivity.
Qed.

Lemma mask_byte1_high b m :
  Z.land (u8 (mask_byte1 b m)) 0xF0 = Z.land (u8 b) 0xF0.
Proof.
  apply Z.eqb_eq. revert b m.
  apply (byte_forall2 (fun b m => Z.land (u8 (mask_byte1 b m)) 0xF0 =? Z.land (u8 b) 0xF0)).
  vm_compute. reflexivity.
Qed.

End Xor.

Section Protect.
Context (hkdf_extract_expand : bytes -> bytes -> bytes -> Z -> option bytes).
Context (hkdf_expand : bytes -> bytes -> Z -> option bytes).
Context (aes_128_ecb : bytes -> bytes -> option bytes).
Context (aes_128_gcm_open : bytes -> bytes -> bytes -> bytes -> bytes -> option bytes).
(** Encryption of (key, iv, additional data, plaintext) to ciphertext and tag. *)
Context (aes_128_gcm_seal : bytes -> bytes -> bytes -> bytes -> bytes * bytes).

(** The packets a client may send. *)
Record ClientPacket : Type := {
  cp_v2 : bool;
  cp_dst_cid : bytes;
  cp_src_cid : bytes;
  cp_token : bytes;
  cp_pn_len : nat;
  cp_packet_number : Z;
  cp_payload : bytes
}.

Definition cp_version (p : ClientPacket) : QuicVersion := if cp_v2 p then QUIC_V2 else QUIC_V1.

Definition cp_version_bytes (p : ClientPacket) : bytes :=
  if cp_v2 p then [x6b; x33; x43; xcf] else [x00; x00; x00; x01].

Definition cid_bytes (cid : bytes) : bytes := to_u8 (len cid) :: cid.

(** The fields between the first byte and the packet number. *)
Definition cp_fields (p : ClientPacket) : bytes :=
  cp_version_bytes p ++ cid_bytes (cp_dst_cid p) ++ cid_bytes (cp_src_cid p) ++
  (var_int_bytes (len (cp_token p)) ++ cp_token p) ++
  var_int_bytes (Z.of_nat (cp_pn_len p) + len (cp_payload p) + 16).

(** A long header of type Initial, 0b00 in version 1 and 0b01 in version 2. *)
Definition cp_byte1 (p : ClientPacket) : byte :=
  to_u8 (0xC0 + (if cp_v2 p then 0x10 else 0x00) + (Z.of_nat (cp_pn_len p) - 1)).

Definition cp_pn_bytes (p : ClientPacket) : bytes := to_be (cp_pn_len p) (cp_packet_number p).

Definition cp_nonce (iv : bytes) (p : ClientPacket) : bytes :=
  zip_with bxor iv (replicate (12 - cp_pn_len p) x00 ++ cp_pn_bytes p).

(** The HkdfLabel of TLS 1.3, RFC 8446 section 7.1, without a context. *)
Definition hkdf_label (label : bytes) (n : Z) : bytes :=
  let full := bs "tls13 " ++ label in
  to_be 2 n ++ to_u8 (len full) :: full ++ [x00].

(** The client's Initial secrets: salt and labels of RFC 9001, sections 5.1 and
    5.2, for version 1, and of RFC 9369, section 3.3, for version 2. *)
Definition initial_salt (v2 : bool) : bytes :=
  to_be 20 (if v2 then 0x0dede3def700a6db819381be6e269dcbf9bd2ed9 else 0x38762cf7f55934b34d179ae6a4c80cadccbb7f0a).

Definition client_initial_secrets (v2 : bool) (cid : bytes) : option ClientSecrets :=
  let quic := if v2 then bs "quicv2 " else bs "quic " in
  secret ← hkdf_extract_expand (initial_salt v2) cid (hkdf_label (bs "client in") 32) 32;
  key ← hkdf_expand secret (hkdf_label (quic ++ bs "key") 16) 16;
  iv ← hkdf_expand secret (hkdf_label (quic ++ bs "iv") 12) 12;
  hp ← hkdf_expand secret (hkdf_label (quic ++ bs "hp") 16) 16;
  Some {| cs_key := key; cs_iv := iv; cs_hp := hp |}.

(** Packet protection and header protection of RFC 9001, sections 5.3 and 5.4. *)
Definition protect (s : ClientSecrets) (p : ClientPacket) : option bytes :=
  let header := cp_byte1 p :: cp_fields p ++ cp_pn_bytes p in
  let '(ct, tag) := aes_128_gcm_seal (cs_key s) (cp_nonce (cs_iv s) p) header (cp_payload p) in
  match aes_128_ecb (cs_hp s) (take 16 (drop (4 - cp_pn_len p) (ct ++ tag))) with
  | Some (m0 :: m) =>
      Some (mask_byte1 (cp_byte1 p) m0 :: cp_fields p ++ zip_with bxor (cp_pn_bytes p) (take 4 m) ++ ct ++ tag)
  | _ => None
  end.

Definition cp_valid (p : ClientPacket) : Prop :=
  len (cp_dst_cid p) <= 20 /\ len (cp_src_cid p) <= 20 /\ len (cp_token p) <= u16_max /\
  (1 <= cp_pn_len p <= 4)%nat /\ 0 <= cp_packet_number p < 256 ^ Z.of_nat (cp_pn_len p) /\
  4 <= Z.of_nat (cp_pn_len p) + len (cp_payload p) /\
  Z.of_nat (cp_pn_len p) + len (cp_payload p) + 16 <= u16_max.

(** *** The fields *)

Lemma packet_cid_bytes pre cid rest data :
  data = pre ++ cid_bytes cid ++ rest -> len cid <= 20 -> len data <= isize_max ->
  packet_cid data (len pre) = Ok (cid, len (pre ++ cid_bytes cid)).
Proof.
  intros Hd Hc Hlen. unfold packet_cid. rewrite (slice_from_at pre _ data _ Hd) by done. cbn [bind].
  unfold cid_bytes in *. cbn [app] in *. rewrite Hd in Hlen.
  destruct (Z.eqb_spec (len (to_u8 (len cid) :: cid ++ rest)) 0); [len_lia|].
  rewrite (index_ok _ 0 (to_u8 (len cid))) by done. cbn [bind].
  rewrite u8_to_u8_small by len_lia. destruct (Z.ltb_spec 20 (len cid)); [lia|].
  rewrite uadd_ok by len_lia. cbn [bind]. rewrite uadd_ok by len_lia. cbn [bind].
  destruct (Z.ltb_spec (len data) (len pre + 1 + len cid)); [subst data; len_lia|].
  rewrite (slice_at (pre ++ [to_u8 (len cid)]) cid rest); [|by rewrite Hd, <- app_assoc|len_lia|done].
  cbn [bind]. do 2 f_equal. len_lia.
Qed.

Lemma packet_token_bytes pre token rest data :
  data = pre ++ (var_int_bytes (len token) ++ token) ++ rest -> len token <= u16_max -> len data <= isize_max ->
  packet_token data (len pre) = Ok (len (pre ++ var_int_bytes (len token) ++ token)).
Proof.
  intros Hd Ht Hlen. unfold packet_token. rewrite <- app_assoc in Hd.
  rewrite (slice_from_at pre _ data _ Hd) by done. cbn [bind]. rewrite Hd in Hlen |- *.
  rewrite VarInt_parse_eq, var_int_spec_bytes by len_lia. cbn [bind vi_value vi_encoded_len].
  rewrite uadd_ok by len_lia. cbn [bind]. rewrite uadd_ok by len_lia. cbn [bind].
  match goal with |- (if ?a <? ?b then _ else _) = _ => destruct (Z.ltb_spec a b); [len_lia|] end.
  f_equal. len_lia.
Qed.

Lemma packet_length_bytes pre rest data :
  data = pre ++ var_int_bytes (len rest) ++ rest -> 20 <= len rest <= u16_max -> len data <= isize_max ->
  packet_length data (len pre) = Ok (len (pre ++ var_int_bytes (len rest))).
Proof.
  intros Hd Hr Hlen. unfold packet_length. rewrite (slice_from_at pre _ data _ Hd) by done. cbn [bind].
  rewrite VarInt_parse_eq, var_int_spec_bytes by len_lia. cbn [bind vi_value vi_encoded_len].
  assert (len data = len pre + len (var_int_bytes (len rest)) + len rest) as Hl by (rewrite Hd; len_lia).
  rewrite uadd_ok by len_lia. cbn [bind]. rewrite uadd_ok by len_lia. cbn [bind].
  rewrite Hl, Z.eqb_refl. cbn [negb].
  rewrite (slice_from_at (pre ++ var_int_bytes (len rest)) rest); [|by rewrite Hd, app_assoc|len_lia].
  cbn [bind]. destruct (Z.ltb_spec (len rest) 20); [lia|]. f_equal. len_lia.
Qed.

(** *** Secrets *)

(** The salts and labels of the code are those of the RFCs. *)
Lemma ClientSecrets_new_prescribed p :
  ClientSecrets_new hkdf_extract_expand hkdf_expand (cp_version p) (cp_dst_cid p) =
  crypto (client_initial_secrets (cp_v2 p) (cp_dst_cid p)).
Proof.
  unfold ClientSecrets_new, quic_hkdf_extract_expand, quic_hkdf_expand, client_initial_secrets, cp_version.
  set (v := if cp_v2 p then QUIC_V2 else QUIC_V1).
  assert (known_version v) as (Hk & Hi & Hh)%known_version_labels by (unfold v; destruct (cp_v2 p); by (left + right)).
  rewrite build_info_ok by (apply Z.leb_le; reflexivity). cbn [bind].
  assert (qv_initial_salt v = initial_salt (cp_v2 p)) as -> by (unfold v; by destruct (cp_v2 p)).
  change (to_be 2 (32 mod 2 ^ 16) ++ _) with (hkdf_label (bs "client in") 32).
  destruct (hkdf_extract_expand _ _ _ _) as [secret|]; [|done]. cbn [crypto bind mbind option_bind].
  rewrite !build_info_ok by done. cbn [bind]. unfold v.
  assert (forall a b c : option bytes,
    (let? key := crypto a in let? iv := crypto b in let? hp := crypto c in Ok {| cs_key := key; cs_iv := iv; cs_hp := hp |}) =
    crypto (key ← a; iv ← b; hp ← c; Some {| cs_key := key; cs_iv := iv; cs_hp := hp |})) as Hall by by intros [] [] [].
  destruct (cp_v2 p); apply Hall.
Qed.

(** *** Header protection *)

Lemma cp_byte1_bits p :
  (1 <= cp_pn_len p <= 4)%nat ->
  Z.land (Z.land (u8 (cp_byte1 p)) 0x0F) 3 + 1 = Z.of_nat (cp_pn_len p) /\
  Z.land (u8 (cp_byte1 p)) 0xF0 = 0xC0 + qv_type_bits (cp_version p).
Proof.
  intros Hn. unfold cp_byte1, cp_version.
  assert (cp_pn_len p = 1 \/ cp_pn_len p = 2 \/ cp_pn_len p = 3 \/ cp_pn_len p = 4)%nat as Hc by lia.
  destruct Hc as [-> | [-> | [-> | ->]]]; destruct (cp_v2 p); split; reflexivity.
Qed.

Lemma packet_number_loop_unmasks {E} pn m rest m0 :
  (1 <= length pn <= 4)%nat -> length m = 4%nat ->
  packet_number_loop (E := E) (length pn) 0 (len pn) (replicate 4 x00) (m0 :: m)
    (zip_with bxor pn m ++ rest) = Ok (replicate (4 - length pn) x00 ++ pn).
Proof.
  intros Hn Hm. destruct m as [|m1 [|m2 [|m3 [|m4 [|]]]]]; try discriminate Hm.
  destruct pn as [|p1 [|p2 [|p3 [|p4 [|]]]]]; cbn [length] in Hn; try lia;
    lazy -[bxor]; by rewrite !bxor_cancel.
Qed.

Lemma Header_decode_long_unmasks p m0 m rest :
  (1 <= cp_pn_len p <= 4)%nat -> length m = 4%nat ->
  Header_decode_long (mask_byte1 (cp_byte1 p) m0) (m0 :: m) (zip_with bxor (cp_pn_bytes p) m ++ rest) =
    Ok {| hd_byte1 := cp_byte1 p;
          hd_packet_number_buf := replicate (4 - cp_pn_len p) x00 ++ cp_pn_bytes p;
          hd_packet_number_len := Z.of_nat (cp_pn_len p);
          hd_packet_number := from_be (replicate (4 - cp_pn_len p) x00 ++ cp_pn_bytes p) |}.
Proof.
  intros Hn Hm. unfold Header_decode_long. rewrite (index_ok _ 0 m0) by done. cbn [bind].
  destruct (unmask_byte1 (cp_byte1 p) m0) as [Hlow Hbyte]. destruct (cp_byte1_bits p Hn) as [Hlen _].
  cbv zeta in Hlow, Hbyte |- *. rewrite Hbyte, Hlow, Hlen.
  destruct (Z.ltb_spec MAX_PACKET_NUMBER_BYTES (Z.of_nat (cp_pn_len p)));
    [unfold MAX_PACKET_NUMBER_BYTES in *; lia|].
  assert (length (cp_pn_bytes p) = cp_pn_len p) as Hl by apply length_to_be.
  pose proof (packet_number_loop_unmasks (E := PacketParseError) (cp_pn_bytes p) m rest m0) as Hloop.
  unfold len in Hloop. rewrite Hl in Hloop. rewrite Nat2Z.id, Hloop by done. done.
Qed.

Lemma Header_xor_nonce_eq {E} h iv :
  length (hd_packet_number_buf h) = 4%nat -> length iv = 12%nat ->
  Header_xor_nonce (E := E) h iv =
    Ok (zip_with bxor iv (replicate 8 x00 ++ hd_packet_number_buf h)).
Proof.
  destruct h as [b1 buf n pn]. cbn [hd_packet_number_buf]. intros Hb Hi.
  destruct buf as [|? [|? [|? [|? [|]]]]]; try discriminate Hb.
  do 12 (destruct iv as [|? iv]; [discriminate Hi|]). destruct iv; [|discriminate Hi].
  lazy -[bxor]. by rewrite !bxor_0.
Qed.

(** *** The whole packet *)

Context (Hexpand : forall prk info n out, hkdf_expand prk info n = Some out -> len out = n).
(** AES works on blocks of 16 bytes. *)
Context (Hecb : forall key block out, aes_128_ecb key block = Some out -> len out = 16).
(** What was sealed is opened by the same key, nonce and additional data. *)
Context (Hseal : forall key iv aad pt ct tag, aes_128_gcm_seal key iv aad pt = (ct, tag) ->
  len ct = len pt /\ len tag = 16 /\ aes_128_gcm_open key iv aad ct tag = Some pt).

Let secrets := ClientSecrets_new hkdf_extract_expand hkdf_expand.

Lemma packet_unprotect_protected p s m0 m ct tag pre data :
  cp_valid p -> secrets (cp_version p) (cp_dst_cid p) = Ok s ->
  aes_128_gcm_seal (cs_key s) (cp_nonce (cs_iv s) p) (cp_byte1 p :: cp_fields p ++ cp_pn_bytes p)
    (cp_payload p) = (ct, tag) ->
  aes_128_ecb (cs_hp s) (take 16 (drop (4 - cp_pn_len p) (ct ++ tag))) = Some (m0 :: m) ->
  pre = mask_byte1 (cp_byte1 p) m0 :: cp_fields p ->
  data = pre ++ zip_with bxor (cp_pn_bytes p) (take 4 m) ++ ct ++ tag ->
  packet_unprotect hkdf_extract_expand hkdf_expand aes_128_ecb aes_128_gcm_open (cp_version p)
    (mask_byte1 (cp_byte1 p) m0) data (cp_dst_cid p) (len pre) =
  Ok {| ip_packet_number := cp_packet_number p; ip_payload := cp_payload p |}.
Proof.
  intros (_ & _ & _ & Hn & Hpn & Hmin & _) Hs Hct Hm Hpre Hd.
  destruct (Hseal _ _ _ _ _ _ Hct) as (Hlct & Hltag & Hopen). pose proof (Hecb _ _ _ Hm) as Hlm.
  assert (known_version (cp_version p)) as Hv by (unfold cp_version; destruct (cp_v2 p); by (left + right)).
  pose proof (ClientSecrets_new_wp hkdf_extract_expand hkdf_expand Hexpand _ (cp_dst_cid p) Hv) as Hiv.
  unfold secrets in Hs. rewrite Hs in Hiv. cbn in Hiv.
  set (pn' := zip_with bxor (cp_pn_bytes p) (take 4 m)) in *.
  assert (length (take 4 m) = 4%nat) as Hm4 by (rewrite length_take; unfold len in Hlm; cbn in Hlm; lia).
  assert (length (cp_pn_bytes p) = cp_pn_len p) as Hlpn by apply length_to_be.
  assert (length pn' = cp_pn_len p) as Hlpn' by (unfold pn'; rewrite length_zip_with; lia).
  unfold packet_unprotect. rewrite (slice_from_at pre _ data _ Hd) by done. cbn [bind].
  set (left := pn' ++ ct ++ tag).
  assert (len left = Z.of_nat (cp_pn_len p) + len (cp_payload p) + 16) as Hleft.
  { unfold left. len_simpl. unfold len at 1. rewrite Hlpn'. lia. }
  rewrite (slice_ok left 4 20) by lia. cbn [bind].
  assert (take (Z.to_nat (20 - 4)) (drop (Z.to_nat 4) left) = take 16 (drop (4 - cp_pn_len p) (ct ++ tag))) as ->.
  { unfold left. change (Z.to_nat (20 - 4)) with 16%nat. change (Z.to_nat 4) with 4%nat.
    rewrite drop_app_ge by lia. by rewrite Hlpn'. }
  rewrite Hs. cbn [bind]. unfold aes_ecb_mask. rewrite Hm. cbn [crypto bind].
  change (take 5 ((m0 :: m) ++ replicate 32 x00)) with (m0 :: take 4 (m ++ replicate 32 x00)).
  rewrite take_app_le by (unfold len in Hlm; cbn in Hlm; lia).
  unfold left at 1, pn' at 1. rewrite Header_decode_long_unmasks by done. cbn [bind].
  set (h := Build_Header _ _ _ _).
  rewrite Header_xor_nonce_eq; [|unfold h; cbn; rewrite length_app, length_replicate; lia
    |unfold len in Hiv; lia]. cbn [bind].
  assert (data = [mask_byte1 (cp_byte1 p) m0] ++ cp_fields p ++ left) as Hd1 by (rewrite Hd, Hpre; done).
  rewrite (slice_at [mask_byte1 (cp_byte1 p) m0] (cp_fields p) left data 1 (len pre) Hd1);
    [|done|rewrite Hpre; len_lia]. cbn [bind].
  unfold Header_packet_number_bytes. unfold h at 1 2. cbn [hd_packet_number_buf hd_packet_number_len].
  rewrite (slice_from_at (replicate (4 - cp_pn_len p) x00) (cp_pn_bytes p));
    [|done|unfold MAX_PACKET_NUMBER_BYTES; len_lia]. cbn [bind].
  rewrite usub_ok by lia. cbn [bind].
  rewrite (slice_at pn' ct tag left); [|done|unfold len; by rewrite Hlpn'|unfold h; cbn [hd_packet_number_len]; lia]. cbn [bind].
  rewrite (slice_from_at (pn' ++ ct) tag left); [|unfold left; by rewrite app_assoc
    |len_simpl; unfold len at 2; rewrite Hlpn'; lia]. cbn [bind].
  unfold aes_gcm_decrypt. cbn [concat app]. rewrite app_nil_r.
  replace (zip_with bxor (cs_iv s) (replicate 8 x00 ++ hd_packet_number_buf h)) with (cp_nonce (cs_iv s) p).
  2: { unfold cp_nonce, h. cbn [hd_packet_number_buf]. rewrite app_assoc, <- replicate_add. do 3 f_equal. lia. }
  unfold h. cbn [hd_byte1 hd_packet_number]. rewrite Hopen. cbn [crypto bind]. do 2 f_equal.
  rewrite from_be_app, from_be_zeros. unfold cp_pn_bytes. rewrite from_be_to_be, Z.mod_small by done. lia.
Qed.

Lemma cp_fields_len p :
  cp_valid p -> 0 <= len (cp_fields p) <= 4 + 21 + 21 + (u16_max + 4) + 4.
Proof.
  intros (Hd & Hsc & Ht & _). unfold cp_fields, cid_bytes, cp_version_bytes.
  assert (forall v, len (var_int_bytes v) <= 4) as Hv
    by (intros v; unfold var_int_bytes; repeat case_match; len_lia).
  pose proof (Hv (len (cp_token p))). pose proof (Hv (Z.of_nat (cp_pn_len p) + len (cp_payload p) + 16)).
  destruct (cp_v2 p); len_lia.
Qed.

Lemma parse_client_with_protected p s data :
  cp_valid p -> secrets (cp_version p) (cp_dst_cid p) = Ok s -> protect s p = Some data ->
  parse_client_with hkdf_extract_expand hkdf_expand aes_128_ecb aes_128_gcm_open (cp_version p) data =
    Ok {| ip_packet_number := cp_packet_number p; ip_payload := cp_payload p |}.
Proof.
  intros Hvalid Hs. unfold protect.
  destruct (aes_128_gcm_seal _ _ _ _) as [ct tag] eqn:Hct.
  destruct (aes_128_ecb _ _) as [[|m0 m]|] eqn:Hm; [done| |done]. intros [= Hd].
  pose proof Hvalid as (Hdst & Hsrc & Htok & Hn & Hpn & Hmin & Hmax). pose proof (cp_fields_len p Hvalid) as Hf.
  destruct (Hseal _ _ _ _ _ _ Hct) as (Hlct & Hltag & _). pose proof (Hecb _ _ _ Hm) as Hlm.
  set (b1 := mask_byte1 (cp_byte1 p) m0) in *. set (rest := zip_with bxor _ _ ++ ct ++ tag) in *.
  assert (len rest = Z.of_nat (cp_pn_len p) + len (cp_payload p) + 16) as Hrest.
  { unfold rest. len_simpl. unfold len at 1.
    rewrite length_zip_with, length_take. unfold cp_pn_bytes. rewrite length_to_be. unfold len in *.
    cbn [length] in Hlm. lia. }
  assert (len data <= isize_max) as Hlen by (rewrite <- Hd; len_lia).
  unfold parse_client_with. rewrite (index_ok data 0 b1) by (lia || by rewrite <- Hd). cbn [bind].
  assert (Z.land (u8 b1) 0x30 = qv_type_bits (cp_version p)) as ->.
  { replace 0x30 with (Z.land 0xF0 0x30) by done. rewrite Z.land_assoc. unfold b1.
    rewrite mask_byte1_high, (proj2 (cp_byte1_bits p Hn)). unfold cp_version. by destruct (cp_v2 p). }
  rewrite Z.eqb_refl. cbn [negb]. cbv zeta.
  set (p0 := b1 :: cp_version_bytes p).
  assert (LONG_PACKET_FIXED_LEN = len p0) as ->
    by (unfold p0, cp_version_bytes; by destruct (cp_v2 p)).
  unfold cp_fields in Hd. rewrite <- Hrest in Hd. rewrite <- !app_assoc in Hd.
  change (b1 :: cp_version_bytes p ++ ?x) with (p0 ++ x) in Hd.
  rewrite (packet_cid_bytes p0 (cp_dst_cid p) _ data (eq_sym Hd) Hdst Hlen). cbn [bind].
  rewrite (packet_cid_bytes _ (cp_src_cid p)
    (var_int_bytes (len (cp_token p)) ++ cp_token p ++ var_int_bytes (len rest) ++ rest) data);
    [|by rewrite <- Hd, <- app_assoc|done|done]. cbn [bind].
  rewrite (packet_token_bytes _ (cp_token p) (var_int_bytes (len rest) ++ rest) data);
    [|by rewrite <- Hd, <- !app_assoc|done|done]. cbn [bind].
  rewrite (packet_length_bytes _ rest data); [|by rewrite <- Hd, <- !app_assoc|lia|done]. cbn [bind].
  apply (packet_unprotect_protected p s m0 m ct tag); try done.
  - unfold cp_fields, p0. rewrite <- Hrest. cbn [app]. by rewrite <- !app_assoc.
  - rewrite <- Hd. unfold rest. by rewrite <- !app_assoc.
Qed.

End Protect.

(** ** Properties *)

Section Properties.
Context (hkdf_extract_expand : bytes -> bytes -> bytes -> Z -> option bytes).
Context (hkdf_expand : bytes -> bytes -> Z -> option bytes).
Context (aes_128_ecb : bytes -> bytes -> option bytes).
Context (aes_128_gcm_open : bytes -> bytes -> bytes -> bytes -> bytes -> option bytes).
Context (aes_128_gcm_seal : bytes -> bytes -> bytes -> bytes -> bytes * bytes).

(** C21: a client Initial packet protected as RFC 9001 and RFC 9369 prescribe (the
    secrets of their salts and labels, AEAD over the payload with the header as
    additional data, header protection with the mask of the sample) is read back: the packet number and the payload are
    the client's, for both QUIC versions, every packet number length and every
    connection id and token.  Of the primitives it is only assumed that HKDF
    and AES give outputs of their length and that GCM opens what it sealed. *)
Theorem initial_packet_roundtrip (p : ClientPacket) (s : ClientSecrets) (data : bytes) :
  (forall prk info n out, hkdf_expand prk info n = Some out -> len out = n) ->
  (forall key block out, aes_128_ecb key block = Some out -> len out = 16) ->
  (forall key iv aad pt ct tag, aes_128_gcm_seal key iv aad pt = (ct, tag) ->
     len ct = len pt /\ len tag = 16 /\ aes_128_gcm_open key iv aad ct tag = Some pt) ->
  cp_valid p ->
  client_initial_secrets hkdf_extract_expand hkdf_expand (cp_v2 p) (cp_dst_cid p) = Some s ->
  protect aes_128_ecb aes_128_gcm_seal s p = Some data ->
  exists q, InitialPacket_parse_client hkdf_extract_expand hkdf_expand aes_128_ecb aes_128_gcm_open data = Ok q /\
    InitialPacket_packet_number q = cp_packet_number p /\ InitialPacket_payload q = cp_payload p.
Proof.
  intros Hexpand Hecb Hseal Hvalid Hrfc Hp.
  assert (ClientSecrets_new hkdf_extract_expand hkdf_expand (cp_version p) (cp_dst_cid p) = Ok s) as Hs
    by by rewrite ClientSecrets_new_prescribed, Hrfc.
  pose proof (parse_client_with_protected _ _ _ _ _ Hexpand Hecb Hseal p s data Hvalid Hs Hp) as Hparse.
  unfold protect in Hp. destruct (aes_128_gcm_seal _ _ _ _) as [ct tag].
  destruct (aes_128_ecb _ _) as [[|m0 m]|]; [done| |done]. injection Hp as Hd.
  assert (Z.land (u8 (mask_byte1 (cp_byte1 p) m0)) 0xC0 = 0xC0) as Hlong.
  { replace 0xC0 with (Z.land 0xF0 0xC0) at 1 by done. rewrite Z.land_assoc, mask_byte1_high.
    rewrite (proj2 (cp_byte1_bits p ltac:(apply Hvalid))). unfold cp_version. by destruct (cp_v2 p). }
  unfold InitialPacket_parse_client, LONG_PACKET_FIXED_LEN.
  unfold cp_fields, cp_version_bytes in Hd. unfold cp_version in Hparse.
  destruct (cp_v2 p); cbn [app] in Hd;
    (destruct (Z.ltb_spec (len data) 5); [rewrite <- Hd in *; len_lia|]);
    rewrite (index_ok data 0 (mask_byte1 (cp_byte1 p) m0)) by (lia || by rewrite <- Hd); cbn [bind];
    rewrite Hlong; cbn [Z.eqb Pos.eqb negb].
  - rewrite (index_ok data 1 x6b), (index_ok data 2 x33), (index_ok data 3 x43), (index_ok data 4 xcf)
      by (lia || by rewrite <- Hd). cbn [bind].
    change (from_be [x6b; x33; x43; xcf]) with 0x6b3343cf. cbn [Z.eqb Pos.eqb].
    unfold InitialPacketV2_parse_client. rewrite Hparse. by eexists.
  - rewrite (index_ok data 1 x00), (index_ok data 2 x00), (index_ok data 3 x00), (index_ok data 4 x01)
      by (lia || by rewrite <- Hd). cbn [bind].
    change (from_be [x00; x00; x00; x01]) with 1. cbn [Z.eqb Pos.eqb].
    unfold InitialPacketV1_parse_client. rewrite Hparse. by eexists.
Qed.

(** No datagram makes the Initial packet parser panic, and when a packet is
    accepted, no payload makes the walk through its frames panic or run
    forever, for every consumer that keeps its own promise; in particular a
    [QuicCoalescer] stays well formed. *)
Theorem initial_packet_never_panics (T : Type) `{FrameConsumeLaws T} (data : bytes) (c : T) :
  (forall prk info n out, hkdf_expand prk info n = Some out -> len out = n) ->
  (forall key iv aad ct tag pt, aes_128_gcm_open key iv aad ct tag = Some pt -> len pt = len ct) ->
  len data <= 2 ^ 62 -> consumer_ok c ->
  match InitialPacket_parse_client hkdf_extract_expand hkdf_expand aes_128_ecb aes_128_gcm_open data with
  | Ok p => walk_ok (consume_frames p c)
  | Err _ => True
  | Panic => False
  end.
Proof.
  intros Hexpand Hopen Hlen Hc.
  pose proof (InitialPacket_parse_client_wp hkdf_extract_expand hkdf_expand aes_128_ecb aes_128_gcm_open
    Hexpand Hopen data ltac:(len_lia)) as Hp.
  destruct (InitialPacket_parse_client _ _ _ _ _) as [p| |]; [|done..]. cbn in Hp.
  apply consume_frames_loop_ok; [lia|len_lia| |done]. unfold len. lia.
Qed.

(** From a payload that consists of PADDING, PING, ACK and CRYPTO frames the
    walk hands over exactly the CRYPTO frames, in order, and stops at the first
    one that is refused. *)
Theorem consume_frames_delivers (T : Type) `{FrameConsume T} (p : InitialPacket)
    (frames : list PacketFrame) (c : T) :
  Forall frame_fits frames -> InitialPacket_payload p = payload_bytes frames ->
  len (payload_bytes frames) <= isize_max ->
  consume_frames p c = recv_each c (crypto_frames frames).
Proof.
  intros Hfit Hp Hlen. unfold consume_frames. rewrite Hp.
  apply (consume_frames_loop_delivers frames _ (payload_bytes frames) []); [done..|lia].
Qed.

End Properties.

(** Primitives that satisfy what is assumed of OpenSSL's. *)
Definition toy_extract (salt ikm info : bytes) (n : Z) : option bytes :=
  if 0 <=? n then Some (replicate (Z.to_nat n) x07) else None.
Definition toy_expand (prk info : bytes) (n : Z) : option bytes :=
  if 0 <=? n then Some (replicate (Z.to_nat n) x11) else None.
Definition toy_ecb (key block : bytes) : option bytes := Some (replicate 16 x5a).
Definition toy_seal (key iv aad pt : bytes) : bytes * bytes := (pt, replicate 16 xee).
Definition toy_open (key iv aad ct tag : bytes) : option bytes := Some ct.

Lemma toy_expand_len prk info n out : toy_expand prk info n = Some out -> len out = n.
Proof. unfold toy_expand. destruct (Z.leb_spec 0 n); [|done]. intros [= <-]. len_lia. Qed.

Definition toy_packet : ClientPacket := {|
  cp_v2 := true; cp_dst_cid := [x01; x02; x03]; cp_src_cid := []; cp_token := [xaa];
  cp_pn_len := 2; cp_packet_number := 0x0105; cp_payload := [x06; x00; x01; x42]
|}.

Lemma initial_packet_roundtrip_witness :
  exists data q, protect toy_ecb toy_seal
      {| cs_key := replicate 16 x11; cs_iv := replicate 12 x11; cs_hp := replicate 16 x11 |} toy_packet = Some data /\
    InitialPacket_parse_client toy_extract toy_expand toy_ecb toy_open data = Ok q /\
    InitialPacket_packet_number q = 0x0105 /\ InitialPacket_payload q = [x06; x00; x01; x42].
Proof.
  set (s := {| cs_key := replicate 16 x11; cs_iv := replicate 12 x11; cs_hp := replicate 16 x11 |}).
  destruct (protect toy_ecb toy_seal s toy_packet) as [data|] eqn:Hp; [|discriminate Hp].
  exists data. destruct (initial_packet_roundtrip toy_extract toy_expand toy_ecb toy_open toy_seal
    toy_packet s data) as (q & Hq).
  - exact toy_expand_len.
  - intros key block out [= <-]. reflexivity.
  - intros key iv aad pt ct tag [= <- <-]. split_and!; reflexivity.
  - unfold cp_valid. split_and!; cbn [toy_packet cp_pn_len]; try lia; try (apply Z.leb_le; reflexivity);
      apply Z.ltb_lt; reflexivity.
  - reflexivity.
  - exact Hp.
  - exists q. split; [reflexivity|exact Hq].
Defined.

Lemma initial_packet_never_panics_witness :
  match InitialPacket_parse_client toy_extract toy_expand toy_ecb toy_open
    ([xc0; x00; x00; x00; x01; x00; x00; x00; x14] ++ replicate 20 x01) with
  | Ok p => walk_ok (consume_frames p (QuicCoalescer_new 16))
  | Err _ => True
  | Panic => False
  end.
Proof.
  apply (initial_packet_never_panics toy_extract toy_expand toy_ecb toy_open QuicCoalescer).
  - exact toy_expand_len.
  - intros key iv aad ct tag pt [= <-]. reflexivity.
  - apply Z.leb_le. reflexivity.
  - apply QuicCoalescer_new_wf.
Defined.

Lemma consume_frames_delivers_witness :
  consume_frames (IP_V1 {| ip_packet_number := 0;
      ip_payload := [x00; x02; x05; x00; x01; x00; x03; x04; x01; x06; x00; x04; x01; x00; x00; x00] |})
    QuicCoalescer_default =
  recv_each QuicCoalescer_default [crypto_frame 0 [x01; x00; x00; x00]].
Proof.
  apply (consume_frames_delivers QuicCoalescer _
    [PF_Padding; PF_Ack 5 0 0 [(3, 4)]; PF_Ping; PF_Crypto 0 [x01; x00; x00; x00]]).
  - repeat constructor; apply Z.leb_le; reflexivity.
  - reflexivity.
  - apply Z.leb_le. reflexivity.
Defined.
