(* ===== verification/SmtpText.v ===== *)
(** * SMTP message text: finding its end

    Models [lib/vey-smtp-proto/src/io/text_reader.rs]: [EndChecker], which looks
    for the line that consists of a single dot in text that arrives in pieces,
    and [TextDataReader], which passes the text on up to and including it. *)

From Stdlib Require Import ZArith Lia Strings.Byte.
From stdpp Require Import base list.
From S2P Require Import Prelude Reader.

Definition LF : byte := x0a.
Definition CR : byte := x0d.
Definition DOT_BYTE : byte := x2e.

Record EndChecker : Type := {
  ec_check_empty : bool;
  ec_check_r_n : bool;
  ec_check_n : bool;
  ec_found : bool
}.

Definition EndChecker_default : EndChecker :=
  {| ec_check_empty := true; ec_check_r_n := false; ec_check_n := false; ec_found := false |}.

Definition EndChecker_found (self : EndChecker) : bool := ec_found self.

Definition set_check_empty (self : EndChecker) (v : bool) : EndChecker :=
  {| ec_check_empty := v; ec_check_r_n := ec_check_r_n self; ec_check_n := ec_check_n self;
     ec_found := ec_found self |}.
Definition set_check_r_n (self : EndChecker) (v : bool) : EndChecker :=
  {| ec_check_empty := ec_check_empty self; ec_check_r_n := v; ec_check_n := ec_check_n self;
     ec_found := ec_found self |}.
Definition set_check_n (self : EndChecker) (v : bool) : EndChecker :=
  {| ec_check_empty := ec_check_empty self; ec_check_r_n := ec_check_r_n self; ec_check_n := v;
     ec_found := ec_found self |}.
Definition set_found (self : EndChecker) : EndChecker :=
  {| ec_check_empty := ec_check_empty self; ec_check_r_n := ec_check_r_n self;
     ec_check_n := ec_check_n self; ec_found := true |}.

(** The [match left.len()] of the loop: the flags after it, and how many bytes
    to add to the offset when it returns. *)
Definition check_left (self : EndChecker) (left : bytes) : option Z * EndChecker :=
  match left with
  | [] => (Some 0, self)
  | [b] =>
      if ec_check_n self then
        let self := set_check_n self false in
        if bool_decide (b = LF) then (Some 1, set_found self) else (None, self)
      else if ec_check_r_n self then
        let self := set_check_r_n self false in
        if bool_decide (b = CR) then (Some 1, set_check_n self true) else (None, self)
      else if ec_check_empty self then
        let self := set_check_empty self false in
        if bool_decide (b = DOT_BYTE) then (Some 1, set_check_r_n self true) else (None, self)
      else (None, self)
  | [b; _] =>
      if ec_check_n self then
        let self := set_check_n self false in
        if bool_decide (b = LF) then (Some 1, set_found self) else (None, self)
      else if ec_check_r_n self then
        let self := set_check_r_n self false in
        if bool_decide (left = [CR; LF]) then (Some 2, set_found self) else (None, self)
      else if ec_check_empty self then
        let self := set_check_empty self false in
        if bool_decide (left = [DOT_BYTE; CR]) then (Some 2, set_check_n self true) else (None, self)
      else (None, self)
  | b :: _ =>
      if ec_check_n self then
        let self := set_check_n self false in
        if bool_decide (b = LF) then (Some 1, set_found self) else (None, self)
      else if ec_check_r_n self then
        let self := set_check_r_n self false in
        if starts_with [CR; LF] left then (Some 2, set_found self) else (None, self)
      else if ec_check_empty self then
        let self := set_check_empty self false in
        if starts_with [DOT_BYTE; CR; LF] left then (Some 3, set_found self) else (None, self)
      else (None, self)
  end.

(** Every round but the last one passes a line end. *)
Fixpoint check_loop {E} (fuel : nat) (self : EndChecker) (data : bytes) (offset : Z)
    : res E (Z * EndChecker) :=
  match fuel with
  | O => Panic
  | S fuel' =>
      let? left := slice_from data offset in
      match check_left self left with
      | (Some n, self) => Ok (offset + n, self)
      | (None, self) =>
          match memchr LF left with
          | Some p => check_loop fuel' (set_check_empty self true) data (offset + (p + 1))
          | None => Ok (offset + len left, self)
          end
      end
  end.

Definition EndChecker_check {E} (self : EndChecker) (data : bytes) : res E (Z * EndChecker) :=
  check_loop (S (length data)) self data 0.

Record TextDataReader : Type := { tdr_inner : reader; tdr_ending : EndChecker }.

Definition TextDataReader_new (inner : reader) : TextDataReader :=
  {| tdr_inner := inner; tdr_ending := EndChecker_default |}.

Definition TextDataReader_finished (self : TextDataReader) : bool := ec_found (tdr_ending self).

(** [poll_read] into a buffer with [room] unfilled bytes: the bytes it adds. *)
Definition TextDataReader_poll_read (self : TextDataReader) (room : Z)
    : poll (res io_error bytes) * TextDataReader :=
  if EndChecker_found (tdr_ending self) then (Ready (Ok []), self)
  else
    match poll_read (tdr_inner self) room with
    | (Pending, inner) => (Pending, {| tdr_inner := inner; tdr_ending := tdr_ending self |})
    | (Ready (Err e), inner) => (Ready (Err e), {| tdr_inner := inner; tdr_ending := tdr_ending self |})
    | (Ready Panic, inner) => (Ready Panic, {| tdr_inner := inner; tdr_ending := tdr_ending self |})
    | (Ready (Ok read), inner) =>
        if negb (len read =? 0) then
          match EndChecker_check (E := io_error) (tdr_ending self) read with
          | Ok (nr, ending) =>
              (Ready (Ok (take (Z.to_nat nr) read)), {| tdr_inner := inner; tdr_ending := ending |})
          | Err e => (Ready (Err e), {| tdr_inner := inner; tdr_ending := tdr_ending self |})
          | Panic => (Ready Panic, {| tdr_inner := inner; tdr_ending := tdr_ending self |})
          end
        else (Ready (Ok []), {| tdr_inner := inner; tdr_ending := tdr_ending self |})
    end.

(** ** The end of the text, byte by byte *)

Inductive end_state : Type := LineStart | AfterDot | AfterDotCr | InLine | Ended.

#[global] Instance end_state_eq_dec : EqDecision end_state.
Proof. solve_decision. Defined.

Definition end_step (s : end_state) (b : byte) : end_state :=
  match s with
  | LineStart => if bool_decide (b = DOT_BYTE) then AfterDot else if bool_decide (b = LF) then LineStart else InLine
  | AfterDot => if bool_decide (b = CR) then AfterDotCr else if bool_decide (b = LF) then LineStart else InLine
  | AfterDotCr => if bool_decide (b = LF) then Ended else InLine
  | InLine => if bool_decide (b = LF) then LineStart else InLine
  | Ended => Ended
  end.

(** The bytes up to and including the end, and the state after them. *)
Fixpoint end_run (s : end_state) (data : bytes) : bytes * end_state :=
  match s, data with
  | Ended, _ | _, [] => ([], s)
  | _, b :: l => let (taken, s') := end_run (end_step s b) l in (b :: taken, s')
  end.

Definition ec_of (s : end_state) : EndChecker :=
  {| ec_check_empty := match s with LineStart => true | _ => false end;
     ec_check_r_n := match s with AfterDot => true | _ => false end;
     ec_check_n := match s with AfterDotCr => true | _ => false end;
     ec_found := match s with Ended => true | _ => false end |}.

Section Check.

(** Decide the comparisons of bytes that a goal depends on. *)
Ltac byte_cases :=
  repeat match goal with
  | |- context [bool_decide (?a = ?b)] => destruct (bool_decide_reflect (a = b)); subst
  end.

Lemma end_run_ended l : end_run Ended l = ([], Ended).
Proof. by destruct l. Qed.

Lemma end_run_line pre post :
  LF ∉ pre ->
  end_run InLine (pre ++ LF :: post) =
    (pre ++ LF :: fst (end_run LineStart post), snd (end_run LineStart post)).
Proof.
  induction pre as [|b pre IH]; intros Hn; cbn [app end_run end_step].
  - rewrite bool_decide_eq_true_2 by done. by destruct (end_run LineStart post).
  - apply not_elem_of_cons in Hn as [Hb Hn]. rewrite bool_decide_eq_false_2 by done. by rewrite IH.
Qed.

Lemma end_run_no_line l : LF ∉ l -> end_run InLine l = (l, InLine).
Proof.
  induction l as [|b l IH]; intros Hn; cbn [end_run end_step]; [done|].
  apply not_elem_of_cons in Hn as [Hb Hn]. rewrite bool_decide_eq_false_2 by done. by rewrite IH.
Qed.

(** Pieces may be cut anywhere. *)
Lemma end_run_app s l l' :
  end_run s (l ++ l') =
    (fst (end_run s l) ++ fst (end_run (snd (end_run s l)) l'), snd (end_run (snd (end_run s l)) l')).
Proof.
  revert s. induction l as [|b l IH]; intros s.
  - cbn [app]. destruct s; cbn [end_run fst snd app]; by destruct (end_run _ l').
  - destruct s; cbn [app end_run]; rewrite ?IH; try (by destruct (end_run _ l)).
    by rewrite end_run_ended.
Qed.

Lemma end_run_prefix s l : fst (end_run s l) `prefix_of` l.
Proof.
  revert s. induction l as [|b l IH]; intros s; [by destruct s|].
  destruct s; cbn [end_run]; try (by apply prefix_nil);
    match goal with |- context [end_run ?s l] => specialize (IH s); destruct (end_run s l) end;
    by apply prefix_cons.
Qed.

(** The text is passed on unchanged as long as its end has not been seen. *)
Lemma end_run_not_ended s l : snd (end_run s l) <> Ended -> fst (end_run s l) = l.
Proof.
  revert s. induction l as [|b l IH]; intros s; [by destruct s|].
  destruct s; cbn [end_run]; try done;
    match goal with |- context [end_run ?s l] => specialize (IH s); destruct (end_run s l) end;
    cbn [fst snd] in *; intros Hs; by rewrite IH.
Qed.

Lemma check_left_spec s left :
  s <> Ended ->
  match check_left (ec_of s) left with
  | (Some n, c) => exists s', end_run s left = (take (Z.to_nat n) left, s') /\ c = ec_of s' /\ 0 <= n <= len left
  | (None, c) => c = ec_of InLine /\ end_run s left = end_run InLine left
  end.
Proof.
  intros Hs. destruct left as [|b1 [|b2 [|b3 l]]].
  - destruct s; [..|done]; eexists; split_and!; try done.
  - destruct s; [..|done]; cbn; byte_cases; cbn; byte_cases; cbn; try done;
      eexists; split_and!; done.
  - destruct s; [..|done]; cbn [check_left ec_of ec_check_n ec_check_r_n ec_check_empty];
      cbn; byte_cases; cbn; byte_cases; cbn; try done; try congruence;
      try (eexists; split_and!; done).
  - destruct s; [..|done]; cbn [check_left ec_of ec_check_n ec_check_r_n ec_check_empty];
      unfold starts_with; cbn; rewrite ?take_0; byte_cases; cbn; byte_cases; cbn; byte_cases; cbn;
      rewrite ?end_run_ended; try done; try congruence;
      try (eexists; split_and!; [reflexivity|done|lia|len_lia]).
Qed.

Lemma check_loop_spec {E} fuel s data pre left :
  s <> Ended -> data = pre ++ left -> (length left < fuel)%nat ->
  check_loop (E := E) fuel (ec_of s) data (len pre) =
    Ok (len pre + len (fst (end_run s left)), ec_of (snd (end_run s left))).
Proof.
  revert s pre left. induction fuel as [|fuel IH]; intros s pre left Hs Hd Hfuel; [lia|].
  cbn [check_loop]. rewrite (slice_from_at pre left data _ Hd) by done. cbn [bind].
  pose proof (check_left_spec s left Hs) as Hc. destruct (check_left (ec_of s) left) as [[n|] c].
  { destruct Hc as (s' & -> & -> & Hn). cbn [fst snd]. do 2 f_equal. len_lia. }
  destruct Hc as [-> ->]. destruct (memchr LF left) as [p|] eqn:Hm.
  - apply memchr_Some in Hm as (l1 & l2 & -> & Hn & ->). rewrite end_run_line by done. cbn [fst snd].
    change (set_check_empty (ec_of InLine) true) with (ec_of LineStart).
    replace (len pre + (len l1 + 1)) with (len (pre ++ l1 ++ [LF])) by len_lia.
    rewrite (IH LineStart (pre ++ l1 ++ [LF]) l2).
    + do 2 f_equal. len_lia.
    + done.
    + rewrite Hd, <- !app_assoc. done.
    + rewrite length_app in Hfuel. cbn in Hfuel. lia.
  - apply memchr_None in Hm. by rewrite end_run_no_line.
Qed.

Lemma EndChecker_check_eq {E} s data :
  s <> Ended ->
  EndChecker_check (E := E) (ec_of s) data =
    Ok (len (fst (end_run s data)), ec_of (snd (end_run s data))).
Proof. intros Hs. apply (check_loop_spec _ s data [] data Hs eq_refl). lia. Qed.

(** A line that is not the single dot is passed. *)
Lemma end_run_text_line pre post :
  LF ∉ pre -> pre <> [DOT_BYTE; CR] ->
  end_run LineStart (pre ++ LF :: post) =
    (pre ++ LF :: fst (end_run LineStart post), snd (end_run LineStart post)).
Proof.
  intros Hn Hp. rewrite <- end_run_line by done.
  destruct pre as [|b1 [|b2 [|b3 pre]]]; rewrite ?not_elem_of_cons in Hn; cbn [app end_run end_step];
    byte_cases; cbn [end_step]; byte_cases; cbn [end_step]; byte_cases; try done; try tauto.
Qed.

End Check.

(** ** Reading to the end *)

Section Reading.

(** Read with buffers of any size until nothing more comes. *)
Fixpoint tdr_read_to_end (fuel : nat) (rooms : nat -> Z) (self : TextDataReader) : res io_error bytes * TextDataReader :=
  match fuel with
  | O => (Panic, self)
  | S fuel' =>
      match TextDataReader_poll_read self (rooms fuel') with
      | (Pending, self) => tdr_read_to_end fuel' rooms self
      | (Ready (Ok []), self) => (Ok [], self)
      | (Ready (Ok c), self) =>
          let (r, self) := tdr_read_to_end fuel' rooms self in
          (match r with Ok t => Ok (c ++ t) | Err e => Err e | Panic => Panic end, self)
      | (Ready (Err e), self) => (Err e, self)
      | (Ready Panic, self) => (Panic, self)
      end
  end.

Lemma end_run_nil s l : s <> Ended -> fst (end_run s l) = [] -> l = [].
Proof. destruct l as [|b l]; [done|]. intros Hs. destruct s; cbn; try done; by destruct (end_run _ l). Qed.

Lemma tdr_read_to_end_spec fuel rooms rd s :
  well_behaved rd -> (forall n, 0 < rooms n) ->
  (length rd + length (stream_of rd) < fuel)%nat ->
  exists rd', tdr_read_to_end fuel rooms {| tdr_inner := rd; tdr_ending := ec_of s |} =
    (Ok (fst (end_run s (stream_of rd))),
     {| tdr_inner := rd'; tdr_ending := ec_of (snd (end_run s (stream_of rd))) |}).
Proof.
  intros Hwb Hrooms. revert rd s Hwb. induction fuel as [|fuel IH]; intros rd s Hwb Hfuel; [lia|].
  cbn [tdr_read_to_end]. unfold TextDataReader_poll_read. cbn [tdr_ending tdr_inner].
  destruct (decide (s = Ended)) as [->|Hs].
  { exists rd. cbn [ec_of EndChecker_found ec_found]. by rewrite end_run_ended. }
  replace (EndChecker_found (ec_of s)) with false by (by destruct s).
  pose proof (poll_read_spec rd (rooms fuel) Hwb (Hrooms fuel)) as Hp.
  destruct (poll_read rd (rooms fuel)) as [[[c|e|]|] rd1]; [|done..|].
  2: { destruct Hp as (Hst & Hwb1 & Hlt). rewrite <- Hst. apply IH; [done|]. rewrite Hst. lia. }
  destruct Hp as (Hst & Hlen & Hwb1 & Hnil & _ & Hle).
  destruct (Z.eqb_spec (len c) 0) as [H0|H0]; cbn [negb].
  { apply len_0 in H0 as ->. rewrite (Hnil eq_refl) in *. exists rd1. by destruct s. }
  rewrite EndChecker_check_eq by done. rewrite <- Hst, end_run_app in *.
  set (c1 := fst (end_run s c)) in *. set (s1 := snd (end_run s c)) in *. cbn [fst snd].
  assert (take (Z.to_nat (len c1)) c = c1) as ->.
  { destruct (end_run_prefix s c) as [k Hk]. fold c1 in Hk. rewrite Hk at 1. apply take_len_app. }
  destruct (IH rd1 s1 Hwb1) as (rd' & ->).
  { rewrite length_app in Hfuel. unfold len in H0. lia. }
  exists rd'. destruct c1 as [|b c2] eqn:Hc1; [|done].
  exfalso. apply H0. by rewrite (end_run_nil s c Hs Hc1).
Qed.

(** A text of lines, none of which is a single dot. *)
Definition text_line (l : bytes) : Prop :=
  exists pre, l = pre ++ [LF] /\ (LF ∉ pre) /\ pre <> [DOT_BYTE; CR].

Lemma end_run_text lines post :
  Forall text_line lines ->
  end_run LineStart (concat lines ++ post) =
    (concat lines ++ fst (end_run LineStart post), snd (end_run LineStart post)).
Proof.
  induction 1 as [|l lines (pre & -> & Hn & Hp) _ IH]; cbn [concat app].
  { by destruct (end_run LineStart post). }
  rewrite <- !app_assoc. cbn [app]. rewrite end_run_text_line by done. by rewrite IH.
Qed.

End Reading.

(** ** Properties *)

(** However the text is cut into reads and whatever the sizes of the
    caller's buffers, [TextDataReader] passes on exactly the lines up to and
    including the line that consists of a single dot, and then reports the
    text as finished; nothing of what follows it is passed on. *)
Theorem text_reader_stops_at_dot (rd : reader) (rooms : nat -> Z) (lines : list bytes) (extra : bytes) :
  well_behaved rd -> (forall n, 0 < rooms n) -> Forall text_line lines ->
  stream_of rd = concat lines ++ [DOT_BYTE; CR; LF] ++ extra ->
  exists self, tdr_read_to_end (S (length rd + length (stream_of rd))) rooms (TextDataReader_new rd) =
      (Ok (concat lines ++ [DOT_BYTE; CR; LF]), self) /\
    TextDataReader_finished self = true.
Proof.
  intros Hwb Hrooms Hl Hst.
  destruct (tdr_read_to_end_spec (S (length rd + length (stream_of rd))) rooms rd LineStart Hwb Hrooms
    ltac:(lia)) as (rd' & Hr).
  change {| tdr_inner := rd; tdr_ending := ec_of LineStart |} with (TextDataReader_new rd) in Hr.
  assert (end_run LineStart ([DOT_BYTE; CR; LF] ++ extra) = ([DOT_BYTE; CR; LF], Ended)) as He
    by (by destruct extra).
  rewrite Hr, Hst, end_run_text, He by done. by eexists.
Qed.

Lemma text_reader_stops_at_dot_witness :
  exists self, tdr_read_to_end 20 (fun _ => 2)
      (TextDataReader_new [Data (bs "a"); Pend; Data [LF; DOT_BYTE]; Data (bs ".x");
         Data [CR; LF; DOT_BYTE]; Pend; Data [CR]; Data [LF; x51]]) =
      (Ok [x61; LF; DOT_BYTE; DOT_BYTE; x78; CR; LF; DOT_BYTE; CR; LF], self) /\
    TextDataReader_finished self = true.
Proof.
  refine (text_reader_stops_at_dot
    [Data (bs "a"); Pend; Data [LF; DOT_BYTE]; Data (bs ".x");
         Data [CR; LF; DOT_BYTE]; Pend; Data [CR]; Data [LF; x51]] (fun _ => 2)
    [[x61; LF]; [DOT_BYTE; DOT_BYTE; x78; CR; LF]] [x51] _ _ _ _).
  - repeat constructor; done.
  - intros _. lia.
  - repeat constructor; [exists [x61]|exists [DOT_BYTE; DOT_BYTE; x78; CR]]; split_and!; try done;
      rewrite ?not_elem_of_cons; split_and!; try done; apply not_elem_of_nil.
  - reflexivity.
Defined.
