(* ===== verification/SmtpDecode.v ===== *)
(** * SMTP message text: removing the transparency dots

    Models [lib/vey-smtp-proto/src/io/text_decoder.rs]: the buffer that reads the
    text line by line, removes the dot in front of a line that starts with one
    and stops at the line that consists of a single dot; its two interfaces are
    [AsyncRead::poll_read] and [AsyncBufRead::poll_fill_buf]/[consume]. *)

From Stdlib Require Import ZArith Lia Strings.Byte.
From stdpp Require Import base list.
From S2P Require Import Prelude Reader SmtpText.

Inductive DecodeError : Type :=
| Decode_ReadFailed
| Decode_LineTooLong
| Decode_UnexpectedEof.

Record DataDecodeBuffer : Type := {
  ddb_buf : bytes;
  ddb_start : Z;
  ddb_end : Z;
  ddb_cache_data : option (Z * Z);
  ddb_read_done : bool
}.

(** The content of the uninitialised buffer is irrelevant; it is zero here. *)
Definition DataDecodeBuffer_new (buf_size : Z) : DataDecodeBuffer :=
  {| ddb_buf := replicate (Z.to_nat buf_size) x00; ddb_start := 0; ddb_end := 0;
     ddb_cache_data := None; ddb_read_done := false |}.

Definition ddb_set_buf (self : DataDecodeBuffer) (buf : bytes) (start fin : Z) : DataDecodeBuffer :=
  {| ddb_buf := buf; ddb_start := start; ddb_end := fin;
     ddb_cache_data := ddb_cache_data self; ddb_read_done := ddb_read_done self |}.
Definition ddb_set_start (self : DataDecodeBuffer) (start : Z) : DataDecodeBuffer :=
  ddb_set_buf self (ddb_buf self) start (ddb_end self).
Definition ddb_set_cache (self : DataDecodeBuffer) (c : option (Z * Z)) : DataDecodeBuffer :=
  {| ddb_buf := ddb_buf self; ddb_start := ddb_start self; ddb_end := ddb_end self;
     ddb_cache_data := c; ddb_read_done := ddb_read_done self |}.
Definition ddb_set_done (self : DataDecodeBuffer) : DataDecodeBuffer :=
  {| ddb_buf := ddb_buf self; ddb_start := ddb_start self; ddb_end := ddb_end self;
     ddb_cache_data := ddb_cache_data self; ddb_read_done := true |}.

(** [poll_fill_buf]: the number of bytes read behind [end]. *)
Definition ddb_poll_fill_buf (self : DataDecodeBuffer) (rd : reader)
    : poll (res DecodeError Z) * DataDecodeBuffer * reader :=
  match slice_from (E := DecodeError) (ddb_buf self) (ddb_end self) with
  | Ok room =>
      match poll_read rd (len room) with
      | (Pending, rd) => (Pending, self, rd)
      | (Ready (Ok c), rd) =>
          (Ready (Ok (len c)),
           ddb_set_buf self
             (take (Z.to_nat (ddb_end self)) (ddb_buf self) ++ c ++
              drop (Z.to_nat (ddb_end self + len c)) (ddb_buf self))
             (ddb_start self) (ddb_end self + len c), rd)
      | (Ready (Err _), rd) => (Ready (Err Decode_ReadFailed), self, rd)
      | (Ready Panic, rd) => (Ready Panic, self, rd)
      end
  | Err e => (Ready (Err e), self, rd)
  | Panic => (Ready Panic, self, rd)
  end.

Definition ddb_get_line (self : DataDecodeBuffer) : res DecodeError (option (Z * Z)) :=
  if ddb_end self <=? ddb_start self then Ok None
  else
    let? src_buf := slice (ddb_buf self) (ddb_start self) (ddb_end self) in
    if len src_buf =? 0 then Ok None
    else
      match memchr LF src_buf with
      | Some p => Ok (Some (ddb_start self, ddb_start self + p + 1))
      | None => Ok None
      end.

(** [self.buf.copy_within(self.start..self.end, 0)] and the new offsets. *)
Definition ddb_compact (self : DataDecodeBuffer) : res DecodeError DataDecodeBuffer :=
  let? src := slice (ddb_buf self) (ddb_start self) (ddb_end self) in
  Ok (ddb_set_buf self (src ++ drop (length src) (ddb_buf self)) 0 (ddb_end self - ddb_start self)).

(** Every round but the last one reads at least a byte into the buffer. *)
Fixpoint poll_line_loop (fuel : nat) (self : DataDecodeBuffer) (rd : reader)
    : poll (res DecodeError (Z * Z)) * DataDecodeBuffer * reader :=
  match fuel with
  | O => (Ready Panic, self, rd)
  | S fuel' =>
      match ddb_get_line self with
      | Ok (Some v) => (Ready (Ok v), self, rd)
      | Ok None =>
          let prepared :=
            if 0 <? ddb_start self then ddb_compact self
            else if len (ddb_buf self) <=? ddb_end self then Err Decode_LineTooLong
            else Ok self in
          match prepared with
          | Ok self =>
              match ddb_poll_fill_buf self rd with
              | (Pending, self, rd) => (Pending, self, rd)
              | (Ready (Ok nr), self, rd) =>
                  if nr =? 0 then (Ready (Err Decode_UnexpectedEof), self, rd)
                  else poll_line_loop fuel' self rd
              | (Ready (Err e), self, rd) => (Ready (Err e), self, rd)
              | (Ready Panic, self, rd) => (Ready Panic, self, rd)
              end
          | Err e => (Ready (Err e), self, rd)
          | Panic => (Ready Panic, self, rd)
          end
      | Err e => (Ready (Err e), self, rd)
      | Panic => (Ready Panic, self, rd)
      end
  end.

Definition ddb_poll_line (self : DataDecodeBuffer) (rd : reader) :=
  poll_line_loop (S (S (length (ddb_buf self)))) self rd.

(** What both interfaces do with a line: it is the end, or it becomes the
    cached data, without its dot. *)
Definition ddb_take_line (self : DataDecodeBuffer) (start fin : Z) : res DecodeError DataDecodeBuffer :=
  let? line := slice (ddb_buf self) start fin in
  let? b := index line 0 in
  if bool_decide (b = DOT_BYTE) then
    if bool_decide (line = [DOT_BYTE; CR; LF]) then Ok (ddb_set_done self)
    else Ok (ddb_set_cache self (Some (start + 1, fin)))
  else Ok (ddb_set_cache self (Some (start, fin))).

(** [poll_read] into [room] unfilled bytes.  The bytes that have been put into
    the caller's buffer are returned in every case, also beside [Pending]. *)
Fixpoint ddb_poll_read_loop (fuel : nat) (self : DataDecodeBuffer) (rd : reader) (room : Z) (filled : bytes)
    : poll (res DecodeError unit) * bytes * DataDecodeBuffer * reader :=
  match fuel with
  | O => (Ready Panic, filled, self, rd)
  | S fuel' =>
      let next self rd room filled :=
        match ddb_poll_line self rd with
        | (Pending, self, rd) => (Pending, filled, self, rd)
        | (Ready (Ok (start, fin)), self, rd) =>
            match ddb_take_line self start fin with
            | Ok self =>
                if ddb_read_done self then (Ready (Ok tt), filled, self, rd)
                else ddb_poll_read_loop fuel' self rd room filled
            | Err e => (Ready (Err e), filled, self, rd)
            | Panic => (Ready Panic, filled, self, rd)
            end
        | (Ready (Err e), self, rd) => (Ready (Err e), filled, self, rd)
        | (Ready Panic, self, rd) => (Ready Panic, filled, self, rd)
        end in
      match ddb_cache_data self with
      | Some (data_start, data_end) =>
          match slice (E := DecodeError) (ddb_buf self) data_start data_end with
          | Ok cache =>
              if room <=? len cache then
                (Ready (Ok tt), filled ++ take (Z.to_nat room) cache,
                 ddb_set_cache self (Some (data_start + room, data_end)), rd)
              else
                next (ddb_set_start (ddb_set_cache self None) data_end) rd
                  (room - len cache) (filled ++ cache)
          | Err e => (Ready (Err e), filled, self, rd)
          | Panic => (Ready Panic, filled, self, rd)
          end
      | None => next self rd room filled
      end
  end.

Definition ddb_poll_read (self : DataDecodeBuffer) (rd : reader) (room : Z)
    : poll (res DecodeError unit) * bytes * DataDecodeBuffer * reader :=
  if ddb_read_done self then (Ready (Ok tt), [], self, rd)
  else ddb_poll_read_loop (S (S (Z.to_nat room))) self rd room [].

Definition ddb_poll_get_cache (self : DataDecodeBuffer) (rd : reader)
    : poll (res DecodeError unit) * DataDecodeBuffer * reader :=
  if ddb_read_done self then (Ready (Ok tt), self, rd)
  else
    match ddb_cache_data self with
    | Some _ => (Ready (Ok tt), self, rd)
    | None =>
        match ddb_poll_line self rd with
        | (Pending, self, rd) => (Pending, self, rd)
        | (Ready (Ok (start, fin)), self, rd) =>
            match ddb_take_line self start fin with
            | Ok self => (Ready (Ok tt), self, rd)
            | Err e => (Ready (Err e), self, rd)
            | Panic => (Ready Panic, self, rd)
            end
        | (Ready (Err e), self, rd) => (Ready (Err e), self, rd)
        | (Ready Panic, self, rd) => (Ready Panic, self, rd)
        end
    end.

Definition ddb_cache (self : DataDecodeBuffer) : res DecodeError bytes :=
  match ddb_cache_data self with
  | Some (start, fin) => slice (ddb_buf self) start fin
  | None => Ok []
  end.

Definition ddb_consume_cache (self : DataDecodeBuffer) (amt : Z) : res DecodeError DataDecodeBuffer :=
  match ddb_cache_data self with
  | Some (start, fin) =>
      let? n := usub fin start in
      if amt <? n then Ok (ddb_set_cache self (Some (start + amt, fin)))
      else Ok (ddb_set_start (ddb_set_cache self None) fin)
  | None => Ok self
  end.

Record TextDataDecodeReader : Type := { tdd_reader : reader; tdd_buf : DataDecodeBuffer }.

Definition TextDataDecodeReader_new (rd : reader) (buf_size : Z) : TextDataDecodeReader :=
  {| tdd_reader := rd; tdd_buf := DataDecodeBuffer_new buf_size |}.

Definition TextDataDecodeReader_finished (self : TextDataDecodeReader) : bool :=
  ddb_read_done (tdd_buf self).

Definition TextDataDecodeReader_poll_read (self : TextDataDecodeReader) (room : Z)
    : poll (res DecodeError unit) * bytes * TextDataDecodeReader :=
  match ddb_poll_read (tdd_buf self) (tdd_reader self) room with
  | (r, filled, buf, rd) => (r, filled, {| tdd_reader := rd; tdd_buf := buf |})
  end.

Definition TextDataDecodeReader_poll_fill_buf (self : TextDataDecodeReader)
    : poll (res DecodeError bytes) * TextDataDecodeReader :=
  match ddb_poll_get_cache (tdd_buf self) (tdd_reader self) with
  | (Pending, buf, rd) => (Pending, {| tdd_reader := rd; tdd_buf := buf |})
  | (Ready r, buf, rd) =>
      (Ready (let? _ := r in ddb_cache buf), {| tdd_reader := rd; tdd_buf := buf |})
  end.

Definition TextDataDecodeReader_consume (self : TextDataDecodeReader) (amt : Z)
    : res DecodeError TextDataDecodeReader :=
  let? buf := ddb_consume_cache (tdd_buf self) amt in
  Ok {| tdd_reader := tdd_reader self; tdd_buf := buf |}.

(** ** Lines of the stream *)

Section Lines.
Context (N : Z).

Definition ddb_wf (d : DataDecodeBuffer) : Prop :=
  len (ddb_buf d) = N /\ 0 <= ddb_start d <= ddb_end d /\ ddb_end d <= N.

(** The bytes that have been read and not been passed on. *)
Definition ddb_pending (d : DataDecodeBuffer) : bytes :=
  take (Z.to_nat (ddb_end d - ddb_start d)) (drop (Z.to_nat (ddb_start d)) (ddb_buf d)).

Lemma ddb_pending_slice d :
  ddb_wf d -> slice (E := DecodeError) (ddb_buf d) (ddb_start d) (ddb_end d) = Ok (ddb_pending d).
Proof. intros (? & ? & ?). by rewrite slice_ok by lia. Qed.

Lemma ddb_pending_len d : ddb_wf d -> len (ddb_pending d) = ddb_end d - ddb_start d.
Proof. intros (? & ? & ?). unfold ddb_pending. len_lia. Qed.

Lemma ddb_pending_split d :
  ddb_wf d -> ddb_buf d = take (Z.to_nat (ddb_start d)) (ddb_buf d) ++ ddb_pending d ++ drop (Z.to_nat (ddb_end d)) (ddb_buf d).
Proof.
  intros (? & ? & ?). unfold ddb_pending.
  replace (Z.to_nat (ddb_end d)) with (Z.to_nat (ddb_start d) + Z.to_nat (ddb_end d - ddb_start d))%nat by lia.
  by rewrite <- drop_drop, take_drop, take_drop.
Qed.

(** The pending bytes, from the shape of the buffer. *)
Lemma ddb_pending_at d pre mid post :
  ddb_buf d = pre ++ mid ++ post -> ddb_start d = len pre -> ddb_end d = len pre + len mid ->
  ddb_pending d = mid.
Proof.
  intros Hb Hs He. unfold ddb_pending. rewrite Hb, Hs, He, drop_len_app.
  replace (len pre + len mid - len pre) with (len mid) by lia. apply take_len_app.
Qed.

Lemma ddb_get_line_spec d :
  ddb_wf d ->
  ddb_get_line d = Ok ((fun p => (ddb_start d, ddb_start d + p + 1)) <$> memchr LF (ddb_pending d)).
Proof.
  intros Hwf. unfold ddb_get_line. pose proof (ddb_pending_len d Hwf) as Hl.
  destruct (Z.leb_spec (ddb_end d) (ddb_start d)).
  { by rewrite (len_0 (ddb_pending d)) by (pose proof (len_nonneg (ddb_pending d)); lia). }
  rewrite ddb_pending_slice by done. cbn [bind]. destruct (Z.eqb_spec (len (ddb_pending d)) 0); [lia|].
  by destruct (memchr LF (ddb_pending d)).
Qed.

Lemma ddb_compact_spec d :
  ddb_wf d ->
  exists d', ddb_compact d = Ok d' /\ ddb_wf d' /\ ddb_pending d' = ddb_pending d /\ ddb_start d' = 0 /\
    ddb_cache_data d' = ddb_cache_data d /\ ddb_read_done d' = ddb_read_done d.
Proof.
  intros Hwf. unfold ddb_compact. rewrite ddb_pending_slice by done. cbn [bind].
  pose proof (ddb_pending_len d Hwf) as Hl. destruct Hwf as (Hb & Hs & He).
  eexists. split_and!; [reflexivity|..]; try done.
  - unfold ddb_wf. cbn [ddb_buf ddb_start ddb_end ddb_set_buf]. split_and!; try lia.
    unfold len in *. rewrite length_app, length_drop. lia.
  - eapply (ddb_pending_at _ []); [reflexivity|done|]. cbn [ddb_end ddb_set_buf]. len_lia.
Qed.

Lemma ddb_fill_spec d rd :
  ddb_wf d -> ddb_end d < N -> well_behaved rd ->
  match ddb_poll_fill_buf d rd with
  | (Pending, d', rd') =>
      d' = d /\ stream_of rd' = stream_of rd /\ well_behaved rd' /\ (length rd' < length rd)%nat
  | (Ready (Ok nr), d', rd') =>
      exists c, nr = len c /\ ddb_wf d' /\ ddb_pending d' = ddb_pending d ++ c /\
        c ++ stream_of rd' = stream_of rd /\ well_behaved rd' /\ (length rd' <= length rd)%nat /\
        (c = [] -> stream_of rd = []) /\ ddb_start d' = ddb_start d /\
        ddb_cache_data d' = ddb_cache_data d /\ ddb_read_done d' = ddb_read_done d
  | _ => False
  end.
Proof.
  intros Hwf Hroom Hwb. unfold ddb_poll_fill_buf. pose proof Hwf as (Hb & Hs & He).
  rewrite slice_from_ok by lia. set (room := len _). assert (room = N - ddb_end d) as Hr by (unfold room; len_lia).
  pose proof (poll_read_spec rd room Hwb ltac:(lia)) as Hp.
  destruct (poll_read rd room) as [[[c|e|]|] rd']; [|done..|by destruct Hp as (? & ? & ?)].
  destruct Hp as (Hst & Hlen & Hwb' & Hnil & _ & Hle). exists c.
  split_and!; try done.
  - unfold ddb_wf. cbn. split_and!; [|len_lia..]. len_lia.
  - pose proof (ddb_pending_len d Hwf) as Hl.
    assert (take (Z.to_nat (ddb_end d)) (ddb_buf d) =
      take (Z.to_nat (ddb_start d)) (ddb_buf d) ++ ddb_pending d) as Ht.
    { rewrite (ddb_pending_split d Hwf) at 1. rewrite app_assoc. apply take_app_length'.
      rewrite length_app, length_take. unfold len in *. lia. }
    eapply (ddb_pending_at _ (take (Z.to_nat (ddb_start d)) (ddb_buf d))); cbn [ddb_buf ddb_start ddb_end ddb_set_buf].
    + rewrite Ht, <- !app_assoc. reflexivity.
    + len_lia.
    + len_lia.
  - intros ->. by rewrite (Hnil eq_refl).
Qed.

(** The outcome of [poll_line] as a function of the pending bytes and the
    stream: the first line, or the reason why there is none. *)
Definition line_outcome (s : bytes) (r : res DecodeError bytes) : Prop :=
  match r with
  | Ok line => exists pre post, line = pre ++ [LF] /\ (LF ∉ pre) /\ s = line ++ post
  | Err Decode_LineTooLong => N <= len s /\ LF ∉ take (Z.to_nat N) s
  | Err Decode_UnexpectedEof => len s < N /\ LF ∉ s
  | _ => False
  end.

Lemma poll_line_loop_spec fuel d rd :
  ddb_wf d -> well_behaved rd -> N - len (ddb_pending d) < Z.of_nat fuel ->
  let s := ddb_pending d ++ stream_of rd in
  match poll_line_loop fuel d rd with
  | (Pending, d', rd') =>
      ddb_wf d' /\ well_behaved rd' /\ ddb_pending d' ++ stream_of rd' = s /\ (length rd' < length rd)%nat /\
      ddb_cache_data d' = ddb_cache_data d /\ ddb_read_done d' = ddb_read_done d
  | (Ready (Ok (start, fin)), d', rd') =>
      ddb_wf d' /\ well_behaved rd' /\ ddb_pending d' ++ stream_of rd' = s /\ (length rd' <= length rd)%nat /\
      ddb_cache_data d' = ddb_cache_data d /\ ddb_read_done d' = ddb_read_done d /\
      exists pre post, start = ddb_start d' /\ fin = start + len (pre ++ [LF]) /\
        (LF ∉ pre) /\ ddb_pending d' = (pre ++ [LF]) ++ post
  | (Ready (Err e), _, _) => line_outcome s (Err e)
  | (Ready Panic, _, _) => False
  end.
Proof.
  revert d rd. induction fuel as [|fuel IH]; intros d rd Hwf Hwb Hfuel s.
  { pose proof (ddb_pending_len d Hwf). destruct Hwf as (? & ? & ?). lia. }
  cbn [poll_line_loop]. rewrite ddb_get_line_spec by done.
  destruct (memchr LF (ddb_pending d)) as [p|] eqn:Hm; cbn [fmap option_fmap option_map].
  { apply memchr_Some in Hm as (pre & post & Hp & Hn & ->). split_and!; try done.
    exists pre, post. split_and!; [done|len_lia|done|]. by rewrite Hp, <- app_assoc. }
  apply memchr_None in Hm. pose proof (ddb_pending_len d Hwf) as Hl.
  assert ((if 0 <? ddb_start d then ddb_compact d
    else if len (ddb_buf d) <=? ddb_end d then Err Decode_LineTooLong else Ok d) = Err Decode_LineTooLong /\
      N <= len (ddb_pending d) \/
    exists d1, (if 0 <? ddb_start d then ddb_compact d
      else if len (ddb_buf d) <=? ddb_end d then Err Decode_LineTooLong else Ok d) = Ok d1 /\
      ddb_wf d1 /\ ddb_pending d1 = ddb_pending d /\ ddb_end d1 < N /\
      ddb_cache_data d1 = ddb_cache_data d /\ ddb_read_done d1 = ddb_read_done d)
    as [[-> Hfull]|(d1 & -> & Hwf1 & Hp1 & He1 & Hc1 & Hd1)].
  { pose proof Hwf as (Hb & Hs & He). destruct (Z.ltb_spec 0 (ddb_start d)).
    - right. destruct (ddb_compact_spec d Hwf) as (d1 & -> & Hwf1 & Hp1 & Hs1 & Hc1 & Hd1).
      exists d1. split_and!; try done. pose proof (ddb_pending_len d1 Hwf1) as Hl1. rewrite Hp1 in Hl1. lia.
    - destruct (Z.leb_spec (len (ddb_buf d)) (ddb_end d)); [left; split; [done|lia]|right].
      exists d. split_and!; try done. lia. }
  { cbn. subst s. split; [len_lia|]. pose proof Hwf as (Hb & Hs & He).
    rewrite take_app_le by (unfold len in *; lia). intros (i & Hi & _)%elem_of_take.
    apply Hm. by eapply list_elem_of_lookup_2. }
  pose proof (ddb_fill_spec d1 rd Hwf1 He1 Hwb) as Hf.
  destruct (ddb_poll_fill_buf d1 rd) as [[[[nr|e|]|] d2] rd2]; [|done..|].
  - destruct Hf as (c & -> & Hwf2 & Hp2 & Hst & Hwb2 & Hle & Hnil & Hs2 & Hc2 & Hd2).
    destruct (Z.eqb_spec (len c) 0) as [H0|H0].
    { apply len_0 in H0 as ->. cbn. subst s. rewrite (Hnil eq_refl), app_nil_r. split; [|done].
      pose proof (ddb_pending_len d1 Hwf1) as Hl1. rewrite Hp1 in Hl1. destruct Hwf1 as (? & ? & ?). lia. }
    assert (ddb_pending d2 ++ stream_of rd2 = s) as Hs
      by (subst s; by rewrite Hp2, Hp1, <- app_assoc, Hst).
    specialize (IH d2 rd2 Hwf2 Hwb2 ltac:(rewrite Hp2, Hp1; len_lia)). cbv zeta in IH. rewrite Hs in IH.
    destruct (poll_line_loop fuel d2 rd2) as [[[[[start fin]|e|]|] d3] rd3]; [|done|done|].
    + destruct IH as (? & ? & ? & ? & Hc3 & Hd3 & ?). rewrite Hc3, Hd3, Hc2, Hd2, Hc1, Hd1.
      split_and!; try done. lia.
    + destruct IH as (? & ? & ? & ? & Hc3 & Hd3). rewrite Hc3, Hd3, Hc2, Hd2, Hc1, Hd1.
      split_and!; try done. lia.
  - destruct Hf as (-> & Hst & Hwb2 & Hlt). subst s. rewrite Hp1, Hst. by split_and!.
Qed.

Lemma ddb_poll_line_next d rd pre rest :
  ddb_wf d -> well_behaved rd -> LF ∉ pre -> len (pre ++ [LF]) <= N ->
  ddb_pending d ++ stream_of rd = (pre ++ [LF]) ++ rest ->
  match ddb_poll_line d rd with
  | (Pending, d', rd') =>
      ddb_wf d' /\ well_behaved rd' /\ ddb_pending d' ++ stream_of rd' = (pre ++ [LF]) ++ rest /\
      (length rd' < length rd)%nat /\
      ddb_cache_data d' = ddb_cache_data d /\ ddb_read_done d' = ddb_read_done d
  | (Ready (Ok (start, fin)), d', rd') =>
      ddb_wf d' /\ well_behaved rd' /\ (length rd' <= length rd)%nat /\
      ddb_cache_data d' = ddb_cache_data d /\ ddb_read_done d' = ddb_read_done d /\
      start = ddb_start d' /\ fin = start + len (pre ++ [LF]) /\
      exists post, ddb_pending d' = (pre ++ [LF]) ++ post /\ post ++ stream_of rd' = rest
  | _ => False
  end.
Proof.
  intros Hwf Hwb Hn Hlen Hs. unfold ddb_poll_line.
  pose proof (poll_line_loop_spec (S (S (length (ddb_buf d)))) d rd Hwf Hwb) as Hp.
  cbv zeta in Hp. rewrite Hs in Hp. specialize (Hp ltac:(destruct Hwf as (Hb & _); unfold len in *; lia)).
  destruct (poll_line_loop _ d rd) as [[[[[start fin]|e|]|] d'] rd']; [| |done|].
  - destruct Hp as (Hwf' & Hwb' & Hs' & Hle & Hc & Hd & pre' & post & -> & -> & Hn' & Hp).
    rewrite Hp in Hs'. rewrite <- !app_assoc in Hs'. cbn [app] in Hs'.
    destruct (split_unique LF _ _ _ _ Hn' Hn Hs') as [-> Hpost].
    split_and!; try done. by exists post.
  - destruct e; [done|..]; destruct Hp as [Hl Hnot]; exfalso; apply Hnot.
    + rewrite <- app_assoc, take_app_ge by (len_simpl; unfold len in *; lia).
      apply elem_of_app. right. cbn [app].
      destruct (Z.to_nat N - length pre)%nat as [|k] eqn:Hk; [len_simpl; unfold len in *; cbn in *; lia|].
      cbn [take]. apply elem_of_cons. by left.
    + rewrite <- app_assoc. apply elem_of_app. right. apply elem_of_cons. by left.
  - destruct Hp as (? & ? & Hs' & ? & ? & ?). by split_and!.
Qed.

Definition unstuff (w : bytes) : bytes :=
  match w with
  | b :: l => if bool_decide (b = DOT_BYTE) then l else w
  | [] => []
  end.

(** The cached data is a non-empty part of the pending bytes, and [tail] are
    the bytes behind it. *)
Definition ddb_cached (d : DataDecodeBuffer) (cache tail : bytes) : Prop :=
  exists pre, ddb_pending d = pre ++ cache ++ tail /\ cache <> [] /\
    ddb_cache_data d = Some (ddb_start d + len pre, ddb_start d + len pre + len cache).

Lemma ddb_slice_pending d pre mid post a b :
  ddb_wf d -> ddb_pending d = pre ++ mid ++ post -> a = ddb_start d + len pre -> b = a + len mid ->
  slice (E := DecodeError) (ddb_buf d) a b = Ok mid.
Proof.
  intros Hwf Hp -> ->.
  apply (slice_at (take (Z.to_nat (ddb_start d)) (ddb_buf d) ++ pre) mid
    (post ++ drop (Z.to_nat (ddb_end d)) (ddb_buf d))); [|destruct Hwf as (? & ? & ?); len_lia|done].
  rewrite (ddb_pending_split d Hwf) at 1. rewrite Hp, <- !app_assoc. done.
Qed.

(** A line that is not the end becomes the cached data, without its dot. *)
Lemma ddb_take_line_text d pre post :
  ddb_wf d -> ddb_pending d = (pre ++ [LF]) ++ post -> LF ∉ pre -> pre <> [DOT_BYTE; CR] ->
  exists d', ddb_take_line d (ddb_start d) (ddb_start d + len (pre ++ [LF])) = Ok d' /\
    ddb_wf d' /\ ddb_cached d' (unstuff (pre ++ [LF])) post /\ ddb_read_done d' = ddb_read_done d.
Proof.
  intros Hwf Hp Hn Hd. unfold ddb_take_line.
  rewrite (ddb_slice_pending d [] (pre ++ [LF]) post); [|done|done|len_lia|done]. cbn [bind].
  destruct (pre ++ [LF]) as [|b l] eqn:Hl; [by destruct pre|].
  rewrite (index_ok _ 0 b) by done. cbn [bind]. unfold unstuff.
  destruct (bool_decide_reflect (b = DOT_BYTE)) as [->|Hb].
  - rewrite bool_decide_eq_false_2.
    2: { intros E. rewrite E in Hl. change [DOT_BYTE; CR; LF] with ([DOT_BYTE; CR] ++ [LF]) in Hl.
         by apply app_inj_tail in Hl as [-> _]. }
    eexists. split_and!; [done|exact Hwf| |done]. exists [DOT_BYTE]. split_and!; [exact Hp| |cbn; do 2 f_equal; len_lia].
    intros ->. destruct pre as [|? [|]]; injection Hl; intros; by try subst.
  - eexists. split_and!; [done|exact Hwf| |done]. exists []. split_and!; [exact Hp|done|cbn; do 2 f_equal; len_lia].
Qed.

Lemma ddb_take_line_end d post :
  ddb_wf d -> ddb_pending d = [DOT_BYTE; CR; LF] ++ post ->
  ddb_take_line d (ddb_start d) (ddb_start d + 3) = Ok (ddb_set_done d).
Proof.
  intros Hwf Hp. unfold ddb_take_line.
  rewrite (ddb_slice_pending d [] [DOT_BYTE; CR; LF] post); [done|done|done|len_lia|done].
Qed.

End Lines.

(** ** Reading through the buffered interface *)

Section Buffered.
Context (N : Z) (HN : 3 <= N <= isize_max).

(** Fill and consume until nothing more comes; [amts] are the amounts a caller
    consumes at most. *)
Fixpoint tdd_read_to_end (fuel : nat) (amts : nat -> Z) (self : TextDataDecodeReader)
    : res DecodeError bytes * TextDataDecodeReader :=
  match fuel with
  | O => (Panic, self)
  | S fuel' =>
      match TextDataDecodeReader_poll_fill_buf self with
      | (Pending, self) => tdd_read_to_end fuel' amts self
      | (Ready (Ok []), self) => (Ok [], self)
      | (Ready (Ok cache), self) =>
          let amt := Z.min (amts fuel') (len cache) in
          match TextDataDecodeReader_consume self amt with
          | Ok self =>
              let (r, self) := tdd_read_to_end fuel' amts self in
              (match r with
               | Ok t => Ok (take (Z.to_nat amt) cache ++ t)
               | Err e => Err e
               | Panic => Panic
               end, self)
          | Err e => (Err e, self)
          | Panic => (Panic, self)
          end
      | (Ready (Err e), self) => (Err e, self)
      | (Ready Panic, self) => (Panic, self)
      end
  end.

Definition wire_line (w : bytes) : Prop := text_line w /\ len w <= N.

Definition wire_text (ws : list bytes) (extra : bytes) : bytes :=
  concat ws ++ [DOT_BYTE; CR; LF] ++ extra.

(** [cache] is what is left of the current line, [ws] are the lines behind it. *)
Definition tdd_inv (self : TextDataDecodeReader) (cache : bytes) (ws : list bytes) (extra : bytes) : Prop :=
  ddb_wf N (tdd_buf self) /\ well_behaved (tdd_reader self) /\ ddb_read_done (tdd_buf self) = false /\
  Forall wire_line ws /\
  match cache with
  | [] => ddb_cache_data (tdd_buf self) = None /\
          ddb_pending (tdd_buf self) ++ stream_of (tdd_reader self) = wire_text ws extra
  | _ => exists tail, ddb_cached (tdd_buf self) cache tail /\
           tail ++ stream_of (tdd_reader self) = wire_text ws extra
  end.

Lemma ddb_cache_cached d cache tail : ddb_wf N d -> ddb_cached d cache tail -> ddb_cache d = Ok cache.
Proof.
  intros Hwf (pre & Hp & _ & Hc). unfold ddb_cache. rewrite Hc.
  by apply (ddb_slice_pending N d pre cache tail).
Qed.

(** Consuming a part of the cached data. *)
Lemma tdd_consume_inv self cache ws extra amt :
  cache <> [] -> tdd_inv self cache ws extra -> 0 < amt <= len cache ->
  exists self', TextDataDecodeReader_consume self amt = Ok self' /\
    tdd_reader self' = tdd_reader self /\ tdd_inv self' (drop (Z.to_nat amt) cache) ws extra.
Proof.
  intros Hne (Hwf & Hwb & Hdone & Hws & Hc) Hamt.
  assert (exists tail, ddb_cached (tdd_buf self) cache tail /\
    tail ++ stream_of (tdd_reader self) = wire_text ws extra) as (tail & (pre & Hp & _ & Hcd) & Hs)
    by (by destruct cache).
  unfold TextDataDecodeReader_consume, ddb_consume_cache. rewrite Hcd. rewrite usub_ok by len_lia. cbn [bind].
  pose proof (ddb_pending_len N _ Hwf) as Hl. rewrite Hp in Hl.
  match goal with |- context [amt <? ?x] => replace x with (len cache) by lia end.
  destruct (Z.ltb_spec amt (len cache)) as [Hlt|Hge]; cbn [bind]; eexists; (split; [reflexivity|]); (split; [done|]).
  - destruct (drop (Z.to_nat amt) cache) as [|b l] eqn:Hd.
    { apply (f_equal len) in Hd. len_lia. }
    split_and!; try done. exists tail. split; [|done]. exists (pre ++ take (Z.to_nat amt) cache).
    rewrite <- Hd in *. split_and!.
    + change (ddb_pending _) with (ddb_pending (tdd_buf self)) at 1.
      rewrite Hp, <- !app_assoc. by rewrite (app_assoc (take _ _)), take_drop.
    + intros E%(f_equal len). len_lia.
    + cbn. do 2 f_equal; len_lia.
  - assert (amt = len cache) as -> by lia. rewrite (drop_ge cache) by (unfold len; lia).
    assert (ddb_wf N (ddb_set_start (ddb_set_cache (tdd_buf self) None) (ddb_start (tdd_buf self) + len pre + len cache))) as Hwf'.
    { destruct Hwf as (? & ? & ?). unfold ddb_wf. cbn. len_lia. }
    split_and!; try done. cbn [tdd_buf tdd_reader]. rewrite <- Hs. f_equal.
    eapply (ddb_pending_at _ (take (Z.to_nat (ddb_start (tdd_buf self))) (ddb_buf (tdd_buf self)) ++ pre ++ cache)).
    + cbn. rewrite (ddb_pending_split N _ Hwf) at 1. rewrite Hp, <- !app_assoc. reflexivity.
    + destruct Hwf as (? & ? & ?). cbn. len_lia.
    + destruct Hwf as (? & ? & ?). cbn. len_lia.
Qed.

(** One [poll_fill_buf]. *)
Lemma tdd_poll_fill_buf_inv self cache ws extra :
  tdd_inv self cache ws extra ->
  match TextDataDecodeReader_poll_fill_buf self with
  | (Pending, self') => tdd_inv self' cache ws extra /\ (length (tdd_reader self') < length (tdd_reader self))%nat
  | (Ready (Ok c), self') =>
      (length (tdd_reader self') <= length (tdd_reader self))%nat /\
      ((c <> [] /\ exists ws', tdd_inv self' c ws' extra /\
          cache ++ concat (map unstuff ws) = c ++ concat (map unstuff ws') /\
          (length c + length (concat ws') <= length cache + length (concat ws))%nat) \/
       (c = [] /\ cache = [] /\ ws = [] /\ TextDataDecodeReader_finished self' = true))
  | _ => False
  end.
Proof.
  intros Hinv. pose proof Hinv as (Hwf & Hwb & Hdone & Hws & Hc).
  unfold TextDataDecodeReader_poll_fill_buf, ddb_poll_get_cache. rewrite Hdone.
  destruct cache as [|b cache].
  2: { pose proof Hc as (tail & Hcached & Hs). pose proof Hcached as (pre & _ & _ & Hcd). rewrite Hcd.
       rewrite (ddb_cache_cached _ (b :: cache) tail) by done. cbn [bind]. destruct self. split; [done|].
       left. split; [done|]. by exists ws. }
  destruct Hc as [Hcd Hs]. rewrite Hcd.
  assert (exists pre rest, wire_text ws extra = (pre ++ [LF]) ++ rest /\ (LF ∉ pre) /\ len (pre ++ [LF]) <= N /\
    ((ws = [] /\ pre = [DOT_BYTE; CR]) \/
     exists ws', ws = (pre ++ [LF]) :: ws' /\ rest = wire_text ws' extra /\ Forall wire_line ws' /\ pre <> [DOT_BYTE; CR]))
    as (pre & rest & Htext & Hn & Hlen & Hcase).
  { destruct Hws as [|w ws [(pre & -> & Hn & Hd) Hlen] Hws].
    - exists [DOT_BYTE; CR], extra. split_and!; [done| |cbn; unfold len; cbn; lia|by left].
      rewrite !not_elem_of_cons. split_and!; try done. apply not_elem_of_nil.
    - exists pre, (wire_text ws extra). split_and!; try done.
      + unfold wire_text. cbn [concat]. by rewrite <- app_assoc.
      + right. by exists ws. }
  rewrite Htext in Hs. pose proof (ddb_poll_line_next N _ _ pre rest Hwf Hwb Hn Hlen Hs) as Hp.
  destruct (ddb_poll_line _ _) as [[[[[start fin]|e|]|] d'] rd']; [|done..|].
  2: { destruct Hp as (Hwf' & Hwb' & Hs' & Hlt & Hc' & Hd'). split; [|done]. split_and!; try done; cbn; congruence. }
  destruct Hp as (Hwf' & Hwb' & Hle & Hc' & Hd' & -> & -> & post & Hp & Hrest).
  destruct Hcase as [[-> ->]|(ws' & -> & -> & Hws' & Hd)].
  - change (len ([DOT_BYTE; CR] ++ [LF])) with 3. rewrite (ddb_take_line_end N d' post) by done. cbn [bind]. unfold ddb_cache.
    change (ddb_cache_data (ddb_set_done d')) with (ddb_cache_data d'). rewrite Hc', Hcd.
    split; [done|]. right. by split_and!.
  - destruct (ddb_take_line_text N d' pre post Hwf' Hp Hn Hd) as (d2 & -> & Hwf2 & Hc2 & Hd2). cbn [bind].
    rewrite (ddb_cache_cached d2 _ post Hwf2 Hc2). split; [done|]. left.
    assert (unstuff (pre ++ [LF]) <> []) as Hne by (by destruct Hc2 as (? & ? & ? & ?)).
    split; [done|]. exists ws'. split_and!.
    + split_and!; try done; cbn; [congruence|]. destruct (unstuff (pre ++ [LF])); [done|]. by exists post.
    + done.
    + cbn [concat]. rewrite length_app. assert (length (unstuff (pre ++ [LF])) <= length (pre ++ [LF]))%nat; [|cbn; lia].
      unfold unstuff. destruct (pre ++ [LF]); [done|]. case_bool_decide; cbn; lia.
Qed.

Lemma tdd_inv_new rd ws extra :
  well_behaved rd -> Forall wire_line ws -> stream_of rd = wire_text ws extra ->
  tdd_inv (TextDataDecodeReader_new rd N) [] ws extra.
Proof.
  intros Hwb Hws Hst. split; [|by split_and!]. unfold ddb_wf.
  cbn [tdd_buf TextDataDecodeReader_new DataDecodeBuffer_new ddb_buf ddb_start ddb_end]. split_and!; len_lia.
Qed.

Lemma tdd_read_to_end_spec fuel amts self cache ws extra :
  (forall n, 0 < amts n) -> tdd_inv self cache ws extra ->
  (length (tdd_reader self) + length cache + length (concat ws) < fuel)%nat ->
  exists self', tdd_read_to_end fuel amts self = (Ok (cache ++ concat (map unstuff ws)), self') /\
    TextDataDecodeReader_finished self' = true.
Proof.
  intros Hamts. revert self cache ws. induction fuel as [|fuel IH]; intros self cache ws Hinv Hfuel; [lia|].
  cbn [tdd_read_to_end]. pose proof (tdd_poll_fill_buf_inv self cache ws extra Hinv) as Hp.
  destruct (TextDataDecodeReader_poll_fill_buf self) as [[[c|e|]|] self1]; [|done..|].
  2: { destruct Hp as [Hinv1 Hlt]. apply IH; [done|lia]. }
  destruct Hp as [Hle [(Hne & ws' & Hinv1 & -> & Hm)|(-> & -> & -> & Hfin)]]; [|by exists self1].
  destruct c as [|b c]; [done|]. pose proof (Hamts fuel) as Ha.
  destruct (tdd_consume_inv self1 (b :: c) ws' extra (Z.min (amts fuel) (len (b :: c))) Hne Hinv1
    ltac:(len_lia)) as (self2 & -> & Hrd & Hinv2).
  destruct (IH self2 _ ws' Hinv2) as (self3 & -> & Hfin).
  { rewrite Hrd, length_drop. unfold len in *. cbn [length] in *. lia. }
  exists self3. split; [|done]. by rewrite app_assoc, take_drop.
Qed.

End Buffered.

(** ** Properties *)

(** Reading a message text through the buffered interface yields its lines
    in order with the transparency dot of each dotted line removed (RFC 5321
    section 4.5.2), stops at the line with the single dot and then reports the
    text as finished; neither the cutting of the stream into reads nor the
    amounts the caller consumes matter.  Lines must fit into the buffer. *)
Theorem text_decoder_unstuffs (N : Z) (rd : reader) (amts : nat -> Z) (ws : list bytes) (extra : bytes) :
  3 <= N <= isize_max -> well_behaved rd -> (forall n, 0 < amts n) ->
  Forall (wire_line N) ws -> stream_of rd = wire_text ws extra ->
  exists self, tdd_read_to_end (S (length rd + length (concat ws))) amts (TextDataDecodeReader_new rd N) =
      (Ok (concat (map unstuff ws)), self) /\
    TextDataDecodeReader_finished self = true.
Proof.
  intros HN Hwb Hamts Hws Hst.
  apply (tdd_read_to_end_spec N HN _ amts (TextDataDecodeReader_new rd N) [] ws extra Hamts); [|cbn; lia].
  by apply tdd_inv_new.
Qed.

Lemma text_decoder_unstuffs_witness :
  exists self, tdd_read_to_end 16 (fun _ => 2)
      (TextDataDecodeReader_new [Data (bs "a"); Pend; Data [LF; DOT_BYTE]; Data (bs ".xyz");
         Data [CR; LF; DOT_BYTE]; Pend; Data [CR]; Data [LF; x51]] 8) =
      (Ok [x61; LF; DOT_BYTE; x78; x79; x7a; CR; LF], self) /\
    TextDataDecodeReader_finished self = true.
Proof.
  refine (text_decoder_unstuffs 8
    [Data (bs "a"); Pend; Data [LF; DOT_BYTE]; Data (bs ".xyz");
         Data [CR; LF; DOT_BYTE]; Pend; Data [CR]; Data [LF; x51]] (fun _ => 2)
    [[x61; LF]; [DOT_BYTE; DOT_BYTE; x78; x79; x7a; CR; LF]] [x51] _ _ _ _ _).
  - split; apply Z.leb_le; reflexivity.
  - repeat constructor; done.
  - intros _. lia.
  - repeat constructor; try (apply Z.leb_le; reflexivity);
      [exists [x61]|exists [DOT_BYTE; DOT_BYTE; x78; x79; x7a; CR]]; split_and!; try done;
      rewrite ?not_elem_of_cons; split_and!; try done; apply not_elem_of_nil.
  - reflexivity.
Defined.

(** The unbuffered interface does not keep the contract of [AsyncRead]: bytes
    are put into the caller's buffer and the call still returns [Pending].  A
    caller that polls again with a fresh buffer, as [AsyncReadExt::read] does,
    never sees the first line here. *)
Example poll_read_fills_and_pends :
  exists self1 self2,
    TextDataDecodeReader_poll_read
      (TextDataDecodeReader_new [Data [x61; LF]; Pend; Data [x62; LF; DOT_BYTE; CR; LF]] 16) 8 =
      (Pending, [x61; LF], self1) /\
    TextDataDecodeReader_poll_read self1 8 = (Ready (Ok tt), [x62; LF], self2) /\
    TextDataDecodeReader_finished self2 = true.
Proof.
  set (self := TextDataDecodeReader_new _ _).
  exists (snd (TextDataDecodeReader_poll_read self 8)).
  exists (snd (TextDataDecodeReader_poll_read (snd (TextDataDecodeReader_poll_read self 8)) 8)).
  split; [|split]; vm_compute; reflexivity.
Qed.
