(* ===== verification/SmtpEncode.v ===== *)
(** * SMTP message text: adding the transparency dots

    Models [lib/vey-smtp-proto/src/io/text_encoder.rs]: the transfer that copies a
    message to a writer, doubles the dot at the start of a line and appends the
    line with the single dot. *)

From Stdlib Require Import ZArith Lia Strings.Byte.
From stdpp Require Import base list.
From S2P Require Import Prelude Reader AsyncIo StreamCopy SmtpText SmtpDecode.

(** ** The transfer *)

Record EncodeCopyBuffer : Type := {
  ecb_read_done : bool;
  ecb_buf : bytes;
  ecb_yield_size : Z;
  ecb_r_off : Z;
  ecb_w_off : Z;
  ecb_total : Z;
  ecb_need_flush : bool;
  ecb_active : bool;
  ecb_line_end : Z;
  ecb_check_line : bool;
  ecb_write_dot : bool;
  ecb_read_end_ok : bool;
  ecb_write_append_line : bool
}.

Record TextDataEncodeTransfer : Type := {
  tet_reader : reader;
  tet_writer : writer;
  tet_buf : EncodeCopyBuffer
}.

Definition EncodeCopyBuffer_new (buffer_size yield_size : Z) : EncodeCopyBuffer := {|
  ecb_read_done := false;
  ecb_buf := replicate (Z.to_nat buffer_size) x00;
  ecb_yield_size := yield_size;
  ecb_r_off := 0;
  ecb_w_off := 0;
  ecb_total := 0;
  ecb_need_flush := false;
  ecb_active := false;
  ecb_line_end := 0;
  ecb_check_line := true;
  ecb_write_dot := false;
  ecb_read_end_ok := true;
  ecb_write_append_line := false
|}.

Definition TextDataEncodeTransfer_new (rd : reader) (wr : writer) (buffer_size yield_size : Z)
    : TextDataEncodeTransfer :=
  {| tet_reader := rd; tet_writer := wr; tet_buf := EncodeCopyBuffer_new buffer_size yield_size |}.

(** Assignments to groups of fields. *)
Section Assign.
Context (b : EncodeCopyBuffer).

Definition ecb_set_offsets (buf : bytes) (w_off r_off line_end : Z) : EncodeCopyBuffer := {|
  ecb_read_done := ecb_read_done b; ecb_buf := buf; ecb_yield_size := ecb_yield_size b;
  ecb_r_off := r_off; ecb_w_off := w_off; ecb_total := ecb_total b;
  ecb_need_flush := ecb_need_flush b; ecb_active := ecb_active b; ecb_line_end := line_end;
  ecb_check_line := ecb_check_line b; ecb_write_dot := ecb_write_dot b;
  ecb_read_end_ok := ecb_read_end_ok b; ecb_write_append_line := ecb_write_append_line b |}.

Definition ecb_set_flags (check_line write_dot : bool) : EncodeCopyBuffer := {|
  ecb_read_done := ecb_read_done b; ecb_buf := ecb_buf b; ecb_yield_size := ecb_yield_size b;
  ecb_r_off := ecb_r_off b; ecb_w_off := ecb_w_off b; ecb_total := ecb_total b;
  ecb_need_flush := ecb_need_flush b; ecb_active := ecb_active b; ecb_line_end := ecb_line_end b;
  ecb_check_line := check_line; ecb_write_dot := write_dot;
  ecb_read_end_ok := ecb_read_end_ok b; ecb_write_append_line := ecb_write_append_line b |}.

Definition ecb_set_read (read_done read_end_ok active : bool) : EncodeCopyBuffer := {|
  ecb_read_done := read_done; ecb_buf := ecb_buf b; ecb_yield_size := ecb_yield_size b;
  ecb_r_off := ecb_r_off b; ecb_w_off := ecb_w_off b; ecb_total := ecb_total b;
  ecb_need_flush := ecb_need_flush b; ecb_active := active; ecb_line_end := ecb_line_end b;
  ecb_check_line := ecb_check_line b; ecb_write_dot := ecb_write_dot b;
  ecb_read_end_ok := read_end_ok; ecb_write_append_line := ecb_write_append_line b |}.

Definition ecb_set_written (w_off total : Z) (need_flush active : bool) : EncodeCopyBuffer := {|
  ecb_read_done := ecb_read_done b; ecb_buf := ecb_buf b; ecb_yield_size := ecb_yield_size b;
  ecb_r_off := ecb_r_off b; ecb_w_off := w_off; ecb_total := total;
  ecb_need_flush := need_flush; ecb_active := active; ecb_line_end := ecb_line_end b;
  ecb_check_line := ecb_check_line b; ecb_write_dot := ecb_write_dot b;
  ecb_read_end_ok := ecb_read_end_ok b; ecb_write_append_line := ecb_write_append_line b |}.

Definition ecb_set_append : EncodeCopyBuffer := {|
  ecb_read_done := ecb_read_done b; ecb_buf := ecb_buf b; ecb_yield_size := ecb_yield_size b;
  ecb_r_off := ecb_r_off b; ecb_w_off := ecb_w_off b; ecb_total := ecb_total b;
  ecb_need_flush := ecb_need_flush b; ecb_active := ecb_active b; ecb_line_end := ecb_line_end b;
  ecb_check_line := ecb_check_line b; ecb_write_dot := ecb_write_dot b;
  ecb_read_end_ok := ecb_read_end_ok b; ecb_write_append_line := true |}.

End Assign.

Definition tet_set_buf (t : TextDataEncodeTransfer) (b : EncodeCopyBuffer) : TextDataEncodeTransfer :=
  {| tet_reader := tet_reader t; tet_writer := tet_writer t; tet_buf := b |}.

Definition tet_set_writer (t : TextDataEncodeTransfer) (w : writer) : TextDataEncodeTransfer :=
  {| tet_reader := tet_reader t; tet_writer := w; tet_buf := tet_buf t |}.

Definition MIN_BUF_SIZE : Z := 16.

Definition ecb_poll_fill_buf (t : TextDataEncodeTransfer)
    : poll (res StreamCopyError unit) * TextDataEncodeTransfer :=
  let b := tet_buf t in
  if len (ecb_buf b) <=? ecb_r_off b + MIN_BUF_SIZE then (Ready (Ok tt), t)
  else
    match poll_read (tet_reader t) (len (ecb_buf b) - ecb_r_off b) with
    | (Pending, rd) => (Pending, {| tet_reader := rd; tet_writer := tet_writer t; tet_buf := b |})
    | (Ready (Err e), rd) =>
        (Ready (Err (Copy_ReadFailed e)), {| tet_reader := rd; tet_writer := tet_writer t; tet_buf := b |})
    | (Ready Panic, rd) => (Ready Panic, {| tet_reader := rd; tet_writer := tet_writer t; tet_buf := b |})
    | (Ready (Ok c), rd) =>
        let filled := take (Z.to_nat (ecb_r_off b)) (ecb_buf b) ++ c in
        let filled_len := len filled in
        if ecb_r_off b =? filled_len then
          (Ready (Ok tt), {| tet_reader := rd; tet_writer := tet_writer t;
                             tet_buf := ecb_set_read b true (ecb_read_end_ok b) (ecb_active b) |})
        else
          match index (E := StreamCopyError) filled (filled_len - 1) with
          | Ok last =>
              let b := ecb_set_offsets b (filled ++ drop (Z.to_nat filled_len) (ecb_buf b))
                         (ecb_w_off b) filled_len (ecb_line_end b) in
              (Ready (Ok tt), {| tet_reader := rd; tet_writer := tet_writer t;
                 tet_buf := ecb_set_read b (ecb_read_done b) (bool_decide (last = LF)) true |})
          | _ => (Ready Panic, t)
          end
    end.

(** The answer of the writer to data that is not accounted for yet. *)
Definition tet_write (t : TextDataEncodeTransfer) (data : bytes)
    : poll (res StreamCopyError Z) * TextDataEncodeTransfer :=
  match poll_write (tet_writer t) data with
  | (Pending, w) => (Pending, tet_set_writer t w)
  | (Ready None, w) => (Ready (Err Copy_WriteFailed), tet_set_writer t w)
  | (Ready (Some n), w) =>
      if n =? 0 then (Ready (Err Copy_WriteZero), tet_set_writer t w)
      else (Ready (Ok n), tet_set_writer t w)
  end.

Definition poll_write_dot (t : TextDataEncodeTransfer)
    : poll (res StreamCopyError Z) * TextDataEncodeTransfer :=
  match tet_write t [DOT_BYTE] with
  | (Ready (Ok n), t) =>
      match uadd (E := StreamCopyError) (ecb_total (tet_buf t)) n with
      | Ok total =>
          (Ready (Ok n), tet_set_buf t (ecb_set_written (tet_buf t) (ecb_w_off (tet_buf t)) total true true))
      | _ => (Ready Panic, t)
      end
  | r => r
  end.

Definition poll_write_line (t : TextDataEncodeTransfer)
    : poll (res StreamCopyError Z) * TextDataEncodeTransfer :=
  match slice (E := StreamCopyError) (ecb_buf (tet_buf t)) (ecb_w_off (tet_buf t)) (ecb_line_end (tet_buf t)) with
  | Ok data =>
      match tet_write t data with
      | (Ready (Ok n), t) =>
          match uadd (E := StreamCopyError) (ecb_total (tet_buf t)) n with
          | Ok total =>
              (Ready (Ok n), tet_set_buf t (ecb_set_written (tet_buf t) (ecb_w_off (tet_buf t) + n) total true true))
          | _ => (Ready Panic, t)
          end
      | r => r
      end
  | _ => (Ready Panic, t)
  end.

(** [if self.write_dot { .. }] *)
Definition write_pending_dot (t : TextDataEncodeTransfer)
    : poll (res StreamCopyError Z) * TextDataEncodeTransfer :=
  if ecb_write_dot (tet_buf t) then
    poll_bind (poll_write_dot t) (fun i t =>
      (Ready (Ok i), tet_set_buf t (ecb_set_flags (tet_buf t) (ecb_check_line (tet_buf t)) false)))
  else (Ready (Ok 0), t).

(** [if self.line_end <= self.w_off { .. }] *)
Definition find_line_end (b : EncodeCopyBuffer) (left : bytes) : EncodeCopyBuffer :=
  if ecb_line_end b <=? ecb_w_off b then
    ecb_set_offsets b (ecb_buf b) (ecb_w_off b) (ecb_r_off b)
      (match memchr LF left with
       | Some p => ecb_w_off b + p + 1
       | None => ecb_r_off b
       end)
  else b.

(** Write (a part of) the line; a line that is written to its end and ends with
    a newline is followed by a new line. *)
Definition write_line_step (t : TextDataEncodeTransfer)
    : poll (res StreamCopyError Z) * TextDataEncodeTransfer :=
  poll_bind (poll_write_line t) (fun i t =>
    let b := tet_buf t in
    if ecb_line_end b <=? ecb_w_off b then
      poll_bind (poll_lift (index (ecb_buf b) (ecb_line_end b - 1)) t) (fun last t =>
        if bool_decide (last = LF)
        then (Ready (Ok i), tet_set_buf t (ecb_set_flags b true (ecb_write_dot b)))
        else (Ready (Ok i), t))
    else (Ready (Ok i), t)).

(** Every round writes a byte, or finds a dot that the next one writes. *)
Fixpoint poll_write_buf_loop (fuel : nat) (t : TextDataEncodeTransfer) (nw : Z)
    : poll (res StreamCopyError Z) * TextDataEncodeTransfer :=
  match fuel with
  | O => (Ready Panic, t)
  | S fuel' =>
      if ecb_w_off (tet_buf t) <? ecb_r_off (tet_buf t) then
        poll_bind (write_pending_dot t) (fun i t =>
          let nw := nw + i in
          let b := tet_buf t in
          poll_bind (poll_lift (slice (ecb_buf b) (ecb_w_off b) (ecb_r_off b)) t) (fun left t =>
            let b := find_line_end b left in
            if ecb_check_line b then
              poll_bind (poll_lift (index left 0) t) (fun first t =>
                if bool_decide (first = DOT_BYTE) then
                  poll_write_buf_loop fuel' (tet_set_buf t (ecb_set_flags b false true)) nw
                else
                  poll_bind (write_line_step (tet_set_buf t (ecb_set_flags b false (ecb_write_dot b))))
                    (fun i t => poll_write_buf_loop fuel' t (nw + i)))
            else
              poll_bind (write_line_step (tet_set_buf t b))
                (fun i t => poll_write_buf_loop fuel' t (nw + i))))
      else
        let b := tet_buf t in
        (Ready (Ok nw),
         if ecb_line_end b =? ecb_r_off b
         then tet_set_buf t (ecb_set_offsets b (ecb_buf b) (ecb_w_off b) (ecb_r_off b) 0)
         else t)
  end.

Definition poll_write_buf (t : TextDataEncodeTransfer)
    : poll (res StreamCopyError Z) * TextDataEncodeTransfer :=
  poll_write_buf_loop (S (S (2 * length (ecb_buf (tet_buf t))))) t 0.

(** [if self.need_flush { ready!(writer.poll_flush(cx)).map_err(..)?; }] *)
Definition tet_flush (t : TextDataEncodeTransfer)
    : poll (res StreamCopyError unit) * TextDataEncodeTransfer :=
  if ecb_need_flush (tet_buf t) then
    match poll_flush (tet_writer t) with
    | (Pending, w) => (Pending, tet_set_writer t w)
    | (Ready true, w) => (Ready (Ok tt), tet_set_writer t w)
    | (Ready false, w) => (Ready (Err Copy_WriteFailed), tet_set_writer t w)
    end
  else (Ready (Ok tt), t).

(** The step that follows a read which has nothing yet. *)
Definition flush_and_wait {A} (t : TextDataEncodeTransfer)
    : poll (res StreamCopyError A) * TextDataEncodeTransfer :=
  poll_bind (tet_flush t) (fun _ t =>
    let b := tet_buf t in
    (Pending,
     if ecb_need_flush b
     then tet_set_buf t (ecb_set_written b (ecb_w_off b) (ecb_total b) false (ecb_active b))
     else t)).

(** The end of the text, once everything before it is written. *)
Definition append_end (b : EncodeCopyBuffer) : res StreamCopyError EncodeCopyBuffer :=
  let ending := if ecb_read_end_ok b then [DOT_BYTE; CR; LF] else [CR; LF; DOT_BYTE; CR; LF] in
  let? buf := copy_from_slice (ecb_buf b) 0 (len ending) ending in
  Ok (ecb_set_append (ecb_set_offsets b buf 0 (len ending) (len ending))).

(** Reset an empty buffer. *)
Definition ecb_reset (b : EncodeCopyBuffer) : EncodeCopyBuffer :=
  if ecb_w_off b =? ecb_r_off b then ecb_set_offsets b (ecb_buf b) 0 0 (ecb_line_end b) else b.

(** The part of a round after the read. *)
Definition copy_write (t : TextDataEncodeTransfer) (copy_this_round : Z)
    : poll (res StreamCopyError Z) * TextDataEncodeTransfer :=
  poll_bind (poll_write_buf t) (fun nw t =>
    let copy_this_round := copy_this_round + nw in
    let b := tet_buf t in
    if ecb_yield_size b <=? copy_this_round then (Pending, t)
    else if ecb_read_done b && (ecb_w_off b =? ecb_r_off b) then
      match append_end b with
      | Ok b => (Ready (Ok copy_this_round), tet_set_buf t b)
      | Err e => (Ready (Err e), t)
      | Panic => (Ready Panic, t)
      end
    else (Ready (Ok copy_this_round), t)).

Fixpoint poll_copy_loop (fuel : nat) (t : TextDataEncodeTransfer) (copy_this_round : Z)
    : poll (res StreamCopyError Z) * TextDataEncodeTransfer :=
  match fuel with
  | O => (Ready Panic, t)
  | S fuel' =>
      if ecb_write_append_line (tet_buf t) then
        poll_bind (poll_write_line t) (fun nw t =>
          if ecb_r_off (tet_buf t) <=? ecb_w_off (tet_buf t) then
            poll_bind (tet_flush t) (fun _ t => (Ready (Ok (ecb_total (tet_buf t))), t))
          else poll_copy_loop fuel' t (copy_this_round + nw))
      else if negb (ecb_read_done (tet_buf t)) then
        let t := tet_set_buf t (ecb_reset (tet_buf t)) in
        match ecb_poll_fill_buf t with
        | (Pending, t) =>
            if ecb_r_off (tet_buf t) <=? ecb_w_off (tet_buf t) then flush_and_wait t
            else poll_bind (copy_write t copy_this_round) (fun n t => poll_copy_loop fuel' t n)
        | (Ready (Ok _), t) =>
            poll_bind (copy_write t copy_this_round) (fun n t => poll_copy_loop fuel' t n)
        | (Ready (Err e), t) => (Ready (Err e), t)
        | (Ready Panic, t) => (Ready Panic, t)
        end
      else poll_bind (copy_write t copy_this_round) (fun n t => poll_copy_loop fuel' t n)
  end.

(** Every round takes an event or a byte from the reader, writes a byte of the
    end, or changes to one of these phases. *)
Definition poll_copy (t : TextDataEncodeTransfer) : poll (res StreamCopyError Z) * TextDataEncodeTransfer :=
  poll_copy_loop (length (tet_reader t) + length (stream_of (tet_reader t)) + 10) t 0.

Definition TextDataEncodeTransfer_poll (t : TextDataEncodeTransfer)
    : poll (res StreamCopyError Z) * TextDataEncodeTransfer := poll_copy t.

Definition no_cached_data (t : TextDataEncodeTransfer) : bool :=
  ecb_r_off (tet_buf t) =? ecb_w_off (tet_buf t).

Definition TextDataEncodeTransfer_finished (t : TextDataEncodeTransfer) : bool :=
  ecb_read_done (tet_buf t) && no_cached_data t.

Definition copied_size (t : TextDataEncodeTransfer) : Z := ecb_total (tet_buf t).
Definition is_active (t : TextDataEncodeTransfer) : bool := ecb_active (tet_buf t).
Definition is_idle (t : TextDataEncodeTransfer) : bool := negb (ecb_active (tet_buf t)).

Definition reset_active (t : TextDataEncodeTransfer) : TextDataEncodeTransfer :=
  tet_set_buf t (ecb_set_read (tet_buf t) (ecb_read_done (tet_buf t)) (ecb_read_end_ok (tet_buf t)) false).

Definition tet_write_flush (t : TextDataEncodeTransfer) : res StreamCopyError unit * TextDataEncodeTransfer :=
  let b := tet_buf t in
  let polls := S (length (wr_writes (tet_writer t))) in
  let (r, t) :=
    if ecb_write_append_line b then
      if ecb_w_off b <? ecb_r_off b then await polls poll_write_line t else (Ok 0, t)
    else await polls poll_write_buf t in
  match r with
  | Ok _ => await (S (length (wr_flushes (tet_writer t)))) tet_flush t
  | Err e => (Err e, t)
  | Panic => (Panic, t)
  end.

Definition tet_writer_of (t : TextDataEncodeTransfer) : writer := tet_writer t.

(** ** Dot stuffing *)

Section Stuffing.

(** [bol]: at the beginning of a line. *)
Fixpoint stuff (bol : bool) (l : bytes) : bytes :=
  match l with
  | [] => []
  | b :: l' =>
      (if bol && bool_decide (b = DOT_BYTE) then [DOT_BYTE] else []) ++ b :: stuff (bool_decide (b = LF)) l'
  end.

Fixpoint at_line_start (bol : bool) (l : bytes) : bool :=
  match l with
  | [] => bol
  | b :: l' => at_line_start (bool_decide (b = LF)) l'
  end.

Definition text_ending (bol : bool) : bytes :=
  if bol then [DOT_BYTE; CR; LF] else [CR; LF; DOT_BYTE; CR; LF].

(** What is sent for a message: the stuffed text, with a line end if it has
    none, and the line with the single dot. *)
Definition encode_text (bol : bool) (l : bytes) : bytes := stuff bol l ++ text_ending (at_line_start bol l).

Lemma stuff_app bol l k : stuff bol (l ++ k) = stuff bol l ++ stuff (at_line_start bol l) k.
Proof.
  revert bol. induction l as [|b l IH]; intros bol; cbn [app stuff at_line_start]; [done|].
  by rewrite IH, <- app_assoc.
Qed.

Lemma at_line_start_app bol l k : at_line_start bol (l ++ k) = at_line_start (at_line_start bol l) k.
Proof. revert bol. induction l as [|b l IH]; intros bol; cbn [app at_line_start]; [done|]. apply IH. Qed.

Lemma encode_text_app bol l k : encode_text bol (l ++ k) = stuff bol l ++ encode_text (at_line_start bol l) k.
Proof. unfold encode_text. by rewrite stuff_app, at_line_start_app, app_assoc. Qed.

Lemma stuff_in_line l : LF ∉ l -> stuff false l = l /\ at_line_start false l = false.
Proof.
  induction l as [|b l IH]; cbn [stuff at_line_start andb app]; [done|].
  intros [Hb Hl]%not_elem_of_cons. rewrite bool_decide_eq_false_2 by done.
  destruct (IH Hl) as [-> ->]. done.
Qed.

Lemma stuff_full_line l :
  LF ∉ l -> stuff false (l ++ [LF]) = l ++ [LF] /\ at_line_start false (l ++ [LF]) = true.
Proof.
  intros Hl. rewrite stuff_app, at_line_start_app. destruct (stuff_in_line l Hl) as [-> ->].
  split; [done|]. cbn. by rewrite bool_decide_eq_true_2.
Qed.

(** The first byte of a line is written after its dot. *)
Lemma encode_text_dot l : encode_text true (DOT_BYTE :: l) = DOT_BYTE :: encode_text false (DOT_BYTE :: l).
Proof. done. Qed.

Lemma encode_text_no_dot b l : b <> DOT_BYTE -> encode_text true (b :: l) = encode_text false (b :: l).
Proof. intros Hb. unfold encode_text. cbn. by rewrite bool_decide_eq_false_2. Qed.

End Stuffing.

(** ** Writers that make progress *)

Section Writers.

(** A writer that never fails, never accepts nothing and flushes at once. *)
Definition good_writer (w : writer) : Prop :=
  Forall (fun e => match e with Accept n => 0 < n | WPend => True | WError => False end) (wr_writes w) /\
  wr_flushes w = [].

Lemma tet_write_spec t data :
  good_writer (tet_writer t) -> data <> [] ->
  match tet_write t data with
  | (Pending, t') => exists w, t' = tet_set_writer t w /\ good_writer w /\ wr_out w = wr_out (tet_writer t) /\
      (length (wr_writes w) < length (wr_writes (tet_writer t)))%nat
  | (Ready (Ok n), t') => exists w, t' = tet_set_writer t w /\ good_writer w /\ 0 < n <= len data /\
      wr_out w = wr_out (tet_writer t) ++ take (Z.to_nat n) data /\
      (length (wr_writes w) <= length (wr_writes (tet_writer t)))%nat
  | _ => False
  end.
Proof.
  intros [Hg Hf] Hne. assert (0 < len data) as Hl.
  { destruct data; [done|]. len_lia. }
  unfold tet_write, poll_write. destruct (tet_writer t) as [writes flushes out]. cbn in Hg, Hf. subst flushes.
  destruct writes as [|[n| |] writes]; cbn [wr_writes]; try apply Forall_cons in Hg as [Hn Hg].
  - destruct (Z.eqb_spec (len data) 0); [lia|]. eexists. split; [done|]. by split_and!; try lia.
  - destruct (Z.eqb_spec (Z.min n (len data)) 0); [lia|]. eexists. split; [done|]. split_and!; try lia; try done.
    cbn. lia.
  - eexists. split; [done|]. split_and!; try done. cbn. lia.
  - done.
Qed.

End Writers.

(** ** The invariant of the transfer *)

Section Transfer.
Context (N Y : Z) (enc : bytes).
Context (HN : MIN_BUF_SIZE < N <= isize_max) (HY : 0 < Y) (Henc : len enc <= u64_max).

(** The bytes that have been read and not been written. *)
Definition ecb_left (b : EncodeCopyBuffer) : bytes :=
  take (Z.to_nat (ecb_r_off b - ecb_w_off b)) (drop (Z.to_nat (ecb_w_off b)) (ecb_buf b)).

Definition dot_if (b : bool) : bytes := if b then [DOT_BYTE] else [].

(** While text is copied: the output so far, followed by what the state still
    stands for, is the encoded text. *)
Record copying (t : TextDataEncodeTransfer) : Prop := {
  cp_len : len (ecb_buf (tet_buf t)) = N;
  cp_offs : 0 <= ecb_w_off (tet_buf t) <= ecb_r_off (tet_buf t) /\ ecb_r_off (tet_buf t) <= N;
  cp_line : ecb_w_off (tet_buf t) < ecb_line_end (tet_buf t) ->
    ecb_line_end (tet_buf t) <= ecb_r_off (tet_buf t) /\
    (LF ∉ take (Z.to_nat (ecb_line_end (tet_buf t) - ecb_w_off (tet_buf t) - 1)) (ecb_left (tet_buf t)));
  cp_idle : ecb_w_off (tet_buf t) = ecb_r_off (tet_buf t) ->
    ecb_line_end (tet_buf t) = ecb_r_off (tet_buf t) \/ ecb_line_end (tet_buf t) = 0;
  cp_out : wr_out (tet_writer t) ++ dot_if (ecb_write_dot (tet_buf t)) ++
    encode_text (ecb_check_line (tet_buf t)) (ecb_left (tet_buf t) ++ stream_of (tet_reader t)) = enc;
  cp_end_ok : at_line_start (ecb_check_line (tet_buf t)) (ecb_left (tet_buf t)) = ecb_read_end_ok (tet_buf t);
  cp_done : ecb_read_done (tet_buf t) = true -> stream_of (tet_reader t) = [];
  cp_total : ecb_total (tet_buf t) = len (wr_out (tet_writer t));
  cp_dot : ecb_write_dot (tet_buf t) = true ->
    ecb_check_line (tet_buf t) = false /\ ecb_w_off (tet_buf t) < ecb_r_off (tet_buf t);
  cp_append : ecb_write_append_line (tet_buf t) = false;
  cp_yield : ecb_yield_size (tet_buf t) = Y;
  cp_reader : well_behaved (tet_reader t);
  cp_writer : good_writer (tet_writer t)
}.

(** While the end is written. *)
Record appending (t : TextDataEncodeTransfer) : Prop := {
  ap_len : len (ecb_buf (tet_buf t)) = N;
  ap_offs : 0 <= ecb_w_off (tet_buf t) < ecb_r_off (tet_buf t) /\ ecb_r_off (tet_buf t) <= N;
  ap_short : ecb_r_off (tet_buf t) <= 5;
  ap_line : ecb_line_end (tet_buf t) = ecb_r_off (tet_buf t);
  ap_out : wr_out (tet_writer t) ++ ecb_left (tet_buf t) = enc;
  ap_done : ecb_read_done (tet_buf t) = true;
  ap_total : ecb_total (tet_buf t) = len (wr_out (tet_writer t));
  ap_append : ecb_write_append_line (tet_buf t) = true;
  ap_writer : good_writer (tet_writer t)
}.

Lemma ecb_left_split b :
  len (ecb_buf b) = N -> 0 <= ecb_w_off b <= ecb_r_off b -> ecb_r_off b <= N ->
  ecb_buf b = take (Z.to_nat (ecb_w_off b)) (ecb_buf b) ++ ecb_left b ++ drop (Z.to_nat (ecb_r_off b)) (ecb_buf b).
Proof.
  intros ? ? ?. unfold ecb_left.
  replace (Z.to_nat (ecb_r_off b)) with (Z.to_nat (ecb_w_off b) + Z.to_nat (ecb_r_off b - ecb_w_off b))%nat by lia.
  by rewrite <- drop_drop, take_drop, take_drop.
Qed.

Lemma ecb_left_len b :
  len (ecb_buf b) = N -> 0 <= ecb_w_off b <= ecb_r_off b -> ecb_r_off b <= N ->
  len (ecb_left b) = ecb_r_off b - ecb_w_off b.
Proof. intros. unfold ecb_left. len_lia. Qed.

(** After [n] bytes have been written. *)
Lemma ecb_left_drop b b' n :
  ecb_buf b' = ecb_buf b -> ecb_r_off b' = ecb_r_off b -> ecb_w_off b' = ecb_w_off b + n ->
  0 <= ecb_w_off b -> 0 <= n <= ecb_r_off b - ecb_w_off b ->
  ecb_left b' = drop (Z.to_nat n) (ecb_left b).
Proof.
  intros Hb Hr Hw ? ?. unfold ecb_left. rewrite Hb, Hr, Hw.
  replace (Z.to_nat (ecb_w_off b + n)) with (Z.to_nat (ecb_w_off b) + Z.to_nat n)%nat by lia.
  rewrite <- drop_drop, take_drop_commute. do 2 f_equal. lia.
Qed.

Lemma copying_left t : copying t -> len (ecb_left (tet_buf t)) = ecb_r_off (tet_buf t) - ecb_w_off (tet_buf t).
Proof. intros Hc. apply ecb_left_len; apply Hc. Qed.

(** The writer's answer [Pending] changes nothing else. *)
Lemma copying_pending t w :
  copying t -> good_writer w -> wr_out w = wr_out (tet_writer t) -> copying (tet_set_writer t w).
Proof. intros [] Hg Ho. split; cbn; try done; by rewrite Ho. Qed.

(** The part of the state that writing does not change. *)
Definition same_input (t t' : TextDataEncodeTransfer) : Prop :=
  tet_reader t' = tet_reader t /\ ecb_read_done (tet_buf t') = ecb_read_done (tet_buf t).

Lemma write_pending_dot_spec t :
  copying t -> ecb_w_off (tet_buf t) < ecb_r_off (tet_buf t) ->
  match write_pending_dot t with
  | (Pending, t') => copying t' /\ ecb_w_off (tet_buf t') < ecb_r_off (tet_buf t') /\ same_input t t' /\
      (length (wr_writes (tet_writer t')) < length (wr_writes (tet_writer t)))%nat /\
      wr_out (tet_writer t') = wr_out (tet_writer t)
  | (Ready (Ok i), t') => copying t' /\ ecb_write_dot (tet_buf t') = false /\ same_input t t' /\
      ecb_w_off (tet_buf t') = ecb_w_off (tet_buf t) /\ ecb_r_off (tet_buf t') = ecb_r_off (tet_buf t) /\
      ecb_check_line (tet_buf t') = ecb_check_line (tet_buf t) /\
      len (wr_out (tet_writer t')) = len (wr_out (tet_writer t)) + i /\ 0 <= i /\
      (length (wr_writes (tet_writer t')) <= length (wr_writes (tet_writer t)))%nat
  | _ => False
  end.
Proof.
  intros Hc Hlt. unfold write_pending_dot. destruct (ecb_write_dot (tet_buf t)) eqn:Hd.
  2: { split_and!; try done; lia. }
  unfold poll_write_dot. pose proof (tet_write_spec t [DOT_BYTE] (cp_writer t Hc) ltac:(done)) as Hw.
  destruct (tet_write t [DOT_BYTE]) as [[[n|e|]|] t']; [|done..|].
  2: { destruct Hw as (w & -> & Hg & Ho & Hl). cbn [poll_bind]. split; [by apply copying_pending|].
       by split_and!. }
  destruct Hw as (w & -> & Hg & Hn & Ho & Hl). assert (n = 1) as -> by (unfold len in Hn; cbn in Hn; lia).
  pose proof Hc as []. rewrite Hd in cp_out0. cbn [dot_if] in cp_out0.
  assert (len (wr_out (tet_writer t)) + 1 <= len enc) as Hle by (rewrite <- cp_out0; len_lia).
  cbn [tet_set_writer tet_buf]. rewrite cp_total0, uadd_ok by lia. cbn [poll_bind]. split.
  - split; cbn; try done.
    + by rewrite Ho, <- app_assoc.
    + rewrite Ho. len_lia.
  - split_and!; try done; try lia. cbn. rewrite Ho. len_lia.
Qed.

Lemma find_line_end_spec t :
  copying t -> ecb_w_off (tet_buf t) < ecb_r_off (tet_buf t) ->
  let b := find_line_end (tet_buf t) (ecb_left (tet_buf t)) in
  copying (tet_set_buf t b) /\ ecb_w_off b < ecb_line_end b /\
  ecb_w_off b = ecb_w_off (tet_buf t) /\ ecb_r_off b = ecb_r_off (tet_buf t) /\ ecb_left b = ecb_left (tet_buf t) /\
  ecb_check_line b = ecb_check_line (tet_buf t) /\ ecb_write_dot b = ecb_write_dot (tet_buf t) /\
  ecb_read_done b = ecb_read_done (tet_buf t).
Proof.
  intros Hc Hlt. unfold find_line_end.
  destruct (Z.leb_spec (ecb_line_end (tet_buf t)) (ecb_w_off (tet_buf t))) as [_|Hgt]; cbn.
  2: { destruct t. by split_and!. }
  pose proof (copying_left t Hc) as Hl. pose proof Hc as [].
  destruct (memchr LF (ecb_left (tet_buf t))) as [p|] eqn:Hm.
  - apply memchr_Some in Hm as (pre & post & Hp & Hn & ->). rewrite Hp in Hl. split_and!; try done; [|len_lia].
    split; try done; cbn [tet_set_buf tet_buf ecb_set_offsets ecb_w_off ecb_r_off ecb_line_end]; [|lia].
    intros _. split; [len_lia|]. change (ecb_left (ecb_set_offsets _ _ _ _ _)) with (ecb_left (tet_buf t)).
    rewrite Hp. replace (Z.to_nat _) with (Z.to_nat (len pre)) by lia. by rewrite take_len_app.
  - apply memchr_None in Hm. split_and!; try done. split; try done.
    + cbn [tet_set_buf tet_buf ecb_set_offsets ecb_w_off ecb_r_off ecb_line_end]. intros _. split; [done|].
      change (ecb_left (ecb_set_offsets _ _ _ _ _)) with (ecb_left (tet_buf t)).
      intros (i & Hi & _)%elem_of_take. apply Hm. by eapply list_elem_of_lookup_2.
    + cbn. by left.
Qed.

(** At the start of a line: its first byte decides about the extra dot. *)
Lemma start_line_spec t first :
  copying t -> ecb_write_dot (tet_buf t) = false -> ecb_check_line (tet_buf t) = true ->
  ecb_w_off (tet_buf t) < ecb_r_off (tet_buf t) -> ecb_left (tet_buf t) !! 0%nat = Some first ->
  copying (tet_set_buf t (ecb_set_flags (tet_buf t) false (bool_decide (first = DOT_BYTE)))).
Proof.
  intros Hc Hd Hcl Hlt Hf. destruct (ecb_left (tet_buf t)) as [|b l] eqn:Hleft; [done|]. injection Hf as ->.
  pose proof Hc as []. rewrite Hd, Hcl, Hleft in *.
  assert (ecb_left (ecb_set_flags (tet_buf t) false (bool_decide (first = DOT_BYTE))) = first :: l) as Hl
    by exact Hleft.
  split; cbn [tet_set_buf tet_buf tet_writer tet_reader ecb_set_flags ecb_write_dot ecb_check_line]; try done;
    fold (ecb_set_flags (tet_buf t) false (bool_decide (first = DOT_BYTE))); rewrite ?Hl; try done.
  rewrite <- cp_out0. f_equal. cbn [app dot_if]. case_bool_decide as Hdot; cbn [dot_if app].
  - subst first. by rewrite encode_text_dot.
  - by rewrite encode_text_no_dot.
Qed.

(** Writing a prefix of a line, of which only the last byte may be a newline. *)
Lemma written_part line rest n s :
  LF ∉ take (length line - 1) line -> 0 < n <= len line ->
  exists bol, encode_text false ((line ++ rest) ++ s) = take (Z.to_nat n) line ++
      encode_text bol (drop (Z.to_nat n) (line ++ rest) ++ s) /\
    at_line_start false (line ++ rest) = at_line_start bol (drop (Z.to_nat n) (line ++ rest)) /\
    bol = (if len line <=? n then bool_decide (last line = Some LF) else false).
Proof.
  intros Hno Hn. set (w := take (Z.to_nat n) line).
  assert (line ++ rest = w ++ drop (Z.to_nat n) (line ++ rest)) as Hsplit.
  { rewrite drop_app_le by (unfold len in Hn; lia). unfold w. by rewrite app_assoc, take_drop. }
  exists (at_line_start false w). rewrite Hsplit at 1 3. rewrite <- app_assoc, encode_text_app, at_line_start_app.
  assert (stuff false w = w /\ at_line_start false w =
    if len line <=? n then bool_decide (last line = Some LF) else false) as [-> Hbol]; [|by rewrite Hbol].
  destruct (Z.leb_spec (len line) n) as [Hge|Hlt].
  - assert (w = line) as -> by (apply take_ge; unfold len in *; lia).
    destruct line as [|x line _] using rev_ind; [unfold len in Hn; cbn in Hn; lia|].
    rewrite length_app in Hno. cbn [length] in Hno.
    rewrite take_app_length' in Hno by lia. rewrite last_snoc. destruct (decide (x = LF)) as [->|Hx].
    + rewrite bool_decide_eq_true_2 by done. by apply stuff_full_line.
    + rewrite bool_decide_eq_false_2 by congruence. apply stuff_in_line.
      rewrite not_elem_of_app, not_elem_of_cons. split_and!; [done|congruence|apply not_elem_of_nil].
  - apply stuff_in_line. intros (i & Hi & Hlti)%elem_of_take. apply Hno. apply elem_of_take. exists i.
    split; [done|]. unfold len in *. lia.
Qed.

(** The line at the front of the unwritten bytes. *)
Lemma front_line t :
  copying t -> ecb_w_off (tet_buf t) < ecb_line_end (tet_buf t) ->
  exists line rest, ecb_left (tet_buf t) = line ++ rest /\
    len line = ecb_line_end (tet_buf t) - ecb_w_off (tet_buf t) /\ (LF ∉ take (length line - 1) line) /\
    slice (E := StreamCopyError) (ecb_buf (tet_buf t)) (ecb_w_off (tet_buf t)) (ecb_line_end (tet_buf t)) = Ok line /\
    exists x, last line = Some x /\
      index (E := StreamCopyError) (ecb_buf (tet_buf t)) (ecb_line_end (tet_buf t) - 1) = Ok x.
Proof.
  intros Hc Hlt. pose proof (copying_left t Hc) as Hl. pose proof Hc as [].
  destruct (cp_line0 Hlt) as [Hle Hno]. destruct cp_offs0 as [Hw Hr].
  set (n := Z.to_nat (ecb_line_end (tet_buf t) - ecb_w_off (tet_buf t))).
  exists (take n (ecb_left (tet_buf t))), (drop n (ecb_left (tet_buf t))).
  assert (len (take n (ecb_left (tet_buf t))) = ecb_line_end (tet_buf t) - ecb_w_off (tet_buf t)) as Hlen by len_lia.
  pose proof (ecb_left_split (tet_buf t) cp_len0 Hw Hr) as Hsplit.
  rewrite <- (take_drop n (ecb_left (tet_buf t))) in Hsplit.
  set (line := take n (ecb_left (tet_buf t))) in *. rewrite <- app_assoc in Hsplit. split_and!.
  - symmetry. apply take_drop.
  - done.
  - unfold line. rewrite length_take_le by (unfold len in *; lia). rewrite take_take.
    replace (Nat.min (n - 1) n) with (Z.to_nat (ecb_line_end (tet_buf t) - ecb_w_off (tet_buf t) - 1)) by lia. done.
  - eapply slice_at; [exact Hsplit|len_lia|lia].
  - destruct line as [|x l _] using rev_ind; [unfold len in Hlen; cbn in Hlen; lia|].
    exists x. rewrite last_snoc. split; [done|]. apply index_ok; [lia|]. rewrite Hsplit, <- app_assoc.
    rewrite app_assoc. apply list_lookup_middle. rewrite length_app, length_take.
    rewrite len_app in Hlen. unfold len in *. cbn [length] in *. lia.
Qed.

(** The state after [n] bytes of the line have been accepted. *)
Definition after_write (t : TextDataEncodeTransfer) (w : writer) (n : Z) : TextDataEncodeTransfer :=
  tet_set_buf (tet_set_writer t w)
    (ecb_set_written (tet_buf t) (ecb_w_off (tet_buf t) + n) (len (wr_out (tet_writer t)) + n) true true).

Lemma after_write_copying t w line rest n bol :
  copying t -> ecb_write_dot (tet_buf t) = false -> ecb_w_off (tet_buf t) < ecb_line_end (tet_buf t) ->
  ecb_left (tet_buf t) = line ++ rest -> len line = ecb_line_end (tet_buf t) - ecb_w_off (tet_buf t) ->
  LF ∉ take (length line - 1) line -> 0 < n <= len line ->
  good_writer w -> wr_out w = wr_out (tet_writer t) ++ take (Z.to_nat n) line ->
  encode_text (ecb_check_line (tet_buf t)) ((line ++ rest) ++ stream_of (tet_reader t)) =
    take (Z.to_nat n) line ++ encode_text bol (drop (Z.to_nat n) (line ++ rest) ++ stream_of (tet_reader t)) ->
  at_line_start (ecb_check_line (tet_buf t)) (line ++ rest) = at_line_start bol (drop (Z.to_nat n) (line ++ rest)) ->
  copying (tet_set_buf (after_write t w n) (ecb_set_flags (tet_buf (after_write t w n)) bol false)).
Proof.
  intros Hc Hd Hlt Hleft Hlen Hno Hn Hg Ho Henc1 Hend. set (t1 := after_write t w n).
  pose proof (copying_left t Hc) as Hl. pose proof Hc as []. rewrite Hd, Hleft in *.
  cbn [dot_if app] in cp_out0. destruct (cp_line0 Hlt) as [Hle1 Hno1].
  assert (ecb_left (tet_buf t1) = drop (Z.to_nat n) (line ++ rest)) as Hleft1.
  { rewrite <- Hleft. apply ecb_left_drop; [done|done|done|lia|]. rewrite len_app in Hl.
    pose proof (len_nonneg rest). lia. }
  split; cbn; try done; try lia.
  - intros Hlt2. split; [done|]. change (ecb_left _) with (ecb_left (tet_buf t1)). rewrite Hleft1.
    rewrite drop_app_le by (unfold len in *; lia).
    rewrite take_app_le by (rewrite length_drop; unfold len in *; lia).
    intros (i & Hi & Hlti)%elem_of_take. rewrite lookup_drop in Hi. apply Hno, elem_of_take.
    exists (Z.to_nat n + i)%nat. split; [done|]. unfold len in *. lia.
  - change (ecb_left _) with (ecb_left (tet_buf t1)). rewrite Hleft1, Ho, <- app_assoc, <- Henc1. done.
  - change (ecb_left _) with (ecb_left (tet_buf t1)). rewrite Hleft1. by rewrite <- Hend.
  - rewrite Ho. len_lia.
Qed.

Lemma write_line_step_spec t :
  copying t -> ecb_write_dot (tet_buf t) = false -> ecb_check_line (tet_buf t) = false ->
  ecb_w_off (tet_buf t) < ecb_line_end (tet_buf t) ->
  match write_line_step t with
  | (Pending, t') => copying t' /\ ecb_w_off (tet_buf t') < ecb_r_off (tet_buf t') /\ same_input t t' /\
      (length (wr_writes (tet_writer t')) < length (wr_writes (tet_writer t)))%nat /\
      wr_out (tet_writer t') = wr_out (tet_writer t)
  | (Ready (Ok i), t') => copying t' /\ same_input t t' /\
      ecb_w_off (tet_buf t') = ecb_w_off (tet_buf t) + i /\ ecb_r_off (tet_buf t') = ecb_r_off (tet_buf t) /\
      len (wr_out (tet_writer t')) = len (wr_out (tet_writer t)) + i /\ 0 < i /\
      (length (wr_writes (tet_writer t')) <= length (wr_writes (tet_writer t)))%nat
  | _ => False
  end.
Proof.
  intros Hc Hd Hcl Hlt. destruct (front_line t Hc Hlt) as (line & rest & Hleft & Hlen & Hno & Hslice & x & Hx & Hidx).
  pose proof (copying_left t Hc) as Hl. pose proof Hc as []. rewrite Hd, Hcl, Hleft in *.
  unfold write_line_step, poll_write_line. rewrite Hslice.
  pose proof (tet_write_spec t line cp_writer0 ltac:(intros ->; cbn in Hlen; unfold len in Hlen; cbn in Hlen; lia)) as Hw.
  destruct (tet_write t line) as [[[n|e|]|] t']; [|done..|]; cbn [poll_bind].
  2: { destruct Hw as (w & -> & Hg & Ho & Hlw). split; [by apply copying_pending|]. split_and!; try done. cbn.
       destruct (cp_line0 Hlt). lia. }
  destruct Hw as (w & -> & Hg & Hn & Ho & Hlw).
  destruct (written_part line rest n (stream_of (tet_reader t)) Hno Hn) as (bol & Henc1 & Hend & Hbol).
  cbn [dot_if app] in cp_out0. rewrite Henc1 in cp_out0.
  cbn [tet_set_writer tet_buf]. rewrite cp_total0.
  assert (len (wr_out (tet_writer t)) + n <= len enc) as Hle
    by (rewrite <- cp_out0; len_simpl; pose proof (len_nonneg (encode_text bol (drop (Z.to_nat n) (line ++ rest) ++ stream_of (tet_reader t)))); lia).
  rewrite uadd_ok by lia. cbn [poll_bind].
  pose proof (after_write_copying t w line rest n bol Hc Hd Hlt Hleft Hlen Hno Hn Hg Ho) as Hnew.
  rewrite Hcl in Hnew. specialize (Hnew Henc1 Hend).
  fold (after_write t w n). set (t1 := after_write t w n) in *.
  assert (same_input t t1 /\ ecb_w_off (tet_buf t1) = ecb_w_off (tet_buf t) + n /\
    ecb_r_off (tet_buf t1) = ecb_r_off (tet_buf t) /\ len (wr_out (tet_writer t1)) = len (wr_out (tet_writer t)) + n /\
    0 < n /\ (length (wr_writes (tet_writer t1)) <= length (wr_writes (tet_writer t)))%nat) as Hrest.
  { split_and!; try done; try lia. cbn. rewrite Ho. len_lia. }
  assert (tet_set_buf t1 (ecb_set_flags (tet_buf t1) false false) = t1) as Hsame.
  { unfold t1, after_write, tet_set_buf, ecb_set_flags, ecb_set_written. cbn. by rewrite Hd, Hcl. }
  change (ecb_line_end (tet_buf t1)) with (ecb_line_end (tet_buf t)).
  change (ecb_buf (tet_buf t1)) with (ecb_buf (tet_buf t)).
  change (ecb_w_off (tet_buf t1)) with (ecb_w_off (tet_buf t) + n) at 1.
  destruct (Z.leb_spec (ecb_line_end (tet_buf t)) (ecb_w_off (tet_buf t) + n)) as [Hfull|Hpart].
  - rewrite Hidx. cbn [poll_lift poll_bind].
    rewrite (proj2 (Z.leb_le (len line) n)) in Hbol by lia. rewrite Hx in Hbol.
    destruct (bool_decide_reflect (x = LF)) as [Hlf|Hlf]; cbv beta iota.
    + split; [|exact Hrest]. rewrite Hbol, bool_decide_eq_true_2 in Hnew by congruence.
      change (ecb_write_dot (tet_buf t1)) with (ecb_write_dot (tet_buf t)). by rewrite Hd.
    + split; [|exact Hrest]. by rewrite Hbol, bool_decide_eq_false_2, Hsame in Hnew by congruence.
  - split; [|exact Hrest]. rewrite (proj2 (Z.leb_gt (len line) n)) in Hbol by lia. by rewrite Hbol, Hsame in Hnew.
Qed.

(** What writing out the buffer achieves. *)
Definition write_result (t : TextDataEncodeTransfer) (nw : Z)
    (r : poll (res StreamCopyError Z) * TextDataEncodeTransfer) : Prop :=
  match r with
  | (Pending, t') => copying t' /\ ecb_w_off (tet_buf t') < ecb_r_off (tet_buf t') /\ same_input t t' /\
      (length (wr_writes (tet_writer t')) < length (wr_writes (tet_writer t)))%nat /\
      len (wr_out (tet_writer t)) <= len (wr_out (tet_writer t'))
  | (Ready (Ok nw'), t') => copying t' /\ ecb_w_off (tet_buf t') = ecb_r_off (tet_buf t') /\
      ecb_line_end (tet_buf t') = 0 /\ same_input t t' /\
      nw' = nw + (len (wr_out (tet_writer t')) - len (wr_out (tet_writer t))) /\
      len (wr_out (tet_writer t)) <= len (wr_out (tet_writer t')) /\
      (length (wr_writes (tet_writer t')) <= length (wr_writes (tet_writer t)))%nat
  | _ => False
  end.

(** A step that has written [i] bytes, followed by the rest. *)
Lemma write_result_step t t1 nw i r :
  same_input t t1 -> len (wr_out (tet_writer t1)) = len (wr_out (tet_writer t)) + i -> 0 <= i ->
  (length (wr_writes (tet_writer t1)) <= length (wr_writes (tet_writer t)))%nat ->
  write_result t1 (nw + i) r -> write_result t nw r.
Proof.
  intros [Hr Hd] Ho Hi Hw. destruct r as [[[nw'|e|]|] t']; cbn; [|done..|].
  - intros (? & ? & ? & [Hr' Hd'] & ? & ? & ?). split_and!; try done; try lia. split; congruence.
  - intros (? & ? & [Hr' Hd'] & ? & ?). split_and!; try done; try lia. split; congruence.
Qed.

Lemma ecb_set_flags_id b : ecb_set_flags b (ecb_check_line b) (ecb_write_dot b) = b.
Proof. by destruct b. Qed.

Definition check_round (t : TextDataEncodeTransfer) : Z := if ecb_check_line (tet_buf t) then 1 else 0.

Lemma poll_write_buf_loop_spec fuel t nw :
  copying t ->
  2 * (ecb_r_off (tet_buf t) - ecb_w_off (tet_buf t)) + check_round t < Z.of_nat fuel ->
  write_result t nw (poll_write_buf_loop fuel t nw).
Proof.
  revert t nw. induction fuel as [|fuel IH]; intros t nw Hc Hfuel.
  { unfold check_round in Hfuel. destruct (cp_offs t Hc). destruct (ecb_check_line (tet_buf t)); lia. }
  cbn [poll_write_buf_loop].
  destruct (Z.ltb_spec (ecb_w_off (tet_buf t)) (ecb_r_off (tet_buf t))) as [Hlt|Hge].
  2: { destruct (cp_offs t Hc) as [Hw Hr]. assert (ecb_w_off (tet_buf t) = ecb_r_off (tet_buf t)) as Heq by lia.
       pose proof (cp_idle t Hc Heq) as Hidle.
       destruct (Z.eqb_spec (ecb_line_end (tet_buf t)) (ecb_r_off (tet_buf t))) as [He|He].
       - cbn. split_and!; try done; try lia. destruct Hc. split; cbn; try done; try lia.
       - destruct Hidle as [?|Hz]; [done|]. cbn. split_and!; try done; try lia. }
  pose proof (write_pending_dot_spec t Hc Hlt) as Hdot.
  destruct (write_pending_dot t) as [[[i|e|]|] t1]; [|done..|]; cbn [poll_bind].
  2: { destruct Hdot as (? & ? & ? & ? & Ho). cbn. rewrite Ho. by split_and!. }
  destruct Hdot as (Hc1 & Hd1 & Hs1 & Hw1 & Hr1 & Hcl1 & Ho1 & Hi & Hwr1).
  eapply write_result_step; [exact Hs1|exact Ho1|done|done|].
  pose proof (copying_left t1 Hc1) as Hl1. destruct (cp_offs t1 Hc1) as [Hoff1 Hoff1'].
  rewrite slice_ok by (rewrite ?(cp_len t1 Hc1); lia). cbn [poll_lift poll_bind].
  change (take _ (drop _ _)) with (ecb_left (tet_buf t1)).
  destruct (find_line_end_spec t1 Hc1 ltac:(lia)) as (Hc2 & Hline & Hw2 & Hr2 & Hleft2 & Hcl2 & Hd2 & Hrd2).
  set (b2 := find_line_end _ _) in *. cbn zeta. unfold check_round in Hfuel.
  assert (forall t3, t3 = tet_set_buf t1 (ecb_set_flags b2 false false) -> copying t3 ->
    write_result t1 (nw + i) (poll_bind (write_line_step t3)
      (fun i0 t => poll_write_buf_loop fuel t (nw + i + i0)))) as Hwrite.
  { intros t3 Ht3 Hc3. subst t3.
    pose proof (write_line_step_spec _ Hc3 eq_refl eq_refl Hline) as Hstep.
    destruct (write_line_step _) as [[[j|e|]|] t4]; [|done..|]; cbn [poll_bind].
    2: { destruct Hstep as (? & ? & [Hs4 Hs4'] & ? & Ho). cbn in Hs4, Hs4', Ho. split_and!; try done.
         - split; [done|congruence].
         - by rewrite Ho. }
    destruct Hstep as (Hc4 & [Hs4 Hs4'] & Hw4 & Hr4 & Ho4 & Hj & Hwr4). cbn in Hs4, Hs4', Hw4, Hr4, Ho4, Hwr4.
    eapply write_result_step; [split; [exact Hs4|congruence]|exact Ho4|lia|done|].
    apply IH; [done|]. unfold check_round. destruct (ecb_check_line (tet_buf t4)), (ecb_check_line (tet_buf t)); lia. }
  destruct (ecb_check_line b2) eqn:Hcl.
  - assert (exists first, ecb_left (tet_buf t1) !! 0%nat = Some first) as [first Hfirst].
    { apply lookup_lt_is_Some_2. unfold len in Hl1. lia. }
    rewrite (index_ok _ 0 first) by done. cbn [poll_lift poll_bind].
    pose proof (start_line_spec (tet_set_buf t1 b2) first Hc2 ltac:(cbn; congruence) Hcl ltac:(cbn; lia)
      ltac:(cbn; by rewrite Hleft2)) as Hc3. cbn [tet_set_buf tet_buf] in Hc3.
    destruct (bool_decide_reflect (first = DOT_BYTE)) as [Hdot|Hdot].
    + set (t3 := tet_set_buf t1 (ecb_set_flags b2 false true)).
      eapply (write_result_step t1 t3 (nw + i) 0); [split; [done|exact Hrd2]|cbn; lia|lia|done|].
      rewrite Z.add_0_r. apply IH; [exact Hc3|]. rewrite <- Hcl1, <- Hcl2, ?Hcl in Hfuel. cbn. lia.
    + rewrite Hd2, Hd1. by apply Hwrite.
  - assert (ecb_set_flags b2 false false = b2) as Heq
      by (rewrite <- (ecb_set_flags_id b2) at 2; by rewrite Hcl, Hd2, Hd1).
    apply Hwrite; [by rewrite Heq|done].
Qed.

Lemma poll_write_buf_spec t : copying t -> write_result t 0 (poll_write_buf t).
Proof.
  intros Hc. apply poll_write_buf_loop_spec; [done|]. pose proof (cp_len t Hc) as Hl. unfold len in Hl.
  destruct (cp_offs t Hc). unfold check_round. destruct (ecb_check_line (tet_buf t)); lia.
Qed.

(** *** Reading *)

(** Between rounds. *)
Definition round_start (t : TextDataEncodeTransfer) : Prop :=
  copying t /\ (ecb_w_off (tet_buf t) = ecb_r_off (tet_buf t) -> ecb_line_end (tet_buf t) = 0).

Lemma ecb_reset_spec t :
  round_start t ->
  let t' := tet_set_buf t (ecb_reset (tet_buf t)) in
  round_start t' /\ ecb_read_done (tet_buf t') = ecb_read_done (tet_buf t) /\
  (ecb_w_off (tet_buf t') < ecb_r_off (tet_buf t') <-> ecb_w_off (tet_buf t) < ecb_r_off (tet_buf t)) /\
  (ecb_w_off (tet_buf t') = ecb_r_off (tet_buf t') -> ecb_r_off (tet_buf t') = 0).
Proof.
  intros [Hc Hi]. unfold ecb_reset.
  destruct (Z.eqb_spec (ecb_w_off (tet_buf t)) (ecb_r_off (tet_buf t))) as [Heq|Hne]; cbn.
  2: { destruct t. split_and!; try done; tauto. }
  specialize (Hi Heq). pose proof Hc as []. destruct cp_offs0.
  assert (ecb_left (tet_buf t) = []) as Hl by (unfold ecb_left; by rewrite Heq, Z.sub_diag).
  split_and!; try done; try lia. split; [|done].
  rewrite Hl in *. split; cbn; try done; try lia. intros Hd. destruct (cp_dot0 Hd). lia.
Qed.

Lemma at_line_start_snoc bol l x : at_line_start bol (l ++ [x]) = bool_decide (x = LF).
Proof. by rewrite at_line_start_app. Qed.

(** What is read is appended to the unwritten bytes. *)
Lemma fill_copying t c rd last :
  copying t -> well_behaved rd -> c ++ [last] ++ stream_of rd = stream_of (tet_reader t) ->
  len (c ++ [last]) <= N - ecb_r_off (tet_buf t) -> ecb_read_done (tet_buf t) = false ->
  let b := tet_buf t in
  let filled := take (Z.to_nat (ecb_r_off b)) (ecb_buf b) ++ c ++ [last] in
  let b1 := ecb_set_offsets b (filled ++ drop (Z.to_nat (len filled)) (ecb_buf b))
              (ecb_w_off b) (len filled) (ecb_line_end b) in
  copying {| tet_reader := rd; tet_writer := tet_writer t;
             tet_buf := ecb_set_read b1 (ecb_read_done b1) (bool_decide (last = LF)) true |}.
Proof.
  intros Hc Hwb Hst Hroom Hnd b filled b1. pose proof Hc as []. fold b in cp_len0, cp_offs0, cp_line0, cp_out0, cp_total0, cp_dot0, cp_append0, cp_yield0, Hroom, Hnd. destruct cp_offs0 as [Hw Hr].
  assert (len filled = ecb_r_off b + len (c ++ [last])) as Hlf by (unfold filled; len_lia).
  set (b2 := ecb_set_read _ _ _ _).
  assert (ecb_left b2 = ecb_left b ++ c ++ [last]) as Hleft.
  { pose proof (ecb_left_split b cp_len0 Hw Hr) as Hsplit.
    assert (take (Z.to_nat (ecb_r_off b)) (ecb_buf b) = take (Z.to_nat (ecb_w_off b)) (ecb_buf b) ++ ecb_left b) as Ht.
    { rewrite Hsplit at 1. rewrite app_assoc. apply take_app_length'.
      pose proof (ecb_left_len b cp_len0 Hw Hr). rewrite length_app, length_take. unfold len in *. lia. }
    unfold ecb_left at 1. cbn [b2 b1 ecb_set_read ecb_set_offsets ecb_w_off ecb_r_off ecb_buf].
    rewrite Hlf. unfold filled. rewrite Ht, <- !app_assoc.
    rewrite drop_app_length' by (rewrite length_take; unfold len in *; lia).
    rewrite (app_assoc c), (app_assoc (ecb_left b)). apply take_app_length'.
    pose proof (ecb_left_len b cp_len0 Hw Hr). rewrite !length_app in *. rewrite !len_app in *. unfold len in *. lia. }
  split; cbn [tet_buf tet_writer tet_reader]; fold b2; rewrite ?Hleft; try done.
  - cbn [b2 b1 ecb_set_read ecb_set_offsets ecb_w_off ecb_r_off ecb_line_end ecb_buf ecb_write_dot ecb_check_line].
    rewrite len_app, len_drop, Z2Nat.id by apply len_nonneg. lia.
  - cbn [b2 b1 ecb_set_read ecb_set_offsets ecb_w_off ecb_r_off ecb_line_end ecb_buf ecb_write_dot ecb_check_line]. pose proof (len_nonneg (c ++ [last])). lia.
  - cbn [b2 b1 ecb_set_read ecb_set_offsets ecb_w_off ecb_r_off ecb_line_end]. intros Hlt.
    destruct (cp_line0 Hlt) as [Hle Hno]. split; [pose proof (len_nonneg (c ++ [last])); lia|]. pose proof (ecb_left_len b cp_len0 Hw Hr) as Hl.
    rewrite take_app_le by (unfold len in Hl; lia). done.
  - cbn [b2 b1 ecb_set_read ecb_set_offsets ecb_w_off ecb_r_off ecb_line_end ecb_buf ecb_write_dot ecb_check_line]. len_lia.
  - cbn [b2 b1 ecb_set_read ecb_set_offsets ecb_write_dot ecb_check_line]. rewrite <- cp_out0, <- Hst.
    by rewrite <- !app_assoc.
  - cbn [b2 b1 ecb_set_read ecb_set_offsets ecb_read_end_ok ecb_check_line]. by rewrite app_assoc, at_line_start_snoc.
  - cbn. by rewrite Hnd.
  - cbn [b2 b1 ecb_set_read ecb_set_offsets ecb_w_off ecb_r_off ecb_line_end ecb_buf ecb_write_dot ecb_check_line]. intros Hd.
    destruct (cp_dot0 Hd). split; [done|]. pose proof (len_nonneg (c ++ [last])). lia.
Qed.

(** Rounds that are still needed for reading. *)
Definition reading_rounds (t : TextDataEncodeTransfer) : nat :=
  length (tet_reader t) + length (stream_of (tet_reader t)).

Lemma ecb_poll_fill_buf_spec t :
  copying t -> ecb_read_done (tet_buf t) = false ->
  match ecb_poll_fill_buf t with
  | (Pending, t') => copying t' /\ tet_buf t' = tet_buf t /\ tet_writer t' = tet_writer t /\
      (length (tet_reader t') < length (tet_reader t))%nat /\
      stream_of (tet_reader t') = stream_of (tet_reader t)
  | (Ready (Ok _), t') => copying t' /\ tet_writer t' = tet_writer t /\
      (length (tet_reader t') <= length (tet_reader t))%nat /\
      (t' = t /\ N <= ecb_r_off (tet_buf t) + MIN_BUF_SIZE \/
       ecb_read_done (tet_buf t') = true \/
       (ecb_read_done (tet_buf t') = false /\ (reading_rounds t' < reading_rounds t)%nat))
  | _ => False
  end.
Proof.
  intros Hc Hnd. unfold ecb_poll_fill_buf. rewrite (cp_len t Hc).
  destruct (Z.leb_spec N (ecb_r_off (tet_buf t) + MIN_BUF_SIZE)) as [Hfull|Hroom].
  { split_and!; try done. by left. }
  unfold MIN_BUF_SIZE in *. pose proof Hc as [].
  pose proof (poll_read_spec (tet_reader t) (N - ecb_r_off (tet_buf t)) cp_reader0 ltac:(lia)) as Hp.
  destruct (poll_read _ _) as [[[c|e|]|] rd]; [|done..|].
  2: { destruct Hp as (Hst & Hwb & Hlt). split_and!; try done. by split; cbn; rewrite ?Hst. }
  destruct Hp as (Hst & Hlen & Hwb & Hnil & _ & Hle). cbv zeta.
  assert (len (take (Z.to_nat (ecb_r_off (tet_buf t))) (ecb_buf (tet_buf t)) ++ c) =
    ecb_r_off (tet_buf t) + len c) as Hlf by (destruct cp_offs0; len_lia).
  destruct (Z.eqb_spec (ecb_r_off (tet_buf t))
    (len (take (Z.to_nat (ecb_r_off (tet_buf t))) (ecb_buf (tet_buf t)) ++ c))) as [H0|H0].
  { assert (c = []) as -> by (apply len_0; lia). pose proof (Hnil eq_refl) as Hrd. rewrite Hrd in *. cbn in Hst.
    split_and!; try done; [|by right; left].
    split; cbn [tet_buf tet_reader tet_writer]; try done. by rewrite Hst. }
  destruct c as [|last c _] using rev_ind; [rewrite app_nil_r in *; cbn in Hlf; unfold len in *; cbn in *; lia|].
  rewrite (index_ok _ _ last).
  2: { destruct cp_offs0. len_lia. }
  2: { rewrite Hlf, app_assoc. apply list_lookup_middle. rewrite length_app, length_take. len_simpl.
       destruct cp_offs0. unfold len in *. cbn [length]. lia. }
  rewrite <- app_assoc in Hst.
  pose proof (fill_copying t c rd last Hc Hwb Hst Hlen Hnd) as Hnew. cbv zeta in Hnew.
  split_and!; [exact Hnew|done|done|]. right; right. split; [exact Hnd|]. unfold reading_rounds.
  cbn [tet_reader]. rewrite <- Hst, !length_app. cbn [length]. lia.
Qed.

(** *** A round *)

Definition tet_size (t : TextDataEncodeTransfer) : Z :=
  Z.of_nat (length (tet_reader t)) + Z.of_nat (length (wr_writes (tet_writer t))) +
  (len enc - len (wr_out (tet_writer t))).

(** What is written is progress. *)
Definition progress (t t' : TextDataEncodeTransfer) : Prop :=
  0 <= len (wr_out (tet_writer t')) - len (wr_out (tet_writer t)) <= tet_size t - tet_size t'.

Lemma append_end_spec t :
  copying t -> ecb_read_done (tet_buf t) = true -> ecb_w_off (tet_buf t) = ecb_r_off (tet_buf t) ->
  exists b, append_end (tet_buf t) = Ok b /\ appending (tet_set_buf t b).
Proof.
  intros Hc Hd Heq. pose proof Hc as [].
  assert (ecb_left (tet_buf t) = []) as Hl by (unfold ecb_left; by rewrite Heq, Z.sub_diag).
  rewrite Hl, (cp_done0 Hd) in *. cbn [at_line_start app] in *.
  assert (ecb_write_dot (tet_buf t) = false) as Hnd.
  { destruct (ecb_write_dot (tet_buf t)); [|done]. destruct (cp_dot0 eq_refl). lia. }
  rewrite Hnd, cp_end_ok0 in cp_out0. cbn [dot_if app] in cp_out0.
  change (encode_text (ecb_read_end_ok (tet_buf t)) []) with (text_ending (ecb_read_end_ok (tet_buf t))) in cp_out0.
  unfold append_end. fold (text_ending (ecb_read_end_ok (tet_buf t))).
  set (ending := text_ending _) in *. unfold MIN_BUF_SIZE in HN.
  assert (3 <= len ending <= 5) as He by (unfold ending; destruct (ecb_read_end_ok (tet_buf t)); unfold len; cbn; lia).
  rewrite copy_from_slice_ok by lia. cbn [bind]. eexists. split; [reflexivity|].
  change (take (Z.to_nat 0) (ecb_buf (tet_buf t))) with (@nil byte). cbn [app].
  split; cbn [tet_set_buf tet_buf tet_writer ecb_set_append ecb_set_offsets ecb_buf ecb_w_off ecb_r_off
    ecb_line_end ecb_read_done ecb_total ecb_write_append_line]; try done; try lia.
  - rewrite len_app, len_drop. lia.
  - rewrite <- cp_out0. f_equal. unfold ecb_left. cbn. rewrite Z.sub_0_r. apply take_len_app.
Qed.

(** A round either waits, with progress, or is followed by another one. *)
Definition round_result (t : TextDataEncodeTransfer) (copied : Z)
    (r : poll (res StreamCopyError Z) * TextDataEncodeTransfer) : Prop :=
  match r with
  | (Pending, t') => round_start t' /\ tet_reader t' = tet_reader t /\ progress t t' /\
      (tet_size t' < tet_size t \/ Y <= copied + (len (wr_out (tet_writer t')) - len (wr_out (tet_writer t))))
  | (Ready (Ok n), t') => tet_reader t' = tet_reader t /\ progress t t' /\
      n = copied + (len (wr_out (tet_writer t')) - len (wr_out (tet_writer t))) /\
      (appending t' \/
       (round_start t' /\ ecb_w_off (tet_buf t') = ecb_r_off (tet_buf t') /\
        ecb_read_done (tet_buf t') = false /\ ecb_read_done (tet_buf t) = false))
  | _ => False
  end.

Lemma copy_write_spec t copied : copying t -> round_result t copied (copy_write t copied).
Proof.
  intros Hc. unfold copy_write. pose proof (poll_write_buf_spec t Hc) as Hw.
  destruct (poll_write_buf t) as [[[nw|e|]|] t1]; [|done..|]; cbn [poll_bind].
  2: { destruct Hw as (Hc1 & Hlt & [Hrd Hd] & Hwr & Ho). unfold round_result, progress, tet_size. rewrite Hrd.
       split_and!; try done; try lia. split; [done|lia]. }
  destruct Hw as (Hc1 & Heq & Hline & [Hrd Hd] & -> & Ho & Hwr). rewrite (cp_yield t1 Hc1).
  assert (progress t t1) as Hsize by (unfold progress, tet_size; rewrite Hrd; lia).
  assert (round_start t1) as Hrs by (split; done).
  destruct (Z.leb_spec Y (copied + (0 + (len (wr_out (tet_writer t1)) - len (wr_out (tet_writer t)))))).
  { cbn. split_and!; try done. right. lia. }
  destruct (ecb_read_done (tet_buf t1)) eqn:Hrd1; cbn [andb].
  - rewrite Heq, Z.eqb_refl. destruct (append_end_spec t1 Hc1 Hrd1 Heq) as (b & -> & Ha).
    cbn. split_and!; try done; try lia. by left.
  - cbn. split_and!; try done; try lia. right. split_and!; try done; congruence.
Qed.

(** *** The end *)

Lemma appending_write t :
  appending t ->
  match poll_write_line t with
  | (Pending, t') => appending t' /\ tet_size t' < tet_size t /\ progress t t'
  | (Ready (Ok n), t') => progress t t' /\ 0 < n /\
      n = len (wr_out (tet_writer t')) - len (wr_out (tet_writer t)) /\
      ecb_w_off (tet_buf t') = ecb_w_off (tet_buf t) + n /\ ecb_r_off (tet_buf t') = ecb_r_off (tet_buf t) /\
      (ecb_w_off (tet_buf t') < ecb_r_off (tet_buf t') -> appending t') /\
      (ecb_r_off (tet_buf t') <= ecb_w_off (tet_buf t') ->
        wr_out (tet_writer t') = enc /\ ecb_total (tet_buf t') = len enc /\ good_writer (tet_writer t') /\
        TextDataEncodeTransfer_finished t' = true)
  | _ => False
  end.
Proof.
  intros []. destruct ap_offs0 as [Hw Hr]. unfold poll_write_line. rewrite ap_line0.
  pose proof (ecb_left_len (tet_buf t) ap_len0 ltac:(lia) Hr) as Hl.
  rewrite slice_ok by lia. change (take _ (drop _ _)) with (ecb_left (tet_buf t)).
  pose proof (tet_write_spec t (ecb_left (tet_buf t)) ap_writer0
    ltac:(intros E; rewrite E in Hl; unfold len in Hl; cbn in Hl; lia)) as Ht.
  destruct (tet_write t _) as [[[n|e|]|] t']; [|done..|].
  2: { destruct Ht as (w & -> & Hg & Ho & Hlt). split; [|unfold progress, tet_size; cbn; rewrite Ho; lia].
       split; cbn; try done; try lia; by rewrite Ho. }
  destruct Ht as (w & -> & Hg & Hn & Ho & Hle). cbn [tet_set_writer tet_buf]. rewrite ap_total0.
  assert (len (wr_out (tet_writer t)) + n <= len enc) as Hlen by (rewrite <- ap_out0; len_lia).
  rewrite uadd_ok by lia. set (t' := tet_set_buf _ _).
  assert (len (wr_out (tet_writer t')) = len (wr_out (tet_writer t)) + n) as Hout by (cbn; rewrite Ho; len_lia).
  assert (ecb_left (tet_buf t') = drop (Z.to_nat n) (ecb_left (tet_buf t))) as Hleft
    by (apply ecb_left_drop; done || lia).
  assert (wr_out (tet_writer t') ++ ecb_left (tet_buf t') = enc) as Henc'.
  { rewrite Hleft. cbn. by rewrite Ho, <- app_assoc, take_drop. }
  split_and!; try done; try lia.
  - unfold progress, tet_size. rewrite Hout. cbn. lia.
  - intros Hlt. split; try done. cbn in Hlt |- *. lia.
  - intros Hge. cbn in Hge. assert (ecb_left (tet_buf t') = []) as Hnil.
    { rewrite Hleft. apply drop_ge. unfold len in Hl. lia. }
    rewrite Hnil, app_nil_r in Henc'. rewrite <- Henc'. split_and!; try done.
    unfold TextDataEncodeTransfer_finished, no_cached_data. cbn. rewrite ap_done0. cbn. apply Z.eqb_eq. lia.
Qed.

(** *** A poll *)

Definition transferring (t : TextDataEncodeTransfer) : Prop := round_start t \/ appending t.

Definition copy_result (t : TextDataEncodeTransfer) (copied : Z)
    (r : poll (res StreamCopyError Z) * TextDataEncodeTransfer) : Prop :=
  match r with
  | (Pending, t') => transferring t' /\ progress t t' /\
      (tet_size t' < tet_size t \/ Y <= copied + (len (wr_out (tet_writer t')) - len (wr_out (tet_writer t))))
  | (Ready (Ok n), t') => wr_out (tet_writer t') = enc /\ n = len enc /\ TextDataEncodeTransfer_finished t' = true
  | _ => False
  end.

Lemma copy_result_step t t1 copied c r :
  progress t t1 -> c = copied + (len (wr_out (tet_writer t1)) - len (wr_out (tet_writer t))) ->
  copy_result t1 c r -> copy_result t copied r.
Proof.
  unfold progress. intros Hs ->. destruct r as [[[n|e|]|] t']; cbn; [done..|]. unfold progress.
  intros (? & ? & ?). split_and!; [done|lia..].
Qed.

(** Rounds until the poll returns. *)
Definition rounds (t : TextDataEncodeTransfer) : nat :=
  if ecb_write_append_line (tet_buf t) then Z.to_nat (ecb_r_off (tet_buf t) - ecb_w_off (tet_buf t))
  else if ecb_read_done (tet_buf t) then 6%nat
  else (reading_rounds t + (if (ecb_w_off (tet_buf t) <? ecb_r_off (tet_buf t))%Z then 1 else 0) + 7)%nat.

(** What follows the read in a round. *)
Lemma copy_write_result fuel t t1 copied :
  copying t1 -> tet_writer t1 = tet_writer t -> (length (tet_reader t1) <= length (tet_reader t))%nat ->
  (ecb_read_done (tet_buf t1) = false -> (reading_rounds t1 + 7 <= fuel)%nat) -> (5 <= fuel)%nat ->
  (forall t2 c, transferring t2 -> (rounds t2 <= fuel)%nat -> copy_result t2 c (poll_copy_loop fuel t2 c)) ->
  copy_result t copied (poll_bind (copy_write t1 copied) (fun n t => poll_copy_loop fuel t n)).
Proof.
  intros Hc Hwr Hrd Hfuel Hf6 IH. pose proof (copy_write_spec t1 copied Hc) as Hr.
  apply (copy_result_step t t1 copied copied); [unfold progress, tet_size; rewrite Hwr; lia|rewrite Hwr; lia|].
  destruct (copy_write t1 copied) as [[[n|e|]|] t2]; [|done..|]; cbn [poll_bind].
  2: { destruct Hr as (? & ? & ? & ?). split_and!; try done. by left. }
  destruct Hr as (Hrd2 & Hsize & -> & Hnext). eapply copy_result_step; [exact Hsize|reflexivity|]. apply IH.
  - destruct Hnext as [?|[? _]]; [by right|by left].
  - destruct Hnext as [Ha|(Hrs & Heq & Hnd & Hnd1)]; unfold rounds.
    + rewrite (ap_append t2 Ha). pose proof (ap_short t2 Ha). destruct (ap_offs t2 Ha). lia.
    + destruct Hrs as [Hc2 _]. rewrite (cp_append t2 Hc2), Hnd, Heq, Z.ltb_irrefl. specialize (Hfuel Hnd1).
      unfold reading_rounds in *. rewrite Hrd2. lia.
Qed.

Lemma poll_copy_loop_spec fuel t copied :
  transferring t -> (rounds t <= fuel)%nat -> copy_result t copied (poll_copy_loop fuel t copied).
Proof.
  revert t copied. induction fuel as [|fuel IH]; intros t copied [Hrs|Ha] Hfuel.
  - unfold rounds in Hfuel. rewrite (cp_append t (proj1 Hrs)) in Hfuel. destruct (ecb_read_done _); lia.
  - unfold rounds in Hfuel. rewrite (ap_append t Ha) in Hfuel. destruct (ap_offs t Ha). lia.
  - cbn [poll_copy_loop]. unfold rounds in Hfuel. pose proof Hrs as [Hc _]. rewrite (cp_append t Hc) in *.
    destruct (ecb_read_done (tet_buf t)) eqn:Hd; cbn [negb].
    { apply copy_write_result; try done; try lia. congruence. }
    destruct (ecb_reset_spec t Hrs) as (Hrs1 & Hd1 & Hlt1 & Hz1). set (t1 := tet_set_buf _ _) in *.
    rewrite Hd in Hd1. pose proof Hrs1 as [Hc1 _].
    pose proof (ecb_poll_fill_buf_spec t1 Hc1 Hd1) as Hfill. unfold reading_rounds in Hfill, Hfuel.
    destruct (ecb_poll_fill_buf t1) as [[[u|e|]|] t2]; [|done..|].
    + destruct Hfill as (Hc2 & Hwr & Hrd & Hcase). apply copy_write_result; try done; try lia.
      intros Hnd. destruct Hcase as [[-> Hfull]|[?|[_ Hless]]]; [|congruence|unfold reading_rounds, t1 in *; cbn in *; lia].
      assert (ecb_w_off (tet_buf t) < ecb_r_off (tet_buf t)) as Hlt.
      { apply Hlt1. destruct (cp_offs t1 Hc1). unfold MIN_BUF_SIZE in *.
        destruct (Z.eq_dec (ecb_w_off (tet_buf t1)) (ecb_r_off (tet_buf t1))) as [E|]; [|lia]. specialize (Hz1 E). lia. }
      apply Z.ltb_lt in Hlt. rewrite Hlt in Hfuel. unfold reading_rounds, t1. cbn. lia.
    + destruct Hfill as (Hc2 & Hb2 & Hwr & Hrd & Hst). rewrite Hb2.
      destruct (Z.leb_spec (ecb_r_off (tet_buf t1)) (ecb_w_off (tet_buf t1))) as [Hge|Hlt].
      * assert (round_start t2) as Hrs2 by (split; [done|rewrite Hb2; apply Hrs1]).
        assert (tet_size t2 < tet_size t) as Hsize by (unfold tet_size; rewrite Hwr; unfold t1 in *; cbn in *; lia).
        unfold flush_and_wait, tet_flush. destruct (cp_writer t2 Hc2) as [Hg Hf].
        destruct (ecb_need_flush (tet_buf t2)) eqn:Hnf.
        -- unfold poll_flush. rewrite Hf. cbn [poll_bind tet_set_writer tet_buf]. rewrite Hnf. cbn.
           split_and!; [|unfold progress, tet_size in *; unfold t1 in *; cbn in *; rewrite Hwr in *; lia|left; exact Hsize]. left. destruct Hrs2 as [[] Hi].
           split; [|done]. by split.
        -- cbn [poll_bind]. rewrite Hnf. cbn. split_and!; [by left| |by left].
           unfold progress. rewrite Hwr. unfold t1. cbn. lia.
      * apply copy_write_result; try done; try (unfold t1 in *; cbn in *; lia).
        intros _. unfold reading_rounds. rewrite Hst. unfold t1 in *. cbn in *. lia.
  - cbn [poll_copy_loop]. unfold rounds in Hfuel. rewrite (ap_append t Ha) in *.
    pose proof (appending_write t Ha) as Hw. destruct (poll_write_line t) as [[[n|e|]|] t1]; [|done..|]; cbn [poll_bind].
    2: { destruct Hw as (? & ? & ?). cbn. split_and!; [by right|done|by left]. }
    destruct Hw as (Hsize & Hn & Hn' & Hw1 & Hr1 & Hmore & Hend).
    destruct (Z.leb_spec (ecb_r_off (tet_buf t1)) (ecb_w_off (tet_buf t1))) as [Hge|Hlt].
    + destruct (Hend Hge) as (Ho & Ht & [Hg Hf] & Hfin). unfold tet_flush. destruct (ecb_need_flush (tet_buf t1)).
      * unfold poll_flush. rewrite Hf. cbn. by split_and!.
      * cbn. by split_and!.
    + specialize (Hmore Hlt). apply (copy_result_step t t1 copied (copied + n)); [done|lia|]. apply IH; [by right|].
      unfold rounds. rewrite (ap_append t1 Hmore). lia.
Qed.

End Transfer.

(** ** The transfer as a whole *)

Section Whole.
Context (N Y : Z) (rd : reader) (wr : writer).
Context (HN : MIN_BUF_SIZE < N <= isize_max) (HY : 0 < Y).
Context (Hrd : well_behaved rd) (Hwr : good_writer wr) (Hout : wr_out wr = []).
Context (Hlen : len (encode_text true (stream_of rd)) <= u64_max).

Let enc := encode_text true (stream_of rd).

Lemma transferring_new : transferring N Y enc (TextDataEncodeTransfer_new rd wr N Y).
Proof.
  left. split; [|done]. unfold MIN_BUF_SIZE in HN.
  split; cbn [TextDataEncodeTransfer_new EncodeCopyBuffer_new tet_buf tet_reader tet_writer ecb_buf ecb_w_off
    ecb_r_off ecb_line_end ecb_write_dot ecb_check_line ecb_read_end_ok ecb_read_done ecb_total
    ecb_write_append_line ecb_yield_size]; try done; try lia.
  - len_lia.
  - by rewrite Hout.
  - by rewrite Hout.
Qed.

Lemma poll_copy_result t : transferring N Y enc t -> copy_result N Y enc t 0 (TextDataEncodeTransfer_poll t).
Proof.
  intros Ht. apply poll_copy_loop_spec; try done.
  unfold rounds. destruct (ecb_write_append_line (tet_buf t)) eqn:Ha.
  - destruct Ht as [[Hc _]|Hap]; [pose proof (cp_append N Y enc t Hc); congruence|].
    pose proof (ap_short N enc t Hap). destruct (ap_offs N enc t Hap). lia.
  - unfold reading_rounds. destruct (ecb_read_done (tet_buf t)); [lia|]. destruct (_ <? _); lia.
Qed.

Lemma transferring_out t : transferring N Y enc t -> len (wr_out (tet_writer t)) <= len enc.
Proof.
  intros [[Hc _]|Ha].
  - rewrite <- (cp_out N Y enc t Hc). len_lia.
  - rewrite <- (ap_out N enc t Ha). len_lia.
Qed.

Lemma tet_await_spec polls t :
  transferring N Y enc t -> tet_size enc t < Z.of_nat polls ->
  exists t', await polls TextDataEncodeTransfer_poll t = (Ok (len enc), t') /\
    wr_out (tet_writer t') = enc /\ TextDataEncodeTransfer_finished t' = true.
Proof.
  revert t. induction polls as [|polls IH]; intros t Ht Hp.
  { pose proof (transferring_out t Ht). unfold tet_size in Hp. lia. }
  cbn [await]. pose proof (poll_copy_result t Ht) as Hr.
  destruct (TextDataEncodeTransfer_poll t) as [[[n|e|]|] t1]; [|done..|].
  - destruct Hr as (Ho & -> & Hf). by exists t1.
  - destruct Hr as (Ht1 & Hle & Hless). apply IH; [done|]. unfold progress in Hle. lia.
Qed.

End Whole.

(** ** Encoded text and its lines *)

Section Wire.

Definition stuff_line (l : bytes) : bytes :=
  match l with
  | b :: _ => if bool_decide (b = DOT_BYTE) then DOT_BYTE :: l else l
  | [] => []
  end.

(** A line of a message: it ends with its only newline. *)
Definition message_line (l : bytes) : Prop := exists pre, l = pre ++ [LF] /\ LF ∉ pre.

Lemma stuff_message_line l k :
  message_line l -> encode_text true (l ++ k) = stuff_line l ++ encode_text true k.
Proof.
  intros (pre & -> & Hn). rewrite encode_text_app.
  replace (at_line_start true (pre ++ [LF])) with true.
  2: { rewrite at_line_start_app. cbn. by rewrite bool_decide_eq_true_2. }
  f_equal. destruct pre as [|b pre]; [done|]. pose proof (proj1 (stuff_full_line (b :: pre) Hn)) as Hs.
  cbn [app stuff andb] in Hs |- *. injection Hs as Hs. rewrite Hs. cbn [stuff_line].
  by destruct (bool_decide (b = DOT_BYTE)).
Qed.

Lemma encode_text_lines lines :
  Forall message_line lines -> encode_text true (concat lines) = wire_text (map stuff_line lines) [].
Proof.
  induction 1 as [|l lines Hl _ IH]; cbn [concat map]; [done|].
  rewrite stuff_message_line by done. rewrite IH. unfold wire_text. cbn [concat]. by rewrite <- app_assoc.
Qed.

Lemma unstuff_stuff_line l : unstuff (stuff_line l) = l.
Proof.
  destruct l as [|b l]; [done|]. cbn. case_bool_decide as Hb; cbn.
  - by rewrite bool_decide_eq_true_2.
  - by rewrite bool_decide_eq_false_2.
Qed.

Lemma stuff_line_wire M l : message_line l -> len l < M -> wire_line M (stuff_line l).
Proof.
  intros (pre & -> & Hn) Hlen. split.
  - destruct pre as [|b pre].
    + exists []. split_and!; [done|apply not_elem_of_nil|done].
    + cbn. case_bool_decide as Hb.
      * exists (DOT_BYTE :: b :: pre). split_and!; [done| |subst b; by intros [=]].
        apply not_elem_of_cons. split; [done|exact Hn].
      * exists (b :: pre). split_and!; [done|done|congruence].
  - destruct (pre ++ [LF]) as [|b l]; [cbn in *; lia|]. cbn. case_bool_decide; len_lia.
Qed.

End Wire.

(** ** Properties *)

(** The transfer writes exactly the dot-stuffed message: the dot at the
    start of every line is doubled, a missing line end is added, and the line
    with the single dot is appended.  This does not depend on how the message
    is cut into reads, which parts of the data the writer accepts at a time,
    when either of them has to wait and when the transfer yields; it always
    completes, with the number of bytes written.  The writer must not fail and
    must flush at once. *)
Theorem text_encoder_transfers (N Y : Z) (rd : reader) (wr : writer) :
  MIN_BUF_SIZE < N <= isize_max -> 0 < Y -> well_behaved rd -> good_writer wr -> wr_out wr = [] ->
  len (encode_text true (stream_of rd)) <= u64_max ->
  let enc := encode_text true (stream_of rd) in
  exists t, await (S (length rd + length (wr_writes wr) + length enc)) TextDataEncodeTransfer_poll
      (TextDataEncodeTransfer_new rd wr N Y) = (Ok (len enc), t) /\
    wr_out (tet_writer t) = enc /\ TextDataEncodeTransfer_finished t = true.
Proof.
  intros HN HY Hrd Hwr Hout Hlen enc. apply (tet_await_spec N Y rd HN HY Hlen).
  - by apply transferring_new.
  - unfold tet_size. cbn [TextDataEncodeTransfer_new tet_reader tet_writer]. rewrite Hout. fold enc. unfold len. cbn [length]. lia.
Qed.

Lemma text_encoder_transfers_witness :
  exists t, await 17 TextDataEncodeTransfer_poll
      (TextDataEncodeTransfer_new [Data (bs "a"); Pend; Data [LF; DOT_BYTE]]
         {| wr_writes := [Accept 1; WPend; Accept 1; WPend]; wr_flushes := []; wr_out := []; wr_flushed := 0 |} 32 4) = (Ok 9, t) /\
    wr_out (tet_writer t) = [x61; LF; DOT_BYTE; DOT_BYTE; CR; LF; DOT_BYTE; CR; LF] /\
    TextDataEncodeTransfer_finished t = true.
Proof.
  refine (text_encoder_transfers 32 4 [Data (bs "a"); Pend; Data [LF; DOT_BYTE]]
    {| wr_writes := [Accept 1; WPend; Accept 1; WPend]; wr_flushes := []; wr_out := []; wr_flushed := 0 |} _ _ _ _ _ _).
  - split; [apply Z.ltb_lt|apply Z.leb_le]; reflexivity.
  - lia.
  - repeat constructor; done.
  - split; [repeat constructor; lia|reflexivity].
  - reflexivity.
  - apply Z.leb_le. reflexivity.
Defined.

(** C22: sending a message and reading it back is the identity: whatever the
    reads and writes on either side, a message of lines that the transfer has
    written is decoded to the same message, up to its end and not further. *)
Theorem smtp_text_roundtrip (N Y M : Z) (lines : list bytes) (rd rd' : reader) (wr : writer)
    (amts : nat -> Z) (extra : bytes) :
  MIN_BUF_SIZE < N <= isize_max -> 0 < Y -> 3 <= M <= isize_max ->
  well_behaved rd -> well_behaved rd' -> good_writer wr -> wr_out wr = [] -> (forall n, 0 < amts n) ->
  Forall message_line lines -> Forall (fun l => len l < M) lines -> stream_of rd = concat lines ->
  len (encode_text true (stream_of rd)) <= u64_max ->
  exists polls n t, await polls TextDataEncodeTransfer_poll (TextDataEncodeTransfer_new rd wr N Y) = (Ok n, t) /\
    (stream_of rd' = wr_out (tet_writer t) ++ extra ->
     exists fuel self, tdd_read_to_end fuel amts (TextDataDecodeReader_new rd' M) = (Ok (concat lines), self) /\
       TextDataDecodeReader_finished self = true).
Proof.
  intros HN HY HM Hrd Hrd' Hwr Hout Hamts Hlines Hlens Hst Hlen.
  pose proof (transferring_new N Y rd wr HN Hrd Hwr Hout) as Hnew.
  destruct (tet_await_spec N Y rd HN HY Hlen (S (Z.to_nat (tet_size (encode_text true (stream_of rd))
    (TextDataEncodeTransfer_new rd wr N Y)))) _ Hnew ltac:(lia)) as (t & Ht & Ho & _).
  do 3 eexists. split; [exact Ht|]. rewrite Ho, Hst, encode_text_lines by done. intros Hst'.
  assert (Forall (wire_line M) (map stuff_line lines)) as Hws.
  { apply Forall_fmap. apply Forall_forall. intros l Hl.
    rewrite Forall_forall in Hlines, Hlens. apply stuff_line_wire; auto. }
  pose proof (tdd_inv_new M HM rd' (map stuff_line lines) extra Hrd' Hws) as Hinv.
  destruct (tdd_read_to_end_spec M HM _ amts _ [] _ extra Hamts
    (Hinv ltac:(rewrite Hst'; unfold wire_text; by rewrite <- !app_assoc)) (Nat.lt_succ_diag_r _)) as (self & Hr & Hf).
  eexists _, self. split; [|exact Hf]. rewrite Hr. cbn [app]. do 3 f_equal. rewrite map_map.
  rewrite <- (map_id lines) at 2. apply map_ext. apply unstuff_stuff_line.
Qed.

Lemma smtp_text_roundtrip_witness :
  exists polls n t, await polls TextDataEncodeTransfer_poll
      (TextDataEncodeTransfer_new [Data [DOT_BYTE; x61; LF]]
         {| wr_writes := [Accept 2]; wr_flushes := []; wr_out := []; wr_flushed := 0 |} 32 4) = (Ok n, t) /\
    (stream_of [Data [DOT_BYTE; DOT_BYTE]; Pend; Data [x61; LF; DOT_BYTE; CR; LF; x51]] =
       wr_out (tet_writer t) ++ [x51] ->
     exists fuel self, tdd_read_to_end fuel (fun _ => 1)
         (TextDataDecodeReader_new [Data [DOT_BYTE; DOT_BYTE]; Pend; Data [x61; LF; DOT_BYTE; CR; LF; x51]] 8) =
         (Ok [DOT_BYTE; x61; LF], self) /\
       TextDataDecodeReader_finished self = true).
Proof.
  refine (smtp_text_roundtrip 32 4 8 [[DOT_BYTE; x61; LF]] [Data [DOT_BYTE; x61; LF]]
    [Data [DOT_BYTE; DOT_BYTE]; Pend; Data [x61; LF; DOT_BYTE; CR; LF; x51]]
    {| wr_writes := [Accept 2]; wr_flushes := []; wr_out := []; wr_flushed := 0 |} (fun _ => 1) [x51]
    _ _ _ _ _ _ _ _ _ _ _ _).
  - split; [apply Z.ltb_lt|apply Z.leb_le]; reflexivity.
  - lia.
  - split; apply Z.leb_le; reflexivity.
  - repeat constructor; done.
  - repeat constructor; done.
  - split; [repeat constructor; lia|reflexivity].
  - reflexivity.
  - intros _. lia.
  - repeat constructor. exists [DOT_BYTE; x61]. split; [reflexivity|].
    rewrite !not_elem_of_cons. split_and!; try done. apply not_elem_of_nil.
  - repeat constructor.
  - reflexivity.
  - apply Z.leb_le. reflexivity.
Defined.

(** The hypothesis on flushing is needed: when the flush after the end of the
    text has to wait, everything has been written, and the next poll writes an
    empty slice and reports that the writer accepts nothing. *)
Example flush_pending_reports_write_zero :
  exists t1 t2,
    TextDataEncodeTransfer_poll
      (TextDataEncodeTransfer_new [Data [x61; LF]]
         {| wr_writes := []; wr_flushes := [FPend]; wr_out := []; wr_flushed := 0 |} 32 100) = (Pending, t1) /\
    wr_out (tet_writer t1) = encode_text true [x61; LF] /\
    TextDataEncodeTransfer_poll t1 = (Ready (Err Copy_WriteZero), t2).
Proof.
  set (t := TextDataEncodeTransfer_new _ _ _ _).
  exists (snd (TextDataEncodeTransfer_poll t)).
  exists (snd (TextDataEncodeTransfer_poll (snd (TextDataEncodeTransfer_poll t)))).
  split; [|split]; vm_compute; reflexivity.
Qed.
