(* ===== verification/Inspect.v ===== *)
(** * Protocol inspection: the state and the checks

    Models [lib/vey-dpi/src/protocol/]: the protocols ([mod.rs]), the map from
    ports to protocols ([portmap.rs]), the state of an inspection and one check
    for every protocol, each of which looks at the first bytes of a connection.
    A check accepts the data, asks for more, or excludes the protocol; on the
    way it excludes other protocols that the data rules out. *)

From Stdlib Require Import ZArith Lia Strings.Byte.
From stdpp Require Import base list.
From S2P Require Import Prelude ReadExt Leb128 Domain IpAddr Host TlsExtension Tls Ber Ldap.

#[local] Open Scope recv_scope.

(** ** Protocols *)

Inductive MaybeProtocol : Type :=
| May_Http | May_Smtp | May_Odmr | May_Ssh | May_Ftp | May_Dns | May_Ldap | May_Pop3 | May_Nntp | May_Nnsp
| May_Imap | May_Rtsp | May_Mqtt | May_Stomp | May_Smpp | May_Rtmp | May_Nats | May_BitTorrent
| May_Https | May_Submissions | May_Pop3s | May_Nntps | May_Imaps | May_Rtsps | May_SecureMqtt | May_Ssmpp
| May_Rtmps | May_DnsOverTls | May_Ldaps
| May_Ssl
| May_MaxSize.

#[global] Instance MaybeProtocol_eq_dec : EqDecision MaybeProtocol.
Proof. solve_decision. Defined.

(** [protocol as usize] *)
Definition MaybeProtocol_as_usize (p : MaybeProtocol) : Z :=
  match p with
  | May_Http => 0 | May_Smtp => 1 | May_Odmr => 2 | May_Ssh => 3 | May_Ftp => 4 | May_Dns => 5 | May_Ldap => 6
  | May_Pop3 => 7 | May_Nntp => 8 | May_Nnsp => 9 | May_Imap => 10 | May_Rtsp => 11 | May_Mqtt => 12
  | May_Stomp => 13 | May_Smpp => 14 | May_Rtmp => 15 | May_Nats => 16 | May_BitTorrent => 17
  | May_Https => 18 | May_Submissions => 19 | May_Pop3s => 20 | May_Nntps => 21 | May_Imaps => 22
  | May_Rtsps => 23 | May_SecureMqtt => 24 | May_Ssmpp => 25 | May_Rtmps => 26 | May_DnsOverTls => 27
  | May_Ldaps => 28 | May_Ssl => 29 | May_MaxSize => 30
  end.

Definition is_ssl (p : MaybeProtocol) : bool :=
  match p with
  | May_Ssl | May_Https | May_Submissions | May_Pop3s | May_Nntps | May_Imaps | May_Rtsps | May_SecureMqtt
  | May_Ssmpp | May_Rtmps | May_DnsOverTls | May_Ldaps => true
  | _ => false
  end.

Definition MaybeProtocol_from_alpn (p : AlpnProtocol) : MaybeProtocol :=
  match p with
  | Http10 | Http11 | Http2 | Http3 => May_Http
  | Ftp => May_Ftp
  | Smtp => May_Smtp
  | Imap => May_Imap
  | Pop3 => May_Pop3
  | Nntp => May_Nntp
  | Nnsp => May_Nnsp
  | Mqtt => May_Mqtt
  | DnsOverTls => May_Dns
  | DnsOverQuic => May_Dns
  end.

Inductive Protocol : Type :=
| Is_Unknown | Is_Timeout | Is_SslLegacy | Is_TlsLegacy | Is_TlsModern | Is_TlsTlcp | Is_Http1 | Is_Http2 | Is_Http3
| Is_Smtp | Is_SshLegacy | Is_Ssh | Is_FtpControl | Is_Pop3 | Is_Nntp | Is_Nnsp | Is_Imap | Is_Rtsp | Is_Mqtt
| Is_Stomp | Is_Smpp | Is_RtmpOverTcp | Is_RtmpOverHttp | Is_Nats | Is_BitTorrentOverTcp | Is_BitTorrentOverUtp
| Is_Websocket | Is_Dns | Is_Ldap.

#[global] Instance Protocol_eq_dec : EqDecision Protocol.
Proof. solve_decision. Defined.

Definition Protocol_from_alpn (p : AlpnProtocol) : Protocol :=
  match p with
  | Http10 | Http11 => Is_Http1
  | Http2 => Is_Http2
  | Http3 => Is_Http3
  | Ftp => Is_FtpControl
  | Smtp => Is_Smtp
  | Imap => Is_Imap
  | Pop3 => Is_Pop3
  | Nntp => Is_Nntp
  | Nnsp => Is_Nnsp
  | Mqtt => Is_Mqtt
  | DnsOverTls => Is_Dns
  | DnsOverQuic => Is_Dns
  end.

(** ** Ports *)

Record ProtocolPortMapValue : Type := { pv_check_ssl : bool; pv_protocols : list MaybeProtocol }.

Definition PortMapValue_default : ProtocolPortMapValue := {| pv_check_ssl := false; pv_protocols := [] |}.

(** A protocol over TLS is the plain protocol, after TLS has been checked. *)
Definition PortMapValue_insert (self : ProtocolPortMapValue) (protocol : MaybeProtocol) : ProtocolPortMapValue :=
  let push check_ssl p :=
    {| pv_check_ssl := check_ssl;
       pv_protocols := if bool_decide (p ∈ pv_protocols self) then pv_protocols self else pv_protocols self ++ [p] |} in
  match protocol with
  | May_Ssl => {| pv_check_ssl := true; pv_protocols := pv_protocols self |}
  | May_Https => push true May_Http
  | May_Submissions => push true May_Smtp
  | May_Pop3s => push true May_Pop3
  | May_Nntps => push true May_Nntp
  | May_Imaps => push true May_Imap
  | May_Rtsps => push true May_Rtsp
  | May_SecureMqtt => push true May_Mqtt
  | May_Ssmpp => push true May_Smpp
  | May_Rtmps => push true May_Rtmp
  | May_DnsOverTls => push true May_Dns
  | May_Ldaps => push true May_Ldap
  | p => push (pv_check_ssl self) p
  end.

(** The hash map, as a list of entries with different ports. *)
Definition ProtocolPortMap : Type := list (Z * ProtocolPortMapValue).

Fixpoint PortMap_get (self : ProtocolPortMap) (port : Z) : option ProtocolPortMapValue :=
  match self with
  | [] => None
  | (k, v) :: self' => if k =? port then Some v else PortMap_get self' port
  end.

(** [entry(port).or_default()] and a change of the value. *)
Fixpoint PortMap_entry (self : ProtocolPortMap) (port : Z) (f : ProtocolPortMapValue -> ProtocolPortMapValue)
  : ProtocolPortMap :=
  match self with
  | [] => [(port, f PortMapValue_default)]
  | (k, v) :: self' => if k =? port then (k, f v) :: self' else (k, v) :: PortMap_entry self' port f
  end.

Definition PortMap_insert (self : ProtocolPortMap) (port : Z) (protocol : MaybeProtocol) : ProtocolPortMap :=
  PortMap_entry self port (fun v => PortMapValue_insert v protocol).

Definition PortMap_insert_batch (self : ProtocolPortMap) (port : Z) (protocols : list MaybeProtocol) : ProtocolPortMap :=
  PortMap_entry self port (fun v => fold_left PortMapValue_insert protocols v).

Definition tcp_server : ProtocolPortMap :=
  fold_left (fun m '(port, p) => PortMap_insert m port p)
    [(21, May_Ftp); (22, May_Ssh); (25, May_Smtp); (53, May_Dns); (80, May_Http); (110, May_Pop3); (119, May_Nntp);
     (143, May_Imap); (322, May_Rtsps); (366, May_Odmr); (389, May_Ldap); (433, May_Nnsp); (443, May_Https);
     (465, May_Submissions); (554, May_Rtsp); (563, May_Nntps); (587, May_Smtp); (636, May_Ldaps);
     (853, May_DnsOverTls); (993, May_Imaps); (995, May_Pop3s); (1883, May_Mqtt); (1935, May_Rtmp);
     (2775, May_Smpp); (3550, May_Ssmpp); (4222, May_Nats); (6881, May_BitTorrent); (8080, May_Http);
     (8554, May_Rtsp); (8883, May_SecureMqtt)] [].

Definition tcp_client : ProtocolPortMap := PortMap_insert [] 6881 May_BitTorrent.

(** ** The state *)

Record SizeLimit : Type := {
  sz_ftp_server_greeting_msg : Z;
  sz_http_client_request_uri : Z;
  sz_imap_server_greeting_msg : Z;
  sz_nats_server_info_line : Z;
  sz_ldap_request_msg : Z
}.

Definition SizeLimit_default : SizeLimit := {|
  sz_ftp_server_greeting_msg := 512;
  sz_http_client_request_uri := 4096;
  sz_imap_server_greeting_msg := 512;
  sz_nats_server_info_line := 1024;
  sz_ldap_request_msg := 1024
|}.

Inductive ProtocolInspectError : Type := NeedMoreData (size : Z).

(** The excluded protocols are a bit set. *)
Record ProtocolInspectState : Type := { ps_current : option MaybeProtocol; ps_excluded : Z }.

Definition InspectState_default : ProtocolInspectState := {| ps_current := None; ps_excluded := 0 |}.

Definition state_exclude_other (self : ProtocolInspectState) (protocol : MaybeProtocol) : ProtocolInspectState :=
  {| ps_current := ps_current self; ps_excluded := Z.setbit (ps_excluded self) (MaybeProtocol_as_usize protocol) |}.

Definition excluded (self : ProtocolInspectState) (protocol : MaybeProtocol) : bool :=
  Z.testbit (ps_excluded self) (MaybeProtocol_as_usize protocol).

Definition state_exclude_current (self : ProtocolInspectState) : ProtocolInspectState :=
  match ps_current self with
  | Some p => {| ps_current := None; ps_excluded := Z.setbit (ps_excluded self) (MaybeProtocol_as_usize p) |}
  | None => self
  end.

Definition news_protocol (self : ProtocolInspectState) : Protocol :=
  match ps_current self with
  | Some May_Nnsp => Is_Nnsp
  | _ => Is_Nntp
  end.

Definition take_current (self : ProtocolInspectState) : option MaybeProtocol * ProtocolInspectState :=
  (ps_current self, {| ps_current := None; ps_excluded := ps_excluded self |}).

Definition set_current (self : ProtocolInspectState) (protocol : MaybeProtocol) : ProtocolInspectState :=
  {| ps_current := Some protocol; ps_excluded := ps_excluded self |}.

(** ** The checks *)

(** A method of the state: its result and the new state. *)
Definition inspect (A : Type) : Type := proc ProtocolInspectState ProtocolInspectError A.

Definition ret {A} (a : A) : inspect A := recv_ret a.
Definition lift {A} (m : res ProtocolInspectError A) : inspect A := recv_lift m.
Definition exclude_other (p : MaybeProtocol) : inspect unit := fun st => (Ok tt, state_exclude_other st p).

Fixpoint exclude_others (ps : list MaybeProtocol) : inspect unit :=
  match ps with
  | [] => ret tt
  | p :: ps' => let* _ := exclude_other p in exclude_others ps'
  end.

(** [self.exclude_current(); return Ok(None)] *)
Definition reject {A} : inspect (option A) := fun st => (Ok None, state_exclude_current st).

(** [return Err(ProtocolInspectError::NeedMoreData(size))] *)
Definition need_more {A} (size : Z) : inspect A := recv_fail (NeedMoreData size).

Definition accept (p : Protocol) : inspect (option Protocol) := ret (Some p).

(** [data[i]] and [data[a..b]] *)
Definition at_ (data : bytes) (i : Z) : inspect byte := lift (index data i).
Definition part (data : bytes) (a b : Z) : inspect bytes := lift (slice data a b).
Definition from (data : bytes) (a : Z) : inspect bytes := lift (slice_from data a).

Definition same (b c : byte) : bool := bool_decide (b = c).
Definition same_bytes (l l' : bytes) : bool := bool_decide (l = l').

Definition CR : byte := x0d.
Definition LF : byte := x0a.

(** *** SSH *)

(** The part after the exclusions, which the check of the client and that of the
    server share. *)
Definition check_ssh_version (data : bytes) : inspect (option Protocol) :=
  let data_len := len data in
  let finish offset protocol : inspect (option Protocol) :=
    let* c := at_ data offset in
    if negb (same c "-"%byte) then reject
    else
      let* last := at_ data (data_len - 1) in
      if negb (same last LF) then (if data_len <? 255 then need_more 1 else reject)
      else
        let* d7 := at_ data 7 in
        if negb (same d7 "9"%byte) then
          let* cr := at_ data (data_len - 2) in
          if negb (same cr CR) then reject else accept protocol
        else accept protocol in
  let* version := part data 4 6 in
  let* d6 := at_ data 6 in
  if same_bytes version (bs "1.") then
    if same d6 "9"%byte then
      let* d7 := at_ data 7 in
      if same d7 "9"%byte then finish 8 Is_Ssh else finish 7 Is_SshLegacy
    else if (0x30 <=? u8 d6) && (u8 d6 <=? 0x38) then finish 7 Is_SshLegacy
    else reject
  else if same_bytes version (bs "2.") then
    if negb (same d6 "0"%byte) then reject else finish 7 Is_Ssh
  else reject.

Definition check_ssh_client_protocol_version_exchange (data : bytes) : inspect (option Protocol) :=
  if len data <? 11 then need_more (11 - len data)
  else
    let* d0 := at_ data 0 in
    if negb (same d0 "S"%byte) then reject
    else
      let* _ := exclude_others [May_Ssl; May_Mqtt; May_Stomp; May_Smpp; May_Rtmp; May_BitTorrent; May_Ldap] in
      let* head := part data 1 4 in
      if negb (same_bytes head (bs "SH-")) then reject
      else
        let* _ := exclude_others [May_Http; May_Rtsp] in
        check_ssh_version data.

Definition check_ssh_server_protocol_version_exchange (data : bytes) : inspect (option Protocol) :=
  if len data <? 11 then need_more (11 - len data)
  else
    let* head := part data 0 4 in
    if negb (same_bytes head (bs "SSH-")) then reject
    else
      let* _ := exclude_others
        [May_Ftp; May_Smtp; May_Odmr; May_Pop3; May_Nntp; May_Nnsp; May_Imap; May_Nats; May_BitTorrent] in
      check_ssh_version data.

(** *** DNS *)

Definition DNS_MESSAGE_HEADER_LEN : Z := 12.

Definition check_dns_request_message_header (hdr : bytes) : inspect bool :=
  let* h2 := at_ hdr 2 in
  if negb (Z.land (u8 h2) 0x80 =? 0) then ret false
  else
    let* counts := part hdr 6 10 in
    if negb (same_bytes counts [x00; x00; x00; x00]) then ret false else ret true.

Definition check_dns_tcp_request_message (data : bytes) : inspect (option Protocol) :=
  let minimum := 2 + DNS_MESSAGE_HEADER_LEN in
  if len data <? minimum then need_more (minimum - len data)
  else
    let* d0 := at_ data 0 in
    let* d1 := at_ data 1 in
    if from_be [d0; d1] <? DNS_MESSAGE_HEADER_LEN then reject
    else
      let* hdr := from data 2 in
      let* ok := check_dns_request_message_header hdr in
      if negb ok then reject else accept Is_Dns.

(** *** LDAP *)

Definition check_ldap_tcp_request_message (data : bytes) (size_limit : SizeLimit) : inspect (option Protocol) :=
  if len data <? 5 then need_more (5 - len data)
  else
    let* d0 := at_ data 0 in
    if negb (same d0 x30) then reject
    else
      let* _ := exclude_others
        [May_BitTorrent; May_Http; May_Mqtt; May_Rtmp; May_Rtsp; May_Smpp; May_Ssh; May_Ssl; May_Stomp] in
      let* left := from data 1 in
      match LdapLength_parse left with
      | Ok v =>
          if sz_ldap_request_msg size_limit <? ll_value v then reject
          else
            let header_len := ll_encoded_len v + 1 in
            let* total := lift (uadd header_len (ll_value v)) in
            if len data <? total then need_more (total - len data)
            else
              let* content := part data header_len total in
              match LdapMessageId_parse content with
              | Ok id => if li_value id =? 0 then reject else accept Is_Ldap
              | Err _ => reject
              | Panic => lift Panic
              end
      | Err (LdapLength_NeedMoreData n) => need_more n
      | Err _ => reject
      | Panic => lift Panic
      end.

(** *** HTTP *)

Definition check_http1_after_url (data : bytes) (version_offset : Z) : inspect (option Protocol) :=
  let minimum_len := 12 + version_offset in
  if len data <? minimum_len then need_more (minimum_len - len data)
  else
    let* left := from data version_offset in
    let* d7 := at_ left 7 in
    let* d8 := at_ left 8 in
    let* d9 := at_ left 9 in
    if starts_with (bs "HTTP/1.") left && (same d7 "0"%byte || same d7 "1"%byte) && same d8 CR && same d9 LF
    then accept Is_Http1
    else reject.

Definition check_http1_after_method (data : bytes) (url_offset : Z) (size_limit : SizeLimit) : inspect (option Protocol) :=
  let minimum_len := 14 + url_offset in
  if len data <? minimum_len then need_more (minimum_len - len data)
  else
    let* _ := part data 0 (url_offset - 1) in
    let* left := from data url_offset in
    match memchr x20 left with
    | Some p => check_http1_after_url data (url_offset + p + 1)
    | None => if sz_http_client_request_uri size_limit <? len left then reject else need_more 1
    end.

Definition H2_CONNECTION_PREFACE : bytes :=
  bs "PRI * HTTP/2.0" ++ [CR; LF; CR; LF] ++ bs "SM" ++ [CR; LF; CR; LF].

Definition check_http2_connection_preface (data : bytes) : inspect (option Protocol) :=
  if len data <? len H2_CONNECTION_PREFACE then need_more (len H2_CONNECTION_PREFACE - len data)
  else if negb (starts_with H2_CONNECTION_PREFACE data) then ret None
  else accept Is_Http2.

Definition http_exclude_by_byte0 : inspect unit :=
  exclude_others [May_Ssl; May_Mqtt; May_Smpp; May_Rtmp; May_BitTorrent; May_Ldap].

(** The tests for the methods that begin with the first byte, in the order of
    the source: the method, and the protocols that are excluded with it. *)
Fixpoint check_http_methods (data : bytes) (size_limit : SizeLimit) (methods : list (bytes * list MaybeProtocol))
  : inspect (option Protocol) :=
  match methods with
  | [] => reject
  | (m, others) :: methods' =>
      if starts_with m data then
        let* _ := exclude_others others in
        if same_bytes m (bs "PRI ") then check_http2_connection_preface data
        else check_http1_after_method data (len m) size_limit
      else check_http_methods data size_limit methods'
  end.

(** What the source does for each first byte: the protocols it excludes, and the
    methods it tests for. *)
Definition http_branch (d0 : byte) : option (list MaybeProtocol * list (bytes * list MaybeProtocol)) :=
  let plain := map (fun m : bytes => (m, [])) in
  let rtsp := map (fun m : bytes => (m, [May_Rtsp])) in
  match d0 with
  | "A"%byte => Some ([May_Ssh; May_Stomp], rtsp [bs "ACL "])
  | "B"%byte => Some ([May_Ssh; May_Rtsp; May_Stomp], plain [bs "BIND "; bs "BASELINE-CONTROL "])
  | "C"%byte => Some ([May_Ssh; May_Rtsp], map (fun m : bytes => (m, [May_Stomp])) [bs "CONNECT "; bs "COPY "; bs "CHECKIN "; bs "CHECKOUT "])
  | "D"%byte => Some ([May_Ssh; May_Stomp], rtsp [bs "DELETE "])
  | "G"%byte => Some ([May_Ssh; May_Stomp], rtsp [bs "GET "])
  | "H"%byte => Some ([May_Ssh; May_Rtsp; May_Stomp], plain [bs "HEAD "])
  | "L"%byte => Some ([May_Ssh; May_Rtsp; May_Stomp], plain [bs "LOCK "; bs "LINK "; bs "LABEL "])
  | "M"%byte => Some ([May_Ssh; May_Rtsp; May_Stomp],
      plain [bs "MOVE "; bs "MKCOL "; bs "MERGE "; bs "MKACTIVITY "; bs "MKCALENDAR "; bs "MKREDIRECTREF "; bs "MKWORKSPACE "])
  | "O"%byte => Some ([May_Ssh; May_Stomp], plain [bs "OPTIONS "] ++ rtsp [bs "ORDERPATCH "])
  | "P"%byte => Some ([May_Ssh; May_Stomp], rtsp [bs "POST "; bs "PUT "; bs "PRI "; bs "PROPFIND "; bs "PROPPATCH "; bs "PATCH "])
  | "Q"%byte => Some ([May_Ssh; May_Rtsp; May_Stomp], plain [bs "QUERY "])
  | "R"%byte => Some ([May_Ssh; May_Stomp], rtsp [bs "REPORT "; bs "REBIND "])
  | "S"%byte => Some ([], map (fun m : bytes => (m, [May_Ssh; May_Rtsp; May_Stomp])) [bs "SEARCH "; bs "SOURCE "])
  | "T"%byte => Some ([May_Ssh; May_Stomp], rtsp [bs "TRACE "])
  | "U"%byte => Some ([May_Ssh; May_Rtsp; May_Stomp],
      plain [bs "UNLOCK "; bs "UNBIND "; bs "UNCHECKOUT "; bs "UNLINK "; bs "UPDATE "; bs "UPDATEREDIRECTREF "])
  | "V"%byte => Some ([May_Ssh; May_Rtsp; May_Stomp], plain [bs "VERSION-CONTROL "])
  | _ => None
  end.

Definition check_http_request (data : bytes) (size_limit : SizeLimit) : inspect (option Protocol) :=
  if len data <? 18 then need_more (18 - len data)
  else
    let* d0 := at_ data 0 in
    match http_branch d0 with
    | Some (others, methods) =>
        let* _ := http_exclude_by_byte0 in
        let* _ := exclude_others others in
        check_http_methods data size_limit methods
    | None => reject
    end.

(** *** TLS *)

Definition SSL_HDR_LEN : Z := 5.
Definition SSL_HANDSHAKE_HDR_LEN : Z := 4.
Definition SSL_HANDSHAKE_VERSION_LEN : Z := 2.

Definition check_legacy_version (byte0 byte1 : byte) : option Protocol :=
  match byte0, byte1 with
  | x01, x01 => Some Is_TlsTlcp
  | x02, x00 | x03, x00 => Some Is_SslLegacy
  | x03, x01 | x03, x02 => Some Is_TlsLegacy
  | x03, x03 => Some Is_TlsModern
  | _, _ => None
  end.

Definition check_fragment_len (byte0 byte1 : byte) : option Z :=
  let ssl_payload_len := from_be [byte0; byte1] in
  if (ssl_payload_len =? 0) || (Z.shiftl 1 14 <? ssl_payload_len) then None else Some ssl_payload_len.

Definition hello_protocol (byte0 byte1 : byte) : option Protocol :=
  match byte0, byte1 with
  | x01, x01 => Some Is_TlsTlcp
  | x02, x00 | x03, x00 => Some Is_SslLegacy
  | x03, x01 | x03, x02 => Some Is_TlsLegacy
  | x03, x03 | x03, x04 => Some Is_TlsModern
  | _, _ => None
  end.

Definition check_ssl_client_hello_full_handshake_header (fragment_len : Z) (buf : bytes) : inspect (option Protocol) :=
  let* b0 := at_ buf 0 in
  if negb (same b0 x01) then reject
  else
    let* b1 := at_ buf 1 in
    let* b2 := at_ buf 2 in
    let* b3 := at_ buf 3 in
    if from_be [x00; b1; b2; b3] + SSL_HANDSHAKE_HDR_LEN <? fragment_len then reject
    else
      let* b4 := at_ buf 4 in
      let* b5 := at_ buf 5 in
      match hello_protocol b4 b5 with
      | Some protocol => accept protocol
      | None => reject
      end.

(** [copy_nonoverlapping(src, dst + at, n)]: it must stay within both. *)
Definition copy_nonoverlapping (src dst : bytes) (at_off n : Z) : res ProtocolInspectError bytes :=
  let? s := slice src 0 n in
  copy_from_slice dst at_off (at_off + n) s.

(** [hdr_buf] is [msg_hdr] from [msg_hdr_nw] on; the result is the number of
    bytes that were copied and the new [msg_hdr]. *)
Definition fill_ssl_client_hello_handshake_header (data msg_hdr : bytes) (msg_hdr_nw : Z) : inspect (option (Z * bytes)) :=
  let data_len := len data in
  if data_len <? SSL_HDR_LEN then need_more (SSL_HDR_LEN - data_len)
  else
    let* d0 := at_ data 0 in
    if negb (same d0 x16) then reject
    else
      let* d1 := at_ data 1 in
      let* d2 := at_ data 2 in
      match check_legacy_version d1 d2 with
      | None => reject
      | Some _ =>
          let* d3 := at_ data 3 in
          let* d4 := at_ data 4 in
          match check_fragment_len d3 d4 with
          | None => reject
          | Some fragment_len =>
              let copy_size := Z.min fragment_len (len msg_hdr - msg_hdr_nw) in
              if data_len <? SSL_HDR_LEN + copy_size then need_more (SSL_HDR_LEN + copy_size - data_len)
              else
                let* left := from data SSL_HDR_LEN in
                let* msg_hdr := lift (copy_nonoverlapping left msg_hdr msg_hdr_nw copy_size) in
                ret (Some (copy_size, msg_hdr))
          end
      end.

(** Every round copies a byte of the six. *)
Fixpoint ssl_hello_loop (fuel : nat) (data : bytes) (fragment_len offset msg_hdr_nw : Z) (msg_hdr : bytes)
  : inspect (option Protocol) :=
  match fuel with
  | O => lift Panic
  | S fuel' =>
      let* left := from data offset in
      if len left =? 0 then
        need_more (SSL_HDR_LEN + SSL_HANDSHAKE_HDR_LEN + SSL_HANDSHAKE_VERSION_LEN - msg_hdr_nw)
      else
        let* r := fill_ssl_client_hello_handshake_header left msg_hdr msg_hdr_nw in
        match r with
        | None => ret None
        | Some (nw, msg_hdr) =>
            let msg_hdr_nw := msg_hdr_nw + nw in
            if len msg_hdr <=? msg_hdr_nw then check_ssl_client_hello_full_handshake_header fragment_len msg_hdr
            else ssl_hello_loop fuel' data fragment_len (offset + (SSL_HDR_LEN + nw)) msg_hdr_nw msg_hdr
        end
  end.

Definition check_ssl_client_hello (data : bytes) : inspect (option Protocol) :=
  let data_len := len data in
  if data_len <? SSL_HDR_LEN then need_more (SSL_HDR_LEN - data_len)
  else
    let* d0 := at_ data 0 in
    if negb (same d0 x16) then reject
    else
      let* _ := exclude_others
        [May_Ssh; May_Http; May_Rtsp; May_Mqtt; May_Stomp; May_Smpp; May_Rtmp; May_BitTorrent; May_Ldap] in
      let* d1 := at_ data 1 in
      let* d2 := at_ data 2 in
      match check_legacy_version d1 d2 with
      | None => reject
      | Some _ =>
          let* d3 := at_ data 3 in
          let* d4 := at_ data 4 in
          match check_fragment_len d3 d4 with
          | None => reject
          | Some fragment_len =>
              let full := SSL_HDR_LEN + SSL_HANDSHAKE_HDR_LEN + SSL_HANDSHAKE_VERSION_LEN in
              if data_len <? full then need_more (full - data_len)
              else
                let* left := from data SSL_HDR_LEN in
                if SSL_HANDSHAKE_HDR_LEN + SSL_HANDSHAKE_VERSION_LEN <=? fragment_len
                then check_ssl_client_hello_full_handshake_header fragment_len left
                else
                  let* msg_hdr := lift (copy_nonoverlapping left (replicate 6 x00) 0 fragment_len) in
                  ssl_hello_loop 6 data fragment_len (SSL_HDR_LEN + fragment_len) fragment_len msg_hdr
          end
      end.

(** *** RTSP *)

Definition rtsp_exclude_by_byte0 : inspect unit :=
  exclude_others [May_Ssl; May_Mqtt; May_Smpp; May_Rtmp; May_BitTorrent; May_Ldap].

Definition check_rtsp_after_method (data : bytes) (uri_offset : Z) : inspect (option Protocol) :=
  let* rest := from data uri_offset in
  let rtsp_uri := starts_with (bs "rtsp://") rest in
  let options_star := starts_with (bs "OPTIONS ") data && starts_with (bs "* RTSP/") rest in
  if negb rtsp_uri && negb options_star then reject
  else
    let* _ := exclude_others [May_Ssh; May_Http; May_Stomp] in
    accept Is_Rtsp.

Fixpoint check_rtsp_methods (data : bytes) (methods : list (bytes * list MaybeProtocol)) : inspect (option Protocol) :=
  match methods with
  | [] => reject
  | (m, others) :: methods' =>
      if starts_with m data then
        let* _ := exclude_others others in
        check_rtsp_after_method data (len m)
      else check_rtsp_methods data methods'
  end.

Definition rtsp_branch (d0 : byte) : option (list (bytes * list MaybeProtocol)) :=
  let http := map (fun m : bytes => (m, [May_Http])) in
  match d0 with
  | "A"%byte => Some (http [bs "ANNOUNCE "])
  | "D"%byte => Some (http [bs "DESCRIBE "])
  | "G"%byte => Some (http [bs "GET_PARAMETER "])
  | "O"%byte => Some [(bs "OPTIONS ", [])]
  | "P"%byte => Some (http [bs "PAUSE "; bs "PLAY "])
  | "R"%byte => Some (http [bs "RECORD "; bs "REDIRECT "])
  | "S"%byte => Some (http [bs "SET_PARAMETER "; bs "SETUP "])
  | "T"%byte => Some (http [bs "TEARDOWN "])
  | _ => None
  end.

Definition check_rtsp_client_setup_request (data : bytes) : inspect (option Protocol) :=
  if len data <? 25 then need_more (25 - len data)
  else
    let* d0 := at_ data 0 in
    match rtsp_branch d0 with
    | Some methods =>
        let* _ := rtsp_exclude_by_byte0 in
        check_rtsp_methods data methods
    | None => reject
    end.

(** *** MQTT *)

Definition check_mqtt_client_connect_request (data : bytes) : inspect (option Protocol) :=
  let data_len := len data in
  if data_len <? 12 then need_more (12 - data_len)
  else
    let* d0 := at_ data 0 in
    if negb (same d0 x10) then reject
    else
      let* _ := exclude_others
        [May_Ssl; May_Ssh; May_Http; May_Rtsp; May_Stomp; May_Smpp; May_Rtmp; May_BitTorrent; May_Ldap] in
      let* len_src := part data 1 (Z.min (1 + 4) data_len) in
      match Leb128_decode len_src with
      | Ok decoded =>
          if leb_value decoded <? 10 then reject
          else
            let name_at := 1 + leb_encoded_len decoded in
            let header_end := name_at + 7 in
            if data_len <? header_end then need_more (header_end - data_len)
            else
              let* name := part data name_at (name_at + 6) in
              if negb (same_bytes name ([x00; x04] ++ bs "MQTT")) then reject
              else
                let* protocol_level := at_ data (name_at + 6) in
                if same protocol_level x04 || same protocol_level x05 then accept Is_Mqtt else reject
      | Err LebNeedMoreData => if len len_src <? 4 then need_more 1 else reject
      | Err _ => reject
      | Panic => lift Panic
      end.

(** *** STOMP *)

Definition check_stomp_connect_method (data : bytes) : inspect (option Protocol) :=
  let* _ := exclude_others
    [May_Ssl; May_Ssh; May_Rtsp; May_Mqtt; May_Smpp; May_Rtmp; May_BitTorrent; May_Ldap] in
  let finish offset : inspect (option Protocol) :=
    if len data <? offset + 2 then need_more (offset + 2 - len data) else accept Is_Stomp in
  let* method := part data 1 7 in
  if negb (same_bytes method (bs "ONNECT")) then reject
  else
    let* d7 := at_ data 7 in
    if same d7 CR then
      let* _ := exclude_others [May_Http] in
      let* d8 := at_ data 8 in
      if negb (same d8 LF) then reject else finish 9
    else if same d7 LF then
      let* _ := exclude_others [May_Http] in
      finish 8
    else reject.

Definition check_stomp_stomp_method (data : bytes) : inspect (option Protocol) :=
  let* _ := exclude_others [May_Ssl; May_Ssh; May_Mqtt; May_Smpp; May_Rtmp; May_BitTorrent; May_Ldap] in
  let finish offset : inspect (option Protocol) :=
    if len data <? offset + 26 then need_more (offset + 26 - len data) else accept Is_Stomp in
  let* method := part data 1 5 in
  if negb (same_bytes method (bs "TOMP")) then reject
  else
    let* _ := exclude_others [May_Http; May_Rtsp] in
    let* d5 := at_ data 5 in
    if same d5 CR then
      let* d6 := at_ data 6 in
      if negb (same d6 LF) then reject else finish 7
    else if same d5 LF then finish 6
    else reject.

Definition check_stomp_client_connect_request (data : bytes) : inspect (option Protocol) :=
  if len data <? 10 then need_more (10 - len data)
  else
    let* d0 := at_ data 0 in
    if same d0 "C"%byte then check_stomp_connect_method data
    else if same d0 "S"%byte then check_stomp_stomp_method data
    else reject.

(** *** SMPP *)

Definition smpp_body (cmd_id : Z) : option (Z * Z) :=
  if (cmd_id =? 2) || (cmd_id =? 1) || (cmd_id =? 9) then Some (7, 16 + 9 + 13 + 1 + 1 + 1 + 41)
  else if cmd_id =? 0x0b then Some (2, 16 + 9)
  else None.

Definition check_smpp_session_request (data : bytes) : inspect (option Protocol) :=
  if len data <? 16 then need_more (16 - len data)
  else
    let* d0 := at_ data 0 in
    if negb (same d0 x00) then reject
    else
      let* _ := exclude_others
        [May_Ssh; May_Http; May_Ssl; May_Rtsp; May_Mqtt; May_Stomp; May_Rtmp; May_BitTorrent; May_Ldap] in
      let* cmd_len := part data 0 4 in
      if from_be cmd_len <? 16 then reject
      else
        let* cmd_id := part data 4 8 in
        match smpp_body (from_be cmd_id) with
        | None => reject
        | Some (min_body, max_body) =>
            let body_len := from_be cmd_len - 16 in
            if (body_len <? min_body) || (max_body <? body_len) then reject
            else
              let* cmd_status := part data 8 12 in
              if negb (from_be cmd_status =? 0) then reject else accept Is_Smpp
        end.

(** *** RTMP *)

Definition RTMP_HANDSHAKE_LEN : Z := 1 + 1536.

Definition check_rtmp_tcp_client_handshake (data : bytes) : inspect (option Protocol) :=
  if len data <? 9 then need_more (RTMP_HANDSHAKE_LEN - len data)
  else
    let* d0 := at_ data 0 in
    if negb (same d0 x03) then reject
    else
      let* _ := exclude_others
        [May_Ssh; May_Http; May_Ssl; May_Rtsp; May_Mqtt; May_Stomp; May_Smpp; May_BitTorrent; May_Ldap] in
      let* zero := part data 5 9 in
      if negb (same_bytes zero [x00; x00; x00; x00]) then reject
      else if len data <? RTMP_HANDSHAKE_LEN then need_more (RTMP_HANDSHAKE_LEN - len data)
      else accept Is_RtmpOverTcp.

(** *** BitTorrent *)

Definition check_bittorrent_tcp_handshake (data : bytes) : inspect (option Protocol) :=
  if len data <? 68 then need_more (68 - len data)
  else
    let* d0 := at_ data 0 in
    if negb (same d0 x13) then reject
    else
      let* _ := exclude_others
        [May_Ftp; May_Ssh; May_Smtp; May_Odmr; May_Pop3; May_Imap; May_Http; May_Ssl; May_Rtsp; May_Mqtt; May_Stomp;
         May_Smpp; May_Rtmp; May_Nats; May_Ldap] in
      let* left := from data 1 in
      if starts_with (bs "BitTorrent protocol") left then accept Is_BitTorrentOverTcp else reject.

(** *** FTP *)

Definition ftp_exclude_by_byte0 : inspect unit := exclude_others [May_Ssh; May_Pop3; May_Imap; May_Nats; May_BitTorrent].

Definition check_ftp_after_code (data : bytes) (size_limit : SizeLimit) : inspect (option Protocol) :=
  let* d3 := at_ data 3 in
  if negb (same d3 x20 || same d3 "-"%byte) then reject
  else
    let* left := from data 4 in
    match memchr LF left with
    | Some _ => accept Is_FtpControl
    | None => if sz_ftp_server_greeting_msg size_limit <? len left then reject else need_more 1
    end.

Definition check_ftp_server_greeting (data : bytes) (size_limit : SizeLimit) : inspect (option Protocol) :=
  if len data <? 6 then need_more (6 - len data)
  else
    let* d0 := at_ data 0 in
    if same d0 "1"%byte then
      let* _ := ftp_exclude_by_byte0 in
      let* _ := exclude_others [May_Smtp; May_Odmr; May_Nntp; May_Nnsp] in
      let* code := part data 0 3 in
      if same_bytes code (bs "120") then check_ftp_after_code data size_limit else reject
    else if same d0 "2"%byte then
      let* _ := ftp_exclude_by_byte0 in
      let* d1 := at_ data 1 in
      if negb (same d1 "2"%byte) then reject
      else
        let* _ := exclude_others [May_Nntp; May_Nnsp] in
        let* d2 := at_ data 2 in
        if same d2 "0"%byte then check_ftp_after_code data size_limit else reject
    else if same d0 "4"%byte then
      let* _ := ftp_exclude_by_byte0 in
      let* _ := exclude_others [May_Smtp; May_Odmr; May_Nntp; May_Nnsp] in
      let* code := part data 0 3 in
      if same_bytes code (bs "421") then check_ftp_after_code data size_limit else reject
    else reject.

(** *** SMTP *)

Definition REPLY_LINE_MAX_SIZE : Z := 512.

Section Smtp.

Context (to_ascii : bytes -> option bytes).

Definition smtp_exclude_by_byte0 : inspect unit := exclude_others [May_Ssh; May_Pop3; May_Imap; May_Nats; May_BitTorrent].

Definition check_smtp_after_code (data : bytes) : inspect (option Protocol) :=
  let* d3 := at_ data 3 in
  if negb (same d3 x20 || same d3 "-"%byte) then reject
  else
    let* left := from data 4 in
    match memchr LF left with
    | Some p =>
        if p <? 1 then reject
        else
          let* cr := at_ left (p - 1) in
          if negb (same cr CR) then reject
          else
            let end_host := default (p - 1) (memchr x20 left) in
            let* host := part left 0 end_host in
            match parse_smtp_host_address to_ascii host with
            | Ok (Some _) => accept Is_Smtp
            | Ok None | Err _ => ret None
            | Panic => lift Panic
            end
    | None => if REPLY_LINE_MAX_SIZE <? len left then reject else need_more 1
    end.

Definition check_smtp_server_greeting (data : bytes) : inspect (option Protocol) :=
  if len data <? 7 then need_more (7 - len data)
  else
    let* d0 := at_ data 0 in
    if same d0 "2"%byte then
      let* _ := smtp_exclude_by_byte0 in
      let* d1 := at_ data 1 in
      if negb (same d1 "2"%byte) then reject
      else
        let* _ := exclude_others [May_Nntp; May_Nnsp] in
        let* d2 := at_ data 2 in
        if same d2 "0"%byte then check_smtp_after_code data else reject
    else if same d0 "5"%byte then
      let* _ := smtp_exclude_by_byte0 in
      let* _ := exclude_others [May_Ftp; May_Nntp; May_Nnsp] in
      let* code := part data 0 3 in
      if same_bytes code (bs "554") then check_smtp_after_code data else reject
    else reject.

(** *** POP3, NNTP, IMAP and NATS *)

(** The end of the line, which the source tests at the end of these checks: the
    data is a whole line, or waits for [too_long]. *)
Definition check_line_end (data : bytes) (too_long : bool) (found : inspect (option Protocol)) : inspect (option Protocol) :=
  let data_len := len data in
  let* last := at_ data (data_len - 1) in
  if negb (same last LF) then (if too_long then reject else need_more 1)
  else
    let* cr := at_ data (data_len - 2) in
    if negb (same cr CR) then reject else found.

Definition check_pop3_server_greeting (data : bytes) : inspect (option Protocol) :=
  let data_len := len data in
  if data_len <? 5 then need_more (5 - data_len)
  else if 512 <? data_len then reject
  else
    let* d0 := at_ data 0 in
    if negb (same d0 "+"%byte) then reject
    else
      let* _ := exclude_others
        [May_Ftp; May_Ssh; May_Smtp; May_Odmr; May_Nntp; May_Nnsp; May_Imap; May_Nats; May_BitTorrent] in
      let* ok := part data 1 3 in
      if negb (same_bytes ok (bs "OK")) then reject
      else check_line_end data false (accept Is_Pop3).

Definition check_nntp_server_greeting (data : bytes) : inspect (option Protocol) :=
  let data_len := len data in
  if data_len <? 5 then need_more (5 - data_len)
  else if 512 <? data_len then reject
  else
    let* d0 := at_ data 0 in
    if negb (same d0 "2"%byte) then reject
    else
      let* _ := exclude_others [May_Ssh; May_Pop3; May_Imap; May_Nats; May_BitTorrent] in
      let* d1 := at_ data 1 in
      if negb (same d1 "0"%byte) then reject
      else
        let* _ := exclude_others [May_Ftp; May_Smtp; May_Odmr] in
        let* d2 := at_ data 2 in
        if negb (same d2 "0"%byte || same d2 "1"%byte) then reject
        else check_line_end data false (fun st => (Ok (Some (news_protocol st)), st)).

Definition check_imap_server_greeting (data : bytes) (size_limit : SizeLimit) : inspect (option Protocol) :=
  let data_len := len data in
  if data_len <? 6 then need_more (6 - data_len)
  else
    let* d0 := at_ data 0 in
    if negb (same d0 "*"%byte) then reject
    else
      let* _ := exclude_others
        [May_Ftp; May_Ssh; May_Smtp; May_Odmr; May_Pop3; May_Nntp; May_Nnsp; May_Nats; May_BitTorrent] in
      let* d1 := at_ data 1 in
      if negb (same d1 x20) then reject
      else
        let finish : inspect (option Protocol) :=
          let* left := from data 4 in
          check_line_end data (sz_imap_server_greeting_msg size_limit <? len left) (accept Is_Imap) in
        let* d2 := at_ data 2 in
        let* d3 := at_ data 3 in
        if same d2 "O"%byte then (if negb (same d3 "K"%byte) then reject else finish)
        else if same d2 "P"%byte then
          if data_len <? 11 then need_more (11 - data_len)
          else
            let* tail := from data 2 in
            if negb (starts_with (bs "PREAUTH") tail) then reject else finish
        else if same d2 "B"%byte then
          let* d4 := at_ data 4 in
          if negb (same d3 "Y"%byte) || negb (same d4 "E"%byte) then reject else finish
        else reject.

Definition check_nats_server_info_msg (data : bytes) (size_limit : SizeLimit) : inspect (option Protocol) :=
  let data_len := len data in
  if data_len <? 10 then need_more (10 - data_len)
  else
    let* d0 := at_ data 0 in
    if negb (same d0 "I"%byte) then reject
    else
      let* _ := exclude_others
        [May_Ftp; May_Ssh; May_Smtp; May_Odmr; May_Pop3; May_Nntp; May_Nnsp; May_Imap; May_BitTorrent] in
      if negb (starts_with (bs "INFO {") data) then reject
      else check_line_end data (sz_nats_server_info_line size_limit <? data_len) (accept Is_Nats).

(** ** One check by its protocol *)

Definition check_client_initial_data_for_protocol (proto : MaybeProtocol) (data : bytes) (size_limit : SizeLimit)
  : inspect (option Protocol) := fun self =>
  if excluded self proto then (Ok None, self)
  else
    let self := set_current self proto in
    match proto with
    | May_Ssh => check_ssh_client_protocol_version_exchange data self
    | May_Dns => check_dns_tcp_request_message data self
    | May_Ldap => check_ldap_tcp_request_message data size_limit self
    | May_Http => check_http_request data size_limit self
    | May_Ssl => check_ssl_client_hello data self
    | May_Rtsp => check_rtsp_client_setup_request data self
    | May_Mqtt => check_mqtt_client_connect_request data self
    | May_Stomp => check_stomp_client_connect_request data self
    | May_Smpp => check_smpp_session_request data self
    | May_Rtmp => check_rtmp_tcp_client_handshake data self
    | May_BitTorrent => check_bittorrent_tcp_handshake data self
    | May_Ftp | May_Smtp | May_Odmr | May_Pop3 | May_Nntp | May_Nnsp | May_Imap | May_Nats => reject self
    | _ => (Panic, self)
    end.

Definition check_server_initial_data_for_protocol (proto : MaybeProtocol) (data : bytes) (size_limit : SizeLimit)
  : inspect (option Protocol) := fun self =>
  if excluded self proto then (Ok None, self)
  else
    let self := set_current self proto in
    match proto with
    | May_Ftp => check_ftp_server_greeting data size_limit self
    | May_Ssh => check_ssh_server_protocol_version_exchange data self
    | May_Smtp | May_Odmr => check_smtp_server_greeting data self
    | May_Pop3 => check_pop3_server_greeting data self
    | May_Nntp | May_Nnsp => check_nntp_server_greeting data self
    | May_Imap => check_imap_server_greeting data size_limit self
    | May_Nats => check_nats_server_info_msg data size_limit self
    | May_BitTorrent => check_bittorrent_tcp_handshake data self
    | May_Dns | May_Ldap | May_Ssl | May_Http | May_Rtsp | May_Mqtt | May_Stomp | May_Smpp | May_Rtmp => reject self
    | _ => (Panic, self)
    end.

End Smtp.
