(* ===== verification/InspectSpec.v ===== *)
(** * What the checks of an inspection do

    A judgement on the checks of [Inspect], with one rule for each of their
    steps, and for every check what holds of it: it does not panic, it asks for
    at least one byte when it asks for more, it accepts only data that begins as
    its protocol does, and it excludes only protocols that data with this
    beginning cannot be. *)

From Stdlib Require Import ZArith Lia Strings.Byte.
From stdpp Require Import base list.
From S2P Require Import Prelude ReadExt Leb128 Domain IpAddr Host TlsExtension Tls Ber Ldap Inspect.

#[local] Open Scope recv_scope.

(** ** Beginnings *)

(** The beginnings of what the check of a protocol accepts. *)
Definition head_ok (p : MaybeProtocol) (data : bytes) : bool :=
  match p with
  | May_Ssh => starts_with (bs "SSH-") data
  | May_Dns => same_bytes (take 4 (drop 8 data)) [x00; x00; x00; x00]
  | May_Ldap => starts_with [x30] data
  | May_Http =>
      match data with
      | c :: _ =>
          match http_branch c with
          | Some (_, methods) => existsb (fun m => starts_with m.1 data) methods
          | None => false
          end
      | [] => false
      end
  | May_Ssl => starts_with [x16] data
  | May_Rtsp =>
      match data with
      | c :: _ =>
          match rtsp_branch c with
          | Some methods =>
              existsb (fun m => starts_with (m.1 ++ bs "rtsp://") data) methods || starts_with (bs "OPTIONS * RTSP/") data
          | None => false
          end
      | [] => false
      end
  | May_Mqtt => starts_with [x10] data
  | May_Stomp =>
      starts_with (bs "CONNECT" ++ [CR]) data || starts_with (bs "CONNECT" ++ [LF]) data || starts_with (bs "STOMP") data
  | May_Smpp => starts_with [x00] data
  | May_Rtmp => starts_with [x03] data
  | May_BitTorrent => starts_with [x13] data
  | May_Ftp => starts_with (bs "120") data || starts_with (bs "220") data || starts_with (bs "421") data
  | May_Smtp | May_Odmr => starts_with (bs "220") data || starts_with (bs "554") data
  | May_Pop3 => starts_with (bs "+OK") data
  | May_Nntp | May_Nnsp => starts_with (bs "20") data
  | May_Imap => starts_with (bs "* ") data
  | May_Nats => starts_with (bs "INFO {") data
  | _ => false
  end.

Lemma starts_with_more p l more : starts_with p l = true -> starts_with p (l ++ more) = true.
Proof. rewrite !starts_with_true. intros [rest ->]. exists (rest ++ more). by rewrite app_assoc. Qed.

Lemma existsb_starts_app {A} (f : A -> bytes) (ms : list A) l more :
  existsb (fun m => starts_with (f m) l) ms = true -> existsb (fun m => starts_with (f m) (l ++ more)) ms = true.
Proof. rewrite !existsb_exists. intros (m & Hm & Hs). exists m. split; [done|]. by apply starts_with_more. Qed.

(** A beginning stays one when more data comes. *)
Lemma head_ok_app p l more : head_ok p l = true -> head_ok p (l ++ more) = true.
Proof.
  destruct p; cbn [head_ok]; try done; try apply starts_with_more;
    rewrite ?orb_true_iff; try (intros H; decompose [or] H; eauto using starts_with_more; fail).
  - destruct l as [|c l]; [done|]. cbn [app]. destruct (http_branch c) as [[_ ms]|]; [|done]. apply (existsb_starts_app fst ms (c :: l)).
  - unfold same_bytes. rewrite !bool_decide_eq_true. intros E.
    assert (4 <= length (drop 8 l))%nat by (apply (f_equal length) in E; rewrite length_take in E; cbn [length] in E; lia).
    rewrite length_drop in *. rewrite drop_app_le, take_app_le by (rewrite ?length_drop; lia). done.
  - destruct l as [|c l]; [done|]. cbn [app]. destruct (rtsp_branch c) as [ms|]; [|done].
    rewrite !orb_true_iff. intros [H|H]; [left|right; by apply (starts_with_more _ (c :: l))].
    by apply (existsb_starts_app (fun m => m.1 ++ bs "rtsp://") ms (c :: l)).
Qed.

(** ** The judgement *)

(** The checks of SSH and STOMP exclude each other for data that begins with the
    letter S, although it can be either. *)
Definition confused (p q : MaybeProtocol) : bool :=
  match p, q with
  | May_Ssh, May_Stomp | May_Stomp, May_Ssh => true
  | _, _ => false
  end.

(** No data that begins with [data] is of the protocol [q]. *)
Definition ruled_out (p : MaybeProtocol) (data : bytes) (q : MaybeProtocol) : Prop :=
  confused p q = true \/ forall more, head_ok q (data ++ more) = false.

Definition after (others : list MaybeProtocol) (current : bool) (st : ProtocolInspectState) : ProtocolInspectState :=
  let st := fold_left state_exclude_other others st in
  if current then state_exclude_current st else st.

(** [m] gives the same result in every state whose current protocol is [p], and
    excludes the same protocols, [p] itself when the flag is set. *)
Definition inspects {A} (p : MaybeProtocol) (m : inspect A)
    (Q : res ProtocolInspectError A -> list MaybeProtocol -> bool -> Prop) : Prop :=
  exists r others current,
    (forall st, ps_current st = Some p -> m st = (r, after others current st)) /\ Q r others current.

Lemma after_current others st : ps_current (after others false st) = ps_current st.
Proof. unfold after. revert st. induction others as [|q others IH]; intros st; [done|]. cbn. by rewrite IH. Qed.

Lemma after_app others others' current st :
  after others' current (after others false st) = after (others ++ others') current st.
Proof. unfold after. by rewrite fold_left_app. Qed.

Section Rules.

Context (p : MaybeProtocol).

Lemma inspects_ret {A} (a : A) Q : Q (Ok a) [] false -> inspects p (ret a) Q.
Proof. intros H. by exists (Ok a), [], false. Qed.

Lemma inspects_need {A} n (Q : res ProtocolInspectError A -> list MaybeProtocol -> bool -> Prop) :
  Q (Err (NeedMoreData n)) [] false -> inspects p (need_more n) Q.
Proof. intros H. by exists (Err (NeedMoreData n)), [], false. Qed.

Lemma inspects_reject {A} (Q : res ProtocolInspectError (option A) -> list MaybeProtocol -> bool -> Prop) :
  Q (Ok None) [] true -> inspects p reject Q.
Proof. intros H. by exists (Ok None), [], true. Qed.

Lemma inspects_lift {A} (r : res ProtocolInspectError A) Q : Q r [] false -> inspects p (lift r) Q.
Proof. intros H. by exists r, [], false. Qed.

Lemma inspects_mono {A} (m : inspect A) (Q Q' : _ -> list MaybeProtocol -> bool -> Prop) :
  inspects p m Q -> (forall r o b, Q r o b -> Q' r o b) -> inspects p m Q'.
Proof. intros (r & o & c & Hm & HQ) H. exists r, o, c. auto. Qed.

Lemma inspects_bind {A B} (m : inspect A) (k : A -> inspect B) Q :
  inspects p m (fun r o b =>
    match r with
    | Ok a =>
        if b then exists r', (forall st, k a st = (r', st)) /\ Q r' o true
        else inspects p (k a) (fun r' o' b' => Q r' (o ++ o') b')
    | Err e => Q (Err e) o b
    | Panic => Q Panic o b
    end) ->
  inspects p (recv_bind m k) Q.
Proof.
  intros (r & o & c & Hm & HQ). destruct r as [a|e|].
  - destruct c.
    + destruct HQ as (r' & Hk & HQ). exists r', o, true. split; [|done].
      intros st Hst. unfold recv_bind. by rewrite Hm, Hk.
    + destruct HQ as (r' & o' & c' & Hk & HQ). exists r', (o ++ o'), c'. split; [|done].
      intros st Hst. unfold recv_bind. rewrite Hm by done. rewrite Hk by (by rewrite after_current). by rewrite after_app.
  - exists (Err e), o, c. split; [|done]. intros st Hst. unfold recv_bind. by rewrite Hm.
  - exists Panic, o, c. split; [|done]. intros st Hst. unfold recv_bind. by rewrite Hm.
Qed.

(** The steps of a check *)

Lemma inspects_lift_bind {A B} (r : res ProtocolInspectError A) (k : A -> inspect B) Q a :
  r = Ok a -> inspects p (k a) Q -> inspects p (recv_bind (lift r) k) Q.
Proof. intros -> Hk. apply inspects_bind, inspects_lift. done. Qed.

Lemma inspects_at {B} (d : bytes) i (k : byte -> inspect B) Q :
  0 <= i < len d -> (forall b, d !! Z.to_nat i = Some b -> inspects p (k b) Q) -> inspects p (recv_bind (at_ d i) k) Q.
Proof.
  intros Hi Hk. destruct (lookup_lt_is_Some_2 d (Z.to_nat i)) as [b Hb]; [unfold len in Hi; lia|].
  eapply inspects_lift_bind; [|by apply Hk]. unfold index. by rewrite (proj2 (Z.leb_le 0 i)), Hb by lia.
Qed.

Lemma inspects_part {B} (d : bytes) a b (k : bytes -> inspect B) Q :
  0 <= a <= b -> b <= len d -> (forall s, s = take (Z.to_nat (b - a)) (drop (Z.to_nat a) d) -> inspects p (k s) Q) ->
  inspects p (recv_bind (part d a b) k) Q.
Proof. intros Ha Hb Hk. eapply inspects_lift_bind; [by apply slice_ok; lia|]. by apply Hk. Qed.

Lemma inspects_from {B} (d : bytes) a (k : bytes -> inspect B) Q :
  0 <= a <= len d -> (forall s, s = drop (Z.to_nat a) d -> inspects p (k s) Q) -> inspects p (recv_bind (from d a) k) Q.
Proof. intros Ha Hk. eapply inspects_lift_bind; [by apply slice_from_ok; lia|]. by apply Hk. Qed.

End Rules.

(** ** The verdict of a check *)

Record verdict (p : MaybeProtocol) (data : bytes) (r : res ProtocolInspectError (option Protocol))
    (others : list MaybeProtocol) (gave_up : bool) : Prop := {
  v_panic : r <> Panic;
  v_need : forall n, r = Err (NeedMoreData n) -> 1 <= n /\ gave_up = false;
  v_accept : forall q, r = Ok (Some q) -> head_ok p data = true;
  v_others : (exists q, r = Ok (Some q)) \/ Forall (ruled_out p data) others
}.

Lemma verdict_need p data n : 1 <= n -> verdict p data (Err (NeedMoreData n)) [] false.
Proof. intros Hn. split; [done| |done|by right]. intros n' [= <-]. done. Qed.

Lemma verdict_none p data b : verdict p data (Ok None) [] b.
Proof. split; [done..|by right]. Qed.

Lemma verdict_accept p data q others : head_ok p data = true -> verdict p data (Ok (Some q)) others false.
Proof. split; [done..|]. left. eauto. Qed.

Lemma exclude_others_eq ps st : exclude_others ps st = (Ok tt, after ps false st).
Proof. revert st. induction ps as [|q ps IH]; intros st; [done|]. cbn. unfold recv_bind, exclude_other. by rewrite IH. Qed.

Lemma inspects_exclude p data ps (k : unit -> inspect (option Protocol)) :
  Forall (ruled_out p data) ps -> inspects p (k tt) (verdict p data) ->
  inspects p (recv_bind (exclude_others ps) k) (verdict p data).
Proof.
  intros Hps Hk. apply inspects_bind. exists (Ok tt), ps, false. split; [intros st _; apply exclude_others_eq|].
  eapply inspects_mono; [exact Hk|]. intros r o b [Hp Hn Ha Ho]. split; try done.
  destruct Ho as [Ho|Ho]; [by left|right]. by apply Forall_app.
Qed.

(** Byte tests become equations. *)
Ltac same_to_eq :=
  repeat match goal with
  | H : same _ _ = true |- _ => unfold same in H; apply bool_decide_eq_true in H
  | H : same _ _ = false |- _ => unfold same in H; apply bool_decide_eq_false in H
  | H : same_bytes _ _ = true |- _ => unfold same_bytes in H; apply bool_decide_eq_true in H
  | H : same_bytes _ _ = false |- _ => unfold same_bytes in H; apply bool_decide_eq_false in H
  end.

(** The bytes at known positions of data that begins with known bytes. *)
Ltac known_bytes :=
  repeat match goal with
  | H : ?d !! ?i = Some ?b |- _ =>
      let x := eval vm_compute in (d !! i) in
      lazymatch x with
      | Some ?c => first [unify b c; clear H | is_var b; change (Some c = Some b) in H; injection H as H; subst b]
      end
  end.

(** The bytes of a known part. *)
Ltac known_part :=
  repeat match goal with
  | H : ?s = take _ (drop _ _) |- _ => is_var s; subst s
  end;
  repeat match goal with
  | H : take _ (drop _ _) = ?l |- _ => vm_compute in H; injection H; clear H; intros; subst
  end.

Ltac ruled := repeat (apply Forall_cons; split; [first [left; reflexivity | right; intros more; reflexivity]|]); apply Forall_nil_2.

(** One step of a check. *)
Ltac check_step :=
  lazymatch goal with
  | |- inspects _ (recv_bind (at_ _ _) _) _ => apply inspects_at; [len_lia|intros ? ?; known_bytes]
  | |- inspects _ (recv_bind (part _ _ _) _) _ => apply inspects_part; [len_lia|len_lia|intros ? ?]
  | |- inspects _ (recv_bind (from _ _) _) _ => apply inspects_from; [len_lia|intros ? ?]
  | |- inspects _ (if ?b then _ else _) _ => destruct b eqn:?; bool_to_prop; same_to_eq
  | |- inspects _ reject _ => apply inspects_reject, verdict_none
  | |- inspects _ (ret None) _ => apply inspects_ret, verdict_none
  | |- inspects _ (need_more _) _ => apply inspects_need, verdict_need; len_lia
  | |- inspects _ (let _ := _ in _) _ => cbv zeta
  end.

Tactic Notation "expose" ident(data) integer(n) :=
  do n (destruct data as [|? data]; [exfalso; len_lia|]).

(** ** SSH *)

Lemma ssh_version_ok p data :
  11 <= len data -> head_ok p data = true -> inspects p (check_ssh_version data) (verdict p data).
Proof.
  intros Hl Hh. unfold check_ssh_version. cbv zeta.
  repeat check_step; try (apply inspects_ret, verdict_accept; done).
Qed.

Lemma ssh_client_ok data :
  inspects May_Ssh (check_ssh_client_protocol_version_exchange data) (verdict May_Ssh data).
Proof.
  unfold check_ssh_client_protocol_version_exchange. check_step; [check_step|]. 
  expose data 11. check_step. check_step; [check_step|]. subst.
  apply inspects_exclude; [ruled|]. check_step. check_step; [check_step|].
  known_part. apply inspects_exclude; [ruled|]. apply ssh_version_ok; [len_lia|reflexivity].
Qed.

Lemma ssh_server_ok data :
  inspects May_Ssh (check_ssh_server_protocol_version_exchange data) (verdict May_Ssh data).
Proof.
  unfold check_ssh_server_protocol_version_exchange. check_step; [check_step|].
  expose data 11. check_step. check_step; [check_step|]. known_part.
  apply inspects_exclude; [ruled|]. apply ssh_version_ok; [len_lia|reflexivity].
Qed.

(** ** DNS *)

Lemma dns_ok data : inspects May_Dns (check_dns_tcp_request_message data) (verdict May_Dns data).
Proof.
  unfold check_dns_tcp_request_message, DNS_MESSAGE_HEADER_LEN. check_step; [check_step|].
  expose data 14. do 2 check_step. check_step; [check_step|]. check_step. subst s.
  apply inspects_bind. unfold check_dns_request_message_header.
  change (drop (Z.to_nat 2) ?l) with (tail (tail l)). cbn [tail].
  check_step. check_step; [apply inspects_ret; cbv beta iota; cbn [negb]; check_step|].
  check_step. check_step; apply inspects_ret; cbv beta iota; cbn [negb]; [check_step|]. known_part. apply inspects_ret, verdict_accept. reflexivity.
Qed.

(** ** LDAP *)

Lemma ldap_ok data limits :
  0 <= sz_ldap_request_msg limits <= isize_max -> len data <= isize_max ->
  inspects May_Ldap (check_ldap_tcp_request_message data limits) (verdict May_Ldap data).
Proof.
  intros Hlim Hlen. unfold check_ldap_tcp_request_message. check_step; [check_step|].
  expose data 5. check_step. check_step; [check_step|]. subst.
  apply inspects_exclude; [ruled|]. check_step. subst.
  pose proof (LdapLength_parse_wp (drop (Z.to_nat 1) (x30 :: b0 :: b1 :: b2 :: b3 :: data))) as Hw.
  destruct (LdapLength_parse _) as [v|[n| |]|]; cbn in Hw; [|check_step..|done].
  rewrite len_drop in Hw. check_step; [check_step|]. unfold uadd, usize_max, u64_max, isize_max in *.
  rewrite (proj2 (Z.leb_le _ _)) by lia. eapply inspects_lift_bind; [done|].
  check_step; [check_step|]. check_step. pose proof (LdapMessageId_parse_wp s) as Hi. subst s.
  destruct (LdapMessageId_parse _) as [id|e|]; [|check_step|].
  - check_step; [check_step|]. apply inspects_ret, verdict_accept. reflexivity.
  - exfalso. apply Hi. rewrite len_take, len_drop. unfold isize_max. len_lia.
Qed.

(** ** HTTP *)

Lemma http1_after_url_ok data offset :
  0 <= offset <= len data -> head_ok May_Http data = true ->
  inspects May_Http (check_http1_after_url data offset) (verdict May_Http data).
Proof.
  intros Ho Hh. unfold check_http1_after_url. check_step; [check_step|].
  check_step. subst s. do 3 check_step. check_step; [by apply inspects_ret, verdict_accept|check_step].
Qed.

Lemma http1_after_method_ok data offset limits :
  1 <= offset -> head_ok May_Http data = true ->
  inspects May_Http (check_http1_after_method data offset limits) (verdict May_Http data).
Proof.
  intros Ho Hh. unfold check_http1_after_method. check_step; [check_step|]. do 2 check_step.
  destruct (memchr x20 s0) as [q|] eqn:Hq; [|check_step; check_step].
  apply memchr_Some in Hq as (pre & post & -> & Hpre & E). subst q. apply (f_equal len) in H0. rewrite len_drop in H0.
  apply http1_after_url_ok; [len_lia|done].
Qed.

Lemma http2_ok data :
  head_ok May_Http data = true -> inspects May_Http (check_http2_connection_preface data) (verdict May_Http data).
Proof.
  intros Hh. unfold check_http2_connection_preface. check_step; [check_step|]. check_step; [check_step|].
  by apply inspects_ret, verdict_accept.
Qed.

Record branch_ok (d0 : byte) (others : list MaybeProtocol) (methods : list (bytes * list MaybeProtocol)) : Prop := {
  b_byte0 : forall rest, Forall (ruled_out May_Http (d0 :: rest)) [May_Ssl; May_Mqtt; May_Smpp; May_Rtmp; May_BitTorrent; May_Ldap];
  b_others : forall rest, Forall (ruled_out May_Http (d0 :: rest)) others;
  b_methods : Forall (fun m => 1 <= len m.1 /\
    forall rest, Forall (ruled_out May_Http (m.1 ++ rest)) m.2 /\ head_ok May_Http (m.1 ++ rest) = true) methods
}.

Lemma http_branch_ok d0 others methods : http_branch d0 = Some (others, methods) -> branch_ok d0 others methods.
Proof.
  destruct d0; try discriminate; intros [= <- <-]; split;
    try (intros rest; ruled); repeat (apply Forall_cons; split; [split; [by apply Z.leb_le|intros rest; split; [ruled|reflexivity]]|]); apply Forall_nil_2.
Qed.

Lemma http_methods_ok data limits methods :
  Forall (fun m => 1 <= len m.1 /\
    forall rest, Forall (ruled_out May_Http (m.1 ++ rest)) m.2 /\ head_ok May_Http (m.1 ++ rest) = true) methods ->
  inspects May_Http (check_http_methods data limits methods) (verdict May_Http data).
Proof.
  induction 1 as [|[m others] methods [Hm Hr] _ IH]; [cbn [check_http_methods]; check_step|]. cbn [check_http_methods fst snd] in *.
  destruct (starts_with m data) eqn:Hs; [|done]. apply starts_with_true in Hs as [rest ->].
  destruct (Hr rest) as [Ho Hh]. apply inspects_exclude; [done|].
  check_step; [by apply http2_ok|by apply http1_after_method_ok].
Qed.

Lemma http_ok data limits : inspects May_Http (check_http_request data limits) (verdict May_Http data).
Proof.
  unfold check_http_request. check_step; [check_step|]. destruct data as [|d0 data]; [exfalso; len_lia|]. check_step.
  destruct (http_branch d0) as [[others methods]|] eqn:Hb; [|check_step].
  apply http_branch_ok in Hb as [H0 Ho Hm]. apply inspects_exclude; [done|]. apply inspects_exclude; [done|].
  by apply http_methods_ok.
Qed.

(** ** TLS *)

Lemma copy_ok (src dst : bytes) at_off n :
  0 <= at_off -> 0 <= n <= len src -> at_off + n <= len dst ->
  copy_nonoverlapping src dst at_off n =
    Ok (take (Z.to_nat at_off) dst ++ take (Z.to_nat n) src ++ drop (Z.to_nat (at_off + n)) dst).
Proof.
  intros Ha Hn Hd. unfold copy_nonoverlapping, copy_from_slice. rewrite slice_ok by lia. cbn [bind].
  rewrite Z.sub_0_r, drop_0, len_take, Z2Nat.id, Z.min_l by lia.
  rewrite !(proj2 (Z.leb_le _ _)), (proj2 (Z.eqb_eq _ _)) by lia. done.
Qed.

Lemma len_copy (src dst : bytes) at_off n :
  0 <= at_off -> 0 <= n <= len src -> at_off + n <= len dst ->
  len (take (Z.to_nat at_off) dst ++ take (Z.to_nat n) src ++ drop (Z.to_nat (at_off + n)) dst) = len dst.
Proof. intros. rewrite !len_app, !len_take, len_drop. lia. Qed.

Lemma ssl_full_header_ok data fragment_len buf :
  6 <= len buf -> head_ok May_Ssl data = true ->
  inspects May_Ssl (check_ssl_client_hello_full_handshake_header fragment_len buf) (verdict May_Ssl data).
Proof.
  intros Hl Hh. unfold check_ssl_client_hello_full_handshake_header.
  repeat check_step. destruct (hello_protocol _ _); [by apply inspects_ret, verdict_accept|check_step].
Qed.

Lemma check_fragment_len_range a b n : check_fragment_len a b = Some n -> 1 <= n <= 2 ^ 14 /\ n = from_be [a; b].
Proof.
  unfold check_fragment_len. pose proof (from_be_range [a; b]) as Hr. change (Z.shiftl 1 14) with (2 ^ 14).
  destruct (_ || _) eqn:E; [done|]. bool_to_prop. intros [= <-]. lia.
Qed.

(** What a copy into the header gives. *)
Lemma ssl_fill_ok left msg_hdr nw :
  0 <= nw < len msg_hdr ->
  inspects May_Ssl (fill_ssl_client_hello_handshake_header left msg_hdr nw) (fun r others gave_up => others = [] /\
    match r with
    | Ok (Some (n, msg_hdr')) => gave_up = false /\ 1 <= n <= len msg_hdr - nw /\ SSL_HDR_LEN + n <= len left /\ len msg_hdr' = len msg_hdr
    | Ok None => gave_up = true
    | Err (NeedMoreData n) => 1 <= n /\ gave_up = false
    | Panic => False
    end).
Proof.
  intros Hnw. unfold fill_ssl_client_hello_handshake_header, SSL_HDR_LEN. cbv zeta.
  destruct (Z.ltb_spec (len left) 5); [apply inspects_need; split_and!; [done|lia|done]|].
  check_step. destruct (same b x16); cbn [negb]; [|by apply inspects_reject].
  do 2 check_step. destruct (check_legacy_version _ _); [|by apply inspects_reject].
  do 2 check_step. destruct (check_fragment_len _ _) as [n|] eqn:Hn; [|by apply inspects_reject].
  apply check_fragment_len_range in Hn as [Hn _]. set (c := Z.min n (len msg_hdr - nw)). assert (1 <= c <= len msg_hdr - nw) by lia.
  destruct (Z.ltb_spec (len left) (5 + c)); [apply inspects_need; split_and!; [done|lia|done]|]. check_step. subst s.
  eapply inspects_lift_bind; [apply copy_ok; rewrite ?len_drop; lia|]. apply inspects_ret. split_and!; try lia; [done|].
  apply len_copy; rewrite ?len_drop; lia.
Qed.

Lemma ssl_loop_ok fuel data fragment_len offset nw msg_hdr :
  len msg_hdr = 6 -> 0 <= nw < 6 -> 6 - nw <= Z.of_nat fuel -> 0 <= offset <= len data -> head_ok May_Ssl data = true ->
  inspects May_Ssl (ssl_hello_loop fuel data fragment_len offset nw msg_hdr) (verdict May_Ssl data).
Proof.
  revert offset nw msg_hdr. induction fuel as [|fuel IH]; intros offset nw msg_hdr Hm Hnw Hf Ho Hh; [lia|].
  cbn [ssl_hello_loop]. check_step. subst s. unfold SSL_HDR_LEN, SSL_HANDSHAKE_HDR_LEN, SSL_HANDSHAKE_VERSION_LEN in *.
  check_step; [check_step|]. apply inspects_bind. eapply inspects_mono; [apply ssl_fill_ok; lia|].
  intros [[[n msg_hdr']|]|[n]|] others gave_up; intros [-> Hf'];
    [|subst; exists (Ok None); split; [done|apply verdict_none]|destruct Hf' as [Hn ->]; by apply verdict_need|done].
  unfold SSL_HDR_LEN in Hf'. destruct Hf' as (-> & Hn & Hl & Hm'). rewrite len_drop in Hl. cbn [app].
  check_step; [apply ssl_full_header_ok; [lia|done]|]. apply IH; try done; lia.
Qed.

Lemma ssl_ok data : inspects May_Ssl (check_ssl_client_hello data) (verdict May_Ssl data).
Proof.
  unfold check_ssl_client_hello, SSL_HDR_LEN, SSL_HANDSHAKE_HDR_LEN, SSL_HANDSHAKE_VERSION_LEN. cbv zeta.
  check_step; [check_step|]. expose data 5. check_step. check_step; [check_step|]. subst.
  apply inspects_exclude; [ruled|]. do 2 check_step. destruct (check_legacy_version _ _); [|check_step].
  do 2 check_step. destruct (check_fragment_len _ _) as [n|] eqn:Hn; [|check_step].
  apply check_fragment_len_range in Hn as [Hn _]. check_step; [check_step|]. check_step. subst s.
  check_step; [apply ssl_full_header_ok; [rewrite len_drop; lia|reflexivity]|].
  eapply inspects_lift_bind; [apply copy_ok; rewrite ?len_drop, ?len_replicate; lia|].
  apply ssl_loop_ok; try lia; [|reflexivity]. apply len_copy; rewrite ?len_drop, ?len_replicate; lia.
Qed.

(** ** The other protocols of clients *)


Lemma inspects_accept p data q : head_ok p data = true -> inspects p (accept q) (verdict p data).
Proof. intros H. by apply inspects_ret, verdict_accept. Qed.

(** What the check relies on for each of the methods. *)
Record rtsp_method_ok (m : bytes) (others : list MaybeProtocol) : Prop := {
  rm_len : 0 <= len m <= 25;
  rm_others : forall rest, Forall (ruled_out May_Rtsp (m ++ rest)) others;
  rm_uri : forall rest, head_ok May_Rtsp (m ++ bs "rtsp://" ++ rest) = true;
  rm_star : forall rest, starts_with (bs "OPTIONS ") (m ++ rest) = true ->
    forall rest', head_ok May_Rtsp (m ++ bs "* RTSP/" ++ rest') = true
}.

Lemma rtsp_after_method_ok m others rest :
  rtsp_method_ok m others ->
  inspects May_Rtsp (check_rtsp_after_method (m ++ rest) (len m)) (verdict May_Rtsp (m ++ rest)).
Proof.
  intros [_ _ Hu Hst]. unfold check_rtsp_after_method. check_step. subst s.
  rewrite drop_app_length' by (unfold len; lia). cbv zeta. destruct (_ && _) eqn:E; [check_step|].
  apply inspects_bind. eexists (Ok tt), _, false. split; [intros st _; apply exclude_others_eq|].
  apply inspects_ret, verdict_accept. apply andb_false_iff in E as [E|E]; apply negb_false_iff in E.
  - apply starts_with_true in E as [rest' ->]. apply Hu.
  - apply andb_true_iff in E as [Eo E]. apply starts_with_true in E as [rest' ->]. by eapply Hst.
Qed.

Lemma rtsp_branch_ok d0 methods :
  rtsp_branch d0 = Some methods ->
  (forall rest, Forall (ruled_out May_Rtsp (d0 :: rest)) [May_Ssl; May_Mqtt; May_Smpp; May_Rtmp; May_BitTorrent; May_Ldap]) /\
  Forall (fun m => rtsp_method_ok m.1 m.2) methods.
Proof.
  destruct d0; try discriminate; intros [= <-]; (split; [intros rest; ruled|]);
    repeat (apply Forall_cons; split; [split; [split; by apply Z.leb_le|intros rest; ruled|reflexivity|intros rest; (discriminate || reflexivity)]|]);
    apply Forall_nil_2.
Qed.

Lemma rtsp_methods_ok data methods :
  Forall (fun m => rtsp_method_ok m.1 m.2) methods ->
  inspects May_Rtsp (check_rtsp_methods data methods) (verdict May_Rtsp data).
Proof.
  induction 1 as [|[m others] methods Hm _ IH]; [cbn [check_rtsp_methods]; check_step|].
  cbn [check_rtsp_methods fst snd] in *. destruct (starts_with m data) eqn:Hs; [|done].
  apply starts_with_true in Hs as [rest ->]. apply inspects_exclude; [apply Hm|]. by eapply rtsp_after_method_ok.
Qed.

Lemma rtsp_ok data : inspects May_Rtsp (check_rtsp_client_setup_request data) (verdict May_Rtsp data).
Proof.
  unfold check_rtsp_client_setup_request. check_step; [check_step|].
  destruct data as [|d0 data]; [exfalso; len_lia|]. check_step.
  destruct (rtsp_branch d0) as [methods|] eqn:Hb; [|check_step].
  apply rtsp_branch_ok in Hb as [H0 Hm]. apply inspects_exclude; [done|]. by apply rtsp_methods_ok.
Qed.

Lemma uleb_len data v n : uleb data = Some (v, n) -> 1 <= n <= len data.
Proof.
  revert v n. induction data as [|b l IH]; [done|]. intros v n. cbn [uleb]. rewrite len_cons.
  destruct (u8 b <? 128); [intros [= <- <-]; len_lia|]. destruct (uleb l) as [[v' n']|]; [|done].
  intros [= <- <-]. specialize (IH _ _ eq_refl). lia.
Qed.

Lemma mqtt_ok data : inspects May_Mqtt (check_mqtt_client_connect_request data) (verdict May_Mqtt data).
Proof.
  unfold check_mqtt_client_connect_request. cbv zeta. check_step; [check_step|].
  expose data 12. check_step. check_step; [check_step|]. subst. apply inspects_exclude; [ruled|].
  check_step. subst s. rewrite Leb128_decode_uleb.
  destruct (uleb _) as [[v n]|] eqn:Hu; [|destruct (_ <? 5); [check_step|]; check_step].
  apply uleb_len in Hu. rewrite !len_take in Hu. destruct (v <=? u32_max); [|check_step]. cbn [leb_value leb_encoded_len].
  check_step; [check_step|]. check_step; [check_step|]. check_step. check_step; [check_step|]. check_step.
  check_step; [by apply inspects_accept|check_step].
Qed.

Lemma stomp_connect_ok data :
  10 <= len data -> (exists rest, data = "C"%byte :: rest) ->
  inspects May_Stomp (check_stomp_connect_method data) (verdict May_Stomp data).
Proof.
  intros Hl [rest ->]. unfold check_stomp_connect_method. cbv zeta. expose rest 9.
  apply inspects_exclude; [ruled|]. check_step. check_step; [check_step|]. known_part.
  check_step. check_step; [subst; apply inspects_exclude; [ruled|]; check_step; check_step; [check_step|]|].
  - check_step; [check_step|by apply inspects_accept].
  - check_step; [|check_step]. subst. apply inspects_exclude; [ruled|]. check_step; [check_step|by apply inspects_accept].
Qed.

Lemma stomp_stomp_ok data :
  10 <= len data -> (exists rest, data = "S"%byte :: rest) ->
  inspects May_Stomp (check_stomp_stomp_method data) (verdict May_Stomp data).
Proof.
  intros Hl [rest ->]. unfold check_stomp_stomp_method. cbv zeta. expose rest 9.
  apply inspects_exclude; [ruled|]. check_step. check_step; [check_step|]. known_part.
  apply inspects_exclude; [ruled|]. check_step. check_step.
  - check_step. check_step; [check_step|]. check_step; [check_step|by apply inspects_accept].
  - check_step; [|check_step]. check_step; [check_step|by apply inspects_accept].
Qed.

Lemma stomp_ok data : inspects May_Stomp (check_stomp_client_connect_request data) (verdict May_Stomp data).
Proof.
  unfold check_stomp_client_connect_request. check_step; [check_step|].
  destruct data as [|d0 data]; [exfalso; len_lia|]. check_step.
  check_step; [subst; apply stomp_connect_ok; eauto|]. check_step; [subst; apply stomp_stomp_ok; eauto|check_step].
Qed.

Lemma smpp_ok data : inspects May_Smpp (check_smpp_session_request data) (verdict May_Smpp data).
Proof.
  unfold check_smpp_session_request. check_step; [check_step|].
  expose data 12. check_step. check_step; [check_step|]. subst. apply inspects_exclude; [ruled|].
  check_step. check_step; [check_step|]. check_step. destruct (smpp_body _) as [[lo hi]|]; [|check_step].
  check_step; [check_step|]. check_step. check_step; [check_step|by apply inspects_accept].
Qed.

Lemma rtmp_ok data : inspects May_Rtmp (check_rtmp_tcp_client_handshake data) (verdict May_Rtmp data).
Proof.
  unfold check_rtmp_tcp_client_handshake, RTMP_HANDSHAKE_LEN. check_step; [check_step|].
  expose data 9. check_step. check_step; [check_step|]. subst. apply inspects_exclude; [ruled|].
  check_step. check_step; [check_step|]. check_step; [check_step|by apply inspects_accept].
Qed.

Lemma bittorrent_ok data : inspects May_BitTorrent (check_bittorrent_tcp_handshake data) (verdict May_BitTorrent data).
Proof.
  unfold check_bittorrent_tcp_handshake. check_step; [check_step|].
  destruct data as [|d0 data]; [exfalso; len_lia|]. check_step. check_step; [check_step|]. subst.
  apply inspects_exclude; [ruled|]. check_step. check_step; [by apply inspects_accept|check_step].
Qed.

(** ** The protocols of servers *)

Lemma ftp_after_code_ok data limits :
  6 <= len data -> head_ok May_Ftp data = true ->
  inspects May_Ftp (check_ftp_after_code data limits) (verdict May_Ftp data).
Proof.
  intros Hl Hh. unfold check_ftp_after_code. check_step. destruct (negb _); [check_step|]. check_step.
  destruct (memchr LF s); [by apply inspects_accept|]. check_step; check_step.
Qed.

Lemma ftp_ok data limits : inspects May_Ftp (check_ftp_server_greeting data limits) (verdict May_Ftp data).
Proof.
  unfold check_ftp_server_greeting, ftp_exclude_by_byte0. check_step; [check_step|]. expose data 6. check_step.
  check_step; [|check_step; [|check_step; [|check_step]]]; subst; apply inspects_exclude; try ruled.
  - apply inspects_exclude; [ruled|]. check_step. check_step; [|check_step]. known_part. apply ftp_after_code_ok; [len_lia|reflexivity].
  - check_step. check_step; [check_step|]. subst. apply inspects_exclude; [ruled|]. check_step.
    check_step; [|check_step]. subst. apply ftp_after_code_ok; [len_lia|reflexivity].
  - apply inspects_exclude; [ruled|]. check_step. check_step; [|check_step]. known_part. apply ftp_after_code_ok; [len_lia|reflexivity].
Qed.

Lemma smtp_after_code_ok to_ascii p data :
  7 <= len data -> head_ok p data = true ->
  inspects p (check_smtp_after_code to_ascii data) (verdict p data).
Proof.
  intros Hl Hh. unfold check_smtp_after_code. check_step. destruct (negb _); [check_step|]. check_step.
  destruct (memchr LF s) as [q|] eqn:Hq; [|check_step; check_step].
  apply memchr_Some in Hq as (pre & post & Es & _ & ->).
  assert (len s = len pre + 1 + len post) as Ls by (rewrite Es; len_lia). clear H0 Es. check_step; [check_step|].
  check_step. check_step; [check_step|].
  assert (0 <= default (len pre - 1) (memchr x20 s) <= len s) as He.
  { destruct (memchr x20 s) as [e|] eqn:Hm; cbn [from_option id]; [|len_lia].
    apply memchr_Some in Hm as (pre' & post' & -> & _ & ->). unfold id. len_lia. }
  cbv zeta. check_step. pose proof (proj2 (proj2 (host_parsers_never_panic to_ascii s0))) as Hnp.
  destruct (parse_smtp_host_address to_ascii s0) as [[h|]|e|]; [by apply inspects_accept|check_step..|done].
Qed.

Lemma smtp_ok to_ascii p data :
  p = May_Smtp \/ p = May_Odmr -> inspects p (check_smtp_server_greeting to_ascii data) (verdict p data).
Proof.
  intros Hp. assert (forall d, head_ok p d = head_ok May_Smtp d) as Hh by (by destruct Hp; subst p).
  assert (forall d l, Forall (ruled_out May_Smtp d) l -> Forall (ruled_out p d) l) as Hr.
  { intros d l H. eapply Forall_impl; [exact H|]. intros q [Hc|Hq]; [done|by right]. }
  unfold check_smtp_server_greeting, smtp_exclude_by_byte0. check_step; [check_step|]. expose data 7. check_step.
  check_step; [|check_step; [|check_step]]; subst b; apply inspects_exclude; try (apply Hr; ruled).
  - check_step. check_step; [check_step|]. subst. apply inspects_exclude; [apply Hr; ruled|]. check_step.
    check_step; [|check_step]. subst. apply smtp_after_code_ok; [len_lia|by rewrite Hh].
  - apply inspects_exclude; [apply Hr; ruled|]. check_step. check_step; [|check_step]. known_part.
    apply smtp_after_code_ok; [len_lia|by rewrite Hh].
Qed.

(** What is found at the end of a line only reads the state. *)
Lemma line_end_ok p data too_long found q :
  2 <= len data -> head_ok p data = true ->
  (forall st, ps_current st = Some p -> found st = (Ok (Some q), st)) ->
  inspects p (check_line_end data too_long found) (verdict p data).
Proof.
  intros Hl Hh Hf. unfold check_line_end. cbv zeta. check_step. check_step; [check_step; check_step|].
  check_step. check_step; [check_step|]. exists (Ok (Some q)), [], false. split; [|by apply verdict_accept]. apply Hf.
Qed.

Lemma pop3_ok data : inspects May_Pop3 (check_pop3_server_greeting data) (verdict May_Pop3 data).
Proof.
  unfold check_pop3_server_greeting. cbv zeta. check_step; [check_step|]. check_step; [check_step|]. expose data 5.
  check_step. check_step; [check_step|]. subst. apply inspects_exclude; [ruled|]. check_step.
  check_step; [check_step|]. known_part. by apply (line_end_ok _ _ _ _ Is_Pop3); [len_lia|..].
Qed.

Lemma nntp_ok p data :
  p = May_Nntp \/ p = May_Nnsp -> inspects p (check_nntp_server_greeting data) (verdict p data).
Proof.
  intros Hp. assert (forall d, head_ok p d = head_ok May_Nntp d) as Hh by (by destruct Hp; subst p).
  assert (forall d l, Forall (ruled_out May_Nntp d) l -> Forall (ruled_out p d) l) as Hr.
  { intros d l H. eapply Forall_impl; [exact H|]. intros q [Hc|Hq]; [done|by right]. }
  unfold check_nntp_server_greeting. cbv zeta. check_step; [check_step|]. check_step; [check_step|]. expose data 5.
  check_step. check_step; [check_step|]. subst b. apply inspects_exclude; [apply Hr; ruled|]. check_step.
  check_step; [check_step|]. subst. apply inspects_exclude; [apply Hr; ruled|]. check_step.
  destruct (negb _); [check_step|]. apply (line_end_ok _ _ _ _ (if bool_decide (p = May_Nnsp) then Is_Nnsp else Is_Nntp)); [len_lia|by rewrite Hh|].
  intros st Hst. unfold news_protocol. rewrite Hst. by destruct Hp; subst p.
Qed.

Lemma imap_ok data limits : inspects May_Imap (check_imap_server_greeting data limits) (verdict May_Imap data).
Proof.
  unfold check_imap_server_greeting. cbv zeta. check_step; [check_step|]. expose data 6.
  check_step. check_step; [check_step|]. subst. apply inspects_exclude; [ruled|]. check_step.
  check_step; [check_step|]. subst. set (finish := recv_bind (from _ 4) _).
  assert (inspects May_Imap finish (verdict May_Imap ("*"%byte :: x20 :: b1 :: b2 :: b3 :: b4 :: data))) as Hf.
  { unfold finish. check_step. by apply (line_end_ok _ _ _ _ Is_Imap); [len_lia|..]. }
  do 2 check_step. check_step; [check_step; [check_step|done]|].
  check_step; [check_step; [check_step|]; check_step; check_step; [check_step|done]|].
  check_step; [|check_step]. check_step. destruct (_ || _); [check_step|done].
Qed.

Lemma nats_ok data limits : inspects May_Nats (check_nats_server_info_msg data limits) (verdict May_Nats data).
Proof.
  unfold check_nats_server_info_msg. cbv zeta. check_step; [check_step|].
  destruct data as [|d0 data]; [exfalso; len_lia|]. check_step. check_step; [check_step|]. subst.
  apply inspects_exclude; [ruled|]. check_step; [check_step|]. by apply (line_end_ok _ _ _ _ Is_Nats); [len_lia|..].
Qed.

(** ** All checks *)

(** The protocols that are checked; the others have been replaced by them. *)
Definition plain (p : MaybeProtocol) : bool :=
  match p with
  | May_Https | May_Submissions | May_Pop3s | May_Nntps | May_Imaps | May_Rtsps | May_SecureMqtt | May_Ssmpp
  | May_Rtmps | May_DnsOverTls | May_Ldaps | May_MaxSize => false
  | _ => true
  end.

Definition limits_ok (limits : SizeLimit) : Prop := 0 <= sz_ldap_request_msg limits <= isize_max.

(** A check of one protocol, of either side. *)
Definition sound_check (check : MaybeProtocol -> inspect (option Protocol)) (data : bytes) : Prop :=
  forall p, plain p = true -> exists r others gave_up, verdict p data r others gave_up /\
    forall st, check p st =
      if excluded st p then (Ok None, st) else (r, after others gave_up (set_current st p)).

Lemma sound_of_inspects p data (m : inspect (option Protocol)) :
  inspects p m (verdict p data) ->
  exists r others gave_up, verdict p data r others gave_up /\
    forall st, m (set_current st p) = (r, after others gave_up (set_current st p)).
Proof. intros (r & o & b & Hm & Hv). exists r, o, b. split; [done|]. intros st. by apply Hm. Qed.

Lemma inspects_reject_verdict p data : inspects p reject (verdict p data).
Proof. apply inspects_reject, verdict_none. Qed.

Lemma client_check_sound data limits :
  limits_ok limits -> len data <= isize_max ->
  sound_check (fun p => check_client_initial_data_for_protocol p data limits) data.
Proof.
  intros Hlim Hlen p Hp.
  enough (exists m, inspects p m (verdict p data) /\
    forall st, check_client_initial_data_for_protocol p data limits st =
      if excluded st p then (Ok None, st) else m (set_current st p)) as (m & Hm & Hc).
  { destruct (sound_of_inspects p data m Hm) as (r & o & b & Hv & Hst). exists r, o, b. split; [done|].
    intros st. rewrite Hc. destruct (excluded st p); [done|]. apply Hst. }
  destruct p; try done; eexists; split; try (intros st; reflexivity);
    auto using ssh_client_ok, dns_ok, ldap_ok, http_ok, ssl_ok, rtsp_ok, mqtt_ok, stomp_ok, smpp_ok, rtmp_ok, bittorrent_ok, inspects_reject_verdict.
Qed.

Lemma server_check_sound to_ascii data limits :
  limits_ok limits -> len data <= isize_max ->
  sound_check (fun p => check_server_initial_data_for_protocol to_ascii p data limits) data.
Proof.
  intros Hlim Hlen p Hp.
  enough (exists m, inspects p m (verdict p data) /\
    forall st, check_server_initial_data_for_protocol to_ascii p data limits st =
      if excluded st p then (Ok None, st) else m (set_current st p)) as (m & Hm & Hc).
  { destruct (sound_of_inspects p data m Hm) as (r & o & b & Hv & Hst). exists r, o, b. split; [done|].
    intros st. rewrite Hc. destruct (excluded st p); [done|]. apply Hst. }
  destruct p; try done; eexists; split; try (intros st; reflexivity);
    auto using ftp_ok, ssh_server_ok, smtp_ok, pop3_ok, nntp_ok, imap_ok, nats_ok, bittorrent_ok, inspects_reject_verdict.
Qed.
