(* ===== verification/Inspector.v ===== *)
(** * The protocol inspector

    Models [ProtocolInspector] of [lib/vey-dpi/src/protocol/inspect.rs], which
    runs the checks of [Inspect] on the first data of a connection, and the
    loops that feed it: [vey-proxy/src/inspect/stream/object.rs] and
    [vey-proxy/src/serve/sni_proxy/task/accept/task.rs]. *)

From Stdlib Require Import ZArith Lia Strings.Byte.
From stdpp Require Import base list.
From S2P Require Import Prelude Reader ReadExt Domain IpAddr Host TlsExtension Tls TlsAccept Inspect InspectSpec.

#[local] Open Scope recv_scope.

Definition GUESS_PROTOCOL_FOR_CLIENT_INITIAL_DATA : list MaybeProtocol :=
  [May_Ssl; May_Http; May_Ssh; May_Smpp; May_BitTorrent].
Definition GUESS_PROTOCOL_FOR_SERVER_INITIAL_DATA : list MaybeProtocol :=
  [May_Ssh; May_Ftp; May_Nats; May_BitTorrent].

Record ReadPendingProtocol : Type := { rp_size : Z; rp_protocol : MaybeProtocol }.

Record ProtocolInspector : Type := {
  pi_server_portmap : ProtocolPortMap;
  pi_state : ProtocolInspectState;
  pi_next_check_protocol : list MaybeProtocol;
  pi_no_explicit_ssl : bool;
  pi_read_pending_set : list ReadPendingProtocol;
  pi_guess_protocols : bool
}.

Definition Inspector_new (server_portmap : ProtocolPortMap) : ProtocolInspector := {|
  pi_server_portmap := server_portmap; pi_state := InspectState_default; pi_next_check_protocol := [];
  pi_no_explicit_ssl := false; pi_read_pending_set := []; pi_guess_protocols := true |}.

Definition set_state (self : ProtocolInspector) (st : ProtocolInspectState) : ProtocolInspector := {|
  pi_server_portmap := pi_server_portmap self; pi_state := st; pi_next_check_protocol := pi_next_check_protocol self;
  pi_no_explicit_ssl := pi_no_explicit_ssl self; pi_read_pending_set := pi_read_pending_set self;
  pi_guess_protocols := pi_guess_protocols self |}.

Definition set_next (self : ProtocolInspector) (next : list MaybeProtocol) : ProtocolInspector := {|
  pi_server_portmap := pi_server_portmap self; pi_state := pi_state self; pi_next_check_protocol := next;
  pi_no_explicit_ssl := pi_no_explicit_ssl self; pi_read_pending_set := pi_read_pending_set self;
  pi_guess_protocols := pi_guess_protocols self |}.

Definition set_pending (self : ProtocolInspector) (pending : list ReadPendingProtocol) : ProtocolInspector := {|
  pi_server_portmap := pi_server_portmap self; pi_state := pi_state self;
  pi_next_check_protocol := pi_next_check_protocol self; pi_no_explicit_ssl := pi_no_explicit_ssl self;
  pi_read_pending_set := pending; pi_guess_protocols := pi_guess_protocols self |}.

Definition set_guess (self : ProtocolInspector) (guess : bool) : ProtocolInspector := {|
  pi_server_portmap := pi_server_portmap self; pi_state := pi_state self;
  pi_next_check_protocol := pi_next_check_protocol self; pi_no_explicit_ssl := pi_no_explicit_ssl self;
  pi_read_pending_set := pi_read_pending_set self; pi_guess_protocols := guess |}.

Definition set_no_explicit_ssl (self : ProtocolInspector) (b : bool) : ProtocolInspector := {|
  pi_server_portmap := pi_server_portmap self; pi_state := pi_state self;
  pi_next_check_protocol := pi_next_check_protocol self; pi_no_explicit_ssl := b;
  pi_read_pending_set := pi_read_pending_set self; pi_guess_protocols := pi_guess_protocols self |}.

Definition push_protocol (self : ProtocolInspector) (p : MaybeProtocol) : ProtocolInspector :=
  set_next self (p :: pi_next_check_protocol self).

Definition push_alpn_protocol (self : ProtocolInspector) (p : AlpnProtocol) : ProtocolInspector :=
  push_protocol self (MaybeProtocol_from_alpn p).

(** The excluded protocols and the current one are forgotten; the queue and the
    pending reads are not touched. *)
Definition reset_state (self : ProtocolInspector) : ProtocolInspector :=
  set_guess (set_state self InspectState_default) true.

(** ** Checking data *)

(** A step of the check: [Err p] is [return Ok(p)]. *)
Definition step (A : Type) : Type := proc ProtocolInspector Protocol A.

Section Check.

(** [check_client_initial_data_for_protocol] or its counterpart, with the data
    and the limits. *)
Context (check : MaybeProtocol -> inspect (option Protocol)).

(** The macro [check_protocol!] *)
Definition check_protocol (proto : MaybeProtocol) : step unit := fun self =>
  let (r, st) := check proto (pi_state self) in
  let self := set_state self st in
  match r with
  | Ok (Some p) => (Err p, self)
  | Ok None => (Ok tt, self)
  | Err (NeedMoreData n) =>
      (Ok tt, set_pending self (pi_read_pending_set self ++ [{| rp_size := n; rp_protocol := proto |}]))
  | Panic => (Panic, self)
  end.

Definition check_taken : step unit := fun self =>
  let (current, st) := take_current (pi_state self) in
  let self := set_state self st in
  match current with
  | Some proto => check_protocol proto self
  | None => (Ok tt, self)
  end.

(** [while let Some(proto) = self.next_check_protocol.pop_front()] *)
Fixpoint check_next (next : list MaybeProtocol) : step unit := fun self =>
  match next with
  | [] => (Ok tt, set_next self [])
  | proto :: next' =>
      (let* _ := check_protocol proto in check_next next') (set_next self next')
  end.

Fixpoint check_each (protos : list MaybeProtocol) : step unit :=
  match protos with
  | [] => recv_ret tt
  | proto :: protos' => let* _ := check_protocol proto in check_each protos'
  end.

End Check.

Fixpoint pending_rest (pending : list ReadPendingProtocol) (pending_len : Z) (next : list MaybeProtocol)
  : Z * list MaybeProtocol :=
  match pending with
  | [] => (pending_len, next)
  | v :: pending' =>
      pending_rest pending' (if rp_size v <? pending_len then rp_size v else pending_len) (rp_protocol v :: next)
  end.

Definition handle_read_pending : proc ProtocolInspector ProtocolInspectError unit := fun self =>
  match pi_read_pending_set self with
  | [] => (Ok tt, self)
  | v :: pending =>
      let self := set_state self (set_current (pi_state self) (rp_protocol v)) in
      let (pending_len, next) := pending_rest pending (rp_size v) (pi_next_check_protocol self) in
      (Err (NeedMoreData pending_len), set_next (set_pending self []) next)
  end.

(** What follows the checks: the protocol that was found, or the reads that are
    pending. *)
Definition finish_check (r : res Protocol unit * ProtocolInspector)
  : res ProtocolInspectError Protocol * ProtocolInspector :=
  match r with
  | (Err p, self) => (Ok p, self)
  | (Panic, self) => (Panic, self)
  | (Ok _, self) =>
      (let* _ := handle_read_pending in recv_ret Is_Unknown) self
  end.

Section Data.

Context (to_ascii : bytes -> option bytes) (size_limit : SizeLimit).

Definition check_client_initial_data (server_port : Z) (data : bytes)
  : proc ProtocolInspector ProtocolInspectError Protocol := fun self =>
  let check proto := check_client_initial_data_for_protocol proto data size_limit in
  finish_check
    ((let* _ := check_taken check in
      let* _ := (fun self => check_next check (pi_next_check_protocol self) self) in
      fun self =>
        if pi_guess_protocols self then
          (let* _ :=
             match PortMap_get (pi_server_portmap self) server_port with
             | Some v =>
                 let* _ := if negb (pi_no_explicit_ssl self) && pv_check_ssl v then check_protocol check May_Ssl else recv_ret tt in
                 check_each check (pv_protocols v)
             | None => recv_ret tt
             end in
           let* _ := check_each check GUESS_PROTOCOL_FOR_CLIENT_INITIAL_DATA in
           fun self => (Ok tt, set_guess self false)) self
        else (Ok tt, self)) self).

Definition check_server_initial_data (server_port : Z) (data : bytes)
  : proc ProtocolInspector ProtocolInspectError Protocol := fun self =>
  let check proto := check_server_initial_data_for_protocol to_ascii proto data size_limit in
  finish_check
    ((let* _ := check_taken check in
      let* _ := (fun self => check_next check (pi_next_check_protocol self) self) in
      fun self =>
        if pi_guess_protocols self then
          (let* _ :=
             match PortMap_get (pi_server_portmap self) server_port with
             | Some v => check_each check (pv_protocols v)
             | None => recv_ret tt
             end in
           let* _ := check_each check GUESS_PROTOCOL_FOR_SERVER_INITIAL_DATA in
           fun self => (Ok tt, set_guess self false)) self
        else (Ok tt, self)) self).

(** ** Feeding the inspector *)

Inductive ServerTaskError : Type :=
| Task_ClosedByClient
| Task_ClientTcpReadFailed (e : io_error)
| Task_ClosedByUpstream
| Task_UpstreamReadFailed (e : io_error)
| Task_UnableToDetect
| Task_UnsupportedProtocol
| Task_Tls (e : SniRequestError)
| Task_Http.

(** [spare n]: the room of [read_buf] in a [BytesMut] of [n] bytes, as in
    [TlsAccept]. *)
Context (spare : Z -> Z) (inspect_buffer_size : Z).

(** The loop, with the answer to a full buffer and the errors of the reader.
    Every round but the last reads at least one byte. *)
Fixpoint inspect_loop (fuel : nat) (check : bytes -> proc ProtocolInspector ProtocolInspectError Protocol)
    (full : res ServerTaskError Protocol) (closed : ServerTaskError) (failed : io_error -> ServerTaskError)
    (inspector : ProtocolInspector) (buf : bytes) (rd : reader)
  : res ServerTaskError Protocol * (ProtocolInspector * bytes * reader) :=
  match fuel with
  | O => (Panic, (inspector, buf, rd))
  | S fuel' =>
      match check buf inspector with
      | (Ok p, inspector) => (Ok p, (inspector, buf, rd))
      | (Panic, inspector) => (Panic, (inspector, buf, rd))
      | (Err (NeedMoreData _), inspector) =>
          if inspect_buffer_size <=? len buf then (full, (inspector, buf, rd))
          else
            match read_await rd (spare (len buf)) with
            | (Ok c, rd) =>
                if len c =? 0 then (Err closed, (inspector, buf, rd))
                else inspect_loop fuel' check full closed failed inspector (buf ++ c) rd
            | (Err e, rd) => (Err (failed e), (inspector, buf, rd))
            | (Panic, rd) => (Panic, (inspector, buf, rd))
            end
      end
  end.

Definition inspect_client_data (server_port : Z) (inspector : ProtocolInspector) (clt_r_buf : bytes) (clt_r : reader) :=
  inspect_loop (S (length (stream_of clt_r))) (check_client_initial_data server_port)
    (Ok Is_Unknown) Task_ClosedByClient Task_ClientTcpReadFailed inspector clt_r_buf clt_r.

Definition inspect_server_data (server_port : Z) (inspector : ProtocolInspector) (ups_r_buf : bytes) (ups_r : reader) :=
  inspect_loop (S (length (stream_of ups_r))) (check_server_initial_data server_port)
    (Ok Is_Unknown) Task_ClosedByUpstream Task_UpstreamReadFailed inspector ups_r_buf ups_r.

(** *** The SNI proxy *)

(** [inspect] of the accept task and [fetch_upstream]; [parse_http] stands for
    the request parser of [vey-http], which gets the buffer and the reader. *)
Context (parse_http : bytes -> reader -> option SniUpstream).

Definition fetch_upstream (max_client_hello_size server_port : Z) (protocol : Protocol) (clt_r_buf : bytes) (clt_r : reader)
  : res ServerTaskError SniUpstream :=
  match protocol with
  | Is_Http1 => match parse_http clt_r_buf clt_r with Some up => Ok up | None => Err Task_Http end
  | Is_TlsModern =>
      map_err Task_Tls (sni_parse_request spare to_ascii max_client_hello_size server_port clt_r_buf clt_r).1.1
  | _ => Err Task_UnsupportedProtocol
  end.

Definition sni_inspect (max_client_hello_size server_port : Z) (server_portmap : ProtocolPortMap)
    (clt_r_buf : bytes) (clt_r : reader) : res ServerTaskError (SniUpstream * Protocol) :=
  let '(r, (_, buf, rd)) :=
    inspect_loop (S (length (stream_of clt_r))) (check_client_initial_data server_port)
      (Err Task_UnableToDetect) Task_ClosedByClient Task_ClientTcpReadFailed
      (Inspector_new server_portmap) clt_r_buf clt_r in
  let? p := r in
  let? upstream := fetch_upstream max_client_hello_size server_port p buf rd in
  Ok (upstream, p).

End Data.

(** ** The order of the checks *)

(** The protocols that are tried when nothing is known about the connection. *)
Definition client_candidates (server_port : Z) (self : ProtocolInspector) : list MaybeProtocol :=
  match PortMap_get (pi_server_portmap self) server_port with
  | Some v => (if negb (pi_no_explicit_ssl self) && pv_check_ssl v then [May_Ssl] else []) ++ pv_protocols v
  | None => []
  end ++ GUESS_PROTOCOL_FOR_CLIENT_INITIAL_DATA.

Definition server_candidates (server_port : Z) (self : ProtocolInspector) : list MaybeProtocol :=
  match PortMap_get (pi_server_portmap self) server_port with
  | Some v => pv_protocols v
  | None => []
  end ++ GUESS_PROTOCOL_FOR_SERVER_INITIAL_DATA.

Definition phases (check : MaybeProtocol -> inspect (option Protocol)) (candidates : ProtocolInspector -> list MaybeProtocol)
  : step unit :=
  let* _ := check_taken check in
  let* _ := (fun self => check_next check (pi_next_check_protocol self) self) in
  fun self =>
    if pi_guess_protocols self then
      (let* _ := check_each check (candidates self) in fun self => (Ok tt, set_guess self false)) self
    else (Ok tt, self).

Lemma recv_bind_ext {S E A B} (m m' : proc S E A) (k k' : A -> proc S E B) s :
  (forall s, m s = m' s) -> (forall a s, k a s = k' a s) -> recv_bind m k s = recv_bind m' k' s.
Proof. intros Hm Hk. unfold recv_bind. rewrite Hm. by destruct (m' s) as [[a|e|] s']. Qed.

Lemma recv_bind_assoc {S E A B C} (m : proc S E A) (k : A -> proc S E B) (k' : B -> proc S E C) s :
  recv_bind (recv_bind m k) k' s = recv_bind m (fun a => recv_bind (k a) k') s.
Proof. unfold recv_bind. by destruct (m s) as [[a|e|] s']. Qed.

Lemma check_each_app check l l' self :
  check_each check (l ++ l') self = (let* _ := check_each check l in check_each check l') self.
Proof.
  revert self. induction l as [|p l IH]; intros self; [done|]. cbn [app check_each].
  rewrite recv_bind_assoc. apply recv_bind_ext; [done|]. intros _ s. apply IH.
Qed.

Lemma check_each_one check p self : check_each check [p] self = check_protocol check p self.
Proof. cbn. unfold recv_bind, recv_ret. by destruct (check_protocol check p self) as [[[]|e|] s]. Qed.

Lemma client_phases limits port data self :
  check_client_initial_data limits port data self =
    finish_check (phases (fun p => check_client_initial_data_for_protocol p data limits) (client_candidates port) self).
Proof.
  unfold check_client_initial_data, phases. cbv zeta. f_equal. apply recv_bind_ext; [done|]. intros _ s1.
  apply recv_bind_ext; [done|]. intros _ s2. destruct (pi_guess_protocols s2); [|done]. unfold client_candidates.
  set (check := fun p => _). destruct (PortMap_get _ _) as [v|]; [|reflexivity].
  rewrite <- recv_bind_assoc. apply recv_bind_ext; [|done]. intros s. rewrite check_each_app.
  apply recv_bind_ext; [|done]. clear s. intros s. rewrite check_each_app. apply recv_bind_ext; [|done].
  clear s. intros s. destruct (_ && _); [by rewrite check_each_one|done].
Qed.

Lemma server_phases to_ascii limits port data self :
  check_server_initial_data to_ascii limits port data self =
    finish_check (phases (fun p => check_server_initial_data_for_protocol to_ascii p data limits) (server_candidates port) self).
Proof.
  unfold check_server_initial_data, phases. cbv zeta. f_equal. apply recv_bind_ext; [done|]. intros _ s1.
  apply recv_bind_ext; [done|]. intros _ s2. destruct (pi_guess_protocols s2); [|done]. unfold server_candidates.
  set (check := fun p => _). destruct (PortMap_get _ _) as [v|]; [|reflexivity].
  rewrite <- recv_bind_assoc. apply recv_bind_ext; [|done]. intros s. by rewrite check_each_app.
Qed.

(** ** Invariant and termination *)

Definition ports_ok (m : ProtocolPortMap) : Prop :=
  Forall (fun e => Forall (fun p => plain p = true) (pv_protocols e.2)) m.

(** Only protocols that have a check are ever tried. *)
Record inspector_ok (self : ProtocolInspector) : Prop := {
  io_ports : ports_ok (pi_server_portmap self);
  io_current : forall p, ps_current (pi_state self) = Some p -> plain p = true;
  io_next : Forall (fun p => plain p = true) (pi_next_check_protocol self);
  io_pending : Forall (fun v => plain (rp_protocol v) = true /\ 1 <= rp_size v) (pi_read_pending_set self)
}.

Lemma PortMapValue_insert_ok v p :
  p <> May_MaxSize -> Forall (fun p => plain p = true) (pv_protocols v) ->
  Forall (fun p => plain p = true) (pv_protocols (PortMapValue_insert v p)).
Proof.
  intros Hp Hv. destruct p; try done; cbn [PortMapValue_insert pv_protocols]; try done;
    (case_bool_decide; [done|apply Forall_app; split; [done|by repeat constructor]]).
Qed.

Lemma PortMap_entry_ok m port f :
  ports_ok m -> (forall v, Forall (fun p => plain p = true) (pv_protocols v) -> Forall (fun p => plain p = true) (pv_protocols (f v))) ->
  ports_ok (PortMap_entry m port f).
Proof.
  intros Hm Hf. induction Hm as [|[k v] m Hv Hm IH]; cbn [PortMap_entry].
  - repeat constructor. by apply Hf.
  - destruct (k =? port); constructor; auto. by apply Hf.
Qed.

Lemma PortMap_insert_batch_ok m port ps :
  ports_ok m -> May_MaxSize ∉ ps -> ports_ok (PortMap_insert_batch m port ps).
Proof.
  intros Hm Hps. apply PortMap_entry_ok; [done|]. induction ps as [|p ps IH] using rev_ind; intros v Hv; [done|].
  rewrite fold_left_app. apply not_elem_of_app in Hps as [Hps Hp]. apply PortMapValue_insert_ok; [|by apply IH].
  intros ->. apply Hp. by left.
Qed.

Lemma PortMap_get_ok m port v : ports_ok m -> PortMap_get m port = Some v -> Forall (fun p => plain p = true) (pv_protocols v).
Proof. induction 1 as [|[k v'] m Hv _ IH]; [done|]. cbn. by destruct (k =? port); [intros [= <-]|]. Qed.

Lemma client_candidates_ok port self : inspector_ok self -> Forall (fun p => plain p = true) (client_candidates port self).
Proof.
  intros [Hp _ _ _]. apply Forall_app. split; [|by repeat constructor]. destruct (PortMap_get _ _) as [v|] eqn:Hg; [|done].
  apply Forall_app. split; [destruct (_ && _); by repeat constructor|]. by eapply PortMap_get_ok.
Qed.

Lemma server_candidates_ok port self : inspector_ok self -> Forall (fun p => plain p = true) (server_candidates port self).
Proof.
  intros [Hp _ _ _]. apply Forall_app. split; [|by repeat constructor]. destruct (PortMap_get _ _) as [v|] eqn:Hg; [|done].
  by eapply PortMap_get_ok.
Qed.

Lemma after_set_current others b st p q : ps_current (after others b (set_current st p)) = Some q -> q = p.
Proof.
  destruct b; [|rewrite after_current; by intros [= ->]].
  change (after others true ?s) with (state_exclude_current (after others false s)).
  unfold state_exclude_current. by rewrite after_current.
Qed.

(** [m] keeps the property [I] and does not panic. *)
Definition keeps {A} (I : ProtocolInspector -> Prop) (m : step A) : Prop :=
  forall self, I self -> match m self with (Panic, _) => False | (_, self') => I self' end.

Lemma keeps_bind {A B} I (m : step A) (k : A -> step B) : keeps I m -> (forall a, keeps I (k a)) -> keeps I (recv_bind m k).
Proof. intros Hm Hk self HI. unfold recv_bind. specialize (Hm self HI). destruct (m self) as [[a|e|] s]; [by apply Hk|done..]. Qed.

Section Safe.

Context (data : bytes) (check : MaybeProtocol -> inspect (option Protocol)) (Hcheck : sound_check check data).

Lemma check_protocol_keeps p : plain p = true -> keeps inspector_ok (check_protocol check p).
Proof using Hcheck.
  intros Hp self [H1 H2 H3 H4]. unfold check_protocol. destruct (Hcheck p Hp) as (r & o & b & [Hnp Hn _ _] & Hc). rewrite Hc.
  destruct (excluded (pi_state self) p); cbv beta iota zeta; [by split|].
  assert (forall q, ps_current (after o b (set_current (pi_state self) p)) = Some q -> plain q = true) as Hq.
  { by intros q ->%after_set_current. }
  destruct r as [[q|]|[n]|]; [by split|by split| |done]. split; try done. cbn. apply Forall_app. split; [done|].
  repeat constructor; [done|]. by apply (Hn n).
Qed.

Lemma check_each_keeps ps : Forall (fun p => plain p = true) ps -> keeps inspector_ok (check_each check ps).
Proof using Hcheck.
  induction 1 as [|p ps Hp _ IH]; [by intros self|]. cbn. apply keeps_bind; [by apply check_protocol_keeps|done].
Qed.

Lemma check_next_keeps ps : Forall (fun p => plain p = true) ps -> keeps inspector_ok (check_next check ps).
Proof using Hcheck.
  induction 1 as [|p ps Hp Hps IH]; intros self [H1 H2 H3 H4]; cbn [check_next]; [by split|].
  apply keeps_bind; [by apply check_protocol_keeps|done|by split].
Qed.

Lemma phases_keeps candidates :
  (forall self, inspector_ok self -> Forall (fun p => plain p = true) (candidates self)) ->
  keeps inspector_ok (phases check candidates).
Proof using Hcheck.
  intros Hcand. apply keeps_bind.
  - intros self [H1 H2 H3 H4]. unfold check_taken, take_current. cbn [fst snd].
    destruct (ps_current (pi_state self)) as [p|] eqn:Hc; [apply check_protocol_keeps; [by apply H2|]|]; by split.
  - intros _. apply keeps_bind; [intros self Hs; by apply check_next_keeps; [apply Hs|]|]. intros _ self Hs.
    destruct (pi_guess_protocols self); [|done]. apply keeps_bind; [by apply check_each_keeps, Hcand| |done].
    intros _ s [H1 H2 H3 H4]. by split.
Qed.

Lemma pending_rest_ok pending n next m next' :
  Forall (fun v => plain (rp_protocol v) = true /\ 1 <= rp_size v) pending -> 1 <= n -> Forall (fun p => plain p = true) next ->
  pending_rest pending n next = (m, next') -> 1 <= m /\ Forall (fun p => plain p = true) next'.
Proof using.
  intros Hp. revert n next. induction Hp as [|v pending [Hv Hs] _ IH]; intros n next Hn Hnext; cbn [pending_rest]; [by intros [= <- <-]|].
  apply IH; [by destruct (_ <? _)|by constructor].
Qed.

Lemma finish_check_ok candidates self :
  (forall self, inspector_ok self -> Forall (fun p => plain p = true) (candidates self)) -> inspector_ok self ->
  match finish_check (phases check candidates self) with
  | (Panic, _) => False
  | (Err (NeedMoreData n), self') => 1 <= n /\ inspector_ok self'
  | (Ok _, self') => inspector_ok self'
  end.
Proof using Hcheck.
  intros Hc Hs. pose proof (phases_keeps candidates Hc self Hs) as Hk. unfold finish_check.
  destruct (phases check candidates self) as [[a|p|] s]; [|done..]. unfold recv_bind, handle_read_pending.
  destruct Hk as [H1 H2 H3 H4]. destruct (pi_read_pending_set s) as [|v pending] eqn:Hp; [split; rewrite ?Hp; done|].
  apply Forall_cons in H4 as [[Hv Hn] H4]. cbn [set_state pi_next_check_protocol].
  destruct (pending_rest pending (rp_size v) (pi_next_check_protocol s)) as [m next] eqn:Hr.
  destruct (pending_rest_ok _ _ _ _ _ H4 Hn H3 Hr). split; [done|]. split; try done. by intros q [= <-].
Qed.

End Safe.

(** The loops end, and lose nothing of what was read. *)
Lemma inspect_loop_ok spare size fuel check full closed failed inspector buf rd :
  (forall n, 0 < spare n) -> well_behaved rd -> full <> Panic -> inspector_ok inspector ->
  (length (stream_of rd) < fuel)%nat ->
  (forall data self, len data <= len buf + len (stream_of rd) -> inspector_ok self ->
     match check data self with
     | (Panic, _) => False
     | (Err (NeedMoreData n), self') => 1 <= n /\ inspector_ok self'
     | (Ok _, self') => inspector_ok self'
     end) ->
  exists r inspector' buf' rd', inspect_loop spare size fuel check full closed failed inspector buf rd = (r, (inspector', buf', rd')) /\
    r <> Panic /\ inspector_ok inspector' /\ well_behaved rd' /\ buf' ++ stream_of rd' = buf ++ stream_of rd.
Proof.
  intros Hspare. revert inspector buf rd. induction fuel as [|fuel IH]; intros inspector buf rd Hw Hfull Hok Hf Hcheck; [lia|].
  cbn [inspect_loop]. pose proof (Hcheck buf inspector ltac:(len_lia) Hok) as Hc.
  destruct (check buf inspector) as [[p|[n]|] inspector1]; [by exists (Ok p), inspector1, buf, rd| |done]. destruct Hc as [_ Hc].
  destruct (size <=? len buf); [by exists full, inspector1, buf, rd|].
  destruct (read_await_spec rd (spare (len buf)) Hw (Hspare _)) as (c & rd1 & Hr & Hs & _ & Hw1 & _). rewrite Hr.
  destruct (Z.eqb_spec (len c) 0) as [Hz|Hz].
  { apply len_0 in Hz as ->. exists (Err closed), inspector1, buf, rd1. split_and!; try done. by rewrite <- Hs. }
  rewrite <- Hs in Hf, Hcheck. rewrite length_app in Hf.
  destruct (IH inspector1 (buf ++ c) rd1) as (r & i' & b' & rd' & E & Hnp & Hi & Hw' & Hcat); try done.
  - destruct c; [done|]. cbn in Hf. lia.
  - intros data self Hl. apply Hcheck. revert Hl. len_lia.
  - exists r, i', b', rd'. split_and!; try done. by rewrite Hcat, <- Hs, app_assoc.
Qed.

(** ** Recognition *)

Lemma as_usize_inj p q : MaybeProtocol_as_usize p = MaybeProtocol_as_usize q -> p = q.
Proof. by destruct p, q. Qed.

Lemma excluded_setbit st p q :
  Z.testbit (Z.setbit (ps_excluded st) (MaybeProtocol_as_usize p)) (MaybeProtocol_as_usize q) = excluded st q || bool_decide (p = q).
Proof.
  unfold excluded. case_bool_decide as E.
  - subst. rewrite Z.setbit_eq by (by destruct q). by rewrite orb_true_r.
  - rewrite Z.setbit_neq; [by rewrite orb_false_r|by destruct p|]. by intros H%as_usize_inj.
Qed.

Lemma excluded_others others st q :
  excluded (fold_left state_exclude_other others st) q = excluded st q || bool_decide (q ∈ others).
Proof.
  revert st. induction others as [|p others IH]; intros st.
  - cbn. rewrite bool_decide_eq_false_2 by apply not_elem_of_nil. by rewrite orb_false_r.
  - cbn [fold_left]. rewrite IH. unfold excluded at 1. cbn [state_exclude_other ps_excluded]. rewrite excluded_setbit, <- orb_assoc.
    f_equal. rewrite (bool_decide_ext (q ∈ p :: others) (p = q \/ q ∈ others)), bool_decide_or; [done|].
    rewrite elem_of_cons. split; intros [E|E]; auto.
Qed.

Lemma excluded_after others b st p q :
  excluded (after others b (set_current st p)) q = excluded st q || bool_decide (q ∈ others) || (b && bool_decide (p = q)).
Proof.
  destruct b; [|rewrite orb_false_r; exact (excluded_others others (set_current st p) q)].
  change (after others true ?s) with (state_exclude_current (after others false s)). unfold state_exclude_current.
  rewrite after_current. cbn [set_current ps_current andb]. unfold excluded at 1. cbn [ps_excluded]. rewrite excluded_setbit.
  f_equal. exact (excluded_others others (set_current st p) q).
Qed.

Lemma excluded_default p : excluded InspectState_default p = false.
Proof. by destruct p. Qed.

Section Recognised.

(** A stream [s] of one protocol [P]: no other protocol begins as it does, and
    the check of [P] on a part of it finds [q] or asks for more. *)
Context (s : bytes) (P : MaybeProtocol) (q : Protocol).
Context (check : bytes -> MaybeProtocol -> inspect (option Protocol)).
Context (HP : plain P = true) (Hconfused : forall p, confused p P = false).
Context (Hsound : forall d more, d ++ more = s -> sound_check (check d) d).
Context (Hhead : head_ok P s = true) (Hother : forall p, plain p = true -> p <> P -> head_ok p s = false).

Definition found (d : bytes) : Prop := (check d P InspectState_default).1 = Ok (Some q).

Context (Htarget : forall d more, d ++ more = s ->
  found d \/ exists n, (check d P InspectState_default).1 = Err (NeedMoreData n)).

Definition seen (self : ProtocolInspector) : Prop := P ∈ map rp_protocol (pi_read_pending_set self).

Definition open (d : bytes) (self : ProtocolInspector) : Prop :=
  inspector_ok self /\ excluded (pi_state self) P = false /\ (seen self -> ~ found d).

(** [m] finds nothing but [q]; and when [C] holds, [P] waits for more. *)
Definition tracks (d : bytes) (C : ProtocolInspector -> Prop) (m : step unit) : Prop :=
  forall self, open d self ->
    match m self with
    | (Err q', _) => q' = q
    | (Ok _, self') =>
        open d self' /\ (seen self \/ C self -> seen self') /\
        pi_next_check_protocol self' = pi_next_check_protocol self /\ pi_guess_protocols self' = pi_guess_protocols self
    | (Panic, _) => False
    end.

Lemma check_protocol_tracks d more p :
  d ++ more = s -> plain p = true -> tracks d (fun _ => p = P) (check_protocol (check d) p).
Proof using All.
  intros Hd Hp self (Hok & Hex & Hseen). pose proof (check_protocol_keeps d (check d) (Hsound d more Hd) p Hp self Hok) as Hk.
  destruct (Hsound d more Hd p Hp) as (r & o & b & [Hnp Hn Ha Ho] & Hc).
  unfold check_protocol in *. rewrite Hc in *. destruct (excluded (pi_state self) p) eqn:Hexp; cbv beta iota zeta in *.
  { split_and!; try done. intros [H|H]; [done|congruence]. }
  assert (p = P -> (check d P InspectState_default).1 = r) as Hr by (intros <-; by rewrite Hc, excluded_default).
  assert (forall q', r = Ok (Some q') -> p = P) as Hacc.
  { intros q' E. destruct (decide (p = P)) as [|Hne]; [done|]. specialize (Ha q' E). apply (head_ok_app p d more) in Ha.
    rewrite Hd, (Hother p) in Ha; done. }
  assert ((exists q', r = Ok (Some q')) \/ P ∉ o) as Ho'.
  { destruct Ho as [Ho|Ho]; [by left|right]. intros HPo. rewrite Forall_forall in Ho. destruct (Ho P HPo) as [Hcf|Hno].
    - by rewrite Hconfused in Hcf.
    - specialize (Hno more). by rewrite Hd, Hhead in Hno. }
  destruct r as [[q'|]|[n]|]; [| | |done].
  - specialize (Hacc q' eq_refl). specialize (Hr Hacc). destruct (Htarget d more Hd) as [Hf|[m Hf]]; unfold found in *; congruence.
  - destruct Ho' as [[q' ?]|Ho']; [done|]. assert (p <> P) as Hpne.
    { intros E. specialize (Hr E). destruct (Htarget d more Hd) as [Hf|[m Hf]]; unfold found in *; congruence. }
    split_and!; try done; [split_and!; try done|by intros [H|H]].
    cbn [set_state pi_state]. rewrite excluded_after, Hex, !bool_decide_eq_false_2 by done. by destruct b.
  - destruct Ho' as [[q' ?]|Ho']; [done|]. destruct (Hn n eq_refl) as [_ ->]. split_and!; try done; [split_and!; try done| ].
    + cbn [set_state set_pending pi_state]. by rewrite excluded_after, Hex, bool_decide_eq_false_2.
    + unfold seen. cbn. rewrite map_app, elem_of_app. intros [H|H]; [by apply Hseen|].
      apply list_elem_of_singleton in H. cbn in H. unfold found. rewrite Hr by done. done.
    + unfold seen. cbn. rewrite map_app, elem_of_app. intros [H|H]; [by left|right]. subst p. by left.
Qed.

Lemma tracks_weaken d (C C' : ProtocolInspector -> Prop) m :
  tracks d C m -> (forall self, C' self -> C self) -> tracks d C' m.
Proof using.
  intros Hm HC self Ho. specialize (Hm self Ho). destruct (m self) as [[a|e|] self']; [|done..].
  destruct Hm as (? & H & ? & ?). split_and!; try done. intros [?|?]; apply H; auto.
Qed.

Lemma check_each_tracks d more ps :
  d ++ more = s -> Forall (fun p => plain p = true) ps -> tracks d (fun _ => P ∈ ps) (check_each (check d) ps).
Proof using All.
  intros Hd. induction 1 as [|p ps Hp _ IH]; intros self Ho; cbn [check_each].
  - split_and!; try done. intros [H|H]; [done|]. by apply elem_of_nil in H.
  - unfold recv_bind. pose proof (check_protocol_tracks d more p Hd Hp self Ho) as Hc.
    destruct (check_protocol (check d) p self) as [[a|e|] self1]; [|done..]. destruct Hc as (Ho1 & Hs1 & Hn1 & Hg1).
    specialize (IH self1 Ho1). destruct (check_each (check d) ps self1) as [[a2|e2|] self2]; [|done..].
    destruct IH as (Ho2 & Hs2 & Hn2 & Hg2). split_and!; try done; [|congruence..].
    rewrite elem_of_cons. intros [H|[H|H]]; apply Hs2; auto.
Qed.

(** The queue is emptied. *)
Lemma check_next_tracks d more ps self :
  d ++ more = s -> Forall (fun p => plain p = true) ps -> open d self ->
  match check_next (check d) ps self with
  | (Err q', _) => q' = q
  | (Ok _, self') =>
      open d self' /\ (seen self \/ P ∈ ps -> seen self') /\ pi_next_check_protocol self' = [] /\
      pi_guess_protocols self' = pi_guess_protocols self
  | (Panic, _) => False
  end.
Proof using All.
  intros Hd Hps. revert self. induction Hps as [|p ps Hp Hps IH]; intros self ([H1 H2 H3 H4] & Hex & Hseen); cbn [check_next].
  - split_and!; try done. intros [H|H]; [done|]. by apply elem_of_nil in H.
  - unfold recv_bind. assert (open d (set_next self ps)) as Ho by (split_and!; try done; by split).
    pose proof (check_protocol_tracks d more p Hd Hp _ Ho) as Hc.
    destruct (check_protocol (check d) p _) as [[a|e|] self1]; [|done..]. destruct Hc as (Ho1 & Hs1 & Hn1 & Hg1).
    specialize (IH self1 Ho1). destruct (check_next (check d) ps self1) as [[a2|e2|] self2]; [|done..].
    destruct IH as (Ho2 & Hs2 & Hn2 & Hg2). split_and!; try done; [|by rewrite Hg2, Hg1].
    rewrite elem_of_cons. intros [H|[H|H]]; apply Hs2; auto.
Qed.

(** [P] is going to be checked. *)
Definition due (self : ProtocolInspector) : Prop :=
  ps_current (pi_state self) = Some P \/ P ∈ pi_next_check_protocol self \/ pi_guess_protocols self = true.

Context (candidates : ProtocolInspector -> list MaybeProtocol).
Context (Hcandidates : forall self, inspector_ok self -> Forall (fun p => plain p = true) (candidates self) /\ P ∈ candidates self).

Lemma check_taken_tracks d more :
  d ++ more = s -> tracks d (fun self => ps_current (pi_state self) = Some P) (check_taken (check d)).
Proof using All.
  intros Hd self ([H1 H2 H3 H4] & Hex & Hseen). unfold check_taken, take_current.
  set (self0 := set_state self _). assert (open d self0) as Ho by (split_and!; try done; by split).
  destruct (ps_current (pi_state self)) as [p|] eqn:Hc.
  - pose proof (check_protocol_tracks d more p Hd (H2 p eq_refl) self0 Ho) as Ht.
    destruct (check_protocol (check d) p self0) as [[a|e|] self1]; [|done..]. destruct Ht as (Ho1 & Hs1 & Hn1 & Hg1).
    split_and!; try done. intros [H|[= H]]; apply Hs1; auto.
  - split_and!; try done; try apply Ho. intros [H|H]; done.
Qed.

Lemma phases_track d more self :
  d ++ more = s -> open d self -> due self ->
  match phases (check d) candidates self with
  | (Err q', _) => q' = q
  | (Ok _, self') => open d self' /\ seen self' /\ pi_next_check_protocol self' = []
  | (Panic, _) => False
  end.
Proof using All.
  intros Hd Ho Hdue. unfold phases, recv_bind. pose proof (check_taken_tracks d more Hd self Ho) as H1.
  destruct (check_taken (check d) self) as [[a1|e1|] self1]; [|done..]. destruct H1 as (Ho1 & Hs1 & Hn1 & Hg1).
  pose proof (check_next_tracks d more _ self1 Hd (io_next _ (proj1 Ho1)) Ho1) as H2.
  destruct (check_next (check d) _ self1) as [[a2|e2|] self2]; [|done..]. destruct H2 as (Ho2 & Hs2 & Hn2 & Hg2).
  destruct (pi_guess_protocols self2) eqn:Hg.
  - destruct (Hcandidates self2 (proj1 Ho2)) as [Hpl HPin]. pose proof (check_each_tracks d more _ Hd Hpl self2 Ho2) as H3.
    destruct (check_each (check d) (candidates self2) self2) as [[a3|e3|] self3]; [|done..].
    destruct H3 as (([G1 G2 G3 G4] & Hex3 & Hse3) & Hs3 & Hn3 & Hg3). split_and!; try done; [apply Hs3; auto|].
    cbn. by rewrite Hn3.
  - split_and!; try done; try apply Ho2. apply Hs2. destruct Hdue as [H|[H|H]]; [left; apply Hs1; auto|right; by rewrite Hn1|].
    congruence.
Qed.

Lemma pending_rest_next pending n next : (pending_rest pending n next).2 = rev (map rp_protocol pending) ++ next.
Proof using.
  revert n next. induction pending as [|v pending IH]; intros n next; [done|]. cbn. rewrite IH, <- app_assoc. done.
Qed.

(** One call: the protocol is found, or [P] stays open. *)
Lemma call_recognises d more self :
  d ++ more = s -> open d self -> due self -> pi_read_pending_set self = [] ->
  match finish_check (phases (check d) candidates self) with
  | (Ok q', _) => q' = q
  | (Err _, self') =>
      (forall d', open d' self') /\ due self' /\ pi_read_pending_set self' = [] /\ ~ found d
  | (Panic, _) => False
  end.
Proof using All.
  intros Hd Ho Hdue Hp.
  pose proof (finish_check_ok d (check d) (Hsound d more Hd) candidates self (fun s H => proj1 (Hcandidates s H)) (proj1 Ho)) as Hfin.
  pose proof (phases_track d more self Hd Ho Hdue) as Ht. unfold finish_check in *.
  destruct (phases (check d) candidates self) as [[a|e|] self1]; [|done..]. destruct Ht as (Ho1 & Hs1 & Hn1).
  unfold recv_bind, handle_read_pending in *. unfold seen in Hs1.
  destruct (pi_read_pending_set self1) as [|v pending] eqn:Hpend; [by apply elem_of_nil in Hs1|].
  cbn [set_state pi_next_check_protocol] in *. rewrite Hn1 in *.
  pose proof (pending_rest_next pending (rp_size v) []) as Hnext. destruct (pending_rest pending (rp_size v) []) as [m next].
  cbn [snd] in Hnext. destruct Hfin as [_ Hfin]. destruct Ho1 as (_ & Hex & Hse). split_and!; try done.
  - intros d'. split_and!; [done|exact Hex|]. intros H. by apply elem_of_nil in H.
  - cbn [map] in Hs1. apply elem_of_cons in Hs1 as [H|H]; [left; cbn; by rewrite H|right; left]. cbn. rewrite Hnext, app_nil_r.
    rewrite list_elem_of_In, <- in_rev, <- list_elem_of_In. done.
  - apply Hse. unfold seen. by rewrite Hpend.
Qed.

Lemma loop_recognises spare size fuel full closed failed L check_all self buf rd :
  (forall n, 0 < spare n) -> well_behaved rd -> (length (stream_of rd) < fuel)%nat -> buf ++ stream_of rd = s ->
  (forall d self, check_all d self = finish_check (phases (check d) candidates self)) ->
  (forall d more, d ++ more = s -> L <= len d -> found d) -> L <= len s -> L <= size ->
  (forall d, open d self) -> due self -> pi_read_pending_set self = [] ->
  exists self' buf' rd', inspect_loop spare size fuel check_all full closed failed self buf rd = (Ok q, (self', buf', rd')) /\
    well_behaved rd' /\ buf' ++ stream_of rd' = s.
Proof using All.
  intros Hspare Hw Hf Hs Hall HL HLs HLsize. revert self buf rd Hw Hf Hs.
  induction fuel as [|fuel IH]; intros self buf rd Hw Hf Hs Ho Hdue Hp; [lia|]. cbn [inspect_loop]. rewrite Hall.
  pose proof (call_recognises buf (stream_of rd) self Hs (Ho buf) Hdue Hp) as Hc.
  destruct (finish_check _) as [[q'|[n]|] self1]; [subst; by exists self1, buf, rd| |done].
  destruct Hc as (Ho1 & Hdue1 & Hp1 & Hnf). destruct (Z.leb_spec size (len buf)); [destruct Hnf; eapply HL; [exact Hs|lia]|].
  destruct (read_await_spec rd (spare (len buf)) Hw (Hspare _)) as (c & rd1 & Hr & Hcat & _ & Hw1 & Hend). rewrite Hr.
  destruct (Z.eqb_spec (len c) 0) as [Hz|Hz].
  { apply len_0 in Hz. rewrite (Hend Hz), app_nil_r in Hs. subst buf. destruct Hnf. apply (HL s []); [apply app_nil_r|done]. }
  apply (IH self1 (buf ++ c) rd1); try done.
  - rewrite <- Hcat, length_app in Hf. destruct c; [done|]. cbn in Hf. lia.
  - by rewrite <- app_assoc, Hcat.
Qed.

End Recognised.
