(* ===== verification/Inspection.v ===== *)
(** * What protocol inspection recognises

    The properties of the inspector of [Inspector]: TLS and HTTP connections are
    recognised in whatever parts their data comes and whatever else the port
    suggests, the checks exclude nothing that is possible, and whatever comes
    the inspection ends without a panic; and the data where it goes wrong. *)

From Stdlib Require Import ZArith Lia Strings.Byte.
From stdpp Require Import base list.
From S2P Require Import Prelude Reader ReadExt Domain IpAddr Host TlsExtension Tls TlsAccept Inspect InspectSpec Inspector.

#[local] Open Scope recv_scope.

(** ** TLS *)

(** A check that finds [q] as soon as it has [bound] bytes. *)
Definition seeks (q : Protocol) (d : bytes) (bound : Z) (r : res ProtocolInspectError (option Protocol))
    (others : list MaybeProtocol) (gave_up : bool) : Prop :=
  match r with
  | Ok (Some q') => q' = q
  | Ok None => False
  | Err (NeedMoreData _) => len d < bound
  | Panic => False
  end.

Lemma seeks_exclude p q d bound ps (k : unit -> inspect (option Protocol)) :
  inspects p (k tt) (seeks q d bound) -> inspects p (recv_bind (exclude_others ps) k) (seeks q d bound).
Proof. intros Hk. apply inspects_bind. exists (Ok tt), ps, false. split; [|exact Hk]. intros st _. apply exclude_others_eq. Qed.

(** The rules for data whose first bytes are known. *)
Lemma inspects_byte {B} p (d : bytes) i b (k : byte -> inspect B) Q :
  0 <= i -> d !! Z.to_nat i = Some b -> inspects p (k b) Q -> inspects p (recv_bind (at_ d i) k) Q.
Proof.
  intros Hi Hb Hk. eapply inspects_lift_bind; [|exact Hk]. unfold index. by rewrite (proj2 (Z.leb_le 0 i)), Hb by lia.
Qed.

Lemma legacy_version_ok v f : record_ok v f -> exists q, check_legacy_version (rv_major v) (rv_minor v) = Some q.
Proof.
  intros [Hv _]. destruct v as [a b]. cbn in *. destruct a; try done; destruct b; try done; eexists; reflexivity.
Qed.

Lemma fragment_len_ok a b (f : bytes) : [a; b] = to_be 2 (len f) -> 1 <= len f <= 2 ^ 14 -> check_fragment_len a b = Some (len f).
Proof.
  intros E Hf. unfold check_fragment_len. rewrite E, from_be_to_be. change (256 ^ Z.of_nat 2) with 65536.
  rewrite Z.mod_small by lia. change (Z.shiftl 1 14) with (2 ^ 14). destruct (Z.eqb_spec (len f) 0); [lia|].
  destruct (Z.ltb_spec (2 ^ 14) (len f)); [lia|done].
Qed.

Lemma record_major_not_zero v f : record_ok v f -> rv_major v <> x00.
Proof. intros [Hv _] E. unfold version_supported in Hv. by rewrite E in Hv. Qed.

Lemma record_len_not_zero v f : record_ok v f -> to_be 2 (len f) <> [x00; x00].
Proof.
  intros [_ Hf] E. apply (f_equal from_be) in E. rewrite from_be_to_be in E. change (256 ^ Z.of_nat 2) with 65536 in E.
  rewrite Z.mod_small in E by lia. change (from_be [x00; x00]) with 0 in E. lia.
Qed.

(** The header of a record at the beginning of the data. *)
Lemma record_prefix left more v f tail :
  left ++ more = record_bytes v x16 f ++ tail -> 5 <= len left ->
  exists a b left', [a; b] = to_be 2 (len f) /\ left = x16 :: rv_major v :: rv_minor v :: a :: b :: left' /\ left' ++ more = f ++ tail.
Proof.
  intros E Hl. destruct left as [|b0 [|b1 [|b2 [|b3 [|b4 left']]]]]; try (exfalso; revert Hl; unfold len; cbn; lia).
  unfold record_bytes in E. cbn [to_be app] in E. injection E as -> -> -> H3 H4 E. exists b3, b4, left'.
  split_and!; [by rewrite H3, H4|done|done].
Qed.

(** One more part of a message is copied into its header. *)
Lemma header_filled (msg f tail rest left more : bytes) nw c :
  0 <= nw -> 0 <= c -> c <= len f -> c <= len left -> nw + c <= 6 -> 6 <= len msg -> left ++ more = f ++ rest ->
  f ++ tail = drop (Z.to_nat nw) msg ->
  let hdr := take (Z.to_nat nw) msg ++ replicate (Z.to_nat (6 - nw)) x00 in
  take (Z.to_nat nw) hdr ++ take (Z.to_nat c) left ++ drop (Z.to_nat (nw + c)) hdr =
    take (Z.to_nat (nw + c)) msg ++ replicate (Z.to_nat (6 - (nw + c))) x00.
Proof.
  intros Hnw Hc Hcf Hcl H6 Hm Hl Hf hdr. unfold hdr, len in *.
  assert (length (take (Z.to_nat nw) msg) = Z.to_nat nw) as Ht by (rewrite length_take; lia).
  rewrite take_app_length' by lia. rewrite app_assoc. f_equal.
  - rewrite <- (take_app_le left more), Hl, take_app_le by lia. rewrite <- (take_app_le f tail), Hf by lia.
    rewrite take_take_drop. f_equal. lia.
  - rewrite drop_app_ge, Ht, drop_replicate by lia. f_equal. lia.
Qed.

Section Hello.

(** A client hello [msg] in the records [rs]. *)
Context (msg rest : bytes) (q : Protocol) (l1 l2 l3 v0 v1 : byte) (body : bytes).
Context (Hmsg : msg = x01 :: l1 :: l2 :: l3 :: v0 :: v1 :: body).
Context (Hlen : from_be [x00; l1; l2; l3] + 4 = len msg) (Hq : hello_protocol v0 v1 = Some q).

Lemma full_header_finds d bound fragment_len buf tail :
  buf = x01 :: l1 :: l2 :: l3 :: v0 :: v1 :: tail -> fragment_len <= len msg ->
  inspects May_Ssl (check_ssl_client_hello_full_handshake_header fragment_len buf) (seeks q d bound).
Proof using Hlen Hq.
  intros -> Hf. unfold check_ssl_client_hello_full_handshake_header.
  eapply inspects_byte; [done|reflexivity|]. cbn [negb]. change (same x01 x01) with true. cbv iota.
  do 3 (eapply inspects_byte; [done|reflexivity|]). unfold SSL_HANDSHAKE_HDR_LEN.
  rewrite Hlen, (proj2 (Z.ltb_ge _ _)) by done. do 2 (eapply inspects_byte; [done|reflexivity|]).
  rewrite Hq. by apply inspects_ret.
Qed.

Lemma take_msg_6 : take 6 msg = [x01; l1; l2; l3; v0; v1].
Proof using Hmsg. by rewrite Hmsg. Qed.

(** The loop over the records that hold the first six bytes: [k] records have
    been passed, with [nw] bytes of the message. *)
Lemma ssl_loop_finds fuel d more fragment_len offset nw k rs msg_hdr :
  d ++ more = take (Z.to_nat offset) (d ++ more) ++ wire rs ++ rest -> records_ok rs ->
  concat (map snd rs) = drop (Z.to_nat nw) msg -> msg_hdr = take (Z.to_nat nw) msg ++ replicate (Z.to_nat (6 - nw)) x00 ->
  0 <= k <= nw -> nw < 6 -> offset = 5 * k + nw -> offset <= len d -> fragment_len <= len msg -> 6 - nw <= Z.of_nat fuel ->
  inspects May_Ssl (ssl_hello_loop fuel d fragment_len offset nw msg_hdr) (seeks q d 36).
Proof using Hmsg Hlen Hq.
  revert offset nw k rs msg_hdr. induction fuel as [|fuel IH]; intros offset nw k rs msg_hdr Hd Hrs Hcat Hhdr Hk Hnw Ho Hl Hf Hfuel; [lia|].
  assert (6 <= len msg) as Hm6 by (rewrite Hmsg; len_lia).
  assert (len msg_hdr = 6) as Hh6 by (rewrite Hhdr, len_app, len_take, len_replicate; lia).
  destruct rs as [|[v f] rs]; [exfalso; apply (f_equal len) in Hcat; rewrite len_drop in Hcat; revert Hcat; cbn; len_lia|].
  apply Forall_cons in Hrs as [Hvf Hrs]. cbn [fst snd] in Hvf. cbn [map concat snd] in Hcat.
  cbn [ssl_hello_loop]. apply inspects_from; [len_lia|]. intros left ->. 
  assert (drop (Z.to_nat offset) d ++ more = record_bytes v x16 f ++ wire rs ++ rest) as Hleft.
  { rewrite <- drop_app_le by (unfold len in Hl; lia). rewrite Hd at 1. rewrite drop_app_length' by (rewrite length_take, length_app; unfold len in Hl; lia).
    unfold wire. cbn [map concat fst snd]. by rewrite <- app_assoc. }
  assert (len (drop (Z.to_nat offset) d) = len d - offset) as Hdl by (rewrite len_drop; lia).
  destruct (Z.eqb_spec (len (drop (Z.to_nat offset) d)) 0); [apply inspects_need; cbn; lia|].
  apply inspects_bind. unfold fill_ssl_client_hello_handshake_header, SSL_HDR_LEN. cbv zeta.
  destruct (Z.ltb_spec (len (drop (Z.to_nat offset) d)) 5); [apply inspects_need; cbn; lia|].
  destruct (record_prefix _ _ _ _ _ Hleft ltac:(lia)) as (a & b & left' & Hab & Eleft & Hleft'). rewrite Eleft in *.
  destruct (legacy_version_ok v f Hvf) as [vp Hvp]. destruct Hvf as [_ Hfl]. cbn [snd] in Hfl.
  eapply inspects_byte; [done|reflexivity|]. change (same x16 x16) with true. cbn [negb].
  do 2 (eapply inspects_byte; [done|reflexivity|]). rewrite Hvp. do 2 (eapply inspects_byte; [done|reflexivity|]).
  rewrite (fragment_len_ok a b f Hab Hfl), Hh6. set (c := Z.min (len f) (6 - nw)).
  rewrite !len_cons in *. destruct (Z.ltb_spec (1 + (1 + (1 + (1 + (1 + len left'))))) (5 + c)); [apply inspects_need; cbn; lia|].
  apply inspects_from; [len_lia|]. intros left ->. change (drop (Z.to_nat 5) (x16 :: rv_major v :: rv_minor v :: a :: b :: left')) with left'.
  eapply inspects_lift_bind; [apply copy_ok; lia|]. apply inspects_ret. cbv beta iota.
  assert (take (Z.to_nat nw) msg_hdr ++ take (Z.to_nat c) left' ++ drop (Z.to_nat (nw + c)) msg_hdr =
    take (Z.to_nat (nw + c)) msg ++ replicate (Z.to_nat (6 - (nw + c))) x00) as ->.
  { subst msg_hdr. apply (header_filled msg f (concat (map snd rs)) (wire rs ++ rest) left' more); try done; lia. }
  rewrite len_app, len_take, len_replicate. change (fun r' o' b' => seeks q d 36 r' ([] ++ o') b') with (seeks q d 36).
  destruct (Z.leb_spec (Z.min (Z.of_nat (Z.to_nat (nw + c))) (len msg) + Z.of_nat (Z.to_nat (6 - (nw + c)))) (nw + c)).
  - apply (full_header_finds _ _ _ _ []); [|done]. replace (nw + c) with 6 by lia. by rewrite (take_msg_6 : take (Z.to_nat 6) msg = _).
  - assert (c = len f) as Hc by lia. apply (IH _ (nw + c) (k + 1) rs); try done; try lia.
    + rewrite <- (take_drop (Z.to_nat (offset + (5 + c))) (d ++ more)) at 1. f_equal.
      rewrite drop_app_le by (unfold len in *; lia). replace (Z.to_nat (offset + (5 + c))) with (Z.to_nat offset + Z.to_nat (5 + c))%nat by lia.
      rewrite <- drop_drop, Eleft. rewrite <- drop_app_le by (unfold len in *; cbn [length]; lia). rewrite Hleft.
      apply drop_app_length'. pose proof (len_record_bytes v x16 f). unfold len, RecordHeader_SIZE in *. lia.
    + rewrite Z2Nat.inj_add, <- drop_drop, <- Hcat by lia. symmetry. apply drop_app_length'. unfold len in *. lia.
Qed.

Lemma ssl_finds d more rs :
  d ++ more = wire rs ++ rest -> records_ok rs -> concat (map snd rs) = msg ->
  inspects May_Ssl (check_ssl_client_hello d) (seeks q d 36).
Proof using Hmsg Hlen Hq.
  intros Hd Hrs Hcat. assert (6 <= len msg) as Hm6 by (rewrite Hmsg; len_lia).
  destruct rs as [|[v f] rs]; [exfalso; subst msg; discriminate|]. cbn [map concat snd] in Hcat.
  apply Forall_cons in Hrs as [Hvf Hrs]. cbn [fst snd] in Hvf.
  assert (d ++ more = record_bytes v x16 f ++ wire rs ++ rest) as Hd' by (rewrite Hd; unfold wire; cbn [map concat fst snd]; by rewrite <- app_assoc).
  unfold check_ssl_client_hello, SSL_HDR_LEN, SSL_HANDSHAKE_HDR_LEN, SSL_HANDSHAKE_VERSION_LEN. cbv zeta.
  destruct (Z.ltb_spec (len d) 5); [apply inspects_need; cbn; lia|].
  destruct (record_prefix _ _ _ _ _ Hd' ltac:(lia)) as (a & b & d' & Hab & -> & Hd1).
  destruct (legacy_version_ok v f Hvf) as [vp Hvp]. destruct Hvf as [_ Hfl]. cbn [snd] in Hfl.
  eapply inspects_byte; [done|reflexivity|]. change (same x16 x16) with true. cbn [negb].
  apply seeks_exclude. do 2 (eapply inspects_byte; [done|reflexivity|]). rewrite Hvp.
  do 2 (eapply inspects_byte; [done|reflexivity|]). rewrite (fragment_len_ok a b f Hab Hfl).
  destruct (Z.ltb_spec (len (x16 :: rv_major v :: rv_minor v :: a :: b :: d')) (5 + 4 + 2)) as [|H11]; [apply inspects_need; cbn; lia|].
  apply inspects_from; [len_lia|]. intros left ->. change (drop (Z.to_nat 5) (x16 :: rv_major v :: rv_minor v :: a :: b :: d')) with d'.
  rewrite !len_cons in H11. assert (len f <= len msg) as Hfm by (rewrite <- Hcat; len_lia).
  destruct (Z.leb_spec (4 + 2) (len f)) as [H6|H6].
  - apply (full_header_finds _ _ _ _ (drop 6 d')); [|done]. rewrite <- (take_drop 6 d') at 1.
    rewrite <- (take_app_le d' more), Hd1, take_app_le by (unfold len in *; lia).
    rewrite <- (take_app_le f (concat (map snd rs))), Hcat by (unfold len in *; lia). by rewrite take_msg_6.
  - eapply inspects_lift_bind; [apply copy_ok; rewrite ?len_replicate; lia|].
    pose proof (header_filled msg f (concat (map snd rs)) (wire rs ++ rest) d' more 0 (len f)) as Hh. cbv zeta in Hh.
    change (take (Z.to_nat 0) msg ++ replicate (Z.to_nat (6 - 0)) x00) with (replicate 6 x00) in Hh.
    rewrite Hh by (try done; lia). change (0 + len f) with (len f).
    apply (ssl_loop_finds _ _ more _ _ _ 1 rs); try done; try lia.
    + rewrite <- (take_drop (Z.to_nat (5 + len f)) (_ ++ more)) at 1. f_equal. rewrite Hd'. apply drop_app_length'.
      pose proof (len_record_bytes v x16 f). unfold len, RecordHeader_SIZE in *. lia.
    + rewrite <- Hcat. symmetry. apply drop_app_length'. unfold len. lia.
    + rewrite !len_cons. lia.
Qed.

(** No other protocol begins with a record of TLS; DNS messages have four zero
    bytes that no client hello has. *)
Lemma tls_head rs p :
  records_ok rs -> concat (map snd rs) = msg -> plain p = true -> p <> May_Ssl -> head_ok p (wire rs ++ rest) = false.
Proof using Hmsg Hlen Hq.
  intros Hrs Hcat Hp Hne. destruct rs as [|[v f] rs]; [exfalso; subst msg; discriminate|].
  unfold wire. cbn [map concat fst snd] in *. unfold record_bytes at 1. cbn [to_be app]. apply Forall_cons in Hrs as [[_ Hfl] Hrs].
  cbn [snd] in Hfl. destruct p; try done; try reflexivity. cbn [head_ok]. unfold same_bytes. apply bool_decide_eq_false.
  assert (v0 <> x00) as Hv0 by (intros ->; discriminate). cbn [app drop]. rewrite <- !app_assoc. subst msg. intros E.
  destruct f as [|f0 [|f1 [|f2 [|f3 [|f4 f]]]]]; [exfalso; unfold len in Hfl; cbn in Hfl; lia|..].
  1-4: destruct rs as [|[v' f'] rs]; [discriminate|]; apply Forall_cons in Hrs as [Hvf Hrs]; cbn [fst snd] in Hvf;
    cbn [map concat fst snd] in E; unfold record_bytes in E; cbn [to_be app drop take] in E; try discriminate E.
  - injection E as _ Ha Hb _. apply (record_len_not_zero v' f' Hvf). cbn [to_be]. by rewrite Ha, Hb.
  - injection E as Ha _. by apply (record_major_not_zero v' f' Hvf).
  - cbn in Hcat. injection Hcat as _ _ _ _ Hcat. subst. cbn in E. by injection E.
Qed.

End Hello.

(** ** Recognition *)

(** An inspector that has not looked at the connection yet. *)
Record fresh (self : ProtocolInspector) : Prop := {
  fr_ok : inspector_ok self;
  fr_excluded : ps_excluded (pi_state self) = 0;
  fr_pending : pi_read_pending_set self = [];
  fr_guess : pi_guess_protocols self = true
}.

Lemma fresh_new ports : ports_ok ports -> fresh (Inspector_new ports).
Proof. by split. Qed.

Lemma fresh_open P q check d self : fresh self -> open P q check d self.
Proof.
  intros [Hok Hex Hp _]. split_and!; [done|unfold excluded; rewrite Hex; by destruct P|].
  unfold seen. rewrite Hp. intros H. by apply elem_of_nil in H.
Qed.

(** A stream that one of the guessed protocols finds is recognised. *)
Lemma client_recognised limits spare size port s P q bound full closed failed self buf rd :
  limits_ok limits -> (forall n, 0 < spare n) -> well_behaved rd -> fresh self -> buf ++ stream_of rd = s -> len s <= isize_max ->
  P ∈ GUESS_PROTOCOL_FOR_CLIENT_INITIAL_DATA -> (forall p, confused p P = false) ->
  head_ok P s = true -> (forall p, plain p = true -> p <> P -> head_ok p s = false) ->
  (forall d more, d ++ more = s -> exists m, inspects P m (seeks q d bound) /\
     forall st, excluded st P = false -> check_client_initial_data_for_protocol P d limits st = m (set_current st P)) ->
  bound <= len s -> bound <= size ->
  exists self' buf' rd',
    inspect_loop spare size (S (length (stream_of rd))) (check_client_initial_data limits port) full closed failed self buf rd =
      (Ok q, (self', buf', rd')) /\ well_behaved rd' /\ buf' ++ stream_of rd' = s.
Proof.
  intros Hlim Hspare Hw Hfr Hs Hmax HP Hconf Hhead Hother Hseeks HL Hsize.
  set (check := fun d p => check_client_initial_data_for_protocol p d limits).
  assert (plain P = true) as Hplain by (repeat (apply elem_of_cons in HP as [->|HP]; [done|]); by apply elem_of_nil in HP).
  assert (forall d more, d ++ more = s -> seeks q d bound (check d P InspectState_default).1 [] false) as Hres.
  { intros d more Hd. destruct (Hseeks d more Hd) as (m & (r & o & b & Hm & Hr) & Hc). unfold check.
    rewrite Hc, Hm by (done || apply excluded_default). exact Hr. }
  apply (loop_recognises s P q check) with (L := bound) (candidates := client_candidates port); try done; try lia.
  - intros d more Hd. apply client_check_sound; [done|]. subst s. rewrite <- Hd, len_app in Hmax. len_lia.
  - intros d more Hd. specialize (Hres d more Hd). unfold found. destruct (check d P InspectState_default).1 as [[q'|]|[n]|]; cbn in Hres; [left|done|right|done].
    + by subst.
    + eauto.
  - intros self0 H0. split; [by apply client_candidates_ok|]. apply elem_of_app. by right.
  - intros d self0. apply client_phases.
  - intros d more Hd Hl. specialize (Hres d more Hd). unfold found. destruct (check d P InspectState_default).1 as [[q'|]|[n]|]; cbn in Hres; [by subst|done|lia|done].
  - intros d. by apply fresh_open.
  - right. right. apply Hfr.
  - apply Hfr.
Qed.

(** What is needed of a client hello in records. *)
Record hello_stream (rs : list (RawVersion * bytes)) (h : hello) (q : Protocol) : Prop := {
  hs_records : records_ok rs;
  hs_hello : hello_ok h;
  hs_len : len (hello_bytes h) < 2 ^ 24;
  hs_cat : concat (map snd rs) = x01 :: to_be 3 (len (hello_bytes h)) ++ hello_bytes h;
  hs_version : hello_protocol (rv_major (h_version h)) (rv_minor (h_version h)) = Some q
}.

Lemma tls_recognised limits spare size port rs rest h q full closed failed self buf rd :
  limits_ok limits -> (forall n, 0 < spare n) -> 36 <= size -> well_behaved rd -> fresh self -> hello_stream rs h q ->
  buf ++ stream_of rd = wire rs ++ rest -> len (wire rs ++ rest) <= isize_max ->
  exists self' buf' rd',
    inspect_loop spare size (S (length (stream_of rd))) (check_client_initial_data limits port) full closed failed self buf rd =
      (Ok q, (self', buf', rd')) /\ well_behaved rd' /\ buf' ++ stream_of rd' = wire rs ++ rest.
Proof.
  intros Hlim Hspare Hsize Hw Hfr [Hrs Hh Hl24 Hcat Hv] Hs Hmax.
  set (n := len (hello_bytes h)) in *. set (body := drop 2 (hello_bytes h)).
  assert (from_be (x00 :: to_be 3 n) + 4 = len (concat (map snd rs))) as Hlen.
  { rewrite Hcat, len_cons, len_app, len_to_be. change (x00 :: to_be 3 n) with ([x00] ++ to_be 3 n).
    rewrite from_be_app, from_be_to_be, Z.mod_small by (change (256 ^ Z.of_nat 3) with (2 ^ 24); unfold n in *; len_lia).
    change (from_be [x00]) with 0. unfold n. lia. }
  assert (34 <= n) as Hn. { destruct Hh as (_ & Hr & _). unfold n, hello_bytes, RANDOM_FIELD_SIZE in *. rewrite len_app, len_app. len_lia. }
  assert (len (wire rs) >= len (concat (map snd rs))) as Hwire.
  { clear -Hrs. induction Hrs as [|[v f] rs _ _ IH]; [done|]. unfold wire in *. cbn [map concat fst snd]. rewrite !len_app, len_record_bytes.
    unfold RecordHeader_SIZE. lia. }
  assert (exists l1 l2 l3, to_be 3 n = [l1; l2; l3]) as (l1 & l2 & l3 & E3) by (eexists _, _, _; reflexivity).
  assert (concat (map snd rs) = x01 :: l1 :: l2 :: l3 :: rv_major (h_version h) :: rv_minor (h_version h) :: body) as Hmsg.
  { rewrite Hcat, E3. reflexivity. }
  rewrite E3 in Hlen. apply client_recognised with (P := May_Ssl) (bound := 36); try done.
  - by left.
  - intros p. by destruct p.
  - destruct rs as [|[v f] rs]; [discriminate|]. reflexivity.
  - intros p Hp Hne. by apply (tls_head _ rest q l1 l2 l3 _ _ body Hmsg Hlen Hv rs p).
  - intros d more Hd. exists (check_ssl_client_hello d). split; [by apply (ssl_finds _ rest q l1 l2 l3 _ _ body Hmsg Hlen Hv d more rs)|].
    intros st Hst. unfold check_client_initial_data_for_protocol. by rewrite Hst.
  - rewrite len_app. rewrite Hcat, len_cons, len_app, len_to_be in Hwire. fold n in Hwire. len_lia.
Qed.

(** ** HTTP *)

(** The methods that [check_http_request] knows, with the space that follows
    them. *)
Definition http_methods : list bytes :=
  concat (map (fun c => match http_branch c with Some (_, ms) => map fst ms | None => [] end) (bs "ABCDGHLMOPQRSTUV")).

(** A request line; the data behind it has at least two bytes. *)
Record http1_request (m url tail : bytes) (v : byte) : Prop := {
  hr_method : m ∈ http_methods;
  hr_not_h2 : m <> bs "PRI ";
  hr_url : url <> [] /\ (x20 ∉ url) /\ (x00 ∉ url);
  hr_not_rtsp : m = bs "OPTIONS " -> starts_with (bs "rtsp://") url = false;
  hr_version : v = "0"%byte \/ v = "1"%byte;
  hr_tail : 2 <= len tail
}.

Definition http1_bytes (m url : bytes) (v : byte) (tail : bytes) : bytes :=
  m ++ url ++ x20 :: bs "HTTP/1." ++ v :: CR :: LF :: tail.

(** What the checks need of a method. *)
Record http_method_ok (m : bytes) : Prop := {
  hm_len : 4 <= len m <= 18;
  hm_plain : x00 ∉ m;
  hm_check : m <> bs "PRI " -> forall limits rest, 18 <= len (m ++ rest) -> exists o1 o2 o3,
    check_http_request (m ++ rest) limits =
      (let* _ := exclude_others o1 in let* _ := exclude_others o2 in let* _ := exclude_others o3 in
       check_http1_after_method (m ++ rest) (len m) limits);
  hm_head : forall rest, head_ok May_Http (m ++ rest) = true;
  hm_others : forall p rest, plain p = true -> p <> May_Http -> p <> May_Dns ->
    (p = May_Rtsp -> m <> bs "OPTIONS ") -> head_ok p (m ++ rest) = false
}.

Lemma http_methods_known : Forall http_method_ok http_methods.
Proof.
  let l := eval vm_compute in http_methods in change http_methods with l.
  repeat (apply Forall_cons; split; [split|]); try apply Forall_nil_2;
    try (split; by apply Z.leb_le); try (apply not_in_by_decide; reflexivity); try reflexivity;
    try (intros p rest Hp H1 H2 H3; destruct p; try done; try reflexivity; exfalso; by apply H3).
  all: intros Hne limits rest Hl; unfold check_http_request; rewrite (proj2 (Z.ltb_ge _ _) Hl); try (exfalso; by apply Hne).
  all: eexists _, _, _; reflexivity.
Qed.

Lemma http_method_in m : m ∈ http_methods -> http_method_ok m.
Proof. intros H. pose proof http_methods_known as Hall. rewrite Forall_forall in Hall. by apply Hall. Qed.

(** A prefix of [a ++ b] lies in [a], or goes on behind it. *)
Lemma prefix_split {A} (d more a b : list A) :
  d ++ more = a ++ b -> (len d < len a /\ exists a', a = d ++ a') \/ exists d', d = a ++ d' /\ d' ++ more = b.
Proof.
  intros E. destruct (Z.lt_ge_cases (len d) (len a)) as [H|H]; [left|right].
  - split; [done|]. exists (drop (length d) a). rewrite <- (take_drop (length d) a) at 1. f_equal.
    rewrite <- (take_app_le a b), <- E by (unfold len in H; lia). by rewrite take_app_length.
  - exists (drop (length a) d). assert (d = a ++ drop (length a) d) as Ed.
    { rewrite <- (take_drop (length a) d) at 1. f_equal. rewrite <- (take_app_le d more), E by (unfold len in H; lia). by rewrite take_app_length. }
    split; [exact Ed|]. rewrite Ed, <- app_assoc in E. by apply app_inv_head in E.
Qed.

Lemma http_after_url_finds p d more a v tail :
  d ++ more = a ++ bs "HTTP/1." ++ v :: CR :: LF :: tail -> v = "0"%byte \/ v = "1"%byte -> 2 <= len tail -> len a <= len d ->
  inspects p (check_http1_after_url d (len a)) (seeks Is_Http1 d (len a + 12)).
Proof.
  intros Hd Hv Ht Hl. unfold check_http1_after_url. cbv zeta.
  destruct (Z.ltb_spec (len d) (12 + len a)); [apply inspects_need; cbn; lia|].
  destruct (prefix_split _ _ _ _ Hd) as [[? _]|(d' & -> & Hd')]; [lia|]. rewrite len_app in *.
  apply inspects_from; [len_lia|]. intros left ->. rewrite drop_app_length' by (unfold len; lia).
  destruct d' as [|c0 [|c1 [|c2 [|c3 [|c4 [|c5 [|c6 [|c7 [|c8 [|c9 d']]]]]]]]]]; try (exfalso; len_lia).
  injection Hd' as -> -> -> -> -> -> -> -> -> -> _.
  do 3 (eapply inspects_byte; [done|reflexivity|]). destruct Hv as [-> | ->]; by apply inspects_ret.
Qed.

Lemma http_finds limits m url tail v d more :
  http1_request m url tail v -> len url <= sz_http_client_request_uri limits -> d ++ more = http1_bytes m url v tail ->
  inspects May_Http (check_http_request d limits) (seeks Is_Http1 d (len m + len url + 13)).
Proof.
  intros [Hm Hpri [Hurl [Hsp _]] _ Hv Ht] Hlim Hd. destruct (http_method_in m Hm) as [Hml _ Hcheck _ _].
  assert (1 <= len url) as Hu by (destruct url; [done|len_lia]). unfold http1_bytes in Hd.
  destruct (Z.ltb_spec (len d) 18) as [H18|H18].
  { unfold check_http_request. rewrite (proj2 (Z.ltb_lt _ _) H18). apply inspects_need. cbn. lia. }
  destruct (prefix_split _ _ _ _ Hd) as [[? _]|(d' & -> & Hd')]; [lia|].
  destruct (Hcheck Hpri limits d' H18) as (o1 & o2 & o3 & ->). do 3 apply seeks_exclude. unfold check_http1_after_method. cbv zeta.
  destruct (Z.ltb_spec (len (m ++ d')) (14 + len m)); [apply inspects_need; cbn; lia|].
  apply inspects_part; [lia|len_lia|]. intros method _. apply inspects_from; [len_lia|]. intros left ->.
  rewrite drop_app_length' by (unfold len; lia). destruct (prefix_split _ _ _ _ Hd') as [[Hl [url' ->]]|(d'' & -> & Hd'')].
  - rewrite memchr_none by (intros Hin; apply Hsp, elem_of_app; by left). rewrite len_app in *.
    rewrite (proj2 (Z.ltb_ge _ _)) by lia. apply inspects_need. cbn. len_lia.
  - destruct d'' as [|c d''].
    + rewrite app_nil_r in *. rewrite memchr_none by done. rewrite (proj2 (Z.ltb_ge _ _)) by lia. apply inspects_need. cbn. len_lia.
    + injection Hd'' as -> Hd''. rewrite memchr_app by done. 
      replace (len m + len url + 1) with (len (m ++ url ++ [x20])) by len_lia.
      replace (len m + len url + 13) with (len (m ++ url ++ [x20]) + 12) by len_lia.
      apply (http_after_url_finds _ _ more _ v tail); try done; [|len_lia].
      rewrite <- !app_assoc. do 2 f_equal. cbn [app]. f_equal. exact Hd''.
Qed.

Lemma starts_with_same a p l : starts_with (a ++ p) (a ++ l) = starts_with p l.
Proof.
  apply eq_true_iff_eq. rewrite !starts_with_true. split; intros [r E]; exists r.
  - rewrite <- app_assoc in E. by apply app_inv_head in E.
  - by rewrite E, <- app_assoc.
Qed.

Lemma starts_with_until c p l t : (c ∉ p) -> starts_with p (l ++ c :: t) = true -> starts_with p l = true.
Proof.
  intros Hc [r E]%starts_with_true. symmetry in E. apply starts_with_true.
  destruct (prefix_split _ _ _ _ E) as [[_ [l' ->]]|(p' & -> & E')]; [by exists l'|].
  destruct p' as [|c' p']; [exists []; by rewrite !app_nil_r|]. injection E' as -> _. destruct Hc. apply elem_of_app. right. by left.
Qed.

Lemma http_head m url tail v p :
  http1_request m url tail v -> plain p = true -> p <> May_Http -> head_ok p (http1_bytes m url v tail) = false.
Proof.
  intros [Hm Hpri [Hurl [Hsp H0]] Hrtsp Hv Ht] Hp Hne. destruct (http_method_in m Hm) as [Hml Hm0 _ _ Hothers].
  unfold http1_bytes. destruct (decide (p = May_Dns)) as [->|Hdns].
  - cbn [head_ok]. unfold same_bytes. apply bool_decide_eq_false. intros E.
    assert ((m ++ url ++ x20 :: bs "HTTP/1." ++ v :: CR :: LF :: tail) !! 8%nat = Some x00) as E8.
    { rewrite <- (Nat.add_0_r 8), <- lookup_drop, <- (lookup_take_lt _ 4) by lia. by rewrite E. }
    replace (m ++ url ++ x20 :: bs "HTTP/1." ++ v :: CR :: LF :: tail)
      with ((m ++ url ++ x20 :: bs "HTTP/1." ++ [v; CR; LF]) ++ tail) in E8 by (rewrite <- !app_assoc; reflexivity).
    rewrite lookup_app_l in E8 by (rewrite !length_app; cbn; unfold len in Hml; lia).
    apply list_elem_of_lookup_2 in E8. rewrite !elem_of_app in E8. destruct E8 as [E8|[E8|E8]]; [done..|].
    revert E8. destruct Hv as [-> | ->]; apply not_in_by_decide; reflexivity.
  - destruct (decide (p = May_Rtsp /\ m = bs "OPTIONS ")) as [[-> ->]|Hno]; [|apply Hothers; naive_solver].
    specialize (Hrtsp eq_refl). set (line := bs "HTTP/1." ++ v :: CR :: LF :: tail).
    change (existsb (fun m : bytes * list MaybeProtocol => starts_with (m.1 ++ bs "rtsp://") (bs "OPTIONS " ++ url ++ x20 :: line))
      [(bs "OPTIONS ", [])] || starts_with (bs "OPTIONS " ++ bs "* RTSP/") (bs "OPTIONS " ++ url ++ x20 :: line) = false).
    cbn [existsb fst]. rewrite !starts_with_same, orb_false_r. apply orb_false_iff. split.
    + apply not_true_iff_false. intros Hs. apply starts_with_until in Hs; [congruence|apply not_in_by_decide; reflexivity].
    + apply not_true_iff_false. intros [r E]%starts_with_true. destruct url as [|u0 [|u1 url]]; [done|discriminate E|].
      injection E as -> -> _. apply Hsp. right. by left.
Qed.

(** ** Exclusions *)

Lemma exclusion_sound check check' data more p q st st' st2 r :
  sound_check check data -> sound_check check' (data ++ more) -> plain p = true -> plain q = true -> p <> q ->
  confused p q = false -> check p st = (r, st') -> (forall found, r <> Ok (Some found)) ->
  excluded st q = false -> excluded st' q = true -> forall found, (check' q st2).1 <> Ok (Some found).
Proof.
  intros Hs Hs' Hp Hq Hne Hconf Hc Hnot Hst Hst'. destruct (Hs p Hp) as (r1 & o & b & [_ _ _ Ho] & E). rewrite E in Hc.
  destruct (excluded st p); injection Hc as <- <-; [congruence|].
  rewrite excluded_after, Hst, (bool_decide_eq_false_2 (p = q)), andb_false_r, orb_false_r in Hst' by done.
  apply bool_decide_eq_true in Hst'. destruct Ho as [[x ->]|Ho]; [by destruct (Hnot x)|].
  rewrite Forall_forall in Ho. destruct (Ho q Hst') as [Hcf|Hno]; [congruence|]. specialize (Hno more).
  intros x. destruct (Hs' q Hq) as (r2 & o2 & b2 & [_ _ Ha _] & E2). rewrite E2. destruct (excluded st2 q); [done|].
  intros Ex. cbn in Ex. by rewrite (Ha x Ex) in Hno.
Qed.

(** ** Properties *)

(** C6: a TLS connection is recognised on every port.  For a client hello in
    records that are cut in any way, even within the first six bytes of the
    message, and that arrive in any parts, the inspection answers with the
    version of TLS that the hello names, whatever protocols the port map suggests
    for the port, and keeps every byte for the one who reads on. *)
Theorem tls_hello_recognised (limits : SizeLimit) (spare : Z -> Z) (size port : Z) (self : ProtocolInspector)
    (buf : bytes) (rd : reader) (rs : list (RawVersion * bytes)) (rest : bytes) (h : hello) (q : Protocol) :
  limits_ok limits -> (forall n, 0 < spare n) -> 36 <= size -> well_behaved rd -> fresh self -> hello_stream rs h q ->
  buf ++ stream_of rd = wire rs ++ rest -> len (wire rs ++ rest) <= isize_max ->
  exists self' buf' rd', inspect_client_data limits spare size port self buf rd = (Ok q, (self', buf', rd')) /\
    buf' ++ stream_of rd' = wire rs ++ rest.
Proof.
  intros Hlim Hspare Hsize Hw Hfr Hh Hs Hmax.
  destruct (tls_recognised limits spare size port rs rest h q (Ok Is_Unknown) Task_ClosedByClient Task_ClientTcpReadFailed
    self buf rd) as (self' & buf' & rd' & E & _ & Hcat); try done. by exists self', buf', rd'.
Qed.

(** C14: an HTTP/1 request is recognised on every port: for every method that the
    check knows, a target within the limit, and version 1.0 or 1.1, in whatever
    parts the request arrives.  The target of OPTIONS must not be an RTSP URI,
    which the request cannot be told from. *)
Theorem http1_request_recognised (limits : SizeLimit) (spare : Z -> Z) (size port : Z) (self : ProtocolInspector)
    (buf : bytes) (rd : reader) (m url tail : bytes) (v : byte) :
  limits_ok limits -> (forall n, 0 < spare n) -> well_behaved rd -> fresh self -> http1_request m url tail v ->
  len url <= sz_http_client_request_uri limits -> len m + len url + 13 <= size ->
  buf ++ stream_of rd = http1_bytes m url v tail -> len (http1_bytes m url v tail) <= isize_max ->
  exists self' buf' rd', inspect_client_data limits spare size port self buf rd = (Ok Is_Http1, (self', buf', rd')) /\
    buf' ++ stream_of rd' = http1_bytes m url v tail.
Proof.
  intros Hlim Hspare Hw Hfr Hr Hurl Hsize Hs Hmax. pose proof (http_method_in m (hr_method _ _ _ _ Hr)) as Hm.
  destruct (client_recognised limits spare size port _ May_Http Is_Http1 (len m + len url + 13) (Ok Is_Unknown) Task_ClosedByClient
    Task_ClientTcpReadFailed self buf rd Hlim Hspare Hw Hfr Hs Hmax) as (self' & buf' & rd' & E & _ & Hcat); try done.
  - right. by left.
  - intros p. by destruct p.
  - apply Hm.
  - intros p Hp Hne. by apply http_head.
  - intros d more Hd. exists (check_http_request d limits). split; [by apply (http_finds limits m url tail v d more)|].
    intros st Hst. unfold check_client_initial_data_for_protocol. by rewrite Hst.
  - pose proof (hr_tail _ _ _ _ Hr). unfold http1_bytes. rewrite !len_app, len_cons, len_app, !len_cons.
    change (len (bs "HTTP/1.")) with 7. lia.
  - by exists self', buf', rd'.
Qed.

(** C7: the SNI proxy serves the host that a client names, from the first byte of
    the connection on: the inspection takes the client hello for TLS, whatever
    the port map says, and the request parser that goes on with the buffered
    bytes finds the host name of the server name extension. *)
Theorem sni_proxy_accepts_by_name (to_ascii : bytes -> option bytes) (limits : SizeLimit) (spare : Z -> Z) (size : Z)
    (parse_http : bytes -> reader -> option SniUpstream) (max port : Z) (ports : ProtocolPortMap) (buf : bytes) (rd : reader)
    (rs : list (RawVersion * bytes)) (rest : bytes) (h : hello) (before after : list (Z * bytes)) (name extra : bytes)
    (d : DomainName) :
  limits_ok limits -> (forall n, 0 < spare n) -> 36 <= size -> 0 <= max <= u32_max -> ports_ok ports -> well_behaved rd ->
  let exts := before ++ (0, sni_bytes name extra) :: after in
  hello_stream rs h Is_TlsModern -> h_extensions h = Some (concat (map ext_bytes exts)) -> Forall ext_fits exts ->
  Forall (fun x => fst x <> 0) before -> 3 + len name + len extra <= u16_max -> DomainName_parse to_ascii name = Ok d ->
  len (hello_bytes h) <= max -> buf ++ stream_of rd = wire rs ++ rest -> len (wire rs ++ rest) <= isize_max ->
  sni_inspect to_ascii limits spare size parse_http max port ports buf rd =
    Ok ({| su_host := d; su_port := port |}, Is_TlsModern).
Proof.
  intros Hlim Hspare Hsize Hmax Hports Hw exts Hh Hext Hfits Hbefore Hname Hd Hle Hs Hlen.
  destruct (tls_recognised limits spare size port rs rest h Is_TlsModern (Err Task_UnableToDetect) Task_ClosedByClient Task_ClientTcpReadFailed
    (Inspector_new ports) buf rd) as (self' & buf' & rd' & E & Hw' & Hcat); try done.
  unfold sni_inspect. rewrite E. cbn [bind fetch_upstream]. destruct Hh as [Hrs Hok H24 Hmsg _].
  destruct (sni_proxy_routes_to_named_host spare to_ascii max port buf' rd' rs rest h before after name extra d) as (b & r & Er & _); try done.
  by rewrite Er.
Qed.

(** C13: the checks exclude only what cannot be.  When the check of one protocol
    does not accept the data and excludes another protocol, then whatever data
    follows, the check of that other protocol does not accept it.  The exceptions
    are SSH and STOMP, see [ssh_and_stomp_exclude_each_other]. *)
Theorem exclusions_sound (to_ascii : bytes -> option bytes) (limits limits' : SizeLimit) (data more : bytes)
    (p q : MaybeProtocol) (st st2 : ProtocolInspectState) :
  limits_ok limits -> limits_ok limits' -> len (data ++ more) <= isize_max -> plain p = true -> plain q = true -> p <> q ->
  confused p q = false -> excluded st q = false ->
  (forall r st', check_client_initial_data_for_protocol p data limits st = (r, st') -> (forall found, r <> Ok (Some found)) ->
     excluded st' q = true ->
     forall found, (check_client_initial_data_for_protocol q (data ++ more) limits' st2).1 <> Ok (Some found)) /\
  (forall r st', check_server_initial_data_for_protocol to_ascii p data limits st = (r, st') ->
     (forall found, r <> Ok (Some found)) -> excluded st' q = true ->
     forall found, (check_server_initial_data_for_protocol to_ascii q (data ++ more) limits' st2).1 <> Ok (Some found)).
Proof.
  intros Hl Hl' Hlen Hp Hq Hne Hc Hex. assert (len data <= isize_max) by (rewrite len_app in Hlen; len_lia).
  split; intros r st' Hr Hnot Hex'.
  - by apply (exclusion_sound (fun p => check_client_initial_data_for_protocol p data limits)
      (fun p => check_client_initial_data_for_protocol p (data ++ more) limits') data more p q st st' st2 r); try done; apply client_check_sound.
  - by apply (exclusion_sound (fun p => check_server_initial_data_for_protocol to_ascii p data limits)
      (fun p => check_server_initial_data_for_protocol to_ascii p (data ++ more) limits') data more p q st st' st2 r);
      try done; apply server_check_sound.
Qed.

(** C23: whatever a client or a server sends, in whatever parts, the inspection
    comes to an end without a panic, loses no byte, and leaves the inspector in a
    state in which only protocols that have a check are waiting; the copies of
    the TLS check, which are not checked by the compiler, stay within their
    buffers. *)
Theorem inspection_terminates (to_ascii : bytes -> option bytes) (limits : SizeLimit) (spare : Z -> Z) (size port : Z)
    (self : ProtocolInspector) (buf : bytes) (rd : reader) :
  limits_ok limits -> (forall n, 0 < spare n) -> well_behaved rd -> inspector_ok self ->
  len buf + len (stream_of rd) <= isize_max ->
  (exists r self' buf' rd', inspect_client_data limits spare size port self buf rd = (r, (self', buf', rd')) /\
     r <> Panic /\ inspector_ok self' /\ buf' ++ stream_of rd' = buf ++ stream_of rd) /\
  (exists r self' buf' rd', inspect_server_data to_ascii limits spare size port self buf rd = (r, (self', buf', rd')) /\
     r <> Panic /\ inspector_ok self' /\ buf' ++ stream_of rd' = buf ++ stream_of rd).
Proof.
  intros Hl Hspare Hw Hok Hlen. split.
  - destruct (inspect_loop_ok spare size (S (length (stream_of rd))) (check_client_initial_data limits port) (Ok Is_Unknown)
      Task_ClosedByClient Task_ClientTcpReadFailed self buf rd) as (r & s' & b' & rd' & E & Hnp & Hs & _ & Hcat); try done; [lia| |].
    + intros data self' Hd Hs. rewrite client_phases.
      apply (finish_check_ok data); [apply client_check_sound; [done|lia]|intros ? ?; by apply client_candidates_ok|done].
    + by exists r, s', b', rd'.
  - destruct (inspect_loop_ok spare size (S (length (stream_of rd))) (check_server_initial_data to_ascii limits port) (Ok Is_Unknown)
      Task_ClosedByUpstream Task_UpstreamReadFailed self buf rd) as (r & s' & b' & rd' & E & Hnp & Hs & _ & Hcat); try done; [lia| |].
    + intros data self' Hd Hs. rewrite server_phases.
      apply (finish_check_ok data); [apply server_check_sound; [done|lia]|intros ? ?; by apply server_candidates_ok|done].
    + by exists r, s', b', rd'.
Qed.

(** ** Where the inspection goes wrong *)

(** The first part has been read when the inspection starts. *)
Definition client_result (ports : ProtocolPortMap) (port : Z) (first : bytes) (parts : list bytes) : res ServerTaskError Protocol :=
  (inspect_client_data SizeLimit_default (fun _ => 4096) 4096 port (Inspector_new ports) first (map Data parts)).1.

Definition server_result (to_ascii : bytes -> option bytes) (ports : ProtocolPortMap) (port : Z) (first : bytes) (parts : list bytes) : res ServerTaskError Protocol :=
  (inspect_server_data to_ascii SizeLimit_default (fun _ => 4096) 4096 port (Inspector_new ports) first (map Data parts)).1.

(** A stream of a protocol [P] that has been excluded, in which no other check
    finds anything. *)
Section Missed.

Context (P : MaybeProtocol) (s : bytes) (check : bytes -> MaybeProtocol -> inspect (option Protocol)).
Context (Hsound : forall d more, d ++ more = s -> sound_check (check d) d).
Context (Hother : forall p, plain p = true -> p <> P -> head_ok p s = false).













End Missed.



(** On a port for MQTT and STOMP a STOMP frame is recognised when it comes in one
    part, but not when it comes in two, because the check of SSH then comes first. *)
Example stomp_in_two_parts_unknown :
  let ports := PortMap_insert_batch tcp_server 61616 [May_Mqtt; May_Stomp] in
  let stomp := bs "STOMP" ++ [LF] ++ bs "accept-version:1.2" ++ [LF] ++ bs "host:a" ++ [LF; LF; x00] in
  client_result ports 61616 stomp [] = Ok Is_Stomp /\
  client_result ports 61616 (take 9 stomp) [drop 9 stomp; replicate 50 x00] = Ok Is_Unknown.
Proof. vm_compute. split; reflexivity. Qed.

(** The check of an SMTP greeting looks for the end of the host beyond the
    end of the line.  A greeting whose first line has only an address literal is
    recognised when it has one line; when more lines follow it is not, and it is
    taken for FTP, on the port of SMTP. *)
Theorem multiline_greeting_taken_for_ftp (to_ascii : bytes -> option bytes) :
  let one := bs "220 [192.0.2.1]" ++ [CR; LF] in
  let several := bs "220-[192.0.2.1]" ++ [CR; LF] ++ bs "220 ready" ++ [CR; LF] in
  server_result to_ascii tcp_server 25 one [] = Ok Is_Smtp /\
  server_result to_ascii tcp_server 25 several [] = Ok Is_FtpControl.
Proof. vm_compute. split; reflexivity. Qed.

(** [reset_state] keeps the reads that were pending when the protocol was
    found.  After the first part of a TLS connection on the port of BitTorrent,
    the inspector is reset for the data within the connection; for data of no
    known protocol it then asks for more on behalf of a check that has already
    given up, where a new inspector answers at once. *)
Theorem reset_keeps_pending_reads :
  let hello := [x16; x03; x01; x00; x80; x01; x00; x00; x7c; x03; x03] ++ replicate 20 x11 in
  let inner := replicate 100 x7a in
  let check := check_client_initial_data SizeLimit_default 6881 in
  let outer := check hello (Inspector_new tcp_server) in
  outer.1 = Ok Is_TlsModern /\
  (check inner (reset_state outer.2)).1 = Err (NeedMoreData 37) /\
  (check inner (Inspector_new tcp_server)).1 = Ok Is_Unknown.
Proof. vm_compute. split_and!; reflexivity. Qed.

(** A client may send its first key exchange message right behind its version
    line; the check asks for the line end at the end of the data, and gives up. *)
Example ssh_with_key_exchange_unknown :
  let version := bs "SSH-2.0-OpenSSH_9.6" ++ [CR; LF] in
  client_result tcp_server 22 version [] = Ok Is_Ssh /\
  client_result tcp_server 22 (version ++ replicate 300 x14) [] = Ok Is_Unknown.
Proof. vm_compute. split; reflexivity. Qed.

Module Sample.

Definition v31 : RawVersion := {| rv_major := x03; rv_minor := x01 |}.
Definition h : hello := hello_sni_example.
Definition rs : list (RawVersion * bytes) :=
  [(v31, [x01; x00; x00]); (v31, to_be 1 (len (hello_bytes h)) ++ hello_bytes h)].
Definition parts : reader :=
  [Data (take 7 (wire rs)); Pend; Data (take 4 (drop 7 (wire rs))); Data (drop 11 (wire rs))].

Lemma default_limits_ok : limits_ok SizeLimit_default.
Proof. split; apply Z.leb_le; reflexivity. Defined.

Lemma ports_server : ports_ok tcp_server.
Proof. repeat constructor. Defined.

Lemma parts_well_behaved : well_behaved parts.
Proof. by repeat constructor. Defined.

Lemma h_stream : hello_stream rs h Is_TlsModern.
Proof.
  split; try reflexivity.
  - repeat constructor; apply Z.leb_le; reflexivity.
  - repeat split; apply Z.leb_le || apply Z.ltb_lt; reflexivity.
Defined.

Lemma tls_hello_recognised_witness :
  exists self' buf' rd',
    inspect_client_data SizeLimit_default (fun _ => 64) 4096 80 (Inspector_new tcp_server) [] parts =
      (Ok Is_TlsModern, (self', buf', rd')).
Proof.
  destruct (tls_hello_recognised SizeLimit_default (fun _ => 64) 4096 80 (Inspector_new tcp_server) [] parts rs [] h Is_TlsModern)
    as (self' & buf' & rd' & E & _).
  - exact default_limits_ok.
  - intros n. reflexivity.
  - apply Z.leb_le. reflexivity.
  - exact parts_well_behaved.
  - exact (fresh_new _ ports_server).
  - exact h_stream.
  - vm_compute. reflexivity.
  - apply Z.leb_le. vm_compute. reflexivity.
  - exists self', buf', rd'. exact E.
Defined.

Lemma http1_request_recognised_witness :
  exists self' buf' rd',
    inspect_client_data SizeLimit_default (fun _ => 64) 4096 443 (Inspector_new tcp_server) (bs "GE")
      [Data (bs "T /ind"); Pend; Data (bs "ex.html HTTP/1.1" ++ [CR; LF; CR; LF])] = (Ok Is_Http1, (self', buf', rd')).
Proof.
  destruct (http1_request_recognised SizeLimit_default (fun _ => 64) 4096 443 (Inspector_new tcp_server) (bs "GE")
    [Data (bs "T /ind"); Pend; Data (bs "ex.html HTTP/1.1" ++ [CR; LF; CR; LF])] (bs "GET ") (bs "/index.html") [CR; LF] "1"%byte)
    as (self' & buf' & rd' & E & _).
  - exact default_limits_ok.
  - intros n. reflexivity.
  - by repeat constructor.
  - exact (fresh_new _ ports_server).
  - split; try discriminate.
    + apply (proj1 (bool_decide_eq_true _)). vm_compute. reflexivity.
    + split; [discriminate|]. split; apply not_in_by_decide; reflexivity.
    + right. reflexivity.
  - apply Z.leb_le. reflexivity.
  - apply Z.leb_le. reflexivity.
  - reflexivity.
  - apply Z.leb_le. reflexivity.
  - exists self', buf', rd'. exact E.
Defined.

Lemma sni_proxy_accepts_by_name_witness :
  sni_inspect Some SizeLimit_default (fun _ => 64) 4096 (fun _ _ => None) 65536 443 tcp_server [] parts =
    Ok ({| su_host := {| dn_fqdn := bs "example.net." |}; su_port := 443 |}, Is_TlsModern).
Proof.
  apply (sni_proxy_accepts_by_name Some SizeLimit_default (fun _ => 64) 4096 (fun _ _ => None) 65536 443 tcp_server [] parts rs []
    h [(16, [x00; x00])] [] (bs "example.net") [] {| dn_fqdn := bs "example.net." |});
    try reflexivity; try (apply Z.leb_le; vm_compute; reflexivity).
  - exact default_limits_ok.
  - split; apply Z.leb_le; reflexivity.
  - exact ports_server.
  - exact parts_well_behaved.
  - exact h_stream.
  - repeat constructor; apply Z.leb_le; reflexivity.
  - by repeat constructor.
Defined.

(** The check of HTTP excludes TLS for a request line, and rightly so. *)
Lemma exclusions_sound_witness :
  let data := bs "POST / HTTP/3.0 with no end" in
  let st := check_client_initial_data_for_protocol May_Http data SizeLimit_default InspectState_default in
  excluded st.2 May_Ssl = true /\
  forall found, (check_client_initial_data_for_protocol May_Ssl (data ++ [x00]) SizeLimit_default InspectState_default).1 <> Ok (Some found).
Proof.
  cbv zeta. split; [reflexivity|].
  refine (proj1 (exclusions_sound Some SizeLimit_default SizeLimit_default (bs "POST / HTTP/3.0 with no end") [x00] May_Http May_Ssl
    InspectState_default InspectState_default default_limits_ok default_limits_ok _ _ _ _ _ _) (Ok None) _ _ _ _).
  - apply Z.leb_le. reflexivity.
  - reflexivity.
  - reflexivity.
  - discriminate.
  - reflexivity.
  - reflexivity.
  - vm_compute. reflexivity.
  - intros found. discriminate.
  - reflexivity.
Defined.


Lemma inspection_terminates_witness :
  exists r self' buf' rd',
    inspect_client_data SizeLimit_default (fun _ => 2) 16 443 (Inspector_new tcp_server) [x16] [Data [x03; x03; x00]; Pend; Data [x01]]
      = (r, (self', buf', rd')) /\ r <> Panic.
Proof.
  destruct (inspection_terminates Some SizeLimit_default (fun _ => 2) 16 443 (Inspector_new tcp_server) [x16]
    [Data [x03; x03; x00]; Pend; Data [x01]]) as [(r & self' & buf' & rd' & E & Hnp & _) _].
  - exact default_limits_ok.
  - intros n. reflexivity.
  - by repeat constructor.
  - exact (fr_ok _ (fresh_new _ ports_server)).
  - apply Z.leb_le. reflexivity.
  - exists r, self', buf', rd'. split; [exact E|exact Hnp].
Defined.

End Sample.
