(* ===== verification/Acl.v ===== *)
(** Access control: [lib/vey-types/src/acl/] and [lib/vey-types/src/acl_set/].

    Rules are collected by a builder and then compiled; a compiled rule answers
    whether it found its argument and with which action.  Hash maps are [gmap]s,
    and where a builder goes through one of them the order is a parameter
    ([HashOrder]).  The crates [ip_network], [ip_network_table], [radix_trie] and
    [regex] are classes with the laws of their documentation. *)

From Stdlib Require Import ZArith Lia Strings.Byte NArith.
From stdpp Require Import base list gmap.
From S2P Require Import Prelude Text Domain IpAddr Host.

(** ** Keys of maps *)

#[export] Instance byte_countable : Countable byte.
Proof.
  apply (inj_countable Byte.to_N Byte.of_N). intros b. apply Byte.of_to_N.
Defined.

#[export] Instance IpAddr_countable : Countable IpAddr.
Proof.
  refine (inj_countable' (fun ip => match ip with V4 o => inl o | V6 o => inr o end)
    (fun s => match s with inl o => V4 o | inr o => V6 o end) _). by intros [].
Defined.

#[export] Instance DomainName_eq_dec : EqDecision DomainName.
Proof. solve_decision. Defined.

#[export] Instance DomainName_countable : Countable DomainName.
Proof. by apply (inj_countable' dn_fqdn Build_DomainName); intros []. Defined.

(** The order in which the iterator of a hash map yields its entries. *)
Class HashOrder : Type := {
  hash_iter {K} `{Countable K} {A} : gmap K A -> list (K * A);
  hash_iter_perm {K} `{Countable K} {A} (m : gmap K A) : hash_iter m ≡ₚ map_to_list m
}.

(** [BTreeMap]: its entries in the order of the keys.  [entry] and [insert] go
    through [btree_alter]. *)
Section BTreeMap.

Context {K V : Type} (le : K -> K -> bool).

Fixpoint btree_alter (k : K) (f : option V -> V) (m : list (K * V)) : list (K * V) :=
  match m with
  | [] => [(k, f None)]
  | (k', v) :: m' =>
      if le k k' then if le k' k then (k', f (Some v)) :: m' else (k, f None) :: m
      else (k', v) :: btree_alter k f m'
  end.

Definition btree_insert (k : K) (v : V) : list (K * V) -> list (K * V) := btree_alter k (fun _ => v).

End BTreeMap.

(** ** Actions *)

Inductive AclAction : Type :=
| ForbidAndLog
| Forbid
| PermitAndLog
| Permit.

#[export] Instance AclAction_eq_dec : EqDecision AclAction.
Proof. solve_decision. Defined.

(** The derived order is the order of the declarations. *)
Definition AclAction_rank (self : AclAction) : Z :=
  match self with ForbidAndLog => 0 | Forbid => 1 | PermitAndLog => 2 | Permit => 3 end.

Definition AclAction_le (self other : AclAction) : bool := AclAction_rank self <=? AclAction_rank other.

(** [other.min(self)]. *)
Definition restrict (self other : AclAction) : AclAction := if AclAction_le other self then other else self.

Definition strict_than (self other : AclAction) : bool := AclAction_le self other.

Definition forbid_early (self : AclAction) : bool :=
  match self with ForbidAndLog | Forbid => true | PermitAndLog | Permit => false end.

(** [str::to_ascii_lowercase]. *)
Definition to_ascii_lowercase (s : bytes) : bytes := map ascii_lower s.

Definition AclAction_from_str (s : bytes) : option AclAction :=
  let s := to_ascii_lowercase s in
  let one_of l := existsb (fun x => bool_decide (s = x)) l in
  if one_of [bs "permit"; bs "allow"; bs "accept"] then Some Permit
  else if one_of [bs "permit_log"; bs "allow_log"; bs "accept_log"] then Some PermitAndLog
  else if one_of [bs "forbid"; bs "deny"; bs "reject"] then Some Forbid
  else if one_of [bs "forbid_log"; bs "deny_log"; bs "reject_log"] then Some ForbidAndLog
  else None.

(** [OrderedActionContract]: rules are generic in their actions. *)
Class OrderedAction (A : Type) : Type := act_le : A -> A -> bool.

Class OrderedActionLaws (A : Type) `{OrderedAction A} : Prop := {
  act_le_total a b : act_le a b = true \/ act_le b a = true;
  act_le_trans a b c : act_le a b = true -> act_le b c = true -> act_le a c = true;
  act_le_antisym a b : act_le a b = true -> act_le b a = true -> a = b
}.

#[export] Instance AclAction_ordered : OrderedAction AclAction := AclAction_le.

#[export] Instance AclAction_laws : OrderedActionLaws AclAction.
Proof.
  split; [intros [] []|intros [] [] []|intros [] []]; vm_compute; auto; intros; congruence.
Qed.

(** ** Exact matches: [AclAHashRule] and [AclFxHashRule] differ in the hasher *)

Record AclHashRule (K : Type) `{Countable K} (A : Type) : Type := {
  hr_inner : gmap K A;
  hr_missed_action : A
}.
Arguments Build_AclHashRule {K _ _ A}.
Arguments hr_inner {K _ _ A}.
Arguments hr_missed_action {K _ _ A}.

Section HashRule.

Context {K : Type} `{Countable K} {A : Type}.

Definition HashRule_new (missed_action : A) : AclHashRule K A :=
  {| hr_inner := ∅; hr_missed_action := missed_action |}.

Definition HashRule_add_node (node : K) (action : A) (self : AclHashRule K A) : AclHashRule K A :=
  {| hr_inner := <[node := action]> (hr_inner self); hr_missed_action := hr_missed_action self |}.

Definition HashRule_set_missed_action (action : A) (self : AclHashRule K A) : AclHashRule K A :=
  {| hr_inner := hr_inner self; hr_missed_action := action |}.

Definition HashRule_check (self : AclHashRule K A) (node : K) : bool * A :=
  match hr_inner self !! node with
  | Some action => (true, action)
  | None => (false, hr_missed_action self)
  end.

End HashRule.

Section Exact.

Context {A : Type}.

Record AclExactHostRule : Type := {
  eh_missed_action : A;
  eh_domain : AclHashRule DomainName A;
  eh_ip : AclHashRule IpAddr A
}.

Definition ExactHost_new (missed_action : A) : AclExactHostRule :=
  {| eh_missed_action := missed_action; eh_domain := HashRule_new missed_action; eh_ip := HashRule_new missed_action |}.

Definition ExactHost_add_domain (domain : DomainName) (action : A) (self : AclExactHostRule) : AclExactHostRule :=
  {| eh_missed_action := eh_missed_action self; eh_domain := HashRule_add_node domain action (eh_domain self);
     eh_ip := eh_ip self |}.

Definition ExactHost_add_ip (ip : IpAddr) (action : A) (self : AclExactHostRule) : AclExactHostRule :=
  {| eh_missed_action := eh_missed_action self; eh_domain := eh_domain self;
     eh_ip := HashRule_add_node ip action (eh_ip self) |}.

Definition ExactHost_add_host (host : Host) (action : A) (self : AclExactHostRule) : AclExactHostRule :=
  match host with
  | Host_Ip ip => ExactHost_add_ip ip action self
  | Host_Domain domain => ExactHost_add_domain domain action self
  end.

Definition ExactHost_set_missed_action (action : A) (self : AclExactHostRule) : AclExactHostRule :=
  {| eh_missed_action := action; eh_domain := HashRule_set_missed_action action (eh_domain self);
     eh_ip := HashRule_set_missed_action action (eh_ip self) |}.

Definition ExactHost_check_domain (self : AclExactHostRule) (domain : DomainName) : bool * A :=
  HashRule_check (eh_domain self) domain.

Definition ExactHost_check_ip (self : AclExactHostRule) (ip : IpAddr) : bool * A :=
  HashRule_check (eh_ip self) ip.

(** [AclExactPortRule]. *)
Definition AclExactPortRule : Type := AclHashRule Z A.

Definition ExactPort_new (missed_action : A) : AclExactPortRule := HashRule_new missed_action.

Definition ExactPort_add_port (port : Z) (action : A) (self : AclExactPortRule) : AclExactPortRule :=
  HashRule_add_node port action self.

(** The inclusive range is empty when its start is behind its end. *)
Definition port_range (first last : Z) : list Z := map (fun i => first + Z.of_nat i) (seq 0 (Z.to_nat (last + 1 - first))).

Definition ExactPort_add_port_range (first last : Z) (action : A) (self : AclExactPortRule) : AclExactPortRule :=
  fold_left (fun self port => HashRule_add_node port action self) (port_range first last) self.

Definition ExactPort_set_missed_action (action : A) (self : AclExactPortRule) : AclExactPortRule :=
  HashRule_set_missed_action action self.

Definition ExactPort_check_port (self : AclExactPortRule) (port : Z) : bool * A := HashRule_check self port.

End Exact.
Arguments AclExactHostRule : clear implicits.
Arguments AclExactPortRule : clear implicits.

(** ** Networks *)

(** The crates [ip_network] and [ip_network_table]. *)
Class IpNetworks : Type := {
  IpNetwork : Type;
  IpNetwork_eq_dec :: EqDecision IpNetwork;
  IpNetwork_countable :: Countable IpNetwork;
  IpNetwork_new : IpAddr -> Z -> option IpNetwork;
  IpNetwork_contains : IpNetwork -> IpAddr -> bool;
  IpNetwork_netmask : IpNetwork -> Z;
  IpNetworkTable : Type -> Type;
  table_new {A} : IpNetworkTable A;
  table_insert {A} : IpNetwork -> A -> IpNetworkTable A -> IpNetworkTable A;
  longest_match {A} : IpNetworkTable A -> IpAddr -> option (IpNetwork * A)
}.

Definition ip_octets (ip : IpAddr) : bytes := match ip with V4 o | V6 o => o end.
Definition ip_width (ip : IpAddr) : Z := match ip with V4 _ => 32 | V6 _ => 128 end.
Definition same_family (a b : IpAddr) : bool :=
  match a, b with V4 _, V4 _ | V6 _, V6 _ => true | _, _ => false end.

(** The first [prefix] bits of two addresses of one family agree. *)
Definition in_subnet (net : IpAddr) (prefix : Z) (ip : IpAddr) : bool :=
  let shift := ip_width net - prefix in
  same_family net ip && (Z.shiftr (from_be (ip_octets net)) shift =? Z.shiftr (from_be (ip_octets ip)) shift).

(** No bit behind the prefix is set. *)
Definition is_network_address (net : IpAddr) (prefix : Z) : bool :=
  (0 <=? prefix) && (prefix <=? ip_width net) && (from_be (ip_octets net) mod 2 ^ (ip_width net - prefix) =? 0).

Class IpNetworksLaws `{IpNetworks} : Type := {
  IpNetwork_new_some net prefix :
    ip_ok net -> is_network_address net prefix = true -> exists n, IpNetwork_new net prefix = Some n;
  IpNetwork_new_contains net prefix n ip :
    ip_ok net -> ip_ok ip -> IpNetwork_new net prefix = Some n -> IpNetwork_contains n ip = in_subnet net prefix ip;
  IpNetwork_new_netmask net prefix n :
    ip_ok net -> IpNetwork_new net prefix = Some n -> IpNetwork_netmask n = prefix;
  table_map {A} : IpNetworkTable A -> gmap IpNetwork A;
  table_map_new {A} : table_map (A := A) table_new = ∅;
  table_map_insert {A} n (a : A) t : table_map (table_insert n a t) = <[n := a]> (table_map t);
  longest_match_some {A} (t : IpNetworkTable A) ip n a :
    longest_match t ip = Some (n, a) ->
    table_map t !! n = Some a /\ IpNetwork_contains n ip = true /\
    forall n' a', table_map t !! n' = Some a' -> IpNetwork_contains n' ip = true ->
      IpNetwork_netmask n' <= IpNetwork_netmask n;
  longest_match_none {A} (t : IpNetworkTable A) ip :
    longest_match t ip = None ->
    forall n a, table_map t !! n = Some a -> IpNetwork_contains n ip = false
}.

Section Network.

Context `{HashOrder} `{IpNetworks}.

Record AclNetworkRuleBuilder (A : Type) : Type := {
  nb_inner : gmap IpNetwork A;
  nb_missed_action : A
}.
Arguments nb_inner {A}.
Arguments nb_missed_action {A}.

Record AclNetworkRule (A : Type) : Type := {
  nr_inner : IpNetworkTable A;
  nr_default_action : A
}.
Arguments nr_inner {A}.
Arguments nr_default_action {A}.

Definition NetworkBuilder_new {A} (missed_action : A) : AclNetworkRuleBuilder A :=
  {| nb_inner := ∅; nb_missed_action := missed_action |}.

Definition NetworkBuilder_add_network {A} (network : IpNetwork) (action : A) (self : AclNetworkRuleBuilder A)
    : AclNetworkRuleBuilder A :=
  {| nb_inner := <[network := action]> (nb_inner self); nb_missed_action := nb_missed_action self |}.

Definition NetworkBuilder_set_missed_action {A} (action : A) (self : AclNetworkRuleBuilder A) : AclNetworkRuleBuilder A :=
  {| nb_inner := nb_inner self; nb_missed_action := action |}.

Definition NetworkBuilder_build {A} (self : AclNetworkRuleBuilder A) : AclNetworkRule A :=
  {| nr_inner := fold_left (fun inner '(net, action) => table_insert net action inner) (hash_iter (nb_inner self)) table_new;
     nr_default_action := nb_missed_action self |}.

Definition NetworkRule_check {A} (self : AclNetworkRule A) (ip : IpAddr) : bool * A :=
  match longest_match (nr_inner self) ip with
  | Some (_, action) => (true, action)
  | None => (false, nr_default_action self)
  end.

(** [IpNetwork::new(ip, prefix).unwrap()] for each element of a list. *)
Fixpoint networks_unwrap (nets : list (IpAddr * Z)) : pure (list IpNetwork) :=
  match nets with
  | [] => Ok []
  | (ip, prefix) :: nets' =>
      match IpNetwork_new ip prefix with
      | None => Panic
      | Some n => let? ns := networks_unwrap nets' in Ok (n :: ns)
      end
  end.

(** [Ipv6Addr::new]: eight segments. *)
Definition ipv6_new (segments : list Z) : IpAddr := V6 (concat (map (to_be 2) segments)).

Definition DEFAULT_EGRESS_RULE : list (IpAddr * Z) :=
  [(V4 [x00; x00; x00; x00], 32); (V4 [x7f; x00; x00; x00], 8); (V4 [xa9; xfe; x00; x00], 16);
   (V6 (replicate 16 x00), 128); (V6 (replicate 15 x00 ++ [x01]), 128);
   (ipv6_new [0xfe80; 0; 0; 0; 0; 0; 0; 0], 10); (ipv6_new [0x0100; 0; 0; 0; 0; 0; 0; 0], 64)].

Definition DEFAULT_INGRESS_RULE : list (IpAddr * Z) :=
  [(V4 [x7f; x00; x00; x01], 32); (V6 (replicate 15 x00 ++ [x01]), 128)].

Definition NetworkBuilder_new_egress (missed_action : AclAction) : pure (AclNetworkRuleBuilder AclAction) :=
  let? rule := networks_unwrap DEFAULT_EGRESS_RULE in
  Ok {| nb_inner := fold_left (fun inner net => <[net := Forbid]> inner) rule ∅; nb_missed_action := missed_action |}.

Definition NetworkBuilder_new_ingress (missed_action : AclAction) : pure (AclNetworkRuleBuilder AclAction) :=
  let? rule := networks_unwrap DEFAULT_INGRESS_RULE in
  Ok {| nb_inner := fold_left (fun inner net => <[net := Permit]> inner) rule ∅; nb_missed_action := missed_action |}.

End Network.
Arguments AclNetworkRule {_} A.
Arguments AclNetworkRuleBuilder {_} A.
Arguments Build_AclNetworkRuleBuilder {_ A}.
Arguments Build_AclNetworkRule {_ A}.
Arguments nb_inner {_ A}.
Arguments nb_missed_action {_ A}.
Arguments nr_inner {_ A}.
Arguments nr_default_action {_ A}.

(** ** Suffixes of domains *)

(** The crate [radix_trie], with texts as keys. *)
Class Tries : Type := {
  Trie : Type -> Type;
  trie_new {V} : Trie V;
  trie_insert {V} : bytes -> V -> Trie V -> Trie V;
  trie_is_empty {V} : Trie V -> bool;
  get_ancestor_value {V} : Trie V -> bytes -> option V
}.

Class TriesLaws `{Tries} : Type := {
  trie_map {V} : Trie V -> gmap bytes V;
  trie_map_new {V} : trie_map (V := V) trie_new = ∅;
  trie_map_insert {V} k (v : V) t : trie_map (trie_insert k v t) = <[k := v]> (trie_map t);
  trie_is_empty_spec {V} (t : Trie V) : trie_is_empty t = true <-> trie_map t = ∅;
  get_ancestor_value_some {V} (t : Trie V) key v :
    get_ancestor_value t key = Some v ->
    exists k, k `prefix_of` key /\ trie_map t !! k = Some v /\
      forall k' v', k' `prefix_of` key -> trie_map t !! k' = Some v' -> len k' <= len k;
  get_ancestor_value_none {V} (t : Trie V) key :
    get_ancestor_value t key = None -> forall k v, trie_map t !! k = Some v -> ~ k `prefix_of` key
}.

Section Suffix.

Context `{HashOrder} `{Tries} {A : Type}.

(** [AclRadixTrieRuleBuilder<String, Action>]. *)
Record AclRadixTrieRuleBuilder : Type := {
  tb_inner : gmap bytes A;
  tb_missed_action : A
}.

Record AclRadixTrieRule : Type := {
  tr_inner : Trie A;
  tr_missed_action : A
}.

Definition TrieBuilder_new (missed_action : A) : AclRadixTrieRuleBuilder :=
  {| tb_inner := ∅; tb_missed_action := missed_action |}.

Definition TrieBuilder_add_node (node : bytes) (action : A) (self : AclRadixTrieRuleBuilder) : AclRadixTrieRuleBuilder :=
  {| tb_inner := <[node := action]> (tb_inner self); tb_missed_action := tb_missed_action self |}.

Definition TrieBuilder_set_missed_action (action : A) (self : AclRadixTrieRuleBuilder) : AclRadixTrieRuleBuilder :=
  {| tb_inner := tb_inner self; tb_missed_action := action |}.

Definition TrieBuilder_build (self : AclRadixTrieRuleBuilder) : AclRadixTrieRule :=
  {| tr_inner := fold_left (fun trie '(k, v) => trie_insert k v trie) (hash_iter (tb_inner self)) trie_new;
     tr_missed_action := tb_missed_action self |}.

Definition TrieRule_check (self : AclRadixTrieRule) (key : bytes) : bool * A :=
  match get_ancestor_value (tr_inner self) key with
  | Some action => (true, action)
  | None => (false, tr_missed_action self)
  end.

Definition SuffixBuilder_add_node (domain : DomainName) (action : A) (self : AclRadixTrieRuleBuilder)
    : pure AclRadixTrieRuleBuilder :=
  let? reversed_k := DomainName_to_reversed domain in
  Ok (TrieBuilder_add_node reversed_k action self).

Definition SuffixRule_check (self : AclRadixTrieRule) (domain : DomainName) : pure (bool * A) :=
  let? reversed := DomainName_to_reversed domain in
  Ok (TrieRule_check self reversed).

End Suffix.
Arguments AclRadixTrieRuleBuilder : clear implicits.
Arguments AclRadixTrieRule {_} A.

(** ** Regular expressions *)

(** The crate [regex]; a set is compiled from the texts of its expressions. *)
Class Regexes : Type := {
  Regex : Type;
  Regex_as_str : Regex -> bytes;
  RegexSet : Type;
  RegexSet_new : list bytes -> option RegexSet;
  RegexSet_is_match : RegexSet -> bytes -> bool
}.

Class RegexesLaws `{Regexes} : Type := {
  regex_matches : bytes -> bytes -> bool;
  RegexSet_is_match_spec rs set text :
    RegexSet_new rs = Some set -> RegexSet_is_match set text = existsb (fun r => regex_matches r text) rs
}.

Section Regex.

Context `{HashOrder} `{Tries} `{Regexes} {A : Type} `{OrderedAction A}.

Record RegexSetBuilder : Type := { rb_inner : gmap bytes A }.

Record RegexSetMatch : Type := { rm_inner : list (A * RegexSet) }.

Definition RegexSetBuilder_default : RegexSetBuilder := {| rb_inner := ∅ |}.

Definition RegexSetBuilder_add_regex (regex : Regex) (action : A) (self : RegexSetBuilder) : RegexSetBuilder :=
  {| rb_inner := <[Regex_as_str regex := action]> (rb_inner self) |}.

(** [action_map.entry(action).or_default().push(r)]. *)
Definition push_regex (action_map : list (A * list bytes)) (entry : bytes * A) : list (A * list bytes) :=
  btree_alter act_le entry.2 (fun v => default [] v ++ [entry.1]) action_map.

Fixpoint compile_regexes (action_map : list (A * list bytes)) : pure (list (A * RegexSet)) :=
  match action_map with
  | [] => Ok []
  | (action, v) :: action_map' =>
      match RegexSet_new v with
      | None => Panic
      | Some set => let? m := compile_regexes action_map' in Ok ((action, set) :: m)
      end
  end.

Definition RegexSetBuilder_build (self : RegexSetBuilder) : pure RegexSetMatch :=
  let action_map := fold_left push_regex (hash_iter (rb_inner self)) [] in
  let? action_map := compile_regexes action_map in
  Ok {| rm_inner := action_map |}.

Fixpoint first_match (inner : list (A * RegexSet)) (text : bytes) : option A :=
  match inner with
  | [] => None
  | (action, rs) :: inner' => if RegexSet_is_match rs text then Some action else first_match inner' text
  end.

Definition RegexSetMatch_check (self : RegexSetMatch) (text : bytes) : option A := first_match (rm_inner self) text.

Record AclRegexDomainRuleBuilder : Type := {
  db_prefix_regex : gmap DomainName RegexSetBuilder;
  db_full_regex : RegexSetBuilder;
  db_missed_action : A
}.

Record AclRegexDomainRule : Type := {
  dr_prefix_match_trie : Trie (DomainName * RegexSetMatch);
  dr_full_match_action_map : RegexSetMatch;
  dr_missed_action : A
}.

Definition RegexDomainBuilder_new (missed_action : A) : AclRegexDomainRuleBuilder :=
  {| db_prefix_regex := ∅; db_full_regex := RegexSetBuilder_default; db_missed_action := missed_action |}.

Definition RegexDomainBuilder_add_prefix_regex (suffix_domain : DomainName) (regex : Regex) (action : A)
    (self : AclRegexDomainRuleBuilder) : AclRegexDomainRuleBuilder :=
  let set := default RegexSetBuilder_default (db_prefix_regex self !! suffix_domain) in
  {| db_prefix_regex := <[suffix_domain := RegexSetBuilder_add_regex regex action set]> (db_prefix_regex self);
     db_full_regex := db_full_regex self; db_missed_action := db_missed_action self |}.

Definition RegexDomainBuilder_add_full_regex (regex : Regex) (action : A)
    (self : AclRegexDomainRuleBuilder) : AclRegexDomainRuleBuilder :=
  {| db_prefix_regex := db_prefix_regex self; db_full_regex := RegexSetBuilder_add_regex regex action (db_full_regex self);
     db_missed_action := db_missed_action self |}.

Definition RegexDomainBuilder_set_missed_action (action : A) (self : AclRegexDomainRuleBuilder) : AclRegexDomainRuleBuilder :=
  {| db_prefix_regex := db_prefix_regex self; db_full_regex := db_full_regex self; db_missed_action := action |}.

Fixpoint build_prefix_tries (prefix_regex : list (DomainName * RegexSetBuilder))
    (trie : Trie (DomainName * RegexSetMatch)) : pure (Trie (DomainName * RegexSetMatch)) :=
  match prefix_regex with
  | [] => Ok trie
  | (suffix, m) :: prefix_regex' =>
      let? regex_map := RegexSetBuilder_build m in
      let? reversed_k := DomainName_to_reversed suffix in
      build_prefix_tries prefix_regex' (trie_insert reversed_k (suffix, regex_map) trie)
  end.

Definition RegexDomainBuilder_build (self : AclRegexDomainRuleBuilder) : pure AclRegexDomainRule :=
  let? full_match_action_map := RegexSetBuilder_build (db_full_regex self) in
  let? prefix_match_trie := build_prefix_tries (hash_iter (db_prefix_regex self)) trie_new in
  Ok {| dr_prefix_match_trie := prefix_match_trie; dr_full_match_action_map := full_match_action_map;
        dr_missed_action := db_missed_action self |}.

(** The chain of conditions before the first return. *)
Definition check_prefix_regex (self : AclRegexDomainRule) (domain : DomainName) : pure (option A) :=
  if trie_is_empty (dr_prefix_match_trie self) then Ok None
  else
    let? reversed := DomainName_to_reversed domain in
    match get_ancestor_value (dr_prefix_match_trie self) reversed with
    | None => Ok None
    | Some (suffix, regex_map) =>
        let? prefix := DomainName_strip_suffix domain suffix in
        match prefix with
        | None => Ok None
        | Some prefix => Ok (RegexSetMatch_check regex_map prefix)
        end
    end.

Definition RegexDomainRule_check (self : AclRegexDomainRule) (domain : DomainName) : pure (bool * A) :=
  let? by_prefix := check_prefix_regex self domain in
  match by_prefix with
  | Some action => Ok (true, action)
  | None =>
      let? text := DomainName_as_str domain in
      match RegexSetMatch_check (dr_full_match_action_map self) text with
      | Some action => Ok (true, action)
      | None => Ok (false, dr_missed_action self)
      end
  end.

End Regex.
Arguments RegexSetBuilder : clear implicits.
Arguments RegexSetMatch {_} A.
Arguments AclRegexDomainRuleBuilder : clear implicits.
Arguments AclRegexDomainRule {_ _} A.

(** ** The rules for the host of a destination *)

Section DstHost.

Context `{HashOrder} `{IpNetworks} `{Tries} `{Regexes}.

Record AclDstHostRuleSetBuilder (A : Type) : Type := {
  hb_exact : option (AclExactHostRule A);
  hb_subnet : option (AclNetworkRuleBuilder A);
  hb_suffix : option (AclRadixTrieRuleBuilder A);
  hb_regex : option (AclRegexDomainRuleBuilder A)
}.

Record AclDstHostRuleSet (A : Type) : Type := {
  hs_exact : option (AclExactHostRule A);
  hs_subnet : option (AclNetworkRule A);
  hs_suffix : option (AclRadixTrieRule A);
  hs_regex : option (AclRegexDomainRule A);
  hs_missed_action : A
}.

Definition DstHostBuilder_default {A} : AclDstHostRuleSetBuilder A :=
  {| hb_exact := None; hb_subnet := None; hb_suffix := None; hb_regex := None |}.

(** [option.as_ref().map(|b| b.build())] with a build that may panic. *)
Definition option_build {A B} (f : A -> pure B) (o : option A) : pure (option B) :=
  match o with
  | None => Ok None
  | Some a => let? b := f a in Ok (Some b)
  end.

Definition DstHostBuilder_build_with_missed_action {A} `{OrderedAction A} (self : AclDstHostRuleSetBuilder A)
    (missed_action : A) : pure (AclDstHostRuleSet A) :=
  let? regex := option_build RegexDomainBuilder_build (hb_regex A self) in
  Ok {| hs_exact := hb_exact A self; hs_subnet := option_map NetworkBuilder_build (hb_subnet A self);
        hs_suffix := option_map TrieBuilder_build (hb_suffix A self); hs_regex := regex;
        hs_missed_action := missed_action |}.

(** [missed_action = missed_action.restrict(rule.missed_action())], for a rule
    that is configured. *)
Definition restrict_by {R} (missed : R -> AclAction) (rule : option R) (action : AclAction) : AclAction :=
  match rule with Some r => restrict action (missed r) | None => action end.

Definition DstHostBuilder_build (self : AclDstHostRuleSetBuilder AclAction) : pure (AclDstHostRuleSet AclAction) :=
  let missed_action := restrict_by eh_missed_action (hb_exact _ self) Permit in
  let missed_action := restrict_by nb_missed_action (hb_subnet _ self) missed_action in
  let missed_action := restrict_by tb_missed_action (hb_suffix _ self) missed_action in
  let missed_action := restrict_by db_missed_action (hb_regex _ self) missed_action in
  let? regex := option_build RegexDomainBuilder_build (hb_regex _ self) in
  Ok {| hs_exact := hb_exact _ self; hs_subnet := option_map NetworkBuilder_build (hb_subnet _ self);
        hs_suffix := option_map TrieBuilder_build (hb_suffix _ self); hs_regex := regex;
        hs_missed_action := missed_action |}.

(** [if let Some(rule) = rule { let (found, action) = check(rule); if found
    { return (true, action); } }], and then the rest. *)
Definition check_rule {A R} (rule : option R) (check : R -> pure (bool * A)) (rest : pure (bool * A)) : pure (bool * A) :=
  match rule with
  | None => rest
  | Some r => let? '(found, action) := check r in if found : bool then Ok (true, action) else rest
  end.

Definition DstHost_check {A} (self : AclDstHostRuleSet A) (upstream : Host) : pure (bool * A) :=
  let missed := Ok (false, hs_missed_action A self) in
  match upstream with
  | Host_Ip ip =>
      check_rule (hs_exact A self) (fun rule => Ok (ExactHost_check_ip rule ip))
        (check_rule (hs_subnet A self) (fun rule => Ok (NetworkRule_check rule ip)) missed)
  | Host_Domain domain =>
      check_rule (hs_exact A self) (fun rule => Ok (ExactHost_check_domain rule domain))
        (check_rule (hs_suffix A self) (fun rule => SuffixRule_check rule domain)
          (check_rule (hs_regex A self) (fun rule => RegexDomainRule_check rule domain) missed))
  end.

End DstHost.
Arguments AclDstHostRuleSetBuilder {_} A.
Arguments AclDstHostRuleSet {_ _ _} A.
Arguments hb_exact {_ A}.
Arguments hb_subnet {_ A}.
Arguments hb_suffix {_ A}.
Arguments hb_regex {_ A}.
Arguments hs_exact {_ _ _ A}.
Arguments hs_subnet {_ _ _ A}.
Arguments hs_suffix {_ _ _ A}.
Arguments hs_regex {_ _ _ A}.
Arguments hs_missed_action {_ _ _ A}.

(** ** User agents *)

(** The order of strings. *)
Fixpoint str_le (a b : bytes) : bool :=
  match a, b with
  | [], _ => true
  | _ :: _, [] => false
  | x :: a', y :: b' => (u8 x <? u8 y) || ((u8 x =? u8 y) && str_le a' b')
  end.

(** [str::is_char_boundary], and the slice [&s[i..]] of a text. *)
Definition is_char_boundary (s : bytes) (i : Z) : bool :=
  (i =? 0) || (i =? len s) ||
  match s !! Z.to_nat i with Some b => negb (is_cont b) | None => false end.

Definition str_slice_from {E} (s : bytes) (i : Z) : res E bytes :=
  if is_char_boundary s i then slice_from s i else Panic.

(** [str::find] of a text. *)
Fixpoint str_find (name s : bytes) : option Z :=
  if starts_with name s then Some 0
  else match s with [] => None | _ :: s' => option_map (Z.add 1) (str_find name s') end.

Section UserAgent.

Context {A : Type}.

Record AclUserAgentRule : Type := {
  ua_inner : list (bytes * A);
  ua_missed_action : A
}.

Definition UserAgent_new (missed_action : A) : AclUserAgentRule := {| ua_inner := []; ua_missed_action := missed_action |}.

Definition UserAgent_add_ua_name (ua : bytes) (action : A) (self : AclUserAgentRule) : AclUserAgentRule :=
  {| ua_inner := btree_insert str_le (to_ascii_lowercase ua) action (ua_inner self);
     ua_missed_action := ua_missed_action self |}.

Definition UserAgent_set_missed_action (action : A) (self : AclUserAgentRule) : AclUserAgentRule :=
  {| ua_inner := ua_inner self; ua_missed_action := action |}.

(** The loop over the occurrences of one name: is one of them a whole word? *)
Fixpoint ua_search (fuel : nat) (name value : bytes) (offset : Z) : pure bool :=
  match fuel with
  | O => Panic
  | S fuel' =>
      if offset <? len value then
        let? vs := str_slice_from value offset in
        match str_find name vs with
        | None => Ok false
        | Some pos =>
            let? pos_pre := uadd offset pos in
            let? before :=
              (if pos_pre =? 0 then Ok true
               else let? i := usub pos_pre 1 in let? b := index value i in Ok (bool_decide (b ∈ [x20; x3b]))) in
            let? pos_next := uadd pos_pre (len name) in
            if negb before then ua_search fuel' name value pos_next
            else
              let? after :=
                (if pos_next <? len value
                 then let? b := index value pos_next in Ok (bool_decide (b ∈ [x2f; x20; x3b])) else Ok true) in
              if negb after then ua_search fuel' name value pos_next else Ok true
        end
      else Ok false
  end.

Fixpoint ua_check_names (names : list (bytes * A)) (value : bytes) : pure (option A) :=
  match names with
  | [] => Ok None
  | (name, action) :: names' =>
      if len name =? 0 then ua_check_names names' value
      else
        let? found := ua_search (S (length value)) name value 0 in
        if found : bool then Ok (Some action) else ua_check_names names' value
  end.

Definition UserAgent_check (self : AclUserAgentRule) (ua_value : bytes) : pure (bool * A) :=
  let value := to_ascii_lowercase ua_value in
  let? r := ua_check_names (ua_inner self) value in
  match r with
  | Some action => Ok (true, action)
  | None => Ok (false, ua_missed_action self)
  end.

End UserAgent.
Arguments AclUserAgentRule : clear implicits.

(** ** Redirections of names: [lib/vey-types/src/resolve/redirect.rs] *)

Inductive QueryStrategy : Type := Ipv4Only | Ipv6Only | Ipv4First | Ipv6First.

Definition pick_first (self : QueryStrategy) (ip4 ip6 : list IpAddr) : option IpAddr :=
  match self with
  | Ipv4Only => head ip4
  | Ipv6Only => head ip6
  | Ipv4First => match ip4 with ip :: _ => Some ip | [] => head ip6 end
  | Ipv6First => match ip6 with ip :: _ => Some ip | [] => head ip4 end
  end.

Inductive ResolveRedirectionValue : Type :=
| Redirect_Domain (d : DomainName)
| Redirect_Ip (ip4 ip6 : list IpAddr).

Record ResolveRedirectionBuilder : Type := {
  rdb_ht : gmap DomainName ResolveRedirectionValue;
  rdb_trie : gmap DomainName ResolveRedirectionValue
}.

(** The loop that both insertions of addresses have. *)
Fixpoint split_ips (ips ipv4 ipv6 : list IpAddr) : list IpAddr * list IpAddr :=
  match ips with
  | [] => (ipv4, ipv6)
  | V4 o :: ips' => split_ips ips' (ipv4 ++ [V4 o]) ipv6
  | V6 o :: ips' =>
      match to_ipv4_mapped o with
      | Some o4 => split_ips ips' (ipv4 ++ [V4 o4]) ipv6
      | None => split_ips ips' ipv4 (ipv6 ++ [V6 o])
      end
  end.

Definition insert_exact_addr (domain : DomainName) (ips : list IpAddr) (self : ResolveRedirectionBuilder) : ResolveRedirectionBuilder :=
  let '(ipv4, ipv6) := split_ips ips [] [] in
  {| rdb_ht := <[domain := Redirect_Ip ipv4 ipv6]> (rdb_ht self); rdb_trie := rdb_trie self |}.

Definition insert_exact_alias (domain alias : DomainName) (self : ResolveRedirectionBuilder) : ResolveRedirectionBuilder :=
  {| rdb_ht := <[domain := Redirect_Domain alias]> (rdb_ht self); rdb_trie := rdb_trie self |}.

Definition insert_suffix_alias (from to : DomainName) (self : ResolveRedirectionBuilder) : ResolveRedirectionBuilder :=
  {| rdb_ht := rdb_ht self; rdb_trie := <[from := Redirect_Domain to]> (rdb_trie self) |}.

Definition insert_suffix_addr (domain : DomainName) (ips : list IpAddr) (self : ResolveRedirectionBuilder) : ResolveRedirectionBuilder :=
  let '(ipv4, ipv6) := split_ips ips [] [] in
  {| rdb_ht := rdb_ht self; rdb_trie := <[domain := Redirect_Ip ipv4 ipv6]> (rdb_trie self) |}.

Section Redirect.

Context `{HashOrder} `{Tries}.

Record TrieValue : Type := { tv_from : DomainName; tv_to : ResolveRedirectionValue }.

Record ResolveRedirection : Type := {
  rd_ht : gmap DomainName ResolveRedirectionValue;
  rd_match_trie : bool;
  rd_trie : Trie TrieValue
}.

Fixpoint build_redirect_trie (entries : list (DomainName * ResolveRedirectionValue)) (trie : Trie TrieValue) : pure (Trie TrieValue) :=
  match entries with
  | [] => Ok trie
  | (k, v) :: entries' =>
      let? lookup_k := DomainName_to_reversed k in
      build_redirect_trie entries' (trie_insert lookup_k {| tv_from := k; tv_to := v |} trie)
  end.

Definition Redirection_build (self : ResolveRedirectionBuilder) : pure ResolveRedirection :=
  let? trie := build_redirect_trie (hash_iter (rdb_trie self)) trie_new in
  Ok {| rd_ht := rdb_ht self; rd_match_trie := bool_decide (rdb_trie self <> ∅); rd_trie := trie |}.

Definition query_value (self : ResolveRedirection) (domain : DomainName)
    : res DomainNameParseError (option ResolveRedirectionValue) :=
  match rd_ht self !! domain with
  | Some v => Ok (Some v)
  | None =>
      if rd_match_trie self then
        let? reversed_domain := DomainName_to_reversed domain in
        match get_ancestor_value (rd_trie self) reversed_domain with
        | None => Ok None
        | Some node =>
            match tv_to node with
            | Redirect_Domain to =>
                let? replaced := DomainName_replace_suffix domain (tv_from node) to in
                match replaced with
                | Some replaced => Ok (Some (Redirect_Domain replaced))
                | None => Ok None
                end
            | Redirect_Ip ipv4 ipv6 => Ok (Some (Redirect_Ip ipv4 ipv6))
            end
        end
      else Ok None
  end.

(** The part of [query_first] behind the exact matches. *)
Definition query_first_trie (self : ResolveRedirection) (domain : DomainName) (strategy : QueryStrategy)
    : res DomainNameParseError (option Host) :=
  if rd_match_trie self then
    let? reversed_domain := DomainName_to_reversed domain in
    match get_ancestor_value (rd_trie self) reversed_domain with
    | None => Ok None
    | Some node =>
        match tv_to node with
        | Redirect_Domain to =>
            let? replaced := DomainName_replace_suffix domain (tv_from node) to in
            match replaced with
            | Some replaced => Ok (Some (Host_Domain replaced))
            | None => Ok None
            end
        | Redirect_Ip ip4 ip6 =>
            match pick_first strategy ip4 ip6 with
            | Some ip => Ok (Some (Host_Ip ip))
            | None => Ok None
            end
        end
    end
  else Ok None.

Definition query_first (self : ResolveRedirection) (domain : DomainName) (strategy : QueryStrategy)
    : res DomainNameParseError (option Host) :=
  match rd_ht self !! domain with
  | Some (Redirect_Domain alias) => Ok (Some (Host_Domain alias))
  | Some (Redirect_Ip ip4 ip6) =>
      match pick_first strategy ip4 ip6 with
      | Some ip => Ok (Some (Host_Ip ip))
      | None => query_first_trie self domain strategy
      end
  | None => query_first_trie self domain strategy
  end.

End Redirect.
