(* ===== verification/AclInstances.v ===== *)
(** Models of the crates that [Acl.v] has as classes, which show that their laws
    can hold: finite maps in the place of the tables and tries, and expressions
    that match where their text occurs. *)

From Stdlib Require Import ZArith Lia Strings.Byte.
From stdpp Require Import base list gmap.
From S2P Require Import Prelude Text Domain IpAddr Host Acl.

Definition plain_order : HashOrder :=
  {| hash_iter _ _ _ _ m := map_to_list m; hash_iter_perm _ _ _ _ _ := reflexivity _ |}.

(** ** Networks *)

Section Longest.

Context {K A : Type} (size : K -> Z).

(** The entry with the largest key. *)
Fixpoint largest (l : list (K * A)) : option (K * A) :=
  match l with
  | [] => None
  | x :: l' =>
      match largest l' with
      | Some y => if size x.1 <=? size y.1 then Some y else Some x
      | None => Some x
      end
  end.

Lemma largest_none l : largest l = None -> l = [].
Proof. destruct l as [|x l]; [done|]. cbn. destruct (largest l); [by destruct (_ <=? _)|done]. Qed.

Lemma largest_some l x : largest l = Some x -> x ∈ l /\ forall y, y ∈ l -> size y.1 <= size x.1.
Proof.
  revert x. induction l as [|z l IH]; intros x; [done|]. cbn. destruct (largest l) as [y|] eqn:Hl.
  - destruct (IH y eq_refl) as [Hy Hmax]. destruct (Z.leb_spec (size z.1) (size y.1)); intros [= <-].
    + split; [by right|]. intros w [->|Hw]%elem_of_cons; [done|by apply Hmax].
    + split; [by left|]. intros w [->|Hw]%elem_of_cons; [lia|]. specialize (Hmax w Hw). lia.
  - apply largest_none in Hl as ->. intros [= <-]. split; [by left|]. by intros w ->%list_elem_of_singleton.
Qed.

End Longest.

Definition plain_networks : IpNetworks := {|
  IpNetwork := IpAddr * Z;
  IpNetwork_new ip prefix := if is_network_address ip prefix then Some (ip, prefix) else None;
  IpNetwork_contains n ip := in_subnet n.1 n.2 ip;
  IpNetwork_netmask n := n.2;
  IpNetworkTable A := gmap (IpAddr * Z) A;
  table_new A := ∅;
  table_insert A n a t := <[n := a]> t;
  longest_match A t ip := largest snd (filter (fun x => in_subnet x.1.1 x.1.2 ip = true) (map_to_list t))
|}.

Lemma plain_networks_new net prefix n :
  IpNetwork_new (IpNetworks := plain_networks) net prefix = Some n -> n = (net, prefix).
Proof. cbn. by destruct (is_network_address net prefix); [intros [= <-]|]. Qed.

Definition plain_networks_laws : @IpNetworksLaws plain_networks.
Proof.
  refine {| table_map A t := (t : IpNetworkTable (IpNetworks := plain_networks) A) |}; cbn.
  - intros net prefix _ ->. by eexists.
  - intros net prefix n ip _ _ Hn. by apply plain_networks_new in Hn as ->.
  - intros net prefix n _ Hn. by apply plain_networks_new in Hn as ->.
  - done.
  - done.
  - intros A t ip n a [Hin Hmax]%largest_some. apply list_elem_of_filter in Hin as [Hc Hin%elem_of_map_to_list].
    split; [done|]. split; [done|]. intros n' a' Hn' Hc'. apply (Hmax (n', a')), list_elem_of_filter.
    split; [done|]. by apply elem_of_map_to_list.
  - intros A t ip Hn%largest_none n a Hin. apply not_true_iff_false. intros Hc.
    assert ((n, a) ∈ filter (fun x : IpAddr * Z * A => in_subnet x.1.1 x.1.2 ip = true) (map_to_list t)) as Hf
      by (apply list_elem_of_filter; split; [done|by apply elem_of_map_to_list]).
    rewrite Hn in Hf. by apply not_elem_of_nil in Hf.
Defined.

(** ** Tries *)

(** The value of the longest prefix, going through the prefixes from the longest. *)
Fixpoint prefix_value {V} (t : gmap bytes V) (key : bytes) (n : nat) : option V :=
  match t !! take n key with
  | Some v => Some v
  | None => match n with O => None | S n' => prefix_value t key n' end
  end.

Lemma prefix_value_some {V} (t : gmap bytes V) key n v :
  prefix_value t key n = Some v ->
  exists m, t !! take m key = Some v /\ forall m' v', (m' <= n)%nat -> t !! take m' key = Some v' -> (m' <= m)%nat.
Proof.
  induction n as [|n IH]; cbn [prefix_value]; destruct (t !! take _ key) as [w|] eqn:Hk; try (intros [= <-]; eexists; split; [done|]; lia).
  - done.
  - intros (m & Hm & Hmax)%IH. exists m. split; [done|]. intros m' v' Hle Hm'.
    destruct (decide (m' = S n)) as [->|]; [congruence|]. apply (Hmax m' v'); [lia|done].
Qed.

Lemma prefix_value_none {V} (t : gmap bytes V) key n m v : prefix_value t key n = None -> (m <= n)%nat -> t !! take m key <> Some v.
Proof.
  induction n as [|n IH]; cbn [prefix_value].
  - destruct (t !! take 0 key) as [w|] eqn:Hk; [done|]. intros _ Hm. assert (m = 0%nat) as -> by lia. by rewrite Hk.
  - destruct (t !! take (S n) key) as [w|] eqn:Hk; [done|]. intros Hn Hm.
    destruct (decide (m = S n)) as [->|]; [by rewrite Hk|]. apply IH; [done|lia].
Qed.

Definition plain_tries : Tries := {|
  Trie V := gmap bytes V;
  trie_new V := ∅;
  trie_insert V k v t := <[k := v]> t;
  trie_is_empty V t := bool_decide (t = ∅) ;
  get_ancestor_value V t key := prefix_value t key (length key)
|}.

Definition plain_tries_laws : @TriesLaws plain_tries.
Proof.
  refine {| trie_map V t := (t : Trie (Tries := plain_tries) V) |}; cbn.
  - done.
  - done.
  - intros V t. apply bool_decide_eq_true.
  - intros V t key v (m & Hm & Hmax)%prefix_value_some. exists (take m key). split; [by exists (drop m key); rewrite take_drop|].
    split; [done|]. intros k' v' [r Hr] Hk'. assert (k' = take (length k') key) as Ht by by rewrite Hr, take_app_length.
    assert (length k' <= length key)%nat as Hl by (rewrite Hr, length_app; lia).
    rewrite Ht in Hk'. specialize (Hmax _ _ Hl Hk'). unfold len. rewrite length_take. lia.
  - intros V t key Hn k v Hk [r Hr]. assert (k = take (length k) key) as Ht by by rewrite Hr, take_app_length.
    apply (prefix_value_none t key (length key) (length k) v Hn); [rewrite Hr, length_app; lia|by rewrite <- Ht].
Defined.

(** ** Regular expressions *)

(** Expressions without special characters. *)
Definition literal_matches (r text : bytes) : bool := match str_find r text with Some _ => true | None => false end.

Definition literal_regexes : Regexes := {|
  Regex := bytes;
  Regex_as_str r := r;
  RegexSet := list bytes;
  RegexSet_new rs := Some rs;
  RegexSet_is_match rs text := existsb (fun r => literal_matches r text) rs
|}.

Definition literal_regexes_laws : @RegexesLaws literal_regexes.
Proof. refine {| regex_matches := literal_matches |}. by intros rs set text [= <-]. Defined.
