(* ===== verification/AclSpec.v ===== *)
(** What the rules of [Acl.v] decide: the lemmas on compiled rules, the policy of
    a set of rules for hosts, whole words in user agents, and redirections. *)

From Stdlib Require Import ZArith Lia Strings.Byte Sorted.
From stdpp Require Import base list gmap sets.
From S2P Require Import Prelude Text Domain IpAddr Host Acl.

(** ** Maps that are filled from a hash map *)

Section Fill.

Context {K : Type} `{Countable K} {A : Type}.

(** Insert the entries of a list one after the other. *)
Definition fill (l : list (K * A)) (m : gmap K A) : gmap K A := fold_left (fun m '(k, a) => <[k := a]> m) l m.

Lemma fill_empty l : fill l ∅ = list_to_map (rev l).
Proof.
  unfold fill. rewrite <- fold_left_rev_right. induction (rev l) as [|[k a] l' IH]; [done|]. cbn. by rewrite IH.
Qed.

Lemma fill_lookup l k a : NoDup l.*1 -> fill l ∅ !! k = Some a <-> (k, a) ∈ l.
Proof.
  intros Hl. rewrite fill_empty, <- elem_of_list_to_map.
  - by rewrite <- Permutation_rev.
  - by rewrite <- Permutation_rev.
Qed.

Lemma fill_perm l m : l ≡ₚ map_to_list m -> fill l ∅ = m.
Proof.
  intros Hl. apply map_eq. intros k. apply option_eq. intros a.
  rewrite fill_lookup, Hl, elem_of_map_to_list; [done|]. rewrite Hl. apply NoDup_fst_map_to_list.
Qed.

Lemma fill_hash `{HashOrder} m : fill (hash_iter m) ∅ = m.
Proof. apply fill_perm, hash_iter_perm. Qed.

End Fill.

Lemma fold_left_commute {A B C} (f : A -> C -> A) (g : B -> C -> B) (h : A -> B) l :
  (forall a c, h (f a c) = g (h a) c) -> forall a, h (fold_left f l a) = fold_left g l (h a).
Proof. intros Hh. induction l as [|c l IH]; intros a; [done|]. cbn. by rewrite IH, Hh. Qed.

Section Built.

Context `{HashOrder} {A : Type}.

Lemma network_built `{IpNetworksLaws} (b : AclNetworkRuleBuilder A) :
  table_map (nr_inner (NetworkBuilder_build b)) = nb_inner b.
Proof.
  cbn. rewrite (fold_left_commute _ (fun m '(k, a) => <[k := a]> m)) by (intros ? []; apply table_map_insert).
  rewrite table_map_new. apply fill_hash.
Qed.

Lemma trie_built `{TriesLaws} (b : AclRadixTrieRuleBuilder A) :
  trie_map (tr_inner (TrieBuilder_build b)) = tb_inner b.
Proof.
  cbn. rewrite (fold_left_commute _ (fun m '(k, a) => <[k := a]> m)) by (intros ? []; apply trie_map_insert).
  rewrite trie_map_new. apply fill_hash.
Qed.

End Built.

(** ** Names below a domain *)

(** [name] is the domain [suffix] or a name below it. *)
Definition under (name suffix : bytes) : Prop := name = suffix \/ exists p, name = p ++ DOT :: suffix.

(** The text of [to_reversed]. *)
Definition reversed (name : bytes) : bytes := join_dots (rev (split_dots name)) ++ [DOT].

Lemma to_reversed_ok {E} d name : dn_fqdn d = name ++ [DOT] -> DomainName_to_reversed (E := E) d = Ok (reversed name).
Proof. intros Hd. unfold DomainName_to_reversed. by rewrite (as_str_ok d name Hd). Qed.

Lemma len_reversed name : len (reversed name) = len name + 1.
Proof. unfold reversed. rewrite len_app, len_join_rev, join_split_dots. done. Qed.

(** Labels with the dot behind each of them. *)
Definition dotted (ls : list bytes) : bytes := concat (map (fun l => l ++ [DOT]) ls).

Lemma join_dotted ls : ls <> [] -> join_dots ls ++ [DOT] = dotted ls.
Proof.
  induction ls as [|l ls IH]; [done|]. intros _. destruct ls as [|l' ls].
  - unfold dotted. cbn. by rewrite app_nil_r.
  - change (join_dots (l :: l' :: ls)) with (l ++ DOT :: join_dots (l' :: ls)).
    change (dotted (l :: l' :: ls)) with ((l ++ [DOT]) ++ dotted (l' :: ls)).
    rewrite <- IH, <- !app_assoc by done. done.
Qed.

Lemma dotted_prefix a b :
  Forall (fun l => DOT ∉ l) a -> Forall (fun l => DOT ∉ l) b -> dotted a `prefix_of` dotted b <-> a `prefix_of` b.
Proof.
  intros Ha. revert b. induction Ha as [|x a Hx Ha IH]; intros b Hb.
  { split; intros _; apply prefix_nil. }
  destruct Hb as [|y b Hy Hb].
  { split; intros [k Hk]; [|done]. unfold dotted in Hk. cbn in Hk. symmetry in Hk.
    apply app_eq_nil in Hk as [Hk _]. apply app_eq_nil in Hk as [Hk _]. by apply app_eq_nil in Hk as [_ ?]. }
  unfold dotted in *. cbn [map concat]. rewrite <- !app_assoc. cbn [app]. split.
  - intros [k Hk]. rewrite <- app_assoc in Hk. cbn [app] in Hk.
    apply split_unique in Hk as [-> Hk]; [|done..]. apply prefix_cons, IH; [done|]. by exists k.
  - intros Hp. pose proof (prefix_cons_inv_1 _ _ _ _ Hp) as ->. apply prefix_cons_inv_2, IH in Hp; [|done].
    by apply prefix_app, prefix_cons.
Qed.

Lemma split_dots_app_dot p s : split_dots (p ++ DOT :: s) = split_dots p ++ split_dots s.
Proof.
  induction p as [|c p IH]; [done|]. cbn [app split_dots]. rewrite IH.
  destruct (split_dots_cons p) as (l & ls & ->). cbn [app]. by destruct (bool_decide (c = DOT)).
Qed.

Lemma join_dots_app a b : a <> [] -> b <> [] -> join_dots (a ++ b) = join_dots a ++ DOT :: join_dots b.
Proof.
  intros Ha Hb. induction a as [|x a IH]; [done|]. destruct a as [|y a].
  - cbn. by destruct b.
  - change (join_dots (x :: (y :: a) ++ b) = (x ++ DOT :: join_dots (y :: a)) ++ DOT :: join_dots b).
    rewrite <- app_assoc. cbn [app]. rewrite <- IH by done. done.
Qed.

Lemma split_dots_nonempty s : split_dots s <> [].
Proof. by destruct (split_dots_cons s) as (l & ls & ->). Qed.

Lemma under_labels name suffix : under name suffix <-> split_dots suffix `suffix_of` split_dots name.
Proof.
  split.
  - intros [->|(p & ->)]; [done|]. rewrite split_dots_app_dot. by exists (split_dots p).
  - intros [ls Hls]. destruct ls as [|l ls].
    + left. rewrite <- (join_split_dots name), Hls. apply join_split_dots.
    + right. exists (join_dots (l :: ls)). rewrite <- (join_split_dots name), Hls.
      rewrite join_dots_app, join_split_dots; [done..|apply split_dots_nonempty].
Qed.

Lemma reversed_dotted name : reversed name = dotted (reverse (split_dots name)).
Proof.
  unfold reversed. rewrite join_dotted, rev_alt; [done|].
  pose proof (split_dots_nonempty name) as Hne. intros Hr. apply Hne. by apply (f_equal (@rev bytes)) in Hr; rewrite rev_involutive in Hr.
Qed.

(** The trie finds suffixes by whole labels. *)
Lemma reversed_prefix name suffix : reversed suffix `prefix_of` reversed name <-> under name suffix.
Proof.
  rewrite under_labels, suffix_prefix_reverse, !reversed_dotted. apply dotted_prefix.
  all: rewrite reverse_Permutation; apply split_dots_no_dots.
Qed.

Lemma under_len name suffix : under name suffix -> len suffix <= len name.
Proof. intros [->|(p & ->)]; len_lia. Qed.

Lemma under_app name suffix : under name suffix -> exists p, name = p ++ suffix.
Proof. intros [->|(p & ->)]; [by exists []|]. exists (p ++ [DOT]). by rewrite <- app_assoc. Qed.

Lemma under_same name s s' : under name s -> under name s' -> len s = len s' -> s = s'.
Proof.
  intros [p Hp]%under_app [p' Hp']%under_app Hl. rewrite Hp in Hp'.
  apply app_inj_2 in Hp' as [_ ?]; [done|]. unfold len in Hl. lia.
Qed.

Lemma reversed_inj name name' : reversed name = reversed name' -> name = name'.
Proof.
  intros Hr. assert (under name name') as Hu by (apply reversed_prefix; by rewrite Hr).
  destruct Hu as [?|(p & ->)]; [done|]. apply (f_equal len) in Hr. rewrite !len_reversed in Hr. len_lia.
Qed.

(** The longest suffix of [name] among those with a value. *)
Record closest {V} (entry : bytes -> V -> Prop) (name s : bytes) (v : V) : Prop := {
  cl_entry : entry s v;
  cl_under : under name s;
  cl_longest s' v' : entry s' v' -> under name s' -> len s' <= len s
}.

Section Closest.

Context `{TriesLaws} {V : Type} (t : Trie V) (entry : bytes -> V -> Prop).

(** The trie has the entries, under their reversed names. *)
Context (Hentries : forall k v, trie_map t !! k = Some v <-> exists s, k = reversed s /\ entry s v).

Lemma ancestor_some name v :
  get_ancestor_value t (reversed name) = Some v -> exists s, closest entry name s v.
Proof using Hentries.
  intros (k & Hk & Hv & Hmax)%get_ancestor_value_some. apply Hentries in Hv as (s & -> & Hv). exists s. split; [done|by apply reversed_prefix|].
  intros s' v' Hv' Hs'. specialize (Hmax (reversed s') v'). rewrite !len_reversed in Hmax.
  assert (len s' + 1 <= len s + 1); [|lia]. apply Hmax; [by apply reversed_prefix|]. apply Hentries. by exists s'.
Qed.

Lemma ancestor_none name s v :
  get_ancestor_value t (reversed name) = None -> entry s v -> ~ under name s.
Proof using Hentries.
  intros Hn Hs Hu. eapply (get_ancestor_value_none t _ Hn (reversed s) v); [|by apply reversed_prefix].
  apply Hentries. by exists s.
Qed.

End Closest.

(** ** Sets of regular expressions *)

Section RegexSets.

Context `{HashOrder} `{RegexesLaws} {A : Type} `{OrderedActionLaws A}.

(** The strictest of some actions. *)
Definition strictest (P : A -> Prop) (a : A) : Prop := P a /\ forall a', P a' -> act_le a a' = true.

(** An expression of the builder with this action matches the text. *)
Definition matched (b : RegexSetBuilder A) (text : bytes) (a : A) : Prop :=
  exists r, rb_inner b !! r = Some a /\ regex_matches r text = true.

(** Expressions of the builder that have the same action can be compiled
    together, each of them once. *)
Definition compiles (b : RegexSetBuilder A) : Prop :=
  forall a rs, NoDup rs -> (forall r, r ∈ rs -> rb_inner b !! r = Some a) -> RegexSet_new rs <> None.

Definition action_sorted {V} (m : list (A * V)) : Prop := StronglySorted (fun x y => act_le x.1 y.1 = true) m.

Definition has (m : list (A * list bytes)) (a : A) (r : bytes) : Prop := exists rs, (a, rs) ∈ m /\ r ∈ rs.

Lemma has_nil a r : ~ has [] a r.
Proof. by intros (rs & Hrs%not_elem_of_nil & _). Qed.

Lemma has_cons a0 rs0 m a r : has ((a0, rs0) :: m) a r <-> (a = a0 /\ r ∈ rs0) \/ has m a r.
Proof.
  unfold has. split.
  - intros (rs & [[= -> ->]|Hm]%elem_of_cons & Hr); [by left|right; by exists rs].
  - intros [[-> Hr]|(rs & Hm & Hr)]; [exists rs0|exists rs]; (split; [|done]); apply elem_of_cons; auto.
Qed.

Lemma push_has m r a a' r' : has (push_regex m (r, a)) a' r' <-> has m a' r' \/ (a' = a /\ r' = r).
Proof.
  unfold push_regex. cbn [fst snd]. induction m as [|[a0 rs0] m IH]; cbn.
  - rewrite has_cons, list_elem_of_singleton. intuition (subst; auto).
  - destruct (act_le a a0) eqn:Ha; [destruct (act_le a0 a) eqn:Ha'|]; rewrite !has_cons; cbn.
    + rewrite elem_of_app, list_elem_of_singleton. pose proof (act_le_antisym _ _ Ha Ha') as ->. intuition (subst; auto).
    + rewrite list_elem_of_singleton. intuition (subst; auto).
    + rewrite IH. intuition (subst; auto).
Qed.

Lemma push_keys m e x : x ∈ push_regex m e -> x.1 = e.2 \/ exists y, y ∈ m /\ y.1 = x.1.
Proof.
  unfold push_regex. induction m as [|[a0 rs0] m IH]; cbn.
  - intros ->%list_elem_of_singleton. by left.
  - destruct (act_le e.2 a0) eqn:Ha; [destruct (act_le a0 e.2) eqn:Ha'|]; intros [->|Hx]%elem_of_cons; cbn;
      try (by left); try (right; eexists; split; [by apply elem_of_cons; left|done]);
      try (right; eexists; split; [by apply elem_of_cons; right|done]); eauto.
    destruct (IH Hx) as [?|(y & Hy & Hyx)]; [by left|]. right. exists y. split; [by apply elem_of_cons; right|done].
Qed.

Lemma push_sorted m e : action_sorted m -> action_sorted (push_regex m e).
Proof.
  unfold push_regex. induction 1 as [|[a0 rs0] m Hm IH Ha0]; cbn; [by repeat constructor|].
  assert (forall x, x ∈ m -> act_le a0 x.1 = true) as Hle by by rewrite Forall_forall in Ha0.
  destruct (act_le e.2 a0) eqn:Ha; [destruct (act_le a0 e.2) eqn:Ha'|].
  - by constructor.
  - constructor; [by constructor|]. constructor; [done|]. apply Forall_forall. intros x Hx. cbn. eapply act_le_trans; eauto.
  - constructor; [done|]. apply Forall_forall. intros x Hx. cbn. destruct (push_keys m e x Hx) as [->|(y & Hy & <-)]; [|by apply Hle].
    destruct (act_le_total e.2 a0); [congruence|done].
Qed.

Lemma pushes l : let m := fold_left push_regex l [] in
  action_sorted m /\ forall a r, has m a r <-> (r, a) ∈ l.
Proof.
  rewrite <- fold_left_rev_right. cbn zeta.
  assert (forall a r, (r, a) ∈ l <-> (r, a) ∈ rev l) as Hl by (intros; by rewrite <- Permutation_rev).
  setoid_rewrite Hl. clear Hl. induction (rev l) as [|[r a] l' [IHs IH]]; cbn.
  - split; [constructor|]. intros a r. split; [by intros []%has_nil|by intros []%not_elem_of_nil].
  - split; [by apply push_sorted|]. intros a' r'. rewrite push_has, IH, elem_of_cons. intuition congruence.
Qed.

Lemma push_groups m r a : (forall a' rs, (a', rs) ∈ m -> NoDup rs) -> ~ has m a r ->
  forall a' rs, (a', rs) ∈ push_regex m (r, a) -> NoDup rs.
Proof.
  unfold push_regex. cbn [fst snd]. induction m as [|[a0 rs0] m IH]; cbn; intros Hm Hno a' rs.
  - intros [= -> ->]%list_elem_of_singleton. apply NoDup_singleton.
  - rewrite has_cons in Hno. assert (NoDup rs0) by (apply (Hm a0); by left).
    destruct (act_le a a0) eqn:Ha; [destruct (act_le a0 a) eqn:Ha'|]; intros [[= -> ->]|Hin]%elem_of_cons; try done;
      try (apply (Hm a'); by right).
    + cbn. pose proof (act_le_antisym _ _ Ha Ha') as ->. apply NoDup_app. split; [done|]. split; [|apply NoDup_singleton].
      intros x Hx ->%list_elem_of_singleton. auto.
    + apply NoDup_singleton.
    + by apply (Hm a').
    + apply (IH) in Hin; auto. intros ? ? ?. apply (Hm a'0). by right.
Qed.

Lemma pushes_groups l : NoDup l.*1 -> forall a rs, (a, rs) ∈ fold_left push_regex l [] -> NoDup rs.
Proof.
  induction l as [|[r a] l IH] using rev_ind; [by intros _ a rs ?%not_elem_of_nil|].
  rewrite fmap_app, fold_left_app. intros (Hl & Hd & _)%NoDup_app. cbn. apply push_groups; [by apply IH|].
  rewrite (proj2 (pushes l)). intros Hin. apply (Hd r); [|by apply list_elem_of_singleton]. by apply (list_elem_of_fmap_2 fst) in Hin.
Qed.

Lemma compile_ok (m : list (A * list bytes)) :
  (forall a rs, (a, rs) ∈ m -> RegexSet_new rs <> None) ->
  exists sets, compile_regexes m = Ok sets /\ Forall2 (fun x y => x.1 = y.1 /\ RegexSet_new x.2 = Some y.2) m sets.
Proof.
  induction m as [|[a rs] m IH]; intros Hm; cbn.
  - exists []. by split.
  - destruct (RegexSet_new rs) as [set|] eqn:Hs; [|by destruct (Hm a rs); [left|]].
    destruct IH as (sets & -> & Hsets); [intros a' rs' Hin; apply (Hm a'); by right|].
    exists ((a, set) :: sets). by repeat constructor.
Qed.

Lemma first_match_spec (m : list (A * list bytes)) sets text :
  Forall2 (fun x y => x.1 = y.1 /\ RegexSet_new x.2 = Some y.2) m sets -> action_sorted m ->
  let P a := exists r, has m a r /\ regex_matches r text = true in
  match first_match sets text with
  | Some a => strictest P a
  | None => forall a, ~ P a
  end.
Proof.
  cbn zeta. induction 1 as [|[a rs] [a0 set] m sets [Ha Hset] _ IH]; intros Hs; cbn in *; subst.
  { by intros a (r & []%has_nil & _). }
  apply StronglySorted_inv in Hs as [Hs Hmin]. rewrite Forall_forall in Hmin. specialize (IH Hs).
  rewrite (RegexSet_is_match_spec _ _ _ Hset). destruct (existsb _ rs) eqn:He.
  - apply existsb_exists in He as (r & Hr%list_elem_of_In & Hm). split.
    + exists r. split; [|done]. apply has_cons. by left.
    + intros a' (r' & [[-> _]|(rs' & Hin & _)]%has_cons & _); [|by apply (Hmin _ Hin)].
      by destruct (act_le_total a0 a0).
  - assert (forall r, r ∈ rs -> regex_matches r text = true -> False) as Hno.
    { intros r Hr Hm. apply not_true_iff_false in He. apply He, existsb_exists. exists r. by rewrite <- list_elem_of_In. }
    destruct (first_match sets text) as [a|].
    + destruct IH as [(r & Hr & Hm) Hmin']. split; [exists r; rewrite has_cons; auto|].
      intros a' (r' & [[-> Hr']|Hr']%has_cons & Hm'); [by destruct (Hno r')|]. apply Hmin'. by exists r'.
    + intros a (r & [[-> Hr]|Hr]%has_cons & Hm); [by destruct (Hno r)|]. apply (IH a). by exists r.
Qed.

(** The strictest action of an expression that matches is the answer. *)
Lemma regex_set_decides (b : RegexSetBuilder A) :
  compiles b -> exists m, RegexSetBuilder_build b = Ok m /\
    forall text, match RegexSetMatch_check m text with
                 | Some a => strictest (matched b text) a
                 | None => forall a, ~ matched b text a
                 end.
Proof.
  intros Hc. unfold RegexSetBuilder_build. destruct (pushes (hash_iter (rb_inner b))) as [Hs Hhas].
  assert (forall a r, has (fold_left push_regex (hash_iter (rb_inner b)) []) a r <-> rb_inner b !! r = Some a) as Hb
    by (intros a r; by rewrite Hhas, hash_iter_perm, elem_of_map_to_list).
  destruct (compile_ok (fold_left push_regex (hash_iter (rb_inner b)) [])) as (sets & -> & Hsets).
  { intros a rs Hin. apply (Hc a); [by eapply pushes_groups; [|exact Hin]; rewrite hash_iter_perm; apply NoDup_fst_map_to_list|].
    intros r Hr. apply Hb. by exists rs. }
  eexists. split; [done|]. intros text. unfold RegexSetMatch_check. cbn [rm_inner].
  pose proof (first_match_spec _ _ text Hsets Hs) as Hf. cbn zeta in Hf.
  assert (forall a, matched b text a <-> exists r, has (fold_left push_regex (hash_iter (rb_inner b)) []) a r /\ regex_matches r text = true)
    as Hm by (intros a; unfold matched; by setoid_rewrite Hb).
  unfold strictest in *. destruct (first_match sets text); [|intros a ?%Hm; by apply (Hf a)].
  destruct Hf as [? Hmin]. split; [by apply Hm|]. intros a' ?%Hm. by apply Hmin.
Qed.

End RegexSets.

(** ** Tries under the reversed names of domains *)

(** A name without its last dot. *)
Definition name_text (d : DomainName) : bytes := take (length (dn_fqdn d) - 1) (dn_fqdn d).

Lemma name_text_ok d name : dn_fqdn d = name ++ [DOT] -> name_text d = name.
Proof.
  intros Hd. unfold name_text. rewrite Hd, length_app. cbn [length].
  replace (length name + 1 - 1)%nat with (length name) by lia. apply take_app_length.
Qed.

Lemma domain_ok_text d : domain_ok d -> dn_fqdn d = name_text d ++ [DOT].
Proof. intros (name & Hd & _). by rewrite (name_text_ok d name Hd). Qed.

Lemma name_text_inj d d' : domain_ok d -> domain_ok d' -> name_text d = name_text d' -> d = d'.
Proof. intros Hd%domain_ok_text Hd'%domain_ok_text He. destruct d, d'. cbn in *. congruence. Qed.

Section TrieFill.

Context `{TriesLaws} {V : Type}.

Definition trie_fill (l : list (DomainName * V)) (t : Trie V) : Trie V :=
  fold_left (fun t '(d, v) => trie_insert (reversed (name_text d)) v t) l t.

Lemma trie_fill_map l t :
  trie_map (trie_fill l t) = fill (map (fun x => (reversed (name_text x.1), x.2)) l) (trie_map t).
Proof.
  unfold trie_fill, fill. revert t. induction l as [|[d v] l IH]; intros t; [done|]. cbn.
  rewrite IH. by rewrite trie_map_insert.
Qed.

Lemma trie_fill_lookup l k v :
  NoDup l.*1 -> Forall (fun x => domain_ok x.1) l ->
  trie_map (trie_fill l trie_new) !! k = Some v <-> exists s, k = reversed s /\ exists d, (d, v) ∈ l /\ name_text d = s.
Proof.
  intros Hnd Hok. rewrite trie_fill_map, trie_map_new, fill_lookup.
  - rewrite list_elem_of_fmap. split.
    + intros ([d v'] & [= -> ->] & Hin). eexists. split; [done|]. by exists d.
    + intros (s & -> & d & Hin & <-). by exists (d, v).
  - rewrite <- list_fmap_compose. cbn. change (NoDup ((fun x => reversed (name_text x.1)) <$> l)).
    revert Hnd. induction Hok as [|[d v'] l Hd Hok IH]; [constructor|]. cbn.
    intros [Hni Hnd]%NoDup_cons. constructor; [|by apply IH]. rewrite list_elem_of_fmap.
    intros ([d' v''] & Heq & Hin). cbn in *. apply Hni. rewrite list_elem_of_fmap. exists (d', v''). split; [|done]. cbn.
    apply name_text_inj; [done|by rewrite Forall_forall in Hok; apply (Hok _ Hin)|by apply reversed_inj].
Qed.

Lemma trie_fill_nonempty l : trie_is_empty (trie_fill l trie_new) = true <-> l = [].
Proof.
  rewrite trie_is_empty_spec, trie_fill_map, trie_map_new, fill_empty. split.
  - destruct (rev _) as [|[k v] l'] eqn:Hr; [|cbn; intros Hm; by apply insert_non_empty in Hm].
    intros _. apply (f_equal length) in Hr. rewrite length_rev, length_map in Hr. by destruct l.
  - by intros ->.
Qed.

End TrieFill.

(** ** Regular expressions for the names below a domain *)

Section RegexDomain.

Context `{HashOrder} `{TriesLaws} `{RegexesLaws} {A : Type} `{OrderedActionLaws A}.

Definition regex_domain_ok (b : AclRegexDomainRuleBuilder A) : Prop :=
  compiles (db_full_regex b) /\ map_Forall (fun d set => domain_ok d /\ compiles set) (db_prefix_regex b).

(** The expressions that are configured for a domain. *)
Definition prefix_entry (b : AclRegexDomainRuleBuilder A) (s : bytes) (set : RegexSetBuilder A) : Prop :=
  exists d, db_prefix_regex b !! d = Some set /\ name_text d = s.

(** An expression for the closest domain matches what comes before it. *)
Definition prefix_matched (b : AclRegexDomainRuleBuilder A) (name : bytes) (a : A) : Prop :=
  exists s set p, closest (prefix_entry b) name s set /\ name = p ++ DOT :: s /\ matched set p a.

Lemma build_prefix_ok l t :
  Forall (fun x => domain_ok x.1 /\ compiles x.2) l ->
  exists l', build_prefix_tries l t = Ok (trie_fill l' t) /\
    Forall2 (fun x y => y.1 = x.1 /\ y.2.1 = x.1 /\ RegexSetBuilder_build x.2 = Ok y.2.2) l l'.
Proof.
  intros Hl. revert t. induction Hl as [|[d set] l [Hd Hc] Hl IH]; intros t; cbn.
  - by exists [].
  - destruct (regex_set_decides set Hc) as (m & Hm & _). rewrite Hm. cbn.
    rewrite (to_reversed_ok d (name_text d)) by by apply domain_ok_text. cbn.
    destruct (IH (trie_insert (reversed (name_text d)) (d, m) t)) as (l' & -> & Hl').
    exists ((d, (d, m)) :: l'). by repeat constructor.
Qed.

Lemma build_prefix_entries b l' :
  regex_domain_ok b ->
  Forall2 (fun x y => y.1 = x.1 /\ y.2.1 = x.1 /\ RegexSetBuilder_build x.2 = Ok y.2.2) (hash_iter (db_prefix_regex b)) l' ->
  forall k v, trie_map (trie_fill l' trie_new) !! k = Some v <->
    exists s, k = reversed s /\ name_text v.1 = s /\
      exists set, db_prefix_regex b !! v.1 = Some set /\ RegexSetBuilder_build set = Ok v.2.
Proof.
  intros [_ Hok] Hl k [d m]. set (l := hash_iter (db_prefix_regex b)) in *.
  assert (forall d set, (d, set) ∈ l <-> db_prefix_regex b !! d = Some set) as Hin
    by (intros; unfold l; by rewrite hash_iter_perm, elem_of_map_to_list).
  assert (l'.*1 = l.*1) as Hkeys by (clear -Hl; induction Hl as [|x y ? ? [Hk _] _ IH]; cbn; [done|by rewrite Hk, IH]).
  rewrite trie_fill_lookup.
  - split; intros (s & -> & Hs); exists s; (split; [done|]); cbn in *.
    + destruct Hs as (d' & Hd' & <-). apply list_elem_of_lookup_1 in Hd' as [i Hi].
      destruct (Forall2_lookup_r _ _ _ _ _ Hl Hi) as ([d'' set] & Hx & Hy). cbn in Hy. destruct Hy as (-> & -> & Hb).
      split; [done|]. exists set. split; [|done]. apply Hin. by eapply list_elem_of_lookup_2.
    + destruct Hs as (<- & set & Hset & Hb). exists d. split; [|done]. apply Hin, list_elem_of_lookup_1 in Hset as [i Hi].
      destruct (Forall2_lookup_l _ _ _ _ _ Hl Hi) as ([d1 [d2 m']] & Hy & Hxy). cbn in Hxy. destruct Hxy as (-> & -> & Hb').
      rewrite Hb in Hb'. injection Hb' as ->. by eapply list_elem_of_lookup_2.
  - rewrite Hkeys. unfold l. rewrite hash_iter_perm. apply NoDup_fst_map_to_list.
  - apply Forall_forall. intros y [i Hi]%list_elem_of_lookup_1.
    destruct (Forall2_lookup_r _ _ _ _ _ Hl Hi) as ([d' set] & Hx & Hy & _). cbn in *. rewrite Hy.
    apply list_elem_of_lookup_2, Hin in Hx. by destruct (Hok d' set Hx).
Qed.

Lemma prefix_entry_unique b s set set' :
  regex_domain_ok b -> prefix_entry b s set -> prefix_entry b s set' -> set = set'.
Proof.
  intros [_ Hok] (d & Hd & Hs) (d' & Hd' & Hs'). assert (d = d') as ->; [|congruence].
  apply name_text_inj; [apply (Hok _ _ Hd)|apply (Hok _ _ Hd')|congruence].
Qed.

Lemma closest_unique {V} (entry : bytes -> V -> Prop) name s v s' v' :
  closest entry name s v -> closest entry name s' v' -> s = s'.
Proof.
  intros [He Hu Hm] [He' Hu' Hm']. apply (under_same name); [done..|].
  pose proof (Hm _ _ He' Hu'). pose proof (Hm' _ _ He Hu). lia.
Qed.

Lemma strip_suffix_cases {E} d d' :
  domain_ok d -> domain_ok d' ->
  exists o, DomainName_strip_suffix (E := E) d d' = Ok o /\ forall p, o = Some p <-> name_text d = p ++ DOT :: name_text d'.
Proof.
  intros Hd%domain_ok_text Hd'%domain_ok_text.
  pose proof (fun p => strip_suffix_ok (E := E) d d' _ _ p Hd Hd') as Hs.
  assert (exists o, DomainName_strip_suffix (E := E) d d' = Ok o) as [o Ho].
  { unfold DomainName_strip_suffix. rewrite (as_str_ok d _ Hd), (as_str_ok d' _ Hd'). cbn [bind]. case_match; eauto. }
  exists o. split; [done|]. intros p. rewrite <- Hs, Ho. split; [by intros ->|by intros [= ->]].
Qed.

(** The domain that the trie finds, and its compiled expressions. *)
Lemma ancestor_regexes b l' name d m :
  regex_domain_ok b ->
  Forall2 (fun x y => y.1 = x.1 /\ y.2.1 = x.1 /\ RegexSetBuilder_build x.2 = Ok y.2.2) (hash_iter (db_prefix_regex b)) l' ->
  get_ancestor_value (trie_fill l' trie_new) (reversed name) = Some (d, m) ->
  exists set, domain_ok d /\ closest (prefix_entry b) name (name_text d) set /\
    forall p, match RegexSetMatch_check m p with
              | Some a => strictest (matched set p) a
              | None => forall a, ~ matched set p a
              end.
Proof.
  intros Hok Hl Hg. pose proof (build_prefix_entries b l' Hok Hl) as Hentries.
  destruct (ancestor_some _ _ Hentries name _ Hg) as (s & [(Hs & set & Hset & Hm) Hu Hmax]). cbn in *. subst s.
  exists set. destruct Hok as [_ Hok]. destruct (Hok d set Hset) as [Hd Hc]. split; [done|].
  destruct (regex_set_decides set Hc) as (m' & Hm' & Hdec). rewrite Hm in Hm'. injection Hm' as ->. split; [|done].
  split; [by exists d|done|]. intros s' set' (d' & Hset' & <-) Hu'.
  destruct (Hok d' set' Hset') as [_ Hc']. destruct (regex_set_decides set' Hc') as (m'' & Hm'' & _).
  apply (Hmax _ (d', m'')); [|done]. eauto.
Qed.

Lemma no_ancestor_regexes b l' name a :
  regex_domain_ok b ->
  Forall2 (fun x y => y.1 = x.1 /\ y.2.1 = x.1 /\ RegexSetBuilder_build x.2 = Ok y.2.2) (hash_iter (db_prefix_regex b)) l' ->
  trie_is_empty (trie_fill l' trie_new) = true \/ get_ancestor_value (trie_fill l' trie_new) (reversed name) = None ->
  ~ prefix_matched b name a.
Proof.
  intros Hok Hl Hn (s & set & p & [(d & Hset & <-) Hu _] & _). pose proof (build_prefix_entries b l' Hok Hl) as Hentries.
  destruct Hok as [_ Hok]. destruct (Hok d set Hset) as [_ Hc]. destruct (regex_set_decides set Hc) as (m & Hm & _).
  destruct Hn as [He|Hg].
  - apply trie_is_empty_spec in He.
    assert (trie_map (trie_fill l' trie_new) !! reversed (name_text d) = Some (d, m)) as Hk by (apply Hentries; eauto 6).
    by rewrite He, lookup_empty in Hk.
  - apply (ancestor_none _ _ Hentries name (name_text d) (d, m) Hg); [|done]. cbn. eauto.
Qed.

(** What [check] finds in the trie. *)
Lemma check_prefix_decides b l' mf missed d :
  regex_domain_ok b ->
  Forall2 (fun x y => y.1 = x.1 /\ y.2.1 = x.1 /\ RegexSetBuilder_build x.2 = Ok y.2.2) (hash_iter (db_prefix_regex b)) l' ->
  domain_ok d ->
  let r := {| dr_prefix_match_trie := trie_fill l' trie_new; dr_full_match_action_map := mf; dr_missed_action := missed |} in
  match check_prefix_regex r d with
  | Ok (Some a) => strictest (prefix_matched b (name_text d)) a
  | Ok None => forall a, ~ prefix_matched b (name_text d) a
  | _ => False
  end.
Proof.
  intros Hok Hl Hd r. set (name := name_text d). unfold check_prefix_regex. subst r. cbn [dr_prefix_match_trie].
  destruct (trie_is_empty _) eqn:He; [intros a; apply (no_ancestor_regexes b l'); auto|].
  rewrite (to_reversed_ok d name) by by apply domain_ok_text. cbn [bind].
  destruct (get_ancestor_value _ (reversed name)) as [[d' m]|] eqn:Hg; [|intros a; apply (no_ancestor_regexes b l'); auto].
  destruct (ancestor_regexes b l' name d' m Hok Hl Hg) as (set & Hd' & Hcl & Hdec).
  destruct (strip_suffix_cases (E := Empty_set) d d' Hd Hd') as (o & -> & Ho). cbn [bind].
  assert (forall a, prefix_matched b name a <-> exists p, o = Some p /\ matched set p a) as Hpm.
  { intros a. split.
    - intros (s' & set' & p & Hcl' & Hp & Hm). pose proof (closest_unique _ _ _ _ _ _ Hcl Hcl') as <-.
      pose proof (prefix_entry_unique b _ _ _ Hok (cl_entry _ _ _ _ Hcl) (cl_entry _ _ _ _ Hcl')) as <-. exists p. by rewrite Ho.
    - intros (p & Hp & Hm). exists (name_text d'), set, p. by rewrite Ho in Hp. }
  destruct o as [p|].
  - specialize (Hdec p). destruct (RegexSetMatch_check m p) as [a|].
    + destruct Hdec as [Ha Hmin]. split; [apply Hpm; eauto|]. intros a' (p' & [= <-] & Ha')%Hpm. by apply Hmin.
    + intros a (p' & [= <-] & Ha)%Hpm. by apply (Hdec a).
  - by intros a (p & ? & _)%Hpm.
Qed.

(** The compiled rule: the strictest expression for the closest domain, then the
    strictest for the whole name. *)
Lemma regex_domain_decides b :
  regex_domain_ok b ->
  exists r, RegexDomainBuilder_build b = Ok r /\
    forall d, domain_ok d ->
      let name := name_text d in
      match RegexDomainRule_check r d with
      | Ok (true, a) => strictest (prefix_matched b name) a \/
          (forall a', ~ prefix_matched b name a') /\ strictest (matched (db_full_regex b) name) a
      | Ok (false, a) => a = db_missed_action b /\
          (forall a', ~ prefix_matched b name a') /\ (forall a', ~ matched (db_full_regex b) name a')
      | _ => False
      end.
Proof.
  intros Hok. pose proof Hok as [Hfull Hpre].
  destruct (regex_set_decides _ Hfull) as (mf & Hmf & Hdf).
  destruct (build_prefix_ok (hash_iter (db_prefix_regex b)) trie_new) as (l' & Hb & Hl).
  { apply Forall_forall. intros [d set] Hin. rewrite hash_iter_perm in Hin. apply elem_of_map_to_list in Hin. by apply (Hpre d set). }
  unfold RegexDomainBuilder_build. rewrite Hmf. cbn [bind]. rewrite Hb. cbn [bind]. eexists. split; [done|].
  intros d Hd. set (name := name_text d). set (r := {| dr_prefix_match_trie := _ |}).
  assert (match check_prefix_regex r d with
          | Ok (Some a) => strictest (prefix_matched b name) a
          | Ok None => forall a, ~ prefix_matched b name a
          | _ => False end) as Hp by by apply check_prefix_decides.
  unfold RegexDomainRule_check. destruct (check_prefix_regex r d) as [[a|]|e|]; cbn [bind]; [by left| |done..].
  rewrite (as_str_ok d name) by by apply domain_ok_text. cbn [bind].
  change (dr_full_match_action_map r) with mf. specialize (Hdf name). destruct (RegexSetMatch_check mf name); [by right|done].
Qed.

End RegexDomain.

(** ** The default rules for networks *)

Section Defaults.

Context `{HashOrder} `{IpNetworksLaws}.

Lemma networks_unwrap_ok nets :
  Forall (fun x => ip_ok x.1 /\ is_network_address x.1 x.2 = true) nets ->
  exists ns, networks_unwrap nets = Ok ns /\ Forall2 (fun x n => IpNetwork_new x.1 x.2 = Some n) nets ns.
Proof.
  induction 1 as [|[ip prefix] nets [Hip Hnet] _ (ns & Hns & IH)]; [by exists []|]. cbn in *.
  destruct (IpNetwork_new_some ip prefix Hip Hnet) as [n Hn]. rewrite Hn, Hns. exists (n :: ns). by repeat constructor.
Qed.

Lemma fold_insert_const {A} (ns : list IpNetwork) (c : A) n a :
  fold_left (fun inner net => <[net := c]> inner) ns (∅ : gmap IpNetwork A) !! n = Some a <-> n ∈ ns /\ a = c.
Proof.
  rewrite <- fold_left_rev_right. assert (n ∈ ns <-> n ∈ rev ns) as -> by by rewrite <- Permutation_rev.
  induction (rev ns) as [|m l IH]; cbn.
  - rewrite lookup_empty. split; [done|]. by intros [?%not_elem_of_nil _].
  - rewrite lookup_insert_Some, IH, elem_of_cons. split; [intros [[-> ->]|(_ & Hn & ->)]; auto|]. intros [[->|Hn] ->]; [by left|].
    destruct (decide (m = n)); [by left|right; auto].
Qed.

(** The rule that is built from default networks with one action. *)
Lemma default_rule_spec nets ns (c missed : AclAction) ip :
  Forall (fun x => ip_ok x.1) nets -> ip_ok ip ->
  Forall2 (fun x n => IpNetwork_new x.1 x.2 = Some n) nets ns ->
  NetworkRule_check (NetworkBuilder_build {| nb_inner := fold_left (fun inner net => <[net := c]> inner) ns ∅; nb_missed_action := missed |}) ip =
    if existsb (fun x => in_subnet x.1 x.2 ip) nets then (true, c) else (false, missed).
Proof.
  intros Hok Hip Hns. unfold NetworkRule_check.
  set (b := {| nb_inner := _ |}). pose proof (network_built b) as Hb.
  assert (forall n, n ∈ ns -> exists x, x ∈ nets /\ IpNetwork_contains n ip = in_subnet x.1 x.2 ip) as Hin.
  { intros n [i Hi]%list_elem_of_lookup_1. destruct (Forall2_lookup_r _ _ _ _ _ Hns Hi) as (x & Hx & Hn).
    exists x. split; [by eapply list_elem_of_lookup_2|]. apply IpNetwork_new_contains; [|done..].
    rewrite Forall_forall in Hok. apply Hok. by eapply list_elem_of_lookup_2. }
  destruct (existsb _ nets) eqn:He.
  - apply existsb_exists in He as (x & Hx%list_elem_of_In & Hc). apply list_elem_of_lookup_1 in Hx as [i Hi].
    destruct (Forall2_lookup_l _ _ _ _ _ Hns Hi) as (n & Hn & Hnew).
    destruct (longest_match _ ip) as [[n' a]|] eqn:Hm.
    + apply longest_match_some in Hm as [Hl _]. rewrite Hb in Hl. by apply fold_insert_const in Hl as [_ ->].
    + exfalso. pose proof (longest_match_none _ _ Hm n c) as Hno. rewrite Hb in Hno.
      rewrite (IpNetwork_new_contains x.1 x.2) in Hno; [|by rewrite Forall_forall in Hok; apply Hok; eapply list_elem_of_lookup_2|done..].
      rewrite Hc in Hno. discriminate Hno. apply fold_insert_const. split; [by eapply list_elem_of_lookup_2|done].
  - destruct (longest_match _ ip) as [[n a]|] eqn:Hm; [|done].
    apply longest_match_some in Hm as (Hl & Hc & _). rewrite Hb in Hl. apply fold_insert_const in Hl as [Hl _].
    destruct (Hin n Hl) as (x & Hx & Heq). apply not_true_iff_false in He. destruct He. apply existsb_exists.
    exists x. rewrite <- list_elem_of_In. by rewrite <- Heq.
Qed.

(** The default filter for egress forbids its networks and no others. *)
Lemma default_egress_spec (missed : AclAction) :
  exists b, NetworkBuilder_new_egress missed = Ok b /\
    forall ip, ip_ok ip ->
      NetworkRule_check (NetworkBuilder_build b) ip =
        if existsb (fun x => in_subnet x.1 x.2 ip) DEFAULT_EGRESS_RULE then (true, Forbid) else (false, missed).
Proof.
  unfold NetworkBuilder_new_egress.
  destruct (networks_unwrap_ok DEFAULT_EGRESS_RULE) as (ns & -> & Hns); [by repeat constructor|].
  eexists. split; [done|]. intros ip Hip. apply default_rule_spec; [|done..]. by repeat constructor.
Qed.

End Defaults.
