(* ===== verification/AclPolicy.v ===== *)
(** The policies that the rules of [Acl.v] implement: which action a set of rules
    for hosts answers with, which user agents a rule finds, and where a name is
    redirected to. *)

From Stdlib Require Import ZArith Lia Strings.Byte.
From stdpp Require Import base list gmap sets.
From S2P Require Import Prelude Text Domain IpAddr Host Acl AclInstances AclSpec.

(** ** The policy of a set of rules for hosts *)

Section Policy.

Context `{HashOrder} `{IpNetworksLaws} `{TriesLaws} `{RegexesLaws}.
Context (b : AclDstHostRuleSetBuilder AclAction).

(** The action that is configured for exactly this host. *)
Definition exact_of (host : Host) : option AclAction :=
  match hb_exact b with
  | None => None
  | Some r =>
      match host with
      | Host_Ip ip => hr_inner (eh_ip r) !! ip
      | Host_Domain d => hr_inner (eh_domain r) !! d
      end
  end.

(** A network that is configured and has the address. *)
Definition subnet_of (ip : IpAddr) (n : IpNetwork) (a : AclAction) : Prop :=
  exists r, hb_subnet b = Some r /\ nb_inner r !! n = Some a /\ IpNetwork_contains n ip = true.

(** A domain that is configured with the names below it. *)
Definition suffix_entry (s : bytes) (a : AclAction) : Prop :=
  exists r, hb_suffix b = Some r /\ tb_inner r !! reversed s = Some a.

Definition prefix_regex_of (name : bytes) (a : AclAction) : Prop :=
  exists r, hb_regex b = Some r /\ prefix_matched r name a.

Definition full_regex_of (name : bytes) (a : AclAction) : Prop :=
  exists r, hb_regex b = Some r /\ matched (db_full_regex r) name a.

(** The actions for what no rule finds. *)
Definition missed_of (a : AclAction) : Prop :=
  a = Permit \/ eh_missed_action <$> hb_exact b = Some a \/ nb_missed_action <$> hb_subnet b = Some a \/
  tb_missed_action <$> hb_suffix b = Some a \/ db_missed_action <$> hb_regex b = Some a.

(** An exact rule goes first.  An address is then decided by the longest network
    with it, and a name by the longest domain above it, the expressions of the
    closest domain that has some, and the expressions for whole names; of
    expressions the strictest counts, and so it does of the actions for the rest. *)
Inductive decides : Host -> bool * AclAction -> Prop :=
| by_exact host a :
    exact_of host = Some a -> decides host (true, a)
| by_subnet ip n a :
    exact_of (Host_Ip ip) = None -> subnet_of ip n a ->
    (forall n' a', subnet_of ip n' a' -> IpNetwork_netmask n' <= IpNetwork_netmask n) ->
    decides (Host_Ip ip) (true, a)
| missed_ip ip a :
    exact_of (Host_Ip ip) = None -> (forall n a', ~ subnet_of ip n a') -> strictest missed_of a ->
    decides (Host_Ip ip) (false, a)
| by_suffix d s a :
    exact_of (Host_Domain d) = None -> closest suffix_entry (name_text d) s a ->
    decides (Host_Domain d) (true, a)
| by_prefix_regex d a :
    exact_of (Host_Domain d) = None -> (forall s a', suffix_entry s a' -> ~ under (name_text d) s) ->
    strictest (prefix_regex_of (name_text d)) a ->
    decides (Host_Domain d) (true, a)
| by_full_regex d a :
    exact_of (Host_Domain d) = None -> (forall s a', suffix_entry s a' -> ~ under (name_text d) s) ->
    (forall a', ~ prefix_regex_of (name_text d) a') -> strictest (full_regex_of (name_text d)) a ->
    decides (Host_Domain d) (true, a)
| missed_domain d a :
    exact_of (Host_Domain d) = None -> (forall s a', suffix_entry s a' -> ~ under (name_text d) s) ->
    (forall a', ~ prefix_regex_of (name_text d) a') -> (forall a', ~ full_regex_of (name_text d) a') ->
    strictest missed_of a ->
    decides (Host_Domain d) (false, a).

(** The keys of the suffixes are reversed names; the expressions compile. *)
Definition suffix_ok (r : AclRadixTrieRuleBuilder AclAction) : Prop :=
  forall k a, tb_inner r !! k = Some a -> exists s, k = reversed s.

Record dst_host_ok : Prop := {
  dh_suffix r : hb_suffix b = Some r -> suffix_ok r;
  dh_regex r : hb_regex b = Some r -> regex_domain_ok r
}.

Definition host_ok (host : Host) : Prop :=
  match host with Host_Ip _ => True | Host_Domain d => domain_ok d end.

Lemma restrict_strictest {R} (missed : R -> AclAction) o (P : AclAction -> Prop) a :
  strictest P a -> strictest (fun a' => P a' \/ missed <$> o = Some a') (restrict_by missed o a).
Proof.
  intros [Ha Hmin]. unfold restrict_by. destruct o as [r|]; cbn.
  - unfold restrict. destruct (AclAction_le (missed r) a) eqn:Hle; (split; [auto|]).
    + intros x [Hx|[= <-]]; [eapply act_le_trans; [exact Hle|auto]|by destruct (act_le_total (missed r) (missed r))].
    + intros x [Hx|[= <-]]; [auto|]. destruct (act_le_total (missed r) a) as [Hl|Hl]; [|done].
      unfold act_le, AclAction_ordered in Hl. congruence.
  - split; [auto|]. intros x [Hx|?]; [auto|done].
Qed.

Lemma missed_strictest :
  strictest missed_of
    (restrict_by db_missed_action (hb_regex b) (restrict_by tb_missed_action (hb_suffix b)
      (restrict_by nb_missed_action (hb_subnet b) (restrict_by eh_missed_action (hb_exact b) Permit)))).
Proof.
  assert (strictest (fun a => a = Permit) Permit) as Hp by (split; [done|by intros a' ->]).
  destruct (restrict_strictest db_missed_action (hb_regex b) _ _ (restrict_strictest tb_missed_action (hb_suffix b) _ _
    (restrict_strictest nb_missed_action (hb_subnet b) _ _ (restrict_strictest eh_missed_action (hb_exact b) _ _ Hp)))) as [Hm Hmin].
  unfold missed_of. split; [tauto|]. intros a' Ha'. apply Hmin. tauto.
Qed.

Lemma network_decides (r : AclNetworkRuleBuilder AclAction) ip :
  match NetworkRule_check (NetworkBuilder_build r) ip with
  | (true, a) => exists n, nb_inner r !! n = Some a /\ IpNetwork_contains n ip = true /\
      forall n' a', nb_inner r !! n' = Some a' -> IpNetwork_contains n' ip = true -> IpNetwork_netmask n' <= IpNetwork_netmask n
  | (false, a) => a = nb_missed_action r /\ forall n a', nb_inner r !! n = Some a' -> IpNetwork_contains n ip = false
  end.
Proof.
  unfold NetworkRule_check. pose proof (network_built r) as Hb.
  destruct (longest_match _ ip) as [[n a]|] eqn:Hm.
  - apply longest_match_some in Hm. rewrite Hb in Hm. by exists n.
  - split; [done|]. intros n a'. rewrite <- Hb. by apply longest_match_none.
Qed.

Lemma suffix_decides (r : AclRadixTrieRuleBuilder AclAction) d :
  suffix_ok r -> domain_ok d ->
  let entry s a := tb_inner r !! reversed s = Some a in
  match SuffixRule_check (TrieBuilder_build r) d with
  | Ok (true, a) => exists s, closest entry (name_text d) s a
  | Ok (false, _) => forall s a, entry s a -> ~ under (name_text d) s
  | _ => False
  end.
Proof.
  intros Hr Hd entry. unfold SuffixRule_check. rewrite (to_reversed_ok d (name_text d)) by by apply domain_ok_text.
  cbn [bind]. unfold TrieRule_check.
  assert (forall k v, trie_map (tr_inner (TrieBuilder_build r)) !! k = Some v <-> exists s, k = reversed s /\ entry s v) as He.
  { intros k v. rewrite trie_built. split; [|by intros (s & -> & Hs)]. intros Hk. destruct (Hr k v Hk) as [s ->]. by exists s. }
  destruct (get_ancestor_value _ _) as [a|] eqn:Hg; [by apply (ancestor_some _ _ He)|].
  intros s a. by apply (ancestor_none _ _ He).
Qed.

(** [set] is what the builder compiles to. *)
Definition compiled (set : AclDstHostRuleSet AclAction) : Prop :=
  hs_exact set = hb_exact b /\ hs_subnet set = option_map NetworkBuilder_build (hb_subnet b) /\
  hs_suffix set = option_map TrieBuilder_build (hb_suffix b) /\ option_build RegexDomainBuilder_build (hb_regex b) = Ok (hs_regex set) /\
  strictest missed_of (hs_missed_action set).

(** An exact rule goes first. *)
Lemma exact_first host rest :
  (exists r, rest = Ok r /\ (exact_of host = None -> decides host r)) ->
  exists r, check_rule (hb_exact b) (fun x => Ok (match host with
    | Host_Ip ip => ExactHost_check_ip x ip
    | Host_Domain d => ExactHost_check_domain x d end)) rest = Ok r /\ decides host r.
Proof.
  intros (r & -> & Hd). destruct (exact_of host) as [a|] eqn:Ha.
  - exists (true, a). split; [|by apply by_exact]. unfold exact_of in Ha. destruct (hb_exact b) as [x|]; [|done].
    destruct host; cbn in *; unfold ExactHost_check_ip, ExactHost_check_domain, HashRule_check; by rewrite Ha.
  - exists r. split; [|by apply Hd]. unfold exact_of in Ha. destruct (hb_exact b) as [x|]; [|done].
    destruct host; cbn in *; unfold ExactHost_check_ip, ExactHost_check_domain, HashRule_check; by rewrite Ha.
Qed.

Lemma check_ip_decides set ip :
  compiled set -> exists r, DstHost_check set (Host_Ip ip) = Ok r /\ decides (Host_Ip ip) r.
Proof.
  intros (He & Hn & _ & _ & Hm). unfold DstHost_check. rewrite He, Hn. apply (exact_first (Host_Ip ip)).
  destruct (hb_subnet b) as [r|] eqn:Hs; cbn [option_map check_rule bind].
  - pose proof (network_decides r ip) as Hd. destruct (NetworkRule_check _ ip) as [[] a]; cbn [bind].
    + destruct Hd as (n & Hn' & Hc & Hmax). eexists. split; [done|]. intros Hx. apply (by_subnet ip n a Hx); [by exists r|].
      intros n' a' (r' & Hr' & Hn'' & Hc'). rewrite Hs in Hr'. injection Hr' as <-. eauto.
    + eexists. split; [done|]. intros Hx. apply missed_ip; [done| |done]. intros n a' (r' & Hr' & Hn' & Hc).
      rewrite Hs in Hr'. injection Hr' as <-. destruct Hd as [_ Hd]. by rewrite (Hd n a') in Hc.
  - eexists. split; [done|]. intros Hx. apply missed_ip; [done| |done]. intros n a' (r' & Hr' & _). congruence.
Qed.

(** The expressions come last. *)
Lemma regex_last o d a :
  (forall r, hb_regex b = Some r -> regex_domain_ok r) -> option_build RegexDomainBuilder_build (hb_regex b) = Ok o ->
  domain_ok d -> strictest missed_of a ->
  exists r, check_rule o (fun rule => RegexDomainRule_check rule d) (Ok (false, a)) = Ok r /\
    (exact_of (Host_Domain d) = None -> (forall s a', suffix_entry s a' -> ~ under (name_text d) s) -> decides (Host_Domain d) r).
Proof.
  intros Hok Ho Hd Hm. destruct (hb_regex b) as [r|] eqn:Hr; cbn in Ho.
  - destruct (regex_domain_decides r (Hok r eq_refl)) as (rule & Hb & Hdec). rewrite Hb in Ho. cbn in Ho. injection Ho as <-.
    cbn [check_rule]. specialize (Hdec d Hd). cbn zeta in Hdec.
    assert (forall a', prefix_regex_of (name_text d) a' <-> prefix_matched r (name_text d) a') as Hp
      by (intros a'; unfold prefix_regex_of; rewrite Hr; split; [by intros (r' & [= <-] & ?)|by exists r]).
    assert (forall a', full_regex_of (name_text d) a' <-> matched (db_full_regex r) (name_text d) a') as Hf
      by (intros a'; unfold full_regex_of; rewrite Hr; split; [by intros (r' & [= <-] & ?)|by exists r]).
    destruct (RegexDomainRule_check rule d) as [[[] a']|e|]; cbn [bind]; [| |done..]; (eexists; split; [done|]); intros Hx Hs.
    + destruct Hdec as [[G Hmin]|[Hno [G Hmin]]].
      * apply by_prefix_regex; [done..|]. split; [by apply Hp|]. intros x ?%Hp. by apply Hmin.
      * apply by_full_regex; [done..| |].
        -- intros x ?%Hp. by apply (Hno x).
        -- split; [by apply Hf|]. intros x ?%Hf. by apply Hmin.
    + destruct Hdec as (_ & Hno & Hno'). apply missed_domain; [done..| | |done].
      * intros x ?%Hp. by apply (Hno x).
      * intros x ?%Hf. by apply (Hno' x).
  - injection Ho as <-. eexists. split; [done|]. intros Hx Hs.
    apply missed_domain; [done..| | |done]; unfold prefix_regex_of, full_regex_of; rewrite Hr; by intros x (r & ? & _).
Qed.

Lemma check_domain_decides set d :
  dst_host_ok -> compiled set -> domain_ok d ->
  exists r, DstHost_check set (Host_Domain d) = Ok r /\ decides (Host_Domain d) r.
Proof.
  intros [Hsok Hrok] (He & _ & Hs & Hr & Hm) Hd. unfold DstHost_check. rewrite He, Hs. apply (exact_first (Host_Domain d)).
  destruct (regex_last (hs_regex set) d (hs_missed_action set) Hrok Hr Hd Hm) as (r' & Hr' & Hlast).
  destruct (hb_suffix b) as [r|] eqn:Hb; cbn [option_map check_rule].
  - pose proof (suffix_decides r d (Hsok r eq_refl) Hd) as Hdec. cbn zeta in Hdec.
    assert (forall s a', suffix_entry s a' <-> tb_inner r !! reversed s = Some a') as Hent
      by (intros s a'; unfold suffix_entry; rewrite Hb; split; [by intros (r'' & [= <-] & ?)|by exists r]).
    destruct (SuffixRule_check _ d) as [[[] a]|e|]; cbn [bind]; [| |done..].
    + eexists. split; [done|]. intros Hx. destruct Hdec as (s & [G1 G2 G3]). apply (by_suffix d s a Hx).
      split; [by apply Hent|done|]. intros s' a' ?%Hent. by apply (G3 s' a').
    + exists r'. split; [done|]. intros Hx. apply Hlast; [done|]. intros s a' ?%Hent. by apply (Hdec s a').
  - exists r'. split; [done|]. intros Hx. apply Hlast; [done|]. unfold suffix_entry. rewrite Hb. by intros s a' (r & ? & _).
Qed.

Lemma build_compiles : dst_host_ok -> exists set, DstHostBuilder_build b = Ok set /\ compiled set.
Proof.
  intros [_ Hrok]. unfold DstHostBuilder_build, compiled.
  assert (exists o, option_build RegexDomainBuilder_build (hb_regex b) = Ok o) as [o Ho].
  { destruct (hb_regex b) as [r|]; [|by exists None]. destruct (regex_domain_decides r (Hrok r eq_refl)) as (rule & Hb & _).
    exists (Some rule). cbn. by rewrite Hb. }
  rewrite Ho. cbn [bind]. eexists. split; [done|]. split_and!; try done. apply missed_strictest.
Qed.

(** Whatever was built decides by the policy. *)
Lemma built_decides set host :
  dst_host_ok -> DstHostBuilder_build b = Ok set -> host_ok host -> exists r, DstHost_check set host = Ok r /\ decides host r.
Proof.
  intros Hok Hset Hh. destruct (build_compiles Hok) as (set' & Hset' & Hc). rewrite Hset in Hset'. injection Hset' as <-.
  destruct host as [ip|d]; [by apply check_ip_decides|by apply check_domain_decides].
Qed.

(** C2: a set of rules for hosts decides by its policy.  Building it does not
    panic when its expressions compile, whatever the order of the hash maps;
    every host then gets an answer, the one of the policy: an exact rule, the
    longest network with an address, the longest domain above a name by whole
    labels, the strictest expression for the closest domain, the strictest for
    whole names, or the strictest action for the rest. *)
Theorem dst_host_policy :
  dst_host_ok ->
  exists set, DstHostBuilder_build b = Ok set /\
    forall host, host_ok host -> exists r, DstHost_check set host = Ok r /\ decides host r.
Proof.
  intros Hok. destruct (build_compiles Hok) as (set & Hset & _). exists set. split; [done|].
  intros host Hh. by apply built_decides.
Qed.

End Policy.

(** Adding domains keeps the keys of the suffixes in order. *)
Lemma suffix_ok_new (missed : AclAction) : suffix_ok (TrieBuilder_new missed).
Proof. intros k a Hk. cbn in Hk. by rewrite lookup_empty in Hk. Qed.

Lemma suffix_ok_add d a r :
  domain_ok d -> suffix_ok r -> exists r', SuffixBuilder_add_node d a r = Ok r' /\ suffix_ok r'.
Proof.
  intros Hd Hr. unfold SuffixBuilder_add_node. rewrite (to_reversed_ok d (name_text d)) by by apply domain_ok_text.
  eexists. split; [done|]. intros k a'. cbn. rewrite lookup_insert_Some. intros [[<- _]|[_ Hk]]; eauto.
Qed.

(** ** Whole words in user agents *)

(** A name occurs in a text as a word: behind a blank or a semicolon or at the
    start, and before one of them or a slash or at the end. *)
Definition whole_word (name value : bytes) : Prop :=
  exists pre post, value = pre ++ name ++ post /\
    (forall c, last pre = Some c -> c ∈ [x20; x3b]) /\ (forall c, head post = Some c -> c ∈ [x2f; x20; x3b]).

Lemma str_find_some name s pos :
  str_find name s = Some pos ->
  exists a post, s = a ++ name ++ post /\ pos = len a /\
    forall a' post', s = a' ++ name ++ post' -> (length a <= length a')%nat.
Proof.
  revert pos. induction s as [|c s IH]; intros pos; cbn [str_find].
  - destruct (starts_with name []) eqn:Hs; [|done]. intros [= <-]. apply starts_with_true in Hs as [post Hs].
    exists [], post. split; [done|]. split; [done|]. cbn. lia.
  - destruct (starts_with name (c :: s)) eqn:Hs.
    + intros [= <-]. apply starts_with_true in Hs as [post Hs]. exists [], post. split; [done|]. split; [done|]. cbn. lia.
    + destruct (str_find name s) as [p|]; [|done]. intros [= <-]. destruct (IH p eq_refl) as (a & post & -> & -> & Hmin).
      exists (c :: a), post. split; [done|]. split; [by rewrite len_cons|]. intros [|c' a'] post' Heq.
      * cbn in Heq. apply not_true_iff_false in Hs. destruct Hs. apply starts_with_true. by exists post'.
      * injection Heq as -> Heq. specialize (Hmin _ _ Heq). cbn. lia.
Qed.

Lemma str_find_none name s a post : str_find name s = None -> s <> a ++ name ++ post.
Proof.
  revert a. induction s as [|c s IH]; intros a; cbn [str_find]; destruct (starts_with name _) eqn:Hs; try done;
    apply not_true_iff_false in Hs.
  - intros _ Heq. destruct Hs. apply starts_with_true. destruct a; [|done]. by exists post.
  - destruct (str_find name s); [done|]. intros _ Heq. destruct a as [|c' a].
    + destruct Hs. apply starts_with_true. by exists post.
    + injection Heq as -> Heq. by apply (IH a).
Qed.

(** Where the search goes on after an occurrence that is no word, no word is
    missed: a word that starts inside the occurrence comes behind a separator of
    the name. *)
Lemma no_word_inside name pre post pre' post' :
  x20 ∉ name -> x3b ∉ name ->
  pre ++ name ++ post = pre' ++ name ++ post' ->
  (forall c, last pre' = Some c -> c ∈ [x20; x3b]) ->
  (length pre < length pre')%nat -> (length (pre ++ name) <= length pre')%nat.
Proof.
  intros Hs1 Hs2 Heq Hlast Hlt. destruct (decide (length (pre ++ name) <= length pre')%nat) as [|Hn]; [done|exfalso].
  destruct (last pre') as [c|] eqn:Hc; [|apply last_None in Hc as ->; cbn in Hlt; lia].
  rewrite last_lookup in Hc. assert (c ∈ name) as Hin.
  { assert ((pre ++ name ++ post) !! Init.Nat.pred (length pre') = Some c) as Hl.
    { rewrite Heq, lookup_app_l; [done|]. destruct pre'; cbn in *; lia. }
    rewrite length_app in Hn. rewrite lookup_app_r, lookup_app_l in Hl by lia. by eapply list_elem_of_lookup_2. }
  specialize (Hlast c eq_refl). rewrite !elem_of_cons in Hlast. destruct Hlast as [-> | [-> | []%not_elem_of_nil]]; done.
Qed.

Lemma lookup_at_len (pre post : bytes) c : (pre ++ c :: post) !! Z.to_nat (len pre) = Some c.
Proof. unfold len. rewrite Nat2Z.id. by apply list_lookup_middle. Qed.

Lemma longer_prefix (done pre r r' : bytes) :
  done ++ r = pre ++ r' -> (length done <= length pre)%nat -> pre = done ++ drop (length done) pre.
Proof.
  intros Heq Hl. rewrite <- (take_drop (length done) pre) at 1. f_equal. apply (f_equal (take (length done))) in Heq.
  by rewrite take_app_length, take_app_le in Heq by lia.
Qed.

Section Words.

Context (name value : bytes).
Context (Hvalue : utf8 value) (Hname : utf8 name) (Hne : name <> []) (Hlen : len value <= isize_max).
Context (Hs1 : x20 ∉ name) (Hs2 : x3b ∉ name).

(** A word that starts at [n] or behind. *)
Definition word_from (n : nat) : Prop :=
  exists pre post, value = pre ++ name ++ post /\
    (forall c, last pre = Some c -> c ∈ [x20; x3b]) /\ (forall c, head post = Some c -> c ∈ [x2f; x20; x3b]) /\ (n <= length pre)%nat.

Lemma boundary_ok done vs : value = done ++ vs -> utf8 vs -> str_slice_from (E := Empty_set) value (len done) = Ok vs.
Proof using.
  intros Hv Hu. unfold str_slice_from. assert (is_char_boundary value (len done) = true) as ->; [|by rewrite Hv, slice_from_app].
  unfold is_char_boundary. destruct vs as [|a vs].
  - rewrite app_nil_r in Hv. rewrite Hv. by rewrite Z.eqb_refl, orb_true_r.
  - by rewrite Hv, lookup_at_len, (utf8_head a vs Hu), orb_true_r.
Qed.

Lemma index_last pre rest c :
  value = (pre ++ [c]) ++ rest ->
  (let? i := usub (len (pre ++ [c])) 1 in let? b := index value i in Ok (bool_decide (b ∈ [x20; x3b]))) =
    Ok (E := Empty_set) (bool_decide (c ∈ [x20; x3b])).
Proof using.
  intros Hv. rewrite usub_ok by len_lia. cbn [bind]. rewrite (index_ok _ _ c); [done|len_lia|].
  rewrite Hv, <- app_assoc. cbn [app]. replace (Z.to_nat (len (pre ++ [c]) - 1)) with (length pre) by (unfold len; rewrite length_app; cbn; lia).
  by apply list_lookup_middle.
Qed.

(** An occurrence and the bytes around it. *)
Lemma before_ok pre rest :
  value = pre ++ rest ->
  exists ok, (if len pre =? 0 then Ok true
     else let? i := usub (len pre) 1 in let? b := index value i in Ok (bool_decide (b ∈ [x20; x3b]))) = Ok (E := Empty_set) ok /\
    (ok = true <-> forall c, last pre = Some c -> c ∈ [x20; x3b]).
Proof using.
  intros Hv. destruct pre as [|c pre _] using rev_ind; [by exists true|].
  destruct (Z.eqb_spec (len (pre ++ [c])) 0); [len_lia|]. rewrite (index_last pre rest c Hv). eexists. split; [done|].
  rewrite last_snoc, bool_decide_eq_true. split; [by intros ? ? [= <-]|]. intros Hc. by apply Hc.
Qed.

Lemma after_ok pre post :
  value = pre ++ post ->
  exists ok, (if len pre <? len value then let? b := index value (len pre) in Ok (bool_decide (b ∈ [x2f; x20; x3b])) else Ok true)
      = Ok (E := Empty_set) ok /\
    (ok = true <-> forall c, head post = Some c -> c ∈ [x2f; x20; x3b]).
Proof using.
  intros Hv. destruct post as [|c post].
  - rewrite app_nil_r in Hv. rewrite Hv, Z.ltb_irrefl. by exists true.
  - assert (len value = len pre + (1 + len post)) as Hl by (rewrite Hv; len_lia). pose proof (len_nonneg pre). pose proof (len_nonneg post).
    destruct (Z.ltb_spec (len pre) (len value)); [|lia]. rewrite (index_ok _ _ c); [|lia|].
    + eexists. split; [done|]. rewrite bool_decide_eq_true. split; [by intros ? ? [= <-]|]. intros Hc. by apply Hc.
    + rewrite Hv. apply lookup_at_len.
Qed.

Lemma word_later done a post :
  value = done ++ a ++ name ++ post ->
  (forall a' post', a ++ name ++ post = a' ++ name ++ post' -> (length a <= length a')%nat) ->
  ~ ((forall c, last (done ++ a) = Some c -> c ∈ [x20; x3b]) /\ (forall c, head post = Some c -> c ∈ [x2f; x20; x3b])) ->
  word_from (length done) <-> word_from (length ((done ++ a) ++ name)).
Proof using Hs1 Hs2.
  intros Hv Hmin Hbad. split; intros (pre & post' & Hv' & Hb & Ha & Hn); exists pre, post'; (split_and!; [done..|]); [|rewrite !length_app in Hn; lia].
  pose proof (longer_prefix done pre _ _ (eq_trans (eq_sym Hv) Hv') Hn) as Hpre.
  set (a' := drop (length done) pre) in *. assert (length a <= length a')%nat as Hle.
  { apply (Hmin a' post'). apply (app_inv_head done). rewrite <- Hv, Hv', Hpre. by rewrite <- app_assoc. }
  apply (no_word_inside name (done ++ a) post pre post' Hs1 Hs2); [by rewrite <- Hv', Hv, <- app_assoc|done|].
  destruct (decide (length a = length a')) as [He|]; [|rewrite Hpre, !length_app; lia]. exfalso. apply Hbad.
  assert (done ++ a = pre /\ name ++ post = name ++ post') as [-> Hpost].
  { apply app_inj_1; [rewrite Hpre, !length_app; lia|]. by rewrite <- Hv', Hv, <- app_assoc. }
  apply app_inv_head in Hpost as ->. done.
Qed.

(** The loop finds a word if there is one, and ends. *)
Lemma ua_search_spec fuel : forall done vs,
  value = done ++ vs -> utf8 vs -> (length vs < fuel)%nat ->
  exists found, ua_search fuel name value (len done) = Ok found /\ (found = true <-> word_from (length done)).
Proof using All.
  assert (length name <> 0)%nat as Hpos by (intros E%nil_length_inv; done).
  induction fuel as [|fuel IH]; intros done vs Hv Hu Hf; [lia|]. cbn [ua_search].
  assert (len done + len vs = len value) as Hl by (rewrite Hv; len_lia).
  destruct (Z.ltb_spec (len done) (len value)) as [Hlt|Hge].
  2:{ exists false. split; [done|]. split; [done|]. intros (pre & post & Hv' & _ & _ & Hn).
      apply (f_equal length) in Hv'. rewrite !length_app in Hv'. unfold len in *. lia. }
  rewrite (boundary_ok done vs Hv Hu). cbn [bind]. destruct (str_find name vs) as [pos|] eqn:Hfind.
  2:{ exists false. split; [done|]. split; [done|]. intros (pre & post & Hv' & _ & _ & Hn). exfalso.
      apply (str_find_none name vs (drop (length done) pre) post Hfind). apply (app_inv_head done).
      rewrite <- Hv, Hv'. rewrite (longer_prefix done pre _ _ (eq_trans (eq_sym Hv) Hv') Hn) at 1. by rewrite <- app_assoc. }
  apply str_find_some in Hfind as (a & post & -> & -> & Hmin).
  assert (len done + len a + len name <= isize_max) as Hfit by (autorewrite with len in Hl; pose proof (len_nonneg post); lia).
  pose proof (len_nonneg name). unfold isize_max in *. rewrite uadd_ok by (unfold u64_max; lia). cbn [bind].
  assert (value = (done ++ a) ++ name ++ post) as Hv1 by by rewrite <- app_assoc.
  assert (value = ((done ++ a) ++ name) ++ post) as Hv2 by by rewrite <- app_assoc.
  replace (len done + len a) with (len (done ++ a)) by len_lia.
  destruct (before_ok (done ++ a) _ Hv1) as (before & -> & Hbefore). cbn [bind].
  rewrite uadd_ok by (rewrite len_app; unfold u64_max; lia). cbn [bind].
  replace (len (done ++ a) + len name) with (len ((done ++ a) ++ name)) by len_lia.
  assert (utf8 post) as Hpost by (apply (utf8_occurrence (done ++ a) name); [rewrite <- Hv1|..]; done).
  assert (length post < fuel)%nat as Hfuel by (rewrite !length_app in Hf; lia).
  destruct (IH _ _ Hv2 Hpost Hfuel) as (found & Hfound & Hiff).
  pose proof (word_later done a post Hv Hmin) as Hlater.
  destruct before; cbn [negb].
  - destruct (after_ok _ _ Hv2) as (after & -> & Hafter). cbn [bind]. destruct after; cbn [negb].
    + exists true. split; [done|]. split; [|done]. intros _. exists (done ++ a), post.
      split; [done|]. split; [by apply Hbefore|]. split; [by apply Hafter|]. rewrite length_app. lia.
    + exists found. split; [done|]. rewrite Hiff. symmetry. apply Hlater. intros [_ Ha]. by apply Hafter in Ha.
  - exists found. split; [done|]. rewrite Hiff. symmetry. apply Hlater. intros [Hb _]. by apply Hbefore in Hb.
Qed.

End Words.

Lemma ascii_lower_high b : 128 <= u8 b -> ascii_lower b = b.
Proof. intros Hb. unfold ascii_lower. by destruct (Z.leb_spec (u8 b) 90); [lia|rewrite andb_false_r]. Qed.

Lemma ascii_lower_low b : u8 b < 128 -> u8 (ascii_lower b) < 128.
Proof.
  intros Hb. unfold ascii_lower. destruct ((65 <=? u8 b) && (u8 b <=? 90)) eqn:He; [|done].
  rewrite andb_true_iff, !Z.leb_le in He. rewrite u8_to_u8_small; lia.
Qed.

Lemma lower_in_range lo hi b : 128 <= lo -> in_range lo hi (ascii_lower b) = in_range lo hi b.
Proof.
  intros Hlo. destruct (Z.lt_ge_cases (u8 b) 128) as [Hb|Hb]; [|by rewrite ascii_lower_high].
  pose proof (ascii_lower_low b Hb). by rewrite !in_range_false by lia.
Qed.

Lemma utf8_char_len_lower l : utf8_char_len (map ascii_lower l) = utf8_char_len l.
Proof.
  destruct l as [|a l]; [done|]. cbn [map utf8_char_len]. destruct (Z.ltb_spec (u8 a) 0x80) as [Ha|Ha].
  - pose proof (ascii_lower_low a Ha). by rewrite (proj2 (Z.ltb_lt _ _)).
  - rewrite (ascii_lower_high a Ha), (proj2 (Z.ltb_ge _ _) Ha).
    destruct l as [|b [|c [|d l]]]; cbn [map]; unfold is_cont; try rewrite !(lower_in_range 0x80) by lia; try done.
    all: destruct (u8 a =? 0xe0), (u8 a =? 0xf0); rewrite ?lower_in_range by lia; done.
Qed.

Lemma utf8_lower s : utf8 s -> utf8 (to_ascii_lowercase s).
Proof.
  unfold to_ascii_lowercase. induction 1 as [|c rest Hc Hlen Hrest IH]; [constructor|]. rewrite map_app. constructor; [|by rewrite <- map_app, utf8_char_len_lower, length_map|done].
  by destruct c.
Qed.

(** A name that is skipped, or is no word of the text. *)
Definition no_word (value : bytes) {A} (n : bytes * A) : Prop := (n.1 = []) \/ (~ whole_word n.1 value).

Definition ua_name_ok {A} (n : bytes * A) : Prop := utf8_valid n.1 = true /\ (x20 ∉ n.1) /\ (x3b ∉ n.1).

Lemma ua_check_names_spec {A} (names : list (bytes * A)) value :
  utf8 value -> len value <= isize_max -> Forall ua_name_ok names ->
  exists r, ua_check_names names value = Ok r /\
    match r with
    | Some a => exists before name after, names = before ++ (name, a) :: after /\ (name <> []) /\ whole_word name value /\ Forall (no_word value) before
    | None => Forall (no_word value) names
    end.
Proof.
  intros Hv Hl Hnames. induction Hnames as [|[name a] names (Hu & H1 & H2) _ (r & Hr & IH)]; cbn [ua_check_names].
  { by exists None. }
  assert (no_word value (name, a) -> exists r, Ok (E := Empty_set) r = ua_check_names names value /\
    match r with
    | Some a' => exists before name' after, (name, a) :: names = before ++ (name', a') :: after /\ (name' <> []) /\ whole_word name' value /\ Forall (no_word value) before
    | None => Forall (no_word value) ((name, a) :: names)
    end) as Hskip.
  { intros Hn. exists r. split; [done|]. destruct r as [a'|]; [|by constructor].
    destruct IH as (before & name' & after & -> & Hne & Hw & Hb). exists ((name, a) :: before), name', after.
    split_and!; [done..|by constructor]. }
  destruct (Z.eqb_spec (len name) 0) as [He|He].
  - destruct Hskip as (r' & <- & Hr'); [left; by apply len_0|]. by exists r'.
  - assert (name <> []) as Hne by (by intros ->).
    destruct (ua_search_spec name value Hv (utf8_valid_utf8 _ Hu) Hne Hl H1 H2 (S (length value)) [] value eq_refl Hv) as (found & Hf & Hiff); [lia|].
    change (len []) with 0 in Hf. rewrite Hf. cbn [bind].
    assert (word_from name value (length (@nil byte)) <-> whole_word name value) as Hw
      by (split; [intros (pre & post & ? & ? & ? & _); by exists pre, post|
                  intros (pre & post & ? & ? & ?); exists pre, post; split_and!; [done..|cbn; lia]]).
    destruct found.
    + exists (Some a). split; [done|]. exists [], name, names. split; [done|]. split; [done|]. split; [by apply Hw, Hiff|constructor].
    + destruct Hskip as (r' & <- & Hr'); [|by exists r']. right. intros Hword. cbn in Hword. apply Hw, Hiff in Hword. done.
Qed.

(** C25: a rule for user agents finds whole words.  The check ends without a panic
    for every text, also where it has characters of several bytes; the first name
    that is a word of it in lower case decides, and none is missed, when no name
    has a separator itself. *)
Theorem user_agent_words {A} (rule : AclUserAgentRule A) (ua_value : bytes) :
  utf8_valid ua_value = true -> len ua_value <= isize_max -> Forall ua_name_ok (ua_inner rule) ->
  let value := to_ascii_lowercase ua_value in
  exists r, UserAgent_check rule ua_value = Ok r /\
    match r with
    | (true, a) => exists before name after, ua_inner rule = before ++ (name, a) :: after /\
        (name <> []) /\ whole_word name value /\ Forall (no_word value) before
    | (false, a) => a = ua_missed_action rule /\ Forall (no_word value) (ua_inner rule)
    end.
Proof.
  intros Hu Hl Hnames value. assert (utf8 value) as Hv by by apply utf8_lower, utf8_valid_utf8.
  assert (len value <= isize_max) as Hl' by (unfold value, to_ascii_lowercase, len in *; by rewrite length_map).
  destruct (ua_check_names_spec (ua_inner rule) value Hv Hl' Hnames) as (r & Hr & Hspec).
  unfold UserAgent_check. fold value. rewrite Hr. cbn [bind]. destruct r as [a|]; eexists; (split; [done|]); done.
Qed.

(** ** Redirections *)

Section Redirections.

Context `{HashOrder} `{TriesLaws}.
Context (b : ResolveRedirectionBuilder).

Definition redirect_ok : Prop :=
  map_Forall (fun d v => domain_ok d /\ match v with Redirect_Domain to => domain_ok to | Redirect_Ip _ _ => True end) (rdb_trie b).

(** What is configured for a domain and the names below it. *)
Definition suffix_redirect (s : bytes) (v : ResolveRedirectionValue) : Prop :=
  exists d, rdb_trie b !! d = Some v /\ name_text d = s.

(** The answer for a name when [s] is the closest domain: the addresses, or the
    name below the other domain; the domain itself has no other name. *)
Definition redirected (name s : bytes) (v : ResolveRedirectionValue) : res DomainNameParseError (option ResolveRedirectionValue) :=
  match v with
  | Redirect_Ip ip4 ip6 => Ok (Some (Redirect_Ip ip4 ip6))
  | Redirect_Domain to =>
      match str_strip_suffix name (DOT :: s) with
      | None => Ok None
      | Some p =>
          if DomainName_MAX_FQDN_LEN <? len p + 1 + len (dn_fqdn to) then Err Domain_TooLong
          else Ok (Some (Redirect_Domain {| dn_fqdn := p ++ DOT :: dn_fqdn to |}))
      end
  end.

(** The host of an answer. *)
Definition first_host (strategy : QueryStrategy) (v : option ResolveRedirectionValue) : option Host :=
  match v with
  | None => None
  | Some (Redirect_Domain d) => Some (Host_Domain d)
  | Some (Redirect_Ip ip4 ip6) => Host_Ip <$> pick_first strategy ip4 ip6
  end.

Lemma replace_suffix_redirected d from to :
  domain_ok d -> domain_ok from -> domain_ok to ->
  (let? replaced := DomainName_replace_suffix d from to in
   match replaced with Some r => Ok (Some (Redirect_Domain r)) | None => Ok None end) =
  redirected (name_text d) (name_text from) (Redirect_Domain to).
Proof.
  intros Hd Hf Ht%domain_ok_text. unfold DomainName_replace_suffix, redirected.
  destruct (strip_suffix_cases (E := DomainNameParseError) d from Hd Hf) as (o & -> & Ho). cbn [bind].
  assert (str_strip_suffix (name_text d) (DOT :: name_text from) = o) as ->.
  { apply option_eq. intros p. by rewrite str_strip_suffix_spec, Ho. }
  destruct o as [p|]; [|done]. rewrite (as_str_ok to _ Ht). cbn [bind].
  rewrite Ht. replace (len p + 1 + len (name_text to) + 1) with (len p + 1 + len (name_text to ++ [DOT])) by len_lia.
  by destruct (_ <? _).
Qed.

Lemma build_redirect_ok l t :
  Forall (fun x => domain_ok x.1) l ->
  build_redirect_trie l t = Ok (trie_fill (map (fun x => (x.1, {| tv_from := x.1; tv_to := x.2 |})) l) t).
Proof.
  intros Hl. revert t. induction Hl as [|[d v] l Hd Hl IH]; intros t; [done|]. cbn.
  rewrite (to_reversed_ok d (name_text d)) by by apply domain_ok_text. cbn. by rewrite IH.
Qed.

Lemma redirect_entries l k v :
  l ≡ₚ map_to_list (rdb_trie b) -> redirect_ok ->
  trie_map (trie_fill (map (fun x => (x.1, {| tv_from := x.1; tv_to := x.2 |})) l) trie_new) !! k = Some v <->
  exists s, k = reversed s /\ (rdb_trie b !! tv_from v = Some (tv_to v) /\ name_text (tv_from v) = s).
Proof.
  intros Hl Hok. rewrite trie_fill_lookup.
  - split; intros (s & -> & Hs); exists s; (split; [done|]).
    + destruct Hs as (d & ([d' v'] & [= -> ->] & Hin)%list_elem_of_fmap & <-). split; [|done]. cbn in *.
      by rewrite Hl, elem_of_map_to_list in Hin.
    + destruct Hs as [Hv Hs]. exists (tv_from v). split; [|done]. apply list_elem_of_fmap. exists (tv_from v, tv_to v). split; [by destruct v|].
      by rewrite Hl, elem_of_map_to_list.
  - rewrite <- list_fmap_compose. change (NoDup (fst <$> l)). rewrite Hl. apply NoDup_fst_map_to_list.
  - apply Forall_forall. intros x ([d v'] & -> & Hin)%list_elem_of_fmap. cbn.
    rewrite Hl, elem_of_map_to_list in Hin. by destruct (Hok d v' Hin).
Qed.

(** What the domains above a name say of it. *)
Lemma redirect_below (r : ResolveRedirection) d :
  redirect_ok -> domain_ok d -> rd_ht r !! d = None -> rd_match_trie r = bool_decide (rdb_trie b <> ∅) ->
  rd_trie r = trie_fill (map (fun x => (x.1, {| tv_from := x.1; tv_to := x.2 |})) (hash_iter (rdb_trie b))) trie_new ->
  (forall s v, closest suffix_redirect (name_text d) s v -> query_value r d = redirected (name_text d) s v) /\
  ((forall s v, suffix_redirect s v -> ~ under (name_text d) s) -> query_value r d = Ok None) /\
  forall strategy, query_first_trie r d strategy = let? v := query_value r d in Ok (first_host strategy v).
Proof.
  intros Hok Hd Hht Hm Ht. unfold query_value. rewrite Hht.
  pose proof (fun k v => redirect_entries (hash_iter (rdb_trie b)) k v (hash_iter_perm _) Hok) as Hentries.
  unfold query_first_trie. rewrite Hm, Ht, !(to_reversed_ok d (name_text d)) by by apply domain_ok_text. cbn [bind].
  case_bool_decide as Hne.
  2:{ assert (rdb_trie b = ∅) as He by (destruct (decide (rdb_trie b = ∅)); [done|by destruct Hne]).
      split_and!; [|done..]. intros s v [(d' & Hd' & _) _ _]. by rewrite He, lookup_empty in Hd'. }
  destruct (get_ancestor_value _ (reversed (name_text d))) as [[from to]|] eqn:Hg.
  - destruct (ancestor_some _ _ Hentries _ _ Hg) as (s & [(Hs & <-) Hu Hmax]). cbn in *. destruct (Hok from to Hs) as [Hfrom Hto].
    assert (closest suffix_redirect (name_text d) (name_text from) to) as Hcl.
    { split; [by exists from|done|]. intros s' v' (d' & Hd' & <-) Hu'. by apply (Hmax _ {| tv_from := d'; tv_to := v' |}). }
    split_and!.
    + intros s v Hcl'. pose proof (closest_unique _ _ _ _ _ _ Hcl Hcl') as <-.
      destruct (cl_entry _ _ _ _ Hcl') as (d' & Hd' & Hs'). destruct (Hok d' v Hd') as [Hdok _].
      apply name_text_inj in Hs' as ->; [|done..]. rewrite Hs in Hd'. injection Hd' as <-.
      destruct to as [to|ip4 ip6]; [|done]. by apply replace_suffix_redirected.
    + intros Hno. by destruct (Hno (name_text from) to); [exists from|].
    + intros strategy. destruct to as [to|ip4 ip6]; cbn [bind first_host]; [|by destruct (pick_first _ _ _)].
      by destruct (DomainName_replace_suffix d from to) as [[?|]|?|].
  - split_and!; [|done..]. intros s v [(d' & Hd' & <-) Hu _].
    by destruct (ancestor_none _ _ Hentries _ (name_text d') {| tv_from := d'; tv_to := v |} Hg).
Qed.

(** C24: names are redirected by whole labels.  Building the table does not panic.
    The domains above a name say [below]: the value of the closest one, where an
    alias replaces that domain at the end of the name or fails when the new name
    is too long, and nothing for a name below no domain.  A name that is
    configured exactly gets its value and any other name [below].  The first host
    is the alias or the first address that the strategy picks from the exact
    value; when there is none, also because the exact addresses are all of the
    other family, it is the first host of [below]. *)
Theorem redirect_by_labels :
  redirect_ok ->
  exists r, Redirection_build b = Ok r /\
    forall d, domain_ok d ->
      exists below : res DomainNameParseError (option ResolveRedirectionValue),
        (forall s v, closest suffix_redirect (name_text d) s v -> below = redirected (name_text d) s v) /\
        ((forall s v, suffix_redirect s v -> ~ under (name_text d) s) -> below = Ok None) /\
        query_value r d = match rdb_ht b !! d with Some v => Ok (Some v) | None => below end /\
        forall strategy,
          query_first r d strategy =
          match first_host strategy (rdb_ht b !! d) with
          | Some host => Ok (Some host)
          | None => let? v := below in Ok (first_host strategy v)
          end.
Proof.
  intros Hok. unfold Redirection_build. rewrite build_redirect_ok.
  2:{ apply Forall_forall. intros [d v] Hin. rewrite hash_iter_perm, elem_of_map_to_list in Hin. by destruct (Hok d v Hin). }
  cbn [bind]. eexists. split; [done|]. intros d Hd. set (r := {| rd_ht := _ |}).
  destruct (redirect_below {| rd_ht := ∅; rd_trie := rd_trie r; rd_match_trie := rd_match_trie r |} d Hok Hd (lookup_empty d) eq_refl eq_refl)
    as (Hcl & Hno & Hfirst).
  eexists. split; [exact Hcl|]. split; [exact Hno|]. split.
  - unfold query_value. cbn [rd_ht r]. destruct (rdb_ht b !! d); [done|]. by rewrite lookup_empty.
  - intros strategy. rewrite <- Hfirst. unfold query_first. cbn [rd_ht r].
    destruct (rdb_ht b !! d) as [[alias|ip4 ip6]|]; cbn [first_host fmap option_fmap option_map]; [done| |done].
    by destruct (pick_first strategy ip4 ip6).
Qed.

End Redirections.

Module Sample.

#[local] Existing Instances plain_order plain_networks plain_networks_laws plain_tries plain_tries_laws literal_regexes literal_regexes_laws.

Definition net10 : AclNetworkRuleBuilder AclAction :=
  NetworkBuilder_add_network (V4 [x0a; x01; x00; x00], 16) PermitAndLog
    (NetworkBuilder_add_network (V4 [x0a; x00; x00; x00], 8) Forbid (NetworkBuilder_new Permit)).

Definition below_org : AclRegexDomainRuleBuilder AclAction :=
  RegexDomainBuilder_add_prefix_regex {| dn_fqdn := bs "example.org." |} (bs "internal") Forbid (RegexDomainBuilder_new Permit).

Definition rules : AclDstHostRuleSetBuilder AclAction :=
  {| hb_exact := None; hb_subnet := Some net10; hb_suffix := None; hb_regex := Some below_org |}.

Lemma rules_ok : dst_host_ok rules.
Proof.
  split; [done|]. intros r Hr. change (Some below_org = Some r) in Hr. assert (below_org = r) as <- by congruence.
  split; [done|]. intros d set Hd. unfold below_org, RegexDomainBuilder_add_prefix_regex in Hd. cbn [db_prefix_regex RegexDomainBuilder_new] in Hd.
  apply lookup_insert_Some in Hd as [[<- _]|[_ Hd]]; [|by rewrite lookup_empty in Hd]. split; [|done].
  exists (bs "example.org"). split; [reflexivity|apply Z.leb_le; reflexivity].
Defined.

(** The longer network decides, and an expression below its domain. *)
Lemma dst_host_policy_witness :
  exists set, DstHostBuilder_build rules = Ok set /\
    decides rules (Host_Ip (V4 [x0a; x01; x02; x03])) (true, PermitAndLog) /\
    decides rules (Host_Domain {| dn_fqdn := bs "internal.example.org." |}) (true, Forbid).
Proof.
  destruct (dst_host_policy rules rules_ok) as (set & Hset & Hdec). exists set. split; [exact Hset|].
  assert (DstHostBuilder_build rules = Ok set) as Hb by exact Hset.
  destruct (Hdec (Host_Ip (V4 [x0a; x01; x02; x03])) I) as (r & Hr & Hd).
  destruct (Hdec (Host_Domain {| dn_fqdn := bs "internal.example.org." |})) as (r' & Hr' & Hd').
  { exists (bs "internal.example.org"). split; [reflexivity|apply Z.leb_le; reflexivity]. }
  assert (forall host, (let? s := DstHostBuilder_build rules in DstHost_check s host) = DstHost_check set host) as Hs by (intros host; by rewrite Hb).
  split.
  - enough (r = (true, PermitAndLog)) as <- by exact Hd. rewrite <- Hs in Hr. vm_compute in Hr. by injection Hr.
  - enough (r' = (true, Forbid)) as <- by exact Hd'. rewrite <- Hs in Hr'. vm_compute in Hr'. by injection Hr'.
Defined.

(** A name behind a character of three bytes. *)
Definition agents : AclUserAgentRule AclAction := UserAgent_add_ua_name (bs "Go") Forbid (UserAgent_add_ua_name (bs "curl") Forbid (UserAgent_new Permit)).

Lemma user_agent_words_witness :
  UserAgent_check agents (bs "a" ++ [xe2; x82; xac] ++ bs "go go/1.0") = Ok (true, Forbid) /\ whole_word (bs "go") ([x61; xe2; x82; xac] ++ bs "go go/1.0").
Proof.
  destruct (user_agent_words agents (bs "a" ++ [xe2; x82; xac] ++ bs "go go/1.0")) as (r & Hr & Hw).
  - reflexivity.
  - apply Z.leb_le. reflexivity.
  - repeat constructor; apply not_in_by_decide; reflexivity.
  - cbv zeta in Hw. vm_compute in Hr. injection Hr as <-. split; [reflexivity|].
    destruct Hw as (before & name & after & Hin & _ & Hword & _).
    assert (name = bs "go" \/ name = bs "curl") as [->| ->].
    { vm_compute in Hin. destruct before as [|x [|y [|z before]]]; cbn in Hin; simplify_eq; auto. }
    + exact Hword.
    + destruct Hword as (pre & post & Heq & _). exfalso. revert Heq. vm_compute. intros Heq.
      do 13 (destruct pre as [|? pre]; [discriminate Heq|injection Heq as _ Heq]). by destruct pre.
Defined.

Definition redirects : ResolveRedirectionBuilder :=
  insert_suffix_alias {| dn_fqdn := bs "foo.com." |} {| dn_fqdn := bs "bar.net." |} {| rdb_ht := ∅; rdb_trie := ∅ |}.

Lemma redirect_by_labels_witness :
  exists r, Redirection_build redirects = Ok r /\
    query_value r {| dn_fqdn := bs "a.b.foo.com." |} = Ok (Some (Redirect_Domain {| dn_fqdn := bs "a.b.bar.net." |})).
Proof.
  destruct (redirect_by_labels redirects) as (r & Hr & Hq).
  - intros d v Hd. cbn [redirects insert_suffix_alias rdb_trie] in Hd. apply lookup_insert_Some in Hd as [[<- <-]|[_ Hd]]; [|by rewrite lookup_empty in Hd].
    split; [exists (bs "foo.com")|exists (bs "bar.net")]; (split; [reflexivity|apply Z.leb_le; reflexivity]).
  - exists r. split; [exact Hr|]. specialize (Hq {| dn_fqdn := bs "a.b.foo.com." |}).
    destruct Hq as (below & Hq & _ & Hval & _); [exists (bs "a.b.foo.com"); split; [reflexivity|apply Z.leb_le; reflexivity]|].
    rewrite Hval. cbn [redirects insert_suffix_alias rdb_ht]. rewrite lookup_empty.
    rewrite (Hq (bs "foo.com") (Redirect_Domain {| dn_fqdn := bs "bar.net." |})); [reflexivity|].
    split; [exists {| dn_fqdn := bs "foo.com." |}; split; reflexivity|right; by exists (bs "a.b")|].
    intros s v (d & Hd & <-) _. cbn [redirects insert_suffix_alias rdb_trie] in Hd.
    apply lookup_insert_Some in Hd as [[<- _]|[_ Hd]]; [apply Z.leb_le; reflexivity|by rewrite lookup_empty in Hd].
Defined.

End Sample.
