(* ===== verification/UdpRelay.v ===== *)
(** The UDP relay of the direct escaper: [vey-proxy/src/escape/direct_fixed/udp_relay/send.rs],
    with the lookups of [vey-proxy/src/resolve/handle.rs] ([ArriveFirstResolveJob])
    and the filter of [Acl.v].

    The traits of the code are classes: [LoggedResolveJob] and
    [IntegratedResolverHandle] of the resolver, [AsyncUdpSend] of the sockets.
    The crate [lru] is a class with the laws of its documentation, and the choice
    of [fastrand] is a parameter. *)

From Stdlib Require Import ZArith Lia Strings.Byte.
From stdpp Require Import base list gmap.
From S2P Require Import Prelude Reader AsyncIo Domain IpAddr Host Acl AclInstances AclSpec.

(** ** Lookups *)

Inductive ResolveServerError : Type :=
| Server_FormErr
| Server_ServFail
| Server_NotFound
| Server_NotImp
| Server_Refused
| Server_Other (code : Z).

Inductive ResolveDriverErrorReason : Type :=
| Reason_Owned (s : bytes)
| Reason_Static (s : bytes).

Inductive ResolveError : Type :=
| EmptyDomain
| EmptyResult
| InvalidRedirectionDomain
| NoResolverSet
| NoResolverRunning
| Resolve_RequestTimeout
| ServerError (e : ResolveServerError)
| DriverError (reason : ResolveDriverErrorReason)
| DriverTimeout.

Class Resolver (H J : Type) : Type := {
  is_closed : H -> bool;
  (** [crate::resolve::get_handle(handle.name())] *)
  get_handle : H -> option H;
  query_v4 : H -> DomainName -> res ResolveError J;
  query_v6 : H -> DomainName -> res ResolveError J;
  poll_query : J -> poll (res ResolveError (list IpAddr)) * J
}.

Inductive PickStrategy : Type := Pick_Random | Pick_Serial.

Record ResolveStrategy : Type := { st_query : QueryStrategy; st_pick : PickStrategy }.

Section Resolve.

Context {H J : Type} `{Resolver H J} (choice : list IpAddr -> option IpAddr).

Definition pick_best (self : ResolveStrategy) (all : list IpAddr) : option IpAddr :=
  if 1 <? len all then
    match st_pick self with
    | Pick_Serial => head all
    | Pick_Random => choice all
    end
  else last all.

Inductive ArriveFirstResolveJobInner : Type :=
| OnlyOne (job : J)
| First (job1 job2 : J).

Record ArriveFirstResolveJob : Type := {
  aj_domain : DomainName;
  aj_strategy : ResolveStrategy;
  aj_inner : option ArriveFirstResolveJobInner
}.

Definition ArriveFirst_new (handle : H) (strategy : ResolveStrategy) (domain : DomainName) : res ResolveError ArriveFirstResolveJob :=
  let? inner :=
    (match st_query strategy with
     | Ipv4Only => let? j := query_v4 handle domain in Ok (OnlyOne j)
     | Ipv6Only => let? j := query_v6 handle domain in Ok (OnlyOne j)
     | Ipv4First => let? j1 := query_v4 handle domain in let? j2 := query_v6 handle domain in Ok (First j1 j2)
     | Ipv6First => let? j1 := query_v6 handle domain in let? j2 := query_v4 handle domain in Ok (First j1 j2)
     end) in
  Ok {| aj_domain := domain; aj_strategy := strategy; aj_inner := Some inner |}.

Definition set_aj_inner (inner : option ArriveFirstResolveJobInner) (self : ArriveFirstResolveJob) : ArriveFirstResolveJob :=
  {| aj_domain := aj_domain self; aj_strategy := aj_strategy self; aj_inner := inner |}.

(** [poll_all_addrs] when one query is left, which is where its recursion ends. *)
Definition poll_only_one (job : J) (self : ArriveFirstResolveJob) : poll (res ResolveError (list IpAddr)) * ArriveFirstResolveJob :=
  match poll_query job with
  | (Pending, job) => (Pending, set_aj_inner (Some (OnlyOne job)) self)
  | (Ready t, _) => (Ready t, set_aj_inner None self)
  end.

Definition poll_all_addrs (self : ArriveFirstResolveJob) : poll (res ResolveError (list IpAddr)) * ArriveFirstResolveJob :=
  match aj_inner self with
  | None => (Ready (Ok []), self)
  | Some (OnlyOne job) => poll_only_one job self
  | Some (First job1 job2) =>
      match poll_query job1 with
      | (Ready (Ok (ip :: t)), _) => (Ready (Ok (ip :: t)), set_aj_inner None self)
      | (Ready (Ok []), _) | (Ready (Err _), _) => poll_only_one job2 self
      | (Ready Panic, _) => (Ready Panic, set_aj_inner None self)
      | (Pending, job1) =>
          match poll_query job2 with
          | (Ready (Ok (ip :: t)), _) => (Ready (Ok (ip :: t)), set_aj_inner None self)
          | (Ready (Ok []), _) | (Ready (Err _), _) => (Pending, set_aj_inner (Some (OnlyOne job1)) self)
          | (Ready Panic, _) => (Ready Panic, set_aj_inner None self)
          | (Pending, job2) => (Pending, set_aj_inner (Some (First job1 job2)) self)
          end
      end
  end.

Definition poll_best_addr (self : ArriveFirstResolveJob) : poll (res ResolveError IpAddr) * ArriveFirstResolveJob :=
  poll_bind (poll_all_addrs self) (fun ips self =>
    (Ready (match pick_best (aj_strategy self) ips with Some ip => Ok ip | None => Err EmptyResult end), self)).

End Resolve.
Arguments ArriveFirstResolveJobInner : clear implicits.
Arguments ArriveFirstResolveJob : clear implicits.

(** ** Sending *)

Class LruCache (L : Type) : Type := {
  lru_get : DomainName -> L -> option IpAddr * L;
  lru_push : DomainName -> IpAddr -> L -> L
}.

(** A message: its payload and its destination. *)
Abbreviation datagram := (bytes * SocketAddr)%type.

Class AsyncUdpSend (T : Type) : Type := {
  poll_send_to : T -> datagram -> poll (res io_error Z) * T;
  poll_batch_sendmsg : T -> list datagram -> poll (res io_error Z) * T
}.

Inductive UdpRelayRemoteError : Type :=
| NoListenSocket
| Remote_RecvFailed (bind : SocketAddr)
| SendFailed (bind to : SocketAddr)
| BatchSendFailed (bind : SocketAddr)
| Remote_InvalidPacket (bind : SocketAddr) (e : bytes)
| AddressNotSupported
| DomainNotResolved (e : ResolveError)
| ForbiddenTargetIpAddress (to : SocketAddr)
| RemoteSessionClosed (bind to : SocketAddr)
| RemoteSessionError (bind to : SocketAddr)
| InternalServerError (e : bytes).

Record UdpRelayPacket : Type := { pk_payload : bytes; pk_upstream : UpstreamAddr }.

Section Relay.

Context {H J L T : Type} `{Resolver H J} `{LruCache L} `{AsyncUdpSend T} `{IpNetworks}.
Context (choice : list IpAddr -> option IpAddr).

(** The counters of blocked addresses are the escaper's and, with a user, the
    user's. *)
Record DirectUdpRelayRemoteSend : Type := {
  rs_escaper_ip_blocked : Z;
  rs_user_ip_blocked : option Z;
  rs_inner_v4 : option T;
  rs_inner_v6 : option T;
  rs_bind_v4 : SocketAddr;
  rs_bind_v6 : SocketAddr;
  rs_egress_net_filter : AclNetworkRule AclAction;
  rs_checked_egress_ip : option IpAddr;
  rs_resolver_handle : H;
  rs_resolve_strategy : ResolveStrategy;
  rs_resolver_job : option (ArriveFirstResolveJob J);
  rs_resolve_retry_domain : option DomainName;
  rs_resolved_lru : L
}.

Definition unspecified_addr (ip : IpAddr) : SocketAddr := {| sa_ip := ip; sa_port := 0 |}.

Definition RemoteSend_new (escaper_ip_blocked : Z) (user_ip_blocked : option Z) (filter : AclNetworkRule AclAction)
    (handle : H) (strategy : ResolveStrategy) (lru : L) : DirectUdpRelayRemoteSend :=
  {| rs_escaper_ip_blocked := escaper_ip_blocked; rs_user_ip_blocked := user_ip_blocked; rs_inner_v4 := None; rs_inner_v6 := None;
     rs_bind_v4 := unspecified_addr (V4 (replicate 4 x00)); rs_bind_v6 := unspecified_addr (V6 (replicate 16 x00));
     rs_egress_net_filter := filter; rs_checked_egress_ip := None; rs_resolver_handle := handle; rs_resolve_strategy := strategy;
     rs_resolver_job := None; rs_resolve_retry_domain := None; rs_resolved_lru := lru |}.

(** The assignments to the fields of [self]. *)
Definition set_v4 (inner : option T) (bind : SocketAddr) (self : DirectUdpRelayRemoteSend) : DirectUdpRelayRemoteSend :=
  {| rs_escaper_ip_blocked := rs_escaper_ip_blocked self; rs_user_ip_blocked := rs_user_ip_blocked self;
     rs_inner_v4 := inner; rs_inner_v6 := rs_inner_v6 self; rs_bind_v4 := bind; rs_bind_v6 := rs_bind_v6 self;
     rs_egress_net_filter := rs_egress_net_filter self; rs_checked_egress_ip := rs_checked_egress_ip self;
     rs_resolver_handle := rs_resolver_handle self; rs_resolve_strategy := rs_resolve_strategy self;
     rs_resolver_job := rs_resolver_job self; rs_resolve_retry_domain := rs_resolve_retry_domain self; rs_resolved_lru := rs_resolved_lru self |}.

Definition set_v6 (inner : option T) (bind : SocketAddr) (self : DirectUdpRelayRemoteSend) : DirectUdpRelayRemoteSend :=
  {| rs_escaper_ip_blocked := rs_escaper_ip_blocked self; rs_user_ip_blocked := rs_user_ip_blocked self;
     rs_inner_v4 := rs_inner_v4 self; rs_inner_v6 := inner; rs_bind_v4 := rs_bind_v4 self; rs_bind_v6 := bind;
     rs_egress_net_filter := rs_egress_net_filter self; rs_checked_egress_ip := rs_checked_egress_ip self;
     rs_resolver_handle := rs_resolver_handle self; rs_resolve_strategy := rs_resolve_strategy self;
     rs_resolver_job := rs_resolver_job self; rs_resolve_retry_domain := rs_resolve_retry_domain self; rs_resolved_lru := rs_resolved_lru self |}.

Definition set_checked (blocked : Z) (user_blocked : option Z) (checked : option IpAddr) (self : DirectUdpRelayRemoteSend)
    : DirectUdpRelayRemoteSend :=
  {| rs_escaper_ip_blocked := blocked; rs_user_ip_blocked := user_blocked;
     rs_inner_v4 := rs_inner_v4 self; rs_inner_v6 := rs_inner_v6 self; rs_bind_v4 := rs_bind_v4 self; rs_bind_v6 := rs_bind_v6 self;
     rs_egress_net_filter := rs_egress_net_filter self; rs_checked_egress_ip := checked;
     rs_resolver_handle := rs_resolver_handle self; rs_resolve_strategy := rs_resolve_strategy self;
     rs_resolver_job := rs_resolver_job self; rs_resolve_retry_domain := rs_resolve_retry_domain self; rs_resolved_lru := rs_resolved_lru self |}.

Definition set_resolve (handle : H) (job : option (ArriveFirstResolveJob J)) (retry : option DomainName) (lru : L)
    (self : DirectUdpRelayRemoteSend) : DirectUdpRelayRemoteSend :=
  {| rs_escaper_ip_blocked := rs_escaper_ip_blocked self; rs_user_ip_blocked := rs_user_ip_blocked self;
     rs_inner_v4 := rs_inner_v4 self; rs_inner_v6 := rs_inner_v6 self; rs_bind_v4 := rs_bind_v4 self; rs_bind_v6 := rs_bind_v6 self;
     rs_egress_net_filter := rs_egress_net_filter self; rs_checked_egress_ip := rs_checked_egress_ip self;
     rs_resolver_handle := handle; rs_resolve_strategy := rs_resolve_strategy self;
     rs_resolver_job := job; rs_resolve_retry_domain := retry; rs_resolved_lru := lru |}.

Definition enable_v4 (inner : T) (bind : SocketAddr) (self : DirectUdpRelayRemoteSend) : DirectUdpRelayRemoteSend :=
  set_v4 (Some inner) bind self.

Definition enable_v6 (inner : T) (bind : SocketAddr) (self : DirectUdpRelayRemoteSend) : DirectUdpRelayRemoteSend :=
  set_v6 (Some inner) bind self.

(** [fetch_add(1)] of a counter wraps around. *)
Definition count_one (n : Z) : Z := (n + 1) mod 2 ^ 64.

Definition handle_udp_target_ip_acl_action (action : AclAction) (to_addr : SocketAddr) (self : DirectUdpRelayRemoteSend)
    : res UdpRelayRemoteError unit * DirectUdpRelayRemoteSend :=
  let forbid := match action with Permit | PermitAndLog => false | Forbid | ForbidAndLog => true end in
  if forbid then
    (Err (ForbiddenTargetIpAddress to_addr),
     set_checked (count_one (rs_escaper_ip_blocked self)) (option_map count_one (rs_user_ip_blocked self)) (rs_checked_egress_ip self) self)
  else (Ok tt, self).

Definition check_egress_ip (to_addr : SocketAddr) (self : DirectUdpRelayRemoteSend)
    : res UdpRelayRemoteError unit * DirectUdpRelayRemoteSend :=
  let to_ip := sa_ip to_addr in
  if bool_decide (rs_checked_egress_ip self = Some to_ip) then (Ok tt, self)
  else
    let action := (NetworkRule_check (rs_egress_net_filter self) to_ip).2 in
    match handle_udp_target_ip_acl_action action to_addr self with
    | (Ok _, self) => (Ok tt, set_checked (rs_escaper_ip_blocked self) (rs_user_ip_blocked self) (Some to_ip) self)
    | r => r
    end.

Definition poll_send_v4_packet (buf : bytes) (to : SocketAddr) (self : DirectUdpRelayRemoteSend)
    : poll (res UdpRelayRemoteError Z) * DirectUdpRelayRemoteSend :=
  match check_egress_ip to self with
  | (Ok _, self) =>
      match rs_inner_v4 self with
      | None => (Ready (Err AddressNotSupported), self)
      | Some inner =>
          let '(r, inner) := poll_send_to inner (buf, to) in
          let self := set_v4 (Some inner) (rs_bind_v4 self) self in
          match r with
          | Pending => (Pending, self)
          | Ready (Ok nw) => (Ready (if nw =? 0 then Err (SendFailed (rs_bind_v4 self) to) else Ok nw), self)
          | Ready (Err _) => (Ready (Err (SendFailed (rs_bind_v4 self) to)), self)
          | Ready Panic => (Ready Panic, self)
          end
      end
  | (Err e, self) => (Ready (Err e), self)
  | (Panic, self) => (Ready Panic, self)
  end.

Definition poll_send_v6_packet (buf : bytes) (to : SocketAddr) (self : DirectUdpRelayRemoteSend)
    : poll (res UdpRelayRemoteError Z) * DirectUdpRelayRemoteSend :=
  match check_egress_ip to self with
  | (Ok _, self) =>
      match rs_inner_v6 self with
      | None => (Ready (Err AddressNotSupported), self)
      | Some inner =>
          let '(r, inner) := poll_send_to inner (buf, to) in
          let self := set_v6 (Some inner) (rs_bind_v6 self) self in
          match r with
          | Pending => (Pending, self)
          | Ready (Ok nw) => (Ready (if nw =? 0 then Err (SendFailed (rs_bind_v6 self) to) else Ok nw), self)
          | Ready (Err _) => (Ready (Err (SendFailed (rs_bind_v6 self) to)), self)
          | Ready Panic => (Ready Panic, self)
          end
      end
  | (Err e, self) => (Ready (Err e), self)
  | (Panic, self) => (Ready Panic, self)
  end.

Definition poll_send_ip_packet (buf : bytes) (to : SocketAddr) (self : DirectUdpRelayRemoteSend)
    : poll (res UdpRelayRemoteError Z) * DirectUdpRelayRemoteSend :=
  match sa_ip to with
  | V4 _ => poll_send_v4_packet buf to self
  | V6 _ => poll_send_v6_packet buf to self
  end.

(** [ArriveFirstResolveJob::new(..)?], with the error converted. *)
Definition start_job (handle : H) (domain : DomainName) (self : DirectUdpRelayRemoteSend) : res UdpRelayRemoteError (ArriveFirstResolveJob J) :=
  map_err DomainNotResolved (ArriveFirst_new handle (rs_resolve_strategy self) domain).

(** The loop of [poll_send_packet] over lookups.  A lookup that fails is repeated
    once, and with a new resolver, so that four rounds are enough. *)
Fixpoint resolve_and_send (fuel : nat) (buf : bytes) (domain : DomainName) (port : Z) (self : DirectUdpRelayRemoteSend)
    : poll (res UdpRelayRemoteError Z) * DirectUdpRelayRemoteSend :=
  match fuel with
  | O => (Ready Panic, self)
  | S fuel' =>
      let handle := rs_resolver_handle self in
      let retry := rs_resolve_retry_domain self in
      let lru := rs_resolved_lru self in
      match rs_resolver_job self with
      | Some job =>
          match poll_best_addr choice job with
          | (Pending, job) => (Pending, set_resolve handle (Some job) retry lru self)
          | (Ready (Ok ip), job) =>
              poll_send_ip_packet buf {| sa_ip := ip; sa_port := port |}
                (set_resolve handle None retry (lru_push (aj_domain job) ip lru) self)
          | (Ready (Err e), _) =>
              match retry with
              | Some retry_domain =>
                  if is_closed handle then
                    match get_handle handle with
                    | Some handle =>
                        match start_job handle retry_domain self with
                        | Ok job => resolve_and_send fuel' buf domain port (set_resolve handle (Some job) None lru self)
                        | Err e => (Ready (Err e), set_resolve handle None None lru self)
                        | Panic => (Ready Panic, set_resolve handle None None lru self)
                        end
                    | None => (Ready (Err (DomainNotResolved NoResolverRunning)), set_resolve handle None None lru self)
                    end
                  else (Ready (Err (DomainNotResolved e)), set_resolve handle None None lru self)
              | None => (Ready (Err (DomainNotResolved e)), set_resolve handle None None lru self)
              end
          | (Ready Panic, _) => (Ready Panic, set_resolve handle None retry lru self)
          end
      | None =>
          match start_job handle domain self with
          | Ok job => resolve_and_send fuel' buf domain port (set_resolve handle (Some job) (Some domain) lru self)
          | Err e => (Ready (Err e), self)
          | Panic => (Ready Panic, self)
          end
      end
  end.

Definition set_lru (lru : L) (self : DirectUdpRelayRemoteSend) : DirectUdpRelayRemoteSend :=
  set_resolve (rs_resolver_handle self) (rs_resolver_job self) (rs_resolve_retry_domain self) lru self.

Definition poll_send_packet (buf : bytes) (to : UpstreamAddr) (self : DirectUdpRelayRemoteSend)
    : poll (res UdpRelayRemoteError Z) * DirectUdpRelayRemoteSend :=
  match ups_host to with
  | Host_Ip ip => poll_send_ip_packet buf {| sa_ip := ip; sa_port := ups_port to |} self
  | Host_Domain domain =>
      let '(cached, lru) := lru_get domain (rs_resolved_lru self) in
      let self := set_lru lru self in
      match cached with
      | Some ip => poll_send_ip_packet buf {| sa_ip := ip; sa_port := ups_port to |} self
      | None => resolve_and_send 4 buf domain (ups_port to) self
      end
  end.

(** The address of a packet that needs no lookup. *)
Definition packet_ip (p : UdpRelayPacket) (lru : L) : option IpAddr * L :=
  match ups_host (pk_upstream p) with
  | Host_Ip ip => (Some ip, lru)
  | Host_Domain domain => lru_get domain lru
  end.

(** The loop that counts the packets of one batch: those of the family of the
    first one, up to the first that is not permitted. *)
Fixpoint count_packets (first : IpAddr) (packets : list UdpRelayPacket) (count : Z) (self : DirectUdpRelayRemoteSend)
    : res UdpRelayRemoteError Z * DirectUdpRelayRemoteSend :=
  match packets with
  | [] => (Ok count, self)
  | p :: packets' =>
      let '(ip, lru) := packet_ip p (rs_resolved_lru self) in
      let self := set_lru lru self in
      match ip with
      | None => (Ok count, self)
      | Some ip =>
          if same_family first ip then
            match check_egress_ip {| sa_ip := ip; sa_port := ups_port (pk_upstream p) |} self with
            | (Ok _, self) => count_packets first packets' (count + 1) self
            | (Err e, self) => (if count =? 0 then Err e else Ok count, self)
            | (Panic, self) => (Panic, self)
            end
          else (Ok count, self)
      end
  end.

(** The messages of a batch; the addresses of domains are unwrapped. *)
Fixpoint batch_messages (packets : list UdpRelayPacket) (lru : L) : res UdpRelayRemoteError (list datagram) * L :=
  match packets with
  | [] => (Ok [], lru)
  | p :: packets' =>
      match packet_ip p lru with
      | (None, lru) => (Panic, lru)
      | (Some ip, lru) =>
          let '(msgs, lru) := batch_messages packets' lru in
          (let? msgs := msgs in Ok ((pk_payload p, {| sa_ip := ip; sa_port := ups_port (pk_upstream p) |}) :: msgs), lru)
      end
  end.

(** The associated function [poll_send_packets]: its result, the socket and the
    cache. *)
Definition send_batch (inner : T) (lru : L) (bind_addr : SocketAddr) (packets : list UdpRelayPacket)
    : poll (res UdpRelayRemoteError Z) * T * L :=
  let '(msgs, lru) := batch_messages packets lru in
  match msgs with
  | Ok msgs =>
      let '(r, inner) := poll_batch_sendmsg inner msgs in
      match r with
      | Pending => (Pending, inner, lru)
      | Ready (Ok count) => (Ready (if count =? 0 then Err (BatchSendFailed bind_addr) else Ok count), inner, lru)
      | Ready (Err _) => (Ready (Err (BatchSendFailed bind_addr)), inner, lru)
      | Ready Panic => (Ready Panic, inner, lru)
      end
  | Err e => (Ready (Err e), inner, lru)
  | Panic => (Ready Panic, inner, lru)
  end.

Definition poll_send_packets (packets : list UdpRelayPacket) (self : DirectUdpRelayRemoteSend)
    : poll (res UdpRelayRemoteError Z) * DirectUdpRelayRemoteSend :=
  match packets with
  | [] => (Ready (Ok 0), self)
  | p :: _ =>
      let '(ip, lru) := packet_ip p (rs_resolved_lru self) in
      let self := set_lru lru self in
      match ip with
      | None => poll_bind (poll_send_packet (pk_payload p) (pk_upstream p) self) (fun _ self => (Ready (Ok 1), self))
      | Some ip =>
          match count_packets ip packets 0 self with
          | (Ok count, self) =>
              match ip, rs_inner_v4 self, rs_inner_v6 self with
              | V4 _, Some inner, _ =>
                  match slice (E := UdpRelayRemoteError) packets 0 count with
                  | Ok batch =>
                      let '(r, inner, lru) := send_batch inner (rs_resolved_lru self) (rs_bind_v4 self) batch in
                      (r, set_v4 (Some inner) (rs_bind_v4 self) (set_lru lru self))
                  | _ => (Ready Panic, self)
                  end
              | V6 _, _, Some inner =>
                  match slice (E := UdpRelayRemoteError) packets 0 count with
                  | Ok batch =>
                      let '(r, inner, lru) := send_batch inner (rs_resolved_lru self) (rs_bind_v6 self) batch in
                      (r, set_v6 (Some inner) (rs_bind_v6 self) (set_lru lru self))
                  | _ => (Ready Panic, self)
                  end
              | _, _, _ => (Ready (Err AddressNotSupported), self)
              end
          | (Err e, self) => (Ready (Err e), self)
          | (Panic, self) => (Ready Panic, self)
          end
      end
  end.

End Relay.
Arguments DirectUdpRelayRemoteSend : clear implicits.
Arguments DirectUdpRelayRemoteSend H J L T {_}.

(** ** What is sent is permitted *)

Class ResolverLaws (H J : Type) `{Resolver H J} : Prop := {
  query_v4_total h d : query_v4 h d <> Panic;
  query_v6_total h d : query_v6 h d <> Panic;
  poll_query_total j : (poll_query j).1 <> Ready Panic
}.

(** A lookup in the cache returns what is cached, and drops nothing. *)
Class LruCacheLaws (L : Type) `{LruCache L} : Type := {
  lru_map : L -> gmap DomainName IpAddr;
  lru_get_spec d l : (lru_get d l).1 = lru_map l !! d /\ lru_map (lru_get d l).2 = lru_map l
}.

(** What a socket has sent: of a batch it takes a first part. *)
Class AsyncUdpSendLaws (T : Type) `{AsyncUdpSend T} : Type := {
  sent : T -> list datagram;
  send_to_sent t m : (poll_send_to t m).1 <> Ready Panic /\
    (sent (poll_send_to t m).2 = sent t \/ sent (poll_send_to t m).2 = sent t ++ [m]);
  sendmsg_sent t ms : (poll_batch_sendmsg t ms).1 <> Ready Panic /\
    exists n, sent (poll_batch_sendmsg t ms).2 = sent t ++ take n ms
}.

Section Safety.

Context {H J L T : Type} `{ResolverLaws H J} `{LruCacheLaws L} `{AsyncUdpSendLaws T} `{IpNetworks}.
Context (choice : list IpAddr -> option IpAddr).
Abbreviation relay := (DirectUdpRelayRemoteSend H J L T).

Definition permitted (filter : AclNetworkRule AclAction) (ip : IpAddr) : Prop :=
  forbid_early (NetworkRule_check filter ip).2 = false.

Definition all_permitted (filter : AclNetworkRule AclAction) (ms : list datagram) : Prop :=
  Forall (fun m => permitted filter (sa_ip m.2)) ms.

(** The address that was checked last is permitted, and so is every destination
    of what has been sent. *)
Record safe (self : relay) : Prop := {
  safe_checked ip : rs_checked_egress_ip self = Some ip -> permitted (rs_egress_net_filter self) ip;
  safe_v4 t : rs_inner_v4 self = Some t -> all_permitted (rs_egress_net_filter self) (sent t);
  safe_v6 t : rs_inner_v6 self = Some t -> all_permitted (rs_egress_net_filter self) (sent t)
}.

(** An operation does not panic, and keeps the filter and what is safe. *)
Definition keeps_safe {A} (self : relay) (out : poll (res UdpRelayRemoteError A) * relay) : Prop :=
  out.1 <> Ready Panic /\ rs_egress_net_filter out.2 = rs_egress_net_filter self /\ safe out.2.

Lemma keeps_from {A} (self self' : relay) (out : poll (res UdpRelayRemoteError A) * relay) :
  rs_egress_net_filter self' = rs_egress_net_filter self -> keeps_safe self' out -> keeps_safe self out.
Proof. intros Hf (Hp & Hf' & Hs). unfold keeps_safe. by rewrite <- Hf. Qed.

Lemma keeps_done {A} (self : relay) (r : poll (res UdpRelayRemoteError A)) : r <> Ready Panic -> safe self -> keeps_safe self (r, self).
Proof. by split. Qed.

Lemma safe_resolve handle job retry lru self : safe self -> safe (set_resolve handle job retry lru self).
Proof. by intros []. Qed.

Lemma safe_send_v4 self t t' bind ms :
  safe self -> rs_inner_v4 self = Some t -> sent t' = sent t ++ ms -> all_permitted (rs_egress_net_filter self) ms ->
  safe (set_v4 (Some t') bind self).
Proof.
  intros [Hc Hv4 Hv6] Ht Hsent Hms. split; [done| |done]. cbn. intros t0 [= <-]. unfold all_permitted in *.
  rewrite Hsent. apply Forall_app. split; [by apply Hv4|done].
Qed.

Lemma safe_send_v6 self t t' bind ms :
  safe self -> rs_inner_v6 self = Some t -> sent t' = sent t ++ ms -> all_permitted (rs_egress_net_filter self) ms ->
  safe (set_v6 (Some t') bind self).
Proof.
  intros [Hc Hv4 Hv6] Ht Hsent Hms. split; [done|done|]. cbn. intros t0 [= <-]. unfold all_permitted in *.
  rewrite Hsent. apply Forall_app. split; [by apply Hv6|done].
Qed.

(** The check lets permitted addresses through only, whether they are the last
    one or not, and changes no socket and no lookup. *)
Lemma check_egress_safe to self :
  safe self ->
  let '(r, self') := check_egress_ip to self in
  r <> Panic /\ safe self' /\ rs_egress_net_filter self' = rs_egress_net_filter self /\
  rs_resolved_lru self' = rs_resolved_lru self /\
  (r = Ok tt -> permitted (rs_egress_net_filter self) (sa_ip to)).
Proof.
  intros Hs. unfold check_egress_ip. case_bool_decide as Hc; [split_and!; try done; intros _; by apply (safe_checked _ Hs)|].
  unfold handle_udp_target_ip_acl_action. destruct Hs as [Hk Hv4 Hv6].
  destruct (NetworkRule_check _ (sa_ip to)).2 eqn:Ha; cbn; (split; [done|]); (split; [split; cbn; try done|split_and!; try done]).
  all: try (intros ip [= <-]); unfold permitted; by rewrite Ha.
Qed.

Lemma send_ip_keeps buf to self : safe self -> keeps_safe self (poll_send_ip_packet buf to self).
Proof.
  intros Hs. unfold poll_send_ip_packet, poll_send_v4_packet, poll_send_v6_packet.
  pose proof (check_egress_safe to self Hs) as Hc. destruct (check_egress_ip to self) as [r self'].
  destruct Hc as (Hp & Hs' & Hf & _ & Hok). apply (keeps_from self self' _ Hf). rewrite <- Hf in Hok.
  destruct r as [[]|e|]; [|by destruct (sa_ip to); apply keeps_done|done]. specialize (Hok eq_refl).
  assert (all_permitted (rs_egress_net_filter self') [(buf, to)]) as Hm by by repeat constructor.
  destruct (sa_ip to).
  - destruct (rs_inner_v4 self') as [t|] eqn:Ht; [|by apply keeps_done].
    pose proof (send_to_sent t (buf, to)) as [Hnp Hsent]. destruct (poll_send_to t (buf, to)) as [r t']. cbn in *.
    assert (safe (set_v4 (Some t') (rs_bind_v4 self') self')) as Hs''.
    { destruct Hsent as [Hsent|Hsent]; [|by apply (safe_send_v4 _ t _ _ _ Hs' Ht Hsent)].
      apply (safe_send_v4 _ t _ _ [] Hs' Ht); [by rewrite app_nil_r|constructor]. }
    destruct r as [[nw|e|]|]; [destruct (nw =? 0)|..]; done.
  - destruct (rs_inner_v6 self') as [t|] eqn:Ht; [|by apply keeps_done].
    pose proof (send_to_sent t (buf, to)) as [Hnp Hsent]. destruct (poll_send_to t (buf, to)) as [r t']. cbn in *.
    assert (safe (set_v6 (Some t') (rs_bind_v6 self') self')) as Hs''.
    { destruct Hsent as [Hsent|Hsent]; [|by apply (safe_send_v6 _ t _ _ _ Hs' Ht Hsent)].
      apply (safe_send_v6 _ t _ _ [] Hs' Ht); [by rewrite app_nil_r|constructor]. }
    destruct r as [[nw|e|]|]; [destruct (nw =? 0)|..]; done.
Qed.

Lemma start_job_total handle domain (self : relay) : start_job handle domain self <> Panic.
Proof.
  unfold start_job, ArriveFirst_new. pose proof (query_v4_total handle domain). pose proof (query_v6_total handle domain).
  destruct (st_query _), (query_v4 handle domain), (query_v6 handle domain); done.
Qed.

Lemma poll_best_addr_total job : (poll_best_addr (H := H) choice job).1 <> Ready Panic.
Proof.
  assert (forall j, (poll_only_one (H := H) j job).1 <> Ready Panic) as Hone.
  { intros j. unfold poll_only_one. pose proof (poll_query_total j). by destruct (poll_query j) as [[] ?]. }
  assert ((poll_all_addrs (H := H) job).1 <> Ready Panic) as Hall.
  { unfold poll_all_addrs. destruct (aj_inner job) as [[j|j1 j2]|]; [done| |done].
    pose proof (poll_query_total j1). pose proof (poll_query_total j2).
    destruct (poll_query j1) as [[[[|ip t]|e|]|] j1']; try done.
    by destruct (poll_query j2) as [[[[|ip t]|e|]|] j2']. }
  unfold poll_best_addr, poll_bind. destruct (poll_all_addrs job) as [[[ips|e|]|] job']; try done.
  cbn. by destruct (pick_best _ _ _).
Qed.

(** The rounds that are left for the lookup. *)
Definition rounds (self : relay) : nat :=
  match rs_resolver_job self, rs_resolve_retry_domain self with
  | None, _ => 3
  | Some _, Some _ => 2
  | Some _, None => 1
  end.

Lemma resolve_keeps fuel buf domain port : forall self,
  (rounds self <= fuel)%nat -> safe self -> keeps_safe self (resolve_and_send choice fuel buf domain port self).
Proof.
  induction fuel as [|fuel IH]; intros self Hr Hs; unfold rounds in Hr; [by repeat case_match; lia|]. cbn [resolve_and_send].
  destruct (rs_resolver_job self) as [job|].
  - pose proof (poll_best_addr_total job) as Hp. destruct (poll_best_addr choice job) as [[[ip|e|]|] job']; [|..].
    + eapply keeps_from; [|apply send_ip_keeps, safe_resolve, Hs]. done.
    + destruct (rs_resolve_retry_domain self) as [d|]; [|by split_and!; [..|apply safe_resolve]].
      destruct (is_closed _); [|by split_and!; [..|apply safe_resolve]].
      destruct (get_handle _) as [h|]; [|by split_and!; [..|apply safe_resolve]].
      pose proof (start_job_total h d self) as Hj. destruct (start_job h d self) as [j|e'|]; [|by split_and!; [..|apply safe_resolve]|done].
      eapply keeps_from; [|apply IH; [cbn; lia|by apply safe_resolve]]. done.
    + done.
    + by split_and!; [..|apply safe_resolve].
  - pose proof (start_job_total (rs_resolver_handle self) domain self) as Hj.
    destruct (start_job _ domain self) as [j|e'|]; [|by apply keeps_done|done].
    eapply keeps_from; [|apply IH; [cbn; lia|by apply safe_resolve]]. done.
Qed.

Lemma send_packet_keeps buf to self : safe self -> keeps_safe self (poll_send_packet choice buf to self).
Proof.
  intros Hs. unfold poll_send_packet. destruct (ups_host to) as [ip|d]; [by apply send_ip_keeps|].
  destruct (lru_get d _) as [[ip|] lru].
  - eapply keeps_from; [|by apply send_ip_keeps, safe_resolve]. done.
  - eapply keeps_from; [|apply resolve_keeps; [unfold rounds; repeat case_match; lia|by apply safe_resolve]]. done.
Qed.

(** The address of a packet, as the cache has it. *)
Definition known_ip (cache : gmap DomainName IpAddr) (p : UdpRelayPacket) : option IpAddr :=
  match ups_host (pk_upstream p) with
  | Host_Ip ip => Some ip
  | Host_Domain d => cache !! d
  end.

Lemma packet_ip_spec p lru : (packet_ip p lru).1 = known_ip (lru_map lru) p /\ lru_map (packet_ip p lru).2 = lru_map lru.
Proof. unfold packet_ip, known_ip. destruct (ups_host _); [done|]. apply lru_get_spec. Qed.

Definition ready (filter : AclNetworkRule AclAction) (cache : gmap DomainName IpAddr) (p : UdpRelayPacket) : Prop :=
  exists ip, known_ip cache p = Some ip /\ permitted filter ip.

Lemma count_packets_spec first packets : forall count self,
  safe self ->
  let '(r, self') := count_packets first packets count self in
  safe self' /\ rs_egress_net_filter self' = rs_egress_net_filter self /\ lru_map (rs_resolved_lru self') = lru_map (rs_resolved_lru self) /\
  match r with
  | Ok n => exists k, n = count + Z.of_nat k /\ (k <= length packets)%nat /\
      Forall (ready (rs_egress_net_filter self) (lru_map (rs_resolved_lru self))) (take k packets)
  | Err _ => True
  | Panic => False
  end.
Proof.
  induction packets as [|p packets IH]; intros count self Hs; cbn [count_packets].
  { split_and!; try done. exists 0%nat. split; [lia|]. by split. }
  pose proof (packet_ip_spec p (rs_resolved_lru self)) as [Hip Hlru]. destruct (packet_ip p (rs_resolved_lru self)) as [ip lru]. cbn in Hip, Hlru.
  assert (safe (set_lru lru self)) as Hs1 by by apply safe_resolve.
  assert (exists k, count = count + Z.of_nat k /\ (k <= length (p :: packets))%nat /\
    Forall (ready (rs_egress_net_filter self) (lru_map (rs_resolved_lru self))) (take k (p :: packets))) as Hstop
    by (exists 0%nat; split; [lia|]; split; [lia|constructor]).
  destruct ip as [ip|]; [|by split_and!]. destruct (same_family first ip); [|by split_and!].
  set (to := {| sa_ip := ip; sa_port := _ |}). pose proof (check_egress_safe to _ Hs1) as Hc.
  destruct (check_egress_ip to (set_lru lru self)) as [r self']. destruct Hc as (Hp & Hs' & Hf & Hl & Hok). cbn in Hf, Hl, Hok.
  destruct r as [[]|e|]; [|rewrite Hl; by destruct (count =? 0); split_and!|done].
  pose proof (IH (count + 1) self' Hs') as Hrec. destruct (count_packets first packets (count + 1) self') as [r self''].
  destruct Hrec as (Hs'' & Hf'' & Hl'' & Hr). rewrite Hf'', Hl'', Hf, Hl. split_and!; [done..|].
  destruct r as [n|e|]; [|done..]. destruct Hr as (k & -> & Hk & Hall). exists (S k). split; [lia|]. split; [cbn; lia|].
  cbn [take]. constructor; [exists ip; split; [done|by apply Hok]|]. by rewrite Hf, Hl, Hlru in Hall.
Qed.

Lemma batch_messages_spec filter packets : forall lru,
  Forall (ready filter (lru_map lru)) packets ->
  exists msgs lru', batch_messages packets lru = (Ok msgs, lru') /\ all_permitted filter msgs.
Proof.
  induction packets as [|p packets IH]; intros lru Hall; cbn [batch_messages]; [exists [], lru; by repeat constructor|].
  apply Forall_cons in Hall as [(ip & Hip & Hperm) Hall].
  pose proof (packet_ip_spec p lru) as [Hip' Hlru]. destruct (packet_ip p lru) as [ip' lru1]. cbn in *. rewrite Hip in Hip'. subst ip'.
  destruct (IH lru1) as (msgs & lru' & -> & Hm); [by rewrite Hlru|]. eexists _, _. split; [done|]. by constructor.
Qed.

(** A batch goes out: what the socket has taken is permitted. *)
Lemma send_batch_spec filter t lru bind packets :
  Forall (ready filter (lru_map lru)) packets ->
  let '(r, t', _) := send_batch t lru bind packets in
  r <> Ready Panic /\ exists ms, sent t' = sent t ++ ms /\ all_permitted filter ms.
Proof.
  intros Hall. unfold send_batch. destruct (batch_messages_spec filter packets lru Hall) as (msgs & lru' & -> & Hm).
  pose proof (sendmsg_sent t msgs) as [Hp [n Hn]]. destruct (poll_batch_sendmsg t msgs) as [r t']. cbn in *.
  assert (exists ms, sent t' = sent t ++ ms /\ all_permitted filter ms) as Hms by (exists (take n msgs); split; [done|by apply Forall_take]).
  destruct r as [[c|e|]|]; [destruct (c =? 0)|..]; done.
Qed.

Lemma send_packets_keeps packets self : safe self -> keeps_safe self (poll_send_packets choice packets self).
Proof.
  intros Hs. destruct packets as [|p packets]; [by apply keeps_done|]. unfold poll_send_packets.
  destruct (packet_ip p (rs_resolved_lru self)) as [ip lru].
  assert (safe (set_lru lru self)) as Hs1 by by apply safe_resolve. apply (keeps_from self (set_lru lru self)); [done|].
  destruct ip as [ip|].
  2:{ destruct (send_packet_keeps (pk_payload p) (pk_upstream p) _ Hs1) as (Hp & Hf & Hs').
      destruct (poll_send_packet choice _ _ (set_lru lru self)) as [[[n|e|]|] self']; by split_and!. }
  pose proof (count_packets_spec ip (p :: packets) 0 _ Hs1) as Hc.
  destruct (count_packets ip (p :: packets) 0 (set_lru lru self)) as [r self'].
  destruct Hc as (Hs' & Hf & Hl & Hr). apply (keeps_from _ self'); [done|].
  destruct r as [n|e|]; [|by apply keeps_done|done]. destruct Hr as (k & -> & Hk & Hall). rewrite <- Hf, <- Hl in Hall.
  assert (slice (E := UdpRelayRemoteError) (p :: packets) 0 (0 + Z.of_nat k) = Ok (take k (p :: packets))) as ->.
  { rewrite slice_ok by (unfold len; lia). cbn [drop Z.to_nat]. by rewrite Z.add_0_l, Z.sub_0_r, Nat2Z.id. }
  destruct ip, (rs_inner_v4 self') as [t4|] eqn:H4', (rs_inner_v6 self') as [t6|] eqn:H6'; try (by apply keeps_done).
  all: match goal with |- context [send_batch ?t ?l ?bind ?batch] =>
         pose proof (send_batch_spec _ t l bind batch Hall) as Hb; destruct (send_batch t l bind batch) as [[r t'] l'] end.
  all: destruct Hb as (Hp & ms & Hsent & Hms); split_and!; [done..|].
  1,2: apply (safe_send_v4 _ t4 _ _ ms); [by apply safe_resolve|done..].
  all: apply (safe_send_v6 _ t6 _ _ ms); [by apply safe_resolve|done..].
Qed.

(** The calls that a relay gets.  Between them the resolver that it shares with
    other tasks, and a query that is running, may change in any way, so the
    answers for a name may change over time. *)
Inductive relay_step : relay -> relay -> Prop :=
| step_enable_v4 self inner bind : sent inner = [] -> relay_step self (enable_v4 inner bind self)
| step_enable_v6 self inner bind : sent inner = [] -> relay_step self (enable_v6 inner bind self)
| step_packet self buf to : relay_step self (poll_send_packet choice buf to self).2
| step_packets self packets : relay_step self (poll_send_packets choice packets self).2
| step_resolver self handle job :
    relay_step self (set_resolve handle job (rs_resolve_retry_domain self) (rs_resolved_lru self) self).

Definition starts (filter : AclNetworkRule AclAction) (self : relay) : Prop :=
  exists blocked user handle strategy lru, self = RemoteSend_new blocked user filter handle strategy lru.

Lemma step_safe self self' : relay_step self self' -> safe self -> safe self' /\ rs_egress_net_filter self' = rs_egress_net_filter self.
Proof.
  intros Hstep Hs. destruct Hstep as [self inner bind Hi|self inner bind Hi|self buf to|self packets|self handle job].
  - destruct Hs as [Hc Hv4 Hv6]. split; [|done]. split; [done| |done]. cbn. intros t [= <-]. rewrite Hi. constructor.
  - destruct Hs as [Hc Hv4 Hv6]. split; [|done]. split; [done|done|]. cbn. intros t [= <-]. rewrite Hi. constructor.
  - by destruct (send_packet_keeps buf to self Hs) as (_ & ? & ?).
  - by destruct (send_packets_keeps packets self Hs) as (_ & ? & ?).
  - split; [by apply safe_resolve|done].
Qed.

(** C1: the relay sends to permitted addresses only.  Whatever packets and batches
    a relay is given after it is made, whatever the resolver, the cache and the
    sockets answer, every destination of what its sockets have taken is one that
    the egress filter permits, the address that was checked last included; and no
    call panics. *)
Theorem relay_sends_permitted (filter : AclNetworkRule AclAction) (self0 self : relay) :
  starts filter self0 -> rtc relay_step self0 self ->
  (forall t, rs_inner_v4 self = Some t \/ rs_inner_v6 self = Some t -> all_permitted filter (sent t)) /\
  (forall buf to, (poll_send_packet choice buf to self).1 <> Ready Panic) /\
  (forall packets, (poll_send_packets choice packets self).1 <> Ready Panic).
Proof.
  intros (blocked & user & handle & strategy & lru & ->) Hsteps.
  assert (safe self /\ rs_egress_net_filter self = filter) as [Hs Hf].
  { pattern self. eapply rtc_ind_r; [| |exact Hsteps]; [split; [by split|done]|].
    intros y z _ Hyz [Hs Hf]. destruct (step_safe _ _ Hyz Hs) as [? Hf']. by rewrite Hf'. }
  split_and!.
  - rewrite <- Hf. intros t [Ht|Ht]; [by apply (safe_v4 _ Hs)|by apply (safe_v6 _ Hs)].
  - intros buf to. apply (send_packet_keeps buf to self Hs).
  - intros packets. apply (send_packets_keeps packets self Hs).
Qed.

End Safety.

Module Sample.

#[local] Existing Instances plain_order plain_networks plain_networks_laws.

(** A resolver that knows one address, and is not there at first. *)
#[local] Instance one_address : Resolver bool Z := {|
  is_closed h := h;
  get_handle _ := Some false;
  query_v4 h _ := Ok (if h then 0 else 1);
  query_v6 h _ := Ok 0;
  poll_query j := (Ready (if j =? 0 then Err Resolve_RequestTimeout else Ok [V4 [xc0; x00; x02; x01]]), j)
|}.

#[local] Instance one_address_laws : ResolverLaws bool Z.
Proof. split; [done..|]. intros j. cbn. by destruct (j =? 0). Qed.

(** A cache that drops nothing, and a socket that takes all. *)
#[local] Instance map_cache : LruCache (gmap DomainName IpAddr) := {| lru_get d l := (l !! d, l); lru_push d ip l := <[d := ip]> l |}.

#[local] Instance map_cache_laws : LruCacheLaws (gmap DomainName IpAddr) := {| lru_map l := l; lru_get_spec _ _ := conj eq_refl eq_refl |}.

#[local] Instance list_socket : AsyncUdpSend (list datagram) := {|
  poll_send_to t m := (Ready (Ok (len m.1)), t ++ [m]);
  poll_batch_sendmsg t ms := (Ready (Ok (len ms)), t ++ ms)
|}.

#[local] Instance list_socket_laws : AsyncUdpSendLaws (list datagram).
Proof.
  refine {| sent t := t |}.
  - intros t m. split; [done|]. by right.
  - intros t ms. split; [done|]. exists (length ms). cbn. by rewrite firstn_all.
Defined.

Definition no_choice : list IpAddr -> option IpAddr := head.

Definition filter : AclNetworkRule AclAction :=
  NetworkBuilder_build match NetworkBuilder_new_egress Permit with Ok b => b | _ => NetworkBuilder_new Forbid end.

Definition relay0 : DirectUdpRelayRemoteSend bool Z (gmap DomainName IpAddr) (list datagram) :=
  RemoteSend_new 0 None filter true {| st_query := Ipv4First; st_pick := Pick_Serial |} ∅.

Definition to_domain : UpstreamAddr := {| ups_host := Host_Domain {| dn_fqdn := bs "example.net." |}; ups_port := 53 |}.
Definition to_loopback : UpstreamAddr := from_ip_and_port (V4 [x7f; x00; x00; x01]) 53.

(** A packet whose lookup is repeated with a new resolver; then a batch that ends
    before the loopback. *)
Definition relay1 := enable_v4 [] (unspecified_addr (V4 [x00; x00; x00; x00])) relay0.
Definition relay2 := (poll_send_packet no_choice (bs "first") to_domain relay1).2.
Definition relay3 := (poll_send_packets no_choice
  [{| pk_payload := bs "second"; pk_upstream := to_domain |}; {| pk_payload := bs "third"; pk_upstream := to_loopback |}] relay2).2.

Lemma relay_sends_permitted_witness :
  rs_inner_v4 relay3 = Some
    [(bs "first", {| sa_ip := V4 [xc0; x00; x02; x01]; sa_port := 53 |}); (bs "second", {| sa_ip := V4 [xc0; x00; x02; x01]; sa_port := 53 |})] /\
  rs_escaper_ip_blocked relay3 = 1 /\
  forall t, rs_inner_v4 relay3 = Some t -> all_permitted filter (sent t).
Proof.
  split; [vm_compute; reflexivity|]. split; [vm_compute; reflexivity|]. intros t Ht.
  apply (relay_sends_permitted no_choice filter relay0 relay3).
  - by exists 0, None, true, {| st_query := Ipv4First; st_pick := Pick_Serial |}, ∅.
  - apply (rtc_l _ _ relay1); [by constructor|]. apply (rtc_l _ _ relay2); [apply step_packet|].
    apply rtc_once. apply step_packets.
  - by left.
Defined.

End Sample.
