(* ===== verification/Access.v ===== *)
(** Who may reach what: the checks of a user ([vey-proxy/src/auth/user.rs]) and of
    a server ([check_upstream] of [serve/http_proxy/task/common.rs] and
    [serve/socks_proxy/task/common.rs]), and the receiver of the packets of a
    SOCKS client ([serve/socks_proxy/task/udp_associate/recv.rs]), which puts both
    behind the parser of [SocksUdp.v]. *)

From Stdlib Require Import ZArith Lia Strings.Byte.
From stdpp Require Import base list gmap.
From S2P Require Import Prelude Text ReadExt Domain IpAddr Host Socks SocksUdp Acl AclInstances AclSpec AclPolicy.

(** ** Users *)

Inductive ProxyRequestType : Type :=
| HttpForward
| HttpsForward
| FtpOverHttp
| HttpConnect
| HttpConnectUdp
| SocksTcpConnect
| SocksUdpAssociate.

#[export] Instance ProxyRequestType_eq_dec : EqDecision ProxyRequestType.
Proof. solve_decision. Defined.

#[export] Instance ProxyRequestType_countable : Countable ProxyRequestType.
Proof.
  refine (inj_countable
    (fun r => match r with
      | HttpForward => 0 | HttpsForward => 1 | FtpOverHttp => 2 | HttpConnect => 3
      | HttpConnectUdp => 4 | SocksTcpConnect => 5 | SocksUdpAssociate => 6 end)%nat
    (fun n => match n with
      | 0 => Some HttpForward | 1 => Some HttpsForward | 2 => Some FtpOverHttp | 3 => Some HttpConnect
      | 4 => Some HttpConnectUdp | 5 => Some SocksTcpConnect | 6 => Some SocksUdpAssociate | _ => None end)%nat _).
  by intros [].
Defined.

(** [AclProxyRequestRule]. *)
Record AclProxyRequestRule : Type := {
  pr_missed_action : AclAction;
  pr_request : AclHashRule ProxyRequestType AclAction
}.

Definition ProxyRequest_new (missed_action : AclAction) : AclProxyRequestRule :=
  {| pr_missed_action := missed_action; pr_request := HashRule_new missed_action |}.

Definition ProxyRequest_add_request_type (request : ProxyRequestType) (action : AclAction) (self : AclProxyRequestRule) : AclProxyRequestRule :=
  {| pr_missed_action := pr_missed_action self; pr_request := HashRule_add_node request action (pr_request self) |}.

Definition ProxyRequest_check_request (self : AclProxyRequestRule) (request : ProxyRequestType) : bool * AclAction :=
  HashRule_check (pr_request self) request.

(** The counters of a user that the checks advance. *)
Record UserForbiddenStats : Type := {
  fs_proto_banned : Z;
  fs_dest_denied : Z;
  fs_ip_blocked : Z;
  fs_ua_blocked : Z
}.

(** [fetch_add(1)] wraps around. *)
Definition add_one (n : Z) : Z := (n + 1) mod 2 ^ 64.

Definition add_proto_banned (s : UserForbiddenStats) : UserForbiddenStats :=
  {| fs_proto_banned := add_one (fs_proto_banned s); fs_dest_denied := fs_dest_denied s;
     fs_ip_blocked := fs_ip_blocked s; fs_ua_blocked := fs_ua_blocked s |}.

Definition add_dest_denied (s : UserForbiddenStats) : UserForbiddenStats :=
  {| fs_proto_banned := fs_proto_banned s; fs_dest_denied := add_one (fs_dest_denied s);
     fs_ip_blocked := fs_ip_blocked s; fs_ua_blocked := fs_ua_blocked s |}.

Definition add_ua_blocked (s : UserForbiddenStats) : UserForbiddenStats :=
  {| fs_proto_banned := fs_proto_banned s; fs_dest_denied := fs_dest_denied s;
     fs_ip_blocked := fs_ip_blocked s; fs_ua_blocked := add_one (fs_ua_blocked s) |}.

Section Access.

Context `{HashOrder} `{IpNetworks} `{Tries} `{Regexes}.

(** The filters of a [User]. *)
Record User : Type := {
  us_proxy_request_filter : option AclProxyRequestRule;
  us_dst_port_filter : option (AclExactPortRule AclAction);
  us_dst_host_filter : option (AclDstHostRuleSet AclAction);
  us_http_user_agent_filter : option (AclUserAgentRule AclAction)
}.

Definition User_check_proxy_request (self : User) (request : ProxyRequestType) (forbid_stats : UserForbiddenStats)
    : AclAction * UserForbiddenStats :=
  match us_proxy_request_filter self with
  | Some filter =>
      let action := (ProxyRequest_check_request filter request).2 in
      (action, if forbid_early action then add_proto_banned forbid_stats else forbid_stats)
  | None => (Permit, forbid_stats)
  end.

Definition User_check_upstream (self : User) (upstream : UpstreamAddr) (forbid_stats : UserForbiddenStats)
    : pure (AclAction * UserForbiddenStats) :=
  let check_host default_action :=
    match us_dst_host_filter self with
    | Some filter =>
        let? '(found, action) := DstHost_check filter (ups_host upstream) in
        if found && forbid_early action then Ok (action, add_dest_denied forbid_stats)
        else
          let default_action := restrict default_action action in
          Ok (default_action, if forbid_early default_action then add_dest_denied forbid_stats else forbid_stats)
    | None => Ok (default_action, if forbid_early default_action then add_dest_denied forbid_stats else forbid_stats)
    end in
  match us_dst_port_filter self with
  | Some filter =>
      let '(found, action) := ExactPort_check_port filter (ups_port upstream) in
      if found && forbid_early action then Ok (action, add_dest_denied forbid_stats)
      else check_host (restrict Permit action)
  | None => check_host Permit
  end.

(** The loop over the values of the header. *)
Fixpoint check_user_agents (filter : AclUserAgentRule AclAction) (user_agents : list bytes) (default_action : AclAction)
    (forbid_stats : UserForbiddenStats) : pure (AclAction * UserForbiddenStats) :=
  match user_agents with
  | [] => Ok (default_action, forbid_stats)
  | v :: user_agents' =>
      let? '(found, action) := UserAgent_check filter v in
      if found : bool then
        if forbid_early action then Ok (action, add_ua_blocked forbid_stats)
        else check_user_agents filter user_agents' (restrict default_action action) forbid_stats
      else check_user_agents filter user_agents' default_action forbid_stats
  end.

Definition User_check_http_user_agent (self : User) (user_agents : list bytes) (forbid_stats : UserForbiddenStats)
    : pure (option AclAction * UserForbiddenStats) :=
  match us_http_user_agent_filter self with
  | Some filter =>
      let? '(action, forbid_stats) := check_user_agents filter user_agents (ua_missed_action filter) forbid_stats in
      Ok (Some action, forbid_stats)
  | None => Ok (None, forbid_stats)
  end.

(** ** Servers *)

(** The filters of a [CommonTaskContext]; the one of the HTTP proxy and the one of
    the SOCKS proxy have the same check. *)
Record CommonTaskContext : Type := {
  cx_dst_port_filter : option (AclExactPortRule AclAction);
  cx_dst_host_filter : option (AclDstHostRuleSet AclAction)
}.

Definition Context_check_upstream (self : CommonTaskContext) (upstream : UpstreamAddr) : pure AclAction :=
  let check_host default_action :=
    match cx_dst_host_filter self with
    | Some filter =>
        let? '(found, action) := DstHost_check filter (ups_host upstream) in
        if found && forbid_early action then Ok action else Ok (restrict default_action action)
    | None => Ok default_action
    end in
  let default_action := if UpstreamAddr_is_empty upstream then Forbid else Permit in
  match cx_dst_port_filter self with
  | Some filter =>
      let '(found, action) := ExactPort_check_port filter (ups_port upstream) in
      if found && forbid_early action then Ok action else check_host (restrict default_action action)
  | None => check_host default_action
  end.

(** [drop_early] of a server: a client is dropped by its address. *)
Definition drop_early (ingress_net_filter : option (AclNetworkRule AclAction)) (client_addr : SocketAddr) (dropped : Z) : bool * Z :=
  match ingress_net_filter with
  | Some filter =>
      match (NetworkRule_check filter (sa_ip client_addr)).2 with
      | Permit | PermitAndLog => (false, dropped)
      | Forbid | ForbidAndLog => (true, add_one dropped)
      end
  | None => (false, dropped)
  end.

(** ** Packets of a SOCKS client *)

Inductive UdpRelayClientError : Type :=
| RecvFailed
| Client_SendFailed
| Client_AddressNotSupported
| InvalidPacket (e : SocksUdpPacketError)
| MismatchedClientAddress
| ForbiddenClientAddress
| ForbiddenTargetAddress.

(** [Socks5UdpAssociateClientRecv]; a user comes with its counters. *)
Record ClientRecv : Type := {
  cr_client_addr : SocketAddr;
  cr_ctx : CommonTaskContext;
  cr_user_ctx : option (User * UserForbiddenStats);
  cr_server_dest_denied : Z
}.

Definition ClientRecv_new (client : option SocketAddr) (ctx : CommonTaskContext) (user_ctx : option (User * UserForbiddenStats))
    (server_dest_denied : Z) : ClientRecv :=
  {| cr_client_addr := default {| sa_ip := V4 (replicate 4 x00); sa_port := 0 |} client; cr_ctx := ctx; cr_user_ctx := user_ctx;
     cr_server_dest_denied := server_dest_denied |}.

Definition set_counters (user_ctx : option (User * UserForbiddenStats)) (denied : Z) (self : ClientRecv) : ClientRecv :=
  {| cr_client_addr := cr_client_addr self; cr_ctx := cr_ctx self; cr_user_ctx := user_ctx; cr_server_dest_denied := denied |}.

Definition set_client_addr (addr : SocketAddr) (self : ClientRecv) : ClientRecv :=
  {| cr_client_addr := addr; cr_ctx := cr_ctx self; cr_user_ctx := cr_user_ctx self; cr_server_dest_denied := cr_server_dest_denied self |}.

Definition handle_user_upstream_acl_action (action : AclAction) : res UdpRelayClientError unit :=
  let forbid := match action with Permit | PermitAndLog => false | Forbid | ForbidAndLog => true end in
  if forbid then Err ForbiddenTargetAddress else Ok tt.

Definition handle_server_upstream_acl_action (action : AclAction) (self : ClientRecv) : res UdpRelayClientError unit * ClientRecv :=
  let forbid := match action with Permit | PermitAndLog => false | Forbid | ForbidAndLog => true end in
  if forbid then
    (Err ForbiddenTargetAddress,
     set_counters (option_map (fun '(u, s) => (u, add_dest_denied s)) (cr_user_ctx self)) (add_one (cr_server_dest_denied self)) self)
  else (Ok tt, self).

Definition check_server_upstream (upstream : UpstreamAddr) (self : ClientRecv) : res UdpRelayClientError unit * ClientRecv :=
  match Context_check_upstream (cr_ctx self) upstream with
  | Ok action => handle_server_upstream_acl_action action self
  | _ => (Panic, self)
  end.

Definition ClientRecv_check_upstream (upstream : UpstreamAddr) (self : ClientRecv) : res UdpRelayClientError unit * ClientRecv :=
  match cr_user_ctx self with
  | Some (user, stats) =>
      match User_check_upstream user upstream stats with
      | Ok (action, stats) =>
          let self := set_counters (Some (user, stats)) (cr_server_dest_denied self) self in
          match handle_user_upstream_acl_action action with
          | Ok _ => check_server_upstream upstream self
          | r => (r, self)
          end
      | _ => (Panic, self)
      end
  | None => check_server_upstream upstream self
  end.

Context (to_ascii : bytes -> option bytes).

Definition parse_and_check_header (buf : bytes) (self : ClientRecv) : res UdpRelayClientError (Z * UpstreamAddr) * ClientRecv :=
  match map_err InvalidPacket (parse_header to_ascii buf) with
  | Ok (off, upstream) =>
      let '(r, self) := ClientRecv_check_upstream upstream self in
      (let? _ := r in Ok (off, upstream), self)
  | Err e => (Err e, self)
  | Panic => (Panic, self)
  end.

(** [poll_recv] when a packet is there. *)
Definition recv_packet (buf : bytes) (self : ClientRecv) : res UdpRelayClientError (Z * Z * UpstreamAddr) * ClientRecv :=
  let '(r, self) := parse_and_check_header buf self in
  (let? '(off, upstream) := r in Ok (off, len buf, upstream), self).

(** The loop of [poll_recv_packets] over the packets that were received. *)
Fixpoint recv_packets (bufs : list bytes) (self : ClientRecv) : res UdpRelayClientError (list (Z * UpstreamAddr)) * ClientRecv :=
  match bufs with
  | [] => (Ok [], self)
  | buf :: bufs' =>
      match parse_and_check_header buf self with
      | (Ok meta, self) =>
          let '(r, self) := recv_packets bufs' self in
          (let? metas := r in Ok (meta :: metas), self)
      | (Err e, self) => (Err e, self)
      | (Panic, self) => (Panic, self)
      end
  end.

(** Is this the address the client has announced?  A socket address is an IP
    address and a port here; the flow label and the scope of an IPv6 socket
    address, which the code compares too, are not modelled. *)
Definition client_addr_matches (expected actual : SocketAddr) : bool :=
  let set_client := is_unspecified (sa_ip expected) || (sa_port expected =? 0) in
  if set_client then is_unspecified (sa_ip expected) || bool_decide (sa_ip expected = sa_ip actual)
  else bool_decide (sa_ip expected = sa_ip actual) && (sa_port expected =? sa_port actual).

(** [poll_recv_first] when a packet is there: the offset and the peer, or the
    error. *)
Definition recv_first (buf : bytes) (client_addr : SocketAddr) (ingress_net_filter : option (AclNetworkRule AclAction)) (self : ClientRecv)
    : res UdpRelayClientError (Z * Z * UpstreamAddr) * ClientRecv :=
  if negb (client_addr_matches (cr_client_addr self) client_addr) then (Err MismatchedClientAddress, self)
  else
    let forbid :=
      match ingress_net_filter with
      | Some filter => forbid_early (NetworkRule_check filter (sa_ip client_addr)).2
      | None => false
      end in
    if forbid then (Err ForbiddenClientAddress, self)
    else
      let self := set_client_addr client_addr self in
      let '(r, self) := parse_and_check_header buf self in
      (let? '(off, upstream) := r in Ok (off, len buf, upstream), self).

(** [recv_first_packet], on the packets that arrive; when none is left it waits. *)
Fixpoint recv_first_packet (packets : list (bytes * SocketAddr)) (ingress_net_filter : option (AclNetworkRule AclAction)) (self : ClientRecv)
    : option (res UdpRelayClientError (Z * Z * UpstreamAddr * SocketAddr)) * ClientRecv :=
  match packets with
  | [] => (None, self)
  | (buf, addr) :: packets' =>
      match recv_first buf addr ingress_net_filter self with
      | (Ok (off, nr, upstream), self) => (Some (Ok (off, nr, upstream, cr_client_addr self)), self)
      | (Err MismatchedClientAddress, self) => recv_first_packet packets' ingress_net_filter self
      | (Err e, self) => (Some (Err e), self)
      | (Panic, self) => (Some Panic, self)
      end
  end.

End Access.

(** ** What the checks let through *)

Lemma forbid_restrict a b : forbid_early (restrict a b) = forbid_early a || forbid_early b.
Proof. by destruct a, b. Qed.

Section Checks.

Context `{HashOrder} `{IpNetworksLaws} `{TriesLaws} `{RegexesLaws}.

(** The rule set of a filter is built from its configuration. *)
Definition configured (builder : option (AclDstHostRuleSetBuilder AclAction)) (filter : option (AclDstHostRuleSet AclAction)) : Prop :=
  match builder, filter with
  | Some b, Some set => dst_host_ok b /\ DstHostBuilder_build b = Ok set
  | None, None => True
  | _, _ => False
  end.

(** The policy of a configuration may answer like this. *)
Definition host_verdict (builder : option (AclDstHostRuleSetBuilder AclAction)) (host : Host) (forbid : bool) : Prop :=
  match builder with
  | Some b => exists r, decides b host r /\ forbid_early r.2 = forbid
  | None => forbid = false
  end.

Definition port_forbids (filter : option (AclExactPortRule AclAction)) (port : Z) : bool :=
  match filter with Some f => forbid_early (ExactPort_check_port f port).2 | None => false end.

Lemma host_check_verdict builder filter host :
  configured builder filter -> host_ok host ->
  exists forbid, host_verdict builder host forbid /\
    match filter with
    | Some set => exists found a, DstHost_check set host = Ok (found, a) /\ forbid_early a = forbid
    | None => forbid = false
    end.
Proof.
  intros Hc Hh. destruct builder as [b|], filter as [set|]; cbn in *; try done; [|by exists false].
  destruct Hc as [Hok Hb]. destruct (built_decides b set host Hok Hb Hh) as ([found a] & Hr & Hd).
  exists (forbid_early a). split; [by exists (found, a)|by exists found, a].
Qed.

Lemma user_check_spec u builder upstream stats :
  configured builder (us_dst_host_filter u) -> host_ok (ups_host upstream) ->
  exists a forbid, User_check_upstream u upstream stats = Ok (a, if forbid_early a then add_dest_denied stats else stats) /\
    host_verdict builder (ups_host upstream) forbid /\
    forbid_early a = port_forbids (us_dst_port_filter u) (ups_port upstream) || forbid.
Proof.
  intros Hc Hh. destruct (host_check_verdict _ _ _ Hc Hh) as (forbid & Hv & Hf). unfold User_check_upstream, port_forbids.
  set (port := match us_dst_port_filter u with Some f => _ | None => false end).
  assert (forall d, forbid_early d = port -> exists a, (match us_dst_host_filter u with
    | Some filter => let? '(found, action) := DstHost_check filter (ups_host upstream) in
        if found && forbid_early action then Ok (action, add_dest_denied stats)
        else Ok (restrict d action, if forbid_early (restrict d action) then add_dest_denied stats else stats)
    | None => Ok (d, if forbid_early d then add_dest_denied stats else stats) end) =
      Ok (E := Empty_set) (a, if forbid_early a then add_dest_denied stats else stats) /\ forbid_early a = port || forbid) as Hhost.
  { intros d Hd. destruct (us_dst_host_filter u) as [set|]; [|subst forbid; exists d; by rewrite orb_false_r].
    destruct Hf as (found & a & -> & <-). cbn [bind]. destruct (found && forbid_early a) eqn:Hfa.
    - apply andb_true_iff in Hfa as [_ Ha]. exists a. by rewrite Ha, orb_true_r.
    - exists (restrict d a). split; [done|]. by rewrite forbid_restrict, Hd. }
  subst port. destruct (us_dst_port_filter u) as [f|].
  - destruct (ExactPort_check_port f (ups_port upstream)) as [found action]. cbn [snd] in *.
    destruct (found && forbid_early action) eqn:Hfa.
    + apply andb_true_iff in Hfa as [_ Ha]. exists action, forbid. by rewrite Ha.
    + destruct (Hhost (restrict Permit action)) as (a & Ha & Hfa'); [by rewrite forbid_restrict|]. by exists a, forbid.
  - destruct (Hhost Permit eq_refl) as (a & Ha & Hfa). by exists a, forbid.
Qed.

Lemma context_check_spec ctx builder upstream :
  configured builder (cx_dst_host_filter ctx) -> host_ok (ups_host upstream) ->
  exists a forbid, Context_check_upstream ctx upstream = Ok a /\ host_verdict builder (ups_host upstream) forbid /\
    forbid_early a = UpstreamAddr_is_empty upstream || port_forbids (cx_dst_port_filter ctx) (ups_port upstream) || forbid.
Proof.
  intros Hc Hh. destruct (host_check_verdict _ _ _ Hc Hh) as (forbid & Hv & Hf). unfold Context_check_upstream, port_forbids.
  set (port := match cx_dst_port_filter ctx with Some f => _ | None => false end).
  set (empty := if UpstreamAddr_is_empty upstream then Forbid else Permit).
  assert (forbid_early empty = UpstreamAddr_is_empty upstream) as Hempty by (unfold empty; by destruct (UpstreamAddr_is_empty upstream)).
  assert (forall d, forbid_early d = UpstreamAddr_is_empty upstream || port -> exists a, (match cx_dst_host_filter ctx with
    | Some filter => let? '(found, action) := DstHost_check filter (ups_host upstream) in
        if found && forbid_early action then Ok action else Ok (restrict d action)
    | None => Ok d end) = Ok (E := Empty_set) a /\ forbid_early a = UpstreamAddr_is_empty upstream || port || forbid) as Hhost.
  { intros d Hd. destruct (cx_dst_host_filter ctx) as [set|]; [|subst forbid; exists d; by rewrite orb_false_r].
    destruct Hf as (found & a & -> & <-). cbn [bind]. destruct (found && forbid_early a) eqn:Hfa.
    - apply andb_true_iff in Hfa as [_ Ha]. exists a. by rewrite Ha, orb_true_r.
    - exists (restrict d a). split; [done|]. by rewrite forbid_restrict, Hd. }
  subst port. destruct (cx_dst_port_filter ctx) as [f|].
  - destruct (ExactPort_check_port f (ups_port upstream)) as [found action]. cbn [snd] in *.
    destruct (found && forbid_early action) eqn:Hfa.
    + apply andb_true_iff in Hfa as [_ Ha]. exists action, forbid. by rewrite Ha, orb_true_r.
    + destruct (Hhost (restrict empty action)) as (a & Ha & Hfa'); [by rewrite forbid_restrict, Hempty|]. by exists a, forbid.
  - destruct (Hhost empty) as (a & Ha & Hfa); [by rewrite orb_false_r|]. by exists a, forbid.
Qed.

(** Every host that a parser yields is well formed. *)
Lemma host_of_text_ok to_ascii s h : Host_from_str to_ascii s = Ok h -> host_ok h.
Proof.
  assert (forall o, host_ok (Host_from_maybe_mapped_ip6 o)) as Hm by (intros o; unfold Host_from_maybe_mapped_ip6; by case_match).
  assert (Host_from_domain_str to_ascii s = Ok h -> host_ok h) as Hd.
  { unfold Host_from_domain_str. destruct (DomainName_parse to_ascii s) as [d|e|] eqn:Hp; [|done..]. intros [= <-].
    by apply (DomainName_parse_ok to_ascii s). }
  unfold Host_from_str. destruct s as [|c s']; [done|]. destruct (bool_decide (c = x5b)).
  { intros (l & _ & Hl)%bind_ok. destruct (bool_decide _); [|done]. apply bind_ok in Hl as (inner & _ & Hl).
    destruct (ipv6_from_str inner); [|done]. injection Hl as <-. done. }
  destruct (bool_decide (c = x3a)); [destruct (ipv6_from_str _); [by intros [= <-]|done]|].
  destruct (is_dec_byte c); [destruct (ip_from_str _) as [[o|o]|]; [by intros [= <-]..|done]|].
  destruct (is_hex_letter c); [destruct (ipv6_from_str _); [by intros [= <-]|done]|done].
Qed.

Lemma parse_header_host to_ascii buf off upstream : parse_header to_ascii buf = Ok (off, upstream) -> host_ok (ups_host upstream).
Proof.
  unfold parse_header. destruct (len buf <=? 8); [done|]. intros (b0 & _ & Hp)%bind_ok. apply bind_ok in Hp as (b1 & _ & Hp).
  destruct (_ || _); [done|]. apply bind_ok in Hp as (b2 & _ & Hp). destruct (negb _); [done|].
  apply bind_ok in Hp as (atyp & _ & Hp). destruct (u8 atyp =? 1); [|destruct (u8 atyp =? 3)].
  - destruct (_ <? _); [done|]. apply bind_ok in Hp as (b & _ & Hp). apply bind_ok in Hp as ([ip b'] & _ & Hp).
    apply bind_ok in Hp as ([port b''] & _ & [= _ <-]). done.
  - apply bind_ok in Hp as (b4 & _ & Hp). destruct (_ <? _); [done|]. apply bind_ok in Hp as (d & _ & Hp).
    apply bind_ok in Hp as (d' & _ & Hp). apply bind_ok in Hp as (hi & _ & Hp). apply bind_ok in Hp as (lo & _ & Hp).
    apply bind_ok in Hp as (addr & Ha & [= _ <-]). unfold or_err in Ha.
    destruct (from_host_str_and_port _ _ _) as [a|e|] eqn:Hh; try done. injection Ha as <-.
    apply bind_ok in Hh as (host & Hh & [= <-]). by apply (host_of_text_ok to_ascii d').
  - destruct (u8 atyp =? 4); [|done]. destruct (_ <? _); [done|]. apply bind_ok in Hp as (b & _ & Hp).
    apply bind_ok in Hp as ([ip b'] & _ & Hp). apply bind_ok in Hp as ([port b''] & _ & [= _ <-]). done.
Qed.

(** The upstream passes the rules of a user or server: its port and its host. *)
Definition passes (ports : option (AclExactPortRule AclAction)) (hosts : option (AclDstHostRuleSetBuilder AclAction)) (upstream : UpstreamAddr) : Prop :=
  port_forbids ports (ups_port upstream) = false /\ host_verdict hosts (ups_host upstream) false.

Definition fails (ports : option (AclExactPortRule AclAction)) (hosts : option (AclDstHostRuleSetBuilder AclAction)) (upstream : UpstreamAddr) : Prop :=
  port_forbids ports (ups_port upstream) = true \/ host_verdict hosts (ups_host upstream) true.

(** The configurations of the user, if there is one, and of the server. *)
Record recv_ok (user_hosts server_hosts : option (AclDstHostRuleSetBuilder AclAction)) (self : ClientRecv) : Prop := {
  ro_user u s : cr_user_ctx self = Some (u, s) -> configured user_hosts (us_dst_host_filter u);
  ro_server : configured server_hosts (cx_dst_host_filter (cr_ctx self))
}.

Definition user_passes (user_hosts : option (AclDstHostRuleSetBuilder AclAction)) (self : ClientRecv) (upstream : UpstreamAddr) : Prop :=
  forall u s, cr_user_ctx self = Some (u, s) -> passes (us_dst_port_filter u) user_hosts upstream.

Definition user_fails (user_hosts : option (AclDstHostRuleSetBuilder AclAction)) (self : ClientRecv) (upstream : UpstreamAddr) : Prop :=
  exists u s, cr_user_ctx self = Some (u, s) /\ fails (us_dst_port_filter u) user_hosts upstream.

Definition server_passes (server_hosts : option (AclDstHostRuleSetBuilder AclAction)) (self : ClientRecv) (upstream : UpstreamAddr) : Prop :=
  UpstreamAddr_is_empty upstream = false /\ passes (cx_dst_port_filter (cr_ctx self)) server_hosts upstream.

Definition server_fails (server_hosts : option (AclDstHostRuleSetBuilder AclAction)) (self : ClientRecv) (upstream : UpstreamAddr) : Prop :=
  UpstreamAddr_is_empty upstream = true \/ fails (cx_dst_port_filter (cr_ctx self)) server_hosts upstream.

Lemma handle_user_spec action :
  handle_user_upstream_acl_action action = if forbid_early action then Err ForbiddenTargetAddress else Ok tt.
Proof. by destruct action. Qed.

Lemma server_check_spec server_hosts upstream self :
  configured server_hosts (cx_dst_host_filter (cr_ctx self)) -> host_ok (ups_host upstream) ->
  (check_server_upstream upstream self = (Ok tt, self) /\ server_passes server_hosts self upstream) \/
  (check_server_upstream upstream self =
     (Err ForbiddenTargetAddress,
      set_counters (option_map (fun '(u, s) => (u, add_dest_denied s)) (cr_user_ctx self)) (add_one (cr_server_dest_denied self)) self) /\
   server_fails server_hosts self upstream).
Proof.
  intros Hc Hh. destruct (context_check_spec (cr_ctx self) server_hosts upstream Hc Hh) as (a & forbid & Ha & Hv & Hf).
  unfold check_server_upstream, server_passes, server_fails, passes, fails. rewrite Ha.
  destruct a; [right|right|left|left]; (split; [done|]); cbn [forbid_early] in Hf;
    destruct (UpstreamAddr_is_empty upstream), (port_forbids _ _), forbid; cbn in Hf; auto; discriminate.
Qed.

(** The counters of the user and of the server, when a packet is refused. *)
Definition denied_by_user (self : ClientRecv) : ClientRecv :=
  set_counters (option_map (fun '(u, s) => (u, add_dest_denied s)) (cr_user_ctx self)) (cr_server_dest_denied self) self.

Definition denied_by_server (self : ClientRecv) : ClientRecv :=
  set_counters (option_map (fun '(u, s) => (u, add_dest_denied s)) (cr_user_ctx self)) (add_one (cr_server_dest_denied self)) self.

Lemma recv_check_spec user_hosts server_hosts upstream self :
  recv_ok user_hosts server_hosts self -> host_ok (ups_host upstream) ->
  (ClientRecv_check_upstream upstream self = (Ok tt, self) /\
     user_passes user_hosts self upstream /\ server_passes server_hosts self upstream) \/
  (ClientRecv_check_upstream upstream self = (Err ForbiddenTargetAddress, denied_by_user self) /\ user_fails user_hosts self upstream) \/
  (ClientRecv_check_upstream upstream self = (Err ForbiddenTargetAddress, denied_by_server self) /\
     user_passes user_hosts self upstream /\ server_fails server_hosts self upstream).
Proof.
  intros [Hu Hs] Hh. pose proof (server_check_spec server_hosts upstream self Hs Hh) as Hsrv.
  unfold ClientRecv_check_upstream, user_passes, user_fails, denied_by_user, denied_by_server.
  destruct (cr_user_ctx self) as [[u s]|] eqn:Hcu; cbn [option_map] in *.
  2:{ destruct Hsrv as [[-> Hp]|[-> Hp]]; [left|right; right]; split_and!; done. }
  destruct (user_check_spec u user_hosts upstream s (Hu u s eq_refl) Hh) as (a & forbid & -> & Hv & Hf).
  rewrite handle_user_spec. unfold passes, fails. destruct (forbid_early a).
  - right. left. split; [done|]. exists u, s. split; [done|]. destruct (port_forbids _ _); [by left|right]. cbn in Hf. by rewrite Hf.
  - symmetry in Hf. apply orb_false_iff in Hf as [Hport ->].
    assert (set_counters (Some (u, s)) (cr_server_dest_denied self) self = self) as -> by (destruct self; cbn in *; by subst).
    assert (forall u' s', Some (u, s) = Some (u', s') -> port_forbids (us_dst_port_filter u') (ups_port upstream) = false /\
      host_verdict user_hosts (ups_host upstream) false) as Hpass by by intros u' s' [= <- <-].
    destruct Hsrv as [[-> Hp]|[-> Hp]]; [left|right; right]; split_and!; done.
Qed.

(** C5: a packet of a SOCKS client goes on only where the user and the server let
    it.  The receiver never panics on a packet; it passes on the destination of
    its header exactly as it was parsed, when the rules for ports and hosts of
    the user and of the server permit it and it is not the unspecified address,
    and refuses it otherwise, which the counters of the user, and of the server
    where the server refused, record. *)
Theorem udp_packets_checked (to_ascii : bytes -> option bytes) (user_hosts server_hosts : option (AclDstHostRuleSetBuilder AclAction))
    (buf : bytes) (self : ClientRecv) :
  recv_ok user_hosts server_hosts self ->
  match parse_header to_ascii buf with
  | Err e => parse_and_check_header to_ascii buf self = (Err (InvalidPacket e), self)
  | Panic => False
  | Ok (off, upstream) =>
      (parse_and_check_header to_ascii buf self = (Ok (off, upstream), self) /\
         user_passes user_hosts self upstream /\ server_passes server_hosts self upstream) \/
      (parse_and_check_header to_ascii buf self = (Err ForbiddenTargetAddress, denied_by_user self) /\ user_fails user_hosts self upstream) \/
      (parse_and_check_header to_ascii buf self = (Err ForbiddenTargetAddress, denied_by_server self) /\
         user_passes user_hosts self upstream /\ server_fails server_hosts self upstream)
  end.
Proof.
  intros Hok. unfold parse_and_check_header. pose proof (parse_header_safe to_ascii buf) as Hsafe.
  destruct (parse_header to_ascii buf) as [[off upstream]|e|] eqn:Hp; [|done..]. cbn [map_err].
  pose proof (parse_header_host to_ascii buf off upstream Hp) as Hh.
  destruct (recv_check_spec user_hosts server_hosts upstream self Hok Hh) as [(-> & ? & ?)|[(-> & ?)|(-> & ? & ?)]]; cbn [bind]; auto.
Qed.

End Checks.

(** C34: an IPv4 address that is written as an IPv6 address passes the default
    filter for egress.  The filter forbids 127.0.0.1; the header of a packet of a
    SOCKS client keeps ::ffff:127.0.0.1 as an IPv6 address, which the filter does
    not find, though the same text as an upstream address is read as 127.0.0.1. *)
Theorem mapped_loopback_passes `{HashOrder} `{IpNetworksLaws} (to_ascii : bytes -> option bytes) :
  let loopback := [x7f; x00; x00; x01] in
  let mapped := mapped_prefix ++ loopback in
  exists b, NetworkBuilder_new_egress Permit = Ok b /\
    NetworkRule_check (NetworkBuilder_build b) (V4 loopback) = (true, Forbid) /\
    parse_header to_ascii ([x00; x00; x00; x04] ++ mapped ++ [x00; x35]) = Ok (22, from_ip_and_port (V6 mapped) 53) /\
    NetworkRule_check (NetworkBuilder_build b) (V6 mapped) = (false, Permit) /\
    UpstreamAddr_from_str to_ascii (bs "[::ffff:127.0.0.1]:53") = Ok (from_ip_and_port (V4 loopback) 53).
Proof.
  cbv zeta. destruct (default_egress_spec Permit) as (b & Hb & Hcheck). exists b.
  split; [done|]. rewrite !Hcheck by done. split_and!; vm_compute; reflexivity.
Qed.

Module Sample.

#[local] Existing Instances plain_order plain_networks plain_networks_laws plain_tries plain_tries_laws literal_regexes literal_regexes_laws.

Definition blocked_suffix : AclRadixTrieRuleBuilder AclAction :=
  {| tb_inner := {[ reversed (bs "example.com") := ForbidAndLog ]}; tb_missed_action := Permit |}.

(** The user may not reach the names below a domain, and no port but 53 and 443. *)
Definition blocked : AclDstHostRuleSetBuilder AclAction :=
  {| hb_exact := None; hb_subnet := None; hb_suffix := Some blocked_suffix; hb_regex := None |}.

Definition ports : AclExactPortRule AclAction :=
  ExactPort_add_port 53 Permit (ExactPort_add_port 443 Permit (ExactPort_new Forbid)).

Definition blocked_set : AclDstHostRuleSet AclAction :=
  match DstHostBuilder_build blocked with Ok set => set | _ => {| hs_exact := None; hs_subnet := None; hs_suffix := None; hs_regex := None; hs_missed_action := Permit |} end.

Definition user : User :=
  {| us_proxy_request_filter := None; us_dst_port_filter := Some ports; us_dst_host_filter := Some blocked_set;
     us_http_user_agent_filter := None |}.

Definition stats : UserForbiddenStats := {| fs_proto_banned := 0; fs_dest_denied := 0; fs_ip_blocked := 0; fs_ua_blocked := 0 |}.

Definition client : ClientRecv :=
  ClientRecv_new None {| cx_dst_port_filter := None; cx_dst_host_filter := None |} (Some (user, stats)) 0.

(** A packet for [www.example.com:53]. *)
Definition packet : bytes := [x00; x00; x00; x03; x0f] ++ bs "www.example.com" ++ [x00; x35] ++ bs "query".

Lemma blocked_ok : dst_host_ok blocked.
Proof.
  split; [|done]. intros r Hr k a Hk. change (Some blocked_suffix = Some r) in Hr. assert (blocked_suffix = r) as <- by congruence.
  unfold blocked_suffix in Hk. cbn [tb_inner] in Hk. apply lookup_singleton_Some in Hk as [<- _]. by exists (bs "example.com").
Defined.

Lemma blocked_built : DstHostBuilder_build blocked = Ok blocked_set.
Proof. unfold blocked_set. destruct (build_compiles blocked blocked_ok) as (set & Hset & _). by rewrite Hset. Defined.

Lemma udp_packets_checked_witness :
  parse_header Some packet = Ok (22, {| ups_host := Host_Domain {| dn_fqdn := bs "www.example.com." |}; ups_port := 53 |}) /\
  parse_and_check_header Some packet client = (Err ForbiddenTargetAddress, denied_by_user client).
Proof.
  assert (recv_ok (Some blocked) None client) as Hok.
  { split; [|exact I]. intros u s Hu. change (Some (user, stats) = Some (u, s)) in Hu. assert (user = u) as <- by congruence.
    exact (conj blocked_ok blocked_built). }
  split; [vm_compute; reflexivity|].
  destruct (udp_packets_checked Some (Some blocked) None packet client Hok) as [(Hp & _)|[(Hp & _)|(Hp & _)]]; [exfalso|exact Hp|exfalso].
  - apply (f_equal (fun x => match x.1 with Ok _ => true | _ => false end)) in Hp. vm_compute in Hp. discriminate Hp.
  - apply (f_equal (fun x => cr_server_dest_denied x.2)) in Hp. vm_compute in Hp. discriminate Hp.
Defined.

Lemma mapped_loopback_passes_witness :
  exists b, NetworkBuilder_new_egress Permit = Ok b /\
    NetworkRule_check (NetworkBuilder_build b) (V4 [x7f; x00; x00; x01]) = (true, Forbid).
Proof.
  destruct (mapped_loopback_passes Some) as (b & Hb & Hc & _). exists b. split; [exact Hb|exact Hc].
Defined.

End Sample.
